(* ===== verification/_CoqProject ===== *)
-Q . S2P
Prelude.v
GoStrings.v
GoFmt.v
GoJSON.v
Keys.v
Trie.v
EventHistory.v
MemoryStore.v
StoreInvariant.v
StoreProps.v
WatchProps.v
StateStore.v
PrefixSearch.v
Heap.v
NodeHeap.v
CacheProps.v
SchedulerFacts.v
Placement.v
Scheduler.v
PlacementProps.v
BatchProps.v
PreemptionProps.v
RebalanceProps.v
Determinism.v
SchedulerProps.v
SchedulerClaims.v
DeltaBuffer.v
Runner.v
RunnerProps.v
SchedulerRunner.v
RunnerExamples.v
TopologicalSort.v
ControllerHelpers.v
IntentResolver.v
InstanceController.v
InstanceEffects.v
InstanceCycle.v
InstanceProps.v
Authorizer.v
Conditions.v
APIAuthorizer.v
AuthController.v
AuthorizedStore.v
AuthorizedStoreProps.v
SecurityExamples.v
CircuitBreaker.v
LoadBalancer.v
Proxy.v
GoRegexp.v
Validation.v
KeyNames.v
KeyPatterns.v
KeySchema.v
Lexer.v
LexerProps.v
Ast.v
ParserCore.v
Parser.v
ParserProps.v
Formatter.v
FormatterChunks.v
FormatterBlocks.v
FormatterServices.v
FormatterDeclarations.v
FormatterProps.v
Compiler.v
CompilerProps.v
Tenant.v
TenantProps.v
NetworkPolicy.v
TenantResources.v
TenantResourcesProps.v
EndpointController.v
NetworkRules.v
DrainController.v
RolloutController.v
NodeFailureController.v
FailureController.v
NetworkController.v
