(* ===== verification/Prelude.v ===== *)
(** * CCattler: store, scheduler, controllers, authorization, tenants, proxy and language

    CCattler is a container orchestrator. All state of a cluster is a set of
    facts, byte strings under path-like keys ("observed/node/n1/state"), kept in
    a store with one revision counter (src/store/). Controllers
    (src/controllers/) each watch some prefixes of the key space; the runner
    (src/controllers/runner.go) scans these prefixes, hands the facts to the
    controller, and commits the changes it returns in one transaction that is
    guarded by the revisions of what was scanned. The scheduler
    (src/scheduler/) is the controller that decides on which node every pending
    instance runs; the intent resolver and the instance controller decide how
    many instances there are; others watch over nodes and instances that fail,
    drain nodes, roll out images, and derive endpoints and firewall rules.
    Operators describe the cluster in a small language (src/lang/) that is
    compiled to facts; tenants (src/tenant/) have quotas and a gate that admits
    their texts. The HTTP server reaches the store through a wrapper that
    authorizes every call (src/security/); the auth controller keeps the
    authorizer's grants in step with the facts. A proxy (src/network/) forwards
    requests to the instances.

    ** What is modelled, and where

    The Go language and its library:
    - [Prelude]: 64-bit integers with wrap-around ([wrap64], scope [go_scope]),
      the order of Go strings, stable sorting, the classes [GoMapRange] and
      [GoSort] for what the language leaves open (the order in which a map is
      visited, the order in which sort.Slice leaves equal elements), the hint
      database [go], and shared list lemmas;
    - [GoStrings] (strings, strconv), [GoFmt] (printing integers,
      json.Marshal of flat structs), [GoJSON] (json.Unmarshal into integer
      fields), [GoRegexp] (anchored regular expressions), [Heap]
      (container/heap, against a class [HeapInterface]).

    The store (src/store/):
    - [Trie]: trie.go. A [prefixTrie] is its root node; [trie_repr] says which
      set of keys it indexes;
    - [EventHistory]: the types of store.go and the ring buffer of memory.go;
    - [MemoryStore]: memory.go. The record [MemoryStore] has the fields of the Go
      struct except its mutexes; Get, Put, Delete, Scan, ScanWithRevision, Watch,
      Transaction, Close and the lease stubs are functions on it. Channels have
      an identity and a bounded buffer, and a send on a closed one is a panic;
    - [StoreInvariant], [StoreProps], [WatchProps]: its invariant, what each
      operation does, what a watch delivers;
    - [StateStore]: the interface of store.go as classes with laws, [StateStore]
      for the runner and [FactStore] for the compiler and the tenants, and the
      in-memory store as their instance;
    - [PrefixSearch]: prefix_search.go.

    Keys and names (src/types/):
    - [Keys], [KeyNames]: keys.go, and the names of state.go that are used;
    - [KeyPatterns], [KeySchema]: the patterns of the keys, and the table of all
      builders with their patterns;
    - [Validation]: validate.go.

    The scheduler (src/scheduler/):
    - [NodeHeap]: node_heap.go and cache.go. Heap entries are pointers into an
      arena, since the heap and the lookup map share and mutate them;
    - [SchedulerFacts], [Placement], [Scheduler]: scheduler.go, in the order
      extraction from facts, placement of batches and groups, and the rest of
      the cycle up to [Reconcile];
    - [CacheProps], [PlacementProps], [BatchProps], [PreemptionProps],
      [RebalanceProps], [Determinism], [SchedulerProps]: the properties of these
      parts; [SchedulerClaims]: what a whole cycle guarantees, and cycles on
      concrete facts.

    The runner (src/controllers/):
    - [DeltaBuffer]: delta_buffer.go and the handling of one watch event;
    - [Runner]: the reconciliation cycle of runner.go over any [StateStore], the
      types of controller.go and the table of write domains of
      topological_sort.go;
    - [RunnerProps]: what a list of changes does to the values of a store, and
      the properties of the runner; [SchedulerRunner]: the scheduler as a
      controller of the runner; [RunnerExamples]: runs on the in-memory store;
    - [TopologicalSort]: topological_sort.go and its properties.

    The controllers (src/controllers/), each with its properties:
    - [ControllerHelpers]: helpers.go;
    - [IntentResolver]: intent.go;
    - [InstanceController]: instance.go; [InstanceEffects] (the shares of the
      services, what is read, and what the changes do to the facts),
      [InstanceCycle] and [InstanceProps] (a whole cycle);
    - [EndpointController], [NetworkRules], [DrainController],
      [RolloutController], [NodeFailureController], [FailureController],
      [NetworkController]: endpoint.go, network_policy.go, drain.go, rollout.go,
      nodefailure.go, failure.go and network.go.

    Authorization (src/security/, and auth.go of src/controllers/):
    - [Authorizer]: rbac.go, abac.go, authorizer.go and the built-in roles,
      against the classes [Authorizer] and [PrefixAuthorizer];
    - [Conditions]: condition.go and principal.go;
    - [APIAuthorizer]: api_authorizer.go, scope.go, capability.go,
      fact_authorizer.go;
    - [AuthController]: auth.go;
    - [AuthorizedStore], [AuthorizedStoreProps]: authorized_store.go over the
      in-memory store and any [Authorizer], and as the API server is given it;
      [SecurityExamples].

    The proxy (src/network/):
    - [CircuitBreaker], [LoadBalancer]: circuit_breaker.go, load_balancer.go;
    - [Proxy]: forwardToBackend of userspace_proxy.go, as handlers whose atomic
      steps interleave.

    The configuration language (src/lang/):
    - [Lexer], [LexerProps]: token.go, lexer.go and the errors of errors.go, over
      a class [Unicode] for the tables of letters and digits;
    - [Ast]: ast.go; [ParserCore], [Parser], [ParserProps]: parser.go, a step on
      the tokens not yet read that returns a value or an error;
    - [Formatter]: formatter.go; [FormatterChunks], [FormatterBlocks],
      [FormatterServices], [FormatterDeclarations], [FormatterProps]: that
      formatted text is read back;
    - [Compiler], [CompilerProps]: compiler.go, with Apply and Diff over any
      [FactStore]. Reading a file is a parameter.

    Tenants (src/tenant/, and network_policy.go of src/security/):
    - [Tenant], [TenantProps]: tenant.go, quota.go, policy_gate.go;
    - [TenantResources], [TenantResourcesProps]: lifecycle.go,
      garbage_collector.go, shared_service.go, scoped_query.go, audit_view.go;
    - [NetworkPolicy]: network_policy.go and network_isolation.go.

    A definition has the name of the Go function or type it translates, with its
    type in front where several types have a method of that name. A
    panicking function returns an option, [None] being the panic; a Go error is
    the error case of a sum. Log output, metrics and tracing are left out. The
    clock is an argument, the generator of identifiers a sequence.

    ** What the theorems show

    - Store. The trie is a sorted set of keys and keeps no dead nodes. On every
      store an operation sequence can reach, no operation panics. Put, Delete,
      Transaction and ScanWithRevision are specified on every branch; a
      transaction is all or nothing and its facts share one revision; a compare
      that holds means nobody wrote the key in between (no ABA). A watcher sees
      the events of its pattern in order, and a lost event leaves an overflow
      marker; a scan followed by a watch from the next revision has no gap.
    - Scheduler. A cycle never panics, never proposes two changes to a key, and
      does not depend on the order of map iteration. Its placements are of
      pending instances without a placement, or are moves of running instances
      that opted in; every pending instance is either placed or reported
      with a reason. Without zone spread the heap-based selection equals a linear
      reference, and respects capacity, one-per-node mode and volume homes.
      Members of a group land on one node. A preempted instance has a lower
      priority than the one it makes room for, and the victim is a minimal one.
      Every rebalancing move decreases the sum of the squared loads, so moving
      comes to an end.
    - Runner. Capping keeps whole groups, the transaction fits the store's limit,
      a commit overwrites no concurrent update, an attempt nobody disturbs
      commits, and with the default settings a cycle ends without a panic. With
      the scheduler plugged in, no attempt fails with an error, and
      the placements it commits are the ones its next cycle reads.
    - Controllers. The topological order puts every controller after those that
      may write what it watches, and reports exactly the ones that depend on a
      cycle. One committed cycle of the intent resolver settles every effective
      count. A committed cycle of the instance controller never takes a service
      past its wanted count, reaches it when the distance fits one cycle, and
      creates an ordinal only when all lower ones run. One committed cycle of
      the endpoint controller leaves exactly the endpoints of the instances that
      serve, one of the network policy controller exactly the rules between
      addresses that the rules between services ask for, one of the node failure
      controller marks exactly the nodes that are silent and their instances; the
      cycle after it proposes nothing. Draining keeps disruption budgets, a
      rollout stops old instances only within its limits, and the failure
      controller treats an instance only with what is due, at most once in a
      cycle, and what is due is done unless a limit is reached. The network
      controller gives every service that exposes a port an address no other
      service has, and leaves it as long as the service is defined.
    - Authorization. The decisions of all authorizers are characterized and do
      not depend on map order. Through the wrapper, whatever is read or written
      the principal may read or write, and every checked call leaves one audit
      entry; composed with the built-in roles, the API server cannot touch the
      areas of secrets, credentials, enrollment and audit. After a cycle of the
      auth controller the grants are exactly those the facts state, and a
      start-up administrator stays one.
    - Tenants. The policy gate commits exactly the admissible texts and leaves
      the store as it was otherwise; a scan for some teams shows no service of
      another; a created tenant is read back, a deleted one leaves nothing
      behind; imports respect exports. The network policy engine decides as its
      rules say, from the text to the decision.
    - Proxy. The balancer picks a least loaded backend, and for every
      interleaving counts exactly the requests in flight; a circuit opens exactly
      at its threshold, and recovers.
    - Keys and names. No two of the 311 key builders share a key, keys are split
      back into what they were built from, and the validators accept exactly the
      names their comments describe.
    - Language. The lexer ends on every text and its tokens cover the text at the
      positions they state. The parser ends on every text, with a file that
      satisfies what the rest relies on or with an error that points into the
      text. Formatted files are read back as the same declarations. A file
      compiles exactly when its declarations are valid; what Diff lists is what
      Apply does, and Apply changes only keys of the operators' part.
    - Lemmas on concrete inputs, at the end of [WatchProps], [SchedulerClaims],
      [RunnerExamples], [TopologicalSort], [AuthorizedStoreProps], [Proxy],
      [FormatterProps], [CompilerProps], [TenantProps], [TenantResourcesProps]
      and of the controllers, evaluate the code where it does not do what its
      documentation or its purpose says.

    ** Fuel

    Some loops take fuel. [search_loop] shrinks an interval of length n and gets
    n steps; [takeGroupsLoop] consumes at least one change per step and gets the
    number of changes; [down_loop] and [up_loop] of [Heap] follow an index that
    strictly grows below the length of the heap, respectively strictly
    decreases, and get that length, respectively the index plus one;
    [kahnLoop] takes a controller off the queue per step and gets the number of
    controllers; the loops of [TrimSpace] drop a rune per step and get the length;
    [skipSpace] drops a byte per round and gets the length;
    [tokenizeLoop] reads a rune in every round but the last and gets the length
    plus one; the rounds of the parser's blocks each read a token or end the
    block and get the number of remaining tokens plus one. The theorems about
    them state what the finished loop has
    established (the position found, every group taken or left whole, the heap
    order restored, every controller sorted or on a cycle, the whole text
    covered), which a loop that stops early does not. All other recursion is
    structural.

    ** What is not modelled

    - Mutexes, goroutines, timers and select loops. A store operation is one step
      under its lock. Interleaving is modelled where it matters for the runner:
      each call of an attempt finds its own store, with any writes of others in
      between.
    - store/etcd.go (a client of a third-party service), leases (the in-memory
      store has stubs), the rate limiter (floating-point tokens) and the change
      stream (goroutines around the etcd client); the runner with leader
      election.
    - The autoscaler (floating-point averages), the controllers of cluster size,
      idle services and metrics around it, those of certificates, kernel tables and
      cloud providers (calls to the outside), and those of jobs, volumes, host names and routes, which have
      the same shape as the modelled ones; the typed records of types/codec.go,
      which the API server and the command line use.
    - Of the proxy, the activation of idle services, the gate tables and the
      servers; of the audit log, everything but its entries; of the tenants, the
      floating-point shares of the fair scheduler and encrypted secrets.
    - Secrets, certificates and enrollment (cryptography), DNS and the data
      planes, the agent, the runtimes, the API server and the command line (input
      and output around the store). *)

From Stdlib Require Export Ascii.
From stdpp Require Export gmap strings sorting.

#[export] Set Warnings "-clear-no-such-hyp,-register-all".

Declare Scope go_scope.
Delimit Scope go_scope with go.

(** ** Machine integers *)

Definition int64_min : Z := (- 2 ^ 63)%Z.
Definition int64_max : Z := (2 ^ 63 - 1)%Z.

(** Two's-complement wrap-around of Go's [int64] (and of [int] on a 64-bit
    platform): the value of an arithmetic expression is [wrap64] of its
    mathematical value. *)
Definition wrap64 (z : Z) : Z := ((z + 2 ^ 63) mod 2 ^ 64 - 2 ^ 63)%Z.

Definition in_int64 (z : Z) : Prop := (int64_min ≤ z ≤ int64_max)%Z.

Notation "x +! y" := (wrap64 (x + y)) (at level 50, left associativity) : go_scope.
Notation "x -! y" := (wrap64 (x - y)) (at level 50, left associativity) : go_scope.
Notation "x *! y" := (wrap64 (x * y)) (at level 40, left associativity) : go_scope.

Lemma wrap64_range z : in_int64 (wrap64 z).
Proof. unfold in_int64, wrap64, int64_min, int64_max. pose proof (Z.mod_pos_bound (z + 2 ^ 63) (2 ^ 64)). lia. Qed.

Lemma wrap64_id z : in_int64 z → wrap64 z = z.
Proof. unfold in_int64, wrap64, int64_min, int64_max. intros. rewrite Z.mod_small; lia. Qed.

Lemma wrap64_add_l a b : wrap64 (wrap64 a + b) = wrap64 (a + b).
Proof.
  unfold wrap64. f_equal.
  replace ((a + 2 ^ 63) `mod` 2 ^ 64 - 2 ^ 63 + b + 2 ^ 63)%Z
    with ((a + 2 ^ 63) `mod` 2 ^ 64 + b)%Z by lia.
  rewrite Zplus_mod_idemp_l. f_equal. lia.
Qed.

Lemma wrap64_comm3 a b c : wrap64 (wrap64 (a + b) + c) = wrap64 (wrap64 (a + c) + b).
Proof. rewrite !wrap64_add_l. f_equal. lia. Qed.

(** ** Boolean tests *)

(** Turns the boolean tests of the code into propositions that [lia] and
    [congruence] understand. *)
Ltac boolprop :=
  repeat match goal with
  | H : (_ && _) = true |- _ => apply andb_true_iff in H as [? ?]
  | H : (_ || _) = false |- _ => apply orb_false_iff in H as [? ?]
  | H : (_ && _) = false |- _ => apply andb_false_iff in H
  | H : (_ || _) = true |- _ => apply orb_true_iff in H
  | H : negb _ = true |- _ => apply negb_true_iff in H
  | H : negb _ = false |- _ => apply negb_false_iff in H
  | H : bool_decide _ = true |- _ => apply bool_decide_eq_true in H
  | H : bool_decide _ = false |- _ => apply bool_decide_eq_false in H
  | H : (_ <? _)%Z = true |- _ => apply Z.ltb_lt in H
  | H : (_ <? _)%Z = false |- _ => apply Z.ltb_ge in H
  | H : (_ <=? _)%Z = true |- _ => apply Z.leb_le in H
  | H : (_ <=? _)%Z = false |- _ => apply Z.leb_gt in H
  | H : (_ =? _)%Z = true |- _ => apply Z.eqb_eq in H
  | H : (_ =? _)%Z = false |- _ => apply Z.eqb_neq in H
  | H : (_ <? _)%nat = true |- _ => apply Nat.ltb_lt in H
  | H : (_ <? _)%nat = false |- _ => apply Nat.ltb_ge in H
  | H : (_ <=? _)%nat = true |- _ => apply Nat.leb_le in H
  | H : (_ <=? _)%nat = false |- _ => apply Nat.leb_gt in H
  | H : (_ =? _)%nat = true |- _ => apply Nat.eqb_eq in H
  | H : (_ =? _)%nat = false |- _ => apply Nat.eqb_neq in H
  end.

(** ** The byte-wise order of Go strings *)

(** [a < b] on Go strings compares them byte by byte. *)
Definition str_ltb (a b : string) : bool := String.ltb a b.
Definition str_lt (a b : string) : Prop := str_ltb a b = true.

Lemma ascii_compare_refl c : Ascii.compare c c = Eq.
Proof. unfold Ascii.compare. apply N.compare_refl. Qed.

Lemma ascii_compare_lt_trans a b c :
  Ascii.compare a b = Lt → Ascii.compare b c = Lt → Ascii.compare a c = Lt.
Proof. unfold Ascii.compare. rewrite !N.compare_lt_iff. lia. Qed.

Lemma string_compare_refl s : String.compare s s = Eq.
Proof. induction s as [|c s IH]; simpl; [done|]. by rewrite ascii_compare_refl. Qed.

Lemma str_ltb_compare a b : str_ltb a b = true ↔ String.compare a b = Lt.
Proof. unfold str_ltb, String.ltb. destruct (String.compare a b); naive_solver. Qed.

Lemma str_ltb_cons c1 s1 c2 s2 :
  str_ltb (String c1 s1) (String c2 s2) =
    match Ascii.compare c1 c2 with Lt => true | Eq => str_ltb s1 s2 | Gt => false end.
Proof. unfold str_ltb, String.ltb. simpl. by destruct (Ascii.compare c1 c2). Qed.

Lemma str_ltb_irrefl s : str_ltb s s = false.
Proof. unfold str_ltb, String.ltb. by rewrite string_compare_refl. Qed.

Lemma str_ltb_trans a b c :
  str_ltb a b = true → str_ltb b c = true → str_ltb a c = true.
Proof.
  revert b c. induction a as [|x a IH]; intros [|y b] [|z c]; try done.
  rewrite !str_ltb_cons.
  destruct (Ascii.compare x y) eqn:Hxy; [|clear IH|done].
  - apply Ascii.compare_eq_iff in Hxy as ->.
    destruct (Ascii.compare y z); eauto.
  - destruct (Ascii.compare y z) eqn:Hyz; [| |done].
    + apply Ascii.compare_eq_iff in Hyz as ->. by rewrite Hxy.
    + by rewrite (ascii_compare_lt_trans _ _ _ Hxy Hyz).
Qed.

Lemma str_ltb_total a b : str_ltb a b = false → str_ltb b a = false → a = b.
Proof.
  intros Hab Hba. destruct (String.compare a b) eqn:E.
  - by apply String.compare_eq_iff.
  - apply str_ltb_compare in E. congruence.
  - rewrite String.compare_antisym in E.
    destruct (String.compare b a) eqn:E'; try done.
    apply str_ltb_compare in E'. congruence.
Qed.

Lemma str_ltb_asym a b : str_ltb a b = true → str_ltb b a = false.
Proof.
  intros H. destruct (str_ltb b a) eqn:E; [|done].
  pose proof (str_ltb_trans _ _ _ H E) as Haa. by rewrite str_ltb_irrefl in Haa.
Qed.

(** ** Sorting *)

(** The laws of comparisons, for the comparisons that are built from others. *)
Create HintDb go.

(** What Go's [sort] package needs of a comparison. *)
Class StrictWeakOrder {A} (less : A → A → bool) : Prop := {
  swo_irrefl x : less x x = false;
  swo_trans x y z : less x y = true → less y z = true → less x z = true;
  swo_incomp x y z : less x y = false → less y z = false → less x z = false
}.

#[export] Instance str_ltb_swo : StrictWeakOrder str_ltb.
Proof.
  split; [apply str_ltb_irrefl|apply str_ltb_trans|].
  intros x y z Hxy Hyz. destruct (str_ltb x z) eqn:Hxz; [|done].
  destruct (str_ltb y x) eqn:Hyx.
  - pose proof (str_ltb_trans _ _ _ Hyx Hxz). congruence.
  - pose proof (str_ltb_total _ _ Hxy Hyx). congruence.
Qed.

#[export] Hint Resolve swo_irrefl swo_trans swo_incomp str_ltb_irrefl str_ltb_trans str_ltb_asym : go.

Definition sorted_by {A} (less : A → A → bool) (l : list A) : Prop :=
  StronglySorted (λ x y, less y x = false) l.

Fixpoint insert_by {A} (less : A → A → bool) (x : A) (l : list A) : list A :=
  match l with
  | [] => [x]
  | y :: l' => if less y x then y :: insert_by less x l' else x :: l
  end.

(** [sort.SliceStable]: the unique stable reordering, computed by insertion. *)
Definition sort_stable {A} (less : A → A → bool) (l : list A) : list A :=
  foldr (insert_by less) [] l.

(** [sort.Strings]: the order is total, so the result does not depend on the
    algorithm. *)
Definition sort_strings (l : list string) : list string := sort_stable str_ltb l.

Section sorting.
Context {A : Type} (less : A → A → bool).

Lemma insert_by_perm x l : insert_by less x l ≡ₚ x :: l.
Proof.
  induction l as [|y l IH]; simpl; [done|].
  destruct (less y x); [|done]. rewrite IH. constructor.
Qed.

Lemma sort_stable_perm l : sort_stable less l ≡ₚ l.
Proof. induction l as [|x l IH]; simpl; [done|]. by rewrite insert_by_perm, IH. Qed.

Context `{!StrictWeakOrder less}.

Lemma swo_asym x y : less x y = true → less y x = false.
Proof.
  intros Hxy. destruct (less y x) eqn:Hyx; [|done].
  pose proof (swo_trans _ _ _ Hxy Hyx) as Hxx. by rewrite swo_irrefl in Hxx.
Qed.

Lemma insert_by_sorted x l : sorted_by less l → sorted_by less (insert_by less x l).
Proof.
  unfold sorted_by. induction l as [|y l IH]; simpl; intros Hl.
  { repeat constructor. }
  apply StronglySorted_cons in Hl as [Hy Hl].
  destruct (less y x) eqn:Hyx.
  - apply StronglySorted_cons. split; [|by apply IH].
    rewrite insert_by_perm. constructor; [by apply swo_asym|done].
  - apply StronglySorted_cons. split; [|by apply StronglySorted_cons].
    constructor; [done|]. rewrite Forall_forall in Hy |- *.
    intros z Hz. exact (swo_incomp _ _ _ (Hy z Hz) Hyx).
Qed.

Lemma sort_stable_sorted l : sorted_by less (sort_stable less l).
Proof. induction l; simpl; [constructor|]. by apply insert_by_sorted. Qed.

(** A sorted list is determined by its elements when the comparison
    separates them. *)
Lemma sorted_by_unique l1 l2 :
  (∀ x y, x ∈ l1 → y ∈ l2 → less x y = false → less y x = false → x = y) →
  sorted_by less l1 → sorted_by less l2 → l1 ≡ₚ l2 → l1 = l2.
Proof. intros Hsep. apply StronglySorted_unique_strong. naive_solver. Qed.
End sorting.

Lemma sort_strings_unique l l' : l ≡ₚ l' → sort_strings l = sort_strings l'.
Proof.
  intros H. apply (sorted_by_unique str_ltb).
  - intros. by apply str_ltb_total.
  - apply sort_stable_sorted, _.
  - apply sort_stable_sorted, _.
  - unfold sort_strings. by rewrite !sort_stable_perm.
Qed.

(** ** Lists *)

Lemma filter_nothing {A} (P : A → Prop) `{∀ x, Decision (P x)} l : Forall (λ x, ¬ P x) l → filter P l = [].
Proof. induction 1; [done|]. by rewrite filter_cons_False. Qed.

Lemma filter_everything {A} (P : A → Prop) `{∀ x, Decision (P x)} l : Forall P l → filter P l = l.
Proof. induction 1 as [|x l Hx _ IH]; [done|]. by rewrite filter_cons_True, IH. Qed.

Lemma submseteq_nodup {A} (l k : list A) : l ⊆+ k → NoDup k → NoDup l.
Proof. intros [m Hm]%submseteq_Permutation. rewrite Hm. intros (? & _ & _)%NoDup_app. done. Qed.

Lemma submseteq_elem {A} (l k : list A) x : l ⊆+ k → x ∈ l → x ∈ k.
Proof. intros [m Hm]%submseteq_Permutation Hx. rewrite Hm. set_solver. Qed.

Lemma filter_sub {A} (P : A → Prop) `{∀ x, Decision (P x)} l : filter P l ⊆+ l.
Proof.
  induction l as [|x l IH]; [done|]. rewrite filter_cons. case_decide; [by constructor|].
  by apply submseteq_cons.
Qed.

Lemma filter_submseteq {A} (P : A → Prop) `{∀ x, Decision (P x)} l k : l ⊆+ k → filter P l ⊆+ filter P k.
Proof.
  induction 1 as [|x l k Hl IH|x y l|x l k Hl IH|l k m _ IH1 _ IH2]; rewrite ?filter_cons; repeat case_decide;
    first [done|by constructor|by apply submseteq_cons|by etrans].
Qed.

Lemma filter_split {A} (P : A → Prop) `{∀ x, Decision (P x)} l : filter P l ++ filter (λ x, ¬ P x) l ≡ₚ l.
Proof.
  induction l as [|x l IH]; [done|]. rewrite !filter_cons. case_decide; [rewrite decide_False by tauto|rewrite decide_True by done].
  - simpl. by rewrite IH.
  - rewrite <-Permutation_middle. by rewrite IH.
Qed.

Lemma list_fmap_bind {A B C} (g : B → C) (f : A → list B) l : g <$> (l ≫= f) = l ≫= (λ x, g <$> f x).
Proof. induction l as [|x l IH]; [done|]. rewrite !bind_cons, fmap_app, IH. done. Qed.

Lemma omap_length {A B} (f : A → option B) l : length (omap f l) ≤ length l.
Proof. induction l as [|x l IH]; [done|]. csimpl. destruct (f x); simpl; lia. Qed.

(** A loop invariant. *)
Lemma foldl_inv {A B} (P : B → Prop) (f : B → A → B) l b :
  P b → (∀ b x, x ∈ l → P b → P (f b x)) → P (foldl f b l).
Proof.
  revert b. induction l as [|x l IH]; intros b Hb Hf; simpl; [done|].
  apply IH; [apply Hf; set_solver|]. intros b' y Hy. apply Hf. set_solver.
Qed.

(** ** What the Go runtime leaves unspecified *)

(** The order in which [range] visits a map, and the order in which
    [sort.Slice] leaves elements its comparison does not separate, are not
    specified by the language. Code that depends on either is a function of an
    implicit [GoMapRange] or [GoSort]; its theorems hold for every one of them. *)
Class GoMapRange := {
  map_range : ∀ {V : Type}, gmap string V → list (string * V);
  map_range_perm : ∀ (V : Type) (m : gmap string V), map_range m ≡ₚ map_to_list m
}.

Lemma elem_of_map_range `{GoMapRange} {V} (m : gmap string V) k v : (k, v) ∈ map_range m ↔ m !! k = Some v.
Proof. by rewrite map_range_perm, elem_of_map_to_list. Qed.

Lemma map_range_keys_nodup `{GoMapRange} {V} (m : gmap string V) : NoDup (fst <$> map_range m).
Proof. rewrite map_range_perm. apply NoDup_fst_map_to_list. Qed.

Class GoSort := {
  sort_slice : ∀ {A : Type}, (A → A → bool) → list A → list A;
  sort_slice_perm : ∀ (A : Type) (less : A → A → bool) l, sort_slice less l ≡ₚ l;
  sort_slice_sorted : ∀ (A : Type) (less : A → A → bool) l,
    StrictWeakOrder less → sorted_by less (sort_slice less l)
}.

(** A concrete runtime, on which the definitions can be run. *)
Definition reference_range : GoMapRange := {|
  map_range V m := map_to_list m;
  map_range_perm V m := reflexivity _
|}.

Definition reference_sort : GoSort := {|
  sort_slice A less l := sort_stable less l;
  sort_slice_perm A less l := sort_stable_perm less l;
  sort_slice_sorted A less l _ := sort_stable_sorted less l
|}.

(** Another order of iteration: the reverse. *)
Definition reversed_range : GoMapRange := {|
  map_range V m := rev (map_to_list m);
  map_range_perm V m := symmetry (Permutation_rev (map_to_list m))
|}.
