(* ===== verification/GoStrings.v ===== *)
(** * Go's [strings] and [strconv] packages, as far as the code uses them

    Go strings are byte sequences; [string] of the standard library is a list
    of 8-bit characters, so the two coincide. Prefixes, splitting and numbers
    first, then suffixes, substrings and trimming, with the lemmas the components
    share. *)

From S2P Require Import Prelude.

(** ** Prefixes *)

(** [strings.HasPrefix] *)
Definition HasPrefix (s p : string) : bool := String.prefix p s.

Fixpoint str_drop (n : nat) (s : string) : string :=
  match n, s with
  | S n', String _ s' => str_drop n' s'
  | _, _ => s
  end.

(** [strings.TrimPrefix] *)
Definition TrimPrefix (s p : string) : string :=
  if HasPrefix s p then str_drop (String.length p) s else s.

Lemma str_app_nil_l s : "" +:+ s = s.
Proof. done. Qed.

Lemma str_app_cons c s t : String c s +:+ t = String c (s +:+ t).
Proof. done. Qed.

Lemma str_app_nil_r s : s +:+ "" = s.
Proof. induction s as [|c s IH]; [done|]. by rewrite str_app_cons, IH. Qed.

Lemma str_app_assoc s t u : (s +:+ t) +:+ u = s +:+ (t +:+ u).
Proof. induction s as [|c s IH]; [done|]. by rewrite !str_app_cons, IH. Qed.

Lemma str_app_eq_nil s t : s +:+ t = "" ↔ s = "" ∧ t = "".
Proof. destruct s; [rewrite str_app_nil_l|rewrite str_app_cons]; split; try naive_solver congruence. Qed.

Lemma str_length_app s t : String.length (s +:+ t) = String.length s + String.length t.
Proof. induction s as [|c s IH]; [done|]. rewrite str_app_cons. simpl. by rewrite IH. Qed.

Lemma str_drop_app s t : str_drop (String.length s) (s +:+ t) = t.
Proof. induction s as [|c s IH]; [by destruct t|]. by rewrite str_app_cons. Qed.

Lemma HasPrefix_spec s p : HasPrefix s p = true ↔ ∃ r, s = p +:+ r.
Proof.
  unfold HasPrefix. revert s. induction p as [|c p IH]; intros s.
  { split; [|by destruct s]. intros _. by exists s. }
  destruct s as [|d s]; simpl.
  { split; [done|]. intros [r Hr]. by rewrite str_app_cons in Hr. }
  destruct (ascii_dec c d) as [->|Hne].
  - rewrite IH. split; intros [r Hr]; exists r; rewrite str_app_cons in *; congruence.
  - split; [done|]. intros [r Hr]. rewrite str_app_cons in Hr. congruence.
Qed.

Lemma HasPrefix_app p r : HasPrefix (p +:+ r) p = true.
Proof. apply HasPrefix_spec. eauto. Qed.

Lemma HasPrefix_refl p : HasPrefix p p = true.
Proof. apply HasPrefix_spec. exists "". by rewrite str_app_nil_r. Qed.

Lemma HasPrefix_nil s : HasPrefix s "" = true.
Proof. by destruct s. Qed.

Lemma HasPrefix_cons s c p : HasPrefix s (String c p) = true ↔ ∃ s', s = String c s' ∧ HasPrefix s' p = true.
Proof.
  rewrite HasPrefix_spec. setoid_rewrite HasPrefix_spec.
  split; [intros [r ->]; rewrite str_app_cons; eauto|]. intros (s' & -> & r & ->). eauto.
Qed.

Lemma HasPrefix_trans a b c : HasPrefix a b = true → HasPrefix b c = true → HasPrefix a c = true.
Proof.
  rewrite !HasPrefix_spec. intros [r ->] [q ->]. exists (q +:+ r). apply str_app_assoc.
Qed.

Lemma HasPrefix_app_app p s t : HasPrefix (p +:+ s) (p +:+ t) = HasPrefix s t.
Proof.
  apply eq_true_iff_eq. rewrite !HasPrefix_spec. split; intros [r Hr]; exists r.
  - rewrite str_app_assoc in Hr. by apply (inj (String.app p)) in Hr.
  - by rewrite Hr, str_app_assoc.
Qed.

Lemma TrimPrefix_app p r : TrimPrefix (p +:+ r) p = r.
Proof. unfold TrimPrefix. by rewrite HasPrefix_app, str_drop_app. Qed.

(** ** Order and prefixes *)

(** A key with two prefixes: one extends the other. *)
Lemma prefix_clash k p q :
  HasPrefix k p = true → HasPrefix k q = true → HasPrefix p q = false → HasPrefix q p = false → False.
Proof.
  revert k q. induction p as [|c p IH]; intros k q; [by rewrite (HasPrefix_nil q)|].
  intros (k' & -> & Hk)%HasPrefix_cons Hq. destruct q as [|c' q]; [by rewrite HasPrefix_nil|].
  apply HasPrefix_cons in Hq as (k'' & E & Hq). injection E as -> ->.
  change (String c' p) with (String c' "" +:+ p). change (String c' q) with (String c' "" +:+ q).
  rewrite !HasPrefix_app_app. by apply (IH k'').
Qed.

Lemma str_ltb_app p s t : str_ltb (p +:+ s) (p +:+ t) = str_ltb s t.
Proof.
  induction p as [|c p IH]; [done|]. by rewrite !str_app_cons, str_ltb_cons, ascii_compare_refl.
Qed.

Lemma str_ltb_nil_r s : str_ltb s "" = false.
Proof. by destruct s. Qed.

Lemma str_ltb_nil_l s : str_ltb "" s = bool_decide (s ≠ "").
Proof. by destruct s. Qed.

(** A prefix is not above the string it begins. *)
Lemma str_ltb_prefix_ge p r : str_ltb (p +:+ r) p = false.
Proof.
  replace p with (p +:+ "") at 2 by apply str_app_nil_r. by rewrite str_ltb_app, str_ltb_nil_r.
Qed.

Lemma str_ltb_prefix_lt p r : r ≠ "" → str_ltb p (p +:+ r) = true.
Proof.
  intros Hr. replace p with (p +:+ "") at 1 by apply str_app_nil_r.
  rewrite str_ltb_app, str_ltb_nil_l. by apply bool_decide_eq_true.
Qed.

(** The strings that begin with [p] form an interval: nothing that does not
    begin with [p] lies between [p] and one of them. *)
Lemma HasPrefix_convex p a b :
  str_ltb a p = false → str_ltb b a = false → HasPrefix b p = true → HasPrefix a p = true.
Proof.
  revert a b. induction p as [|c p IH]; intros a b Hpa Hab Hb; [apply HasPrefix_nil|].
  apply HasPrefix_cons in Hb as (b' & -> & Hb).
  destruct a as [|d a]; [done|]. rewrite !str_ltb_cons in *.
  rewrite (Ascii.compare_antisym c d) in Hab.
  destruct (Ascii.compare d c) eqn:Hdc; simpl in Hab; [|done|done].
  apply Ascii.compare_eq_iff in Hdc as ->. apply HasPrefix_cons. eauto.
Qed.

(** ** Separators *)

(** [strings.IndexByte(s, c) >= 0], [strings.Contains(s, c)] *)
Fixpoint ContainsByte (s : string) (c : ascii) : bool :=
  match s with
  | "" => false
  | String d s' => if ascii_dec d c then true else ContainsByte s' c
  end.

(** [strings.Cut]: the text before and after the first separator. *)
Fixpoint Cut (c : ascii) (s : string) : option (string * string) :=
  match s with
  | "" => None
  | String d s' =>
      if ascii_dec d c then Some ("", s')
      else match Cut c s' with
           | Some (a, b) => Some (String d a, b)
           | None => None
           end
  end.

(** [strings.SplitN(s, c, n)] for a one-byte separator and [n >= 0]. *)
Fixpoint SplitN (c : ascii) (n : nat) (s : string) : list string :=
  match n with
  | 0 => []
  | 1 => [s]
  | S n' => match Cut c s with
            | Some (a, b) => a :: SplitN c n' b
            | None => [s]
            end
  end.

Lemma Cut_Some_1 c s a b :
  Cut c s = Some (a, b) → s = a +:+ String c b ∧ ContainsByte a c = false.
Proof.
  revert a. induction s as [|d s IH]; intros a; simpl; [done|].
  destruct (ascii_dec d c) as [->|Hne]; [by intros [= <- <-]|].
  destruct (Cut c s) as [[a' b']|]; [|done]. intros [= <- <-].
  destruct (IH a' eq_refl) as [-> Ha']. rewrite str_app_cons. simpl. by destruct (ascii_dec d c).
Qed.

Lemma Cut_app c a b : ContainsByte a c = false → Cut c (a +:+ String c b) = Some (a, b).
Proof.
  induction a as [|d a IH]; intros H; [rewrite str_app_nil_l|rewrite str_app_cons]; simpl in *.
  - by destruct (ascii_dec c c).
  - destruct (ascii_dec d c); [done|]. by rewrite IH.
Qed.

Lemma Cut_Some c s a b :
  Cut c s = Some (a, b) ↔ s = a +:+ String c b ∧ ContainsByte a c = false.
Proof. split; [apply Cut_Some_1|]. intros [-> ?]. by apply Cut_app. Qed.

Lemma Cut_None c s : Cut c s = None ↔ ContainsByte s c = false.
Proof.
  induction s as [|d s IH]; simpl; [done|].
  destruct (ascii_dec d c); [done|]. destruct (Cut c s) as [[]|]; naive_solver.
Qed.

Lemma ContainsByte_app s t c : ContainsByte (s +:+ t) c = ContainsByte s c || ContainsByte t c.
Proof.
  induction s as [|d s IH]; [done|]. rewrite str_app_cons. simpl. by destruct (ascii_dec d c).
Qed.

(** The entity name and field suffix of a key that has a separator. *)
Lemma SplitN_2 c s : SplitN c 2 s = match Cut c s with Some (a, b) => [a; b] | None => [s] end.
Proof. simpl. by destruct (Cut c s) as [[]|]. Qed.

(** The part after the last separator is determined. *)
Lemma last_part_inj c n1 i1 n2 i2 :
  ContainsByte i1 c = false → ContainsByte i2 c = false →
  n1 +:+ String c "" +:+ i1 = n2 +:+ String c "" +:+ i2 → n1 = n2 ∧ i1 = i2.
Proof.
  intros H1 H2. assert (Hc : ∀ s t, ContainsByte (s +:+ String c t) c = true).
  { intros s t. rewrite ContainsByte_app. simpl. destruct (ascii_dec c c); [|done]. apply orb_true_r. }
  revert n2. induction n1 as [|d n1 IH]; intros [|e n2];
    rewrite ?str_app_nil_l, ?str_app_cons; intros E; injection E; clear E; intros Es; intros; rewrite ?str_app_nil_l in *.
  - done.
  - by rewrite Es, Hc in H1.
  - by rewrite <-Es, Hc in H2.
  - subst. by destruct (IH n2) as [-> ->].
Qed.

(** ** Numbers *)

(** Value of a decimal digit. *)
Definition digit_value (c : ascii) : option Z :=
  let n := Z.of_N (N_of_ascii c) in
  if (48 <=? n)%Z && (n <=? 57)%Z then Some (n - 48)%Z else None.

Inductive strconv_error := ErrSyntax | ErrRange.

(** The loop of [strconv.ParseUint(s, 10, 64)]: it stops at the first byte that
    is not a digit, or as soon as the value no longer fits in 64 bits. *)
Fixpoint ParseUint_loop (n : Z) (s : string) : Z * option strconv_error :=
  match s with
  | "" => (n, None)
  | String c s' =>
      match digit_value c with
      | None => (0, Some ErrSyntax)
      | Some d =>
          let n1 := (n * 10 + d)%Z in
          if (2 ^ 64 - 1 <? n1)%Z then (2 ^ 64 - 1, Some ErrRange)
          else ParseUint_loop n1 s'
      end
  end%Z.

(** [strconv.ParseInt(s, 10, 64)]: a syntax error comes with the value 0, a
    range error with the nearest representable value. *)
Definition ParseInt (s : string) : Z * option strconv_error :=
  let '(neg, body) :=
    match s with
    | String c s' => if ascii_dec c "-" then (true, s')
                     else if ascii_dec c "+" then (false, s') else (false, s)
    | "" => (false, "")
    end in
  match body with
  | "" => (0%Z, Some ErrSyntax)
  | _ => match ParseUint_loop 0 body with
         | (_, Some ErrSyntax) => (0%Z, Some ErrSyntax)
         | (un, _) =>
             if negb neg && (2 ^ 63 <=? un)%Z then (int64_max, Some ErrRange)
             else if neg && (2 ^ 63 <? un)%Z then (int64_min, Some ErrRange)
             else ((if neg then - un else un)%Z, None)
         end
  end.

(** [strconv.Atoi] agrees with [ParseInt] on a 64-bit platform. *)
Definition Atoi (s : string) : Z * option strconv_error := ParseInt s.

Lemma ParseUint_loop_nonneg n s : (0 ≤ n)%Z → (0 ≤ fst (ParseUint_loop n s))%Z.
Proof.
  revert n. induction s as [|c s IH]; intros n Hn; simpl; [done|].
  unfold digit_value. repeat case_match; simplify_eq; simpl; try lia.
  boolprop. apply IH. lia.
Qed.

Lemma ParseInt_range s : in_int64 (fst (ParseInt s)).
Proof.
  assert (in_int64 0 ∧ in_int64 int64_min ∧ in_int64 int64_max) as (? & ? & ?)
    by (unfold in_int64, int64_min, int64_max; lia).
  unfold ParseInt. destruct (match s with "" => _ | _ => _ end) as [neg body].
  destruct body as [|c b]; [done|].
  pose proof (ParseUint_loop_nonneg 0 (String c b) ltac:(done)) as Hn.
  destruct (ParseUint_loop 0 (String c b)) as [un [[]|]], neg;
    simpl in *; try done; case_match; simpl; try done;
    boolprop; unfold in_int64, int64_min, int64_max in *; lia.
Qed.

(** * More of Go's [strings] package: suffixes, substrings, splitting, trimming

    What the authorization code uses of it, on byte strings. *)

(** ** Ends of strings *)

(** [s[:len(s)-n]] and [s[len(s)-n:]], for [n] at most the length. *)
Definition dropEnd (n : nat) (s : string) : string := String.substring 0 (String.length s - n) s.
Definition takeEnd (n : nat) (s : string) : string := str_drop (String.length s - n) s.

Lemma takeEnd_app s t : takeEnd (String.length t) (s +:+ t) = t.
Proof.
  unfold takeEnd. rewrite str_length_app, Nat.add_sub. apply str_drop_app.
Qed.

Lemma dropEnd_app s t : dropEnd (String.length t) (s +:+ t) = s.
Proof.
  unfold dropEnd. rewrite str_length_app, Nat.add_sub. apply String.prefix_correct. apply HasPrefix_app.
Qed.

Lemma takeEnd_le n s t : (n ≤ String.length t)%nat → takeEnd n (s +:+ t) = takeEnd n t.
Proof.
  intros Hn. unfold takeEnd. rewrite str_length_app. rewrite <-Nat.add_sub_assoc by done. generalize (String.length t - n)%nat.
  intros k. induction s as [|c s IH]; [done|]. by rewrite str_app_cons.
Qed.

Lemma str_drop_ContainsByte n s c : ContainsByte (str_drop n s) c = true → ContainsByte s c = true.
Proof.
  revert s. induction n as [|n IH]; intros [|d s]; simpl; try done. destruct (ascii_dec d c); [done|]. apply IH.
Qed.

(** A string that lacks a byte does not end in one that has it. *)
Lemma takeEnd_absent n s t c : ContainsByte s c = false → ContainsByte t c = true → takeEnd n s ≠ t.
Proof. intros Hs Ht E. rewrite <-E in Ht. apply str_drop_ContainsByte in Ht. congruence. Qed.

(** [strings.HasSuffix] *)
Definition HasSuffix (s t : string) : bool := bool_decide (takeEnd (String.length t) s = t).

(** [strings.TrimSuffix]; [strings.CutSuffix] also says whether it was there. *)
Definition TrimSuffix (s t : string) : string := if HasSuffix s t then dropEnd (String.length t) s else s.

Lemma substring_all s : String.substring 0 (String.length s) s = s.
Proof. induction s as [|c s IH]; [done|]. simpl. by rewrite IH. Qed.

Lemma split_at_end n s : dropEnd n s +:+ takeEnd n s = s.
Proof.
  unfold dropEnd, takeEnd. generalize (String.length s - n). intros k. revert s.
  induction k as [|k IH]; intros [|c s]; try done. simpl. rewrite str_app_cons. by rewrite IH.
Qed.

Lemma HasSuffix_spec s t : HasSuffix s t = true ↔ ∃ r, s = r +:+ t.
Proof.
  unfold HasSuffix. rewrite bool_decide_eq_true. split.
  - intros E. exists (dropEnd (String.length t) s). rewrite <-E at 2. by rewrite split_at_end.
  - intros [r ->]. apply takeEnd_app.
Qed.

Lemma TrimSuffix_app r t : TrimSuffix (r +:+ t) t = r.
Proof. unfold TrimSuffix. rewrite (proj2 (HasSuffix_spec _ _)) by eauto. apply dropEnd_app. Qed.

(** ** Substrings *)

(** [strings.Contains] *)
Fixpoint Contains (s t : string) : bool :=
  HasPrefix s t || match s with "" => false | String _ s' => Contains s' t end.

Lemma Contains_spec s t : Contains s t = true ↔ ∃ a b, s = a +:+ t +:+ b.
Proof.
  induction s as [|c s IH]; cbn [Contains]; rewrite orb_true_iff, HasPrefix_spec.
  - split; [intros [[r E]|[=]]; by exists "", r|]. intros (a & b & E). left. symmetry in E. apply str_app_eq_nil in E as [_ E]. by exists b.
  - rewrite IH. split.
    + intros [[r E]|(a & b & ->)]; [by exists "", r|]. exists (String c a), b. done.
    + intros ([|d a] & b & E); [left; by exists b|]. rewrite str_app_cons in E. simplify_eq. right. eauto.
Qed.

(** The text before the first occurrence of a substring: [re.ReplaceAllString]
    of a pattern that runs to the end of the text keeps it. *)
Fixpoint beforeFirst (s t : string) : option string :=
  if HasPrefix s t then Some ""
  else match s with "" => None | String c s' => String c <$> beforeFirst s' t end.

(** [strings.Split] at a one-byte separator. *)
Fixpoint Split (c : ascii) (s : string) : list string :=
  match s with
  | "" => [""]
  | String d s' =>
      if ascii_dec d c then "" :: Split c s'
      else match Split c s' with
           | part :: rest => String d part :: rest
           | [] => [String d ""]
           end
  end.

(** Joining the parts gives the text back. *)
Fixpoint Join (c : ascii) (parts : list string) : string :=
  match parts with
  | [] => ""
  | [part] => part
  | part :: rest => part +:+ String c (Join c rest)
  end.

Lemma Split_nonempty c s : Split c s ≠ [].
Proof. destruct s as [|d s]; simpl; [done|]. destruct (ascii_dec d c); [done|]. by destruct (Split c s). Qed.

Lemma Split_Join c s : Join c (Split c s) = s ∧ Forall (λ part, ContainsByte part c = false) (Split c s).
Proof.
  induction s as [|d s [IH1 IH2]]; [by repeat constructor|]. cbn [Split]. pose proof (Split_nonempty c s) as Hne.
  destruct (ascii_dec d c) as [->|Hd].
  - destruct (Split c s) as [|p l]; [done|]. split; [|by constructor]. cbn [Join] in *. by rewrite str_app_nil_l, IH1.
  - destruct (Split c s) as [|p l]; [done|]. apply Forall_cons in IH2 as [Hp Hl]. split.
    + destruct l; cbn [Join] in *; rewrite ?str_app_cons; by rewrite IH1.
    + constructor; [|done]. simpl. by destruct (ascii_dec d c).
Qed.

(** ** White space *)

Definition bytes (l : list nat) : string := foldr (λ n s, String (ascii_of_nat n) s) "" l.

(** The UTF-8 encodings of the characters [unicode.IsSpace] accepts. *)
Definition spaces : list string :=
  ((λ n, bytes [n]) <$> [9; 10; 11; 12; 13; 32]) ++
  [bytes [194; 133]; bytes [194; 160]; bytes [225; 154; 128]] ++
  ((λ n, bytes [226; 128; n]) <$> [128; 129; 130; 131; 132; 133; 134; 135; 136; 137; 138; 168; 169; 175]) ++
  [bytes [226; 129; 159]; bytes [227; 128; 128]].

(** Removing space characters at one end, one at a time: every round shortens
    the text, so its length bounds the rounds. *)
Fixpoint trimLeftSpaces (rounds : nat) (s : string) : string :=
  match rounds with
  | 0 => s
  | S rounds' =>
      match filter (λ w, HasPrefix s w = true) spaces with
      | [] => s
      | w :: _ => trimLeftSpaces rounds' (TrimPrefix s w)
      end
  end.

Fixpoint trimRightSpaces (rounds : nat) (s : string) : string :=
  match rounds with
  | 0 => s
  | S rounds' =>
      match filter (λ w, HasSuffix s w = true) spaces with
      | [] => s
      | w :: _ => trimRightSpaces rounds' (TrimSuffix s w)
      end
  end.

(** [strings.TrimSpace] *)
Definition TrimSpace (s : string) : string :=
  let left := trimLeftSpaces (String.length s) s in trimRightSpaces (String.length left) left.
