(* ===== verification/GoFmt.v ===== *)
(** * Printing integers ([strconv.Itoa], the [%d] verb) and [encoding/json] *)

From stdpp Require Import pretty.
From S2P Require Import Prelude GoStrings.

(** * Printing integers: [strconv.Itoa] and the [%d] verb

    Decimal notation, and that [strconv.Atoi] reads back what is printed. *)

Definition Itoa (z : Z) : string := pretty z.

Lemma digit_value_pretty x : (x < 10)%N → digit_value (pretty_N_char x) = Some (Z.of_N x).
Proof.
  intros Hx. destruct x as [|p]; [done|].
  do 4 (destruct p as [p|p|]; try (by vm_compute); try lia).
Qed.

(** Printing then scanning the digits accumulates the number. *)
Lemma ParseUint_pretty_go x s :
  (0 < x)%N → (Z.of_N x < 2 ^ 64)%Z → ParseUint_loop 0 (pretty_N_go x s) = ParseUint_loop (Z.of_N x) s.
Proof.
  revert s. induction (N.lt_wf_0 x) as [x _ IH]. intros s Hx Hlt. rewrite pretty_N_go_step by done.
  assert (Hmod : (x `mod` 10 < 10)%N) by (apply N.mod_lt; lia).
  assert (Hdiv : (x = 10 * (x `div` 10) + x `mod` 10)%N) by (apply N.div_mod; lia).
  assert (Hscan : ∀ n, (0 ≤ n)%Z → (n = Z.of_N (x `div` 10))%Z →
    ParseUint_loop n (String (pretty_N_char (x `mod` 10)) s) = ParseUint_loop (Z.of_N x) s).
  { intros n Hn En. simpl. rewrite digit_value_pretty by done.
    replace (n * 10 + Z.of_N (x `mod` 10))%Z with (Z.of_N x) by lia. by destruct (Z.ltb_spec (2 ^ 64 - 1) (Z.of_N x)); [lia|]. }
  destruct (decide (x `div` 10 = 0)%N) as [E|E].
  - rewrite E, pretty_N_go_0. apply Hscan; lia.
  - assert (0 < x `div` 10 < x)%N by (split; [lia|by apply N.div_lt]). rewrite IH by lia. apply Hscan; lia.
Qed.

(** The printed form of a number starts with a digit or a minus sign. *)
Lemma pretty_go_head x s : (0 < x)%N → ∃ c r, pretty_N_go x s = String c r ∧ is_Some (digit_value c).
Proof.
  revert s. induction (N.lt_wf_0 x) as [x _ IH]. intros s Hx. rewrite pretty_N_go_step by done.
  assert (Hmod : (x `mod` 10 < 10)%N) by (apply N.mod_lt; lia).
  destruct (decide (x `div` 10 = 0)%N) as [E|E].
  - rewrite E, pretty_N_go_0. do 2 eexists. split; [done|]. rewrite digit_value_pretty by done. by eexists.
  - apply IH; [by apply N.div_lt|by apply N.neq_0_lt_0].
Qed.

Lemma Atoi_Itoa z : in_int64 z → Atoi (Itoa z) = (z, None).
Proof.
  unfold in_int64, int64_min, int64_max, Itoa, Atoi. intros Hz. destruct z as [|p|p]; [done|..].
  - unfold pretty, pretty_Z, pretty, pretty_positive, pretty, pretty_N. rewrite decide_False by done.
    destruct (pretty_go_head (N.pos p) "") as (c & r & E & d & Hd); [done|].
    pose proof (ParseUint_pretty_go (N.pos p) "" ltac:(done) ltac:(lia)) as Hp. rewrite E in *. unfold ParseInt.
    destruct (ascii_dec c "-") as [->|]; [done|]. destruct (ascii_dec c "+") as [->|]; [done|]. rewrite Hp. simpl.
    destruct (Z.leb_spec (2 ^ 63) (Z.pos p)); [lia|done].
  - unfold pretty, pretty_Z, pretty, pretty_positive, pretty, pretty_N. rewrite decide_False by done.
    destruct (pretty_go_head (N.pos p) "") as (c & r & E & d & Hd); [done|].
    pose proof (ParseUint_pretty_go (N.pos p) "" ltac:(done) ltac:(lia)) as Hp. rewrite E in *. unfold ParseInt. simpl in *.
    rewrite Hp. destruct (Z.ltb_spec (2 ^ 63) (Z.pos p)); [lia|done].
Qed.

(** The printed form holds digits and a minus sign only. *)
Lemma pretty_go_ContainsByte x s c :
  digit_value c = None → ContainsByte (pretty_N_go x s) c = ContainsByte s c.
Proof.
  intros Hc. revert s. induction (N.lt_wf_0 x) as [x _ IH]. intros s.
  destruct (decide (x = 0)%N) as [->|Hx]; [done|]. assert (0 < x)%N by (by apply N.neq_0_lt_0).
  rewrite pretty_N_go_step by done. rewrite IH by (by apply N.div_lt). simpl. destruct (ascii_dec _ c) as [E|]; [|done].
  rewrite <-E, digit_value_pretty in Hc; [done|]. apply N.mod_lt. lia.
Qed.

Lemma ContainsByte_single d c : d ≠ c → ContainsByte (String d "") c = false.
Proof. intros Hd. simpl. by destruct (ascii_dec d c). Qed.

Lemma Itoa_ContainsByte z c : digit_value c = None → c ≠ "-"%char → ContainsByte (Itoa z) c = false.
Proof.
  intros Hc Hm. unfold Itoa, pretty, pretty_Z, pretty, pretty_positive, pretty, pretty_N.
  destruct z as [|p|p]; rewrite ?decide_False by done.
  - apply ContainsByte_single. intros <-. by vm_compute in Hc.
  - by rewrite pretty_go_ContainsByte.
  - rewrite ContainsByte_app, pretty_go_ContainsByte by done. by rewrite ContainsByte_single.
Qed.

(** Only a negative number is printed with a sign. *)
Lemma Itoa_unsigned z : (0 ≤ z)%Z → ContainsByte (Itoa z) "-" = false.
Proof.
  intros Hz. unfold Itoa, pretty, pretty_Z, pretty, pretty_positive, pretty, pretty_N.
  destruct z as [|p|p]; rewrite ?decide_False by done; [done| |lia]. by rewrite pretty_go_ContainsByte.
Qed.

Lemma Itoa_nonempty z : Itoa z ≠ "".
Proof.
  unfold Itoa, pretty, pretty_Z, pretty, pretty_positive, pretty, pretty_N.
  destruct z as [|p|p]; rewrite ?decide_False by done; [done| |done].
  destruct (pretty_go_head (N.pos p) "") as (c & r & -> & _); done.
Qed.

#[export] Instance Itoa_inj : Inj (=) (=) Itoa.
Proof. unfold Itoa. apply _. Qed.

(** * Go's [encoding/json], as far as the code uses it

    [json.Marshal] of a flat struct of strings and integers: the string
    escaping of the encoder with HTML escaping on, including its treatment of
    bytes that are not valid UTF-8. Values are never rejected, so [Marshal] has
    no error result here. *)

Definition byte_val (c : ascii) : Z := Z.of_N (N_of_ascii c).

Definition in_range (lo hi : Z) (c : ascii) : bool := (lo <=? byte_val c)%Z && (byte_val c <=? hi)%Z.

Definition continuation (c : ascii) : bool := in_range 128 191 c.

(** Size of the UTF-8 sequence at the start of the string when it is valid and
    longer than one byte ([utf8.DecodeRuneInString]); 0 stands for a
    [RuneError] of size 1. *)
Definition utf8_size (s : string) : nat :=
  match s with
  | String c0 (String c1 rest) =>
      if in_range 194 223 c0 then (if continuation c1 then 2 else 0)
      else
        let lo1 := if Ascii.eqb c0 (ascii_of_nat 224) then 160%Z
                   else if Ascii.eqb c0 (ascii_of_nat 240) then 144%Z else 128%Z in
        let hi1 := if Ascii.eqb c0 (ascii_of_nat 237) then 159%Z
                   else if Ascii.eqb c0 (ascii_of_nat 244) then 143%Z else 191%Z in
        match rest with
        | String c2 rest' =>
            if in_range 224 239 c0 then
              if in_range lo1 hi1 c1 && continuation c2 then 3 else 0
            else match rest' with
                 | String c3 _ =>
                     if in_range 240 244 c0 && in_range lo1 hi1 c1 && continuation c2 && continuation c3
                     then 4 else 0
                 | "" => 0
                 end
        | "" => 0
        end
  | _ => 0
  end.

Definition hex_digit (n : Z) : ascii := ascii_of_N (Z.to_N (if (n <? 10)%Z then 48 + n else 87 + n)%Z).

Definition backslash : ascii := ascii_of_nat 92.

(** The escape of one ASCII byte, or the byte itself when it is HTML-safe. *)
Definition escape_ascii (c : ascii) : string :=
  let n := byte_val c in
  if Ascii.eqb c backslash || (n =? 34)%Z then String backslash (String c "")
  else if (n =? 8)%Z then String backslash "b"
  else if (n =? 12)%Z then String backslash "f"
  else if (n =? 10)%Z then String backslash "n"
  else if (n =? 13)%Z then String backslash "r"
  else if (n =? 9)%Z then String backslash "t"
  else if (n <? 32)%Z || (n =? 60)%Z || (n =? 62)%Z || (n =? 38)%Z
  then String backslash ("u00" +:+ String (hex_digit (Z.shiftr n 4)) (String (hex_digit (Z.land n 15)) ""))
  else String c "".

(** The line and paragraph separators U+2028 and U+2029 are escaped. *)
Definition line_separator (s : string) : option ascii :=
  match s with
  | String c0 (String c1 (String c2 _)) =>
      if (byte_val c0 =? 226)%Z && (byte_val c1 =? 128)%Z && in_range 168 169 c2
      then Some (hex_digit (Z.land (byte_val c2) 15)) else None
  | _ => None
  end.

Fixpoint str_take (n : nat) (s : string) : string :=
  match n, s with
  | S n', String c s' => String c (str_take n' s')
  | _, _ => ""
  end.

(** The loop of [appendString]; [skip] counts the bytes of a multi-byte
    sequence that are already written. *)
Fixpoint escape_string (skip : nat) (s : string) : string :=
  match s with
  | "" => ""
  | String c s' =>
      match skip with
      | S skip' => escape_string skip' s'
      | 0 =>
          if (byte_val c <? 128)%Z then escape_ascii c +:+ escape_string 0 s'
          else match utf8_size s with
               | 0 => String backslash "ufffd" +:+ escape_string 0 s'
               | size =>
                   match line_separator s with
                   | Some digit => String backslash ("u202" +:+ String digit "")
                   | None => str_take size s
                   end +:+ escape_string (size - 1) s'
               end
      end
  end.

Definition quote : string := String (ascii_of_nat 34) "".

Definition json_string (s : string) : string := quote +:+ escape_string 0 s +:+ quote.
Definition json_int (z : Z) : string := pretty z.

Definition json_field (name value : string) : string := quote +:+ name +:+ quote +:+ ":" +:+ value.

Fixpoint json_fields (fields : list (string * string)) : string :=
  match fields with
  | [] => ""
  | [(n, v)] => json_field n v
  | (n, v) :: rest => json_field n v +:+ "," +:+ json_fields rest
  end.

Definition json_object (fields : list (string * string)) : string := "{" +:+ json_fields fields +:+ "}".
