(* ===== verification/GoJSON.v ===== *)
(** * Go's [json.Unmarshal], as far as the code uses it

    Decoding of a text into a struct whose fields are integers. The whole text is read
    first, as the decoder does, so a syntax error anywhere is an error; then a member
    whose name is that of a field, up to case, sets it. A value of another type is an
    error, null leaves the field as it is. *)

From stdpp Require Import pretty.
From S2P Require Import Prelude GoStrings GoFmt.

Local Open Scope Z_scope.

(** ** Values *)

(** A number keeps its literal, a string its runes. *)
Inductive json :=
| JNull
| JBool (b : bool)
| JNumber (literal : string)
| JString (runes : list Z)
| JArray (elements : list json)
| JObject (members : list (list Z * json)).

(** ** Lexical elements *)

Definition isByte (n : Z) (c : ascii) : bool := byte_val c =? n.

Definition isDigit (c : ascii) : bool := in_range 48 57 c.

Fixpoint spanDigits (s : string) : string * string :=
  match s with
  | String c rest => if isDigit c then let '(digits, rest') := spanDigits rest in (String c digits, rest') else ("", s)
  | "" => ("", "")
  end.

(** At least one digit. *)
Definition someDigits (s : string) : option (string * string) :=
  match spanDigits s with ("", _) => None | found => Some found end.

Definition fractionPart (s : string) : option (string * string) :=
  match s with
  | String c rest => if isByte 46 c then match someDigits rest with Some (digits, rest') => Some (String c digits, rest') | None => None end else Some ("", s)
  | "" => Some ("", "")
  end.

Definition exponentPart (s : string) : option (string * string) :=
  match s with
  | String c rest =>
      if isByte 101 c || isByte 69 c then
        let '(sign, digits) := match rest with
                               | String d rest' => if isByte 43 d || isByte 45 d then (String d "", rest') else ("", rest)
                               | "" => ("", "")
                               end in
        match someDigits digits with Some (found, rest') => Some (String c (sign +:+ found), rest') | None => None end
      else Some ("", s)
  | "" => Some ("", "")
  end.

(** Zero, or digits that do not begin with it. *)
Definition integerPart (s : string) : option (string * string) :=
  match s with
  | String c rest => if isByte 48 c then Some (String c "", rest) else someDigits s
  | "" => None
  end.

Definition numberLiteral (s : string) : option (string * string) :=
  let '(sign, s1) := match s with String c rest => if isByte 45 c then (String c "", rest) else ("", s) | "" => ("", "") end in
  match integerPart s1 with
  | None => None
  | Some (whole, s2) =>
      match fractionPart s2 with
      | None => None
      | Some (fraction, s3) => match exponentPart s3 with Some (exponent, s4) => Some (sign +:+ whole +:+ fraction +:+ exponent, s4) | None => None end
      end
  end.

Definition hexValue (c : ascii) : option Z :=
  if isDigit c then Some (byte_val c - 48)
  else if in_range 97 102 c then Some (byte_val c - 87)
  else if in_range 65 70 c then Some (byte_val c - 55)
  else None.

Definition hex4 (a b c d : ascii) : option Z :=
  match hexValue a, hexValue b, hexValue c, hexValue d with
  | Some a, Some b, Some c, Some d => Some (((a * 16 + b) * 16 + c) * 16 + d)
  | _, _, _, _ => None
  end.

Definition replacementRune : Z := 65533.

(** The escape \uXXXX at the start of the text. *)
Definition unicodeEscape (s : string) : option Z :=
  match s with
  | String x (String u (String a (String b (String c (String d _))))) => if Ascii.eqb x backslash && isByte 117 u then hex4 a b c d else None
  | _ => None
  end.

(** The pair of surrogates that begins with [high], when the text continues it. *)
Definition surrogatePair (high : Z) (s : string) : option Z :=
  match unicodeEscape s with
  | Some low => if (55296 <=? high) && (high <? 56320) && (56320 <=? low) && (low <? 57344) then Some ((high - 55296) * 1024 + (low - 56320) + 65536) else None
  | None => None
  end.

Definition simpleEscape (c : ascii) : option Z :=
  let n := byte_val c in
  if (n =? 34) || (n =? 92) || (n =? 47) then Some n
  else if n =? 98 then Some 8 else if n =? 102 then Some 12 else if n =? 110 then Some 10
  else if n =? 114 then Some 13 else if n =? 116 then Some 9 else None.

(** The rune of a valid sequence of [size] bytes. *)
Definition runeOf (size : nat) (s : string) : Z :=
  match size, s with
  | 2%nat, String a (String b _) => Z.land (byte_val a) 31 * 64 + Z.land (byte_val b) 63
  | 3%nat, String a (String b (String c _)) => (Z.land (byte_val a) 15 * 64 + Z.land (byte_val b) 63) * 64 + Z.land (byte_val c) 63
  | 4%nat, String a (String b (String c (String d _))) =>
      ((Z.land (byte_val a) 7 * 64 + Z.land (byte_val b) 63) * 64 + Z.land (byte_val c) 63) * 64 + Z.land (byte_val d) 63
  | _, _ => replacementRune
  end.

Definition prepend (r : Z) (found : option (list Z * string)) : option (list Z * string) :=
  match found with Some (runes, rest) => Some (r :: runes, rest) | None => None end.

(** The runes up to the closing quote; [skip] bytes are already read. *)
Fixpoint stringBody (skip : nat) (s : string) : option (list Z * string) :=
  match s with
  | "" => None
  | String c s' =>
      match skip with
      | S skip' => stringBody skip' s'
      | 0%nat =>
          if isByte 34 c then Some ([], s')
          else if Ascii.eqb c backslash then
            match s' with
            | "" => None
            | String e s2 =>
                match simpleEscape e with
                | Some r => prepend r (stringBody 0 s2)
                | None =>
                    if negb (isByte 117 e) then None
                    else match s2 with
                         | String h1 (String h2 (String h3 (String h4 s3))) =>
                             match hex4 h1 h2 h3 h4 with
                             | None => None
                             | Some r =>
                                 if negb ((55296 <=? r) && (r <? 57344)) then prepend r (stringBody 0 s3)
                                 else match surrogatePair r s3 with
                                      | Some r' => prepend r' (stringBody 6 s3)
                                      | None => prepend replacementRune (stringBody 0 s3)
                                      end
                             end
                         | _ => None
                         end
                end
            end
          else if byte_val c <? 32 then None
          else if byte_val c <? 128 then prepend (byte_val c) (stringBody 0 s')
          else match utf8_size s with
               | 0%nat => prepend replacementRune (stringBody 0 s')
               | size => prepend (runeOf size s) (stringBody (size - 1) s')
               end
      end
  end.

(** ** Syntax *)

Inductive token := TLBrace | TRBrace | TLBracket | TRBracket | TComma | TColon | TValue (v : json).

Definition punctuation (c : ascii) : option token :=
  let n := byte_val c in
  if n =? 123 then Some TLBrace else if n =? 125 then Some TRBrace else if n =? 91 then Some TLBracket
  else if n =? 93 then Some TRBracket else if n =? 44 then Some TComma else if n =? 58 then Some TColon else None.

(** The token at the start of a text that begins with [c], and what follows it. *)
Definition jsonTokenAt (c : ascii) (rest : string) : option (token * string) :=
  let s := String c rest in
  match punctuation c with
  | Some t => Some (t, rest)
  | None =>
      if isByte 34 c then match stringBody 0 rest with Some (runes, rest') => Some (TValue (JString runes), rest') | None => None end
      else if HasPrefix s "null" then Some (TValue JNull, str_drop 4 s)
      else if HasPrefix s "true" then Some (TValue (JBool true), str_drop 4 s)
      else if HasPrefix s "false" then Some (TValue (JBool false), str_drop 5 s)
      else match numberLiteral s with Some (literal, rest') => Some (TValue (JNumber literal), rest') | None => None end
  end.

(** The tokens of a text; [skip] bytes are already read. *)
Fixpoint jsonTokens (skip : nat) (s : string) : option (list token) :=
  match s with
  | "" => Some []
  | String c s' =>
      match skip with
      | S skip' => jsonTokens skip' s'
      | 0%nat =>
          if isByte 32 c || isByte 9 c || isByte 13 c || isByte 10 c then jsonTokens 0 s'
          else match jsonTokenAt c s' with
               | Some (t, rest) => cons t <$> jsonTokens (String.length s' - String.length rest) s'
               | None => None
               end
      end
  end.

(** The open arrays and objects, the innermost first, with what they hold so far; in
    [FMember] the value of a member is being read. *)
Inductive frame := FArray (elements : list json) | FObject (members : list (list Z * json)) | FMember (members : list (list Z * json)) (key : list Z).

(** What comes next; with [first] the array or object may also end. *)
Inductive expectation := ExpectValue (first : bool) | ExpectKey (first : bool) | ExpectColon (key : list Z) | AfterValue (v : json).

Definition maxNestingDepth : Z := 10000.

Fixpoint readTokens (ts : list token) (stack : list frame) (next : expectation) : option json :=
  match ts with
  | [] => match next, stack with AfterValue v, [] => Some v | _, _ => None end
  | t :: ts' =>
      match next, t, stack with
      | ExpectValue _, TValue v, _ => readTokens ts' stack (AfterValue v)
      | ExpectValue _, TLBrace, _ => if maxNestingDepth <=? Z.of_nat (length stack) then None else readTokens ts' (FObject [] :: stack) (ExpectKey true)
      | ExpectValue _, TLBracket, _ => if maxNestingDepth <=? Z.of_nat (length stack) then None else readTokens ts' (FArray [] :: stack) (ExpectValue true)
      | ExpectValue true, TRBracket, FArray elements :: stack' => readTokens ts' stack' (AfterValue (JArray elements))
      | ExpectKey _, TValue (JString key), _ => readTokens ts' stack (ExpectColon key)
      | ExpectKey true, TRBrace, FObject members :: stack' => readTokens ts' stack' (AfterValue (JObject members))
      | ExpectColon key, TColon, FObject members :: stack' => readTokens ts' (FMember members key :: stack') (ExpectValue false)
      | AfterValue v, TComma, FArray elements :: stack' => readTokens ts' (FArray (elements ++ [v]) :: stack') (ExpectValue false)
      | AfterValue v, TRBracket, FArray elements :: stack' => readTokens ts' stack' (AfterValue (JArray (elements ++ [v])))
      | AfterValue v, TComma, FMember members key :: stack' => readTokens ts' (FObject (members ++ [(key, v)]) :: stack') (ExpectKey false)
      | AfterValue v, TRBrace, FMember members key :: stack' => readTokens ts' stack' (AfterValue (JObject (members ++ [(key, v)])))
      | _, _, _ => None
      end
  end.

(** The value a text is. *)
Definition parseText (data : string) : option json :=
  match jsonTokens 0 data with
  | Some ts => readTokens ts [] (ExpectValue false)
  | None => None
  end.

(** ** Decoding into integers *)

(** [foldRune]: the smallest rune that differs in case only, for the runes that may be
    those of a field. *)
Definition foldRune (r : Z) : Z :=
  if (97 <=? r) && (r <=? 122) then r - 32 else if r =? 383 then 83 else if r =? 8490 then 75 else r.

Fixpoint byteValues (s : string) : list Z := match s with String c rest => byte_val c :: byteValues rest | "" => [] end.

Definition names (field : string) (key : list Z) : bool :=
  bool_decide (foldRune <$> key = foldRune <$> byteValues field).

(** An integer field after a value; [None] is an error. *)
Definition setInt (current : Z) (value : json) : option Z :=
  match value with
  | JNull => Some current
  | JNumber literal => match ParseInt literal with (n, None) => Some n | (_, Some _) => None end
  | _ => None
  end.

(** The members in turn; a member that is no field is skipped. *)
Fixpoint setFields (fields : list (string * Z)) (members : list (list Z * json)) : option (list (string * Z)) :=
  match members with
  | [] => Some fields
  | (key, value) :: rest =>
      match List.find (λ f, names f.1 key) fields with
      | None => setFields fields rest
      | Some field =>
          match setInt field.2 value with
          | Some n => setFields ((λ f, if bool_decide (f.1 = field.1) then (f.1, n) else f) <$> fields) rest
          | None => None
          end
      end
  end.

(** [json.Unmarshal] into a struct of integers, all zero before. *)
Definition UnmarshalInts (fields : list string) (data : string) : option (list Z) :=
  match parseText data with
  | Some JNull => Some ((λ _ : string, 0) <$> fields)
  | Some (JObject members) => (λ l : list (string * Z), l.*2) <$> setFields ((λ f : string, (f, 0)) <$> fields) members
  | _ => None
  end.

(** ** Reading back what is written *)

Lemma jsonTokens_skip s t : jsonTokens (String.length s) (s +:+ t) = jsonTokens 0 t.
Proof. induction s as [|c s IH]; [done|]. rewrite str_app_cons. simpl. exact IH. Qed.

(** A text that goes on with something that is not part of a number. *)
Definition endsNumber (s : string) : Prop :=
  match s with String c _ => isDigit c = false ∧ isByte 46 c = false ∧ isByte 101 c = false ∧ isByte 69 c = false | "" => True end.

Lemma spanDigits_go x s rest : spanDigits s = (s, "") → endsNumber rest → spanDigits (pretty_N_go x s +:+ rest) = (pretty_N_go x s, rest).
Proof.
  revert s. induction (N.lt_wf_0 x) as [x _ IH]. intros s Hs Hr.
  destruct (decide (x = 0)%N) as [->|Hx].
  - rewrite pretty_N_go_0. clear IH. induction s as [|c s IHs].
    + rewrite str_app_nil_l. destruct rest as [|c rest]; [done|]. destruct Hr as (Hc & _). simpl. by rewrite Hc.
    + rewrite str_app_cons. simpl in *. destruct (isDigit c); [|done]. destruct (spanDigits s) as [digits rest'] eqn:E. injection Hs as -> ->. by rewrite (IHs eq_refl).
  - assert (0 < x)%N by (by apply N.neq_0_lt_0). rewrite pretty_N_go_step by done. apply IH; [by apply N.div_lt| |done]. simpl.
    assert (isDigit (pretty_N_char (x `mod` 10)) = true) as ->; [|by rewrite Hs]. pose proof (N.mod_lt x 10 ltac:(done)) as Hm.
    destruct (x `mod` 10)%N as [|p]; [done|]. do 4 (destruct p as [p|p|]; try (by vm_compute); try lia).
Qed.

Lemma pretty_go_first x s : (0 < x)%N → ∃ c r, pretty_N_go x s = String c r ∧ isDigit c = true ∧ isByte 48 c = false.
Proof.
  revert s. induction (N.lt_wf_0 x) as [x _ IH]. intros s Hx. rewrite pretty_N_go_step by done.
  destruct (decide (x `div` 10 = 0)%N) as [E|E]; [|apply IH; [by apply N.div_lt|by apply N.neq_0_lt_0]].
  assert (Hlt : (x < 10)%N) by (by apply N.div_small_iff). rewrite E, pretty_N_go_0, N.mod_small by done. do 2 eexists. split; [done|].
  destruct x as [|p]; [done|]. do 4 (destruct p as [p|p|]; try (by vm_compute); try lia).
Qed.

Lemma digit_not_sign c : isDigit c = true → isByte 45 c = false ∧ punctuation c = None ∧ isByte 34 c = false ∧ c ≠ "n"%char ∧ c ≠ "t"%char ∧ c ≠ "f"%char ∧
  isByte 32 c || isByte 9 c || isByte 13 c || isByte 10 c = false.
Proof. intros Hc. destruct c as [[] [] [] [] [] [] [] []]; try (by vm_compute in Hc); by vm_compute. Qed.

(** A printed number is read up to its end. *)
Lemma unsigned_literal p rest : endsNumber rest →
  integerPart (pretty_N_go (N.pos p) "" +:+ rest) = Some (pretty_N_go (N.pos p) "", rest).
Proof.
  intros Hr. pose proof (spanDigits_go (N.pos p) "" rest eq_refl Hr) as Hd. destruct (pretty_go_first (N.pos p) "") as (c & r & E & Hc & Hz); [done|].
  rewrite E, str_app_cons in *. unfold integerPart. rewrite Hz. unfold someDigits. by rewrite Hd.
Qed.

Lemma number_ends rest : endsNumber rest → fractionPart rest = Some ("", rest) ∧ exponentPart rest = Some ("", rest).
Proof. destruct rest as [|c rest]; [done|]. intros (_ & H1 & H2 & H3). simpl. by rewrite H1, H2, H3. Qed.

Lemma numberLiteral_Itoa z rest : endsNumber rest → numberLiteral (Itoa z +:+ rest) = Some (Itoa z, rest).
Proof.
  intros Hr. destruct (number_ends rest Hr) as [Hf He]. unfold numberLiteral, Itoa, pretty, pretty_Z, pretty, pretty_positive, pretty, pretty_N. destruct z as [|p|p].
  - rewrite (str_app_cons "0" "" rest), str_app_nil_l. change (isByte 45 "0") with false. cbv beta iota. change (integerPart (String "0" rest)) with (Some ("0", rest)). cbv beta iota. by rewrite Hf, He.
  - rewrite decide_False by done. destruct (pretty_go_first (N.pos p) "") as (c & r & E & Hc & _); [done|]. pose proof (unsigned_literal p rest Hr) as Hi. rewrite E, str_app_cons in *.
    destruct (digit_not_sign c Hc) as (Hs & _). rewrite Hs, Hi, Hf, He. by rewrite !str_app_nil_r.
  - rewrite decide_False by done. pose proof (unsigned_literal p rest Hr) as Hi. rewrite str_app_assoc. change ("-" +:+ (pretty_N_go (N.pos p) "" +:+ rest)) with (String "-" (pretty_N_go (N.pos p) "" +:+ rest)).
    cbv beta iota. change (isByte 45 "-") with true. cbv beta iota. rewrite Hi, Hf, He. by rewrite !str_app_nil_r.
Qed.

Lemma str_app_length_minus a b : (String.length (a +:+ b) - String.length b)%nat = String.length a.
Proof. rewrite str_length_app. lia. Qed.

Lemma jsonTokens_Itoa z rest : endsNumber rest → jsonTokens 0 (Itoa z +:+ rest) = cons (TValue (JNumber (Itoa z))) <$> jsonTokens 0 rest.
Proof.
  intros Hr. pose proof (numberLiteral_Itoa z rest Hr) as Hn.
  assert (Hfirst : ∃ c r, Itoa z = String c r ∧ (isDigit c = true ∨ c = "-"%char)).
  { unfold Itoa, pretty, pretty_Z, pretty, pretty_positive, pretty, pretty_N. destruct z as [|p|p]; rewrite ?decide_False by done.
    - exists "0"%char, "". split; [done|by left].
    - destruct (pretty_go_first (N.pos p) "") as (c & r & -> & Hc & _); [done|]. exists c, r. split; [done|by left].
    - eexists "-"%char, _. split; [done|by right]. }
  destruct Hfirst as (c & r & E & Hc). rewrite E, str_app_cons in *.
  assert (Hno : punctuation c = None ∧ isByte 34 c = false ∧ (∀ s, HasPrefix (String c s) "null" = false ∧ HasPrefix (String c s) "true" = false ∧ HasPrefix (String c s) "false" = false) ∧
    isByte 32 c || isByte 9 c || isByte 13 c || isByte 10 c = false).
  { destruct Hc as [Hc| ->]; [|done]. destruct (digit_not_sign c Hc) as (_ & Hp & Hq & Hn1 & Hn2 & Hn3 & Hb). split_and!; [done..| |done].
    intros s. split_and!; simpl; by case_match. }
  destruct Hno as (Hp & Hq & Hpre & Hb). cbn [jsonTokens]. rewrite Hb. unfold jsonTokenAt. destruct (Hpre (r +:+ rest)) as (-> & -> & ->). rewrite Hp, Hq, Hn.
  by rewrite str_app_length_minus, jsonTokens_skip.
Qed.

Lemma jsonTokens_punctuation c t rest : punctuation c = Some t → jsonTokens 0 (String c rest) = cons t <$> jsonTokens 0 rest.
Proof.
  intros Hp. cbn [jsonTokens]. assert (isByte 32 c || isByte 9 c || isByte 13 c || isByte 10 c = false) as ->.
  { unfold punctuation, isByte in *. repeat case_match; boolprop; try done; rewrite !orb_false_iff, !Z.eqb_neq; lia. }
  unfold jsonTokenAt. rewrite Hp. rewrite Nat.sub_diag. done.
Qed.

(** A name of printable characters that need no escape. *)
Definition plainName (s : string) : bool := forallb (λ n, (32 <=? n) && (n <? 128) && negb (n =? 34) && negb (n =? 92)) (byteValues s).

Lemma stringBody_plain k rest : plainName k = true → stringBody 0 (k +:+ quote +:+ rest) = Some (byteValues k, rest).
Proof.
  induction k as [|c k IH]; [done|]. unfold plainName in *. rewrite str_app_cons. cbn [byteValues forallb]. rewrite andb_true_iff, !andb_true_iff, !negb_true_iff. intros [(((H1 & H2) & H3) & H4) Hk].
  cbn [stringBody]. unfold isByte. rewrite H3. assert (Ascii.eqb c backslash = false) as ->.
  { destruct (Ascii.eqb_spec c backslash) as [->|]; [|done]. by vm_compute in H4. }
  assert ((byte_val c <? 32) = false) as -> by lia. rewrite H2, (IH Hk). done.
Qed.

Lemma jsonTokens_name k rest : plainName k = true → jsonTokens 0 (quote +:+ k +:+ quote +:+ rest) = cons (TValue (JString (byteValues k))) <$> jsonTokens 0 rest.
Proof.
  intros Hk. unfold quote at 1. rewrite str_app_cons, str_app_nil_l. cbn [jsonTokens].
  assert (∀ r, jsonTokenAt (ascii_of_nat 34) r = match stringBody 0 r with Some (runes, rest') => Some (TValue (JString runes), rest') | None => None end) as -> by done.
  rewrite stringBody_plain by done. change (isByte 32 (ascii_of_nat 34) || isByte 9 (ascii_of_nat 34) || isByte 13 (ascii_of_nat 34) || isByte 10 (ascii_of_nat 34)) with false. cbv beta iota.
  rewrite <- (str_app_assoc k quote rest), str_app_length_minus, jsonTokens_skip. done.
Qed.

(** Two integers, written and read back. *)
Theorem UnmarshalInts_pair n m : in_int64 n → in_int64 m →
  UnmarshalInts ["count"; "since"] (json_object [("count", json_int n); ("since", json_int m)]) = Some [n; m].
Proof.
  intros Hn Hm. unfold UnmarshalInts, parseText, json_object, json_fields, json_field, json_int. fold (Itoa n) (Itoa m).
  assert (Htokens : jsonTokens 0 ("{" +:+ ((quote +:+ "count" +:+ quote +:+ ":" +:+ Itoa n) +:+ "," +:+ (quote +:+ "since" +:+ quote +:+ ":" +:+ Itoa m)) +:+ "}") =
    Some [TLBrace; TValue (JString (byteValues "count")); TColon; TValue (JNumber (Itoa n)); TComma; TValue (JString (byteValues "since")); TColon; TValue (JNumber (Itoa m)); TRBrace]).
  { rewrite !str_app_assoc. assert (∀ c X, String c "" +:+ X = String c X) as H1 by (intros c X; by rewrite str_app_cons, str_app_nil_l).
    rewrite (H1 "{"%char), (jsonTokens_punctuation _ TLBrace), jsonTokens_name by done. rewrite (H1 ":"%char), (jsonTokens_punctuation _ TColon) by done.
    rewrite (H1 ","%char), jsonTokens_Itoa, (jsonTokens_punctuation _ TComma), jsonTokens_name by done. rewrite (H1 ":"%char), (jsonTokens_punctuation _ TColon) by done.
    by rewrite jsonTokens_Itoa by done. }
  rewrite Htokens. pose proof (Atoi_Itoa n Hn) as An. pose proof (Atoi_Itoa m Hm) as Am. unfold Atoi in *.
  change (readTokens _ _ _) with (Some (JObject [(byteValues "count", JNumber (Itoa n)); (byteValues "since", JNumber (Itoa m))])). cbv beta iota.
  cbn [fmap list_fmap setFields].
  assert (∀ a b : Z, List.find (λ f : string * Z, names f.1 (byteValues "count")) [("count", a); ("since", b)] = Some ("count", a)) as -> by (intros; by vm_compute).
  cbn [setInt snd fst]. rewrite An.
  rewrite (bool_decide_eq_true_2 ("count" = "count")), (bool_decide_eq_false_2 ("since" = "count")) by done. cbv iota.
  assert (∀ a b : Z, List.find (λ f : string * Z, names f.1 (byteValues "since")) [("count", a); ("since", b)] = Some ("since", b)) as -> by (intros; by vm_compute).
  cbn [setInt snd fst]. rewrite Am. done.
Qed.
