(* ===== verification/Keys.v ===== *)
(** * Fact keys and state names (src/types/keys.go, src/types/state.go)

    The key builders and scan prefixes the modelled components use, and the
    string constants of the state types. [fmt.Sprintf] with [%s] verbs is
    concatenation. *)

From S2P Require Import Prelude GoStrings.

Definition slash : ascii := "/".

Definition PrefixDesired : string := "desired".
Definition PrefixObserved : string := "observed".
Definition PrefixPlacement : string := "placement".
Definition PrefixDerived : string := "derived".
Definition PrefixEffective : string := "effective".
Definition PrefixIntent : string := "intent".

Definition ScanDesiredServices : string := PrefixDesired +:+ "/service/".
Definition ScanObservedNodes : string := PrefixObserved +:+ "/node/".
Definition ScanObservedInstances : string := PrefixObserved +:+ "/instance/".
Definition ScanPlacements : string := PrefixPlacement +:+ "/instance/".
Definition ScanObservedVolumes : string := PrefixObserved +:+ "/volume/".
Definition ScanDerivedSchedulerUnplaced : string := PrefixDerived +:+ "/scheduler/unplaced/".
Definition ScanDesiredGroups : string := PrefixDesired +:+ "/group/".

Definition ScanEffectiveServices : string := PrefixEffective +:+ "/service/".
Definition ScanIntentUserServices : string := PrefixIntent +:+ "/user/service/".
Definition ScanIntentAutoscalerServices : string := PrefixIntent +:+ "/autoscaler/service/".
Definition ScanDerivedServices : string := PrefixDerived +:+ "/service/".
Definition ScanDerivedInstances : string := PrefixDerived +:+ "/instance/".

Definition PrefixAuth : string := "auth".
Definition ScanAuthRoles : string := PrefixAuth +:+ "/role/".
Definition ScanAuthGrants : string := PrefixAuth +:+ "/grant/".
Definition ScanAuthGroups : string := PrefixAuth +:+ "/group/".
Definition ScanAuthPolicies : string := PrefixAuth +:+ "/policy/".

Definition KeyEffectiveServiceInstances (name : string) : string :=
  PrefixEffective +:+ "/service/" +:+ name +:+ "/instances".

Definition KeyEffectiveServiceResourcesCPU (name : string) : string :=
  PrefixEffective +:+ "/service/" +:+ name +:+ "/resources/cpu".

Definition KeyEffectiveServiceResourcesMemory (name : string) : string :=
  PrefixEffective +:+ "/service/" +:+ name +:+ "/resources/memory".

Definition KeyEffectiveServicePlacementMode (name : string) : string :=
  PrefixEffective +:+ "/service/" +:+ name +:+ "/placement_mode".

Definition KeyObservedInstance (instanceID : string) : string :=
  PrefixObserved +:+ "/instance/" +:+ instanceID.

Definition KeyObservedInstanceService (instanceID : string) : string :=
  PrefixObserved +:+ "/instance/" +:+ instanceID +:+ "/service".

Definition KeyObservedInstanceState (instanceID : string) : string :=
  PrefixObserved +:+ "/instance/" +:+ instanceID +:+ "/state".

Definition KeyObservedInstanceOrdinal (instanceID : string) : string :=
  PrefixObserved +:+ "/instance/" +:+ instanceID +:+ "/ordinal".

Definition KeyDerivedInstanceNodeFailure (instanceID : string) : string :=
  PrefixDerived +:+ "/instance/" +:+ instanceID +:+ "/node_failure".

Definition KeyPlacementInstance (instanceID : string) : string :=
  PrefixPlacement +:+ "/instance/" +:+ instanceID.

Definition KeyPlacementNodeInstance (nodeID instanceID : string) : string :=
  PrefixPlacement +:+ "/node/" +:+ nodeID +:+ "/" +:+ instanceID.

Definition KeyDerivedInstanceControllerStopped (instanceID : string) : string :=
  PrefixDerived +:+ "/instance/" +:+ instanceID +:+ "/controller_stopped".

Definition KeyDerivedSchedulerUnplacedReason (instanceID : string) : string :=
  PrefixDerived +:+ "/scheduler/unplaced/" +:+ instanceID +:+ "/reason".

Definition KeyDerivedSchedulerUnplacedRequirements (instanceID : string) : string :=
  PrefixDerived +:+ "/scheduler/unplaced/" +:+ instanceID +:+ "/requirements".

(** ** State names *)

Definition InstancePending : string := "pending".
Definition InstanceRunning : string := "running".
Definition InstanceStopped : string := "stopped".
Definition InstanceFailed : string := "failed".
Definition NodeAlive : string := "alive".
Definition VolumeAccessShared : string := "shared".
Definition StartupProbeSucceeded : string := "succeeded".
Definition ProbeStartup : string := "startup".

Definition UnplacedInsufficientCapacity : string := "insufficient_capacity".
Definition UnplacedUnsatisfiableConstraint : string := "unsatisfiable_constraint".
Definition UnplacedNoNodes : string := "no_nodes".
Definition UnplacedVolumeHomeNodeUnavailable : string := "volume_home_node_unavailable".

(** ** The keys separate what they name *)

#[export] Instance str_app_inj p : Inj (=) (=) (String.app p).
Proof. apply _. Qed.

#[export] Instance KeyPlacementInstance_inj : Inj (=) (=) KeyPlacementInstance.
Proof. intros a b H. unfold KeyPlacementInstance in H. rewrite <-!str_app_assoc in H. by simplify_eq. Qed.

(** The instance of a placement key. *)
Lemma TrimPrefix_KeyPlacementInstance instanceID :
  HasPrefix (KeyPlacementInstance instanceID) ScanPlacements = true ∧
  TrimPrefix (KeyPlacementInstance instanceID) ScanPlacements = instanceID.
Proof.
  unfold KeyPlacementInstance, ScanPlacements. rewrite <-str_app_assoc.
  split; [apply HasPrefix_app|apply TrimPrefix_app].
Qed.

(** The reverse index is keyed unambiguously as long as node names hold no
    separator. *)
Lemma KeyPlacementNodeInstance_inj n1 i1 n2 i2 :
  ContainsByte n1 slash = false → ContainsByte n2 slash = false →
  KeyPlacementNodeInstance n1 i1 = KeyPlacementNodeInstance n2 i2 → n1 = n2 ∧ i1 = i2.
Proof.
  unfold KeyPlacementNodeInstance. intros H1 H2 E.
  do 2 apply (inj (String.app _)) in E.
  pose proof (Cut_app slash n1 i1 H1) as C1. pose proof (Cut_app slash n2 i2 H2) as C2.
  change (String slash i1) with ("/" +:+ i1) in C1. change (String slash i2) with ("/" +:+ i2) in C2.
  rewrite E in C1. naive_solver congruence.
Qed.

Lemma KeyPlacement_disjoint n i j : KeyPlacementNodeInstance n i ≠ KeyPlacementInstance j.
Proof. unfold KeyPlacementNodeInstance, KeyPlacementInstance. intros E. by apply (inj (String.app _)) in E. Qed.

(** It is also keyed unambiguously when the instance names hold no separator. *)
Lemma last_segment_inj n1 i1 n2 i2 :
  ContainsByte i1 slash = false → ContainsByte i2 slash = false →
  n1 +:+ "/" +:+ i1 = n2 +:+ "/" +:+ i2 → n1 = n2 ∧ i1 = i2.
Proof. apply last_part_inj. Qed.

Lemma KeyPlacementNodeInstance_inj_instance n1 i1 n2 i2 :
  ContainsByte i1 slash = false → ContainsByte i2 slash = false →
  KeyPlacementNodeInstance n1 i1 = KeyPlacementNodeInstance n2 i2 → n1 = n2 ∧ i1 = i2.
Proof.
  unfold KeyPlacementNodeInstance. intros H1 H2 E. do 2 apply (inj (String.app _)) in E.
  by apply last_segment_inj.
Qed.

Lemma str_app_inj_r s t u : s +:+ u = t +:+ u → s = t.
Proof.
  revert t. induction s as [|c s IH]; intros [|d t]; rewrite ?str_app_nil_l, ?str_app_cons; intros E; [done|..].
  - apply (f_equal String.length) in E. simpl in E. rewrite str_length_app in E. lia.
  - apply (f_equal String.length) in E. simpl in E. rewrite str_length_app in E. lia.
  - injection E as -> E. f_equal. by apply IH.
Qed.

#[export] Instance KeyDerivedInstanceControllerStopped_inj : Inj (=) (=) KeyDerivedInstanceControllerStopped.
Proof.
  intros a b E. unfold KeyDerivedInstanceControllerStopped in E. do 2 apply (inj (String.app _)) in E.
  by eapply str_app_inj_r.
Qed.

#[export] Instance KeyDerivedSchedulerUnplacedReason_inj : Inj (=) (=) KeyDerivedSchedulerUnplacedReason.
Proof.
  intros a b E. unfold KeyDerivedSchedulerUnplacedReason in E. do 2 apply (inj (String.app _)) in E.
  by eapply str_app_inj_r.
Qed.

#[export] Instance KeyDerivedSchedulerUnplacedRequirements_inj : Inj (=) (=) KeyDerivedSchedulerUnplacedRequirements.
Proof.
  intros a b E. unfold KeyDerivedSchedulerUnplacedRequirements in E. do 2 apply (inj (String.app _)) in E.
  by eapply str_app_inj_r.
Qed.

Lemma KeyUnplaced_disjoint i j :
  KeyDerivedSchedulerUnplacedReason i ≠ KeyDerivedSchedulerUnplacedRequirements j.
Proof.
  unfold KeyDerivedSchedulerUnplacedReason, KeyDerivedSchedulerUnplacedRequirements. intros E.
  do 2 apply (inj (String.app _)) in E.
  change "/reason" with ("/" +:+ "reason") in E. change "/requirements" with ("/" +:+ "requirements") in E.
  by apply last_segment_inj in E as [_ ?].
Qed.
