(* ===== verification/Trie.v ===== *)
(** * The prefix trie over fact keys (src/store/trie.go)

    [trieNode] is the Go struct; a node's [children] map is a [gmap] from the
    next byte. A [prefixTrie] is its root node. The operations walk the key byte
    by byte as the Go loops do, and are stated over the root. The abstraction
    [trie_repr t K] says which set of keys [K] a trie indexes; every operation is
    shown to refine the corresponding operation on [K]. *)

From S2P Require Import Prelude GoStrings.

Inductive trieNode := TrieNode {
  children : gmap ascii trieNode;
  factKey : string;
  subtreeCount : Z
}.

Module prefixTrie.

(** A node as [&trieNode{children: make(map[byte]*trieNode)}] creates it. *)
Definition emptyNode : trieNode := TrieNode ∅ "" 0.

Definition newPrefixTrie : trieNode := emptyNode.

(** The walk [for index := 0; index < len(key); index++] that stops at the first
    missing child. *)
Fixpoint walk (key : string) (node : trieNode) : option trieNode :=
  match key with
  | "" => Some node
  | String c rest => children node !! c ≫= walk rest
  end.

(** The first loop of [Insert]: walk to the key's node, creating the missing
    ones. *)
Fixpoint walkCreating (key : string) (node : trieNode) : trieNode :=
  match key with
  | "" => node
  | String c rest =>
      let child := default emptyNode (children node !! c) in
      TrieNode (<[c := walkCreating rest child]> (children node))
               (factKey node) (subtreeCount node)
  end.

(** Assignment [currentNode.factKey = v] at the node the walk of [key] ends in. *)
Fixpoint setFactKey (v key : string) (node : trieNode) : trieNode :=
  match key with
  | "" => TrieNode (children node) v (subtreeCount node)
  | String c rest =>
      TrieNode (alter (setFactKey v rest) c (children node))
               (factKey node) (subtreeCount node)
  end.

(** [subtreeCount += d] at the root and at every node of the walk of [key]. *)
Fixpoint addToAncestors (d : Z) (key : string) (node : trieNode) : trieNode :=
  let count := (subtreeCount node + d)%Z in
  match key with
  | "" => TrieNode (children node) (factKey node) count
  | String c rest =>
      TrieNode (alter (addToAncestors d rest) c (children node)) (factKey node) count
  end.

Definition incrementAncestors (key : string) (node : trieNode) : trieNode :=
  addToAncestors 1 key node.

Definition decrementAncestors (key : string) (node : trieNode) : trieNode :=
  addToAncestors (-1) key node.

(** [pruneEmptyBranch]: from the key's node upwards, delete a node with neither
    a key nor children from its parent. A node that is kept leaves its parent
    with a child, so the loop's [break] needs no separate case. *)
Fixpoint pruneEmptyBranch (key : string) (node : trieNode) : trieNode :=
  match key with
  | "" => node
  | String c rest =>
      match children node !! c with
      | None => node
      | Some child =>
          let child' := pruneEmptyBranch rest child in
          let children' :=
            if decide (factKey child' = "" ∧ children child' = ∅)
            then delete c (children node)
            else <[c := child']> (children node) in
          TrieNode children' (factKey node) (subtreeCount node)
      end
  end.

Definition Insert (key : string) (trie : trieNode) : trieNode :=
  let trie := walkCreating key trie in
  match walk key trie with
  | Some currentNode =>
      if decide (factKey currentNode = "")
      then incrementAncestors key (setFactKey key key trie)
      else trie
  | None => trie
  end.

Definition Remove (key : string) (trie : trieNode) : trieNode * bool :=
  match walk key trie with
  | None => (trie, false)
  | Some currentNode =>
      if decide (factKey currentNode = "") then (trie, false)
      else (pruneEmptyBranch key (decrementAncestors key (setFactKey "" key trie)), true)
  end.

(** The bytes 0 to 255 in order. *)
Definition allBytes : list ascii := ascii_of_nat <$> seq 0 256.

(** The depth-first traversal: a node's own key, then its children in byte
    order. *)
Fixpoint collectSorted (node : trieNode) : list string :=
  (if decide (factKey node = "") then [] else [factKey node]) ++
  (let collected := collectSorted <$> children node in
   allBytes ≫= λ byteValue, default [] (collected !! byteValue)).

Definition KeysWithPrefix (prefix : string) (trie : trieNode) : list string :=
  match walk prefix trie with
  | None => []
  | Some currentNode =>
      if decide (subtreeCount currentNode = 0%Z ∧ factKey currentNode = "") then []
      else collectSorted currentNode
  end.

End prefixTrie.
Import prefixTrie.

(** ** Structural induction on tries *)

Fixpoint trieDepth (node : trieNode) : nat :=
  S (map_fold (λ _ child acc, Nat.max (trieDepth child) acc) 0 (children node)).

Lemma trieDepth_child node c child :
  children node !! c = Some child → trieDepth child < trieDepth node.
Proof.
  destruct node as [ch fk sc]; simpl. intros Hc.
  rewrite <-(insert_delete_id _ _ _ Hc).
  rewrite map_fold_insert_L; [lia| |apply lookup_delete_eq]. intros. lia.
Qed.

Lemma trieNode_induction (P : trieNode → Prop) :
  (∀ node, (∀ c child, children node !! c = Some child → P child) → P node) →
  ∀ node, P node.
Proof.
  intros Hstep node.
  induction node as [node IH] using (well_founded_induction (well_founded_ltof _ trieDepth)).
  apply Hstep. intros c child Hc. by apply IH, (trieDepth_child _ c).
Qed.

(** ** What a walk finds *)

(** Key and count of the node a walk ends in; the part of a node that the
    operations below change one path at a time. *)
Definition infoAt (path : string) (node : trieNode) : option (string * Z) :=
  (λ n, (factKey n, subtreeCount n)) <$> walk path node.

Lemma infoAt_nil node : infoAt "" node = Some (factKey node, subtreeCount node).
Proof. done. Qed.

Lemma infoAt_cons c path node : infoAt (String c path) node = children node !! c ≫= infoAt path.
Proof. unfold infoAt. simpl. by destruct (children node !! c). Qed.

Lemma infoAt_emptyNode path : infoAt path emptyNode = if decide (path = "") then Some ("", 0%Z) else None.
Proof. destruct path; [done|]. rewrite infoAt_cons. simpl. by rewrite lookup_empty. Qed.

Lemma infoAt_setFactKey v k p node :
  infoAt p (setFactKey v k node) =
    (λ '(fk, sc), (if decide (p = k) then v else fk, sc)) <$> infoAt p node.
Proof.
  revert p node. induction k as [|c k IH]; intros p node.
  - destruct p as [|d p]; [by rewrite !infoAt_nil|].
    rewrite !infoAt_cons. simpl. destruct (children node !! d) as [child|]; [|done]. simpl.
    by destruct (infoAt p child) as [[]|].
  - destruct p as [|d p]; [done|]. rewrite !infoAt_cons. simpl. rewrite lookup_alter.
    case_decide; subst.
    + destruct (children node !! d) as [child|]; [|done]. simpl. rewrite IH.
      destruct (infoAt p child) as [[]|]; [|done]. simpl. repeat case_decide; congruence.
    + destruct (children node !! d) as [child|]; [|done]. simpl.
      destruct (infoAt p child) as [[]|]; [|done]. simpl. case_decide; congruence.
Qed.

Lemma infoAt_addToAncestors d k p node :
  infoAt p (addToAncestors d k node) =
    (λ '(fk, sc), (fk, if HasPrefix k p then (sc + d)%Z else sc)) <$> infoAt p node.
Proof.
  revert p node. induction k as [|c k IH]; intros p node.
  - destruct p as [|e p]; [done|]. rewrite !infoAt_cons. simpl.
    destruct (children node !! e) as [child|]; [|done]. simpl.
    by destruct (infoAt p child) as [[]|].
  - destruct p as [|e p]; [done|]. rewrite !infoAt_cons. unfold HasPrefix. simpl. rewrite lookup_alter.
    destruct (ascii_dec e c) as [->|Hne].
    + rewrite decide_True by done. destruct (children node !! c) as [child|]; [|done]. simpl. apply IH.
    + rewrite decide_False by done. destruct (children node !! e) as [child|]; [|done]. simpl.
      by destruct (infoAt p child) as [[]|].
Qed.

Lemma infoAt_walkCreating k p node :
  infoAt p (walkCreating k node) =
    match infoAt p node with
    | Some i => Some i
    | None => if HasPrefix k p then Some ("", 0%Z) else None
    end.
Proof.
  revert p node. induction k as [|c k IH]; intros p node.
  - simpl. destruct p as [|e p]; [done|]. by destruct (infoAt _ node).
  - destruct p as [|e p]; [done|]. rewrite !infoAt_cons. unfold HasPrefix. simpl.
    rewrite lookup_insert. destruct (ascii_dec e c) as [->|Hne].
    + rewrite decide_True by done. simpl. rewrite IH.
      destruct (children node !! c) as [child|]; simpl; [done|].
      rewrite infoAt_emptyNode. unfold HasPrefix. case_decide; subst; [|done].
      by destruct k.
    + rewrite decide_False by done. by destruct (children node !! e ≫= infoAt p).
Qed.

Lemma infoAt_walk p node : infoAt p node = None ↔ walk p node = None.
Proof. unfold infoAt. by destruct (walk p node). Qed.

(** ** The set of keys a trie indexes *)

(** The keys of [K] that begin with [p]. *)
Definition under (p : string) (K : gset string) : gset string :=
  filter (λ k, HasPrefix k p = true) K.

(** [trie_repr t K]: the trie indexes exactly the keys [K]. Every key of [K] has
    its node; a node other than the root lies on the path of some key of [K],
    holds its own path as key or none, and counts the keys below it. The root's
    count is an upper bound only: the empty string cannot be stored (an empty
    [factKey] means no key), yet inserting it increments the root's count. *)
Record trie_repr (t : trieNode) (K : gset string) : Prop := {
  repr_nonempty : "" ∉ K;
  repr_present k : k ∈ K → ∃ sc, infoAt k t = Some (k, sc);
  repr_key p fk sc : infoAt p t = Some (fk, sc) → fk ≠ "" → fk = p ∧ p ∈ K;
  repr_live p : p ≠ "" → is_Some (infoAt p t) → ∃ k, k ∈ K ∧ HasPrefix k p = true;
  repr_count p fk sc : p ≠ "" → infoAt p t = Some (fk, sc) → sc = Z.of_nat (size (under p K));
  repr_root : (Z.of_nat (size K) ≤ subtreeCount t)%Z
}.

Lemma elem_of_under k p K : k ∈ under p K ↔ HasPrefix k p = true ∧ k ∈ K.
Proof. unfold under. by rewrite elem_of_filter. Qed.

Lemma under_nil K : under "" K = K.
Proof. apply set_eq. intros k. rewrite elem_of_under, HasPrefix_nil. naive_solver. Qed.

Lemma size_under_insert p k K :
  k ∉ K → Z.of_nat (size (under p ({[k]} ∪ K))) = (Z.of_nat (size (under p K)) + if HasPrefix k p then 1 else 0)%Z.
Proof.
  intros Hk. destruct (HasPrefix k p) eqn:E.
  - replace (under p ({[k]} ∪ K)) with ({[k]} ∪ under p K)
      by (apply set_eq; intros x; rewrite elem_of_union, !elem_of_under; set_solver).
    rewrite size_union, size_singleton; [lia|].
    intros x. rewrite elem_of_under. set_solver.
  - replace (under p ({[k]} ∪ K)) with (under p K); [lia|].
    apply set_eq. intros x. rewrite !elem_of_under, elem_of_union, elem_of_singleton.
    naive_solver congruence.
Qed.

Lemma size_under_delete p k K :
  k ∈ K → Z.of_nat (size (under p (K ∖ {[k]}))) = (Z.of_nat (size (under p K)) - if HasPrefix k p then 1 else 0)%Z.
Proof.
  intros Hk. assert (K = {[k]} ∪ (K ∖ {[k]})) as E.
  { apply set_eq. intros x. destruct (decide (x = k)); set_solver. }
  rewrite E at 2. rewrite size_under_insert; [|set_solver]. destruct (HasPrefix k p); lia.
Qed.

Lemma newPrefixTrie_repr : trie_repr newPrefixTrie ∅.
Proof.
  split.
  - set_solver.
  - set_solver.
  - intros p fk sc. unfold newPrefixTrie. rewrite infoAt_emptyNode. case_decide; naive_solver.
  - intros p Hp. unfold newPrefixTrie. rewrite infoAt_emptyNode, decide_False by done. by intros [].
  - intros p fk sc Hp. unfold newPrefixTrie. by rewrite infoAt_emptyNode, decide_False.
  - done.
Qed.

(** ** Insertion *)

Lemma infoAt_ancestor p q node : is_Some (infoAt (p +:+ q) node) → is_Some (infoAt p node).
Proof.
  revert node. induction p as [|c p IH]; intros node; [done|].
  rewrite str_app_cons, !infoAt_cons. destruct (children node !! c); [apply IH|]. by intros [].
Qed.

Lemma infoAt_prefix k p node : is_Some (infoAt k node) → HasPrefix k p = true → is_Some (infoAt p node).
Proof. intros Hk [r ->]%HasPrefix_spec. by eapply infoAt_ancestor. Qed.

Lemma repr_ancestor t K k p :
  trie_repr t K → k ∈ K → HasPrefix k p = true → is_Some (infoAt p t).
Proof.
  intros Ht Hk Hp. apply (infoAt_prefix k); [|done]. destruct (repr_present _ _ Ht k Hk). eauto.
Qed.

Lemma repr_no_node t K p : trie_repr t K → infoAt p t = None → under p K = ∅.
Proof.
  intros Ht Hp. apply set_eq. intros k. rewrite elem_of_under. split; [|set_solver].
  intros [Hkp Hk]. destruct (repr_ancestor t K k p Ht Hk Hkp). congruence.
Qed.

Lemma trie_repr_ext t t' K :
  (∀ p, infoAt p t' = infoAt p t) → trie_repr t K → trie_repr t' K.
Proof.
  intros E [H1 H2 H3 H4 H5 H6]. split; try setoid_rewrite E; try done.
  assert (subtreeCount t' = subtreeCount t) as ->; [|done].
  pose proof (E "") as E0. rewrite !infoAt_nil in E0. congruence.
Qed.

Lemma repr_factKey_root t K : trie_repr t K → factKey t = "".
Proof.
  intros Ht. destruct (decide (factKey t = "")) as [|Hne]; [done|].
  by destruct (repr_key _ _ Ht "" (factKey t) (subtreeCount t) eq_refl Hne).
Qed.

(** What [Insert] leaves at each path when the key was not stored. *)
Lemma infoAt_inserted k p t :
  infoAt p (incrementAncestors k (setFactKey k k (walkCreating k t))) =
    match infoAt p t with
    | Some (fk, sc) => Some (if decide (p = k) then k else fk, if HasPrefix k p then (sc + 1)%Z else sc)
    | None => if HasPrefix k p then Some (if decide (p = k) then k else "", 1%Z) else None
    end.
Proof.
  unfold incrementAncestors.
  rewrite infoAt_addToAncestors, infoAt_setFactKey, infoAt_walkCreating.
  destruct (infoAt p t) as [[]|]; [done|]. by destruct (HasPrefix k p).
Qed.

Lemma Insert_new t K k :
  trie_repr t K → k ≠ "" → k ∉ K →
  trie_repr (incrementAncestors k (setFactKey k k (walkCreating k t))) ({[k]} ∪ K).
Proof.
  intros Ht Hk HkK. pose proof (repr_nonempty _ _ Ht).
  pose proof (size_under_insert "" k K HkK) as Hroot. rewrite !under_nil, HasPrefix_nil in Hroot.
  split.
  - set_solver.
  - intros k' Hk'. rewrite infoAt_inserted. destruct (decide (k' = k)) as [->|Hne].
    + rewrite HasPrefix_refl. destruct (infoAt k t) as [[]|]; eauto.
    + destruct (repr_present _ _ Ht k') as [sc ->]; [set_solver|]. eauto.
  - intros p fk sc. rewrite infoAt_inserted.
    destruct (infoAt p t) as [[fk0 sc0]|] eqn:Ep.
    + case_decide; intros [= <- <-] Hfk; [set_solver|].
      destruct (repr_key _ _ Ht p fk0 sc0 Ep Hfk). set_solver.
    + destruct (HasPrefix k p); [|done]. case_decide; intros [= <- <-]; set_solver.
  - intros p Hp Hi. destruct (HasPrefix k p) eqn:Ekp; [set_solver|].
    rewrite infoAt_inserted, Ekp in Hi.
    destruct (repr_live _ _ Ht p Hp) as (k' & ? & ?); [|set_solver].
    destruct (infoAt p t) as [[]|]; [eauto|]. by destruct Hi.
  - intros p fk sc Hp. rewrite infoAt_inserted, size_under_insert by done.
    destruct (infoAt p t) as [[fk0 sc0]|] eqn:Ep.
    + intros [= _ <-]. rewrite <-(repr_count _ _ Ht p fk0 sc0 Hp Ep).
      destruct (HasPrefix k p); lia.
    + rewrite (repr_no_node t K p Ht Ep), size_empty. destruct (HasPrefix k p); [|done].
      by intros [= _ <-].
  - pose proof (infoAt_inserted k "" t) as E. rewrite !infoAt_nil, HasPrefix_nil in E.
    pose proof (repr_root _ _ Ht). injection E as _ E'. rewrite E'. lia.
Qed.

Lemma Insert_empty_key t K : trie_repr t K → trie_repr (Insert "" t) K.
Proof.
  intros Ht. unfold Insert, incrementAncestors. simpl.
  rewrite decide_True by (by eapply repr_factKey_root).
  assert (E : ∀ p, infoAt p (TrieNode (children t) "" (subtreeCount t + 1)) =
    if decide (p = "") then Some ("", (subtreeCount t + 1)%Z) else infoAt p t).
  { intros [|c p]; [done|]. by rewrite !infoAt_cons. }
  destruct Ht as [H1 H2 H3 H4 H5 H6]. split.
  - done.
  - intros k Hk. rewrite E. case_decide; [set_solver|eauto].
  - intros p fk sc. rewrite E. case_decide; [naive_solver|eauto].
  - intros p Hp. rewrite E, decide_False by done. eauto.
  - intros p fk sc Hp. rewrite E, decide_False by done. eauto.
  - simpl. lia.
Qed.

(** Shared by the store's proofs: what [Insert] does to the set of keys. *)
Lemma Insert_repr t K k :
  trie_repr t K → trie_repr (Insert k t) (if decide (k = "") then K else {[k]} ∪ K).
Proof.
  intros Ht. case_decide as Hk; [subst; by apply Insert_empty_key|].
  pose proof (infoAt_walkCreating k k t) as Ek. rewrite HasPrefix_refl in Ek.
  destruct (decide (k ∈ K)) as [HkK|HkK].
  - destruct (repr_present _ _ Ht k HkK) as [sc E]. rewrite E in Ek.
    replace ({[k]} ∪ K) with K by set_solver.
    assert (trie_repr (walkCreating k t) K) as Ht'.
    { apply (trie_repr_ext t); [|done]. intros p. rewrite infoAt_walkCreating.
      destruct (infoAt p t) eqn:Ep; [done|]. destruct (HasPrefix k p) eqn:Ekp; [|done].
      destruct (repr_ancestor t K k p Ht HkK Ekp). congruence. }
    unfold Insert. unfold infoAt in Ek. destruct (walk k (walkCreating k t)); [|done].
    simpl in Ek. simplify_eq. rewrite decide_False; congruence.
  - pose proof (Insert_new t K k Ht Hk HkK).
    unfold Insert. unfold infoAt in Ek at 1. destruct (walk k (walkCreating k t)) as [n|].
    + simpl in Ek. rewrite decide_True; [done|].
      destruct (infoAt k t) as [[fk sc]|] eqn:E; simplify_eq; [|congruence].
      destruct (decide (factKey n = "")) as [|Hne]; [done|].
      destruct (repr_key _ _ Ht k _ _ E Hne). done.
    + simpl in Ek. by destruct (infoAt k t).
Qed.

(** ** Removal *)

(** Some node at or below [p] holds a key. *)
Definition live_at (p : string) (node : trieNode) : Prop :=
  ∃ q fk sc, infoAt (p +:+ q) node = Some (fk, sc) ∧ fk ≠ "".

Lemma live_at_cons c p node :
  live_at (String c p) node ↔ ∃ child, children node !! c = Some child ∧ live_at p child.
Proof.
  unfold live_at. setoid_rewrite str_app_cons. setoid_rewrite infoAt_cons. split.
  - intros (q & fk & sc & H & ?). destruct (children node !! c) as [child|]; [|done]. eauto 10.
  - intros (child & -> & q & fk & sc & H & ?). eauto 10.
Qed.

Lemma live_at_app p q node : live_at (p +:+ q) node → live_at p node.
Proof. intros (r & fk & sc & H & ?). rewrite str_app_assoc in H. unfold live_at. eauto 10. Qed.

Lemma prune_info_sub k p node i :
  infoAt p (pruneEmptyBranch k node) = Some i → infoAt p node = Some i.
Proof.
  revert p node. induction k as [|c k IH]; intros p node; [done|]. simpl.
  destruct (children node !! c) as [child|] eqn:Ec; [|done].
  destruct p as [|d p]; [done|]. rewrite !infoAt_cons. simpl. case_decide.
  - rewrite lookup_delete. case_decide; [done|]. done.
  - rewrite lookup_insert. case_decide; [|done]. subst. rewrite Ec. apply IH.
Qed.

Lemma prune_info_live k p node :
  live_at p node → infoAt p (pruneEmptyBranch k node) = infoAt p node.
Proof.
  revert p node. induction k as [|c k IH]; intros p node Hp; [done|]. simpl.
  destruct (children node !! c) as [child|] eqn:Ec; [|done].
  destruct p as [|d p]; [done|]. rewrite !infoAt_cons. simpl.
  apply live_at_cons in Hp as (child0 & E0 & Hp).
  destruct (decide (c = d)) as [->|Hne].
  - assert (child0 = child) as -> by congruence. rewrite decide_False.
    + rewrite lookup_insert_eq, Ec. by apply IH.
    + intros [Hfk Hch]. destruct Hp as (q & fk & sc & Hq & Hne).
      assert (live_at (p +:+ q) child) as Hlive.
      { exists "", fk, sc. by rewrite str_app_nil_r. }
      apply IH in Hlive. rewrite Hq in Hlive. destruct (p +:+ q) as [|e r].
      * rewrite infoAt_nil in Hlive. congruence.
      * rewrite infoAt_cons, Hch, lookup_empty in Hlive. done.
  - case_decide; [by rewrite lookup_delete_ne|by rewrite lookup_insert_ne].
Qed.

Lemma prune_all_live k node :
  (∀ p, p ≠ "" → is_Some (infoAt p node) → HasPrefix k p = true ∨ live_at p node) →
  ∀ p, p ≠ "" → is_Some (infoAt p (pruneEmptyBranch k node)) → live_at p node.
Proof.
  revert node. induction k as [|c k IH]; intros node Hall p Hp.
  { simpl. intros Hi. destruct (Hall p Hp Hi) as [H|H]; [|done]. by destruct p. }
  assert (Hkeep : is_Some (infoAt p node) → HasPrefix (String c k) p = false → live_at p node).
  { intros Hi E. destruct (Hall p Hp Hi); congruence. }
  simpl. destruct (children node !! c) as [child|] eqn:Ec.
  2: { intros Hi. apply Hkeep; [done|]. destruct (HasPrefix (String c k) p) eqn:E; [|done].
       destruct p as [|d p]; [done|]. unfold HasPrefix in E. simpl in E.
       destruct (ascii_dec d c); [subst|done]. rewrite infoAt_cons, Ec in Hi. by destruct Hi. }
  destruct p as [|d p]; [done|]. rewrite infoAt_cons. simpl.
  destruct (decide (c = d)) as [<-|Hne].
  - case_decide as Hempty; [rewrite lookup_delete_eq; by intros []|].
    rewrite lookup_insert_eq. simpl. intros Hi. apply live_at_cons. exists child. split; [done|].
    assert (Hall' : ∀ p, p ≠ "" → is_Some (infoAt p child) → HasPrefix k p = true ∨ live_at p child).
    { intros q Hq Hiq. destruct (Hall (String c q)) as [H|H]; [done|by rewrite infoAt_cons, Ec| |].
      - left. apply HasPrefix_cons in H as (s' & [= <-] & H). done.
      - right. apply live_at_cons in H as (? & ? & ?). congruence. }
    destruct p as [|e p]; [|by apply IH].
    destruct (decide (factKey (pruneEmptyBranch k child) = "")) as [Hfk|Hfk].
    + destruct (map_choose (children (pruneEmptyBranch k child))) as (e & g & Hg); [naive_solver|].
      apply (live_at_app "" (String e "")). rewrite str_app_nil_l.
      apply IH; [done|done|]. rewrite infoAt_cons, Hg. simpl. eauto.
    + exists "", (factKey (pruneEmptyBranch k child)), (subtreeCount (pruneEmptyBranch k child)).
      split; [|done]. apply (prune_info_sub k), infoAt_nil.
  - intros Hi. apply Hkeep.
    + rewrite infoAt_cons. case_decide;
        [by rewrite lookup_delete_ne in Hi|by rewrite lookup_insert_ne in Hi].
    + unfold HasPrefix. simpl. by destruct (ascii_dec d c).
Qed.

Lemma Remove_present t K k :
  trie_repr t K → k ∈ K →
  trie_repr (pruneEmptyBranch k (decrementAncestors k (setFactKey "" k t))) (K ∖ {[k]}).
Proof.
  intros Ht Hk. set (t1 := decrementAncestors k (setFactKey "" k t)).
  assert (E1 : ∀ p, infoAt p t1 = (λ '(fk, sc), (if decide (p = k) then "" else fk,
      if HasPrefix k p then (sc + -1)%Z else sc)) <$> infoAt p t).
  { intros p. unfold t1, decrementAncestors. rewrite infoAt_addToAncestors, infoAt_setFactKey.
    by destruct (infoAt p t) as [[]|]. }
  assert (Hfact : ∀ k', k' ∈ K ∖ {[k]} → ∃ sc, infoAt k' t1 = Some (k', sc)).
  { intros k' Hk'. destruct (repr_present _ _ Ht k') as [sc Hsc]; [set_solver|].
    rewrite E1, Hsc. simpl. rewrite decide_False by set_solver. eauto. }
  pose proof (repr_nonempty _ _ Ht) as Hne.
  assert (Hlive : ∀ p k', k' ∈ K ∖ {[k]} → HasPrefix k' p = true → live_at p t1).
  { intros p k' Hk' [q ->]%HasPrefix_spec. destruct (Hfact _ Hk') as [sc Hsc].
    exists q, (p +:+ q), sc. split; [done|]. intros E. rewrite E in Hk'. set_solver. }
  split.
  - set_solver.
  - intros k' Hk'. rewrite prune_info_live; [by apply Hfact|].
    apply (Hlive _ k'); [done|apply HasPrefix_refl].
  - intros p fk sc Hi%prune_info_sub Hfk. rewrite E1 in Hi.
    destruct (infoAt p t) as [[fk0 sc0]|] eqn:Ep; [|done]. simpl in Hi. simplify_eq.
    case_decide; [done|]. destruct (repr_key _ _ Ht p fk0 sc0 Ep Hfk). set_solver.
  - intros p Hp Hi. apply prune_all_live in Hi; [|clear p Hp Hi|done].
    + destruct Hi as (q & fk & sc & Hq & Hfk). rewrite E1 in Hq.
      destruct (infoAt (p +:+ q) t) as [[fk0 sc0]|] eqn:Ep; [|done]. simpl in Hq. simplify_eq.
      case_decide; [done|]. destruct (repr_key _ _ Ht _ fk0 sc0 Ep Hfk).
      exists (p +:+ q). split; [set_solver|apply HasPrefix_app].
    + intros p Hp Hi. destruct (repr_live _ _ Ht p Hp) as (k0 & Hk0 & Hpk0).
      { rewrite E1 in Hi. destruct (infoAt p t); [eauto|]. by destruct Hi. }
      destruct (decide (k0 = k)) as [->|]; [by left|]. right. apply (Hlive p k0); set_solver.
  - intros p fk sc Hp Hi%prune_info_sub. rewrite E1 in Hi.
    destruct (infoAt p t) as [[fk0 sc0]|] eqn:Ep; [|done]. simpl in Hi. simplify_eq.
    rewrite size_under_delete by done. rewrite <-(repr_count _ _ Ht p fk0 sc0 Hp Ep).
    destruct (HasPrefix k p); lia.
  - pose proof (size_under_delete "" k K Hk) as Hroot. rewrite !under_nil, HasPrefix_nil in Hroot.
    pose proof (repr_root _ _ Ht).
    assert (subtreeCount (pruneEmptyBranch k t1) = (subtreeCount t - 1)%Z) as ->; [|lia].
    pose proof (E1 "") as E. rewrite !infoAt_nil, HasPrefix_nil in E. simpl in E.
    pose proof (prune_info_sub k "" t1 _ (infoAt_nil _)) as E2.
    rewrite infoAt_nil in E2. injection E as _ E. injection E2 as _ E2. lia.
Qed.

(** [Remove] reports whether the key was stored, and removes it if it was. *)
Lemma Remove_repr t K k :
  trie_repr t K →
  snd (Remove k t) = bool_decide (k ∈ K) ∧ trie_repr (fst (Remove k t)) (K ∖ {[k]}).
Proof.
  intros Ht. unfold Remove. destruct (decide (k ∈ K)) as [Hk|Hk].
  - rewrite bool_decide_eq_true_2 by done.
    destruct (repr_present _ _ Ht k Hk) as [sc Hi]. unfold infoAt in Hi.
    destruct (walk k t) as [n|]; [|done]. simpl in Hi. simplify_eq.
    assert (factKey n ≠ "") by (intros E; rewrite E in Hk; by apply (repr_nonempty _ _ Ht)).
    rewrite decide_False by done. split; [done|]. by apply Remove_present.
  - rewrite bool_decide_eq_false_2 by done. replace (K ∖ {[k]}) with K by set_solver.
    destruct (walk k t) as [n|] eqn:Ew; [|done].
    destruct (decide (factKey n = "")) as [|Hne]; [done|].
    destruct (repr_key _ _ Ht k (factKey n) (subtreeCount n)); [|done|done].
    unfold infoAt. by rewrite Ew.
Qed.

(** ** Prefix scans *)

Lemma lookup_allBytes (i : nat) : i < 256 → allBytes !! i = Some (ascii_of_nat i).
Proof.
  intros Hi. unfold allBytes. rewrite list_lookup_fmap, lookup_seq_lt by done. done.
Qed.

Lemma elem_of_allBytes c : c ∈ allBytes.
Proof.
  apply list_elem_of_lookup. exists (nat_of_ascii c).
  rewrite lookup_allBytes by apply nat_ascii_bounded. by rewrite ascii_nat_embedding.
Qed.

Lemma ascii_compare_of_nat i j :
  i < j < 256 → Ascii.compare (ascii_of_nat i) (ascii_of_nat j) = Lt.
Proof.
  intros. unfold Ascii.compare. apply N.compare_lt_iff.
  unfold ascii_of_nat. rewrite !N_ascii_embedding by lia. lia.
Qed.

Lemma allBytes_sorted : StronglySorted (λ a b, Ascii.compare a b = Lt) allBytes.
Proof.
  unfold allBytes. apply Sorted_StronglySorted; [intros ???; apply ascii_compare_lt_trans|].
  assert (H : ∀ n i, i + n ≤ 256 → Sorted (λ a b, Ascii.compare a b = Lt) (ascii_of_nat <$> seq i n)).
  { induction n as [|n IH]; intros i Hi; simpl; [constructor|]. constructor; [apply IH; lia|].
    destruct n; constructor. apply ascii_compare_of_nat. lia. }
  by apply H.
Qed.

(** Concatenating sorted blocks whose elements follow the blocks' order gives a
    sorted list. *)
Lemma StronglySorted_bind {A B} (R : relation A) (S : relation B) (f : A → list B) (l : list A) :
  StronglySorted R l →
  (∀ a, a ∈ l → StronglySorted S (f a)) →
  (∀ a a' b b', R a a' → b ∈ f a → b' ∈ f a' → S b b') →
  StronglySorted S (l ≫= f).
Proof.
  intros Hl Hf Hord. induction Hl as [|a l Hl IH Ha]; [constructor|]. rewrite bind_cons.
  apply StronglySorted_app. split_and!.
  - intros b b' Hb [a' [Hb' Ha']]%list_elem_of_bind.
    rewrite Forall_forall in Ha. eapply Hord; eauto.
  - apply Hf. by left.
  - apply IH. intros a' Ha'. apply Hf. by right.
Qed.

Lemma elem_of_collectSorted node k :
  k ∈ collectSorted node ↔ k ≠ "" ∧ ∃ q sc, infoAt q node = Some (k, sc).
Proof.
  induction node as [node IH] using trieNode_induction.
  assert (Hroot : k ∈ (if decide (factKey node = "") then [] else [factKey node]) ↔
                  k ≠ "" ∧ k = factKey node).
  { case_decide; rewrite ?list_elem_of_singleton, ?elem_of_nil; naive_solver congruence. }
  destruct node as [ch fk sc]; cbn [collectSorted children factKey] in *.
  rewrite elem_of_app, Hroot, list_elem_of_bind. split.
  - intros [[Hk ->]|(c & Hc & _)].
    + split; [done|]. exists "", sc. done.
    + rewrite lookup_fmap in Hc. destruct (ch !! c) as [child|] eqn:Ec; simpl in Hc;
        [|by apply elem_of_nil in Hc].
      apply (IH c) in Hc as (Hk & q & sc' & Hq); [|done]. split; [done|].
      exists (String c q), sc'. rewrite infoAt_cons. simpl. by rewrite Ec.
  - intros (Hk & [|c q] & sc' & Hq).
    + left. rewrite infoAt_nil in Hq. simpl in Hq. split; congruence.
    + right. rewrite infoAt_cons in Hq. simpl in Hq.
      destruct (ch !! c) as [child|] eqn:Ec; [|done]. exists c.
      split; [|apply elem_of_allBytes]. rewrite lookup_fmap, Ec. simpl. apply (IH c); eauto.
Qed.

(** In a well-formed subtree rooted at path [p] the traversal is sorted. *)
Lemma collectSorted_sorted node p :
  (∀ q fk sc, infoAt q node = Some (fk, sc) → fk ≠ "" → fk = p +:+ q) →
  StronglySorted str_lt (collectSorted node).
Proof.
  revert p. induction node as [node IH] using trieNode_induction. intros p Hwf.
  pose proof (elem_of_collectSorted) as Hmem.
  destruct node as [ch fk sc]; cbn [collectSorted children factKey] in *.
  assert (Hchild : ∀ c child, ch !! c = Some child →
    ∀ k, k ∈ collectSorted child → ∃ q, k = p +:+ String c q).
  { intros c child Hc k (Hk & q & sc' & Hq)%elem_of_collectSorted. exists q.
    apply (Hwf (String c q) k sc'); [|done]. rewrite infoAt_cons. simpl. by rewrite Hc. }
  apply StronglySorted_app. split_and!.
  - intros k1 k2 Hk1 (c & Hk2 & _)%list_elem_of_bind.
    case_decide as Hfk; [by apply elem_of_nil in Hk1|]. apply list_elem_of_singleton in Hk1 as ->.
    rewrite lookup_fmap in Hk2. destruct (ch !! c) as [child|] eqn:Ec; simpl in Hk2;
      [|by apply elem_of_nil in Hk2].
    destruct (Hchild c child Ec k2 Hk2) as [q ->].
    assert (fk = p) as -> by (rewrite <-(str_app_nil_r p); by apply (Hwf "" fk sc)).
    by apply str_ltb_prefix_lt.
  - case_decide; repeat constructor.
  - apply (StronglySorted_bind _ _ _ _ allBytes_sorted).
    + intros c _. rewrite lookup_fmap. destruct (ch !! c) as [child|] eqn:Ec; simpl; [|constructor].
      apply (IH c child Ec (p +:+ String c "")). intros q fk' sc' Hq Hfk'.
      rewrite str_app_assoc, str_app_cons, str_app_nil_l.
      apply (Hwf (String c q) fk' sc'); [|done]. rewrite infoAt_cons. simpl. by rewrite Ec.
    + intros c c' k k' Hcc'. rewrite !lookup_fmap.
      destruct (ch !! c) as [child|] eqn:Ec; simpl; [|by intros ?%elem_of_nil].
      destruct (ch !! c') as [child'|] eqn:Ec'; simpl; [|by intros _ ?%elem_of_nil].
      intros [q ->]%(Hchild c child Ec) [q' ->]%(Hchild c' child' Ec').
      unfold str_lt. by rewrite str_ltb_app, str_ltb_cons, Hcc'.
Qed.

Lemma infoAt_walk_app p q node n :
  walk p node = Some n → infoAt q n = infoAt (p +:+ q) node.
Proof.
  revert node. induction p as [|c p IH]; intros node; simpl; [by intros [= ->]|].
  rewrite str_app_cons, infoAt_cons. destruct (children node !! c); [apply IH|done].
Qed.

(** [KeysWithPrefix] returns the stored keys that begin with the prefix, without
    repetition and in ascending order. *)
Lemma KeysWithPrefix_repr t K p :
  trie_repr t K →
  StronglySorted str_lt (KeysWithPrefix p t) ∧
  (∀ k, k ∈ KeysWithPrefix p t ↔ k ∈ under p K).
Proof.
  intros Ht. unfold KeysWithPrefix. destruct (walk p t) as [n|] eqn:Ew.
  2: { apply infoAt_walk in Ew. rewrite (repr_no_node t K p Ht Ew). split; [constructor|set_solver]. }
  assert (Hmem : ∀ k, k ∈ collectSorted n ↔ k ∈ under p K).
  { intros k. rewrite elem_of_collectSorted, elem_of_under. setoid_rewrite (infoAt_walk_app p _ t n Ew).
    split.
    - intros (Hk & q & sc & Hq). destruct (repr_key _ _ Ht _ _ _ Hq Hk) as [-> ?].
      split; [apply HasPrefix_app|done].
    - intros [[q ->]%HasPrefix_spec Hk]. destruct (repr_present _ _ Ht _ Hk) as [sc Hsc].
      split; [|by exists q, sc]. intros E. rewrite E in Hk. by apply (repr_nonempty _ _ Ht). }
  assert (Hi : infoAt p t = Some (factKey n, subtreeCount n)) by (unfold infoAt; by rewrite Ew).
  case_decide as Hempty.
  - destruct Hempty as [Hsc Hfk]. split; [constructor|]. intros k. rewrite elem_of_nil.
    split; [done|]. intros Hk.
    assert (size (under p K) = 0) as Hz.
    { destruct (decide (p = "")) as [->|Hp].
      - simpl in Ew. simplify_eq. pose proof (repr_root _ _ Ht). rewrite under_nil. lia.
      - pose proof (repr_count _ _ Ht p _ _ Hp Hi). lia. }
    apply size_empty_inv in Hz. set_solver.
  - split; [|done]. apply (collectSorted_sorted n p). intros q fk sc Hq Hfk.
    rewrite (infoAt_walk_app p q t n Ew) in Hq. by destruct (repr_key _ _ Ht _ _ _ Hq Hfk).
Qed.

(** ** The trie as an implementation of a set of keys *)

Inductive trieOp := InsertOp (key : string) | RemoveOp (key : string).

Definition trie_step (t : trieNode) (op : trieOp) : trieNode :=
  match op with
  | InsertOp k => Insert k t
  | RemoveOp k => fst (Remove k t)
  end.

(** The abstract counterpart: a set of non-empty keys. *)
Definition keyset_step (K : gset string) (op : trieOp) : gset string :=
  match op with
  | InsertOp k => if decide (k = "") then K else {[k]} ∪ K
  | RemoveOp k => K ∖ {[k]}
  end.

Definition trie_run (ops : list trieOp) : trieNode := foldl trie_step newPrefixTrie ops.
Definition keyset_run (ops : list trieOp) : gset string := foldl keyset_step ∅ ops.

Lemma trie_run_repr ops : trie_repr (trie_run ops) (keyset_run ops).
Proof.
  unfold trie_run, keyset_run. generalize newPrefixTrie_repr.
  generalize newPrefixTrie, (∅ : gset string).
  induction ops as [|op ops IH]; intros t K Ht; [done|]. simpl. apply IH.
  destruct op; [by apply Insert_repr|by apply Remove_repr].
Qed.

Lemma str_lt_sorted_unique l1 l2 :
  StronglySorted str_lt l1 → StronglySorted str_lt l2 → (∀ k, k ∈ l1 ↔ k ∈ l2) → l1 = l2.
Proof.
  intros H1 H2 Hmem.
  assert (Hnd : ∀ l, StronglySorted str_lt l → NoDup l).
  { intros l. induction 1 as [|k l Hl IH Hk]; constructor; [|done].
    intros Hin. rewrite Forall_forall in Hk. pose proof (Hk k Hin) as H.
    unfold str_lt in H. by rewrite str_ltb_irrefl in H. }
  apply (StronglySorted_unique_strong str_lt); [|done|done|].
  - intros x y _ _ Hxy Hyx. unfold str_lt in *. apply str_ltb_asym in Hxy. congruence.
  - apply NoDup_Permutation; auto.
Qed.

Lemma sort_strings_strict l : NoDup l → StronglySorted str_lt (sort_strings l).
Proof.
  intros Hl. pose proof (sort_stable_sorted str_ltb l) as Hs. unfold sort_strings.
  assert (Hl' : NoDup (sort_stable str_ltb l)) by (by rewrite sort_stable_perm).
  revert Hs Hl'. generalize (sort_stable str_ltb l). clear l Hl. intros l.
  induction 1 as [|x l Hl IH Hx]; intros Hnd; constructor; inv Hnd; [auto|].
  rewrite Forall_forall in Hx |- *. intros y Hy. unfold str_lt.
  destruct (str_ltb x y) eqn:E; [done|]. pose proof (str_ltb_total _ _ E (Hx y Hy)). by subst.
Qed.

Lemma KeysWithPrefix_sort t K p :
  trie_repr t K → KeysWithPrefix p t = sort_strings (elements (under p K)).
Proof.
  intros Ht. destruct (KeysWithPrefix_repr t K p Ht) as [Hs Hm].
  apply str_lt_sorted_unique; [done|apply sort_strings_strict, NoDup_elements|].
  intros k. rewrite Hm. unfold sort_strings. by rewrite sort_stable_perm, elem_of_elements.
Qed.
