(* ===== verification/EventHistory.v ===== *)
(** * Facts, events and the event-history ring buffer
    (src/store/store.go, src/store/memory.go)

    The data the store exchanges ([Fact], [Event], [Compare], [Op]) and the
    bounded ring buffer of recent events that serves watches with a start
    revision. The buffer is shown to hold exactly the most recent entries of
    everything that was ever appended to it. *)

From S2P Require Import Prelude GoStrings.

(** ** Facts and events *)

Record Fact := mkFact {
  Key : string;
  Value : string;
  Revision : Z;
  CreateRevision : Z;
  LeaseID : Z
}.

Inductive EventType := EventPut | EventDelete | EventOverflow | EventCompacted.

Record Event := mkEvent {
  Type_ : EventType;
  EvFact : Fact;
  Prev : option Fact
}.

Record Compare := mkCompare { CmpKey : string; CmpRevision : Z }.

Inductive OpType := OpPut | OpDelete.

Record Op := mkOp { OpTyp : OpType; OpKey : string; OpValue : string }.

Record WatchOption := mkWatchOption { Prefix : bool; StartRevision : Z }.

#[export] Instance Fact_eq_dec : EqDecision Fact.
Proof. solve_decision. Defined.
#[export] Instance EventType_eq_dec : EqDecision EventType.
Proof. solve_decision. Defined.
#[export] Instance Event_eq_dec : EqDecision Event.
Proof. solve_decision. Defined.
#[export] Instance OpType_eq_dec : EqDecision OpType.
Proof. solve_decision. Defined.

(** The zero value of Go's [Fact]. *)
Definition zeroFact : Fact := mkFact "" "" 0 0 0.

Definition markerEvent (t : EventType) : Event := mkEvent t zeroFact None.

(** ** The ring buffer *)

Record eventHistoryEntry := mkEntry { revision : Z; event : Event }.

Record eventHistoryBuffer := mkHistory {
  entries : list eventHistoryEntry;
  writeIndex : nat;
  entryCount : nat
}.

Definition defaultEventHistoryCapacity : nat := Z.to_nat 4096.

Module historyBuffer.

Definition zeroEntry : eventHistoryEntry := mkEntry 0 (mkEvent EventPut zeroFact None).

Definition newEventHistoryBuffer (capacity : nat) : eventHistoryBuffer :=
  mkHistory (replicate capacity zeroEntry) 0 0.

Definition append (rev : Z) (ev : Event) (b : eventHistoryBuffer) : eventHistoryBuffer :=
  mkHistory (<[writeIndex b := mkEntry rev ev]> (entries b))
            ((writeIndex b + 1) mod length (entries b))
            (if entryCount b <? length (entries b) then entryCount b + 1 else entryCount b).

Definition oldestIndex (b : eventHistoryBuffer) : nat :=
  if entryCount b =? length (entries b) then writeIndex b else 0.

(** The entries in the order the loop of [eventsFromRevision] visits them. *)
Definition visited (b : eventHistoryBuffer) : list eventHistoryEntry :=
  omap (λ i, entries b !! ((oldestIndex b + i) mod length (entries b))) (seq 0 (entryCount b)).

(** [None] stands for the result [nil, false]. *)
Definition eventsFromRevision (startRevision : Z) (b : eventHistoryBuffer) : option (list Event) :=
  if entryCount b =? 0 then Some []
  else
    match entries b !! oldestIndex b with
    | None => None
    | Some oldest =>
        if (startRevision <? revision oldest)%Z then None
        else Some (event <$> filter (λ e, (startRevision ≤ revision e)%Z) (visited b))
    end.

End historyBuffer.
Import historyBuffer.

(** ** What the buffer remembers *)

(** [history_of b log]: the buffer was filled by appending [log], oldest first;
    each of the last [length (entries b)] entries sits at its index modulo the
    capacity. *)
Record history_of (b : eventHistoryBuffer) (log : list eventHistoryEntry) : Prop := {
  hist_cap : 0 < length (entries b);
  hist_count : entryCount b = Nat.min (length log) (length (entries b));
  hist_write : writeIndex b = length log mod length (entries b);
  hist_slot j : length log - entryCount b ≤ j < length log →
                entries b !! (j mod length (entries b)) = log !! j
}.

(** The entries still in the buffer. *)
Definition kept (b : eventHistoryBuffer) (log : list eventHistoryEntry) : list eventHistoryEntry :=
  drop (length log - length (entries b)) log.

Lemma newEventHistoryBuffer_history capacity :
  0 < capacity → history_of (newEventHistoryBuffer capacity) [].
Proof.
  intros Hc. unfold newEventHistoryBuffer. split; simpl; rewrite ?length_replicate; try lia.
  by rewrite Nat.Div0.mod_0_l.
Qed.

Lemma mod_window (a b n : nat) : a < b < a + n → a mod n ≠ b mod n.
Proof.
  intros H E. assert (n ≠ 0) by lia.
  pose proof (Nat.div_mod_eq a n). pose proof (Nat.div_mod_eq b n).
  assert (a / n = b / n ∨ a / n < b / n ∨ b / n < a / n) as [?|[?|?]] by lia; nia.
Qed.

Lemma append_history rev ev b log :
  history_of b log → history_of (append rev ev b) (log ++ [mkEntry rev ev]).
Proof.
  intros [Hcap Hcount Hwrite Hslot]. unfold append.
  assert (Hw : writeIndex b < length (entries b)) by (rewrite Hwrite; apply Nat.mod_upper_bound; lia).
  split; simpl; rewrite ?length_insert, ?length_app; simpl.
  - done.
  - destruct (Nat.ltb_spec (entryCount b) (length (entries b))); lia.
  - rewrite Hwrite. by rewrite Nat.Div0.add_mod_idemp_l.
  - intros j Hj. destruct (decide (j = length log)) as [->|Hne].
    + rewrite lookup_app_r, Nat.sub_diag by lia. rewrite <-Hwrite. by apply list_lookup_insert_eq.
    + rewrite lookup_app_l by lia. rewrite list_lookup_insert_ne.
      * apply Hslot. destruct (Nat.ltb_spec (entryCount b) (length (entries b))); lia.
      * rewrite Hwrite. apply not_eq_sym, mod_window.
        destruct (Nat.ltb_spec (entryCount b) (length (entries b))); lia.
Qed.

Lemma oldestIndex_history b log i :
  history_of b log → i < entryCount b →
  (oldestIndex b + i) mod length (entries b) =
    (length log - length (entries b) + i) mod length (entries b).
Proof.
  intros [Hcap Hcount Hwrite _] Hi. unfold oldestIndex.
  destruct (Nat.eqb_spec (entryCount b) (length (entries b))) as [E|E].
  - rewrite Hwrite, Nat.Div0.add_mod_idemp_l.
    replace (length log + i) with (length log - length (entries b) + i + 1 * length (entries b)) by lia.
    apply Nat.Div0.mod_add.
  - f_equal. lia.
Qed.

Lemma visited_history b log : history_of b log → visited b = kept b log.
Proof.
  intros Hb. unfold visited, kept.
  assert (H : ∀ n, n ≤ entryCount b →
    omap (λ i, entries b !! ((oldestIndex b + i) mod length (entries b))) (seq 0 n) =
    take n (drop (length log - length (entries b)) log)).
  { pose proof (hist_count _ _ Hb).
    induction n as [|n IH]; intros Hn; [done|].
    rewrite seq_S, omap_app, IH by lia. simpl.
    rewrite (oldestIndex_history b log) by (done || lia).
    rewrite (hist_slot _ _ Hb) by lia.
    destruct (log !! (length log - length (entries b) + n)) as [e|] eqn:E.
    - erewrite take_S_r by (by rewrite lookup_drop). done.
    - apply lookup_ge_None in E. lia. }
  rewrite H by done. apply take_ge. rewrite length_drop, (hist_count _ _ Hb). lia.
Qed.

Lemma oldest_history b log :
  history_of b log → log ≠ [] → entries b !! oldestIndex b = head (kept b log).
Proof.
  intros Hb Hne. pose proof (hist_count _ _ Hb). pose proof (hist_cap _ _ Hb).
  assert (0 < length log) by (destruct log; [done|simpl; lia]).
  assert (oldestIndex b < length (entries b)) as Ho.
  { unfold oldestIndex. case_match; [|done]. rewrite (hist_write _ _ Hb). apply Nat.mod_upper_bound. lia. }
  pose proof (oldestIndex_history b log 0 Hb ltac:(lia)) as E.
  rewrite !Nat.add_0_r, (Nat.mod_small (oldestIndex b)) in E by done.
  rewrite E, (hist_slot _ _ Hb) by lia. unfold kept.
  by rewrite head_lookup, lookup_drop, Nat.add_0_r.
Qed.

(** [eventsFromRevision] over the log: nothing was ever appended, the oldest
    kept entry is already past the requested revision, or the kept entries from
    that revision on. *)
Lemma eventsFromRevision_history b log start :
  history_of b log →
  eventsFromRevision start b =
    match kept b log with
    | [] => Some []
    | oldest :: _ =>
        if (start <? revision oldest)%Z then None
        else Some (event <$> filter (λ e, (start ≤ revision e)%Z) (kept b log))
    end.
Proof.
  intros Hb. unfold eventsFromRevision. rewrite (visited_history b log Hb).
  pose proof (hist_count _ _ Hb) as Hc. pose proof (hist_cap _ _ Hb).
  destruct (decide (log = [])) as [->|Hne].
  - simpl in Hc. rewrite Hc. unfold kept. by rewrite drop_nil.
  - assert (0 < length log) by (destruct log; [done|simpl; lia]).
    destruct (Nat.eqb_spec (entryCount b) 0) as [E|_]; [lia|].
    rewrite (oldest_history b log Hb Hne). destruct (kept b log) eqn:Ek; [|done].
    assert (length (kept b log) = 0) as Hk by (by rewrite Ek). unfold kept in Hk.
    rewrite length_drop in Hk. lia.
Qed.
