(* ===== verification/MemoryStore.v ===== *)
(** * The in-memory fact store (src/store/memory.go)

    [MemoryStore] is the Go struct without its mutexes. Each public operation is
    a function from the store to a result and a new store; [None] is a Go panic
    (a send on, or a close of, a closed channel, or a nil dereference). Watch
    channels are modelled by identity: a watcher holds a channel's number, and
    [channels] holds every channel ever made with its buffered events, so that
    the consumer's [receive] and the store's sends act on the same object.

    A write is split as the code splits it: a section under [dataMutex] that
    returns the events ([Put_locked], [Delete_locked], [Transaction_locked]),
    then one [broadcastEvent] per event under [eventMutex]. *)

From S2P Require Import Prelude GoStrings Trie EventHistory.

(** ** State *)

Record channel := mkChannel { buffered : list Event; capacity : nat; closed : bool }.

Record factWatcher := mkWatcher {
  keyPattern : string;
  matchByPrefix : bool;
  eventChannel : nat;
  overflowDetected : bool
}.

Record MemoryStore := mkStore {
  facts : gmap string Fact;
  keyIndex : trieNode;
  currentRevision : Z;
  activeWatchers : list factWatcher;
  eventHistory : eventHistoryBuffer;
  watchChannelBufferSize : nat;
  isClosed : bool;
  channels : gmap nat channel;
  nextChannel : nat
}.

Inductive StoreError :=
| ErrKeyNotFound
| ErrStoreClosed
| ErrTransactionTooLarge (operations : nat).

Inductive result (A : Type) := Ok (a : A) | Err (e : StoreError).
Arguments Ok {A} a.
Arguments Err {A} e.

Definition memoryStoreTransactionOperationLimit : nat := 128.
Definition defaultWatchChannelBufferSize : nat := 256.

Definition set_data (fs : gmap string Fact) (ix : trieNode) (r : Z) (s : MemoryStore) : MemoryStore :=
  mkStore fs ix r (activeWatchers s) (eventHistory s) (watchChannelBufferSize s)
          (isClosed s) (channels s) (nextChannel s).

Definition set_events (ws : list factWatcher) (h : eventHistoryBuffer)
    (chs : gmap nat channel) (n : nat) (s : MemoryStore) : MemoryStore :=
  mkStore (facts s) (keyIndex s) (currentRevision s) ws h (watchChannelBufferSize s)
          (isClosed s) chs n.

Module MemStore.

Definition NewMemoryStore : MemoryStore :=
  mkStore ∅ prefixTrie.newPrefixTrie 0 []
          (historyBuffer.newEventHistoryBuffer defaultEventHistoryCapacity)
          defaultWatchChannelBufferSize false ∅ 0.

Definition SetWatchChannelBufferSize (bufferSize : nat) (s : MemoryStore) : MemoryStore :=
  mkStore (facts s) (keyIndex s) (currentRevision s) (activeWatchers s) (eventHistory s)
          bufferSize (isClosed s) (channels s) (nextChannel s).

(** ** Reads *)

Definition Get (key : string) (s : MemoryStore) : result Fact :=
  if isClosed s then Err ErrStoreClosed
  else match facts s !! key with
       | None => Err ErrKeyNotFound
       | Some existingFact => Ok existingFact
       end.

(** The pointers [collectFactPointers] gathers are dereferenced by
    [copyFactPointers]; a key of the index that has no fact would be a nil
    dereference. *)
Definition collectFactPointers (prefix : string) (s : MemoryStore) : option (list Fact) :=
  mapM (λ factKey, facts s !! factKey) (prefixTrie.KeysWithPrefix prefix (keyIndex s)).

Definition Scan (prefix : string) (s : MemoryStore) : option (result (list Fact)) :=
  if isClosed s then Some (Err ErrStoreClosed)
  else Ok <$> collectFactPointers prefix s.

Definition ScanWithRevision (prefix : string) (s : MemoryStore) : option (result (list Fact * Z)) :=
  if isClosed s then Some (Err ErrStoreClosed)
  else (λ fs, Ok (fs, currentRevision s)) <$> collectFactPointers prefix s.

Definition RevisionOf (s : MemoryStore) : result Z :=
  if isClosed s then Err ErrStoreClosed else Ok (currentRevision s).

(** ** Event delivery *)

(** [select { case ch <- event: ... default: ... }]: whether the event was
    buffered. Sending on a closed channel panics. *)
Definition trySend (ev : Event) (ch : channel) : option (channel * bool) :=
  if closed ch then None
  else if length (buffered ch) <? capacity ch
       then Some (mkChannel (buffered ch ++ [ev]) (capacity ch) false, true)
       else Some (ch, false).

Definition matchesWatchPattern (ev : Event) (pattern : string) (byPrefix : bool) : bool :=
  if byPrefix then HasPrefix (Key (EvFact ev)) pattern
  else bool_decide (Key (EvFact ev) = pattern).

(** The overflow marker, if one is owed: the channel and whether it is still
    owed. *)
Definition sendOverflowMarker (w : factWatcher) (ch : channel) : option (channel * bool) :=
  if overflowDetected w
  then match trySend (markerEvent EventOverflow) ch with
       | Some (ch1, sent) => Some (ch1, negb sent)
       | None => None
       end
  else Some (ch, false).

(** One iteration of the loop of [broadcastEvent]: first the overflow marker if
    one is owed, then the event; a send that fails leaves the marker owed. *)
Definition deliver (ev : Event) (w : factWatcher) (chs : gmap nat channel)
    : option (factWatcher * gmap nat channel) :=
  if negb (matchesWatchPattern ev (keyPattern w) (matchByPrefix w)) then Some (w, chs)
  else
    ch ← chs !! eventChannel w;
    chOwed ← sendOverflowMarker w ch;
    chSent ← trySend ev (fst chOwed);
    Some (mkWatcher (keyPattern w) (matchByPrefix w) (eventChannel w)
                    (if (snd chSent : bool) then snd chOwed else true),
          <[eventChannel w := fst chSent]> chs).

Fixpoint deliverAll (ev : Event) (ws : list factWatcher) (chs : gmap nat channel)
    : option (list factWatcher * gmap nat channel) :=
  match ws with
  | [] => Some ([], chs)
  | w :: ws' =>
      head ← deliver ev w chs;
      rest ← deliverAll ev ws' (snd head);
      Some (fst head :: fst rest, snd rest)
  end.

Definition broadcastEvent (ev : Event) (s : MemoryStore) : option MemoryStore :=
  delivered ← deliverAll ev (activeWatchers s) (channels s);
  Some (set_events (fst delivered) (historyBuffer.append (Revision (EvFact ev)) ev (eventHistory s))
                   (snd delivered) (nextChannel s) s).

Fixpoint broadcastAll (evs : list Event) (s : MemoryStore) : option MemoryStore :=
  match evs with
  | [] => Some s
  | ev :: evs' => broadcastEvent ev s ≫= broadcastAll evs'
  end.

(** ** Writes *)

(** The new fact of a put: the creation revision is kept from the previous
    fact. [applyPut] and [executePutOperation] share these lines. *)
Definition putFact (key value : string) (rev : Z) (previousFact : option Fact) : Fact :=
  mkFact key value rev (match previousFact with Some p => CreateRevision p | None => rev end) 0.

Definition applyPut (key value : string) (rev : Z) (s : MemoryStore) : MemoryStore * Event :=
  let previousFact := facts s !! key in
  let newFact := putFact key value rev previousFact in
  (set_data (<[key := newFact]> (facts s)) (prefixTrie.Insert key (keyIndex s)) (currentRevision s) s,
   mkEvent EventPut newFact previousFact).

(** [atomic.Int64.Add(1)] *)
Definition bumpRevision (s : MemoryStore) : MemoryStore :=
  set_data (facts s) (keyIndex s) (currentRevision s + 1) s.

Definition Put_locked (key value : string) (s : MemoryStore) : Z * MemoryStore * list Event :=
  let write :=
    let newRevision := (currentRevision s + 1)%Z in
    let '(s', ev) := applyPut key value newRevision (bumpRevision s) in
    (newRevision, s', [ev]) in
  match facts s !! key with
  | Some existingFact =>
      if decide (Value existingFact = value) then (Revision existingFact, s, []) else write
  | None => write
  end.

Definition Put (key value : string) (s : MemoryStore) : option (result Z * MemoryStore) :=
  if isClosed s then Some (Err ErrStoreClosed, s)
  else
    let '(rev, s', evs) := Put_locked key value s in
    s'' ← broadcastAll evs s';
    Some (Ok rev, s'').

Definition deleteFact (key : string) (rev : Z) (existingFact : Fact) (s : MemoryStore)
    : MemoryStore * Event :=
  (set_data (delete key (facts s)) (fst (prefixTrie.Remove key (keyIndex s))) (currentRevision s) s,
   mkEvent EventDelete (mkFact key "" rev 0 0) (Some existingFact)).

Definition Delete_locked (key : string) (s : MemoryStore) : result unit * MemoryStore * list Event :=
  match facts s !! key with
  | None => (Err ErrKeyNotFound, s, [])
  | Some existingFact =>
      let newRevision := (currentRevision s + 1)%Z in
      let '(s', ev) := deleteFact key newRevision existingFact (bumpRevision s) in
      (Ok tt, s', [ev])
  end.

Definition Delete (key : string) (s : MemoryStore) : option (result unit * MemoryStore) :=
  if isClosed s then Some (Err ErrStoreClosed, s)
  else
    let '(r, s', evs) := Delete_locked key s in
    s'' ← broadcastAll evs s';
    Some (r, s'').

(** ** Transactions *)

Definition preconditionHolds (s : MemoryStore) (comparison : Compare) : bool :=
  if (CmpRevision comparison =? 0)%Z
  then bool_decide (facts s !! CmpKey comparison = None)
  else match facts s !! CmpKey comparison with
       | None => false
       | Some existingFact => (Revision existingFact =? CmpRevision comparison)%Z
       end.

Definition evaluateTransactionPreconditions (compares : list Compare) (s : MemoryStore) : bool :=
  forallb (preconditionHolds s) compares.

Definition operationWouldMutate (s : MemoryStore) (operation : Op) : bool :=
  match OpTyp operation with
  | OpPut => match facts s !! OpKey operation with
             | None => true
             | Some existingFact => negb (bool_decide (Value existingFact = OpValue operation))
             end
  | OpDelete => bool_decide (is_Some (facts s !! OpKey operation))
  end.

Definition transactionWouldMutateState (operations : list Op) (s : MemoryStore) : bool :=
  existsb (operationWouldMutate s) operations.

Definition executePutOperation (operation : Op) (rev : Z) (s : MemoryStore)
    : MemoryStore * option Event :=
  let write :=
    let previousFact := facts s !! OpKey operation in
    let newFact := putFact (OpKey operation) (OpValue operation) rev previousFact in
    (set_data (<[OpKey operation := newFact]> (facts s))
              (prefixTrie.Insert (OpKey operation) (keyIndex s)) (currentRevision s) s,
     Some (mkEvent EventPut newFact previousFact)) in
  match facts s !! OpKey operation with
  | Some existingFact =>
      if decide (Value existingFact = OpValue operation) then (s, None) else write
  | None => write
  end.

Definition executeDeleteOperation (operation : Op) (rev : Z) (s : MemoryStore)
    : MemoryStore * option Event :=
  match facts s !! OpKey operation with
  | None => (s, None)
  | Some existingFact =>
      let '(s', ev) := deleteFact (OpKey operation) rev existingFact s in (s', Some ev)
  end.

Definition executeOperation (rev : Z) (operation : Op) (s : MemoryStore)
    : MemoryStore * option Event :=
  match OpTyp operation with
  | OpPut => executePutOperation operation rev s
  | OpDelete => executeDeleteOperation operation rev s
  end.

Fixpoint executeTransactionOperations (operations : list Op) (rev : Z) (s : MemoryStore)
    : MemoryStore * list Event :=
  match operations with
  | [] => (s, [])
  | operation :: operations' =>
      let '(s1, ev) := executeOperation rev operation s in
      let '(s2, evs) := executeTransactionOperations operations' rev s1 in
      (s2, option_list ev ++ evs)
  end.

Definition Transaction_locked (compares : list Compare) (onSuccess onFailure : list Op)
    (s : MemoryStore) : bool * MemoryStore * list Event :=
  let allPreconditionsMet := evaluateTransactionPreconditions compares s in
  let operationsToExecute := if allPreconditionsMet then onSuccess else onFailure in
  let hasMutation := transactionWouldMutateState operationsToExecute s in
  let s1 := if hasMutation then bumpRevision s else s in
  let transactionRevision := if hasMutation then currentRevision s1 else 0%Z in
  let '(s2, pendingEvents) :=
    executeTransactionOperations operationsToExecute transactionRevision s1 in
  (allPreconditionsMet, s2, pendingEvents).

Definition Transaction (compares : list Compare) (onSuccess onFailure : list Op)
    (s : MemoryStore) : option (result bool * MemoryStore) :=
  if isClosed s then Some (Err ErrStoreClosed, s)
  else
    let total := length compares + length onSuccess + length onFailure in
    if memoryStoreTransactionOperationLimit <? total
    then Some (Err (ErrTransactionTooLarge total), s)
    else
      let '(met, s', evs) := Transaction_locked compares onSuccess onFailure s in
      s'' ← broadcastAll evs s';
      Some (Ok met, s'').

(** ** Watches *)

(** Replay of the historical events into the new channel: an event that does not
    fit is dropped by the [default] branch. *)
Definition replayHistory (evs : list Event) (key : string) (byPrefix : bool) (ch : channel)
    : option channel :=
  foldl (λ acc ev, c ← acc;
                   if matchesWatchPattern ev key byPrefix then fst <$> trySend ev c else Some c)
        (Some ch) evs.

(** The channel's number is the result. On compaction the goroutine sends one
    [EventCompacted] and closes the channel; what the consumer can receive from
    it is that event and then the closed state. *)
Definition Watch (key : string) (opts : WatchOption) (s : MemoryStore)
    : option (result nat * MemoryStore) :=
  if isClosed s then Some (Err ErrStoreClosed, s)
  else
    let id := nextChannel s in
    let fresh := mkChannel [] (watchChannelBufferSize s) false in
    let register ch :=
      Some (Ok id, set_events (activeWatchers s ++ [mkWatcher key (Prefix opts) id false])
                              (eventHistory s) (<[id := ch]> (channels s)) (S id) s) in
    if (0 <? StartRevision opts)%Z then
      match historyBuffer.eventsFromRevision (StartRevision opts) (eventHistory s) with
      | None =>
          let ch := mkChannel [markerEvent EventCompacted] (watchChannelBufferSize s) true in
          Some (Ok id, set_events (activeWatchers s) (eventHistory s)
                                  (<[id := ch]> (channels s)) (S id) s)
      | Some historicalEvents =>
          replayHistory historicalEvents key (Prefix opts) fresh ≫= register
      end
    else register fresh.

(** [close(ch)]: closing a closed channel panics; buffered events stay. *)
Definition closeChannel (id : nat) (chs : gmap nat channel) : option (gmap nat channel) :=
  ch ← chs !! id;
  if closed ch then None else Some (<[id := mkChannel (buffered ch) (capacity ch) true]> chs).

(** Run by the goroutine that waits for the watch's context. *)
Definition removeWatcher (id : nat) (s : MemoryStore) : option MemoryStore :=
  match list_find (λ w, eventChannel w = id) (activeWatchers s) with
  | None => Some s
  | Some (index, _) =>
      chs ← closeChannel id (channels s);
      Some (set_events (take index (activeWatchers s) ++ drop (S index) (activeWatchers s))
                       (eventHistory s) chs (nextChannel s) s)
  end.

(** The consumer's [<-ch]: the next buffered event, if any. *)
Definition receive (id : nat) (s : MemoryStore) : option Event * MemoryStore :=
  match channels s !! id with
  | Some (mkChannel (ev :: evs) cap c) =>
      (Some ev, set_events (activeWatchers s) (eventHistory s)
                           (<[id := mkChannel evs cap c]> (channels s)) (nextChannel s) s)
  | _ => (None, s)
  end.

(** ** Leases and shutdown *)

Definition GrantLease (s : MemoryStore) : Z * MemoryStore :=
  ((currentRevision s + 1)%Z, bumpRevision s).

Definition PutWithLease (key value : string) (leaseID : Z) (s : MemoryStore)
    : option (result Z * MemoryStore) := Put key value s.

Definition RenewLease (leaseID : Z) (s : MemoryStore) : Z := 900.
Definition RevokeLease (leaseID : Z) (s : MemoryStore) : MemoryStore := s.

Fixpoint closeWatchers (ws : list factWatcher) (chs : gmap nat channel)
    : option (gmap nat channel) :=
  match ws with
  | [] => Some chs
  | w :: ws' => closeChannel (eventChannel w) chs ≫= closeWatchers ws'
  end.

Definition Close (s : MemoryStore) : option MemoryStore :=
  if isClosed s then Some s
  else
    chs ← closeWatchers (activeWatchers s) (channels s);
    Some (mkStore (facts s) (keyIndex s) (currentRevision s) [] (eventHistory s)
                  (watchChannelBufferSize s) true chs (nextChannel s)).

End MemStore.
