(* ===== verification/StoreInvariant.v ===== *)
(** * Invariants of the in-memory store

    [store_inv] relates the parts of a [MemoryStore]: the trie indexes exactly
    the stored keys, every fact sits under its own key with sane revisions, every
    registered watcher has an open channel of its own, and the history buffer
    holds a revision-ordered suffix of everything broadcast. Every public
    operation runs without a panic on a store that satisfies it, and preserves
    it; [advances] records what any later store still knows about an earlier
    one. *)

From S2P Require Import Prelude GoStrings Trie EventHistory MemoryStore.
Import MemStore.

(** ** The invariant *)

(** The stored keys that the index can hold. *)
Definition indexedKeys (s : MemoryStore) : gset string := dom (facts s) ∖ {[""]}.

Record data_inv (s : MemoryStore) : Prop := {
  data_index : trie_repr (keyIndex s) (indexedKeys s);
  data_key k f : facts s !! k = Some f → Key f = k;
  data_created k f : facts s !! k = Some f → (0 < CreateRevision f ≤ Revision f)%Z;
  data_revision k f : facts s !! k = Some f → (Revision f ≤ currentRevision s)%Z;
  data_nonneg : (0 ≤ currentRevision s)%Z
}.

Record chan_inv (ws : list factWatcher) (chs : gmap nat channel) (next : nat) : Prop := {
  chan_distinct : NoDup (eventChannel <$> ws);
  chan_open w : w ∈ ws → ∃ ch, chs !! eventChannel w = Some ch ∧ closed ch = false;
  chan_bounded id ch : chs !! id = Some ch → closed ch = false → length (buffered ch) ≤ capacity ch;
  chan_fresh id : is_Some (chs !! id) → id < next
}.

Definition history_inv (s : MemoryStore) : Prop :=
  ∃ log, history_of (eventHistory s) log ∧
         StronglySorted (λ e1 e2, (revision e1 ≤ revision e2)%Z) log ∧
         Forall (λ e, (revision e ≤ currentRevision s)%Z) log.

Record store_inv (s : MemoryStore) : Prop := {
  inv_data : data_inv s;
  inv_chan : chan_inv (activeWatchers s) (channels s) (nextChannel s);
  inv_history : history_inv s
}.

(** Later stores only know facts of the earlier one or facts written after it. *)
Record advances (s s' : MemoryStore) : Prop := {
  adv_revision : (currentRevision s ≤ currentRevision s')%Z;
  adv_facts k f : facts s' !! k = Some f → facts s !! k = Some f ∨ (currentRevision s < Revision f)%Z
}.

#[export] Instance advances_refl : Reflexive advances.
Proof. split; [lia|auto]. Qed.

#[export] Instance advances_trans : Transitive advances.
Proof.
  intros s1 s2 s3 [H1 H2] [H3 H4]. split; [lia|]. intros k f Hf.
  destruct (H4 k f Hf) as [Hf2|?]; [|right; lia]. destruct (H2 k f Hf2); auto.
Qed.

(** The parts of a store a broadcast leaves alone. *)
Definition same_data (s s' : MemoryStore) : Prop :=
  facts s' = facts s ∧ keyIndex s' = keyIndex s ∧ currentRevision s' = currentRevision s ∧
  isClosed s' = isClosed s.

Lemma data_inv_same s s' : same_data s s' → data_inv s → data_inv s'.
Proof.
  intros (Ef & Ei & Er & _) [H1 H2 H3 H4 H5].
  split; unfold indexedKeys; rewrite ?Ef, ?Ei, ?Er; try done; setoid_rewrite Ef; done.
Qed.

Lemma advances_same s s' : same_data s s' → advances s s'.
Proof. intros (Ef & Ei & Er & _). split; [lia|]. rewrite Ef. auto. Qed.

(** ** Writes *)

Lemma indexedKeys_insert s k f :
  indexedKeys (set_data (<[k := f]> (facts s)) (prefixTrie.Insert k (keyIndex s)) (currentRevision s) s)
  = if decide (k = "") then indexedKeys s else {[k]} ∪ indexedKeys s.
Proof. unfold indexedKeys. simpl. rewrite dom_insert_L. case_decide; set_solver. Qed.

Lemma indexedKeys_delete s k r :
  indexedKeys (set_data (delete k (facts s)) r (currentRevision s) s) = indexedKeys s ∖ {[k]}.
Proof. unfold indexedKeys. simpl. rewrite dom_delete_L. set_solver. Qed.

(** A put at a revision that is current and above every earlier one. *)
Lemma data_inv_put s k v rev :
  data_inv s → (0 < rev ≤ currentRevision s)%Z →
  (∀ f, facts s !! k = Some f → (Revision f ≤ rev)%Z) →
  data_inv (set_data (<[k := putFact k v rev (facts s !! k)]> (facts s))
                     (prefixTrie.Insert k (keyIndex s)) (currentRevision s) s).
Proof.
  intros [H1 H2 H3 H4 H5] Hrev Hold. split; simpl.
  - rewrite indexedKeys_insert. apply Insert_repr. done.
  - intros k' f. rewrite lookup_insert. case_decide; [naive_solver|apply H2].
  - intros k' f. rewrite lookup_insert. case_decide; [|apply H3]. intros [= <-]. simpl.
    destruct (facts s !! k) as [f0|] eqn:E; [|lia].
    specialize (H3 k f0 E). specialize (Hold f0 eq_refl). lia.
  - intros k' f. rewrite lookup_insert. case_decide; [|apply H4]. intros [= <-]. simpl. lia.
  - done.
Qed.

Lemma data_inv_delete s k :
  data_inv s →
  data_inv (set_data (delete k (facts s)) (fst (prefixTrie.Remove k (keyIndex s))) (currentRevision s) s).
Proof.
  intros [H1 H2 H3 H4 H5]. split; simpl.
  - rewrite indexedKeys_delete. by apply Remove_repr.
  - intros k' f [_ ?]%lookup_delete_Some. eauto.
  - intros k' f [_ ?]%lookup_delete_Some. eauto.
  - intros k' f [_ ?]%lookup_delete_Some. eauto.
  - done.
Qed.

Lemma data_inv_bump s : data_inv s → data_inv (bumpRevision s).
Proof.
  intros [H1 H2 H3 H4 H5]. split; simpl; try done; [|lia]. intros k f Hf. specialize (H4 k f Hf). lia.
Qed.

(** What every write section guarantees about the store it leaves and the events
    it returns, at revision [rev]. *)
Record write_ok (s s' : MemoryStore) (evs : list Event) : Prop := {
  write_data : data_inv s';
  write_advances : advances s s';
  write_same_events : activeWatchers s' = activeWatchers s ∧ channels s' = channels s ∧
    nextChannel s' = nextChannel s ∧ eventHistory s' = eventHistory s ∧ isClosed s' = isClosed s;
  write_events : Forall (λ ev, Revision (EvFact ev) = currentRevision s') evs
}.

(** The two outcomes of a put: the value is already there, or it is written at
    the next revision. *)
Lemma Put_locked_cases k v s :
  (∃ f, facts s !! k = Some f ∧ Value f = v ∧ Put_locked k v s = (Revision f, s, [])) ∨
  ((∀ f, facts s !! k = Some f → Value f ≠ v) ∧
   let newFact := putFact k v (currentRevision s + 1) (facts s !! k) in
   Put_locked k v s =
     ((currentRevision s + 1)%Z,
      set_data (<[k := newFact]> (facts s)) (prefixTrie.Insert k (keyIndex s)) (currentRevision s + 1) s,
      [mkEvent EventPut newFact (facts s !! k)])).
Proof.
  unfold Put_locked, applyPut, bumpRevision. simpl.
  destruct (facts s !! k) as [f|] eqn:E; [case_decide|]; [left; eauto|right|right]; naive_solver.
Qed.

Lemma Put_locked_ok k v s rev s' evs :
  data_inv s → Put_locked k v s = (rev, s', evs) → write_ok s s' evs.
Proof.
  intros Hs. destruct (Put_locked_cases k v s) as [(f & _ & _ & ->)|[_ ->]]; intros [= <- <- <-].
  { split; [done|done|done|constructor]. }
  split; [|split|done|by repeat constructor].
  - apply (data_inv_put (bumpRevision s) k v (currentRevision s + 1)).
    + by apply data_inv_bump.
    + simpl. pose proof (data_nonneg _ Hs). lia.
    + simpl. intros f Hf. pose proof (data_revision _ Hs k f Hf). lia.
  - simpl. lia.
  - intros k' f. simpl. rewrite lookup_insert. case_decide; [|auto]. intros [= <-]. simpl. lia.
Qed.

Lemma Delete_locked_ok k s r s' evs :
  data_inv s → Delete_locked k s = (r, s', evs) → write_ok s s' evs.
Proof.
  intros Hs. unfold Delete_locked, deleteFact. destruct (facts s !! k) as [f|] eqn:E.
  - intros [= <- <- <-]. split; [|split|done|by repeat constructor].
    + by apply (data_inv_delete (bumpRevision s) k), data_inv_bump.
    + simpl. lia.
    + simpl. intros k' f' [_ ?]%lookup_delete_Some. auto.
  - intros [= <- <- <-]. split; [done|done|done|constructor].
Qed.

(** ** Transactions *)

Lemma executeOperation_noop s rev op :
  operationWouldMutate s op = false → executeOperation rev op s = (s, None).
Proof.
  unfold operationWouldMutate, executeOperation, executePutOperation, executeDeleteOperation.
  destruct (OpTyp op), (facts s !! OpKey op) as [f|]; try done.
  intros ?. boolprop. by rewrite decide_True.
Qed.

Lemma executeOperation_mutates s rev op :
  operationWouldMutate s op = true → is_Some (snd (executeOperation rev op s)).
Proof.
  unfold operationWouldMutate, executeOperation, executePutOperation, executeDeleteOperation, deleteFact.
  destruct (OpTyp op), (facts s !! OpKey op) as [f|]; intros ?; boolprop; simpl; eauto.
  - rewrite decide_False by done. simpl. eauto.
  - by destruct H.
Qed.

(** When no operation would change the store, the whole branch is a no-op. *)
Lemma executeTransactionOperations_noop ops rev s :
  transactionWouldMutateState ops s = false → executeTransactionOperations ops rev s = (s, []).
Proof.
  unfold transactionWouldMutateState. induction ops as [|op ops IH]; simpl; [done|].
  intros [H1 H2]%orb_false_iff. by rewrite (executeOperation_noop s rev op H1), IH.
Qed.

(** When one would, at least one event is produced. *)
Lemma executeTransactionOperations_mutates ops rev s :
  transactionWouldMutateState ops s = true → snd (executeTransactionOperations ops rev s) ≠ [].
Proof.
  unfold transactionWouldMutateState. induction ops as [|op ops IH]; simpl; [done|].
  destruct (operationWouldMutate s op) eqn:E; simpl.
  - intros _. destruct (executeOperation_mutates s rev op E) as [ev Hev].
    destruct (executeOperation rev op s) as [s1 oev]. simpl in Hev. subst.
    by destruct (executeTransactionOperations ops rev s1).
  - intros H. rewrite (executeOperation_noop s rev op E). specialize (IH H).
    by destruct (executeTransactionOperations ops rev s).
Qed.

(** The key-value content of a store, and what an operation means for it. *)
Definition values (s : MemoryStore) : gmap string string := Value <$> facts s.

Definition apply_op (m : gmap string string) (op : Op) : gmap string string :=
  match OpTyp op with
  | OpPut => <[OpKey op := OpValue op]> m
  | OpDelete => delete (OpKey op) m
  end.

Definition apply_ops (ops : list Op) (m : gmap string string) : gmap string string :=
  foldl apply_op m ops.

(** A store in the middle of a transaction at revision [rev]: its facts are
    those of the store [s0] before it, or carry [rev]. *)
Record within_txn (s0 : MemoryStore) (rev : Z) (s : MemoryStore) : Prop := {
  txn_data : data_inv s;
  txn_rev : (0 < rev)%Z ∧ currentRevision s = rev;
  txn_facts k f : facts s !! k = Some f → facts s0 !! k = Some f ∨ Revision f = rev;
  txn_rest : activeWatchers s = activeWatchers s0 ∧ channels s = channels s0 ∧
    nextChannel s = nextChannel s0 ∧ eventHistory s = eventHistory s0 ∧ isClosed s = isClosed s0
}.

Lemma executeOperation_txn s0 rev op s :
  within_txn s0 rev s →
  within_txn s0 rev (fst (executeOperation rev op s)) ∧
  values (fst (executeOperation rev op s)) = apply_op (values s) op ∧
  (∀ ev, snd (executeOperation rev op s) = Some ev → Revision (EvFact ev) = rev).
Proof.
  intros [Hd Hr Hf Hrest]. unfold executeOperation, apply_op, values. destruct (OpTyp op).
  - unfold executePutOperation.
    set (w := (set_data _ _ _ _, _)).
    assert (Hw : within_txn s0 rev (fst w) ∧ Value <$> facts (fst w) = <[OpKey op := OpValue op]> (Value <$> facts s)
                 ∧ (∀ ev, snd w = Some ev → Revision (EvFact ev) = rev)).
    { split_and!; [split|..].
      - apply data_inv_put; [done|lia|]. intros f Hf'. pose proof (data_revision _ Hd _ _ Hf'). lia.
      - done.
      - intros k f. simpl. rewrite lookup_insert. case_decide; [|apply Hf]. intros [= <-]. by right.
      - done.
      - simpl. by rewrite fmap_insert.
      - by intros ev [= <-]. }
    destruct (facts s !! OpKey op) as [f|] eqn:E; [|exact Hw].
    case_decide as Hv; [|exact Hw]. split_and!; [done| |done]. simpl.
    rewrite insert_id; [done|]. rewrite lookup_fmap, E. simpl. congruence.
  - unfold executeDeleteOperation, deleteFact. destruct (facts s !! OpKey op) as [f|] eqn:E; simpl.
    + split_and!; [split|..].
      * by apply data_inv_delete.
      * done.
      * simpl. intros k f' [_ ?]%lookup_delete_Some. auto.
      * done.
      * by rewrite fmap_delete.
      * by intros ev [= <-].
    + split_and!; [done| |done]. rewrite delete_id; [done|]. by rewrite lookup_fmap, E.
Qed.

Lemma executeTransactionOperations_txn s0 rev ops s s' evs :
  within_txn s0 rev s → executeTransactionOperations ops rev s = (s', evs) →
  within_txn s0 rev s' ∧ values s' = apply_ops ops (values s) ∧
  Forall (λ ev, Revision (EvFact ev) = rev) evs.
Proof.
  revert s s' evs. induction ops as [|op ops IH]; intros s s' evs Hs; simpl.
  { intros [= <- <-]. split_and!; [done|done|constructor]. }
  pose proof (executeOperation_txn s0 rev op s Hs) as (H1 & H2 & H3).
  destruct (executeOperation rev op s) as [s1 oev]. simpl in *.
  destruct (executeTransactionOperations ops rev s1) as [s2 evs2] eqn:E. intros [= <- <-].
  destruct (IH s1 s2 evs2 H1 E) as (H4 & H5 & H6). rewrite H5, H2. split_and!; [done|done|].
  apply Forall_app. split; [|done]. destruct oev; repeat constructor. auto.
Qed.

Lemma within_txn_start s : data_inv s → within_txn s (currentRevision s + 1) (bumpRevision s).
Proof.
  intros Hs. pose proof (data_nonneg _ Hs). split; [by apply data_inv_bump|simpl; lia|auto|done].
Qed.

(** Functional behaviour of the section of [Transaction] under the lock. *)
Lemma Transaction_locked_spec cmp a b s met s' evs :
  data_inv s → Transaction_locked cmp a b s = (met, s', evs) →
  let ops := if met then a else b in
  met = evaluateTransactionPreconditions cmp s ∧
  values s' = apply_ops ops (values s) ∧
  (s' = s ∧ evs = [] ∨
   within_txn s (currentRevision s + 1) s' ∧ evs ≠ [] ∧
   Forall (λ ev, Revision (EvFact ev) = (currentRevision s + 1)%Z) evs).
Proof.
  intros Hs. unfold Transaction_locked. set (m := evaluateTransactionPreconditions cmp s).
  destruct (transactionWouldMutateState (if m then a else b) s) eqn:Em.
  - destruct (executeTransactionOperations _ _ _) as [s2 evs2] eqn:E. intros [= <- <- <-].
    pose proof (executeTransactionOperations_txn s _ _ _ _ _ (within_txn_start s Hs) E) as (H1 & H2 & H3).
    split_and!; [done|done|]. right. split_and!; [done| |done].
    intros ->.
    assert (Hb : transactionWouldMutateState (if m then a else b) (bumpRevision s) = true) by done.
    pose proof (executeTransactionOperations_mutates _ (currentRevision s + 1) _ Hb) as Hne.
    simpl in E. by rewrite E in Hne.
  - rewrite executeTransactionOperations_noop by done. intros [= <- <- <-].
    split_and!; [done| |auto].
    assert (H : ∀ ops, transactionWouldMutateState ops s = false → values s = apply_ops ops (values s));
      [|by apply H].
    intros ops. unfold transactionWouldMutateState, apply_ops.
    induction ops as [|op ops IH]; [done|]. simpl. intros [H1 H2]%orb_false_iff.
    assert (apply_op (values s) op = values s) as ->; [|by apply IH].
    unfold apply_op, operationWouldMutate, values in *.
    destruct (OpTyp op), (facts s !! OpKey op) as [f|] eqn:E; boolprop; try done.
    + rewrite insert_id; [done|]. rewrite lookup_fmap, E. simpl. congruence.
    + exfalso. apply H1. eauto.
    + rewrite delete_id; [done|]. by rewrite lookup_fmap, E.
Qed.

Lemma Transaction_locked_ok cmp a b s met s' evs :
  data_inv s → Transaction_locked cmp a b s = (met, s', evs) → write_ok s s' evs.
Proof.
  intros Hs E. destruct (Transaction_locked_spec _ _ _ _ _ _ _ Hs E) as (_ & _ & [[-> ->]|(H & _ & Hev)]).
  - split; [done|done|done|constructor].
  - destruct H as [H1 [H2 H3] H4 H5]. split; [done| |done|by rewrite H3].
    split; [lia|]. intros k f Hf. destruct (H4 k f Hf); [auto|right; lia].
Qed.

(** ** Event delivery *)

Lemma trySend_open ev ch :
  closed ch = false →
  ∃ ch' sent, trySend ev ch = Some (ch', sent) ∧ closed ch' = false ∧ capacity ch' = capacity ch ∧
    buffered ch' = buffered ch ++ (if sent then [ev] else []) ∧
    (length (buffered ch) ≤ capacity ch → length (buffered ch') ≤ capacity ch') ∧
    sent = bool_decide (length (buffered ch) < capacity ch).
Proof.
  intros Hc. unfold trySend. rewrite Hc.
  destruct (Nat.ltb_spec (length (buffered ch)) (capacity ch)).
  - rewrite bool_decide_eq_true_2 by done. do 2 eexists. split_and!; [done|done..| |done].
    simpl. rewrite length_app. simpl. lia.
  - rewrite bool_decide_eq_false_2 by lia. exists ch, false. by rewrite app_nil_r.
Qed.

(** A delivery to an open channel succeeds and touches only that channel: it
    appends events to it within its capacity. *)
Lemma deliver_open ev w chs ch :
  chs !! eventChannel w = Some ch → closed ch = false → length (buffered ch) ≤ capacity ch →
  ∃ w' ch', deliver ev w chs = Some (w', <[eventChannel w := ch']> chs) ∧
    eventChannel w' = eventChannel w ∧ keyPattern w' = keyPattern w ∧
    matchByPrefix w' = matchByPrefix w ∧
    closed ch' = false ∧ capacity ch' = capacity ch ∧ length (buffered ch') ≤ capacity ch'.
Proof.
  intros Hch Hc Hlen. unfold deliver.
  destruct (matchesWatchPattern _ _ _); simpl.
  2: { exists w, ch. by rewrite insert_id. }
  rewrite Hch. simpl. unfold sendOverflowMarker. destruct (overflowDetected w).
  - destruct (trySend_open (markerEvent EventOverflow) ch Hc) as (c1 & b1 & -> & Hc1 & Hcap1 & _ & Hl1 & _).
    simpl. destruct (trySend_open ev c1 Hc1) as (c2 & b2 & -> & Hc2 & Hcap2 & _ & Hl2 & _).
    simpl. do 2 eexists. split_and!; [done|done..|congruence|auto].
  - simpl. destruct (trySend_open ev ch Hc) as (c2 & b2 & -> & Hc2 & Hcap2 & _ & Hl2 & _).
    simpl. do 2 eexists. split_and!; [done|done..|auto].
Qed.

Lemma chan_inv_cons w ws chs next ch :
  chan_inv (w :: ws) chs next → chs !! eventChannel w = Some ch → closed ch = false →
  chan_inv ws chs next ∧ eventChannel w ∉ eventChannel <$> ws.
Proof.
  intros [H1 H2 H3 H4] Hch Hc. rewrite fmap_cons in H1. apply NoDup_cons in H1 as [? ?].
  split; [|done]. split; [done| |done|done]. intros w' Hw'. apply H2. by right.
Qed.

Lemma chan_inv_update ws chs next id ch :
  chan_inv ws chs next → is_Some (chs !! id) → closed ch = false →
  length (buffered ch) ≤ capacity ch → chan_inv ws (<[id := ch]> chs) next.
Proof.
  intros [H1 H2 H3 H4] Hid Hc Hlen. split; [done|..].
  - intros w Hw. rewrite lookup_insert. case_decide; eauto.
  - intros id' ch'. rewrite lookup_insert. case_decide; [naive_solver|eauto].
  - intros id'. rewrite lookup_insert. case_decide; [|auto]. intros _. subst. auto.
Qed.

Lemma deliverAll_ok ev ws chs next :
  chan_inv ws chs next →
  ∃ ws' chs', deliverAll ev ws chs = Some (ws', chs') ∧ chan_inv ws' chs' next ∧
    eventChannel <$> ws' = eventChannel <$> ws ∧
    (∀ id, id ∉ eventChannel <$> ws → chs' !! id = chs !! id).
Proof.
  revert chs. induction ws as [|w ws IH]; intros chs Hinv; simpl; [by eauto 10|].
  destruct (chan_open _ _ _ Hinv w ltac:(set_solver)) as (ch & Hch & Hc).
  pose proof (chan_bounded _ _ _ Hinv _ _ Hch Hc) as Hlen.
  destruct (deliver_open ev w chs ch Hch Hc Hlen) as (w' & ch' & -> & Ew & _ & _ & Hc' & Hcap & Hlen').
  simpl. destruct (chan_inv_cons _ _ _ _ _ Hinv Hch Hc) as [Hinv' Hnot].
  pose proof (chan_inv_update _ _ _ _ ch' Hinv' ltac:(eauto) Hc' Hlen') as Hinv1.
  destruct (IH _ Hinv1) as (ws1 & chs1 & -> & [I1 I2 I3 I4] & Hids & Hframe). simpl.
  do 2 eexists. split; [done|]. split_and!.
  - split; [| |done|done].
    + rewrite fmap_cons, Ew. apply NoDup_cons. split; [by rewrite Hids|done].
    + intros w0 [->|Hw0]%elem_of_cons; [|auto]. rewrite Ew, Hframe by done.
      rewrite lookup_insert_eq. eauto.
  - by rewrite fmap_cons, Ew, Hids.
  - intros id Hid. apply not_elem_of_cons in Hid as [? ?].
    rewrite Hframe by done. by rewrite lookup_insert_ne.
Qed.

Lemma history_append s s' ev :
  history_inv s → eventHistory s' = historyBuffer.append (Revision (EvFact ev)) ev (eventHistory s) →
  currentRevision s' = currentRevision s → Revision (EvFact ev) = currentRevision s →
  history_inv s'.
Proof.
  intros (log & H1 & H2 & H3) Eh Er Hev. exists (log ++ [mkEntry (Revision (EvFact ev)) ev]).
  rewrite Eh, Er. split_and!.
  - by apply append_history.
  - apply StronglySorted_app. split_and!; [|done|repeat constructor].
    intros e1 e2 He1 ->%list_elem_of_singleton. simpl. rewrite Hev.
    rewrite Forall_forall in H3. auto.
  - apply Forall_app. split; [done|]. repeat constructor. simpl. lia.
Qed.

(** Broadcasting an event of the current revision succeeds and keeps the
    invariant and the data. *)
Lemma broadcastEvent_ok ev s :
  store_inv s → Revision (EvFact ev) = currentRevision s →
  ∃ s', broadcastEvent ev s = Some s' ∧ store_inv s' ∧ same_data s s'.
Proof.
  intros [Hd Hc Hh] Hev. unfold broadcastEvent.
  destruct (deliverAll_ok ev _ _ _ Hc) as (ws' & chs' & -> & Hc' & _ & _). simpl.
  eexists. split; [done|]. split; [|done]. split.
  - by apply (data_inv_same s).
  - done.
  - by apply (history_append s _ ev).
Qed.

Lemma broadcastAll_ok evs s :
  store_inv s → Forall (λ ev, Revision (EvFact ev) = currentRevision s) evs →
  ∃ s', broadcastAll evs s = Some s' ∧ store_inv s' ∧ same_data s s'.
Proof.
  revert s. induction evs as [|ev evs IH]; intros s Hs Hevs; simpl; [exists s; by split_and!|].
  apply Forall_cons in Hevs as [Hev Hevs].
  destruct (broadcastEvent_ok ev s Hs Hev) as (s1 & -> & Hs1 & Hsame). simpl.
  destruct (IH s1 Hs1) as (s2 & -> & Hs2 & Hsame2).
  { destruct Hsame as (_ & _ & -> & _). done. }
  exists s2. split_and!; [done|done|]. destruct Hsame as (?&?&?&?), Hsame2 as (?&?&?&?).
  split_and!; congruence.
Qed.

(** The common end of every write: the section under the lock, then the
    broadcasts. *)
Lemma write_broadcast s s' evs :
  store_inv s → write_ok s s' evs →
  ∃ s'', broadcastAll evs s' = Some s'' ∧ store_inv s'' ∧ advances s s'' ∧ same_data s' s''.
Proof.
  intros [Hd Hc Hh] [Hd' Hadv (E1 & E2 & E3 & E4 & E5) Hev].
  destruct (broadcastAll_ok evs s') as (s'' & H1 & H2 & H3).
  - split; [done|congruence|]. destruct Hh as (log & L1 & L2 & L3). exists log. rewrite E4.
    split_and!; [done|done|]. eapply Forall_impl; [done|]. simpl.
    pose proof (adv_revision _ _ Hadv). lia.
  - done.
  - exists s''. split_and!; try done. etrans; [done|]. by apply advances_same.
Qed.

(** ** Watches, leases and shutdown *)

Lemma replayHistory_open evs key byPrefix ch :
  closed ch = false → length (buffered ch) ≤ capacity ch →
  ∃ ch', replayHistory evs key byPrefix ch = Some ch' ∧ closed ch' = false ∧
    length (buffered ch') ≤ capacity ch'.
Proof.
  unfold replayHistory. revert ch. induction evs as [|ev evs IH]; intros ch Hc Hlen; simpl; [eauto|].
  destruct (matchesWatchPattern ev key byPrefix); [|by apply IH].
  destruct (trySend_open ev ch Hc) as (c1 & b1 & -> & Hc1 & Hcap1 & _ & Hl1 & _). simpl.
  apply IH; auto.
Qed.

Lemma chan_inv_fresh ws chs next ch :
  chan_inv ws chs next → (closed ch = false → length (buffered ch) ≤ capacity ch) →
  chan_inv ws (<[next := ch]> chs) (S next) ∧
  (∀ w, eventChannel w = next → closed ch = false → chan_inv (ws ++ [w]) (<[next := ch]> chs) (S next)).
Proof.
  intros [H1 H2 H3 H4] Hlen.
  assert (Hne : ∀ w, w ∈ ws → eventChannel w ≠ next).
  { intros w Hw E. destruct (H2 w Hw) as (c & Hc & _). assert (eventChannel w < next) by eauto. lia. }
  assert (Hopen : ∀ w, w ∈ ws → ∃ c, <[next := ch]> chs !! eventChannel w = Some c ∧ closed c = false).
  { intros w Hw. rewrite lookup_insert_ne by (apply not_eq_sym, Hne; done). auto. }
  assert (Hb : ∀ id c, <[next := ch]> chs !! id = Some c → closed c = false → length (buffered c) ≤ capacity c).
  { intros id c. rewrite lookup_insert. case_decide; [naive_solver|eauto]. }
  assert (Hf : ∀ id, is_Some (<[next := ch]> chs !! id) → id < S next).
  { intros id. rewrite lookup_insert. case_decide; [lia|]. intros Hid. specialize (H4 id Hid). lia. }
  split; [done|]. intros w Hw Hc. split; [| |done|done].
  - rewrite fmap_app. apply NoDup_app. split_and!; [done| |repeat constructor; set_solver].
    intros id (w' & -> & Hw')%list_elem_of_fmap Hin. apply (Hne w' Hw'). set_solver.
  - intros w' Hw'. apply elem_of_app in Hw' as [?|Hw']; [auto|].
    apply list_elem_of_singleton in Hw' as ->. rewrite Hw, lookup_insert_eq. eauto.
Qed.

Lemma Watch_ok key opts s :
  store_inv s → ∃ r s', Watch key opts s = Some (r, s') ∧ store_inv s' ∧ same_data s s'.
Proof.
  intros Hs. pose proof Hs as [Hd Hc Hh]. unfold Watch.
  destruct (isClosed s) eqn:Ecl; [by do 2 eexists; split_and!|].
  destruct (0 <? StartRevision opts)%Z.
  - destruct (historyBuffer.eventsFromRevision _ _) as [evs|].
    + destruct (replayHistory_open evs key (Prefix opts) (mkChannel [] (watchChannelBufferSize s) false))
        as (ch & -> & Hcl & Hlen); [done|simpl; lia|]. simpl.
      do 2 eexists. split; [done|]. split; [|done]. split; [by apply (data_inv_same s)| |done].
      apply (chan_inv_fresh _ _ _ ch Hc); done.
    + do 2 eexists. split; [done|]. split; [|done]. split; [by apply (data_inv_same s)| |done].
      by apply chan_inv_fresh.
  - do 2 eexists. split; [done|]. split; [|done]. split; [by apply (data_inv_same s)| |done].
    apply (chan_inv_fresh _ _ _ _ Hc); simpl; auto with lia.
Qed.

Lemma closeChannel_open ws chs next w :
  chan_inv (w :: ws) chs next →
  ∃ chs', closeChannel (eventChannel w) chs = Some chs' ∧ chan_inv ws chs' next.
Proof.
  intros Hinv. destruct (chan_open _ _ _ Hinv w ltac:(set_solver)) as (ch & Hch & Hc).
  destruct (chan_inv_cons _ _ _ _ _ Hinv Hch Hc) as [[H1 H2 H3 H4] Hnot].
  unfold closeChannel. rewrite Hch. simpl. rewrite Hc. eexists. split; [done|].
  split; [done|..].
  - intros w' Hw'. rewrite lookup_insert_ne; [auto|]. intros E. apply Hnot. rewrite E.
    apply list_elem_of_fmap. eauto.
  - intros id c. rewrite lookup_insert. case_decide; [naive_solver|eauto].
  - intros id. rewrite lookup_insert. case_decide; [|auto]. intros _. subst. eauto.
Qed.

Lemma chan_inv_perm ws ws' chs next : ws ≡ₚ ws' → chan_inv ws chs next → chan_inv ws' chs next.
Proof.
  intros E [H1 H2 H3 H4]. split; [by rewrite <-E| |done|done]. intros w. rewrite <-E. auto.
Qed.

Lemma removeWatcher_ok id s :
  store_inv s → ∃ s', removeWatcher id s = Some s' ∧ store_inv s' ∧ same_data s s'.
Proof.
  intros Hs. pose proof Hs as [Hd Hc Hh]. unfold removeWatcher.
  destruct (list_find _ _) as [[i w]|] eqn:E; [|by exists s; split_and!].
  apply list_find_Some in E as (Hw & <- & _).
  pose proof (take_drop_middle _ _ _ Hw) as Hsplit.
  destruct (closeChannel_open (take i (activeWatchers s) ++ drop (S i) (activeWatchers s))
              (channels s) (nextChannel s) w) as (chs & -> & Hc').
  { eapply chan_inv_perm; [|exact Hc]. rewrite <-Hsplit at 1. by rewrite Permutation_middle. }
  simpl. eexists. split; [done|]. split; [|done]. split; [by apply (data_inv_same s)|done|done].
Qed.

Lemma closeWatchers_ok ws chs next :
  chan_inv ws chs next → ∃ chs', closeWatchers ws chs = Some chs' ∧ chan_inv [] chs' next.
Proof.
  revert chs. induction ws as [|w ws IH]; intros chs Hinv; simpl; [eauto|].
  destruct (closeChannel_open _ _ _ _ Hinv) as (chs1 & -> & Hinv1). simpl. auto.
Qed.

Lemma Close_ok s :
  store_inv s → ∃ s', Close s = Some s' ∧ store_inv s' ∧ advances s s' ∧ isClosed s' = true.
Proof.
  intros Hs. pose proof Hs as [Hd Hc Hh]. unfold Close. destruct (isClosed s) eqn:Ecl.
  { exists s. split_and!; done. }
  destruct (closeWatchers_ok _ _ _ Hc) as (chs & -> & Hc'). simpl.
  eexists. split_and!; [done| |split; simpl; [lia|auto]|done].
  split; [|done|done]. destruct Hd as [H1 H2 H3 H4 H5]. by split.
Qed.

Lemma receive_ok id s : store_inv s → store_inv (snd (receive id s)) ∧ same_data s (snd (receive id s)).
Proof.
  intros Hs. pose proof Hs as [Hd Hc Hh]. unfold receive.
  destruct (channels s !! id) as [[[|ev evs] cap c]|] eqn:E; [by split|simpl|by split].
  split; [|done]. split; [by apply (data_inv_same s)| |done]. simpl.
  destruct Hc as [H1 H2 H3 H4]. split; [done|..].
  - intros w Hw. rewrite lookup_insert. case_decide as Hid; [|auto]. subst.
    destruct (H2 w Hw) as (ch & Hch & Hcl). rewrite E in Hch. simplify_eq. eauto.
  - intros id' ch. rewrite lookup_insert. case_decide; [|eauto]. intros [= <-] Hcl. subst.
    specialize (H3 id' _ E Hcl). simpl in *. lia.
  - intros id'. rewrite lookup_insert. case_decide; [|auto]. intros _. subst. eauto.
Qed.

Lemma GrantLease_ok s :
  store_inv s → store_inv (snd (GrantLease s)) ∧ advances s (snd (GrantLease s)).
Proof.
  intros [Hd Hc (log & L1 & L2 & L3)]. simpl. split; [split|split; simpl; [lia|auto]].
  - by apply data_inv_bump.
  - done.
  - exists log. split_and!; [done|done|]. eapply Forall_impl; [done|]. simpl. lia.
Qed.

(** ** Every sequence of operations *)

Inductive storeOp :=
| DoPut (key value : string)
| DoPutWithLease (key value : string) (lease : Z)
| DoDelete (key : string)
| DoTransaction (compares : list Compare) (onSuccess onFailure : list Op)
| DoWatch (key : string) (opts : WatchOption)
| DoCancelWatch (channel : nat)
| DoReceive (channel : nat)
| DoGrantLease
| DoRevokeLease (lease : Z)
| DoClose.

(** The state an operation leaves; [None] is a panic. *)
Definition exec (op : storeOp) (s : MemoryStore) : option MemoryStore :=
  match op with
  | DoPut k v => snd <$> Put k v s
  | DoPutWithLease k v l => snd <$> PutWithLease k v l s
  | DoDelete k => snd <$> Delete k s
  | DoTransaction c a b => snd <$> Transaction c a b s
  | DoWatch k o => snd <$> Watch k o s
  | DoCancelWatch id => removeWatcher id s
  | DoReceive id => Some (snd (receive id s))
  | DoGrantLease => Some (snd (GrantLease s))
  | DoRevokeLease l => Some (RevokeLease l s)
  | DoClose => Close s
  end.

Fixpoint exec_all (ops : list storeOp) (s : MemoryStore) : option MemoryStore :=
  match ops with
  | [] => Some s
  | op :: ops' => exec op s ≫= exec_all ops'
  end.

Lemma Put_ok k v s :
  store_inv s → ∃ r s', Put k v s = Some (r, s') ∧ store_inv s' ∧ advances s s'.
Proof.
  intros Hs. unfold Put. destruct (isClosed s); [by do 2 eexists; split_and!|].
  destruct (Put_locked k v s) as [[rev s1] evs] eqn:E.
  pose proof (Put_locked_ok _ _ _ _ _ _ (inv_data _ Hs) E) as Hw.
  destruct (write_broadcast _ _ _ Hs Hw) as (s2 & -> & H2 & H3 & _). simpl. eauto 10.
Qed.

Lemma Delete_ok k s :
  store_inv s → ∃ r s', Delete k s = Some (r, s') ∧ store_inv s' ∧ advances s s'.
Proof.
  intros Hs. unfold Delete. destruct (isClosed s); [by do 2 eexists; split_and!|].
  destruct (Delete_locked k s) as [[r s1] evs] eqn:E.
  pose proof (Delete_locked_ok _ _ _ _ _ (inv_data _ Hs) E) as Hw.
  destruct (write_broadcast _ _ _ Hs Hw) as (s2 & -> & H2 & H3 & _). simpl. eauto 10.
Qed.

Lemma Transaction_ok c a b s :
  store_inv s → ∃ r s', Transaction c a b s = Some (r, s') ∧ store_inv s' ∧ advances s s'.
Proof.
  intros Hs. unfold Transaction. destruct (isClosed s); [by do 2 eexists; split_and!|].
  case_match; [by do 2 eexists; split_and!|].
  destruct (Transaction_locked c a b s) as [[r s1] evs] eqn:E.
  pose proof (Transaction_locked_ok _ _ _ _ _ _ _ (inv_data _ Hs) E) as Hw.
  destruct (write_broadcast _ _ _ Hs Hw) as (s2 & -> & H2 & H3 & _). simpl. eauto 10.
Qed.

Lemma exec_ok op s :
  store_inv s → ∃ s', exec op s = Some s' ∧ store_inv s' ∧ advances s s'.
Proof.
  intros Hs. destruct op; simpl.
  - destruct (Put_ok key value s Hs) as (r & s' & -> & ? & ?). eauto.
  - destruct (Put_ok key value s Hs) as (r & s' & E & ? & ?). unfold PutWithLease. rewrite E. eauto.
  - destruct (Delete_ok key s Hs) as (r & s' & -> & ? & ?). eauto.
  - destruct (Transaction_ok compares onSuccess onFailure s Hs) as (r & s' & -> & ? & ?). eauto.
  - destruct (Watch_ok key opts s Hs) as (r & s' & -> & ? & ?). eauto using advances_same.
  - destruct (removeWatcher_ok channel s Hs) as (s' & -> & ? & ?). eauto using advances_same.
  - destruct (receive_ok channel s Hs). eauto using advances_same.
  - destruct (GrantLease_ok s Hs). eauto.
  - exists s. by split_and!.
  - destruct (Close_ok s Hs) as (s' & -> & ? & ? & _). eauto.
Qed.

Lemma exec_all_ok ops s :
  store_inv s → ∃ s', exec_all ops s = Some s' ∧ store_inv s' ∧ advances s s'.
Proof.
  revert s. induction ops as [|op ops IH]; intros s Hs; simpl; [by exists s; split_and!|].
  destruct (exec_ok op s Hs) as (s1 & -> & Hs1 & H1). simpl.
  destruct (IH s1 Hs1) as (s2 & -> & Hs2 & H2). exists s2. split_and!; [done|done|by etrans].
Qed.

Lemma NewMemoryStore_inv n : store_inv (SetWatchChannelBufferSize n NewMemoryStore).
Proof.
  split.
  - split; simpl; try (intros ??; rewrite lookup_empty; done); [|done].
    unfold indexedKeys. simpl. rewrite dom_empty_L.
    replace (∅ ∖ {[""]}) with (∅ : gset string) by set_solver. apply newPrefixTrie_repr.
  - split; simpl; try (intros ??; rewrite lookup_empty; done).
    + constructor.
    + set_solver.
    + intros id. rewrite lookup_empty. by intros [].
  - exists []. split_and!; [|constructor|constructor].
    apply newEventHistoryBuffer_history. unfold defaultEventHistoryCapacity. lia.
Qed.
