(* ===== verification/StoreProps.v ===== *)
(** * Properties of the in-memory store

    The claims about src/store/trie.go and src/store/memory.go: the trie as a
    sorted set of keys, the store's data operations on every branch, atomicity
    and the soundness of compare-and-swap, and what a watch delivers. *)

From S2P Require Import Prelude GoStrings Trie EventHistory MemoryStore StoreInvariant.
Import MemStore.

(** The stores a program can reach: a fresh store with some watch buffer size,
    then any operations. *)
Definition reachable (s : MemoryStore) : Prop :=
  ∃ bufferSize ops, exec_all ops (SetWatchChannelBufferSize bufferSize NewMemoryStore) = Some s.

Lemma reachable_inv s : reachable s → store_inv s.
Proof.
  intros (n & ops & E). destruct (exec_all_ok ops _ (NewMemoryStore_inv n)) as (s' & E' & H & _).
  rewrite E in E'. by simplify_eq.
Qed.

Lemma exec_all_app ops1 ops2 s : exec_all (ops1 ++ ops2) s = exec_all ops1 s ≫= exec_all ops2.
Proof.
  revert s. induction ops1 as [|op ops1 IH]; intros s; simpl; [done|].
  destruct (exec op s); simpl; [apply IH|done].
Qed.

Lemma reachable_step s ops s' : reachable s → exec_all ops s = Some s' → reachable s'.
Proof. intros (n & ops0 & E) E'. exists n, (ops0 ++ ops). by rewrite exec_all_app, E. Qed.

(** ** Scans *)

Definition keyLess (f g : Fact) : Prop := str_lt (Key f) (Key g).

Lemma mapM_facts (fs : gmap string Fact) ks l :
  (∀ k f, fs !! k = Some f → Key f = k) →
  mapM (λ k, fs !! k) ks = Some l → Key <$> l = ks ∧ ∀ f, f ∈ l ↔ fs !! Key f = Some f ∧ Key f ∈ ks.
Proof.
  intros Hk. rewrite mapM_Some. induction 1 as [|k f ks l Hkf Hl [IH1 IH2]]; [set_solver|].
  pose proof (Hk k f Hkf) as E. split; [by rewrite fmap_cons, E, IH1|].
  intros g. rewrite !elem_of_cons, IH2. split; [naive_solver congruence|].
  intros [Hg [Ek|Hin]]; [|auto]. left. congruence.
Qed.

Lemma collectFactPointers_ok p s :
  data_inv s →
  ∃ l, collectFactPointers p s = Some l ∧ StronglySorted keyLess l ∧
       ∀ f, f ∈ l ↔ facts s !! Key f = Some f ∧ HasPrefix (Key f) p = true ∧ Key f ≠ "".
Proof.
  intros Hs. destruct (KeysWithPrefix_repr _ _ p (data_index _ Hs)) as [Hsort Hmem].
  assert (Hdom : ∀ k, k ∈ prefixTrie.KeysWithPrefix p (keyIndex s) ↔
            HasPrefix k p = true ∧ is_Some (facts s !! k) ∧ k ≠ "").
  { intros k. rewrite Hmem, elem_of_under. unfold indexedKeys.
    rewrite elem_of_difference, elem_of_dom, elem_of_singleton. done. }
  destruct (collectFactPointers p s) as [l|] eqn:E.
  - exists l. split; [done|]. unfold collectFactPointers in E.
    destruct (mapM_facts _ _ _ (data_key _ Hs) E) as [El Hl]. split.
    + rewrite <-El in Hsort. revert Hsort. clear. induction l as [|f l IH]; [constructor|].
      rewrite fmap_cons. intros [Hf Hl]%StronglySorted_cons. constructor; [auto|].
      rewrite Forall_fmap in Hf. done.
    + intros f. rewrite Hl, Hdom. naive_solver.
  - exfalso. unfold collectFactPointers in E. apply mapM_None in E.
    apply Exists_exists in E as (k & Hk & Hnone). apply Hdom in Hk as (_ & [f Hf] & _). congruence.
Qed.

(** ** The trie *)

(** C18: After any sequence of insertions and removals, a prefix query returns the
    keys present that begin with the prefix, each once, in ascending order. *)
Theorem KeysWithPrefix_refines_sorted_set ops prefix :
  prefixTrie.KeysWithPrefix prefix (trie_run ops) =
  sort_strings (elements (under prefix (keyset_run ops))).
Proof. apply KeysWithPrefix_sort, trie_run_repr. Qed.

(** [Remove] reports whether the key was present. *)
Theorem Remove_reports_presence ops key :
  snd (prefixTrie.Remove key (trie_run ops)) = bool_decide (key ∈ keyset_run ops).
Proof. apply Remove_repr, trie_run_repr. Qed.

(** C39: A removal leaves no dead branch behind: every node other than the root lies
    on the path to a present key, and its count is the number of keys below. *)
Theorem trie_nodes_are_live ops path node :
  path ≠ "" → prefixTrie.walk path (trie_run ops) = Some node →
  subtreeCount node = Z.of_nat (size (under path (keyset_run ops))) ∧ (0 < subtreeCount node)%Z.
Proof.
  intros Hp Hw. pose proof (trie_run_repr ops) as Ht.
  assert (Hi : infoAt path (trie_run ops) = Some (factKey node, subtreeCount node))
    by (unfold infoAt; by rewrite Hw).
  pose proof (repr_count _ _ Ht _ _ _ Hp Hi) as Hc. split; [done|].
  destruct (repr_live _ _ Ht path Hp ltac:(eauto)) as (k & Hk & Hpre).
  assert (size (under path (keyset_run ops)) ≠ 0); [|lia].
  apply size_non_empty_iff. intros E%leibniz_equiv.
  assert (k ∈ under path (keyset_run ops)) as Hin by (by apply elem_of_under). set_solver.
Qed.

Lemma trie_nodes_are_live_witness :
  let ops := [InsertOp "ab"; InsertOp "ac"; RemoveOp "ab"] in
  ∃ node, prefixTrie.walk "a" (trie_run ops) = Some node ∧
    subtreeCount node = Z.of_nat (size (under "a" (keyset_run ops))) ∧ (0 < subtreeCount node)%Z.
Proof.
  simpl. eexists. split; [vm_compute; reflexivity|].
  eapply (trie_nodes_are_live [InsertOp "ab"; InsertOp "ac"; RemoveOp "ab"] "a");
    [discriminate|vm_compute; reflexivity].
Defined.

(** ** Safety *)


(** [ScanWithRevision] returns the facts whose key begins with the prefix,
    strictly ascending by key, with the current revision; the empty key is never
    returned. *)
Theorem ScanWithRevision_exact s prefix :
  reachable s → isClosed s = false →
  ∃ l, ScanWithRevision prefix s = Some (Ok (l, currentRevision s)) ∧ StronglySorted keyLess l ∧
       ∀ f, f ∈ l ↔ facts s !! Key f = Some f ∧ HasPrefix (Key f) prefix = true ∧ Key f ≠ "".
Proof.
  intros Hs Hc. destruct (collectFactPointers_ok prefix s) as (l & E & Hl).
  { by apply inv_data, reachable_inv. }
  exists l. unfold ScanWithRevision. by rewrite Hc, E.
Qed.

Definition sampleOps : list storeOp :=
  [DoWatch "a" (mkWatchOption true 0); DoPut "a/1" "x"; DoPut "b" "y"; DoPut "a/0" "z"].

Definition sampleStore : MemoryStore :=
  default NewMemoryStore (exec_all sampleOps (SetWatchChannelBufferSize 2 NewMemoryStore)).

Lemma sampleStore_reachable : reachable sampleStore.
Proof. exists 2, sampleOps. vm_compute. reflexivity. Qed.

Lemma ScanWithRevision_exact_witness :
  ∃ l, ScanWithRevision "a/" sampleStore = Some (Ok (l, 3%Z)) ∧ StronglySorted keyLess l ∧
       ∀ f, f ∈ l ↔ facts sampleStore !! Key f = Some f ∧ HasPrefix (Key f) "a/" = true ∧ Key f ≠ "".
Proof.
  apply (ScanWithRevision_exact sampleStore "a/" sampleStore_reachable). vm_compute. reflexivity.
Defined.

(** ** Data operations *)

(** What a reader sees of a store. *)
Definition same_reads (s s' : MemoryStore) : Prop :=
  facts s' = facts s ∧ currentRevision s' = currentRevision s.

(** [Put] on an open store: writing the value already stored changes nothing
    and returns the fact's revision; otherwise the fact is written at the next
    revision, which is returned, keeping its creation revision, and no other
    key changes. *)
Theorem Put_behaviour s key value :
  reachable s → isClosed s = false →
  ∃ rev s' f, Put key value s = Some (Ok rev, s') ∧ Get key s' = Ok f ∧
    Value f = value ∧ Revision f = rev ∧
    (∀ k, k ≠ key → facts s' !! k = facts s !! k) ∧
    (facts s !! key = Some f ∧ same_reads s s' ∨
     rev = (currentRevision s + 1)%Z ∧ currentRevision s' = rev ∧
     CreateRevision f = match facts s !! key with Some f0 => CreateRevision f0 | None => rev end).
Proof.
  intros Hs Hc. apply reachable_inv in Hs. unfold Put, Get. rewrite Hc.
  destruct (Put_locked key value s) as [[rev s1] evs] eqn:E.
  pose proof (Put_locked_ok _ _ _ _ _ _ (inv_data _ Hs) E) as Hw.
  destruct (write_broadcast _ _ _ Hs Hw) as (s2 & -> & _ & _ & (Ef & _ & Er & Ec)). simpl.
  destruct (write_same_events _ _ _ Hw) as (_ & _ & _ & _ & Ecl).
  destruct (Put_locked_cases key value s) as [(f & Hf & Hv & Ep)|[_ Ep]]; rewrite Ep in E;
    simplify_eq; simpl in Ef, Er.
  - exists (Revision f), s2, f. unfold same_reads. rewrite Ec, Ef, Er, Hc, Hf. split_and!; auto.
  - eexists _, s2, _. rewrite Ec, Ecl, Hc, Ef, Er, lookup_insert_eq.
    split_and!; [done|done|done|done| |by auto].
    intros k Hk. by rewrite lookup_insert_ne.
Qed.

Lemma Put_behaviour_witness :
  ∃ rev s' f, Put "b" "y2" sampleStore = Some (Ok rev, s') ∧ Get "b" s' = Ok f ∧
    Value f = "y2" ∧ Revision f = rev ∧
    (∀ k, k ≠ "b" → facts s' !! k = facts sampleStore !! k) ∧
    (facts sampleStore !! "b" = Some f ∧ same_reads sampleStore s' ∨
     rev = 4%Z ∧ currentRevision s' = rev ∧ CreateRevision f = 2%Z).
Proof.
  apply (Put_behaviour sampleStore "b" "y2" sampleStore_reachable). vm_compute. reflexivity.
Defined.

(** [Delete] on an open store: an absent key is reported and nothing changes; a
    present key is removed at the next revision and no other key changes. *)
Theorem Delete_behaviour s key :
  reachable s → isClosed s = false →
  match facts s !! key with
  | None => Delete key s = Some (Err ErrKeyNotFound, s)
  | Some _ => ∃ s', Delete key s = Some (Ok tt, s') ∧ facts s' = delete key (facts s) ∧
                    Get key s' = Err ErrKeyNotFound ∧ currentRevision s' = (currentRevision s + 1)%Z
  end.
Proof.
  intros Hs Hc. apply reachable_inv in Hs. unfold Delete. rewrite Hc.
  destruct (Delete_locked key s) as [[r s1] evs] eqn:E.
  pose proof (Delete_locked_ok _ _ _ _ _ (inv_data _ Hs) E) as Hw.
  destruct (write_same_events _ _ _ Hw) as (_ & _ & _ & _ & Ecl).
  destruct (write_broadcast _ _ _ Hs Hw) as (s2 & Eb & _ & _ & (Ef & _ & Er & Ec)).
  unfold Delete_locked, deleteFact in E. destruct (facts s !! key) as [f|] eqn:Ek; simplify_eq.
  - rewrite Eb. exists s2. unfold Get. rewrite Ec, Ecl, Hc, Ef, Er. simpl.
    by rewrite lookup_delete_eq.
  - done.
Qed.

Lemma Delete_behaviour_witness :
  ∃ s', Delete "b" sampleStore = Some (Ok tt, s') ∧ facts s' = delete "b" (facts sampleStore) ∧
        Get "b" s' = Err ErrKeyNotFound ∧ currentRevision s' = (currentRevision sampleStore + 1)%Z.
Proof.
  apply (Delete_behaviour sampleStore "b" sampleStore_reachable). vm_compute. reflexivity.
Defined.

(** C3: A transaction within the operation limit is atomic: it evaluates all
    preconditions on the store it finds, then applies exactly one of the two
    branches, in order, to the key-value content. Either nothing changes, or
    the revision advances by one and every fact it wrote carries that
    revision. *)
Theorem Transaction_atomic s compares onSuccess onFailure :
  reachable s → isClosed s = false →
  length compares + length onSuccess + length onFailure ≤ memoryStoreTransactionOperationLimit →
  let met := evaluateTransactionPreconditions compares s in
  ∃ s', Transaction compares onSuccess onFailure s = Some (Ok met, s') ∧
    values s' = apply_ops (if met then onSuccess else onFailure) (values s) ∧
    (same_reads s s' ∨
     currentRevision s' = (currentRevision s + 1)%Z ∧
     ∀ k f, facts s' !! k = Some f → facts s !! k = Some f ∨ Revision f = currentRevision s').
Proof.
  intros Hs Hc Hlim met. apply reachable_inv in Hs. unfold Transaction. rewrite Hc.
  destruct (Nat.ltb_spec memoryStoreTransactionOperationLimit
              (length compares + length onSuccess + length onFailure)); [lia|].
  destruct (Transaction_locked compares onSuccess onFailure s) as [[r s1] evs] eqn:E.
  pose proof (Transaction_locked_ok _ _ _ _ _ _ _ (inv_data _ Hs) E) as Hw.
  destruct (Transaction_locked_spec _ _ _ _ _ _ _ (inv_data _ Hs) E) as (-> & Hv & Hcase).
  destruct (write_broadcast _ _ _ Hs Hw) as (s2 & -> & _ & _ & (Ef & _ & Er & _)). simpl.
  exists s2. unfold values, same_reads in *. rewrite Ef, Er. split_and!; [done|done|].
  destruct Hcase as [[-> _]|([_ [_ H2] H3 _] & _)]; [by left|right].
  rewrite H2. auto.
Qed.

Lemma Transaction_atomic_witness :
  ∃ s', Transaction [mkCompare "b" 2] [mkOp OpPut "c" "1"; mkOp OpDelete "b" ""] [] sampleStore
        = Some (Ok true, s') ∧
    values s' = apply_ops [mkOp OpPut "c" "1"; mkOp OpDelete "b" ""] (values sampleStore) ∧
    (same_reads sampleStore s' ∨
     currentRevision s' = (currentRevision sampleStore + 1)%Z ∧
     ∀ k f, facts s' !! k = Some f → facts sampleStore !! k = Some f ∨ Revision f = currentRevision s').
Proof.
  apply (Transaction_atomic sampleStore [mkCompare "b" 2] [mkOp OpPut "c" "1"; mkOp OpDelete "b" ""] []
           sampleStore_reachable); [vm_compute; reflexivity|].
  vm_compute. lia.
Defined.

(** Preconditions cannot be fooled by writes in between: if a fact was read and
    a later store still satisfies the comparison with its revision, the key
    still holds that very fact. *)
Theorem Compare_no_aba s ops s' key f :
  reachable s → exec_all ops s = Some s' → facts s !! key = Some f →
  preconditionHolds s' (mkCompare key (Revision f)) = true → facts s' !! key = Some f.
Proof.
  intros Hs E Hf Hpre. apply reachable_inv in Hs.
  destruct (exec_all_ok ops s Hs) as (s1 & E1 & _ & Hadv). rewrite E in E1. simplify_eq.
  pose proof (data_created _ (inv_data _ Hs) _ _ Hf).
  pose proof (data_revision _ (inv_data _ Hs) _ _ Hf).
  unfold preconditionHolds in Hpre. simpl in Hpre.
  destruct (Z.eqb_spec (Revision f) 0); [lia|].
  destruct (facts s1 !! key) as [f'|] eqn:Ef; [|done]. boolprop.
  destruct (adv_facts _ _ Hadv _ _ Ef); [congruence|lia].
Qed.

Lemma Compare_no_aba_witness :
  facts (default NewMemoryStore (exec_all [DoPut "a/1" "w"; DoPut "b" "y"] sampleStore)) !! "b"
  = Some (mkFact "b" "y" 2 2 0).
Proof.
  apply (Compare_no_aba sampleStore [DoPut "a/1" "w"; DoPut "b" "y"] _ "b" (mkFact "b" "y" 2 2 0)
           sampleStore_reachable); vm_compute; reflexivity.
Defined.
