(* ===== verification/WatchProps.v ===== *)
(** * What a watch delivers (src/store/memory.go: Watch, broadcastEvent)

    A run of the store is followed together with the events its writes emit and
    the events one consumer receives. [lossy] is the contract of a watch
    channel stated in src/store/store.go: events arrive in order, and a dropped
    event leaves an overflow marker owed. *)

From S2P Require Import Prelude GoStrings Trie EventHistory MemoryStore StoreInvariant StoreProps.
Import MemStore.

(** ** Emitted and received events *)

(** The events an operation broadcasts. *)
Definition emitted (op : storeOp) (s : MemoryStore) : list Event :=
  if isClosed s then []
  else match op with
       | DoPut k v | DoPutWithLease k v _ => snd (Put_locked k v s)
       | DoDelete k => snd (Delete_locked k s)
       | DoTransaction c a b =>
           if memoryStoreTransactionOperationLimit <? length c + length a + length b then []
           else snd (Transaction_locked c a b s)
       | _ => []
       end.

(** The event a consumer of channel [id] takes by the operation. *)
Definition received (id : nat) (op : storeOp) (s : MemoryStore) : list Event :=
  match op with
  | DoReceive id' => if decide (id = id') then option_list (fst (receive id s)) else []
  | _ => []
  end.

Fixpoint emitted_all (ops : list storeOp) (s : MemoryStore) : list Event :=
  match ops with
  | [] => []
  | op :: ops' => emitted op s ++ match exec op s with Some s' => emitted_all ops' s' | None => [] end
  end.

Fixpoint received_all (id : nat) (ops : list storeOp) (s : MemoryStore) : list Event :=
  match ops with
  | [] => []
  | op :: ops' =>
      received id op s ++ match exec op s with Some s' => received_all id ops' s' | None => [] end
  end.

(** The two shapes of an operation: it writes and broadcasts, or it leaves the
    data and the history alone. *)
Inductive exec_view (op : storeOp) (s : MemoryStore) : MemoryStore → Prop :=
| view_write s1 s' : write_ok s s1 (emitted op s) →
    (emitted op s ≠ [] → (currentRevision s < currentRevision s1)%Z) →
    broadcastAll (emitted op s) s1 = Some s' → (∀ id, received id op s = []) → exec_view op s s'
| view_quiet s' : emitted op s = [] → eventHistory s' = eventHistory s →
    (∀ id ch, channels s !! id = Some ch → id < nextChannel s →
       ∃ ch', channels s' !! id = Some ch' ∧ buffered ch = received id op s ++ buffered ch') →
    nextChannel s ≤ nextChannel s' →
    (∀ w, w ∈ activeWatchers s' → eventChannel w < nextChannel s → w ∈ activeWatchers s) →
    exec_view op s s'.

Lemma view_refl op s : emitted op s = [] → (∀ id, received id op s = []) → exec_view op s s.
Proof.
  intros He Hr. apply view_quiet; [done|done| |lia|auto].
  intros id ch Hch _. exists ch. by rewrite Hr.
Qed.

Lemma Put_view k v op s s' :
  store_inv s → emitted op s = emitted (DoPut k v) s → (∀ id, received id op s = []) →
  snd <$> Put k v s = Some s' → exec_view op s s'.
Proof.
  intros Hs He Hr. unfold emitted in He. unfold Put. destruct (isClosed s) eqn:Hc.
  { simpl. intros [= <-]. apply view_refl; [|done]. unfold emitted. by rewrite Hc. }
  destruct (Put_locked k v s) as [[rev s1] evs] eqn:E.
  assert (Eev : emitted op s = evs) by (unfold emitted; by rewrite Hc, He).
  pose proof (Put_locked_ok _ _ _ _ _ _ (inv_data _ Hs) E) as Hw.
  destruct (broadcastAll evs s1) as [s2|] eqn:Eb; [|done]. simpl. intros [= <-].
  apply (view_write _ _ s1); rewrite ?Eev; [done| |done|done].
  destruct (Put_locked_cases k v s) as [(f & _ & _ & Ep)|[_ Ep]]; rewrite Ep in E; simplify_eq; [done|].
  simpl. lia.
Qed.

Lemma Delete_view k s s' :
  store_inv s → snd <$> Delete k s = Some s' → exec_view (DoDelete k) s s'.
Proof.
  intros Hs. unfold Delete. destruct (isClosed s) eqn:Hc.
  { simpl. intros [= <-]. apply view_refl; [|done]. unfold emitted. by rewrite Hc. }
  destruct (Delete_locked k s) as [[r s1] evs] eqn:E.
  assert (Eev : emitted (DoDelete k) s = evs) by (unfold emitted; by rewrite Hc, E).
  pose proof (Delete_locked_ok _ _ _ _ _ (inv_data _ Hs) E) as Hw.
  destruct (broadcastAll evs s1) as [s2|] eqn:Eb; [|done]. simpl. intros [= <-].
  apply (view_write _ _ s1); rewrite ?Eev; [done| |done|done].
  unfold Delete_locked, deleteFact in E. destruct (facts s !! k); simplify_eq; simpl; [lia|done].
Qed.

Lemma Transaction_view c a b s s' :
  store_inv s → snd <$> Transaction c a b s = Some s' → exec_view (DoTransaction c a b) s s'.
Proof.
  intros Hs. unfold Transaction. destruct (isClosed s) eqn:Hc.
  { simpl. intros [= <-]. apply view_refl; [|done]. unfold emitted. by rewrite Hc. }
  destruct (_ <? _) eqn:Hl.
  { simpl. intros [= <-]. apply view_refl; [|done]. unfold emitted. by rewrite Hc, Hl. }
  destruct (Transaction_locked c a b s) as [[r s1] evs] eqn:E.
  assert (Eev : emitted (DoTransaction c a b) s = evs) by (unfold emitted; by rewrite Hc, Hl, E).
  pose proof (Transaction_locked_ok _ _ _ _ _ _ _ (inv_data _ Hs) E) as Hw.
  destruct (broadcastAll evs s1) as [s2|] eqn:Eb; [|done]. simpl. intros [= <-].
  apply (view_write _ _ s1); rewrite ?Eev; [done| |done|done].
  destruct (Transaction_locked_spec _ _ _ _ _ _ _ (inv_data _ Hs) E) as (_ & _ & [[-> ->]|(H & _ & _)]);
    [done|]. intros _. destruct H as [_ [_ ->] _ _]. lia.
Qed.

Lemma closeChannel_buffered id chs chs' :
  closeChannel id chs = Some chs' →
  ∀ i ch, chs !! i = Some ch → ∃ ch', chs' !! i = Some ch' ∧ buffered ch' = buffered ch.
Proof.
  unfold closeChannel. destruct (chs !! id) as [c|] eqn:E; simpl; [|done].
  destruct (closed c); [done|]. intros [= <-] i ch Hi. rewrite lookup_insert.
  case_decide; [subst; rewrite E in Hi; simplify_eq; eauto|eauto].
Qed.

Lemma closeWatchers_buffered ws chs chs' :
  closeWatchers ws chs = Some chs' →
  ∀ i ch, chs !! i = Some ch → ∃ ch', chs' !! i = Some ch' ∧ buffered ch' = buffered ch.
Proof.
  revert chs. induction ws as [|w ws IH]; intros chs; simpl; [intros [= <-]; eauto|].
  destruct (closeChannel _ _) as [chs1|] eqn:E; [|done]. simpl. intros E2 i ch Hi.
  destruct (closeChannel_buffered _ _ _ E i ch Hi) as (c1 & H1 & H2).
  destruct (IH _ E2 i c1 H1) as (c2 & H3 & H4). exists c2. split; congruence.
Qed.

Lemma Watch_view k o s s' :
  store_inv s → snd <$> Watch k o s = Some s' → exec_view (DoWatch k o) s s'.
Proof.
  intros Hs. assert (He : emitted (DoWatch k o) s = []) by (unfold emitted; by destruct (isClosed s)).
  unfold Watch. destruct (isClosed s) eqn:Hc.
  { simpl. intros [= <-]. by apply view_refl. }
  assert (Hgo : ∀ ws ch, (∀ w, w ∈ ws → eventChannel w = nextChannel s) →
    exec_view (DoWatch k o) s
      (set_events (activeWatchers s ++ ws) (eventHistory s) (<[nextChannel s := ch]> (channels s))
                  (S (nextChannel s)) s)).
  { intros ws ch Hws. apply view_quiet; [done|done| |simpl; lia|].
    - intros id c Hid Hlt. exists c. simpl. rewrite lookup_insert_ne by lia. done.
    - simpl. intros w [?|Hw]%elem_of_app Hlt; [done|]. specialize (Hws w Hw). lia. }
  destruct (0 <? StartRevision o)%Z; [destruct (historyBuffer.eventsFromRevision _ _) as [evs|]|].
  - destruct (replayHistory _ _ _ _) as [ch|]; [|done]. simpl. intros [= <-].
    apply Hgo. by intros w ->%list_elem_of_singleton.
  - simpl. intros [= <-]. rewrite <-(app_nil_r (activeWatchers s)) at 1. apply Hgo. set_solver.
  - simpl. intros [= <-]. apply Hgo. by intros w ->%list_elem_of_singleton.
Qed.

Lemma exec_view_intro op s s' : store_inv s → exec op s = Some s' → exec_view op s s'.
Proof.
  intros Hs. destruct op; simpl.
  - by apply (Put_view key value).
  - by apply (Put_view key value).
  - by apply Delete_view.
  - by apply Transaction_view.
  - by apply Watch_view.
  - unfold removeWatcher. assert (He : emitted (DoCancelWatch channel) s = [])
      by (unfold emitted; by destruct (isClosed s)).
    destruct (list_find _ _) as [[i w]|]; [|intros [= <-]; by apply view_refl].
    destruct (closeChannel _ _) as [chs|] eqn:E; [|done]. simpl. intros [= <-].
    apply view_quiet; [done|done| |done|].
    + intros id ch Hid _. destruct (closeChannel_buffered _ _ _ E id ch Hid) as (c & ? & ?). eauto.
    + simpl. intros w' [Hw|Hw]%elem_of_app _; [eapply elem_of_take in Hw as (j & ? & ?)|
        apply list_elem_of_lookup in Hw as [j Hj]; rewrite lookup_drop in Hj];
        apply list_elem_of_lookup; eauto.
  - assert (He : emitted (DoReceive channel) s = []) by (unfold emitted; by destruct (isClosed s)).
    unfold receive. destruct (channels s !! channel) as [[[|ev evs] cap cl]|] eqn:E; intros [= <-].
    + apply view_refl; [done|]. intros id. unfold received, receive. case_decide; [subst; by rewrite E|done].
    + apply view_quiet; [done|done| |done|auto]. intros id ch Hid _. unfold received, receive. simpl.
      rewrite lookup_insert. destruct (decide (channel = id)) as [->|Hne].
      * rewrite E in Hid. rewrite decide_True, E by done. simplify_eq. eexists. by split.
      * rewrite decide_False by done. eauto.
    + apply view_refl; [done|]. intros id. unfold received, receive. case_decide; [subst; by rewrite E|done].
  - intros [= <-]. apply view_quiet; [unfold emitted; by destruct (isClosed s)|done| |done|done].
    intros id ch Hid _. exists ch. done.
  - intros [= <-]. apply view_refl; [unfold emitted; by destruct (isClosed _)|done].
  - assert (He : emitted DoClose s = []) by (unfold emitted; by destruct (isClosed _)).
    unfold Close. destruct (isClosed s); [intros [= <-]; by apply view_refl|].
    destruct (closeWatchers _ _) as [chs|] eqn:E; [|done]. simpl. intros [= <-].
    apply view_quiet; [done|done| |done|].
    + intros id ch Hid _. destruct (closeWatchers_buffered _ _ _ E id ch Hid) as (c & ? & ?). eauto.
    + simpl. set_solver.
Qed.

(** ** The contract of a watch channel *)

(** [lossy owed stream events]: [stream] is what a channel carried when the
    matching events were [events]. Events are delivered in order; when one is
    dropped the channel owes an overflow marker, and delivers nothing else until
    the marker is sent. *)
Inductive lossy : bool → list Event → list Event → Prop :=
| lossy_nil : lossy false [] []
| lossy_deliver stream events ev : lossy false stream events → lossy false (stream ++ [ev]) (events ++ [ev])
| lossy_drop owed stream events ev : lossy owed stream events → lossy true stream (events ++ [ev])
| lossy_marker stream events :
    lossy true stream events → lossy false (stream ++ [markerEvent EventOverflow]) events.

Lemma lossy_complete owed stream events :
  lossy owed stream events → owed = false → markerEvent EventOverflow ∉ stream → stream = events.
Proof.
  induction 1 as [|stream events ev _ IH| |stream events _ IH]; intros Ho Hm; try done.
  - rewrite IH; [done|done|]. set_solver.
  - set_solver.
Qed.

Lemma lossy_ordered owed stream events :
  lossy owed stream events → filter (λ ev, Type_ ev ≠ EventOverflow) stream `sublist_of` events.
Proof.
  induction 1 as [|stream events ev _ IH|owed stream events ev _ IH|stream events _ IH].
  - constructor.
  - rewrite filter_app. apply sublist_app; [done|]. rewrite filter_cons, filter_nil.
    case_decide; [done|]. apply sublist_nil_l.
  - etrans; [done|]. apply sublist_inserts_r. done.
  - rewrite filter_app, filter_cons_False by (simpl; naive_solver). by rewrite filter_nil, app_nil_r.
Qed.

(** The matching events of a watcher. *)
Definition matching (key : string) (byPrefix : bool) (evs : list Event) : list Event :=
  filter (λ ev, matchesWatchPattern ev key byPrefix = true) evs.

Lemma deliver_lossy ev w chs w' chs' ch stream events :
  deliver ev w chs = Some (w', chs') → chs !! eventChannel w = Some ch →
  lossy (overflowDetected w) (stream ++ buffered ch) events →
  ∃ ch', chs' !! eventChannel w = Some ch' ∧
    keyPattern w' = keyPattern w ∧ matchByPrefix w' = matchByPrefix w ∧ eventChannel w' = eventChannel w ∧
    lossy (overflowDetected w') (stream ++ buffered ch')
          (events ++ matching (keyPattern w) (matchByPrefix w) [ev]).
Proof.
  intros Hd Hch Hl. unfold deliver in Hd. unfold matching. rewrite filter_cons, filter_nil.
  destruct (matchesWatchPattern _ _ _); simpl in Hd.
  2: { simplify_eq. exists ch. rewrite decide_False, app_nil_r by done. done. }
  rewrite decide_True by done. rewrite Hch in Hd. simpl in Hd.
  unfold sendOverflowMarker, trySend in Hd.
  destruct (closed ch) eqn:Hc; destruct (overflowDetected w); simpl in Hd; rewrite ?Hc in Hd; try done.
  - destruct (Nat.ltb_spec (length (buffered ch)) (capacity ch)); simpl in Hd.
    + destruct (_ <? _); simpl in Hd; simplify_eq; rewrite lookup_insert_eq; eexists;
        (split_and!; [done|done..|]); simpl; rewrite !app_assoc.
      * apply lossy_deliver, lossy_marker. done.
      * apply (lossy_drop false), lossy_marker. done.
    + rewrite Hc in Hd. destruct (Nat.ltb_spec (length (buffered ch)) (capacity ch)); [lia|].
      simpl in Hd. simplify_eq. rewrite lookup_insert_eq. eexists. split_and!; [done|done..|].
      simpl. by apply (lossy_drop true).
  - destruct (_ <? _); simpl in Hd; simplify_eq; rewrite lookup_insert_eq; eexists;
      (split_and!; [done|done..|]); simpl; rewrite ?app_assoc; [by apply lossy_deliver|].
    by apply (lossy_drop false).
Qed.

(** The invariant of one consumer: while channel [id] is registered, it carries
    a [lossy] stream of the events emitted since. *)
Definition consumer_inv (id : nat) (key : string) (byPrefix : bool)
    (taken events : list Event) (ws : list factWatcher) (chs : gmap nat channel) : Prop :=
  ∀ w, w ∈ ws → eventChannel w = id →
    keyPattern w = key ∧ matchByPrefix w = byPrefix ∧
    ∃ ch, chs !! id = Some ch ∧ lossy (overflowDetected w) (taken ++ buffered ch) (matching key byPrefix events).

Lemma matching_app key byPrefix l1 l2 :
  matching key byPrefix (l1 ++ l2) = matching key byPrefix l1 ++ matching key byPrefix l2.
Proof. apply filter_app. Qed.

Lemma deliver_frame ev w chs w' chs' id :
  deliver ev w chs = Some (w', chs') → id ≠ eventChannel w → chs' !! id = chs !! id.
Proof.
  unfold deliver. destruct (negb _); [naive_solver|].
  destruct (chs !! eventChannel w); simpl; [|done].
  destruct (sendOverflowMarker _ _) as [[? ?]|]; simpl; [|done].
  destruct (trySend _ _) as [[? ?]|]; simpl; [|done].
  intros ? Hne. simplify_eq. by rewrite lookup_insert_ne.
Qed.

Lemma deliver_channel ev w chs w' chs' :
  deliver ev w chs = Some (w', chs') → eventChannel w' = eventChannel w.
Proof.
  unfold deliver. destruct (negb _); [naive_solver|].
  destruct (chs !! eventChannel w); simpl; [|done].
  destruct (sendOverflowMarker _ _) as [[? ?]|]; simpl; [|done].
  destruct (trySend _ _) as [[? ?]|]; simpl; [|done]. naive_solver.
Qed.

Lemma deliverAll_frame ev ws chs ws' chs' :
  deliverAll ev ws chs = Some (ws', chs') →
  eventChannel <$> ws' = eventChannel <$> ws ∧
  ∀ id, id ∉ eventChannel <$> ws → chs' !! id = chs !! id.
Proof.
  revert chs ws' chs'. induction ws as [|w ws IH]; intros chs ws' chs'; simpl; [naive_solver|].
  destruct (deliver ev w chs) as [[w1 chs1]|] eqn:E; simpl; [|done].
  destruct (deliverAll ev ws chs1) as [[ws2 chs2]|] eqn:E2; simpl; [|done]. intros [= <- <-].
  destruct (IH _ _ _ E2) as [H1 H2]. split.
  - by rewrite fmap_cons, H1, (deliver_channel _ _ _ _ _ E).
  - intros id Hid. apply not_elem_of_cons in Hid as [? ?].
    rewrite H2 by done. by apply (deliver_frame _ _ _ _ _ _ E).
Qed.

Lemma deliverAll_consumer ev id key byPrefix taken events ws chs ws' chs' :
  NoDup (eventChannel <$> ws) → consumer_inv id key byPrefix taken events ws chs →
  deliverAll ev ws chs = Some (ws', chs') →
  consumer_inv id key byPrefix taken (events ++ [ev]) ws' chs'.
Proof.
  revert chs ws' chs'. induction ws as [|w ws IH]; intros chs ws' chs' Hnd Hinv; simpl.
  { intros [= <- <-]. set_solver. }
  rewrite fmap_cons in Hnd. apply NoDup_cons in Hnd as [Hnot Hnd].
  destruct (deliver ev w chs) as [[w1 chs1]|] eqn:E; simpl; [|done].
  destruct (deliverAll ev ws chs1) as [[ws2 chs2]|] eqn:E2; simpl; [|done]. intros [= <- <-].
  destruct (deliverAll_frame _ _ _ _ _ E2) as [Hids Hframe].
  intros w0 [->|Hw0]%elem_of_cons Hid.
  - rewrite (deliver_channel _ _ _ _ _ E) in Hid.
    destruct (Hinv w ltac:(set_solver) Hid) as (Hk & Hp & ch & Hch & Hl).
    subst id key byPrefix.
    destruct (deliver_lossy _ _ _ _ _ _ _ _ E Hch Hl) as (ch' & Hch' & Ek & Ep & _ & Hl').
    rewrite Ek, Ep. split_and!; [done|done|]. exists ch'. rewrite matching_app.
    split; [|done]. by rewrite Hframe.
  - refine (IH chs1 ws2 chs2 Hnd _ E2 w0 Hw0 Hid).
    intros w2 Hw2 Hid2. destruct (Hinv w2 ltac:(set_solver) Hid2) as (Hk & Hp & ch & Hch & Hl).
    split_and!; [done|done|]. exists ch. split; [|done].
    rewrite (deliver_frame _ _ _ _ _ id E); [done|].
    intros Ew. apply Hnot. rewrite <-Ew, <-Hid2. by apply list_elem_of_fmap_2.
Qed.

Lemma broadcastAll_consumer id key byPrefix taken events evs s s' :
  NoDup (eventChannel <$> activeWatchers s) →
  consumer_inv id key byPrefix taken events (activeWatchers s) (channels s) →
  broadcastAll evs s = Some s' →
  consumer_inv id key byPrefix taken (events ++ evs) (activeWatchers s') (channels s').
Proof.
  revert events s. induction evs as [|ev evs IH]; intros events s Hnd Hinv; simpl.
  { intros [= <-]. by rewrite app_nil_r. }
  unfold broadcastEvent. destruct (deliverAll ev _ _) as [[ws chs]|] eqn:E; [|done]. simpl.
  intros E2. rewrite cons_middle, app_assoc.
  refine (IH _ _ _ _ E2); simpl.
  - by rewrite (proj1 (deliverAll_frame _ _ _ _ _ E)).
  - by eapply deliverAll_consumer.
Qed.

Lemma broadcastAll_fields evs s s' :
  broadcastAll evs s = Some s' →
  nextChannel s' = nextChannel s ∧ currentRevision s' = currentRevision s ∧
  eventHistory s' = foldl (λ h ev, historyBuffer.append (Revision (EvFact ev)) ev h) (eventHistory s) evs.
Proof.
  revert s. induction evs as [|ev evs IH]; intros s; simpl; [by intros [= <-]|].
  unfold broadcastEvent. destruct (deliverAll ev _ _) as [[ws chs]|]; [|done]. simpl.
  intros E. apply IH in E. done.
Qed.

Lemma exec_consumer id key byPrefix taken events op s s' :
  store_inv s → id < nextChannel s → exec op s = Some s' →
  consumer_inv id key byPrefix taken events (activeWatchers s) (channels s) →
  id < nextChannel s' ∧
  consumer_inv id key byPrefix (taken ++ received id op s) (events ++ emitted op s)
               (activeWatchers s') (channels s').
Proof.
  intros Hs Hid E Hinv. destruct (exec_view_intro op s s' Hs E) as [s1 s' Hw _ Hb Hr|s' He _ Hch Hn Hws].
  - destruct (write_same_events _ _ _ Hw) as (E1 & E2 & E3 & _). rewrite Hr, app_nil_r.
    split; [rewrite (proj1 (broadcastAll_fields _ _ _ Hb)); congruence|].
    refine (broadcastAll_consumer _ _ _ _ _ _ _ _ _ _ Hb); [|by rewrite E1, E2].
    rewrite E1. apply (chan_distinct _ _ _ (inv_chan _ Hs)).
  - rewrite He, app_nil_r. split; [lia|]. intros w Hw Ew.
    destruct (Hinv w) as (Hk & Hp & ch & H1 & H2); [apply Hws; [done|lia]|done|].
    split_and!; [done|done|]. destruct (Hch id ch H1 Hid) as (ch' & H3 & H4).
    exists ch'. split; [done|]. by rewrite <-app_assoc, <-H4.
Qed.

Lemma exec_all_consumer id key byPrefix taken events ops s s' :
  store_inv s → id < nextChannel s → exec_all ops s = Some s' →
  consumer_inv id key byPrefix taken events (activeWatchers s) (channels s) →
  consumer_inv id key byPrefix (taken ++ received_all id ops s) (events ++ emitted_all ops s)
               (activeWatchers s') (channels s').
Proof.
  revert taken events s. induction ops as [|op ops IH]; intros taken events s Hs Hid; simpl.
  { intros [= <-]. by rewrite !app_nil_r. }
  destruct (exec_ok op s Hs) as (s1 & E & Hs1 & _). rewrite E. simpl. intros E2 Hinv.
  destruct (exec_consumer _ _ _ _ _ _ _ _ Hs Hid E Hinv) as [Hid1 Hinv1].
  rewrite !app_assoc. by apply (IH _ _ s1).
Qed.

(** A new watch without replay starts with an empty stream. *)
Lemma Watch_consumer key opts s r s' :
  store_inv s → (StartRevision opts ≤ 0)%Z → Watch key opts s = Some (Ok r, s') →
  r < nextChannel s' ∧
  consumer_inv r key (Prefix opts) [] [] (activeWatchers s') (channels s').
Proof.
  intros Hs Hstart. unfold Watch. destruct (isClosed s); [done|].
  destruct (Z.ltb_spec 0 (StartRevision opts)); [lia|]. intros [= <- <-]. simpl. split; [lia|].
  intros w [Hw|Hw]%elem_of_app Hid.
  - destruct (chan_open _ _ _ (inv_chan _ Hs) w Hw) as (ch & Hch & _).
    pose proof (chan_fresh _ _ _ (inv_chan _ Hs) (eventChannel w) ltac:(eauto)). lia.
  - apply list_elem_of_singleton in Hw as ->. split_and!; [done|done|].
    rewrite lookup_insert_eq. eexists. split; [done|]. constructor.
Qed.


Definition watchedStore : MemoryStore :=
  match Watch "a" (mkWatchOption true 0) (SetWatchChannelBufferSize 1 NewMemoryStore) with
  | Some (_, s) => s
  | None => NewMemoryStore
  end.

Definition watchRun : list storeOp :=
  [DoPut "a/1" "x"; DoPut "b" "y"; DoReceive 0; DoPut "a/2" "z"].


(** ** Replay *)

Definition entry_of (ev : Event) : eventHistoryEntry := mkEntry (Revision (EvFact ev)) ev.

(** The complete log behind the history buffer. *)
Record logged (s : MemoryStore) (log : list eventHistoryEntry) : Prop := {
  logged_history : history_of (eventHistory s) log;
  logged_sorted : StronglySorted (λ e1 e2, (revision e1 ≤ revision e2)%Z) log;
  logged_bound : Forall (λ e, (revision e ≤ currentRevision s)%Z) log
}.

Lemma fold_append_history evs h log :
  history_of h log →
  history_of (foldl (λ h ev, historyBuffer.append (Revision (EvFact ev)) ev h) h evs)
             (log ++ (entry_of <$> evs)).
Proof.
  revert h log. induction evs as [|ev evs IH]; intros h log Hh; [simpl; by rewrite app_nil_r|].
  rewrite fmap_cons, cons_middle, app_assoc. simpl. by apply IH, append_history.
Qed.

Lemma StronglySorted_const {A} (f : A → Z) (l : list A) r :
  Forall (λ x, f x = r) l → StronglySorted (λ x y, (f x ≤ f y)%Z) l.
Proof.
  induction 1 as [|x l Hx Hl IH]; [constructor|]. constructor; [done|].
  eapply Forall_impl; [exact Hl|]. simpl. lia.
Qed.

Lemma exec_logged op s s' log :
  store_inv s → exec op s = Some s' → logged s log →
  logged s' (log ++ (entry_of <$> emitted op s)) ∧
  Forall (λ ev, (currentRevision s < Revision (EvFact ev))%Z) (emitted op s).
Proof.
  intros Hs E [H1 H2 H3]. destruct (exec_ok op s Hs) as (s'' & E' & _ & Hadv).
  rewrite E in E'. simplify_eq. pose proof (adv_revision _ _ Hadv).
  destruct (exec_view_intro op s s'' Hs E) as [s1 s' Hw Hlt Hb Hr|s' He Eh _ _ _].
  - destruct (broadcastAll_fields _ _ _ Hb) as (_ & Er & Eh).
    destruct (write_same_events _ _ _ Hw) as (_ & _ & _ & E4 & _). rewrite E4 in Eh.
    pose proof (write_events _ _ _ Hw) as Hev.
    assert (Hgt : Forall (λ ev, (currentRevision s < Revision (EvFact ev))%Z) (emitted op s)).
    { destruct (decide (emitted op s = [])) as [->|Hne]; [constructor|].
      eapply Forall_impl; [exact Hev|]. simpl. intros ev ->. auto. }
    split; [|done]. split.
    + rewrite Eh. by apply fold_append_history.
    + apply StronglySorted_app. split_and!; [|done|].
      * intros e1 e2 He1 (ev & -> & Hin)%list_elem_of_fmap. 
        pose proof (proj1 (Forall_forall _ _) H3 e1 He1).
        pose proof (proj1 (Forall_forall _ _) Hgt ev Hin). simpl in *. lia.
      * apply (StronglySorted_const revision _ (currentRevision s1)). by apply Forall_fmap.
    + apply Forall_app. split; [eapply Forall_impl; [exact H3|]; simpl; lia|].
      apply Forall_fmap. eapply Forall_impl; [exact Hev|]. simpl. lia.
  - rewrite He, app_nil_r. split; [|constructor]. split; [by rewrite Eh|done|].
    eapply Forall_impl; [exact H3|]. simpl. lia.
Qed.

Lemma exec_all_logged ops s s' log :
  store_inv s → exec_all ops s = Some s' → logged s log →
  logged s' (log ++ (entry_of <$> emitted_all ops s)) ∧
  Forall (λ ev, (currentRevision s < Revision (EvFact ev))%Z) (emitted_all ops s).
Proof.
  revert s log. induction ops as [|op ops IH]; intros s log Hs; simpl.
  { intros [= <-] ?. rewrite app_nil_r. split; [done|constructor]. }
  destruct (exec_ok op s Hs) as (s1 & E & Hs1 & Hadv). rewrite E. simpl. intros E2 Hlog.
  destruct (exec_logged op s s1 log Hs E Hlog) as [Hlog1 Hev1].
  destruct (IH s1 _ Hs1 E2 Hlog1) as [Hlog2 Hev2].
  rewrite fmap_app, app_assoc. split; [done|]. apply Forall_app. split; [done|].
  eapply Forall_impl; [exact Hev2|]. simpl. pose proof (adv_revision _ _ Hadv). lia.
Qed.

Lemma NewMemoryStore_logged n : logged (SetWatchChannelBufferSize n NewMemoryStore) [].
Proof.
  split; [|constructor|constructor]. apply newEventHistoryBuffer_history.
  unfold defaultEventHistoryCapacity. lia.
Qed.

Lemma reachable_logged s : reachable s → ∃ log, logged s log.
Proof.
  intros (n & ops & E).
  destruct (exec_all_logged ops _ _ [] (NewMemoryStore_inv n) E (NewMemoryStore_logged n)) as [H _].
  eauto.
Qed.

Lemma replayHistory_exact evs key byPrefix ch :
  closed ch = false → length (buffered ch) + length (matching key byPrefix evs) ≤ capacity ch →
  replayHistory evs key byPrefix ch =
    Some (mkChannel (buffered ch ++ matching key byPrefix evs) (capacity ch) false).
Proof.
  unfold replayHistory. revert ch. induction evs as [|ev evs IH]; intros ch Hc Hlen.
  { simpl. rewrite app_nil_r, <-Hc. by destruct ch. }
  simpl. unfold matching in *. rewrite filter_cons in *.
  destruct (matchesWatchPattern ev key byPrefix).
  - rewrite decide_True in * by done. simpl in *. unfold trySend. rewrite Hc.
    destruct (Nat.ltb_spec (length (buffered ch)) (capacity ch)); [|lia]. simpl.
    rewrite IH; simpl; [|done|rewrite length_app; simpl; lia]. by rewrite <-app_assoc.
  - rewrite decide_False in * by done. by apply IH.
Qed.

(** No event of revision [start] or later was evicted: either nothing was, or
    the oldest kept entry is older than [start]. *)
Definition history_reaches (start : Z) (h : eventHistoryBuffer) : Prop :=
  entryCount h < length (entries h) ∨
  ∃ e, entries h !! historyBuffer.oldestIndex h = Some e ∧ (revision e < start)%Z.

(** The events from [start] on are exactly those logged after the prefix
    [log0], when [start] separates the two. *)
Lemma eventsFromRevision_suffix h log0 evs start :
  history_of h (log0 ++ (entry_of <$> evs)) →
  Forall (λ e, (revision e < start)%Z) log0 → Forall (λ ev, (start ≤ Revision (EvFact ev))%Z) evs →
  history_reaches start h →
  historyBuffer.eventsFromRevision start h = None ∨ historyBuffer.eventsFromRevision start h = Some evs.
Proof.
  intros Hh Hold Hnew Hreach. rewrite (eventsFromRevision_history _ _ start Hh). unfold kept.
  set (log := log0 ++ (entry_of <$> evs)) in *. set (n := length log - length (entries h)).
  assert (Hn : drop n log = drop n log0 ++ (entry_of <$> evs)).
  { assert (n = 0 ∨ n < length log0) as [->|Hlt]; [|done|].
    - destruct Hreach as [Hlt|(e & He & Hrev)].
      { rewrite (hist_count _ _ Hh) in Hlt. left. lia. }
      destruct (decide (n < length log0)) as [|Hge]; [auto|left].
      destruct (decide (log = [])) as [Enil|Hne]; [unfold n; rewrite Enil; simpl; lia|].
      rewrite (oldest_history h log Hh Hne) in He. unfold kept in He. fold n in He.
      rewrite head_lookup, lookup_drop, Nat.add_0_r in He. unfold log in He.
      rewrite lookup_app_r in He by lia. apply list_lookup_fmap_Some in He as (ev & -> & Hin).
      pose proof (Forall_lookup_1 _ _ _ _ Hnew Hin). simpl in *. lia.
    - unfold log. rewrite drop_app_le by lia. done. }
  rewrite Hn. rewrite filter_app, filter_nothing, filter_everything.
  - destruct (drop n log0 ++ (entry_of <$> evs)) as [|e l] eqn:E.
    + right. apply app_eq_nil in E as [_ E]. apply fmap_nil_inv in E as ->. done.
    + destruct (_ <? _)%Z; [by left|right]. simpl. rewrite <-list_fmap_compose. f_equal.
      rewrite <-(list_fmap_id evs) at 2. by apply list_fmap_ext.
  - by apply Forall_fmap.
  - apply Forall_drop. eapply Forall_impl; [exact Hold|]. simpl. lia.
Qed.

(** Scan, then watch from the next revision: when the history still reaches back
    that far and the replay fits the channel, the watch either reports
    compaction and closes, or its channel holds exactly the matching events
    emitted since the scan. *)
Theorem scan_then_watch_no_gap s ops s' key byPrefix :
  reachable s → exec_all ops s = Some s' → isClosed s' = false →
  history_reaches (currentRevision s + 1) (eventHistory s') →
  length (matching key byPrefix (emitted_all ops s)) ≤ watchChannelBufferSize s' →
  ∃ id s'' ch, Watch key (mkWatchOption byPrefix (currentRevision s + 1)) s' = Some (Ok id, s'') ∧
    channels s'' !! id = Some ch ∧
    (closed ch = true ∧ buffered ch = [markerEvent EventCompacted] ∨
     closed ch = false ∧ buffered ch = matching key byPrefix (emitted_all ops s)).
Proof.
  intros Hr E Hopen Hreach Hfit. pose proof (reachable_inv s Hr) as Hs.
  destruct (reachable_logged s Hr) as [log0 Hlog0].
  destruct (exec_all_logged ops s s' log0 Hs E Hlog0) as [Hlog Hnew].
  pose proof (data_nonneg _ (inv_data _ Hs)).
  unfold Watch. rewrite Hopen. simpl. destruct (Z.ltb_spec 0 (currentRevision s + 1)); [|lia].
  destruct (eventsFromRevision_suffix (eventHistory s') log0 (emitted_all ops s) (currentRevision s + 1)) as [->| ->].
  - apply Hlog.
  - eapply Forall_impl; [apply (logged_bound _ _ Hlog0)|]. simpl. lia.
  - eapply Forall_impl; [exact Hnew|]. simpl. lia.
  - done.
  - eexists _, _, _. split; [done|]. simpl. rewrite lookup_insert_eq. auto.
  - rewrite replayHistory_exact by done. simpl.
    eexists _, _, _. split; [done|]. simpl. rewrite lookup_insert_eq. auto.
Qed.

Lemma scan_then_watch_no_gap_witness :
  ∃ id s'' ch,
    Watch "a" (mkWatchOption true 4) (default NewMemoryStore (exec_all [DoPut "a/2" "n"; DoDelete "b"] sampleStore))
      = Some (Ok id, s'') ∧
    channels s'' !! id = Some ch ∧
    (closed ch = true ∧ buffered ch = [markerEvent EventCompacted] ∨
     closed ch = false ∧
     buffered ch = matching "a" true (emitted_all [DoPut "a/2" "n"; DoDelete "b"] sampleStore)).
Proof.
  apply (scan_then_watch_no_gap sampleStore [DoPut "a/2" "n"; DoDelete "b"] _ "a" true sampleStore_reachable).
  - vm_compute. reflexivity.
  - vm_compute. reflexivity.
  - left. vm_compute. lia.
  - vm_compute. lia.
Defined.

(** The replay itself has no overflow accounting: when the replayed events do not
    fit the channel, the rest are dropped and the new watcher owes no marker, so
    its consumer cannot tell. Here a channel of capacity 1 replays one of two
    events. *)
Theorem replay_drops_silently :
  ∃ s s' ch,
    exec_all [DoPut "a/1" "x"; DoPut "a/2" "y"] (SetWatchChannelBufferSize 1 NewMemoryStore) = Some s ∧
    Watch "a" (mkWatchOption true 1) s = Some (Ok 0, s') ∧
    channels s' !! 0 = Some ch ∧
    map (λ ev, Key (EvFact ev)) (buffered ch) = ["a/1"] ∧
    map overflowDetected (activeWatchers s') = [false].
Proof. do 3 eexists. split_and!; vm_compute; reflexivity. Qed.

(** The eviction test looks only at the oldest kept revision: when part of a
    transaction was evicted, a request from its revision is answered with the
    remaining part as if it were complete. *)
Theorem partial_eviction_undetected :
  let ev k := mkEvent EventPut (mkFact k "v" 1 1 0) None in
  let h := historyBuffer.append 1 (ev "c") (historyBuffer.append 1 (ev "b")
             (historyBuffer.append 1 (ev "a") (historyBuffer.newEventHistoryBuffer 2))) in
  historyBuffer.eventsFromRevision 1 h = Some [ev "b"; ev "c"].
Proof. vm_compute. reflexivity. Qed.
