(* ===== verification/StateStore.v ===== *)
(** * What the fact store promises to its clients (src/store/store.go)

    The part of the [StateStore] interface the controllers' runner relies on, as
    a class with its laws, and the proof that the in-memory store implements it.
    The runner's theorems are proved against the class. *)

From S2P Require Import Prelude GoStrings Trie EventHistory MemoryStore StoreInvariant StoreProps.
Import MemStore.

(** Whether a comparison holds of some content: revision 0 asks that the key be
    absent. *)
Definition compare_holds (content : gmap string Fact) (c : Compare) : bool :=
  if (CmpRevision c =? 0)%Z then bool_decide (content !! CmpKey c = None)
  else match content !! CmpKey c with
       | None => false
       | Some f => (Revision f =? CmpRevision c)%Z
       end.

Class StateStore (S : Type) := {
  (** The facts the store holds, and whether it is open and consistent. *)
  content : S → gmap string Fact;
  usable : S → Prop;
  (** What other clients may do between two calls. *)
  evolves : S → S → Prop;

  store_ScanWithRevision : string → S → option (result (list Fact * Z));
  store_Transaction : list Compare → list Op → list Op → S → option (result bool * S);

  content_key s k f : usable s → content s !! k = Some f → Key f = k;
  content_revision s k f : usable s → content s !! k = Some f → (0 < Revision f)%Z;
  evolves_refl s : evolves s s;
  evolves_trans s1 s2 s3 : evolves s1 s2 → evolves s2 s3 → evolves s1 s3;
  (** A key that carries the revision it had carries the fact it had. *)
  evolves_no_aba s s' k f f' : usable s → evolves s s' → content s !! k = Some f →
    content s' !! k = Some f' → Revision f' = Revision f → f' = f;

  scan_exact s prefix : usable s →
    ∃ l rev, store_ScanWithRevision prefix s = Some (Ok (l, rev)) ∧ StronglySorted keyLess l ∧
      ∀ f, f ∈ l ↔ content s !! Key f = Some f ∧ HasPrefix (Key f) prefix = true ∧ Key f ≠ "";
  transaction_exact s compares onSuccess onFailure : usable s →
    length compares + length onSuccess + length onFailure ≤ memoryStoreTransactionOperationLimit →
    let met := forallb (compare_holds (content s)) compares in
    ∃ s', store_Transaction compares onSuccess onFailure s = Some (Ok met, s') ∧ usable s' ∧ evolves s s' ∧
      Value <$> content s' = apply_ops (if met then onSuccess else onFailure) (Value <$> content s)
}.

(** ** The in-memory store *)

Definition memory_usable (s : MemoryStore) : Prop := store_inv s ∧ isClosed s = false.
Definition memory_evolves (s s' : MemoryStore) : Prop := ∃ ops, exec_all ops s = Some s'.

Lemma memory_no_aba s s' k f f' :
  memory_usable s → memory_evolves s s' → facts s !! k = Some f → facts s' !! k = Some f' →
  Revision f' = Revision f → f' = f.
Proof.
  intros [Hs _] (ops & E) Hf Hf' Hr. destruct (exec_all_ok ops s Hs) as (s1 & E1 & _ & Hadv).
  rewrite E in E1. simplify_eq. pose proof (data_revision _ (inv_data _ Hs) _ _ Hf).
  destruct (adv_facts _ _ Hadv _ _ Hf'); [congruence|lia].
Qed.

Lemma memory_transaction s compares a b :
  memory_usable s → length compares + length a + length b ≤ memoryStoreTransactionOperationLimit →
  let met := forallb (compare_holds (facts s)) compares in
  ∃ s', Transaction compares a b s = Some (Ok met, s') ∧ memory_usable s' ∧ memory_evolves s s' ∧
    Value <$> facts s' = apply_ops (if met then a else b) (Value <$> facts s).
Proof.
  intros [Hs Hc] Hlim met. pose proof Hs as Hinv.
  destruct (Transaction_ok compares a b s Hs) as (r & s' & E & Hs' & _).
  exists s'. unfold Transaction in E. rewrite Hc in E.
  destruct (Nat.ltb_spec memoryStoreTransactionOperationLimit (length compares + length a + length b)); [lia|].
  destruct (Transaction_locked compares a b s) as [[m s1] evs] eqn:El.
  pose proof (Transaction_locked_ok _ _ _ _ _ _ _ (inv_data _ Hs) El) as Hw.
  destruct (Transaction_locked_spec _ _ _ _ _ _ _ (inv_data _ Hs) El) as (Em & Hv & _).
  destruct (write_broadcast _ _ _ Hs Hw) as (s2 & Eb & _ & _ & (Ef & _ & _ & Ec)). rewrite Eb in E. simpl in E.
  destruct (write_same_events _ _ _ Hw) as (_ & _ & _ & _ & Ecl). simplify_eq.
  assert (Hmet : evaluateTransactionPreconditions compares s = met) by done.
  split_and!.
  - unfold Transaction. rewrite Hc. destruct (Nat.ltb_spec memoryStoreTransactionOperationLimit
      (length compares + length a + length b)); [lia|]. rewrite El, Eb. simpl. by rewrite Hmet.
  - split; [done|]. congruence.
  - exists [DoTransaction compares a b]. simpl. unfold Transaction. rewrite Hc.
    destruct (Nat.ltb_spec memoryStoreTransactionOperationLimit (length compares + length a + length b)); [lia|].
    by rewrite El, Eb.
  - unfold values in Hv. rewrite Ef, Hv. by rewrite Hmet.
Qed.

#[export, refine] Instance MemoryStateStore : StateStore MemoryStore := {|
  content := facts;
  usable := memory_usable;
  evolves := memory_evolves;
  store_ScanWithRevision := ScanWithRevision;
  store_Transaction := Transaction
|}.
Proof.
  - intros s k f [Hs _]. apply (data_key _ (inv_data _ Hs)).
  - intros s k f [Hs _] Hf. pose proof (data_created _ (inv_data _ Hs) _ _ Hf). lia.
  - intros s. by exists [].
  - intros s1 s2 s3 [ops1 E1] [ops2 E2]. exists (ops1 ++ ops2). by rewrite exec_all_app, E1.
  - apply memory_no_aba.
  - intros s prefix [Hs Hc]. destruct (collectFactPointers_ok prefix s (inv_data _ Hs)) as (l & E & Hl).
    exists l, (currentRevision s). unfold ScanWithRevision. by rewrite Hc, E.
  - apply memory_transaction.
Defined.

(** ** Single reads and writes

    The rest of the interface that clients use, without watches and leases. *)

Class FactStore (S : Type) `{StateStore S} := {
  store_Get : string → S → result Fact;
  store_Scan : string → S → option (result (list Fact));
  store_Put : string → string → S → option (result Z * S);
  store_Delete : string → S → option (result unit * S);

  get_exact s key : usable s → store_Get key s = match content s !! key with Some f => Ok f | None => Err ErrKeyNotFound end;
  scan_only s prefix : usable s →
    ∃ l, store_Scan prefix s = Some (Ok l) ∧ StronglySorted keyLess l ∧
      ∀ f, f ∈ l ↔ content s !! Key f = Some f ∧ HasPrefix (Key f) prefix = true ∧ Key f ≠ "";
  put_exact s key value : usable s →
    ∃ rev s', store_Put key value s = Some (Ok rev, s') ∧ usable s' ∧ evolves s s' ∧
      (∃ f, content s' !! key = Some f ∧ Value f = value) ∧ (∀ k, k ≠ key → content s' !! k = content s !! k);
  delete_exact s key : usable s →
    match content s !! key with
    | None => store_Delete key s = Some (Err ErrKeyNotFound, s)
    | Some _ => ∃ s', store_Delete key s = Some (Ok tt, s') ∧ usable s' ∧ evolves s s' ∧ content s' = delete key (content s)
    end
}.

Lemma memory_put s key value : memory_usable s →
  ∃ rev s', Put key value s = Some (Ok rev, s') ∧ memory_usable s' ∧ memory_evolves s s' ∧
    (∃ f, facts s' !! key = Some f ∧ Value f = value) ∧ (∀ k, k ≠ key → facts s' !! k = facts s !! k).
Proof.
  intros [Hs Hc]. destruct (Put_ok key value s Hs) as (r & s' & E & Hs' & _).
  assert (Hev : memory_evolves s s') by (exists [DoPut key value]; simpl; by rewrite E).
  unfold Put in E. rewrite Hc in E. destruct (Put_locked key value s) as [[rev s1] evs] eqn:El.
  pose proof (Put_locked_ok _ _ _ _ _ _ (inv_data _ Hs) El) as Hw.
  destruct (write_broadcast _ _ _ Hs Hw) as (s2 & Eb & _ & _ & (Ef & _ & _ & Ec)). rewrite Eb in E. simplify_eq/=.
  destruct (write_same_events _ _ _ Hw) as (_ & _ & _ & _ & Ecl).
  exists rev, s'. unfold Put, memory_usable. rewrite Hc, El, Eb, Ec, Ecl, Ef. split_and!; [done..| |].
  - destruct (Put_locked_cases key value s) as [(f & Hf & Hv & Ep)|[_ Ep]]; rewrite Ep in El; simplify_eq/=; eauto.
    rewrite lookup_insert_eq. eauto.
  - intros k Hk. destruct (Put_locked_cases key value s) as [(f & Hf & Hv & Ep)|[_ Ep]]; rewrite Ep in El; simplify_eq/=; [done|].
    by rewrite lookup_insert_ne.
Qed.

Lemma memory_delete s key : memory_usable s →
  match facts s !! key with
  | None => Delete key s = Some (Err ErrKeyNotFound, s)
  | Some _ => ∃ s', Delete key s = Some (Ok tt, s') ∧ memory_usable s' ∧ memory_evolves s s' ∧ facts s' = delete key (facts s)
  end.
Proof.
  intros [Hs Hc]. destruct (Delete_ok key s Hs) as (r & s' & E & Hs' & _).
  assert (Hev : memory_evolves s s') by (exists [DoDelete key]; simpl; by rewrite E).
  unfold Delete in *. rewrite Hc in *. destruct (Delete_locked key s) as [[r' s1] evs] eqn:El.
  pose proof (Delete_locked_ok _ _ _ _ _ (inv_data _ Hs) El) as Hw.
  destruct (write_broadcast _ _ _ Hs Hw) as (s2 & Eb & _ & _ & (Ef & _ & _ & Ec)). rewrite Eb in E. simplify_eq/=.
  destruct (write_same_events _ _ _ Hw) as (_ & _ & _ & _ & Ecl). unfold memory_usable. rewrite Eb.
  unfold Delete_locked, deleteFact in El. destruct (facts s !! key) as [f|] eqn:Ek; simplify_eq/=.
  - exists s'. by rewrite Ec.
  - done.
Qed.

#[export, refine] Instance MemoryFactStore : FactStore MemoryStore := {|
  store_Get := Get; store_Scan := Scan; store_Put := Put; store_Delete := Delete
|}.
Proof.
  - intros s key [_ Hc]. unfold Get. by rewrite Hc.
  - intros s prefix [Hs Hc]. destruct (collectFactPointers_ok prefix s (inv_data _ Hs)) as (l & E & Hl).
    exists l. unfold Scan. by rewrite Hc, E.
  - apply memory_put.
  - apply memory_delete.
Defined.

(** *** Many writes *)

Section writes.
Context {S : Type} `{FactStore S}.

Definition valuesOf (s : S) : gmap string string := Value <$> content s.

(** Writing until a write fails; the key and the error of the failure. *)
Fixpoint putAll (facts : list (string * string)) (s : S) : option (option (string * StoreError) * S) :=
  match facts with
  | [] => Some (None, s)
  | (key, value) :: facts' =>
      put ← store_Put key value s;
      match put with
      | (Err putError, s') => Some (Some (key, putError), s')
      | (Ok _, s') => putAll facts' s'
      end
  end.

Definition writeAll (facts : list (string * string)) (m : gmap string string) : gmap string string :=
  foldl (λ m f, <[f.1 := f.2]> m) m facts.

Lemma putAll_exact facts : ∀ s, usable s →
  ∃ s', putAll facts s = Some (None, s') ∧ usable s' ∧ evolves s s' ∧ valuesOf s' = writeAll facts (valuesOf s) ∧
    ∀ k, k ∉ facts.*1 → content s' !! k = content s !! k.
Proof.
  induction facts as [|[key value] facts IH]; intros s Hs; simpl.
  { exists s. split_and!; try done. apply evolves_refl. }
  destruct (put_exact s key value Hs) as (rev & s1 & -> & Hs1 & He & (f1 & Ef1 & Ev1) & Hne). simpl.
  destruct (IH s1 Hs1) as (s' & -> & Hs' & He' & Ev & Hk). exists s'. split_and!; [done..|by eapply evolves_trans| |].
  - rewrite Ev. f_equal. unfold valuesOf. apply map_eq. intros k. rewrite lookup_fmap. simpl. destruct (decide (k = key)) as [->|Hkf].
    + by rewrite Ef1, lookup_insert_eq, <- Ev1.
    + by rewrite lookup_insert_ne, Hne, lookup_fmap.
  - intros k Hkf. rewrite not_elem_of_cons in Hkf. rewrite Hk, Hne; tauto.
Qed.

End writes.
