(* ===== verification/PrefixSearch.v ===== *)
(** * Prefix ranges of sorted fact slices (src/store/prefix_search.go)

    [sort.Search] is the binary search of Go's standard library; [SortFacts]
    leaves the order of equal keys to the runtime. *)

From S2P Require Import Prelude GoStrings EventHistory.

(** The loop of [sort.Search]: invariant [f (i-1) = false], [f j = true]. The
    fuel bounds the halvings; [n] is enough. *)
Fixpoint search_loop (fuel : nat) (f : nat → bool) (i j : nat) : nat :=
  match fuel with
  | 0 => i
  | S fuel' =>
      if i <? j
      then let h := (i + j) / 2 in
           if f h then search_loop fuel' f i h else search_loop fuel' f (h + 1) j
      else i
  end.

Definition sort_Search (n : nat) (f : nat → bool) : nat := search_loop n f 0 n.

Definition keyLessb (f g : Fact) : bool := str_ltb (Key f) (Key g).

Definition SortFacts `{GoSort} (facts : list Fact) : list Fact := sort_slice keyLessb facts.

(** The loop that advances [endIndex] while the key has the prefix. *)
Fixpoint extendPrefixRange (prefix : string) (rest : list Fact) (endIndex : nat) : nat :=
  match rest with
  | f :: rest' => if HasPrefix (Key f) prefix then extendPrefixRange prefix rest' (S endIndex) else endIndex
  | [] => endIndex
  end.

Definition FindPrefixRange (facts : list Fact) (prefix : string) : nat * nat :=
  if bool_decide (facts = []) || bool_decide (prefix = "") then (0, 0)
  else
    let startIndex := sort_Search (length facts)
      (λ index, match facts !! index with Some f => negb (str_ltb (Key f) prefix) | None => false end) in
    match facts !! startIndex with
    | None => (0, 0)
    | Some f =>
        if HasPrefix (Key f) prefix
        then (startIndex, extendPrefixRange prefix (drop startIndex facts) startIndex)
        else (0, 0)
    end.

Definition FactsWithPrefix (facts : list Fact) (prefix : string) : list Fact :=
  let '(startIndex, endIndex) := FindPrefixRange facts prefix in
  if startIndex =? endIndex then [] else take (endIndex - startIndex) (drop startIndex facts).

(** ** Binary search *)

Lemma search_loop_spec fuel f i j n :
  i ≤ j ≤ n → j - i ≤ fuel →
  (∀ a b, a ≤ b < n → f a = true → f b = true) →
  (∀ a, a < i → f a = false) → (∀ a, j ≤ a < n → f a = true) →
  let r := search_loop fuel f i j in
  r ≤ n ∧ (∀ a, a < r → f a = false) ∧ (∀ a, r ≤ a < n → f a = true).
Proof.
  revert i j. induction fuel as [|fuel IH]; intros i j Hij Hfuel Hmono Hlo Hhi; cbn [search_loop]; cbv zeta.
  { split_and!; [lia|done|]. intros a Ha. apply Hhi. lia. }
  destruct (Nat.ltb_spec i j); [|split_and!; [lia|done|intros a Ha; apply Hhi; lia]].
  pose proof (Nat.div_mod_eq (i + j) 2). pose proof (Nat.mod_upper_bound (i + j) 2).
  set (h := (i + j) / 2) in *. assert (i ≤ h < j) by lia.
  destruct (f h) eqn:Eh.
  - apply IH; [lia|lia|done|done|]. intros a Ha. apply (Hmono h a); [lia|done].
  - apply IH; [lia|lia|done| |done]. intros a Ha.
    destruct (f a) eqn:Ea; [|done]. rewrite (Hmono a h) in Eh; [done|lia|done].
Qed.

Lemma sort_Search_spec n f :
  (∀ a b, a ≤ b < n → f a = true → f b = true) →
  sort_Search n f ≤ n ∧ (∀ a, a < sort_Search n f → f a = false) ∧
  (∀ a, sort_Search n f ≤ a < n → f a = true).
Proof. intros Hmono. apply (search_loop_spec n f 0 n n); [lia|lia|done|lia|lia]. Qed.

#[export] Instance keyLessb_swo : StrictWeakOrder keyLessb.
Proof. split; unfold keyLessb; eauto with go typeclass_instances. Qed.

Lemma HasPrefix_not_ltb k p : HasPrefix k p = true → str_ltb k p = false.
Proof.
  revert k. induction p as [|c p IH]; intros k Hk; [by destruct k|].
  apply HasPrefix_cons in Hk as (k' & -> & Hk). rewrite str_ltb_cons, ascii_compare_refl. auto.
Qed.

(** Past the first key at or above the prefix, the keys with the prefix come
    first. *)
Lemma extend_is_filter prefix l i :
  sorted_by keyLessb l → Forall (λ f, str_ltb (Key f) prefix = false) l →
  take (extendPrefixRange prefix l i - i) l = filter (λ f, HasPrefix (Key f) prefix = true) l ∧
  i ≤ extendPrefixRange prefix l i.
Proof.
  revert i. induction l as [|f l IH]; intros i Hs Hge; simpl; [by rewrite Nat.sub_diag|].
  apply StronglySorted_cons in Hs as [Hf Hs]. apply Forall_cons in Hge as [Hgef Hge].
  destruct (HasPrefix (Key f) prefix) eqn:E.
  - destruct (IH (S i) Hs Hge) as [IH1 IH2]. split; [|lia].
    rewrite filter_cons_True by done. rewrite <-IH1.
    replace (extendPrefixRange prefix l (S i) - i) with (S (extendPrefixRange prefix l (S i) - S i)) by lia.
    done.
  - split; [|lia]. rewrite Nat.sub_diag. simpl. rewrite filter_cons_False by (by rewrite E).
    symmetry. apply filter_nothing, Forall_forall. intros g Hg Hp.
    rewrite Forall_forall in Hf. specialize (Hf g Hg). unfold keyLessb in Hf.
    by rewrite (HasPrefix_convex prefix (Key f) (Key g)) in E.
Qed.

(** ** Claims *)

Lemma sorted_by_drop {A} (less : A → A → bool) n l : sorted_by less l → sorted_by less (drop n l).
Proof.
  unfold sorted_by. revert l. induction n as [|n IH]; intros [|x l] Hl; try done.
  apply StronglySorted_cons in Hl as [_ Hl]. simpl. auto.
Qed.

Lemma sorted_by_lookup {A} (less : A → A → bool) `{!StrictWeakOrder less} l i j x y :
  sorted_by less l → i ≤ j → l !! i = Some x → l !! j = Some y → less y x = false.
Proof.
  intros Hl. revert i j. induction Hl as [|z l Hl IH Hz]; intros [|i] [|j] Hij Hx Hy; simplify_eq/=;
    [apply swo_irrefl| |lia|apply (IH i j); [lia|done|done]].
  rewrite Forall_forall in Hz. apply Hz. by eapply list_elem_of_lookup_2.
Qed.

Lemma FactsWithPrefix_filter facts prefix :
  sorted_by keyLessb facts → prefix ≠ "" →
  FactsWithPrefix facts prefix = filter (λ f, HasPrefix (Key f) prefix = true) facts.
Proof.
  intros Hs Hp. unfold FactsWithPrefix, FindPrefixRange.
  destruct (decide (facts = [])) as [->|Hne]; [done|].
  rewrite !bool_decide_eq_false_2 by done. simpl.
  set (g := λ index, match facts !! index with Some f => negb (str_ltb (Key f) prefix) | None => false end).
  assert (Hmono : ∀ a b, a ≤ b < length facts → g a = true → g b = true).
  { unfold g. intros a b Hab. destruct (lookup_lt_is_Some_2 facts b) as [y Hy]; [lia|].
    destruct (lookup_lt_is_Some_2 facts a) as [x Hx]; [lia|]. rewrite Hx, Hy, !negb_true_iff.
    intros Hge. refine (swo_incomp _ _ _ _ Hge). by apply (sorted_by_lookup keyLessb facts a b); [|lia|..]. }
  destruct (sort_Search_spec (length facts) g Hmono) as (Hle & Hlo & Hhi).
  set (st := sort_Search (length facts) g) in *.
  assert (Hlow : filter (λ f, HasPrefix (Key f) prefix = true) (take st facts) = []).
  { apply filter_nothing, Forall_forall. intros f (i & Hi & Hlt)%elem_of_take Hpre.
    specialize (Hlo i Hlt). unfold g in Hlo. rewrite Hi in Hlo.
    by rewrite (HasPrefix_not_ltb _ _ Hpre) in Hlo. }
  assert (Hhigh : Forall (λ f, str_ltb (Key f) prefix = false) (drop st facts)).
  { apply Forall_lookup. intros i f Hi. rewrite lookup_drop in Hi.
    pose proof (lookup_lt_Some _ _ _ Hi). specialize (Hhi (st + i) ltac:(lia)). unfold g in Hhi.
    rewrite Hi in Hhi. by apply negb_true_iff in Hhi. }
  etrans; [|by rewrite <-(take_drop st facts) at 1]. rewrite filter_app, Hlow. simpl.
  destruct (extend_is_filter prefix (drop st facts) st (sorted_by_drop _ st _ Hs) Hhigh) as [Hext Hge].
  rewrite <-Hext. destruct (facts !! st) as [f|] eqn:Ef.
  - destruct (drop st facts) as [|f' l] eqn:Ed.
    { assert (drop st facts !! 0 = None) as Hd by (by rewrite Ed).
      rewrite lookup_drop, Nat.add_0_r in Hd. congruence. }
    assert (f' = f) as ->.
    { assert (drop st facts !! 0 = Some f') as Hd by (by rewrite Ed).
      rewrite lookup_drop, Nat.add_0_r in Hd. congruence. }
    simpl. simpl in Hge. destruct (HasPrefix (Key f) prefix) eqn:E; simpl.
    + destruct (Nat.eqb_spec st (extendPrefixRange prefix l (S st))) as [Eq|]; [|by rewrite Ed].
      rewrite <-Eq. by rewrite Nat.sub_diag.
    + by rewrite Nat.sub_diag.
  - apply lookup_ge_None in Ef. rewrite (drop_ge facts st Ef). by rewrite take_nil.
Qed.

(** On a slice sorted by key and for a non-empty prefix, the binary search
    finds exactly the facts whose key has the prefix. *)
Theorem FactsWithPrefix_is_filter facts prefix :
  sorted_by keyLessb facts → prefix ≠ "" →
  FactsWithPrefix facts prefix = filter (λ f, HasPrefix (Key f) prefix = true) facts.
Proof. apply FactsWithPrefix_filter. Qed.

Lemma FactsWithPrefix_is_filter_witness :
  let f k := mkFact k "v" 1 1 0 in
  FactsWithPrefix [f "a"; f "b/1"; f "b/2"; f "c"] "b/" = [f "b/1"; f "b/2"].
Proof.
  simpl. rewrite (FactsWithPrefix_is_filter
    [mkFact "a" "v" 1 1 0; mkFact "b/1" "v" 1 1 0; mkFact "b/2" "v" 1 1 0; mkFact "c" "v" 1 1 0] "b/").
  - vm_compute. reflexivity.
  - repeat constructor.
  - discriminate.
Defined.

(** The empty prefix, which every key has, is answered with no facts. *)
Theorem FactsWithPrefix_empty_prefix facts : FactsWithPrefix facts "" = [].
Proof. unfold FactsWithPrefix, FindPrefixRange. by rewrite orb_true_r. Qed.
