(* ===== verification/Heap.v ===== *)
(** * Go's [container/heap]

    [heap.Interface] is the type class [HeapInterface]: the methods [Len],
    [Less] and [Swap] over some state, and what they promise. [Less] and [Swap]
    panic (return [None]) on an index outside the heap. The algorithms [down],
    [up], [Init], [Fix] and the part of [Remove] before [Pop] are written
    against the class, and so are their theorems. *)

From S2P Require Import Prelude.

Class HeapInterface (S P : Type) := {
  slots : S → list P;
  lessP : S → P → P → bool;
  Less : nat → nat → S → option bool;
  Swap : nat → nat → S → option S;
  lessP_swo s :: StrictWeakOrder (lessP s);
  Less_spec s i j p q :
    slots s !! i = Some p → slots s !! j = Some q → Less i j s = Some (lessP s p q);
  Swap_spec s i j p q :
    slots s !! i = Some p → slots s !! j = Some q →
    ∃ s', Swap i j s = Some s' ∧ slots s' = <[j := p]> (<[i := q]> (slots s)) ∧
          ∀ x y, lessP s' x y = lessP s x y
}.

Section heap.
Context {S P : Type} `{HeapInterface S P}.

Definition Len (s : S) : nat := length (slots s).

(** The child of [i] that [down] compares with: the smaller one. *)
Definition smallerChild (i n : nat) (s : S) : option nat :=
  let j1 := 2 * i + 1 in
  let j2 := j1 + 1 in
  if j2 <? n
  then b ← Less j2 j1 s; Some (if (b : bool) then j2 else j1)
  else Some j1.

(** [down(h, i0, n)] returns the heap and whether the element moved. The index
    at least doubles at every step, so [n] steps are enough. *)
Fixpoint down_loop (fuel : nat) (i n : nat) (s : S) : option (S * nat) :=
  match fuel with
  | 0 => Some (s, i)
  | Datatypes.S fuel' =>
      if n <=? 2 * i + 1 then Some (s, i)
      else
        j ← smallerChild i n s;
        b ← Less j i s;
        if (b : bool) then s' ← Swap i j s; down_loop fuel' j n s' else Some (s, i)
  end.

Definition down (i0 n : nat) (s : S) : option (S * bool) :=
  r ← down_loop n i0 n s;
  Some (fst r, i0 <? snd r).

(** [up(h, j)]: the index strictly decreases. *)
Fixpoint up_loop (fuel : nat) (j : nat) (s : S) : option S :=
  match fuel with
  | 0 => Some s
  | Datatypes.S fuel' =>
      let i := (j - 1) / 2 in
      if i =? j then Some s
      else
        b ← Less j i s;
        if (b : bool) then s' ← Swap i j s; up_loop fuel' i s' else Some s
  end.

Definition up (j : nat) (s : S) : option S := up_loop (j + 1) j s.

(** [heap.Init]: [down] from the last parent to the root. *)
Fixpoint init_loop (i : nat) (n : nat) (s : S) : option S :=
  match i with
  | 0 => Some s
  | Datatypes.S i' => r ← down i' n s; init_loop i' n (fst r)
  end.

Definition Init (s : S) : option S := init_loop (Len s / 2) (Len s) s.

(** [heap.Fix] *)
Definition Fix (i : nat) (s : S) : option S :=
  r ← down i (Len s) s;
  if (snd r : bool) then Some (fst r) else up i (fst r).

(** [heap.Remove] up to its final [Pop]: the element to remove is moved to the
    last slot. *)
Definition RemoveToEnd (i : nat) (s : S) : option S :=
  let n := Len s - 1 in
  if n =? i then Some s
  else
    s1 ← Swap i n s;
    r ← down i n s1;
    if (snd r : bool) then Some (fst r) else up i (fst r).

(** ** Heap order *)

Definition parent (j : nat) : nat := (j - 1) / 2.

(** No element of the first [n] slots precedes its parent, for parents from
    [lo] on, [hole] excepted. *)
Definition heap_from (lo n : nat) (hole : option nat) (s : S) : Prop :=
  ∀ j p q, 0 < j < n → lo ≤ parent j → hole ≠ Some (parent j) →
    slots s !! j = Some p → slots s !! parent j = Some q → lessP s p q = false.

(** The slots changed by permuting the first [n]. *)
Record shuffled (n : nat) (s s' : S) : Prop := {
  shuffled_perm : take n (slots s') ≡ₚ take n (slots s);
  shuffled_rest i : n ≤ i → slots s' !! i = slots s !! i;
  shuffled_length : length (slots s') = length (slots s);
  shuffled_less x y : lessP s' x y = lessP s x y
}.

#[export] Instance shuffled_refl n : Reflexive (shuffled n).
Proof. by split. Qed.

#[export] Instance shuffled_trans n : Transitive (shuffled n).
Proof.
  intros s1 s2 s3 [A1 A2 A3 A4] [B1 B2 B3 B4]. split; [by rewrite B1| |congruence|congruence].
  intros i Hi. rewrite B2 by done. auto.
Qed.

Lemma parent_child j i : 0 < j → parent j = i ↔ j = 2 * i + 1 ∨ j = 2 * i + 2.
Proof.
  unfold parent. intros Hj. pose proof (Nat.div_mod_eq (j - 1) 2).
  pose proof (Nat.mod_upper_bound (j - 1) 2). split; intros; lia.
Qed.

Lemma parent_lt j : 0 < j → parent j < j.
Proof. intros. unfold parent. pose proof (Nat.div_mod_eq (j - 1) 2). lia. Qed.

Lemma swap_perm (l : list P) i j p q :
  l !! i = Some p → l !! j = Some q → <[j := p]> (<[i := q]> l) ≡ₚ l.
Proof.
  intros Hi Hj. destruct (decide (i = j)) as [->|Hne].
  { simplify_eq. rewrite list_insert_insert_eq, list_insert_id by done. done. }
  apply (Permutation_inj _ _). split; [by rewrite !length_insert|].
  exists (λ k, if decide (k = i) then j else if decide (k = j) then i else k). split.
  - intros x y. repeat case_decide; lia.
  - intros k. pose proof (lookup_lt_Some _ _ _ Hi). pose proof (lookup_lt_Some _ _ _ Hj).
    destruct (decide (k = j)) as [->|].
    + rewrite list_lookup_insert_eq by (by rewrite length_insert). rewrite decide_False by done. congruence.
    + rewrite list_lookup_insert_ne by done. destruct (decide (k = i)) as [->|].
      * rewrite list_lookup_insert_eq by done. congruence.
      * by rewrite list_lookup_insert_ne.
Qed.

Lemma Swap_shuffled s i j n p q :
  i < n → j < n → slots s !! i = Some p → slots s !! j = Some q →
  ∃ s', Swap i j s = Some s' ∧ slots s' = <[j := p]> (<[i := q]> (slots s)) ∧ shuffled n s s'.
Proof.
  intros Hin Hjn Hi Hj. destruct (Swap_spec s i j p q Hi Hj) as (s' & E & Hs & Hl).
  exists s'. split_and!; [done|done|]. split; [| |by rewrite Hs, !length_insert|done].
  - rewrite Hs, !take_insert_lt by done. apply swap_perm; by rewrite lookup_take_lt.
  - intros k Hk. rewrite Hs, !list_lookup_insert_ne by lia. done.
Qed.

Lemma smallerChild_spec i n s :
  n ≤ Len s → 2 * i + 1 < n →
  ∃ j q, smallerChild i n s = Some j ∧ parent j = i ∧ i < j < n ∧ slots s !! j = Some q ∧
    ∀ k p, parent k = i → 0 < k < n → slots s !! k = Some p → lessP s p q = false.
Proof.
  intros Hn Hi. unfold smallerChild, Len in *.
  destruct (lookup_lt_is_Some_2 (slots s) (2 * i + 1)) as [p1 H1]; [lia|].
  pose proof (parent_child (2 * i + 1) i ltac:(lia)) as P1.
  pose proof (parent_child (2 * i + 1 + 1) i ltac:(lia)) as P2.
  destruct (Nat.ltb_spec (2 * i + 1 + 1) n).
  - destruct (lookup_lt_is_Some_2 (slots s) (2 * i + 1 + 1)) as [p2 H2]; [lia|].
    rewrite (Less_spec _ _ _ _ _ H2 H1). simpl. destruct (lessP s p2 p1) eqn:E.
    + exists (2 * i + 1 + 1), p2. split_and!; [done|apply P2; lia|lia|lia|done|].
      intros k p Hk Hkn Hp. destruct (proj1 (parent_child k i ltac:(lia)) Hk) as [->| ->]; simplify_eq; try lia.
      * simplify_eq. by apply (swo_asym _).
      * replace (2 * i + 2) with (2 * i + 1 + 1) in Hp by lia. simplify_eq. apply swo_irrefl.
    + exists (2 * i + 1), p1. split_and!; [done|apply P1; lia|lia|lia|done|].
      intros k p Hk Hkn Hp. destruct (proj1 (parent_child k i ltac:(lia)) Hk) as [->| ->]; simplify_eq; try lia.
      * simplify_eq. apply swo_irrefl.
      * replace (2 * i + 2) with (2 * i + 1 + 1) in Hp by lia. by simplify_eq.
  - exists (2 * i + 1), p1. split_and!; [done|apply P1; lia|lia|lia|done|].
    intros k p Hk Hkn Hp. destruct (proj1 (parent_child k i ltac:(lia)) Hk) as [->| ->]; simplify_eq; try lia.
    simplify_eq. apply swo_irrefl.
Qed.

(** The children of the hole do not precede the hole's parent. *)
Definition hole_ok (lo n i : nat) (s : S) : Prop :=
  ∀ j p q, 0 < i → lo ≤ parent i → parent j = i → 0 < j < n →
    slots s !! j = Some p → slots s !! parent i = Some q → lessP s p q = false.

(** One step of [down]: swapping the hole with its smaller child moves it
    there. *)
Lemma down_step lo n i j s s' p q :
  n ≤ Len s → lo ≤ i → i < j < n → parent j = i →
  slots s !! i = Some p → slots s !! j = Some q → lessP s q p = true →
  (∀ k x, parent k = i → 0 < k < n → slots s !! k = Some x → lessP s x q = false) →
  slots s' = <[j := p]> (<[i := q]> (slots s)) → (∀ x y, lessP s' x y = lessP s x y) →
  heap_from lo n (Some i) s → hole_ok lo n i s →
  heap_from lo n (Some j) s' ∧ hole_ok lo n j s'.
Proof.
  intros Hn Hlo Hij Hpj Hi Hj Hlt Hmin Hs Hl Hheap Hhole. unfold Len in Hn.
  assert (Hget : ∀ k, slots s' !! k = if decide (k = j) then Some p else if decide (k = i) then Some q else slots s !! k).
  { intros k. rewrite Hs. repeat case_decide; subst.
    - apply list_lookup_insert_eq. rewrite length_insert. lia.
    - rewrite list_lookup_insert_ne by lia. apply list_lookup_insert_eq. lia.
    - by rewrite !list_lookup_insert_ne by lia. }
  split.
  - intros k x y Hk Hlok Hhk Hx Hy. rewrite Hget in Hx, Hy. rewrite Hl.
    pose proof (parent_lt k ltac:(lia)).
    destruct (decide (parent k = j)); [congruence|].
    destruct (decide (k = j)) as [->|Hkj].
    { simplify_eq. rewrite decide_True in Hy by done. simplify_eq. by apply (swo_asym _). }
    destruct (decide (k = i)) as [->|Hki].
    { rewrite decide_False in Hy by lia. simplify_eq. apply (Hhole j x y); [lia|done|done|lia|done|done]. }
    destruct (decide (parent k = i)) as [Hpk|Hpk].
    { simplify_eq. by apply (Hmin k x). }
    apply (Hheap k x y); [done|done| |done|done]. congruence.
  - intros k x y _ Hlop Hpk Hk Hx Hy. rewrite Hget in Hx, Hy. rewrite Hl.
    pose proof (parent_lt k ltac:(lia)).
    rewrite (decide_False (P := k = j)), (decide_False (P := k = i)) in Hx by lia.
    rewrite Hpj, decide_False, decide_True in Hy by lia. simplify_eq.
    apply (Hheap k x y); [done|lia| |done|congruence]. intros [= Hc]. lia.
Qed.

Lemma down_loop_spec lo fuel i n s :
  n ≤ Len s → i < n → n - i ≤ fuel → lo ≤ i →
  ∃ s' k, down_loop fuel i n s = Some (s', k) ∧ shuffled n s s' ∧ i ≤ k ∧ (k = i → s' = s) ∧
    (heap_from lo n (Some i) s → hole_ok lo n i s → heap_from lo n None s').
Proof.
  revert i s. induction fuel as [|fuel IH]; intros i s Hn Hi Hf Hlo; [lia|].
  cbn [down_loop]. destruct (Nat.leb_spec n (2 * i + 1)) as [Hle|Hgt].
  { exists s, i. split_and!; [done|done|done|done|]. intros Hh _ j p q Hj Hloj _.
    apply (Hh j p q); [done|done|]. intros [= E]. symmetry in E.
    apply parent_child in E; lia. }
  destruct (smallerChild_spec i n s Hn ltac:(lia)) as (j & q & -> & Hpj & Hij & Hj & Hmin). simpl.
  destruct (lookup_lt_is_Some_2 (slots s) i) as [p Hp]; [unfold Len in Hn; lia|].
  rewrite (Less_spec _ _ _ _ _ Hj Hp). simpl. destruct (lessP s q p) eqn:Hlt.
  - destruct (Swap_shuffled s i j n p q ltac:(lia) ltac:(lia) Hp Hj) as (s1 & -> & Hs1 & Hsh). simpl.
    destruct (IH j s1) as (s2 & k & -> & Hsh2 & Hk & _ & Hh2); [|lia|lia|lia|].
    { unfold Len in *. by rewrite (shuffled_length _ _ _ Hsh). }
    exists s2, k. split_and!; [done|by etrans|lia|lia|]. intros Hheap Hhole.
    destruct (down_step lo n i j s s1 p q) as [H1 H2]; auto.
    apply (shuffled_less _ _ _ Hsh).
  - exists s, i. split_and!; [done|done|done|done|]. intros Hh _ k x y Hk Hlok _ Hx Hy.
    destruct (decide (parent k = i)) as [E|Hne]; [|apply (Hh k x y); [done|done|congruence|done|done]].
    rewrite E in Hy. simplify_eq. eapply (swo_incomp x q p); [by apply (Hmin k)|done].
Qed.

Lemma down_spec lo i n s :
  n ≤ Len s → i < n → lo ≤ i →
  ∃ s' moved, down i n s = Some (s', moved) ∧ shuffled n s s' ∧ (moved = false → s' = s) ∧
    (heap_from lo n (Some i) s → hole_ok lo n i s → heap_from lo n None s').
Proof.
  intros Hn Hi Hlo. unfold down.
  destruct (down_loop_spec lo n i n s Hn Hi ltac:(lia) Hlo) as (s' & k & -> & Hsh & Hk & Heq & Hh).
  simpl. exists s', (i <? k). split_and!; [done|done| |done].
  intros Hm. boolprop. apply Heq. lia.
Qed.

Lemma up_loop_spec fuel j n s :
  n ≤ Len s → j < n → ∃ s', up_loop fuel j s = Some s' ∧ shuffled n s s'.
Proof.
  revert j s. induction fuel as [|fuel IH]; intros j s Hn Hj; cbn [up_loop]; [by exists s|].
  cbv zeta. fold (parent j). destruct (Nat.eqb_spec (parent j) j) as [|Hne]; [by exists s|].
  assert (parent j < j) by (destruct j; [done|apply parent_lt; lia]). unfold Len in Hn.
  destruct (lookup_lt_is_Some_2 (slots s) j) as [p Hp]; [lia|].
  destruct (lookup_lt_is_Some_2 (slots s) (parent j)) as [q Hq]; [lia|].
  rewrite (Less_spec _ _ _ _ _ Hp Hq). simpl. destruct (lessP s p q); [|by exists s].
  destruct (Swap_shuffled s (parent j) j n q p ltac:(lia) Hj Hq Hp) as (s1 & -> & _ & Hsh). simpl.
  destruct (IH (parent j) s1) as (s2 & -> & Hsh2); [|lia|].
  { unfold Len. by rewrite (shuffled_length _ _ _ Hsh). }
  exists s2. split; [done|by etrans].
Qed.

(** From the root there is nothing to move up. *)
Lemma up_root s : up 0 s = Some s.
Proof. reflexivity. Qed.

Lemma init_loop_spec i n s :
  n ≤ Len s → 2 * i ≤ n → heap_from i n None s →
  ∃ s', init_loop i n s = Some s' ∧ shuffled n s s' ∧ heap_from 0 n None s'.
Proof.
  revert s. induction i as [|i IH]; intros s Hn Hi Hheap; simpl; [by exists s|].
  destruct (down_spec i i n s Hn ltac:(lia) ltac:(lia)) as (s1 & m & -> & Hsh & _ & Hh). simpl.
  destruct (IH s1) as (s2 & -> & Hsh2 & Hh2); [|lia| |].
  { unfold Len in *. by rewrite (shuffled_length _ _ _ Hsh). }
  { apply Hh.
    - intros j p q Hj Hlo Hhole. apply Hheap; [done| |done]. assert (parent j ≠ i) by congruence. lia.
    - intros j p q Hi0 Hlo. pose proof (parent_lt i Hi0). lia. }
  exists s2. split_and!; [done|by etrans|done].
Qed.

(** [Init] makes a heap of any slots. *)
Lemma Init_spec s :
  ∃ s', Init s = Some s' ∧ shuffled (Len s) s s' ∧ heap_from 0 (Len s) None s'.
Proof.
  apply init_loop_spec; [done| |].
  - apply Nat.Div0.mul_div_le.
  - intros j p q Hj Hlo _ _ _. exfalso. unfold parent in Hlo.
    pose proof (Nat.div_mod_eq (j - 1) 2). pose proof (Nat.div_mod_eq (Len s) 2).
    pose proof (Nat.mod_upper_bound (Len s) 2). pose proof (Nat.mod_upper_bound (j - 1) 2). lia.
Qed.

Lemma shuffled_all_perm n s s' : shuffled n s s' → slots s' ≡ₚ slots s.
Proof.
  intros [H1 H2 H3 _]. rewrite <-(take_drop n (slots s')), <-(take_drop n (slots s)), H1.
  apply Permutation_app_head. replace (drop n (slots s')) with (drop n (slots s)); [done|].
  apply list_eq. intros i. rewrite !lookup_drop. symmetry. apply H2. lia.
Qed.

(** Every edge is in order but the one above [j]. *)
Definition heap_above (n j : nat) (s : S) : Prop :=
  ∀ k p q, 0 < k < n → k ≠ j → slots s !! k = Some p → slots s !! parent k = Some q →
    lessP s p q = false.

Lemma up_step n j s s' p q :
  n ≤ Len s → 0 < j < n → slots s !! j = Some p → slots s !! parent j = Some q → lessP s p q = true →
  slots s' = <[j := q]> (<[parent j := p]> (slots s)) → (∀ x y, lessP s' x y = lessP s x y) →
  heap_above n j s → hole_ok 0 n j s → heap_above n (parent j) s' ∧ hole_ok 0 n (parent j) s'.
Proof.
  intros Hn Hj Hp Hq Hlt Hs Hl Habove Hhole. unfold Len in Hn. pose proof (parent_lt j ltac:(lia)) as Hpj.
  assert (Hget : ∀ k, slots s' !! k =
            if decide (k = j) then Some q else if decide (k = parent j) then Some p else slots s !! k).
  { intros k. rewrite Hs. repeat case_decide; subst.
    - apply list_lookup_insert_eq. rewrite length_insert. lia.
    - rewrite list_lookup_insert_ne by lia. apply list_lookup_insert_eq. lia.
    - by rewrite !list_lookup_insert_ne by lia. }
  assert (Hsib : ∀ k x, 0 < k < n → k ≠ j → parent k = parent j → slots s !! k = Some x → lessP s x q = false).
  { intros k x Hk Hne E Hx. apply (Habove k x q); [done|done|done|]. by rewrite E. }
  split.
  - intros k x y Hk Hne Hx Hy. rewrite Hget in Hx, Hy. rewrite Hl. pose proof (parent_lt k ltac:(lia)).
    destruct (decide (k = j)) as [->|Hkj].
    { rewrite decide_False, decide_True in Hy by lia. simplify_eq. by apply (swo_asym _). }
    rewrite decide_False in Hx by done.
    destruct (decide (parent k = j)) as [E|Hpk].
    { simplify_eq. apply (Hhole k x y); [lia|lia|done|lia|done|done]. }
    destruct (decide (parent k = parent j)) as [E|Hpp]; [|by apply (Habove k x y)].
    simplify_eq. pose proof (Hsib k x Hk Hkj E Hx) as Hxq.
    destruct (lessP s x y) eqn:Exy; [|done]. by rewrite (swo_trans _ _ _ Exy Hlt) in Hxq.
  - intros k x y Hpos _ Epk Hk Hx Hy. rewrite Hget in Hx, Hy. rewrite Hl.
    pose proof (parent_lt (parent j) Hpos) as Hpp.
    rewrite !decide_False in Hy by lia.
    assert (Hqy : lessP s q y = false) by (apply (Habove (parent j) q y); [lia|lia|done|done]).
    destruct (decide (k = j)) as [->|Hkj]; [by simplify_eq|].
    pose proof (parent_lt k ltac:(lia)). rewrite decide_False in Hx by lia.
    exact (swo_incomp _ _ _ (Hsib k x Hk Hkj Epk Hx) Hqy).
Qed.

Lemma up_loop_heap fuel j n s s' :
  n ≤ Len s → j < n → j < fuel → heap_above n j s → hole_ok 0 n j s →
  up_loop fuel j s = Some s' → heap_from 0 n None s'.
Proof.
  revert j s. induction fuel as [|fuel IH]; intros j s Hn Hj Hf Habove Hhole; [lia|].
  cbn [up_loop]. cbv zeta. fold (parent j). destruct (Nat.eqb_spec (parent j) j) as [E|Hne].
  { intros [= <-] k p q Hk _ _. apply Habove; [done|]. intros ->. pose proof (parent_lt j ltac:(lia)). lia. }
  assert (0 < j) by (destruct j; [done|lia]). pose proof (parent_lt j ltac:(lia)). unfold Len in Hn.
  destruct (lookup_lt_is_Some_2 (slots s) j) as [p Hp]; [lia|].
  destruct (lookup_lt_is_Some_2 (slots s) (parent j)) as [q Hq]; [lia|].
  rewrite (Less_spec _ _ _ _ _ Hp Hq). simpl. destruct (lessP s p q) eqn:Hlt.
  - destruct (Swap_spec s (parent j) j q p Hq Hp) as (s1 & -> & Hs1 & Hl1). simpl.
    destruct (up_step n j s s1 p q) as [Ha1 Hh1]; [done|lia|done..|].
    apply IH; [|lia|lia|done|done]. unfold Len. by rewrite Hs1, !length_insert.
  - intros [= <-] k x y Hk _ _ Hx Hy. destruct (decide (k = j)) as [->|]; [by simplify_eq|by apply (Habove k)].
Qed.

(** [down] does not move an element that already precedes its children. *)
Lemma down_stays i n s x :
  n ≤ Len s → i < n → slots s !! i = Some x →
  (∀ k p, parent k = i → 0 < k < n → slots s !! k = Some p → lessP s p x = false) →
  down i n s = Some (s, false).
Proof.
  intros Hn Hi Hx Hc. unfold down. destruct n as [|n]; [lia|]. cbn [down_loop].
  destruct (Nat.leb_spec (Datatypes.S n) (2 * i + 1)) as [|Hgt]; [simpl; by rewrite Nat.ltb_irrefl|].
  destruct (smallerChild_spec i (Datatypes.S n) s Hn Hgt) as (j & q & -> & Hpj & Hij & Hj & _). simpl.
  rewrite (Less_spec _ _ _ _ _ Hj Hx). simpl. rewrite (Hc j q Hpj ltac:(lia) Hj). simpl.
  by rewrite Nat.ltb_irrefl.
Qed.

(** A heap in which only slot [i] may be out of place. *)
Definition heap_but (i n : nat) (s : S) : Prop :=
  (∀ j p q, 0 < j < n → j ≠ i → parent j ≠ i → slots s !! j = Some p → slots s !! parent j = Some q →
     lessP s p q = false) ∧
  hole_ok 0 n i s.

Lemma heap_heap_but i n s : n ≤ Len s → i < n → heap_from 0 n None s → heap_but i n s.
Proof.
  intros Hn Hi Hh. unfold Len in Hn. split; [intros j p q Hj _ _; apply (Hh j); [done|lia|done]|].
  intros j p q Hpos _ Hpj Hj Hp Hq. destruct (lookup_lt_is_Some_2 (slots s) i) as [x Hx]; [lia|].
  apply (swo_incomp p x q).
  - apply (Hh j p x); [done|lia|done|done|by rewrite Hpj].
  - apply (Hh i x q); [lia|lia|done|done|done].
Qed.

(** [down] then, if nothing moved, [up] repairs such a heap. *)
Lemma down_up_heap i n s s1 m s2 :
  n ≤ Len s → i < n → heap_but i n s → down i n s = Some (s1, m) → (if m then Some s1 else up i s1) = Some s2 →
  heap_from 0 n None s2.
Proof.
  intros Hn Hi [Hedges Hhole] Hd Hu. unfold Len in Hn.
  destruct (lookup_lt_is_Some_2 (slots s) i) as [x Hx]; [lia|].
  assert ((∃ y, 0 < i ∧ slots s !! parent i = Some y ∧ lessP s x y = true) ∨
          (∀ y, 0 < i → slots s !! parent i = Some y → lessP s x y = false)) as [(y & Hpos & Hy & Hlt)|Hno].
  { destruct (decide (0 < i)), (slots s !! parent i) as [y|]; [|right; naive_solver..].
    destruct (lessP s x y) eqn:E; [left; eauto|right; naive_solver]. }
  - assert (Hchild : ∀ k p, parent k = i → 0 < k < n → slots s !! k = Some p → lessP s p x = false).
    { intros k p Hk Hkn Hp. destruct (lessP s p x) eqn:E; [|done].
      pose proof (Hhole k p y Hpos ltac:(lia) Hk Hkn Hp Hy). by rewrite (swo_trans _ _ _ E Hlt) in *. }
    rewrite (down_stays i n s x Hn Hi Hx Hchild) in Hd. simplify_eq.
    refine (up_loop_heap _ i n _ s2 Hn Hi _ _ Hhole Hu); [lia|].
    intros k p q Hk Hne Hp Hq. destruct (decide (parent k = i)) as [E|]; [|by apply (Hedges k)].
    rewrite E in Hq. simplify_eq. by apply (Hchild k).
  - assert (Hheap : heap_from 0 n (Some i) s).
    { intros k p q Hk _ Hpk Hp Hq. assert (parent k ≠ i) by congruence.
      destruct (decide (k = i)) as [->|]; [|by apply (Hedges k)]. simplify_eq.
      apply Hno; [lia|done]. }
    destruct (down_spec 0 i n s Hn Hi ltac:(lia)) as (s' & m' & E & _ & Hsame & Hh).
    rewrite E in Hd. simplify_eq. specialize (Hh Hheap Hhole). destruct m; [by simplify_eq|].
    specialize (Hsame eq_refl) as ->.
    refine (up_loop_heap _ i n _ s2 Hn Hi _ _ Hhole Hu); [lia|].
    intros k p q Hk _. apply (Hh k p q); [done|lia|done].
Qed.

(** [Fix] never panics on an index of the heap, and repairs that slot. *)
Lemma Fix_spec i s :
  i < Len s →
  ∃ s', Fix i s = Some s' ∧ shuffled (Len s) s s' ∧
    (heap_but i (Len s) s → heap_from 0 (Len s) None s').
Proof.
  intros Hi. unfold Fix.
  destruct (down_spec 0 i (Len s) s ltac:(lia) Hi ltac:(lia)) as (s1 & m & Ed & Hsh & _ & _).
  rewrite Ed. simpl.
  assert (Hup : ∃ s2, (if m then Some s1 else up i s1) = Some s2 ∧ shuffled (Len s) s1 s2).
  { destruct m; [by exists s1|]. apply up_loop_spec; [|done]. unfold Len.
    by rewrite (shuffled_length _ _ _ Hsh). }
  destruct Hup as (s2 & Eu & Hsh2). exists s2. split_and!; [done|by etrans|].
  intros Hbut. by apply (down_up_heap i (Len s) s s1 m s2).
Qed.

(** [Remove] up to its [Pop]: the removed element ends in the last slot, with a
    heap before it. *)
Lemma RemoveToEnd_spec i s p :
  slots s !! i = Some p →
  ∃ s', RemoveToEnd i s = Some s' ∧ slots s' ≡ₚ slots s ∧ length (slots s') = length (slots s) ∧
    (∀ x y, lessP s' x y = lessP s x y) ∧ slots s' !! (Len s - 1) = Some p ∧
    (heap_but i (Len s) s → heap_from 0 (Len s - 1) None s').
Proof.
  intros Hp. pose proof (lookup_lt_Some _ _ _ Hp) as Hi. unfold RemoveToEnd, Len in *.
  set (n := length (slots s) - 1). destruct (Nat.eqb_spec n i) as [<-|Hne].
  { exists s. split_and!; [done..|]. intros [Hedges _] j x y Hj _ _ Hx Hy.
    pose proof (parent_lt j ltac:(lia)). apply (Hedges j x y); [lia|lia|lia|done|done]. }
  destruct (lookup_lt_is_Some_2 (slots s) n) as [q Hq]; [lia|].
  destruct (Swap_shuffled s i n (length (slots s)) p q ltac:(lia) ltac:(lia) Hp Hq) as (s1 & -> & Hs1 & Hsh1).
  simpl. assert (Hlen1 : length (slots s1) = length (slots s)) by apply Hsh1.
  assert (Hlast : slots s1 !! n = Some p).
  { rewrite Hs1. apply list_lookup_insert_eq. rewrite length_insert. lia. }
  destruct (down_spec 0 i n s1) as (s2 & m & Ed & Hsh2 & _ & _); [unfold Len; lia|lia|lia|].
  rewrite Ed. simpl.
  assert (Hup : ∃ s3, (if m then Some s2 else up i s2) = Some s3 ∧ shuffled n s2 s3).
  { destruct m; [by exists s2|]. apply up_loop_spec; [|lia]. unfold Len.
    rewrite (shuffled_length _ _ _ Hsh2). lia. }
  destruct Hup as (s3 & Eu & Hsh3). exists s3. split_and!; [done|..].
  - by rewrite (shuffled_all_perm _ _ _ Hsh3), (shuffled_all_perm _ _ _ Hsh2), (shuffled_all_perm _ _ _ Hsh1).
  - by rewrite (shuffled_length _ _ _ Hsh3), (shuffled_length _ _ _ Hsh2).
  - intros. by rewrite (shuffled_less _ _ _ Hsh3), (shuffled_less _ _ _ Hsh2), (shuffled_less _ _ _ Hsh1).
  - by rewrite (shuffled_rest _ _ _ Hsh3), (shuffled_rest _ _ _ Hsh2).
  - intros [Hedges Hhole]. apply (down_up_heap i n s1 s2 m s3); [unfold Len; lia|lia| |done|done]. split.
    + intros j x y Hj Hji Hpj Hx Hy. rewrite (shuffled_less _ _ _ Hsh1). rewrite Hs1 in Hx, Hy.
      pose proof (parent_lt j ltac:(lia)). rewrite !list_lookup_insert_ne in Hx, Hy by lia.
      apply (Hedges j x y); [lia|done|done|done|done].
    + intros j x y Hi0 _ Hpj Hj Hx Hy. rewrite (shuffled_less _ _ _ Hsh1). rewrite Hs1 in Hx, Hy.
      pose proof (parent_lt j ltac:(lia)). pose proof (parent_lt i Hi0).
      rewrite !list_lookup_insert_ne in Hx, Hy by lia.
      apply (Hhole j x y); [done|lia|done|lia|done|done].
Qed.

(** The root of a heap precedes or equals every element. *)
Lemma heap_root_min s r p :
  heap_from 0 (Len s) None s → slots s !! 0 = Some r → p ∈ slots s → lessP s p r = false.
Proof.
  intros Hh Hr [j Hj]%list_elem_of_lookup. revert p Hj.
  induction (lt_wf j) as [j _ IH]; intros p Hj.
  destruct (decide (j = 0)) as [->|Hpos]; [simplify_eq; apply swo_irrefl|].
  pose proof (parent_lt j ltac:(lia)) as Hlt. pose proof (lookup_lt_Some _ _ _ Hj).
  destruct (lookup_lt_is_Some_2 (slots s) (parent j)) as [q Hq]; [lia|].
  eapply (swo_incomp p q r); [|by apply (IH (parent j))].
  apply (Hh j p q); [unfold Len; lia|lia|done|done|done].
Qed.

(** ** Invariants *)

(** What every [Swap] preserves, the heap operations preserve. *)
Section invariant.
Context (I : S → Prop) (I_Swap : ∀ s i j s', I s → Swap i j s = Some s' → I s').

Lemma down_loop_invariant fuel i n s s' k : I s → down_loop fuel i n s = Some (s', k) → I s'.
Proof.
  revert i s. induction fuel as [|fuel IH]; intros i s Hs; cbn [down_loop]; [naive_solver|].
  destruct (n <=? 2 * i + 1); [naive_solver|].
  destruct (smallerChild i n s) as [j|]; simpl; [|done].
  destruct (Less j i s) as [[]|]; simpl; [|naive_solver|done].
  destruct (Swap i j s) as [s1|] eqn:E; simpl; [|done]. eauto.
Qed.

Lemma down_invariant i n s s' m : I s → down i n s = Some (s', m) → I s'.
Proof.
  intros Hs. unfold down. destruct (down_loop n i n s) as [[s1 k]|] eqn:E; simpl; [|done].
  intros [= <- _]. by eapply down_loop_invariant.
Qed.

Lemma up_loop_invariant fuel j s s' : I s → up_loop fuel j s = Some s' → I s'.
Proof.
  revert j s. induction fuel as [|fuel IH]; intros j s Hs; cbn [up_loop]; [naive_solver|].
  cbv zeta. destruct (_ =? j); [naive_solver|].
  destruct (Less _ _ _) as [[]|]; simpl; [|naive_solver|done].
  destruct (Swap _ _ _) as [s1|] eqn:E; simpl; [|done]. eauto.
Qed.

Lemma Init_invariant s s' : I s → Init s = Some s' → I s'.
Proof.
  unfold Init. generalize (Len s) at 2. intros n. generalize (Len s / 2). intros i. revert s.
  induction i as [|i IH]; intros s Hs; simpl; [naive_solver|].
  destruct (down i n s) as [[s1 m]|] eqn:E; simpl; [|done]. apply IH. by eapply down_invariant.
Qed.

Lemma Fix_invariant i s s' : I s → Fix i s = Some s' → I s'.
Proof.
  intros Hs. unfold Fix. destruct (down i (Len s) s) as [[s1 []]|] eqn:E; simpl; [| |done].
  - intros [= <-]. by eapply down_invariant.
  - apply up_loop_invariant. by eapply down_invariant.
Qed.

Lemma RemoveToEnd_invariant i s s' : I s → RemoveToEnd i s = Some s' → I s'.
Proof.
  intros Hs. unfold RemoveToEnd. destruct (_ =? i); [naive_solver|].
  destruct (Swap _ _ _) as [s1|] eqn:E1; simpl; [|done]. apply I_Swap in E1; [|done].
  destruct (down i _ s1) as [[s2 []]|] eqn:E; simpl; [| |done].
  - intros [= <-]. by eapply down_invariant.
  - apply up_loop_invariant. by eapply down_invariant.
Qed.

End invariant.

End heap.
