(* ===== verification/NodeHeap.v ===== *)
(** * Node selection heap and capacity cache
    (src/scheduler/node_heap.go, src/scheduler/cache.go)

    The heap holds pointers to entries, and an entry records its own position;
    both views are mutated by [Swap]. Entries live in an arena and pointers are
    positions in it, so that the lookup map and the heap share them as in the
    code. [None] is a panic (an index outside the heap). Counters of instances
    are unbounded integers; resources keep their 64-bit width. *)

From S2P Require Import Prelude Heap.

Local Open Scope Z_scope.

Record candidateNode := mkCandidate {
  cn_id : string;
  cn_availCPU : Z;
  cn_availMemory : Z;
  cn_architecture : string;
  cn_zone : string;
  cn_labels : gmap string string;
  cn_restrictions : gmap string string
}.

#[export] Instance candidateNode_eq_dec : EqDecision candidateNode.
Proof. solve_decision. Defined.

Record nodeHeapEntry := mkHeapEntry {
  node : candidateNode;
  serviceInstanceCount : Z;
  loadScore : Z;
  preferRank : Z;
  heapIndex : Z
}.

Definition setHeapIndex (i : Z) (e : nodeHeapEntry) : nodeHeapEntry :=
  mkHeapEntry (node e) (serviceInstanceCount e) (loadScore e) (preferRank e) i.

(** [Less] on entries. *)
Definition entryLess (a b : nodeHeapEntry) : bool :=
  if negb (serviceInstanceCount a =? serviceInstanceCount b)
  then serviceInstanceCount a <? serviceInstanceCount b
  else if negb (loadScore a =? loadScore b) then loadScore a <? loadScore b
  else if negb (preferRank a =? preferRank b) then preferRank a <? preferRank b
  else str_ltb (cn_id (node a)) (cn_id (node b)).

#[export] Instance entryLess_swo : StrictWeakOrder entryLess.
Proof.
  split; unfold entryLess.
  - intros x. rewrite !Z.eqb_refl. simpl. auto with go.
  - intros x y z. repeat case_match; boolprop; try done; try lia; try (intros; boolprop; lia).
    apply str_ltb_trans.
  - intros x y z. repeat case_match; boolprop; try done; try lia; try (intros; boolprop; lia).
    apply swo_incomp.
Qed.

(** [nodeSelectionHeap] with the entries its pointers reach. *)
Record nodeSelectionHeap := mkHeap {
  arena : list nodeHeapEntry;
  heapSlice : list nat
}.

Definition zeroEntry : nodeHeapEntry := mkHeapEntry (mkCandidate "" 0 0 "" "" ∅ ∅) 0 0 0 0.

Definition entryAt (h : nodeSelectionHeap) (p : nat) : nodeHeapEntry :=
  default zeroEntry (arena h !! p).

Definition updateEntry (f : nodeHeapEntry → nodeHeapEntry) (p : nat) (h : nodeSelectionHeap) : nodeSelectionHeap :=
  mkHeap (alter f p (arena h)) (heapSlice h).

Definition heapLess (indexA indexB : nat) (h : nodeSelectionHeap) : option bool :=
  a ← heapSlice h !! indexA;
  b ← heapSlice h !! indexB;
  Some (entryLess (entryAt h a) (entryAt h b)).

Definition heapSwap (indexA indexB : nat) (h : nodeSelectionHeap) : option nodeSelectionHeap :=
  a ← heapSlice h !! indexA;
  b ← heapSlice h !! indexB;
  Some (updateEntry (setHeapIndex (Z.of_nat indexB)) a
         (updateEntry (setHeapIndex (Z.of_nat indexA)) b
           (mkHeap (arena h) (<[indexB := a]> (<[indexA := b]> (heapSlice h)))))).

(** [Push] is called by no modelled operation; [Pop] drops the last slot. *)
Definition heapPush (e : nodeHeapEntry) (h : nodeSelectionHeap) : nodeSelectionHeap :=
  mkHeap (arena h ++ [setHeapIndex (Z.of_nat (length (heapSlice h))) e]) (heapSlice h ++ [length (arena h)]).

Definition heapPop (h : nodeSelectionHeap) : option nodeSelectionHeap :=
  p ← last (heapSlice h);
  Some (updateEntry (setHeapIndex (-1)) p
         (mkHeap (arena h) (take (length (heapSlice h) - 1) (heapSlice h)))).

(** The order ignores the recorded position. *)
Lemma entryLess_setHeapIndex i j a b : entryLess (setHeapIndex i a) (setHeapIndex j b) = entryLess a b.
Proof. done. Qed.

(** Two heaps whose entries agree up to their recorded positions. *)
Definition same_scores (h h' : nodeSelectionHeap) : Prop :=
  ∀ p, setHeapIndex 0 <$> (arena h' !! p) = setHeapIndex 0 <$> (arena h !! p).

Lemma updateEntry_same_scores i p h : same_scores h (updateEntry (setHeapIndex i) p h).
Proof.
  intros q. simpl. destruct (decide (p = q)) as [->|].
  - rewrite list_lookup_alter_eq. by destruct (arena h !! q).
  - by rewrite list_lookup_alter_ne.
Qed.

Lemma same_scores_less h h' p q :
  same_scores h h' → entryLess (entryAt h' p) (entryAt h' q) = entryLess (entryAt h p) (entryAt h q).
Proof.
  intros Hs. assert (Hp : ∀ p, setHeapIndex 0 (entryAt h' p) = setHeapIndex 0 (entryAt h p)).
  { intros r. specialize (Hs r). unfold entryAt.
    destruct (arena h' !! r), (arena h !! r); simpl in *; congruence. }
  rewrite <-(entryLess_setHeapIndex 0 0 (entryAt h' p)), <-(entryLess_setHeapIndex 0 0 (entryAt h p)).
  by rewrite !Hp.
Qed.

#[export] Program Instance nodeHeapInterface : HeapInterface nodeSelectionHeap nat := {|
  slots := heapSlice;
  lessP h p q := entryLess (entryAt h p) (entryAt h q);
  Less := heapLess;
  Swap := heapSwap
|}.
Next Obligation.
  intros h. split; intros.
  - apply swo_irrefl.
  - by eapply swo_trans.
  - by eapply swo_incomp.
Qed.
Next Obligation. intros h i j p q Hp Hq. unfold heapLess. by rewrite Hp, Hq. Qed.
Next Obligation.
  intros h i j p q Hp Hq. unfold heapSwap. rewrite Hp, Hq. simpl. eexists. split_and!; [done|done|].
  intros x y. apply same_scores_less. intros r.
  rewrite !(updateEntry_same_scores _ _ _ r). done.
Qed.

(** ** Heap operations of the scheduler *)

Definition heapRemove (i : nat) (h : nodeSelectionHeap) : option nodeSelectionHeap :=
  h' ← RemoveToEnd i h; heapPop h'.

(** Whether a candidate has the required resources. *)
Definition lacksResources (requiredCPU requiredMemory : Z) (c : candidateNode) : bool :=
  ((0 <? requiredCPU) && (cn_availCPU c <? requiredCPU)) ||
  ((0 <? requiredMemory) && (cn_availMemory c <? requiredMemory)).

(** The entry of a candidate in [buildNodeHeap]: its position is left at zero. *)
Definition newEntry (loadPerNode serviceInstancesPerNode : gmap string Z)
    (candidateIndex : nat) (candidate : candidateNode) : nodeHeapEntry :=
  mkHeapEntry candidate (default 0 (serviceInstancesPerNode !! cn_id candidate))
              (default 0 (loadPerNode !! cn_id candidate)) (Z.of_nat candidateIndex) 0.

Definition heapEntries (candidates : list candidateNode) (loadPerNode serviceInstancesPerNode : gmap string Z)
    (requiredCPU requiredMemory : Z) : list nodeHeapEntry :=
  omap (λ ic, if lacksResources requiredCPU requiredMemory (snd ic) then None
              else Some (newEntry loadPerNode serviceInstancesPerNode (fst ic) (snd ic)))
       (zip (seq 0 (length candidates)) candidates).

Definition buildNodeHeap (candidates : list candidateNode) (loadPerNode serviceInstancesPerNode : gmap string Z)
    (requiredCPU requiredMemory : Z) : option (nodeSelectionHeap * gmap string nat) :=
  let entries := heapEntries candidates loadPerNode serviceInstancesPerNode requiredCPU requiredMemory in
  let lookupMap := foldl (λ m pe, <[cn_id (node (snd pe)) := fst pe]> m) ∅
                         (zip (seq 0 (length entries)) entries) in
  h ← Init (mkHeap entries (seq 0 (length entries)));
  Some (h, lookupMap).

(** [""] when the heap is empty. *)
Definition selectFromHeap (h : nodeSelectionHeap) : string :=
  match heapSlice h with
  | [] => ""
  | p :: _ => cn_id (node (entryAt h p))
  end.

(** ** The capacity cache *)

Record NodeCapacityCache := mkCache {
  heapData : nodeSelectionHeap;
  lookupMap : gmap string nat;
  minimumCPU : Z;
  minimumMemory : Z
}.

Definition NewNodeCapacityCache (candidates : list candidateNode)
    (loadPerNode serviceInstancesPerNode : gmap string Z) (requiredCPU requiredMemory : Z)
    : option NodeCapacityCache :=
  built ← buildNodeHeap candidates loadPerNode serviceInstancesPerNode requiredCPU requiredMemory;
  Some (mkCache (fst built) (snd built) requiredCPU requiredMemory).

Definition cacheLen (c : NodeCapacityCache) : nat := length (heapSlice (heapData c)).

Definition BestNode (c : NodeCapacityCache) : string := selectFromHeap (heapData c).

(** A node without a zone counts as zone ["_default"]. *)
Definition zoneOrDefault (zone : string) : string := if decide (zone = "") then "_default" else zone.

Definition BestNodeInZones (acceptableZones : gset string) (c : NodeCapacityCache) : string :=
  if decide (acceptableZones = ∅) then BestNode c
  else
    match list_find (λ p, zoneOrDefault (cn_zone (node (entryAt (heapData c) p))) ∈ acceptableZones)
                    (heapSlice (heapData c)) with
    | Some (_, p) => cn_id (node (entryAt (heapData c) p))
    | None => BestNode c
    end.

(** The entry of a node after one more instance was placed on it. *)
Definition chargeEntry (cpuCost memoryCost : Z) (e : nodeHeapEntry) : nodeHeapEntry :=
  let n := node e in
  mkHeapEntry (mkCandidate (cn_id n) (cn_availCPU n -! cpuCost)%go (cn_availMemory n -! memoryCost)%go
                           (cn_architecture n) (cn_zone n) (cn_labels n) (cn_restrictions n))
              (serviceInstanceCount e + 1) (loadScore e + 1) (preferRank e) (heapIndex e).

Definition setHeap (h : nodeSelectionHeap) (c : NodeCapacityCache) : NodeCapacityCache :=
  mkCache h (lookupMap c) (minimumCPU c) (minimumMemory c).

Definition RecordPlacement (nodeID : string) (cpuCost memoryCost : Z) (c : NodeCapacityCache)
    : option NodeCapacityCache :=
  match lookupMap c !! nodeID with
  | None => Some c
  | Some p =>
      let index := heapIndex (entryAt (heapData c) p) in
      if index <? 0 then Some c
      else
        let h := updateEntry (chargeEntry cpuCost memoryCost) p (heapData c) in
        let exhausted := lacksResources (minimumCPU c) (minimumMemory c) (node (entryAt h p)) in
        h' ← (if exhausted then heapRemove (Z.to_nat index) h else Fix (Z.to_nat index) h);
        Some (setHeap h' c)
  end.

Definition RemoveNode (nodeID : string) (c : NodeCapacityCache) : option NodeCapacityCache :=
  match lookupMap c !! nodeID with
  | None => Some c
  | Some p =>
      let index := heapIndex (entryAt (heapData c) p) in
      if index <? 0 then Some c
      else h' ← heapRemove (Z.to_nat index) (heapData c); Some (setHeap h' c)
  end.
