(* ===== verification/CacheProps.v ===== *)
(** * Properties of the node heap and the capacity cache

    The heap and the lookup map stay consistent under every operation, no
    operation panics, and as long as placements go to the heap's root (as they
    do without zone spreading) the root is the best remaining candidate. *)

From S2P Require Import Prelude Heap NodeHeap.

Local Open Scope Z_scope.

(** ** Consistency of positions *)

(** A pointer in the heap records its own slot, or still the zero it was
    created with; a pointer outside records -1. *)
Record heap_wf (h : nodeSelectionHeap) : Prop := {
  wf_nodup : NoDup (heapSlice h);
  wf_valid p : p ∈ heapSlice h → (p < length (arena h))%nat;
  wf_index i p : heapSlice h !! i = Some p →
    heapIndex (entryAt h p) = Z.of_nat i ∨ heapIndex (entryAt h p) = 0;
  wf_out p : (p < length (arena h))%nat → p ∉ heapSlice h → heapIndex (entryAt h p) = -1
}.

Lemma entryAt_alter f p q h :
  (p < length (arena h))%nat →
  entryAt (updateEntry f p h) q = if decide (p = q) then f (entryAt h q) else entryAt h q.
Proof.
  intros Hp. unfold entryAt. simpl. case_decide as E.
  - subst. rewrite list_lookup_alter_eq.
    destruct (lookup_lt_is_Some_2 (arena h) q Hp) as [e ->]. done.
  - by rewrite list_lookup_alter_ne.
Qed.

Lemma heapSwap_wf i j h h' : heap_wf h → heapSwap i j h = Some h' → heap_wf h'.
Proof.
  intros [H1 H2 H3 H4]. unfold heapSwap.
  destruct (heapSlice h !! i) as [a|] eqn:Ea; simpl; [|done].
  destruct (heapSlice h !! j) as [b|] eqn:Eb; simpl; [|done]. intros [= <-].
  pose proof (lookup_lt_Some _ _ _ Ea). pose proof (lookup_lt_Some _ _ _ Eb).
  assert (Ha : (a < length (arena h))%nat) by (eapply H2, list_elem_of_lookup_2, Ea).
  assert (Hb : (b < length (arena h))%nat) by (eapply H2, list_elem_of_lookup_2, Eb).
  assert (Hperm : <[j := a]> (<[i := b]> (heapSlice h)) ≡ₚ heapSlice h) by (by apply swap_perm).
  assert (Hent : ∀ q, entryAt (updateEntry (setHeapIndex (Z.of_nat j)) a
      (updateEntry (setHeapIndex (Z.of_nat i)) b
        (mkHeap (arena h) (<[j := a]> (<[i := b]> (heapSlice h)))))) q
    = if decide (a = q) then setHeapIndex (Z.of_nat j) (entryAt h q)
      else if decide (b = q) then setHeapIndex (Z.of_nat i) (entryAt h q) else entryAt h q).
  { intros q. rewrite !entryAt_alter; simpl; rewrite ?length_alter; [|done|done].
    repeat case_decide; done. }
  split; simpl.
  - by rewrite Hperm.
  - intros p. rewrite Hperm, !length_alter. auto.
  - intros k p Hk. rewrite Hent. assert (k = j ∧ p = a ∨ k ≠ j ∧ k = i ∧ p = b ∨
      k ≠ j ∧ k ≠ i ∧ heapSlice h !! k = Some p) as [[-> ->]|[(? & -> & ->)|(? & ? & Hk')]].
    { destruct (decide (k = j)) as [->|].
      - rewrite list_lookup_insert_eq in Hk by (by rewrite length_insert). naive_solver.
      - rewrite list_lookup_insert_ne in Hk by done. destruct (decide (k = i)) as [->|].
        + rewrite list_lookup_insert_eq in Hk by done. naive_solver.
        + rewrite list_lookup_insert_ne in Hk by done. auto. }
    + rewrite decide_True by done. by left.
    + rewrite decide_False. 2: { intros ->. by pose proof (NoDup_lookup _ _ _ _ H1 Ea Eb). }
      rewrite decide_True by done. by left.
    + rewrite !decide_False; [by apply H3|..].
      * intros ->. by pose proof (NoDup_lookup _ _ _ _ H1 Eb Hk').
      * intros ->. by pose proof (NoDup_lookup _ _ _ _ H1 Ea Hk').
  - intros p Hp Hout. rewrite !length_alter in Hp. rewrite Hperm in Hout.
    rewrite Hent, !decide_False; [by apply H4|..].
    + intros ->. apply Hout. by eapply list_elem_of_lookup_2.
    + intros ->. apply Hout. by eapply list_elem_of_lookup_2.
Qed.

Lemma heapSwap_scores i j h h' : heapSwap i j h = Some h' → same_scores h h'.
Proof.
  unfold heapSwap. destruct (heapSlice h !! i); simpl; [|done].
  destruct (heapSlice h !! j); simpl; [|done]. intros [= <-] r.
  by rewrite !(updateEntry_same_scores _ _ _ r).
Qed.

#[export] Instance same_scores_refl : Reflexive same_scores.
Proof. by intros h p. Qed.

#[export] Instance same_scores_trans : Transitive same_scores.
Proof. intros h1 h2 h3 H1 H2 p. by rewrite H2, H1. Qed.

Lemma same_scores_entry h h' p :
  same_scores h h' → setHeapIndex 0 (entryAt h' p) = setHeapIndex 0 (entryAt h p).
Proof.
  intros Hs. specialize (Hs p). unfold entryAt.
  destruct (arena h' !! p), (arena h !! p); simpl in *; congruence.
Qed.

Lemma same_scores_length h h' : same_scores h h' → length (arena h') = length (arena h).
Proof.
  intros Hs. apply Nat.le_antisymm; apply Nat.nlt_ge; intros Hlt.
  - destruct (lookup_lt_is_Some_2 _ _ Hlt) as [e He]. specialize (Hs (length (arena h))).
    rewrite He, lookup_ge_None_2 in Hs by lia. done.
  - destruct (lookup_lt_is_Some_2 _ _ Hlt) as [e He]. specialize (Hs (length (arena h'))).
    rewrite He, lookup_ge_None_2 in Hs by lia. done.
Qed.

(** The position recorded by [p] is its slot. *)
Definition exact (p : nat) (h : nodeSelectionHeap) : Prop :=
  ∀ i, heapSlice h !! i = Some p → heapIndex (entryAt h p) = Z.of_nat i.

Lemma heapSwap_exact p i j h h' : heap_wf h → exact p h → heapSwap i j h = Some h' → exact p h'.
Proof.
  intros Hwf Hp E. pose proof (heapSwap_wf _ _ _ _ Hwf E) as Hwf'. unfold heapSwap in E.
  destruct (heapSlice h !! i) as [a|] eqn:Ea; simpl in E; [|done].
  destruct (heapSlice h !! j) as [b|] eqn:Eb; simpl in E; [|done]. injection E as <-.
  pose proof (lookup_lt_Some _ _ _ Ea). pose proof (lookup_lt_Some _ _ _ Eb).
  assert (Ha : (a < length (arena h))%nat) by (eapply (wf_valid _ Hwf), list_elem_of_lookup_2, Ea).
  assert (Hb : (b < length (arena h))%nat) by (eapply (wf_valid _ Hwf), list_elem_of_lookup_2, Eb).
  intros k Hk. simpl in Hk. rewrite !entryAt_alter; simpl; rewrite ?length_alter; [|done|done].
  destruct (decide (k = j)) as [->|Hkj].
  { rewrite list_lookup_insert_eq in Hk by (by rewrite length_insert). simplify_eq. by rewrite decide_True. }
  rewrite list_lookup_insert_ne in Hk by done. destruct (decide (k = i)) as [->|Hki].
  { rewrite list_lookup_insert_eq in Hk by done. simplify_eq.
    rewrite decide_False by (intros ->; by pose proof (NoDup_lookup _ _ _ _ (wf_nodup _ Hwf) Ea Eb)).
    by rewrite decide_True. }
  rewrite list_lookup_insert_ne in Hk by done. rewrite !decide_False; [by apply Hp|..].
  - intros ->. by pose proof (NoDup_lookup _ _ _ _ (wf_nodup _ Hwf) Eb Hk).
  - intros ->. by pose proof (NoDup_lookup _ _ _ _ (wf_nodup _ Hwf) Ea Hk).
Qed.

(** What the heap operations keep. *)
Definition kept_by_swaps (h0 : nodeSelectionHeap) (ps : gset nat) (h : nodeSelectionHeap) : Prop :=
  heap_wf h ∧ same_scores h0 h ∧ ∀ p, p ∈ ps → exact p h.

Lemma kept_Swap h0 ps h i j h' : kept_by_swaps h0 ps h → Swap i j h = Some h' → kept_by_swaps h0 ps h'.
Proof.
  intros (H1 & H2 & H3) E. split_and!.
  - by eapply heapSwap_wf.
  - etrans; [done|]. by eapply heapSwap_scores.
  - intros p Hp. eapply heapSwap_exact; eauto.
Qed.

Lemma Fix_ok ps i h :
  heap_wf h → (∀ p, p ∈ ps → exact p h) → (i < Len h)%nat →
  ∃ h', Fix i h = Some h' ∧ kept_by_swaps h ps h' ∧ heapSlice h' ≡ₚ heapSlice h ∧
    (heap_but i (Len h) h → heap_from 0 (Len h') None h').
Proof.
  intros Hwf Hex Hi. destruct (Fix_spec i h Hi) as (h' & E & Hsh & Hheap).
  exists h'. split_and!; [done|..].
  - eapply (Fix_invariant (kept_by_swaps h ps)); [apply kept_Swap| |exact E]. by split_and!.
  - by apply (shuffled_all_perm _ _ _ Hsh).
  - unfold Len in *. by rewrite (shuffled_length _ _ _ Hsh).
Qed.

Lemma heapPop_ok h p :
  heap_wf h → heapSlice h !! (Len h - 1)%nat = Some p →
  ∃ h', heapPop h = Some h' ∧ heap_wf h' ∧ same_scores h h' ∧
    heapSlice h' = take (Len h - 1) (heapSlice h) ∧ heapSlice h = heapSlice h' ++ [p] ∧
    (∀ q, q ≠ p → exact q h → exact q h').
Proof.
  intros Hwf Hp. unfold heapPop, Len in *. simpl in *. rewrite last_lookup.
  replace (Nat.pred (length (heapSlice h))) with (length (heapSlice h) - 1)%nat by lia.
  rewrite Hp. simpl. eexists. split; [done|].
  pose proof (lookup_lt_Some _ _ _ Hp) as Hlen.
  assert (Hsplit : heapSlice h = take (length (heapSlice h) - 1) (heapSlice h) ++ [p]).
  { erewrite <-take_S_r by done. rewrite take_ge by lia. done. }
  assert (Hpv : (p < length (arena h))%nat) by (eapply (wf_valid _ Hwf), list_elem_of_lookup_2, Hp).
  assert (Hnd : NoDup (take (length (heapSlice h) - 1) (heapSlice h) ++ [p]))
    by (rewrite <-Hsplit; apply Hwf).
  apply NoDup_app in Hnd as (Hnd1 & Hnd2 & _).
  assert (Hent : ∀ q, entryAt (updateEntry (setHeapIndex (-1)) p
      (mkHeap (arena h) (take (length (heapSlice h) - 1) (heapSlice h)))) q =
      if decide (p = q) then setHeapIndex (-1) (entryAt h q) else entryAt h q).
  { intros q. by rewrite entryAt_alter. }
  split_and!; [| |done|done|].
  - split; simpl.
    + done.
    + intros q Hq. rewrite length_alter. apply (wf_valid _ Hwf). rewrite Hsplit. set_solver.
    + intros i q Hq. rewrite Hent, decide_False.
      * apply (wf_index _ Hwf). apply lookup_take_Some in Hq. tauto.
      * intros ->. apply (Hnd2 q); [by eapply list_elem_of_lookup_2|set_solver].
    + intros q. rewrite length_alter, Hent. intros Hq Hout. case_decide; [done|].
      apply (wf_out _ Hwf); [done|]. rewrite Hsplit. set_solver.
  - etrans; [|apply updateEntry_same_scores]. done.
  - intros q Hne Hex i Hi. rewrite Hent, decide_False by done. apply Hex.
    simpl in Hi. apply lookup_take_Some in Hi. tauto.
Qed.

(** [heap.Remove] takes out exactly the pointer at the given slot. *)
Lemma heapRemove_ok i h p :
  heap_wf h → heapSlice h !! i = Some p →
  ∃ h', heapRemove i h = Some h' ∧ heap_wf h' ∧ same_scores h h' ∧ p :: heapSlice h' ≡ₚ heapSlice h ∧
    (heap_but i (Len h) h → heap_from 0 (Len h') None h').
Proof.
  intros Hwf Hp. destruct (RemoveToEnd_spec (H := nodeHeapInterface) i h p Hp) as (h1 & E1 & Hperm & Hlen & Hless & Hlast & Hheap).
  assert (kept_by_swaps h ∅ h1) as (Hwf1 & Hsc1 & _).
  { eapply (RemoveToEnd_invariant (kept_by_swaps h ∅)); [apply kept_Swap| |exact E1]. split_and!; [done|done|set_solver]. }
  simpl in *. unfold heapRemove. rewrite E1. simpl.
  destruct (heapPop_ok h1 p Hwf1) as (h2 & -> & Hwf2 & Hsc2 & Hsl2 & Hsplit & _).
  { unfold Len in *. simpl in *. by rewrite Hlen. }
  exists h2. split_and!; [done|done|by etrans|..].
  - rewrite <-Hperm. rewrite Hsplit. by rewrite Permutation_app_comm.
  - intros Hh. specialize (Hheap Hh). unfold Len in *. simpl in *. rewrite Hsl2, length_take, Hlen.
    replace (Nat.min (length (heapSlice h) - 1) (length (heapSlice h))) with (length (heapSlice h) - 1)%nat by lia.
    intros j x y Hj Hlo Hn Hx Hy. simpl in *.
    rewrite (same_scores_less h1 h2 _ _ Hsc2).
    apply (Hheap j x y Hj Hlo Hn); simpl; rewrite Hsplit, lookup_app_l; try done;
      rewrite Hsl2, length_take, Hlen; [lia|]. pose proof (parent_lt j ltac:(lia)). lia.
Qed.

(** ** The cache *)

Record cache_wf (c : NodeCapacityCache) : Prop := {
  cw_heap : heap_wf (heapData c);
  cw_lookup nodeID p : lookupMap c !! nodeID = Some p ↔
    (p < length (arena (heapData c)))%nat ∧ cn_id (node (entryAt (heapData c) p)) = nodeID
}.

Definition cache_ordered (c : NodeCapacityCache) : Prop :=
  heap_from 0 (Len (heapData c)) None (heapData c).

(** The candidates still in the cache, with their current scores. *)
Definition live (c : NodeCapacityCache) : list nodeHeapEntry :=
  (λ p, setHeapIndex 0 (entryAt (heapData c) p)) <$> heapSlice (heapData c).

Lemma same_scores_id h h' p : same_scores h h' → cn_id (node (entryAt h' p)) = cn_id (node (entryAt h p)).
Proof. intros Hs%(same_scores_entry _ _ p). exact (f_equal (λ e, cn_id (node e)) Hs). Qed.

Lemma cache_wf_setHeap c h :
  cache_wf c → heap_wf h → same_scores (heapData c) h → cache_wf (setHeap h c).
Proof.
  intros [H1 H2] Hh Hs. split; [done|]. intros nodeID p. simpl.
  by rewrite H2, (same_scores_length _ _ Hs), (same_scores_id _ _ _ Hs).
Qed.

(** Charging an entry keeps the positions and the identity of nodes. *)
Lemma updateEntry_wf f p h :
  (∀ e, heapIndex (f e) = heapIndex e) → heap_wf h → heap_wf (updateEntry f p h).
Proof.
  intros Hf [H1 H2 H3 H4].
  assert (Hent : ∀ q, heapIndex (entryAt (updateEntry f p h) q) = heapIndex (entryAt h q)).
  { intros q. unfold entryAt. simpl. destruct (decide (p = q)) as [->|].
    - rewrite list_lookup_alter_eq. destruct (arena h !! q); simpl; [apply Hf|done].
    - by rewrite list_lookup_alter_ne. }
  split; simpl; [done|..].
  - intros q. rewrite length_alter. auto.
  - intros i q Hq. rewrite Hent. auto.
  - intros q. rewrite length_alter, Hent. auto.
Qed.

Lemma charge_cache_wf a b p c :
  cache_wf c → cache_wf (setHeap (updateEntry (chargeEntry a b) p (heapData c)) c).
Proof.
  intros [H1 H2]. split; [by apply updateEntry_wf|]. intros nodeID q. simpl.
  rewrite H2, length_alter. f_equiv. unfold entryAt. simpl. destruct (decide (p = q)) as [->|].
  - rewrite list_lookup_alter_eq. by destruct (arena (heapData c) !! q).
  - by rewrite list_lookup_alter_ne.
Qed.

(** The recorded position of a live entry is a slot of the heap. *)
Lemma wf_index_range h p :
  heap_wf h → (p < length (arena h))%nat → 0 ≤ heapIndex (entryAt h p) →
  ∃ q, heapSlice h !! Z.to_nat (heapIndex (entryAt h p)) = Some q.
Proof.
  intros Hwf Hp Hi. destruct (decide (p ∈ heapSlice h)) as [Hin|Hout].
  - apply list_elem_of_lookup in Hin as [i Hin]. pose proof (lookup_lt_Some _ _ _ Hin).
    apply lookup_lt_is_Some_2. destruct (wf_index _ Hwf i p Hin) as [-> | ->]; lia.
  - pose proof (wf_out _ Hwf p Hp Hout). lia.
Qed.

(** Neither operation panics, on any node and whatever the placements so far. *)
Lemma RecordPlacement_safe nodeID a b c :
  cache_wf c → ∃ c', RecordPlacement nodeID a b c = Some c' ∧ cache_wf c'.
Proof.
  intros Hc. unfold RecordPlacement. destruct (lookupMap c !! nodeID) as [p|] eqn:El; [|eauto].
  destruct (Z.ltb_spec (heapIndex (entryAt (heapData c) p)) 0); [eauto|].
  apply (cw_lookup _ Hc) in El as [Hp _].
  pose proof (charge_cache_wf a b p c Hc) as Hc1. set (h1 := updateEntry _ p (heapData c)) in *.
  destruct (wf_index_range _ p (cw_heap _ Hc) Hp ltac:(done)) as [q Hq].
  destruct (lacksResources _ _ _).
  - destruct (heapRemove_ok (Z.to_nat (heapIndex (entryAt (heapData c) p))) h1 q) as (h2 & -> & H2 & H3 & _);
      [apply Hc1|done|].
    simpl. eexists. split; [done|]. by apply (cache_wf_setHeap (setHeap h1 c)).
  - destruct (Fix_ok ∅ (Z.to_nat (heapIndex (entryAt (heapData c) p))) h1) as (h2 & -> & (H2 & H3 & _) & _);
      [apply Hc1|set_solver| |].
    { apply (lookup_lt_Some _ _ _ Hq). }
    simpl. eexists. split; [done|]. by apply (cache_wf_setHeap (setHeap h1 c)).
Qed.

Lemma RemoveNode_safe nodeID c :
  cache_wf c → ∃ c', RemoveNode nodeID c = Some c' ∧ cache_wf c'.
Proof.
  intros Hc. unfold RemoveNode. destruct (lookupMap c !! nodeID) as [p|] eqn:El; [|eauto].
  destruct (Z.ltb_spec (heapIndex (entryAt (heapData c) p)) 0); [eauto|].
  apply (cw_lookup _ Hc) in El as [Hp _].
  destruct (wf_index_range _ p (cw_heap _ Hc) Hp ltac:(done)) as [q Hq].
  destruct (heapRemove_ok _ _ q (cw_heap _ Hc) Hq) as (h2 & -> & H2 & H3 & _).
  simpl. eexists. split; [done|]. by apply cache_wf_setHeap.
Qed.

(** ** Operations on an entry whose position is exact *)

Definition entryId (e : nodeHeapEntry) : string := cn_id (node e).

(** Changing one entry disturbs the heap order only at its slot. *)
Lemma updateEntry_heap_but f i p h :
  heap_wf h → heapSlice h !! i = Some p → heap_from 0 (Len h) None h →
  heap_but i (Len (updateEntry f p h)) (updateEntry f p h).
Proof.
  intros Hwf Hp Hh. pose proof (lookup_lt_Some _ _ _ Hp) as Hi.
  destruct (heap_heap_but (H := nodeHeapInterface) i (Len h) h ltac:(done) Hi Hh) as [Hedges Hhole].
  assert (Hent : ∀ k x, k ≠ i → heapSlice h !! k = Some x → entryAt (updateEntry f p h) x = entryAt h x).
  { intros k x Hk Hx. unfold entryAt. simpl. rewrite list_lookup_alter_ne; [done|].
    intros ->. apply Hk. by apply (NoDup_lookup _ _ _ _ (wf_nodup _ Hwf) Hx Hp). }
  split; simpl in *.
  - intros j x y Hj Hji Hpj Hx Hy. rewrite (Hent j x), (Hent (parent j) y) by done. by apply (Hedges j).
  - intros j x y Hpos Hlo Hpj Hj Hx Hy. simpl in *. pose proof (parent_lt j ltac:(lia)).
    pose proof (parent_lt i ltac:(lia)).
    rewrite (Hent j x), (Hent (parent i) y) by (done || lia). by apply (Hhole j).
Qed.

(** The entries of some pointers. *)
Definition scores (h : nodeSelectionHeap) (ps : list nat) : list nodeHeapEntry :=
  (λ p, setHeapIndex 0 (entryAt h p)) <$> ps.

Lemma same_scores_scores h h' ps : same_scores h h' → scores h' ps = scores h ps.
Proof. intros Hs. apply list_fmap_ext. intros _ p _. by apply same_scores_entry. Qed.

Lemma scores_update f p h ps : p ∉ ps → scores (updateEntry f p h) ps = scores h ps.
Proof.
  intros Hp. apply list_fmap_ext. intros i q Hq. unfold entryAt. simpl.
  rewrite list_lookup_alter_ne; [done|]. intros ->. apply Hp. by eapply list_elem_of_lookup_2.
Qed.

(** What remains of an entry after a placement on its node. *)
Definition charged (c : NodeCapacityCache) (a b : Z) (e : nodeHeapEntry) : list nodeHeapEntry :=
  if lacksResources (minimumCPU c) (minimumMemory c) (node (chargeEntry a b e)) then []
  else [chargeEntry a b e].

Lemma RecordPlacement_exact a b c i p rest :
  cache_wf c → cache_ordered c → heapSlice (heapData c) !! i = Some p → exact p (heapData c) →
  p :: rest ≡ₚ heapSlice (heapData c) →
  ∃ c', RecordPlacement (cn_id (node (entryAt (heapData c) p))) a b c = Some c' ∧
    cache_wf c' ∧ cache_ordered c' ∧ exact p (heapData c') ∧
    minimumCPU c' = minimumCPU c ∧ minimumMemory c' = minimumMemory c ∧
    live c' ≡ₚ charged c a b (setHeapIndex 0 (entryAt (heapData c) p)) ++ scores (heapData c) rest ∧
    entryId (entryAt (heapData c') p) = entryId (entryAt (heapData c) p) ∧
    scores (heapData c') rest = scores (heapData c) rest ∧
    (heapSlice (heapData c') ≡ₚ p :: rest ∨ heapSlice (heapData c') ≡ₚ rest ∧ p ∉ rest).
Proof.
  intros Hc Ho Hi Hex Hrest. pose proof (cw_heap _ Hc) as Hwf. set (h := heapData c) in *.
  assert (Hp : (p < length (arena h))%nat) by (eapply (wf_valid _ Hwf), list_elem_of_lookup_2, Hi).
  assert (Hnd : NoDup (p :: rest)) by (rewrite Hrest; apply Hwf). apply NoDup_cons in Hnd as [Hnotin _].
  unfold RecordPlacement. fold h.
  rewrite (proj2 (cw_lookup c Hc (cn_id (node (entryAt h p))) p) ltac:(by split)).
  rewrite (Hex i Hi). destruct (Z.ltb_spec (Z.of_nat i) 0); [lia|]. rewrite Nat2Z.id.
  pose proof (charge_cache_wf a b p c Hc) as Hc1. fold h in Hc1. set (h1 := updateEntry (chargeEntry a b) p h) in *.
  assert (Hbut : heap_but i (Len h1) h1) by (by apply updateEntry_heap_but).
  assert (He1 : entryAt h1 p = chargeEntry a b (entryAt h p)) by (unfold h1; by rewrite entryAt_alter, decide_True).
  assert (Hs1 : scores h1 rest = scores h rest) by (by apply scores_update).
  assert (Hl : lacksResources (minimumCPU c) (minimumMemory c) (node (entryAt h1 p)) =
               lacksResources (minimumCPU c) (minimumMemory c)
                 (node (chargeEntry a b (setHeapIndex 0 (entryAt h p))))) by (by rewrite He1).
  unfold charged. rewrite <-Hl. destruct (lacksResources _ _ (node (entryAt h1 p))).
  - destruct (heapRemove_ok i h1 p (cw_heap _ Hc1) Hi) as (h2 & -> & H2 & H3 & Hp2 & Ho2). simpl.
    assert (Hsl : heapSlice h2 ≡ₚ rest).
    { apply (Permutation_cons_inv (a := p)). rewrite Hp2. by symmetry. }
    exists (setHeap h2 c). split_and!; [done|by apply (cache_wf_setHeap (setHeap h1 c))|by apply Ho2|..|done|done| | | |auto].
    + intros k Hk. exfalso. apply Hnotin. rewrite <-Hsl. by eapply list_elem_of_lookup_2.
    + unfold live. simpl. fold (scores h2 (heapSlice h2)). rewrite (same_scores_scores _ _ _ H3), <-Hs1.
      unfold scores. by rewrite Hsl.
    + simpl. unfold entryId. rewrite (same_scores_id _ _ _ H3). by rewrite He1.
    + simpl. by rewrite (same_scores_scores _ _ _ H3), Hs1.
  - destruct (Fix_ok {[p]} i h1 (cw_heap _ Hc1)) as (h2 & -> & (H2 & H3 & H4) & Hp2 & Ho2).
    { intros q ->%elem_of_singleton k Hk. rewrite He1. by apply Hex. }
    { by apply (lookup_lt_Some _ _ _ Hi). }
    simpl. assert (Hsl : heapSlice h2 ≡ₚ p :: rest) by (rewrite Hp2; by symmetry).
    exists (setHeap h2 c). split_and!;
      [done|by apply (cache_wf_setHeap (setHeap h1 c))|by apply Ho2|..|done|done| | | |by left].
    + apply H4. set_solver.
    + unfold live. simpl. fold (scores h2 (heapSlice h2)). rewrite (same_scores_scores _ _ _ H3).
      unfold scores. rewrite Hsl, fmap_cons. fold (scores h1 rest). rewrite Hs1, He1. done.
    + simpl. unfold entryId. rewrite (same_scores_id _ _ _ H3). by rewrite He1.
    + simpl. by rewrite (same_scores_scores _ _ _ H3), Hs1.
Qed.

Lemma RemoveNode_exact c p rest :
  cache_wf c → cache_ordered c → exact p (heapData c) → (p < length (arena (heapData c)))%nat →
  heapSlice (heapData c) ≡ₚ p :: rest ∨ heapSlice (heapData c) ≡ₚ rest ∧ p ∉ rest →
  ∃ c', RemoveNode (entryId (entryAt (heapData c) p)) c = Some c' ∧ cache_wf c' ∧ cache_ordered c' ∧
    minimumCPU c' = minimumCPU c ∧ minimumMemory c' = minimumMemory c ∧
    live c' ≡ₚ scores (heapData c) rest.
Proof.
  intros Hc Ho Hex Hp Hcase. pose proof (cw_heap _ Hc) as Hwf. unfold RemoveNode.
  rewrite (proj2 (cw_lookup c Hc (entryId (entryAt (heapData c) p)) p) ltac:(by split)). destruct Hcase as [Hsl|[Hsl Hout]].
  - assert (p ∈ heapSlice (heapData c)) as [i Hi]%list_elem_of_lookup by (rewrite Hsl; set_solver).
    rewrite (Hex i Hi). destruct (Z.ltb_spec (Z.of_nat i) 0); [lia|]. rewrite Nat2Z.id.
    destruct (heapRemove_ok i _ p Hwf Hi) as (h2 & -> & H2 & H3 & Hp2 & Ho2). simpl.
    eexists. split_and!; [done|by apply cache_wf_setHeap| |done|done|].
    + apply Ho2. apply (heap_heap_but (H := nodeHeapInterface)); [done| |done].
      by apply (lookup_lt_Some _ _ _ Hi).
    + unfold live. simpl. fold (scores h2 (heapSlice h2)). rewrite (same_scores_scores _ _ _ H3).
      unfold scores. apply fmap_Permutation. apply (Permutation_cons_inv (a := p)). by rewrite Hp2, Hsl.
  - rewrite (wf_out _ Hwf p Hp) by (by rewrite Hsl). simpl. exists c. split_and!; try done.
    unfold live, scores. by rewrite Hsl.
Qed.

(** ** Building the cache *)

Lemma zip_seq_snoc {A} k (es : list A) e :
  zip (seq k (length (es ++ [e]))) (es ++ [e]) = zip (seq k (length es)) es ++ [((k + length es)%nat, e)].
Proof.
  rewrite length_app. simpl. rewrite seq_app. simpl. by rewrite zip_with_app by (by rewrite length_seq).
Qed.

Lemma lookupMap_entries es nodeID p :
  NoDup (entryId <$> es) →
  foldl (λ m pe, <[cn_id (node (snd pe)) := fst pe]> m) (∅ : gmap string nat)
        (zip (seq 0 (length es)) es) !! nodeID = Some p ↔ ∃ e, es !! p = Some e ∧ entryId e = nodeID.
Proof.
  induction es as [|e es IH] using rev_ind; intros Hnd; simpl.
  { rewrite lookup_empty. split; [done|]. intros (e & He & _). done. }
  rewrite fmap_app, NoDup_app in Hnd. destruct Hnd as (Hnd & Hdis & _).
  rewrite zip_seq_snoc, foldl_app. simpl. rewrite lookup_insert. fold (entryId e).
  destruct (decide (entryId e = nodeID)) as [<-|Hne].
  - split.
    + intros [= <-]. exists e. by rewrite lookup_app_r, Nat.sub_diag.
    + intros (e' & He' & E). apply lookup_app_Some in He' as [He'|[Hle He']].
      * exfalso. apply (Hdis (entryId e')); [|rewrite E; set_solver].
        apply list_elem_of_fmap. exists e'. split; [done|]. by eapply list_elem_of_lookup_2.
      * apply list_lookup_singleton_Some in He' as [? ->]. f_equal. lia.
  - rewrite IH by done. split; intros (e' & He' & E); exists e'; split; try done.
    + by apply lookup_app_l_Some.
    + apply lookup_app_Some in He' as [?|[_ He']]; [done|].
      apply list_lookup_singleton_Some in He' as [_ ->]. done.
Qed.

Lemma elem_of_heapEntries cs load counts rc rm e :
  e ∈ heapEntries cs load counts rc rm ↔
  ∃ i c, cs !! i = Some c ∧ lacksResources rc rm c = false ∧ e = newEntry load counts i c.
Proof.
  unfold heapEntries. rewrite list_elem_of_omap. split.
  - intros ([i c] & Hin & E). simpl in E. apply list_elem_of_lookup in Hin as [k Hk].
    apply lookup_zip_with_Some in Hk as (i' & c' & [= -> ->] & Hi & Hc).
    apply lookup_seq in Hi as [-> _]. simpl in *.
    destruct (lacksResources rc rm c') eqn:El; [done|]. simplify_eq. eauto.
  - intros (i & c & Hc & Hl & ->). exists (i, c). simpl. rewrite Hl. split; [|done].
    apply list_elem_of_lookup. exists i. apply lookup_zip_with_Some. exists i, c. split_and!; [done| |done].
    apply lookup_seq. split; [done|]. by apply (lookup_lt_Some _ _ _ Hc).
Qed.

Lemma heapEntries_nodup cs load counts rc rm :
  NoDup (cn_id <$> cs) → NoDup (entryId <$> heapEntries cs load counts rc rm).
Proof.
  unfold heapEntries. induction cs as [|c cs IH] using rev_ind; intros Hnd; [constructor|].
  rewrite fmap_app, NoDup_app in Hnd. destruct Hnd as (Hnd & Hdis & _).
  rewrite zip_seq_snoc, omap_app, fmap_app. apply NoDup_app. split_and!; [auto| |].
  - intros id (e & -> & He)%list_elem_of_fmap Hin. simpl in Hin.
    assert (Hid : entryId e = cn_id c) by (destruct (lacksResources rc rm c); simpl in Hin; set_solver).
    apply (Hdis (entryId e)); [|rewrite Hid; set_solver].
    apply elem_of_heapEntries in He as (i & c' & Hc' & _ & ->). unfold entryId. simpl.
    apply list_elem_of_fmap. exists c'. split; [done|]. by eapply list_elem_of_lookup_2.
  - simpl. destruct (lacksResources rc rm c); repeat constructor; set_solver.
Qed.

Lemma initial_wf es : (∀ e, e ∈ es → heapIndex e = 0) → heap_wf (mkHeap es (seq 0 (length es))).
Proof.
  intros Hz. assert (Hin : ∀ p, p ∈ seq 0 (length es) ↔ (p < length es)%nat) by (intros; rewrite elem_of_seq; lia).
  split; simpl.
  - apply NoDup_ListNoDup, seq_NoDup.
  - intros p. by rewrite Hin.
  - intros i p Hp. right. apply lookup_seq in Hp as [-> Hlt]. unfold entryAt. simpl.
    destruct (lookup_lt_is_Some_2 es i Hlt) as [e He]. rewrite He. simpl.
    apply Hz. by eapply list_elem_of_lookup_2.
  - intros p Hp. by rewrite Hin.
Qed.

Lemma heapEntries_index0 cs load counts rc rm e :
  e ∈ heapEntries cs load counts rc rm → setHeapIndex 0 e = e.
Proof. intros (i & c & _ & _ & ->)%elem_of_heapEntries. done. Qed.

Lemma scores_all es : (∀ e, e ∈ es → setHeapIndex 0 e = e) → scores (mkHeap es (seq 0 (length es))) (seq 0 (length es)) = es.
Proof.
  intros Hz. apply list_eq. intros i. unfold scores. rewrite list_lookup_fmap.
  destruct (decide (i < length es)%nat) as [Hlt|Hge].
  - rewrite (proj2 (lookup_seq _ _ _ i)) by done. simpl. unfold entryAt. simpl.
    destruct (lookup_lt_is_Some_2 es i Hlt) as [e He]. rewrite He. simpl. f_equal.
    apply Hz. by eapply list_elem_of_lookup_2.
  - rewrite !lookup_ge_None_2; [done|lia|rewrite length_seq; lia].
Qed.

(** Building a cache succeeds, and it holds exactly the candidates that have the
    required resources. *)
Lemma NewNodeCapacityCache_ok cs load counts rc rm :
  NoDup (cn_id <$> cs) →
  ∃ c, NewNodeCapacityCache cs load counts rc rm = Some c ∧ cache_wf c ∧ cache_ordered c ∧
    minimumCPU c = rc ∧ minimumMemory c = rm ∧ live c ≡ₚ heapEntries cs load counts rc rm ∧
    (∀ nodeID, is_Some (lookupMap c !! nodeID) → nodeID ∈ cn_id <$> cs).
Proof.
  intros Hnd. unfold NewNodeCapacityCache, buildNodeHeap.
  set (es := heapEntries cs load counts rc rm).
  assert (Hz : ∀ e, e ∈ es → setHeapIndex 0 e = e) by (apply heapEntries_index0).
  assert (Hz' : ∀ e, e ∈ es → heapIndex e = 0) by (intros e He; by rewrite <-(Hz e He)).
  set (h0 := mkHeap es (seq 0 (length es))).
  destruct (Init_spec h0) as (h & E & Hsh & Hheap). rewrite E. simpl.
  assert (kept_by_swaps h0 ∅ h) as (Hwf & Hsc & _).
  { eapply (Init_invariant (kept_by_swaps h0 ∅)); [apply kept_Swap| |exact E].
    split_and!; [by apply initial_wf|done|set_solver]. }
  eexists. split_and!; [done| | |done|done| |].
  - split; [done|]. simpl. intros nodeID p. rewrite lookupMap_entries by (by apply heapEntries_nodup).
    rewrite (same_scores_length _ _ Hsc), (same_scores_id _ _ _ Hsc). simpl. unfold entryAt. simpl. fold es.
    split.
    + intros (e & He & <-). rewrite He. split; [by eapply lookup_lt_Some|done].
    + intros [Hlt <-]. destruct (lookup_lt_is_Some_2 es p Hlt) as [e He]. rewrite He. simpl. by exists e.
  - unfold cache_ordered, Len in *. simpl heapData. by rewrite (shuffled_length _ _ _ Hsh).
  - unfold live. simpl. fold (scores h (heapSlice h)). rewrite (same_scores_scores _ _ _ Hsc).
    unfold scores. rewrite (shuffled_all_perm _ _ _ Hsh). fold (scores h0 (slots h0)).
    change (scores h0 (seq 0 (length es)) ≡ₚ es). unfold h0. by rewrite scores_all.
  - simpl. intros nodeID [p Hp]. apply lookupMap_entries in Hp as (e & He & <-); [|by apply heapEntries_nodup].
    apply list_elem_of_lookup_2, elem_of_heapEntries in He as (i & c & Hc & _ & ->).
    apply list_elem_of_fmap. exists c. split; [done|]. by eapply list_elem_of_lookup_2.
Qed.

(** ** The chosen node *)

Lemma RecordPlacement_frame nodeID a b c c' :
  RecordPlacement nodeID a b c = Some c' →
  lookupMap c' = lookupMap c ∧ minimumCPU c' = minimumCPU c ∧ minimumMemory c' = minimumMemory c.
Proof.
  unfold RecordPlacement. destruct (lookupMap c !! nodeID); [|naive_solver].
  destruct (_ <? 0); [naive_solver|].
  match goal with |- (?o ≫= _ = _ → _) => destruct o; simpl; [naive_solver|done] end.
Qed.

Lemma RemoveNode_frame nodeID c c' :
  RemoveNode nodeID c = Some c' →
  lookupMap c' = lookupMap c ∧ minimumCPU c' = minimumCPU c ∧ minimumMemory c' = minimumMemory c.
Proof.
  unfold RemoveNode. destruct (lookupMap c !! nodeID); [|naive_solver].
  destruct (_ <? 0); [naive_solver|]. destruct (heapRemove _ _); simpl; [naive_solver|done].
Qed.

Lemma in_heap_known c p :
  cache_wf c → p ∈ heapSlice (heapData c) → lookupMap c !! entryId (entryAt (heapData c) p) = Some p.
Proof.
  intros Hc Hp. apply (cw_lookup _ Hc). split; [|done]. by apply (wf_valid _ (cw_heap _ Hc)).
Qed.

(** Both selections return a node of the cache. *)
Lemma BestNode_known c : cache_wf c → cacheLen c ≠ 0%nat → is_Some (lookupMap c !! BestNode c).
Proof.
  intros Hc Hne. unfold BestNode, selectFromHeap, cacheLen in *.
  destruct (heapSlice (heapData c)) as [|p rest] eqn:E; [done|].
  exists p. apply in_heap_known; [done|]. rewrite E. set_solver.
Qed.

Lemma BestNodeInZones_known zones c :
  cache_wf c → cacheLen c ≠ 0%nat → is_Some (lookupMap c !! BestNodeInZones zones c).
Proof.
  intros Hc Hne. unfold BestNodeInZones. case_decide; [by apply BestNode_known|].
  destruct (list_find _ _) as [[i p]|] eqn:E; [|by apply BestNode_known].
  apply list_find_Some in E as (Hi & _). exists p. apply in_heap_known; [done|].
  by eapply list_elem_of_lookup_2.
Qed.

(** The root is the best candidate left. *)
Lemma BestNode_min c p rest :
  cache_wf c → cache_ordered c → heapSlice (heapData c) = p :: rest →
  exact p (heapData c) ∧ BestNode c = entryId (entryAt (heapData c) p) ∧
  ∀ e, e ∈ live c → entryLess e (setHeapIndex 0 (entryAt (heapData c) p)) = false.
Proof.
  intros Hc Ho E. split_and!.
  - intros i Hi. assert (i = 0%nat) as ->.
    { apply (NoDup_lookup _ _ _ _ (wf_nodup _ (cw_heap _ Hc)) Hi). by rewrite E. }
    destruct (wf_index _ (cw_heap _ Hc) 0 p) as [H|H]; [by rewrite E|done|done].
  - unfold BestNode, selectFromHeap. by rewrite E.
  - intros e (q & -> & Hq)%list_elem_of_fmap. rewrite entryLess_setHeapIndex.
    apply (heap_root_min (H := nodeHeapInterface) (heapData c) p q Ho); [|done].
    simpl. by rewrite E.
Qed.
