(* ===== verification/SchedulerFacts.v ===== *)
(** * What the scheduler reads from the facts (src/scheduler/scheduler.go)

    The scheduler's view of nodes, instances, placements and services, and the
    functions that extract it from the fact list. The Go structs behind map
    entries are pointers that only these functions mutate, so an entry is a
    value here. A map that may be nil is an empty map: the code reads a nil map
    as empty and allocates before it writes. A [map[string]bool] that only ever
    holds [true] is a set. *)

From S2P Require Import Prelude GoStrings Keys EventHistory PrefixSearch.

(** ** Data *)

Record schedulerNodeInfo := mkNodeInfo {
  ni_id : string;
  ni_state : string;
  ni_availCPU : Z;
  ni_availMemory : Z;
  ni_architecture : string;
  ni_zone : string;
  ni_labels : gmap string string;
  ni_restrictions : gmap string string
}.

Record schedulerInstanceInfo := mkInstanceInfo {
  service : string;
  state : string;
  startupProbeState : string;
  stillStarting : bool
}.

Record serviceResourceRequirements := mkResources { cpu : Z; memory : Z }.

Record servicePlacementConstraint := mkConstraint {
  mode : string;
  architecture : string;
  zonePolicy : string;
  zoneMaxSkew : Z;
  require : gmap string string;
  prefer : gmap string string;
  accept : gset string;
  colocate : list string;
  separate : list string;
  rebalance : bool;
  volumeHomeNodes : gset string
}.

Definition zeroNodeInfo (nodeID : string) : schedulerNodeInfo :=
  mkNodeInfo nodeID "" 0 0 "" "" ∅ ∅.
Definition zeroInstanceInfo : schedulerInstanceInfo := mkInstanceInfo "" "" "" false.
Definition zeroConstraint : servicePlacementConstraint :=
  mkConstraint "" "" "" 0 ∅ ∅ ∅ [] [] false ∅.

(** ** Paths *)

(** The facts under a prefix, each with the parts of its path below it and its
    value. *)
Definition factParts (facts : list Fact) (prefix : string) (n : nat) : list (list string * string) :=
  (λ f, (SplitN slash n (TrimPrefix (Key f) prefix), Value f)) <$> FactsWithPrefix facts prefix.

(** ** Services *)

Definition extractServicePriorities (facts : list Fact) : gmap string Z :=
  foldl (λ priorities '(parts, value),
    match parts with
    | [name; field] =>
        if decide (field = "priority") then
          match Atoi value with
          | (parsedValue, None) => <[name := parsedValue]> priorities
          | (_, Some _) => priorities
          end
        else priorities
    | _ => priorities
    end) ∅ (factParts facts ScanDesiredServices 2).

Definition extractStatefulServices (facts : list Fact) : gset string :=
  foldl (λ stateful '(parts, value),
    match parts with
    | [name; field] =>
        if decide (field = "stateful") then
          if decide (value = "true") then {[name]} ∪ stateful else stateful
        else stateful
    | _ => stateful
    end) ∅ (factParts facts ScanDesiredServices 2).

Definition startupProbeStateKeySuffix : string := "probe/" +:+ ProbeStartup.
Definition startupProbeMethodKeySuffix : string := "probe/" +:+ ProbeStartup +:+ "/method".

Definition extractServicesWithStartupProbe (facts : list Fact) : gset string :=
  foldl (λ services '(parts, value),
    match parts with
    | [name; field] => if decide (field = startupProbeMethodKeySuffix) then {[name]} ∪ services else services
    | _ => services
    end) ∅ (factParts facts ScanDesiredServices 2).

Definition markInstancesStillStarting (instances : gmap string schedulerInstanceInfo)
    (servicesWithStartupProbe : gset string) : gmap string schedulerInstanceInfo :=
  (λ instanceInfo,
     mkInstanceInfo (service instanceInfo) (state instanceInfo) (startupProbeState instanceInfo)
       (bool_decide (service instanceInfo ∈ servicesWithStartupProbe) &&
        negb (bool_decide (startupProbeState instanceInfo = StartupProbeSucceeded)))) <$> instances.

Definition serviceVolumeKeySegment : string := "volume".
Definition volumeAccessKeySegment : string := "access".
Definition volumeHomeNodeKeySuffix : string := "home_node".

Definition extractSharedVolumeNames (facts : list Fact) : gset string :=
  foldl (λ shared '(parts, value),
    match parts with
    | [name; field] =>
        if decide (field = volumeAccessKeySegment) then
          if decide (value = VolumeAccessShared) then {[name]} ∪ shared else shared
        else shared
    | _ => shared
    end) ∅ (factParts facts ScanObservedVolumes 2).

Definition extractRebalancePinnedServices (facts : list Fact) (statefulServices : gset string) : gset string :=
  let sharedVolumeNames := extractSharedVolumeNames facts in
  foldl (λ pinned '(parts, value),
    match parts with
    | [name; segment; volume] =>
        if decide (segment = serviceVolumeKeySegment) then
          if decide (volume ∈ sharedVolumeNames) then pinned else {[name]} ∪ pinned
        else pinned
    | _ => pinned
    end) statefulServices (factParts facts ScanDesiredServices 3).

Definition extractServiceResourcesFromFacts (facts : list Fact) : gmap string serviceResourceRequirements :=
  foldl (λ resources '(parts, value),
    match parts with
    | [name; segment; field] =>
        if decide (segment = "resources") then
          let resource := default (mkResources 0 0) (resources !! name) in
          let parsedValue := fst (ParseInt value) in
          <[name := if decide (field = "cpu") then mkResources parsedValue (memory resource)
                    else if decide (field = "memory") then mkResources (cpu resource) parsedValue
                    else resource]> resources
        else resources
    | _ => resources
    end) ∅ (factParts facts ScanDesiredServices 3).

Definition extractServiceGroupMemberships (facts : list Fact) : gmap string string :=
  foldl (λ serviceToGroup '(parts, value),
    match parts with
    | [groupName; segment; serviceName] =>
        if decide (segment = "process") then <[serviceName := groupName]> serviceToGroup else serviceToGroup
    | _ => serviceToGroup
    end) ∅ (factParts facts ScanDesiredGroups 3).

(** The switch of [extractPlacementConstraints] on the rest of the path. *)
Definition constraintField (suffix value : string) (c : servicePlacementConstraint)
    : servicePlacementConstraint :=
  let '(mkConstraint mode architecture zonePolicy zoneMaxSkew require prefer accept colocate separate
                     rebalance volumeHomeNodes) := c in
  if decide (suffix = "placement/mode") then
    mkConstraint value architecture zonePolicy zoneMaxSkew require prefer accept colocate separate rebalance volumeHomeNodes
  else if decide (suffix = "placement/rebalance") then
    mkConstraint mode architecture zonePolicy zoneMaxSkew require prefer accept colocate separate
                 (bool_decide (value = "true")) volumeHomeNodes
  else if decide (suffix = "placement/architecture") then
    mkConstraint mode value zonePolicy zoneMaxSkew require prefer accept colocate separate rebalance volumeHomeNodes
  else if decide (suffix = "placement/zone") then
    mkConstraint mode architecture value zoneMaxSkew require prefer accept colocate separate rebalance volumeHomeNodes
  else if decide (suffix = "placement/zone/maxSkew") then
    match Atoi value with
    | (parsedMaxSkew, None) =>
        if (1 <=? parsedMaxSkew)%Z
        then mkConstraint mode architecture zonePolicy parsedMaxSkew require prefer accept colocate separate rebalance volumeHomeNodes
        else c
    | (_, Some _) => c
    end
  else if HasPrefix suffix "placement/require/" then
    mkConstraint mode architecture zonePolicy zoneMaxSkew
      (<[TrimPrefix suffix "placement/require/" := value]> require) prefer accept colocate separate rebalance volumeHomeNodes
  else if HasPrefix suffix "placement/prefer/" then
    mkConstraint mode architecture zonePolicy zoneMaxSkew require
      (<[TrimPrefix suffix "placement/prefer/" := value]> prefer) accept colocate separate rebalance volumeHomeNodes
  else if HasPrefix suffix "placement/accept/" then
    mkConstraint mode architecture zonePolicy zoneMaxSkew require prefer
      ({[TrimPrefix suffix "placement/accept/"]} ∪ accept) colocate separate rebalance volumeHomeNodes
  else if HasPrefix suffix "placement/colocate/" then
    mkConstraint mode architecture zonePolicy zoneMaxSkew require prefer accept
      (colocate ++ [TrimPrefix suffix "placement/colocate/"]) separate rebalance volumeHomeNodes
  else if HasPrefix suffix "placement/separate/" then
    mkConstraint mode architecture zonePolicy zoneMaxSkew require prefer accept colocate
      (separate ++ [TrimPrefix suffix "placement/separate/"]) rebalance volumeHomeNodes
  else c.

Definition extractPlacementConstraints (facts : list Fact) : gmap string servicePlacementConstraint :=
  foldl (λ constraints '(parts, value),
    match parts with
    | [serviceName; suffix] =>
        <[serviceName := constraintField suffix value (default zeroConstraint (constraints !! serviceName))]>
          constraints
    | _ => constraints
    end) ∅ (factParts facts ScanDesiredServices 2).

(** The home node of every volume that records one. *)
Definition extractVolumeHomeNodes (facts : list Fact) : gmap string string :=
  foldl (λ homes '(parts, value),
    match parts with
    | [name; field] =>
        if decide (field = volumeHomeNodeKeySuffix ∧ value ≠ "") then <[name := value]> homes else homes
    | _ => homes
    end) ∅ (factParts facts ScanObservedVolumes 2).

Definition addVolumeHomeNode (homeNode : string) (c : servicePlacementConstraint) : servicePlacementConstraint :=
  mkConstraint (mode c) (architecture c) (zonePolicy c) (zoneMaxSkew c) (require c) (prefer c) (accept c)
               (colocate c) (separate c) (rebalance c) ({[homeNode]} ∪ volumeHomeNodes c).

Definition applyVolumeHomeNodeConstraints (constraints : gmap string servicePlacementConstraint)
    (facts : list Fact) : gmap string servicePlacementConstraint :=
  let homes := extractVolumeHomeNodes facts in
  if decide (homes = ∅) then constraints
  else
    foldl (λ constraints '(parts, value),
      match parts with
      | [serviceName; segment; volume] =>
          if decide (segment = serviceVolumeKeySegment) then
            match homes !! volume with
            | None => constraints
            | Some homeNode =>
                <[serviceName := addVolumeHomeNode homeNode (default zeroConstraint (constraints !! serviceName))]>
                  constraints
            end
          else constraints
      | _ => constraints
      end) constraints (factParts facts ScanDesiredServices 3).

(** ** Nodes, instances, placements *)

(** The switch of [extractNodeInfoFromFacts] on the rest of the path. *)
Definition nodeField (field value : string) (n : schedulerNodeInfo) : schedulerNodeInfo :=
  let '(mkNodeInfo id st c m arch zone labels restrictions) := n in
  if decide (field = "state") then mkNodeInfo id value c m arch zone labels restrictions
  else if decide (field = "available/cpu") then
    match ParseInt value with
    | (parsedCPU, None) => mkNodeInfo id st parsedCPU m arch zone labels restrictions
    | (_, Some _) => n
    end
  else if decide (field = "available/memory") then
    match ParseInt value with
    | (parsedMemory, None) => mkNodeInfo id st c parsedMemory arch zone labels restrictions
    | (_, Some _) => n
    end
  else if decide (field = "architecture") then mkNodeInfo id st c m value zone labels restrictions
  else if decide (field = "zone") then mkNodeInfo id st c m arch value labels restrictions
  else if HasPrefix field "label/" then
    mkNodeInfo id st c m arch zone (<[TrimPrefix field "label/" := value]> labels) restrictions
  else if HasPrefix field "restrict/" then
    mkNodeInfo id st c m arch zone labels (<[TrimPrefix field "restrict/" := value]> restrictions)
  else n.

Definition extractNodeInfoFromFacts (facts : list Fact) : gmap string schedulerNodeInfo :=
  foldl (λ nodes '(parts, value),
    match parts with
    | [] => nodes
    | nodeID :: rest =>
        let node := default (zeroNodeInfo nodeID) (nodes !! nodeID) in
        <[nodeID := match rest with [field] => nodeField field value node | _ => node end]> nodes
    end) ∅ (factParts facts ScanObservedNodes 2).

Definition instanceField (field value : string) (i : schedulerInstanceInfo) : schedulerInstanceInfo :=
  if decide (field = "service") then mkInstanceInfo value (state i) (startupProbeState i) (stillStarting i)
  else if decide (field = "state") then mkInstanceInfo (service i) value (startupProbeState i) (stillStarting i)
  else if decide (field = startupProbeStateKeySuffix) then
    mkInstanceInfo (service i) (state i) value (stillStarting i)
  else i.

Definition extractInstanceInfoFromFacts (facts : list Fact) : gmap string schedulerInstanceInfo :=
  foldl (λ instances '(parts, value),
    match parts with
    | [instanceID; field] =>
        <[instanceID := instanceField field value (default zeroInstanceInfo (instances !! instanceID))]> instances
    | _ => instances
    end) ∅ (factParts facts ScanObservedInstances 2).

Definition extractPlacementsFromFacts (facts : list Fact) : gmap string string :=
  foldl (λ placements f,
    let relativePath := TrimPrefix (Key f) ScanPlacements in
    if negb (bool_decide (relativePath = "")) && negb (ContainsByte relativePath slash)
    then <[relativePath := Value f]> placements else placements)
    ∅ (FactsWithPrefix facts ScanPlacements).

(** The instances that have unplaced-demand facts, sorted and without
    repetition. *)
Definition extractExistingUnplacedInstanceIDs (facts : list Fact) : list string :=
  let seen : gset string :=
    foldl (λ seen '(parts, value),
      match parts with
      | name :: _ => if decide (name = "") then seen else {[name]} ∪ seen
      | [] => seen
      end) ∅ (factParts facts ScanDerivedSchedulerUnplaced 2) in
  sort_strings (elements seen).
