(* ===== verification/Placement.v ===== *)
(** * Placement of pending instances (src/scheduler/scheduler.go)

    The functions that turn unplaced instances into placement changes. Each is a
    function of the iteration order of maps ([GoMapRange]) and, where it uses
    [sort.Slice], of the sorting algorithm ([GoSort]). The struct
    [placementState] is threaded explicitly; the slices and maps the code
    shares through it (the [alive] slice, the per-service count maps) are
    written back to it. A panic is [None]. *)

From S2P Require Import Prelude GoStrings Keys EventHistory Heap NodeHeap SchedulerFacts.

Local Open Scope Z_scope.

(** ** Changes (src/controllers/controller.go) *)

Record Change := mkChange {
  ChangeType : OpType;
  ChangeKey : string;
  ChangeValue : string;
  Group : string
}.

(** ** Maps *)

(** [m[k]] of a map of numbers: zero when absent. *)
Definition countOf (m : gmap string Z) (k : string) : Z := default 0 (m !! k).

(** [m[k]++] *)
Definition increment (k : string) (m : gmap string Z) : gmap string Z := <[k := countOf m k + 1]> m.

(** [m[k] += v] on [int64] values. *)
Definition addTo (k : string) (v : Z) (m : gmap string Z) : gmap string Z := <[k := (countOf m k +! v)%go]> m.

(** [m[s][k]++], allocating the inner map when needed. *)
Definition increment2 (s k : string) (m : gmap string (gmap string Z)) : gmap string (gmap string Z) :=
  <[s := increment k (default ∅ (m !! s))]> m.

(** [for x := range set] *)
Definition set_range `{GoMapRange} (s : gset string) : list string := fst <$> map_range (gset_to_gmap true s).

(** ** Candidate nodes *)

Definition candidateOf (usedCPU usedMemory : gmap string Z) (n : schedulerNodeInfo) : candidateNode :=
  mkCandidate (ni_id n) (ni_availCPU n -! countOf usedCPU (ni_id n))%go
              (ni_availMemory n -! countOf usedMemory (ni_id n))%go
              (ni_architecture n) (ni_zone n) (ni_labels n) (ni_restrictions n).

Definition candidateLess (a b : candidateNode) : bool := str_ltb (cn_id a) (cn_id b).

Section placement.
Context `{GoMapRange} `{GoSort}.

Definition computeNodeLoadAndResourceUsage (placements : gmap string string)
    (instances : gmap string schedulerInstanceInfo)
    (serviceResources : gmap string serviceResourceRequirements)
    : gmap string Z * gmap string Z * gmap string Z :=
  foldl (λ '(loadPerNode, usedCPU, usedMemory) '(instanceID, nodeID),
    let loadPerNode' := increment nodeID loadPerNode in
    match instances !! instanceID with
    | None => (loadPerNode', usedCPU, usedMemory)
    | Some instanceInfo =>
        match serviceResources !! service instanceInfo with
        | None => (loadPerNode', usedCPU, usedMemory)
        | Some resource =>
            (loadPerNode', addTo nodeID (cpu resource) usedCPU, addTo nodeID (memory resource) usedMemory)
        end
    end) (∅, ∅, ∅) (map_range placements).

Definition buildAliveCandidateNodes (nodes : gmap string schedulerNodeInfo) (usedCPU usedMemory : gmap string Z)
    : list candidateNode :=
  sort_slice candidateLess
    (omap (λ kn, if decide (ni_state (snd kn) = NodeAlive)
                 then Some (candidateOf usedCPU usedMemory (snd kn)) else None) (map_range nodes)).

Definition buildNodeIndexMap (alive : list candidateNode) : gmap string nat :=
  foldl (λ indexMap ic, <[cn_id (snd ic) := fst ic]> indexMap) ∅ (zip (seq 0 (length alive)) alive).

Definition buildNodeZoneMap (alive : list candidateNode) : gmap string string :=
  foldl (λ zoneMap n, if decide (cn_zone n = "") then zoneMap else <[cn_id n := cn_zone n]> zoneMap) ∅ alive.

Definition computeServiceZonePlacements (placements : gmap string string)
    (instances : gmap string schedulerInstanceInfo) (nodeZoneMap : gmap string string)
    : gmap string (gmap string Z) :=
  foldl (λ counts '(instanceID, nodeID),
    match instances !! instanceID with
    | None => counts
    | Some instanceInfo =>
        if decide (state instanceInfo = InstanceStopped) then counts
        else
          let zone := default "" (nodeZoneMap !! nodeID) in
          if decide (zone = "") then counts else increment2 (service instanceInfo) zone counts
    end) ∅ (map_range placements).

Definition buildNodeServicesMap (placements : gmap string string)
    (instances : gmap string schedulerInstanceInfo) : gmap string (gset string) :=
  foldl (λ nodeServices '(instanceID, nodeID),
    match instances !! instanceID with
    | None => nodeServices
    | Some instanceInfo =>
        if decide (state instanceInfo = InstanceRunning ∨ state instanceInfo = InstancePending)
        then <[nodeID := {[service instanceInfo]} ∪ default ∅ (nodeServices !! nodeID)]> nodeServices
        else nodeServices
    end) ∅ (map_range placements).

Definition countServiceInstancesPerNode (placements : gmap string string)
    (instances : gmap string schedulerInstanceInfo) : gmap string (gmap string Z) :=
  foldl (λ counts '(instanceID, nodeID),
    match instances !! instanceID with
    | None => counts
    | Some instanceInfo => increment2 (service instanceInfo) nodeID counts
    end) ∅ (map_range placements).

Definition findUnplacedPendingInstances (instances : gmap string schedulerInstanceInfo)
    (placements : gmap string string) : list string :=
  sort_strings (omap (λ ii, if decide (state (snd ii) = InstancePending ∧ default "" (placements !! fst ii) = "")
                            then Some (fst ii) else None) (map_range instances)).

(** ** Filters and ranking *)

Definition satisfiesRequireLabels (candidate : candidateNode) (requireLabels : gmap string string) : bool :=
  forallb (λ lv, bool_decide (cn_labels candidate !! fst lv = Some (snd lv))) (map_range requireLabels).

Definition toleratesRestrictions (candidate : candidateNode) (acceptLabels : gset string) : bool :=
  forallb (λ lv, bool_decide (fst lv ∈ acceptLabels)) (map_range (cn_restrictions candidate)).

Definition filterByRestrictions (candidates : list candidateNode) (acceptLabels : gset string) : list candidateNode :=
  match filter (λ c, toleratesRestrictions c acceptLabels = true) candidates with
  | [] => candidates
  | filtered => filtered
  end.

Definition isHomeOfAllVolumes (nodeID : string) (homes : gset string) : bool :=
  (size homes =? 1)%nat && bool_decide (nodeID ∈ homes).

Definition filterByVolumeHomeNodes (candidates : list candidateNode) (homes : gset string) : list candidateNode :=
  filter (λ c, isHomeOfAllVolumes (cn_id c) homes = true) candidates.

(** The tests of the loop of [filterByConstraints]. *)
Definition matchesConstraint (constraint : servicePlacementConstraint) (candidate : candidateNode) : bool :=
  negb (negb (bool_decide (architecture constraint = "")) && negb (bool_decide (cn_architecture candidate = "")) &&
        negb (bool_decide (cn_architecture candidate = architecture constraint))) &&
  negb (negb (bool_decide (zonePolicy constraint = "")) && negb (bool_decide (zonePolicy constraint = "spread")) &&
        negb (bool_decide (cn_zone candidate = "")) &&
        negb (bool_decide (cn_zone candidate = zonePolicy constraint))) &&
  satisfiesRequireLabels candidate (require constraint) &&
  toleratesRestrictions candidate (accept constraint).

Definition filterByConstraints (candidates : list candidateNode) (serviceName : string)
    (constraints : gmap string servicePlacementConstraint) : list candidateNode :=
  match constraints !! serviceName with
  | None => filterByRestrictions candidates ∅
  | Some constraint =>
      let candidates1 := if decide (volumeHomeNodes constraint = ∅) then candidates
                         else filterByVolumeHomeNodes candidates (volumeHomeNodes constraint) in
      if negb (bool_decide (volumeHomeNodes constraint = ∅)) && bool_decide (candidates1 = []) then []
      else match filter (λ c, matchesConstraint constraint c = true) candidates1 with
           | [] => candidates1
           | filtered => filtered
           end
  end.

Definition filterOutNodesAlreadyHostingService (candidates : list candidateNode) (serviceName : string)
    (placements : gmap string string) (instances : gmap string schedulerInstanceInfo) : list candidateNode :=
  let occupiedNodes : gset string :=
    foldl (λ occupied '(instanceID, nodeID),
      match instances !! instanceID with
      | Some instanceInfo => if decide (service instanceInfo = serviceName) then {[nodeID]} ∪ occupied else occupied
      | None => occupied
      end) ∅ (map_range placements) in
  filter (λ c, cn_id c ∉ occupiedNodes) candidates.

(** Stable order by descending score. *)
Definition rankBy (score : candidateNode → Z) (candidates : list candidateNode) : list candidateNode :=
  snd <$> sort_stable (λ a b : Z * candidateNode, fst b <? fst a) ((λ c, (score c, c)) <$> candidates).

Definition preferScore (preferLabels : gmap string string) (candidate : candidateNode) : Z :=
  foldl (λ score lv, if decide (default "" (cn_labels candidate !! fst lv) = snd lv) then score + 1 else score)
        0 (map_range preferLabels).

Definition rankByPreferences (candidates : list candidateNode) (preferLabels : gmap string string)
    : list candidateNode := rankBy (preferScore preferLabels) candidates.

Definition affinityScore (colocateTargets separateTargets : list string)
    (nodeServicesMap : gmap string (gset string)) (candidate : candidateNode) : Z :=
  let nodeServices := default ∅ (nodeServicesMap !! cn_id candidate) in
  let colocated := foldl (λ score target, if decide (target ∈ nodeServices) then score + 1 else score) 0 colocateTargets in
  foldl (λ score target, if decide (target ∈ nodeServices) then score - 1 else score) colocated separateTargets.

Definition rankByAffinityHints (candidates : list candidateNode) (colocateTargets separateTargets : list string)
    (nodeServicesMap : gmap string (gset string)) : list candidateNode :=
  if bool_decide (colocateTargets = []) && bool_decide (separateTargets = []) then candidates
  else rankBy (affinityScore colocateTargets separateTargets nodeServicesMap) candidates.

(** ** Placement state *)

Record placementState := mkState {
  alive : list candidateNode;
  loadPerNode : gmap string Z;
  serviceZoneCounts : gmap string (gmap string Z);
  serviceResources : gmap string serviceResourceRequirements;
  placementConstraints : gmap string servicePlacementConstraint;
  instances : gmap string schedulerInstanceInfo;
  placements : gmap string string;
  serviceToGroup : gmap string string;
  nodeIndexMap : gmap string nat;
  nodeServicesMap : gmap string (gset string);
  serviceInstancesPerNode : gmap string (gmap string Z)
}.

(** The parts a placement changes. *)
Definition update (al : list candidateNode) (load : gmap string Z)
    (zones counts : gmap string (gmap string Z)) (st : placementState) : placementState :=
  mkState al load zones (serviceResources st) (placementConstraints st) (instances st) (placements st)
          (serviceToGroup st) (nodeIndexMap st) (nodeServicesMap st) counts.

Definition charge (requiredCPU requiredMemory : Z) (n : candidateNode) : candidateNode :=
  mkCandidate (cn_id n) (cn_availCPU n -! requiredCPU)%go (cn_availMemory n -! requiredMemory)%go
              (cn_architecture n) (cn_zone n) (cn_labels n) (cn_restrictions n).

(** The index comes from [buildNodeIndexMap] of the same slice; an index outside
    it would panic. *)
Definition updateNodeResourcesAfterPlacement (aliveNodes : list candidateNode) (selectedNodeID : string)
    (requiredCPU requiredMemory : Z) (serviceName : string) (zoneCounts : gmap string (gmap string Z))
    (indexMap : gmap string nat) : option (list candidateNode * gmap string (gmap string Z)) :=
  match indexMap !! selectedNodeID with
  | None => Some (aliveNodes, zoneCounts)
  | Some nodeIndex =>
      n ← aliveNodes !! nodeIndex;
      Some (<[nodeIndex := charge requiredCPU requiredMemory n]> aliveNodes,
            if decide (cn_zone n ≠ "" ∧ serviceName ≠ "")
            then increment2 serviceName (cn_zone n) zoneCounts else zoneCounts)
  end.

Definition minZoneCount (candidates : list candidateNode) (zoneCounts : gmap string Z) : Z :=
  foldl (λ minCount c, let count := countOf zoneCounts (zoneOrDefault (cn_zone c)) in
                       if count <? minCount then count else minCount) int64_max candidates.

Definition findMinZones (candidates : list candidateNode) (serviceName : string)
    (zoneCountsOf : gmap string (gmap string Z)) (maxSkew0 : Z) : gset string :=
  let maxSkew := if maxSkew0 <? 1 then 1 else maxSkew0 in
  let zoneCounts := default ∅ (zoneCountsOf !! serviceName) in
  let threshold := (minZoneCount candidates zoneCounts +! maxSkew)%go in
  foldl (λ acceptable c,
    let zone := zoneOrDefault (cn_zone c) in
    if countOf zoneCounts zone <? threshold then {[zone]} ∪ acceptable else acceptable) ∅ candidates.

Definition resolveInstanceResourceNeeds (instanceInfo : option schedulerInstanceInfo)
    (resources : gmap string serviceResourceRequirements) : string * Z * Z :=
  match instanceInfo with
  | None => ("", 0, 0)
  | Some info =>
      match resources !! service info with
      | Some resource => (service info, cpu resource, memory resource)
      | None => (service info, 0, 0)
      end
  end.

(** The pair of changes that records a placement. *)
Definition placementChanges (instanceID nodeID : string) : list Change :=
  let groupID := "placement/" +:+ instanceID in
  [mkChange OpPut (KeyPlacementInstance instanceID) nodeID groupID;
   mkChange OpPut (KeyPlacementNodeInstance nodeID instanceID) "" groupID].

(** ** Batches *)

(** The filter and rank pipeline of [placeBatchedInstances]. *)
Definition batchCandidates (serviceName : string) (st : placementState) : list candidateNode :=
  let candidates := filterByConstraints (alive st) serviceName (placementConstraints st) in
  match placementConstraints st !! serviceName with
  | None => candidates
  | Some constraint =>
      let candidates1 := if decide (mode constraint = "per-node")
        then filterOutNodesAlreadyHostingService candidates serviceName (placements st) (instances st)
        else candidates in
      let candidates2 := if decide (prefer constraint = ∅) then candidates1
        else rankByPreferences candidates1 (prefer constraint) in
      if bool_decide (colocate constraint = []) && bool_decide (separate constraint = []) then candidates2
      else rankByAffinityHints candidates2 (colocate constraint) (separate constraint) (nodeServicesMap st)
  end.

(** What a batch looks at in its service's constraint. *)
Record batchPolicy := mkPolicy { useZoneSpread : bool; maxSkew : Z; perNode : bool }.

Definition policyOf (constraint : option servicePlacementConstraint) : batchPolicy :=
  match constraint with
  | None => mkPolicy false 1 false
  | Some c => mkPolicy (bool_decide (zonePolicy c = "spread"))
                       (if 0 <? zoneMaxSkew c then zoneMaxSkew c else 1)
                       (bool_decide (mode c = "per-node"))
  end.

Definition chooseNode (policy : batchPolicy) (candidates : list candidateNode) (serviceName : string)
    (st : placementState) (cache : NodeCapacityCache) : string :=
  if useZoneSpread policy
  then BestNodeInZones (findMinZones candidates serviceName (serviceZoneCounts st) (maxSkew policy)) cache
  else BestNode cache.

(** The body of the loop once a node is chosen. *)
Definition placeOnNode (policy : batchPolicy) (serviceName bestNode : string) (reqCPU reqMemory : Z)
    (st : placementState) (cache : NodeCapacityCache) : option (placementState * NodeCapacityCache) :=
  cache1 ← RecordPlacement bestNode reqCPU reqMemory cache;
  cache2 ← (if perNode policy then RemoveNode bestNode cache1 else Some cache1);
  updated ← updateNodeResourcesAfterPlacement (alive st) bestNode reqCPU reqMemory serviceName
              (serviceZoneCounts st) (nodeIndexMap st);
  Some (update (fst updated) (increment bestNode (loadPerNode st)) (snd updated)
               (increment2 serviceName bestNode (serviceInstancesPerNode st)) st, cache2).

Fixpoint placeBatchLoop (policy : batchPolicy) (candidates : list candidateNode) (serviceName : string)
    (reqCPU reqMemory : Z) (instanceIDs : list string) (st : placementState) (cache : NodeCapacityCache)
    : option (list Change * placementState) :=
  match instanceIDs with
  | [] => Some ([], st)
  | instanceID :: rest =>
      if (cacheLen cache =? 0)%nat then Some ([], st)
      else
        let bestNode := chooseNode policy candidates serviceName st cache in
        if decide (bestNode = "") then Some ([], st)
        else
          next ← placeOnNode policy serviceName bestNode reqCPU reqMemory st cache;
          more ← placeBatchLoop policy candidates serviceName reqCPU reqMemory rest (fst next) (snd next);
          Some (placementChanges instanceID bestNode ++ fst more, snd more)
  end.

Definition placeBatchedInstances (serviceName : string) (instanceIDs : list string) (st : placementState)
    : option (list Change * placementState) :=
  let resource := default (mkResources 0 0) (serviceResources st !! serviceName) in
  let candidates := batchCandidates serviceName st in
  let policy := policyOf (placementConstraints st !! serviceName) in
  let counts := default ∅ (serviceInstancesPerNode st !! serviceName) in
  let st0 := update (alive st) (loadPerNode st) (serviceZoneCounts st)
                    (<[serviceName := counts]> (serviceInstancesPerNode st)) st in
  cache ← NewNodeCapacityCache candidates (loadPerNode st0) counts (cpu resource) (memory resource);
  placeBatchLoop policy candidates serviceName (cpu resource) (memory resource) instanceIDs st0 cache.

Definition groupInstancesByService (instanceIDs : list string) (insts : gmap string schedulerInstanceInfo)
    : gmap string (list string) :=
  foldl (λ batches instanceID,
    let serviceName := match insts !! instanceID with Some info => service info | None => "" end in
    <[serviceName := default [] (batches !! serviceName) ++ [instanceID]]> batches) ∅ instanceIDs.

Definition sortedServiceNames (batches : gmap string (list string)) : list string :=
  sort_strings (fst <$> map_range batches).

(** Runs one placement step after another, collecting the changes. *)
Fixpoint placeEach {A} (place : A → placementState → option (list Change * placementState))
    (xs : list A) (st : placementState) : option (list Change * placementState) :=
  match xs with
  | [] => Some ([], st)
  | x :: xs' =>
      first ← place x st;
      rest ← placeEach place xs' (snd first);
      Some (fst first ++ fst rest, snd rest)
  end.

Definition placeUngroupedInstances (unplaced : list string) (st : placementState)
    : option (list Change * placementState) :=
  let serviceBatches := groupInstancesByService unplaced (instances st) in
  placeEach (λ serviceName, placeBatchedInstances serviceName (default [] (serviceBatches !! serviceName)))
            (sortedServiceNames serviceBatches) st.

(** ** Groups *)

Definition partitionUnplacedByGroup (unplaced : list string) (insts : gmap string schedulerInstanceInfo)
    (groups : gmap string string) : gmap string (list string) * list string :=
  foldl (λ '(grouped, ungrouped) instanceID,
    match insts !! instanceID with
    | None => (grouped, ungrouped ++ [instanceID])
    | Some info =>
        match groups !! service info with
        | Some groupName => (<[groupName := default [] (grouped !! groupName) ++ [instanceID]]> grouped, ungrouped)
        | None => (grouped, ungrouped ++ [instanceID])
        end
    end) (∅, []) unplaced.

Definition collectGroupVolumeHomeNodes (instanceIDs : list string) (st : placementState) : gset string :=
  foldl (λ homes instanceID,
    match instances st !! instanceID with
    | None => homes
    | Some info => match placementConstraints st !! service info with
                   | Some constraint => volumeHomeNodes constraint ∪ homes
                   | None => homes
                   end
    end) ∅ instanceIDs.

Definition selectGroupVolumeHomeNode (groupHomeNodes : gset string) (st : placementState) : string :=
  match list_find (λ homeNode, is_Some (nodeIndexMap st !! homeNode) ∧
                               isHomeOfAllVolumes homeNode groupHomeNodes = true) (set_range groupHomeNodes) with
  | Some (_, homeNode) => homeNode
  | None => ""
  end.

Definition findExistingGroupNode (groupName : string) (st : placementState) : string :=
  let candidateNodeIDs :=
    omap (λ '(instanceID, nodeID),
      match instances st !! instanceID with
      | Some info => if decide (default "" (serviceToGroup st !! service info) = groupName)
                     then Some nodeID else None
      | None => None
      end) (map_range (placements st)) in
  default "" (head (sort_strings candidateNodeIDs)).

Definition computeGroupResourceTotal (instanceIDs : list string) (st : placementState) : Z * Z :=
  foldl (λ '(totalCPU, totalMemory) instanceID,
    let '(_, reqCPU, reqMemory) := resolveInstanceResourceNeeds (instances st !! instanceID) (serviceResources st) in
    ((totalCPU +! reqCPU)%go, (totalMemory +! reqMemory)%go)) (0, 0) instanceIDs.

Definition selectLeastLoadedNode (al : list candidateNode) (load : gmap string Z) (reqCPU reqMemory : Z)
    : option string :=
  built ← buildNodeHeap al load ∅ reqCPU reqMemory;
  Some (selectFromHeap (fst built)).

(** The target of a group: the node of a member already placed, else the home
    node of its volumes, else the least loaded node that fits its total. *)
Definition groupTarget (groupName : string) (instanceIDs : list string) (st : placementState) : option string :=
  let existing := findExistingGroupNode groupName st in
  let groupHomeNodes := collectGroupVolumeHomeNodes instanceIDs st in
  let home := if decide (existing = "" ∧ groupHomeNodes ≠ ∅)
              then selectGroupVolumeHomeNode groupHomeNodes st else existing in
  if decide (home = "")
  then let '(totalCPU, totalMemory) := computeGroupResourceTotal instanceIDs st in
       selectLeastLoadedNode (alive st) (loadPerNode st) totalCPU totalMemory
  else Some home.

Definition placeGroupMember (targetNode instanceID : string) (st : placementState)
    : option (list Change * placementState) :=
  let '(serviceName, reqCPU, reqMemory) :=
    resolveInstanceResourceNeeds (instances st !! instanceID) (serviceResources st) in
  updated ← updateNodeResourcesAfterPlacement (alive st) targetNode reqCPU reqMemory serviceName
              (serviceZoneCounts st) (nodeIndexMap st);
  Some (placementChanges instanceID targetNode,
        update (fst updated) (increment targetNode (loadPerNode st)) (snd updated)
               (serviceInstancesPerNode st) st).

Definition placeOneGroup (groupName : string) (instanceIDs : list string) (st : placementState)
    : option (list Change * placementState) :=
  targetNode ← groupTarget groupName instanceIDs st;
  let groupHomeNodes := collectGroupVolumeHomeNodes instanceIDs st in
  if decide (targetNode = "" ∨ groupHomeNodes ≠ ∅ ∧ isHomeOfAllVolumes targetNode groupHomeNodes = false)
  then Some ([], st)
  else placeEach (placeGroupMember targetNode) instanceIDs st.

Definition placeGroupedInstances (groupedUnplaced : gmap string (list string)) (st : placementState)
    : option (list Change * placementState) :=
  placeEach (λ groupName, placeOneGroup groupName (default [] (groupedUnplaced !! groupName)))
            (sort_strings (fst <$> map_range groupedUnplaced)) st.

(** ** The placement pipeline *)

Definition initialState (nodes : gmap string schedulerNodeInfo) (insts : gmap string schedulerInstanceInfo)
    (places : gmap string string) (resources : gmap string serviceResourceRequirements)
    (constraints : gmap string servicePlacementConstraint) (groups : gmap string string) : placementState :=
  let '(load, usedCPU, usedMemory) := computeNodeLoadAndResourceUsage places insts resources in
  let al := buildAliveCandidateNodes nodes usedCPU usedMemory in
  mkState al load (computeServiceZonePlacements places insts (buildNodeZoneMap al)) resources constraints
          insts places groups (buildNodeIndexMap al) (buildNodeServicesMap places insts)
          (countServiceInstancesPerNode places insts).

Definition attemptPlacements (unplaced : list string) (nodes : gmap string schedulerNodeInfo)
    (insts : gmap string schedulerInstanceInfo) (places : gmap string string)
    (resources : gmap string serviceResourceRequirements)
    (constraints : gmap string servicePlacementConstraint) (groups : gmap string string)
    : option (list Change) :=
  let st := initialState nodes insts places resources constraints groups in
  if decide (alive st = []) then Some []
  else
    let '(groupedUnplaced, ungroupedUnplaced) := partitionUnplacedByGroup unplaced insts groups in
    grouped ← placeGroupedInstances groupedUnplaced st;
    ungrouped ← placeUngroupedInstances ungroupedUnplaced (snd grouped);
    Some (fst grouped ++ fst ungrouped).

End placement.
