(* ===== verification/Scheduler.v ===== *)
(** * Preemption, unplaced demand, rebalancing and Reconcile
    (src/scheduler/scheduler.go)

    The rest of the scheduler's cycle, composed by [Reconcile]. The clock is an
    argument, in nanoseconds; [firstPendingSeenAt] is [None] for the zero time.
    Log output is left out, except that [detectAndLogNodePressure] returns what
    it would report. A panic is [None]. *)

From S2P Require Import Prelude GoStrings GoFmt Keys EventHistory Heap NodeHeap SchedulerFacts.
From S2P Require Import Placement.

Local Open Scope Z_scope.

Definition initialPlacementGracePeriod : Z := 10 * 1000000000.
Definition maxRebalanceMovesPerCycle : Z := 2.
Definition rebalanceLoadImbalanceThreshold : Z := 2.
Definition nodeAllocationPressurePercent : Z := 80.
Definition maxPreemptionsPerCycle : Z := 3.

Record Scheduler := mkScheduler {
  firstPendingSeenAt : option Z;
  placementGracePeriod : Z
}.

Definition NewScheduler : Scheduler := mkScheduler None initialPlacementGracePeriod.

Definition SetPlacementGracePeriod (duration : Z) (s : Scheduler) : Scheduler :=
  mkScheduler (firstPendingSeenAt s) duration.

Definition Watch : list string :=
  [ScanPlacements; ScanObservedNodes; ScanObservedInstances; ScanDesiredServices; ScanDesiredGroups;
   ScanDerivedSchedulerUnplaced; ScanObservedVolumes].

(** Whether to wait, and the scheduler with its timestamp. *)
Definition shouldDeferInitialPlacement (now : Z) (existingPlacements : gmap string string)
    (unplaced : list string) (s : Scheduler) : bool * Scheduler :=
  if decide (existingPlacements ≠ ∅ ∨ unplaced = []) then (false, mkScheduler None (placementGracePeriod s))
  else if placementGracePeriod s <=? 0 then (false, s)
  else match firstPendingSeenAt s with
       | None => (true, mkScheduler (Some now) (placementGracePeriod s))
       | Some t =>
           if now - t <? placementGracePeriod s then (true, s)
           else (false, mkScheduler None (placementGracePeriod s))
       end.

Section scheduler.
Context `{GoMapRange} `{GoSort}.

(** ** Preemption *)

Record victimCandidate := mkVictim { victimID : string; victimNode : string; victimPriority : Z }.

Definition victimLess (a b : victimCandidate) : bool :=
  if negb (victimPriority a =? victimPriority b) then victimPriority a <? victimPriority b
  else str_ltb (victimID a) (victimID b).

(** The tests of the loop of [findPreemptionVictim]. *)
Definition victimOf (requesterService : string) (requesterPriority : Z)
    (nodes : gmap string schedulerNodeInfo) (insts : gmap string schedulerInstanceInfo)
    (priorities : gmap string Z) (constraints : gmap string servicePlacementConstraint)
    (stateful alreadyPreempted : gset string) (placed : string * string) : option victimCandidate :=
  let '(instanceID, nodeID) := placed in
  if decide (instanceID ∈ alreadyPreempted) then None
  else
    instanceInfo ← insts !! instanceID;
    if decide (state instanceInfo ≠ InstanceRunning) then None
    else
      node ← nodes !! nodeID;
      if decide (ni_state node ≠ NodeAlive) then None
      else if decide (service instanceInfo = requesterService) then None
      else
        let priority := countOf priorities (service instanceInfo) in
        if requesterPriority <=? priority then None
        else if match constraints !! service instanceInfo with
                | Some constraint => bool_decide (mode constraint = "per-node")
                | None => false
                end then None
        else if decide (service instanceInfo ∈ stateful) then None
        else Some (mkVictim instanceID nodeID priority).

Definition findPreemptionVictim (requesterService : string) (requesterPriority : Z)
    (nodes : gmap string schedulerNodeInfo) (insts : gmap string schedulerInstanceInfo)
    (places : gmap string string) (priorities : gmap string Z)
    (constraints : gmap string servicePlacementConstraint)
    (stateful alreadyPreempted : gset string) : string * string :=
  let candidates := omap (victimOf requesterService requesterPriority nodes insts priorities constraints
                                   stateful alreadyPreempted) (map_range places) in
  match sort_slice victimLess candidates with
  | [] => ("", "")
  | victim :: _ => (victimID victim, victimNode victim)
  end.

(** The comparison of the requesters: [instances[id].service] dereferences the
    instance, which exists for every unplaced instance. *)
Definition requesterLess (insts : gmap string schedulerInstanceInfo) (priorities : gmap string Z)
    (a b : string) : bool :=
  let priorityOf i := countOf priorities (match insts !! i with Some info => service info | None => "" end) in
  if negb (priorityOf a =? priorityOf b) then priorityOf b <? priorityOf a else str_ltb a b.

(** One requester: the victim it preempts, if any. *)
Definition preemptFor (nodes : gmap string schedulerNodeInfo) (insts : gmap string schedulerInstanceInfo)
    (places : gmap string string) (constraints : gmap string servicePlacementConstraint)
    (priorities : gmap string Z) (stateful preempted : gset string) (instanceID : string) : option string :=
  instanceInfo ← insts !! instanceID;
  let requesterPriority := countOf priorities (service instanceInfo) in
  if requesterPriority =? 0 then None
  else
    let victim := fst (findPreemptionVictim (service instanceInfo) requesterPriority nodes insts places
                                            priorities constraints stateful preempted) in
    if decide (victim = "") then None else Some victim.

Fixpoint preemptLoop (nodes : gmap string schedulerNodeInfo) (insts : gmap string schedulerInstanceInfo)
    (places : gmap string string) (constraints : gmap string servicePlacementConstraint)
    (priorities : gmap string Z) (stateful : gset string)
    (requesters : list string) (preempted : gset string) (preemptionCount : Z) : list Change :=
  match requesters with
  | [] => []
  | instanceID :: rest =>
      if maxPreemptionsPerCycle <=? preemptionCount then []
      else
        match preemptFor nodes insts places constraints priorities stateful preempted instanceID with
        | None => preemptLoop nodes insts places constraints priorities stateful rest preempted preemptionCount
        | Some victim =>
            mkChange OpPut (KeyDerivedInstanceControllerStopped victim) "true" "" ::
            preemptLoop nodes insts places constraints priorities stateful rest
                        ({[victim]} ∪ preempted) (preemptionCount + 1)
        end
  end.

(** Sorting with the comparison above would dereference a nil instance if an
    unplaced instance were unknown. *)
Definition attemptPreemptions (unplaced : list string) (placedInThisCycle : gset string)
    (nodes : gmap string schedulerNodeInfo) (insts : gmap string schedulerInstanceInfo)
    (places : gmap string string) (constraints : gmap string servicePlacementConstraint)
    (priorities : gmap string Z) (stateful : gset string) : option (list Change) :=
  let stillUnplaced := filter (λ i, i ∉ placedInThisCycle) unplaced in
  match stillUnplaced with
  | [] => Some []
  | [_] => Some (preemptLoop nodes insts places constraints priorities stateful stillUnplaced ∅ 0)
  | _ =>
      if forallb (λ i, bool_decide (is_Some (insts !! i))) stillUnplaced
      then Some (preemptLoop nodes insts places constraints priorities stateful
                   (sort_slice (requesterLess insts priorities) stillUnplaced) ∅ 0)
      else None
  end.

(** ** Unplaced demand *)

Definition collectPlacedInstanceIDs (changes : list Change) : gset string :=
  foldl (λ placed change,
    if bool_decide (ChangeType change = OpPut) && HasPrefix (ChangeKey change) ScanPlacements then
      let instanceID := TrimPrefix (ChangeKey change) ScanPlacements in
      if ContainsByte instanceID slash then placed else {[instanceID]} ∪ placed
    else placed) ∅ changes.

Definition countAliveNodes (nodes : gmap string schedulerNodeInfo) : Z :=
  foldl (λ count kn, if decide (ni_state (snd kn) = NodeAlive) then count + 1 else count) 0 (map_range nodes).

Definition satisfiesRequireLabelsForNode (n : schedulerNodeInfo) (requireLabels : gmap string string) : bool :=
  forallb (λ lv, bool_decide (ni_labels n !! fst lv = Some (snd lv))) (map_range requireLabels).

Definition toleratesRestrictionsForNode (n : schedulerNodeInfo) (acceptLabels : gset string) : bool :=
  forallb (λ lv, bool_decide (fst lv ∈ acceptLabels)) (map_range (ni_restrictions n)).

(** The tests of the loop of [countConstraintMatchingNodes]. *)
Definition nodeMatchesConstraint (constraint : servicePlacementConstraint) (n : schedulerNodeInfo) : bool :=
  bool_decide (ni_state n = NodeAlive) &&
  negb (negb (bool_decide (architecture constraint = "")) && negb (bool_decide (ni_architecture n = "")) &&
        negb (bool_decide (ni_architecture n = architecture constraint))) &&
  satisfiesRequireLabelsForNode n (require constraint) &&
  toleratesRestrictionsForNode n (accept constraint) &&
  negb (negb (bool_decide (volumeHomeNodes constraint = ∅)) &&
        negb (isHomeOfAllVolumes (ni_id n) (volumeHomeNodes constraint))).

Definition countConstraintMatchingNodes (nodes : gmap string schedulerNodeInfo)
    (constraint : servicePlacementConstraint) : Z :=
  foldl (λ count kn, if nodeMatchesConstraint constraint (snd kn) then count + 1 else count) 0 (map_range nodes).

Definition classifyUnplacedReason (instanceInfo : option schedulerInstanceInfo) (aliveCount : Z)
    (nodes : gmap string schedulerNodeInfo) (constraints : gmap string servicePlacementConstraint) : string :=
  if aliveCount =? 0 then UnplacedNoNodes
  else match instanceInfo with
       | None => UnplacedInsufficientCapacity
       | Some info =>
           match constraints !! service info with
           | None => UnplacedInsufficientCapacity
           | Some constraint =>
               let matchCount := countConstraintMatchingNodes nodes constraint in
               if (matchCount =? 0) && negb (bool_decide (volumeHomeNodes constraint = ∅))
               then UnplacedVolumeHomeNodeUnavailable
               else if matchCount =? 0 then UnplacedUnsatisfiableConstraint
               else UnplacedInsufficientCapacity
           end
       end.

Record unplacedDemandRequirements := mkRequirements {
  Service : string; CPU : Z; Memory : Z; Architecture : string
}.

Definition buildUnplacedRequirements (instanceInfo : option schedulerInstanceInfo)
    (resources : gmap string serviceResourceRequirements)
    (constraints : gmap string servicePlacementConstraint) : unplacedDemandRequirements :=
  match instanceInfo with
  | None => mkRequirements "" 0 0 ""
  | Some info =>
      let resource := default (mkResources 0 0) (resources !! service info) in
      mkRequirements (service info) (cpu resource) (memory resource)
        (match constraints !! service info with Some constraint => architecture constraint | None => "" end)
  end.

(** [json.Marshal] of the requirements, which cannot fail. *)
Definition marshalRequirements (r : unplacedDemandRequirements) : string :=
  json_object [("service", json_string (Service r)); ("cpu", json_int (CPU r));
               ("memory", json_int (Memory r)); ("architecture", json_string (Architecture r))].

Definition buildUnplacedFactChanges (instanceID : string) (instanceInfo : option schedulerInstanceInfo)
    (reason : string) (resources : gmap string serviceResourceRequirements)
    (constraints : gmap string servicePlacementConstraint) : list Change :=
  let requirements := buildUnplacedRequirements instanceInfo resources constraints in
  [mkChange OpPut (KeyDerivedSchedulerUnplacedReason instanceID) reason "";
   mkChange OpPut (KeyDerivedSchedulerUnplacedRequirements instanceID) (marshalRequirements requirements) ""].

Definition emitUnplacedDemandFacts (unplaced : list string) (placedInThisCycle : gset string)
    (nodes : gmap string schedulerNodeInfo) (insts : gmap string schedulerInstanceInfo)
    (resources : gmap string serviceResourceRequirements)
    (constraints : gmap string servicePlacementConstraint) : list Change :=
  let aliveCount := countAliveNodes nodes in
  i ← unplaced;
  if decide (i ∈ placedInThisCycle) then []
  else buildUnplacedFactChanges i (insts !! i)
         (classifyUnplacedReason (insts !! i) aliveCount nodes constraints) resources constraints.

Definition cleanupStaleUnplacedFacts (facts : list Fact) (existingPlacements : gmap string string)
    (placedInThisCycle : gset string) : list Change :=
  i ← extractExistingUnplacedInstanceIDs facts;
  if decide (default "" (existingPlacements !! i) ≠ "" ∨ i ∈ placedInThisCycle)
  then [mkChange OpDelete (KeyDerivedSchedulerUnplacedReason i) "" "";
        mkChange OpDelete (KeyDerivedSchedulerUnplacedRequirements i) "" ""]
  else [].

(** ** Rebalancing *)

Definition collectAliveNodeIDs (nodes : gmap string schedulerNodeInfo) : list string :=
  sort_strings (omap (λ kn, if decide (ni_state (snd kn) = NodeAlive) then Some (ni_id (snd kn)) else None)
                     (map_range nodes)).

Definition computeRunningLoadPerNode (places : gmap string string)
    (insts : gmap string schedulerInstanceInfo) (aliveNodeIDs : list string) : gmap string Z :=
  let zeroLoad := foldl (λ load nodeID, <[nodeID := 0]> load) ∅ aliveNodeIDs in
  foldl (λ load '(instanceID, nodeID),
    match insts !! instanceID with
    | None => load
    | Some info =>
        if decide (state info = InstanceRunning ∨ state info = InstancePending) then increment nodeID load else load
    end) zeroLoad (map_range places).

Definition computeMaxMinLoad (nodeLoad : gmap string Z) (aliveNodeIDs : list string) : Z * Z :=
  foldl (λ '(maxLoad, minLoad) nodeID,
    let load := countOf nodeLoad nodeID in
    (if maxLoad <? load then load else maxLoad, if load <? minLoad then load else minLoad))
    (0, int64_max) aliveNodeIDs.

Definition sumNodeLoad (nodeLoad : gmap string Z) : Z :=
  foldl (λ total nc, total + snd nc) 0 (map_range nodeLoad).

Definition findOverloadedNodes (nodeLoad : gmap string Z) (aliveNodeIDs : list string) (idealLoad : Z)
    : list string :=
  sort_slice (λ a b, countOf nodeLoad b <? countOf nodeLoad a)
             (filter (λ nodeID, idealLoad + 1 < countOf nodeLoad nodeID) aliveNodeIDs).

(** The tests of the loop of [findMovableInstances]. *)
Definition isMovable (sourceNodeID : string) (insts : gmap string schedulerInstanceInfo)
    (groups : gmap string string) (placedInThisCycle : gset string)
    (constraints : gmap string servicePlacementConstraint) (pinned : gset string)
    (placed : string * string) : bool :=
  let '(instanceID, nodeID) := placed in
  bool_decide (nodeID = sourceNodeID) && negb (bool_decide (instanceID ∈ placedInThisCycle)) &&
  match insts !! instanceID with
  | None => false
  | Some info =>
      bool_decide (state info = InstanceRunning) && bool_decide (groups !! service info = None) &&
      negb (bool_decide (service info ∈ pinned)) && negb (stillStarting info) &&
      match constraints !! service info with
      | None => false
      | Some c => rebalance c && negb (bool_decide (mode c = "per-node")) &&
                  bool_decide (colocate c = []) && bool_decide (separate c = [])
      end
  end.

Definition findMovableInstances (sourceNodeID : string) (places : gmap string string)
    (insts : gmap string schedulerInstanceInfo) (groups : gmap string string) (placedInThisCycle : gset string)
    (constraints : gmap string servicePlacementConstraint) (pinned : gset string) : list string :=
  sort_strings (fst <$> filter (λ placed, isMovable sourceNodeID insts groups placedInThisCycle
                                                    constraints pinned placed = true) (map_range places)).

(** The loop over candidates keeps the first of the least loaded. *)
Definition selectRebalanceTarget (serviceName sourceNodeID : string) (aliveCandidates : list candidateNode)
    (nodeLoad serviceInstancesOnNode : gmap string Z)
    (constraints : gmap string servicePlacementConstraint) : string :=
  fst (foldl (λ '(bestNode, bestLoad) c,
    if decide (cn_id c = sourceNodeID) then (bestNode, bestLoad)
    else if countOf serviceInstancesOnNode sourceNodeID <=? countOf serviceInstancesOnNode (cn_id c)
    then (bestNode, bestLoad)
    else
      let load := countOf nodeLoad (cn_id c) in
      if load <? bestLoad then (cn_id c, load) else (bestNode, bestLoad))
    ("", int64_max) (filterByConstraints aliveCandidates serviceName constraints)).

Definition buildRebalanceMoveChanges (instanceID sourceNodeID targetNodeID : string) : list Change :=
  let groupID := "rebalance/" +:+ instanceID in
  [mkChange OpPut (KeyPlacementInstance instanceID) targetNodeID groupID;
   mkChange OpDelete (KeyPlacementNodeInstance sourceNodeID instanceID) "" groupID;
   mkChange OpPut (KeyPlacementNodeInstance targetNodeID instanceID) "" groupID].

(** The state of the nested loops of [executeRebalanceMoves]. *)
Record rebalanceState := mkRebalance {
  moves : list (string * string * string);   (* instance, source, target *)
  moveCount : Z;
  nodeLoad : gmap string Z;
  serviceCounts : gmap string (gmap string Z)
}.

(** [m[k]--] *)
Definition decrement (k : string) (m : gmap string Z) : gmap string Z := <[k := countOf m k - 1]> m.

(** One movable instance. Writing a nil inner count map would panic. *)
Definition tryMove (sourceNodeID : string) (aliveCandidates : list candidateNode)
    (insts : gmap string schedulerInstanceInfo) (constraints : gmap string servicePlacementConstraint)
    (instanceID : string) (r : rebalanceState) : option rebalanceState :=
  if maxRebalanceMovesPerCycle <=? moveCount r then Some r
  else match insts !! instanceID with
       | None => Some r
       | Some info =>
           let counts := default ∅ (serviceCounts r !! service info) in
           let target := selectRebalanceTarget (service info) sourceNodeID aliveCandidates (nodeLoad r)
                                               counts constraints in
           if decide (target = "" ∨ countOf (nodeLoad r) sourceNodeID - 1 ≤ countOf (nodeLoad r) target)
           then Some r
           else
             counts1 ← serviceCounts r !! service info;
             Some (mkRebalance (moves r ++ [(instanceID, sourceNodeID, target)]) (moveCount r + 1)
                               (increment target (decrement sourceNodeID (nodeLoad r)))
                               (<[service info := increment target (decrement sourceNodeID counts1)]>
                                  (serviceCounts r)))
       end.

Fixpoint moveFromNode (sourceNodeID : string) (aliveCandidates : list candidateNode)
    (insts : gmap string schedulerInstanceInfo) (constraints : gmap string servicePlacementConstraint)
    (movable : list string) (r : rebalanceState) : option rebalanceState :=
  match movable with
  | [] => Some r
  | instanceID :: rest =>
      r' ← tryMove sourceNodeID aliveCandidates insts constraints instanceID r;
      moveFromNode sourceNodeID aliveCandidates insts constraints rest r'
  end.

Fixpoint moveFromNodes (overloadedNodes : list string) (aliveCandidates : list candidateNode)
    (places : gmap string string) (insts : gmap string schedulerInstanceInfo) (groups : gmap string string)
    (constraints : gmap string servicePlacementConstraint) (placedInThisCycle pinned : gset string)
    (r : rebalanceState) : option rebalanceState :=
  match overloadedNodes with
  | [] => Some r
  | sourceNodeID :: rest =>
      if maxRebalanceMovesPerCycle <=? moveCount r then Some r
      else
        let movable := findMovableInstances sourceNodeID places insts groups placedInThisCycle constraints pinned in
        r' ← moveFromNode sourceNodeID aliveCandidates insts constraints movable r;
        moveFromNodes rest aliveCandidates places insts groups constraints placedInThisCycle pinned r'
  end.

Definition executeRebalanceMoves (overloadedNodes : list string) (load : gmap string Z)
    (aliveCandidates : list candidateNode) (places : gmap string string)
    (insts : gmap string schedulerInstanceInfo) (groups : gmap string string)
    (constraints : gmap string servicePlacementConstraint) (placedInThisCycle pinned : gset string)
    : option (list (string * string * string)) :=
  r ← moveFromNodes overloadedNodes aliveCandidates places insts groups constraints placedInThisCycle pinned
        (mkRebalance [] 0 load (countServiceInstancesPerNode places insts));
  Some (moves r).

Definition movesToChanges (ms : list (string * string * string)) : list Change :=
  '(instanceID, sourceNodeID, targetNodeID) ← ms; buildRebalanceMoveChanges instanceID sourceNodeID targetNodeID.

Definition rebalancePlacedInstances (nodes : gmap string schedulerNodeInfo)
    (insts : gmap string schedulerInstanceInfo) (places : gmap string string)
    (resources : gmap string serviceResourceRequirements)
    (constraints : gmap string servicePlacementConstraint) (groups : gmap string string)
    (placedInThisCycle pinned : gset string) : option (list Change) :=
  let aliveNodeIDs := collectAliveNodeIDs nodes in
  if (length aliveNodeIDs <? 2)%nat then Some []
  else
    let load := computeRunningLoadPerNode places insts aliveNodeIDs in
    let '(maxLoad, minLoad) := computeMaxMinLoad load aliveNodeIDs in
    if maxLoad - minLoad <=? rebalanceLoadImbalanceThreshold then Some []
    else
      let idealLoad := Z.quot (sumNodeLoad load) (Z.of_nat (length aliveNodeIDs)) in
      let '(_, usedCPU, usedMemory) := computeNodeLoadAndResourceUsage places insts resources in
      let aliveCandidates := buildAliveCandidateNodes nodes usedCPU usedMemory in
      ms ← executeRebalanceMoves (findOverloadedNodes load aliveNodeIDs idealLoad) load aliveCandidates
             places insts groups constraints placedInThisCycle pinned;
      Some (movesToChanges ms).

(** ** Allocation pressure *)

(** The warnings: node, CPU percentage, memory percentage. *)
Definition detectAndLogNodePressure (nodes : gmap string schedulerNodeInfo) (places : gmap string string)
    (insts : gmap string schedulerInstanceInfo)
    (resources : gmap string serviceResourceRequirements) : list (string * Z * Z) :=
  let '(_, usedCPU, usedMemory) := computeNodeLoadAndResourceUsage places insts resources in
  omap (λ kn,
    let n := snd kn in
    if negb (bool_decide (ni_state n = NodeAlive)) || (ni_availCPU n <=? 0) then None
    else
      let cpuPercent := Z.quot (countOf usedCPU (ni_id n) *! 100)%go (ni_availCPU n) in
      let memoryPercent := if 0 <? ni_availMemory n
                           then Z.quot (countOf usedMemory (ni_id n) *! 100)%go (ni_availMemory n) else 0 in
      if (nodeAllocationPressurePercent <=? cpuPercent) || (nodeAllocationPressurePercent <=? memoryPercent)
      then Some (ni_id n, cpuPercent, memoryPercent) else None) (map_range nodes).

(** ** Reconcile *)

Definition Reconcile (now : Z) (facts : list Fact) (s : Scheduler) : option (list Change * Scheduler) :=
  let nodes := extractNodeInfoFromFacts facts in
  let places := extractPlacementsFromFacts facts in
  let resources := extractServiceResourcesFromFacts facts in
  let constraints := applyVolumeHomeNodeConstraints (extractPlacementConstraints facts) facts in
  let groups := extractServiceGroupMemberships facts in
  let priorities := extractServicePriorities facts in
  let stateful := extractStatefulServices facts in
  let insts := markInstancesStillStarting (extractInstanceInfoFromFacts facts)
                                          (extractServicesWithStartupProbe facts) in
  let unplaced := findUnplacedPendingInstances insts places in
  let '(deferred, s') := shouldDeferInitialPlacement now places unplaced s in
  placementChanges ←
    (if deferred || bool_decide (unplaced = []) then Some []
     else attemptPlacements unplaced nodes insts places resources constraints groups);
  let placedInThisCycle := collectPlacedInstanceIDs placementChanges in
  preemptionChanges ← attemptPreemptions unplaced placedInThisCycle nodes insts places constraints
                                         priorities stateful;
  rebalanceChanges ← rebalancePlacedInstances nodes insts places resources constraints groups
                       placedInThisCycle (extractRebalancePinnedServices facts stateful);
  Some (placementChanges ++ preemptionChanges ++
        emitUnplacedDemandFacts unplaced placedInThisCycle nodes insts resources constraints ++
        cleanupStaleUnplacedFacts facts places placedInThisCycle ++
        rebalanceChanges, s').

End scheduler.
