(* ===== verification/PlacementProps.v ===== *)
(** * Properties of placement

    [state_wf] is the invariant of the placement state; every placement step
    preserves it and succeeds. [placed_by] relates the changes of a step to the
    decisions (instance, node) behind them. The selection of a batch is shown
    equal to a linear reference selection. *)

From S2P Require Import Prelude GoStrings Keys EventHistory Heap NodeHeap CacheProps SchedulerFacts.
From S2P Require Import Placement.

Local Open Scope Z_scope.

(** ** Candidates *)

Lemma rankBy_perm score cs : rankBy score cs ≡ₚ cs.
Proof.
  unfold rankBy. rewrite sort_stable_perm, <-list_fmap_compose.
  rewrite <-(list_fmap_id cs) at 2. by apply Permutation_refl'.
Qed.

Lemma bind_singletons {A} (l : list A) : l ≫= (λ x, [x]) = l.
Proof. induction l as [|x l IH]; [done|]. rewrite bind_cons, IH. done. Qed.

Section props.
Context `{GoMapRange} `{GoSort}.

Lemma filterByRestrictions_sub cs acc : filterByRestrictions cs acc ⊆+ cs.
Proof.
  unfold filterByRestrictions. pose proof (filter_sub (λ c, toleratesRestrictions c acc = true) cs).
  by destruct (filter _ cs).
Qed.

Lemma filterByConstraints_sub cs name constraints : filterByConstraints cs name constraints ⊆+ cs.
Proof.
  unfold filterByConstraints. destruct (constraints !! name) as [c|]; [|apply filterByRestrictions_sub].
  set (cs1 := if decide _ then _ else _). assert (Hcs1 : cs1 ⊆+ cs) by (unfold cs1; case_decide; [done|apply filter_sub]).
  destruct (_ && _); [apply submseteq_nil_l|].
  pose proof (filter_sub (λ x, matchesConstraint c x = true) cs1).
  destruct (filter _ cs1); [done|by etrans].
Qed.

Lemma batchCandidates_sub name st : batchCandidates name st ⊆+ alive st.
Proof.
  unfold batchCandidates. pose proof (filterByConstraints_sub (alive st) name (placementConstraints st)) as Hf.
  destruct (placementConstraints st !! name) as [c|]; [|done].
  set (cs1 := if decide (mode c = _) then _ else _).
  assert (H1 : cs1 ⊆+ alive st) by (unfold cs1; case_decide; [etrans; [apply filter_sub|done]|done]).
  set (cs2 := if decide (prefer c = _) then _ else _).
  assert (H2 : cs2 ⊆+ alive st).
  { unfold cs2, rankByPreferences. case_decide; [done|]. by rewrite rankBy_perm. }
  destruct (_ && _); [done|]. unfold rankByAffinityHints. destruct (_ && _); [done|]. by rewrite rankBy_perm.
Qed.

(** ** The placement state *)

Record state_wf (st : placementState) : Prop := {
  wf_alive : NoDup (cn_id <$> alive st);
  wf_nodeIndex nodeID i : nodeIndexMap st !! nodeID = Some i ↔
    ∃ n, alive st !! i = Some n ∧ cn_id n = nodeID
}.

(** What no placement step changes. *)
Record same_inputs (st st' : placementState) : Prop := {
  same_ids : cn_id <$> alive st' = cn_id <$> alive st;
  same_resources : serviceResources st' = serviceResources st;
  same_constraints : placementConstraints st' = placementConstraints st;
  same_instances : instances st' = instances st;
  same_placements : placements st' = placements st;
  same_groups : serviceToGroup st' = serviceToGroup st;
  same_index : nodeIndexMap st' = nodeIndexMap st
}.

#[export] Instance same_inputs_refl : Reflexive same_inputs.
Proof. by split. Qed.

#[export] Instance same_inputs_trans : Transitive same_inputs.
Proof. intros s1 s2 s3 [] []. split; congruence. Qed.

Lemma state_wf_same st st' : same_inputs st st' → state_wf st → state_wf st'.
Proof.
  intros [Hids _ _ _ _ _ Hix] [H1 H2]. split; [by rewrite Hids|]. intros nodeID i. rewrite Hix, H2.
  assert (Hlk : ∀ st, (∃ n, alive st !! i = Some n ∧ cn_id n = nodeID) ↔ (cn_id <$> alive st) !! i = Some nodeID).
  { intros s. rewrite list_lookup_fmap. destruct (alive s !! i); simpl; naive_solver. }
  by rewrite !Hlk, Hids.
Qed.

Lemma updateNodeResources_ok st nodeID rc rm name :
  state_wf st →
  ∃ al zones, updateNodeResourcesAfterPlacement (alive st) nodeID rc rm name (serviceZoneCounts st) (nodeIndexMap st)
    = Some (al, zones) ∧ cn_id <$> al = cn_id <$> alive st.
Proof.
  intros Hwf. unfold updateNodeResourcesAfterPlacement.
  destruct (nodeIndexMap st !! nodeID) as [i|] eqn:E; [|eauto].
  apply (wf_nodeIndex _ Hwf) in E as (n & Hn & _). rewrite Hn. simpl. do 2 eexists. split; [done|].
  rewrite list_fmap_insert. apply list_insert_id. rewrite list_lookup_fmap, Hn. done.
Qed.

(** ** Decisions *)

(** The changes that record some decisions. *)
Definition decisionChanges (ds : list (string * string)) : list Change :=
  d ← ds; placementChanges (fst d) (snd d).

Lemma decisionChanges_app ds1 ds2 : decisionChanges (ds1 ++ ds2) = decisionChanges ds1 ++ decisionChanges ds2.
Proof. unfold decisionChanges. by rewrite bind_app. Qed.

(** One step of placement that only acts on nodes in [ok]. *)
Definition places_well (ids : list string) (ok : string → Prop) (st : placementState)
    (r : option (list Change * placementState)) : Prop :=
  ∃ ds st', r = Some (decisionChanges ds, st') ∧ same_inputs st st' ∧
    fst <$> ds `sublist_of` ids ∧ Forall (λ d, ok (snd d)) ds.

Lemma placeOnNode_ok policy name best rc rm st cache :
  state_wf st → cache_wf cache →
  ∃ st' cache', placeOnNode policy name best rc rm st cache = Some (st', cache') ∧
    same_inputs st st' ∧ cache_wf cache' ∧ lookupMap cache' = lookupMap cache.
Proof.
  intros Hst Hc. unfold placeOnNode.
  destruct (RecordPlacement_safe best rc rm cache Hc) as (c1 & E1 & Hc1). rewrite E1. simpl.
  destruct (RecordPlacement_frame _ _ _ _ _ E1) as (L1 & _ & _).
  assert (∃ c2, (if perNode policy then RemoveNode best c1 else Some c1) = Some c2 ∧ cache_wf c2 ∧
            lookupMap c2 = lookupMap cache) as (c2 & -> & Hc2 & L2).
  { destruct (perNode policy); [|eauto].
    destruct (RemoveNode_safe best c1 Hc1) as (c2 & E2 & Hc2).
    destruct (RemoveNode_frame _ _ _ E2) as (L2 & _ & _). exists c2. split_and!; [done|done|congruence]. }
  simpl. destruct (updateNodeResources_ok st best rc rm name Hst) as (al & zones & -> & Hids). simpl.
  do 2 eexists. split_and!; [done|by split|done|done].
Qed.

Lemma chooseNode_known policy cands name st cache :
  cache_wf cache → cacheLen cache ≠ 0%nat →
  is_Some (lookupMap cache !! chooseNode policy cands name st cache).
Proof.
  intros Hc Hne. unfold chooseNode. destruct (useZoneSpread policy);
    [by apply BestNodeInZones_known|by apply BestNode_known].
Qed.

Lemma placeBatchLoop_ok policy cands name rc rm ids st cache (ok : string → Prop) :
  state_wf st → cache_wf cache → (∀ nodeID, is_Some (lookupMap cache !! nodeID) → ok nodeID) →
  places_well ids ok st (placeBatchLoop policy cands name rc rm ids st cache).
Proof.
  revert st cache. induction ids as [|i ids IH]; intros st cache Hst Hc Hok; simpl.
  { exists [], st. split_and!; [done|done|apply sublist_nil_l|constructor]. }
  assert (Hstop : places_well (i :: ids) ok st (Some ([], st))).
  { exists [], st. split_and!; [done|done|apply sublist_nil_l|constructor]. }
  destruct (Nat.eqb_spec (cacheLen cache) 0) as [|Hne]; [done|].
  pose proof (chooseNode_known policy cands name st cache Hc Hne) as Hknown.
  set (best := chooseNode policy cands name st cache) in *. case_decide; [done|].
  destruct (placeOnNode_ok policy name best rc rm st cache Hst Hc) as (st1 & c1 & -> & Hs1 & Hc1 & L1). simpl.
  destruct (IH st1 c1) as (ds & st2 & -> & Hs2 & Hpre & Hall).
  { by apply (state_wf_same st). }
  { done. }
  { intros nodeID. rewrite L1. apply Hok. }
  simpl. exists ((i, best) :: ds), st2. split_and!; [done|by etrans|by constructor|].
  constructor; [by apply Hok|done].
Qed.

Lemma same_inputs_counts st counts :
  same_inputs st (update (alive st) (loadPerNode st) (serviceZoneCounts st) counts st).
Proof. by split. Qed.

(** A batch never panics and only uses its candidates. *)
Lemma placeBatchedInstances_ok name ids st :
  state_wf st →
  places_well ids (λ nodeID, nodeID ∈ cn_id <$> batchCandidates name st) st
              (placeBatchedInstances name ids st).
Proof.
  intros Hst. unfold placeBatchedInstances.
  set (res := default _ _). set (counts := default ∅ _).
  set (st0 := update _ _ _ _ st).
  destruct (NewNodeCapacityCache_ok (batchCandidates name st) (loadPerNode st0) counts (cpu res) (memory res))
    as (c & -> & Hc & _ & _ & _ & _ & Hknown).
  { eapply submseteq_nodup; [apply fmap_submseteq, batchCandidates_sub|apply Hst]. }
  simpl. assert (Hs0 : same_inputs st st0) by apply same_inputs_counts.
  destruct (placeBatchLoop_ok (policyOf (placementConstraints st !! name)) (batchCandidates name st) name
              (cpu res) (memory res) ids st0 c (λ nodeID, nodeID ∈ cn_id <$> batchCandidates name st))
    as (ds & st' & E & Hs & Hpre & Hall).
  { by apply (state_wf_same st). }
  { done. }
  { done. }
  exists ds, st'. split_and!; [exact E|by etrans|done|done].
Qed.

(** Steps in sequence. *)
Lemma placeEach_ok {A} (place : A → placementState → option (list Change * placementState))
    (ids : A → list string) (ok : string → Prop) st0 xs st :
  (∀ x st, x ∈ xs → state_wf st → same_inputs st0 st → places_well (ids x) ok st (place x st)) →
  state_wf st → same_inputs st0 st →
  places_well (xs ≫= ids) ok st (placeEach place xs st).
Proof.
  revert st. induction xs as [|x xs IH]; intros st Hplace Hst Hs0.
  { exists [], st. split_and!; [done|done|apply sublist_nil_l|constructor]. }
  simpl. destruct (Hplace x st ltac:(set_solver) Hst Hs0) as (ds1 & st1 & -> & Hs1 & Hp1 & Ha1). simpl.
  destruct (IH st1) as (ds2 & st2 & -> & Hs2 & Hp2 & Ha2).
  { intros y st' Hy. apply Hplace. set_solver. }
  { by apply (state_wf_same st). }
  { by etrans. }
  simpl. exists (ds1 ++ ds2), st2. split_and!.
  - by rewrite decisionChanges_app.
  - by etrans.
  - rewrite fmap_app. by apply sublist_app.
  - by apply Forall_app.
Qed.

Lemma places_well_weaken ids (ok ok' : string → Prop) st r :
  (∀ n, ok n → ok' n) → places_well ids ok st r → places_well ids ok' st r.
Proof.
  intros Himp (ds & st' & ? & ? & ? & Hall). exists ds, st'. split_and!; try done.
  eapply Forall_impl; [exact Hall|]. naive_solver.
Qed.

(** ** Groups *)

(** A node a group may be sent to: an alive one, or the node of a member that is
    placed already. *)
Definition group_node (st : placementState) (nodeID : string) : Prop :=
  nodeID ∈ cn_id <$> alive st ∨ ∃ i, placements st !! i = Some nodeID.

Lemma selectLeastLoadedNode_ok al load rc rm :
  NoDup (cn_id <$> al) →
  ∃ n, selectLeastLoadedNode al load rc rm = Some n ∧ (n ≠ "" → n ∈ cn_id <$> al).
Proof.
  intros Hnd. unfold selectLeastLoadedNode.
  destruct (NewNodeCapacityCache_ok al load ∅ rc rm Hnd) as (c & E & Hc & _ & _ & _ & _ & Hknown).
  unfold NewNodeCapacityCache in E. destruct (buildNodeHeap al load ∅ rc rm) as [[h m]|]; [|done].
  simpl in *. simplify_eq. eexists. split; [done|]. intros Hne. apply Hknown.
  apply (BestNode_known _ Hc). unfold cacheLen. simpl. unfold selectFromHeap in Hne.
  by destruct (heapSlice h).
Qed.

Lemma findExistingGroupNode_placed name st :
  findExistingGroupNode name st ≠ "" → ∃ i, placements st !! i = Some (findExistingGroupNode name st).
Proof.
  unfold findExistingGroupNode. set (l := omap _ _). intros Hne.
  destruct (sort_strings l) as [|n rest] eqn:E; [done|]. simpl in *.
  assert (n ∈ l) as Hn. { rewrite <-(sort_stable_perm str_ltb l). fold (sort_strings l). rewrite E. set_solver. }
  apply list_elem_of_omap in Hn as ([i n'] & Hin & Hm). exists i.
  rewrite map_range_perm in Hin. apply elem_of_map_to_list in Hin.
  repeat case_match; naive_solver.
Qed.

Lemma groupTarget_ok name ids st :
  state_wf st →
  ∃ target, groupTarget name ids st = Some target ∧ (target ≠ "" → group_node st target).
Proof.
  intros Hst. unfold groupTarget. set (homes := collectGroupVolumeHomeNodes ids st).
  set (home := if decide (_ ∧ _) then _ else findExistingGroupNode name st).
  assert (Hhome : home ≠ "" → group_node st home).
  { unfold home, group_node. case_decide.
    - unfold selectGroupVolumeHomeNode. destruct (list_find _ _) as [[i n]|] eqn:E; [|done].
      intros _. left. apply list_find_Some in E as (_ & [[j Hj] _] & _).
      apply (wf_nodeIndex _ Hst) in Hj as (c & Hc & <-). apply list_elem_of_fmap. exists c.
      split; [done|]. by eapply list_elem_of_lookup_2.
    - intros Hne. right. by apply findExistingGroupNode_placed. }
  case_decide; [|by exists home]. destruct (computeGroupResourceTotal ids st) as [tc tm].
  destruct (selectLeastLoadedNode_ok (alive st) (loadPerNode st) tc tm (wf_alive _ Hst)) as (n & -> & Hn).
  exists n. split; [done|]. intros Hne. left. auto.
Qed.

Lemma placeGroupMember_ok (ok : string → Prop) target i st :
  ok target → state_wf st → places_well [i] ok st (placeGroupMember target i st).
Proof.
  intros Hok Hst. unfold placeGroupMember.
  destruct (resolveInstanceResourceNeeds _ _) as [[name rc] rm].
  destruct (updateNodeResources_ok st target rc rm name Hst) as (al & zones & -> & Hids). simpl.
  exists [(i, target)]. eexists. split_and!; [done|by split|done|by repeat constructor].
Qed.

Lemma placeOneGroup_ok name ids st :
  state_wf st → places_well ids (group_node st) st (placeOneGroup name ids st).
Proof.
  intros Hst. unfold placeOneGroup. destruct (groupTarget_ok name ids st Hst) as (target & -> & Ht). simpl.
  case_decide as Hd.
  { exists [], st. split_and!; [done|done|apply sublist_nil_l|constructor]. }
  assert (Hok : group_node st target) by (apply Ht; tauto).
  destruct (placeEach_ok (placeGroupMember target) (λ i, [i]) (group_node st) st ids st)
    as (ds & st' & E & Hs & Hp & Ha); [|done|done|].
  - intros i st1 _ Hst1 _. by apply placeGroupMember_ok.
  - exists ds, st'. split_and!; [done|done| |done].
    by rewrite bind_singletons in Hp.
Qed.

Lemma group_node_same st st' n : same_inputs st st' → group_node st' n → group_node st n.
Proof. intros [Hi _ _ _ Hp _ _]. unfold group_node. by rewrite Hi, Hp. Qed.

Lemma placeGroupedInstances_ok grouped st :
  state_wf st →
  places_well (sort_strings (fst <$> map_range grouped) ≫= λ g, default [] (grouped !! g))
              (group_node st) st (placeGroupedInstances grouped st).
Proof.
  intros Hst. apply (placeEach_ok _ (λ g, default [] (grouped !! g)) _ st); [|done|done].
  intros g st1 _ Hst1 Hs1. eapply places_well_weaken; [|by apply placeOneGroup_ok].
  intros n. by apply group_node_same.
Qed.

Lemma placeUngroupedInstances_ok unplaced st :
  state_wf st →
  let batches := groupInstancesByService unplaced (instances st) in
  places_well (sortedServiceNames batches ≫= λ s, default [] (batches !! s))
              (λ n, n ∈ cn_id <$> alive st) st (placeUngroupedInstances unplaced st).
Proof.
  intros Hst batches. apply (placeEach_ok _ (λ s, default [] (batches !! s)) _ st); [|done|done].
  intros s st1 _ Hst1 Hs1. eapply places_well_weaken; [|by apply placeBatchedInstances_ok].
  intros n Hn. rewrite <-(same_ids _ _ Hs1).
  apply (submseteq_elem (cn_id <$> batchCandidates s st1)); [|exact Hn].
  apply fmap_submseteq, batchCandidates_sub.
Qed.

(** ** Every instance at most once *)

(** The lists of a map of lists, in some order. *)
Definition flatten (m : gmap string (list string)) : list string := map_to_list m ≫= snd.

Lemma flatten_push k x m :
  flatten (<[k := default [] (m !! k) ++ [x]]> m) ≡ₚ x :: flatten m.
Proof.
  unfold flatten. destruct (m !! k) as [l|] eqn:E; simpl.
  - rewrite <-(insert_delete_eq m k (l ++ [x])), map_to_list_insert by apply lookup_delete_eq.
    rewrite <-(map_to_list_delete m k l E). rewrite !bind_cons. simpl.
    rewrite <-app_assoc. simpl. by rewrite <-Permutation_middle.
  - rewrite map_to_list_insert by done. by rewrite bind_cons.
Qed.

Lemma bind_keys_flatten keys (m : gmap string (list string)) :
  keys ≡ₚ (map_to_list m).*1 → keys ≫= (λ k, default [] (m !! k)) ≡ₚ flatten m.
Proof.
  intros ->. unfold flatten. apply Permutation_refl'.
  assert (Hin : ∀ kv, kv ∈ map_to_list m → default [] (m !! kv.1) = kv.2).
  { intros [k v] Hkv%elem_of_map_to_list. simpl. by rewrite Hkv. }
  revert Hin. generalize (map_to_list m). intros l Hin. induction l as [|kv l IH]; [done|].
  simpl. f_equal; [apply Hin; set_solver|apply IH; set_solver].
Qed.

Lemma groupInstancesByService_flatten ids insts : flatten (groupInstancesByService ids insts) ≡ₚ ids.
Proof.
  unfold groupInstancesByService. assert (Hgen : ∀ m, flatten (foldl (λ batches instanceID,
      let serviceName := match insts !! instanceID with Some info => service info | None => "" end in
      <[serviceName := default [] (batches !! serviceName) ++ [instanceID]]> batches) m ids) ≡ₚ ids ++ flatten m).
  { induction ids as [|i ids IH]; intros m; [done|]. simpl. rewrite IH, flatten_push.
    by rewrite <-Permutation_middle. }
  rewrite Hgen. unfold flatten. rewrite map_to_list_empty. by rewrite app_nil_r.
Qed.

Lemma partition_flatten ids insts groups grouped ungrouped :
  partitionUnplacedByGroup ids insts groups = (grouped, ungrouped) →
  flatten grouped ++ ungrouped ≡ₚ ids.
Proof.
  unfold partitionUnplacedByGroup.
  assert (Hgen : ∀ m l g u, foldl (λ '(grouped, ungrouped) instanceID,
      match insts !! instanceID with
      | None => (grouped, ungrouped ++ [instanceID])
      | Some info =>
          match groups !! service info with
          | Some groupName => (<[groupName := default [] (grouped !! groupName) ++ [instanceID]]> grouped, ungrouped)
          | None => (grouped, ungrouped ++ [instanceID])
          end
      end) (m, l) ids = (g, u) → flatten g ++ u ≡ₚ ids ++ flatten m ++ l).
  { induction ids as [|i ids IH]; intros m l g u; simpl; [by intros [= <- <-]|].
    assert (Hrest : (ids ++ flatten m ++ l ++ [i]) ≡ₚ i :: ids ++ flatten m ++ l).
    { rewrite (Permutation_app_comm l [i]). simpl. by rewrite !Permutation_middle. }
    destruct (insts !! i) as [info|]; [destruct (groups !! service info) as [gn|]|]; intros E%IH; rewrite E.
    - rewrite flatten_push. simpl. by rewrite <-Permutation_middle.
    - done.
    - done. }
  intros E%Hgen. rewrite E. unfold flatten. rewrite map_to_list_empty. simpl. by rewrite app_nil_r.
Qed.

(** The grouped instances are known and their service is in a group. *)
Lemma partition_grouped ids insts groups grouped ungrouped i :
  partitionUnplacedByGroup ids insts groups = (grouped, ungrouped) → i ∈ flatten grouped →
  ∃ info, insts !! i = Some info ∧ is_Some (groups !! service info).
Proof.
  unfold partitionUnplacedByGroup.
  set (f := λ '(grouped, ungrouped) instanceID, _). set (P := λ i, ∃ info, insts !! i = Some info ∧ is_Some (groups !! service info)).
  assert (Hgen : ∀ m l g u, foldl f (m, l) ids = (g, u) → (∀ i, i ∈ flatten m → P i) → ∀ i, i ∈ flatten g → P i).
  { induction ids as [|j ids IH]; intros m l g u; simpl; [by intros [= <- <-]|].
    destruct (insts !! j) as [info|] eqn:Ej; [|by apply IH].
    destruct (groups !! service info) as [gn|] eqn:Eg; [|by apply IH].
    intros E Hm. apply (IH _ _ _ _ E). intros i'. rewrite flatten_push. intros [->|Hi']%elem_of_cons; [|auto].
    unfold P. rewrite Ej. eauto. }
  intros E. apply (Hgen _ _ _ _ E). unfold flatten. rewrite map_to_list_empty. set_solver.
Qed.

Lemma initialState_wf nodes insts places resources constraints groups :
  (∀ k n, nodes !! k = Some n → ni_id n = k) →
  state_wf (initialState nodes insts places resources constraints groups).
Proof.
  intros Hid. unfold initialState. destruct (computeNodeLoadAndResourceUsage _ _ _) as [[load uc] um].
  assert (Hnd : NoDup (cn_id <$> buildAliveCandidateNodes nodes uc um)).
  { unfold buildAliveCandidateNodes. rewrite sort_slice_perm.
    assert (Hsub : cn_id <$> omap (λ kn, if decide (ni_state kn.2 = NodeAlive)
        then Some (candidateOf uc um kn.2) else None) (map_range nodes) `sublist_of` fst <$> map_range nodes).
    { assert (Hin : ∀ kn, kn ∈ map_range nodes → ni_id kn.2 = kn.1).
      { intros [k n]. rewrite map_range_perm. intros Hkn%elem_of_map_to_list. by apply Hid. }
      revert Hin. generalize (map_range nodes). intros l Hin. induction l as [|kn l IH]; [constructor|].
      simpl. case_decide; simpl; [|constructor; apply IH; set_solver].
      rewrite Hin by set_solver. constructor. apply IH. set_solver. }
    eapply sublist_NoDup; [|exact Hsub]. rewrite map_range_perm. apply NoDup_fst_map_to_list. }
  split; simpl; [done|]. intros nodeID i. unfold buildNodeIndexMap. revert i Hnd.
  induction (buildAliveCandidateNodes nodes uc um) as [|n l IH] using rev_ind; intros i Hnd.
  { simpl. rewrite lookup_empty. naive_solver. }
  rewrite fmap_app, NoDup_app in Hnd. destruct Hnd as (Hnd & Hdis & _).
  rewrite zip_seq_snoc, foldl_app. simpl. rewrite lookup_insert. destruct (decide (cn_id n = nodeID)) as [<-|Hne].
  - split.
    + intros [= <-]. exists n. by rewrite lookup_app_r, Nat.sub_diag.
    + intros (n' & Hn' & E). apply lookup_app_Some in Hn' as [Hn'|[Hle Hn']].
      * exfalso. apply (Hdis (cn_id n')); [|rewrite E; set_solver].
        apply list_elem_of_fmap. exists n'. split; [done|]. by eapply list_elem_of_lookup_2.
      * apply list_lookup_singleton_Some in Hn' as [? ->]. f_equal. lia.
  - rewrite IH by done. split; intros (n' & Hn' & E); exists n'; split; try done.
    + by apply lookup_app_l_Some.
    + apply lookup_app_Some in Hn' as [?|[_ Hn']]; [done|].
      apply list_lookup_singleton_Some in Hn' as [_ ->]. done.
Qed.

(** ** The whole pipeline *)

Definition is_alive (nodes : gmap string schedulerNodeInfo) (nodeID : string) : Prop :=
  ∃ n, nodes !! nodeID = Some n ∧ ni_state n = NodeAlive.

Lemma alive_candidates nodes uc um nodeID :
  (∀ k n, nodes !! k = Some n → ni_id n = k) →
  nodeID ∈ cn_id <$> buildAliveCandidateNodes nodes uc um ↔ is_alive nodes nodeID.
Proof.
  intros Hid. unfold buildAliveCandidateNodes. rewrite sort_slice_perm, list_elem_of_fmap. split.
  - intros (c & -> & Hc). apply list_elem_of_omap in Hc as ([k n] & Hin & Hc).
    rewrite map_range_perm in Hin. apply elem_of_map_to_list in Hin. simpl in Hc.
    case_decide; [|done]. simplify_eq. simpl. exists n. rewrite (Hid k n Hin). done.
  - intros (n & Hn & Halive). exists (candidateOf uc um n). split; [simpl; symmetry; by apply Hid|].
    apply list_elem_of_omap. exists (nodeID, n). simpl. rewrite decide_True by done. split; [|done].
    rewrite map_range_perm. by apply elem_of_map_to_list.
Qed.

Lemma bind_sorted_flatten (m : gmap string (list string)) :
  sort_strings (fst <$> map_range m) ≫= (λ k, default [] (m !! k)) ≡ₚ flatten m.
Proof.
  apply bind_keys_flatten. unfold sort_strings. by rewrite sort_stable_perm, map_range_perm.
Qed.

(** The pipeline always returns; it decides each unplaced instance at most once,
    and puts an instance whose service is in no group on an alive node. *)
Lemma attemptPlacements_ok unplaced nodes insts places resources constraints groups :
  (∀ k n, nodes !! k = Some n → ni_id n = k) →
  ∃ grouped ungrouped,
    attemptPlacements unplaced nodes insts places resources constraints groups =
      Some (decisionChanges (grouped ++ ungrouped)) ∧
    fst <$> (grouped ++ ungrouped) ⊆+ unplaced ∧
    Forall (λ d, is_alive nodes (snd d) ∨ ∃ i, places !! i = Some (snd d)) grouped ∧
    Forall (λ d, is_alive nodes (snd d)) ungrouped ∧
    (∀ d, d ∈ grouped → ∃ info, insts !! fst d = Some info ∧ is_Some (groups !! service info)).
Proof.
  intros Hid. unfold attemptPlacements.
  pose proof (initialState_wf nodes insts places resources constraints groups Hid) as Hst.
  set (st := initialState nodes insts places resources constraints groups) in *.
  assert (Halive : ∀ n, n ∈ cn_id <$> alive st → is_alive nodes n).
  { intros n. unfold st, initialState. destruct (computeNodeLoadAndResourceUsage _ _ _) as [[load uc] um].
    simpl. apply (alive_candidates nodes uc um n Hid). }
  assert (Hplaces : placements st = places ∧ instances st = insts).
  { unfold st, initialState. by destruct (computeNodeLoadAndResourceUsage _ _ _) as [[load uc] um]. }
  destruct Hplaces as [Hplaces Hinsts].
  case_decide as Hempty.
  { exists [], []. split_and!; [done|apply submseteq_nil_l|constructor|constructor|set_solver]. }
  destruct (partitionUnplacedByGroup unplaced insts groups) as [grouped ungrouped] eqn:Ep.
  pose proof (partition_flatten _ _ _ _ _ Ep) as Hpart.
  destruct (placeGroupedInstances_ok grouped st Hst) as (ds1 & st1 & -> & Hs1 & Hp1 & Ha1). simpl.
  assert (Hst1 : state_wf st1) by (by apply (state_wf_same st)).
  destruct (placeUngroupedInstances_ok ungrouped st1 Hst1) as (ds2 & st2 & -> & Hs2 & Hp2 & Ha2). simpl.
  assert (Hg : fst <$> ds1 ⊆+ flatten grouped).
  { etrans; [apply sublist_submseteq, Hp1|]. by rewrite bind_sorted_flatten. }
  exists ds1, ds2. split_and!.
  - by rewrite decisionChanges_app.
  - rewrite fmap_app, <-Hpart. apply submseteq_app; [done|].
    etrans; [apply sublist_submseteq, Hp2|]. unfold sortedServiceNames. rewrite bind_sorted_flatten.
    rewrite (same_instances _ _ Hs1), Hinsts. by rewrite groupInstancesByService_flatten.
  - eapply Forall_impl; [exact Ha1|]. intros d [Hd|[i Hi]]; [left; by apply Halive|right].
    exists i. by rewrite <-Hplaces.
  - eapply Forall_impl; [exact Ha2|]. simpl. intros d Hd. rewrite (same_ids _ _ Hs1) in Hd. by apply Halive.
  - intros d Hd. assert (Hin : fst d ∈ flatten grouped).
    { eapply submseteq_elem; [exact Hg|]. by apply list_elem_of_fmap_2. }
    by apply (partition_grouped _ _ _ _ _ _ Ep Hin).
Qed.

End props.
