(* ===== verification/BatchProps.v ===== *)
(** * What a batch of instances of one service gets

    Without zone spreading, the heap-based batch placement makes the decisions
    of a linear reference: for each instance, the best of the candidates that
    still have room. Capacity, the one-per-node mode and determinism follow from
    the reference. With zone spreading they do not: the last section evaluates
    the code on inputs where an entry's recorded position is stale. *)

From S2P Require Import Prelude GoStrings Keys EventHistory Heap NodeHeap CacheProps SchedulerFacts.
From S2P Require Import Placement PlacementProps.

Local Open Scope Z_scope.

(** ** The reference *)

(** The first of the best entries, by linear search. *)
Fixpoint bestEntry (es : list nodeHeapEntry) : option nodeHeapEntry :=
  match es with
  | [] => None
  | e :: es' => match bestEntry es' with
                | Some b => if entryLess b e then Some b else Some e
                | None => Some e
                end
  end.

(** One decision after another: charge the chosen node, and drop it when it
    has no room left or may take one instance only. *)
Fixpoint referenceBatch (onePerNode : bool) (rc rm : Z) (instanceIDs : list string)
    (es : list nodeHeapEntry) : list (string * string) :=
  match instanceIDs with
  | [] => []
  | i :: rest =>
      match bestEntry es with
      | None => []
      | Some e =>
          if decide (entryId e = "") then []
          else (i, entryId e) ::
               referenceBatch onePerNode rc rm rest
                 ((if onePerNode || lacksResources rc rm (node (chargeEntry rc rm e)) then []
                   else [chargeEntry rc rm e]) ++ filter (λ x, entryId x ≠ entryId e) es)
      end
  end.

Lemma bestEntry_spec es e :
  bestEntry es = Some e → e ∈ es ∧ ∀ x, x ∈ es → entryLess x e = false.
Proof.
  revert e. induction es as [|a es IH]; intros e; simpl; [done|].
  destruct (bestEntry es) as [b|] eqn:E.
  - destruct (IH b eq_refl) as [Hb Hmin]. destruct (entryLess b a) eqn:Hl; intros [= <-].
    + split; [set_solver|]. intros x [->|Hx]%elem_of_cons; [by apply (swo_asym _)|auto].
    + split; [set_solver|]. intros x [->|Hx]%elem_of_cons; [apply swo_irrefl|].
      exact (swo_incomp _ _ _ (Hmin x Hx) Hl).
  - intros [= <-]. destruct es as [|b es]; [|simpl in E; by destruct (bestEntry es) as [c|]; [destruct (entryLess c b)|]].
    split; [set_solver|]. intros x ->%list_elem_of_singleton. apply swo_irrefl.
Qed.

Lemma bestEntry_None es : bestEntry es = None ↔ es = [].
Proof.
  destruct es as [|a es]; [done|]. simpl. destruct (bestEntry es) as [b|]; [destruct (entryLess b a)|]; done.
Qed.

(** Entries of different nodes are never tied. *)
Lemma entryLess_total a b : entryLess a b = false → entryLess b a = false → entryId a = entryId b.
Proof.
  unfold entryLess, entryId. repeat case_match; boolprop; try lia. intros. by apply str_ltb_total.
Qed.

Lemma nodup_id_inj es a b : NoDup (entryId <$> es) → a ∈ es → b ∈ es → entryId a = entryId b → a = b.
Proof.
  intros Hnd Ha Hb E. apply list_elem_of_lookup in Ha as [i Hi], Hb as [j Hj].
  assert (i = j) as ->; [|congruence].
  apply (NoDup_lookup _ i j (entryId a) Hnd); rewrite list_lookup_fmap; [by rewrite Hi|rewrite Hj; simpl; congruence].
Qed.

(** The best entry does not depend on the order of the entries. *)
Lemma bestEntry_unique es e :
  NoDup (entryId <$> es) → e ∈ es → (∀ x, x ∈ es → entryLess x e = false) → bestEntry es = Some e.
Proof.
  intros Hnd He Hmin. destruct (bestEntry es) as [b|] eqn:E.
  - destruct (bestEntry_spec es b E) as [Hb Hbmin]. f_equal. apply (nodup_id_inj es); [done|done|done|].
    apply entryLess_total; auto.
  - apply bestEntry_None in E as ->. set_solver.
Qed.

Lemma referenceBatch_perm op rc rm ids es es' :
  NoDup (entryId <$> es) → es ≡ₚ es' → referenceBatch op rc rm ids es = referenceBatch op rc rm ids es'.
Proof.
  revert es es'. induction ids as [|i ids IH]; intros es es' Hnd Hp; [done|]. simpl.
  destruct (bestEntry es) as [e|] eqn:E.
  - destruct (bestEntry_spec es e E) as [He Hmin].
    rewrite (bestEntry_unique es' e); [|by rewrite <-Hp|by rewrite <-Hp|intros x; rewrite <-Hp; auto].
    case_decide; [done|]. f_equal. apply IH; [|by rewrite Hp].
    rewrite fmap_app. apply NoDup_app. split_and!.
    + destruct (_ || _); repeat constructor. set_solver.
    + intros x Hx (y & -> & Hy)%list_elem_of_fmap. apply list_elem_of_filter in Hy as [Hne _].
      destruct (_ || _); [set_solver|]. apply list_elem_of_fmap in Hx as (z & Hz & ->%list_elem_of_singleton).
      by destruct Hne.
    + eapply submseteq_nodup; [apply fmap_submseteq, filter_sub|done].
  - apply bestEntry_None in E as ->. apply Permutation_nil_l in Hp as <-. done.
Qed.

(** ** The code follows the reference *)

Section reference.
Context `{GoMapRange} `{GoSort}.

(** The step of the reference on the entries behind a cache. *)
Lemma step_entries e es :
  NoDup (entryId <$> e :: es) → filter (λ x, entryId x ≠ entryId e) (e :: es) = es.
Proof.
  rewrite fmap_cons. intros [Hnot _]%NoDup_cons. rewrite filter_cons_False by (intros Hc; by apply Hc).
  apply filter_everything, Forall_forall. intros x Hx E. apply Hnot. rewrite <-E.
  by apply list_elem_of_fmap_2.
Qed.

Lemma live_nodup c : cache_wf c → NoDup (entryId <$> live c).
Proof.
  intros Hc. apply NoDup_fmap_2_strong; [|apply NoDup_fmap_2_strong; [|apply (cw_heap _ Hc)]].
  - intros a b (p & -> & Hp)%list_elem_of_fmap (q & -> & Hq)%list_elem_of_fmap E.
    pose proof (in_heap_known c p Hc Hp) as H1. pose proof (in_heap_known c q Hc Hq) as H2.
    change (entryId (entryAt (heapData c) p) = entryId (entryAt (heapData c) q)) in E.
    rewrite E, H2 in H1. by simplify_eq.
  - intros p q Hp Hq E. pose proof (in_heap_known c p Hc Hp) as H1. pose proof (in_heap_known c q Hc Hq) as H2.
    apply (f_equal entryId) in E.
    change (entryId (entryAt (heapData c) p) = entryId (entryAt (heapData c) q)) in E.
    rewrite E, H2 in H1. by simplify_eq.
Qed.

(** One placement on the best node, in cache and reference. *)
Lemma placeOnNode_best policy name rc rm st c p rest :
  state_wf st → cache_wf c → cache_ordered c → minimumCPU c = rc → minimumMemory c = rm →
  heapSlice (heapData c) = p :: rest →
  let e := setHeapIndex 0 (entryAt (heapData c) p) in
  ∃ st' c', placeOnNode policy name (BestNode c) rc rm st c = Some (st', c') ∧ same_inputs st st' ∧
    cache_wf c' ∧ cache_ordered c' ∧ minimumCPU c' = rc ∧ minimumMemory c' = rm ∧
    live c' ≡ₚ (if perNode policy || lacksResources rc rm (node (chargeEntry rc rm e)) then []
                else [chargeEntry rc rm e]) ++ scores (heapData c) rest.
Proof.
  intros Hst Hc Ho Hrc Hrm E e. destruct (BestNode_min c p rest Hc Ho E) as (Hex & Hbest & _).
  rewrite Hbest. unfold placeOnNode.
  assert (Hp0 : heapSlice (heapData c) !! 0%nat = Some p) by (by rewrite E).
  destruct (RecordPlacement_exact rc rm c 0 p rest Hc Ho Hp0 Hex ltac:(by rewrite E))
    as (c1 & E1 & Hc1 & Ho1 & Hex1 & M1 & M2 & Hlive & Hid1 & Hsc1 & Hcase).
  unfold entryId. rewrite E1. simpl. fold (entryId (entryAt (heapData c) p)).
  assert (∃ c2, (if perNode policy then RemoveNode (entryId (entryAt (heapData c) p)) c1 else Some c1) = Some c2 ∧
    cache_wf c2 ∧ cache_ordered c2 ∧ minimumCPU c2 = rc ∧ minimumMemory c2 = rm ∧
    live c2 ≡ₚ (if perNode policy || lacksResources rc rm (node (chargeEntry rc rm e)) then []
                else [chargeEntry rc rm e]) ++ scores (heapData c) rest)
    as (c2 & -> & Hc2 & Ho2 & R1 & R2 & Hlive2).
  { destruct (perNode policy); simpl.
    - rewrite <-Hid1. assert (Hp1 : (p < length (arena (heapData c1)))%nat).
      { apply (cw_lookup _ Hc1 (entryId (entryAt (heapData c) p))).
        rewrite (proj1 (RecordPlacement_frame _ _ _ _ _ E1)). apply in_heap_known; [done|]. rewrite E. set_solver. }
      destruct (RemoveNode_exact c1 p rest Hc1 Ho1 Hex1 Hp1 Hcase) as (c2 & -> & H2 & H3 & H4 & H5 & H6).
      exists c2. rewrite <-Hsc1. split_and!; [done|done|done|congruence|congruence|done].
    - exists c1. split_and!; [done|done|done|congruence|congruence|]. rewrite Hlive. unfold charged.
      by rewrite Hrc, Hrm. }
  simpl. destruct (updateNodeResources_ok st (entryId (entryAt (heapData c) p)) rc rm name Hst) as (al & zones & -> & Hids).
  simpl. do 2 eexists. split_and!; [done|by split|done|done|done|done|done].
Qed.

Lemma placeBatchLoop_reference policy cands name rc rm ids st c es :
  useZoneSpread policy = false →
  state_wf st → cache_wf c → cache_ordered c → minimumCPU c = rc → minimumMemory c = rm → live c ≡ₚ es →
  ∃ st', placeBatchLoop policy cands name rc rm ids st c =
    Some (decisionChanges (referenceBatch (perNode policy) rc rm ids es), st') ∧ same_inputs st st'.
Proof.
  intros Hz. revert st c es. induction ids as [|i ids IH]; intros st c es Hst Hc Ho Hrc Hrm Hlive; simpl.
  { exists st. by split. }
  pose proof (live_nodup c Hc) as Hnd.
  assert (Hndes : NoDup (entryId <$> es)) by (by rewrite <-Hlive).
  unfold cacheLen, chooseNode. rewrite Hz. destruct (heapSlice (heapData c)) as [|p rest] eqn:E; simpl.
  { unfold live in Hlive. rewrite E in Hlive. simpl in Hlive. apply Permutation_nil_l in Hlive as <-.
    exists st. by split. }
  destruct (BestNode_min c p rest Hc Ho E) as (_ & Hbest & Hmin).
  set (e := setHeapIndex 0 (entryAt (heapData c) p)) in *.
  assert (Hl : live c = e :: scores (heapData c) rest) by (unfold live; by rewrite E).
  rewrite (bestEntry_unique es e Hndes); [|rewrite <-Hlive, Hl; set_solver|intros x; rewrite <-Hlive; auto].
  change (entryId e) with (entryId (entryAt (heapData c) p)). rewrite <-Hbest. case_decide; [by exists st|].
  destruct (placeOnNode_best policy name rc rm st c p rest Hst Hc Ho Hrc Hrm E)
    as (st1 & c1 & -> & Hs1 & Hc1 & Ho1 & R1 & R2 & Hlive1). fold e in Hlive1. simpl.
  destruct (IH st1 c1 ((if perNode policy || lacksResources rc rm (node (chargeEntry rc rm e)) then []
                        else [chargeEntry rc rm e]) ++ filter (λ x, entryId x ≠ BestNode c) es))
    as (st2 & -> & Hs2); [by apply (state_wf_same st)|done|done|done|done| |].
  - rewrite Hlive1, <-Hlive, Hl, Hbest. change (entryId (entryAt (heapData c) p)) with (entryId e).
    rewrite step_entries; [done|]. by rewrite <-Hl.
  - simpl. exists st2. split; [done|by etrans].
Qed.

End reference.

(** ** Consequences of the reference *)

Definition placedOn (nodeID : string) (ds : list (string * string)) : list (string * string) :=
  filter (λ d, snd d = nodeID) ds.

Lemma placedOn_cons n d ds :
  placedOn n (d :: ds) = if decide (snd d = n) then d :: placedOn n ds else placedOn n ds.
Proof. unfold placedOn. by rewrite filter_cons. Qed.

(** The entries after a decision for [e]. *)
Lemma step_ids (b : bool) rc rm e es x :
  x ∈ (if b then [] else [chargeEntry rc rm e]) ++ filter (λ x, entryId x ≠ entryId e) es →
  e ∈ es → x ∈ es ∧ entryId x ≠ entryId e ∨ b = false ∧ x = chargeEntry rc rm e.
Proof.
  intros [Hx|Hx]%elem_of_app He.
  - destruct b; [set_solver|]. apply list_elem_of_singleton in Hx. auto.
  - apply list_elem_of_filter in Hx. tauto.
Qed.

Lemma referenceBatch_ids op rc rm ids es d :
  d ∈ referenceBatch op rc rm ids es → fst d ∈ ids ∧ ∃ e, e ∈ es ∧ entryId e = snd d.
Proof.
  revert es. induction ids as [|i ids IH]; intros es; simpl; [set_solver|].
  destruct (bestEntry es) as [e|] eqn:E; [|set_solver]. destruct (bestEntry_spec es e E) as [He _].
  case_decide; [set_solver|]. intros [->|Hd]%elem_of_cons; [split; [set_solver|eauto]|].
  destruct (IH _ Hd) as [H1 (x & Hx & Ex)]. split; [set_solver|].
  destruct (step_ids _ _ _ _ _ _ Hx He) as [[? _]|[_ ->]]; [eauto|]. exists e. by rewrite <-Ex.
Qed.

(** No decision names a node without an entry. *)
Lemma referenceBatch_absent op rc rm ids es nodeID :
  (∀ e, e ∈ es → entryId e ≠ nodeID) → placedOn nodeID (referenceBatch op rc rm ids es) = [].
Proof.
  intros Habs. apply filter_nothing, Forall_forall. intros d Hd Ed.
  apply referenceBatch_ids in Hd as [_ (e & He & Ee)]. apply (Habs e He). congruence.
Qed.

Lemma step_nodup (b : bool) rc rm e es :
  NoDup (entryId <$> es) →
  NoDup (entryId <$> (if b then [] else [chargeEntry rc rm e]) ++ filter (λ x, entryId x ≠ entryId e) es).
Proof.
  intros Hnd. rewrite fmap_app. apply NoDup_app. split_and!.
  - destruct b; repeat constructor. set_solver.
  - intros x Hx (y & -> & Hy)%list_elem_of_fmap. apply list_elem_of_filter in Hy as [Hne _].
    destruct b; [set_solver|]. apply list_elem_of_fmap in Hx as (z & Hz & ->%list_elem_of_singleton).
    by destruct Hne.
  - eapply submseteq_nodup; [apply fmap_submseteq, filter_sub|done].
Qed.

Lemma lacksResources_false rc rm c :
  lacksResources rc rm c = false → (0 < rc → rc ≤ cn_availCPU c) ∧ (0 < rm → rm ≤ cn_availMemory c).
Proof.
  unfold lacksResources. intros [H1 H2]%orb_false_iff. apply andb_false_iff in H1, H2.
  rewrite !Z.ltb_ge in *. lia.
Qed.

Lemma referenceBatch_capacity op rc rm ids es e :
  in_int64 rc → in_int64 rm → NoDup (entryId <$> es) →
  (∀ x, x ∈ es → lacksResources rc rm (node x) = false ∧ in_int64 (cn_availCPU (node x)) ∧
                 in_int64 (cn_availMemory (node x))) →
  e ∈ es →
  let n := length (placedOn (entryId e) (referenceBatch op rc rm ids es)) in
  (0 < rc → Z.of_nat n * rc ≤ cn_availCPU (node e)) ∧ (0 < rm → Z.of_nat n * rm ≤ cn_availMemory (node e)).
Proof.
  intros Hrc Hrm. revert es e. induction ids as [|i ids IH]; intros es e Hnd Hes He; cbn [referenceBatch]; cbv zeta.
  { destruct (Hes e He) as (Hl & _). apply lacksResources_false in Hl. simpl. lia. }
  assert (H0e : (0 < rc → 0 ≤ cn_availCPU (node e)) ∧ (0 < rm → 0 ≤ cn_availMemory (node e))).
  { destruct (Hes e He) as (Hl & _). apply lacksResources_false in Hl. lia. }
  destruct (bestEntry es) as [b|] eqn:E; [|simpl; split; intros; destruct H0e; lia].
  destruct (bestEntry_spec es b E) as [Hb _]. case_decide; [simpl; split; intros; destruct H0e; lia|].
  rewrite placedOn_cons. simpl snd.
  set (drop := op || lacksResources rc rm (node (chargeEntry rc rm b))).
  set (es' := (if drop then [] else [chargeEntry rc rm b]) ++ filter (λ x, entryId x ≠ entryId b) es).
  destruct (Hes b Hb) as (Hlb & Hcb & Hmb).
  assert (Havail : (0 < rc → cn_availCPU (node (chargeEntry rc rm b)) = cn_availCPU (node b) - rc) ∧
                   (0 < rm → cn_availMemory (node (chargeEntry rc rm b)) = cn_availMemory (node b) - rm)).
  { apply lacksResources_false in Hlb. simpl. unfold in_int64, int64_min, int64_max in *.
    split; intros; apply wrap64_id; unfold in_int64, int64_min, int64_max; lia. }
  assert (Hes' : ∀ x, x ∈ es' → lacksResources rc rm (node x) = false ∧ in_int64 (cn_availCPU (node x)) ∧
                                in_int64 (cn_availMemory (node x))).
  { intros x Hx. destruct (step_ids _ _ _ _ _ _ Hx Hb) as [[Hx' _]|[Hdrop ->]]; [by apply Hes|].
    unfold drop in Hdrop. apply orb_false_iff in Hdrop as [_ Hl]. split_and!; [done|apply wrap64_range..]. }
  pose proof (step_nodup drop rc rm b es Hnd) as Hnd'. fold es' in Hnd'.
  destruct (decide (entryId b = entryId e)) as [Eid|Hne].
  - assert (b = e) as -> by (by apply (nodup_id_inj es)). cbn [length].
    destruct drop eqn:Hdrop.
    + rewrite referenceBatch_absent.
      2: { intros x Hx. unfold es' in Hx. simpl in Hx. apply list_elem_of_filter in Hx. tauto. }
      simpl. apply lacksResources_false in Hlb. lia.
    + assert (Hc : chargeEntry rc rm e ∈ es') by (unfold es'; set_solver).
      destruct (IH es' (chargeEntry rc rm e) Hnd' Hes' Hc) as [I1 I2].
      change (entryId (chargeEntry rc rm e)) with (entryId e) in I1, I2. destruct Havail as [A1 A2].
      split; intros Hpos; [specialize (I1 Hpos); rewrite (A1 Hpos) in I1|specialize (I2 Hpos); rewrite (A2 Hpos) in I2]; nia.
  - apply IH; [done|done|].
    unfold es'. apply elem_of_app. right. apply list_elem_of_filter. split; [congruence|done].
Qed.

(** In the one-per-node mode no node is used twice. *)
Lemma referenceBatch_one_per_node rc rm ids es :
  NoDup (entryId <$> es) → NoDup (snd <$> referenceBatch true rc rm ids es).
Proof.
  revert es. induction ids as [|i ids IH]; intros es Hnd; simpl; [constructor|].
  destruct (bestEntry es) as [e|] eqn:E; [|constructor]. case_decide; [constructor|].
  rewrite fmap_cons. apply NoDup_cons. split.
  - intros (d & Ed & Hd)%list_elem_of_fmap. apply referenceBatch_ids in Hd as [_ (x & Hx & Ex)].
    apply list_elem_of_filter in Hx as [Hne _]. simpl in Ed. congruence.
  - apply IH. eapply submseteq_nodup; [apply fmap_submseteq, filter_sub|done].
Qed.

Lemma heapEntries_in cs load counts rc rm e :
  e ∈ heapEntries cs load counts rc rm → node e ∈ cs ∧ lacksResources rc rm (node e) = false.
Proof.
  intros (i & c & Hc & Hl & ->)%elem_of_heapEntries. split; [by eapply list_elem_of_lookup_2|done].
Qed.

Lemma heapEntries_complete cs load counts rc rm c :
  c ∈ cs → lacksResources rc rm c = false → ∃ e, e ∈ heapEntries cs load counts rc rm ∧ node e = c.
Proof.
  intros [i Hi]%list_elem_of_lookup Hl. exists (newEntry load counts i c). split; [|done].
  apply elem_of_heapEntries. eauto.
Qed.

(** ** Claims *)

Section claims.
Context `{GoMapRange} `{GoSort}.

Definition resourcesOf (name : string) (st : placementState) : serviceResourceRequirements :=
  default (mkResources 0 0) (serviceResources st !! name).

(** The entries of a batch's candidates when it starts. *)
Definition batchEntries (name : string) (st : placementState) : list nodeHeapEntry :=
  heapEntries (batchCandidates name st) (loadPerNode st)
              (default ∅ (serviceInstancesPerNode st !! name))
              (cpu (resourcesOf name st)) (memory (resourcesOf name st)).

Definition batchDecisions (name : string) (ids : list string) (st : placementState) : list (string * string) :=
  referenceBatch (perNode (policyOf (placementConstraints st !! name)))
    (cpu (resourcesOf name st)) (memory (resourcesOf name st)) ids (batchEntries name st).

Lemma batchEntries_nodup name st : state_wf st → NoDup (entryId <$> batchEntries name st).
Proof.
  intros Hst. apply heapEntries_nodup.
  eapply submseteq_nodup; [apply fmap_submseteq, batchCandidates_sub|apply Hst].
Qed.

Lemma placeBatchedInstances_reference_aux name ids st :
  state_wf st → useZoneSpread (policyOf (placementConstraints st !! name)) = false →
  ∃ st', placeBatchedInstances name ids st = Some (decisionChanges (batchDecisions name ids st), st').
Proof.
  intros Hst Hz. unfold placeBatchedInstances. fold (resourcesOf name st).
  set (counts := default ∅ _). set (st0 := update _ _ _ _ st).
  destruct (NewNodeCapacityCache_ok (batchCandidates name st) (loadPerNode st0) counts
              (cpu (resourcesOf name st)) (memory (resourcesOf name st)))
    as (c & -> & Hc & Ho & Hrc & Hrm & Hlive & _).
  { eapply submseteq_nodup; [apply fmap_submseteq, batchCandidates_sub|apply Hst]. }
  simpl. destruct (placeBatchLoop_reference (policyOf (placementConstraints st !! name)) (batchCandidates name st)
    name (cpu (resourcesOf name st)) (memory (resourcesOf name st)) ids st0 c (batchEntries name st) Hz)
    as (st' & -> & _); [|done|done|done|done|done|by exists st'].
  apply (state_wf_same st); [apply same_inputs_counts|done].
Qed.

(** C19: Without zone spreading, a batch decides exactly as the linear reference does:
    each instance in turn goes to the candidate with room that has the fewest
    instances of the service, then the lowest load, then the best rank, then
    the smallest name. *)
Theorem placeBatchedInstances_reference name ids st :
  state_wf st → useZoneSpread (policyOf (placementConstraints st !! name)) = false →
  ∃ st', placeBatchedInstances name ids st = Some (decisionChanges (batchDecisions name ids st), st').
Proof. apply placeBatchedInstances_reference_aux. Qed.

(** Resource figures are 64-bit integers. *)
Definition ranges_ok (st : placementState) : Prop :=
  (∀ c, c ∈ alive st → in_int64 (cn_availCPU c) ∧ in_int64 (cn_availMemory c)) ∧
  (∀ name r, serviceResources st !! name = Some r → in_int64 (cpu r) ∧ in_int64 (memory r)).

Lemma resourcesOf_range name st :
  ranges_ok st → in_int64 (cpu (resourcesOf name st)) ∧ in_int64 (memory (resourcesOf name st)).
Proof.
  intros [_ Hr]. unfold resourcesOf. destruct (serviceResources st !! name) as [r|] eqn:E; simpl; [by eapply Hr|].
  unfold in_int64, int64_min, int64_max. lia.
Qed.

Lemma nodup_cn_id (cs : list candidateNode) a b :
  NoDup (cn_id <$> cs) → a ∈ cs → b ∈ cs → cn_id a = cn_id b → a = b.
Proof.
  intros Hnd [i Hi]%list_elem_of_lookup [j Hj]%list_elem_of_lookup E. assert (i = j) as ->; [|congruence].
  apply (NoDup_lookup _ i j (cn_id a) Hnd); rewrite list_lookup_fmap; [by rewrite Hi|rewrite Hj; simpl; congruence].
Qed.

(** C20: A batch without zone spreading never overcommits a node: the instances it
    places there fit the CPU and the memory the node had left. *)
Theorem placeBatchedInstances_capacity name ids st c :
  state_wf st → ranges_ok st → useZoneSpread (policyOf (placementConstraints st !! name)) = false →
  c ∈ alive st →
  ∃ ds st', placeBatchedInstances name ids st = Some (decisionChanges ds, st') ∧
    let n := length (placedOn (cn_id c) ds) in
    n = 0%nat ∨
    ((0 < cpu (resourcesOf name st) → Z.of_nat n * cpu (resourcesOf name st) ≤ cn_availCPU c) ∧
     (0 < memory (resourcesOf name st) → Z.of_nat n * memory (resourcesOf name st) ≤ cn_availMemory c)).
Proof.
  intros Hst Hr Hz Hc. destruct (placeBatchedInstances_reference_aux name ids st Hst Hz) as [st' E].
  exists (batchDecisions name ids st), st'. split; [exact E|]. cbv zeta.
  destruct (resourcesOf_range name st Hr) as [Hrc Hrm].
  assert (Hin : ∀ e, e ∈ batchEntries name st → node e ∈ alive st ∧
            lacksResources (cpu (resourcesOf name st)) (memory (resourcesOf name st)) (node e) = false).
  { intros e He. apply heapEntries_in in He as [He1 He2]. split; [|done].
    eapply submseteq_elem; [apply batchCandidates_sub|done]. }
  destruct (decide (cn_id c ∈ entryId <$> batchEntries name st)) as [(e & Ee & He)%list_elem_of_fmap|Hout].
  - right. destruct (Hin e He) as [Hea _].
    assert (node e = c) as <- by (apply (nodup_cn_id (alive st)); [apply Hst|done|done|symmetry; exact Ee]).
    apply referenceBatch_capacity; [done|done|by apply batchEntries_nodup| |done].
    intros x Hx. destruct (Hin x Hx) as [Hxa Hxl]. destruct (proj1 Hr (node x) Hxa). auto.
  - left. unfold batchDecisions. rewrite referenceBatch_absent; [done|].
    intros e He E'. apply Hout. rewrite <-E'. by apply list_elem_of_fmap_2.
Qed.

(** A node that hosts a placed instance of a service. *)
Definition hosts (st : placementState) (name nodeID : string) : Prop :=
  ∃ i info, placements st !! i = Some nodeID ∧ instances st !! i = Some info ∧ service info = name.

Lemma filterOut_not_hosting cs name st c :
  c ∈ filterOutNodesAlreadyHostingService cs name (placements st) (instances st) → ¬ hosts st name (cn_id c).
Proof.
  unfold filterOutNodesAlreadyHostingService. intros [Hout _]%list_elem_of_filter (i & info & Hp & Hi & Hs).
  apply Hout. assert (Hin : (i, cn_id c) ∈ map_range (placements st)).
  { rewrite map_range_perm. by apply elem_of_map_to_list. }
  clear Hout. revert Hin. generalize (map_range (placements st)). intros l.
  set (f := λ occupied '(instanceID, nodeID), _).
  assert (Hmono : ∀ l acc, acc ⊆ foldl f acc l).
  { clear. induction l as [|[j n] l IH]; intros acc; simpl; [done|]. etrans; [|apply IH].
    unfold f. repeat case_match; set_solver. }
  generalize (∅ : gset string). induction l as [|[j n] l IH]; intros acc Hin; [set_solver|]. simpl.
  apply elem_of_cons in Hin as [[= -> ->]|Hin]; [|by apply IH].
  apply Hmono. unfold f. rewrite Hi, decide_True by done. set_solver.
Qed.

Lemma rank_preserves name st c constraint :
  placementConstraints st !! name = Some constraint →
  c ∈ batchCandidates name st →
  c ∈ (if decide (mode constraint = "per-node")
       then filterOutNodesAlreadyHostingService (filterByConstraints (alive st) name (placementConstraints st))
              name (placements st) (instances st)
       else filterByConstraints (alive st) name (placementConstraints st)).
Proof.
  intros Hc. unfold batchCandidates. rewrite Hc. set (cs1 := if decide (mode constraint = _) then _ else _).
  destruct (_ && _) eqn:E; [|unfold rankByAffinityHints; rewrite E, rankBy_perm];
    (case_decide; [done|]; unfold rankByPreferences; by rewrite rankBy_perm).
Qed.

(** In the one-per-node mode (and without zone spreading) a batch uses every node
    at most once, and never one that already hosts the service. *)
Theorem placeBatchedInstances_one_per_node name ids st constraint :
  state_wf st → placementConstraints st !! name = Some constraint →
  mode constraint = "per-node" → zonePolicy constraint ≠ "spread" →
  ∃ ds st', placeBatchedInstances name ids st = Some (decisionChanges ds, st') ∧
    NoDup (snd <$> ds) ∧ ∀ d, d ∈ ds → ¬ hosts st name (snd d).
Proof.
  intros Hst Hc Hm Hz.
  destruct (placeBatchedInstances_reference_aux name ids st Hst) as [st' E].
  { rewrite Hc. simpl. by rewrite bool_decide_eq_false_2. }
  exists (batchDecisions name ids st), st'. split; [exact E|].
  unfold batchDecisions. rewrite Hc. simpl. rewrite bool_decide_eq_true_2 by done. split.
  - by apply referenceBatch_one_per_node, batchEntries_nodup.
  - intros d Hd. apply referenceBatch_ids in Hd as [_ (e & He & <-)].
    apply heapEntries_in in He as [He _]. apply (rank_preserves _ _ _ _ Hc) in He.
    rewrite decide_True in He by done. by apply (filterOut_not_hosting _ _ _ _ He).
Qed.

(** Node-local volumes are a hard constraint: whatever the policy, instances of a
    service that mounts some are only placed on the one node that is the home
    of all of them. *)
Theorem placeBatchedInstances_volume_home name ids st constraint :
  state_wf st → placementConstraints st !! name = Some constraint → volumeHomeNodes constraint ≠ ∅ →
  ∃ ds st', placeBatchedInstances name ids st = Some (decisionChanges ds, st') ∧
    ∀ d, d ∈ ds → volumeHomeNodes constraint = {[snd d]}.
Proof.
  intros Hst Hc Hv. destruct (placeBatchedInstances_ok name ids st Hst) as (ds & st' & E & _ & _ & Hall).
  exists ds, st'. split; [done|]. intros d Hd.
  apply (proj1 (Forall_forall _ _) Hall), list_elem_of_fmap in Hd as (c & -> & Hcin).
  apply (rank_preserves _ _ _ _ Hc) in Hcin.
  assert (Hf : c ∈ filterByConstraints (alive st) name (placementConstraints st)).
  { case_decide; [|done]. by apply list_elem_of_filter in Hcin as [_ ?]. }
  unfold filterByConstraints in Hf. rewrite Hc, decide_False, bool_decide_eq_false_2 in Hf by done. simpl in Hf.
  set (home := filterByVolumeHomeNodes _ _) in Hf.
  assert (Hh : c ∈ home).
  { destruct (bool_decide (home = [])); [set_solver|].
    pose proof (filter_sub (λ x, matchesConstraint constraint x = true) home) as Hsub.
    destruct (filter _ home); [done|]. by eapply submseteq_elem. }
  apply list_elem_of_filter in Hh as [Hh _]. unfold isHomeOfAllVolumes in Hh. boolprop.
  apply size_1_elem_of in H1 as [x Hx]. apply leibniz_equiv in Hx. rewrite Hx in *. set_solver.
Qed.

End claims.

(** ** A concrete state *)

Definition sampleNodes : gmap string schedulerNodeInfo :=
  <["n1" := mkNodeInfo "n1" NodeAlive 1000 4096 "amd64" "z1" ∅ ∅]>
  (<["n2" := mkNodeInfo "n2" NodeAlive 500 4096 "amd64" "z2" ∅ ∅]> ∅).

Definition sampleConstraints : gmap string servicePlacementConstraint :=
  <["agent" := mkConstraint "per-node" "" "" 0 ∅ ∅ ∅ [] [] false ∅]>
  (<["db" := addVolumeHomeNode "n2" zeroConstraint]> ∅).

Definition sampleInstances : gmap string schedulerInstanceInfo :=
  <["a0" := mkInstanceInfo "agent" InstanceRunning "" false]> ∅.

Definition sampleState : placementState :=
  initialState (H := reference_range) (H0 := reference_sort) sampleNodes sampleInstances
    (<["a0" := "n1"]> ∅) (<["web" := mkResources 300 256]> ∅) sampleConstraints ∅.

Lemma sampleState_wf : state_wf sampleState.
Proof.
  apply initialState_wf. intros k n. unfold sampleNodes. rewrite !lookup_insert.
  repeat case_decide; [naive_solver..|]. by rewrite lookup_empty.
Qed.

Lemma sampleState_ranges : ranges_ok sampleState.
Proof.
  split.
  - intros c Hc. assert (Forall (λ c, in_int64 (cn_availCPU c) ∧ in_int64 (cn_availMemory c)) (alive sampleState)) as Hall.
    { apply Forall_forall. intros x Hx. unfold sampleState, initialState in Hx.
      destruct (computeNodeLoadAndResourceUsage _ _ _) as [[load uc] um]. simpl in Hx.
      unfold buildAliveCandidateNodes in Hx. rewrite (@sort_slice_perm reference_sort) in Hx.
      apply list_elem_of_omap in Hx as (kn & _ & Hx). case_decide; [|done]. simplify_eq.
      split; apply wrap64_range. }
    by apply (proj1 (Forall_forall _ _) Hall).
  - intros name r. change (serviceResources sampleState) with
      (<["web" := mkResources 300 256]> (∅ : gmap string serviceResourceRequirements)).
    rewrite lookup_insert. case_decide; [|by rewrite lookup_empty]. intros [= <-].
    unfold in_int64, int64_min, int64_max. simpl. lia.
Qed.

Lemma placeBatchedInstances_reference_witness :
  ∃ st', placeBatchedInstances (H := reference_range) "web" ["w1"; "w2"; "w3"; "w4"; "w5"] sampleState =
    Some (decisionChanges [("w1", "n2"); ("w2", "n1"); ("w3", "n1"); ("w4", "n1")], st').
Proof.
  apply (placeBatchedInstances_reference (H := reference_range) "web" ["w1"; "w2"; "w3"; "w4"; "w5"] sampleState
           sampleState_wf).
  vm_compute. reflexivity.
Defined.

Definition sampleCandidate : candidateNode := mkCandidate "n2" 500 4096 "amd64" "z2" ∅ ∅.

Lemma placeBatchedInstances_capacity_witness :
  ∃ ds st', placeBatchedInstances (H := reference_range) "web" ["w1"; "w2"; "w3"] sampleState =
      Some (decisionChanges ds, st') ∧
    let n := length (placedOn (cn_id sampleCandidate) ds) in
    n = 0%nat ∨ ((0 < cpu (resourcesOf "web" sampleState) →
                  Z.of_nat n * cpu (resourcesOf "web" sampleState) ≤ cn_availCPU sampleCandidate) ∧
                 (0 < memory (resourcesOf "web" sampleState) →
                  Z.of_nat n * memory (resourcesOf "web" sampleState) ≤ cn_availMemory sampleCandidate)).
Proof.
  apply (placeBatchedInstances_capacity (H := reference_range) "web" ["w1"; "w2"; "w3"] sampleState
           sampleCandidate sampleState_wf sampleState_ranges).
  - vm_compute. reflexivity.
  - apply (bool_decide_unpack _). vm_compute. exact I.
Defined.

Lemma placeBatchedInstances_one_per_node_witness :
  ∃ ds st', placeBatchedInstances (H := reference_range) "agent" ["a1"; "a2"] sampleState =
      Some (decisionChanges ds, st') ∧
    NoDup (snd <$> ds) ∧ ∀ d, d ∈ ds → ¬ hosts sampleState "agent" (snd d).
Proof.
  apply (placeBatchedInstances_one_per_node (H := reference_range) "agent" ["a1"; "a2"] sampleState
           (mkConstraint "per-node" "" "" 0 ∅ ∅ ∅ [] [] false ∅) sampleState_wf);
    [reflexivity|reflexivity|discriminate].
Defined.

Lemma placeBatchedInstances_volume_home_witness :
  ∃ ds st', placeBatchedInstances (H := reference_range) "db" ["d1"] sampleState =
      Some (decisionChanges ds, st') ∧
    ∀ d, d ∈ ds → volumeHomeNodes (addVolumeHomeNode "n2" zeroConstraint) = {[snd d]}.
Proof.
  apply (placeBatchedInstances_volume_home (H := reference_range) "db" ["d1"] sampleState
           (addVolumeHomeNode "n2" zeroConstraint) sampleState_wf); [reflexivity|].
  apply (bool_decide_unpack _). vm_compute. exact I.
Defined.
