(* ===== verification/PreemptionProps.v ===== *)
(** * Properties of preemption (src/scheduler/scheduler.go)

    Which instances may be stopped for the benefit of another, that the search
    finds the least important of them, and what a round of preemptions does. *)

From S2P Require Import Prelude GoStrings Keys EventHistory Heap NodeHeap CacheProps SchedulerFacts.
From S2P Require Import Placement PlacementProps Scheduler.

Local Open Scope Z_scope.

Section preemption.
Context `{GoMapRange} `{GoSort}.
Context (nodes : gmap string schedulerNodeInfo) (insts : gmap string schedulerInstanceInfo)
        (places : gmap string string) (constraints : gmap string servicePlacementConstraint)
        (priorities : gmap string Z) (stateful : gset string).

(** ** Victims *)

(** [victim] may be stopped in favour of an instance of [service] with the given
    priority. *)
Definition preemptible (requesterService : string) (requesterPriority : Z) (victim : string) : Prop :=
  ∃ nodeID info n,
    places !! victim = Some nodeID ∧ insts !! victim = Some info ∧ nodes !! nodeID = Some n ∧
    state info = InstanceRunning ∧ ni_state n = NodeAlive ∧ service info ≠ requesterService ∧
    countOf priorities (service info) < requesterPriority ∧
    (service info ∉ stateful) ∧
    (∀ c, constraints !! service info = Some c → mode c ≠ "per-node").

Definition priorityOfInstance (i : string) : Z :=
  match insts !! i with Some info => countOf priorities (service info) | None => 0 end.

Lemma victimOf_spec svc prio already i n v :
  victimOf svc prio nodes insts priorities constraints stateful already (i, n) = Some v →
  places !! i = Some n →
  victimID v = i ∧ victimPriority v = priorityOfInstance i ∧ (i ∉ already) ∧ preemptible svc prio i.
Proof.
  unfold victimOf, priorityOfInstance, preemptible. intros Hv Hp.
  case_decide; [done|]. destruct (insts !! i) as [info|]; simpl in Hv; [|done].
  case_decide; [done|]. destruct (nodes !! n) as [nd|] eqn:En; simpl in Hv; [|done].
  case_decide; [done|]. case_decide; [done|].
  destruct (Z.leb_spec prio (countOf priorities (service info))); [done|].
  destruct (constraints !! service info) as [c|] eqn:Ec.
  - destruct (bool_decide_reflect (mode c = "per-node")); [done|]. case_decide; [done|].
    simplify_eq. simpl. split_and!; try done. exists n, info, nd.
    split_and!; try done; try (by apply dec_stable). naive_solver.
  - case_decide; [done|]. simplify_eq. simpl. split_and!; try done.
    exists n, info, nd. split_and!; try done; try (by apply dec_stable). naive_solver.
Qed.

Lemma victimOf_complete svc prio already i :
  i ∉ already → preemptible svc prio i →
  ∃ n v, places !! i = Some n ∧
    victimOf svc prio nodes insts priorities constraints stateful already (i, n) = Some v ∧ victimID v = i ∧
    victimPriority v = priorityOfInstance i.
Proof.
  intros Ha (n & info & nd & Hp & Hi & Hn & Hr & Hal & Hs & Hlt & Hst & Hc). exists n.
  unfold victimOf, priorityOfInstance. rewrite decide_False by done. rewrite Hi. simpl.
  rewrite decide_False by (intros Hne; by apply Hne). rewrite Hn. simpl.
  rewrite decide_False by (intros Hne; by apply Hne). rewrite decide_False by done.
  destruct (Z.leb_spec prio (countOf priorities (service info))); [lia|].
  assert (match constraints !! service info with
          | Some constraint => bool_decide (mode constraint = "per-node") | None => false end = false) as ->.
  { destruct (constraints !! service info) as [c|]; [|done]. apply bool_decide_eq_false. by apply Hc. }
  rewrite decide_False by done. by eexists.
Qed.

#[export] Instance victimLess_swo : StrictWeakOrder victimLess.
Proof.
  split; unfold victimLess.
  - intros x. rewrite Z.eqb_refl. simpl. auto with go.
  - intros x y z. repeat case_match; boolprop; try done; try lia; try (intros; boolprop; lia).
    apply str_ltb_trans.
  - intros x y z. repeat case_match; boolprop; try done; try lia; try (intros; boolprop; lia).
    apply swo_incomp.
Qed.

(** The victim found is preemptible, and no preemptible instance has a lower
    priority. *)
Lemma findPreemptionVictim_spec svc prio already :
  let victim := fst (findPreemptionVictim svc prio nodes insts places priorities constraints stateful already) in
  (victim ≠ "" → (victim ∉ already) ∧ preemptible svc prio victim ∧
     ∀ i, i ∉ already → preemptible svc prio i → priorityOfInstance victim ≤ priorityOfInstance i) ∧
  (victim = "" → places !! "" = None → ∀ i, i ∉ already → ¬ preemptible svc prio i).
Proof.
  unfold findPreemptionVictim. set (l := omap _ (map_range places)).
  assert (Hin : ∀ v, v ∈ l → victimPriority v = priorityOfInstance (victimID v) ∧ (victimID v ∉ already) ∧
                             preemptible svc prio (victimID v)).
  { intros v ([i n] & Hkv & Hv)%list_elem_of_omap. rewrite map_range_perm in Hkv.
    apply elem_of_map_to_list in Hkv. destruct (victimOf_spec _ _ _ _ _ _ Hv Hkv) as (-> & ? & ? & ?). done. }
  assert (Hall : ∀ i, i ∉ already → preemptible svc prio i → ∃ v, v ∈ l ∧ victimID v = i).
  { intros i Ha Hp. destruct (victimOf_complete _ _ _ i Ha Hp) as (n & v & Hn & Hv & Hid & _).
    exists v. split; [|done]. apply list_elem_of_omap. exists (i, n). split; [|done].
    rewrite map_range_perm. by apply elem_of_map_to_list. }
  pose proof (sort_slice_perm _ victimLess l) as Hperm.
  pose proof (sort_slice_sorted _ victimLess l victimLess_swo) as Hsort.
  destruct (sort_slice victimLess l) as [|v rest]; simpl.
  - split; [done|]. intros _ _ i Ha Hp. destruct (Hall i Ha Hp) as (v & Hv & _).
    rewrite <-Hperm in Hv. set_solver.
  - assert (Hv : v ∈ l) by (rewrite <-Hperm; set_solver). destruct (Hin v Hv) as (Hpv & Hav & Hprev). split.
    + intros _. split_and!; [done|done|]. intros i Ha Hp. destruct (Hall i Ha Hp) as (w & Hw & <-).
      destruct (Hin w Hw) as (Hpw & _ & _). rewrite <-Hpv, <-Hpw.
      rewrite <-Hperm in Hw. apply elem_of_cons in Hw as [->|Hw]; [lia|].
      apply StronglySorted_cons in Hsort as [Hmin _]. rewrite Forall_forall in Hmin. specialize (Hmin w Hw).
      unfold victimLess in Hmin. destruct (Z.eqb_spec (victimPriority w) (victimPriority v)); simpl in Hmin; [lia|].
      boolprop. lia.
    + intros E Hnone. exfalso. destruct Hprev as (n & info & nd & Hp & _). rewrite E in Hp. congruence.
Qed.

(** ** The loop *)

(** A requester that may preempt: it has a priority. *)
Definition requester (unplaced : list string) (placed : gset string) (r : string) : Prop :=
  r ∈ unplaced ∧ r ∉ placed.

Definition preempted_for (r v : string) : Prop :=
  ∃ info, insts !! r = Some info ∧ preemptible (service info) (countOf priorities (service info)) v.

Lemma preemptFor_spec already r v :
  preemptFor nodes insts places constraints priorities stateful already r = Some v →
  v ≠ "" ∧ (v ∉ already) ∧ preempted_for r v.
Proof.
  unfold preemptFor, preempted_for. destruct (insts !! r) as [info|]; simpl; [|done].
  destruct (_ =? 0); [done|]. case_decide; [done|]. intros [= <-].
  destruct (findPreemptionVictim_spec (service info) (countOf priorities (service info)) already) as [Hv _].
  destruct (Hv ltac:(done)) as (? & ? & _). eauto.
Qed.

Definition stopChange (victim : string) : Change :=
  mkChange OpPut (KeyDerivedInstanceControllerStopped victim) "true" "".

Lemma preemptLoop_spec rs already count :
  ∃ vs, preemptLoop nodes insts places constraints priorities stateful rs already count = stopChange <$> vs ∧
    (Z.of_nat (length vs) ≤ Z.max 0 (maxPreemptionsPerCycle - count)) ∧ NoDup vs ∧
    (∀ v, v ∈ vs → v ∉ already) ∧ (∀ v, v ∈ vs → ∃ r, r ∈ rs ∧ preempted_for r v).
Proof.
  revert already count. induction rs as [|r rs IH]; intros already count; simpl.
  { exists []. split_and!; [done|simpl; lia|constructor|set_solver|set_solver]. }
  destruct (Z.leb_spec maxPreemptionsPerCycle count).
  { exists []. split_and!; [done|simpl; lia|constructor|set_solver|set_solver]. }
  destruct (preemptFor _ _ _ _ _ _ _ r) as [v|] eqn:E.
  - destruct (preemptFor_spec _ _ _ E) as (_ & Hv & Hp).
    destruct (IH ({[v]} ∪ already) (count + 1)) as (vs & -> & Hlen & Hnd & Hout & Hin).
    exists (v :: vs). split_and!; [done|simpl length; lia|..].
    + constructor; [|done]. intros Hc. specialize (Hout v Hc). set_solver.
    + intros w [->|Hw]%elem_of_cons; [done|]. specialize (Hout w Hw). set_solver.
    + intros w [->|Hw]%elem_of_cons; [exists r; split; [set_solver|done]|].
      destruct (Hin w Hw) as (r' & ? & ?). exists r'. split; [set_solver|done].
  - destruct (IH already count) as (vs & -> & Hlen & Hnd & Hout & Hin).
    exists vs. split_and!; [done|done|done|done|]. intros w Hw.
    destruct (Hin w Hw) as (r' & ? & ?). exists r'. split; [set_solver|done].
Qed.

(** Preemption never panics when the unplaced instances are known; it stops at
    most three instances, each once, each in favour of a known unplaced
    instance. *)
Lemma attemptPreemptions_spec unplaced placed :
  (∀ i, i ∈ unplaced → is_Some (insts !! i)) →
  ∃ vs, attemptPreemptions unplaced placed nodes insts places constraints priorities stateful =
          Some (stopChange <$> vs) ∧
    Z.of_nat (length vs) ≤ maxPreemptionsPerCycle ∧ NoDup vs ∧
    ∀ v, v ∈ vs → ∃ r, requester unplaced placed r ∧ preempted_for r v.
Proof.
  intros Hknown. unfold attemptPreemptions. set (still := filter _ unplaced).
  assert (Hstill : ∀ r, r ∈ still → requester unplaced placed r).
  { intros r [? ?]%list_elem_of_filter. by split. }
  assert (Hgo : ∀ rs, rs ≡ₚ still → ∃ vs,
    preemptLoop nodes insts places constraints priorities stateful rs ∅ 0 = stopChange <$> vs ∧
    Z.of_nat (length vs) ≤ maxPreemptionsPerCycle ∧ NoDup vs ∧
    ∀ v, v ∈ vs → ∃ r, requester unplaced placed r ∧ preempted_for r v).
  { intros rs Hrs. destruct (preemptLoop_spec rs ∅ 0) as (vs & E & Hlen & Hnd & _ & Hin).
    exists vs. split_and!; [done|unfold maxPreemptionsPerCycle in *; lia|done|].
    intros v Hv. destruct (Hin v Hv) as (r & Hr & ?). exists r. split; [|done]. apply Hstill. by rewrite <-Hrs. }
  assert (Hall : forallb (λ i, bool_decide (is_Some (insts !! i))) still = true).
  { apply forallb_forall. intros r Hr%list_elem_of_In. apply bool_decide_eq_true. apply Hknown.
    by apply Hstill. }
  destruct still as [|r [|r' still']] eqn:Es.
  - exists []. split_and!; [done|done|constructor|set_solver].
  - destruct (Hgo [r] ltac:(done)) as (vs & -> & ?). by exists vs.
  - rewrite Hall. destruct (Hgo (sort_slice (requesterLess insts priorities) (r :: r' :: still'))) as (vs & -> & ?).
    { apply sort_slice_perm. }
    by exists vs.
Qed.

End preemption.
