(* ===== verification/RebalanceProps.v ===== *)
(** * Properties of rebalancing

    The moves of a cycle are related to what they do to the placements: each one
    is allowed, each takes an instance from a node to one with at least two
    fewer instances, and together they decrease the imbalance of the cluster. *)

From S2P Require Import Prelude GoStrings Keys EventHistory Heap NodeHeap CacheProps SchedulerFacts.
From S2P Require Import Placement PlacementProps Scheduler.

Local Open Scope Z_scope.

(** ** Sums *)

Definition total {A} (f : A → Z) (l : list A) : Z := foldr (λ x acc, f x + acc) 0 l.

#[export] Instance total_proper {A} (f : A → Z) : Proper ((≡ₚ) ==> (=)) (total f).
Proof. induction 1; simpl; lia. Qed.

Lemma total_ext {A} (f g : A → Z) l : (∀ x, x ∈ l → f x = g x) → total f l = total g l.
Proof.
  induction l as [|x l IH]; intros Hfg; simpl; [done|]. rewrite (Hfg x) by set_solver.
  rewrite IH; [done|]. set_solver.
Qed.

Lemma total_change_one (f g : string → Z) l s :
  NoDup l → s ∈ l → (∀ x, x ∈ l → x ≠ s → f x = g x) →
  total g l = total f l - f s + g s.
Proof.
  intros Hnd Hs Hfg. apply list_elem_of_split in Hs as (l1 & l2 & ->).
  rewrite <-Permutation_middle in *. apply NoDup_cons in Hnd as [Hs Hnd]. simpl.
  rewrite (total_ext g f (l1 ++ l2)); [lia|]. intros x Hx. symmetry. apply Hfg; set_solver.
Qed.

Lemma total_change_two (f g : string → Z) l s t :
  NoDup l → s ∈ l → t ∈ l → s ≠ t → (∀ x, x ≠ s → x ≠ t → f x = g x) →
  total g l = total f l - f s - f t + g s + g t.
Proof.
  intros Hnd Hs Ht Hst Hfg.
  rewrite (total_change_one (λ x, if decide (x = s) then g s else f x) g l t); [|done..|].
  - rewrite (total_change_one f (λ x, if decide (x = s) then g s else f x) l s); [|done..|].
    + rewrite decide_True by done. rewrite decide_False by done. lia.
    + intros x _ Hx. by rewrite decide_False.
  - intros x _ Hx. case_decide; [by subst|]. by apply Hfg.
Qed.

Section rebalance.
Context `{GoMapRange} `{GoSort}.
Context (insts : gmap string schedulerInstanceInfo).

(** ** Loads *)

(** The instance counts towards its node's load. *)
Definition counted (i : string) : bool :=
  match insts !! i with
  | Some info => bool_decide (state info = InstanceRunning ∨ state info = InstancePending)
  | None => false
  end.

(** The number of running and pending instances placed on a node. *)
Definition load_of (places : gmap string string) (n : string) : Z :=
  total (λ p, if bool_decide (snd p = n) && counted (fst p) then 1 else 0) (map_to_list places).

Lemma countOf_increment k m n : countOf (increment k m) n = countOf m n + (if decide (k = n) then 1 else 0).
Proof.
  unfold increment. unfold countOf at 1. rewrite lookup_insert. case_decide; simpl.
  - subst. done.
  - change (default 0 (m !! n)) with (countOf m n). lia.
Qed.

Lemma countOf_decrement k m n : countOf (decrement k m) n = countOf m n - (if decide (k = n) then 1 else 0).
Proof.
  unfold decrement. unfold countOf at 1. rewrite lookup_insert. case_decide; simpl.
  - subst. done.
  - change (default 0 (m !! n)) with (countOf m n). lia.
Qed.

(** The code's load map holds these loads. *)
Lemma computeRunningLoadPerNode_load places ids n :
  countOf (computeRunningLoadPerNode places insts ids) n = load_of places n.
Proof.
  unfold computeRunningLoadPerNode, load_of. rewrite <-map_range_perm.
  assert (Hz : ∀ m, countOf m n = 0 → countOf (foldl (λ (load : gmap string Z) nodeID, <[nodeID := 0]> load) m ids) n = 0).
  { induction ids as [|k ids IH]; intros m Hm; simpl; [done|]. apply IH. unfold countOf in *.
    rewrite lookup_insert. by case_decide. }
  specialize (Hz ∅ eq_refl). revert Hz. generalize (foldl (λ (load : gmap string Z) nodeID, <[nodeID := 0]> load) ∅ ids).
  assert (Hgen : ∀ l m, countOf (foldl (λ load '(instanceID, nodeID),
      match insts !! instanceID with
      | None => load
      | Some info =>
          if decide (state info = InstanceRunning ∨ state info = InstancePending) then increment nodeID load else load
      end) m l) n =
    countOf m n + total (λ p, if bool_decide (snd p = n) && counted (fst p) then 1 else 0) l).
  { induction l as [|[i k] l IH]; intros m; simpl; [lia|]. rewrite IH. unfold counted.
    destruct (insts !! i) as [info|]; simpl; [|rewrite andb_false_r; lia].
    case_decide as Hd; [rewrite (bool_decide_eq_true_2 _ Hd)|rewrite (bool_decide_eq_false_2 _ Hd), andb_false_r; lia].
    rewrite countOf_increment, andb_true_r. case_decide; [rewrite bool_decide_eq_true_2 by done; lia|].
    rewrite bool_decide_eq_false_2 by done. lia. }
  intros m Hm. rewrite Hgen, Hm. lia.
Qed.

(** Moving a counted instance. *)
Lemma load_of_move places i s t n :
  places !! i = Some s → counted i = true →
  load_of (<[i := t]> places) n =
    load_of places n - (if decide (s = n) then 1 else 0) + (if decide (t = n) then 1 else 0).
Proof.
  intros Hi Hc. unfold load_of. rewrite <-insert_delete_eq, map_to_list_insert by apply lookup_delete_eq.
  rewrite <-(map_to_list_delete places i s Hi). simpl. rewrite Hc, !andb_true_r. generalize (total (λ p, if bool_decide (snd p = n) && counted (fst p) then 1 else 0)
                                                                 (map_to_list (delete i places))).
  intros z. repeat case_decide; repeat case_bool_decide; congruence || lia.
Qed.

(** The imbalance of the cluster: the sum of the squares of the loads. *)
Definition imbalance (ids : list string) (places : gmap string string) : Z :=
  total (λ n, load_of places n * load_of places n) ids.

Lemma imbalance_move ids places i s t :
  NoDup ids → s ∈ ids → t ∈ ids → places !! i = Some s → counted i = true → s ≠ t →
  imbalance ids (<[i := t]> places) = imbalance ids places - 2 * (load_of places s - load_of places t - 1).
Proof.
  intros Hnd Hs Ht Hi Hc Hst. unfold imbalance.
  rewrite (total_change_two (λ n, load_of places n * load_of places n) _ ids s t); [|done..|].
  - rewrite !(load_of_move places i s t) by done. repeat case_decide; subst; try done; lia.
  - intros x Hxs Hxt. rewrite (load_of_move places i s t) by done. repeat case_decide; try congruence.
    f_equal; lia.
Qed.

(** ** Targets *)

(** [c] may take an instance away from [source]. *)
Definition eligible (counts : gmap string Z) (source : string) (c : candidateNode) : Prop :=
  cn_id c ≠ source ∧ countOf counts (cn_id c) < countOf counts source.

(** The target of a move satisfies the constraints, runs fewer instances of the
    service than the source, and is the least loaded such node. *)
Lemma selectRebalanceTarget_spec name source cands load counts constraints :
  let target := selectRebalanceTarget name source cands load counts constraints in
  target ≠ "" →
  ∃ c, c ∈ filterByConstraints cands name constraints ∧ cn_id c = target ∧ eligible counts source c ∧
    ∀ c', c' ∈ filterByConstraints cands name constraints → eligible counts source c' →
      countOf load target ≤ countOf load (cn_id c').
Proof.
  unfold selectRebalanceTarget. set (f := λ '(bestNode, bestLoad) c, _).
  set (fcs := filterByConstraints cands name constraints). simpl.
  assert (Hgen : ∀ l done best bl,
    done ++ l = fcs →
    (best = "" ∧ bl = int64_max ∨ ∃ c, c ∈ done ∧ cn_id c = best ∧ eligible counts source c ∧ bl = countOf load best) →
    (∀ c', c' ∈ done → eligible counts source c' → bl ≤ countOf load (cn_id c')) →
    let '(best', bl') := foldl f (best, bl) l in
    (best' = "" ∧ bl' = int64_max ∨ ∃ c, c ∈ fcs ∧ cn_id c = best' ∧ eligible counts source c ∧ bl' = countOf load best') ∧
    (∀ c', c' ∈ fcs → eligible counts source c' → bl' ≤ countOf load (cn_id c'))).
  { induction l as [|c l IH]; intros dn best bl Hd Hb Hm.
    { rewrite app_nil_r in Hd. subst dn. done. }
    assert (Hd' : (dn ++ [c]) ++ l = fcs) by (by rewrite <-app_assoc).
    assert (Hskip : (eligible counts source c → bl ≤ countOf load (cn_id c)) →
       let '(best', bl') := foldl f (best, bl) l in
       (best' = "" ∧ bl' = int64_max ∨ ∃ c, c ∈ fcs ∧ cn_id c = best' ∧ eligible counts source c ∧ bl' = countOf load best') ∧
       (∀ c', c' ∈ fcs → eligible counts source c' → bl' ≤ countOf load (cn_id c'))).
    { intros Hc. apply (IH (dn ++ [c])); [done| |].
      - destruct Hb as [?|(c0 & ? & ?)]; [by left|right]. exists c0. split; [set_solver|done].
      - intros c' [?| ->%list_elem_of_singleton]%elem_of_app; auto. }
    cbn [foldl]. unfold f at 2. unfold eligible in Hskip at 1. case_decide as Hsrc; [apply Hskip; tauto|].
    destruct (Z.leb_spec (countOf counts source) (countOf counts (cn_id c))); [apply Hskip; lia|].
    destruct (Z.ltb_spec (countOf load (cn_id c)) bl); [|apply Hskip; lia].
    apply (IH (dn ++ [c])); [done| |].
    - right. exists c. split_and!; [set_solver|done|by split|done].
    - intros c' [Hc'| ->%list_elem_of_singleton]%elem_of_app Hel; [|lia]. specialize (Hm c' Hc' Hel). lia. }
  specialize (Hgen fcs [] "" int64_max eq_refl ltac:(by left) ltac:(set_solver)).
  destruct (foldl f ("", int64_max) fcs) as [best bl]. simpl. destruct Hgen as [[[-> _]|(c & Hc & Hid & Hel & ->)] Hmin]; [done|].
  intros _. exists c. by split_and!.
Qed.

(** ** Moves *)

Context (places : gmap string string) (ids : list string) (cands : list candidateNode)
        (groups : gmap string string) (constraints : gmap string servicePlacementConstraint)
        (placed pinned : gset string).

Definition moved (m : string * string * string) : string := fst (fst m).
Definition source_of (m : string * string * string) : string := snd (fst m).

(** The placements after some moves. *)
Definition apply_moves (ms : list (string * string * string)) : gmap string string :=
  foldl (λ p m, <[moved m := snd m]> p) places ms.

Lemma apply_moves_other ms i : i ∉ moved <$> ms → apply_moves ms !! i = places !! i.
Proof.
  unfold apply_moves. induction ms as [|m ms IH] using rev_ind; [done|].
  rewrite fmap_app, foldl_app. simpl. intros Hi. rewrite lookup_insert_ne by set_solver.
  apply IH. set_solver.
Qed.

(** A move the code may make: the instance is movable and placed at the source,
    the target is another alive node that satisfies the service's
    constraints. *)
Definition allowed_move (m : string * string * string) : Prop :=
  let '(i, s, t) := m in
  places !! i = Some s ∧ isMovable s insts groups placed constraints pinned (i, s) = true ∧
  s ∈ ids ∧ t ∈ ids ∧ s ≠ t ∧
  ∃ info, insts !! i = Some info ∧
    t ∈ cn_id <$> filterByConstraints cands (service info) constraints.

Record moves_inv (r : rebalanceState) : Prop := {
  mi_count : Z.of_nat (length (moves r)) = moveCount r;
  mi_max : moveCount r ≤ maxRebalanceMovesPerCycle;
  mi_nodup : NoDup (moved <$> moves r);
  mi_allowed : Forall allowed_move (moves r);
  mi_load n : countOf (nodeLoad r) n = load_of (apply_moves (moves r)) n;
  mi_imbalance : imbalance ids (apply_moves (moves r)) + 2 * moveCount r ≤ imbalance ids places;
  mi_counts name : is_Some (countServiceInstancesPerNode places insts !! name) →
                   is_Some (serviceCounts r !! name)
}.

Lemma isMovable_counted s i :
  isMovable s insts groups placed constraints pinned (i, s) = true →
  counted i = true ∧ ∃ info, insts !! i = Some info.
Proof.
  unfold isMovable, counted. destruct (insts !! i) as [info|]; intros Hm; boolprop; [|done].
  split; [|eauto]. apply bool_decide_eq_true. by left.
Qed.

Lemma countService_known i s info :
  places !! i = Some s → insts !! i = Some info →
  is_Some (countServiceInstancesPerNode places insts !! service info).
Proof.
  intros Hp Hi. unfold countServiceInstancesPerNode.
  assert (Hin : (i, s) ∈ map_range places) by (rewrite map_range_perm; by apply elem_of_map_to_list).
  set (f := λ counts '(instanceID, nodeID), _).
  assert (Hmono : ∀ l m k, is_Some (m !! k) → is_Some (foldl f m l !! k)).
  { induction l as [|[j n] l IH]; intros m k Hm; simpl; [done|]. apply IH.
    destruct (insts !! j) as [info'|]; [|done]. unfold increment2. rewrite lookup_insert. by case_decide. }
  apply list_elem_of_split in Hin as (l1 & l2 & ->). rewrite foldl_app. simpl. apply Hmono.
  rewrite Hi. unfold increment2. rewrite lookup_insert_eq. eauto.
Qed.

Hypothesis ids_nodup : NoDup ids.
Hypothesis cands_ids : ∀ c, c ∈ cands → cn_id c ∈ ids.

(** One instance: the code succeeds and keeps the invariant. *)
Lemma tryMove_ok s i r :
  moves_inv r → s ∈ ids → places !! i = Some s →
  isMovable s insts groups placed constraints pinned (i, s) = true → i ∉ moved <$> moves r →
  ∃ r', tryMove s cands insts constraints i r = Some r' ∧ moves_inv r' ∧
    (moves r' = moves r ∨ ∃ t, moves r' = moves r ++ [(i, s, t)]).
Proof.
  intros Hinv Hs Hp Hmv Hnew. unfold tryMove.
  destruct (Z.leb_spec maxRebalanceMovesPerCycle (moveCount r)); [exists r; by auto|].
  destruct (isMovable_counted s i Hmv) as [Hc [info Hi]]. rewrite Hi.
  set (t := selectRebalanceTarget _ _ _ _ _ _). case_decide as Hd; [exists r; by auto|].
  apply Decidable.not_or in Hd as [Hne Hless].
  destruct (selectRebalanceTarget_spec _ _ _ _ _ _ Hne) as (c & Hin & Hid & [Hns _] & _). fold t in Hid.
  destruct (mi_counts _ Hinv _ (countService_known _ _ _ Hp Hi)) as [counts Hcounts]. rewrite Hcounts. simpl.
  eexists. split; [done|]. split; [|right; by exists t].
  assert (Ht : t ∈ ids).
  { rewrite <-Hid. apply cands_ids. eapply submseteq_elem; [apply filterByConstraints_sub|exact Hin]. }
  assert (Hst : s ≠ t) by congruence.
  assert (Happ : apply_moves (moves r ++ [(i, s, t)]) = <[i := t]> (apply_moves (moves r))).
  { unfold apply_moves. by rewrite foldl_app. }
  assert (Hsrc : apply_moves (moves r) !! i = Some s) by (by rewrite apply_moves_other).
  destruct Hinv as [I1 I2 I3 I4 I5 I6 I7]. rewrite !I5 in Hless. split; cbn [moves moveCount nodeLoad serviceCounts].
  - rewrite length_app. simpl. lia.
  - lia.
  - rewrite fmap_app. apply NoDup_app. split_and!; [done|set_solver|apply NoDup_singleton].
  - apply Forall_app. split; [done|]. apply Forall_singleton. unfold allowed_move. split_and!; try done.
    exists info. split; [done|]. rewrite <-Hid. by apply list_elem_of_fmap_2.
  - intros n. rewrite Happ, (load_of_move _ i s t) by done. rewrite countOf_increment, countOf_decrement, I5. lia.
  - rewrite Happ, (imbalance_move ids _ i s t) by done. lia.
  - intros name Hn. rewrite lookup_insert. case_decide; [by eexists|]. by apply I7.
Qed.

Lemma moveFromNode_ok s movable r :
  moves_inv r → s ∈ ids → NoDup movable → (∀ i, i ∈ movable → i ∉ moved <$> moves r) →
  (∀ i, i ∈ movable → places !! i = Some s ∧ isMovable s insts groups placed constraints pinned (i, s) = true) →
  ∃ r', moveFromNode s cands insts constraints movable r = Some r' ∧ moves_inv r' ∧
    (∀ m, m ∈ moves r' → m ∈ moves r ∨ source_of m = s).
Proof.
  revert r. induction movable as [|i rest IH]; intros r Hinv Hs Hnd Hnew Hmv; simpl.
  { exists r. split_and!; [done|done|by left]. }
  apply NoDup_cons in Hnd as [Hi Hnd]. destruct (Hmv i ltac:(set_solver)) as [Hp Him].
  destruct (tryMove_ok s i r Hinv Hs Hp Him) as (r1 & -> & Hinv1 & Hm1); [apply Hnew; set_solver|]. simpl.
  assert (Hsub : ∀ j, j ∈ moved <$> moves r1 → j ∈ moved <$> moves r ∨ j = i).
  { destruct Hm1 as [->|[t ->]]; [by left|]. intros j. rewrite fmap_app. set_solver. }
  destruct (IH r1 Hinv1 Hs Hnd) as (r2 & -> & Hinv2 & Hm2).
  { intros j Hj Hc. destruct (Hsub j Hc) as [Hc'| ->]; [|done]. apply (Hnew j); [set_solver|done]. }
  { intros j Hj. apply Hmv. set_solver. }
  exists r2. split_and!; [done|done|]. intros m Hm. destruct (Hm2 m Hm) as [Hm'|]; [|by right].
  destruct Hm1 as [E|[t E]]; rewrite E in Hm'; [by left|].
  apply elem_of_app in Hm' as [?| ->%list_elem_of_singleton]; [by left|by right].
Qed.

Lemma findMovable_spec s i :
  i ∈ findMovableInstances s places insts groups placed constraints pinned ↔
  places !! i = Some s ∧ isMovable s insts groups placed constraints pinned (i, s) = true.
Proof.
  unfold findMovableInstances, sort_strings. rewrite sort_stable_perm, list_elem_of_fmap. split.
  - intros ([j n] & -> & Hm%list_elem_of_filter). destruct Hm as [Hm Hin]. rewrite map_range_perm in Hin.
    apply elem_of_map_to_list in Hin. simpl.
    assert (n = s) as -> by (unfold isMovable in Hm; boolprop; done). done.
  - intros [Hp Hm]. exists (i, s). split; [done|]. apply list_elem_of_filter. split; [done|].
    rewrite map_range_perm. by apply elem_of_map_to_list.
Qed.

Lemma findMovable_nodup s : NoDup (findMovableInstances s places insts groups placed constraints pinned).
Proof.
  unfold findMovableInstances, sort_strings. rewrite sort_stable_perm.
  eapply submseteq_nodup; [apply fmap_submseteq, filter_sub|]. rewrite map_range_perm.
  apply NoDup_fst_map_to_list.
Qed.

Lemma moveFromNodes_ok overloaded r :
  moves_inv r → NoDup overloaded → (∀ s, s ∈ overloaded → s ∈ ids) →
  (∀ m, m ∈ moves r → source_of m ∉ overloaded) →
  ∃ r', moveFromNodes overloaded cands places insts groups constraints placed pinned r = Some r' ∧ moves_inv r'.
Proof.
  revert r. induction overloaded as [|s rest IH]; intros r Hinv Hnd Hids Hsrc; simpl; [by exists r|].
  destruct (Z.leb_spec maxRebalanceMovesPerCycle (moveCount r)); [by exists r|].
  apply NoDup_cons in Hnd as [Hs Hnd].
  destruct (moveFromNode_ok s (findMovableInstances s places insts groups placed constraints pinned) r)
    as (r1 & -> & Hinv1 & Hm1); [done|apply Hids; set_solver|apply findMovable_nodup|..].
  { intros i [Hp _]%findMovable_spec ([[j s'] t] & -> & Hm)%list_elem_of_fmap.
    pose proof (proj1 (Forall_forall _ _) (mi_allowed _ Hinv) _ Hm) as (Hp' & _).
    apply (Hsrc _ Hm). unfold source_of, moved in *. simpl in *. assert (s' = s) as -> by congruence. set_solver. }
  { intros i. by rewrite findMovable_spec. }
  simpl. apply IH; [done|done|set_solver|]. intros m Hm. destruct (Hm1 m Hm) as [Hm'| ->]; [|done].
  specialize (Hsrc m Hm'). set_solver.
Qed.

End rebalance.

Section cluster.
Context `{GoMapRange} `{GoSort}.
Context (nodes : gmap string schedulerNodeInfo).
Hypothesis nodes_id : ∀ k n, nodes !! k = Some n → ni_id n = k.

Lemma collectAliveNodeIDs_alive nodeID : nodeID ∈ collectAliveNodeIDs nodes ↔ is_alive nodes nodeID.
Proof.
  unfold collectAliveNodeIDs, sort_strings, is_alive. rewrite sort_stable_perm, list_elem_of_omap. split.
  - intros ([k n] & Hin & Hn). rewrite map_range_perm in Hin. apply elem_of_map_to_list in Hin.
    simpl in Hn. case_decide; [|done]. simplify_eq. rewrite (nodes_id k n Hin). by exists n.
  - intros (n & Hn & Ha). exists (nodeID, n). simpl. rewrite decide_True by done. rewrite (nodes_id _ _ Hn).
    split; [|done]. rewrite map_range_perm. by apply elem_of_map_to_list.
Qed.

Lemma collectAliveNodeIDs_nodup : NoDup (collectAliveNodeIDs nodes).
Proof.
  unfold collectAliveNodeIDs, sort_strings. rewrite sort_stable_perm.
  apply (sublist_NoDup _ (fst <$> map_range nodes)); [rewrite map_range_perm; apply NoDup_fst_map_to_list|].
  assert (Hin : ∀ kn, kn ∈ map_range nodes → ni_id kn.2 = kn.1).
  { intros [k n]. rewrite map_range_perm. intros Hkn%elem_of_map_to_list. by apply nodes_id. }
  revert Hin. generalize (map_range nodes). intros l Hin. induction l as [|kn l IH]; [constructor|].
  simpl. case_decide; simpl; [rewrite Hin by set_solver|]; constructor; apply IH; set_solver.
Qed.

Lemma findOverloaded_sub load ids ideal : findOverloadedNodes load ids ideal ⊆+ ids.
Proof. unfold findOverloadedNodes. rewrite sort_slice_perm. apply filter_sub. Qed.

(** Rebalancing always returns, with at most two allowed moves of distinct
    instances; each lowers the imbalance by two at least. *)
Lemma rebalancePlacedInstances_spec insts places resources constraints groups placed pinned :
  ∃ ms cands, rebalancePlacedInstances nodes insts places resources constraints groups placed pinned =
      Some (movesToChanges ms) ∧
    Z.of_nat (length ms) ≤ maxRebalanceMovesPerCycle ∧ NoDup (moved <$> ms) ∧
    (∀ n, n ∈ cn_id <$> cands ↔ is_alive nodes n) ∧
    Forall (allowed_move insts places (collectAliveNodeIDs nodes) cands groups constraints placed pinned) ms ∧
    imbalance insts (collectAliveNodeIDs nodes) (apply_moves places ms) + 2 * Z.of_nat (length ms) ≤
      imbalance insts (collectAliveNodeIDs nodes) places.
Proof.
  unfold rebalancePlacedInstances. set (ids := collectAliveNodeIDs nodes).
  destruct (computeNodeLoadAndResourceUsage places insts resources) as [[lo uc] um].
  set (cands := buildAliveCandidateNodes nodes uc um).
  assert (Hal : ∀ n, n ∈ cn_id <$> cands ↔ is_alive nodes n) by (intros; by apply alive_candidates).
  assert (Hstay : ∃ ms cands, Some [] = Some (movesToChanges ms) ∧
    Z.of_nat (length ms) ≤ maxRebalanceMovesPerCycle ∧ NoDup (moved <$> ms) ∧
    (∀ n, n ∈ cn_id <$> cands ↔ is_alive nodes n) ∧
    Forall (allowed_move insts places ids cands groups constraints placed pinned) ms ∧
    imbalance insts ids (apply_moves places ms) + 2 * Z.of_nat (length ms) ≤ imbalance insts ids places).
  { exists [], cands. split_and!; [done|done|constructor|done|constructor|simpl; unfold apply_moves; simpl; lia]. }
  destruct (_ <? 2)%nat; [done|]. destruct (computeMaxMinLoad _ ids) as [mx mn]. destruct (_ <=? _); [done|].
  set (load := computeRunningLoadPerNode places insts ids). set (over := findOverloadedNodes load ids _).
  assert (Hsub : over ⊆+ ids) by apply findOverloaded_sub.
  unfold executeRebalanceMoves.
  destruct (moveFromNodes_ok insts places ids cands groups constraints placed pinned) with (overloaded := over)
    (r := mkRebalance [] 0 load (countServiceInstancesPerNode places insts)) as (r & -> & Hinv).
  - apply collectAliveNodeIDs_nodup.
  - intros c Hc. apply collectAliveNodeIDs_alive, Hal. by apply list_elem_of_fmap_2.
  - split; cbn [moves moveCount nodeLoad serviceCounts]; try done; try (by constructor).
    + intros n. apply computeRunningLoadPerNode_load.
    + unfold apply_moves. simpl. lia.
  - eapply submseteq_nodup; [done|apply collectAliveNodeIDs_nodup].
  - intros s. by apply submseteq_elem.
  - simpl. set_solver.
  - simpl. destruct Hinv as [I1 I2 I3 I4 I5 I6 I7]. exists (moves r), cands. rewrite I1. by split_and!.
Qed.

End cluster.
