(* ===== verification/Determinism.v ===== *)
(** * The scheduler does not depend on the order of map iteration

    Go visits a map in an unspecified order, differently each time. Every
    function of the scheduler that ranges over a map is shown here to return
    the same value for any two orders, given the same [sort.Slice] algorithm:
    either the loop commutes, or its result is sorted by a key that separates
    the elements. *)

From S2P Require Import Prelude GoStrings Keys EventHistory Heap NodeHeap SchedulerFacts Placement.
From S2P Require Import PlacementProps Scheduler PreemptionProps.

Local Open Scope Z_scope.

(** ** Loops over permuted lists *)

Lemma foldl_perm {A B} (f : B → A → B) :
  (∀ b x y, f (f b x) y = f (f b y) x) → ∀ l1 l2 b, l1 ≡ₚ l2 → foldl f b l1 = foldl f b l2.
Proof.
  intros Hcomm l1 l2 b Hl. revert b. induction Hl as [|x l1 l2 _ IH|x y l|l1 l2 l3 _ IH1 _ IH2]; intros b; simpl.
  - done.
  - apply IH.
  - by rewrite Hcomm.
  - by rewrite IH1.
Qed.

Lemma forallb_perm {A} (p : A → bool) l1 l2 : l1 ≡ₚ l2 → forallb p l1 = forallb p l2.
Proof.
  induction 1 as [|x l1 l2 _ IH|x y l|l1 l2 l3 _ IH1 _ IH2]; simpl; [done|by rewrite IH| |by rewrite IH1].
  destruct (p x), (p y); done.
Qed.

Lemma filter_ext_in {A} (P Q : A → Prop) `{∀ x, Decision (P x)} `{∀ x, Decision (Q x)} (l : list A) :
  (∀ x, P x ↔ Q x) → filter P l = filter Q l.
Proof.
  intros HPQ. induction l as [|x l IH]; [done|]. rewrite !filter_cons.
  specialize (HPQ x). destruct (decide (P x)), (decide (Q x)); [by rewrite IH|tauto|tauto|done].
Qed.

Lemma sort_slice_determined (S : GoSort) {A} (less : A → A → bool) `{!StrictWeakOrder less} l1 l2 :
  (∀ x y, x ∈ l1 → y ∈ l1 → less x y = false → less y x = false → x = y) →
  l1 ≡ₚ l2 → sort_slice less l1 = sort_slice less l2.
Proof.
  intros Hsep Hl. apply (sorted_by_unique less).
  - intros x y Hx Hy. rewrite sort_slice_perm in Hx, Hy. apply Hsep; [done|]. by rewrite Hl.
  - by apply sort_slice_sorted.
  - by apply sort_slice_sorted.
  - by rewrite !sort_slice_perm.
Qed.

(** ** Updates that commute *)

Lemma insert_swap {V} (m : gmap string V) k1 k2 v1 v2 :
  k1 ≠ k2 → <[k1 := v1]> (<[k2 := v2]> m) = <[k2 := v2]> (<[k1 := v1]> m).
Proof. intros. by apply insert_insert_ne. Qed.

Lemma increment_comm a b m : increment a (increment b m) = increment b (increment a m).
Proof.
  unfold increment, countOf. destruct (decide (a = b)) as [->|]; [done|].
  rewrite !lookup_insert_ne by done. by apply insert_swap.
Qed.

Lemma increment2_comm s1 k1 s2 k2 m :
  increment2 s1 k1 (increment2 s2 k2 m) = increment2 s2 k2 (increment2 s1 k1 m).
Proof.
  unfold increment2. destruct (decide (s1 = s2)) as [->|].
  - rewrite !lookup_insert_eq, !insert_insert_eq. simpl. by rewrite increment_comm.
  - rewrite !lookup_insert_ne by done. by apply insert_swap.
Qed.

Lemma addTo_comm a va b vb m : addTo a va (addTo b vb m) = addTo b vb (addTo a va m).
Proof.
  unfold addTo, countOf. destruct (decide (a = b)) as [->|].
  - rewrite !lookup_insert_eq, !insert_insert_eq. simpl. by rewrite wrap64_comm3.
  - rewrite !lookup_insert_ne by done. by apply insert_swap.
Qed.

#[export] Instance candidateLess_swo : StrictWeakOrder candidateLess.
Proof. split; unfold candidateLess; eauto with go typeclass_instances. Qed.

Section determinism.
Context (M1 M2 : GoMapRange) (S : GoSort).

Lemma map_range_order {V} (m : gmap string V) : @map_range M1 V m ≡ₚ @map_range M2 V m.
Proof. by rewrite !(@map_range_perm _). Qed.

(** A loop over a map whose body commutes. *)
Ltac loop := apply foldl_perm; [|apply map_range_order].

(** ** Placement *)

Lemma computeNodeLoad_order places insts resources :
  @computeNodeLoadAndResourceUsage M1 places insts resources =
  @computeNodeLoadAndResourceUsage M2 places insts resources.
Proof.
  loop. intros [[l c] m] [i1 n1] [i2 n2].
  destruct (insts !! i1) as [f1|] eqn:E1; [destruct (resources !! service f1) eqn:R1|];
    (destruct (insts !! i2) as [f2|] eqn:E2; [destruct (resources !! service f2) eqn:R2|]);
    cbv beta iota zeta; rewrite ?E1, ?E2, ?R1, ?R2; cbv beta iota;
    rewrite ?R1, ?R2, ?(increment_comm n2 n1), ?(addTo_comm n2 _ n1 _); done.
Qed.

Lemma computeServiceZone_order places insts zones :
  @computeServiceZonePlacements M1 places insts zones = @computeServiceZonePlacements M2 places insts zones.
Proof.
  loop. intros m [i1 n1] [i2 n2]. destruct (insts !! i1) as [f1|], (insts !! i2) as [f2|]; try done.
  cbv zeta. repeat case_decide; try done. apply increment2_comm.
Qed.

Lemma countService_order places insts :
  @countServiceInstancesPerNode M1 places insts = @countServiceInstancesPerNode M2 places insts.
Proof.
  loop. intros m [i1 n1] [i2 n2]. destruct (insts !! i1) as [f1|], (insts !! i2) as [f2|]; try done.
  apply increment2_comm.
Qed.

Lemma buildNodeServices_order places insts :
  @buildNodeServicesMap M1 places insts = @buildNodeServicesMap M2 places insts.
Proof.
  loop. intros m [i1 n1] [i2 n2]. destruct (insts !! i1) as [f1|], (insts !! i2) as [f2|]; try done.
  repeat case_decide; try done. destruct (decide (n1 = n2)) as [->|].
  - rewrite !lookup_insert_eq, !insert_insert_eq. simpl. f_equal. set_solver.
  - rewrite !lookup_insert_ne by done. by apply insert_swap.
Qed.

Lemma findUnplaced_order insts places :
  @findUnplacedPendingInstances M1 insts places = @findUnplacedPendingInstances M2 insts places.
Proof. apply sort_strings_unique. by rewrite (map_range_order insts). Qed.

Lemma buildAliveCandidates_order nodes uc um :
  (∀ k n, nodes !! k = Some n → ni_id n = k) →
  @buildAliveCandidateNodes M1 S nodes uc um = @buildAliveCandidateNodes M2 S nodes uc um.
Proof.
  intros Hid. unfold buildAliveCandidateNodes. apply (sort_slice_determined S); [apply _| |by rewrite map_range_order].
  assert (Hin : ∀ c, c ∈ omap (λ kn, if decide (ni_state (snd kn) = NodeAlive)
                 then Some (candidateOf uc um (snd kn)) else None) (@map_range M1 _ nodes) →
     ∃ n, nodes !! cn_id c = Some n ∧ c = candidateOf uc um n).
  { intros c ([k n] & Hkn & Hc)%list_elem_of_omap. rewrite (@map_range_perm M1) in Hkn.
    apply elem_of_map_to_list in Hkn. simpl in Hc. case_decide; [|done]. simplify_eq. simpl.
    exists n. by rewrite (Hid k n Hkn). }
  intros x y (nx & Hx & Ex)%Hin (ny & Hy & Ey)%Hin H1 H2. pose proof (str_ltb_total _ _ H1 H2). congruence.
Qed.

Lemma initialState_order nodes insts places resources constraints groups :
  (∀ k n, nodes !! k = Some n → ni_id n = k) →
  @initialState M1 S nodes insts places resources constraints groups =
  @initialState M2 S nodes insts places resources constraints groups.
Proof.
  intros Hid. unfold initialState. rewrite computeNodeLoad_order.
  destruct (@computeNodeLoadAndResourceUsage M2 places insts resources) as [[l uc] um].
  by rewrite (buildAliveCandidates_order _ _ _ Hid), computeServiceZone_order, buildNodeServices_order,
    countService_order.
Qed.

Lemma satisfies_order c req : @satisfiesRequireLabels M1 c req = @satisfiesRequireLabels M2 c req.
Proof. apply forallb_perm, map_range_order. Qed.

Lemma tolerates_order c acc : @toleratesRestrictions M1 c acc = @toleratesRestrictions M2 c acc.
Proof. apply forallb_perm, map_range_order. Qed.

Lemma filterByConstraints_order cs name constraints :
  @filterByConstraints M1 cs name constraints = @filterByConstraints M2 cs name constraints.
Proof.
  unfold filterByConstraints, filterByRestrictions. destruct (constraints !! name) as [c|].
  - set (cs1 := if decide _ then _ else _). destruct (_ && _); [done|].
    erewrite (filter_ext_in (λ x, @matchesConstraint M1 c x = true) (λ x, @matchesConstraint M2 c x = true)); [done|].
    intros x. unfold matchesConstraint. by rewrite satisfies_order, tolerates_order.
  - erewrite (filter_ext_in (λ x, @toleratesRestrictions M1 x ∅ = true) (λ x, @toleratesRestrictions M2 x ∅ = true)); [done|].
    intros x. by rewrite tolerates_order.
Qed.

Lemma filterOut_order cs name places insts :
  @filterOutNodesAlreadyHostingService M1 cs name places insts =
  @filterOutNodesAlreadyHostingService M2 cs name places insts.
Proof.
  unfold filterOutNodesAlreadyHostingService. set (f := λ (occupied : gset string) '(instanceID, nodeID), _).
  assert (foldl f ∅ (@map_range M1 _ places) = foldl f ∅ (@map_range M2 _ places)) as ->; [|done].
  loop. intros m [i1 n1] [i2 n2]. unfold f. destruct (insts !! i1) as [f1|], (insts !! i2) as [f2|]; try done.
  repeat case_decide; try done. set_solver.
Qed.

Lemma rankBy_ext f g cs : (∀ c, f c = g c) → rankBy f cs = rankBy g cs.
Proof. intros Hfg. unfold rankBy. f_equal. f_equal. apply list_fmap_ext. intros. by rewrite Hfg. Qed.

Lemma preferScore_order labels c : @preferScore M1 labels c = @preferScore M2 labels c.
Proof. loop. intros b x y. repeat case_decide; lia. Qed.

Lemma batchCandidates_order name st : @batchCandidates M1 name st = @batchCandidates M2 name st.
Proof.
  unfold batchCandidates. rewrite filterByConstraints_order. destruct (_ !! name) as [c|]; [|done].
  rewrite filterOut_order. set (cs1 := if decide (mode c = _) then _ else _).
  unfold rankByPreferences. by rewrite (rankBy_ext _ (@preferScore M2 (prefer c)) cs1 (preferScore_order _)).
Qed.

Lemma placeEach_ext {A} (f g : A → placementState → option (list Change * placementState)) xs st :
  (∀ x st, f x st = g x st) → placeEach f xs st = placeEach g xs st.
Proof.
  intros Hfg. revert st. induction xs as [|x xs IH]; intros st; simpl; [done|]. rewrite Hfg.
  destruct (g x st) as [[cs st']|]; simpl; [|done]. by rewrite IH.
Qed.

Lemma keys_order {V} (m : gmap string V) :
  sort_strings (fst <$> @map_range M1 _ m) = sort_strings (fst <$> @map_range M2 _ m).
Proof. apply sort_strings_unique. by rewrite map_range_order. Qed.

Lemma placeUngrouped_order ids st :
  @placeUngroupedInstances M1 ids st = @placeUngroupedInstances M2 ids st.
Proof.
  unfold placeUngroupedInstances, sortedServiceNames. rewrite keys_order. apply placeEach_ext.
  intros name st'. unfold placeBatchedInstances. by rewrite batchCandidates_order.
Qed.

Lemma findExistingGroup_order name st : @findExistingGroupNode M1 name st = @findExistingGroupNode M2 name st.
Proof.
  unfold findExistingGroupNode. f_equal. f_equal. apply sort_strings_unique.
  by rewrite (map_range_order (placements st)).
Qed.

(** At most one node is the home of all volumes, so the first one found does not
    depend on the order. *)
Lemma selectHome_order homes st : @selectGroupVolumeHomeNode M1 homes st = @selectGroupVolumeHomeNode M2 homes st.
Proof.
  unfold selectGroupVolumeHomeNode.
  assert (Hr : @set_range M1 homes ≡ₚ @set_range M2 homes) by (unfold set_range; by rewrite map_range_order).
  set (P := λ homeNode, is_Some (nodeIndexMap st !! homeNode) ∧ isHomeOfAllVolumes homeNode homes = true).
  assert (Hone : ∀ x y, P x → P y → x = y).
  { intros x y [_ Hx] [_ Hy]. unfold isHomeOfAllVolumes in *. boolprop.
    destruct (size_1_elem_of homes) as [z Hz]; [done|]. set_solver. }
  destruct (list_find P (@set_range M1 homes)) as [[i x]|] eqn:E1,
    (list_find P (@set_range M2 homes)) as [[j y]|] eqn:E2; try done.
  - apply list_find_Some in E1 as (_ & Hx & _), E2 as (_ & Hy & _). by apply Hone.
  - exfalso. apply list_find_Some in E1 as (Hi & Hx & _). apply list_find_None in E2.
    rewrite <-Hr, Forall_forall in E2. apply (E2 x); [by eapply list_elem_of_lookup_2|done].
  - exfalso. apply list_find_Some in E2 as (Hi & Hx & _). apply list_find_None in E1.
    rewrite Hr, Forall_forall in E1. apply (E1 y); [by eapply list_elem_of_lookup_2|done].
Qed.

Lemma placeGrouped_order grouped st : @placeGroupedInstances M1 grouped st = @placeGroupedInstances M2 grouped st.
Proof.
  unfold placeGroupedInstances. rewrite keys_order. apply placeEach_ext. intros name st'.
  unfold placeOneGroup, groupTarget. by rewrite findExistingGroup_order, selectHome_order.
Qed.

Lemma attemptPlacements_order unplaced nodes insts places resources constraints groups :
  (∀ k n, nodes !! k = Some n → ni_id n = k) →
  @attemptPlacements M1 S unplaced nodes insts places resources constraints groups =
  @attemptPlacements M2 S unplaced nodes insts places resources constraints groups.
Proof.
  intros Hid. unfold attemptPlacements. rewrite (initialState_order _ _ _ _ _ _ Hid).
  case_decide; [done|]. destruct (partitionUnplacedByGroup _ _ _) as [g u]. rewrite placeGrouped_order.
  destruct (@placeGroupedInstances M2 g _) as [[cs st]|]; simpl; [|done]. by rewrite placeUngrouped_order.
Qed.

(** ** Preemption *)

(** A victim is determined by its identifier. *)
Lemma victimOf_determined svc prio nodes insts places priorities constraints stateful already l v w :
  l ≡ₚ map_to_list places →
  v ∈ omap (victimOf svc prio nodes insts priorities constraints stateful already) l →
  w ∈ omap (victimOf svc prio nodes insts priorities constraints stateful already) l →
  victimID v = victimID w → v = w.
Proof.
  intros Hl ([i1 n1] & H1 & E1)%list_elem_of_omap ([i2 n2] & H2 & E2)%list_elem_of_omap Hid.
  rewrite Hl in H1, H2. apply elem_of_map_to_list in H1, H2.
  destruct (victimOf_spec nodes insts places constraints priorities stateful _ _ _ _ _ _ E1 H1) as (I1 & _).
  destruct (victimOf_spec nodes insts places constraints priorities stateful _ _ _ _ _ _ E2 H2) as (I2 & _).
  assert (i1 = i2) as -> by congruence. assert (n1 = n2) as -> by congruence. congruence.
Qed.

Lemma victimLess_total v w : victimLess v w = false → victimLess w v = false → victimID v = victimID w.
Proof.
  unfold victimLess. rewrite (Z.eqb_sym (victimPriority w)).
  destruct (Z.eqb_spec (victimPriority v) (victimPriority w)); simpl; [apply str_ltb_total|].
  intros; boolprop; lia.
Qed.

Lemma findPreemptionVictim_order svc prio nodes insts places priorities constraints stateful already :
  @findPreemptionVictim M1 S svc prio nodes insts places priorities constraints stateful already =
  @findPreemptionVictim M2 S svc prio nodes insts places priorities constraints stateful already.
Proof.
  unfold findPreemptionVictim. erewrite (sort_slice_determined S victimLess); [done| |by rewrite map_range_order].
  intros v w Hv Hw H1 H2. eapply victimOf_determined; [apply (@map_range_perm M1)|done|done|].
  by apply victimLess_total.
Qed.

Lemma preemptLoop_order nodes insts places constraints priorities stateful rs already count :
  @preemptLoop M1 S nodes insts places constraints priorities stateful rs already count =
  @preemptLoop M2 S nodes insts places constraints priorities stateful rs already count.
Proof.
  revert already count. induction rs as [|r rs IH]; intros already count; simpl; [done|].
  destruct (_ <=? _); [done|].
  assert (@preemptFor M1 S nodes insts places constraints priorities stateful already r =
          @preemptFor M2 S nodes insts places constraints priorities stateful already r) as ->.
  { unfold preemptFor. destruct (insts !! r); simpl; [|done]. by rewrite findPreemptionVictim_order. }
  destruct (preemptFor _ _ _ _ _ _ _ _); [by rewrite IH|apply IH].
Qed.

Lemma attemptPreemptions_order unplaced placed nodes insts places constraints priorities stateful :
  @attemptPreemptions M1 S unplaced placed nodes insts places constraints priorities stateful =
  @attemptPreemptions M2 S unplaced placed nodes insts places constraints priorities stateful.
Proof.
  unfold attemptPreemptions. destruct (filter _ unplaced) as [|r [|r' l]]; [done| |]; rewrite !preemptLoop_order; done.
Qed.

(** ** Unplaced demand *)

Lemma countAlive_order nodes : @countAliveNodes M1 nodes = @countAliveNodes M2 nodes.
Proof. loop. intros b x y. repeat case_decide; lia. Qed.

Lemma nodeMatches_order c n : @nodeMatchesConstraint M1 c n = @nodeMatchesConstraint M2 c n.
Proof.
  unfold nodeMatchesConstraint.
  assert (@satisfiesRequireLabelsForNode M1 n (require c) = @satisfiesRequireLabelsForNode M2 n (require c)) as ->
    by apply forallb_perm, map_range_order.
  assert (@toleratesRestrictionsForNode M1 n (accept c) = @toleratesRestrictionsForNode M2 n (accept c)) as ->
    by apply forallb_perm, map_range_order.
  done.
Qed.

Lemma foldl_ext {A B} (f g : B → A → B) l b : (∀ b x, f b x = g b x) → foldl f b l = foldl g b l.
Proof. intros Hfg. revert b. induction l as [|x l IH]; intros b; simpl; [done|]. by rewrite Hfg. Qed.

Lemma countMatching_order nodes c :
  @countConstraintMatchingNodes M1 nodes c = @countConstraintMatchingNodes M2 nodes c.
Proof.
  unfold countConstraintMatchingNodes. transitivity (foldl (λ count kn,
    if @nodeMatchesConstraint M2 c (snd kn) then count + 1 else count) 0 (@map_range M1 _ nodes)).
  - apply foldl_ext. intros b x. by rewrite nodeMatches_order.
  - loop. intros b x y. repeat case_match; lia.
Qed.

Lemma emitUnplaced_order unplaced placed nodes insts resources constraints :
  @emitUnplacedDemandFacts M1 unplaced placed nodes insts resources constraints =
  @emitUnplacedDemandFacts M2 unplaced placed nodes insts resources constraints.
Proof.
  unfold emitUnplacedDemandFacts. rewrite countAlive_order. apply list_bind_ext; [|done]. intros i.
  case_decide; [done|]. unfold classifyUnplacedReason. destruct (_ =? 0); [done|].
  destruct (insts !! i) as [info|]; [|done]. destruct (constraints !! service info); [|done].
  by rewrite countMatching_order.
Qed.

(** ** Rebalancing *)

Lemma collectAlive_order nodes : @collectAliveNodeIDs M1 nodes = @collectAliveNodeIDs M2 nodes.
Proof. apply sort_strings_unique. by rewrite (map_range_order nodes). Qed.

Lemma computeRunningLoad_order places insts ids :
  @computeRunningLoadPerNode M1 places insts ids = @computeRunningLoadPerNode M2 places insts ids.
Proof.
  loop. intros m [i1 n1] [i2 n2]. destruct (insts !! i1) as [f1|], (insts !! i2) as [f2|]; try done.
  repeat case_decide; try done. apply increment_comm.
Qed.

Lemma findMovable_order s places insts groups placed constraints pinned :
  @findMovableInstances M1 s places insts groups placed constraints pinned =
  @findMovableInstances M2 s places insts groups placed constraints pinned.
Proof. apply sort_strings_unique. by rewrite (map_range_order places). Qed.

Lemma moveFromNode_order s cands insts constraints movable r :
  @moveFromNode M1 s cands insts constraints movable r = @moveFromNode M2 s cands insts constraints movable r.
Proof.
  revert r. induction movable as [|i rest IH]; intros r; simpl; [done|].
  assert (@tryMove M1 s cands insts constraints i r = @tryMove M2 s cands insts constraints i r) as ->.
  { unfold tryMove, selectRebalanceTarget. destruct (_ <=? _); [done|]. destruct (insts !! i); [|done].
    by rewrite filterByConstraints_order. }
  destruct (tryMove _ _ _ _ _ _); simpl; [apply IH|done].
Qed.

Lemma moveFromNodes_order over cands places insts groups constraints placed pinned r :
  @moveFromNodes M1 over cands places insts groups constraints placed pinned r =
  @moveFromNodes M2 over cands places insts groups constraints placed pinned r.
Proof.
  revert r. induction over as [|s rest IH]; intros r; simpl; [done|]. destruct (_ <=? _); [done|].
  rewrite findMovable_order, moveFromNode_order. destruct (moveFromNode _ _ _ _ _ _); simpl; [apply IH|done].
Qed.

Lemma rebalance_order nodes insts places resources constraints groups placed pinned :
  (∀ k n, nodes !! k = Some n → ni_id n = k) →
  @rebalancePlacedInstances M1 S nodes insts places resources constraints groups placed pinned =
  @rebalancePlacedInstances M2 S nodes insts places resources constraints groups placed pinned.
Proof.
  intros Hid. unfold rebalancePlacedInstances, executeRebalanceMoves.
  rewrite collectAlive_order. destruct (_ <? 2)%nat; [done|]. rewrite computeRunningLoad_order.
  destruct (computeMaxMinLoad _ _) as [mx mn]. destruct (_ <=? _); [done|]. rewrite computeNodeLoad_order.
  destruct (computeNodeLoadAndResourceUsage _ _ _) as [[lo uc] um].
  rewrite (buildAliveCandidates_order _ _ _ Hid), countService_order, moveFromNodes_order.
  assert (∀ m, @sumNodeLoad M1 m = @sumNodeLoad M2 m) as Hsum; [intros m; loop; intros; lia|]. by rewrite Hsum.
Qed.

End determinism.
