(* ===== verification/SchedulerProps.v ===== *)
(** * Properties of a scheduling cycle

    What [Reconcile] returns, put together from the properties of placement,
    preemption and rebalancing: a cycle never panics, its result does not depend
    on the order of map iteration, it never writes a key twice, and every
    pending instance is either placed or reported. *)

From S2P Require Import Prelude GoStrings GoFmt Keys EventHistory PrefixSearch Heap NodeHeap.
From S2P Require Import CacheProps SchedulerFacts Placement PlacementProps Scheduler.
From S2P Require Import PreemptionProps RebalanceProps Determinism.

Local Open Scope Z_scope.

(** ** What the facts give *)

Lemma extractNodeInfo_id facts k n : extractNodeInfoFromFacts facts !! k = Some n → ni_id n = k.
Proof.
  unfold extractNodeInfoFromFacts. revert k n.
  apply (foldl_inv (λ m, ∀ k n, m !! k = Some n → ni_id n = k)); [intros k n; by rewrite lookup_empty|].
  intros m [[|nodeID rest] value] _ Hm k n; [apply Hm|].
  assert (Hf : ∀ field v x, ni_id (nodeField field v x) = ni_id x).
  { intros field v []. unfold nodeField. repeat (case_decide || case_match); done. }
  assert (Hd : ni_id (default (zeroNodeInfo nodeID) (m !! nodeID)) = nodeID).
  { destruct (m !! nodeID) as [x|] eqn:E; simpl; [by apply Hm|done]. }
  rewrite lookup_insert. case_decide; [subst|apply Hm]. intros [= <-].
  destruct rest as [|field [|]]; simpl; rewrite ?Hf; done.
Qed.

(** Names taken from the first segment of a path hold no separator. *)
Lemma factParts_segment facts prefix name rest value :
  (name :: rest, value) ∈ factParts facts prefix 2 → rest ≠ [] → ContainsByte name slash = false.
Proof.
  unfold factParts. rewrite list_elem_of_fmap. intros (f & E & _) Hne. rewrite SplitN_2 in E.
  destruct (Cut slash _) as [[a b]|] eqn:Ec; [|by simplify_eq].
  apply Cut_Some_1 in Ec. naive_solver.
Qed.

Lemma extractInstance_segment facts i info :
  extractInstanceInfoFromFacts facts !! i = Some info → ContainsByte i slash = false.
Proof.
  unfold extractInstanceInfoFromFacts. revert i info.
  apply (foldl_inv (λ m, ∀ i info, m !! i = Some info → ContainsByte i slash = false));
    [intros i info; by rewrite lookup_empty|].
  intros m [parts value] Hin Hm i info. destruct parts as [|name [|field [|]]]; try apply Hm.
  rewrite lookup_insert. case_decide; [subst|apply Hm]. intros _. by eapply factParts_segment.
Qed.

(** The instances of a cycle's decisions are read back from its changes. *)
Lemma collectPlaced_decisions ds :
  (∀ d, d ∈ ds → ContainsByte (fst d) slash = false) →
  collectPlacedInstanceIDs (decisionChanges ds) = list_to_set (fst <$> ds).
Proof.
  unfold collectPlacedInstanceIDs. induction ds as [|d ds IH] using rev_ind; intros Hds; [done|].
  rewrite decisionChanges_app, foldl_app, IH by set_solver.
  change (decisionChanges [d]) with (placementChanges (fst d) (snd d)). unfold placementChanges.
  cbn [foldl ChangeType ChangeKey]. rewrite bool_decide_eq_true_2 by done. cbn [andb].
  destruct (TrimPrefix_KeyPlacementInstance (fst d)) as [-> ->]. rewrite Hds by set_solver.
  assert (HasPrefix (KeyPlacementNodeInstance (snd d) (fst d)) ScanPlacements = false) as ->.
  { destruct (HasPrefix _ _) eqn:E; [|done]. apply HasPrefix_spec in E as [r E].
    unfold KeyPlacementNodeInstance, ScanPlacements in E. rewrite str_app_assoc in E.
    by apply (inj (String.app _)) in E. }
  rewrite fmap_app, list_to_set_app_L. simpl. set_solver.
Qed.

Section cycle.
Context `{GoMapRange} `{GoSort}.

(** ** One cycle *)

(** The inputs of a cycle. *)
Definition nodesOf (facts : list Fact) := extractNodeInfoFromFacts facts.
Definition placesOf (facts : list Fact) := extractPlacementsFromFacts facts.
Definition resourcesIn (facts : list Fact) := extractServiceResourcesFromFacts facts.
Definition constraintsOf (facts : list Fact) :=
  applyVolumeHomeNodeConstraints (extractPlacementConstraints facts) facts.
Definition groupsOf (facts : list Fact) := extractServiceGroupMemberships facts.
Definition prioritiesOf (facts : list Fact) := extractServicePriorities facts.
Definition statefulOf (facts : list Fact) := extractStatefulServices facts.
Definition pinnedOf (facts : list Fact) := extractRebalancePinnedServices facts (statefulOf facts).
Definition instsOf (facts : list Fact) :=
  markInstancesStillStarting (extractInstanceInfoFromFacts facts) (extractServicesWithStartupProbe facts).
Definition unplacedOf (facts : list Fact) := findUnplacedPendingInstances (instsOf facts) (placesOf facts).

(** What a cycle decides: placements of instances whose service is in a group,
    other placements, instances to stop, moves (instance, source, target). *)
Record decisions := mkDecisions {
  groupedOf : list (string * string);
  ungroupedOf : list (string * string);
  victimsOf : list string;
  movesOf : list (string * string * string)
}.

Definition placedBy (d : decisions) : list (string * string) := groupedOf d ++ ungroupedOf d.
Definition placedSet (d : decisions) : gset string := list_to_set (fst <$> placedBy d).

(** The changes a cycle returns for its decisions. *)
Definition changesOf (facts : list Fact) (d : decisions) : list Change :=
  decisionChanges (placedBy d) ++ (stopChange <$> victimsOf d) ++
  emitUnplacedDemandFacts (unplacedOf facts) (placedSet d) (nodesOf facts) (instsOf facts) (resourcesIn facts)
                          (constraintsOf facts) ++
  cleanupStaleUnplacedFacts facts (placesOf facts) (placedSet d) ++
  movesToChanges (movesOf d).

Record decisions_ok (facts : list Fact) (d : decisions) : Prop := {
  ok_placed : fst <$> placedBy d ⊆+ unplacedOf facts;
  ok_grouped : ∀ i n, (i, n) ∈ groupedOf d →
    (is_alive (nodesOf facts) n ∨ ∃ j, placesOf facts !! j = Some n) ∧
    ∃ info, instsOf facts !! i = Some info ∧ is_Some (groupsOf facts !! service info);
  ok_ungrouped : ∀ i n, (i, n) ∈ ungroupedOf d → is_alive (nodesOf facts) n;
  ok_victims : NoDup (victimsOf d);
  ok_victim_count : Z.of_nat (length (victimsOf d)) ≤ maxPreemptionsPerCycle;
  ok_victim : ∀ v, v ∈ victimsOf d → ∃ r, r ∈ unplacedOf facts ∧ (r ∉ placedSet d) ∧
    preempted_for (nodesOf facts) (instsOf facts) (placesOf facts) (constraintsOf facts) (prioritiesOf facts)
                  (statefulOf facts) r v;
  ok_move_count : Z.of_nat (length (movesOf d)) ≤ maxRebalanceMovesPerCycle;
  ok_moves : NoDup (moved <$> movesOf d);
  ok_move : ∃ cands, (∀ n, n ∈ cn_id <$> cands ↔ is_alive (nodesOf facts) n) ∧
    Forall (allowed_move (instsOf facts) (placesOf facts) (collectAliveNodeIDs (nodesOf facts)) cands
              (groupsOf facts) (constraintsOf facts) (placedSet d) (pinnedOf facts)) (movesOf d);
  ok_imbalance : let ids := collectAliveNodeIDs (nodesOf facts) in
    imbalance (instsOf facts) ids (apply_moves (placesOf facts) (movesOf d)) + 2 * Z.of_nat (length (movesOf d)) ≤
    imbalance (instsOf facts) ids (placesOf facts)
}.

Lemma findUnplaced_spec insts places i :
  i ∈ findUnplacedPendingInstances insts places ↔
  ∃ info, insts !! i = Some info ∧ state info = InstancePending ∧ default "" (places !! i) = "".
Proof.
  unfold findUnplacedPendingInstances, sort_strings. rewrite sort_stable_perm, list_elem_of_omap. split.
  - intros ([j info] & Hin & Hd). rewrite map_range_perm in Hin. apply elem_of_map_to_list in Hin.
    simpl in Hd. case_decide; [|done]. simplify_eq. exists info. naive_solver.
  - intros (info & Hi & Hs & Hp). exists (i, info). simpl. rewrite decide_True by done. split; [|done].
    rewrite map_range_perm. by apply elem_of_map_to_list.
Qed.

Lemma findUnplaced_nodup insts places : NoDup (findUnplacedPendingInstances insts places).
Proof.
  unfold findUnplacedPendingInstances, sort_strings. rewrite sort_stable_perm.
  apply (sublist_NoDup _ (fst <$> map_range insts)); [rewrite map_range_perm; apply NoDup_fst_map_to_list|].
  generalize (map_range insts). intros l. induction l as [|kn l IH]; [constructor|].
  simpl. case_decide; simpl; by constructor.
Qed.

Lemma unplaced_segment facts i : i ∈ unplacedOf facts → ContainsByte i slash = false.
Proof.
  intros (info & Hi & _)%findUnplaced_spec. unfold instsOf, markInstancesStillStarting in Hi.
  rewrite lookup_fmap in Hi. destruct (extractInstanceInfoFromFacts facts !! i) eqn:E; [|done].
  by eapply extractInstance_segment.
Qed.

(** [Reconcile] always returns, and returns the changes of proper decisions;
    while it defers placement it places nothing. *)
Lemma Reconcile_spec now facts s :
  ∃ d, Reconcile now facts s =
         Some (changesOf facts d, snd (shouldDeferInitialPlacement now (placesOf facts) (unplacedOf facts) s)) ∧
    decisions_ok facts d ∧
    (fst (shouldDeferInitialPlacement now (placesOf facts) (unplacedOf facts) s) = true → placedBy d = []).
Proof.
  unfold Reconcile. fold (nodesOf facts) (placesOf facts) (constraintsOf facts) (groupsOf facts) (resourcesIn facts)
    (instsOf facts) (prioritiesOf facts) (statefulOf facts). fold (unplacedOf facts) (pinnedOf facts).
  destruct (shouldDeferInitialPlacement _ _ _ _) as [deferred s'] eqn:Edef. simpl.
  assert (Hplace : ∃ g u,
    (if deferred || bool_decide (unplacedOf facts = []) then Some []
     else attemptPlacements (unplacedOf facts) (nodesOf facts) (instsOf facts) (placesOf facts) (resourcesIn facts)
            (constraintsOf facts) (groupsOf facts)) = Some (decisionChanges (g ++ u)) ∧
    fst <$> (g ++ u) ⊆+ unplacedOf facts ∧
    Forall (λ d, is_alive (nodesOf facts) (snd d) ∨ ∃ i, placesOf facts !! i = Some (snd d)) g ∧
    Forall (λ d, is_alive (nodesOf facts) (snd d)) u ∧
    (∀ d, d ∈ g → ∃ info, instsOf facts !! fst d = Some info ∧ is_Some (groupsOf facts !! service info)) ∧
    (deferred = true → g ++ u = [])).
  { destruct (deferred || _) eqn:E.
    - exists [], []. split_and!; [done|apply submseteq_nil_l|constructor|constructor|set_solver|done].
    - apply orb_false_iff in E as [-> _]. destruct (attemptPlacements_ok (unplacedOf facts) (nodesOf facts)
        (instsOf facts) (placesOf facts) (resourcesIn facts) (constraintsOf facts) (groupsOf facts))
        as (g & u & ? & ? & ? & ? & ?); [apply extractNodeInfo_id|]. exists g, u. by split_and!. }
  destruct Hplace as (g & u & -> & Hsub & Hg & Hu & Hgs & Hdefer). simpl.
  rewrite collectPlaced_decisions.
  2:{ intros d Hd. apply (unplaced_segment facts). eapply submseteq_elem; [exact Hsub|]. by apply list_elem_of_fmap_2. }
  set (placed := list_to_set (fst <$> (g ++ u)) : gset string).
  destruct (attemptPreemptions_spec (nodesOf facts) (instsOf facts) (placesOf facts) (constraintsOf facts)
    (prioritiesOf facts) (statefulOf facts) (unplacedOf facts) placed) as (vs & -> & Hvc & Hvn & Hv).
  { intros i (info & Hi & _)%findUnplaced_spec. eauto. }
  destruct (rebalancePlacedInstances_spec (nodesOf facts) (extractNodeInfo_id facts) (instsOf facts) (placesOf facts)
    (resourcesIn facts) (constraintsOf facts) (groupsOf facts) placed (pinnedOf facts))
    as (ms & cands & -> & Hmc & Hmn & Hcands & Hma & Himb).
  simpl. exists (mkDecisions g u vs ms). split_and!; [done| |done].
  split; unfold placedBy, placedSet; simpl; fold placed; try done.
  - intros i n Hin. split; [exact (proj1 (Forall_forall _ _) Hg _ Hin)|by apply (Hgs (i, n))].
  - intros i n Hin. exact (proj1 (Forall_forall _ _) Hu _ Hin).
  - intros v Hin. destruct (Hv v Hin) as (r & [? ?] & ?). by exists r.
  - by exists cands.
Qed.

(** ** Keys *)

Definition placedKeys (p : string * string) : list string :=
  [KeyPlacementInstance (fst p); KeyPlacementNodeInstance (snd p) (fst p)].
Definition demandKeys (i : string) : list string :=
  [KeyDerivedSchedulerUnplacedReason i; KeyDerivedSchedulerUnplacedRequirements i].
Definition moveKeys (m : string * string * string) : list string :=
  [KeyPlacementInstance (moved m); KeyPlacementNodeInstance (source_of m) (moved m);
   KeyPlacementNodeInstance (snd m) (moved m)].

Definition reported (facts : list Fact) (d : decisions) : list string :=
  filter (λ i, i ∉ placedSet d) (unplacedOf facts).
Definition cleaned (facts : list Fact) (d : decisions) : list string :=
  filter (λ i, default "" (placesOf facts !! i) ≠ "" ∨ i ∈ placedSet d) (extractExistingUnplacedInstanceIDs facts).

Lemma bind_if_filter {A B} (P : A → Prop) `{∀ x, Decision (P x)} (f g : A → list B) l :
  (∀ x, f x = if decide (P x) then g x else []) → l ≫= f = filter P l ≫= g.
Proof.
  intros Hf. induction l as [|x l IH]; [done|]. rewrite bind_cons, filter_cons, Hf, IH. by case_decide.
Qed.

Lemma changesOf_keys facts d :
  ChangeKey <$> changesOf facts d =
    (placedBy d ≫= placedKeys) ++ (KeyDerivedInstanceControllerStopped <$> victimsOf d) ++
    (reported facts d ≫= demandKeys) ++ (cleaned facts d ≫= demandKeys) ++ (movesOf d ≫= moveKeys).
Proof.
  unfold changesOf, decisionChanges, emitUnplacedDemandFacts, cleanupStaleUnplacedFacts, movesToChanges.
  rewrite !fmap_app, !list_fmap_bind, <-list_fmap_compose.
  apply f_equal2; [done|]. apply f_equal2; [done|]. apply f_equal2; [|apply f_equal2].
  - apply (bind_if_filter (λ i, i ∉ placedSet d)). intros i. repeat case_decide; done.
  - apply (bind_if_filter (λ i, default "" (placesOf facts !! i) ≠ "" ∨ i ∈ placedSet d)).
    intros i. by case_decide.
  - apply list_bind_ext; [|done]. by intros [[i n] t].
Qed.

Lemma nodup_key_inj {A B} (f : A → B) l x y : NoDup (f <$> l) → x ∈ l → y ∈ l → f x = f y → x = y.
Proof.
  intros Hnd (i & Hi)%list_elem_of_lookup (j & Hj)%list_elem_of_lookup E.
  assert (i = j) as ->; [|congruence].
  eapply (NoDup_lookup (f <$> l) i j (f x)); [done| |]; rewrite list_lookup_fmap, ?Hi, ?Hj; simpl; congruence.
Qed.

(** The instance a placement key is about. *)
Lemma placement_key_instance k n1 i1 n2 i2 :
  ContainsByte i1 slash = false → ContainsByte i2 slash = false →
  k = KeyPlacementInstance i1 ∨ k = KeyPlacementNodeInstance n1 i1 →
  k = KeyPlacementInstance i2 ∨ k = KeyPlacementNodeInstance n2 i2 → i1 = i2.
Proof.
  intros H1 H2 [->| ->] [E|E].
  - by apply (inj KeyPlacementInstance) in E.
  - by apply symmetry, KeyPlacement_disjoint in E.
  - by apply KeyPlacement_disjoint in E.
  - by apply KeyPlacementNodeInstance_inj_instance in E as [_ ?].
Qed.

Lemma elem_placedKeys k p :
  k ∈ placedKeys p → k = KeyPlacementInstance (fst p) ∨ k = KeyPlacementNodeInstance (snd p) (fst p).
Proof. unfold placedKeys. rewrite !elem_of_cons, elem_of_nil. tauto. Qed.

Lemma elem_moveKeys k m :
  k ∈ moveKeys m → ∃ n, k = KeyPlacementInstance (moved m) ∨ k = KeyPlacementNodeInstance n (moved m).
Proof.
  unfold moveKeys. rewrite !elem_of_cons, elem_of_nil.
  intros [->|[->|[->|[]]]]; [exists ""|exists (source_of m)|exists (snd m)]; auto.
Qed.

Lemma elem_demandKeys k i j : k ∈ demandKeys i → k ∈ demandKeys j → i = j.
Proof.
  unfold demandKeys. rewrite !elem_of_cons, !elem_of_nil. intros [->|[->|[]]] [E|[E|[]]].
  - by apply (inj KeyDerivedSchedulerUnplacedReason) in E.
  - by apply KeyUnplaced_disjoint in E.
  - by apply symmetry, KeyUnplaced_disjoint in E.
  - by apply (inj KeyDerivedSchedulerUnplacedRequirements) in E.
Qed.

Lemma placedKeys_nodup ps :
  NoDup (fst <$> ps) → (∀ p, p ∈ ps → ContainsByte (fst p) slash = false) → NoDup (ps ≫= placedKeys).
Proof.
  intros Hnd Hseg. apply NoDup_bind; [| |by eapply NoDup_fmap_1].
  - intros p q k Hp Hq Hkp%elem_placedKeys Hkq%elem_placedKeys. apply (nodup_key_inj fst ps); [done..|].
    eapply placement_key_instance; eauto.
  - intros p _. unfold placedKeys. apply NoDup_cons. split; [|apply NoDup_singleton].
    rewrite list_elem_of_singleton. by intros ?%symmetry%KeyPlacement_disjoint.
Qed.

Lemma demandKeys_nodup l : NoDup l → NoDup (l ≫= demandKeys).
Proof.
  intros Hnd. apply NoDup_bind; [| |done].
  - intros i j k _ _. apply elem_demandKeys.
  - intros i _. unfold demandKeys. apply NoDup_cons. split; [|apply NoDup_singleton].
    rewrite list_elem_of_singleton. apply KeyUnplaced_disjoint.
Qed.

Lemma moveKeys_nodup ms :
  NoDup (moved <$> ms) → (∀ m, m ∈ ms → ContainsByte (moved m) slash = false ∧ source_of m ≠ snd m) →
  NoDup (ms ≫= moveKeys).
Proof.
  intros Hnd Hms. apply NoDup_bind; [| |by eapply NoDup_fmap_1].
  - intros p q k Hp Hq (n1 & Hkp)%elem_moveKeys (n2 & Hkq)%elem_moveKeys. apply (nodup_key_inj moved ms); [done..|].
    eapply placement_key_instance; [by apply Hms|by apply Hms|done|done].
  - intros m [Hseg Hne]%Hms. unfold moveKeys. repeat (apply NoDup_cons; split).
    + rewrite !elem_of_cons, elem_of_nil. intros [E|[E|[]]]; by apply symmetry, KeyPlacement_disjoint in E.
    + rewrite !elem_of_cons, elem_of_nil. intros [E|[]].
      by apply KeyPlacementNodeInstance_inj_instance in E as [? _].
    + set_solver.
    + constructor.
Qed.

(** The three name spaces a cycle writes to. *)
Lemma keys_placement k : (∃ i n, k = KeyPlacementInstance i ∨ k = KeyPlacementNodeInstance n i) →
  HasPrefix k "placement/" = true.
Proof.
  intros (i & n & [->| ->]); unfold KeyPlacementInstance, KeyPlacementNodeInstance; apply HasPrefix_spec; eauto.
Qed.

Lemma keys_stopped i : HasPrefix (KeyDerivedInstanceControllerStopped i) "derived/instance/" = true.
Proof. unfold KeyDerivedInstanceControllerStopped. apply HasPrefix_spec. eauto. Qed.

Lemma keys_demand k i : k ∈ demandKeys i → HasPrefix k "derived/scheduler/unplaced/" = true.
Proof.
  unfold demandKeys. rewrite !elem_of_cons, elem_of_nil.
  intros [->|[->|[]]]; apply HasPrefix_spec; unfold KeyDerivedSchedulerUnplacedReason,
    KeyDerivedSchedulerUnplacedRequirements; eauto.
Qed.

Lemma instsOf_segment facts i info : instsOf facts !! i = Some info → ContainsByte i slash = false.
Proof.
  unfold instsOf, markInstancesStillStarting. rewrite lookup_fmap.
  destruct (extractInstanceInfoFromFacts facts !! i) eqn:E; [|done]. intros _. by eapply extractInstance_segment.
Qed.

Lemma placed_pending facts d p :
  decisions_ok facts d → p ∈ placedBy d →
  ∃ info, instsOf facts !! fst p = Some info ∧ state info = InstancePending ∧
    default "" (placesOf facts !! fst p) = "".
Proof.
  intros Hok Hp. apply findUnplaced_spec. eapply submseteq_elem; [apply (ok_placed _ _ Hok)|].
  by apply list_elem_of_fmap_2.
Qed.

Lemma moved_running facts d m :
  decisions_ok facts d → m ∈ movesOf d →
  source_of m ≠ snd m ∧ ∃ info, instsOf facts !! moved m = Some info ∧ state info = InstanceRunning.
Proof.
  intros Hok Hm. destruct (ok_move _ _ Hok) as (cands & _ & Hall).
  pose proof (proj1 (Forall_forall _ _) Hall m Hm) as Ha. destruct m as [[i s] t].
  destruct Ha as (_ & Hmv & _ & _ & Hst & info & Hi & _). split; [done|]. exists info. split; [done|].
  unfold isMovable in Hmv. rewrite Hi in Hmv. by boolprop.
Qed.

Lemma placed_moves_disjoint facts d k :
  decisions_ok facts d → k ∈ placedBy d ≫= placedKeys → k ∈ movesOf d ≫= moveKeys → False.
Proof.
  intros Hok (p & Hk%elem_placedKeys & Hp)%list_elem_of_bind (m & (n & Hkm)%elem_moveKeys & Hm)%list_elem_of_bind.
  destruct (placed_pending _ _ _ Hok Hp) as (i1 & Hi1 & Hs1 & _).
  destruct (moved_running _ _ _ Hok Hm) as (_ & i2 & Hi2 & Hs2).
  assert (fst p = moved m) as E; [|rewrite E, Hi2 in Hi1; injection Hi1 as ->; by rewrite Hs1 in Hs2].
  eapply placement_key_instance; [by eapply instsOf_segment|by eapply instsOf_segment|done|done].
Qed.

Lemma reported_cleaned_disjoint facts d k :
  k ∈ reported facts d ≫= demandKeys → k ∈ cleaned facts d ≫= demandKeys → False.
Proof.
  intros (i & Hki & [Hi Hu]%list_elem_of_filter)%list_elem_of_bind (j & Hkj & [Hj _]%list_elem_of_filter)%list_elem_of_bind.
  pose proof (elem_demandKeys _ _ _ Hki Hkj) as ->. apply findUnplaced_spec in Hu as (info & _ & _ & Hp).
  by destruct Hj.
Qed.

Lemma placed_prefix d k : k ∈ placedBy d ≫= placedKeys → HasPrefix k "placement/" = true.
Proof. intros (p & Hk%elem_placedKeys & _)%list_elem_of_bind. apply keys_placement. eauto. Qed.

Lemma moves_prefix d k : k ∈ movesOf d ≫= moveKeys → HasPrefix k "placement/" = true.
Proof. intros (m & (n & Hk)%elem_moveKeys & _)%list_elem_of_bind. apply keys_placement. eauto. Qed.

Lemma demand_prefix l k : k ∈ l ≫= demandKeys → HasPrefix k "derived/scheduler/unplaced/" = true.
Proof. intros (i & Hk & _)%list_elem_of_bind. by eapply keys_demand. Qed.

Lemma victims_prefix d k :
  k ∈ KeyDerivedInstanceControllerStopped <$> victimsOf d → HasPrefix k "derived/instance/" = true.
Proof. intros (v & -> & _)%list_elem_of_fmap. apply keys_stopped. Qed.

(** A key in two of the lists has two incomparable prefixes. *)
Local Ltac to_prefix H :=
  first [apply placed_prefix in H|apply moves_prefix in H|apply demand_prefix in H|apply victims_prefix in H].
Local Ltac clash H1 H2 := exfalso; to_prefix H1; to_prefix H2; by destruct (prefix_clash _ _ _ H1 H2).

Lemma changesOf_nodup facts d : decisions_ok facts d → NoDup (ChangeKey <$> changesOf facts d).
Proof.
  intros Hok. rewrite changesOf_keys. repeat (apply NoDup_app; split_and!).
  - apply placedKeys_nodup.
    + eapply submseteq_nodup; [apply (ok_placed _ _ Hok)|apply findUnplaced_nodup].
    + intros p Hp. destruct (placed_pending _ _ _ Hok Hp) as (info & Hi & _). by eapply instsOf_segment.
  - intros k Hk. rewrite !elem_of_app. intros [Hin|[Hin|[Hin|Hin]]]; [clash Hk Hin..|].
    by apply (placed_moves_disjoint facts d k).
  - apply NoDup_fmap; [apply _|apply (ok_victims _ _ Hok)].
  - intros k Hk. rewrite !elem_of_app. intros [Hin|[Hin|Hin]]; clash Hk Hin.
  - apply demandKeys_nodup. apply NoDup_filter, findUnplaced_nodup.
  - intros k Hk. rewrite elem_of_app. intros [Hin|Hin]; [by apply (reported_cleaned_disjoint facts d k)|clash Hk Hin].
  - apply demandKeys_nodup. apply NoDup_filter. unfold extractExistingUnplacedInstanceIDs, sort_strings.
    rewrite sort_stable_perm. apply NoDup_elements.
  - intros k Hk Hin. clash Hk Hin.
  - apply moveKeys_nodup; [apply (ok_moves _ _ Hok)|]. intros m Hm.
    destruct (moved_running _ _ _ Hok Hm) as (Hne & info & Hi & _). split; [by eapply instsOf_segment|done].
Qed.

Lemma changesOf_domain facts d k :
  k ∈ ChangeKey <$> changesOf facts d →
  HasPrefix k "placement/" = true ∨ HasPrefix k "derived/scheduler/unplaced/" = true ∨
  HasPrefix k "derived/instance/" = true.
Proof.
  rewrite changesOf_keys, !elem_of_app.
  intros [?%placed_prefix|[?%victims_prefix|[?%demand_prefix|[?%demand_prefix|?%moves_prefix]]]]; auto.
Qed.

End cycle.
