(* ===== verification/SchedulerClaims.v ===== *)
(** * What a scheduling cycle guarantees, and cycles on concrete facts *)

From S2P Require Import Prelude GoStrings GoFmt Keys EventHistory PrefixSearch Heap NodeHeap CacheProps SchedulerFacts Placement PlacementProps.
From S2P Require Import Scheduler PreemptionProps RebalanceProps Determinism SchedulerProps BatchProps.

Local Open Scope Z_scope.

(** * What a scheduling cycle guarantees

    The theorems about [Reconcile] as a whole and about its group placement,
    preemption and grace period. They hold for every order of map iteration and
    every [sort.Slice]. *)

Section claims.
Context `{GoMapRange} `{GoSort}.

(** C2: A scheduling cycle never panics, whatever the facts: no index out of range, no
    nil map write, no nil dereference on any path of [Reconcile]; and the changes
    it returns never name a key twice, which a transaction would reject. *)
Theorem Reconcile_total_and_duplicate_free now facts s :
  ∃ changes s', Reconcile now facts s = Some (changes, s') ∧ NoDup (ChangeKey <$> changes).
Proof.
  destruct (Reconcile_spec now facts s) as (d & E & Hok & _).
  do 2 eexists. split; [exact E|]. by apply changesOf_nodup.
Qed.

(** [changes] decides that [i] goes to [n]. *)
Definition decides (changes : list Change) (i n : string) : Prop :=
  ∃ c, c ∈ changes ∧ ChangeType c = OpPut ∧ ChangeKey c = KeyPlacementInstance i ∧ ChangeValue c = n.

(** [i] is opted into rebalancing and may leave [s]. *)
Definition movable (facts : list Fact) (i s : string) : Prop :=
  ∃ info c, placesOf facts !! i = Some s ∧ instsOf facts !! i = Some info ∧ state info = InstanceRunning ∧
    stillStarting info = false ∧ groupsOf facts !! service info = None ∧ (service info ∉ statefulOf facts) ∧
    constraintsOf facts !! service info = Some c ∧ rebalance c = true ∧ mode c ≠ "per-node".

Lemma changesOf_placement facts d i n :
  decides (changesOf facts d) i n → (i, n) ∈ placedBy d ∨ ∃ s, (i, s, n) ∈ movesOf d.
Proof.
  intros (c & Hc & Ht & Hk & <-). unfold changesOf in Hc. rewrite !elem_of_app in Hc.
  assert (Hno : HasPrefix (ChangeKey c) "placement/" = true) by (apply keys_placement; exists i, ""; auto).
  destruct Hc as [Hc|[Hc|[Hc|[Hc|Hc]]]].
  - left. unfold decisionChanges in Hc. apply list_elem_of_bind in Hc as ([j m] & Hc & Hin).
    unfold placementChanges in Hc. rewrite !elem_of_cons, elem_of_nil in Hc. destruct Hc as [->|[->|[]]]; simpl in *.
    + by apply (inj KeyPlacementInstance) in Hk as ->.
    + by apply KeyPlacement_disjoint in Hk.
  - exfalso. apply list_elem_of_fmap in Hc as (v & -> & _). by destruct (prefix_clash _ _ _ Hno (keys_stopped v)).
  - exfalso. apply list_elem_of_bind in Hc as (j & Hc & _). case_decide; [set_solver|].
    unfold buildUnplacedFactChanges in Hc. rewrite !elem_of_cons, elem_of_nil in Hc. destruct Hc as [->|[->|[]]];
      (eapply prefix_clash; [exact Hno|apply (keys_demand _ j); unfold demandKeys; set_solver|done|done]).
  - exfalso. apply list_elem_of_bind in Hc as (j & Hc & _). case_decide; [|set_solver].
    rewrite !elem_of_cons, elem_of_nil in Hc. destruct Hc as [->|[->|[]]];
      (eapply prefix_clash; [exact Hno|apply (keys_demand _ j); unfold demandKeys; set_solver|done|done]).
  - right. apply list_elem_of_bind in Hc as ([[j s] t] & Hc & Hin). unfold buildRebalanceMoveChanges in Hc.
    rewrite !elem_of_cons, elem_of_nil in Hc. destruct Hc as [->|[->|[->|[]]]]; simpl in *.
    + apply (inj KeyPlacementInstance) in Hk as ->. eauto.
    + done.
    + by apply KeyPlacement_disjoint in Hk.
Qed.

Lemma pinned_stateful facts name : name ∈ statefulOf facts → name ∈ pinnedOf facts.
Proof.
  intros Hn. unfold pinnedOf, extractRebalancePinnedServices.
  apply (foldl_inv (λ m, name ∈ m)); [done|]. intros m [parts value] _ Hm.
  destruct parts as [|a [|b [|c [|]]]]; try done. repeat case_decide; set_solver.
Qed.

Lemma allowed_movable facts d m cands :
  allowed_move (instsOf facts) (placesOf facts) (collectAliveNodeIDs (nodesOf facts)) cands (groupsOf facts)
    (constraintsOf facts) (placedSet d) (pinnedOf facts) m → movable facts (moved m) (source_of m).
Proof.
  destruct m as [[i s] t]. intros (Hp & Hm & _ & _ & _ & info & Hi & _). unfold isMovable in Hm.
  rewrite Hi in Hm. destruct (constraintsOf facts !! service info) as [c|] eqn:Ec; boolprop; [|done].
  exists info, c. split_and!; try done. intros Hs%pinned_stateful. done.
Qed.


(** [changes] reports that [i] could not be placed. *)
Definition reports (changes : list Change) (i reason : string) : Prop :=
  ∃ c, c ∈ changes ∧ ChangeType c = OpPut ∧ ChangeKey c = KeyDerivedSchedulerUnplacedReason i ∧ ChangeValue c = reason.

Lemma changesOf_reports facts d i :
  i ∈ reported facts d →
  reports (changesOf facts d) i (classifyUnplacedReason (instsOf facts !! i) (countAliveNodes (nodesOf facts))
                                   (nodesOf facts) (constraintsOf facts)).
Proof.
  intros [Hi Hu]%list_elem_of_filter. eexists (mkChange OpPut _ _ _). split; [|done].
  unfold changesOf. rewrite !elem_of_app. right; right; left. unfold emitUnplacedDemandFacts.
  apply list_elem_of_bind. exists i. split; [|done]. rewrite decide_False by done.
  unfold buildUnplacedFactChanges. apply elem_of_cons. by left.
Qed.

Lemma changesOf_reports_inv facts d i reason : reports (changesOf facts d) i reason → i ∈ reported facts d.
Proof.
  intros (c & Hc & Ht & Hk & _).
  assert (Hno : HasPrefix (ChangeKey c) "derived/scheduler/unplaced/" = true)
    by (rewrite Hk; apply (keys_demand _ i); unfold demandKeys; set_solver).
  unfold changesOf in Hc. rewrite !elem_of_app in Hc. destruct Hc as [Hc|[Hc|[Hc|[Hc|Hc]]]].
  - exfalso. apply list_elem_of_bind in Hc as ([j n] & Hc & _). unfold placementChanges in Hc.
    rewrite !elem_of_cons, elem_of_nil in Hc.
    eapply prefix_clash; [exact Hno|apply keys_placement; exists j, n|done|done]; destruct Hc as [->|[->|[]]]; auto.
  - exfalso. apply list_elem_of_fmap in Hc as (v & -> & _). by destruct (prefix_clash _ _ _ Hno (keys_stopped v)).
  - apply list_elem_of_bind in Hc as (j & Hc & Hin). case_decide; [set_solver|].
    unfold buildUnplacedFactChanges in Hc. rewrite !elem_of_cons, elem_of_nil in Hc.
    apply list_elem_of_filter. destruct Hc as [->|[->|[]]]; simpl in Hk.
    + by apply (inj KeyDerivedSchedulerUnplacedReason) in Hk as ->.
    + by apply symmetry, KeyUnplaced_disjoint in Hk.
  - exfalso. apply list_elem_of_bind in Hc as (j & Hc & _). case_decide; [|set_solver].
    rewrite !elem_of_cons, elem_of_nil in Hc. by destruct Hc as [->|[->|[]]].
  - exfalso. apply list_elem_of_bind in Hc as ([[j src] t] & Hc & _). unfold buildRebalanceMoveChanges in Hc.
    rewrite !elem_of_cons, elem_of_nil in Hc.
    destruct Hc as [->|[->|[->|[]]]]; (eapply prefix_clash; [exact Hno|apply keys_placement|done|done]);
      [exists j, src; auto|exists j, src; auto|exists j, t; auto].
Qed.

Lemma changesOf_decides facts d i n : (i, n) ∈ placedBy d → decides (changesOf facts d) i n.
Proof.
  intros Hp. exists (mkChange OpPut (KeyPlacementInstance i) n ("placement/" +:+ i)). split; [|done].
  unfold changesOf. rewrite !elem_of_app. left. unfold decisionChanges. apply list_elem_of_bind.
  exists (i, n). split; [|done]. unfold placementChanges. apply elem_of_cons. by left.
Qed.


Lemma changesOf_stops facts d v :
  KeyDerivedInstanceControllerStopped v ∈ ChangeKey <$> changesOf facts d ↔ v ∈ victimsOf d.
Proof.
  pose proof (keys_stopped v) as Hv. rewrite changesOf_keys, !elem_of_app. split.
  - intros [?%placed_prefix|[(w & E & Hw)%list_elem_of_fmap|[?%demand_prefix|[?%demand_prefix|?%moves_prefix]]]];
      try (by destruct (prefix_clash _ _ _ Hv ltac:(eassumption))).
    by apply (inj KeyDerivedInstanceControllerStopped) in E as ->.
  - intros Hin. right; left. by apply list_elem_of_fmap_2.
Qed.

(** Preemption is bounded and only ever favours the more important: a cycle stops at
    most three instances, each a running instance on an alive node, of a service
    that is neither stateful nor per-node and has a strictly lower priority than
    the service of some pending instance the cycle could not place. *)
Theorem Reconcile_preemption now facts s :
  ∃ changes s' victims, Reconcile now facts s = Some (changes, s') ∧
    (∀ v, KeyDerivedInstanceControllerStopped v ∈ ChangeKey <$> changes ↔ v ∈ victims) ∧
    NoDup victims ∧ Z.of_nat (length victims) ≤ 3 ∧
    ∀ v, v ∈ victims → ∃ r requester, r ∈ unplacedOf facts ∧ instsOf facts !! r = Some requester ∧
      (∀ n, ¬ decides changes r n) ∧
      preemptible (nodesOf facts) (instsOf facts) (placesOf facts) (constraintsOf facts) (prioritiesOf facts)
        (statefulOf facts) (service requester) (countOf (prioritiesOf facts) (service requester)) v.
Proof.
  destruct (Reconcile_spec now facts s) as (d & E & Hok & _). do 2 eexists. exists (victimsOf d).
  split_and!; [exact E|apply changesOf_stops|apply Hok|apply Hok|]. intros v Hv.
  destruct (ok_victim _ _ Hok v Hv) as (r & Hr & Hnp & req & Hreq & Hpre). exists r, req. split_and!; [done..| |done].
  intros n [Hp|[src Hm]]%changesOf_placement.
  - apply Hnp. unfold placedSet. rewrite elem_of_list_to_set. apply list_elem_of_fmap. by exists (r, n).
  - destruct (moved_running _ _ _ Hok Hm) as (_ & info & Hinfo & Hrun). unfold moved in Hinfo. simpl in Hinfo.
    apply findUnplaced_spec in Hr as (info' & Hinfo' & Hp & _).
    rewrite Hinfo in Hinfo'. injection Hinfo' as ->. by rewrite Hp in Hrun.
Qed.

(** Rebalancing makes progress: a cycle moves at most two instances, and every
    move lowers the imbalance of the cluster (the sum over alive nodes of the
    square of their load) by at least two, so that moves cannot undo each other
    and cannot go on forever. *)
Theorem Reconcile_rebalance now facts s :
  ∃ changes s' ms, Reconcile now facts s = Some (changes, s') ∧
    Z.of_nat (length ms) ≤ 2 ∧ NoDup (moved <$> ms) ∧
    (∀ i n, decides changes i n ∧ (i ∉ unplacedOf facts) ↔ ∃ src, (i, src, n) ∈ ms) ∧
    let ids := collectAliveNodeIDs (nodesOf facts) in
    imbalance (instsOf facts) ids (apply_moves (placesOf facts) ms) ≤
      imbalance (instsOf facts) ids (placesOf facts) - 2 * Z.of_nat (length ms).
Proof.
  destruct (Reconcile_spec now facts s) as (d & E & Hok & _). do 2 eexists. exists (movesOf d).
  split_and!; [exact E|apply Hok|apply Hok| |pose proof (ok_imbalance _ _ Hok); simpl in *; lia].
  intros i n. split.
  - intros [[Hp|?]%changesOf_placement Hnot]; [|done]. destruct Hnot.
    eapply submseteq_elem; [apply (ok_placed _ _ Hok)|]. apply list_elem_of_fmap. by exists (i, n).
  - intros [src Hm]. split.
    + exists (mkChange OpPut (KeyPlacementInstance i) n ("rebalance/" +:+ i)). split; [|done].
      unfold changesOf. rewrite !elem_of_app. do 4 right. unfold movesToChanges. apply list_elem_of_bind.
      exists (i, src, n). split; [|done]. unfold buildRebalanceMoveChanges. apply elem_of_cons. by left.
    + intros (info' & Hinfo' & Hp & _)%findUnplaced_spec.
      destruct (moved_running _ _ _ Hok Hm) as (_ & info & Hinfo & Hrun). unfold moved in Hinfo. simpl in Hinfo.
      rewrite Hinfo in Hinfo'. injection Hinfo' as ->. by rewrite Hp in Hrun.
Qed.

(** The victim of a preemption is the least important one: no instance that could
    be stopped instead has a lower priority; and, unless an instance with the empty
    name is placed, none is found only when there is
    none. *)
Theorem findPreemptionVictim_minimal nodes insts places constraints priorities stateful svc prio already :
  let victim := fst (findPreemptionVictim svc prio nodes insts places priorities constraints stateful already) in
  let candidate := preemptible nodes insts places constraints priorities stateful svc prio in
  (victim ≠ "" → (victim ∉ already) ∧ candidate victim ∧
     ∀ i, i ∉ already → candidate i → priorityOfInstance insts priorities victim ≤ priorityOfInstance insts priorities i) ∧
  (victim = "" → places !! "" = None → ∀ i, i ∉ already → ¬ candidate i).
Proof. apply findPreemptionVictim_spec. Qed.

(** *** Groups *)

Lemma placeGroupMembers_target target ids st :
  state_wf st →
  ∃ st', placeEach (placeGroupMember target) ids st =
    Some (decisionChanges ((λ i, (i, target)) <$> ids), st').
Proof.
  revert st. induction ids as [|i ids IH]; intros st Hst; simpl; [by exists st|].
  destruct (placeGroupMember_ok (λ _, True) target i st I Hst) as (ds & st1 & E & Hs & _ & _).
  rewrite E. simpl. assert (decisionChanges ds = placementChanges i target) as ->.
  { unfold placeGroupMember in E. destruct (resolveInstanceResourceNeeds _ _) as [[name rc] rm].
    destruct (updateNodeResourcesAfterPlacement _ _ _ _ _ _ _); simpl in E; [|done]. by simplify_eq. }
  destruct (IH st1 (state_wf_same _ _ Hs Hst)) as [st2 ->]. simpl. by exists st2.
Qed.

(** A group is placed together or not at all: all its pending members go to one
    node, which is the node of a member placed already if there is one, and the
    one home node of the group's volumes if they have homes. *)
Theorem placeOneGroup_colocates name ids st :
  state_wf st →
  ∃ changes st', placeOneGroup name ids st = Some (changes, st') ∧
    (changes = [] ∨
     ∃ n, n ≠ "" ∧ changes = decisionChanges ((λ i, (i, n)) <$> ids) ∧
       (findExistingGroupNode name st ≠ "" → n = findExistingGroupNode name st) ∧
       (collectGroupVolumeHomeNodes ids st ≠ ∅ → collectGroupVolumeHomeNodes ids st = {[n]})).
Proof.
  intros Hst. unfold placeOneGroup. destruct (groupTarget_ok name ids st Hst) as (n & E & _). rewrite E. simpl.
  case_decide as Hd; [do 2 eexists; split; [done|by left]|]. apply Decidable.not_or in Hd as [Hne Hhome].
  destruct (placeGroupMembers_target n ids st Hst) as [st' E']. do 2 eexists. split; [exact E'|]. right.
  exists n. split_and!; [done|done| |].
  - intros Hex. unfold groupTarget in E. rewrite (decide_False (P := _ ∧ _)) in E by tauto.
    rewrite decide_False in E by done. by simplify_eq.
  - intros Hne'. destruct (isHomeOfAllVolumes n (collectGroupVolumeHomeNodes ids st)) eqn:Eh; [|tauto].
    unfold isHomeOfAllVolumes in Eh. boolprop. destruct (size_1_elem_of (collectGroupVolumeHomeNodes ids st)) as [z Hz];
      [done|]. apply leibniz_equiv in Hz. rewrite Hz in *. by match goal with H : n ∈ {[_]} |- _ => apply elem_of_singleton in H as -> end.
Qed.

End claims.

(** C6: A cycle computes the same changes whatever order the runtime visits maps in. *)
Theorem Reconcile_deterministic (M1 M2 : GoMapRange) (S : GoSort) now facts s :
  @Reconcile M1 S now facts s = @Reconcile M2 S now facts s.
Proof.
  unfold Reconcile. rewrite (findUnplaced_order M1 M2). destruct (shouldDeferInitialPlacement _ _ _ _) as [df s'].
  rewrite (attemptPlacements_order M1 M2) by apply extractNodeInfo_id.
  destruct (if df || _ then _ else _) as [changes|]; simpl; [|done]. rewrite (attemptPreemptions_order M1 M2).
  destruct (attemptPreemptions _ _ _ _ _ _ _ _); simpl; [|done].
  rewrite (rebalance_order M1 M2) by apply extractNodeInfo_id.
  destruct (rebalancePlacedInstances _ _ _ _ _ _ _ _); simpl; [|done]. by rewrite (emitUnplaced_order M1 M2).
Qed.

(** ** The grace period *)

(** The answers of successive calls, each at a time and with some unplaced
    instances, while nothing is placed. *)
Fixpoint deferrals (calls : list (Z * list string)) (s : Scheduler) : list bool * Scheduler :=
  match calls with
  | [] => ([], s)
  | (now, unplaced) :: rest =>
      let '(b, s1) := shouldDeferInitialPlacement now ∅ unplaced s in
      let '(bs, s2) := deferrals rest s1 in (b :: bs, s2)
  end.

Lemma deferrals_during calls t grace :
  0 < grace → Forall (λ c, fst c < t + grace ∧ snd c ≠ []) calls →
  deferrals calls (mkScheduler (Some t) grace) = (replicate (length calls) true, mkScheduler (Some t) grace).
Proof.
  intros Hg. induction 1 as [|[now un] calls [Hn Hu] _ IH]; [done|]. simpl in *. unfold shouldDeferInitialPlacement. simpl.
  rewrite decide_False by tauto. destruct (Z.leb_spec grace 0); [lia|]. destruct (Z.ltb_spec (now - t) grace); [|lia].
  by rewrite IH.
Qed.

(** On an empty cluster the scheduler waits out the grace period, counted from the
    first call that sees a pending instance, and no longer: every call before its
    end defers placement, the first call at or after its end does not, and resets
    the clock. *)
Theorem placement_grace_period s t0 unplaced0 calls now unplaced :
  firstPendingSeenAt s = None → 0 < placementGracePeriod s → unplaced0 ≠ [] → unplaced ≠ [] →
  Forall (λ c, fst c < t0 + placementGracePeriod s ∧ snd c ≠ []) calls →
  t0 + placementGracePeriod s ≤ now →
  let '(answers, s') := deferrals ((t0, unplaced0) :: calls) s in
  answers = replicate (1 + length calls) true ∧ shouldDeferInitialPlacement now ∅ unplaced s' = (false, s).
Proof.
  destruct s as [first grace]. simpl. intros -> Hg H0 H1 Hcalls Hnow. unfold shouldDeferInitialPlacement at 1. simpl.
  rewrite decide_False by tauto. destruct (Z.leb_spec grace 0); [lia|]. rewrite deferrals_during by done. split; [done|].
  unfold shouldDeferInitialPlacement. simpl. rewrite decide_False by tauto. destruct (Z.leb_spec grace 0); [lia|].
  destruct (Z.ltb_spec (now - t0) grace); [lia|done].
Qed.

(** * Scheduling cycles on concrete facts

    The witnesses of the scheduler's theorems, and three cycles that do not do
    what the code's documentation says. *)

Definition fact (kv : string * string) : Fact := mkFact (fst kv) (snd kv) 1 1 0.

(** The keys and values of a cycle's changes, with the reference runtime and no
    grace period. *)
Definition cycleOn (facts : list Fact) : option (list (string * string)) :=
  match Reconcile (H := reference_range) (H0 := reference_sort) 0 facts (mkScheduler None 0) with
  | Some (changes, _) => Some ((λ c, (ChangeKey c, ChangeValue c)) <$> changes)
  | None => None
  end.

(** ** Witnesses *)

Lemma placement_grace_period_witness :
  let s := NewScheduler in
  let second := 1000000000 in
  deferrals [(5 * second, ["i"]); (6 * second, ["i"; "j"]); (14 * second, ["j"])] s =
    ([true; true; true], mkScheduler (Some (5 * second)) (10 * second)) ∧
  shouldDeferInitialPlacement (15 * second) ∅ ["j"] (mkScheduler (Some (5 * second)) (10 * second)) = (false, s).
Proof.
  split; [reflexivity|].
  refine (proj2 (placement_grace_period NewScheduler (5 * 1000000000) ["i"]
    [(6 * 1000000000, ["i"; "j"]); (14 * 1000000000, ["j"])] (15 * 1000000000) ["j"] _ _ _ _ _ _));
    try reflexivity; try discriminate; repeat constructor; discriminate.
Defined.

Definition groupState : placementState :=
  initialState (H := reference_range) (H0 := reference_sort) sampleNodes
    (<["w1" := mkInstanceInfo "web" InstanceRunning "" false]>
     (<["s1" := mkInstanceInfo "side" InstancePending "" false]> ∅))
    (<["w1" := "n2"]> ∅) ∅ ∅ (<["web" := "g"]> (<["side" := "g"]> ∅)).

Lemma groupState_wf : state_wf groupState.
Proof.
  apply initialState_wf. intros k n. unfold sampleNodes. rewrite !lookup_insert.
  repeat case_decide; [naive_solver..|]. by rewrite lookup_empty.
Qed.

Lemma placeOneGroup_colocates_witness :
  ∃ changes st', placeOneGroup (H := reference_range) "g" ["s1"] groupState = Some (changes, st') ∧
    (changes = [] ∨
     ∃ n, n ≠ "" ∧ changes = decisionChanges ((λ i, (i, n)) <$> ["s1"]) ∧
       (findExistingGroupNode (H := reference_range) "g" groupState ≠ "" →
          n = findExistingGroupNode (H := reference_range) "g" groupState) ∧
       (collectGroupVolumeHomeNodes ["s1"] groupState ≠ ∅ → collectGroupVolumeHomeNodes ["s1"] groupState = {[n]})).
Proof. apply (placeOneGroup_colocates (H := reference_range) "g" ["s1"] groupState groupState_wf). Defined.

(** ** Zone spread can overfill a node *)

Definition zoneFacts : list Fact := fact <$> [
  ("desired/service/web/placement/zone", "spread");
  ("desired/service/web/resources/cpu", "100");
  ("observed/instance/o1/service", "other"); ("observed/instance/o1/state", "running");
  ("observed/instance/p1/service", "web"); ("observed/instance/p1/state", "pending");
  ("observed/instance/p2/service", "web"); ("observed/instance/p2/state", "pending");
  ("observed/instance/w1/service", "web"); ("observed/instance/w1/state", "running");
  ("observed/instance/w2/service", "web"); ("observed/instance/w2/state", "running");
  ("observed/node/a/available/cpu", "1000"); ("observed/node/a/state", "alive"); ("observed/node/a/zone", "z1");
  ("observed/node/a2/available/cpu", "200"); ("observed/node/a2/state", "alive"); ("observed/node/a2/zone", "z1");
  ("observed/node/b/available/cpu", "150"); ("observed/node/b/state", "alive"); ("observed/node/b/zone", "z2");
  ("placement/instance/o1", "b"); ("placement/instance/w1", "a2"); ("placement/instance/w2", "a2")].

(** Two instances that need 100 units of CPU each are both placed on a node with
    150, although node [a] has 1000 free. [buildNodeHeap] leaves the heap index of
    an entry at 0 until a swap sets it, so [RecordPlacement] charges the entry at
    the root of the heap and never removes [b]. *)
Theorem zone_spread_overcommits_node :
  cycleOn zoneFacts = Some [("placement/instance/p1", "b"); ("placement/node/b/p1", "");
                            ("placement/instance/p2", "b"); ("placement/node/b/p2", "")] ∧
  (extractServiceResourcesFromFacts zoneFacts !! "web") = Some (mkResources 100 0) ∧
  ni_availCPU <$> (extractNodeInfoFromFacts zoneFacts !! "b") = Some 150 ∧
  ni_availCPU <$> (extractNodeInfoFromFacts zoneFacts !! "a") = Some 1000.
Proof. vm_compute. split_and!; reflexivity. Qed.

(** ** A group follows a member to a node that is not alive *)

Definition groupFacts : list Fact := fact <$> [
  ("desired/group/g/process/side", ""); ("desired/group/g/process/web", "");
  ("observed/instance/p1/service", "side"); ("observed/instance/p1/state", "pending");
  ("observed/instance/w1/service", "web"); ("observed/instance/w1/state", "running");
  ("observed/node/a/available/cpu", "1000"); ("observed/node/a/state", "alive");
  ("observed/node/b/available/cpu", "1000"); ("observed/node/b/state", "unreachable");
  ("placement/instance/w1", "b")].

(** The new member goes to the unreachable node, although another node is alive. *)
Theorem group_member_sent_to_unreachable_node :
  cycleOn groupFacts = Some [("placement/instance/p1", "b"); ("placement/node/b/p1", "")] ∧
  ni_state <$> (extractNodeInfoFromFacts groupFacts !! "b") = Some "unreachable" ∧
  ni_state <$> (extractNodeInfoFromFacts groupFacts !! "a") = Some NodeAlive.
Proof. vm_compute. split_and!; reflexivity. Qed.

(** ** Required labels are dropped when no node has them *)

Definition requireFacts : list Fact := fact <$> [
  ("desired/service/web/placement/require/gpu", "true");
  ("observed/instance/p1/service", "web"); ("observed/instance/p1/state", "pending");
  ("observed/node/a/available/cpu", "1000"); ("observed/node/a/state", "alive")].

(** The instance is placed on a node without the label. *)
Theorem required_label_ignored_when_unsatisfiable :
  cycleOn requireFacts = Some [("placement/instance/p1", "a"); ("placement/node/a/p1", "")] ∧
  (ni_labels <$> (extractNodeInfoFromFacts requireFacts !! "a")) = Some ∅.
Proof. vm_compute. split_and!; reflexivity. Qed.
