(* ===== verification/DeltaBuffer.v ===== *)
(** * The buffer of watch events between two cycles (src/controllers/delta_buffer.go)

    Events for one key are coalesced: the last fact wins, the first previous fact
    is kept, so that the consumer sees the whole transition. [drain] visits a
    map, so it is a function of the runtime's iteration order. *)

From S2P Require Import Prelude GoStrings EventHistory.

Record deltaBuffer := mkDelta {
  coalescedEvents : gmap string Event;
  bufferOverflowed : bool
}.

Definition newDeltaBuffer : deltaBuffer := mkDelta ∅ false.

Definition appendEvent (watchEvent : Event) (buffer : deltaBuffer) : deltaBuffer :=
  let factKey := Key (EvFact watchEvent) in
  let watchEvent' :=
    match coalescedEvents buffer !! factKey with
    | Some existingEvent => mkEvent (Type_ watchEvent) (EvFact watchEvent) (Prev existingEvent)
    | None => watchEvent
    end in
  mkDelta (<[factKey := watchEvent']> (coalescedEvents buffer)) (bufferOverflowed buffer).

Definition markOverflow (buffer : deltaBuffer) : deltaBuffer := mkDelta (coalescedEvents buffer) true.

(** The drained events ([None] is the nil slice of an overflow) and the reset
    buffer. *)
Definition drain `{GoMapRange} (buffer : deltaBuffer) : option (list Event) * deltaBuffer :=
  if bufferOverflowed buffer then (None, newDeltaBuffer)
  else (Some (snd <$> map_range (coalescedEvents buffer)), newDeltaBuffer).

(** ** What [forwardWatchEvents] does with one received event
    (src/controllers/runner.go): the buffer, if the controller has one, and the
    capacity-one trigger channel. *)
Definition forwardEvent (watchEvent : Event) (buffer : option deltaBuffer) : option deltaBuffer * bool :=
  let buffer1 :=
    match Type_ watchEvent with
    | EventOverflow | EventCompacted => markOverflow <$> buffer
    | EventPut | EventDelete => appendEvent watchEvent <$> buffer
    end in
  (buffer1, true).

Fixpoint forwardEvents (events : list Event) (buffer : deltaBuffer) : deltaBuffer :=
  match events with
  | [] => buffer
  | ev :: rest => forwardEvents rest (default buffer (fst (forwardEvent ev (Some buffer))))
  end.

(** ** Coalescing *)

Definition is_data (ev : Event) : bool :=
  match Type_ ev with EventPut | EventDelete => true | _ => false end.

(** The events of one key. *)
Definition about (key : string) (events : list Event) : list Event :=
  filter (λ ev, is_data ev = true ∧ Key (EvFact ev) = key) events.

(** One event that stands for a sequence: the last event with the first
    previous fact. *)
Definition coalesce (events : list Event) : option Event :=
  match events, last events with
  | first :: _, Some final => Some (mkEvent (Type_ final) (EvFact final) (Prev first))
  | _, _ => None
  end.

Lemma coalesce_snoc events ev :
  coalesce (events ++ [ev]) =
    Some (match coalesce events with
          | Some e => mkEvent (Type_ ev) (EvFact ev) (Prev e)
          | None => ev
          end).
Proof.
  unfold coalesce. destruct events as [|first rest]; [by destruct ev|].
  cbn [app]. change (first :: rest ++ [ev]) with ((first :: rest) ++ [ev]). rewrite last_snoc.
  by destruct (last (first :: rest)) eqn:E; [|apply last_None in E].
Qed.

Lemma forwardEvents_app l1 l2 b : forwardEvents (l1 ++ l2) b = forwardEvents l2 (forwardEvents l1 b).
Proof. revert b. induction l1 as [|ev l1 IH]; intros b; [done|]. simpl. apply IH. Qed.

Lemma about_snoc key events ev :
  about key (events ++ [ev]) =
    about key events ++ (if decide (is_data ev = true ∧ Key (EvFact ev) = key) then [ev] else []).
Proof. unfold about. rewrite filter_app, filter_cons. by case_decide. Qed.

Lemma forwardEvents_spec events :
  let b := forwardEvents events newDeltaBuffer in
  (∀ key, coalescedEvents b !! key = coalesce (about key events)) ∧
  bufferOverflowed b = existsb (λ ev, negb (is_data ev)) events.
Proof.
  induction events as [|ev events [IH1 IH2]] using rev_ind; [done|].
  rewrite forwardEvents_app, existsb_app. cbn zeta in *. set (b := forwardEvents events newDeltaBuffer) in *.
  simpl. setoid_rewrite about_snoc. unfold forwardEvent, is_data in *. rewrite orb_false_r, <-IH2.
  destruct (Type_ ev) eqn:Et; simpl.
  1, 2: split; [|by rewrite orb_false_r]; intros key; rewrite lookup_insert; case_decide as Hk;
    [rewrite decide_True by done; rewrite coalesce_snoc, <-IH1, Hk; by destruct (coalescedEvents b !! key)
    |rewrite decide_False by tauto; by rewrite app_nil_r].
  1, 2: split; [|by rewrite orb_true_r]; intros key; try case_decide; try naive_solver; by rewrite app_nil_r, IH1.
Qed.

(** Draining the buffer after any sequence of watch events: a marker among them
    forces a full reconciliation; otherwise there is exactly one event per key
    that changed, carrying the last fact and the fact before the first event.
    The buffer is empty again. *)
Theorem drain_coalesces `{GoMapRange} events :
  let '(drained, b) := drain (forwardEvents events newDeltaBuffer) in
  b = newDeltaBuffer ∧
  match drained with
  | None => ∃ ev, ev ∈ events ∧ is_data ev = false
  | Some l => (∀ ev, ev ∈ events → is_data ev = true) ∧ NoDup ((λ ev, Key (EvFact ev)) <$> l) ∧
              ∀ ev, ev ∈ l ↔ coalesce (about (Key (EvFact ev)) events) = Some ev
  end.
Proof.
  destruct (forwardEvents_spec events) as [Hmap Hover]. cbn zeta in *.
  set (b := forwardEvents events newDeltaBuffer) in *. unfold drain.
  assert (Hkey : ∀ k ev, coalesce (about k events) = Some ev → Key (EvFact ev) = k).
  { intros k ev. unfold coalesce. destruct (about k events) as [|f rest] eqn:E; [done|].
    destruct (last (f :: rest)) as [x|] eqn:El; [|done]. intros [= <-]. simpl.
    assert (x ∈ about k events) as Hx by (rewrite E; by apply last_Some_elem_of).
    by apply list_elem_of_filter in Hx as [[_ ?] _]. }
  destruct (bufferOverflowed b).
  - split; [done|]. symmetry in Hover. apply existsb_exists in Hover as (ev & Hin & Hd). exists ev.
    by apply list_elem_of_In in Hin; boolprop.
  - split; [done|]. split_and!.
    + intros ev Hev. symmetry in Hover. destruct (is_data ev) eqn:Ed; [done|].
      assert (existsb (λ ev, negb (is_data ev)) events = true); [|congruence].
      apply existsb_exists. exists ev. rewrite Ed. split; [by apply list_elem_of_In|done].
    + assert (Hall : ∀ kv, kv ∈ map_range (coalescedEvents b) → Key (EvFact (snd kv)) = fst kv).
      { intros [k ev]. rewrite map_range_perm. intros Hin%elem_of_map_to_list. rewrite Hmap in Hin. by apply Hkey. }
      rewrite <-list_fmap_compose.
      assert (((λ ev, Key (EvFact ev)) ∘ snd) <$> map_range (coalescedEvents b) = fst <$> map_range (coalescedEvents b)) as ->.
      { revert Hall. generalize (map_range (coalescedEvents b)). intros l Hall. induction l as [|kv l IH]; [done|].
        rewrite !fmap_cons. f_equal; [apply Hall; set_solver|apply IH; set_solver]. }
      rewrite map_range_perm. apply NoDup_fst_map_to_list.
    + intros ev. rewrite list_elem_of_fmap. split.
      * intros ([k e] & -> & Hin). rewrite map_range_perm in Hin. apply elem_of_map_to_list in Hin.
        rewrite Hmap in Hin. simpl. by rewrite (Hkey _ _ Hin).
      * intros Hc. exists (Key (EvFact ev), ev). split; [done|]. rewrite map_range_perm. apply elem_of_map_to_list.
        by rewrite Hmap.
Qed.
