(* ===== verification/Runner.v ===== *)
(** * The controllers' runner (src/controllers/runner.go)

    One reconciliation cycle: scan the controller's prefixes, compute changes,
    check and cap them, and commit them in one transaction guarded by the
    revisions of what was scanned; on a conflict try again.

    The store is any [StateStore]. Other clients may act between any two calls
    on it, so an attempt is a function of the store each of its calls finds:
    [view i] is the store at the attempt's [i]-th call. The clock is an argument
    of the controller. Metrics, tracing and log output are left out; the label
    the metrics use for the result of a cycle is the result here. A panic is
    [None]. *)

From S2P Require Import Prelude GoStrings Trie EventHistory MemoryStore StoreInvariant StoreProps.
From S2P Require Import StateStore PrefixSearch Keys Heap NodeHeap SchedulerFacts Placement.

Local Open Scope Z_scope.

Definition etcdTransactionOperationLimit : Z := 128.
Definition maxTransactionChanges : Z := 60.
Definition defaultMaxReconciliationAttempts : Z := 5.
Definition reconcileRetryBaseDelayMs : Z := 10.
Definition reconcileRetryMaxDelayMs : Z := 500.

(** ** Controllers (src/controllers/controller.go) *)

Inductive RunnerError :=
| StoreFailure (e : StoreError)
| ReconcileFailure (message : string)
| DuplicateKeyError (key : string)
| GroupTooLargeError (group : string) (size : Z).

(** What [ReconcileDelta] may answer. *)
Inductive deltaOutcome := DeltaChanges (changes : list Change) | DeltaFallback | DeltaFailure (message : string).

(** A controller whose state is [C]. The two optional interfaces are optional
    fields. *)
Record Controller (C : Type) := mkController {
  Name : string;
  WatchPrefixes : list string;
  ReconcileFull : Z → list Fact → C → option ((list Change + string) * C);
  ReconcileDelta : option (Z → list Fact → list Event → C → option (deltaOutcome * C));
  ExecutePostCommitOperations : option (C → C)
}.
Arguments Name {C}.
Arguments WatchPrefixes {C}.
Arguments ReconcileFull {C}.
Arguments ReconcileDelta {C}.
Arguments ExecutePostCommitOperations {C}.

Record Runner := mkRunner { maxReconciliationAttempts : Z; maxInputKeyGuards : Z }.

Definition NewRunner : Runner := mkRunner defaultMaxReconciliationAttempts (-1).

Definition SetMaxReconciliationAttempts (maxAttempts : Z) (r : Runner) : Runner :=
  mkRunner (if maxAttempts <? 1 then 1 else maxAttempts) (maxInputKeyGuards r).

Definition SetMaxInputKeyGuards (maxGuards : Z) (r : Runner) : Runner :=
  mkRunner (maxReconciliationAttempts r) maxGuards.

(** ** Write domains (src/controllers/topological_sort.go) *)

Definition controllerOutputPrefixes : gmap string (list string) := list_to_map [
  ("intent-resolver", ["effective/service/"]);
  ("instance", ["observed/instance/"; "derived/instance/"]);
  ("scheduler", ["placement/"; "derived/scheduler/unplaced/"; "derived/instance/"]);
  ("endpoint", ["endpoint/"]);
  ("failure", ["observed/instance/"; "derived/instance/"; "derived/crash-loop/"]);
  ("node-failure", ["observed/node/"; "derived/instance/"]);
  ("network", ["network/vip/"; "network/dns/"]);
  ("autoscale", ["intent/autoscaler/"]);
  ("rollout", ["observed/instance/"; "derived/service/"; "desired/service/"]);
  ("storage", ["observed/volume/"; "derived/volume/"]);
  ("warm-zero", ["derived/service/"]);
  ("init", ["derived/instance/"]);
  ("credential-broker", ["derived/credential/"]);
  ("cloud-node-lifecycle", ["observed/cloud/instance/"; "observed/node/"]);
  ("cloud-loadbalancer", ["observed/cloud/loadbalancer/"; "derived/cloud/loadbalancer/"]);
  ("cloud-routes", ["observed/cloud/route/"; "derived/cloud/route/"]);
  ("eviction", ["derived/instance/"; "derived/node/"]);
  ("drain", ["derived/node/"]);
  ("cluster-autoscale", ["derived/capacity/request/"]);
  ("route", ["derived/route/"]);
  ("auth", [])].

Definition isKeyWithinWriteDomain (key : string) (allowedPrefixes : list string) : bool :=
  existsb (HasPrefix key) allowedPrefixes.

Definition enforceWriteDomain (controllerName : string) (changes : list Change) : list Change :=
  match controllerOutputPrefixes !! controllerName with
  | None => changes
  | Some allowedPrefixes => filter (λ c, isKeyWithinWriteDomain (ChangeKey c) allowedPrefixes = true) changes
  end.

(** ** Checking and capping *)

Definition opTypeLess (a b : OpType) : bool := match a, b with OpPut, OpDelete => true | _, _ => false end.

Definition changeLess (a b : Change) : bool :=
  if negb (bool_decide (Group a = Group b)) then str_ltb (Group a) (Group b)
  else if negb (bool_decide (ChangeKey a = ChangeKey b)) then str_ltb (ChangeKey a) (ChangeKey b)
  else opTypeLess (ChangeType a) (ChangeType b).

Definition sortChangesByGroupAndKey (changes : list Change) : list Change := sort_stable changeLess changes.

Fixpoint findDuplicateLoop (changes : list Change) (seenKeys : gset string) : string :=
  match changes with
  | [] => ""
  | change :: rest =>
      if decide (ChangeKey change ∈ seenKeys) then ChangeKey change
      else findDuplicateLoop rest ({[ChangeKey change]} ∪ seenKeys)
  end.

Definition findDuplicateChangeKey (changes : list Change) : string := findDuplicateLoop changes ∅.

(** The inner loop of [takeWholeGroups]: the members of a group at the head, and
    what follows. *)
Fixpoint sameGroup (groupID : string) (changes : list Change) : list Change * list Change :=
  match changes with
  | [] => ([], [])
  | c :: rest =>
      if decide (Group c = groupID)
      then let '(members, rest') := sameGroup groupID rest in (c :: members, rest')
      else ([], changes)
  end.

(** The next atomic group: a change without a group stands alone. *)
Definition nextGroup (c : Change) (rest : list Change) : list Change * list Change :=
  if decide (Group c = "") then ([c], rest)
  else let '(members, rest') := sameGroup (Group c) rest in (c :: members, rest').

(** Each iteration consumes at least one change: as many iterations as changes
    are enough. *)
Fixpoint takeGroupsLoop (fuel : nat) (changes : list Change) (limit : Z) (selected : list Change)
    : (list Change * Z) + RunnerError :=
  match fuel, changes with
  | S fuel', c :: rest =>
      let '(members, rest') := nextGroup c rest in
      let groupSize := Z.of_nat (length members) in
      if limit <? groupSize then inr (GroupTooLargeError (Group c) groupSize)
      else if limit <? Z.of_nat (length selected) + groupSize then inl (selected, Z.of_nat (length changes))
      else takeGroupsLoop fuel' rest' limit (selected ++ members)
  | _, _ => inl (selected, 0)
  end.

Definition takeWholeGroups (changes : list Change) (limit : Z) : (list Change * Z) + RunnerError :=
  takeGroupsLoop (length changes) changes limit [].

Definition validateAndCapChanges (changes0 : list Change) : list Change + RunnerError :=
  let changes := sortChangesByGroupAndKey changes0 in
  let duplicateKey := findDuplicateChangeKey changes in
  if decide (duplicateKey ≠ "") then inr (DuplicateKeyError duplicateKey)
  else if maxTransactionChanges <? Z.of_nat (length changes) then
    match takeWholeGroups changes maxTransactionChanges with
    | inl (selected, _) => inl selected
    | inr e => inr e
    end
  else inl changes.

(** ** The transaction *)

Definition scannedRevisions (allFacts : list Fact) : gmap string Z :=
  foldl (λ m f, <[Key f := Revision f]> m) ∅ allFacts.

Definition changeOp (c : Change) : Op := mkOp (ChangeType c) (ChangeKey c) (ChangeValue c).

(** The guard of a changed key: the scanned revision, or absence for a put of a
    key that was not scanned; a delete of such a key has none. *)
Definition changeGuard (revisions : gmap string Z) (c : Change) : option Compare :=
  match revisions !! ChangeKey c with
  | Some factRevision => Some (mkCompare (ChangeKey c) factRevision)
  | None => match ChangeType c with OpPut => Some (mkCompare (ChangeKey c) 0) | OpDelete => None end
  end.

Fixpoint appendGuardsLoop (facts : list Fact) (inputKeyLimit : Z) (changeKeySet : gset string)
    (writePrefixes : list string) (compares : list Compare) : list Compare :=
  match facts with
  | [] => compares
  | f :: rest =>
      if inputKeyLimit <=? Z.of_nat (length compares) then compares
      else if decide (Key f ∈ changeKeySet) then
        appendGuardsLoop rest inputKeyLimit changeKeySet writePrefixes compares
      else if negb (isKeyWithinWriteDomain (Key f) writePrefixes) then
        appendGuardsLoop rest inputKeyLimit changeKeySet writePrefixes compares
      else appendGuardsLoop rest inputKeyLimit changeKeySet writePrefixes
             (compares ++ [mkCompare (Key f) (Revision f)])
  end.

Definition appendInputKeyGuards (r : Runner) (controllerName : string) (compares : list Compare)
    (operations : list Op) (changeKeySet : gset string) (allFacts : list Fact) : list Compare :=
  if maxInputKeyGuards r =? 0 then compares
  else
    let writePrefixes := default [] (controllerOutputPrefixes !! controllerName) in
    let etcdCapacity := etcdTransactionOperationLimit - Z.of_nat (length operations) in
    let inputKeyLimit :=
      if 0 <? maxInputKeyGuards r then
        let limit := (Z.of_nat (length compares) +! maxInputKeyGuards r)%go in
        if etcdCapacity <? limit then etcdCapacity else limit
      else etcdCapacity in
    appendGuardsLoop allFacts inputKeyLimit changeKeySet writePrefixes compares.

Definition buildReconciliationTransaction (r : Runner) (controllerName : string) (changes : list Change)
    (allFacts : list Fact) : list Compare * list Op :=
  let operations := changeOp <$> changes in
  let compares := omap (changeGuard (scannedRevisions allFacts)) changes in
  (appendInputKeyGuards r controllerName compares operations (list_to_set (ChangeKey <$> changes)) allFacts,
   operations).

(** ** One attempt *)

Section attempt.
Context {St : Type} `{!StateStore St} `{GoSort} {C : Type}.

(** The scans of the watched prefixes, each on the store it finds. *)
Fixpoint scanLoop (prefixes : list string) (view : nat → St) (call : nat) : option (list Fact + RunnerError) :=
  match prefixes with
  | [] => Some (inl [])
  | prefix :: rest =>
      match store_ScanWithRevision prefix (view call) with
      | None => None
      | Some (Err e) => Some (inr (StoreFailure e))
      | Some (Ok (scanned, _)) =>
          match scanLoop rest view (S call) with
          | Some (inl more) => Some (inl (scanned ++ more))
          | other => other
          end
      end
  end.

Definition scanFactsForController (controller : Controller C) (view : nat → St) : option (list Fact + RunnerError) :=
  scanLoop (WatchPrefixes controller) view 0.

Definition fullReconcile (controller : Controller C) (now : Z) (allFacts : list Fact) (c : C)
    : option ((list Change + RunnerError) * C) :=
  match ReconcileFull controller now allFacts c with
  | None => None
  | Some (inl changes, c') => Some (inl changes, c')
  | Some (inr message, c') => Some (inr (ReconcileFailure message), c')
  end.

Definition computeReconciliationChanges (controller : Controller C) (now : Z) (allFacts : list Fact)
    (deltaEvents : list Event) (c : C) : option ((list Change + RunnerError) * C) :=
  match deltaEvents, ReconcileDelta controller with
  | _ :: _, Some delta =>
      match delta now allFacts deltaEvents c with
      | None => None
      | Some (DeltaFallback, c') => fullReconcile controller now allFacts c'
      | Some (DeltaFailure message, c') => Some (inr (ReconcileFailure message), c')
      | Some (DeltaChanges changes, c') => Some (inl changes, c')
      end
  | _, _ => fullReconcile controller now allFacts c
  end.

Definition executePendingPostCommitOperations (controller : Controller C) (c : C) : C :=
  match ExecutePostCommitOperations controller with Some run => run c | None => c end.

(** Whether a conflict was detected, or the error; the controller's state; and
    the store the commit left, if there was a transaction. *)
Definition attemptSingleReconciliation (r : Runner) (controller : Controller C) (view : nat → St)
    (now : Z) (deltaEvents : list Event) (c : C) : option ((bool + RunnerError) * C * option St) :=
  match scanFactsForController controller view with
  | None => None
  | Some (inr e) => Some (inr e, c, None)
  | Some (inl scanned) =>
      let allFacts := SortFacts scanned in
      match computeReconciliationChanges controller now allFacts deltaEvents c with
      | None => None
      | Some (inr e, c') => Some (inr e, c', None)
      | Some (inl [], c') => Some (inl false, executePendingPostCommitOperations controller c', None)
      | Some (inl changes, c') =>
          match enforceWriteDomain (Name controller) changes with
          | [] => Some (inl false, c', None)
          | allowed =>
              match validateAndCapChanges allowed with
              | inr e => Some (inr e, c', None)
              | inl capped =>
                  let '(compares, operations) :=
                    buildReconciliationTransaction r (Name controller) capped allFacts in
                  match store_Transaction compares operations [] (view (length (WatchPrefixes controller))) with
                  | None => None
                  | Some (Err e, s') => Some (inr (StoreFailure e), c', Some s')
                  | Some (Ok false, s') => Some (inl true, c', Some s')
                  | Some (Ok true, s') =>
                      Some (inl false, executePendingPostCommitOperations controller c', Some s')
                  end
              end
          end
      end
  end.

(** ** The retry loop *)

(** The base delay before the attempt after [attemptIndex], in milliseconds:
    [10 * (1 << attemptIndex)] at the width of [int], at most 500. *)
Definition retryBaseDelay (attemptIndex : Z) : Z :=
  let baseDelayMs := (reconcileRetryBaseDelayMs *! (if attemptIndex <? 64 then wrap64 (Z.shiftl 1 attemptIndex) else 0))%go in
  if reconcileRetryMaxDelayMs <? baseDelayMs then reconcileRetryMaxDelayMs else baseDelayMs.

(** [rand.Intn(n)] panics unless [n] is positive. *)
Definition Intn_ok (n : Z) : bool := 0 <? n.

Inductive cycleResult := CycleSuccess | CycleAbandoned | CycleCancelled | CycleError (e : RunnerError).

(** The attempts from [attemptIndex] on: [world i] is what attempt [i] finds,
    [clock i] its time, [cancelled i] whether the context ends during the delay
    after it. The loop runs [remaining] more times. *)
Fixpoint attemptLoop (r : Runner) (controller : Controller C) (world : nat → nat → St) (clock : nat → Z)
    (cancelled : nat → bool) (deltaEvents : list Event) (remaining attemptIndex : nat) (c : C)
    : option (cycleResult * C) :=
  match remaining with
  | O => Some (CycleAbandoned, c)
  | S remaining' =>
      let eventsForAttempt := if (attemptIndex =? 0)%nat then deltaEvents else [] in
      match attemptSingleReconciliation r controller (world attemptIndex) (clock attemptIndex) eventsForAttempt c with
      | None => None
      | Some (inr e, c', _) => Some (CycleError e, c')
      | Some (inl false, c', _) => Some (CycleSuccess, c')
      | Some (inl true, c', _) =>
          if negb (Intn_ok (retryBaseDelay (Z.of_nat attemptIndex) +! 1)%go) then None
          else if cancelled attemptIndex then Some (CycleCancelled, c')
          else attemptLoop r controller world clock cancelled deltaEvents remaining' (S attemptIndex) c'
      end
  end.

Definition executeReconciliationCycle (r : Runner) (controller : Controller C) (world : nat → nat → St)
    (clock : nat → Z) (cancelled : nat → bool) (deltaEvents : list Event) (c : C) : option (cycleResult * C) :=
  attemptLoop r controller world clock cancelled deltaEvents (Z.to_nat (maxReconciliationAttempts r)) 0 c.

End attempt.
