(* ===== verification/RunnerProps.v ===== *)
(** * What the runner guarantees

    Sets of changes, then the theorems about commits. *)

From S2P Require Import Prelude GoStrings Trie EventHistory MemoryStore StoreInvariant StoreProps StateStore PrefixSearch Keys Heap NodeHeap.
From S2P Require Import SchedulerFacts Placement Runner PlacementProps.

Local Open Scope Z_scope.

(** * What a set of changes does to the values of the facts

    A committed change set without repeated keys sets each key it puts, removes
    each key it deletes, and leaves the rest. *)

Definition applyChanges (changes : list Change) (m : gmap string string) : gmap string string :=
  apply_ops (changeOp <$> changes) m.

Lemma apply_ops_other ops k m : k ∉ OpKey <$> ops → apply_ops ops m !! k = m !! k.
Proof.
  unfold apply_ops. induction ops as [|op ops IH] using rev_ind; [done|]. rewrite fmap_app, foldl_app. simpl.
  intros [Hk Hop]%not_elem_of_app. assert (OpKey op ≠ k) by (intros E; apply Hop; rewrite E; set_solver).
  unfold apply_op. destruct (OpTyp op); [rewrite lookup_insert_ne by done|rewrite lookup_delete_ne by done]; by apply IH.
Qed.

(** The last operation on a key decides; without repetitions it is the only one. *)
Lemma apply_ops_elem ops op m :
  NoDup (OpKey <$> ops) → op ∈ ops →
  apply_ops ops m !! OpKey op = match OpTyp op with OpPut => Some (OpValue op) | OpDelete => None end.
Proof.
  unfold apply_ops. induction ops as [|op' ops IH] using rev_ind; [set_solver|].
  rewrite fmap_app. intros (Hnd & Hdis & _)%NoDup_app Hin. rewrite foldl_app. simpl.
  apply elem_of_app in Hin as [Hin|<-%list_elem_of_singleton].
  2: { unfold apply_op. destruct (OpTyp op); [by rewrite lookup_insert_eq|by rewrite lookup_delete_eq]. }
  assert (OpKey op' ≠ OpKey op).
  { intros E. apply (Hdis (OpKey op)); [by apply list_elem_of_fmap_2|simpl; set_solver]. }
  unfold apply_op at 1. destruct (OpTyp op'); [rewrite lookup_insert_ne by done|rewrite lookup_delete_ne by done]; by apply IH.
Qed.

Lemma apply_ops_put ops k v m :
  NoDup (OpKey <$> ops) → mkOp OpPut k v ∈ ops → apply_ops ops m !! k = Some v.
Proof. intros Hnd Hin. apply (apply_ops_elem _ _ m Hnd Hin). Qed.

Lemma changeOp_keys (changes : list Change) : OpKey <$> (changeOp <$> changes) = ChangeKey <$> changes.
Proof. by rewrite <-list_fmap_compose. Qed.

Lemma applyChanges_other changes k m : k ∉ ChangeKey <$> changes → applyChanges changes m !! k = m !! k.
Proof. intros Hk. apply apply_ops_other. by rewrite changeOp_keys. Qed.

Lemma applyChanges_elem changes c m :
  NoDup (ChangeKey <$> changes) → c ∈ changes →
  applyChanges changes m !! ChangeKey c = match ChangeType c with OpPut => Some (ChangeValue c) | OpDelete => None end.
Proof.
  intros Hnd Hc. apply (apply_ops_elem (changeOp <$> changes) (changeOp c)); [by rewrite changeOp_keys|].
  by apply list_elem_of_fmap_2.
Qed.

(** Changes that stay under a prefix leave the keys outside it alone. *)
Lemma applyChanges_outside changes p k m :
  (∀ c, c ∈ changes → HasPrefix (ChangeKey c) p = true) → HasPrefix k p = false →
  applyChanges changes m !! k = m !! k.
Proof.
  intros Hp Hk. apply applyChanges_other. rewrite list_elem_of_fmap. intros (c & -> & Hc). rewrite Hp in Hk; done.
Qed.

(** * Properties of the runner

    Capping keeps atomic groups whole, a transaction always fits the store's
    limit, a commit loses no concurrent update, and an attempt that nobody
    disturbs commits. *)

(** ** Sorting *)

(** Comparing first by a string. *)
Lemma lex_swo {A} (k : A → string) (less : A → A → bool) :
  StrictWeakOrder less →
  StrictWeakOrder (λ a b, if negb (bool_decide (k a = k b)) then str_ltb (k a) (k b) else less a b).
Proof.
  intros Hless. split.
  - intros x. rewrite bool_decide_eq_true_2 by done. apply swo_irrefl.
  - intros x y z. repeat case_bool_decide; simpl; try congruence.
    + apply swo_trans.
    + intros L1 L2. pose proof (str_ltb_asym _ _ L1). congruence.
    + apply str_ltb_trans.
  - intros x y z. repeat case_bool_decide; simpl; try congruence.
    + apply swo_incomp.
    + intros L1 L2. exfalso. assert (k x = k y); [|congruence]. apply str_ltb_total; congruence.
    + apply swo_incomp.
Qed.

#[export] Instance changeLess_swo : StrictWeakOrder changeLess.
Proof.
  apply (lex_swo Group), (lex_swo ChangeKey). split; intros *; unfold opTypeLess; repeat case_match; done.
Qed.

Definition groups_sorted (l : list Change) : Prop :=
  StronglySorted (λ a b, str_ltb (Group b) (Group a) = false) l.

Lemma sortChanges_groups l : groups_sorted (sortChangesByGroupAndKey l).
Proof.
  unfold groups_sorted, sortChangesByGroupAndKey. pose proof (sort_stable_sorted changeLess l) as Hs.
  induction Hs as [|c l' _ IH Hc]; constructor; [done|]. eapply Forall_impl; [exact Hc|].
  intros b. simpl. unfold changeLess. case_bool_decide as E; simpl; [|done]. intros _. rewrite E. apply str_ltb_irrefl.
Qed.

(** ** Whole groups *)

Lemma sameGroup_spec g l members rest :
  sameGroup g l = (members, rest) →
  l = members ++ rest ∧ Forall (λ c, Group c = g) members ∧ (∀ c rest', rest = c :: rest' → Group c ≠ g).
Proof.
  revert members rest. induction l as [|c l IH]; intros members rest; simpl; [by intros [= <- <-]|].
  case_decide as Hg.
  - destruct (sameGroup g l) as [ms r]. intros [= <- <-]. destruct (IH ms r eq_refl) as (-> & Hall & Hr).
    split_and!; [done|by constructor|done].
  - intros [= <- <-]. split_and!; [done|constructor|naive_solver].
Qed.

(** No group is on both sides of a cut. *)
Definition whole (l1 l2 : list Change) : Prop :=
  ∀ a b, a ∈ l1 → b ∈ l2 → Group a ≠ "" → Group b ≠ Group a.

Lemma nextGroup_spec c l members rest :
  nextGroup c l = (members, rest) → groups_sorted (c :: l) →
  c :: l = members ++ rest ∧ members ≠ [] ∧ groups_sorted rest ∧ whole members rest ∧
  (Forall (λ x, Group x = Group c) members).
Proof.
  unfold nextGroup. intros E Hs. apply StronglySorted_cons in Hs as [Hc Hs]. case_decide as Hg.
  - simplify_eq. split_and!; [done|done|done| |by repeat constructor].
    intros a b ->%list_elem_of_singleton _ Hne. by destruct Hne.
  - destruct (sameGroup (Group c) l) as [ms r] eqn:Es. simplify_eq.
    destruct (sameGroup_spec _ _ _ _ Es) as (-> & Hall & Hr).
    assert (Hrest : groups_sorted rest) by (by eapply StronglySorted_app_1_r).
    split_and!; [done|done|done| |by constructor].
    assert (Hgm : ∀ a, a ∈ c :: ms → Group a = Group c).
    { intros a [->|Ha]%elem_of_cons; [done|]. exact (proj1 (Forall_forall _ _) Hall a Ha). }
    intros a b Ha Hb _. rewrite (Hgm a Ha). destruct rest as [|y0 rest']; [set_solver|].
    specialize (Hr y0 rest' eq_refl). intros Eb.
    assert (H1 : str_ltb (Group y0) (Group c) = false).
    { apply (proj1 (Forall_forall _ _) Hc). set_solver. }
    apply elem_of_cons in Hb as [->|Hb]; [done|]. apply StronglySorted_cons in Hrest as [Hy0 _].
    pose proof (proj1 (Forall_forall _ _) Hy0 b Hb) as H2. simpl in H2. rewrite Eb in H2.
    apply Hr. by apply str_ltb_total.
Qed.

(** The number of changes the group of [c] takes out of [l]. *)
Definition groupSizeIn (c : Change) (l : list Change) : Z :=
  if decide (Group c = "") then 1 else Z.of_nat (length (filter (λ x, Group x = Group c) l)).

Lemma nextGroup_size c l members rest :
  nextGroup c l = (members, rest) → groups_sorted (c :: l) →
  Z.of_nat (length members) ≤ groupSizeIn c (c :: l).
Proof.
  intros En Hs. destruct (nextGroup_spec _ _ _ _ En Hs) as (E & _ & _ & _ & Hsame). unfold groupSizeIn.
  case_decide as Hc; [unfold nextGroup in En; rewrite decide_True in En by done; by simplify_eq|].
  rewrite E, filter_app, (filter_everything _ members Hsame), length_app. lia.
Qed.

Lemma takeGroupsLoop_spec fuel changes limit selected out deferred :
  0 < limit → (length changes ≤ fuel)%nat → groups_sorted changes → whole selected changes →
  Z.of_nat (length selected) ≤ limit →
  takeGroupsLoop fuel changes limit selected = inl (out, deferred) →
  ∃ rest, selected ++ changes = out ++ rest ∧ Z.of_nat (length out) ≤ limit ∧ whole out rest ∧
    deferred = Z.of_nat (length rest) ∧ selected `prefix_of` out ∧ (changes ≠ [] → out ≠ []) ∧
    (∀ c l, rest = c :: l → limit < Z.of_nat (length out) + groupSizeIn c rest).
Proof.
  intros Hlim. revert changes selected. induction fuel as [|fuel IH]; intros changes selected Hfuel Hs Hw Hlen.
  { destruct changes; [|simpl in Hfuel; lia]. intros [= <- <-]. exists []. by split_and!. }
  destruct changes as [|c rest]; simpl.
  { intros [= <- <-]. exists []. by split_and!. }
  destruct (nextGroup c rest) as [members rest'] eqn:En.
  destruct (nextGroup_spec _ _ _ _ En Hs) as (E & Hne & Hs' & Hwm & _).
  assert (length rest = length members + length rest' - 1)%nat.
  { apply (f_equal length) in E. rewrite length_app in E. simpl in E. lia. }
  assert (length members ≠ 0)%nat by (by destruct members). simpl in Hfuel.
  destruct (Z.ltb_spec limit (Z.of_nat (length members))); [done|].
  destruct (Z.ltb_spec limit (Z.of_nat (length selected) + Z.of_nat (length members))).
  - intros [= <- <-]. exists (c :: rest). pose proof (nextGroup_size _ _ _ _ En Hs).
    split_and!; [done|done|done|simpl; lia|done| |intros ? ? [= <- <-]; lia].
    intros _ ->. simpl in *. lia.
  - intros Hloop. destruct (IH rest' (selected ++ members)) as (r & Er & ? & ? & ? & [more ->] & _ & Hmax);
      [lia|done| |rewrite length_app; lia|done|].
    { intros a b Ha Hb. apply elem_of_app in Ha as [Ha|Ha]; [|by apply Hwm]. apply Hw; [done|]. rewrite E. set_solver. }
    exists r. rewrite E, app_assoc. split_and!; try done; [by do 2 apply prefix_app_r|].
    intros _. by destruct selected, members.
Qed.


(** ** Duplicates *)

Lemma findDuplicateLoop_none changes seen :
  NoDup (ChangeKey <$> changes) → (∀ c, c ∈ changes → ChangeKey c ∉ seen) → findDuplicateLoop changes seen = "".
Proof.
  revert seen. induction changes as [|c l IH]; intros seen Hnd Hseen; simpl; [done|].
  rewrite fmap_cons in Hnd. apply NoDup_cons in Hnd as [Hc Hnd]. rewrite decide_False by (apply Hseen; set_solver).
  apply IH; [done|]. intros x Hx. rewrite elem_of_union, elem_of_singleton. intros [E|E].
  - apply Hc. rewrite <-E. by apply list_elem_of_fmap_2.
  - apply (Hseen x); [set_solver|done].
Qed.

Lemma findDuplicateLoop_sound changes seen :
  (∀ c, c ∈ changes → ChangeKey c ≠ "") → findDuplicateLoop changes seen = "" →
  NoDup (ChangeKey <$> changes) ∧ ∀ c, c ∈ changes → ChangeKey c ∉ seen.
Proof.
  revert seen. induction changes as [|c l IH]; intros seen Hne; simpl; [intros _; split; [constructor|set_solver]|].
  case_decide as Hin; [intros E; by destruct (Hne c ltac:(set_solver))|]. intros E.
  destruct (IH ({[ChangeKey c]} ∪ seen)) as [Hnd Hout]; [set_solver|done|]. split.
  - apply NoDup_cons. split; [|done]. rewrite list_elem_of_fmap.
    intros (x & Ex & Hx). apply (Hout x Hx). set_solver.
  - intros x [->|Hx]%elem_of_cons; [done|]. specialize (Hout x Hx). set_solver.
Qed.

Lemma validateAndCap_sorted changes capped :
  validateAndCapChanges changes = inl capped →
  ∃ rest, sortChangesByGroupAndKey changes = capped ++ rest ∧ whole capped rest ∧
    Z.of_nat (length capped) ≤ maxTransactionChanges ∧ (changes ≠ [] → capped ≠ []) ∧
    findDuplicateChangeKey (sortChangesByGroupAndKey changes) = "" ∧
    (∀ c l, rest = c :: l → maxTransactionChanges < Z.of_nat (length capped) + groupSizeIn c rest).
Proof.
  unfold validateAndCapChanges. set (sorted := sortChangesByGroupAndKey changes).
  assert (Hperm : sorted ≡ₚ changes) by apply sort_stable_perm.
  assert (Hne : changes ≠ [] → sorted ≠ []) by (intros Hc E; apply Hc; rewrite E in Hperm; by apply Permutation_nil_l in Hperm).
  case_decide as Hd; [done|]. destruct (Z.ltb_spec maxTransactionChanges (Z.of_nat (length sorted))).
  - destruct (takeWholeGroups sorted maxTransactionChanges) as [[out deferred]|] eqn:E; [|done]. intros [= ->].
    destruct (takeGroupsLoop_spec (length sorted) sorted maxTransactionChanges [] capped deferred)
      as (rest & Er & ? & ? & _ & _ & Hout & Hmax); try done; [apply sortChanges_groups|intros a b Ha; set_solver|].
    exists rest. split_and!; auto.
  - intros [= <-]. exists []. rewrite app_nil_r. split_and!; auto; [|done]. intros a b _ Hb. set_solver.
Qed.

(** Validation only fails on a repeated key or an oversized group. *)
Lemma takeGroupsLoop_succeeds fuel changes limit selected :
  1 ≤ limit → groups_sorted changes →
  (∀ g, g ≠ "" → Z.of_nat (length (filter (λ c, Group c = g) changes)) ≤ limit) →
  ∃ out, takeGroupsLoop fuel changes limit selected = inl out.
Proof.
  intros Hlim. revert changes selected. induction fuel as [|fuel IH]; intros changes selected Hs Hg; [by eexists|].
  destruct changes as [|c rest]; simpl; [by eexists|].
  destruct (nextGroup c rest) as [members rest'] eqn:En.
  destruct (nextGroup_spec _ _ _ _ En Hs) as (E & _ & Hs' & _ & Hsame).
  assert (Hm : Z.of_nat (length members) ≤ limit).
  { destruct (decide (Group c = "")) as [Hc|Hc].
    - unfold nextGroup in En. rewrite decide_True in En by done. simplify_eq. simpl. lia.
    - specialize (Hg _ Hc). rewrite E, filter_app, (filter_everything _ members Hsame), length_app in Hg. lia. }
  destruct (Z.ltb_spec limit (Z.of_nat (length members))); [lia|]. destruct (_ <? _); [by eexists|].
  apply IH; [done|]. intros g Hne. specialize (Hg g Hne). rewrite E, filter_app, length_app in Hg. lia.
Qed.

Lemma validateAndCap_succeeds changes :
  NoDup (ChangeKey <$> changes) →
  (∀ g, g ≠ "" → Z.of_nat (length (filter (λ c, Group c = g) changes)) ≤ maxTransactionChanges) →
  ∃ capped, validateAndCapChanges changes = inl capped.
Proof.
  intros Hnd Hg. unfold validateAndCapChanges. set (sorted := sortChangesByGroupAndKey changes).
  assert (Hperm : sorted ≡ₚ changes) by apply sort_stable_perm.
  unfold findDuplicateChangeKey. rewrite findDuplicateLoop_none; [|by rewrite Hperm|set_solver].
  rewrite decide_False by (intros E; by apply E). destruct (_ <? _); [|by eexists].
  destruct (takeGroupsLoop_succeeds (length sorted) sorted maxTransactionChanges []) as [[out deferred] E].
  - done.
  - apply sortChanges_groups.
  - intros g Hne. by rewrite Hperm; apply Hg.
  - unfold takeWholeGroups. rewrite E. by eexists.
Qed.

(** What the runner commits of a change set, and what it defers: at most 60
    changes, all proposed, with no key twice; never a part of an atomic group
    without the rest; always something, if anything was proposed; and as much as
    fits: some deferred change heads a group that would exceed the 60 changes. *)
Theorem validateAndCapChanges_atomic changes capped :
  validateAndCapChanges changes = inl capped → (∀ c, c ∈ changes → ChangeKey c ≠ "") →
  Z.of_nat (length capped) ≤ 60 ∧ NoDup (ChangeKey <$> changes) ∧ (changes ≠ [] → capped ≠ []) ∧
  (∀ a b, a ∈ capped → b ∈ changes → Group a ≠ "" → Group b = Group a → b ∈ capped) ∧
  ∃ deferred, capped ++ deferred ≡ₚ changes ∧
    (deferred = [] ∨ ∃ c, c ∈ deferred ∧ 60 < Z.of_nat (length capped) + groupSizeIn c deferred).
Proof.
  intros (rest & E & Hw & Hlen & Hne & Hdup & Hmax)%validateAndCap_sorted Hkeys.
  assert (Hperm : capped ++ rest ≡ₚ changes) by (rewrite <-E; apply sort_stable_perm).
  split_and!; [done| |done| |].
  - rewrite <-Hperm, <-E. eapply proj1, findDuplicateLoop_sound; [|exact Hdup].
    intros c. rewrite E, Hperm. apply Hkeys.
  - intros a b Ha Hb Hg Eg. rewrite <-Hperm in Hb. apply elem_of_app in Hb as [?|Hb]; [done|].
    by destruct (Hw a b Ha Hb Hg).
  - exists rest. split; [done|]. destruct rest as [|c l]; [by left|right]. exists c.
    split; [set_solver|]. exact (Hmax c l eq_refl).
Qed.

(** ** The size of a transaction *)

Lemma appendGuardsLoop_length fs limit keys prefixes compares :
  Z.of_nat (length (appendGuardsLoop fs limit keys prefixes compares)) ≤ Z.max (Z.of_nat (length compares)) limit.
Proof.
  revert compares. induction fs as [|f fs IH]; intros compares; simpl; [lia|].
  destruct (Z.leb_spec limit (Z.of_nat (length compares))); [lia|]. case_decide; [apply IH|].
  destruct (negb _); [apply IH|]. etrans; [apply IH|]. rewrite length_app. simpl. lia.
Qed.

Lemma length_omap_le {A B} (f : A → option B) l : (length (omap f l) ≤ length l)%nat.
Proof. unfold omap. induction l as [|x l IH]; [done|]. simpl. destruct (f x); simpl; lia. Qed.

Lemma build_fits r name changes allFacts :
  Z.of_nat (length changes) ≤ maxTransactionChanges →
  let '(compares, operations) := buildReconciliationTransaction r name changes allFacts in
  (length compares + length operations ≤ memoryStoreTransactionOperationLimit)%nat.
Proof.
  intros Hlen. unfold buildReconciliationTransaction. set (cs := omap _ changes).
  assert (Hcs : (length cs ≤ length changes)%nat).
  { apply length_omap_le. }
  rewrite length_fmap. unfold appendInputKeyGuards. rewrite length_fmap. unfold maxTransactionChanges in Hlen.
  assert (Hlim : Z.of_nat memoryStoreTransactionOperationLimit = 128) by done.
  destruct (_ =? 0); [lia|]. set (limit := if 0 <? _ then _ else _).
  assert (limit ≤ 128 - Z.of_nat (length changes)).
  { unfold limit, etcdTransactionOperationLimit. repeat case_match; boolprop; lia. }
  pose proof (appendGuardsLoop_length allFacts limit (list_to_set (ChangeKey <$> changes))
    (default [] (controllerOutputPrefixes !! name)) cs). lia.
Qed.

(** The transaction of a capped change set never exceeds the store's limit of 128
    items, whatever was scanned and however the runner is configured. *)
Theorem transaction_fits_limit r name changes allFacts :
  Z.of_nat (length changes) ≤ maxTransactionChanges →
  let '(compares, operations) := buildReconciliationTransaction r name changes allFacts in
  (length compares + length operations ≤ memoryStoreTransactionOperationLimit)%nat.
Proof. apply build_fits. Qed.

(** ** What a scan reads *)

Section store.
Context {St : Type} `{!StateStore St} `{GoSort}.

(** No key begins with two of the prefixes. *)
Definition separate_prefixes (prefixes : list string) : Prop :=
  ForallOrdPairs (λ p q, HasPrefix p q = false ∧ HasPrefix q p = false) prefixes.

Lemma scanLoop_ok prefixes view call :
  (∀ i, usable (view i)) →
  ∃ scanned, scanLoop prefixes view call = Some (inl scanned) ∧
    (∀ f, f ∈ scanned → ∃ i p, prefixes !! i = Some p ∧ content (view (call + i)%nat) !! Key f = Some f ∧
                              HasPrefix (Key f) p = true) ∧
    (∀ i p k f, prefixes !! i = Some p → content (view (call + i)%nat) !! k = Some f → HasPrefix k p = true →
                k ≠ "" → f ∈ scanned).
Proof.
  intros Hu. revert call. induction prefixes as [|p prefixes IH]; intros call; simpl.
  { exists []. split_and!; [done|set_solver|done]. }
  destruct (scan_exact (view call) p (Hu call)) as (l & rev & -> & _ & Hl).
  destruct (IH (S call)) as (more & -> & Hin & Hall). exists (l ++ more). split_and!; [done|..].
  - intros f [Hf|Hf]%elem_of_app.
    + apply Hl in Hf as (Hc & Hp & _). exists 0%nat, p. rewrite Nat.add_0_r. done.
    + destruct (Hin f Hf) as (i & q & Hi & Hc & Hq). exists (S i), q. by rewrite Nat.add_succ_r.
  - intros [|i] q k f Hi Hc Hq Hk; simplify_eq/=.
    + rewrite Nat.add_0_r in Hc. apply elem_of_app. left. pose proof (content_key _ _ _ (Hu call) Hc) as E.
      apply Hl. by rewrite E.
    + apply elem_of_app. right. apply (Hall i q k); try done. by rewrite Nat.add_succ_r in Hc.
Qed.

(** With separate prefixes a key is scanned once. *)
Lemma scanLoop_unique prefixes view call scanned f g :
  (∀ i, usable (view i)) → separate_prefixes prefixes →
  scanLoop prefixes view call = Some (inl scanned) → f ∈ scanned → g ∈ scanned → Key f = Key g → f = g.
Proof.
  intros Hu Hsep E Hf Hg Hk. destruct (scanLoop_ok prefixes view call Hu) as (l & E' & Hin & _).
  rewrite E in E'. simplify_eq. destruct (Hin f Hf) as (i & p & Hi & Hcf & Hp), (Hin g Hg) as (j & q & Hj & Hcg & Hq).
  rewrite Hk in Hp, Hcf. destruct (decide (i = j)) as [->|Hne]; [congruence|]. exfalso.
  assert (Hpq : HasPrefix p q = false ∧ HasPrefix q p = false).
  { clear -Hsep Hi Hj Hne. revert i j Hi Hj Hne. induction Hsep as [|x l Hx _ IH]; intros i j Hi Hj Hne; [done|].
    destruct i as [|i], j as [|j]; simplify_eq/=.
    - apply (proj1 (Forall_forall _ _) Hx). by eapply list_elem_of_lookup_2.
    - apply and_comm. apply (proj1 (Forall_forall _ _) Hx). by eapply list_elem_of_lookup_2.
    - apply (IH i j); [done|done|congruence]. }
  by destruct (prefix_clash _ _ _ Hp Hq); naive_solver.
Qed.

Lemma scannedRevisions_some l k rev :
  scannedRevisions l !! k = Some rev → ∃ f, f ∈ l ∧ Key f = k ∧ Revision f = rev.
Proof.
  unfold scannedRevisions. induction l as [|f l IH] using rev_ind; [done|].
  rewrite foldl_app. simpl. rewrite lookup_insert. case_decide as Hk.
  - intros [= <-]. exists f. split_and!; [set_solver|done|done].
  - intros (g & ? & ? & ?)%IH. exists g. split_and!; [set_solver|done|done].
Qed.

Lemma scannedRevisions_none l k : scannedRevisions l !! k = None → ∀ f, f ∈ l → Key f ≠ k.
Proof.
  unfold scannedRevisions. induction l as [|f l IH] using rev_ind; [set_solver|].
  rewrite foldl_app. simpl. rewrite lookup_insert. case_decide as Hk; [done|].
  intros Hn g [Hg| ->%list_elem_of_singleton]%elem_of_app; [by apply IH|done].
Qed.

Lemma appendGuards_prefix fs limit keys prefixes compares :
  ∃ more, appendGuardsLoop fs limit keys prefixes compares = compares ++ more ∧
    ∀ c, c ∈ more → ∃ f, f ∈ fs ∧ c = mkCompare (Key f) (Revision f).
Proof.
  revert compares. induction fs as [|f fs IH]; intros compares; simpl.
  { exists []. rewrite app_nil_r. split; [done|set_solver]. }
  destruct (_ <=? _); [exists []; rewrite app_nil_r; split; [done|set_solver]|].
  assert (Hskip : ∃ more, appendGuardsLoop fs limit keys prefixes compares = compares ++ more ∧
    ∀ c, c ∈ more → ∃ f0, f0 ∈ f :: fs ∧ c = mkCompare (Key f0) (Revision f0)).
  { destruct (IH compares) as (more & -> & Hm). exists more. split; [done|].
    intros c Hc. destruct (Hm c Hc) as (g & ? & ?). exists g. split; [set_solver|done]. }
  case_decide; [done|]. destruct (negb _); [done|].
  destruct (IH (compares ++ [mkCompare (Key f) (Revision f)])) as (more & -> & Hm).
  exists (mkCompare (Key f) (Revision f) :: more). split; [by rewrite <-app_assoc|].
  intros c [->|Hc]%elem_of_cons; [exists f; split; [set_solver|done]|].
  destruct (Hm c Hc) as (g & ? & ?). exists g. split; [set_solver|done].
Qed.

(** The guards of a transaction: those of the changed keys, then guards of
    scanned facts. *)
Lemma build_guards r name changes allFacts :
  ∃ more, buildReconciliationTransaction r name changes allFacts =
      (omap (changeGuard (scannedRevisions allFacts)) changes ++ more, changeOp <$> changes) ∧
    ∀ c, c ∈ more → ∃ f, f ∈ allFacts ∧ c = mkCompare (Key f) (Revision f).
Proof.
  unfold buildReconciliationTransaction, appendInputKeyGuards.
  destruct (_ =? 0); [exists []; rewrite app_nil_r; split; [done|set_solver]|].
  match goal with |- context [appendGuardsLoop ?fs ?lim ?ks ?ps ?cs] =>
    destruct (appendGuards_prefix fs lim ks ps cs) as (more & -> & Hm) end.
  by exists more.
Qed.

(** If the guards hold, what was scanned of a changed key is what the store
    holds. *)
Lemma guards_hold_scanned (content' : gmap string Fact) changes allFacts c :
  forallb (compare_holds content') (omap (changeGuard (scannedRevisions allFacts)) changes) = true → c ∈ changes →
  (∀ f, f ∈ allFacts → 0 < Revision f) →
  (∃ f f', f ∈ allFacts ∧ Key f = ChangeKey c ∧ content' !! Key f = Some f' ∧ Revision f' = Revision f) ∨
  ((∀ f, f ∈ allFacts → Key f ≠ ChangeKey c) ∧ (ChangeType c = OpPut → content' !! ChangeKey c = None)).
Proof.
  intros Hall Hc Hpos. rewrite forallb_forall in Hall.
  assert (Hg : ∀ g, changeGuard (scannedRevisions allFacts) c = Some g → compare_holds content' g = true).
  { intros g Hg. apply Hall, list_elem_of_In, list_elem_of_omap. eauto. }
  unfold changeGuard in Hg. destruct (scannedRevisions allFacts !! ChangeKey c) as [rev|] eqn:E.
  - left. apply scannedRevisions_some in E as (f & Hf & Hk & Hr). specialize (Hg _ eq_refl).
    unfold compare_holds in Hg. simpl in Hg. specialize (Hpos f Hf). destruct (Z.eqb_spec rev 0); [lia|].
    destruct (content' !! ChangeKey c) as [f'|] eqn:Ec; [|done]. boolprop. exists f, f'. rewrite Hk. by rewrite Hr.
  - right. split; [by apply scannedRevisions_none|]. intros Ht. rewrite Ht in Hg. specialize (Hg _ eq_refl).
    unfold compare_holds in Hg. simpl in Hg. by boolprop.
Qed.

End store.

(** ** Attempts *)

Section attempts.
Context {St : Type} `{!StateStore St} `{GoSort} {C : Type}.
Context (r : Runner) (controller : Controller C).

(** The store a commit meets. *)
Definition commitView (view : nat → St) : St := view (length (WatchPrefixes controller)).

Lemma attempt_commit_inv view now evs c c' s' :
  attemptSingleReconciliation r controller view now evs c = Some (inl false, c', Some s') →
  ∃ scanned proposed c1 capped,
    scanFactsForController controller view = Some (inl scanned) ∧
    computeReconciliationChanges controller now (SortFacts scanned) evs c = Some (inl proposed, c1) ∧
    validateAndCapChanges (enforceWriteDomain (Name controller) proposed) = inl capped ∧
    let '(compares, operations) := buildReconciliationTransaction r (Name controller) capped (SortFacts scanned) in
    store_Transaction compares operations [] (commitView view) = Some (Ok true, s').
Proof.
  unfold attemptSingleReconciliation. destruct (scanFactsForController controller view) as [[scanned|e]|]; [|done..].
  destruct (computeReconciliationChanges controller now (SortFacts scanned) evs c) as [[[proposed|e] c1]|] eqn:Ec; [|done..].
  intros E. exists scanned, proposed, c1.
  destruct proposed as [|p0 ps]; [done|].
  destruct (enforceWriteDomain (Name controller) (p0 :: ps)) as [|a0 allowed] eqn:Ed; [done|].
  destruct (validateAndCapChanges (a0 :: allowed)) as [capped|e]; [|done]. exists capped. split_and!; try done.
  destruct (buildReconciliationTransaction r (Name controller) capped (SortFacts scanned)) as [compares operations].
  fold (commitView view) in E.
  destruct (store_Transaction compares operations [] (commitView view)) as [[[[]|] s1]|]; by simplify_eq.
Qed.

Lemma enforceWriteDomain_sub name changes : enforceWriteDomain name changes ⊆+ changes.
Proof. unfold enforceWriteDomain. destruct (_ !! name); [apply filter_sub|done]. Qed.

Lemma evolves_later view i j :
  (∀ i, evolves (view i) (view (S i))) → (i ≤ j)%nat → evolves (view i) (view j).
Proof.
  intros Hev. induction 1 as [|j _ IH]; [apply evolves_refl|]. eapply evolves_trans; [exact IH|apply Hev].
Qed.

(** What a commit of [changes] overwrites is what the attempt had scanned. *)
Definition overwrites_scanned (scanned : list Fact) (v : St) (changes : list Change) : Prop :=
  ∀ ch, ch ∈ changes →
    (∀ f, f ∈ scanned → Key f = ChangeKey ch → content v !! ChangeKey ch = Some f) ∧
    (ChangeType ch = OpPut → (∀ f, f ∈ scanned → Key f ≠ ChangeKey ch) → content v !! ChangeKey ch = None).


(** Nothing blocks an attempt but other clients: if nobody writes between the scans
    and the commit, and the keys it creates are absent, an attempt whose changes
    pass validation commits them. *)
Theorem undisturbed_attempt_commits s now evs c scanned proposed c1 capped :
  usable s →
  scanFactsForController controller (λ _, s) = Some (inl scanned) →
  computeReconciliationChanges controller now (SortFacts scanned) evs c = Some (inl proposed, c1) →
  enforceWriteDomain (Name controller) proposed ≠ [] →
  validateAndCapChanges (enforceWriteDomain (Name controller) proposed) = inl capped →
  (∀ ch, ch ∈ capped → ChangeType ch = OpPut → (∀ f, f ∈ scanned → Key f ≠ ChangeKey ch) →
         content s !! ChangeKey ch = None) →
  ∃ s', attemptSingleReconciliation r controller (λ _, s) now evs c =
          Some (inl false, executePendingPostCommitOperations controller c1, Some s') ∧
    Value <$> content s' = apply_ops (changeOp <$> capped) (Value <$> content s).
Proof.
  intros Hu Es Ec Hne Ev Habs. destruct (validateAndCap_sorted _ _ Ev) as (rest & _ & _ & Hlen & _).
  pose proof (build_fits r (Name controller) capped (SortFacts scanned) Hlen) as Hfit.
  destruct (build_guards r (Name controller) capped (SortFacts scanned)) as (more & Eb & Hmore). rewrite Eb in Hfit. cbv beta iota in Hfit.
  assert (Hperm : SortFacts scanned ≡ₚ scanned) by apply sort_slice_perm.
  destruct (scanLoop_ok (WatchPrefixes controller) (λ _, s) 0 (λ _, Hu)) as (l & El & Hin & _).
  pose proof Es as Es'. unfold scanFactsForController in Es'. rewrite Es' in El. simplify_eq.
  assert (Hheld : ∀ f, f ∈ l → compare_holds (content s) (mkCompare (Key f) (Revision f)) = true).
  { intros f Hf. destruct (Hin f Hf) as (i & p & _ & Hc & _). unfold compare_holds. simpl. rewrite Hc.
    pose proof (content_revision _ _ _ Hu Hc). destruct (Z.eqb_spec (Revision f) 0); [lia|]. apply Z.eqb_refl. }
  assert (Hmet : forallb (compare_holds (content s)) (omap (changeGuard (scannedRevisions (SortFacts l))) capped ++ more) = true).
  { apply forallb_forall. intros g Hg%list_elem_of_In. apply elem_of_app in Hg as [Hg|Hg].
    - apply list_elem_of_omap in Hg as (ch & Hch & Hg). unfold changeGuard in Hg.
      destruct (scannedRevisions (SortFacts l) !! ChangeKey ch) as [rev|] eqn:E.
      + simplify_eq. apply scannedRevisions_some in E as (f & Hf & <- & <-). apply Hheld. by rewrite <-Hperm.
      + destruct (ChangeType ch) eqn:Et; simplify_eq. unfold compare_holds. simpl. apply bool_decide_eq_true.
        apply (Habs ch Hch Et). intros f Hf. apply (scannedRevisions_none _ _ E). by rewrite Hperm.
    - destruct (Hmore g Hg) as (f & Hf & ->). apply Hheld. by rewrite <-Hperm. }
  destruct (transaction_exact s (omap (changeGuard (scannedRevisions (SortFacts l))) capped ++ more)
    (changeOp <$> capped) [] Hu ltac:(cbn [length]; lia)) as (s' & Et & _ & _ & Hval). rewrite Hmet in Et, Hval.
  exists s'. split; [|done]. unfold attemptSingleReconciliation. rewrite Es, Ec.
  destruct proposed as [|p0 ps]; [by destruct Hne; unfold enforceWriteDomain; destruct (_ !! _)|].
  destruct (enforceWriteDomain (Name controller) (p0 :: ps)) eqn:Ed; [done|]. rewrite Ev, Eb. by rewrite Et.
Qed.

End attempts.

(** ** Retries *)

Lemma retryBaseDelay_bounds attemptIndex :
  0 ≤ attemptIndex < 60 → 10 ≤ retryBaseDelay attemptIndex ≤ 500.
Proof.
  intros Ha. unfold retryBaseDelay. destruct (Z.ltb_spec attemptIndex 64); [|lia].
  rewrite Z.shiftl_1_l. assert (1 ≤ 2 ^ attemptIndex ≤ 2 ^ 59).
  { split; [apply (Z.pow_le_mono_r 2 0); lia|apply Z.pow_le_mono_r; lia]. }
  rewrite (wrap64_id (2 ^ attemptIndex)) by (unfold in_int64, int64_min, int64_max; lia).
  rewrite wrap64_id by (unfold in_int64, int64_min, int64_max, reconcileRetryBaseDelayMs; lia).
  unfold reconcileRetryBaseDelayMs, reconcileRetryMaxDelayMs. destruct (Z.ltb_spec 500 (10 * 2 ^ attemptIndex)); lia.
Qed.

Lemma Intn_safe attemptIndex : 0 ≤ attemptIndex < 60 → Intn_ok (retryBaseDelay attemptIndex +! 1)%go = true.
Proof.
  intros Hb%retryBaseDelay_bounds. rewrite wrap64_id by (unfold in_int64, int64_min, int64_max; lia).
  apply Z.ltb_lt. lia.
Qed.

Section cycles.
Context {St : Type} `{!StateStore St} `{GoSort} {C : Type}.
Context (r : Runner) (controller : Controller C).

(** A controller whose reconciliation never panics. *)
Definition controller_total : Prop :=
  (∀ now facts c, is_Some (ReconcileFull controller now facts c)) ∧
  (∀ delta now facts evs c, ReconcileDelta controller = Some delta → is_Some (delta now facts evs c)).

Lemma compute_total now facts evs c :
  controller_total → is_Some (computeReconciliationChanges controller now facts evs c).
Proof.
  intros [Hfull Hdelta].
  assert (Hf : ∀ c, is_Some (fullReconcile controller now facts c)).
  { intros c0. unfold fullReconcile. destruct (Hfull now facts c0) as [[[?|?] ?] ->]; eauto. }
  unfold computeReconciliationChanges. destruct evs as [|ev evs]; [apply Hf|].
  destruct (ReconcileDelta controller) as [delta|] eqn:E; [|apply Hf].
  destruct (Hdelta delta now facts (ev :: evs) c eq_refl) as [[[] ?] ->]; eauto.
Qed.

Lemma attempt_total view now evs c :
  controller_total → (∀ i, usable (view i)) →
  is_Some (attemptSingleReconciliation r controller view now evs c).
Proof.
  intros Ht Hu. unfold attemptSingleReconciliation, scanFactsForController.
  destruct (scanLoop_ok (WatchPrefixes controller) view 0 Hu) as (scanned & -> & _).
  destruct (compute_total now (SortFacts scanned) evs c Ht) as [[[proposed|e] c1] ->]; [|eauto].
  destruct proposed as [|p0 ps]; [eauto|]. destruct (enforceWriteDomain _ _) as [|a0 allowed]; [eauto|].
  destruct (validateAndCapChanges _) as [capped|e] eqn:Ev; [|eauto].
  destruct (validateAndCap_sorted _ _ Ev) as (rest & _ & _ & Hlen & _).
  pose proof (build_fits r (Name controller) capped (SortFacts scanned) Hlen) as Hfit.
  destruct (buildReconciliationTransaction _ _ _ _) as [compares operations].
  destruct (transaction_exact (view (length (WatchPrefixes controller))) compares operations [] (Hu _)
    ltac:(cbn [length]; lia)) as (s' & -> & _). destruct (forallb _ _); eauto.
Qed.

Lemma attemptLoop_total world clock cancelled evs remaining index c :
  controller_total → (∀ i j, usable (world i j)) → (index + remaining ≤ 60)%nat →
  is_Some (attemptLoop r controller world clock cancelled evs remaining index c).
Proof.
  intros Ht Hu. revert index c. induction remaining as [|n IH]; intros index c Hn; cbn [attemptLoop]; [eauto|].
  destruct (attempt_total (world index) (clock index) (if (index =? 0)%nat then evs else []) c Ht (Hu index))
    as [[[[conflict|e] c'] os] ->]; [|eauto]. destruct conflict; [|eauto].
  rewrite Intn_safe by lia. simpl. destruct (cancelled index); [eauto|]. apply IH. lia.
Qed.

(** A reconciliation cycle always comes to an end without a panic, with a result:
    on an open store, for a controller that does not panic itself, and with at
    most 60 attempts configured. *)
Theorem cycle_never_panics world clock cancelled evs c :
  controller_total → (∀ i j, usable (world i j)) → maxReconciliationAttempts r ≤ 60 →
  ∃ result c', executeReconciliationCycle r controller world clock cancelled evs c = Some (result, c').
Proof.
  intros Ht Hu Hmax. destruct (attemptLoop_total world clock cancelled evs (Z.to_nat (maxReconciliationAttempts r)) 0 c Ht Hu)
    as [[result c'] E]; [lia|]. by exists result, c'.
Qed.

End cycles.
