(* ===== verification/SchedulerRunner.v ===== *)
(** * The scheduler under the runner

    The scheduler as one of the runner's controllers, on any store: its changes
    stay in its write domain and always pass validation, its placements are what
    its next cycle reads back. *)

From S2P Require Import Prelude GoStrings GoFmt Trie EventHistory MemoryStore StoreInvariant.
From S2P Require Import StoreProps StateStore PrefixSearch Keys Heap NodeHeap SchedulerFacts.
From S2P Require Import Placement PlacementProps Scheduler PreemptionProps RebalanceProps.
From S2P Require Import SchedulerProps SchedulerClaims Runner RunnerProps.

Local Open Scope Z_scope.

Definition schedulerController `{GoMapRange} `{GoSort} : Controller Scheduler := {|
  Name := "scheduler";
  WatchPrefixes := Scheduler.Watch;
  ReconcileFull now facts s :=
    match Reconcile now facts s with
    | Some (changes, s') => Some (inl changes, s')
    | None => None
    end;
  ReconcileDelta := None;
  ExecutePostCommitOperations := None
|}.

Lemma scheduler_prefixes_separate : separate_prefixes Scheduler.Watch.
Proof. repeat constructor. Qed.

Section scheduler.
Context `{GoMapRange} `{GoSort}.

(** ** The write domain *)

Lemma scheduler_domain facts d : enforceWriteDomain "scheduler" (changesOf facts d) = changesOf facts d.
Proof.
  assert (controllerOutputPrefixes !! "scheduler" =
    Some ["placement/"; "derived/scheduler/unplaced/"; "derived/instance/"]) as E by reflexivity.
  unfold enforceWriteDomain. rewrite E. apply filter_everything, Forall_forall. intros c Hc.
  unfold isKeyWithinWriteDomain. apply existsb_exists.
  destruct (changesOf_domain facts d (ChangeKey c)) as [?|[?|?]]; [by apply list_elem_of_fmap_2|..];
    eexists; (split; [|eassumption]); simpl; auto.
Qed.

(** ** Atomic groups are small *)

Lemma filter_bind_one {A} (f : A → list Change) (name : A → string) (n : nat) (g : string) l :
  NoDup (name <$> l) → (∀ x y, name x ≠ name y → ∀ c, c ∈ f x → Group c = g → ∀ c', c' ∈ f y → Group c' ≠ g) →
  (∀ x, (length (f x) ≤ n)%nat) → (length (filter (λ c, Group c = g) (l ≫= f)) ≤ n)%nat.
Proof.
  intros Hnd Hsep Hlen. induction l as [|x l IH]; [simpl; lia|]. rewrite fmap_cons in Hnd.
  apply NoDup_cons in Hnd as [Hx Hnd]. rewrite bind_cons, filter_app, length_app.
  destruct (filter (λ c, Group c = g) (f x)) as [|c0 cs] eqn:E; [by apply IH|].
  assert (Hc0 : Group c0 = g ∧ c0 ∈ f x) by (apply (list_elem_of_filter (λ c, Group c = g)); rewrite E; set_solver).
  assert (filter (λ c, Group c = g) (l ≫= f) = []) as ->.
  { apply filter_nothing, Forall_forall. intros c' (y & Hy & Hyl)%list_elem_of_bind. destruct Hc0 as [? ?].
    eapply (Hsep x y); try done. intros En. apply Hx. rewrite En. by apply list_elem_of_fmap_2. }
  rewrite <-E. simpl. rewrite Nat.add_0_r. etrans; [|apply (Hlen x)]. apply length_filter.
Qed.

Lemma placement_group p c : c ∈ placementChanges (fst p) (snd p) → Group c = "placement/" +:+ fst p.
Proof. unfold placementChanges. rewrite !elem_of_cons, elem_of_nil. by intros [->|[->|[]]]. Qed.

Lemma move_group m c :
  c ∈ buildRebalanceMoveChanges (moved m) (source_of m) (snd m) → Group c = "rebalance/" +:+ moved m.
Proof. unfold buildRebalanceMoveChanges. rewrite !elem_of_cons, elem_of_nil. by intros [->|[->|[->|[]]]]. Qed.

Lemma changesOf_group_size facts d g :
  decisions_ok facts d → g ≠ "" → (length (filter (λ c, Group c = g) (changesOf facts d)) ≤ 5)%nat.
Proof.
  intros Hok Hg. unfold changesOf. rewrite !filter_app, !length_app.
  assert (Hplace : (length (filter (λ c, Group c = g) (decisionChanges (placedBy d))) ≤ 2)%nat).
  { apply (filter_bind_one _ fst); [|
      |intros p; reflexivity].
    - eapply submseteq_nodup; [apply (ok_placed _ _ Hok)|apply findUnplaced_nodup].
    - intros p q Hne c Hc <- c' Hc'. rewrite (placement_group _ _ Hc), (placement_group _ _ Hc').
      intros E. apply (inj (String.app _)) in E. congruence. }
  assert (Hmove : (length (filter (λ c, Group c = g) (movesToChanges (movesOf d))) ≤ 3)%nat).
  { apply (filter_bind_one _ moved); [apply (ok_moves _ _ Hok)| |by intros [[i s] t]].
    intros [[i s] t] [[j s'] t'] Hne c Hc <- c' Hc'.
    rewrite (move_group (i, s, t) _ Hc), (move_group (j, s', t') _ Hc').
    intros E. apply (inj (String.app _)) in E. congruence. }
  assert (Hstop : filter (λ c, Group c = g) (stopChange <$> victimsOf d) = []).
  { apply filter_nothing, Forall_fmap, Forall_forall. intros v _ E. by apply Hg. }
  assert (Hemit : ∀ (l : list string) (f : string → list Change), (∀ i c, c ∈ f i → Group c = "") →
      filter (λ c, Group c = g) (l ≫= f) = []).
  { intros l f Hf. apply filter_nothing, Forall_forall. intros c (i & Hc & _)%list_elem_of_bind E.
    apply Hg. by rewrite <-E, (Hf i c Hc). }
  rewrite Hstop. unfold emitUnplacedDemandFacts, cleanupStaleUnplacedFacts. rewrite !Hemit; [simpl; lia|..].
  - intros i c. case_decide; [|set_solver]. rewrite !elem_of_cons, elem_of_nil. by intros [->|[->|[]]].
  - intros i c. case_decide; [set_solver|]. unfold buildUnplacedFactChanges.
    rewrite !elem_of_cons, elem_of_nil. by intros [->|[->|[]]].
Qed.

Context {St : Type} `{!StateStore St}.

Lemma scheduler_compute now facts s :
  ∃ d s', computeReconciliationChanges schedulerController now facts [] s = Some (inl (changesOf facts d), s') ∧
    decisions_ok facts d.
Proof.
  destruct (Reconcile_spec now facts s) as (d & E & Hok & _). exists d. eexists. split; [|exact Hok].
  unfold computeReconciliationChanges, fullReconcile. cbn [ReconcileDelta ReconcileFull schedulerController].
  by rewrite E.
Qed.

(** The scheduler never makes the runner fail: on an open store, whatever it holds
    and whoever writes to it meanwhile, a scheduling attempt is accepted whole by
    the write-domain check and by validation, and ends with a commit or a
    conflict, never with an error or a panic. *)
Theorem scheduler_attempt_never_fails r (view : nat → St) now s :
  (∀ i, usable (view i)) →
  ∃ conflict s' committed,
    attemptSingleReconciliation r schedulerController view now [] s = Some (inl conflict, s', committed).
Proof.
  intros Hu. unfold attemptSingleReconciliation, scanFactsForController.
  destruct (scanLoop_ok (WatchPrefixes schedulerController) view 0 Hu) as (scanned & -> & _).
  destruct (scheduler_compute now (SortFacts scanned) s) as (d & s' & -> & Hok).
  change (Name schedulerController) with "scheduler". rewrite scheduler_domain.
  destruct (validateAndCap_succeeds (changesOf (SortFacts scanned) d)) as [capped Ev].
  { by apply changesOf_nodup. }
  { intros g Hg. pose proof (changesOf_group_size _ _ g Hok Hg). unfold maxTransactionChanges. lia. }
  destruct (changesOf (SortFacts scanned) d) as [|c0 cs]; [by do 3 eexists|]. rewrite Ev.
  destruct (validateAndCap_sorted _ _ Ev) as (rest & _ & _ & Hlen & _).
  pose proof (build_fits r "scheduler" capped (SortFacts scanned) Hlen) as Hfit.
  destruct (buildReconciliationTransaction _ _ _ _) as [compares operations].
  destruct (transaction_exact (view (length (WatchPrefixes schedulerController))) compares operations [] (Hu _)
    ltac:(cbn [length]; lia)) as (st' & -> & _). destruct (forallb _ _); by do 3 eexists.
Qed.

(** ** Placements are read back *)

Lemma extractPlacements_lookup facts i n :
  sorted_by keyLessb facts → (∀ f g, f ∈ facts → g ∈ facts → Key f = Key g → f = g) →
  i ≠ "" → ContainsByte i slash = false →
  (∃ f, f ∈ facts ∧ Key f = KeyPlacementInstance i ∧ Value f = n) →
  extractPlacementsFromFacts facts !! i = Some n.
Proof.
  intros Hs Huniq Hi Hseg (f & Hf & Hk & Hv). unfold extractPlacementsFromFacts.
  rewrite FactsWithPrefix_filter by done. set (l := filter _ facts).
  assert (Hl : ∀ g, g ∈ l → Key g = KeyPlacementInstance i → g = f).
  { intros g [_ Hg]%list_elem_of_filter Hgk. apply Huniq; [done|done|congruence]. }
  assert (Hfl : f ∈ l).
  { apply list_elem_of_filter. split; [|done]. rewrite Hk. apply TrimPrefix_KeyPlacementInstance. }
  assert (Hpre : ∀ g, g ∈ l → HasPrefix (Key g) ScanPlacements = true) by (by intros g [? _]%list_elem_of_filter).
  clearbody l. revert Hl Hfl Hpre. induction l as [|g l IH] using rev_ind; [set_solver|]. intros Hl Hfl Hpre.
  rewrite foldl_app. cbn [foldl]. set (m := foldl _ ∅ l). set (p := TrimPrefix (Key g) ScanPlacements).
  assert (Hgk : Key g = ScanPlacements +:+ p).
  { destruct (proj1 (HasPrefix_spec _ _) (Hpre g ltac:(set_solver))) as [q Hq]. unfold p. by rewrite Hq, TrimPrefix_app. }
  destruct (decide (p = i)) as [E|Hne].
  - assert (g = f) as ->.
    { apply Hl; [set_solver|]. rewrite Hgk, E. unfold KeyPlacementInstance, ScanPlacements. by rewrite str_app_assoc. }
    rewrite E, bool_decide_eq_false_2, Hseg by done. simpl. by rewrite lookup_insert_eq, Hv.
  - assert (Hm : m !! i = Some n).
    { apply IH; [set_solver| |set_solver]. apply elem_of_app in Hfl as [?| ->%list_elem_of_singleton]; [done|].
      destruct Hne. unfold p. rewrite Hk. apply TrimPrefix_KeyPlacementInstance. }
    destruct (_ && _); [|done]. by rewrite lookup_insert_ne.
Qed.

(** What a scan of the store gives the scheduler of its placements. *)
Lemma scanned_placement (s : St) scanned i n :
  usable s → scanFactsForController schedulerController (λ _, s) = Some (inl scanned) →
  i ≠ "" → ContainsByte i slash = false → (Value <$> content s) !! KeyPlacementInstance i = Some n →
  extractPlacementsFromFacts (SortFacts scanned) !! i = Some n.
Proof.
  intros Hu Es Hi Hseg Hv. rewrite lookup_fmap in Hv.
  destruct (content s !! KeyPlacementInstance i) as [f|] eqn:Ef; [|done]. simpl in Hv. simplify_eq.
  destruct (scanLoop_ok (WatchPrefixes schedulerController) (λ _, s) 0 (λ _, Hu)) as (l & El & _ & Hall).
  unfold scanFactsForController in Es. rewrite Es in El. simplify_eq.
  assert (Hperm : SortFacts l ≡ₚ l) by apply sort_slice_perm.
  apply extractPlacements_lookup; [apply sort_slice_sorted, _| |done|done|].
  - intros f1 f2 H1 H2. rewrite Hperm in H1, H2.
    exact (scanLoop_unique _ _ _ _ _ _ (λ _, Hu) scheduler_prefixes_separate Es H1 H2).
  - exists f. split_and!; [|by eapply content_key|done]. rewrite Hperm.
    apply (Hall 0%nat ScanPlacements (KeyPlacementInstance i)); [done|done|apply TrimPrefix_KeyPlacementInstance|].
    unfold KeyPlacementInstance. discriminate.
Qed.

(** C9: Committed decisions stick: after a scheduling attempt that commits, every
    instance a committed change places is read back by the next scan at that
    node, and no longer counts as unplaced. *)
Theorem committed_placements_are_seen r (view : nat → St) now s s' st' :
  (∀ i, usable (view i)) → (∀ i, evolves (view i) (view (S i))) →
  attemptSingleReconciliation r schedulerController view now [] s = Some (inl false, s', Some st') →
  ∃ changes, changes ≠ [] ∧
    Value <$> content st' = apply_ops (changeOp <$> changes) (Value <$> content (commitView schedulerController view)) ∧
    ∀ i n scanned, decides changes i n → i ≠ "" →
      scanFactsForController schedulerController (λ _, st') = Some (inl scanned) →
      placesOf (SortFacts scanned) !! i = Some n ∧ (n ≠ "" → i ∉ unplacedOf (SortFacts scanned)).
Proof.
  intros Hu Hev Hatt.
  destruct (attempt_commit_inv _ _ _ _ _ _ _ _ Hatt) as (scanned & proposed & c1 & capped & Es & Ec & Ev & Ht).
  destruct (scheduler_compute now (SortFacts scanned) s) as (d & s1 & Ec' & Hok). rewrite Ec in Ec'. simplify_eq.
  change (Name schedulerController) with "scheduler" in Ev, Ht. rewrite scheduler_domain in Ev.
  destruct (validateAndCap_sorted _ _ Ev) as (rest & Esort & _ & Hlen & Hne & _).
  assert (Hsub : capped ⊆+ changesOf (SortFacts scanned) d).
  { rewrite <-(sort_stable_perm changeLess (changesOf _ d)). unfold sortChangesByGroupAndKey in Esort. rewrite Esort.
    by apply submseteq_inserts_r. }
  pose proof (build_fits r "scheduler" capped (SortFacts scanned) Hlen) as Hfit.
  destruct (build_guards r "scheduler" capped (SortFacts scanned)) as (more & Eb & _).
  rewrite Eb in Ht, Hfit. cbv beta iota in Ht, Hfit.
  destruct (transaction_exact (commitView schedulerController view)
    (omap (changeGuard (scannedRevisions (SortFacts scanned))) capped ++ more) (changeOp <$> capped) [] (Hu _)
    ltac:(cbn [length]; lia)) as (s2 & Et & Hu' & _ & Hval).
  rewrite Ht in Et. injection Et as Emet ->. rewrite <-Emet in Hval. exists capped. split_and!; [|done|].
  { apply Hne. intros E. unfold attemptSingleReconciliation in Hatt. rewrite Es, Ec, E in Hatt. done. }
  intros i n scanned' (c & Hc & Htype & Hk & Hv) Hi Es'.
  assert (Hseen : extractPlacementsFromFacts (SortFacts scanned') !! i = Some n).
  { apply (scanned_placement s2); [done|done|done| |].
    - assert (decides (changesOf (SortFacts scanned) d) i n) as Hdec.
      { exists c. split_and!; try done. by eapply submseteq_elem. }
      apply changesOf_placement in Hdec as [Hp|[src Hm]].
      + destruct (placed_pending _ _ _ Hok Hp) as (info & Hinfo & _). by eapply instsOf_segment.
      + destruct (moved_running _ _ _ Hok Hm) as (_ & info & Hinfo & _). by eapply instsOf_segment.
    - rewrite Hval. apply apply_ops_put.
      + rewrite <-list_fmap_compose. eapply submseteq_nodup; [|by apply (changesOf_nodup (SortFacts scanned) d)].
        by apply (fmap_submseteq ChangeKey).
      + apply list_elem_of_fmap. exists c. split; [|done]. unfold changeOp. congruence. }
  split; [done|]. intros Hn Hin. apply findUnplaced_spec in Hin as (_ & _ & _ & E). unfold placesOf in E.
  rewrite Hseen in E. done.
Qed.

End scheduler.
