(* ===== verification/RunnerExamples.v ===== *)
(** * Runs of the scheduler on the in-memory store

    Witnesses for the runner's theorems, and two runs in which the loop of scan
    and commit does not do what it is meant to. *)

From S2P Require Import Prelude GoStrings GoFmt Trie EventHistory MemoryStore StoreInvariant.
From S2P Require Import StoreProps StateStore PrefixSearch Keys Heap NodeHeap SchedulerFacts.
From S2P Require Import Placement PlacementProps Scheduler PreemptionProps RebalanceProps.
From S2P Require Import SchedulerProps SchedulerClaims Runner RunnerProps SchedulerRunner.
Import MemStore.

Local Open Scope Z_scope.

Definition theScheduler : Controller Scheduler :=
  schedulerController (H := reference_range) (H0 := reference_sort).

(** A store with some facts. *)
Definition storeWith (kvs : list (string * string)) : MemoryStore :=
  default NewMemoryStore (exec_all ((λ kv, DoPut (fst kv) (snd kv)) <$> kvs) NewMemoryStore).

(** One undisturbed attempt: whether it met a conflict, and the store after it. *)
Definition attemptOn (st : MemoryStore) : option (bool * MemoryStore) :=
  match attemptSingleReconciliation (H := reference_sort) NewRunner theScheduler (λ _, st) 0 [] (mkScheduler None 0) with
  | Some (inl conflict, _, Some st') => Some (conflict, st')
  | Some (inl conflict, _, None) => Some (conflict, st)
  | _ => None
  end.

(** ** Preemption can block the scheduler *)

(** One node that is full with a low-priority instance, and a pending instance of
    a more important service. *)
Definition preemptStore : MemoryStore := storeWith [
  ("desired/service/hi/priority", "10"); ("desired/service/hi/resources/cpu", "100");
  ("desired/service/lo/priority", "1"); ("desired/service/lo/resources/cpu", "100");
  ("observed/instance/h1/service", "hi"); ("observed/instance/h1/state", "pending");
  ("observed/instance/l1/service", "lo"); ("observed/instance/l1/state", "running");
  ("observed/node/a/available/cpu", "100"); ("observed/node/a/state", "alive");
  ("placement/instance/l1", "a"); ("placement/node/a/l1", "")].

(** After the attempt that preempts [l1], before its node has stopped it, a small
    instance arrives. *)
Definition afterPreemption : MemoryStore := match attemptOn preemptStore with Some (_, st) => st | None => preemptStore end.

Definition blockedStore : MemoryStore :=
  default NewMemoryStore (exec_all [DoPut "observed/instance/z1/service" "tiny";
                                    DoPut "observed/instance/z1/state" "pending"] afterPreemption).

(** The first attempt preempts. The next one, although nobody else writes, meets a
    conflict, and so does every other until [l1] has stopped: it proposes to stop
    [l1] again, and guards that key with the requirement that it be absent, since
    the scheduler does not scan [derived/instance/]. The cycle is abandoned, and
    [z1], which fits, is not placed. *)
Theorem preemption_blocks_scheduler :
  fst <$> attemptOn preemptStore = Some false ∧
  values blockedStore !! KeyDerivedInstanceControllerStopped "l1" = Some "true" ∧
  (λ r, (fst r, bool_decide (values (snd r) = values blockedStore))) <$> attemptOn blockedStore = Some (true, true) ∧
  fst <$> executeReconciliationCycle (H := reference_sort) NewRunner theScheduler (λ _ _, blockedStore) (λ _, 0)
            (λ _, false) [] (mkScheduler None 0) = Some CycleAbandoned ∧
  values blockedStore !! KeyPlacementInstance "z1" = None ∧
  match scanFactsForController theScheduler (λ _, blockedStore) with
  | Some (inl scanned) => bool_decide ("z1" ∈ unplacedOf (H := reference_range) (SortFacts (H := reference_sort) scanned))
  | _ => false
  end = true.
Proof. repeat (split; [vm_compute; reflexivity|]). vm_compute. reflexivity. Qed.

(** ** Backoff overflows *)

(** With more than 60 attempts configured, a cycle that keeps meeting conflicts
    panics: the base delay [10 * (1 << 60)] overflows to a negative number, and
    [rand.Intn] rejects it. *)
Theorem retry_backoff_overflow_panics :
  retryBaseDelay 60 < 0 ∧
  executeReconciliationCycle (H := reference_sort) (SetMaxReconciliationAttempts 61 NewRunner) theScheduler
    (λ _ _, blockedStore) (λ _, 0) (λ _, false) [] (mkScheduler None 0) = None.
Proof. split; vm_compute; reflexivity. Qed.

(** ** Witnesses *)

Definition commits {C St} (o : option ((bool + RunnerError) * C * option St)) : bool :=
  match o with Some (inl false, _, Some _) => true | _ => false end.

Lemma commits_inv {C St} (o : option ((bool + RunnerError) * C * option St)) :
  commits o = true → ∃ c s, o = Some (inl false, c, Some s).
Proof. destruct o as [[[[[]|] c] [s|]]|]; try done. eauto. Qed.

Definition sampleFacts : list (string * string) := [
  ("desired/service/web/resources/cpu", "100");
  ("observed/instance/p1/service", "web"); ("observed/instance/p1/state", "pending");
  ("observed/node/a/available/cpu", "1000"); ("observed/node/a/state", "alive")].

(** Between the third and the fourth call of the attempt another client writes. *)
Definition quietStore : MemoryStore := storeWith sampleFacts.
Definition busyStore : MemoryStore := storeWith (sampleFacts ++ [("observed/instance/q/state", "running")]).
Definition sampleView (i : nat) : MemoryStore := if (i <? 3)%nat then quietStore else busyStore.

Lemma storeWith_inv kvs : store_inv (storeWith kvs).
Proof.
  unfold storeWith. destruct (exec_all_ok ((λ kv, DoPut (fst kv) (snd kv)) <$> kvs) _ (NewMemoryStore_inv 256))
    as (s & E & Hs & _). change (SetWatchChannelBufferSize 256 NewMemoryStore) with NewMemoryStore in E. by rewrite E.
Qed.

Lemma sampleView_usable i : usable (sampleView i).
Proof. unfold sampleView. destruct (_ <? _)%nat; (split; [apply storeWith_inv|reflexivity]). Qed.

Lemma sampleView_evolves i : evolves (sampleView i) (sampleView (S i)).
Proof.
  assert (evolves quietStore busyStore) as Hw.
  { exists [DoPut "observed/instance/q/state" "running"]. unfold busyStore, quietStore, storeWith.
    rewrite fmap_app, exec_all_app.
    destruct (exec_all_ok ((λ kv, DoPut (fst kv) (snd kv)) <$> sampleFacts) _ (NewMemoryStore_inv 256)) as (s & E & Hs & _).
    change (SetWatchChannelBufferSize 256 NewMemoryStore) with NewMemoryStore in E. rewrite E. cbn [default mbind option_bind].
    change ((λ kv, DoPut (fst kv) (snd kv)) <$> [("observed/instance/q/state", "running")])
      with [DoPut "observed/instance/q/state" "running"].
    destruct (exec_all_ok [DoPut "observed/instance/q/state" "running"] s Hs) as (s1 & E1 & _). by rewrite E1. }
  unfold sampleView. destruct (Nat.ltb_spec i 3), (Nat.ltb_spec (S i) 3); try done; try lia; apply evolves_refl.
Qed.

Definition sampleAttempt := attemptSingleReconciliation (H := reference_sort) NewRunner theScheduler sampleView 0 []
                              (mkScheduler None 0).

Lemma sampleAttempt_commits : commits sampleAttempt = true.
Proof. vm_compute. reflexivity. Qed.


Lemma committed_placements_are_seen_witness :
  ∃ s' st' changes, sampleAttempt = Some (inl false, s', Some st') ∧ changes ≠ [] ∧
    Value <$> content st' = apply_ops (changeOp <$> changes) (Value <$> content busyStore) ∧
    ∀ i n scanned, decides changes i n → i ≠ "" →
      scanFactsForController theScheduler (λ _, st') = Some (inl scanned) →
      placesOf (SortFacts (H := reference_sort) scanned) !! i = Some n ∧
      (n ≠ "" → i ∉ unplacedOf (H := reference_range) (SortFacts (H := reference_sort) scanned)).
Proof.
  destruct (commits_inv _ sampleAttempt_commits) as (c' & s' & E). exists c', s'.
  destruct (committed_placements_are_seen (H := reference_range) (H0 := reference_sort) NewRunner sampleView 0
    (mkScheduler None 0) c' s' sampleView_usable sampleView_evolves E) as (changes & H1 & H2 & H3).
  exists changes. exact (conj E (conj H1 (conj H2 H3))).
Defined.

Lemma scheduler_attempt_never_fails_witness :
  ∃ conflict s' committed, sampleAttempt = Some (inl conflict, s', committed).
Proof.
  exact (scheduler_attempt_never_fails (H := reference_range) (H0 := reference_sort) NewRunner sampleView 0
    (mkScheduler None 0) sampleView_usable).
Defined.

Lemma scheduler_total : controller_total theScheduler.
Proof.
  split; [|done]. intros now facts s. simpl.
  destruct (Reconcile_spec (H := reference_range) (H0 := reference_sort) now facts s) as (d & -> & _). by eexists.
Qed.

Lemma cycle_never_panics_witness :
  ∃ result c', executeReconciliationCycle (H := reference_sort) NewRunner theScheduler (λ _, sampleView) (λ _, 0)
    (λ _, false) [] (mkScheduler None 0) = Some (result, c').
Proof.
  apply (cycle_never_panics (H := reference_sort) NewRunner theScheduler (λ _, sampleView) (λ _, 0)
    (λ _, false) [] (mkScheduler None 0) scheduler_total (λ _, sampleView_usable)). discriminate.
Defined.

Definition sampleChanges : list Change :=
  [mkChange OpPut "b" "2" "g"; mkChange OpDelete "a" "" "g"; mkChange OpPut "c" "3" ""].

(** 59 ungrouped changes and a group of two: the group does not fit. *)
Definition manyChanges : list Change :=
  mkChange OpPut "b" "2" "g" :: mkChange OpDelete "a" "" "g" ::
  ((λ n : nat, mkChange OpPut ("key" +:+ String (ascii_of_nat (65 + n)) "") "v" "") <$> seq 0 59).

Lemma validateAndCapChanges_atomic_witness :
  ∃ capped, validateAndCapChanges manyChanges = inl capped ∧ length capped = 59%nat ∧
    NoDup (ChangeKey <$> manyChanges) ∧
    ∃ deferred, capped ++ deferred ≡ₚ manyChanges ∧
      (deferred = [] ∨ ∃ c, c ∈ deferred ∧ 60 < Z.of_nat (length capped) + groupSizeIn c deferred).
Proof.
  assert (∃ capped, validateAndCapChanges manyChanges = inl capped ∧ length capped = 59%nat) as (capped & E & Hlen)
    by (eexists; split; vm_compute; reflexivity).
  exists capped. split; [exact E|]. split; [exact Hlen|].
  destruct (validateAndCapChanges_atomic manyChanges capped E) as (_ & Hnd & _ & _ & Hmax); [|by split].
  apply Forall_forall. apply (bool_decide_unpack (Forall _ _)). vm_compute. exact I.
Defined.

Lemma transaction_fits_limit_witness :
  let '(compares, operations) := buildReconciliationTransaction NewRunner "scheduler" sampleChanges
    [mkFact "a" "1" 1 1 0; mkFact "placement/instance/i" "n" 2 2 0] in
  (length compares + length operations ≤ 128)%nat.
Proof.
  apply (transaction_fits_limit NewRunner "scheduler" sampleChanges
    [mkFact "a" "1" 1 1 0; mkFact "placement/instance/i" "n" 2 2 0]). discriminate.
Defined.

(** What the scheduler proposes on [quietStore]. *)
Definition quietScan : list Fact :=
  match scanFactsForController theScheduler (λ _, quietStore) with Some (inl scanned) => scanned | _ => [] end.
Definition quietProposal : list Change :=
  match computeReconciliationChanges theScheduler 0 (SortFacts (H := reference_sort) quietScan) [] (mkScheduler None 0) with
  | Some (inl proposed, _) => proposed
  | _ => []
  end.

Lemma undisturbed_attempt_commits_witness :
  ∃ c1 capped s', attemptSingleReconciliation (H := reference_sort) NewRunner theScheduler (λ _, quietStore) 0 []
      (mkScheduler None 0) = Some (inl false, executePendingPostCommitOperations theScheduler c1, Some s') ∧
    Value <$> content s' = apply_ops (changeOp <$> capped) (Value <$> content quietStore).
Proof.
  exists (mkScheduler None 0), (sortChangesByGroupAndKey quietProposal).
  apply (undisturbed_attempt_commits (H := reference_sort) NewRunner theScheduler quietStore 0 [] (mkScheduler None 0)
    quietScan quietProposal); try (vm_compute; reflexivity).
  - split; [apply storeWith_inv|reflexivity].
  - vm_compute. discriminate.
  - intros ch Hch _ _. revert ch Hch. apply Forall_forall.
    apply (bool_decide_unpack _). vm_compute. exact I.
Defined.
