(* ===== verification/TopologicalSort.v ===== *)
(** * The execution order of the controllers, and its properties (src/controllers/topological_sort.go) *)

From S2P Require Import Prelude GoStrings Trie EventHistory MemoryStore StoreInvariant StoreProps StateStore PrefixSearch Keys Heap NodeHeap.
From S2P Require Import SchedulerFacts Placement Runner.

Local Open Scope Z_scope.

(** * The execution order of the controllers (src/controllers/topological_sort.go)

    [topologicalSort] is Kahn's algorithm over a dependency map; the graph comes
    from the prefixes controllers watch and write. The loop over the map visits
    it in the runtime's order, so the order of independent controllers is the
    runtime's choice; the theorems hold for every choice.

    The loop takes one controller off its queue per step and puts each in at most
    once, so the number of controllers is enough fuel. *)

Record topologicalSortResult := mkSortResult {
  sortedControllers : list string;
  cyclicControllers : list string
}.

Section kahn.
Context `{GoMapRange}.

(** ** The algorithm *)

Definition addEdge (dependent : string) (graph : gmap string Z * gmap string (list string)) (dependency : string) : gmap string Z * gmap string (list string) :=
  let '(incomingDegree, outgoingEdges) := graph in
  if decide (incomingDegree !! dependency = None) then graph
  else if decide (incomingDegree !! dependent = None) then graph
  else (<[dependent := default 0 (incomingDegree !! dependent) + 1]> incomingDegree,
        <[dependency := default [] (outgoingEdges !! dependency) ++ [dependent]]> outgoingEdges).

Definition buildGraph (controllerNames : list string) (dependencyEdges : gmap string (list string))
    : gmap string Z * gmap string (list string) :=
  foldl (λ graph '(dependent, dependencies), foldl (addEdge dependent) graph dependencies)
        (foldl (λ m n, <[n := 0]> m) ∅ controllerNames, ∅)
        (map_range dependencyEdges).

(** The loop over the dependents of the controller just taken. *)
Fixpoint releaseDependents (dependents : list string) (incomingDegree : gmap string Z) (processingQueue : list string)
    : gmap string Z * list string :=
  match dependents with
  | [] => (incomingDegree, processingQueue)
  | dependent :: rest =>
      let degree := default 0 (incomingDegree !! dependent) - 1 in
      releaseDependents rest (<[dependent := degree]> incomingDegree)
        (if degree =? 0 then processingQueue ++ [dependent] else processingQueue)
  end.

Fixpoint kahnLoop (fuel : nat) (outgoingEdges : gmap string (list string)) (incomingDegree : gmap string Z)
    (processingQueue sortedResult : list string) : list string :=
  match fuel, processingQueue with
  | S fuel', currentController :: processingQueue' =>
      let '(incomingDegree', queue) :=
        releaseDependents (default [] (outgoingEdges !! currentController)) incomingDegree processingQueue' in
      kahnLoop fuel' outgoingEdges incomingDegree' queue (sortedResult ++ [currentController])
  | _, _ => sortedResult
  end.

Definition topologicalSort (controllerNames : list string) (dependencyEdges : gmap string (list string))
    : topologicalSortResult :=
  let '(incomingDegree, outgoingEdges) := buildGraph controllerNames dependencyEdges in
  let processingQueue := filter (λ n, default 0 (incomingDegree !! n) = 0) controllerNames in
  let sortedResult := kahnLoop (length controllerNames) outgoingEdges incomingDegree processingQueue [] in
  let cyclicNodes :=
    if (length sortedResult <? length controllerNames)%nat then
      filter (λ n, n ∉ (list_to_set sortedResult : gset string)) controllerNames
    else [] in
  mkSortResult sortedResult cyclicNodes.

End kahn.

(** ** The dependency graph of controllers *)

(** [prefixB[:len(prefixA)] == prefixA], both slices in range. *)
Definition prefixOverlaps (prefixA prefixB : string) : bool :=
  if (String.length prefixA <=? String.length prefixB)%nat
  then bool_decide (String.substring 0 (String.length prefixA) prefixB = prefixA)
  else bool_decide (String.substring 0 (String.length prefixB) prefixA = prefixB).

Definition hasOverlappingPrefix (watchedPrefixes outputPrefixes : list string) : bool :=
  existsb (λ watched, existsb (prefixOverlaps watched) outputPrefixes) watchedPrefixes.

Section controllers.
Context `{GoMapRange} {C : Type}.

Definition addProducer (consumer : Controller C) (dependencyGraph : gmap string (list string))
    (producer : Controller C) : gmap string (list string) :=
  if decide (Name producer = Name consumer) then dependencyGraph
  else if hasOverlappingPrefix (WatchPrefixes consumer) (default [] (controllerOutputPrefixes !! Name producer))
  then <[Name consumer := default [] (dependencyGraph !! Name consumer) ++ [Name producer]]> dependencyGraph
  else dependencyGraph.

Definition buildControllerDependencyGraph (controllers : list (Controller C)) : gmap string (list string) :=
  foldl (λ dependencyGraph consumer, foldl (addProducer consumer) dependencyGraph controllers) ∅ controllers.

(** [controllerByName[name]] is never missing here; a missing one would be a nil
    interface value, the [None] of the result list. *)
Definition SortControllersByDependency (controllers : list (Controller C))
    : list (option (Controller C)) * list string :=
  let controllerNames := Name <$> controllers in
  let controllerByName := foldl (λ m c, <[Name c := c]> m) (∅ : gmap string (Controller C)) controllers in
  let sortResult := topologicalSort controllerNames (buildControllerDependencyGraph controllers) in
  ((λ name, controllerByName !! name) <$> sortedControllers sortResult, cyclicControllers sortResult).

End controllers.

(** * Properties of the execution order

    The graph the algorithm builds is summarised by the list of its edges, and
    the loop by the edges whose producer is not sorted yet: a degree counts them,
    and a controller is sorted or queued exactly when none leads to it. *)

(** [d] needs [p] to run before it, both among the controllers to sort. *)
Definition depends (names : list string) (edges : gmap string (list string)) (d p : string) : Prop :=
  d ∈ names ∧ p ∈ names ∧ ∃ ps, edges !! d = Some ps ∧ p ∈ ps.

(** ** Counting *)

Definition occurrences (x : string) (l : list string) : Z := Z.of_nat (length (filter (eq x) l)).

Lemma occurrences_nil x : occurrences x [] = 0.
Proof. done. Qed.

Lemma occurrences_cons x y l : occurrences x (y :: l) = (if decide (x = y) then 1 else 0) + occurrences x l.
Proof. unfold occurrences. rewrite filter_cons. case_decide; simpl; lia. Qed.

Lemma occurrences_app x l1 l2 : occurrences x (l1 ++ l2) = occurrences x l1 + occurrences x l2.
Proof. unfold occurrences. rewrite filter_app, length_app. lia. Qed.

Lemma occurrences_zero x l : occurrences x l = 0 ↔ x ∉ l.
Proof.
  induction l as [|y l IH]; [split; [set_solver|done]|]. rewrite occurrences_cons, not_elem_of_cons, <-IH.
  pose proof (Zle_0_nat (length (filter (eq x) l))). unfold occurrences in *. case_decide; naive_solver lia.
Qed.

#[export] Instance occurrences_perm x : Proper ((≡ₚ) ==> eq) (occurrences x).
Proof. intros l1 l2 E. unfold occurrences. by rewrite E. Qed.

(** The degrees of [names] count their occurrences in [targets]. *)
Definition counts (names : list string) (m : gmap string Z) (targets : list string) : Prop :=
  ∀ x, x ∈ names → m !! x = Some (occurrences x targets).

(** ** Building the graph *)

(** The edges, a producer first, that [buildGraph] has accepted. *)
Definition graph_of (names : list string) (graph : gmap string Z * gmap string (list string)) (E : list (string * string)) : Prop :=
  counts names (fst graph) (snd <$> E) ∧ (∀ x, is_Some (fst graph !! x) → x ∈ names) ∧
  (∀ p, default [] (snd graph !! p) = snd <$> filter (λ e, fst e = p) E).

Lemma addEdge_graph names graph E d p :
  graph_of names graph E →
  graph_of names (addEdge d graph p) (if decide (p ∈ names ∧ d ∈ names) then E ++ [(p, d)] else E).
Proof.
  destruct graph as [deg out]. intros (Hc & Hdom & Ho). unfold addEdge; simpl in *.
  assert (Hiff : ∀ x, x ∉ names ↔ deg !! x = None).
  { intros x. rewrite eq_None_not_Some. split; [naive_solver|]. intros Hx Hin. apply Hx. rewrite (Hc x Hin). by eexists. }
  destruct (decide (deg !! p = None)) as [Hp|Hp]; [rewrite decide_False by (rewrite <-Hiff in Hp; tauto); done|].
  destruct (decide (deg !! d = None)) as [Hd|Hd]; [rewrite decide_False by (rewrite <-Hiff in Hd; tauto); done|].
  apply not_eq_None_Some in Hp, Hd. rewrite decide_True by auto. unfold graph_of. rewrite fmap_app. split_and!; simpl.
  - intros x Hx. rewrite occurrences_app. simpl. rewrite occurrences_cons, occurrences_nil.
    destruct (decide (x = d)) as [->|Hne].
    + rewrite lookup_insert_eq, (Hc d Hx). simpl. f_equal; lia.
    + rewrite lookup_insert_ne, (Hc x Hx) by done. f_equal. lia.
  - intros x. rewrite lookup_insert_is_Some. naive_solver.
  - intros q. rewrite filter_app, fmap_app, filter_cons, <-Ho. simpl. destruct (decide (p = q)) as [->|Hne].
    + by rewrite lookup_insert_eq.
    + by rewrite lookup_insert_ne, app_nil_r.
Qed.

Lemma addEdges_graph names ps graph E d :
  graph_of names graph E →
  ∃ E', graph_of names (foldl (addEdge d) graph ps) (E ++ E') ∧
    ∀ e, e ∈ E' ↔ snd e = d ∧ d ∈ names ∧ fst e ∈ names ∧ fst e ∈ ps.
Proof.
  revert graph E. induction ps as [|p ps IH]; intros graph E Hg; simpl.
  { exists []. rewrite app_nil_r. split; [done|set_solver]. }
  apply (addEdge_graph _ _ _ d p) in Hg. case_decide as Hin.
  - destruct (IH _ _ Hg) as (E' & Hg' & HE). exists ((p, d) :: E'). rewrite <-app_assoc in Hg'. split; [done|].
    intros [a b]. rewrite elem_of_cons, HE, elem_of_cons. simpl. naive_solver.
  - destruct (IH _ _ Hg) as (E' & Hg' & HE). exists E'. split; [done|]. intros [a b]. rewrite HE, elem_of_cons. simpl. naive_solver.
Qed.

Section kahn.
Context `{GoMapRange} (names : list string) (edges : gmap string (list string)).

Lemma map_range_lookup k ps : (k, ps) ∈ map_range edges ↔ edges !! k = Some ps.
Proof. by rewrite map_range_perm, elem_of_map_to_list. Qed.

Lemma initial_degrees : graph_of names (foldl (λ m n, <[n := 0]> m) ∅ names, ∅) [].
Proof.
  assert (Hl : ∀ l m x, foldl (λ (m : gmap string Z) n, <[n := 0]> m) m l !! x = if decide (x ∈ l) then Some 0 else m !! x).
  { induction l as [|y l IH]; intros m x; [by rewrite decide_False by set_solver|].
    cbn [foldl]. rewrite IH.
    destruct (decide (x ∈ l)); [by rewrite decide_True by set_solver|].
    destruct (decide (x = y)) as [->|]; [by rewrite lookup_insert_eq, decide_True by set_solver|].
    by rewrite lookup_insert_ne, decide_False by set_solver. }
  split_and!; simpl.
  - intros x Hx. by rewrite Hl, decide_True.
  - intros x. rewrite Hl, lookup_empty. case_decide; [done|]. by intros [].
  - done.
Qed.

Lemma buildGraph_graph :
  ∃ E, graph_of names (buildGraph names edges) E ∧ ∀ p d, (p, d) ∈ E ↔ depends names edges d p.
Proof.
  assert (Hl : ∀ l graph E0, graph_of names graph E0 →
    ∃ E, graph_of names (foldl (λ g '(d, ps), foldl (addEdge d) g ps) graph l) (E0 ++ E) ∧
      ∀ p d, (p, d) ∈ E ↔ d ∈ names ∧ p ∈ names ∧ ∃ ps, (d, ps) ∈ l ∧ p ∈ ps).
  { induction l as [|[d ps] l IH]; intros graph E0 Hg; simpl.
    { exists []. rewrite app_nil_r. split; [done|set_solver]. }
    destruct (addEdges_graph _ ps _ _ d Hg) as (E1 & Hg1 & HE1). destruct (IH _ _ Hg1) as (E2 & Hg2 & HE2).
    exists (E1 ++ E2). rewrite app_assoc. split; [done|]. intros a b. rewrite elem_of_app, HE1, HE2. simpl.
    setoid_rewrite elem_of_cons. naive_solver. }
  destruct (Hl (map_range edges) _ _ initial_degrees) as (E & Hg & HE). exists E. split; [done|].
  intros p d. rewrite HE. unfold depends. by setoid_rewrite map_range_lookup.
Qed.

(** ** The loop *)

Lemma releaseDependents_spec ds rest deg queue :
  Forall (.∈ names) ds → counts names deg (ds ++ rest) →
  ∃ deg' new, releaseDependents ds deg queue = (deg', queue ++ new) ∧ counts names deg' rest ∧
    NoDup new ∧ ∀ x, x ∈ new ↔ x ∈ ds ∧ x ∉ rest.
Proof.
  revert deg queue. induction ds as [|d ds IH]; intros deg queue Hds Hc; simpl.
  { exists deg, []. rewrite app_nil_r. split_and!; [done|done|constructor|set_solver]. }
  apply Forall_cons in Hds as [Hd Hds]. pose proof (Hc d Hd) as Ed. rewrite Ed. simpl in *.
  rewrite occurrences_cons, decide_True by done. set (deg1 := <[_ := _]> deg).
  assert (Hc1 : counts names deg1 (ds ++ rest)).
  { intros x Hx. unfold deg1. destruct (decide (x = d)) as [->|Hne]; [rewrite lookup_insert_eq; apply f_equal; lia|].
    rewrite lookup_insert_ne, (Hc x Hx), occurrences_cons, decide_False by done. apply f_equal. lia. }
  destruct (Z.eqb_spec (1 + occurrences d (ds ++ rest) - 1) 0) as [Hz|Hz].
  - destruct (IH deg1 (queue ++ [d]) Hds Hc1) as (deg' & new & -> & Hc' & Hnd & Hnew).
    assert (Hout : d ∉ ds ++ rest) by (apply occurrences_zero; lia). apply not_elem_of_app in Hout as [Hout1 Hout2].
    exists deg', (d :: new). rewrite <-app_assoc. split_and!; [done|done| |].
    + apply NoDup_cons. split; [|done]. rewrite Hnew. tauto.
    + intros x. rewrite !elem_of_cons, Hnew. naive_solver.
  - destruct (IH deg1 queue Hds Hc1) as (deg' & new & -> & Hc' & Hnd & Hnew).
    exists deg', new. split_and!; [done|done|done|]. intros x. rewrite elem_of_cons, Hnew.
    assert (d ∈ ds ++ rest) as Hin.
    { destruct (decide (d ∈ ds ++ rest)) as [|Hn]; [done|]. apply occurrences_zero in Hn. lia. }
    apply elem_of_app in Hin. naive_solver.
Qed.

(** The targets of edges whose producer is not in [sorted]. *)
Definition pendingTargets (E : list (string * string)) (sorted : list string) : list string :=
  snd <$> filter (λ e, fst e ∉ sorted) E.

Lemma elem_of_pendingTargets E sorted d : d ∈ pendingTargets E sorted ↔ ∃ p, (p, d) ∈ E ∧ p ∉ sorted.
Proof.
  unfold pendingTargets. rewrite list_elem_of_fmap. setoid_rewrite list_elem_of_filter. split.
  - intros ([p d'] & -> & ? & ?). by exists p.
  - intros (p & ? & ?). by exists (p, d).
Qed.

Lemma pendingTargets_snoc E sorted c :
  c ∉ sorted →
  pendingTargets E sorted ≡ₚ (snd <$> filter (λ e, fst e = c) E) ++ pendingTargets E (sorted ++ [c]).
Proof.
  intros Hc. unfold pendingTargets. rewrite <-fmap_app. apply fmap_Permutation.
  induction E as [|e E IH]; [done|]. rewrite !filter_cons.
  destruct (decide (fst e = c)) as [Ec|Ec].
  - rewrite decide_True by (by rewrite Ec). rewrite (decide_False (P := fst e ∉ sorted ++ [c])) by (rewrite Ec; set_solver).
    simpl. by f_equiv.
  - destruct (decide (fst e ∉ sorted)) as [Hs|Hs].
    + rewrite decide_True by set_solver. rewrite <-Permutation_middle. by f_equiv.
    + by rewrite decide_False by set_solver.
Qed.

Record kahn_inv (E : list (string * string)) (deg : gmap string Z) (queue sorted : list string) : Prop := {
  kahn_counts : counts names deg (pendingTargets E sorted);
  kahn_nodup : NoDup (sorted ++ queue);
  kahn_names : sorted ++ queue ⊆ names;
  kahn_free x : x ∈ names → x ∈ sorted ++ queue ↔ x ∉ pendingTargets E sorted;
  kahn_order l1 d l2 : sorted = l1 ++ d :: l2 → ∀ p, (p, d) ∈ E → p ∈ l1
}.

Lemma kahn_step E deg (out : gmap string (list string)) c queue sorted :
  (∀ p d, (p, d) ∈ E → d ∈ names) → (∀ p, default [] (out !! p) = snd <$> filter (λ e, fst e = p) E) →
  kahn_inv E deg (c :: queue) sorted →
  ∃ deg' queue', releaseDependents (default [] (out !! c)) deg queue = (deg', queue') ∧
    kahn_inv E deg' queue' (sorted ++ [c]).
Proof.
  intros Hnames Hout [Hc Hnd Hsub Hfree Hord].
  assert (Hcs : c ∉ sorted) by (apply NoDup_app in Hnd as (_ & Hd & _); intros Hin; apply (Hd c Hin); set_solver).
  rewrite Hout. set (ds := snd <$> filter (λ e, fst e = c) E).
  pose proof (pendingTargets_snoc E sorted c Hcs) as Hperm. fold ds in Hperm.
  destruct (releaseDependents_spec ds (pendingTargets E (sorted ++ [c])) deg queue) as (deg' & new & -> & Hc' & Hndn & Hnew).
  { apply Forall_forall. intros d. unfold ds. rewrite list_elem_of_fmap. setoid_rewrite list_elem_of_filter.
    intros ([p d'] & -> & _ & Hin). by eapply Hnames. }
  { intros x Hx. by rewrite (Hc x Hx), Hperm. }
  do 2 eexists. split; [done|].
  assert (Hold : ∀ x, x ∈ sorted ++ c :: queue → x ∉ new).
  { intros x Hx Hn. rewrite Hnew in Hn. apply Hfree in Hx; [|by apply Hsub]. apply Hx. rewrite Hperm. set_solver. }
  assert (Hsort : (sorted ++ [c]) ++ queue ++ new = (sorted ++ c :: queue) ++ new) by (by rewrite <-!app_assoc).
  split; rewrite ?Hsort.
  - done.
  - apply NoDup_app. naive_solver.
  - intros x [Hx|Hx]%elem_of_app; [by apply Hsub|]. apply Hnew in Hx as [Hx _]. unfold ds in Hx.
    rewrite list_elem_of_fmap in Hx. setoid_rewrite list_elem_of_filter in Hx. destruct Hx as ([p d] & -> & _ & Hin).
    by eapply Hnames.
  - intros x Hx. rewrite elem_of_app, Hnew, (Hfree x Hx), Hperm, not_elem_of_app.
    destruct (decide (x ∈ pendingTargets E (sorted ++ [c]))), (decide (x ∈ ds)); tauto.
  - intros l1 d l2 Es p Hp. destruct l2 as [|y l2 _] using rev_ind.
    + apply app_inj_tail in Es as [<- <-].
      assert (Hfc : c ∉ pendingTargets E sorted) by (apply Hfree; [apply Hsub|]; set_solver).
      rewrite elem_of_pendingTargets in Hfc. destruct (decide (p ∈ sorted)); [done|]. destruct Hfc. by exists p.
    + rewrite app_comm_cons, app_assoc in Es. apply app_inj_tail in Es as [-> _]. by eapply Hord.
Qed.

Lemma kahnLoop_spec E (out : gmap string (list string)) fuel deg queue sorted :
  (∀ p d, (p, d) ∈ E → d ∈ names) → (∀ p, default [] (out !! p) = snd <$> filter (λ e, fst e = p) E) →
  (length names ≤ fuel + length sorted)%nat → kahn_inv E deg queue sorted →
  ∃ deg', kahn_inv E deg' [] (kahnLoop fuel out deg queue sorted).
Proof.
  intros Hnames Hout. revert deg queue sorted. induction fuel as [|fuel IH]; intros deg queue sorted Hfuel Hinv.
  - assert (Hlen : (length (sorted ++ queue) ≤ length names)%nat).
    { apply submseteq_length, NoDup_submseteq; [apply Hinv|]. apply Hinv. }
    rewrite length_app in Hlen. destruct queue; simpl in *; [by exists deg|lia].
  - destruct queue as [|c queue]; simpl; [by exists deg|].
    destruct (kahn_step E deg out c queue sorted Hnames Hout Hinv) as (deg' & queue' & -> & Hinv').
    apply (IH _ _ _); [rewrite length_app; simpl; lia|done].
Qed.

(** The end of the loop: what is sorted, and that everything else still waits. *)
Lemma topologicalSort_inv :
  NoDup names →
  ∃ E deg, (∀ p d, (p, d) ∈ E ↔ depends names edges d p) ∧
    kahn_inv E deg [] (sortedControllers (topologicalSort names edges)) ∧
    cyclicControllers (topologicalSort names edges) =
      filter (.∉ sortedControllers (topologicalSort names edges)) names.
Proof.
  intros Hnd. destruct buildGraph_graph as (E & (Hc & Hdom & Hout) & HE). unfold topologicalSort.
  destruct (buildGraph names edges) as [deg out] eqn:Eg. simpl in *.
  assert (Hfree : ∀ x, x ∈ names → default 0 (deg !! x) = 0 ↔ x ∉ pendingTargets E []).
  { intros x Hx. rewrite (Hc x Hx). simpl. unfold pendingTargets. rewrite filter_everything; [apply occurrences_zero|].
    apply Forall_true. set_solver. }
  destruct (kahnLoop_spec E out (length names) deg (filter (λ n, default 0 (deg !! n) = 0) names) [])
    as (deg' & Hinv); [by intros p d [? _]%HE|done|simpl; lia| |].
  { split; simpl.
    - intros x Hx. rewrite (Hc x Hx). unfold pendingTargets. rewrite filter_everything; [done|]. apply Forall_true. set_solver.
    - by apply NoDup_filter.
    - intros x. rewrite list_elem_of_filter. tauto.
    - intros x Hx. rewrite list_elem_of_filter, (Hfree x Hx). tauto.
    - intros [] ? ? [=]. }
  exists E, deg'. split; [done|]. split; [done|]. set (sorted := kahnLoop _ _ _ _ _) in *.
  assert (Hset : filter (λ n, n ∉ (list_to_set sorted : gset string)) names = filter (.∉ sorted) names).
  { apply list_filter_iff. intros x. by rewrite elem_of_list_to_set. }
  destruct (Nat.ltb_spec (length sorted) (length names)); [done|]. symmetry. apply filter_nothing, Forall_forall.
  intros x Hx Hn. apply Hn. pose proof (kahn_nodup _ _ _ _ Hinv) as Hnds. pose proof (kahn_names _ _ _ _ Hinv) as Hsub.
  rewrite app_nil_r in *. apply NoDup_submseteq in Hsub; [|done].
  by rewrite (submseteq_length_Permutation _ _ Hsub) by done.
Qed.

End kahn.

(** ** Cycles *)

(** In a finite set in which everything has a successor, every walk ends in a
    cycle. *)
Lemma walk_reaches_cycle {A} `{EqDecision A} (R : relation A) (X : list A) :
  (∀ x, x ∈ X → ∃ y, y ∈ X ∧ R x y) → ∀ c, c ∈ X → ∃ x, rtc R c x ∧ tc R x x.
Proof.
  intros Hnext.
  assert (∀ n visited c, (length X ≤ n + length visited)%nat → NoDup visited → visited ⊆ X →
    (∀ v, v ∈ visited → tc R v c) → c ∈ X → ∃ x, rtc R c x ∧ tc R x x) as Hwalk.
  { induction n as [|n IH]; intros visited c Hlen Hnd Hsub Htc Hc.
    all: destruct (decide (c ∈ visited)) as [Hin|Hin]; [exists c; split; [reflexivity|by apply Htc]|].
    - assert (length (c :: visited) ≤ length X)%nat; [|simpl in *; lia].
      apply submseteq_length, NoDup_submseteq; [by apply NoDup_cons|set_solver].
    - destruct (Hnext c Hc) as (y & Hy & Hcy).
      destruct (IH (c :: visited) y) as (x & Hx & Hxx); [simpl; lia|by apply NoDup_cons|set_solver| |done|].
      { intros v [->|Hv]%elem_of_cons; [by apply tc_once|]. eapply tc_r; [by apply Htc|done]. }
      exists x. split; [by eapply rtc_l|done]. }
  intros c Hc. apply (Hwalk (length X) [] c); [simpl; lia|constructor|set_solver|set_solver|done].
Qed.

Section claims.
Context `{GoMapRange}.

Lemma topologicalSort_spec names edges :
  NoDup names →
  let sorted := sortedControllers (topologicalSort names edges) in
  let cyclic := cyclicControllers (topologicalSort names edges) in
  sorted ++ cyclic ≡ₚ names ∧
  (∀ l1 d l2 p, sorted = l1 ++ d :: l2 → depends names edges d p → p ∈ l1) ∧
  (∀ c, c ∈ cyclic ↔ c ∈ names ∧ ∃ x, rtc (depends names edges) c x ∧ tc (depends names edges) x x).
Proof.
  intros Hnd. destruct (topologicalSort_inv names edges Hnd) as (E & deg & HE & [Hc Hnds Hsub Hfree Hord] & ->).
  set (sorted := sortedControllers _) in *. rewrite app_nil_r in *.
  assert (Hord' : ∀ l1 d l2 p, sorted = l1 ++ d :: l2 → depends names edges d p → p ∈ l1).
  { intros l1 d l2 p E1 Hd. eapply Hord; [exact E1|by apply HE]. }
  split_and!; [|done|].
  - apply NoDup_Permutation; [|done|].
    + apply NoDup_app. split_and!; [done| |by apply NoDup_filter]. intros x Hx. rewrite list_elem_of_filter. tauto.
    + intros x. rewrite elem_of_app, list_elem_of_filter. destruct (decide (x ∈ sorted)) as [Hx|]; [|tauto].
      specialize (Hsub x Hx). tauto.
  - intros c. rewrite list_elem_of_filter. split.
    + intros [Hn Hin]. split; [done|]. apply (walk_reaches_cycle _ (filter (.∉ sorted) names)).
      * intros x. rewrite list_elem_of_filter. intros [Hx Hxn].
        destruct (decide (x ∈ pendingTargets E sorted)) as [Hp|Hp]; [|by apply Hfree in Hp].
        apply elem_of_pendingTargets in Hp as (p & Hp & Hps). apply HE in Hp. exists p.
        rewrite list_elem_of_filter. split; [|done]. split; [done|]. apply Hp.
      * by apply list_elem_of_filter.
    + intros [Hin (x & Hcx & Hxx)]. split; [|done].
      assert (Hclosed : ∀ d p, depends names edges d p → d ∈ sorted → p ∈ sorted).
      { intros d p Hd (l1 & l2 & E1)%list_elem_of_split. rewrite E1. apply elem_of_app. left. by eapply Hord'. }
      assert (Hclosed' : ∀ d p, rtc (depends names edges) d p → d ∈ sorted → p ∈ sorted).
      { induction 1; [done|]. intros. by eauto. }
      intros Hcs. apply (Hclosed' _ _ Hcx) in Hcs.
      (* positions decrease along dependencies *)
      assert (Hpos : ∀ d p, tc (depends names edges) d p → ∀ l1 l2, sorted = l1 ++ d :: l2 → p ∈ l1).
      { intros d p Htc. induction Htc as [d p Hd|d q p Hd _ IH]; intros l1 l2 E1; [by eapply Hord'|].
        pose proof (Hord' _ _ _ _ E1 Hd) as (l3 & l4 & ->)%list_elem_of_split.
        rewrite <-app_assoc in E1. specialize (IH l3 _ E1). set_solver. }
      apply list_elem_of_split in Hcs as (l1 & l2 & E1). specialize (Hpos _ _ Hxx _ _ E1).
      rewrite E1 in Hnds. apply NoDup_app in Hnds as (_ & Hd & _). apply (Hd x Hpos). set_solver.
Qed.

(** C29: The order is one in which every controller runs after the controllers it
    depends on; all controllers are either in it or reported; and the reported
    ones are exactly those that depend, directly or not, on a cycle. *)
Theorem topologicalSort_correct names edges :
  NoDup names →
  let sorted := sortedControllers (topologicalSort names edges) in
  let cyclic := cyclicControllers (topologicalSort names edges) in
  sorted ++ cyclic ≡ₚ names ∧
  (∀ l1 d l2 p, sorted = l1 ++ d :: l2 → depends names edges d p → p ∈ l1) ∧
  (∀ c, c ∈ cyclic ↔ c ∈ names ∧ ∃ x, rtc (depends names edges) c x ∧ tc (depends names edges) x x).
Proof. apply topologicalSort_spec. Qed.

(** ** The order of controllers *)

Lemma prefixOverlaps_spec a b :
  prefixOverlaps a b = true ↔ ∃ key, HasPrefix key a = true ∧ HasPrefix key b = true.
Proof.
  assert (Hsub : ∀ s u, String.substring 0 (String.length s) u = s ↔ HasPrefix u s = true)
    by (intros s u; unfold HasPrefix; by rewrite String.prefix_correct).
  assert (Hlen : ∀ s u, HasPrefix u s = true → (String.length s ≤ String.length u)%nat).
  { intros s u [r ->]%HasPrefix_spec. rewrite str_length_app. lia. }
  unfold prefixOverlaps. destruct (Nat.leb_spec (String.length a) (String.length b)) as [Hle|Hlt];
    rewrite bool_decide_eq_true, Hsub; split.
  - intros Hb. exists b. by rewrite HasPrefix_refl.
  - intros (key & Ha & Hb). destruct (HasPrefix b a) eqn:Eba; [done|]. destruct (HasPrefix a b) eqn:Eab.
    + apply HasPrefix_spec in Eab as [r ->]. rewrite str_length_app in Hle. destruct r; [|simpl in Hle; lia].
      by rewrite str_app_nil_r, HasPrefix_refl in Eba.
    + by destruct (prefix_clash key a b).
  - intros Ha. exists a. by rewrite HasPrefix_refl.
  - intros (key & Ha & Hb). destruct (HasPrefix a b) eqn:Eab; [done|]. destruct (HasPrefix b a) eqn:Eba.
    + apply Hlen in Eba. lia.
    + by destruct (prefix_clash key a b).
Qed.

Context {C : Type}.

#[local] Opaque controllerOutputPrefixes.

(** [producer] may write a key that [consumer] watches. *)
Definition feeds (producer consumer : Controller C) : Prop :=
  ∃ key watched, watched ∈ WatchPrefixes consumer ∧ HasPrefix key watched = true ∧
    isKeyWithinWriteDomain key (default [] (controllerOutputPrefixes !! Name producer)) = true.

Lemma hasOverlappingPrefix_feeds producer consumer :
  hasOverlappingPrefix (WatchPrefixes consumer) (default [] (controllerOutputPrefixes !! Name producer)) = true ↔
  feeds producer consumer.
Proof.
  unfold hasOverlappingPrefix, feeds, isKeyWithinWriteDomain. rewrite existsb_exists.
  setoid_rewrite existsb_exists. setoid_rewrite prefixOverlaps_spec. setoid_rewrite <-list_elem_of_In. split.
  - intros (w & Hw & o & Ho & key & Hk & Hko). exists key, w. split_and!; [done..|]. by exists o.
  - intros (key & w & Hw & Hk & o & Ho & Hko). exists w. split; [done|]. exists o. split; [done|]. by exists key.
Qed.

Lemma addProducers_spec consumer producers (g : gmap string (list string)) d p :
  (∃ ps, foldl (addProducer consumer) g producers !! d = Some ps ∧ p ∈ ps) ↔
  (∃ ps, g !! d = Some ps ∧ p ∈ ps) ∨
  (d = Name consumer ∧ ∃ producer, producer ∈ producers ∧ p = Name producer ∧ p ≠ d ∧ feeds producer consumer).
Proof.
  revert g. induction producers as [|q producers IH]; intros g; simpl; [set_solver|]. rewrite IH. clear IH.
  assert (Hq : (∃ ps, addProducer consumer g q !! d = Some ps ∧ p ∈ ps) ↔
    (∃ ps, g !! d = Some ps ∧ p ∈ ps) ∨ (d = Name consumer ∧ p = Name q ∧ p ≠ d ∧ feeds q consumer)); [|set_solver].
  unfold addProducer. rewrite <-hasOverlappingPrefix_feeds.
  destruct (decide (Name q = Name consumer)) as [Hn|Hn].
  { split; [by left|]. intros [?|(-> & -> & ? & _)]; congruence. }
  destruct (hasOverlappingPrefix _ _) eqn:Eo; [|split; [by left|]; intros [?|(_ & _ & _ & [=])]; done].
  destruct (decide (d = Name consumer)) as [->|Hd].
  2: { rewrite lookup_insert_ne by done. split; [by left|]. intros [?|(-> & _)]; done. }
  rewrite lookup_insert_eq. split.
  - intros (ps & [= <-] & [Hp| ->%list_elem_of_singleton]%elem_of_app); [|by right]. left.
    destruct (g !! Name consumer) as [ps|]; [by exists ps|]. by apply elem_of_nil in Hp.
  - intros [(ps & -> & Hp)|(_ & -> & _)]; eexists; (split; [done|]); set_solver.
Qed.

Lemma buildControllerDependencyGraph_spec (cs : list (Controller C)) d p :
  (∃ ps, buildControllerDependencyGraph cs !! d = Some ps ∧ p ∈ ps) ↔
  ∃ consumer producer, consumer ∈ cs ∧ producer ∈ cs ∧ d = Name consumer ∧ p = Name producer ∧ p ≠ d ∧
    feeds producer consumer.
Proof.
  unfold buildControllerDependencyGraph.
  assert (Hl : ∀ l (g : gmap string (list string)),
    (∃ ps, foldl (λ g c, foldl (addProducer c) g cs) g l !! d = Some ps ∧ p ∈ ps) ↔
    (∃ ps, g !! d = Some ps ∧ p ∈ ps) ∨ ∃ consumer producer, consumer ∈ l ∧ producer ∈ cs ∧
       d = Name consumer ∧ p = Name producer ∧ p ≠ d ∧ feeds producer consumer).
  { induction l as [|c l IH]; intros g; simpl; [set_solver|]. rewrite IH, addProducers_spec. split.
    - intros [[Hg|(-> & q & ? & ? & ? & ?)]|(c' & q & ? & Hq)]; [by left|right; exists c, q; set_solver|].
      right. exists c', q. split; [set_solver|done].
    - intros [Hg|(c' & q & [->|Hc]%elem_of_cons & ? & ? & Hq)]; [by do 2 left|left; right|right].
      + split; [done|]. by exists q.
      + by exists c', q. }
  rewrite Hl. split; [|by right]. intros [(ps & [=] & _)|?]; done.
Qed.

Lemma controllerByName_lookup (cs : list (Controller C)) c :
  NoDup (Name <$> cs) → c ∈ cs →
  foldl (λ m c, <[Name c := c]> m) (∅ : gmap string (Controller C)) cs !! Name c = Some c.
Proof.
  generalize (∅ : gmap string (Controller C)). induction cs as [|c0 cs IH]; intros m Hnd Hc; [set_solver|].
  rewrite fmap_cons in Hnd. apply NoDup_cons in Hnd as [Hout Hnd]. simpl.
  apply elem_of_cons in Hc as [->|Hc]; [|by apply IH].
  apply (foldl_inv (λ m, m !! Name c0 = Some c0)); [by rewrite lookup_insert_eq|].
  intros m' x Hx Hm. rewrite lookup_insert_ne; [done|]. intros E. apply Hout. rewrite <-E. by apply list_elem_of_fmap_2.
Qed.

(** The order of controllers: every controller of the list runs after all others
    that may write, within their write domain, a key it watches; and each
    controller is in the list or its name is reported. *)
Theorem SortControllersByDependency_respects_writers (controllers : list (Controller C)) :
  NoDup (Name <$> controllers) →
  ∃ ordered cyclic, SortControllersByDependency controllers = (Some <$> ordered, cyclic) ∧
    (Name <$> ordered) ++ cyclic ≡ₚ (Name <$> controllers) ∧ ordered ⊆ controllers ∧
    ∀ l1 consumer l2 producer, ordered = l1 ++ consumer :: l2 → producer ∈ controllers →
      Name producer ≠ Name consumer → feeds producer consumer → producer ∈ l1.
Proof.
  intros Hnd. set (edges := buildControllerDependencyGraph controllers).
  destruct (topologicalSort_spec (Name <$> controllers) edges Hnd) as (Hperm & Hord & _).
  unfold SortControllersByDependency. fold edges. set (r := topologicalSort _ edges) in *.
  assert (Hex : ∃ ordered, sortedControllers r = Name <$> ordered ∧ ordered ⊆ controllers).
  { assert (Hsub : sortedControllers r ⊆ Name <$> controllers) by (rewrite <-Hperm; set_solver).
    revert Hsub. generalize (sortedControllers r). induction l as [|n l IH]; intros Hsub; [exists []; set_solver|].
    destruct IH as (ordered & -> & Ho); [set_solver|]. assert (n ∈ Name <$> controllers) as Hn by set_solver.
    apply list_elem_of_fmap in Hn as (c & -> & Hc). exists (c :: ordered). split; [done|set_solver]. }
  destruct Hex as (ordered & Eo & Hsub). exists ordered, (cyclicControllers r). rewrite Eo in *. split_and!.
  - f_equal. rewrite <-list_fmap_compose. apply list_fmap_ext. intros i c Hi. apply controllerByName_lookup; [done|].
    apply Hsub. by eapply list_elem_of_lookup_2.
  - done.
  - done.
  - intros l1 consumer l2 producer -> Hp Hne Hf. rewrite fmap_app, fmap_cons in Hord.
    assert (Hin : Name producer ∈ Name <$> l1).
    { eapply Hord; [done|]. assert (Hc : consumer ∈ controllers) by (apply Hsub; set_solver).
      split_and!; [by apply list_elem_of_fmap_2..|]. apply buildControllerDependencyGraph_spec.
      exists consumer, producer. by split_and!. }
    apply list_elem_of_fmap in Hin as (c & Ec & Hc). assert (Hcc : c ∈ controllers) by (apply Hsub; set_solver).
    assert (Some c = Some producer) as [= <-]; [|done].
    by rewrite <-(controllerByName_lookup controllers c), <-Ec, controllerByName_lookup.
Qed.

End claims.

(** ** Concrete graphs *)

Definition chainNames : list string := ["c"; "b"; "a"; "x"; "y"].
Definition chainEdges : gmap string (list string) :=
  list_to_map [("b", ["a"; "unknown"]); ("c", ["b"; "a"]); ("x", ["y"]); ("y", ["x"])].

Lemma topologicalSort_correct_witness :
  let sorted := sortedControllers (topologicalSort (H := reference_range) chainNames chainEdges) in
  let cyclic := cyclicControllers (topologicalSort (H := reference_range) chainNames chainEdges) in
  sorted = ["a"; "b"; "c"] ∧ cyclic = ["x"; "y"] ∧ sorted ++ cyclic ≡ₚ chainNames.
Proof.
  split; [vm_compute; reflexivity|]. split; [vm_compute; reflexivity|].
  apply (topologicalSort_correct (H := reference_range) chainNames chainEdges).
  apply (bool_decide_unpack (NoDup _)). vm_compute. exact I.
Defined.

Definition sampleController (name : string) (watched : list string) : Controller unit :=
  mkController unit name watched (λ _ _ s, Some (inl [], s)) None None.

Lemma SortControllersByDependency_respects_writers_witness :
  let controllers := [sampleController "endpoint" ["observed/instance/i1"]; sampleController "instance" ["effective/"];
                      sampleController "intent-resolver" ["desired/"]] in
  ∃ ordered cyclic, SortControllersByDependency (H := reference_range) controllers = (Some <$> ordered, cyclic) ∧
    (Name <$> ordered) ++ cyclic ≡ₚ ["endpoint"; "instance"; "intent-resolver"].
Proof.
  intros controllers.
  destruct (SortControllersByDependency_respects_writers (H := reference_range) controllers)
    as (ordered & cyclic & E & Hperm & _); [|exists ordered, cyclic; split; [exact E|exact Hperm]].
  apply (bool_decide_unpack (NoDup _)). vm_compute. exact I.
Defined.

(** The order is not stable: two controllers that depend on the same third one
    run in either order, as the runtime happens to visit the dependency map. *)
Theorem topologicalSort_not_stable :
  let names := ["a"; "b"; "c"] in
  let edges := list_to_map [("b", ["a"]); ("c", ["a"])] in
  sortedControllers (topologicalSort (H := reference_range) names edges) ≠
  sortedControllers (topologicalSort (H := reversed_range) names edges).
Proof. vm_compute. discriminate. Qed.
