(* ===== verification/ControllerHelpers.v ===== *)
(** * What the controllers share (src/controllers/helpers.go)

    Splitting of fact keys, collecting the values of one field of every entity
    under a prefix, and the instance fields. The maps these functions build are
    finite maps; the order in which they read the facts is the order of the
    slice. Warnings about corrupt facts are left out. *)

From S2P Require Import Prelude GoStrings GoFmt Keys EventHistory PrefixSearch.

Local Open Scope Z_scope.

(** ** Splitting keys *)

(** [("", "", false)] is [None]. *)
Definition splitFactKeyIntoEntityAndSuffix (factKey prefix : string) : option (string * string) :=
  match SplitN slash 2 (TrimPrefix factKey prefix) with
  | [entity; suffix] => Some (entity, suffix)
  | _ => None
  end.

(** The loop over the known names, in the runtime's order; the inner [Some] is
    the function's answer. *)
Fixpoint matchKnownServiceName (relativePath : string) (names : list string) : option (option (string * string)) :=
  match names with
  | [] => None
  | serviceName :: rest =>
      if HasPrefix relativePath (serviceName +:+ "/") then
        Some (Some (serviceName, str_drop (String.length serviceName + 1) relativePath))
      else if decide (relativePath = serviceName) then Some None
      else matchKnownServiceName relativePath rest
  end.

Definition splitServiceFactKey `{GoMapRange} (factKey prefix : string) (knownServiceNames : gmap string bool)
    : option (string * string) :=
  let relativePath := TrimPrefix factKey prefix in
  match matchKnownServiceName relativePath (fst <$> map_range knownServiceNames) with
  | Some answer => answer
  | None =>
      match SplitN slash 2 relativePath with
      | [entity; suffix] => Some (entity, suffix)
      | _ => None
      end
  end.

Definition discoverServiceNamesFromFacts (facts : list Fact) (prefix : string) : gmap string bool :=
  foldl (λ serviceNames f,
    if decide (Value f = "") then <[TrimPrefix (Key f) prefix := true]> serviceNames else serviceNames)
    ∅ (FactsWithPrefix facts prefix).

(** The loop head the controllers share: the facts under a prefix whose key splits,
    as entity, suffix and value; other facts are skipped. *)
Definition entityFields (facts : list Fact) (prefix : string) : list (string * string * string) :=
  omap (λ f, match splitFactKeyIntoEntityAndSuffix (Key f) prefix with
             | Some (entity, suffix) => Some (entity, suffix, Value f)
             | None => None
             end) (FactsWithPrefix facts prefix).

(** ** Collecting one field *)

(** The common loop of the [collect...BySuffix] functions, with the conversion
    of the value. *)
Definition collectBySuffix {A} (convert : string → A) (facts : list Fact) (prefix matchSuffix : string)
    : gmap string A :=
  foldl (λ collectedValues '(entityName, suffix, value),
    if decide (suffix = matchSuffix) then <[entityName := convert value]> collectedValues
    else collectedValues) ∅ (entityFields facts prefix).

Definition collectStringValuesBySuffix (facts : list Fact) (prefix matchSuffix : string) : gmap string string :=
  collectBySuffix id facts prefix matchSuffix.

(** A value that does not parse counts as what [Atoi] returns with its error. *)
Definition collectIntValuesBySuffix (facts : list Fact) (prefix matchSuffix : string) : gmap string Z :=
  collectBySuffix (λ value, fst (Atoi value)) facts prefix matchSuffix.

(** ** Resource quantities *)

Definition suffixMultiplier (suffix : string) : Z :=
  if decide (suffix = "Ki") then 1024
  else if decide (suffix = "Mi") then 1024 * 1024
  else if decide (suffix = "Gi") then 1024 * 1024 * 1024
  else 0.

Definition parsePlainQuantity (rawValue : string) : Z :=
  match Atoi rawValue with
  | (parsedValue, None) => parsedValue
  | (_, Some _) => 0
  end.

Definition parseSuffixedQuantity (rawValue : string) : Z :=
  let multiplier := suffixMultiplier (takeEnd 2 rawValue) in
  if (3 <=? String.length rawValue)%nat && (0 <? multiplier) then
    match Atoi (dropEnd 2 rawValue) with
    | (parsedValue, None) => (parsedValue *! multiplier)%go
    | (_, Some _) => parsePlainQuantity rawValue
    end
  else parsePlainQuantity rawValue.

Definition parseResourceQuantity (rawValue : string) : Z :=
  if decide (rawValue = "") then 0
  else if decide (takeEnd 1 rawValue = "m") then
    match Atoi (dropEnd 1 rawValue) with
    | (parsedValue, None) => parsedValue
    | (_, Some _) => parseSuffixedQuantity rawValue
    end
  else parseSuffixedQuantity rawValue.

Definition collectResourceValuesBySuffix (facts : list Fact) (prefix matchSuffix : string) : gmap string Z :=
  collectBySuffix parseResourceQuantity facts prefix matchSuffix.

(** ** Instance fields *)

Definition addInstanceField (instanceFields : gmap string (gmap string string)) (entry : string * string * string)
    : gmap string (gmap string string) :=
  let '(instanceID, field, value) := entry in
  <[instanceID := <[field := value]> (default ∅ (instanceFields !! instanceID))]> instanceFields.

Definition parseInstanceFieldsFromFacts (facts : list Fact) : gmap string (gmap string string) :=
  foldl (λ instanceFields instancePrefix,
    foldl addInstanceField instanceFields (entityFields facts instancePrefix))
    ∅ [ScanObservedInstances; ScanDerivedInstances].

(** [m[key]] of a [map[string]string]: a missing key reads as the empty string. *)
Definition fieldOf (m : gmap string string) (key : string) : string := default "" (m !! key).

Definition endpointEligibleState (instanceFields : gmap string string) : string :=
  if decide (fieldOf instanceFields "controller_stopped" = "true") then InstanceStopped
  else fieldOf instanceFields "state".

Definition effectiveInstanceState (instanceFields : gmap string string) : string :=
  if decide (fieldOf instanceFields "controller_stopped" = "true") then InstanceStopped
  else if decide (fieldOf instanceFields "node_failure" = "true") then InstanceFailed
  else fieldOf instanceFields "state".

(** ** Keys of several segments *)

Definition noSlash (s : string) : Prop := ContainsByte s slash = false.

Lemma Cut_slash s a b : Cut slash s = Some (a, b) ↔ s = a +:+ "/" +:+ b ∧ noSlash a.
Proof. apply Cut_Some. Qed.

Lemma SplitN_3 s a b c : SplitN slash 3 s = [a; b; c] ↔ s = a +:+ "/" +:+ b +:+ "/" +:+ c ∧ noSlash a ∧ noSlash b.
Proof.
  simpl. split.
  - destruct (Cut slash s) as [[x y]|] eqn:E1; [|done]. destruct (Cut slash y) as [[z w]|] eqn:E2; [|done].
    apply Cut_slash in E1 as [-> Hx], E2 as [-> Hz]. intros [= <- <- <-]. done.
  - intros (-> & Ha & Hb). rewrite (proj2 (Cut_slash _ a (b +:+ "/" +:+ c))) by done. by rewrite (proj2 (Cut_slash _ b c)).
Qed.

Lemma SplitN_4 s a b c d :
  SplitN slash 4 s = [a; b; c; d] ↔ s = a +:+ "/" +:+ b +:+ "/" +:+ c +:+ "/" +:+ d ∧ noSlash a ∧ noSlash b ∧ noSlash c.
Proof.
  change (SplitN slash 4 s) with (match Cut slash s with Some (x, y) => x :: SplitN slash 3 y | None => [s] end). split.
  - destruct (Cut slash s) as [[x y]|] eqn:E1; [|done]. apply Cut_slash in E1 as [-> Hx]. intros E.
    injection E as <- E. apply SplitN_3 in E as (-> & ? & ?). done.
  - intros (-> & Ha & Hb & Hc). rewrite (proj2 (Cut_slash _ a (b +:+ "/" +:+ c +:+ "/" +:+ d))) by done.
    by rewrite (proj2 (SplitN_3 _ b c d)).
Qed.

Lemma SplitN_3_length s : (length (SplitN slash 3 s) ≤ 3)%nat.
Proof. simpl. repeat case_match; simpl; lia. Qed.

(** ** Facts as a map

    The facts a controller is given are sorted by key, with no key twice. *)

Definition facts_wf (facts : list Fact) : Prop :=
  sorted_by keyLessb facts ∧ NoDup (Key <$> facts).

(** A concrete list of facts is checked by evaluation. *)
Lemma sorted_facts_wf facts :
  bool_decide (StronglySorted (λ f g, str_ltb (Key f) (Key g) = true) facts) = true → facts_wf facts.
Proof.
  intros Hs%bool_decide_eq_true. split.
  - unfold sorted_by, keyLessb. induction Hs as [|f l Hl IH Hf]; constructor; [done|].
    eapply Forall_impl; [exact Hf|]. intros g. apply str_ltb_asym.
  - induction Hs as [|f l Hl IH Hf]; [constructor|]. rewrite fmap_cons. apply NoDup_cons. split; [|done].
    rewrite list_elem_of_fmap. intros (g & Eg & Hg). pose proof (proj1 (Forall_forall _ _) Hf g Hg) as Hlt. simpl in Hlt.
    rewrite Eg in Hlt. by rewrite str_ltb_irrefl in Hlt.
Qed.

(** The value of every key. *)
Definition values_of (facts : list Fact) : gmap string string :=
  list_to_map ((λ f, (Key f, Value f)) <$> facts).

Lemma values_of_lookup facts k v :
  NoDup (Key <$> facts) → values_of facts !! k = Some v ↔ ∃ f, f ∈ facts ∧ Key f = k ∧ Value f = v.
Proof.
  intros Hnd. unfold values_of. rewrite <-elem_of_list_to_map.
  2: { by rewrite <-list_fmap_compose. }
  rewrite list_elem_of_fmap. naive_solver.
Qed.

Lemma split_spec key prefix e s :
  HasPrefix key prefix = true →
  splitFactKeyIntoEntityAndSuffix key prefix = Some (e, s) ↔
  ContainsByte e slash = false ∧ key = prefix +:+ e +:+ "/" +:+ s.
Proof.
  intros [r ->]%HasPrefix_spec. unfold splitFactKeyIntoEntityAndSuffix. rewrite TrimPrefix_app, SplitN_2. split.
  - destruct (Cut slash r) as [[a b]|] eqn:E; [|done]. apply Cut_Some in E as [-> Ha]. intros [= <- <-]. done.
  - intros [He E]. apply (inj (String.app _)) in E as ->. change ("/" +:+ s) with (String slash s). by rewrite Cut_app.
Qed.

(** Membership of [entityFields] is a lookup. *)
Lemma elem_of_entityFields facts prefix e s v :
  facts_wf facts → prefix ≠ "" →
  (e, s, v) ∈ entityFields facts prefix ↔
  ContainsByte e slash = false ∧ values_of facts !! (prefix +:+ e +:+ "/" +:+ s) = Some v.
Proof.
  intros [Hs Hnd] Hp. unfold entityFields. rewrite FactsWithPrefix_filter, list_elem_of_omap, values_of_lookup by done.
  setoid_rewrite list_elem_of_filter. split.
  - intros (f & [Hpre Hf] & E). destruct (splitFactKeyIntoEntityAndSuffix (Key f) prefix) as [[e' s']|] eqn:Es; [|done].
    simplify_eq. apply split_spec in Es as [He Hk]; [|done]. split; [done|]. by exists f.
  - intros (He & f & Hf & Hk & <-). exists f. rewrite Hk. split; [split; [apply HasPrefix_app|done]|].
    by rewrite (proj2 (split_spec _ _ e s (HasPrefix_app _ _))).
Qed.

(** No entity has a field twice. *)
Lemma entityFields_unique facts prefix : 
  facts_wf facts → prefix ≠ "" → NoDup (fst <$> entityFields facts prefix).
Proof.
  intros [Hs Hnd] Hp. unfold entityFields. rewrite FactsWithPrefix_filter by done.
  assert (Hpre : Forall (λ f, HasPrefix (Key f) prefix = true) (filter (λ f, HasPrefix (Key f) prefix = true) facts)).
  { apply Forall_forall. intros f. rewrite list_elem_of_filter. tauto. }
  assert (Hnd' : NoDup (Key <$> filter (λ f, HasPrefix (Key f) prefix = true) facts)).
  { eapply submseteq_nodup; [|exact Hnd]. apply fmap_submseteq, filter_sub. }
  revert Hpre Hnd'. generalize (filter (λ f, HasPrefix (Key f) prefix = true) facts).
  induction l as [|f l IH]; intros Hpre Hl; simpl; [constructor|]. apply Forall_cons in Hpre as [Hf Hpre].
  rewrite fmap_cons in Hl. apply NoDup_cons in Hl as [Hout Hl]. specialize (IH Hpre Hl).
  destruct (splitFactKeyIntoEntityAndSuffix (Key f) prefix) as [[e s]|] eqn:Es; [|done]. simpl. apply NoDup_cons. split; [|done].
  rewrite list_elem_of_fmap. setoid_rewrite list_elem_of_omap. intros ([[e' s'] v] & E & g & Hg & Eg). simpl in E. simplify_eq.
  destruct (splitFactKeyIntoEntityAndSuffix (Key g) prefix) as [[e'' s'']|] eqn:Eg'; [|done]. simplify_eq.
  apply Hout. apply split_spec in Es as [_ ->]; [|done].
  apply split_spec in Eg' as [_ Ek]; [|by eapply (proj1 (Forall_forall _ _) Hpre)]. rewrite <-Ek. by apply list_elem_of_fmap_2.
Qed.

Definition keyValues (facts : list Fact) (prefix : string) : list (string * string) :=
  (λ f, (Key f, Value f)) <$> FactsWithPrefix facts prefix.

Lemma elem_of_keyValues facts prefix k v :
  facts_wf facts → prefix ≠ "" →
  (k, v) ∈ keyValues facts prefix ↔ HasPrefix k prefix = true ∧ values_of facts !! k = Some v.
Proof.
  intros [Hs Hn] Hp. unfold keyValues. rewrite FactsWithPrefix_filter, list_elem_of_fmap, values_of_lookup by done.
  setoid_rewrite list_elem_of_filter. naive_solver.
Qed.

Lemma keyValues_nodup facts prefix : facts_wf facts → prefix ≠ "" → NoDup (keyValues facts prefix).
Proof.
  intros [Hs Hn] Hp. unfold keyValues. rewrite FactsWithPrefix_filter by done. apply (NoDup_fmap_1 fst).
  rewrite <-list_fmap_compose. eapply submseteq_nodup; [apply (fmap_submseteq Key), filter_sub|done].
Qed.

Lemma keyValues_sorted facts prefix :
  facts_wf facts → prefix ≠ "" → sorted_by (λ a b, str_ltb (fst a) (fst b)) (keyValues facts prefix).
Proof.
  intros [Hs Hn] Hp. unfold keyValues. rewrite FactsWithPrefix_filter by done. unfold sorted_by in *.
  induction Hs as [|f l Hl IH Hf]; [constructor|]. rewrite fmap_cons in Hn. apply NoDup_cons in Hn as [_ Hn].
  rewrite filter_cons. case_decide; [|by apply IH]. rewrite fmap_cons. constructor; [by apply IH|].
  apply Forall_fmap, Forall_forall. intros g [_ Hg]%list_elem_of_filter. exact (proj1 (Forall_forall _ _) Hf g Hg).
Qed.

(** What a loop over the facts under a prefix sees depends on the values under the
    prefix only. *)
Lemma keyValues_values facts1 facts2 prefix :
  facts_wf facts1 → facts_wf facts2 → prefix ≠ "" →
  (∀ k, HasPrefix k prefix = true → values_of facts1 !! k = values_of facts2 !! k) →
  keyValues facts1 prefix = keyValues facts2 prefix.
Proof.
  intros H1 H2 Hp Heq. apply (sorted_by_unique (λ a b : string * string, str_ltb (fst a) (fst b))); [|by apply keyValues_sorted..|].
  - intros [k1 v1] [k2 v2] [Hk1 Hv1]%elem_of_keyValues [Hk2 Hv2]%elem_of_keyValues L1 L2; [|done..].
    assert (k1 = k2) as -> by (by apply str_ltb_total). rewrite Heq in Hv1 by done. congruence.
  - apply NoDup_Permutation; [by apply keyValues_nodup..|]. intros [k v]. rewrite !elem_of_keyValues by done.
    split; intros [Hk Hv]; (split; [done|]); [rewrite <-Heq|rewrite Heq]; done.
Qed.

Lemma entityFields_values facts1 facts2 prefix :
  facts_wf facts1 → facts_wf facts2 → prefix ≠ "" →
  (∀ k, HasPrefix k prefix = true → values_of facts1 !! k = values_of facts2 !! k) →
  entityFields facts1 prefix = entityFields facts2 prefix.
Proof.
  intros H1 H2 Hp Heq. pose proof (keyValues_values _ _ _ H1 H2 Hp Heq) as E. unfold entityFields, keyValues in *.
  set (g := λ kv : string * string, match splitFactKeyIntoEntityAndSuffix (fst kv) prefix with
    | Some (e, s) => Some (e, s, snd kv) | None => None end).
  assert (Hg : ∀ l : list Fact, omap (λ f, match splitFactKeyIntoEntityAndSuffix (Key f) prefix with
    | Some (e, s) => Some (e, s, Value f) | None => None end) l = omap g ((λ f, (Key f, Value f)) <$> l)).
  { intros l. apply list_omap_ext, Forall2_fmap_r, Forall_Forall2_diag, Forall_true. done. }
  by rewrite !Hg, E.
Qed.

(** The loop of [collectBySuffix] over fields without repetitions. *)
Lemma collect_fold_lookup {A} (convert : string → A) (matchSuffix : string) (l : list (string * string * string)) e x :
  NoDup (fst <$> l) →
  foldl (λ m '(entityName, suffix, value),
    if decide (suffix = matchSuffix) then <[entityName := convert value]> m else m) (∅ : gmap string A) l !! e = Some x ↔
  ∃ v, (e, matchSuffix, v) ∈ l ∧ x = convert v.
Proof.
  induction l as [|[[e' s'] v'] l IH] using rev_ind; intros Hnd; [set_solver|].
  rewrite fmap_app in Hnd. apply NoDup_app in Hnd as (Hnd & Hdis & _). specialize (IH Hnd). rewrite foldl_app. simpl.
  setoid_rewrite elem_of_app. setoid_rewrite list_elem_of_singleton. case_decide as Hs; [subst s'|rewrite IH; naive_solver].
  destruct (decide (e' = e)) as [->|Hne]; [|rewrite lookup_insert_ne by done; rewrite IH; naive_solver].
  rewrite lookup_insert_eq. split; [intros [= <-]; naive_solver|]. intros (v & [Hv|[= <-]] & ->); [|done].
  exfalso. apply (Hdis (e, matchSuffix)); [by apply (list_elem_of_fmap_2 fst l (e, matchSuffix, v))|simpl; set_solver].
Qed.

(** A collected value is the value of the entity's key. *)
Lemma collectBySuffix_lookup {A} (convert : string → A) facts prefix matchSuffix e :
  facts_wf facts → prefix ≠ "" →
  collectBySuffix convert facts prefix matchSuffix !! e =
    (if ContainsByte e slash then None
     else convert <$> values_of facts !! (prefix +:+ e +:+ "/" +:+ matchSuffix)).
Proof.
  intros Hwf Hp. apply option_eq. intros x. unfold collectBySuffix.
  rewrite collect_fold_lookup by (by apply entityFields_unique). setoid_rewrite elem_of_entityFields; [|done..].
  destruct (ContainsByte e slash); [naive_solver|]. rewrite fmap_Some. naive_solver.
Qed.

(** ** Quantities *)

(** What is printed with a unit is read back in the base unit: bytes, or
    millicores. A plain number is read as it is. *)
Theorem parseResourceQuantity_units n :
  in_int64 n →
  parseResourceQuantity (Itoa n) = n ∧
  parseResourceQuantity (Itoa n +:+ "m") = n ∧
  (in_int64 (n * 2 ^ 10) → parseResourceQuantity (Itoa n +:+ "Ki") = n * 2 ^ 10) ∧
  (in_int64 (n * 2 ^ 20) → parseResourceQuantity (Itoa n +:+ "Mi") = n * 2 ^ 20) ∧
  (in_int64 (n * 2 ^ 30) → parseResourceQuantity (Itoa n +:+ "Gi") = n * 2 ^ 30).
Proof.
  intros Hn. pose proof (Atoi_Itoa n Hn) as Ha. pose proof (Itoa_nonempty n) as Hne.
  assert (Hlen : (1 ≤ String.length (Itoa n))%nat) by (destruct (Itoa n); [done|simpl; lia]).
  assert (Hscaled : ∀ u m, String.length u = 2%nat → takeEnd 1 u ≠ "m" → suffixMultiplier u = m → 0 < m →
    in_int64 (n * m) → parseResourceQuantity (Itoa n +:+ u) = n * m).
  { intros u m Hu H1 Hm Hpos Hrange. unfold parseResourceQuantity. rewrite decide_False by (rewrite str_app_eq_nil; tauto).
    rewrite decide_False by (by rewrite takeEnd_le by lia). unfold parseSuffixedQuantity.
    rewrite <-Hu, takeEnd_app, dropEnd_app, Hm, str_length_app, Hu.
    destruct (Nat.leb_spec 3 (String.length (Itoa n) + 2)); [|lia]. destruct (Z.ltb_spec 0 m); [|lia]. simpl.
    rewrite Ha. by apply wrap64_id. }
  split_and!.
  - unfold parseResourceQuantity. rewrite decide_False by done. rewrite decide_False.
    2: { apply takeEnd_absent with "m"%char; [by apply Itoa_ContainsByte|done]. }
    unfold parseSuffixedQuantity, suffixMultiplier. rewrite !decide_False; [by rewrite andb_false_r; unfold parsePlainQuantity; rewrite Ha|..];
      (apply takeEnd_absent with "i"%char; [by apply Itoa_ContainsByte|done]).
  - unfold parseResourceQuantity. rewrite decide_False by (rewrite str_app_eq_nil; tauto).
    pose proof (takeEnd_app (Itoa n) "m") as Ht. pose proof (dropEnd_app (Itoa n) "m") as Hd. simpl in Ht, Hd.
    by rewrite Ht, decide_True, Hd, Ha.
  - by apply Hscaled.
  - by apply Hscaled.
  - by apply Hscaled.
Qed.

Lemma parseResourceQuantity_units_witness : parseResourceQuantity "512Mi" = 512 * 2 ^ 20.
Proof.
  apply (parseResourceQuantity_units 512); unfold in_int64, int64_min, int64_max; lia.
Defined.
