(* ===== verification/IntentResolver.v ===== *)
(** * The intent resolver (src/controllers/intent.go)

    It turns the user's and the autoscaler's intents, the scale policy and the
    quota of a service into its effective instance count and resources, which the
    instance controller reads. The loops range over maps, so the order of the
    proposed changes is the runtime's. *)

From S2P Require Import Prelude GoStrings GoFmt Trie EventHistory MemoryStore StoreInvariant StoreProps.
From S2P Require Import StateStore PrefixSearch Keys Heap NodeHeap SchedulerFacts Placement Runner.
From S2P Require Import RunnerProps ControllerHelpers.

Local Open Scope Z_scope.

(** ** Reading the facts *)

Record scalePolicyBounds := mkBounds { boundsMin : Z; boundsMax : Z }.

Record autoscalerResourceIntent := mkResourceIntent { intentCPU : string; intentMemory : string }.

Definition extractIntentCounts (facts : list Fact) (prefix : string) : gmap string Z :=
  collectIntValuesBySuffix facts prefix "instances".

Definition extractPolicyBounds (facts : list Fact) : gmap string scalePolicyBounds :=
  foldl (λ bounds '(serviceName, suffix, value),
    let current := default (mkBounds 0 0) (bounds !! serviceName) in
    if decide (suffix = "scale/horizontal/min") then
      match Atoi value with
      | (parsedValue, None) => <[serviceName := mkBounds parsedValue (boundsMax current)]> bounds
      | (_, Some _) => bounds
      end
    else if decide (suffix = "scale/horizontal/max") then
      match Atoi value with
      | (parsedValue, None) => <[serviceName := mkBounds (boundsMin current) parsedValue]> bounds
      | (_, Some _) => bounds
      end
    else bounds) ∅ (entityFields facts ScanDesiredServices).

Definition extractEffectiveCounts (facts : list Fact) : gmap string Z :=
  collectIntValuesBySuffix facts ScanEffectiveServices "instances".

Definition extractQuotaCeilings (facts : list Fact) : gmap string Z :=
  collectIntValuesBySuffix facts ScanDesiredServices "quota/instances".

Definition extractAutoscalerResourceIntents (facts : list Fact) : gmap string autoscalerResourceIntent :=
  foldl (λ intents '(serviceName, suffix, value),
    let intent := default (mkResourceIntent "" "") (intents !! serviceName) in
    <[serviceName :=
        if decide (suffix = "resources/cpu") then mkResourceIntent value (intentMemory intent)
        else if decide (suffix = "resources/memory") then mkResourceIntent (intentCPU intent) value
        else intent]> intents) ∅ (entityFields facts ScanIntentAutoscalerServices).

(** The loop of [extractEffectiveResources] and [extractUserResources]. *)
Definition extractResources (facts : list Fact) (prefix : string) : gmap string string :=
  foldl (λ resources '(serviceName, suffix, value),
    if decide (suffix = "resources/cpu") then <[serviceName +:+ "/cpu" := value]> resources
    else if decide (suffix = "resources/memory") then <[serviceName +:+ "/memory" := value]> resources
    else resources) ∅ (entityFields facts prefix).

Definition extractEffectiveResources (facts : list Fact) : gmap string string :=
  extractResources facts ScanEffectiveServices.

Definition extractUserResources (facts : list Fact) : gmap string string :=
  extractResources facts ScanDesiredServices.

Definition extractDesiredPlacementModes (facts : list Fact) : gmap string string :=
  collectBySuffix id facts ScanDesiredServices "placement/mode".

Definition extractEffectivePlacementModes (facts : list Fact) : gmap string string :=
  collectBySuffix id facts ScanEffectiveServices "placement_mode".

Definition countAliveNodesFromFacts (facts : list Fact) : Z :=
  foldl (λ aliveCount '(_, suffix, value),
    if decide (suffix = "state" ∧ value = NodeAlive) then aliveCount + 1 else aliveCount)
    0 (entityFields facts ScanObservedNodes).

(** ** Resolving *)

(** The count of one service. *)
Definition effectiveCountOf (userCount : Z) (autoscaler : option Z) (bounds : option scalePolicyBounds)
    (quota : option Z) : Z :=
  let count0 :=
    match autoscaler with
    | Some autoscalerCount => if userCount <? autoscalerCount then autoscalerCount else userCount
    | None => userCount
    end in
  let count1 :=
    match bounds with
    | Some b =>
        let raised := if count0 <? boundsMin b then boundsMin b else count0 in
        if boundsMax b <? raised then boundsMax b else raised
    | None => count0
    end in
  match quota with
  | Some q => if q <? count1 then q else count1
  | None => count1
  end.

(** The count of a per-node service. *)
Definition perNodeCountOf (aliveNodeCount : Z) (bounds : option scalePolicyBounds) : Z :=
  match bounds with
  | Some b => if (0 <? boundsMax b) && (boundsMax b <? aliveNodeCount) then boundsMax b else aliveNodeCount
  | None => aliveNodeCount
  end.

Section resolve.
Context `{GoMapRange}.

Definition resolveEffectiveInstanceCountChanges (userIntents autoscalerIntents : gmap string Z)
    (policyBounds : gmap string scalePolicyBounds) (currentEffective quotaCeilings : gmap string Z)
    (placementModes : gmap string string) : list Change :=
  '(serviceName, userCount) ← map_range userIntents;
  if decide (fieldOf placementModes serviceName = "per-node") then []
  else
    let effectiveCount := effectiveCountOf userCount (autoscalerIntents !! serviceName)
                            (policyBounds !! serviceName) (quotaCeilings !! serviceName) in
    if decide (currentEffective !! serviceName = Some effectiveCount) then []
    else [mkChange OpPut (KeyEffectiveServiceInstances serviceName) (Itoa effectiveCount) ""].

(** One resource of one service: the autoscaler's value, or else the user's. *)
Definition resolveResource (key autoscalerValue userValue currentValue : string) : list Change :=
  if decide (autoscalerValue ≠ "") then
    if decide (autoscalerValue ≠ currentValue) then [mkChange OpPut key autoscalerValue ""] else []
  else if decide (userValue ≠ "") then
    if decide (userValue ≠ currentValue) then [mkChange OpPut key userValue ""] else []
  else [].

Definition resolveEffectiveResourceChanges (autoscalerResourceIntents : gmap string autoscalerResourceIntent)
    (currentEffectiveResources userResources : gmap string string) : list Change :=
  '(serviceName, autoscalerResources) ← map_range autoscalerResourceIntents;
  resolveResource (KeyEffectiveServiceResourcesCPU serviceName) (intentCPU autoscalerResources)
    (fieldOf userResources (serviceName +:+ "/cpu")) (fieldOf currentEffectiveResources (serviceName +:+ "/cpu")) ++
  resolveResource (KeyEffectiveServiceResourcesMemory serviceName) (intentMemory autoscalerResources)
    (fieldOf userResources (serviceName +:+ "/memory")) (fieldOf currentEffectiveResources (serviceName +:+ "/memory")).

Definition resolvePerNodePlacementChanges (placementModes : gmap string string) (currentEffective : gmap string Z)
    (currentEffectiveModes : gmap string string) (policyBounds : gmap string scalePolicyBounds) (aliveNodeCount : Z)
    : list Change :=
  '(serviceName, mode) ← map_range placementModes;
  if decide (mode ≠ "per-node") then []
  else
    let effectiveCount := perNodeCountOf aliveNodeCount (policyBounds !! serviceName) in
    (if decide (currentEffective !! serviceName = Some effectiveCount) then []
     else [mkChange OpPut (KeyEffectiveServiceInstances serviceName) (Itoa effectiveCount) ""]) ++
    (if decide (fieldOf currentEffectiveModes serviceName = "per-node") then []
     else [mkChange OpPut (KeyEffectiveServicePlacementMode serviceName) "per-node" ""]).

Definition IntentResolver_Watch : list string :=
  [ScanIntentUserServices; ScanIntentAutoscalerServices; ScanDesiredServices; ScanEffectiveServices; ScanObservedNodes].

Definition IntentResolver_Reconcile (facts : list Fact) : list Change :=
  let userIntents := extractIntentCounts facts ScanIntentUserServices in
  let autoscalerIntents := extractIntentCounts facts ScanIntentAutoscalerServices in
  let policyBounds := extractPolicyBounds facts in
  let currentEffective := extractEffectiveCounts facts in
  let quotaCeilings := extractQuotaCeilings facts in
  let placementModes := extractDesiredPlacementModes facts in
  resolvePerNodePlacementChanges placementModes currentEffective (extractEffectivePlacementModes facts)
    policyBounds (countAliveNodesFromFacts facts) ++
  resolveEffectiveInstanceCountChanges userIntents autoscalerIntents policyBounds currentEffective quotaCeilings
    placementModes ++
  resolveEffectiveResourceChanges (extractAutoscalerResourceIntents facts) (extractEffectiveResources facts)
    (extractUserResources facts).

End resolve.

(** * Properties of the intent resolver

    A cycle is characterised by what it wants: for some keys a value, and a test
    of the present value. It proposes exactly the values whose test fails, so
    that after a committed cycle there is nothing left to propose. *)

(** ** The keys of effective facts *)

#[export] Instance KeyEffectiveServiceInstances_inj : Inj (=) (=) KeyEffectiveServiceInstances.
Proof. intros a b E. do 2 apply (inj (String.app _)) in E. by eapply str_app_inj_r. Qed.

#[export] Instance KeyEffectiveServicePlacementMode_inj : Inj (=) (=) KeyEffectiveServicePlacementMode.
Proof. intros a b E. do 2 apply (inj (String.app _)) in E. by eapply str_app_inj_r. Qed.

#[export] Instance KeyEffectiveServiceResourcesCPU_inj : Inj (=) (=) KeyEffectiveServiceResourcesCPU.
Proof. intros a b E. do 2 apply (inj (String.app _)) in E. by eapply str_app_inj_r. Qed.

#[export] Instance KeyEffectiveServiceResourcesMemory_inj : Inj (=) (=) KeyEffectiveServiceResourcesMemory.
Proof. intros a b E. do 2 apply (inj (String.app _)) in E. by eapply str_app_inj_r. Qed.

(** The four kinds of keys by their last segment. *)
Inductive effectiveField := FieldInstances | FieldMode | FieldCPU | FieldMemory.

Definition effectiveKey (field : effectiveField) (s : string) : string :=
  match field with
  | FieldInstances => KeyEffectiveServiceInstances s
  | FieldMode => KeyEffectiveServicePlacementMode s
  | FieldCPU => KeyEffectiveServiceResourcesCPU s
  | FieldMemory => KeyEffectiveServiceResourcesMemory s
  end.

Definition lastSegment (field : effectiveField) : string :=
  match field with
  | FieldInstances => "instances" | FieldMode => "placement_mode" | FieldCPU => "cpu" | FieldMemory => "memory"
  end.

Lemma effectiveKey_last field s : ∃ p, effectiveKey field s = p +:+ "/" +:+ lastSegment field.
Proof.
  destruct field.
  - exists ("effective/service/" +:+ s). by rewrite str_app_assoc.
  - exists ("effective/service/" +:+ s). by rewrite str_app_assoc.
  - exists ("effective/service/" +:+ s +:+ "/resources"). by rewrite !str_app_assoc.
  - exists ("effective/service/" +:+ s +:+ "/resources"). by rewrite !str_app_assoc.
Qed.

Lemma effectiveKey_inj f1 s1 f2 s2 : effectiveKey f1 s1 = effectiveKey f2 s2 → f1 = f2 ∧ s1 = s2.
Proof.
  intros E. assert (f1 = f2) as ->.
  { destruct (effectiveKey_last f1 s1) as [p1 E1], (effectiveKey_last f2 s2) as [p2 E2]. rewrite E1, E2 in E.
    apply last_segment_inj in E as [_ E]; [by destruct f1, f2|by destruct f1|by destruct f2]. }
  split; [done|]. destruct f2; by apply (inj _) in E.
Qed.

Lemma effectiveKey_prefix field s : HasPrefix (effectiveKey field s) ScanEffectiveServices = true.
Proof. destruct field; apply HasPrefix_spec; eexists; reflexivity. Qed.

(** ** What the resolver reads *)

(** Facts that differ under "effective/service/" only read the same elsewhere. *)
Definition same_inputs (facts1 facts2 : list Fact) : Prop :=
  ∀ k, HasPrefix k ScanEffectiveServices = false → values_of facts1 !! k = values_of facts2 !! k.

(** Neither prefix extends the other: no key has both. *)
Definition prefixes_apart (p q : string) : bool := negb (HasPrefix p q) && negb (HasPrefix q p).

Lemma same_inputs_fields facts1 facts2 prefix :
  facts_wf facts1 → facts_wf facts2 → same_inputs facts1 facts2 → prefix ≠ "" →
  prefixes_apart prefix ScanEffectiveServices = true →
  entityFields facts1 prefix = entityFields facts2 prefix.
Proof.
  intros H1 H2 Hs Hp Ha. apply entityFields_values; [done..|]. intros k Hk. apply Hs.
  destruct (HasPrefix k ScanEffectiveServices) eqn:E; [|done]. unfold prefixes_apart in Ha. boolprop.
  by destruct (prefix_clash k prefix ScanEffectiveServices).
Qed.

(** The resource maps hold two entries per service. *)
Lemma extractResources_lookup facts prefix s :
  facts_wf facts → prefix ≠ "" → ContainsByte s slash = false →
  extractResources facts prefix !! (s +:+ "/cpu") = values_of facts !! (prefix +:+ s +:+ "/resources/cpu") ∧
  extractResources facts prefix !! (s +:+ "/memory") = values_of facts !! (prefix +:+ s +:+ "/resources/memory").
Proof.
  intros Hwf Hp Hs.
  assert (Hl : ∀ l, NoDup (fst <$> l) → ∀ e x, 
    let m := foldl (λ (m : gmap string string) '(n, suffix, v),
      if decide (suffix = "resources/cpu") then <[n +:+ "/cpu" := v]> m
      else if decide (suffix = "resources/memory") then <[n +:+ "/memory" := v]> m else m) ∅ l in
    (m !! (e +:+ "/cpu") = Some x ↔ (e, "resources/cpu", x) ∈ l) ∧
    (m !! (e +:+ "/memory") = Some x ↔ (e, "resources/memory", x) ∈ l)).
  { assert (Hne : ∀ a b, a +:+ "/cpu" ≠ b +:+ "/memory").
    { intros a b E. change "/cpu" with ("/" +:+ "cpu") in E. change "/memory" with ("/" +:+ "memory") in E.
      by apply last_segment_inj in E as [_ ?]. }
    induction l as [|[[n suffix] v] l IH] using rev_ind; intros Hnd e x; [split; set_solver|].
    rewrite fmap_app in Hnd. apply NoDup_app in Hnd as (Hnd & Hdis & _). specialize (IH Hnd e x). cbv zeta in *.
    rewrite foldl_app. simpl. set (m := foldl _ _ l) in *. destruct IH as [IH1 IH2].
    assert (Hout : ∀ y, (n, suffix, y) ∉ l).
    { intros y Hy. apply (Hdis (n, suffix)); [by apply (list_elem_of_fmap_2 fst l (n, suffix, y))|simpl; set_solver]. }
    rewrite !elem_of_app, !list_elem_of_singleton, <-IH1, <-IH2.
    destruct (decide (suffix = "resources/cpu")) as [->|H1]; [|destruct (decide (suffix = "resources/memory")) as [->|H2]].
    - rewrite (lookup_insert_ne _ (n +:+ "/cpu") (e +:+ "/memory")) by done. split; [|naive_solver].
      destruct (decide (n = e)) as [->|Hn]; [rewrite lookup_insert_eq|rewrite lookup_insert_ne by (intros E; by apply str_app_inj_r in E); naive_solver].
      rewrite IH1. specialize (Hout x). naive_solver.
    - rewrite (lookup_insert_ne _ (n +:+ "/memory") (e +:+ "/cpu")) by done. split; [naive_solver|].
      destruct (decide (n = e)) as [->|Hn]; [rewrite lookup_insert_eq|rewrite lookup_insert_ne by (intros E; by apply str_app_inj_r in E); naive_solver].
      rewrite IH2. specialize (Hout x). naive_solver.
    - naive_solver. }
  specialize (Hl _ (entityFields_unique facts prefix Hwf Hp)). cbv zeta in Hl.
  split; apply option_eq; intros x; unfold extractResources; destruct (Hl s x) as [H1 H2]; [rewrite H1|rewrite H2];
    rewrite elem_of_entityFields by done; naive_solver.
Qed.

(** ** What the resolver wants *)

Definition countTest (n : Z) (current : option string) : Prop := (λ v, fst (Atoi v)) <$> current = Some n.
Definition valueTest (v : string) (current : option string) : Prop := default "" current = v.

(** The autoscaler's resource, or else the user's. *)
Definition preferred (autoscalerValue userValue : string) : string :=
  if decide (autoscalerValue ≠ "") then autoscalerValue else userValue.

(** The instance count of a service that is not per-node. *)
Definition countFor (facts : list Fact) (s : string) (userCount : Z) : Z :=
  effectiveCountOf userCount (extractIntentCounts facts ScanIntentAutoscalerServices !! s)
    (extractPolicyBounds facts !! s) (extractQuotaCeilings facts !! s).

(** The instance count of a per-node service. *)
Definition perNodeCountFor (facts : list Fact) (s : string) : Z :=
  perNodeCountOf (countAliveNodesFromFacts facts) (extractPolicyBounds facts !! s).

(** Field, service, value to write, and the test that makes writing unnecessary. *)
Inductive wanted (facts : list Fact) : effectiveField → string → string → (option string → Prop) → Prop :=
| wanted_count s u :
    extractIntentCounts facts ScanIntentUserServices !! s = Some u →
    fieldOf (extractDesiredPlacementModes facts) s ≠ "per-node" →
    wanted facts FieldInstances s (Itoa (countFor facts s u)) (countTest (countFor facts s u))
| wanted_perNode s :
    extractDesiredPlacementModes facts !! s = Some "per-node" →
    wanted facts FieldInstances s (Itoa (perNodeCountFor facts s)) (countTest (perNodeCountFor facts s))
| wanted_mode s :
    extractDesiredPlacementModes facts !! s = Some "per-node" →
    wanted facts FieldMode s "per-node" (valueTest "per-node")
| wanted_cpu s r v :
    extractAutoscalerResourceIntents facts !! s = Some r →
    v = preferred (intentCPU r) (fieldOf (extractUserResources facts) (s +:+ "/cpu")) → v ≠ "" →
    wanted facts FieldCPU s v (valueTest v)
| wanted_memory s r v :
    extractAutoscalerResourceIntents facts !! s = Some r →
    v = preferred (intentMemory r) (fieldOf (extractUserResources facts) (s +:+ "/memory")) → v ≠ "" →
    wanted facts FieldMemory s v (valueTest v).

Lemma resolveResource_elem key a u current c :
  c ∈ resolveResource key a u current ↔
  preferred a u ≠ "" ∧ current ≠ preferred a u ∧ c = mkChange OpPut key (preferred a u) "".
Proof.
  unfold resolveResource, preferred. repeat case_decide; rewrite ?list_elem_of_singleton, ?elem_of_nil; naive_solver.
Qed.

(** Names under a prefix hold no separator. *)
Lemma collectBySuffix_segment {A} (convert : string → A) facts prefix suffix s x :
  facts_wf facts → prefix ≠ "" → collectBySuffix convert facts prefix suffix !! s = Some x → ContainsByte s slash = false.
Proof. intros Hwf Hp. rewrite collectBySuffix_lookup by done. by destruct (ContainsByte s slash). Qed.

Lemma autoscalerIntents_segment facts s r :
  facts_wf facts → extractAutoscalerResourceIntents facts !! s = Some r → ContainsByte s slash = false.
Proof.
  intros Hwf Hs. assert (Hl : ∀ (m : gmap string autoscalerResourceIntent) s, is_Some (m !! s) → m = extractAutoscalerResourceIntents facts →
    ∃ suffix v, (s, suffix, v) ∈ entityFields facts ScanIntentAutoscalerServices).
  { intros m s' Hm ->. revert s' Hm. unfold extractAutoscalerResourceIntents.
    generalize (entityFields facts ScanIntentAutoscalerServices). induction l as [|[[n suffix] v] l IH] using rev_ind; intros s' Hm.
    { by destruct Hm. }
    rewrite foldl_app in Hm. simpl in Hm. apply lookup_insert_is_Some in Hm as [->|[_ Hm]].
    - exists suffix, v. set_solver.
    - destruct (IH _ Hm) as (suffix' & v' & Hin). exists suffix', v'. set_solver. }
  destruct (Hl _ s (mk_is_Some _ _ Hs) eq_refl) as (suffix & v & Hin). by apply elem_of_entityFields in Hin as [? _].
Qed.

Local Ltac segment H := eapply collectBySuffix_segment; [| |exact H]; done.

Section cycle.
Context `{GoMapRange}.

Lemma countChange_elem facts s n v c :
  facts_wf facts → ContainsByte s slash = false →
  c ∈ (if decide (extractEffectiveCounts facts !! s = Some n) then []
       else [mkChange OpPut (KeyEffectiveServiceInstances s) v ""]) ↔
  ¬ countTest n (values_of facts !! effectiveKey FieldInstances s) ∧ c = mkChange OpPut (KeyEffectiveServiceInstances s) v "".
Proof.
  intros Hwf Hs. unfold extractEffectiveCounts, collectIntValuesBySuffix. rewrite collectBySuffix_lookup by done. rewrite Hs.
  unfold countTest, effectiveKey, KeyEffectiveServiceInstances, ScanEffectiveServices.
  rewrite !str_app_assoc. case_decide; rewrite ?elem_of_nil, ?list_elem_of_singleton; naive_solver.
Qed.

(** The changes of a cycle are the wants whose test fails. *)
Lemma Reconcile_wanted facts c :
  facts_wf facts →
  c ∈ IntentResolver_Reconcile facts ↔
  ∃ field s v test, wanted facts field s v test ∧ ¬ test (values_of facts !! effectiveKey field s) ∧
    c = mkChange OpPut (effectiveKey field s) v "".
Proof.
  intros Hwf. unfold IntentResolver_Reconcile, resolvePerNodePlacementChanges, resolveEffectiveInstanceCountChanges,
    resolveEffectiveResourceChanges. rewrite !elem_of_app, !list_elem_of_bind. split.
  - intros [([s mode] & Hc & Hm)|[([s u] & Hc & Hm)|([s r] & Hc & Hm)]]; apply elem_of_map_range in Hm.
    + destruct (decide (mode ≠ "per-node")) as [|Hmode]; [by apply elem_of_nil in Hc|]. apply dec_stable in Hmode as ->.
      assert (Hseg : ContainsByte s slash = false) by (segment Hm).
      apply elem_of_app in Hc as [Hc|Hc].
      * apply countChange_elem in Hc as [? ->]; [|done..]. by do 4 eexists; split; [by apply wanted_perNode|].
      * do 4 eexists; split; [by apply wanted_mode|]. unfold valueTest, fieldOf, extractEffectivePlacementModes in *.
        rewrite collectBySuffix_lookup, Hseg in Hc by done. unfold effectiveKey, KeyEffectiveServicePlacementMode, ScanEffectiveServices in *.
        rewrite !str_app_assoc in Hc. case_decide; [by apply elem_of_nil in Hc|]. apply list_elem_of_singleton in Hc as ->.
        split; [|done]. by destruct (values_of facts !! _).
    + case_decide as Hmode; [by apply elem_of_nil in Hc|].
      apply countChange_elem in Hc as [? ->]; [|done|segment Hm].
      by do 4 eexists; split; [by apply wanted_count|].
    + assert (Hseg : ContainsByte s slash = false) by (by eapply autoscalerIntents_segment).
      destruct (extractResources_lookup facts ScanEffectiveServices s Hwf ltac:(done) Hseg) as [E1 E2].
      apply elem_of_app in Hc as [Hc|Hc]; apply resolveResource_elem in Hc as (Hne & Hcur & ->); do 4 eexists;
        (split; [first [by eapply wanted_cpu|by eapply wanted_memory]|]); (split; [|done]); unfold valueTest, fieldOf, extractEffectiveResources in *.
      * rewrite E1 in Hcur. done.
      * rewrite E2 in Hcur. done.
  - intros (field & s & v & test & Hw & Ht & ->). destruct Hw as [s u Hu Hmode|s Hmode|s Hmode|s r v Hr -> Hne|s r v Hr -> Hne].
    + right; left. exists (s, u). split; [|by apply elem_of_map_range]. rewrite decide_False by done.
      apply countChange_elem; [done|segment Hu|done].
    + left. exists (s, "per-node"). split; [|by apply elem_of_map_range]. rewrite decide_False by tauto.
      apply elem_of_app. left. apply countChange_elem; [done|segment Hmode|done].
    + left. exists (s, "per-node"). split; [|by apply elem_of_map_range]. rewrite decide_False by tauto.
      apply elem_of_app. right. assert (Hseg : ContainsByte s slash = false) by (segment Hmode).
      unfold valueTest, fieldOf, extractEffectivePlacementModes in *. rewrite collectBySuffix_lookup, Hseg by done.
      unfold effectiveKey, KeyEffectiveServicePlacementMode, ScanEffectiveServices in *. rewrite !str_app_assoc, option_fmap_id.
      rewrite decide_False by done. set_solver.
    + right; right. exists (s, r). split; [|by apply elem_of_map_range]. apply elem_of_app. left. apply resolveResource_elem.
      split_and!; [done| |done]. assert (Hseg : ContainsByte s slash = false) by (by eapply autoscalerIntents_segment).
      unfold fieldOf, extractEffectiveResources. by rewrite (proj1 (extractResources_lookup facts ScanEffectiveServices s Hwf ltac:(done) Hseg)).
    + right; right. exists (s, r). split; [|by apply elem_of_map_range]. apply elem_of_app. right. apply resolveResource_elem.
      split_and!; [done| |done]. assert (Hseg : ContainsByte s slash = false) by (by eapply autoscalerIntents_segment).
      unfold fieldOf, extractEffectiveResources. by rewrite (proj2 (extractResources_lookup facts ScanEffectiveServices s Hwf ltac:(done) Hseg)).
Qed.

(** ** No key twice *)

Lemma service_keys_nodup {V} (m : gmap string V) (g : string * V → list Change) :
  (∀ x, NoDup (ChangeKey <$> g x)) →
  (∀ x c, c ∈ g x → ∃ field, ChangeKey c = effectiveKey field (fst x)) →
  NoDup (ChangeKey <$> (map_range m ≫= g)).
Proof.
  intros Hnd Hkey. rewrite list_fmap_bind. apply NoDup_bind; [|done|].
  - intros [s1 v1] [s2 v2] k H1%elem_of_map_range H2%elem_of_map_range. rewrite !list_elem_of_fmap.
    intros (c1 & -> & Hc1) (c2 & E & Hc2). destruct (Hkey _ _ Hc1) as [f1 E1], (Hkey _ _ Hc2) as [f2 E2].
    rewrite E1, E2 in E. apply effectiveKey_inj in E as [_ Es]. simpl in Es. congruence.
  - eapply (NoDup_fmap_1 fst), map_range_keys_nodup.
Qed.

(** At most one change, of the given key. *)
Definition atMostOne (key : string) (l : list Change) : Prop := l = [] ∨ ∃ v, l = [mkChange OpPut key v ""].

Lemma two_fields_nodup f1 f2 s l1 l2 :
  f1 ≠ f2 → atMostOne (effectiveKey f1 s) l1 → atMostOne (effectiveKey f2 s) l2 → NoDup (ChangeKey <$> (l1 ++ l2)).
Proof.
  intros Hf [->|[v1 ->]] [->|[v2 ->]]; simpl; repeat constructor; try set_solver.
  rewrite list_elem_of_singleton. by intros [? _]%effectiveKey_inj.
Qed.

Lemma two_fields_elem f1 f2 s l1 l2 c :
  atMostOne (effectiveKey f1 s) l1 → atMostOne (effectiveKey f2 s) l2 → c ∈ l1 ++ l2 →
  ChangeKey c = effectiveKey f1 s ∨ ChangeKey c = effectiveKey f2 s.
Proof. intros [->|[v1 ->]] [->|[v2 ->]]; simpl; rewrite ?elem_of_cons, ?elem_of_nil; naive_solver. Qed.

Lemma atMostOne_if (P : Prop) `{Decision P} key v : atMostOne key (if decide P then [] else [mkChange OpPut key v ""]).
Proof. case_decide; [by left|right; eauto]. Qed.

Lemma resolveResource_atMostOne key a u cur : atMostOne key (resolveResource key a u cur).
Proof. unfold resolveResource. repeat case_decide; first [by left|right; eauto]. Qed.

Section parts.
Context (modes : gmap string string).

(** The keys of the three parts of a cycle, by field and service. *)
Lemma perNode_keys current currentModes bounds alive :
  let keys := ChangeKey <$> resolvePerNodePlacementChanges modes current currentModes bounds alive in
  NoDup keys ∧ ∀ k, k ∈ keys →
    ∃ f s, k = effectiveKey f s ∧ (f = FieldInstances ∨ f = FieldMode) ∧ fieldOf modes s = "per-node".
Proof.
  split.
  - apply service_keys_nodup; intros [s mode]; (case_decide; [|]).
    + constructor.
    + apply (two_fields_nodup FieldInstances FieldMode s); [done|apply atMostOne_if..].
    + set_solver.
    + intros c Hc. destruct (two_fields_elem FieldInstances FieldMode s _ _ c (atMostOne_if _ _ _) (atMostOne_if _ _ _) Hc); eauto.
  - intros k (c & -> & Hc)%list_elem_of_fmap. apply list_elem_of_bind in Hc as ([s mode] & Hc & Hm%elem_of_map_range).
    case_decide as Hmode; [set_solver|]. subst mode. assert (fieldOf modes s = "per-node") by (unfold fieldOf; by rewrite Hm).
    destruct (two_fields_elem FieldInstances FieldMode s _ _ c (atMostOne_if _ _ _) (atMostOne_if _ _ _) Hc); eauto 10.
Qed.

Lemma counts_keys user autoscaler bounds current quota :
  let keys := ChangeKey <$> resolveEffectiveInstanceCountChanges user autoscaler bounds current quota modes in
  NoDup keys ∧ ∀ k, k ∈ keys → ∃ s, k = effectiveKey FieldInstances s ∧ fieldOf modes s ≠ "per-node".
Proof.
  split.
  - apply service_keys_nodup; intros [s u]; (case_decide; [|]).
    + constructor.
    + cbv zeta. case_decide; simpl; repeat constructor; set_solver.
    + set_solver.
    + intros c Hc. exists FieldInstances. cbv zeta in Hc. case_decide; set_solver.
  - intros k (c & -> & Hc)%list_elem_of_fmap. apply list_elem_of_bind in Hc as ([s u] & Hc & _).
    case_decide; [set_solver|]. exists s. cbv zeta in Hc. case_decide; set_solver.
Qed.

Lemma resources_keys intents current user :
  let keys := ChangeKey <$> resolveEffectiveResourceChanges intents current user in
  NoDup keys ∧ ∀ k, k ∈ keys → ∃ f s, k = effectiveKey f s ∧ (f = FieldCPU ∨ f = FieldMemory).
Proof.
  split.
  - apply service_keys_nodup; intros [s r].
    + apply (two_fields_nodup FieldCPU FieldMemory s); [done|apply resolveResource_atMostOne..].
    + intros c Hc. destruct (two_fields_elem FieldCPU FieldMemory s _ _ c
        (resolveResource_atMostOne _ _ _ _) (resolveResource_atMostOne _ _ _ _) Hc); eauto.
  - intros k (c & -> & Hc)%list_elem_of_fmap. apply list_elem_of_bind in Hc as ([s r] & Hc & _).
    destruct (two_fields_elem FieldCPU FieldMemory s _ _ c
        (resolveResource_atMostOne _ _ _ _) (resolveResource_atMostOne _ _ _ _) Hc); eauto.
Qed.

End parts.

Lemma Reconcile_nodup facts : NoDup (ChangeKey <$> IntentResolver_Reconcile facts).
Proof.
  unfold IntentResolver_Reconcile. rewrite !fmap_app. set (modes := extractDesiredPlacementModes facts).
  edestruct (perNode_keys modes) as [N1 K1]. edestruct (counts_keys modes) as [N2 K2]. edestruct resources_keys as [N3 K3].
  apply NoDup_app. split_and!; [exact N1| |apply NoDup_app; split_and!; [exact N2| |exact N3]].
  - intros k (f & s & -> & Hf & Hm)%K1. rewrite elem_of_app.
    intros [(s' & [-> ->]%effectiveKey_inj & ?)%K2|(f' & s' & [-> ->]%effectiveKey_inj & ?)%K3]; naive_solver.
  - intros k (s & -> & Hm)%K2 (f' & s' & [<- _]%effectiveKey_inj & [?|?])%K3; done.
Qed.

(** ** One cycle is enough *)

Lemma wanted_unique facts field s v1 test1 v2 test2 :
  wanted facts field s v1 test1 → wanted facts field s v2 test2 → v1 = v2 ∧ test1 = test2.
Proof.
  intros H1 H2. destruct H1; inversion H2; simplify_eq; try done.
  - exfalso. match goal with H : fieldOf _ _ ≠ _ |- _ => apply H end. unfold fieldOf. by match goal with H : _ !! _ = Some "per-node" |- _ => rewrite H end.
  - exfalso. match goal with H : fieldOf _ _ ≠ _ |- _ => apply H end. unfold fieldOf. by match goal with H : _ !! _ = Some "per-node" |- _ => rewrite H end.
Qed.

(** The resolver wants the same whatever is under "effective/service/". *)
Lemma wanted_same_inputs facts1 facts2 field s v test :
  facts_wf facts1 → facts_wf facts2 → same_inputs facts1 facts2 →
  wanted facts1 field s v test → wanted facts2 field s v test.
Proof.
  intros H1 H2 Hs. pose proof (same_inputs_fields facts1 facts2 ScanIntentUserServices H1 H2 Hs ltac:(done) eq_refl) as E1.
  pose proof (same_inputs_fields facts1 facts2 ScanIntentAutoscalerServices H1 H2 Hs ltac:(done) eq_refl) as E2.
  pose proof (same_inputs_fields facts1 facts2 ScanDesiredServices H1 H2 Hs ltac:(done) eq_refl) as E3.
  pose proof (same_inputs_fields facts1 facts2 ScanObservedNodes H1 H2 Hs ltac:(done) eq_refl) as E4.
  assert (Em : extractDesiredPlacementModes facts1 = extractDesiredPlacementModes facts2)
    by (unfold extractDesiredPlacementModes, collectBySuffix; by rewrite E3).
  assert (Eu : extractIntentCounts facts1 ScanIntentUserServices = extractIntentCounts facts2 ScanIntentUserServices)
    by (unfold extractIntentCounts, collectIntValuesBySuffix, collectBySuffix; by rewrite E1).
  assert (Er : extractAutoscalerResourceIntents facts1 = extractAutoscalerResourceIntents facts2)
    by (unfold extractAutoscalerResourceIntents; by rewrite E2).
  assert (Ex : extractUserResources facts1 = extractUserResources facts2)
    by (unfold extractUserResources, extractResources; by rewrite E3).
  assert (Eb : extractPolicyBounds facts1 = extractPolicyBounds facts2) by (unfold extractPolicyBounds; by rewrite E3).
  assert (Ec : ∀ s u, countFor facts1 s u = countFor facts2 s u).
  { intros. unfold countFor, extractIntentCounts, extractQuotaCeilings, collectIntValuesBySuffix, collectBySuffix.
    by rewrite E2, E3, Eb. }
  assert (Ep : ∀ s, perNodeCountFor facts1 s = perNodeCountFor facts2 s).
  { intros. unfold perNodeCountFor, countAliveNodesFromFacts. by rewrite E4, Eb. }
  destruct 1; rewrite ?Em, ?Eu, ?Er, ?Ex, ?Ec, ?Ep in *; by econstructor.
Qed.

(** ** Ranges *)

Lemma Atoi_range v : in_int64 (fst (Atoi v)).
Proof. apply ParseInt_range. Qed.

Lemma collectInt_range facts prefix suffix s n : collectIntValuesBySuffix facts prefix suffix !! s = Some n → in_int64 n.
Proof.
  unfold collectIntValuesBySuffix, collectBySuffix. generalize (entityFields facts prefix).
  induction l as [|[[e x] v] l IH] using rev_ind; [done|]. rewrite foldl_app. simpl. case_decide; [|done].
  destruct (decide (e = s)) as [->|Hne]; [rewrite lookup_insert_eq; intros [= <-]; apply Atoi_range|].
  by rewrite lookup_insert_ne.
Qed.

Lemma policyBounds_range facts s b : extractPolicyBounds facts !! s = Some b → in_int64 (boundsMin b) ∧ in_int64 (boundsMax b).
Proof.
  assert (H0 : in_int64 0) by (unfold in_int64, int64_min, int64_max; lia).
  assert (Hall : map_Forall (λ _ b, in_int64 (boundsMin b) ∧ in_int64 (boundsMax b)) (extractPolicyBounds facts)).
  { unfold extractPolicyBounds. apply foldl_inv; [apply map_Forall_empty|]. intros m [[e x] v] _ Hm.
    assert (Hd : in_int64 (boundsMin (default (mkBounds 0 0) (m !! e))) ∧ in_int64 (boundsMax (default (mkBounds 0 0) (m !! e)))).
    { destruct (m !! e) as [b0|] eqn:E; [exact (Hm _ _ E)|done]. }
    pose proof (Atoi_range v). repeat case_decide; try done; destruct (Atoi v) as [n [err|]]; try done;
      (apply map_Forall_insert_2; [simpl in *; tauto|done]). }
  intros Hb. exact (Hall _ _ Hb).
Qed.

Lemma countAlive_range facts :
  Z.of_nat (length facts) ≤ int64_max → in_int64 (countAliveNodesFromFacts facts).
Proof.
  intros Hlen. unfold countAliveNodesFromFacts.
  assert (Hl : ∀ l n, n ≤ foldl (λ a '(_, x, v), if decide (x = "state" ∧ v = NodeAlive) then a + 1 else a) n
    (l : list (string * string * string)) ≤ n + Z.of_nat (length l)).
  { induction l as [|[[e x] v] l IH]; intros n; simpl; [lia|]. case_decide; [specialize (IH (n + 1))|specialize (IH n)]; lia. }
  assert (Hle : (length (entityFields facts ScanObservedNodes) ≤ length facts)%nat).
  { unfold entityFields, FactsWithPrefix. destruct (FindPrefixRange _ _) as [a b]. etrans; [apply omap_length|].
    case_match; [simpl; lia|]. rewrite length_take, length_drop. lia. }
  specialize (Hl (entityFields facts ScanObservedNodes) 0). unfold in_int64, int64_min. lia.
Qed.

Lemma wanted_test facts field s v test :
  Z.of_nat (length facts) ≤ int64_max → wanted facts field s v test → test (Some v).
Proof.
  intros Hlen Hw. assert (Hcount : ∀ n, in_int64 n → countTest n (Some (Itoa n))).
  { intros n Hn. unfold countTest. simpl. by rewrite Atoi_Itoa. }
  destruct Hw as [s u Hu _|s _| | |]; [..|done|done|done]; apply Hcount.
  - unfold countFor, effectiveCountOf. apply collectInt_range in Hu.
    destruct (extractIntentCounts facts ScanIntentAutoscalerServices !! s) as [a|] eqn:Ea; [apply collectInt_range in Ea|];
    destruct (extractPolicyBounds facts !! s) as [b|] eqn:Eb; [apply policyBounds_range in Eb as [? ?]| |apply policyBounds_range in Eb as [? ?]|];
    destruct (extractQuotaCeilings facts !! s) as [q|] eqn:Eq; try (apply collectInt_range in Eq); repeat case_match; done.
  - unfold perNodeCountFor, perNodeCountOf. pose proof (countAlive_range facts Hlen).
    destruct (extractPolicyBounds facts !! s) as [b|] eqn:Eb; [|done]. apply policyBounds_range in Eb as [? ?]. by case_match.
Qed.

Lemma wanted_stable facts field s v test : wanted facts field s v test → ∀ current, ¬ ¬ test current → test current.
Proof. destruct 1; intros current; unfold countTest, valueTest; apply dec_stable. Qed.

(** ** Claims *)


End cycle.

(** Where the policy and the quota leave room, the count respects them: it is
    within the bounds of the policy, not above the quota, and is the larger of
    the two intents when that is already allowed. *)
Theorem effectiveCountOf_bounds user autoscaler b quota :
  boundsMin b ≤ boundsMax b → (∀ q, quota = Some q → boundsMin b ≤ q) →
  let n := effectiveCountOf user autoscaler (Some b) quota in
  boundsMin b ≤ n ≤ boundsMax b ∧ (∀ q, quota = Some q → n ≤ q) ∧
  (let m := Z.max user (default user autoscaler) in
   boundsMin b ≤ m ≤ boundsMax b → (∀ q, quota = Some q → m ≤ q) → n = m).
Proof.
  intros Hb Hq. unfold effectiveCountOf.
  assert (Hmax : ∀ x y, (if x <? y then y else x) = Z.max x y) by (intros x y; destruct (Z.ltb_spec x y); lia).
  assert (Hmin : ∀ x y, (if x <? y then x else y) = Z.min x y) by (intros x y; destruct (Z.ltb_spec x y); lia).
  rewrite Hmax, Hmin. destruct quota as [q|]; [specialize (Hq q eq_refl); rewrite Hmin|]; destruct autoscaler as [a|];
    simpl; rewrite ?Hmax; split_and!; intros; simplify_eq; try lia.
  all: match goal with H : ∀ q, _ → _ ≤ q |- _ => specialize (H _ eq_refl) end; lia.
Qed.

(** ** A cycle on concrete facts *)

Definition fact (k v : string) : Fact := mkFact k v 1 1 0.

Definition intentFacts : list Fact :=
  [fact "desired/service/logs/placement/mode" "per-node"; fact "desired/service/web/scale/horizontal/max" "5";
   fact "desired/service/web/scale/horizontal/min" "2"; fact "intent/user/service/web/instances" "7";
   fact "observed/node/n1/state" "alive"; fact "observed/node/n2/state" "alive"].

Definition resolvedFacts : list Fact :=
  take 3 intentFacts ++
  [fact "effective/service/logs/instances" "2"; fact "effective/service/logs/placement_mode" "per-node";
   fact "effective/service/web/instances" "5"] ++ drop 3 intentFacts.


Lemma effectiveCountOf_bounds_witness : 2 ≤ effectiveCountOf 7 (Some 9) (Some (mkBounds 2 5)) (Some 4) ≤ 5.
Proof. apply (effectiveCountOf_bounds 7 (Some 9) (mkBounds 2 5) (Some 4)); simpl; [lia|]. intros q [= <-]. lia. Defined.
