(* ===== verification/InstanceController.v ===== *)
(** * The instance controller (src/controllers/instance.go)

    It compares the effective instance count of every service with its active
    instances and creates or stops instances. The generator of instance IDs is
    part of the controller's state: [NewID n] is the answer to the [n]-th call.
    Log output is left out. Lengths and counts of instances are unbounded
    integers; counts that come from facts keep their 64-bit width. *)

From S2P Require Import Prelude GoStrings GoFmt Trie EventHistory MemoryStore StoreInvariant StoreProps.
From S2P Require Import StateStore PrefixSearch Keys Heap NodeHeap SchedulerFacts Placement Runner.
From S2P Require Import ControllerHelpers.

Local Open Scope Z_scope.

Definition defaultMaxInstanceCreationsPerCycle : Z := 19.
Definition maxInstanceControllerChangesPerCycle : Z := 58.

Record InstanceController := mkInstanceController {
  NewID : nat → string;
  idsDrawn : nat;
  MaxCreationsPerCycle : Z
}.

Definition NewInstanceController (newID : nat → string) : InstanceController :=
  mkInstanceController newID 0 defaultMaxInstanceCreationsPerCycle.

Definition InstanceController_Watch : list string :=
  [ScanEffectiveServices; ScanObservedInstances; ScanDerivedInstances; ScanDerivedServices].

(** [groupedChanges] of controller.go: the changes with their group set. *)
Definition groupedChanges (groupID : string) (changes : list Change) : list Change :=
  (λ c, mkChange (ChangeType c) (ChangeKey c) (ChangeValue c) groupID) <$> changes.

(** ** Reading the facts *)

(** Desired counts, stateful services, per-node services. *)
Record effectiveServices := mkEffective {
  desiredCounts : gmap string Z;
  statefulServices : gmap string bool;
  perNodeServices : gmap string bool
}.

Definition parseEffectiveServiceFacts (facts : list Fact) : effectiveServices :=
  foldl (λ acc '(serviceName, suffix, value),
    if decide (suffix = "instances") then
      match Atoi value with
      | (parsedCount, None) =>
          mkEffective (<[serviceName := parsedCount]> (desiredCounts acc)) (statefulServices acc) (perNodeServices acc)
      | (_, Some _) => acc
      end
    else if decide (suffix = "stateful") then
      mkEffective (desiredCounts acc) (<[serviceName := bool_decide (value = "true")]> (statefulServices acc))
                  (perNodeServices acc)
    else if decide (suffix = "placement_mode") then
      mkEffective (desiredCounts acc) (statefulServices acc)
                  (<[serviceName := bool_decide (value = "per-node")]> (perNodeServices acc))
    else acc) (mkEffective ∅ ∅ ∅) (entityFields facts ScanEffectiveServices).

Definition extractSurgeAllowances (facts : list Fact) : gmap string Z :=
  foldl (λ allowances '(serviceName, suffix, value),
    if decide (suffix = "rollout/surge_allowance") then
      match Atoi value with
      | (parsedValue, None) => <[serviceName := parsedValue]> allowances
      | (_, Some _) => allowances
      end
    else allowances) ∅ (entityFields facts ScanDerivedServices).

(** [desiredCounts[serviceName] += surgeCount] for every allowance; the keys are
    distinct, so the order of the loop does not matter. *)
Definition addSurge (counts allowances : gmap string Z) : gmap string Z :=
  merge (λ count surge, match surge with
                        | Some surgeCount => Some (default 0 count +! surgeCount)%go
                        | None => count
                        end) counts allowances.

(** [m[key]] of a [map[string]bool]. *)
Definition flagOf (m : gmap string bool) (key : string) : bool := default false (m !! key).

Definition buildInstanceMapsFromFields (fieldsByInstanceID : gmap string (gmap string string))
    : gmap string string * gmap string string :=
  (effectiveInstanceState <$> fieldsByInstanceID,
   omap (λ fields, if decide (fieldOf fields "service" ≠ "") then Some (fieldOf fields "service") else None)
        fieldsByInstanceID).

Section reconcile.
Context `{GoMapRange}.

Definition sortedMapKeys {V} (m : gmap string V) : list string := sort_strings (fst <$> map_range m).

Definition buildActiveInstanceIDsByService (serviceByInstanceID stateByInstanceID : gmap string string)
    : gmap string (list string) :=
  foldl (λ activeInstanceIDs instanceID,
    let serviceName := fieldOf serviceByInstanceID instanceID in
    if decide (fieldOf stateByInstanceID instanceID = InstanceStopped) then activeInstanceIDs
    else <[serviceName := default [] (activeInstanceIDs !! serviceName) ++ [instanceID]]> activeInstanceIDs)
    ∅ (sortedMapKeys serviceByInstanceID).

Definition buildActiveIDsFromFields (serviceName : string) (fieldsByInstanceID : gmap string (gmap string string))
    (stateByInstanceID : gmap string string) : list string :=
  sort_strings (omap (λ '(instanceID, fields),
    if decide (fieldOf fields "service" ≠ serviceName) then None
    else if decide (fieldOf stateByInstanceID instanceID ≠ InstanceStopped) then Some instanceID
    else None) (map_range fieldsByInstanceID)).

(** ** Stateful services *)

(** [sort.Ints] *)
Definition sort_ints (l : list Z) : list Z := sort_stable Z.ltb l.

Definition parseExistingOrdinals (serviceName : string) (activeIDs : list string) : list Z :=
  let prefix := serviceName +:+ "-" in
  sort_ints (omap (λ instanceID,
    if HasPrefix instanceID prefix then
      match Atoi (TrimPrefix instanceID prefix) with
      | (ordinal, None) => Some ordinal
      | (_, Some _) => None
      end
    else None) activeIDs).

Definition ordinalID (serviceName : string) (ordinal : Z) : string := serviceName +:+ "-" +:+ Itoa ordinal.

(** The changes that create one ordinal. *)
Definition createOrdinal (serviceName : string) (nextOrdinal : Z)
    (fieldsByInstanceID : gmap string (gmap string string)) : list Change :=
  let instanceID := ordinalID serviceName nextOrdinal in
  let groupID := "instance-create/" +:+ instanceID in
  let previousFields := default ∅ (fieldsByInstanceID !! instanceID) in
  groupedChanges groupID
    [mkChange OpPut (KeyObservedInstance instanceID) "" "";
     mkChange OpPut (KeyObservedInstanceService instanceID) serviceName "";
     mkChange OpPut (KeyObservedInstanceState instanceID) InstancePending "";
     mkChange OpPut (KeyObservedInstanceOrdinal instanceID) (Itoa nextOrdinal) ""] ++
  (if decide (fieldOf previousFields "controller_stopped" = "true")
   then [mkChange OpDelete (KeyDerivedInstanceControllerStopped instanceID) "" groupID] else []) ++
  (if decide (fieldOf previousFields "node_failure" = "true")
   then [mkChange OpDelete (KeyDerivedInstanceNodeFailure instanceID) "" groupID] else []).

(** [for nextOrdinal := range wantCount]: the iterations that remain, and the
    next ordinal. *)
Fixpoint nextStatefulLoop (remaining : nat) (nextOrdinal : Z) (serviceName : string) (ordinalSet : gset Z)
    (stateByInstanceID : gmap string string) (fieldsByInstanceID : gmap string (gmap string string)) : list Change :=
  match remaining with
  | 0%nat => []
  | S remaining' =>
      if decide (nextOrdinal ∈ ordinalSet) then
        if decide (fieldOf stateByInstanceID (ordinalID serviceName nextOrdinal) ≠ InstanceRunning) then []
        else nextStatefulLoop remaining' (nextOrdinal + 1) serviceName ordinalSet stateByInstanceID fieldsByInstanceID
      else createOrdinal serviceName nextOrdinal fieldsByInstanceID
  end.

Definition createNextStatefulInstance (serviceName : string) (wantCount : Z) (existingOrdinals : list Z)
    (stateByInstanceID : gmap string string) (fieldsByInstanceID : gmap string (gmap string string)) : list Change :=
  nextStatefulLoop (Z.to_nat wantCount) 0 serviceName (list_to_set existingOrdinals) stateByInstanceID fieldsByInstanceID.

Definition stopChange (instanceID : string) : Change :=
  mkChange OpPut (KeyDerivedInstanceControllerStopped instanceID) "true" "".

(** The loop from the last ordinal down, at most [count] times. *)
Definition stopHighestOrdinalInstances (serviceName : string) (existingOrdinals : list Z) (count : Z) : list Change :=
  (λ ordinal, stopChange (ordinalID serviceName ordinal)) <$> take (Z.to_nat count) (reverse existingOrdinals).

(** ** Stateless and per-node services *)

Definition selectInstancesForRemoval (pendingIDs runningIDs : list string) (count : Z) : list string :=
  take (Z.to_nat count) (pendingIDs ++ runningIDs).

Definition markExcessStatelessInstancesAsStopped (ids : list string) (states : gmap string string) (count : Z)
    : list Change :=
  let pendingIDs := filter (λ i, fieldOf states i = InstancePending) ids in
  let runningIDs := filter (λ i, fieldOf states i ≠ InstancePending) ids in
  stopChange <$> selectInstancesForRemoval pendingIDs runningIDs count.

Definition onFailedNode (fieldsByInstanceID : gmap string (gmap string string)) (instanceID : string) : Prop :=
  fieldOf (default ∅ (fieldsByInstanceID !! instanceID)) "node_failure" = "true".

Definition stillPending (fieldsByInstanceID : gmap string (gmap string string)) (instanceID : string) : Prop :=
  fieldOf (default ∅ (fieldsByInstanceID !! instanceID)) "state" = InstancePending.

#[export] Instance onFailedNode_dec fields i : Decision (onFailedNode fields i).
Proof. unfold onFailedNode. apply _. Defined.

#[export] Instance stillPending_dec fields i : Decision (stillPending fields i).
Proof. unfold stillPending. apply _. Defined.

Definition markPerNodeExcessInstancesAsStopped (activeIDs : list string)
    (fieldsByInstanceID : gmap string (gmap string string)) (count : Z) : list Change :=
  let failedNodeIDs := filter (λ i, onFailedNode fieldsByInstanceID i) activeIDs in
  let pendingIDs := filter (λ i, ¬ onFailedNode fieldsByInstanceID i ∧ stillPending fieldsByInstanceID i) activeIDs in
  let runningIDs := filter (λ i, ¬ onFailedNode fieldsByInstanceID i ∧ ¬ stillPending fieldsByInstanceID i) activeIDs in
  stopChange <$> take (Z.to_nat count) (failedNodeIDs ++ pendingIDs ++ runningIDs).

(** [count] calls of [NewID]. *)
Definition createPendingInstances (service : string) (count : Z) (c : InstanceController)
    : list Change * InstanceController :=
  (i ← seq (idsDrawn c) (Z.to_nat count);
   groupedChanges ("instance-create/" +:+ NewID c i)
     [mkChange OpPut (KeyObservedInstance (NewID c i)) "" "";
      mkChange OpPut (KeyObservedInstanceService (NewID c i)) service "";
      mkChange OpPut (KeyObservedInstanceState (NewID c i)) InstancePending ""],
   mkInstanceController (NewID c) (idsDrawn c + Z.to_nat count) (MaxCreationsPerCycle c)).

(** ** Scaling down *)

Definition reconcileScaleDowns (sortedServiceNames : list string) (services : effectiveServices)
    (activeInstanceIDs : gmap string (list string)) (stateByInstanceID : gmap string string)
    (fieldsByInstanceID : gmap string (gmap string string)) : list Change :=
  serviceName ← sortedServiceNames;
  let wantCount := default 0 (desiredCounts services !! serviceName) in
  let activeIDs := default [] (activeInstanceIDs !! serviceName) in
  let haveCount := Z.of_nat (length activeIDs) in
  if wantCount <? haveCount then
    let excessCount := (haveCount -! wantCount)%go in
    if flagOf (perNodeServices services) serviceName then
      markPerNodeExcessInstancesAsStopped activeIDs fieldsByInstanceID excessCount
    else if flagOf (statefulServices services) serviceName then
      stopHighestOrdinalInstances serviceName (parseExistingOrdinals serviceName activeIDs) excessCount
    else markExcessStatelessInstancesAsStopped activeIDs stateByInstanceID excessCount
  else [].

(** ** Scaling up *)

Record serviceDeficit := mkDeficit { deficitService : string; deficit : Z }.

Definition computeServiceDeficits (sortedServiceNames : list string) (services : effectiveServices)
    (activeInstanceIDs : gmap string (list string)) (stateByInstanceID : gmap string string)
    (fieldsByInstanceID : gmap string (gmap string string)) : list serviceDeficit :=
  serviceName ← sortedServiceNames;
  let wantCount := default 0 (desiredCounts services !! serviceName) in
  let activeIDs := default [] (activeInstanceIDs !! serviceName) in
  let haveCount := Z.of_nat (length activeIDs) in
  if wantCount <=? haveCount then []
  else if flagOf (statefulServices services) serviceName then
    let existingOrdinals := parseExistingOrdinals serviceName activeIDs in
    match createNextStatefulInstance serviceName wantCount existingOrdinals stateByInstanceID fieldsByInstanceID with
    | [] => []
    | _ => [mkDeficit serviceName 1]
    end
  else [mkDeficit serviceName (wantCount - haveCount)].

(** The service with the largest unmet demand, the last one of equals: the inner
    loop, over the deficits paired with what is allocated to them. *)
Fixpoint largestUnmet (index : nat) (entries : list (Z * Z)) (bestIndex : option nat) (bestUnmetDemand : Z) : option nat :=
  match entries with
  | [] => bestIndex
  | (d, allocated) :: rest =>
      let unmetDemand := d - allocated in
      if (bestUnmetDemand <? unmetDemand) || ((unmetDemand =? bestUnmetDemand) && (0 <? unmetDemand))
      then largestUnmet (S index) rest (Some index) unmetDemand
      else largestUnmet (S index) rest bestIndex bestUnmetDemand
  end.

(** The loop over the remaining budget, one slot per iteration. *)
Fixpoint distributeRemainder (remainingBudget : nat) (deficits allocated : list Z) : list Z :=
  match remainingBudget with
  | 0%nat => allocated
  | S remaining =>
      match largestUnmet 0 (zip deficits allocated) None 0 with
      | None => allocated
      | Some bestIndex => distributeRemainder remaining deficits (alter (Z.add 1) bestIndex allocated)
      end
  end.

Definition sumZ (l : list Z) : Z := foldl Z.add 0 l.

(** How many creations each deficit is granted. *)
Definition allocateShares (deficits : list Z) (budget : Z) : list Z :=
  let baseShare := Z.quot budget (Z.of_nat (length deficits)) in
  let allocated := (λ d, if d <? baseShare then d else baseShare) <$> deficits in
  let remainingBudget := budget - sumZ allocated in
  distributeRemainder (Z.to_nat remainingBudget) deficits allocated.

(** The creations of one service. *)
Definition createAllocated (services : effectiveServices) (stateByInstanceID : gmap string string)
    (fieldsByInstanceID : gmap string (gmap string string)) (c : InstanceController) (entry : serviceDeficit)
    (allocated : Z) : list Change * InstanceController :=
  if allocated <=? 0 then ([], c)
  else if flagOf (statefulServices services) (deficitService entry) then
    let activeIDs := buildActiveIDsFromFields (deficitService entry) fieldsByInstanceID stateByInstanceID in
    let existingOrdinals := parseExistingOrdinals (deficitService entry) activeIDs in
    (createNextStatefulInstance (deficitService entry) (Z.of_nat (length existingOrdinals) + allocated)
       existingOrdinals stateByInstanceID fieldsByInstanceID, c)
  else createPendingInstances (deficitService entry) allocated c.

Fixpoint createAll (services : effectiveServices) (stateByInstanceID : gmap string string)
    (fieldsByInstanceID : gmap string (gmap string string)) (entries : list (serviceDeficit * Z))
    (c : InstanceController) : list Change * InstanceController :=
  match entries with
  | [] => ([], c)
  | (entry, allocated) :: rest =>
      let '(changes, c1) := createAllocated services stateByInstanceID fieldsByInstanceID c entry allocated in
      let '(more, c2) := createAll services stateByInstanceID fieldsByInstanceID rest c1 in
      (changes ++ more, c2)
  end.

Definition allocateCreationsFairly (deficits : list serviceDeficit) (services : effectiveServices)
    (stateByInstanceID : gmap string string) (fieldsByInstanceID : gmap string (gmap string string))
    (creationsRemaining : Z) (c : InstanceController) : list Change * InstanceController :=
  if bool_decide (deficits = []) || (creationsRemaining <=? 0) then ([], c)
  else
    createAll services stateByInstanceID fieldsByInstanceID
      (zip deficits (allocateShares (deficit <$> deficits) creationsRemaining)) c.

(** ** The cycle *)

Definition InstanceController_Reconcile (facts : list Fact) (c : InstanceController)
    : (list Change + RunnerError) * InstanceController :=
  let parsed := parseEffectiveServiceFacts facts in
  let services := mkEffective (addSurge (desiredCounts parsed) (extractSurgeAllowances facts))
                              (statefulServices parsed) (perNodeServices parsed) in
  let fieldsByInstanceID := parseInstanceFieldsFromFacts facts in
  let '(stateByInstanceID, serviceByInstanceID) := buildInstanceMapsFromFields fieldsByInstanceID in
  let activeInstanceIDs := buildActiveInstanceIDsByService serviceByInstanceID stateByInstanceID in
  let sortedServiceNames := sortedMapKeys (desiredCounts services) in
  let scaleDownChanges :=
    reconcileScaleDowns sortedServiceNames services activeInstanceIDs stateByInstanceID fieldsByInstanceID in
  let serviceDeficits :=
    computeServiceDeficits sortedServiceNames services activeInstanceIDs stateByInstanceID fieldsByInstanceID in
  let '(fairShareChanges, c') :=
    allocateCreationsFairly serviceDeficits services stateByInstanceID fieldsByInstanceID (MaxCreationsPerCycle c) c in
  let changes := scaleDownChanges ++ fairShareChanges in
  if maxInstanceControllerChangesPerCycle <? Z.of_nat (length changes) then
    match takeWholeGroups changes maxInstanceControllerChangesPerCycle with
    | inl (selected, _) => (inl selected, c')
    | inr e => (inr e, c')
    end
  else (inl changes, c').

End reconcile.
