(* ===== verification/InstanceEffects.v ===== *)
(** * What a cycle of the instance controller changes

    The shares of services, the fields of instances, the changes a cycle returns, and their effect on the counts. *)

From S2P Require Import Prelude GoStrings GoFmt Trie EventHistory MemoryStore StoreInvariant StoreProps StateStore PrefixSearch Keys Heap NodeHeap.
From S2P Require Import SchedulerFacts Placement Runner ControllerHelpers InstanceController RunnerProps.

Local Open Scope Z_scope.

(** * Sharing out the creation budget (src/controllers/instance.go, allocateCreationsFairly)

    The base share and the loop over the remainder, as functions on lists of
    numbers: how much each service gets, and in which sense that is fair. *)

(** ** Sums *)

Lemma sumZ_acc a l : foldl Z.add a l = a + sumZ l.
Proof.
  unfold sumZ. revert a. induction l as [|x l IH]; intros a; simpl; [lia|]. rewrite (IH (a + x)), (IH (0 + x)). lia.
Qed.

Lemma sumZ_cons x l : sumZ (x :: l) = x + sumZ l.
Proof. unfold sumZ at 1. simpl. apply sumZ_acc. Qed.

Lemma sumZ_alter l i x : l !! i = Some x → sumZ (alter (Z.add 1) i l) = sumZ l + 1.
Proof.
  revert i. induction l as [|y l IH]; intros [|i] Hi; simplify_eq/=.
  - rewrite !sumZ_cons. lia.
  - change (alter (Z.add 1) (S i) (y :: l)) with (y :: alter (Z.add 1) i l). rewrite !sumZ_cons, IH by done. lia.
Qed.

Lemma sumZ_le l1 l2 : Forall2 Z.le l1 l2 → sumZ l1 ≤ sumZ l2.
Proof. induction 1; [done|]. rewrite !sumZ_cons. lia. Qed.

Lemma sumZ_eq l1 l2 : Forall2 Z.le l1 l2 → sumZ l1 = sumZ l2 → l1 = l2.
Proof.
  induction 1 as [|x y l1 l2 Hxy Hl IH]; [done|]. rewrite !sumZ_cons. pose proof (sumZ_le _ _ Hl). intros E.
  assert (x = y) as -> by lia. f_equal. apply IH. lia.
Qed.

(** ** The largest unmet demand *)

Lemma largestUnmet_spec entries index bi bu :
  0 ≤ bu →
  match largestUnmet index entries bi bu with
  | None => bi = None ∧ (bu = 0 → ∀ d a, (d, a) ∈ entries → d - a ≤ 0)
  | Some i =>
      (bi = Some i ∧ (∀ d a, (d, a) ∈ entries → d - a ≤ bu)) ∨
      (∃ k d a, i = (index + k)%nat ∧ entries !! k = Some (d, a) ∧ 0 < d - a ∧ bu ≤ d - a ∧
        ∀ d' a', (d', a') ∈ entries → d' - a' ≤ d - a)
  end.
Proof.
  revert index bi bu. induction entries as [|[d a] rest IH]; intros index bi bu Hbu; simpl.
  { destruct bi; [left; split; [done|set_solver]|]. split; [done|set_solver]. }
  destruct ((bu <? d - a) || ((d - a =? bu) && (0 <? d - a))) eqn:E.
  - assert (Hup : bu ≤ d - a ∧ 0 < d - a).
    { apply orb_true_iff in E as [E|E]; boolprop; [lia|]. apply Z.eqb_eq in H. lia. }
    specialize (IH (S index) (Some index) (d - a) ltac:(lia)). destruct (largestUnmet (S index) rest _ _) as [i|]; [|naive_solver].
    right. destruct IH as [[[= ->] Hmax]|(k & d' & a' & -> & Hk & Hpos & Hge & Hmax)].
    + exists 0%nat, d, a. split_and!; [lia|done|lia|lia|]. intros d' a' [[= -> ->]|Hin]%elem_of_cons; [lia|by apply Hmax].
    + exists (S k), d', a'. split_and!; [lia|done|lia|lia|]. intros d2 a2 [[= -> ->]|Hin]%elem_of_cons; [lia|by apply Hmax].
  - assert (Hno : d - a < bu ∨ d - a = bu ∧ bu = 0 ∨ d - a < bu).
    { apply orb_false_iff in E as [E1 E2]. boolprop. destruct E2 as [E2|E2]; [apply Z.eqb_neq in E2|boolprop]; lia. }
    specialize (IH (S index) bi bu Hbu). destruct (largestUnmet (S index) rest _ _) as [i|].
    + destruct IH as [[-> Hmax]|(k & d' & a' & -> & Hk & Hpos & Hge & Hmax)].
      * left. split; [done|]. intros d' a' [[= -> ->]|Hin]%elem_of_cons; [lia|by apply Hmax].
      * right. exists (S k), d', a'. split_and!; [lia|done|lia|lia|].
        intros d2 a2 [[= -> ->]|Hin]%elem_of_cons; [lia|by apply Hmax].
    + destruct IH as [-> Hmax]. split; [done|]. intros H0 d' a' [[= -> ->]|Hin]%elem_of_cons; [lia|by apply Hmax].
Qed.

(** ** The remainder *)

(** Between an allocation [a0] and a later one: nothing above the demand, and a
    service that got a slot had the largest unmet demand at that time. *)
Record shares_inv (ds a0 a : list Z) : Prop := {
  shares_demand : Forall2 Z.le a ds;
  shares_grow : Forall2 Z.le a0 a;
  shares_fair i j di dj ai aj a0j :
    ds !! i = Some di → a !! i = Some ai → ds !! j = Some dj → a !! j = Some aj → a0 !! j = Some a0j →
    a0j < aj → di - ai ≤ dj - aj + 1
}.

Lemma Forall2_alter_l (l k : list Z) i x y :
  Forall2 Z.le l k → l !! i = Some x → k !! i = Some y → x < y → Forall2 Z.le (alter (Z.add 1) i l) k.
Proof.
  intros Hl. revert i. induction Hl as [|a b l k Hab Hl IH]; intros [|i] Hx Hy Hlt; simplify_eq/=.
  - constructor; [lia|done].
  - constructor; [done|by apply IH].
Qed.

Lemma Forall2_alter_r (l k : list Z) i : Forall2 Z.le l k → Forall2 Z.le l (alter (Z.add 1) i k).
Proof.
  intros Hl. revert i. induction Hl as [|a b l k Hab Hl IH]; intros [|i]; simpl; try done.
  - constructor; [lia|done].
  - constructor; [done|apply IH].
Qed.

Lemma distributeRemainder_spec n ds a0 a :
  shares_inv ds a0 a →
  let a' := distributeRemainder n ds a in
  shares_inv ds a0 a' ∧ sumZ a ≤ sumZ a' ≤ sumZ a + Z.of_nat n ∧ (a' = ds ∨ sumZ a' = sumZ a + Z.of_nat n).
Proof.
  revert a. induction n as [|n IH]; intros a Hinv; simpl; [split_and!; [done|lia|lia|right; lia]|].
  pose proof (largestUnmet_spec (zip ds a) 0 None 0 ltac:(lia)) as Hl. destruct Hinv as [Hd Hg Hf].
  pose proof (Forall2_length _ _ _ Hd) as Hlen.
  destruct (largestUnmet 0 (zip ds a) None 0) as [i|].
  - destruct Hl as [[[=] _]|(k & d & ak & -> & Hk & Hpos & _ & Hmax)]. simpl.
    apply lookup_zip_Some in Hk as [Hdk Hak].
    assert (Hle : ∀ i di ai, ds !! i = Some di → a !! i = Some ai → di - ai ≤ d - ak).
    { intros i di ai H1 H2. apply Hmax. apply list_elem_of_lookup. exists i. by apply lookup_zip_Some. }
    destruct (IH (alter (Z.add 1) k a)) as (H1 & H2 & H3).
    + split.
      * eapply Forall2_alter_l; [done..|lia].
      * by apply Forall2_alter_r.
      * intros i j di dj ai aj a0j Hdi Hai Hdj Haj Ha0 Hlt.
        assert (Hai' : ∃ ai0, a !! i = Some ai0 ∧ ai0 ≤ ai).
        { destruct (decide (i = k)) as [->|Hne]; [rewrite list_lookup_alter_eq in Hai|rewrite list_lookup_alter_ne in Hai by done; naive_solver lia].
          rewrite Hak in Hai. simpl in Hai. simplify_eq. exists ak. split; [done|lia]. }
        destruct Hai' as (ai0 & Hai0 & Hle0). destruct (decide (j = k)) as [->|Hne].
        -- rewrite list_lookup_alter_eq, Hak in Haj. simpl in Haj. simplify_eq. specialize (Hle _ _ _ Hdi Hai0). lia.
        -- rewrite list_lookup_alter_ne in Haj by done. specialize (Hf _ _ _ _ _ _ _ Hdi Hai0 Hdj Haj Ha0 Hlt). lia.
    + rewrite (sumZ_alter _ _ _ Hak) in H2, H3. split_and!; [done|lia|lia|]. destruct H3; [by left|right; lia].
  - destruct Hl as [_ Hl]. specialize (Hl eq_refl). split_and!; [done|lia|lia|]. left.
    assert (Hge : Forall2 Z.le ds a).
    { apply Forall2_same_length_lookup_2; [done|]. intros i x y Hx Hy.
      assert ((x, y) ∈ zip ds a) as Hin by (apply list_elem_of_lookup; exists i; by apply lookup_zip_Some).
      specialize (Hl _ _ Hin). lia. }
    apply (sumZ_eq _ _ Hd). pose proof (sumZ_le _ _ Hge). pose proof (sumZ_le _ _ Hd). lia.
Qed.

(** The base share. *)
Definition baseShare (ds : list Z) (budget : Z) : Z := Z.quot budget (Z.of_nat (length ds)).

Lemma base_allocation ds b :
  Forall (λ d, 0 < d) ds → 0 ≤ b →
  let a0 := (λ d, if d <? b then d else b) <$> ds in
  Forall2 Z.le a0 ds ∧ 0 ≤ sumZ a0 ≤ b * Z.of_nat (length ds).
Proof.
  intros Hds Hb. induction Hds as [|d ds Hd Hds [IH1 IH2]]; [split; [constructor|unfold sumZ; simpl; lia]|].
  cbn [length]. rewrite fmap_cons, sumZ_cons, Nat2Z.inj_succ, Z.mul_succ_r. split; [constructor; [|done]|]; destruct (Z.ltb_spec d b); lia.
Qed.

Lemma allocateShares_spec ds budget :
  ds ≠ [] → Forall (λ d, 0 < d) ds → 0 ≤ budget →
  let base := (λ d, if d <? baseShare ds budget then d else baseShare ds budget) <$> ds in
  let a := allocateShares ds budget in
  shares_inv ds base a ∧ sumZ a = Z.min budget (sumZ ds).
Proof.
  intros Hne Hds Hb base a. set (b := baseShare ds budget) in *.
  assert (Hn : 0 < Z.of_nat (length ds)) by (destruct ds; [done|simpl; lia]).
  assert (Hb0 : 0 ≤ b) by (apply Z.quot_pos; lia).
  assert (Hbn : b * Z.of_nat (length ds) ≤ budget).
  { unfold b, baseShare. rewrite Z.quot_div_nonneg by lia. rewrite Z.mul_comm. apply Z.mul_div_le. lia. }
  destruct (base_allocation ds b Hds Hb0) as [Hle Hsum]. fold base in Hle, Hsum.
  destruct (distributeRemainder_spec (Z.to_nat (budget - sumZ base)) ds base base) as (Hinv & Hrange & Hend).
  { split; [done|by apply Forall_Forall2_diag, Forall_true|]. intros. simplify_eq. lia. }
  rewrite Z2Nat.id in Hrange, Hend by lia. split; [done|]. change (distributeRemainder _ ds base) with a in *.
  pose proof (sumZ_le _ _ (shares_demand _ _ _ Hinv)). destruct Hend as [->|E]; lia.
Qed.

(** ** Claim *)

(** The creation budget is shared out fairly: no service gets more than it needs
    or less than its equal share of the budget (unless it needs less); the whole
    budget is used unless all demand is met; and a service that gets more than
    its equal share leaves nobody behind: the others' unmet demand exceeds its own
    by at most one. *)
Theorem allocateShares_fair ds budget :
  ds ≠ [] → Forall (λ d, 0 < d) ds → 0 ≤ budget →
  let a := allocateShares ds budget in
  let share := Z.quot budget (Z.of_nat (length ds)) in
  length a = length ds ∧
  sumZ a = Z.min budget (sumZ ds) ∧
  (∀ i d x, ds !! i = Some d → a !! i = Some x → Z.min d share ≤ x ≤ d) ∧
  (∀ i j di dj ai aj, ds !! i = Some di → a !! i = Some ai → ds !! j = Some dj → a !! j = Some aj →
     share < aj → di - ai ≤ dj - aj + 1).
Proof.
  intros Hne Hds Hb a share. destruct (allocateShares_spec ds budget Hne Hds Hb) as [[Hd Hg Hf] Hsum]. fold a in Hd, Hg, Hf, Hsum.
  split_and!; [by eapply Forall2_length|done| |].
  - intros i d x Hi Hx. pose proof (Forall2_lookup_lr _ _ _ _ _ _ Hd Hx Hi).
    assert (Hbase : ((λ d, if d <? baseShare ds budget then d else baseShare ds budget) <$> ds) !! i =
      Some (if d <? baseShare ds budget then d else baseShare ds budget)) by (by rewrite list_lookup_fmap, Hi).
    pose proof (Forall2_lookup_lr _ _ _ _ _ _ Hg Hbase Hx) as Hle. simpl in Hle. change (baseShare ds budget) with share in Hle.
    destruct (Z.ltb_spec d share); lia.
  - intros i j di dj ai aj Hdi Hai Hdj Haj Hlt. eapply (Hf i j di dj ai aj); [done..|by rewrite list_lookup_fmap, Hdj|].
    simpl. change (baseShare ds budget) with share. destruct (Z.ltb_spec dj share); lia.
Qed.

Lemma allocateShares_fair_witness :
  let a := allocateShares [2; 9; 5] 10 in a = [2; 5; 3] ∧ sumZ a = 10.
Proof.
  split; [vm_compute; reflexivity|].
  rewrite (proj1 (proj2 (allocateShares_fair [2; 9; 5] 10 ltac:(discriminate) ltac:(repeat constructor) ltac:(lia)))).
  reflexivity.
Defined.

(** * What the instance controller reads of the instances

    The field maps, states and lists of active instances it builds, in terms of
    the values of the facts. *)

(** ** Fields *)

Definition instanceKey (prefix id f : string) : string := prefix +:+ id +:+ "/" +:+ f.

(** The value of a field: a derived fact takes precedence over an observed one. *)
Definition fieldIn (facts : list Fact) (id f : string) : option string :=
  match values_of facts !! instanceKey ScanDerivedInstances id f with
  | Some v => Some v
  | None => values_of facts !! instanceKey ScanObservedInstances id f
  end.

Lemma fieldOf_bind (m : gmap string (gmap string string)) id f :
  fieldOf (default ∅ (m !! id)) f = default "" (m !! id ≫= λ fields, fields !! f).
Proof. unfold fieldOf. by destruct (m !! id). Qed.

Lemma addInstanceFields_lookup l m id f :
  NoDup (fst <$> l) →
  (∀ v, (id, f, v) ∈ l → foldl addInstanceField m l !! id ≫= (λ fields, fields !! f) = Some v) ∧
  ((∀ v, (id, f, v) ∉ l) → foldl addInstanceField m l !! id ≫= (λ fields, fields !! f) = m !! id ≫= (λ fields, fields !! f)).
Proof.
  induction l as [|[[i x] w] l IH] using rev_ind; intros Hnd; [split; [set_solver|done]|].
  rewrite fmap_app in Hnd. apply NoDup_app in Hnd as (Hnd & Hdis & _). destruct (IH Hnd) as [IH1 IH2]. rewrite foldl_app. simpl.
  assert (Hout : ∀ v, (i, x, v) ∉ l).
  { intros v Hv. apply (Hdis (i, x)); [by apply (list_elem_of_fmap_2 fst l (i, x, v))|simpl; set_solver]. }
  set (m1 := foldl addInstanceField m l) in *.
  assert (Hstep : (<[i := <[x := w]> (default ∅ (m1 !! i))]> m1 !! id ≫= λ fields, fields !! f) =
    if decide (id = i ∧ f = x) then Some w else m1 !! id ≫= λ fields, fields !! f).
  { destruct (decide (id = i)) as [->|Hi]; [|by rewrite lookup_insert_ne, decide_False by naive_solver].
    rewrite lookup_insert_eq. simpl. destruct (decide (f = x)) as [->|Hf]; [by rewrite lookup_insert_eq, decide_True|].
    rewrite lookup_insert_ne, decide_False by naive_solver. by destruct (m1 !! i). }
  rewrite Hstep. split.
  - intros v [Hv|[= -> -> ->]%list_elem_of_singleton]%elem_of_app; [|by rewrite decide_True].
    rewrite decide_False; [by apply IH1|]. intros [-> ->]. by apply (Hout v).
  - intros Hno. rewrite decide_False; [apply IH2; set_solver|]. intros [-> ->]. apply (Hno w). set_solver.
Qed.

Lemma addInstanceFields_dom l m id :
  is_Some (foldl addInstanceField m l !! id) ↔ is_Some (m !! id) ∨ ∃ f v, (id, f, v) ∈ l.
Proof.
  induction l as [|[[i x] w] l IH] using rev_ind; [set_solver|]. rewrite foldl_app. simpl. rewrite lookup_insert_is_Some, IH.
  setoid_rewrite elem_of_app. setoid_rewrite list_elem_of_singleton. destruct (decide (i = id)) as [->|]; naive_solver.
Qed.

Section fields.
Context (facts : list Fact) (Hwf : facts_wf facts).

Lemma instanceFields_lookup id f :
  ContainsByte id slash = false →
  parseInstanceFieldsFromFacts facts !! id ≫= (λ fields, fields !! f) = fieldIn facts id f.
Proof using Hwf.
  intros Hid. unfold parseInstanceFieldsFromFacts. simpl. unfold fieldIn.
  assert (Hp : ScanDerivedInstances ≠ "" ∧ ScanObservedInstances ≠ "") by done. destruct Hp as [Hd Ho].
  set (obs := foldl addInstanceField ∅ (entityFields facts ScanObservedInstances)).
  destruct (addInstanceFields_lookup _ obs id f (entityFields_unique facts _ Hwf Hd)) as [D1 D2].
  destruct (addInstanceFields_lookup _ ∅ id f (entityFields_unique facts _ Hwf Ho)) as [O1 O2]. fold obs in O1, O2.
  destruct (values_of facts !! instanceKey ScanDerivedInstances id f) as [v|] eqn:Ev.
  - apply D1. by apply elem_of_entityFields.
  - rewrite D2; [|intros v [_ Hv]%elem_of_entityFields; [unfold instanceKey in Ev; congruence|done..]].
    destruct (values_of facts !! instanceKey ScanObservedInstances id f) as [v|] eqn:Eo.
    + apply O1. by apply elem_of_entityFields.
    + rewrite O2; [by rewrite lookup_empty|]. intros v [_ Hv]%elem_of_entityFields; [unfold instanceKey in Eo; congruence|done..].
Qed.

Lemma instanceFields_segment id : is_Some (parseInstanceFieldsFromFacts facts !! id) → ContainsByte id slash = false.
Proof using Hwf.
  unfold parseInstanceFieldsFromFacts. simpl. rewrite !addInstanceFields_dom.
  intros [[[x Hx]|(f & v & Hv)]|(f & v & Hv)]; [done|..]; by apply elem_of_entityFields in Hv as [? _].
Qed.

Lemma instanceFields_dom id :
  ContainsByte id slash = false →
  is_Some (parseInstanceFieldsFromFacts facts !! id) ↔ ∃ f v, fieldIn facts id f = Some v.
Proof using Hwf.
  intros Hid. unfold parseInstanceFieldsFromFacts. simpl. rewrite !addInstanceFields_dom. unfold fieldIn.
  setoid_rewrite elem_of_entityFields; [|done..]. unfold instanceKey. split.
  - intros [[[x Hx]|(f & v & _ & Hv)]|(f & v & _ & Hv)]; [done|..]; exists f.
    + destruct (values_of facts !! (ScanDerivedInstances +:+ id +:+ "/" +:+ f)) as [w|]; [by exists w|by exists v].
    + exists v. by rewrite Hv.
  - intros (f & v & Hv). destruct (values_of facts !! (ScanDerivedInstances +:+ id +:+ "/" +:+ f)) as [w|] eqn:Ew; [right|left; right].
    + by exists f, w.
    + by exists f, v.
Qed.

End fields.

(** ** Active instances *)

(** A field as the code reads it: the empty string when it is missing. *)
Definition fieldText (facts : list Fact) (id f : string) : string := default "" (fieldIn facts id f).

Definition stateIn (facts : list Fact) (id : string) : string :=
  if decide (fieldText facts id "controller_stopped" = "true") then InstanceStopped
  else if decide (fieldText facts id "node_failure" = "true") then InstanceFailed
  else fieldText facts id "state".

Definition activeIn (facts : list Fact) (s id : string) : Prop :=
  s ≠ "" ∧ ContainsByte id slash = false ∧ fieldText facts id "service" = s ∧ stateIn facts id ≠ InstanceStopped.

Section active.
Context `{GoMapRange} (facts : list Fact) (Hwf : facts_wf facts).
Let fields := parseInstanceFieldsFromFacts facts.
Let states := fst (buildInstanceMapsFromFields fields).
Let services := snd (buildInstanceMapsFromFields fields).

Lemma fields_text id f : ContainsByte id slash = false → fieldOf (default ∅ (fields !! id)) f = fieldText facts id f.
Proof using Hwf. intros Hid. unfold fields. by rewrite fieldOf_bind, instanceFields_lookup. Qed.

Lemma states_text id : is_Some (fields !! id) → fieldOf states id = stateIn facts id.
Proof using Hwf.
  intros [m Hm]. assert (Hid : ContainsByte id slash = false) by (apply (instanceFields_segment facts Hwf); by exists m).
  unfold states, buildInstanceMapsFromFields. simpl. unfold fieldOf at 1. rewrite lookup_fmap, Hm. simpl.
  unfold effectiveInstanceState, stateIn. pose proof (fields_text id) as Ht. rewrite Hm in Ht. simpl in Ht. by rewrite !Ht.
Qed.

Lemma services_text id :
  services !! id = if decide (ContainsByte id slash = false ∧ fieldText facts id "service" ≠ "")
                   then Some (fieldText facts id "service") else None.
Proof using Hwf.
  unfold services, buildInstanceMapsFromFields. simpl. rewrite lookup_omap.
  destruct (fields !! id) as [m|] eqn:Hm; simpl.
  - assert (Hid : ContainsByte id slash = false) by (apply (instanceFields_segment facts Hwf); by exists m).
    pose proof (fields_text id "service" Hid) as Ht. rewrite Hm in Ht. simpl in Ht. rewrite Ht. repeat case_decide; naive_solver.
  - rewrite decide_False; [done|]. intros [Hid Hs]. pose proof (fields_text id "service" Hid) as Ht. rewrite Hm in Ht. simpl in Ht.
    apply Hs. by rewrite <-Ht.
Qed.

Lemma sortedMapKeys_elem {V} (m : gmap string V) k : k ∈ sortedMapKeys m ↔ is_Some (m !! k).
Proof.
  unfold sortedMapKeys, sort_strings. rewrite sort_stable_perm, list_elem_of_fmap. split.
  - intros ([k' v] & -> & Hv%elem_of_map_range). by exists v.
  - intros [v Hv]. exists (k, v). split; [done|]. by apply elem_of_map_range.
Qed.

Lemma sortedMapKeys_nodup {V} (m : gmap string V) : NoDup (sortedMapKeys m).
Proof. unfold sortedMapKeys, sort_strings. rewrite sort_stable_perm. apply map_range_keys_nodup. Qed.

(** The list of a service's active instances. *)
Definition activeList (s : string) : list string :=
  filter (λ id, fieldOf services id = s ∧ fieldOf states id ≠ InstanceStopped) (sortedMapKeys services).

Lemma buildActive_lookup s :
  default [] (buildActiveInstanceIDsByService services states !! s) = activeList s.
Proof.
  unfold buildActiveInstanceIDsByService, activeList. induction (sortedMapKeys services) as [|i l IH] using rev_ind; [done|].
  rewrite foldl_app, filter_app, filter_cons. simpl. case_decide as Hst.
  - rewrite decide_False by tauto. by rewrite app_nil_r.
  - destruct (decide (fieldOf services i = s)) as [<-|Hs].
    + rewrite lookup_insert_eq, decide_True by done. simpl. by rewrite IH.
    + rewrite lookup_insert_ne, decide_False by tauto. by rewrite app_nil_r.
Qed.

Lemma activeList_spec s : NoDup (activeList s) ∧ ∀ id, id ∈ activeList s ↔ activeIn facts s id.
Proof using Hwf.
  split; [apply NoDup_filter, sortedMapKeys_nodup|]. intros id. unfold activeList, activeIn.
  rewrite list_elem_of_filter, sortedMapKeys_elem. unfold fieldOf at 1. rewrite services_text.
  destruct (decide (ContainsByte id slash = false ∧ fieldText facts id "service" ≠ "")) as [[Hid Hs]|Hno].
  - assert (Hf : is_Some (fields !! id)).
    { apply (instanceFields_dom facts Hwf); [done|]. exists "service". unfold fieldText in Hs.
      destruct (fieldIn facts id "service") as [v|]; [by exists v|done]. }
    rewrite states_text by done. simpl. split; [intros [[<- ?] _]; done|]. intros (Hne & _ & -> & ?). done.
  - split; [intros [_ [? [=]]]|]. intros (Hne & Hid & <- & _). by destruct Hno.
Qed.

End active.

(** * The instance controller's cycle as a list of actions

    Every change the controller proposes belongs to the stop or the creation of
    one instance. A cycle is shown to be a list of such actions, of which capping
    keeps a prefix. *)

(** ** Actions *)

Inductive action :=
| AStop (id : string)
| ACreate (id s : string)
| AOrdinal (s : string) (n : Z).

Definition actionID (a : action) : string :=
  match a with AStop id => id | ACreate id _ => id | AOrdinal s n => ordinalID s n end.

Definition actionGroup (a : action) : string :=
  match a with AStop _ => "" | _ => "instance-create/" +:+ actionID a end.

Definition creationChanges (id s : string) : list Change :=
  groupedChanges ("instance-create/" +:+ id)
    [mkChange OpPut (KeyObservedInstance id) "" ""; mkChange OpPut (KeyObservedInstanceService id) s "";
     mkChange OpPut (KeyObservedInstanceState id) InstancePending ""].

Definition actionChanges (fields : gmap string (gmap string string)) (a : action) : list Change :=
  match a with
  | AStop id => [stopChange id]
  | ACreate id s => creationChanges id s
  | AOrdinal s n => createOrdinal s n fields
  end.

Lemma actionChanges_group fields a : Forall (λ c, Group c = actionGroup a) (actionChanges fields a).
Proof.
  destruct a as [id|id s|s n]; simpl; [by repeat constructor..|]. unfold createOrdinal. apply Forall_app. split; [by repeat constructor|].
  apply Forall_app. split; case_decide; by repeat constructor.
Qed.

Lemma actionChanges_size fields a : (1 ≤ length (actionChanges fields a) ≤ 6)%nat.
Proof.
  destruct a as [id|id s|s n]; simpl; [lia|lia|]. unfold createOrdinal. rewrite !length_app. simpl. repeat case_decide; simpl; lia.
Qed.

(** Actions on different instances are in different groups. *)
Lemma actionGroup_inj a b : actionGroup a ≠ "" → actionGroup a = actionGroup b → actionID a = actionID b.
Proof. destruct a, b; simpl; try done; intros _ E; by apply (inj (String.app "instance-create/")) in E. Qed.

Lemma actionGroup_empty a : actionGroup a = "" → ∃ id, a = AStop id.
Proof. destruct a; simpl; [eauto|done|done]. Qed.

(** ** Capping keeps whole actions *)

Lemma sameGroup_prefix g l rest :
  Forall (λ c, Group c = g) l → (∀ c r, rest = c :: r → Group c ≠ g) → sameGroup g (l ++ rest) = (l, rest).
Proof.
  intros Hl Hrest. induction Hl as [|c l Hc Hl IH]; simpl.
  - destruct rest as [|c r]; [done|]. simpl. rewrite decide_False by (by eapply Hrest). done.
  - rewrite decide_True by done. by rewrite IH.
Qed.

Lemma bind_head fields acts c r :
  acts ≫= actionChanges fields = c :: r → ∃ a, a ∈ acts ∧ Group c = actionGroup a.
Proof.
  destruct acts as [|a acts]; [done|]. rewrite bind_cons. pose proof (actionChanges_group fields a) as Hg.
  pose proof (actionChanges_size fields a) as Hs. destruct (actionChanges fields a) as [|c' cs]; simpl in *; [lia|].
  intros [= <- _]. apply Forall_cons in Hg as [Hg _]. exists a. split; [set_solver|done].
Qed.

Lemma nextGroup_action fields a acts c cs :
  actionID a ∉ actionID <$> acts → actionChanges fields a = c :: cs →
  nextGroup c (cs ++ (acts ≫= actionChanges fields)) = (actionChanges fields a, acts ≫= actionChanges fields).
Proof.
  intros Hout E. pose proof (actionChanges_group fields a) as Hg. rewrite E in Hg. apply Forall_cons in Hg as [Hc Hcs].
  unfold nextGroup. case_decide as Hd.
  - rewrite Hc in Hd. apply actionGroup_empty in Hd as [id ->]. simpl in E. simplify_eq. done.
  - rewrite Hc, sameGroup_prefix; [by rewrite E|done|]. intros c' r Er. apply bind_head in Er as (b & Hb & ->).
    intros Eg. apply Hout. rewrite (actionGroup_inj a b); [by apply list_elem_of_fmap_2|congruence|done].
Qed.

Lemma takeGroupsLoop_actions fields acts fuel limit selected :
  6 ≤ limit → NoDup (actionID <$> acts) → (length (acts ≫= actionChanges fields) ≤ fuel)%nat →
  Z.of_nat (length selected) ≤ limit →
  ∃ k deferred, takeGroupsLoop fuel (acts ≫= actionChanges fields) limit selected =
    inl (selected ++ (take k acts ≫= actionChanges fields), deferred) ∧
    Z.of_nat (length (selected ++ (take k acts ≫= actionChanges fields))) ≤ limit.
Proof.
  intros Hlim. revert fuel selected. induction acts as [|a acts IH]; intros fuel selected Hnd Hfuel Hsel.
  { exists 0%nat, 0. destruct fuel; simpl; by rewrite app_nil_r. }
  rewrite fmap_cons in Hnd. apply NoDup_cons in Hnd as [Hout Hnd]. rewrite bind_cons in *. rewrite length_app in Hfuel.
  pose proof (actionChanges_size fields a) as Hs. destruct (actionChanges fields a) as [|c cs] eqn:E; [simpl in Hs; lia|].
  destruct fuel as [|fuel]; [simpl in *; lia|]. cbn [app takeGroupsLoop]. rewrite (nextGroup_action fields a acts c cs Hout E).
  rewrite E. destruct (Z.ltb_spec limit (Z.of_nat (length (c :: cs)))); [lia|].
  destruct (Z.ltb_spec limit (Z.of_nat (length selected) + Z.of_nat (length (c :: cs)))).
  - exists 0%nat. eexists. simpl. rewrite app_nil_r. done.
  - destruct (IH fuel (selected ++ c :: cs) Hnd) as (k & deferred & -> & Hk); [simpl in *; lia|rewrite length_app; lia|].
    exists (S k), deferred. cbn [take]. rewrite bind_cons, E, app_assoc. done.
Qed.

(** ** The next ordinal *)

Fixpoint firstMissing (remaining : nat) (k : Z) (s : string) (existing : gset Z) (states : gmap string string) : option Z :=
  match remaining with
  | 0%nat => None
  | S remaining' =>
      if decide (k ∈ existing) then
        if decide (fieldOf states (ordinalID s k) ≠ InstanceRunning) then None
        else firstMissing remaining' (k + 1) s existing states
      else Some k
  end.

Lemma nextStatefulLoop_firstMissing r k s existing states fields :
  nextStatefulLoop r k s existing states fields =
  match firstMissing r k s existing states with Some n => createOrdinal s n fields | None => [] end.
Proof. revert k. induction r as [|r IH]; intros k; simpl; [done|]. repeat case_decide; [done|apply IH|done]. Qed.

(** The ordinals from [k] up to [n] exist and run, and [n] does not exist. *)
Definition next_ordinal (k n : Z) (s : string) (existing : gset Z) (states : gmap string string) : Prop :=
  k ≤ n ∧ (n ∉ existing) ∧ ∀ m, k ≤ m < n → m ∈ existing ∧ fieldOf states (ordinalID s m) = InstanceRunning.

Lemma firstMissing_Some r k s existing states n :
  firstMissing r k s existing states = Some n ↔ next_ordinal k n s existing states ∧ n < k + Z.of_nat r.
Proof.
  revert k. induction r as [|r IH]; intros k; simpl.
  { split; [done|]. intros [(Hk & _) Hn]. lia. }
  unfold next_ordinal in *. destruct (decide (k ∈ existing)) as [Hin|Hout].
  - destruct (decide (fieldOf states (ordinalID s k) ≠ InstanceRunning)) as [Hr|Hr].
    + split; [done|]. intros [(Hk & Hn & Hall) Hlt]. destruct (decide (k = n)) as [->|]; [done|].
      destruct (Hall k); [lia|done].
    + apply dec_stable in Hr. rewrite IH. split.
      * intros [(Hk & Hn & Hall) Hlt]. split_and!; [lia|done| |lia]. intros m Hm. destruct (decide (m = k)) as [->|]; [done|]. apply Hall. lia.
      * intros [(Hk & Hn & Hall) Hlt]. assert (k ≠ n) by (intros ->; done). split_and!; [lia|done| |lia]. intros m Hm. apply Hall. lia.
  - split.
    + intros [= <-]. split_and!; [lia|done| |lia]. intros m Hm. lia.
    + intros [(Hk & Hn & Hall) Hlt]. destruct (decide (k = n)) as [->|]; [done|]. destruct (Hall k); [lia|done].
Qed.

Lemma next_ordinal_unique k n1 n2 s existing states :
  next_ordinal k n1 s existing states → next_ordinal k n2 s existing states → n1 = n2.
Proof.
  intros (H1 & H2 & H3) (H4 & H5 & H6). destruct (Z.lt_trichotomy n1 n2) as [?|[?|?]]; [|done|].
  - destruct (H6 n1); [lia|done].
  - destruct (H3 n2); [lia|done].
Qed.

(** A missing ordinal is never further than the number of existing ones. *)
Lemma next_ordinal_bound n s l states :
  next_ordinal 0 n s (list_to_set l : gset Z) states → n ≤ Z.of_nat (length l).
Proof.
  intros (Hn & _ & Hall). assert (Hsub : Z.of_nat <$> seq 0 (Z.to_nat n) ⊆ l).
  { intros m. rewrite list_elem_of_fmap. intros (i & -> & Hi%elem_of_seq). destruct (Hall (Z.of_nat i)) as [Hm _]; [lia|].
    by rewrite elem_of_list_to_set in Hm. }
  apply NoDup_submseteq in Hsub; [|apply NoDup_fmap; [apply _|apply NoDup_seq]].
  apply submseteq_length in Hsub. rewrite length_fmap, length_seq in Hsub. lia.
Qed.

(** ** The lists of actions *)

Section actions.
Context `{GoMapRange}.
Context (services : effectiveServices) (active : gmap string (list string)) (states : gmap string string)
        (fields : gmap string (gmap string string)).

Definition wantOf (s : string) : Z := default 0 (desiredCounts services !! s).
Definition activeOf (s : string) : list string := default [] (active !! s).
Definition haveOf (s : string) : Z := Z.of_nat (length (activeOf s)).

(** The instances a service loses. *)
Definition stopIDsOf (s : string) : list string :=
  if wantOf s <? haveOf s then
    let excess := Z.to_nat (haveOf s -! wantOf s)%go in
    if flagOf (perNodeServices services) s then
      take excess (filter (λ i, onFailedNode fields i) (activeOf s) ++
                   filter (λ i, ¬ onFailedNode fields i ∧ stillPending fields i) (activeOf s) ++
                   filter (λ i, ¬ onFailedNode fields i ∧ ¬ stillPending fields i) (activeOf s))
    else if flagOf (statefulServices services) s then
      ordinalID s <$> take excess (reverse (parseExistingOrdinals s (activeOf s)))
    else
      take excess (filter (λ i, fieldOf states i = InstancePending) (activeOf s) ++
                   filter (λ i, fieldOf states i ≠ InstancePending) (activeOf s))
  else [].

Lemma reconcileScaleDowns_actions names :
  reconcileScaleDowns names services active states fields =
  (AStop <$> (names ≫= stopIDsOf)) ≫= actionChanges fields.
Proof.
  assert (Hone : ∀ l, (AStop <$> l) ≫= actionChanges fields = stopChange <$> l).
  { induction l as [|x l IH]; [done|]. rewrite fmap_cons, bind_cons, IH. done. }
  rewrite Hone, list_fmap_bind. unfold reconcileScaleDowns. apply list_bind_ext; [|done]. intros s. unfold stopIDsOf.
  fold (wantOf s) (activeOf s). change (Z.of_nat (length (activeOf s))) with (haveOf s).
  destruct (wantOf s <? haveOf s); [|done]. destruct (flagOf (perNodeServices services) s); [done|].
  destruct (flagOf (statefulServices services) s); [|done]. unfold stopHighestOrdinalInstances. by rewrite <-list_fmap_compose.
Qed.

(** The ordinal [createAllocated] creates. *)
Definition nextOrdinalOf (s : string) (allocated : Z) : option Z :=
  let existing := parseExistingOrdinals s (buildActiveIDsFromFields s fields states) in
  firstMissing (Z.to_nat (Z.of_nat (length existing) + allocated)) 0 s (list_to_set existing) states.

Definition createActsOf (newID : nat → string) (drawn : nat) (entry : serviceDeficit) (allocated : Z) : list action :=
  if allocated <=? 0 then []
  else if flagOf (statefulServices services) (deficitService entry) then
    option_list (AOrdinal (deficitService entry) <$> nextOrdinalOf (deficitService entry) allocated)
  else (λ i, ACreate (newID i) (deficitService entry)) <$> seq drawn (Z.to_nat allocated).

Definition drawnBy (drawn : nat) (entry : serviceDeficit) (allocated : Z) : nat :=
  if (allocated <=? 0) || flagOf (statefulServices services) (deficitService entry) then drawn
  else (drawn + Z.to_nat allocated)%nat.

Fixpoint createActs (newID : nat → string) (drawn : nat) (entries : list (serviceDeficit * Z)) : list action :=
  match entries with
  | [] => []
  | (entry, allocated) :: rest =>
      createActsOf newID drawn entry allocated ++ createActs newID (drawnBy drawn entry allocated) rest
  end.

Lemma createAllocated_actions c entry allocated :
  ∃ c', createAllocated services states fields c entry allocated =
    (createActsOf (NewID c) (idsDrawn c) entry allocated ≫= actionChanges fields, c') ∧
    NewID c' = NewID c ∧ idsDrawn c' = drawnBy (idsDrawn c) entry allocated.
Proof.
  unfold createAllocated, createActsOf, drawnBy. destruct (allocated <=? 0); simpl; [by exists c|].
  destruct (flagOf (statefulServices services) (deficitService entry)); simpl.
  - exists c. split; [|done]. f_equal. unfold createNextStatefulInstance, nextOrdinalOf. rewrite nextStatefulLoop_firstMissing.
    destruct (firstMissing _ _ _ _ _); simpl; [by rewrite app_nil_r|done].
  - exists (mkInstanceController (NewID c) (idsDrawn c + Z.to_nat allocated) (MaxCreationsPerCycle c)).
    split; [|done]. unfold createPendingInstances. f_equal.
    generalize (seq (idsDrawn c) (Z.to_nat allocated)). induction l as [|i l IH]; [done|].
    rewrite fmap_cons, !bind_cons, IH. done.
Qed.

Lemma createAll_actions entries c :
  ∃ c', createAll services states fields entries c =
    (createActs (NewID c) (idsDrawn c) entries ≫= actionChanges fields, c').
Proof.
  revert c. induction entries as [|[entry allocated] rest IH]; intros c; simpl; [by eexists|].
  destruct (createAllocated_actions c entry allocated) as (c1 & -> & E1 & E2). destruct (IH c1) as (c2 & ->).
  rewrite E1, E2. exists c2. by rewrite bind_app.
Qed.

End actions.

(** * What the instance controller's actions do to the facts

    A committed list of actions on different instances changes the active
    instances of each service by exactly the stops and creations it contains. *)

(** ** The keys of an instance *)

Definition tail_ok (r : string) : Prop := r = "" ∨ ∃ f, r = "/" +:+ f.

Definition keyOn (id k : string) : Prop :=
  ∃ p r, (p = ScanObservedInstances ∨ p = ScanDerivedInstances) ∧ k = p +:+ id +:+ r ∧ tail_ok r.

Lemma segment_tail_inj a b r t :
  ContainsByte a slash = false → ContainsByte b slash = false → tail_ok r → tail_ok t → a +:+ r = b +:+ t → a = b.
Proof.
  revert b. induction a as [|c a IH]; intros b Ha Hb Hr Ht.
  - rewrite str_app_nil_l. destruct b as [|d b]; [done|]. rewrite str_app_cons. intros ->.
    destruct Hr as [[=]|[f [= -> _]]]. done.
  - rewrite str_app_cons. destruct b as [|d b].
    + rewrite str_app_nil_l. intros <-. destruct Ht as [[=]|[f [= -> _]]]. done.
    + rewrite str_app_cons. intros [= -> E]. f_equal. simpl in Ha, Hb. destruct (ascii_dec d slash); [done|]. by apply (IH b).
Qed.

Lemma keyOn_inj id1 id2 k :
  ContainsByte id1 slash = false → ContainsByte id2 slash = false → keyOn id1 k → keyOn id2 k → id1 = id2.
Proof.
  intros H1 H2 (p1 & r1 & Hp1 & -> & Hr1) (p2 & r2 & Hp2 & E & Hr2).
  destruct Hp1 as [-> | ->], Hp2 as [-> | ->]; [| by vm_compute in E | by vm_compute in E |];
    apply (inj (String.app _)) in E; by apply (segment_tail_inj id1 id2 r1 r2).
Qed.

Lemma keyOn_field p id f : p = ScanObservedInstances ∨ p = ScanDerivedInstances → keyOn id (instanceKey p id f).
Proof. intros Hp. exists p, ("/" +:+ f). split_and!; [done|done|]. right. by exists f. Qed.

Lemma instance_keys id :
  KeyObservedInstanceService id = instanceKey ScanObservedInstances id "service" ∧
  KeyObservedInstanceState id = instanceKey ScanObservedInstances id "state" ∧
  KeyObservedInstanceOrdinal id = instanceKey ScanObservedInstances id "ordinal" ∧
  KeyDerivedInstanceControllerStopped id = instanceKey ScanDerivedInstances id "controller_stopped" ∧
  KeyDerivedInstanceNodeFailure id = instanceKey ScanDerivedInstances id "node_failure".
Proof. done. Qed.

Lemma instanceKey_inj p q id f g :
  (p = ScanObservedInstances ∨ p = ScanDerivedInstances) → (q = ScanObservedInstances ∨ q = ScanDerivedInstances) →
  instanceKey p id f = instanceKey q id g → p = q ∧ f = g.
Proof.
  unfold instanceKey. intros [-> | ->] [-> | ->] E; try (by vm_compute in E); (split; [done|]);
  by do 3 apply (inj (String.app _)) in E.
Qed.

(** ** The changes of an action *)

Definition createdKeys (id : string) : list string :=
  [KeyObservedInstance id; instanceKey ScanObservedInstances id "service"; instanceKey ScanObservedInstances id "state"].

Definition ordinalKeys (id : string) : list string :=
  createdKeys id ++ [instanceKey ScanObservedInstances id "ordinal";
    instanceKey ScanDerivedInstances id "controller_stopped"; instanceKey ScanDerivedInstances id "node_failure"].

Lemma bare_key id p f : p = ScanObservedInstances ∨ p = ScanDerivedInstances → KeyObservedInstance id ≠ instanceKey p id f.
Proof.
  intros [-> | ->] E; [|by vm_compute in E]. unfold instanceKey, KeyObservedInstance in E.
  change (PrefixObserved +:+ "/instance/" +:+ id) with (ScanObservedInstances +:+ id) in E.
  apply (inj (String.app _)) in E. rewrite <-(str_app_nil_r id) in E at 1. apply (inj (String.app id)) in E. done.
Qed.

Lemma ordinalKeys_nodup id : NoDup (ordinalKeys id).
Proof.
  assert (Ho : ScanObservedInstances = ScanObservedInstances ∨ ScanObservedInstances = ScanDerivedInstances) by (by left).
  assert (Hd : ScanDerivedInstances = ScanObservedInstances ∨ ScanDerivedInstances = ScanDerivedInstances) by (by right).
  unfold ordinalKeys, createdKeys. simpl app. repeat (apply NoDup_cons; split); try apply NoDup_nil_2;
    repeat (apply not_elem_of_cons; split); try apply not_elem_of_nil; try (by apply bare_key);
    intros E; apply instanceKey_inj in E as [E1 E2]; done.
Qed.

Lemma ordinalKeys_on id k : k ∈ ordinalKeys id → keyOn id k.
Proof.
  unfold ordinalKeys, createdKeys. simpl app. intros Hk. repeat (apply elem_of_cons in Hk as [->|Hk]); [..|by apply elem_of_nil in Hk].
  1: { exists ScanObservedInstances, "". rewrite str_app_nil_r. split_and!; [by left|done|by left]. }
  all: apply keyOn_field; auto.
Qed.

Lemma actionChanges_sub fields a : ChangeKey <$> actionChanges fields a ⊆+ ordinalKeys (actionID a).
Proof.
  destruct a as [id|id s|s n]; simpl actionChanges; simpl actionID.
  - change (ChangeKey <$> [stopChange id]) with [instanceKey ScanDerivedInstances id "controller_stopped"].
    apply (singleton_submseteq_l _ (instanceKey ScanDerivedInstances id "controller_stopped")). unfold ordinalKeys, createdKeys. simpl app. set_solver.
  - change (ChangeKey <$> creationChanges id s) with (createdKeys id). apply submseteq_inserts_r. done.
  - unfold createOrdinal. rewrite !fmap_app. unfold ordinalKeys.
    change (ChangeKey <$> groupedChanges _ _) with (createdKeys (ordinalID s n) ++ [instanceKey ScanObservedInstances (ordinalID s n) "ordinal"]).
    rewrite <-app_assoc. apply submseteq_app; [done|]. apply submseteq_skip.
    apply (submseteq_app _ [instanceKey ScanDerivedInstances (ordinalID s n) "controller_stopped"]);
      case_decide; [done|apply submseteq_nil_l|done|apply submseteq_nil_l].
Qed.

Lemma actionChanges_on fields a c : c ∈ actionChanges fields a → keyOn (actionID a) (ChangeKey c).
Proof.
  intros Hc. apply ordinalKeys_on. eapply submseteq_elem; [apply actionChanges_sub|]. by apply list_elem_of_fmap_2.
Qed.

(** ** A list of actions *)

Section effect.
Context (fields : gmap string (gmap string string)) (acts : list action).
Context (Hids : NoDup (actionID <$> acts)) (Hseg : Forall (λ a, ContainsByte (actionID a) slash = false) acts).
Let changes := acts ≫= actionChanges fields.

Lemma acts_keys_nodup : NoDup (ChangeKey <$> changes).
Proof using Hids Hseg.
  unfold changes. induction acts as [|a l IH]; [apply NoDup_nil_2|].
  rewrite fmap_cons in Hids. apply NoDup_cons in Hids as [Hout Hnd]. apply Forall_cons in Hseg as [Ha Hl].
  rewrite bind_cons, fmap_app. apply NoDup_app. split_and!.
  - eapply submseteq_nodup; [apply actionChanges_sub|apply ordinalKeys_nodup].
  - intros k (c & -> & Hc)%list_elem_of_fmap (c' & E & Hc')%list_elem_of_fmap.
    apply list_elem_of_bind in Hc' as (b & Hc' & Hb). apply Hout.
    rewrite (keyOn_inj (actionID a) (actionID b) (ChangeKey c)); [by apply list_elem_of_fmap_2|done| |by eapply actionChanges_on|].
    + rewrite Forall_forall in Hl. by apply Hl.
    + rewrite E. by eapply actionChanges_on.
  - by apply IH.
Qed.

Lemma acts_lookup_in a c k m :
  a ∈ acts → c ∈ actionChanges fields a → ChangeKey c = k →
  applyChanges changes m !! k = match ChangeType c with OpPut => Some (ChangeValue c) | OpDelete => None end.
Proof using Hids Hseg.
  intros Ha Hc <-. apply applyChanges_elem; [apply acts_keys_nodup|]. apply list_elem_of_bind. by exists a.
Qed.

Lemma acts_lookup_same a k m :
  a ∈ acts → keyOn (actionID a) k → k ∉ ChangeKey <$> actionChanges fields a → applyChanges changes m !! k = m !! k.
Proof using Hids Hseg.
  intros Ha Hk Hout. apply applyChanges_other. intros (c & -> & (b & Hc & Hb)%list_elem_of_bind)%list_elem_of_fmap.
  rewrite Forall_forall in Hseg. assert (E : actionID a = actionID b).
  { apply (keyOn_inj _ _ (ChangeKey c)); [by apply Hseg..|done|by eapply actionChanges_on]. }
  assert (a = b) as ->; [|apply Hout; by apply list_elem_of_fmap_2].
  apply list_elem_of_lookup in Ha as [i Hi], Hb as [j Hj]. assert (i = j) as ->; [|congruence].
  apply (NoDup_lookup (actionID <$> acts) i j (actionID a)); [done|by rewrite list_lookup_fmap, Hi|by rewrite list_lookup_fmap, Hj, E].
Qed.

Lemma acts_lookup_other id k m :
  id ∉ actionID <$> acts → ContainsByte id slash = false → keyOn id k → applyChanges changes m !! k = m !! k.
Proof using Hseg.
  intros Hid Hs Hk. apply applyChanges_other. intros (c & -> & (b & Hc & Hb)%list_elem_of_bind)%list_elem_of_fmap.
  apply Hid. rewrite (keyOn_inj id (actionID b) (ChangeKey c)); [by apply list_elem_of_fmap_2|done| |done|by eapply actionChanges_on].
  rewrite Forall_forall in Hseg. by apply Hseg.
Qed.

End effect.

(** ** The active instances afterwards *)

(** Which fields of an instance are observed and which are derived. *)
Record instances_laid_out (facts : list Fact) : Prop := {
  layout_derived id f :
    f = "service" ∨ f = "state" → values_of facts !! instanceKey ScanDerivedInstances id f = None;
  layout_observed id f :
    f = "controller_stopped" ∨ f = "node_failure" → values_of facts !! instanceKey ScanObservedInstances id f = None
}.

(** The service an action creates an instance for. *)
Definition createdFor (a : action) : option string :=
  match a with AStop _ => None | ACreate _ s => Some s | AOrdinal s _ => Some s end.

(** An instance created under a new name has no fields yet. *)
Definition unused (facts : list Fact) (a : action) : Prop :=
  match a with ACreate id _ => ∀ f, fieldIn facts id f = None | _ => True end.

(** A field's key is none of the listed keys of the same instance. *)
Ltac other_key Hk :=
  repeat (apply elem_of_cons in Hk as [Hk|Hk];
          [first [symmetry in Hk; apply bare_key in Hk; [done|by auto]|apply instanceKey_inj in Hk as [? ?]; [naive_solver|by auto|by auto]]|]);
  by apply elem_of_nil in Hk.

Lemma creation_puts fields a s0 :
  createdFor a = Some s0 →
  ∃ g, mkChange OpPut (KeyObservedInstanceService (actionID a)) s0 g ∈ actionChanges fields a ∧
       mkChange OpPut (KeyObservedInstanceState (actionID a)) InstancePending g ∈ actionChanges fields a.
Proof.
  intros Hc. exists (actionGroup a). destruct a as [id|id s|s n]; simplify_eq/=.
  - split; repeat first [apply list_elem_of_here|apply list_elem_of_further].
  - unfold createOrdinal. split; apply elem_of_app; left; repeat first [apply list_elem_of_here|apply list_elem_of_further].
Qed.

(** The service recorded for a created instance is the one it is created for. *)
Lemma creation_service fields a s0 ch :
  createdFor a = Some s0 → ch ∈ actionChanges fields a → ChangeKey ch = KeyObservedInstanceService (actionID a) → ChangeValue ch = s0.
Proof.
  intros Hc Hch Hk. destruct (creation_puts fields a s0 Hc) as (g & Hput & _).
  assert (Hnd : NoDup (ChangeKey <$> actionChanges fields a)) by (eapply submseteq_nodup; [apply actionChanges_sub|apply ordinalKeys_nodup]).
  apply list_elem_of_lookup in Hch as [i Hi], Hput as [j Hj].
  assert (i = j) as ->; [|by simplify_eq].
  apply (NoDup_lookup (ChangeKey <$> actionChanges fields a) i j (ChangeKey ch)); [done|by rewrite list_lookup_fmap, Hi|by rewrite list_lookup_fmap, Hj, Hk].
Qed.

Section active_after.
Context (facts facts' : list Fact) (acts : list action).
Let fields := parseInstanceFieldsFromFacts facts.
Context (Hwf : facts_wf facts) (Hlay : instances_laid_out facts).
Context (Hids : NoDup (actionID <$> acts)) (Hseg : Forall (λ a, ContainsByte (actionID a) slash = false) acts).
Context (Hnew : Forall (unused facts) acts).
Context (Hval : values_of facts' = applyChanges (acts ≫= actionChanges fields) (values_of facts)).

Lemma after_other id s : id ∉ actionID <$> acts → activeIn facts' s id ↔ activeIn facts s id.
Proof using Hseg Hval.
  intros Hid. unfold activeIn. destruct (ContainsByte id slash) eqn:Hs; [by split; intros (_ & [=] & _)|].
  assert (Hf : ∀ f, fieldText facts' id f = fieldText facts id f).
  { intros f. unfold fieldText, fieldIn. rewrite Hval. rewrite !(acts_lookup_other fields acts Hseg id); try done; apply keyOn_field; auto. }
  unfold stateIn. by rewrite !Hf.
Qed.

Lemma after_stop id s : AStop id ∈ acts → ¬ activeIn facts' s id.
Proof using Hids Hseg Hval.
  intros Ha (_ & _ & _ & Hst). apply Hst. unfold stateIn. rewrite decide_True; [done|].
  unfold fieldText, fieldIn. rewrite Hval.
  rewrite (acts_lookup_in fields acts Hids Hseg (AStop id) (stopChange id)); [done|done|by apply list_elem_of_singleton|done].
Qed.

(** The keys an action leaves alone. *)
Lemma derived_untouched a f m :
  a ∈ acts → f ≠ "controller_stopped" → f ≠ "node_failure" →
  applyChanges (acts ≫= actionChanges fields) m !! instanceKey ScanDerivedInstances (actionID a) f =
  m !! instanceKey ScanDerivedInstances (actionID a) f.
Proof using Hids Hseg.
  intros Ha Hf1 Hf2. apply (acts_lookup_same fields acts Hids Hseg a); [done|apply keyOn_field; auto|].
  intros Hk. apply (submseteq_elem _ _ _ (actionChanges_sub fields a)) in Hk. unfold ordinalKeys, createdKeys in Hk. simpl app in Hk.
  other_key Hk.
Qed.

Lemma observed_untouched a f m :
  a ∈ acts → f ≠ "service" → f ≠ "state" → f ≠ "ordinal" →
  applyChanges (acts ≫= actionChanges fields) m !! instanceKey ScanObservedInstances (actionID a) f =
  m !! instanceKey ScanObservedInstances (actionID a) f.
Proof using Hids Hseg.
  intros Ha Hf1 Hf2 Hf3. apply (acts_lookup_same fields acts Hids Hseg a); [done|apply keyOn_field; auto|].
  intros Hk. apply (submseteq_elem _ _ _ (actionChanges_sub fields a)) in Hk. unfold ordinalKeys, createdKeys in Hk. simpl app in Hk.
  other_key Hk.
Qed.

Lemma ordinal_unmarked s n f :
  f = "controller_stopped" ∨ f = "node_failure" → fieldOf (default ∅ (fields !! ordinalID s n)) f ≠ "true" →
  instanceKey ScanDerivedInstances (ordinalID s n) f ∉ ChangeKey <$> createOrdinal s n fields.
Proof.
  intros Hf Ht Hk. unfold createOrdinal in Hk. rewrite !fmap_app, !elem_of_app in Hk. destruct Hk as [Hk|[Hk|Hk]].
  - change (instanceKey ScanDerivedInstances (ordinalID s n) f ∈ createdKeys (ordinalID s n) ++ [instanceKey ScanObservedInstances (ordinalID s n) "ordinal"]) in Hk.
    unfold createdKeys in Hk. simpl app in Hk. other_key Hk.
  - case_decide; [|by apply elem_of_nil in Hk].
    apply list_elem_of_singleton in Hk. apply (instanceKey_inj _ ScanDerivedInstances _ _ "controller_stopped") in Hk as [_ ->]; auto.
  - case_decide; [|by apply elem_of_nil in Hk].
    apply list_elem_of_singleton in Hk. apply (instanceKey_inj _ ScanDerivedInstances _ _ "node_failure") in Hk as [_ ->]; auto.
Qed.

(** A mark on an instance an action creates does not survive. *)
Lemma mark_cleared a s0 f :
  a ∈ acts → createdFor a = Some s0 → f = "controller_stopped" ∨ f = "node_failure" → fieldText facts' (actionID a) f ≠ "true".
Proof using Hwf Hlay Hids Hseg Hnew Hval.
  intros Ha Hc Hf. unfold fieldText, fieldIn. rewrite Hval, (observed_untouched a f) by (done || (destruct Hf; by subst)).
  rewrite (layout_observed _ Hlay) by done.
  assert (Hs : ContainsByte (actionID a) slash = false) by (rewrite Forall_forall in Hseg; by apply Hseg).
  assert (Hun : instanceKey ScanDerivedInstances (actionID a) f ∉ ChangeKey <$> actionChanges fields a →
    fieldText facts (actionID a) f ≠ "true" →
    default "" (match applyChanges (acts ≫= actionChanges fields) (values_of facts) !! instanceKey ScanDerivedInstances (actionID a) f
      with Some v => Some v | None => None end) ≠ "true").
  { intros Hk Ht. rewrite (acts_lookup_same fields acts Hids Hseg a) by (done || (apply keyOn_field; auto)).
    unfold fieldText, fieldIn in Ht. rewrite (layout_observed _ Hlay) in Ht by done. by destruct (values_of facts !! _). }
  destruct a as [id|id s|s n]; simplify_eq/=.
  - apply Hun.
    + intros Hk. change (instanceKey ScanDerivedInstances id f ∈ createdKeys id) in Hk. unfold createdKeys in Hk.
      other_key Hk.
    + rewrite Forall_forall in Hnew. specialize (Hnew _ Ha). unfold fieldText. simpl in Hnew. by rewrite Hnew.
  - destruct (decide (fieldText facts (ordinalID s0 n) f = "true")) as [Ht|Ht].
    + assert (Hin : mkChange OpDelete (instanceKey ScanDerivedInstances (ordinalID s0 n) f) "" ("instance-create/" +:+ ordinalID s0 n)
        ∈ actionChanges fields (AOrdinal s0 n)).
      { simpl. unfold createOrdinal. rewrite <-(fields_text facts Hwf) in Ht by done. fold fields in Ht.
        destruct Hf as [-> | ->]; rewrite (decide_True _ _ Ht), !elem_of_app; set_solver. }
      by rewrite (acts_lookup_in fields acts Hids Hseg _ _ _ (values_of facts) Ha Hin).
    + apply Hun; [|done]. apply (ordinal_unmarked s0 n f); [done|]. by rewrite (fields_text facts Hwf).
Qed.

Lemma created_text a s0 :
  a ∈ acts → createdFor a = Some s0 →
  fieldText facts' (actionID a) "service" = s0 ∧ fieldText facts' (actionID a) "state" = InstancePending.
Proof using Hlay Hids Hseg Hval.
  intros Ha Hc. unfold fieldText, fieldIn. rewrite Hval, !(derived_untouched a) by done.
  rewrite !(layout_derived _ Hlay) by auto.
  destruct (creation_puts fields a s0 Hc) as (g & H1 & H2).
  by rewrite (acts_lookup_in fields acts Hids Hseg _ _ (instanceKey ScanObservedInstances (actionID a) "service") _ Ha H1 eq_refl),
             (acts_lookup_in fields acts Hids Hseg _ _ (instanceKey ScanObservedInstances (actionID a) "state") _ Ha H2 eq_refl).
Qed.

Lemma after_create a s0 s :
  a ∈ acts → createdFor a = Some s0 → activeIn facts' s (actionID a) ↔ s = s0 ∧ s ≠ "".
Proof using Hwf Hlay Hids Hseg Hnew Hval.
  intros Ha Hc. destruct (created_text a s0 Ha Hc) as [E1 E2]. unfold activeIn, stateIn. rewrite E1, E2.
  rewrite !decide_False by (apply (mark_cleared a s0); auto).
  rewrite Forall_forall in Hseg. specialize (Hseg a Ha). split; [naive_solver|]. by intros [-> ?].
Qed.

(** The active instances of a service: the ones that were active and are not
    stopped, and the ones created for it. *)
Lemma active_after s id :
  s ≠ "" →
  activeIn facts' s id ↔
  (activeIn facts s id ∧ id ∉ actionID <$> acts) ∨ (∃ a, a ∈ acts ∧ createdFor a = Some s ∧ id = actionID a).
Proof using Hwf Hlay Hids Hseg Hnew Hval.
  intros Hs. destruct (decide (id ∈ actionID <$> acts)) as [(a & -> & Ha)%list_elem_of_fmap|Hout].
  - assert (actionID a ∈ actionID <$> acts) by (by apply list_elem_of_fmap_2).
    assert (Huniq : ∀ b, b ∈ acts → actionID a = actionID b → a = b).
    { intros b Hb E. apply list_elem_of_lookup in Ha as [i Hi], Hb as [j Hj]. assert (i = j) as ->; [|congruence].
      apply (NoDup_lookup (actionID <$> acts) i j (actionID a)); [done|by rewrite list_lookup_fmap, Hi|by rewrite list_lookup_fmap, Hj, E]. }
    destruct (createdFor a) as [s0|] eqn:Ec.
    + rewrite (after_create a s0 s Ha Ec). split; [intros [-> _]; right; by exists a|].
      intros [[_ Hno]|(b & Hb & Hcb & E)]; [done|]. apply Huniq in E as ->; [|done]. naive_solver.
    + destruct a as [i| |]; [|done..]. split; [intros Hact; by apply (after_stop i s) in Hact|].
      intros [[_ Hno]|(b & Hb & Hcb & E)]; [done|]. apply Huniq in E as <-; done.
  - rewrite after_other by done. split; [by left|]. intros [[? _]|(b & Hb & _ & ->)]; [done|].
    destruct Hout. by apply list_elem_of_fmap_2.
Qed.

End active_after.
