(* ===== verification/InstanceCycle.v ===== *)
(** * One cycle of the instance controller as actions

    The actions of a cycle, that they concern different instances, and that the
    changes proposed are the changes of a prefix of them. *)

From S2P Require Import Prelude GoStrings GoFmt Trie EventHistory MemoryStore StoreInvariant StoreProps.
From S2P Require Import StateStore PrefixSearch Keys Heap NodeHeap SchedulerFacts Placement Runner RunnerProps.
From S2P Require Import ControllerHelpers InstanceController InstanceEffects.

Local Open Scope Z_scope.

(** ** The cycle *)

Definition cycleServices (facts : list Fact) : effectiveServices :=
  let parsed := parseEffectiveServiceFacts facts in
  mkEffective (addSurge (desiredCounts parsed) (extractSurgeAllowances facts)) (statefulServices parsed) (perNodeServices parsed).

Definition cycleFields (facts : list Fact) : gmap string (gmap string string) := parseInstanceFieldsFromFacts facts.
Definition cycleStates (facts : list Fact) : gmap string string := fst (buildInstanceMapsFromFields (cycleFields facts)).

(** The count wanted of a service and whether its instances are numbered. *)
Definition wantIn (facts : list Fact) (s : string) : Z := wantOf (cycleServices facts) s.
Definition statefulIn (facts : list Fact) (s : string) : bool := flagOf (statefulServices (cycleServices facts)) s.

Section cycle.
Context `{GoMapRange} (facts : list Fact) (c : InstanceController).

Definition cycleActive : gmap string (list string) :=
  buildActiveInstanceIDsByService (snd (buildInstanceMapsFromFields (cycleFields facts))) (cycleStates facts).

Definition cycleNames : list string := sortedMapKeys (desiredCounts (cycleServices facts)).

Definition cycleDeficits : list serviceDeficit :=
  computeServiceDeficits cycleNames (cycleServices facts) cycleActive (cycleStates facts) (cycleFields facts).

Definition cycleEntries : list (serviceDeficit * Z) :=
  if bool_decide (cycleDeficits = []) || (MaxCreationsPerCycle c <=? 0) then []
  else zip cycleDeficits (allocateShares (deficit <$> cycleDeficits) (MaxCreationsPerCycle c)).

Definition stopsIn (s : string) : list string :=
  stopIDsOf (cycleServices facts) cycleActive (cycleStates facts) (cycleFields facts) s.

Definition creationActs : list action :=
  createActs (cycleServices facts) (cycleStates facts) (cycleFields facts) (NewID c) (idsDrawn c) cycleEntries.

Definition cycleActs : list action := (AStop <$> (cycleNames ≫= stopsIn)) ++ creationActs.

(** What the theorems assume of the names of instances: the generator's names
    are new and are not ordinal names; the instances of a numbered service have
    canonical ordinal names, which no other service uses; services have names. *)
Record ids_wf : Prop := {
  new_unused n f : (idsDrawn c ≤ n)%nat → fieldIn facts (NewID c n) f = None;
  new_inj m n : NewID c m = NewID c n → m = n;
  new_segment n : ContainsByte (NewID c n) slash = false;
  new_not_ordinal n s m : statefulIn facts s = true → NewID c n ≠ ordinalID s m;
  ordinal_canonical s id n :
    statefulIn facts s = true → activeIn facts s id → HasPrefix id (s +:+ "-") = true →
    Atoi (TrimPrefix id (s +:+ "-")) = (n, None) → id = ordinalID s n;
  ordinal_owner s n s' : statefulIn facts s = true → activeIn facts s' (ordinalID s n) → s' = s;
  named_services : desiredCounts (cycleServices facts) !! "" = None;
  active_bounded s : Z.of_nat (length (activeList facts s)) ≤ int64_max
}.

Context (Hwf : facts_wf facts).

Lemma activeOf_list s : activeOf cycleActive s = activeList facts s.
Proof. apply buildActive_lookup. Qed.

Lemma cycleNames_segment s : s ∈ cycleNames → ContainsByte s slash = false.
Proof using Hwf.
  unfold cycleNames. rewrite sortedMapKeys_elem. simpl. unfold addSurge. intros [v Hv].
  assert (Hseg : ∀ (m : gmap string Z), is_Some (m !! s) →
    (∀ k, is_Some (m !! k) → ∃ p x v, (k, x, v) ∈ entityFields facts p ∧ p ≠ "") → ContainsByte s slash = false).
  { intros m Hs Hm. destruct (Hm s Hs) as (p & x & w & Hin & Hp). by apply elem_of_entityFields in Hin as [? _]. }
  rewrite lookup_merge in Hv.
  destruct (extractSurgeAllowances facts !! s) as [z|] eqn:E1; [|destruct (desiredCounts _ !! s) as [z|] eqn:E2; [|done]].
  - apply (Hseg (extractSurgeAllowances facts)); [by exists z|]. unfold extractSurgeAllowances.
    apply (foldl_inv (λ m : gmap string Z, ∀ k, is_Some (m !! k) → _)); [intros k [? [=]]|].
    intros m [[k0 x] w] Hin IH k. case_decide; [|apply IH]. destruct (Atoi w) as [z0 []]; [apply IH|].
    rewrite lookup_insert_is_Some. intros [<-|[_ Hk]]; [|by apply IH]. by exists ScanDerivedServices, x, w.
  - apply (Hseg (desiredCounts (parseEffectiveServiceFacts facts))); [by exists z|]. unfold parseEffectiveServiceFacts.
    apply (foldl_inv (λ e : effectiveServices, ∀ k, is_Some (desiredCounts e !! k) → _)); [intros k [? [=]]|].
    intros m [[k0 x] w] Hin IH k. repeat case_decide; simpl; [|apply IH..]. destruct (Atoi w) as [z0 []]; [apply IH|]. simpl.
    rewrite lookup_insert_is_Some. intros [<-|[_ Hk]]; [|by apply IH]. by exists ScanEffectiveServices, x, w.
Qed.

(** The lists of active instances the two stages build agree. *)
Lemma activeIDs_agree s : s ≠ "" → buildActiveIDsFromFields s (cycleFields facts) (cycleStates facts) ≡ₚ activeList facts s.
Proof using Hwf.
  intros Hs. destruct (activeList_spec facts Hwf s) as [Hnd Hel].
  unfold buildActiveIDsFromFields, sort_strings. rewrite sort_stable_perm.
  set (pick := λ '(instanceID, fields), if decide (fieldOf fields "service" ≠ s) then None
    else if decide (fieldOf (cycleStates facts) instanceID ≠ InstanceStopped) then Some instanceID else None).
  apply NoDup_Permutation; [|done|].
  - apply (submseteq_nodup _ (fst <$> map_range (cycleFields facts))); [|apply map_range_keys_nodup].
    generalize (map_range (cycleFields facts)). induction l as [|[i f] l IH]; [done|]. csimpl.
    repeat case_decide; simpl; first [by constructor|by apply submseteq_cons].
  - intros id. rewrite Hel, list_elem_of_omap. unfold activeIn. split.
    + intros ([i f] & Hi%elem_of_map_range & Hp). unfold pick in Hp. repeat case_decide; simplify_eq.
      assert (Hsome : is_Some (cycleFields facts !! id)) by (by exists f).
      pose proof (instanceFields_segment facts Hwf id Hsome) as Hid. pose proof (fields_text facts Hwf id "service" Hid) as Ht.
      fold (cycleFields facts) in Ht. rewrite Hi in Ht. simpl in Ht.
      rewrite <-(states_text facts Hwf id Hsome), <-Ht. done.
    + intros (_ & Hid & Ht & Hst). pose proof (fields_text facts Hwf id "service" Hid) as Hf. fold (cycleFields facts) in Hf.
      destruct (cycleFields facts !! id) as [f|] eqn:E; simpl in Hf; [|by rewrite <-Hf in Ht].
      exists (id, f). rewrite elem_of_map_range. split; [done|]. unfold pick.
      rewrite decide_False by congruence. rewrite decide_True; [done|]. assert (is_Some (cycleFields facts !! id)) as Hsome by (by exists f).
      pose proof (states_text facts Hwf id Hsome) as Hx. unfold cycleStates. unfold cycleFields. by rewrite Hx.
Qed.

Lemma parseExisting_perm s l k : l ≡ₚ k → parseExistingOrdinals s l ≡ₚ parseExistingOrdinals s k.
Proof. intros E. unfold parseExistingOrdinals, sort_ints. rewrite !sort_stable_perm. by rewrite E. Qed.

Lemma parseExisting_elem s l n :
  n ∈ parseExistingOrdinals s l ↔
  ∃ id, id ∈ l ∧ HasPrefix id (s +:+ "-") = true ∧ Atoi (TrimPrefix id (s +:+ "-")) = (n, None).
Proof.
  unfold parseExistingOrdinals, sort_ints. rewrite sort_stable_perm, list_elem_of_omap. split.
  - intros (id & Hid & E). exists id. destruct (HasPrefix id _); [|done]. by destruct (Atoi _) as [z []]; simplify_eq.
  - intros (id & Hid & E1 & E2). exists id. by rewrite E1, E2.
Qed.

Lemma parseExisting_length s l : (length (parseExistingOrdinals s l) ≤ length l)%nat.
Proof. unfold parseExistingOrdinals, sort_ints. rewrite sort_stable_perm. apply omap_length. Qed.

Lemma ordinalID_parse s n : in_int64 n → HasPrefix (ordinalID s n) (s +:+ "-") = true ∧ Atoi (TrimPrefix (ordinalID s n) (s +:+ "-")) = (n, None).
Proof.
  intros Hn. unfold ordinalID. rewrite <-str_app_assoc. split; [apply HasPrefix_app|]. rewrite TrimPrefix_app. by apply Atoi_Itoa.
Qed.

(** ** The stops *)

Section named.
Context (Hids : ids_wf).

Lemma existing_nodup s : statefulIn facts s = true → NoDup (parseExistingOrdinals s (activeList facts s)).
Proof using Hwf Hids.
  intros Hs. destruct (activeList_spec facts Hwf s) as [Hnd Hel].
  unfold parseExistingOrdinals, sort_ints. rewrite sort_stable_perm.
  assert (Hall : ∀ id, id ∈ activeList facts s → activeIn facts s id) by (intros id; by rewrite Hel).
  clear Hel. induction (activeList facts s) as [|id l IH]; [apply NoDup_nil_2|]. csimpl. apply NoDup_cons in Hnd as [Hout Hnd].
  assert (IHl : NoDup (omap (λ instanceID, if HasPrefix instanceID (s +:+ "-") then
    match Atoi (TrimPrefix instanceID (s +:+ "-")) with (ordinal, None) => Some ordinal | (_, Some _) => None end else None) l)).
  { apply IH; [done|]. intros; apply Hall; set_solver. }
  destruct (HasPrefix id (s +:+ "-")) eqn:Ep; [|done]. destruct (Atoi (TrimPrefix id (s +:+ "-"))) as [n []] eqn:Ea; [done|].
  apply NoDup_cons. split; [|done]. rewrite list_elem_of_omap. intros (id' & Hid' & E).
  destruct (HasPrefix id' (s +:+ "-")) eqn:Ep'; [|done]. destruct (Atoi (TrimPrefix id' (s +:+ "-"))) as [n' []] eqn:Ea'; simplify_eq.
  apply Hout. rewrite (ordinal_canonical Hids s id n), <-(ordinal_canonical Hids s id' n); try done; apply Hall; set_solver.
Qed.

(** The order in which a service without ordinals gives up its instances. *)
Lemma stopsIn_candidates s :
  flagOf (perNodeServices (cycleServices facts)) s = true ∨ statefulIn facts s = false →
  ∃ l, l ≡ₚ activeList facts s ∧
    stopsIn s = if wantIn facts s <? Z.of_nat (length (activeList facts s))
                then take (Z.to_nat (Z.of_nat (length (activeList facts s)) -! wantIn facts s)%go) l else [].
Proof.
  intros Hkind. unfold stopsIn, stopIDsOf, haveOf. rewrite activeOf_list. fold (wantIn facts s) (statefulIn facts s).
  destruct (flagOf (perNodeServices (cycleServices facts)) s).
  - set (P := onFailedNode (cycleFields facts)). set (Q := stillPending (cycleFields facts)). eexists. split; [|done].
    rewrite <-(filter_split P (activeList facts s)) at 4. f_equiv.
    rewrite <-(filter_split Q (filter (λ i, ¬ P i) _)), !list_filter_filter.
    f_equiv; apply reflexive_eq, list_filter_iff; naive_solver.
  - destruct (statefulIn facts s); [naive_solver|]. eexists. split; [|done].
    apply (filter_split (λ i, fieldOf (cycleStates facts) i = InstancePending)).
Qed.

Lemma stopsIn_spec s :
  NoDup (stopsIn s) ∧ (∀ id, id ∈ stopsIn s → activeIn facts s id) ∧
  Z.of_nat (length (stopsIn s)) ≤ Z.max 0 (Z.of_nat (length (activeList facts s)) - wantIn facts s).
Proof using Hwf Hids.
  destruct (activeList_spec facts Hwf s) as [Hnd Hel]. set (have := Z.of_nat (length (activeList facts s))).
  assert (Hx : wantIn facts s < have → Z.of_nat (Z.to_nat (have -! wantIn facts s)%go) ≤ have - wantIn facts s).
  { intros Hlt. unfold wrap64. pose proof (Z.mod_le (have - wantIn facts s + 2 ^ 63) (2 ^ 64)). lia. }
  destruct (decide (flagOf (perNodeServices (cycleServices facts)) s = true ∨ statefulIn facts s = false)) as [Hk|Hk].
  - destruct (stopsIn_candidates s Hk) as (l & Hl & ->). fold have.
    destruct (Z.ltb_spec (wantIn facts s) have); [|split_and!; [apply NoDup_nil_2|set_solver|simpl; lia]]. specialize (Hx H0).
    set (excess := Z.to_nat _) in *. assert (Ht : take excess l ⊆+ activeList facts s) by (rewrite <-Hl; apply submseteq_take).
    split_and!; [by eapply submseteq_nodup| |rewrite length_take; lia]. intros id Hid. apply Hel. by eapply submseteq_elem.
  - apply Decidable.not_or in Hk as [Hp Est%not_false_is_true]. apply not_true_is_false in Hp.
    unfold stopsIn, stopIDsOf, haveOf. rewrite activeOf_list, Hp. fold (wantIn facts s) (statefulIn facts s). rewrite Est. fold have.
    destruct (Z.ltb_spec (wantIn facts s) have); [|split_and!; [apply NoDup_nil_2|set_solver|simpl; lia]]. specialize (Hx H0).
    set (l := take _ _). assert (Hl : l ⊆+ parseExistingOrdinals s (activeList facts s)).
    { unfold l. etrans; [apply submseteq_take|]. by rewrite reverse_Permutation. }
    split_and!.
    + apply NoDup_fmap; [|by eapply submseteq_nodup, existing_nodup].
      intros x y E. do 2 apply (inj (String.app _)) in E. by apply (inj Itoa).
    + intros id (n & -> & Hn)%list_elem_of_fmap. apply (submseteq_elem _ _ _ Hl), parseExisting_elem in Hn as (id & Hid & H1 & H2).
      apply Hel in Hid. by rewrite <-(ordinal_canonical Hids s id n).
    + rewrite length_fmap. unfold l. rewrite length_take. lia.
Qed.

(** ** The creations *)

Lemma deficits_elem d :
  d ∈ cycleDeficits →
  deficitService d ∈ cycleNames ∧
  0 < deficit d ≤ wantIn facts (deficitService d) - Z.of_nat (length (activeList facts (deficitService d))) ∧
  (statefulIn facts (deficitService d) = false →
   deficit d = wantIn facts (deficitService d) - Z.of_nat (length (activeList facts (deficitService d)))).
Proof.
  unfold cycleDeficits, computeServiceDeficits. rewrite list_elem_of_bind. intros (s & Hd & Hs).
  fold (wantOf (cycleServices facts) s) (activeOf cycleActive s) in Hd. fold (wantIn facts s) (statefulIn facts s) in Hd.
  rewrite activeOf_list in Hd. case_match; [by apply elem_of_nil in Hd|]. boolprop. destruct (statefulIn facts s) eqn:Est.
  - case_match; [by apply elem_of_nil in Hd|]. apply list_elem_of_singleton in Hd as ->. simpl. split_and!; [done|lia|lia|]. congruence.
  - apply list_elem_of_singleton in Hd as ->. simpl. split_and!; [done|lia|lia|done].
Qed.

Lemma deficits_nodup : NoDup (deficitService <$> cycleDeficits).
Proof.
  unfold cycleDeficits, computeServiceDeficits. apply (submseteq_nodup _ cycleNames); [|apply sortedMapKeys_nodup].
  generalize cycleNames. induction l as [|s l IH]; [done|]. rewrite bind_cons, fmap_app. apply (submseteq_app _ [s]); [|done].
  repeat case_match; simpl; try done; apply submseteq_nil_l.
Qed.

Lemma entries_elem d a : (d, a) ∈ cycleEntries → d ∈ cycleDeficits ∧ a ≤ deficit d.
Proof using Type.
  unfold cycleEntries. case_match eqn:Eb; [by intros ?%elem_of_nil|]. apply orb_false_iff in Eb as [Ene Epos]. boolprop.
  destruct (allocateShares_spec (deficit <$> cycleDeficits) (MaxCreationsPerCycle c)) as [[Hd _ _] _]; [|apply Forall_fmap, Forall_forall|lia|].
  - intros E%fmap_nil_inv. done.
  - intros d' Hd'. by apply deficits_elem.
  - intros Hin. apply list_elem_of_lookup in Hin as [i Hi]. apply lookup_zip_with_Some in Hi as (d' & a' & E & H1 & H2). simplify_eq.
    split; [by eapply list_elem_of_lookup_2|]. eapply Forall2_lookup_lr in Hd; [exact Hd|exact H2|]. by rewrite list_lookup_fmap, H1.
Qed.

Lemma entries_nodup : NoDup (deficitService <$> cycleEntries.*1).
Proof.
  unfold cycleEntries. destruct (_ || _); [apply NoDup_nil_2|]. eapply submseteq_nodup; [|apply deficits_nodup].
  apply fmap_submseteq. generalize (allocateShares (deficit <$> cycleDeficits) (MaxCreationsPerCycle c)).
  induction cycleDeficits as [|d ds IH]; intros [|x l]; simpl; first [apply submseteq_nil_l|apply submseteq_skip, IH].
Qed.

(** What a creation is: a new name for a service without ordinals, or the next
    ordinal of a numbered one. *)
Definition creation (drawn : nat) (names : list string) (a : action) : Prop :=
  (∃ i s, a = ACreate (NewID c i) s ∧ (drawn ≤ i)%nat ∧ s ∈ names ∧ statefulIn facts s = false) ∨
  (∃ s n alloc, a = AOrdinal s n ∧ s ∈ names ∧ statefulIn facts s = true ∧
     nextOrdinalOf (cycleStates facts) (cycleFields facts) s alloc = Some n).

Lemma createActs_creation entries drawn a :
  a ∈ createActs (cycleServices facts) (cycleStates facts) (cycleFields facts) (NewID c) drawn entries →
  creation drawn (deficitService <$> entries.*1) a.
Proof.
  revert drawn. induction entries as [|[d x] rest IH]; intros drawn; cbn [createActs]; [set_solver|].
  rewrite elem_of_app. unfold createActsOf, drawnBy. fold (statefulIn facts (deficitService d)). rewrite !fmap_cons. cbn [fst].
  intros [Ha|Ha].
  - destruct (x <=? 0); [by apply elem_of_nil in Ha|]. destruct (statefulIn facts (deficitService d)) eqn:Est.
    + right. destruct (nextOrdinalOf _ _ _ x) as [n|] eqn:En; simpl in Ha; [|by apply elem_of_nil in Ha].
      apply list_elem_of_singleton in Ha as ->. exists (deficitService d), n, x. split_and!; [done|apply list_elem_of_here|done|done].
    + left. apply list_elem_of_fmap in Ha as (i & -> & Hi%elem_of_seq). exists i, (deficitService d).
      split_and!; [done|lia|apply list_elem_of_here|done].
  - apply IH in Ha as [(i & s & -> & Hi & Hs & Est)|(s & n & y & -> & Hs & Est & En)].
    + left. exists i, s. split_and!; [done| |by apply list_elem_of_further|done]. case_match; lia.
    + right. exists s, n, y. split_and!; [done|by apply list_elem_of_further|done|done].
Qed.

Lemma nextOrdinalOf_spec s alloc n :
  s ∈ cycleNames → statefulIn facts s = true → nextOrdinalOf (cycleStates facts) (cycleFields facts) s alloc = Some n →
  0 ≤ n ∧ (∀ s', ¬ activeIn facts s' (ordinalID s n)) ∧
  ∀ m, 0 ≤ m < n → activeIn facts s (ordinalID s m) ∧ stateIn facts (ordinalID s m) = InstanceRunning.
Proof using Hwf Hids.
  intros Hs Est. unfold nextOrdinalOf. rewrite firstMissing_Some. intros [Hnext _].
  pose proof (next_ordinal_bound _ _ _ _ Hnext) as Hb. destruct Hnext as (H0 & Hout & Hall).
  assert (Hne : s ≠ "").
  { intros ->. apply sortedMapKeys_elem in Hs as [v Hv]. by rewrite (named_services Hids) in Hv. }
  pose proof (activeIDs_agree s Hne) as Hperm. pose proof (parseExisting_perm s _ _ Hperm) as Hp.
  pose proof (parseExisting_length s (activeList facts s)) as Hlen. pose proof (active_bounded Hids s) as Hbd.
  rewrite Hp in Hb. destruct (activeList_spec facts Hwf s) as [_ Hel].
  split; [done|]. split.
  - intros s' Hact. assert (s' = s) as -> by (by apply (ordinal_owner Hids s n s')). apply Hout, elem_of_list_to_set.
    rewrite Hp, parseExisting_elem. exists (ordinalID s n). rewrite Hel. split; [done|].
    apply ordinalID_parse. unfold in_int64, int64_min. lia.
  - intros m Hm. destruct (Hall m Hm) as [Hin Hrun]. rewrite elem_of_list_to_set, Hp, parseExisting_elem in Hin.
    destruct Hin as (id & Hid & H1 & H2). apply Hel in Hid. pose proof (ordinal_canonical Hids s id m Est Hid H1 H2) as ->.
    split; [done|]. rewrite <-Hrun. symmetry. apply (states_text facts Hwf). apply (instanceFields_dom facts Hwf); [by apply Hid|].
    exists "service". destruct Hid as (_ & _ & Ht & _). unfold fieldText in Ht. destruct (fieldIn facts (ordinalID s m) "service"); [eauto|].
    by rewrite <-Ht in Hne.
Qed.

Lemma ordinalID_inj s n t m : 0 ≤ n → 0 ≤ m → ordinalID s n = ordinalID t m → s = t ∧ n = m.
Proof.
  intros Hn Hm E. apply (last_part_inj "-") in E as [-> E]; [|by apply Itoa_unsigned..]. split; [done|]. by apply (inj Itoa).
Qed.

Lemma createActs_ids_nodup entries drawn :
  NoDup (deficitService <$> entries.*1) → (∀ s, s ∈ deficitService <$> entries.*1 → s ∈ cycleNames) →
  NoDup (actionID <$> createActs (cycleServices facts) (cycleStates facts) (cycleFields facts) (NewID c) drawn entries).
Proof using Hwf Hids.
  revert drawn. induction entries as [|[d x] rest IH]; intros drawn Hnd Hn; [apply NoDup_nil_2|].
  rewrite !fmap_cons in Hnd, Hn. cbn [fst] in Hnd, Hn. apply NoDup_cons in Hnd as [Hout Hnd].
  assert (Hd : deficitService d ∈ cycleNames) by (apply Hn; apply list_elem_of_here).
  assert (Hrest : ∀ s, s ∈ deficitService <$> rest.*1 → s ∈ cycleNames) by (intros; apply Hn; by apply list_elem_of_further).
  cbn [createActs]. rewrite fmap_app. apply NoDup_app. split_and!; [| |by apply IH].
  - unfold createActsOf. destruct (x <=? 0); [apply NoDup_nil_2|]. destruct (flagOf _ _).
    + destruct (nextOrdinalOf _ _ _ _); simpl; [apply NoDup_singleton|apply NoDup_nil_2].
    + rewrite <-list_fmap_compose. apply NoDup_fmap; [|apply NoDup_seq]. intros i j E. by apply (new_inj Hids).
  - intros id (a & -> & Ha)%list_elem_of_fmap (b & E & Hb)%list_elem_of_fmap.
    apply createActs_creation in Hb. unfold createActsOf, drawnBy in *. fold (statefulIn facts (deficitService d)) in *.
    destruct (x <=? 0); [by apply elem_of_nil in Ha|]. destruct (statefulIn facts (deficitService d)) eqn:Est; simpl in Hb.
    + destruct (nextOrdinalOf _ _ _ x) as [n|] eqn:En; simpl in Ha; [|by apply elem_of_nil in Ha].
      apply list_elem_of_singleton in Ha as ->. apply nextOrdinalOf_spec in En as (H0 & _); [|done..].
      destruct Hb as [(i & s & -> & Hi & Hs & _)|(s & m & y & -> & Hs & Es & Em)]; simpl in E.
      * symmetry in E. by apply (new_not_ordinal Hids) in E.
      * apply nextOrdinalOf_spec in Em as (H0' & _); [|by apply Hrest|done]. apply ordinalID_inj in E as [<- _]; done.
    + apply list_elem_of_fmap in Ha as (i & -> & Hi%elem_of_seq).
      destruct Hb as [(j & s & -> & Hj & Hs & _)|(s & m & y & -> & Hs & Es & Em)]; simpl in E.
      * apply (new_inj Hids) in E. lia.
      * by apply (new_not_ordinal Hids) in E.
Qed.

Lemma entries_names s : s ∈ deficitService <$> cycleEntries.*1 → s ∈ cycleNames.
Proof.
  rewrite <-list_fmap_compose, list_elem_of_fmap. intros ([d x] & -> & Hin). apply entries_elem in Hin as [Hd _]. by apply deficits_elem.
Qed.

Lemma creationActs_creation a : a ∈ creationActs → creation (idsDrawn c) cycleNames a.
Proof.
  intros Ha%createActs_creation. destruct Ha as [(i & s & -> & Hi & Hs & Est)|(s & n & y & -> & Hs & Est & En)]; [left|right].
  - exists i, s. split_and!; [done|done|by apply entries_names|done].
  - exists s, n, y. split_and!; [done|by apply entries_names|done|done].
Qed.

(** Nothing that is created is active already. *)
Lemma creation_inactive a s : a ∈ creationActs → ¬ activeIn facts s (actionID a).
Proof using Hwf Hids.
  intros [(i & s' & -> & Hi & Hs & Est)|(s' & n & y & -> & Hs & Est & En)]%creationActs_creation; simpl.
  - intros (Hne & _ & Ht & _). unfold fieldText in Ht. by rewrite (new_unused Hids) in Ht.
  - apply nextOrdinalOf_spec in En as (_ & Hno & _); done.
Qed.

Lemma cycleActs_ids_nodup : NoDup (actionID <$> cycleActs).
Proof using Hwf Hids.
  unfold cycleActs. rewrite fmap_app, <-list_fmap_compose. change (actionID ∘ AStop) with (λ x : string, x). rewrite list_fmap_id.
  apply NoDup_app. split_and!.
  - pose proof (sortedMapKeys_nodup (desiredCounts (cycleServices facts))) as Hn. fold cycleNames in Hn.
    induction Hn as [|s l Hout Hn IH]; [apply NoDup_nil_2|]. rewrite bind_cons. apply NoDup_app. split_and!; [apply stopsIn_spec| |done].
    intros id Hid (s' & Hid' & Hs')%list_elem_of_bind. apply stopsIn_spec in Hid as (_ & _ & <- & _), Hid' as (_ & _ & <- & _). done.
  - intros id (s & Hid & _)%list_elem_of_bind (a & -> & Ha)%list_elem_of_fmap.
    apply stopsIn_spec in Hid. by apply (creation_inactive a s).
  - apply createActs_ids_nodup; [apply entries_nodup|apply entries_names].
Qed.

Lemma cycleActs_segment : Forall (λ a, ContainsByte (actionID a) slash = false) cycleActs.
Proof using Hwf Hids.
  apply Forall_forall. unfold cycleActs. intros a [(id & -> & (s & Hid & _)%list_elem_of_bind)%list_elem_of_fmap|Ha]%elem_of_app.
  - apply stopsIn_spec in Hid as (_ & ? & _). done.
  - apply creationActs_creation in Ha as [(i & s' & -> & _)|(s & n & y & -> & Hs & _)]; simpl; [apply (new_segment Hids)|].
    unfold ordinalID. rewrite !ContainsByte_app, (cycleNames_segment s Hs), Itoa_ContainsByte; done.
Qed.

Lemma cycleActs_unused : Forall (unused facts) cycleActs.
Proof using Hwf Hids.
  apply Forall_forall. unfold cycleActs. intros a [(id & -> & _)%list_elem_of_fmap|Ha]%elem_of_app; [done|].
  apply creationActs_creation in Ha as [(i & s' & -> & Hi & _)|(s & n & y & -> & _)]; simpl; [|done]. intros f. by apply (new_unused Hids).
Qed.

(** The cycle proposes the changes of a prefix of its actions: all of them when
    they fit. *)
Lemma Reconcile_actions :
  ∃ k c', InstanceController_Reconcile facts c = (inl (take k cycleActs ≫= actionChanges (cycleFields facts)), c') ∧
    Z.of_nat (length (take k cycleActs ≫= actionChanges (cycleFields facts))) ≤ maxInstanceControllerChangesPerCycle ∧
    (Z.of_nat (length (cycleActs ≫= actionChanges (cycleFields facts))) ≤ maxInstanceControllerChangesPerCycle →
     take k cycleActs = cycleActs).
Proof using Hwf Hids.
  assert (Hcreate : ∃ c', allocateCreationsFairly cycleDeficits (cycleServices facts) (cycleStates facts) (cycleFields facts)
    (MaxCreationsPerCycle c) c = (creationActs ≫= actionChanges (cycleFields facts), c')).
  { unfold allocateCreationsFairly, creationActs, cycleEntries. destruct (_ || _); [by exists c|]. apply createAll_actions. }
  destruct Hcreate as [c' Hcreate]. unfold InstanceController_Reconcile.
  destruct (buildInstanceMapsFromFields (parseInstanceFieldsFromFacts facts)) as [states svcs] eqn:Em.
  assert (Est : cycleStates facts = states) by (unfold cycleStates, cycleFields; by rewrite Em).
  assert (Eac : cycleActive = buildActiveInstanceIDsByService svcs states) by (unfold cycleActive; rewrite Est; unfold cycleFields; by rewrite Em).
  fold (cycleServices facts). cbv zeta. fold (cycleServices facts). rewrite <-Eac, <-Est. fold (cycleFields facts). fold cycleNames. fold cycleDeficits.
  rewrite Hcreate, reconcileScaleDowns_actions. fold stopsIn.
  change (stopIDsOf (cycleServices facts) cycleActive (cycleStates facts) (cycleFields facts)) with stopsIn.
  rewrite <-bind_app. fold cycleActs. destruct (Z.ltb_spec maxInstanceControllerChangesPerCycle (Z.of_nat (length (cycleActs ≫= actionChanges (cycleFields facts))))).
  - destruct (takeGroupsLoop_actions (cycleFields facts) cycleActs (length (cycleActs ≫= actionChanges (cycleFields facts)))
      maxInstanceControllerChangesPerCycle []) as (k & deferred & E & Hk); [done|apply cycleActs_ids_nodup|done|done|].
    unfold takeWholeGroups. rewrite E. exists k, c'. split_and!; [done|done|lia].
  - exists (length cycleActs), c'. rewrite take_ge by done. done.
Qed.

End named.
End cycle.
