(* ===== verification/InstanceProps.v ===== *)
(** * What the instance controller guarantees, and cycles on concrete facts *)

From S2P Require Import Prelude GoStrings GoFmt Trie EventHistory MemoryStore StoreInvariant StoreProps StateStore PrefixSearch Keys Heap NodeHeap.
From S2P Require Import SchedulerFacts Placement Runner RunnerProps ControllerHelpers InstanceController InstanceEffects InstanceCycle.

Local Open Scope Z_scope.

(** * What the instance controller guarantees

    A cycle moves the number of active instances of every service towards the
    number wanted and never past it; a difference of at most nineteen instances
    is settled in one cycle; numbered instances are started in order. *)

Definition createdForIn (s : string) (acts : list action) : list action := filter (λ a, createdFor a = Some s) acts.

Section counts.
Context `{GoMapRange} (facts : list Fact) (c : InstanceController) (Hwf : facts_wf facts) (Hids : ids_wf facts c).

(** ** How many are created *)

Let createOf := createActsOf (cycleServices facts) (cycleStates facts) (cycleFields facts) (NewID c).
Let create := createActs (cycleServices facts) (cycleStates facts) (cycleFields facts) (NewID c).

Lemma createdForIn_other drawn d x s : deficitService d ≠ s → createdForIn s (createOf drawn d x) = [].
Proof.
  intros Hs. apply filter_nothing, Forall_forall. intros a. unfold createOf, createActsOf.
  destruct (x <=? 0); [set_solver|]. destruct (flagOf _ _).
  - destruct (nextOrdinalOf _ _ _ _); simpl; [|set_solver]. intros ->%list_elem_of_singleton. simpl. congruence.
  - intros (i & -> & _)%list_elem_of_fmap. simpl. congruence.
Qed.

Lemma createOf_length drawn d x : Z.of_nat (length (createOf drawn d x)) ≤ Z.max 0 x ∧
  (statefulIn facts (deficitService d) = false → Z.of_nat (length (createOf drawn d x)) = Z.max 0 x).
Proof.
  unfold createOf, createActsOf, statefulIn. destruct (Z.leb_spec x 0); [simpl; lia|]. destruct (flagOf _ _).
  - destruct (nextOrdinalOf _ _ _ _); simpl; split; (lia || done).
  - rewrite length_fmap, length_seq. lia.
Qed.

Lemma createdForIn_same drawn d x : createdForIn (deficitService d) (createOf drawn d x) = createOf drawn d x.
Proof.
  apply filter_everything, Forall_forall. intros a. unfold createOf, createActsOf.
  destruct (x <=? 0); [set_solver|]. destruct (flagOf _ _).
  - destruct (nextOrdinalOf _ _ _ _); simpl; [|set_solver]. by intros ->%list_elem_of_singleton.
  - by intros (i & -> & _)%list_elem_of_fmap.
Qed.

Lemma create_none entries drawn s : s ∉ deficitService <$> entries.*1 → createdForIn s (create drawn entries) = [].
Proof.
  revert drawn. induction entries as [|[d x] rest IH]; intros drawn; [done|]. rewrite !fmap_cons. cbn [fst].
  intros [Hne Hrest]%not_elem_of_cons. unfold create. cbn [createActs]. unfold createdForIn. rewrite filter_app.
  pose proof (createdForIn_other drawn d x s ltac:(congruence)) as E1. unfold createdForIn, createOf in E1. rewrite E1. by apply IH.
Qed.

(** The creations for a service are those of its entry. *)
Lemma create_count entries drawn d x :
  NoDup (deficitService <$> entries.*1) → (d, x) ∈ entries →
  ∃ drawn', createdForIn (deficitService d) (create drawn entries) = createOf drawn' d x.
Proof.
  revert drawn. induction entries as [|[d0 x0] rest IH]; intros drawn Hnd Hin; [by apply elem_of_nil in Hin|].
  rewrite !fmap_cons in Hnd. cbn [fst] in Hnd. apply NoDup_cons in Hnd as [Hout Hnd].
  unfold create. cbn [createActs]. unfold createdForIn. rewrite filter_app. apply elem_of_cons in Hin as [E|Hin].
  - injection E as <- <-. exists drawn. pose proof (createdForIn_same drawn d x) as E1. unfold createdForIn, createOf in E1. rewrite E1.
    pose proof (create_none rest (drawnBy (cycleServices facts) drawn d x) (deficitService d) Hout) as E2.
    unfold createdForIn, create in E2. by rewrite E2, app_nil_r.
  - assert (deficitService d0 ≠ deficitService d).
    { intros E. apply Hout. rewrite E, <-list_fmap_compose. by apply (list_elem_of_fmap_2 (deficitService ∘ fst) rest (d, x)). }
    pose proof (createdForIn_other drawn d0 x0 (deficitService d) ltac:(done)) as E1. unfold createdForIn, createOf in E1. rewrite E1.
    by apply IH.
Qed.

Definition haveIn (s : string) : Z := Z.of_nat (length (activeList facts s)).

Lemma creations_bound s : Z.of_nat (length (createdForIn s (creationActs facts c))) ≤ Z.max 0 (wantIn facts s - haveIn s).
Proof.
  destruct (decide (s ∈ deficitService <$> (cycleEntries facts c).*1)) as [Hin|Hout].
  - rewrite <-list_fmap_compose, list_elem_of_fmap in Hin. destruct Hin as ([d x] & -> & Hin). simpl.
    destruct (create_count (cycleEntries facts c) (idsDrawn c) d x (entries_nodup facts c) Hin) as [drawn' E].
    unfold creationActs. unfold create in E. rewrite E. destruct (createOf_length drawn' d x) as [Hl _].
    apply entries_elem in Hin as [Hd Hx]. apply deficits_elem in Hd as (_ & Hd & _). unfold haveIn. lia.
  - unfold creationActs. pose proof (create_none (cycleEntries facts c) (idsDrawn c) s Hout) as E. unfold create in E. rewrite E. simpl. lia.
Qed.

(** ** The active instances after a prefix of the actions *)

Section after.
Context (facts' : list Fact) (Hwf' : facts_wf facts') (Hlay : instances_laid_out facts) (k : nat).
Let acts := take k (cycleActs facts c).
Context (Hval : values_of facts' = applyChanges (acts ≫= actionChanges (cycleFields facts)) (values_of facts)).

Lemma acts_sub : acts ⊆+ cycleActs facts c.
Proof. apply submseteq_take. Qed.

Lemma acts_ids_nodup : NoDup (actionID <$> acts).
Proof using Hwf Hids.
  eapply submseteq_nodup; [apply fmap_submseteq, acts_sub|]. by apply cycleActs_ids_nodup.
Qed.

Lemma active_after_perm s :
  s ≠ "" →
  activeList facts' s ≡ₚ filter (λ id, id ∉ actionID <$> acts) (activeList facts s) ++ (actionID <$> createdForIn s acts).
Proof using Hwf Hids Hwf' Hlay Hval.
  intros Hs. destruct (activeList_spec facts Hwf s) as [Hnd Hel]. destruct (activeList_spec facts' Hwf' s) as [Hnd' Hel'].
  pose proof acts_ids_nodup as Hn. apply NoDup_Permutation; [done| |].
  - apply NoDup_app. split_and!; [by apply NoDup_filter| |].
    + intros id [Hout _]%list_elem_of_filter (a & -> & Ha)%list_elem_of_fmap. apply list_elem_of_filter in Ha as [_ Ha].
      apply Hout. by apply list_elem_of_fmap_2.
    + eapply submseteq_nodup; [apply fmap_submseteq, filter_sub|done].
  - intros id. rewrite Hel', (active_after facts facts' acts); try done.
    + rewrite elem_of_app, list_elem_of_filter, Hel, (list_elem_of_fmap _ (createdForIn s acts)). split; (intros [?|(a & H1 & H2)]; [left; tauto|right; exists a]).
      * destruct H2 as [H2 ->]. split; [done|]. by apply list_elem_of_filter.
      * apply list_elem_of_filter in H2 as [? ?]. done.
    + apply Forall_forall. intros a Ha. eapply submseteq_elem in Ha; [|apply acts_sub].
      by apply (proj1 (Forall_forall _ _) (cycleActs_segment facts c Hwf Hids)).
    + apply Forall_forall. intros a Ha. eapply submseteq_elem in Ha; [|apply acts_sub].
      by apply (proj1 (Forall_forall _ _) (cycleActs_unused facts c Hwf Hids)).
Qed.

(** What a service loses is among its stops. *)
Lemma lost_stops s id : id ∈ activeList facts s → id ∈ actionID <$> acts → id ∈ stopsIn facts s.
Proof using Hwf Hids.
  intros Hact (a & -> & Ha)%list_elem_of_fmap. apply (activeList_spec facts Hwf s) in Hact.
  eapply submseteq_elem in Ha; [|apply acts_sub]. unfold cycleActs in Ha.
  apply elem_of_app in Ha as [(id & -> & (s' & Hid & _)%list_elem_of_bind)%list_elem_of_fmap|Ha].
  - pose proof Hid as Hid'. apply (stopsIn_spec facts c Hwf Hids) in Hid'. simpl in *. destruct Hid' as (_ & _ & <- & _), Hact as (_ & _ & <- & _). done.
  - by apply (creation_inactive facts c Hwf Hids a s) in Ha.
Qed.

Lemma lost_count s :
  Z.of_nat (length (filter (λ id, id ∈ actionID <$> acts) (activeList facts s))) ≤ Z.max 0 (haveIn s - wantIn facts s).
Proof using Hwf Hids.
  destruct (activeList_spec facts Hwf s) as [Hnd Hel]. destruct (stopsIn_spec facts c Hwf Hids s) as (Hs1 & Hs2 & Hs3).
  fold (haveIn s) in Hs3. etrans; [|exact Hs3]. apply Nat2Z.inj_le, submseteq_length, NoDup_submseteq; [by apply NoDup_filter|].
  intros id [Hin Hact]%list_elem_of_filter. by apply lost_stops.
Qed.

Lemma gained_count s : Z.of_nat (length (createdForIn s acts)) ≤ Z.max 0 (wantIn facts s - haveIn s).
Proof.
  etrans; [|apply creations_bound]. apply Nat2Z.inj_le. etrans.
  { apply submseteq_length, filter_submseteq, acts_sub. }
  unfold createdForIn, cycleActs. rewrite filter_app, length_app, filter_nothing; [done|].
  apply Forall_forall. by intros a (id & -> & _)%list_elem_of_fmap.
Qed.

Lemma count_after s :
  s ≠ "" →
  Z.of_nat (length (activeList facts' s)) =
  haveIn s - Z.of_nat (length (filter (λ id, id ∈ actionID <$> acts) (activeList facts s))) + Z.of_nat (length (createdForIn s acts)).
Proof using Hwf Hids Hwf' Hlay Hval.
  intros Hs. rewrite (active_after_perm s Hs), length_app, length_fmap. unfold haveIn.
  rewrite <-(filter_split (λ id, id ∈ actionID <$> acts) (activeList facts s)) at 2. rewrite length_app. lia.
Qed.

End after.

(** ** A cycle that fits *)

Lemma sumZ_app l1 l2 : sumZ (l1 ++ l2) = sumZ l1 + sumZ l2.
Proof. induction l1 as [|x l1 IH]; simpl; [done|]. rewrite !sumZ_cons, IH. lia. Qed.

Lemma sumZ_fmap_le {A} (f g : A → Z) l : (∀ x, f x ≤ g x) → sumZ (f <$> l) ≤ sumZ (g <$> l).
Proof. intros Hfg. induction l as [|x l IH]; [done|]. rewrite !fmap_cons, !sumZ_cons. specialize (Hfg x). lia. Qed.

(** The stateless case: no service has numbered instances. *)
Context (Hstateless : ∀ s, statefulIn facts s = false).

Lemma deficits_total : sumZ (deficit <$> cycleDeficits facts) = sumZ ((λ s, Z.max 0 (wantIn facts s - haveIn s)) <$> cycleNames facts).
Proof using Hstateless.
  unfold cycleDeficits, computeServiceDeficits. generalize (cycleNames facts). induction l as [|s l IH]; [done|].
  rewrite bind_cons, fmap_app, sumZ_app, fmap_cons, sumZ_cons, IH. f_equal.
  fold (wantOf (cycleServices facts) s) (activeOf (cycleActive facts) s). fold (wantIn facts s) (statefulIn facts s).
  rewrite activeOf_list, Hstateless. fold (haveIn s). destruct (Z.leb_spec (wantIn facts s) (haveIn s)); simpl; unfold sumZ; simpl; lia.
Qed.

Lemma create_length entries drawn : Z.of_nat (length (create drawn entries)) ≤ sumZ (Z.max 0 <$> entries.*2).
Proof.
  revert drawn. induction entries as [|[d x] rest IH]; intros drawn; [done|]. unfold create. cbn [createActs].
  rewrite length_app, !fmap_cons, sumZ_cons, Nat2Z.inj_add. cbn [snd].
  pose proof (createOf_length drawn d x) as [H1 _]. specialize (IH (drawnBy (cycleServices facts) drawn d x)). unfold createOf, create in *. lia.
Qed.

Lemma creations_total : Z.of_nat (length (creationActs facts c)) ≤ sumZ (deficit <$> cycleDeficits facts).
Proof.
  assert (Hpos : Forall (λ d, 0 < d) (deficit <$> cycleDeficits facts)).
  { apply Forall_fmap, Forall_forall. intros d (_ & [? _] & _)%deficits_elem. done. }
  etrans; [apply create_length|]. unfold cycleEntries. case_match eqn:Eb.
  { unfold sumZ at 1. simpl. induction Hpos as [|x l Hx Hl IH]; [done|]. rewrite sumZ_cons. lia. }
  apply orb_false_iff in Eb as [Ene Epos]. boolprop.
  destruct (allocateShares_spec (deficit <$> cycleDeficits facts) (MaxCreationsPerCycle c)) as [[Hd _ _] _]; [by intros ?%fmap_nil_inv|done|lia|].
  rewrite snd_zip by (apply Forall2_length in Hd; rewrite length_fmap in Hd; lia). apply sumZ_le.
  clear Ene Epos. revert Hpos Hd. generalize (allocateShares (deficit <$> cycleDeficits facts) (MaxCreationsPerCycle c)).
  intros shares Hpos Hd. induction Hd as [|x y l1 l2 Hxy Hl IH]; [constructor|]. apply Forall_cons in Hpos as [Hy Hpos].
  constructor; [lia|by apply IH].
Qed.

Lemma stops_total :
  Z.of_nat (length (cycleNames facts ≫= stopsIn facts)) ≤ sumZ ((λ s, Z.max 0 (haveIn s - wantIn facts s)) <$> cycleNames facts).
Proof using Hwf Hids.
  induction (cycleNames facts) as [|s l IH]; [done|]. rewrite bind_cons, length_app, fmap_cons, sumZ_cons, Nat2Z.inj_add.
  destruct (stopsIn_spec facts c Hwf Hids s) as (_ & _ & Hs). fold (haveIn s) in Hs. lia.
Qed.

(** How far the counts are from what is wanted. *)
Definition distance : Z := sumZ ((λ s, Z.abs (wantIn facts s - haveIn s)) <$> cycleNames facts).

Lemma distance_split :
  distance = sumZ ((λ s, Z.max 0 (haveIn s - wantIn facts s)) <$> cycleNames facts) + sumZ ((λ s, Z.max 0 (wantIn facts s - haveIn s)) <$> cycleNames facts).
Proof. unfold distance. induction (cycleNames facts) as [|s l IH]; [done|]. rewrite !fmap_cons, !sumZ_cons. lia. Qed.

Lemma stateless_creations_length acts :
  (∀ a, a ∈ acts → creation facts c (idsDrawn c) (cycleNames facts) a) →
  (length (acts ≫= actionChanges (cycleFields facts)) ≤ 3 * length acts)%nat.
Proof using Hstateless.
  intros Hc. induction acts as [|a l IH]; [done|]. rewrite bind_cons, length_app. cbn [length].
  assert (IHl : (length (l ≫= actionChanges (cycleFields facts)) ≤ 3 * length l)%nat).
  { apply IH. intros b Hb. apply Hc. by apply list_elem_of_further. }
  destruct (Hc a) as [(i & s & -> & _)|(s & n & y & -> & _ & Hs & _)]; [apply list_elem_of_here| |by rewrite Hstateless in Hs].
  change (length (actionChanges (cycleFields facts) (ACreate (NewID c i) s))) with 3%nat. lia.
Qed.

Lemma cycle_fits : distance ≤ 19 → Z.of_nat (length (cycleActs facts c ≫= actionChanges (cycleFields facts))) ≤ maxInstanceControllerChangesPerCycle.
Proof using Hwf Hids Hstateless.
  intros Hd. pose proof creations_total as H1. rewrite deficits_total in H1. pose proof stops_total as H2. rewrite distance_split in Hd.
  unfold cycleActs. rewrite bind_app, length_app.
  assert (E1 : ∀ l, length ((AStop <$> l) ≫= actionChanges (cycleFields facts)) = length l).
  { induction l as [|x l IH]; [done|]. rewrite fmap_cons, bind_cons, length_app, IH. done. }
  assert (E2 : (length (creationActs facts c ≫= actionChanges (cycleFields facts)) ≤ 3 * length (creationActs facts c))%nat).
  { apply stateless_creations_length. intros a. by apply creationActs_creation. }
  rewrite E1. unfold maxInstanceControllerChangesPerCycle. lia.
Qed.

(** Every deficit is met. *)
Lemma creations_exact s :
  distance ≤ MaxCreationsPerCycle c → s ∈ cycleNames facts → haveIn s < wantIn facts s →
  Z.of_nat (length (createdForIn s (creationActs facts c))) = wantIn facts s - haveIn s.
Proof using Hwf Hids Hstateless.
  intros Hdist Hs Hlt.
  assert (Hd : mkDeficit s (wantIn facts s - haveIn s) ∈ cycleDeficits facts).
  { unfold cycleDeficits, computeServiceDeficits. apply list_elem_of_bind. exists s. split; [|done].
    fold (wantOf (cycleServices facts) s) (activeOf (cycleActive facts) s). fold (wantIn facts s) (statefulIn facts s).
    rewrite activeOf_list, Hstateless. fold (haveIn s). destruct (Z.leb_spec (wantIn facts s) (haveIn s)); [lia|]. apply list_elem_of_here. }
  assert (Hpos : Forall (λ d, 0 < d) (deficit <$> cycleDeficits facts)).
  { apply Forall_fmap, Forall_forall. intros d (_ & [? _] & _)%deficits_elem. done. }
  assert (Hsum : 0 < sumZ (deficit <$> cycleDeficits facts) ≤ MaxCreationsPerCycle c).
  { rewrite distance_split, <-deficits_total in Hdist. split.
    - clear Hdist. induction Hd as [d l|d e l Hd IH]; rewrite fmap_cons, sumZ_cons; rewrite fmap_cons in Hpos; apply Forall_cons in Hpos as [H1 H2].
      + enough (0 ≤ sumZ (deficit <$> l)) by (simpl in *; lia). clear -H2. induction H2 as [|x l0 Hx Hl IH]; [done|]. rewrite sumZ_cons. lia.
      + specialize (IH H2). lia.
    - enough (0 ≤ sumZ ((λ s, Z.max 0 (haveIn s - wantIn facts s)) <$> cycleNames facts)) by lia.
      clear. induction (cycleNames facts) as [|x l IH]; [done|]. rewrite fmap_cons, sumZ_cons. lia. }
  assert (Hne : cycleDeficits facts ≠ []) by (intros E; rewrite E in Hd; by apply elem_of_nil in Hd).
  destruct (allocateShares_spec (deficit <$> cycleDeficits facts) (MaxCreationsPerCycle c)) as [[Hle _ _] Heq]; [by intros ?%fmap_nil_inv|done|lia|].
  rewrite Z.min_r in Heq by lia. apply sumZ_eq in Heq; [|done].
  assert (Hin : (mkDeficit s (wantIn facts s - haveIn s), wantIn facts s - haveIn s) ∈ cycleEntries facts c).
  { unfold cycleEntries. rewrite bool_decide_false by done. destruct (Z.leb_spec (MaxCreationsPerCycle c) 0); [lia|]. simpl. rewrite Heq.
    apply list_elem_of_lookup in Hd as [i Hi]. apply (list_elem_of_lookup_2 _ i). apply lookup_zip_with_Some.
    exists (mkDeficit s (wantIn facts s - haveIn s)), (wantIn facts s - haveIn s). by rewrite list_lookup_fmap, Hi. }
  destruct (create_count (cycleEntries facts c) (idsDrawn c) _ _ (entries_nodup facts c) Hin) as [drawn' E]. simpl in E.
  unfold creationActs. unfold create in E. rewrite E.
  destruct (createOf_length drawn' (mkDeficit s (wantIn facts s - haveIn s)) (wantIn facts s - haveIn s)) as [_ Hl].
  rewrite Hl by apply Hstateless. lia.
Qed.

(** Every excess instance is stopped. *)
Lemma stops_exact s :
  0 ≤ wantIn facts s < haveIn s → Z.of_nat (length (stopsIn facts s)) = haveIn s - wantIn facts s.
Proof using Hwf Hids Hstateless.
  intros Hlt. destruct (stopsIn_candidates facts s) as (l & Hl & ->); [by right|]. fold (haveIn s).
  pose proof (active_bounded facts c Hids s) as Hb. fold (haveIn s) in Hb.
  destruct (Z.ltb_spec (wantIn facts s) (haveIn s)); [|lia]. rewrite wrap64_id by (unfold in_int64, int64_min, int64_max in *; lia).
  rewrite length_take, Hl. unfold haveIn in *. lia.
Qed.
End counts.

(** ** Claims *)

Section claims.
Context `{GoMapRange}.

(** C15: A cycle never fails; it proposes at most 58 changes, no key twice; and when
    its changes are committed every service has moved towards the count it
    wants and not past it: instances are only stopped while there are too many
    of them, never below the count wanted, and only created while there are too
    few, never beyond it. *)
Theorem InstanceController_never_overshoots facts facts' c :
  facts_wf facts → facts_wf facts' → instances_laid_out facts → ids_wf facts c →
  ∃ changes c', InstanceController_Reconcile facts c = (inl changes, c') ∧
    Z.of_nat (length changes) ≤ 58 ∧ NoDup (ChangeKey <$> changes) ∧
    (values_of facts' = applyChanges changes (values_of facts) →
     ∀ s, s ≠ "" →
       let want := wantIn facts s in
       let have := Z.of_nat (length (activeList facts s)) in
       let have' := Z.of_nat (length (activeList facts' s)) in
       (want ≤ have → want ≤ have' ≤ have) ∧ (have ≤ want → have ≤ have' ≤ want)).
Proof.
  intros Hwf Hwf' Hlay Hids. destruct (Reconcile_actions facts c Hwf Hids) as (k & c' & E & Hlen & _).
  eexists _, c'. split; [exact E|]. split; [exact Hlen|]. split.
  { apply acts_keys_nodup; [by apply acts_ids_nodup|]. apply Forall_take. by apply cycleActs_segment. }
  intros Hval s Hs. cbv zeta. rewrite (count_after facts c Hwf Hids facts' Hwf' Hlay k Hval s Hs).
  pose proof (lost_count facts c Hwf Hids k s). pose proof (gained_count facts c Hwf Hids k s). unfold haveIn in *. lia.
Qed.

(** C4: Without numbered services, when the counts are at most nineteen instances
    away from what is wanted (and the limit of creations allows it), one
    committed cycle makes every count right. *)
Theorem InstanceController_converges facts facts' c :
  facts_wf facts → facts_wf facts' → instances_laid_out facts → ids_wf facts c →
  (∀ s, statefulIn facts s = false) → (∀ s, 0 ≤ wantIn facts s) →
  distance facts ≤ 19 → distance facts ≤ MaxCreationsPerCycle c →
  ∃ changes c', InstanceController_Reconcile facts c = (inl changes, c') ∧
    (values_of facts' = applyChanges changes (values_of facts) →
     ∀ s, is_Some (desiredCounts (cycleServices facts) !! s) → Z.of_nat (length (activeList facts' s)) = wantIn facts s).
Proof.
  intros Hwf Hwf' Hlay Hids Hsl Hpos Hd Hm. destruct (Reconcile_actions facts c Hwf Hids) as (k & c' & E & _ & Hall).
  specialize (Hall (cycle_fits facts c Hwf Hids Hsl Hd)). eexists _, c'. split; [exact E|]. intros Hval s Hs.
  assert (Hne : s ≠ "") by (intros ->; rewrite (named_services facts c Hids) in Hs; by destruct Hs).
  assert (Hin : s ∈ cycleNames facts) by (by apply sortedMapKeys_elem).
  rewrite (count_after facts c Hwf Hids facts' Hwf' Hlay k Hval s Hne).
  pose proof (lost_count facts c Hwf Hids k s) as Hlost. pose proof (gained_count facts c Hwf Hids k s) as Hgain. rewrite Hall in *.
  specialize (Hpos s). destruct (Z.lt_trichotomy (wantIn facts s) (haveIn facts s)) as [Hlt|[Heq|Hgt]]; [|lia|].
  - pose proof (stops_exact facts c Hwf Hids Hsl s ltac:(lia)) as Hst.
    enough (Z.of_nat (length (stopsIn facts s)) ≤ Z.of_nat (length (filter (λ id, id ∈ actionID <$> cycleActs facts c) (activeList facts s)))) by lia.
    destruct (stopsIn_spec facts c Hwf Hids s) as (Hs1 & Hs2 & _). apply Nat2Z.inj_le, submseteq_length, NoDup_submseteq; [done|].
    intros id Hid. apply list_elem_of_filter. split; [|apply (activeList_spec facts Hwf s); by apply Hs2].
    unfold cycleActs. rewrite fmap_app. apply elem_of_app. left. rewrite <-list_fmap_compose. apply list_elem_of_fmap. exists id.
    split; [done|]. apply list_elem_of_bind. by exists s.
  - pose proof (creations_exact facts c Hwf Hids Hsl s Hm Hin Hgt) as Hcr.
    enough (Z.of_nat (length (createdForIn s (creationActs facts c))) ≤ Z.of_nat (length (createdForIn s (cycleActs facts c)))) by lia.
    unfold createdForIn, cycleActs. rewrite filter_app, length_app. lia.
Qed.

(** Numbered instances start in order: an instance created for a stateful
    service is numbered by the smallest ordinal that is not in use, and every
    instance with a smaller ordinal is active and running. *)
Theorem InstanceController_ordered_start facts c :
  facts_wf facts → ids_wf facts c →
  ∃ changes c', InstanceController_Reconcile facts c = (inl changes, c') ∧
    ∀ ch id s, ch ∈ changes → ChangeKey ch = KeyObservedInstanceService id → ChangeValue ch = s →
      ContainsByte id slash = false → statefulIn facts s = true →
      ∃ n, 0 ≤ n ∧ id = ordinalID s n ∧ (∀ s', ¬ activeIn facts s' id) ∧
        ∀ m, 0 ≤ m < n → activeIn facts s (ordinalID s m) ∧ stateIn facts (ordinalID s m) = InstanceRunning.
Proof.
  intros Hwf Hids. destruct (Reconcile_actions facts c Hwf Hids) as (k & c' & E & _).
  eexists _, c'. split; [exact E|]. intros ch id s Hch Hk Hv Hid Hs.
  apply list_elem_of_bind in Hch as (a & Hch & Ha). eapply submseteq_elem in Ha; [|apply submseteq_take].
  assert (Hseg : ContainsByte (actionID a) slash = false) by (by apply (proj1 (Forall_forall _ _) (cycleActs_segment facts c Hwf Hids))).
  assert (id = actionID a) as ->.
  { apply (keyOn_inj _ _ (ChangeKey ch)); [done|done| |by eapply actionChanges_on]. rewrite Hk. apply (keyOn_field ScanObservedInstances id "service"). by left. }
  unfold cycleActs in Ha. apply elem_of_app in Ha as [(i & -> & _)%list_elem_of_fmap|Ha].
  { apply list_elem_of_singleton in Hch as ->. vm_compute in Hk. done. }
  apply creationActs_creation in Ha as [(i & t & -> & _ & _ & Ht)|(t & n & y & -> & Ht & Est & En)]; try done.
  - rewrite (creation_service (cycleFields facts) (ACreate (NewID c i) t) t ch) in Hv; [congruence|done..].
  - rewrite (creation_service (cycleFields facts) (AOrdinal t n) t ch) in Hv by done. subst t.
    apply (nextOrdinalOf_spec facts c Hwf Hids) in En as (H0 & Hno & Hrun); [|done..]. by exists n.
Qed.

End claims.

(** * The instance controller on concrete facts

    A stateless service that lacks two instances and a stateful one whose first
    instance runs: the theorems apply, and the cycle computes. *)

(** ** Checking the assumptions by computation *)

Lemma values_of_absent facts p k :
  facts_wf facts → HasPrefix k p = true → forallb (λ f, negb (HasPrefix (Key f) p)) facts = true → values_of facts !! k = None.
Proof.
  intros [_ Hnd] Hk Hall. destruct (values_of facts !! k) as [v|] eqn:E; [|done]. apply values_of_lookup in E as (f & Hf & <- & _); [|done].
  rewrite forallb_forall in Hall. specialize (Hall f). rewrite Hk in Hall. discriminate Hall. by apply list_elem_of_In.
Qed.

Lemma fieldIn_absent facts id p f :
  facts_wf facts → HasPrefix id p = true →
  forallb (λ g, negb (HasPrefix (Key g) (ScanObservedInstances +:+ p)) && negb (HasPrefix (Key g) (ScanDerivedInstances +:+ p))) facts = true →
  fieldIn facts id f = None.
Proof.
  intros Hwf [r ->]%HasPrefix_spec Hall. rewrite forallb_forall in Hall. unfold fieldIn, instanceKey.
  rewrite (values_of_absent facts (ScanDerivedInstances +:+ p)); [|done| |].
  - apply (values_of_absent facts (ScanObservedInstances +:+ p)); [done| |].
    + rewrite HasPrefix_app_app, str_app_assoc. apply HasPrefix_app.
    + apply forallb_forall. intros g Hg. specialize (Hall g Hg). by apply andb_true_iff in Hall as [? _].
  - rewrite HasPrefix_app_app, str_app_assoc. apply HasPrefix_app.
  - apply forallb_forall. intros g Hg. specialize (Hall g Hg). by apply andb_true_iff in Hall as [_ ?].
Qed.

(** The last segment of a key. *)
Lemma suffix_absent facts p f :
  facts_wf facts → ContainsByte f slash = false →
  forallb (λ g, negb (HasPrefix (Key g) p && bool_decide (takeEnd (S (String.length f)) (Key g) = "/" +:+ f))) facts = true →
  ∀ id, values_of facts !! instanceKey p id f = None.
Proof.
  intros [_ Hnd] Hf Hall id. destruct (values_of facts !! instanceKey p id f) as [v|] eqn:E; [|done].
  apply values_of_lookup in E as (g & Hg & Ek & _); [|done]. rewrite forallb_forall in Hall. specialize (Hall g).
  rewrite Ek in Hall. unfold instanceKey in Hall. rewrite HasPrefix_app in Hall.
  assert (Et : takeEnd (S (String.length f)) (p +:+ id +:+ "/" +:+ f) = "/" +:+ f).
  { rewrite <-str_app_assoc. apply (takeEnd_app (p +:+ id) ("/" +:+ f)). }
  rewrite Et, bool_decide_true in Hall by done. discriminate Hall. by apply list_elem_of_In.
Qed.

Lemma activeIn_entry facts s id :
  facts_wf facts → activeIn facts s id →
  (id, s) ∈ map_to_list (snd (buildInstanceMapsFromFields (parseInstanceFieldsFromFacts facts))).
Proof.
  intros Hwf (Hne & Hid & Ht & _). apply elem_of_map_to_list. rewrite (services_text facts Hwf), decide_True; by rewrite Ht.
Qed.

Lemma activeList_size `{GoMapRange} facts s :
  (length (activeList facts s) ≤ size (snd (buildInstanceMapsFromFields (parseInstanceFieldsFromFacts facts))))%nat.
Proof.
  unfold activeList. etrans; [apply submseteq_length, filter_sub|]. unfold sortedMapKeys, sort_strings.
  rewrite sort_stable_perm, length_fmap, map_range_perm, length_map_to_list. done.
Qed.

(** ** The facts *)

Definition fact (k v : string) : Fact := mkFact k v 1 1 0.
Definition newName (n : nat) : string := "i" +:+ Itoa (Z.of_nat n).
Definition controller0 : InstanceController := NewInstanceController newName.

Definition webFacts : list Fact :=
  [fact "effective/service/web/instances" "3"; fact "observed/instance/w1/service" "web"; fact "observed/instance/w1/state" "running"].

Definition webFacts' : list Fact :=
  [fact "effective/service/web/instances" "3";
   fact "observed/instance/i0" ""; fact "observed/instance/i0/service" "web"; fact "observed/instance/i0/state" "pending";
   fact "observed/instance/i1" ""; fact "observed/instance/i1/service" "web"; fact "observed/instance/i1/state" "pending";
   fact "observed/instance/w1/service" "web"; fact "observed/instance/w1/state" "running"].

Definition dbFacts : list Fact :=
  [fact "effective/service/db/instances" "2"; fact "effective/service/db/stateful" "true";
   fact "observed/instance/db-0/service" "db"; fact "observed/instance/db-0/state" "running"].

Lemma web_wf : facts_wf webFacts ∧ facts_wf webFacts' ∧ facts_wf dbFacts.
Proof. split_and!; apply sorted_facts_wf; vm_compute; reflexivity. Qed.

Lemma newName_inj m n : newName m = newName n → m = n.
Proof. intros E. apply (inj (String.app _)), (inj Itoa) in E. lia. Qed.

Lemma newName_segment n : ContainsByte (newName n) slash = false.
Proof. unfold newName. rewrite ContainsByte_app, Itoa_ContainsByte; done. Qed.

Lemma web_stateless s : statefulIn webFacts s = false.
Proof. unfold statefulIn, flagOf. replace (statefulServices (cycleServices webFacts)) with (∅ : gmap string bool) by (vm_compute; reflexivity). by rewrite lookup_empty. Qed.

Lemma web_ids : ids_wf (H := reference_range) webFacts controller0.
Proof.
  destruct web_wf as (Hwf & _). split; try (intros; by rewrite web_stateless in *).
  - intros n f _. apply (fieldIn_absent _ _ "i"); [done|apply HasPrefix_app|vm_compute; reflexivity].
  - apply newName_inj.
  - apply newName_segment.
  - vm_compute. reflexivity.
  - intros s. pose proof (activeList_size (H := reference_range) webFacts s) as Hs.
    replace (size _) with 1%nat in Hs by (vm_compute; reflexivity). unfold int64_max. lia.
Qed.

Lemma web_laid_out : instances_laid_out webFacts.
Proof.
  destruct web_wf as (Hwf & _). split; intros id f [-> | ->]; apply suffix_absent; (done || vm_compute; reflexivity).
Qed.

Lemma db_stateful s : statefulIn dbFacts s = true → s = "db".
Proof.
  unfold statefulIn, flagOf. replace (statefulServices (cycleServices dbFacts)) with ({["db" := true]} : gmap string bool) by (vm_compute; reflexivity).
  destruct (decide (s = "db")) as [->|Hs]; [done|]. rewrite lookup_singleton_ne by done. done.
Qed.

Lemma db_active s id : activeIn dbFacts s id → s = "db" ∧ id = "db-0".
Proof.
  destruct web_wf as (_ & _ & Hwf). intros Ha%activeIn_entry; [|done]. vm_compute in Ha.
  apply list_elem_of_singleton in Ha. by simplify_eq.
Qed.

Lemma db_ids : ids_wf (H := reference_range) dbFacts controller0.
Proof.
  destruct web_wf as (_ & _ & Hwf). split.
  - intros n f _. apply (fieldIn_absent _ _ "i"); [done|apply HasPrefix_app|vm_compute; reflexivity].
  - apply newName_inj.
  - apply newName_segment.
  - intros n s m ->%db_stateful. done.
  - intros s id n _ [-> ->]%db_active _ E. vm_compute in E. by simplify_eq.
  - intros s n s' ->%db_stateful [-> _]%db_active. done.
  - vm_compute. reflexivity.
  - intros s. pose proof (activeList_size (H := reference_range) dbFacts s) as Hs.
    replace (size _) with 1%nat in Hs by (vm_compute; reflexivity). unfold int64_max. lia.
Qed.

(** ** Witnesses *)

Lemma InstanceController_never_overshoots_witness :
  ∃ changes c', InstanceController_Reconcile (H := reference_range) webFacts controller0 = (inl changes, c') ∧ length changes = 6%nat ∧
    1 ≤ Z.of_nat (length (activeList (H := reference_range) webFacts' "web")) ≤ 3.
Proof.
  destruct web_wf as (Hwf & Hwf' & _).
  destruct (InstanceController_never_overshoots (H := reference_range) webFacts webFacts' controller0 Hwf Hwf' web_laid_out web_ids)
    as (changes & c' & E & _ & _ & Hmove).
  exists changes, c'. split; [exact E|]. vm_compute in E. injection E as <- <-. split; [reflexivity|].
  apply (Hmove ltac:(vm_compute; reflexivity) "web"); [discriminate|]. vm_compute. discriminate.
Defined.

Lemma InstanceController_converges_witness :
  Z.of_nat (length (activeList (H := reference_range) webFacts' "web")) = 3.
Proof.
  destruct web_wf as (Hwf & Hwf' & _).
  destruct (InstanceController_converges (H := reference_range) webFacts webFacts' controller0 Hwf Hwf' web_laid_out web_ids web_stateless)
    as (changes & c' & E & Hc).
  - intros s. unfold wantIn, wantOf.
    replace (desiredCounts (cycleServices webFacts)) with ({["web" := 3]} : gmap string Z) by (vm_compute; reflexivity).
    destruct (decide (s = "web")) as [->|Hs]; [rewrite lookup_singleton_eq; simpl; lia|]. rewrite lookup_singleton_ne by done. simpl. lia.
  - vm_compute. discriminate.
  - vm_compute. discriminate.
  - vm_compute in E. injection E as <- <-. rewrite Hc; [vm_compute; reflexivity..|]. vm_compute. by eexists.
Defined.

Lemma InstanceController_ordered_start_witness :
  activeIn dbFacts "db" "db-0" ∧ stateIn dbFacts "db-0" = InstanceRunning.
Proof.
  destruct web_wf as (_ & _ & Hwf).
  destruct (InstanceController_ordered_start (H := reference_range) dbFacts controller0 Hwf db_ids) as (changes & c' & E & Hs).
  vm_compute in E. injection E as <- <-.
  destruct (Hs (mkChange OpPut "observed/instance/db-1/service" "db" "instance-create/db-1") "db-1" "db") as (n & Hn & Eid & _ & Hrun);
    [set_solver|reflexivity|reflexivity|vm_compute; reflexivity|vm_compute; reflexivity|].
  assert (n = 1) as ->; [|apply (Hrun 0); lia]. apply (ordinalID_inj "db" n "db" 1); [done|lia|done].
Defined.
