(* ===== verification/Authorizer.v ===== *)
(** * Store-layer authorization (src/security/authorizer.go, rbac.go, abac.go)

    Roles grant operations on key prefixes to principals; attribute policies do
    the same to principals with given attributes. [None] is Go's nil error:
    access granted. Operations are the strings of the [Permission] type. The
    maps are read in the runtime's order ([GoMapRange]); every method holds the
    authorizer's mutex, so a call is one step. *)

From S2P Require Import Prelude GoStrings.

(** ** Errors and the interface *)

Inductive AuthError :=
| RbacNoBindings (principal : string)
| RbacDenied (principal operation key : string)
| AbacDenied (principal operation key : string)
| CombinedDenied (rbacErr abacErr : AuthError)
| OnlyWritesChecked (permission : string)
| ApiIncomplete (kind : string)
| ApiDenied (principal capability scope : string) (conditionFailed : bool).

#[export] Instance AuthError_eq_dec : EqDecision AuthError.
Proof. solve_decision. Defined.

Definition PermissionRead : string := "read".
Definition PermissionWrite : string := "write".
Definition PermissionDelete : string := "delete".
Definition PermissionWatch : string := "watch".

(** [Authorizer]: a principal, an operation, a key. *)
Class Authorizer (A : Type) := { Authorize : A → string → string → string → option AuthError }.

(** What a store client relies on: permission on a prefix is permission on
    every key below it. *)
Class PrefixAuthorizer (A : Type) `{Authorizer A} := {
  authorize_below a principal operation prefix key :
    HasPrefix key prefix = true →
    Authorize a principal operation prefix = None → Authorize a principal operation key = None
}.

(** ** Roles *)

Record Rule := mkRule { KeyPrefix : string; Operations : list string }.
Record Role := mkRole { RoleNameOf : string; Rules : list Rule }.
Record RoleBinding := mkBinding { BindingPrincipal : string; RoleName : string }.

Record RBACAuthorizer := mkRBAC { roles : gmap string Role; bindings : gmap string (list string) }.

Definition NewRBACAuthorizer : RBACAuthorizer := mkRBAC ∅ ∅.

Definition AddRole (role : Role) (a : RBACAuthorizer) : RBACAuthorizer :=
  mkRBAC (<[RoleNameOf role := role]> (roles a)) (bindings a).

Definition BindRole (binding : RoleBinding) (a : RBACAuthorizer) : RBACAuthorizer :=
  mkRBAC (roles a)
    (<[BindingPrincipal binding := default [] (bindings a !! BindingPrincipal binding) ++ [RoleName binding]]> (bindings a)).

Definition RemoveBinding (principal : string) (a : RBACAuthorizer) : RBACAuthorizer :=
  mkRBAC (roles a) (delete principal (bindings a)).

(** A bound principal that ends in "*" covers the principals it prefixes. *)
Definition wildcardMatch (boundPrincipal principal : string) : bool :=
  HasSuffix boundPrincipal "*" && HasPrefix principal (TrimSuffix boundPrincipal "*").

Section decisions.
Context `{GoMapRange}.

Definition resolveRoleNames (a : RBACAuthorizer) (principal : string) : list string :=
  default [] (bindings a !! principal) ++
  ('(boundPrincipal, boundRoles) ← map_range (bindings a);
   if wildcardMatch boundPrincipal principal then boundRoles else []).

Definition ruleAllows (operation key : string) (rule : Rule) : bool :=
  HasPrefix key (KeyPrefix rule) && existsb (λ allowed, bool_decide (allowed = operation)) (Operations rule).

Definition roleAllows (operation key : string) (role : Role) : bool := existsb (ruleAllows operation key) (Rules role).

Definition RBAC_Authorize (a : RBACAuthorizer) (principal operation key : string) : option AuthError :=
  let roleNames := resolveRoleNames a principal in
  if bool_decide (roleNames = []) then Some (RbacNoBindings principal)
  else if existsb (λ roleName, match roles a !! roleName with
                               | Some role => roleAllows operation key role
                               | None => false
                               end) roleNames
  then None
  else Some (RbacDenied principal operation key).

#[export] Instance RBACIsAuthorizer : Authorizer RBACAuthorizer := {| Authorize := RBAC_Authorize |}.

(** ** Attributes *)

Record Attribute := mkAttribute { AttributeKey : string; AttributeValue : string }.

Record ABACPolicy := mkPolicy {
  PolicyName : string;
  RequiredAttributes : list Attribute;
  TargetKeyPrefix : string;
  AllowedOperations : list string
}.

Record ABACAuthorizer := mkABAC {
  policies : gmap string ABACPolicy;
  principalAttributes : gmap string (list Attribute)
}.

Definition NewABACAuthorizer : ABACAuthorizer := mkABAC ∅ ∅.

Definition AddPolicy (policy : ABACPolicy) (a : ABACAuthorizer) : ABACAuthorizer :=
  mkABAC (<[PolicyName policy := policy]> (policies a)) (principalAttributes a).

Definition RemovePolicy (policyName : string) (a : ABACAuthorizer) : ABACAuthorizer :=
  mkABAC (delete policyName (policies a)) (principalAttributes a).

Definition SetPrincipalAttributes (principal : string) (attributes : list Attribute) (a : ABACAuthorizer) : ABACAuthorizer :=
  mkABAC (policies a) (<[principal := attributes]> (principalAttributes a)).

Definition GetPrincipalAttributes (a : ABACAuthorizer) (principal : string) : list Attribute :=
  default [] (principalAttributes a !! principal).

Definition attributesMatch (actualAttributes requiredAttributes : list Attribute) : bool :=
  forallb (λ required, existsb (λ actual, bool_decide (AttributeKey actual = AttributeKey required ∧
                                                       AttributeValue actual = AttributeValue required)) actualAttributes)
    requiredAttributes.

Definition policyAllows (principalAttrs : list Attribute) (operation key : string) (policy : ABACPolicy) : bool :=
  HasPrefix key (TargetKeyPrefix policy) && attributesMatch principalAttrs (RequiredAttributes policy) &&
  existsb (λ allowed, bool_decide (allowed = operation)) (AllowedOperations policy).

Definition ABAC_Authorize (a : ABACAuthorizer) (principal operation key : string) : option AuthError :=
  let principalAttrs := default [] (principalAttributes a !! principal) in
  if existsb (λ '(_, policy), policyAllows principalAttrs operation key policy) (map_range (policies a))
  then None
  else Some (AbacDenied principal operation key).

#[export] Instance ABACIsAuthorizer : Authorizer ABACAuthorizer := {| Authorize := ABAC_Authorize |}.

(** ** Either of them *)

Record CombinedAuthorizer := mkCombined { rbacAuthorizer : RBACAuthorizer; abacAuthorizer : ABACAuthorizer }.

Definition Combined_Authorize (a : CombinedAuthorizer) (principal operation key : string) : option AuthError :=
  match RBAC_Authorize (rbacAuthorizer a) principal operation key with
  | None => None
  | Some rbacErr =>
      match ABAC_Authorize (abacAuthorizer a) principal operation key with
      | None => None
      | Some abacErr => Some (CombinedDenied rbacErr abacErr)
      end
  end.

#[export] Instance CombinedIsAuthorizer : Authorizer CombinedAuthorizer := {| Authorize := Combined_Authorize |}.

End decisions.

(** ** The builtin roles *)

Definition SecretStorePrefix : string := "secrets/".
Definition EnrolledNodePrefix : string := "enrollment/node/".

Definition readOnly : list string := [PermissionRead].
Definition readAndWatch : list string := [PermissionRead; PermissionWatch].
Definition readWrite : list string := [PermissionRead; PermissionWrite].
Definition readWriteDelete : list string := [PermissionRead; PermissionWrite; PermissionDelete].
Definition readWriteWatch : list string := [PermissionRead; PermissionWrite; PermissionWatch].
Definition allOperations : list string := [PermissionRead; PermissionWrite; PermissionDelete; PermissionWatch].

Definition apiServerRole : Role := mkRole "api-server"
  [mkRule "desired" readAndWatch; mkRule "effective" readAndWatch; mkRule "observed" readAndWatch;
   mkRule "placement" readAndWatch; mkRule "endpoint" readAndWatch; mkRule "intent" readAndWatch;
   mkRule "network" readAndWatch; mkRule "derived" readAndWatch; mkRule "event" readAndWatch;
   mkRule "auth" readAndWatch; mkRule "leader" readAndWatch; mkRule "lease" readAndWatch; mkRule "policy" readAndWatch;
   mkRule "desired/" readWrite; mkRule "effective/" readWrite; mkRule "intent/" readWrite;
   mkRule "policy/network/" readWrite; mkRule "derived/service/" readWrite; mkRule "derived/node/" readWrite;
   mkRule "observed/node/" readWrite; mkRule "observed/metric/" readWrite;
   mkRule "auth/" readWriteDelete; mkRule "observed/instance/" readWriteDelete;
   mkRule "derived/instance/" readWriteDelete; mkRule "placement/" readWriteDelete].

Definition secretDeliveryRole : Role := mkRole "secret-delivery"
  [mkRule SecretStorePrefix readOnly; mkRule "desired/service/" readOnly; mkRule "desired/connection/" readOnly;
   mkRule "placement/instance/" readOnly; mkRule "observed/instance/" readOnly; mkRule "observed/node/" readOnly;
   mkRule EnrolledNodePrefix readOnly].

Definition BuiltinRoles : list Role :=
  [mkRole "cluster-admin" [mkRule "" allOperations];
   mkRole "node-agent"
     [mkRule "observed/instance/" readWrite; mkRule "observed/node/" readWrite; mkRule "observed/volume/" readWrite;
      mkRule "lease/node/" readWrite; mkRule "desired/" readAndWatch; mkRule "effective/" readAndWatch;
      mkRule "placement/" readAndWatch; mkRule "observed/credential/" readOnly; mkRule "derived/instance/" readOnly;
      mkRule "derived/credential/" readOnly];
   mkRole "scheduler"
     [mkRule "placement/" readWriteDelete; mkRule "observed/" readAndWatch; mkRule "desired/" readAndWatch;
      mkRule "effective/" readAndWatch];
   mkRole "controller"
     [mkRule "desired/" readAndWatch; mkRule "effective/" readWrite; mkRule "observed/" readWriteWatch;
      mkRule "derived/" allOperations; mkRule "intent/" readWriteWatch; mkRule "placement/" readAndWatch;
      mkRule "endpoint/" readWriteDelete; mkRule "network/" readWrite];
   mkRole "credential-broker"
     [mkRule "desired/cloud_identity/" readAndWatch; mkRule "desired/service/" readAndWatch;
      mkRule "desired/credential_broker/" readAndWatch; mkRule "observed/instance/" readAndWatch;
      mkRule "observed/credential/" readOnly; mkRule "derived/credential/" readWriteDelete;
      mkRule "credentials/" readWriteDelete];
   mkRole "cloud-controller"
     [mkRule "desired/cloud/" readAndWatch; mkRule "desired/service/" readAndWatch; mkRule "observed/node/" readWriteWatch;
      mkRule "observed/cloud/" readWriteDelete; mkRule "observed/instance/" readAndWatch; mkRule "endpoint/" readAndWatch;
      mkRule "network/node/" readAndWatch];
   mkRole "api-reader" [mkRule "" readAndWatch];
   mkRole "api-writer"
     [mkRule "desired/" readWrite; mkRule "intent/user/" readWrite; mkRule "observed/metric/" readWrite; mkRule "" readAndWatch];
   apiServerRole; secretDeliveryRole].

Definition APIServerPrincipal : string := "service:api-server".
Definition SecretDeliveryPrincipal : string := "service:secret-delivery".

(** The authorizer the server starts with ([initializeAuthorizationLayer] of
    src/cmd/cca/command_server.go). *)
Definition initialRBAC : RBACAuthorizer :=
  BindRole (mkBinding APIServerPrincipal "api-server") (foldl (λ a role, AddRole role a) NewRBACAuthorizer BuiltinRoles).

(** * What store-layer authorization decides

    The decisions in terms of bindings, roles and policies, independently of the
    order in which the maps are read; permission on a prefix extends to the keys
    below it; and the API server's role never reaches protected areas. *)

(** ** Roles *)

(** A binding applies to the principal itself, or to the principals that start
    with what precedes its "*". *)
Definition covers (bound principal : string) : Prop :=
  bound = principal ∨ ∃ w, bound = w +:+ "*" ∧ HasPrefix principal w = true.

Lemma wildcardMatch_spec bound principal :
  wildcardMatch bound principal = true ↔ ∃ w, bound = w +:+ "*" ∧ HasPrefix principal w = true.
Proof.
  unfold wildcardMatch. rewrite andb_true_iff, HasSuffix_spec. split.
  - intros [[w ->] Hp]. rewrite TrimSuffix_app in Hp. eauto.
  - intros (w & -> & Hp). rewrite TrimSuffix_app. eauto.
Qed.

Definition grants (operation key : string) (role : Role) : Prop :=
  ∃ rule, rule ∈ Rules role ∧ HasPrefix key (KeyPrefix rule) = true ∧ operation ∈ Operations rule.

Lemma existsb_elem {A} (f : A → bool) l : existsb f l = true ↔ ∃ x, x ∈ l ∧ f x = true.
Proof. rewrite existsb_exists. by setoid_rewrite list_elem_of_In. Qed.

Lemma ops_elem (operation : string) l : existsb (λ allowed, bool_decide (allowed = operation)) l = true ↔ operation ∈ l.
Proof.
  rewrite existsb_elem. split.
  - intros (x & Hx & ->%bool_decide_eq_true). done.
  - intros Hx. exists operation. split; [done|]. by apply bool_decide_eq_true.
Qed.

Lemma roleAllows_spec operation key role : roleAllows operation key role = true ↔ grants operation key role.
Proof.
  unfold roleAllows, grants, ruleAllows. rewrite existsb_elem. by setoid_rewrite andb_true_iff; setoid_rewrite ops_elem.
Qed.

Lemma grants_below operation prefix key role : HasPrefix key prefix = true → grants operation prefix role → grants operation key role.
Proof. intros Hk (rule & Hr & Hp & Ho). exists rule. split_and!; [done|by eapply HasPrefix_trans|done]. Qed.

Section props.
Context `{GoMapRange}.

(** What a map of bound principals holds for a principal. *)
Lemma covered_elem {A} (m : gmap string (list A)) principal x :
  x ∈ default [] (m !! principal) ++
      ('(bound, l) ← map_range m; if wildcardMatch bound principal then l else []) ↔
  ∃ bound l, m !! bound = Some l ∧ covers bound principal ∧ x ∈ l.
Proof.
  rewrite elem_of_app, list_elem_of_bind. split.
  - intros [Hx|([bound l] & Hx & Hb%elem_of_map_range)].
    + destruct (m !! principal) as [l|] eqn:E; [|by apply elem_of_nil in Hx]. exists principal, l. split_and!; [done|by left|done].
    + destruct (wildcardMatch bound principal) eqn:Ew; [|by apply elem_of_nil in Hx].
      apply wildcardMatch_spec in Ew. exists bound, l. split_and!; [done|by right|done].
  - intros (bound & l & Hb & [->|Hw] & Hx); [left; by rewrite Hb|right].
    exists (bound, l). rewrite elem_of_map_range. split; [|done]. by rewrite (proj2 (wildcardMatch_spec bound principal)).
Qed.

Lemma resolveRoleNames_elem a principal name :
  name ∈ resolveRoleNames a principal ↔
  ∃ bound names, bindings a !! bound = Some names ∧ covers bound principal ∧ name ∈ names.
Proof. apply covered_elem. Qed.

Lemma RBAC_allows a principal operation key :
  RBAC_Authorize a principal operation key = None ↔
  ∃ name role, name ∈ resolveRoleNames a principal ∧ roles a !! name = Some role ∧ grants operation key role.
Proof.
  unfold RBAC_Authorize. set (l := resolveRoleNames a principal). case_bool_decide as Hl.
  - split; [done|]. intros (name & role & Hn & _). rewrite Hl in Hn. by apply elem_of_nil in Hn.
  - destruct (existsb _ l) eqn:Ex.
    + split; [intros _|done]. apply existsb_elem in Ex as (name & Hn & Hr).
      destruct (roles a !! name) as [role|] eqn:Er; [|done]. apply roleAllows_spec in Hr. eauto.
    + split; [done|]. intros (name & role & Hn & Hr & Hg). enough (existsb (λ roleName, match roles a !! roleName with
        | Some role => roleAllows operation key role | None => false end) l = true) by congruence.
      apply existsb_elem. exists name. rewrite Hr. split; [done|]. by apply roleAllows_spec.
Qed.

(** C17: The whole decision: granted exactly when a binding that covers the principal
    names an existing role with a rule whose prefix begins the key and which
    lists the operation; refused for lack of bindings exactly when no covering
    binding names a role. The order in which bindings are read does not matter. *)
Theorem RBAC_Authorize_decides a principal operation key :
  (RBAC_Authorize a principal operation key = None ↔
   ∃ bound names name role, bindings a !! bound = Some names ∧ covers bound principal ∧ name ∈ names ∧
     roles a !! name = Some role ∧ grants operation key role) ∧
  (RBAC_Authorize a principal operation key = Some (RbacNoBindings principal) ↔
   ∀ bound names, bindings a !! bound = Some names → covers bound principal → names = []).
Proof.
  split.
  - rewrite RBAC_allows. setoid_rewrite resolveRoleNames_elem. naive_solver.
  - unfold RBAC_Authorize. case_bool_decide as Hl.
    + split; [|done]. intros _ bound names Hb Hc. destruct names as [|n names]; [done|].
      assert (n ∈ resolveRoleNames a principal) as Hn; [|rewrite Hl in Hn; by apply elem_of_nil in Hn].
      apply resolveRoleNames_elem. exists bound, (n :: names). split_and!; [done..|apply list_elem_of_here].
    + split; [by case_match|]. intros Hno. destruct Hl. destruct (resolveRoleNames a principal) as [|n l] eqn:E; [done|].
      assert (Hn : n ∈ resolveRoleNames a principal) by (rewrite E; apply list_elem_of_here).
      apply resolveRoleNames_elem in Hn as (bound & names & Hb & Hc & Hn). rewrite (Hno _ _ Hb Hc) in Hn. by apply elem_of_nil in Hn.
Qed.

#[export] Instance RBAC_below : PrefixAuthorizer RBACAuthorizer.
Proof.
  split. intros a principal operation prefix key Hk. unfold Authorize; simpl. rewrite !RBAC_allows.
  intros (name & role & Hn & Hr & Hg). exists name, role. split_and!; [done..|]. by eapply grants_below.
Qed.

(** ** Attributes *)

Lemma attributesMatch_spec actual required : attributesMatch actual required = true ↔ required ⊆ actual.
Proof.
  unfold attributesMatch. rewrite forallb_forall. setoid_rewrite existsb_elem. setoid_rewrite bool_decide_eq_true. split.
  - intros Hall x Hx%list_elem_of_In. destruct (Hall x Hx) as ([k v] & Hy & E1 & E2). destruct x; simpl in *. congruence.
  - intros Hsub x Hx%list_elem_of_In. exists x. split; [by apply Hsub|done].
Qed.

Definition policyGrants (attributes : list Attribute) (operation key : string) (policy : ABACPolicy) : Prop :=
  HasPrefix key (TargetKeyPrefix policy) = true ∧ RequiredAttributes policy ⊆ attributes ∧ operation ∈ AllowedOperations policy.

Lemma policyAllows_spec attributes operation key policy :
  policyAllows attributes operation key policy = true ↔ policyGrants attributes operation key policy.
Proof. unfold policyAllows, policyGrants. rewrite !andb_true_iff, attributesMatch_spec, ops_elem. tauto. Qed.

Lemma ABAC_allows a principal operation key :
  ABAC_Authorize a principal operation key = None ↔
  ∃ name policy, policies a !! name = Some policy ∧ policyGrants (GetPrincipalAttributes a principal) operation key policy.
Proof.
  unfold ABAC_Authorize, GetPrincipalAttributes. setoid_rewrite <-policyAllows_spec. set (attrs := default [] _).
  destruct (existsb _ _) eqn:Ex.
  - split; [intros _|done]. apply existsb_elem in Ex as ([name policy] & Hp%elem_of_map_range & Hg). eauto.
  - split; [done|]. intros (name & policy & Hp & Hg).
    enough (existsb (λ '(_, policy), policyAllows attrs operation key policy) (map_range (policies a)) = true) by congruence.
    apply existsb_elem. exists (name, policy). by rewrite elem_of_map_range.
Qed.

#[export] Instance ABAC_below : PrefixAuthorizer ABACAuthorizer.
Proof.
  split. intros a principal operation prefix key Hk. unfold Authorize; simpl. rewrite !ABAC_allows.
  intros (name & policy & Hp & Ht & Hr & Ho). exists name, policy. split; [done|]. split_and!; [by eapply HasPrefix_trans|done|done].
Qed.

Lemma Combined_allows a principal operation key :
  Combined_Authorize a principal operation key = None ↔
  RBAC_Authorize (rbacAuthorizer a) principal operation key = None ∨ ABAC_Authorize (abacAuthorizer a) principal operation key = None.
Proof. unfold Combined_Authorize. destruct (RBAC_Authorize _ _ _ _), (ABAC_Authorize _ _ _ _); naive_solver. Qed.

#[export] Instance Combined_below : PrefixAuthorizer CombinedAuthorizer.
Proof.
  split. intros a principal operation prefix key Hk. unfold Authorize; simpl. rewrite !Combined_allows.
  intros [Hr|Ha]; [left|right].
  - exact (authorize_below (rbacAuthorizer a) principal operation prefix key Hk Hr).
  - exact (authorize_below (abacAuthorizer a) principal operation prefix key Hk Ha).
Qed.

(** Access is granted by the combined authorizer exactly when a role or an
    attribute policy grants it; a policy grants it when its prefix begins the
    key, the principal has every required attribute, and it lists the operation. *)
Theorem Combined_Authorize_decides a principal operation key :
  Combined_Authorize a principal operation key = None ↔
  (∃ bound names name role, bindings (rbacAuthorizer a) !! bound = Some names ∧ covers bound principal ∧ name ∈ names ∧
     roles (rbacAuthorizer a) !! name = Some role ∧ grants operation key role) ∨
  (∃ name policy, policies (abacAuthorizer a) !! name = Some policy ∧
     HasPrefix key (TargetKeyPrefix policy) = true ∧
     RequiredAttributes policy ⊆ GetPrincipalAttributes (abacAuthorizer a) principal ∧
     operation ∈ AllowedOperations policy).
Proof.
  rewrite Combined_allows, RBAC_allows, ABAC_allows. setoid_rewrite resolveRoleNames_elem. unfold policyGrants. naive_solver.
Qed.

(** ** The API server's role *)

(** Areas no rule of a role shares a key with. *)
Definition apart (area : string) (role : Role) : bool :=
  forallb (λ rule, negb (HasPrefix (KeyPrefix rule) area) && negb (HasPrefix area (KeyPrefix rule))) (Rules role).

Lemma apart_no_grant area role operation key : apart area role = true → HasPrefix key area = true → ¬ grants operation key role.
Proof.
  unfold apart. rewrite forallb_forall. intros Hall Hk (rule & Hr & Hp & _). specialize (Hall rule). rewrite list_elem_of_In in Hr.
  apply Hall in Hr. apply andb_true_iff in Hr as [H1%negb_true_iff H2%negb_true_iff]. exact (prefix_clash key (KeyPrefix rule) area Hp Hk H1 H2).
Qed.

Definition protectedAreas : list string := ["secrets/"; "credentials/"; "enrollment/"; "bootstrap/"; "audit/"].

(** What happens to the bindings while the server runs: other principals are
    bound, and bindings are removed. *)
Inductive rbac_step : RBACAuthorizer → RBACAuthorizer → Prop :=
| step_bind a principal role : ¬ covers principal APIServerPrincipal → rbac_step a (BindRole (mkBinding principal role) a)
| step_remove a principal : rbac_step a (RemoveBinding principal a).

Definition api_server_bound (a : RBACAuthorizer) : Prop :=
  roles a = roles initialRBAC ∧
  ∀ bound names, bindings a !! bound = Some names → covers bound APIServerPrincipal → ∀ n, n ∈ names → n = "api-server".

Lemma api_server_bound_step a a' : rbac_step a a' → api_server_bound a → api_server_bound a'.
Proof.
  destruct 1 as [a principal role Hno|a principal]; intros [Hr Hb]; (split; [done|]); intros bound names; simpl.
  - rewrite lookup_insert_Some. intros [[<- _]|[_ Hl]] Hc; [done|]. exact (Hb bound names Hl Hc).
  - rewrite lookup_delete_Some. intros [_ Hl] Hc. exact (Hb bound names Hl Hc).
Qed.

Lemma api_server_bound_initial : api_server_bound initialRBAC.
Proof.
  split; [done|]. intros bound names Hb _ n Hn. unfold initialRBAC in Hb.
  change (bindings _) with ({[APIServerPrincipal := ["api-server"]]} : gmap string (list string)) in Hb.
  apply lookup_singleton_Some in Hb as [_ <-]. by apply list_elem_of_singleton in Hn.
Qed.

(** However the bindings of other principals change after start-up, the API
    server is refused every operation on every key of the protected areas. *)
Lemma api_server_refused a area operation key :
  rtc rbac_step initialRBAC a → area ∈ protectedAreas → HasPrefix key area = true →
  RBAC_Authorize a APIServerPrincipal operation key ≠ None.
Proof.
  intros Hreach Harea Hk. assert (Hb : api_server_bound a).
  { revert Hreach. apply rtc_ind_r; [apply api_server_bound_initial|]. intros y z _ Hstep Hy. by eapply api_server_bound_step. }
  destruct Hb as [Hr Hb]. rewrite RBAC_allows. intros (name & role & Hn & Hrole & Hg).
  apply resolveRoleNames_elem in Hn as (bound & names & Hl & Hc & Hn). rewrite (Hb _ _ Hl Hc _ Hn), Hr in Hrole.
  vm_compute in Hrole. injection Hrole as <-. revert Hg. apply (apart_no_grant area); [|done].
  assert (Hall : forallb (λ area, apart area apiServerRole) protectedAreas = true) by (vm_compute; reflexivity).
  rewrite forallb_forall in Hall. apply Hall. by apply list_elem_of_In.
Qed.

End props.
