(* ===== verification/Conditions.v ===== *)
(** * Attribute conditions (src/security/condition.go, principal.go)

    The typed principal, and the conditions a policy puts on it and on the
    resource: fields are resolved, compared, and a field that cannot be resolved
    fails the condition. *)

From S2P Require Import Prelude GoStrings Authorizer.

Definition dot : ascii := ".".
Definition comma : ascii := ",".
Definition colon : ascii := ":".

(** ** Principals *)

Record Principal := mkPrincipal {
  PrincipalKind : string;
  PrincipalName : string;
  PrincipalGroups : list string;
  PrincipalAttributes : list Attribute
}.

Definition PrincipalKindUser : string := "user".

Definition PrincipalString (p : Principal) : string := PrincipalKind p +:+ ":" +:+ PrincipalName p.

Definition HasGroup (p : Principal) (groupName : string) : bool :=
  existsb (λ memberGroup, bool_decide (memberGroup = groupName)) (PrincipalGroups p).

(** The loop up to the first colon. *)
Definition PrincipalFromKindAndName (kindColonName : string) : Principal :=
  match Cut colon kindColonName with
  | Some (kind, name) => mkPrincipal kind name [] []
  | None => mkPrincipal PrincipalKindUser kindColonName [] []
  end.

(** ** Conditions *)

Definition ConditionOperatorEqual : string := "==".
Definition ConditionOperatorNotEqual : string := "!=".
Definition ConditionOperatorIn : string := "in".
Definition ConditionOperatorNotIn : string := "not_in".

Record Condition := mkCondition { ConditionField : string; ConditionOperator : string; ConditionValue : string }.
Record ResourceContext := mkResource { ResourceTeam : string; ResourceName : string; ResourceType : string }.

Definition nonEmpty (s : string) : option (list string) := if decide (s = "") then None else Some [s].

(** [(nil, false)] is [None]. *)
Definition resolveSubjectField (attributeName : string) (principal : Principal) : option (list string) :=
  if decide (attributeName = "name") then nonEmpty (PrincipalName principal)
  else if decide (attributeName = "groups") then
    match PrincipalGroups principal with [] => None | groups => Some groups end
  else match filter (λ attribute, AttributeKey attribute = attributeName) (PrincipalAttributes principal) with
       | [] => None
       | attribute :: _ => Some [AttributeValue attribute]
       end.

Definition resolveResourceField (attributeName : string) (resourceContext : option ResourceContext) : option (list string) :=
  match resourceContext with
  | None => None
  | Some resource =>
      if decide (attributeName = "team") then nonEmpty (ResourceTeam resource)
      else if decide (attributeName = "name") then nonEmpty (ResourceName resource)
      else if decide (attributeName = "type") then nonEmpty (ResourceType resource)
      else None
  end.

Definition resolveField (fieldPath : string) (principal : Principal) (resourceContext : option ResourceContext)
    : option (list string) :=
  match Cut dot fieldPath with
  | None => None
  | Some (objectName, attributeName) =>
      if decide (objectName = "subject") then resolveSubjectField attributeName principal
      else if decide (objectName = "resource") then resolveResourceField attributeName resourceContext
      else None
  end.

Definition isFieldReference (value : string) : bool := HasPrefix value "subject." || HasPrefix value "resource.".

Definition isValueInCommaSeparatedList (needle commaSeparatedList : string) : bool :=
  existsb (λ entry, bool_decide (TrimSpace entry = needle)) (Split comma commaSeparatedList).

Definition evaluateMultiValueCondition (operator : string) (leftValues : list string) (rightValue : string) : bool :=
  if decide (operator = ConditionOperatorEqual) then existsb (λ leftValue, bool_decide (leftValue = rightValue)) leftValues
  else if decide (operator = ConditionOperatorNotEqual) then
    negb (existsb (λ leftValue, bool_decide (leftValue = rightValue)) leftValues)
  else if decide (operator = ConditionOperatorIn) then
    existsb (λ leftValue, isValueInCommaSeparatedList leftValue rightValue) leftValues
  else if decide (operator = ConditionOperatorNotIn) then
    negb (existsb (λ leftValue, isValueInCommaSeparatedList leftValue rightValue) leftValues)
  else false.

Definition evaluateSingleCondition (condition : Condition) (principal : Principal) (resourceContext : option ResourceContext) : bool :=
  match resolveField (ConditionField condition) principal resourceContext with
  | None => false
  | Some leftValues =>
      match (if isFieldReference (ConditionValue condition) then
               match resolveField (ConditionValue condition) principal resourceContext with
               | None => None
               | Some rightValues => Some (default "" (head rightValues))
               end
             else Some (ConditionValue condition)) with
      | None => false
      | Some rightValue =>
          if (1 <? length leftValues)%nat then evaluateMultiValueCondition (ConditionOperator condition) leftValues rightValue
          else
            let leftValue := default "" (head leftValues) in
            if decide (ConditionOperator condition = ConditionOperatorEqual) then bool_decide (leftValue = rightValue)
            else if decide (ConditionOperator condition = ConditionOperatorNotEqual) then bool_decide (leftValue ≠ rightValue)
            else if decide (ConditionOperator condition = ConditionOperatorIn) then isValueInCommaSeparatedList leftValue rightValue
            else if decide (ConditionOperator condition = ConditionOperatorNotIn) then
              negb (isValueInCommaSeparatedList leftValue rightValue)
            else false
      end
  end.

Definition EvaluateConditions (conditions : list Condition) (principal : Principal) (resourceContext : option ResourceContext) : bool :=
  forallb (λ condition, evaluateSingleCondition condition principal resourceContext) conditions.

(** ** What a condition means *)

(** The right-hand side: a literal, or the first value of a field. *)
Definition operand (value : string) (principal : Principal) (resourceContext : option ResourceContext) : option string :=
  if isFieldReference value then default "" ∘ head <$> resolveField value principal resourceContext else Some value.

Definition listed (list needle : string) : Prop := ∃ entry, entry ∈ Split comma list ∧ TrimSpace entry = needle.

(** The comparison of a set of values with a value. *)
Inductive compares : string → list string → string → Prop :=
| compares_equal l r : r ∈ l → compares ConditionOperatorEqual l r
| compares_not_equal l r : r ∉ l → compares ConditionOperatorNotEqual l r
| compares_in l r : (∃ v, v ∈ l ∧ listed r v) → compares ConditionOperatorIn l r
| compares_not_in l r : (¬ ∃ v, v ∈ l ∧ listed r v) → compares ConditionOperatorNotIn l r.

Lemma resolveField_values field principal resource l : resolveField field principal resource = Some l → l ≠ [].
Proof.
  unfold resolveField. destruct (Cut dot field) as [[object attribute]|]; [|done].
  unfold resolveSubjectField, resolveResourceField, nonEmpty. repeat case_match; intros E; by simplify_eq.
Qed.

Lemma listed_spec list needle : isValueInCommaSeparatedList needle list = true ↔ listed list needle.
Proof. unfold isValueInCommaSeparatedList, listed. rewrite existsb_elem. by setoid_rewrite bool_decide_eq_true. Qed.

Lemma multi_spec operator l r : evaluateMultiValueCondition operator l r = true ↔ compares operator l r.
Proof.
  assert (Hin : existsb (λ leftValue, isValueInCommaSeparatedList leftValue r) l = true ↔ ∃ v, v ∈ l ∧ listed r v).
  { rewrite existsb_elem. by setoid_rewrite listed_spec. }
  assert (Heq : existsb (λ leftValue, bool_decide (leftValue = r)) l = true ↔ r ∈ l) by apply ops_elem.
  unfold evaluateMultiValueCondition. split.
  - repeat case_decide; subst; rewrite ?negb_true_iff, <-?not_true_iff_false, ?Hin, ?Heq; try (by constructor); done.
  - destruct 1 as [l r Hc|l r Hc|l r Hc|l r Hc]; simpl; rewrite ?negb_true_iff, <-?not_true_iff_false, ?Hin, ?Heq; done.
Qed.

(** One value is compared as the set of that value. *)
Lemma single_multi operator v r :
  (if decide (operator = ConditionOperatorEqual) then bool_decide (v = r)
   else if decide (operator = ConditionOperatorNotEqual) then bool_decide (v ≠ r)
   else if decide (operator = ConditionOperatorIn) then isValueInCommaSeparatedList v r
   else if decide (operator = ConditionOperatorNotIn) then negb (isValueInCommaSeparatedList v r)
   else false) = evaluateMultiValueCondition operator [v] r.
Proof.
  unfold evaluateMultiValueCondition. simpl. rewrite !orb_false_r. repeat case_decide; first [done|by rewrite bool_decide_not].
Qed.

Lemma single_spec condition principal resource :
  evaluateSingleCondition condition principal resource = true ↔
  ∃ l r, resolveField (ConditionField condition) principal resource = Some l ∧
         operand (ConditionValue condition) principal resource = Some r ∧ compares (ConditionOperator condition) l r.
Proof.
  unfold evaluateSingleCondition, operand. destruct (resolveField (ConditionField condition) principal resource) as [l|] eqn:El.
  2: { split; [done|]. intros (? & ? & [=] & _). }
  pose proof (resolveField_values _ _ _ _ El) as Hne.
  assert (Heval : ∀ r, (if (1 <? length l)%nat then evaluateMultiValueCondition (ConditionOperator condition) l r
    else evaluateMultiValueCondition (ConditionOperator condition) [default "" (head l)] r) = true ↔ compares (ConditionOperator condition) l r).
  { intros r. destruct l as [|v [|w l]]; [done|exact (multi_spec _ [v] r)|exact (multi_spec _ (v :: w :: l) r)]. }
  cbv zeta. destruct (isFieldReference (ConditionValue condition)).
  - destruct (resolveField (ConditionValue condition) principal resource) as [rs|]; [|simpl; naive_solver].
    rewrite single_multi, Heval. simpl. naive_solver.
  - rewrite single_multi, Heval. naive_solver.
Qed.

(** Conditions mean what their operators say, for one value and for several: all
    of them must hold, each with both sides resolved. In particular a condition
    on a field that is missing fails whatever its operator, "!=" and "not_in"
    included. *)
Theorem EvaluateConditions_means conditions principal resource :
  EvaluateConditions conditions principal resource = true ↔
  ∀ condition, condition ∈ conditions →
    ∃ l r, resolveField (ConditionField condition) principal resource = Some l ∧
           operand (ConditionValue condition) principal resource = Some r ∧ compares (ConditionOperator condition) l r.
Proof.
  unfold EvaluateConditions. rewrite forallb_forall. setoid_rewrite <-list_elem_of_In. by setoid_rewrite single_spec.
Qed.

(** The store-layer form of a principal is read back. *)
Lemma Principal_round_trip kind name :
  ContainsByte kind colon = false → PrincipalFromKindAndName (PrincipalString (mkPrincipal kind name [] [])) = mkPrincipal kind name [] [].
Proof.
  intros Hk. unfold PrincipalFromKindAndName, PrincipalString.
  change (Cut colon _) with (Cut colon (kind +:+ String colon name)). by rewrite Cut_app.
Qed.
