(* ===== verification/APIAuthorizer.v ===== *)
(** * API-layer authorization (src/security/api_authorizer.go, scope.go, capability.go, fact_authorizer.go)

    Capabilities granted at hierarchical scopes, conditional policies, and the
    authorizer of compiled facts. Grants made at start-up are kept apart from the
    grants rebuilt from facts. An audit log, when attached, is a list that grows
    at its end. Then what authorization decides: in terms of grants and policies, monotone in
    scopes, with start-up grants that nothing takes away. *)

From S2P Require Import Prelude GoStrings Authorizer Conditions.

(** ** Scopes *)

Definition ScopeCluster : string := "cluster".
Definition TeamScope (teamName : string) : string := "team/" +:+ teamName.
Definition NodeScope (nodeID : string) : string := "node/" +:+ nodeID.
Definition ServiceScope (serviceName : string) : string := "service/" +:+ serviceName.

(** [scope.Contains(child)] *)
Definition ScopeContains (scope child : string) : bool :=
  if decide (scope = ScopeCluster) then true
  else if decide (scope = child) then true
  else HasPrefix child (scope +:+ "/").

(** ** Capabilities *)

Definition CapabilityWorkloadRead : string := "workload.read".
Definition CapabilityWorkloadCreate : string := "workload.create".
Definition CapabilityWorkloadUpdate : string := "workload.update".
Definition CapabilityWorkloadDelete : string := "workload.delete".
Definition CapabilityWorkloadExec : string := "workload.exec".
Definition CapabilitySecretMetadataRead : string := "secret.metadata.read".
Definition CapabilitySecretRead : string := "secret.read".
Definition CapabilitySecretUse : string := "secret.use".
Definition CapabilitySecretWrite : string := "secret.write".
Definition CapabilityNodeRead : string := "node.read".
Definition CapabilityNodeManage : string := "node.manage".
Definition CapabilityPlacementRead : string := "placement.read".
Definition CapabilityPlacementWrite : string := "placement.write".
Definition CapabilityScalingRead : string := "scaling.read".
Definition CapabilityScalingWrite : string := "scaling.write".
Definition CapabilityClusterAdmin : string := "cluster.admin".

Definition AllCapabilities : list string :=
  [CapabilityWorkloadRead; CapabilityWorkloadCreate; CapabilityWorkloadUpdate; CapabilityWorkloadDelete;
   CapabilityWorkloadExec; CapabilitySecretMetadataRead; CapabilitySecretRead; CapabilitySecretUse;
   CapabilitySecretWrite; CapabilityNodeRead; CapabilityNodeManage; CapabilityPlacementRead;
   CapabilityPlacementWrite; CapabilityScalingRead; CapabilityScalingWrite; CapabilityClusterAdmin].

Record CapabilityGrant := mkGrant { GrantCapability : string; GrantScope : string }.

#[export] Instance CapabilityGrant_eq_dec : EqDecision CapabilityGrant.
Proof. solve_decision. Defined.

Definition clusterGrants (capabilities : list string) : list CapabilityGrant :=
  (λ capability, mkGrant capability ScopeCluster) <$> capabilities.

Definition BuiltinRoleCapabilities (roleName : string) : list CapabilityGrant :=
  if decide (roleName = "cluster-admin") then clusterGrants [CapabilityClusterAdmin]
  else if decide (roleName = "api-reader") then
    clusterGrants [CapabilityWorkloadRead; CapabilityNodeRead; CapabilityPlacementRead; CapabilityScalingRead;
                   CapabilitySecretMetadataRead]
  else if decide (roleName = "api-writer") then
    clusterGrants [CapabilityWorkloadRead; CapabilityWorkloadCreate; CapabilityWorkloadUpdate; CapabilityScalingRead;
                   CapabilityScalingWrite; CapabilityNodeRead; CapabilityPlacementRead; CapabilitySecretMetadataRead]
  else if decide (roleName = "node-agent") then
    clusterGrants [CapabilityWorkloadRead; CapabilityNodeRead; CapabilityPlacementRead]
  else [].

(** ** Audit entries (the timestamp is the logger's) *)

Record AuditEntry := mkAudit {
  AuditPrincipal : string;
  AuditAction : string;
  AuditTarget : string;
  AuditDecision : string;
  AuditAuthMethod : string;
  AuditPolicy : string;
  AuditOnBehalfOf : string
}.

Definition AuditDecisionAllow : string := "allow".
Definition AuditDecisionDeny : string := "deny".

(** ** The authorizer *)

Record ConditionalPolicy := mkConditional {
  ConditionalName : string;
  ConditionalCapability : string;
  Conditions : list Condition
}.

Record APIAuthorizer := mkAPI {
  apiGrants : gmap string (list CapabilityGrant);
  bootstrapGrants : gmap string (list CapabilityGrant);
  apiPolicies : list ConditionalPolicy;
  apiAuditLog : option (list AuditEntry)
}.

Definition NewAPIAuthorizer : APIAuthorizer := mkAPI ∅ ∅ [] None.

Definition appendGrants (principal : string) (more : list CapabilityGrant) (m : gmap string (list CapabilityGrant))
    : gmap string (list CapabilityGrant) :=
  <[principal := default [] (m !! principal) ++ more]> m.

Definition Grant (principal capability scope : string) (a : APIAuthorizer) : APIAuthorizer :=
  mkAPI (appendGrants principal [mkGrant capability scope] (apiGrants a)) (bootstrapGrants a) (apiPolicies a) (apiAuditLog a).

Definition SetAuditLogger (auditLog : list AuditEntry) (a : APIAuthorizer) : APIAuthorizer :=
  mkAPI (apiGrants a) (bootstrapGrants a) (apiPolicies a) (Some auditLog).

Definition ReplaceGrants (newGrants : gmap string (list CapabilityGrant)) (a : APIAuthorizer) : APIAuthorizer :=
  mkAPI newGrants (bootstrapGrants a) (apiPolicies a) (apiAuditLog a).

Definition ReplacePolicies (newPolicies : list ConditionalPolicy) (a : APIAuthorizer) : APIAuthorizer :=
  mkAPI (apiGrants a) (bootstrapGrants a) newPolicies (apiAuditLog a).

Definition GrantRole (principal roleName : string) (a : APIAuthorizer) : APIAuthorizer :=
  mkAPI (apiGrants a) (appendGrants principal (BuiltinRoleCapabilities roleName) (bootstrapGrants a)) (apiPolicies a) (apiAuditLog a).

Definition logConditionFailure (principal : Principal) (capability scope : string) (policy : ConditionalPolicy)
    (a : APIAuthorizer) : APIAuthorizer :=
  match apiAuditLog a with
  | None => a
  | Some log =>
      mkAPI (apiGrants a) (bootstrapGrants a) (apiPolicies a)
        (Some (log ++ [mkAudit (PrincipalString principal) capability scope AuditDecisionDeny ""
                               (ConditionalName policy +:+ ":condition_failed") ""]))
  end.

Section authorize.
Context `{GoMapRange}.

Definition appendMatchingGrants (allGrants : list CapabilityGrant) (grantMap : gmap string (list CapabilityGrant))
    (principal : string) : list CapabilityGrant :=
  allGrants ++ default [] (grantMap !! principal) ++
  ('(boundPrincipal, boundGrants) ← map_range grantMap;
   if wildcardMatch boundPrincipal principal then boundGrants else []).

Definition resolveGrants (a : APIAuthorizer) (principal : string) : list CapabilityGrant :=
  appendMatchingGrants (appendMatchingGrants [] (bootstrapGrants a) principal) (apiGrants a) principal.

Definition grantAllows (requiredCapability requiredScope : string) (grant : CapabilityGrant) : bool :=
  (bool_decide (GrantCapability grant = CapabilityClusterAdmin) && ScopeContains (GrantScope grant) requiredScope) ||
  (bool_decide (GrantCapability grant = requiredCapability) && ScopeContains (GrantScope grant) requiredScope).

(** The loop over the policies: whether one matched so far, the decision and the
    authorizer with its log. *)
Fixpoint policyLoop (remaining : list ConditionalPolicy) (conditionPolicyMatched : bool) (principal : Principal)
    (requiredCapability requiredScope : string) (resourceContext : option ResourceContext) (a : APIAuthorizer)
    : option AuthError * APIAuthorizer :=
  match remaining with
  | [] => (Some (ApiDenied (PrincipalString principal) requiredCapability requiredScope conditionPolicyMatched), a)
  | policy :: rest =>
      if decide (ConditionalCapability policy ≠ requiredCapability ∧ ConditionalCapability policy ≠ CapabilityClusterAdmin)
      then policyLoop rest conditionPolicyMatched principal requiredCapability requiredScope resourceContext a
      else if EvaluateConditions (Conditions policy) principal resourceContext then (None, a)
      else policyLoop rest true principal requiredCapability requiredScope resourceContext
             (logConditionFailure principal requiredCapability requiredScope policy a)
  end.

Definition AuthorizeAPI (principal : Principal) (requiredCapability requiredScope : string)
    (resourceContext : option ResourceContext) (a : APIAuthorizer) : option AuthError * APIAuthorizer :=
  if decide (PrincipalName principal = "") then (Some (ApiIncomplete (PrincipalKind principal)), a)
  else if existsb (grantAllows requiredCapability requiredScope) (resolveGrants a (PrincipalString principal)) then (None, a)
  else policyLoop (apiPolicies a) false principal requiredCapability requiredScope resourceContext a.

Definition GrantedScopes (a : APIAuthorizer) (principal : Principal) (capability : string) : list string :=
  if decide (PrincipalName principal = "") then []
  else GrantScope <$> filter (λ grant, GrantCapability grant = capability ∨ GrantCapability grant = CapabilityClusterAdmin)
                        (resolveGrants a (PrincipalString principal)).

(** ** Compiled facts *)

Definition clusterAdminFactPrefixes : list string := ["auth/"; "policy/network/"; "desired/cloud_identity/"].
Definition workloadFactPrefixes : list string := ["desired/"; "effective/"; "intent/"; "derived/service/"].

Definition RequiredCapabilityForFactWrite (factKey : string) : string :=
  let areas := if existsb (HasPrefix factKey) workloadFactPrefixes then CapabilityWorkloadCreate else CapabilityClusterAdmin in
  if existsb (HasPrefix factKey) clusterAdminFactPrefixes then CapabilityClusterAdmin
  else if HasPrefix factKey "desired/service/" then
    if Contains factKey "/cloud_identity/" then CapabilityClusterAdmin
    else if Contains factKey "/secret/" || HasSuffix factKey "/image_pull_secret" then CapabilitySecretUse
    else areas
  else areas.

(** [CapabilityFactAuthorizer.Authorize]; the API authorizer it wraps is the
    state. *)
Definition FactAuthorize (principal permission factKey : string) (a : APIAuthorizer) : option AuthError * APIAuthorizer :=
  if decide (permission ≠ PermissionWrite) then (Some (OnlyWritesChecked permission), a)
  else AuthorizeAPI (PrincipalFromKindAndName principal) (RequiredCapabilityForFactWrite factKey) ScopeCluster None a.

End authorize.

(** * What API-layer authorization decides

    The decision in terms of grants and policies, scopes as a preorder it is
    monotone in, grants made at start-up that nothing takes away, and what a
    write of a compiled fact requires. *)

(** ** Scopes *)

Lemma ScopeContains_spec scope child :
  ScopeContains scope child = true ↔ scope = ScopeCluster ∨ scope = child ∨ HasPrefix child (scope +:+ "/") = true.
Proof. unfold ScopeContains. repeat case_decide; naive_solver. Qed.

Lemma ScopeContains_cluster scope : ScopeContains scope ScopeCluster = true ↔ scope = ScopeCluster.
Proof.
  rewrite ScopeContains_spec. split; [|tauto]. intros [?|[?|Hp]]; [done..|]. exfalso. apply HasPrefix_spec in Hp as [r E].
  assert (Hc : ContainsByte ScopeCluster "/" = true); [|by vm_compute in Hc].
  rewrite E, !ContainsByte_app. simpl. by rewrite orb_true_r.
Qed.

#[export] Instance ScopeContains_preorder : PreOrder (λ scope child, ScopeContains scope child = true).
Proof.
  split.
  - intros scope. apply ScopeContains_spec. auto.
  - intros a b c Hab Hbc. destruct (decide (b = ScopeCluster)) as [->|Hb].
    + apply ScopeContains_cluster in Hab as ->. apply ScopeContains_spec. auto.
    + rewrite ScopeContains_spec in *. destruct Hab as [->|[->|Hab]]; [auto|done|].
      destruct Hbc as [->|[->|Hbc]]; [done|auto|]. right; right. eapply HasPrefix_trans; [exact Hbc|].
      eapply HasPrefix_trans; [apply HasPrefix_app|done].
Qed.

(** ** Decisions *)

(** A grant a principal has. *)
Definition holds (m : gmap string (list CapabilityGrant)) (principal : string) (grant : CapabilityGrant) : Prop :=
  ∃ bound l, m !! bound = Some l ∧ covers bound principal ∧ grant ∈ l.

Definition suits (capability : string) (c : string) : Prop := c = capability ∨ c = CapabilityClusterAdmin.

Lemma grantAllows_spec capability scope grant :
  grantAllows capability scope grant = true ↔ suits capability (GrantCapability grant) ∧ ScopeContains (GrantScope grant) scope = true.
Proof.
  unfold grantAllows, suits. rewrite orb_true_iff, !andb_true_iff, !bool_decide_eq_true. tauto.
Qed.

Section props.
Context `{GoMapRange}.

Lemma resolveGrants_elem a principal grant :
  grant ∈ resolveGrants a principal ↔ holds (bootstrapGrants a) principal grant ∨ holds (apiGrants a) principal grant.
Proof.
  unfold resolveGrants, appendMatchingGrants. rewrite !elem_of_app, elem_of_nil. unfold holds.
  rewrite <-!covered_elem, !elem_of_app. tauto.
Qed.

Lemma policyLoop_allows remaining matched principal capability scope resource a :
  fst (policyLoop remaining matched principal capability scope resource a) = None ↔
  ∃ policy, policy ∈ remaining ∧ suits capability (ConditionalCapability policy) ∧
            EvaluateConditions (Conditions policy) principal resource = true.
Proof.
  revert matched a. induction remaining as [|policy rest IH]; intros matched a; simpl.
  { split; [done|]. intros (? & ?%elem_of_nil & _). done. }
  assert (Hskip : (suits capability (ConditionalCapability policy) → EvaluateConditions (Conditions policy) principal resource = false) →
    (∃ q, q ∈ rest ∧ suits capability (ConditionalCapability q) ∧ EvaluateConditions (Conditions q) principal resource = true) ↔
    (∃ q, q ∈ policy :: rest ∧ suits capability (ConditionalCapability q) ∧ EvaluateConditions (Conditions q) principal resource = true)).
  { intros Hno. split; intros (q & Hq & Hs & He); exists q; (split; [|done]); [by apply list_elem_of_further|].
    apply elem_of_cons in Hq as [->|Hq]; [|done]. rewrite (Hno Hs) in He. done. }
  case_decide as Hd; [|destruct (EvaluateConditions (Conditions policy) principal resource) eqn:Ee].
  - rewrite IH. apply Hskip. intros [E|E]; tauto.
  - split; [intros _|done]. exists policy. split; [apply list_elem_of_here|]. split; [|done]. unfold suits.
    destruct (decide (ConditionalCapability policy = capability)); [by left|right].
    destruct (decide (ConditionalCapability policy = CapabilityClusterAdmin)); tauto.
  - rewrite IH. by apply Hskip.
Qed.

Lemma AuthorizeAPI_allows principal capability scope resource a :
  fst (AuthorizeAPI principal capability scope resource a) = None ↔
  PrincipalName principal ≠ "" ∧
  ((∃ grant, grant ∈ resolveGrants a (PrincipalString principal) ∧ suits capability (GrantCapability grant) ∧
             ScopeContains (GrantScope grant) scope = true) ∨
   (∃ policy, policy ∈ apiPolicies a ∧ suits capability (ConditionalCapability policy) ∧
              EvaluateConditions (Conditions policy) principal resource = true)).
Proof.
  unfold AuthorizeAPI. case_decide as Hn; [simpl; naive_solver|]. destruct (existsb _ _) eqn:Ex.
  - split; [intros _; split; [done|left]|done]. apply existsb_elem in Ex as (grant & Hg & Ha).
    exists grant. split; [done|]. by apply grantAllows_spec.
  - rewrite policyLoop_allows. split; [tauto|]. intros [_ [(grant & Hg & Ha)|?]]; [|done]. exfalso.
    enough (existsb (grantAllows capability scope) (resolveGrants a (PrincipalString principal)) = true) by congruence.
    apply existsb_elem. exists grant. split; [done|]. by apply grantAllows_spec.
Qed.

(** The whole decision: a named principal is let through exactly when a grant
    bound to it (by name or by wildcard, at start-up or from the facts) gives the
    capability or cluster.admin at a scope that contains the required one, or a
    policy for the capability or for cluster.admin has conditions that all hold. *)
Theorem AuthorizeAPI_decides principal capability scope resource a :
  fst (AuthorizeAPI principal capability scope resource a) = None ↔
  PrincipalName principal ≠ "" ∧
  ((∃ grant, (holds (bootstrapGrants a) (PrincipalString principal) grant ∨ holds (apiGrants a) (PrincipalString principal) grant) ∧
             suits capability (GrantCapability grant) ∧ ScopeContains (GrantScope grant) scope = true) ∨
   (∃ policy, policy ∈ apiPolicies a ∧ suits capability (ConditionalCapability policy) ∧
              ∀ condition, condition ∈ Conditions policy → evaluateSingleCondition condition principal resource = true)).
Proof.
  rewrite AuthorizeAPI_allows. setoid_rewrite resolveGrants_elem. unfold EvaluateConditions.
  setoid_rewrite forallb_forall. by setoid_rewrite <-list_elem_of_In.
Qed.

(** Who may act at a scope may act at every scope inside it. *)
Theorem AuthorizeAPI_scope_monotone principal capability outer inner resource a :
  ScopeContains outer inner = true →
  fst (AuthorizeAPI principal capability outer resource a) = None →
  fst (AuthorizeAPI principal capability inner resource a) = None.
Proof.
  intros Hsub. rewrite !AuthorizeAPI_allows. intros [Hn [(grant & Hg & Hs & Hc)|Hp]]; (split; [done|]); [left|by right].
  exists grant. split_and!; [done..|]. by apply (PreOrder_Transitive (R := λ s c, ScopeContains s c = true) _ outer).
Qed.

(** The scopes reported to a caller are the ones the decision uses. *)
Lemma GrantedScopes_elem a principal capability scope :
  scope ∈ GrantedScopes a principal capability ↔
  PrincipalName principal ≠ "" ∧
  ∃ grant, grant ∈ resolveGrants a (PrincipalString principal) ∧ suits capability (GrantCapability grant) ∧ GrantScope grant = scope.
Proof.
  unfold GrantedScopes. case_decide as Hn; [rewrite elem_of_nil; naive_solver|]. rewrite list_elem_of_fmap.
  setoid_rewrite list_elem_of_filter. unfold suits. naive_solver.
Qed.

Theorem GrantedScopes_agree a principal capability scope resource :
  apiPolicies a = [] →
  (fst (AuthorizeAPI principal capability scope resource a) = None ↔
   ∃ granted, granted ∈ GrantedScopes a principal capability ∧ ScopeContains granted scope = true).
Proof.
  intros Hp. rewrite AuthorizeAPI_allows, Hp. setoid_rewrite GrantedScopes_elem. setoid_rewrite elem_of_nil. naive_solver.
Qed.

(** ** Start-up grants *)

Inductive api_step : APIAuthorizer → APIAuthorizer → Prop :=
| step_grant a principal capability scope : api_step a (Grant principal capability scope a)
| step_replace_grants a newGrants : api_step a (ReplaceGrants newGrants a)
| step_replace_policies a newPolicies : api_step a (ReplacePolicies newPolicies a)
| step_grant_role a principal role : api_step a (GrantRole principal role a)
| step_audit a log : api_step a (SetAuditLogger log a)
| step_authorize a principal capability scope resource :
    api_step a (snd (AuthorizeAPI principal capability scope resource a)).

Lemma policyLoop_bootstrap remaining matched principal capability scope resource a :
  bootstrapGrants (snd (policyLoop remaining matched principal capability scope resource a)) = bootstrapGrants a.
Proof.
  revert matched a. induction remaining as [|policy rest IH]; intros matched a; simpl; [done|].
  case_decide; [apply IH|]. destruct (EvaluateConditions _ _ _); [done|]. rewrite IH. unfold logConditionFailure. by destruct (apiAuditLog a).
Qed.

Lemma appendGrants_holds m principal more p grant : holds m p grant → holds (appendGrants principal more m) p grant.
Proof.
  intros (bound & l & Hb & Hc & Hg). unfold holds, appendGrants. destruct (decide (bound = principal)) as [->|Hne].
  - exists principal, (l ++ more). rewrite lookup_insert_eq, Hb. split_and!; [done|done|]. apply elem_of_app. by left.
  - exists bound, l. by rewrite lookup_insert_ne.
Qed.

Lemma bootstrap_step a a' p grant : api_step a a' → holds (bootstrapGrants a) p grant → holds (bootstrapGrants a') p grant.
Proof.
  destruct 1 as [| | |a principal role| |a principal capability scope resource]; try done.
  - apply appendGrants_holds.
  - unfold AuthorizeAPI. case_decide; [done|]. destruct (existsb _ _); [done|]. by rewrite policyLoop_bootstrap.
Qed.

(** A principal made cluster-admin at start-up is let through for every
    capability at every scope, whatever grants and policies are added, replaced
    or rebuilt from facts afterwards. *)
Theorem bootstrap_admin_survives principal capability scope resource a a' :
  PrincipalName principal ≠ "" →
  rtc api_step (GrantRole (PrincipalString principal) "cluster-admin" a) a' →
  fst (AuthorizeAPI principal capability scope resource a') = None.
Proof.
  intros Hn Hsteps. set (grant := mkGrant CapabilityClusterAdmin ScopeCluster).
  assert (Hb : holds (bootstrapGrants a') (PrincipalString principal) grant).
  { revert Hsteps. apply (rtc_ind_r (λ a', holds (bootstrapGrants a') (PrincipalString principal) grant)).
    - exists (PrincipalString principal). eexists. simpl. unfold appendGrants. rewrite lookup_insert_eq. split; [done|]. split; [by left|].
      apply elem_of_app. right. apply list_elem_of_here.
    - intros y z _ Hstep Hy. by eapply bootstrap_step. }
  rewrite AuthorizeAPI_allows. split; [done|left]. exists grant. rewrite resolveGrants_elem. split; [by left|].
  split; [by right|]. apply ScopeContains_spec. by left.
Qed.

(** ** Writing compiled facts *)

(** A write of a fact outside the workload areas, or in an area reserved to
    administrators, or of a service's cloud identity, is let through only for a
    principal with cluster.admin at cluster scope (or a cluster.admin policy that
    accepts it); a service's secrets need secret.use or cluster.admin; no other
    operation is ever let through. *)
Theorem FactAuthorize_least_privilege principal permission factKey a :
  let p := PrincipalFromKindAndName principal in
  let permitted capability :=
    (∃ grant, (holds (bootstrapGrants a) (PrincipalString p) grant ∨ holds (apiGrants a) (PrincipalString p) grant) ∧
              suits capability (GrantCapability grant) ∧ GrantScope grant = ScopeCluster) ∨
    (∃ policy, policy ∈ apiPolicies a ∧ suits capability (ConditionalCapability policy) ∧
               EvaluateConditions (Conditions policy) p None = true) in
  fst (FactAuthorize principal permission factKey a) = None →
  permission = PermissionWrite ∧
  ((∃ area, area ∈ clusterAdminFactPrefixes ∧ HasPrefix factKey area = true) ∨
   (∀ area, area ∈ workloadFactPrefixes → HasPrefix factKey area = false) ∨
   (HasPrefix factKey "desired/service/" = true ∧ Contains factKey "/cloud_identity/" = true) →
   permitted CapabilityClusterAdmin) ∧
  (HasPrefix factKey "desired/service/" = true →
   Contains factKey "/secret/" = true ∨ HasSuffix factKey "/image_pull_secret" = true →
   permitted CapabilitySecretUse).
Proof.
  intros p permitted. unfold FactAuthorize. case_decide as Hw; [done|]. fold p.
  intros Ha. assert (Hreq : permitted (RequiredCapabilityForFactWrite factKey)).
  { apply AuthorizeAPI_allows in Ha as [_ [(grant & Hg & Hs & Hc)|Hp]]; [left|by right]. exists grant.
    rewrite <-resolveGrants_elem. apply ScopeContains_cluster in Hc. done. }
  assert (Hadmin : ∀ c, permitted CapabilityClusterAdmin → permitted c).
  { unfold permitted, suits. intros c [(g & Hg & [E|E] & Hs)|(q & Hq & [E|E] & He)]; [left; exists g|left; exists g|right; exists q|right; exists q]; auto. }
  split; [done|]. unfold RequiredCapabilityForFactWrite in Hreq.
  destruct (existsb (HasPrefix factKey) clusterAdminFactPrefixes) eqn:E1; [split; intros; by apply Hadmin|].
  split.
  - intros [(area & Hin & Hp)|[Hno|[Hs Hc]]].
    + enough (existsb (HasPrefix factKey) clusterAdminFactPrefixes = true) by congruence. apply existsb_elem. eauto.
    + assert (E2 : existsb (HasPrefix factKey) workloadFactPrefixes = false).
      { apply not_true_iff_false. rewrite existsb_elem. intros (area & Hin & Hp). rewrite Hno in Hp; done. }
      assert (E3 : HasPrefix factKey "desired/service/" = false).
      { apply not_true_iff_false. intros Hd. specialize (Hno "desired/" ltac:(set_solver)).
        rewrite (HasPrefix_trans factKey "desired/service/" "desired/") in Hno; done. }
      by rewrite E2, E3 in Hreq.
    + by rewrite Hs, Hc in Hreq.
  - intros Hs Hsec. rewrite Hs in Hreq. destruct (Contains factKey "/cloud_identity/"); [by apply Hadmin|].
    assert (Hb : Contains factKey "/secret/" || HasSuffix factKey "/image_pull_secret" = true) by (by apply orb_true_iff).
    by rewrite Hb in Hreq.
Qed.

End props.
