(* ===== verification/AuthController.v ===== *)
(** * The auth controller (src/controllers/auth.go)

    It rebuilds the API authorizer's grants and policies from the facts under
    "auth/". It proposes no changes; its effect is the authorizer's new state. *)

From S2P Require Import Prelude GoStrings GoFmt Keys EventHistory PrefixSearch ControllerHelpers Authorizer Conditions APIAuthorizer.

Definition AuthController_Watch : list string := [ScanAuthRoles; ScanAuthGrants; ScanAuthGroups; ScanAuthPolicies].

(** [m[key] = append(m[key], value)] *)
Definition appendTo {A} (key : string) (value : A) (m : gmap string (list A)) : gmap string (list A) :=
  <[key := default [] (m !! key) ++ [value]]> m.

(** The facts under a prefix, the rest of their keys split at most [n] times. *)
Definition factParts (n : nat) (facts : list Fact) (prefix : string) : list (list string * string) :=
  (λ f, (SplitN slash n (TrimPrefix (Key f) prefix), Value f)) <$> FactsWithPrefix facts prefix.

(** ** Roles, groups and grants *)

Definition parseRoleCapabilitiesFromFacts (facts : list Fact) : gmap string (list string) :=
  foldl (λ roleCapabilities '(pathParts, _),
    match pathParts with
    | [roleName; field; capabilityName] =>
        if decide (field = "capability") then appendTo roleName capabilityName roleCapabilities else roleCapabilities
    | _ => roleCapabilities
    end) ∅ (factParts 3 facts ScanAuthRoles).

Definition parseRoleScopesFromFacts (facts : list Fact) : gmap string (list string) :=
  foldl (λ roleScopes '(pathParts, _),
    match pathParts with
    | roleName :: field :: scopePath :: _ =>
        if decide (field = "scope") then appendTo roleName scopePath roleScopes else roleScopes
    | _ => roleScopes
    end) ∅ (factParts 3 facts ScanAuthRoles).

Definition parseGroupMembersFromFacts (facts : list Fact) : gmap string (list string) :=
  foldl (λ groupMembers '(pathParts, _),
    match pathParts with
    | [groupName; field; memberName] =>
        if decide (field = "member") then appendTo groupName memberName groupMembers else groupMembers
    | _ => groupMembers
    end) ∅ (factParts 3 facts ScanAuthGroups).

Definition parsePrincipalRolesFromFacts (facts : list Fact) (groupMembers : gmap string (list string))
    : gmap string (list string) :=
  foldl (λ principalRoles '(pathParts, _),
    match pathParts with
    | [principalKind; principalName; field; roleName] =>
        if decide (field = "role") then
          if decide (principalKind = "group") then
            foldl (λ roles memberName, appendTo ("user:" +:+ memberName) roleName roles)
              principalRoles (default [] (groupMembers !! principalName))
          else appendTo (principalKind +:+ ":" +:+ principalName) roleName principalRoles
        else principalRoles
    | _ => principalRoles
    end) ∅ (factParts 4 facts ScanAuthGrants).

(** The grants of one role. *)
Definition roleGrants (roleCapabilities roleScopes : gmap string (list string)) (roleName : string) : list CapabilityGrant :=
  match default [] (roleCapabilities !! roleName) with
  | [] => BuiltinRoleCapabilities roleName
  | capabilities =>
      let scopes := match default [] (roleScopes !! roleName) with [] => [ScopeCluster] | scopes => scopes end in
      capability ← capabilities; mkGrant capability <$> scopes
  end.

Section controller.
Context `{GoMapRange}.

Definition buildCapabilityGrants (principalRoles roleCapabilities roleScopes : gmap string (list string))
    : gmap string (list CapabilityGrant) :=
  foldl (λ newGrants principalKey,
    foldl (λ grants roleName, appendGrants principalKey (roleGrants roleCapabilities roleScopes roleName) grants)
      newGrants (default [] (principalRoles !! principalKey)))
    ∅ (sort_strings (fst <$> map_range principalRoles)).

(** ** Policies *)

Record policyConditionComponents := mkComponents {
  componentCapabilities : gmap string string;
  componentFields : gmap string (gmap Z string);
  componentOperators : gmap string (gmap Z string);
  componentValues : gmap string (gmap Z string)
}.

(** The loop over the digits, in the width of an [int]; [-1] is no index. *)
Fixpoint conditionIndexLoop (conditionIndex : Z) (indexString : string) : Z :=
  match indexString with
  | "" => conditionIndex
  | String digitChar rest =>
      match digit_value digitChar with
      | None => -1
      | Some d => conditionIndexLoop ((conditionIndex *! 10) +! d)%go rest
      end
  end.

Definition parseConditionIndex (indexString : string) : Z :=
  if decide (indexString = "") then -1 else conditionIndexLoop 0 indexString.

Definition setIndexed (policyName : string) (conditionIndex : Z) (value : string) (m : gmap string (gmap Z string))
    : gmap string (gmap Z string) :=
  <[policyName := <[conditionIndex := value]> (default ∅ (m !! policyName))]> m.

Definition storeConditionComponent (components : policyConditionComponents) (policyName : string) (conditionIndex : Z)
    (componentType componentValue : string) : policyConditionComponents :=
  let '(mkComponents capabilities fields operators values) := components in
  if decide (componentType = "field") then
    mkComponents capabilities (setIndexed policyName conditionIndex componentValue fields) operators values
  else if decide (componentType = "operator") then
    mkComponents capabilities fields (setIndexed policyName conditionIndex componentValue operators) values
  else if decide (componentType = "value") then
    mkComponents capabilities fields operators (setIndexed policyName conditionIndex componentValue values)
  else components.

Definition collectPolicyConditionComponentsFromFacts (facts : list Fact) : policyConditionComponents :=
  foldl (λ components '(pathParts, value),
    match pathParts with
    | [policyName; subKey] =>
        if decide (subKey = "capability") then
          mkComponents (<[policyName := value]> (componentCapabilities components)) (componentFields components)
                       (componentOperators components) (componentValues components)
        else components
    | [policyName; subKey; index; componentType] =>
        if decide (subKey = "condition") then
          let conditionIndex := parseConditionIndex index in
          if (conditionIndex <? 0)%Z then components
          else storeConditionComponent components policyName conditionIndex componentType value
        else components
    | _ => components
    end) (mkComponents ∅ ∅ ∅ ∅) (factParts 4 facts ScanAuthPolicies).

Definition maxIndexOf (fieldMap : gmap Z string) : Z := foldr (λ '(i, _) maxIndex, Z.max i maxIndex) (-1)%Z (map_to_list fieldMap).

Definition assembleConditionsForPolicy (policyName : string) (components : policyConditionComponents) : list Condition :=
  let fieldMap := default ∅ (componentFields components !! policyName) in
  let operatorMap := default ∅ (componentOperators components !! policyName) in
  let valueMap := default ∅ (componentValues components !! policyName) in
  omap (λ conditionIndex,
    match fieldMap !! conditionIndex, operatorMap !! conditionIndex, valueMap !! conditionIndex with
    | Some fieldValue, Some operatorValue, Some valueStr => Some (mkCondition fieldValue operatorValue valueStr)
    | _, _, _ => None
    end) (seqZ 0 (maxIndexOf fieldMap + 1)).

(** Policies without conditions are left out. *)
Definition parseConditionalPoliciesFromFacts (facts : list Fact) : list ConditionalPolicy :=
  let components := collectPolicyConditionComponentsFromFacts facts in
  omap (λ policyName,
    let conditions := assembleConditionsForPolicy policyName components in
    if decide (conditions = []) then None
    else Some (mkConditional policyName (default "" (componentCapabilities components !! policyName)) conditions))
    (sort_strings (fst <$> map_range (componentCapabilities components))).

(** ** The cycle *)

Definition AuthController_Reconcile (facts : list Fact) (a : APIAuthorizer) : APIAuthorizer :=
  let roleCapabilities := parseRoleCapabilitiesFromFacts facts in
  let roleScopes := parseRoleScopesFromFacts facts in
  let groupMembers := parseGroupMembersFromFacts facts in
  let principalRoles := parsePrincipalRolesFromFacts facts groupMembers in
  ReplacePolicies (parseConditionalPoliciesFromFacts facts)
    (ReplaceGrants (buildCapabilityGrants principalRoles roleCapabilities roleScopes) a).

End controller.

(** * What the auth controller makes of the facts

    After a cycle the grants in force are exactly the ones the facts under
    "auth/" state, and every policy in force has a condition. *)

(** ** Facts *)

Definition stated (facts : list Fact) (key : string) : Prop := is_Some (values_of facts !! key).

Lemma factParts_elem n facts prefix parts v :
  facts_wf facts → prefix ≠ "" →
  (parts, v) ∈ factParts n facts prefix ↔
  ∃ rest, values_of facts !! (prefix +:+ rest) = Some v ∧ parts = SplitN slash n rest.
Proof.
  intros [Hs Hnd] Hp. unfold factParts. rewrite FactsWithPrefix_filter, list_elem_of_fmap by done. setoid_rewrite list_elem_of_filter. split.
  - intros (f & [= -> ->] & Hpre & Hf). apply HasPrefix_spec in Hpre as [rest E]. exists rest. rewrite E, TrimPrefix_app. split; [|done].
    apply values_of_lookup; [done|]. by exists f.
  - intros (rest & Hv & ->). apply values_of_lookup in Hv as (f & Hf & Ek & <-); [|done]. exists f.
    rewrite Ek, TrimPrefix_app. split_and!; [done|apply HasPrefix_app|done].
Qed.

(** ** Maps of lists *)

Definition inMap {A} (m : gmap string (list A)) (k : string) (x : A) : Prop := ∃ l, m !! k = Some l ∧ x ∈ l.

Lemma inMap_default {A} (m : gmap string (list A)) k x : x ∈ default [] (m !! k) ↔ inMap m k x.
Proof.
  unfold inMap. destruct (m !! k) as [l|]; simpl; [naive_solver|]. split; [by intros ?%elem_of_nil|]. by intros (? & [=] & _).
Qed.

Lemma append_inMap {A} (m : gmap string (list A)) k more k' x :
  inMap (<[k := default [] (m !! k) ++ more]> m) k' x ↔ (k' = k ∧ x ∈ more) ∨ inMap m k' x.
Proof.
  rewrite <-!inMap_default. destruct (decide (k' = k)) as [->|Hk].
  - rewrite lookup_insert_eq. simpl. rewrite elem_of_app. naive_solver.
  - rewrite lookup_insert_ne by done. naive_solver.
Qed.

Lemma inMap_empty {A} k (x : A) : ¬ inMap ∅ k x.
Proof. intros (l & [=] & _). Qed.

(** A loop that adds to a map of lists. *)
Lemma foldl_collect {X A} (f : gmap string (list A) → X → gmap string (list A)) (adds : X → string → A → Prop) l m k x :
  (∀ m y k x, inMap (f m y) k x ↔ adds y k x ∨ inMap m k x) →
  inMap (foldl f m l) k x ↔ (∃ y, y ∈ l ∧ adds y k x) ∨ inMap m k x.
Proof.
  intros Hf. revert m. induction l as [|y l IH]; intros m; simpl.
  - split; [by right|]. intros [(? & ?%elem_of_nil & _)|?]; done.
  - rewrite IH, Hf. setoid_rewrite elem_of_cons. naive_solver.
Qed.

(** The loops that split keys in three. *)
Lemma three_parts (g : gmap string (list string) → list string * string → gmap string (list string)) facts prefix field k x :
  facts_wf facts → prefix ≠ "" → noSlash field →
  (∀ m parts v k x, (length parts ≤ 3)%nat → inMap (g m (parts, v)) k x ↔ parts = [k; field; x] ∨ inMap m k x) →
  inMap (foldl g ∅ (factParts 3 facts prefix)) k x ↔ noSlash k ∧ stated facts (prefix +:+ k +:+ "/" +:+ field +:+ "/" +:+ x).
Proof.
  intros Hwf Hp Hfield Hg.
  assert (Hlen : ∀ p, p ∈ factParts 3 facts prefix → (length (fst p) ≤ 3)%nat).
  { intros [parts v] (rest & _ & ->)%factParts_elem; [|done..]. apply SplitN_3_length. }
  assert (Hfold : ∀ l m, (∀ p, p ∈ l → (length (fst p) ≤ 3)%nat) →
    inMap (foldl g m l) k x ↔ (∃ v, ([k; field; x], v) ∈ l) ∨ inMap m k x).
  { induction l as [|[parts v] l IH]; intros m Hl; simpl.
    - split; [by right|]. intros [[v ?%elem_of_nil]|?]; done.
    - rewrite IH by (intros; apply Hl; by apply list_elem_of_further).
      rewrite Hg by (apply (Hl (parts, v)); apply list_elem_of_here). setoid_rewrite elem_of_cons.
      split; [intros [[w ?]|[->|?]]; [left; by exists w; right|left; exists v; by left|by right]|].
      intros [[w [[= <- <-]|?]]|?]; [right; by left|left; by exists w|right; by right]. }
  rewrite Hfold by done. unfold stated. setoid_rewrite factParts_elem; [|done..]. split.
  - intros [(v & rest & Hv & E)|Hm]; [|by apply inMap_empty in Hm]. symmetry in E. apply SplitN_3 in E as (-> & Hk & _). split; [done|]. by exists v.
  - intros [Hk [v Hv]]. left. exists v, (k +:+ "/" +:+ field +:+ "/" +:+ x). split; [done|]. symmetry. by apply SplitN_3.
Qed.

(** A loop that collects one field. *)
Ltac collects :=
  apply three_parts; [done..|]; intros m parts v k x Hlen; destruct parts as [|a [|b [|c [|]]]]; try (naive_solver || (simpl in *; lia));
  case_decide as Hb; [subst; unfold appendTo; rewrite append_inMap, list_elem_of_singleton; naive_solver|naive_solver].

Section meaning.
Context `{GoMapRange} (facts : list Fact) (Hwf : facts_wf facts).

Definition roleCapability (role capability : string) : Prop :=
  noSlash role ∧ stated facts (ScanAuthRoles +:+ role +:+ "/" +:+ "capability" +:+ "/" +:+ capability).
Definition roleScope (role scope : string) : Prop :=
  noSlash role ∧ stated facts (ScanAuthRoles +:+ role +:+ "/" +:+ "scope" +:+ "/" +:+ scope).
Definition groupMember (group member : string) : Prop :=
  noSlash group ∧ stated facts (ScanAuthGroups +:+ group +:+ "/" +:+ "member" +:+ "/" +:+ member).

Lemma roleCapabilities_elem role capability :
  inMap (parseRoleCapabilitiesFromFacts facts) role capability ↔ roleCapability role capability.
Proof using Hwf.
  collects.
Qed.

Lemma roleScopes_elem role scope : inMap (parseRoleScopesFromFacts facts) role scope ↔ roleScope role scope.
Proof using Hwf.
  collects.
Qed.

Lemma groupMembers_elem group member : inMap (parseGroupMembersFromFacts facts) group member ↔ groupMember group member.
Proof using Hwf.
  collects.
Qed.

(** A role bound to a principal: directly, or to a group it is a member of. *)
Definition roleBound (principal role : string) : Prop :=
  (∃ kind name, kind ≠ "group" ∧ noSlash kind ∧ noSlash name ∧ principal = kind +:+ ":" +:+ name ∧
     stated facts (ScanAuthGrants +:+ kind +:+ "/" +:+ name +:+ "/" +:+ "role" +:+ "/" +:+ role)) ∨
  (∃ group member, groupMember group member ∧ principal = "user:" +:+ member ∧
     stated facts (ScanAuthGrants +:+ "group" +:+ "/" +:+ group +:+ "/" +:+ "role" +:+ "/" +:+ role)).

(** What one grant fact adds. *)
Definition grantAdds (members : gmap string (list string)) (part : list string * string) (principal role : string) : Prop :=
  ∃ kind name, fst part = [kind; name; "role"; role] ∧
    ((kind ≠ "group" ∧ principal = kind +:+ ":" +:+ name) ∨
     (kind = "group" ∧ ∃ member, inMap members name member ∧ principal = "user:" +:+ member)).

Lemma expandGroup_inMap l (m : gmap string (list string)) role k x :
  inMap (foldl (λ roles member, appendTo ("user:" +:+ member) role roles) m l) k x ↔
  (x = role ∧ ∃ member, member ∈ l ∧ k = "user:" +:+ member) ∨ inMap m k x.
Proof.
  rewrite (foldl_collect _ (λ member k x, x = role ∧ k = "user:" +:+ member)); [naive_solver|].
  intros m' member k' x'. unfold appendTo. rewrite append_inMap, list_elem_of_singleton. tauto.
Qed.

Lemma principalRoles_parts members principal role :
  inMap (parsePrincipalRolesFromFacts facts members) principal role ↔
  ∃ part, part ∈ factParts 4 facts ScanAuthGrants ∧ grantAdds members part principal role.
Proof.
  unfold parsePrincipalRolesFromFacts. rewrite (foldl_collect _ (grantAdds members)).
  { split; [intros [?|Hm]; [done|by apply inMap_empty in Hm]|by left]. }
  intros m [parts v] k x. unfold grantAdds. cbn [fst].
  destruct parts as [|kind [|name [|field [|r [|]]]]]; try naive_solver. case_decide as Hf; [subst|naive_solver].
  case_decide as Hk.
  - subst. rewrite expandGroup_inMap. setoid_rewrite inMap_default. naive_solver.
  - unfold appendTo. rewrite append_inMap, list_elem_of_singleton. naive_solver.
Qed.

Lemma principalRoles_elem principal role :
  inMap (parsePrincipalRolesFromFacts facts (parseGroupMembersFromFacts facts)) principal role ↔ roleBound principal role.
Proof using Hwf.
  rewrite principalRoles_parts. unfold grantAdds, roleBound, stated. split.
  - intros ([parts v] & (rest & Hv & ->)%factParts_elem & kind & name & E & Hcase); [|done..]. cbn [fst] in E.
    apply SplitN_4 in E as (-> & Hk & Hn & _). destruct Hcase as [[Hg ->]|(-> & member & Hm%groupMembers_elem & ->)].
    + left. exists kind, name. split_and!; [done..|]. by exists v.
    + right. exists name, member. split_and!; [done..|]. by exists v.
  - intros [(kind & name & Hg & Hk & Hn & -> & v & Hv)|(group & member & Hm & -> & v & Hv)].
    + exists ([kind; name; "role"; role], v). split; [|exists kind, name; split; [done|by left]].
      apply factParts_elem; [done..|]. eexists. split; [exact Hv|]. symmetry. by apply SplitN_4.
    + exists (["group"; group; "role"; role], v). split.
      * apply factParts_elem; [done..|]. eexists. split; [exact Hv|]. symmetry. apply SplitN_4. destruct Hm as [? _]. done.
      * exists "group", group. split; [done|right]. split; [done|]. exists member. by rewrite groupMembers_elem.
Qed.

(** The grants a role gives: its capabilities at its scopes, at cluster scope
    when it has none; a role without capabilities is a builtin one. *)
Definition roleGives (role : string) (grant : CapabilityGrant) : Prop :=
  ((∀ capability, ¬ roleCapability role capability) ∧ grant ∈ BuiltinRoleCapabilities role) ∨
  (roleCapability role (GrantCapability grant) ∧
   (roleScope role (GrantScope grant) ∨ ((∀ scope, ¬ roleScope role scope) ∧ GrantScope grant = ScopeCluster))).

Lemma roleGrants_elem role grant :
  grant ∈ roleGrants (parseRoleCapabilitiesFromFacts facts) (parseRoleScopesFromFacts facts) role ↔ roleGives role grant.
Proof using Hwf.
  unfold roleGrants, roleGives.
  assert (HC : ∀ c, roleCapability role c ↔ c ∈ default [] (parseRoleCapabilitiesFromFacts facts !! role)).
  { intros c. rewrite inMap_default. symmetry. apply roleCapabilities_elem. }
  assert (HS : ∀ c, roleScope role c ↔ c ∈ default [] (parseRoleScopesFromFacts facts !! role)).
  { intros c. rewrite inMap_default. symmetry. apply roleScopes_elem. }
  revert HC HS. generalize (roleCapability role) (roleScope role) (default [] (parseRoleCapabilitiesFromFacts facts !! role))
    (default [] (parseRoleScopesFromFacts facts !! role)). intros P Q caps scopes HC HS.
  destruct grant as [gc gs]. cbn [GrantCapability GrantScope].
  rewrite HC, HS. assert (Hnone : ∀ (R : string → Prop) l, (∀ c, R c ↔ c ∈ l) → (∀ c, ¬ R c) ↔ l = []).
  { intros R [|y l] HR; [split; [done|]; intros _ c; rewrite HR; apply not_elem_of_nil|].
    split; [|done]. intros Hno. destruct (Hno y). apply HR. apply list_elem_of_here. }
  rewrite (Hnone P caps HC), (Hnone Q scopes HS). clear Hnone HC HS P Q. destruct caps as [|cap caps].
  { rewrite elem_of_nil. naive_solver. }
  set (all := cap :: caps). assert (Hbind : ∀ l, mkGrant gc gs ∈ (capability ← all; mkGrant capability <$> l) ↔ gc ∈ all ∧ gs ∈ l).
  { intros l. rewrite list_elem_of_bind. split.
    - intros (c & (x & [= -> ->] & Hx)%list_elem_of_fmap & Hc). done.
    - intros [Hc Hx]. exists gc. split; [|done]. apply list_elem_of_fmap. by exists gs. }
  destruct scopes as [|scope scopes]; rewrite Hbind.
  - rewrite list_elem_of_singleton, elem_of_nil. split; [intros [? ->]; right; auto|]. intros [[[=] _]|[? [[]|[_ ?]]]]. done.
  - split; [intros [? ?]; right; auto|]. intros [[[=] _]|[? [?|[[=] _]]]]. done.
Qed.

Lemma buildGrants_elem principalRoles caps scopes principal grant :
  inMap (buildCapabilityGrants principalRoles caps scopes) principal grant ↔
  ∃ role, inMap principalRoles principal role ∧ grant ∈ roleGrants caps scopes role.
Proof.
  unfold buildCapabilityGrants.
  rewrite (foldl_collect _ (λ p k g, k = p ∧ ∃ role, role ∈ default [] (principalRoles !! p) ∧ g ∈ roleGrants caps scopes role)).
  - setoid_rewrite inMap_default. split.
    + intros [(p & _ & -> & role & Hr & Hg)|Hm]; [by exists role|by apply inMap_empty in Hm].
    + intros (role & Hr & Hg). left. exists principal. split; [|split; [done|by exists role]].
      unfold sort_strings. rewrite sort_stable_perm, list_elem_of_fmap. destruct Hr as (l & Hl & _).
      exists (principal, l). split; [done|]. by apply elem_of_map_range.
  - intros m p k g. rewrite (foldl_collect _ (λ role k g, k = p ∧ g ∈ roleGrants caps scopes role)); [naive_solver|].
    intros m' role k' g'. unfold appendGrants. apply append_inMap.
Qed.

(** After a cycle, the grants a principal holds are exactly the ones the facts
    state: some role is bound to it (directly, through a group, or by a wildcard
    principal) and gives the grant. So a role fact that is removed is revoked by
    the next cycle, and nothing else is granted. *)
Theorem AuthController_grants_as_stated a principal grant :
  holds (apiGrants (AuthController_Reconcile facts a)) principal grant ↔
  ∃ bound role, covers bound principal ∧ roleBound bound role ∧ roleGives role grant.
Proof using Hwf.
  unfold AuthController_Reconcile. simpl. unfold holds. split.
  - intros (bound & l & Hb & Hc & Hg). assert (Hm : inMap (buildCapabilityGrants
      (parsePrincipalRolesFromFacts facts (parseGroupMembersFromFacts facts)) (parseRoleCapabilitiesFromFacts facts)
      (parseRoleScopesFromFacts facts)) bound grant) by (by exists l).
    apply buildGrants_elem in Hm as (role & Hr%principalRoles_elem & Hgr%roleGrants_elem). eauto.
  - intros (bound & role & Hc & Hr%principalRoles_elem & Hg%roleGrants_elem).
    destruct (proj2 (buildGrants_elem _ _ _ bound grant) (ex_intro _ role (conj Hr Hg))) as (l & Hl & Hin). by exists bound, l.
Qed.

(** ** Policies *)

(** Every policy in force was named by a capability fact and has at least one
    condition, so a policy never lets every principal through. *)
Theorem AuthController_policies_conditional a policy :
  policy ∈ apiPolicies (AuthController_Reconcile facts a) →
  Conditions policy ≠ [] ∧
  ∀ principal resource, EvaluateConditions (Conditions policy) principal resource = true →
    ∃ condition, condition ∈ Conditions policy ∧ is_Some (resolveField (ConditionField condition) principal resource).
Proof.
  unfold AuthController_Reconcile. simpl. unfold parseConditionalPoliciesFromFacts. rewrite list_elem_of_omap.
  intros (name & _ & Hp). case_decide as Hne; [done|]. injection Hp as <-. simpl in *. split; [done|].
  intros principal resource Hev. unfold EvaluateConditions in Hev. rewrite forallb_forall in Hev.
  destruct (assembleConditionsForPolicy _ _) as [|condition l]; [done|]. exists condition. split; [apply list_elem_of_here|].
  specialize (Hev condition (or_introl eq_refl)). apply single_spec in Hev as (lv & r & Hl & _). by exists lv.
Qed.

End meaning.
