(* ===== verification/AuthorizedStore.v ===== *)
(** * The authorizing store (src/security/authorized_store.go)

    A wrapper that asks an authorizer before it passes a call on to the store,
    and records the decision. It is modelled over the in-memory store and over
    any authorizer; a call's context is the principal and the authentication
    method it carries. [None] is a panic of the inner store; [inl] is a refusal. *)

From S2P Require Import Prelude GoStrings GoFmt Trie EventHistory MemoryStore StoreInvariant StoreProps.
From S2P Require Import Authorizer Conditions APIAuthorizer.
Import MemStore.

(** ** What is recorded *)

Definition newline : ascii := ascii_of_nat 10.
Definition carriageReturn : ascii := ascii_of_nat 13.
Definition tab : ascii := ascii_of_nat 9.

(** [strings.NewReplacer("\n", "\\n", "\r", "\\r", "\t", "\\t")] *)
Fixpoint escapeControls (s : string) : string :=
  match s with
  | "" => ""
  | String c rest =>
      (if ascii_dec c newline then "\n" else if ascii_dec c carriageReturn then "\r"
       else if ascii_dec c tab then "\t" else String c "") +:+ escapeControls rest
  end.

(** [secretPathPattern.ReplaceAllString]: the pattern matches from the first
    "/secret/" to the end of a text without newlines. *)
Definition redactSecrets (s : string) : string :=
  match beforeFirst s "/secret/" with
  | Some before => before +:+ "/secret/[REDACTED]"
  | None => s
  end.

Definition sanitizeForAudit (input : string) : string := redactSecrets (escapeControls input).

(** ** The wrapper *)

Record Ctx := mkCtx { ctxPrincipal : string; ctxAuthMethod : string }.

Section authorized.
Context `{Authorizer A}.

Record AuthorizedStore := mkAuthorized {
  inner : MemoryStore;
  authorizer : A;
  auditLog : option (list AuditEntry);
  servicePrincipal : string
}.

Definition NewAuthorizedStore (store : MemoryStore) (a : A) (log : option (list AuditEntry)) : AuthorizedStore :=
  mkAuthorized store a log "".

Definition SetServicePrincipal (principal : string) (s : AuthorizedStore) : AuthorizedStore :=
  mkAuthorized (inner s) (authorizer s) (auditLog s) principal.

Definition authorizingPrincipal (s : AuthorizedStore) (ctx : Ctx) : string :=
  if decide (servicePrincipal s = "") then ctxPrincipal ctx else servicePrincipal s.

Definition onBehalfOf (s : AuthorizedStore) (ctx : Ctx) : string :=
  if decide (servicePrincipal s = "") then "" else sanitizeForAudit (ctxPrincipal ctx).

Definition logEntry (decision : string) (ctx : Ctx) (principal action target : string) (s : AuthorizedStore) : AuthorizedStore :=
  match auditLog s with
  | None => s
  | Some log =>
      mkAuthorized (inner s) (authorizer s)
        (Some (log ++ [mkAudit (sanitizeForAudit principal) (sanitizeForAudit action) (sanitizeForAudit target)
                               decision (ctxAuthMethod ctx) "" (onBehalfOf s ctx)]))
        (servicePrincipal s)
  end.

Definition logAllowed := logEntry AuditDecisionAllow.
Definition logDenied := logEntry AuditDecisionDeny.

Definition setInner (m : MemoryStore) (s : AuthorizedStore) : AuthorizedStore :=
  mkAuthorized m (authorizer s) (auditLog s) (servicePrincipal s).

(** The shape the guarded methods share: check, log, pass on. *)
Definition guarded {X} (permission action key : string) (ctx : Ctx) (run : MemoryStore → option (result X * MemoryStore))
    (s : AuthorizedStore) : option ((AuthError + result X) * AuthorizedStore) :=
  let principal := authorizingPrincipal s ctx in
  match Authorize (authorizer s) principal permission key with
  | Some err => Some (inl err, logDenied ctx principal action key s)
  | None =>
      let s1 := logAllowed ctx principal action key s in
      '(r, m) ← run (inner s1);
      Some (inr r, setInner m s1)
  end.

Definition keeping {X} (read : MemoryStore → option (result X)) (m : MemoryStore) : option (result X * MemoryStore) :=
  (λ r, (r, m)) <$> read m.

Definition AuthorizedGet (ctx : Ctx) (key : string) (s : AuthorizedStore) :=
  guarded PermissionRead "get" key ctx (keeping (λ m, Some (Get key m))) s.

Definition AuthorizedPut (ctx : Ctx) (key value : string) (s : AuthorizedStore) :=
  guarded PermissionWrite "put" key ctx (Put key value) s.

Definition AuthorizedDelete (ctx : Ctx) (key : string) (s : AuthorizedStore) :=
  guarded PermissionDelete "delete" key ctx (Delete key) s.

Definition AuthorizedScan (ctx : Ctx) (prefix : string) (s : AuthorizedStore) :=
  guarded PermissionRead "scan" prefix ctx (keeping (Scan prefix)) s.

Definition AuthorizedScanWithRevision (ctx : Ctx) (prefix : string) (s : AuthorizedStore) :=
  guarded PermissionRead "scan" prefix ctx (keeping (ScanWithRevision prefix)) s.

Definition AuthorizedWatch (ctx : Ctx) (key : string) (opts : WatchOption) (s : AuthorizedStore) :=
  guarded PermissionWatch "watch" key ctx (Watch key opts) s.

Definition opPermission (operation : Op) : string :=
  match OpTyp operation with OpDelete => PermissionDelete | OpPut => PermissionWrite end.

(** The three loops of [Transaction]: the first refusal, with the key and the
    action it is logged under. *)
Fixpoint firstRefusal (principal : string) (a : A) (checks : list (string * string * string)) : option (AuthError * string * string) :=
  match checks with
  | [] => None
  | (action, permission, key) :: rest =>
      match Authorize a principal permission key with
      | Some err => Some (err, action, key)
      | None => firstRefusal principal a rest
      end
  end.

Definition transactionChecks (compares : list Compare) (onSuccess onFailure : list Op) : list (string * string * string) :=
  ((λ c, ("transaction-compare", PermissionRead, CmpKey c)) <$> compares) ++
  ((λ o, ("transaction-op", opPermission o, OpKey o)) <$> onSuccess) ++
  ((λ o, ("transaction-op", opPermission o, OpKey o)) <$> onFailure).

Definition AuthorizedTransaction (ctx : Ctx) (compares : list Compare) (onSuccess onFailure : list Op) (s : AuthorizedStore)
    : option ((AuthError + result bool) * AuthorizedStore) :=
  let principal := authorizingPrincipal s ctx in
  match firstRefusal principal (authorizer s) (transactionChecks compares onSuccess onFailure) with
  | Some (err, action, key) => Some (inl err, logDenied ctx principal action key s)
  | None =>
      let totalOperations := (length onSuccess + length onFailure)%nat in
      let s1 := logAllowed ctx principal "transaction" (Itoa (Z.of_nat totalOperations) +:+ " ops") s in
      '(r, m) ← Transaction compares onSuccess onFailure (inner s1);
      Some (inr r, setInner m s1)
  end.

(** The methods that pass the call on. *)
Definition AuthorizedRevision (s : AuthorizedStore) : result Z := RevisionOf (inner s).

Definition AuthorizedGrantLease (s : AuthorizedStore) : Z * AuthorizedStore :=
  let '(lease, m) := GrantLease (inner s) in (lease, setInner m s).

Definition AuthorizedPutWithLease (ctx : Ctx) (key value : string) (leaseID : Z) (s : AuthorizedStore)
    : option (result Z * AuthorizedStore) :=
  '(r, m) ← PutWithLease key value leaseID (inner s); Some (r, setInner m s).

Definition AuthorizedRenewLease (leaseID : Z) (s : AuthorizedStore) : Z := RenewLease leaseID (inner s).
Definition AuthorizedRevokeLease (leaseID : Z) (s : AuthorizedStore) : AuthorizedStore := setInner (RevokeLease leaseID (inner s)) s.
Definition AuthorizedClose (s : AuthorizedStore) : option AuthorizedStore := (λ m, setInner m s) <$> Close (inner s).

End authorized.

Arguments AuthorizedStore : clear implicits.
