(* ===== verification/AuthorizedStoreProps.v ===== *)
(** * What the authorizing store guarantees

    First the authorizing store over any authorizer, then as the API server sets it up. *)

From S2P Require Import Prelude GoStrings GoFmt Trie EventHistory MemoryStore StoreInvariant StoreProps Authorizer Conditions.
From S2P Require Import APIAuthorizer AuthorizedStore.

(** * What the authorizing store guarantees

    Facts are only returned to principals that may read them, keys only change
    by calls whose principal may write or delete them, every decision is
    recorded, and records do not reveal what follows "/secret/". Writing with a
    lease is the exception: it is passed on unchecked. *)

Import MemStore.

(** ** What the inner store's writes leave alone *)

Lemma Put_frame key value s r s' k : store_inv s → Put key value s = Some (r, s') → k ≠ key → facts s' !! k = facts s !! k.
Proof.
  intros Hs E Hk. unfold Put in E. destruct (isClosed s); [by simplify_eq|].
  destruct (Put_locked key value s) as [[rev s1] evs] eqn:El. pose proof (Put_locked_ok _ _ _ _ _ _ (inv_data _ Hs) El) as Hw.
  destruct (write_broadcast _ _ _ Hs Hw) as (s2 & Eb & _ & _ & (Ef & _)). rewrite Eb in E. simplify_eq/=. rewrite Ef.
  destruct (Put_locked_cases key value s) as [(f & Hf & Hv & Ep)|[_ Ep]]; rewrite Ep in El; simplify_eq; [done|].
  simpl. by rewrite lookup_insert_ne.
Qed.

Lemma Delete_frame key s r s' k : store_inv s → Delete key s = Some (r, s') → k ≠ key → facts s' !! k = facts s !! k.
Proof.
  intros Hs E Hk. unfold Delete in E. destruct (isClosed s); [by simplify_eq|].
  destruct (Delete_locked key s) as [[r1 s1] evs] eqn:El. pose proof (Delete_locked_ok _ _ _ _ _ (inv_data _ Hs) El) as Hw.
  destruct (write_broadcast _ _ _ Hs Hw) as (s2 & Eb & _ & _ & (Ef & _)). rewrite Eb in E. simplify_eq/=. rewrite Ef.
  unfold Delete_locked, deleteFact in El. destruct (facts s !! key); simplify_eq; [|done]. simpl. by rewrite lookup_delete_ne.
Qed.

Lemma apply_ops_untouched ops m k : k ∉ OpKey <$> ops → apply_ops ops m !! k = m !! k.
Proof.
  unfold apply_ops. revert m. induction ops as [|op ops IH]; intros m; [done|]. rewrite fmap_cons. intros [Hk Hops]%not_elem_of_cons. simpl.
  rewrite IH by done. unfold apply_op. destruct (OpTyp op); [by rewrite lookup_insert_ne|by rewrite lookup_delete_ne].
Qed.

Lemma Transaction_frame compares a b s r s' k :
  store_inv s → Transaction compares a b s = Some (r, s') → k ∉ OpKey <$> (a ++ b) → values s' !! k = values s !! k.
Proof.
  intros Hs E Hk. unfold Transaction in E. destruct (isClosed s); [by simplify_eq|]. case_match; [by simplify_eq|].
  destruct (Transaction_locked compares a b s) as [[met s1] evs] eqn:El.
  pose proof (Transaction_locked_ok _ _ _ _ _ _ _ (inv_data _ Hs) El) as Hw.
  destruct (Transaction_locked_spec _ _ _ _ _ _ _ (inv_data _ Hs) El) as (_ & Hv & _).
  destruct (write_broadcast _ _ _ Hs Hw) as (s2 & Eb & _ & _ & (Ef & _)). rewrite Eb in E. simplify_eq/=.
  unfold values in *. rewrite Ef, Hv. rewrite fmap_app, not_elem_of_app in Hk. destruct met; apply apply_ops_untouched; tauto.
Qed.

Lemma Watch_frame key opts s r s' : Watch key opts s = Some (r, s') → facts s' = facts s.
Proof. unfold Watch. intros E. repeat case_match; try (by simplify_eq). destruct (replayHistory _ _ _ _); by simplify_eq/=. Qed.

(** ** Calls *)

Section props.
Context `{Authorizer A}.

(** The calls of the interface that are checked. *)
Inductive request :=
| ReqGet (key : string)
| ReqPut (key value : string)
| ReqDelete (key : string)
| ReqScan (prefix : string)
| ReqScanWithRevision (prefix : string)
| ReqWatch (key : string) (opts : WatchOption)
| ReqTransaction (compares : list Compare) (onSuccess onFailure : list Op).

(** The state a call leaves, and whether it was refused. *)
Definition serve (ctx : Ctx) (r : request) (s : AuthorizedStore A) : option (bool * AuthorizedStore A) :=
  let outcome {X} (o : option ((AuthError + result X) * AuthorizedStore A)) :=
    (λ '(x, s'), (match x with inl _ => false | inr _ => true end, s')) <$> o in
  match r with
  | ReqGet key => outcome (AuthorizedGet ctx key s)
  | ReqPut key value => outcome (AuthorizedPut ctx key value s)
  | ReqDelete key => outcome (AuthorizedDelete ctx key s)
  | ReqScan prefix => outcome (AuthorizedScan ctx prefix s)
  | ReqScanWithRevision prefix => outcome (AuthorizedScanWithRevision ctx prefix s)
  | ReqWatch key opts => outcome (AuthorizedWatch ctx key opts s)
  | ReqTransaction compares a b => outcome (AuthorizedTransaction ctx compares a b s)
  end.

Lemma logEntry_inner decision ctx principal action target (s : AuthorizedStore A) :
  inner (logEntry decision ctx principal action target s) = inner s ∧
  authorizer (logEntry decision ctx principal action target s) = authorizer s.
Proof. unfold logEntry. by destruct (auditLog s). Qed.

Lemma guarded_spec {X} permission action key ctx (run : MemoryStore → option (result X * MemoryStore)) (s : AuthorizedStore A) :
  match Authorize (authorizer s) (authorizingPrincipal s ctx) permission key with
  | Some err => guarded permission action key ctx run s =
      Some (inl err, logDenied ctx (authorizingPrincipal s ctx) action key s)
  | None => guarded permission action key ctx run s =
      '(r, m) ← run (inner s); Some (inr r, setInner m (logAllowed ctx (authorizingPrincipal s ctx) action key s))
  end.
Proof. unfold guarded. destruct (Authorize _ _ _ _); [done|]. unfold logAllowed. by rewrite (proj1 (logEntry_inner _ _ _ _ _ _)). Qed.

Lemma firstRefusal_None principal (a : A) checks :
  firstRefusal principal a checks = None ↔
  ∀ action permission key, (action, permission, key) ∈ checks → Authorize a principal permission key = None.
Proof.
  induction checks as [|[[action permission] key] rest IH]; simpl.
  { split; [|done]. intros _ ? ? ? ?%elem_of_nil. done. }
  destruct (Authorize a principal permission key) eqn:E.
  - split; [done|]. intros Hall. rewrite (Hall action permission key) in E; [done|apply list_elem_of_here].
  - rewrite IH. setoid_rewrite elem_of_cons. naive_solver.
Qed.

(** ** Reads *)

Lemma serve_reads `{!PrefixAuthorizer A} ctx (s : AuthorizedStore A) :
  store_inv (inner s) →
  let may key := Authorize (authorizer s) (authorizingPrincipal s ctx) PermissionRead key = None in
  (∀ key f s', AuthorizedGet ctx key s = Some (inr (Ok f), s') → may (Key f)) ∧
  (∀ prefix l s', AuthorizedScan ctx prefix s = Some (inr (Ok l), s') → ∀ f, f ∈ l → may (Key f)) ∧
  (∀ prefix l rev s', AuthorizedScanWithRevision ctx prefix s = Some (inr (Ok (l, rev)), s') → ∀ f, f ∈ l → may (Key f)).
Proof.
  intros Hs may.
  assert (Hscan : ∀ prefix l, Authorize (authorizer s) (authorizingPrincipal s ctx) PermissionRead prefix = None →
    collectFactPointers prefix (inner s) = Some l → ∀ f, f ∈ l → may (Key f)).
  { intros prefix l Ha El f Hf. destruct (collectFactPointers_ok prefix (inner s) (inv_data _ Hs)) as (l' & El' & _ & Hl).
    rewrite El in El'. simplify_eq. apply Hl in Hf as (_ & Hp & _). by apply (authorize_below _ _ _ prefix). }
  split_and!.
  - intros key f s' E. unfold AuthorizedGet in E.
    pose proof (guarded_spec PermissionRead "get" key ctx (keeping (λ m, Some (Get key m))) s) as Hg.
    destruct (Authorize _ _ _ _) eqn:Ea; rewrite Hg in E; [done|]. unfold keeping, Get in E. simpl in E.
    destruct (isClosed (inner s)); [done|]. destruct (facts (inner s) !! key) as [g|] eqn:Ef; [|done]. simplify_eq/=.
    unfold may. by rewrite (data_key _ (inv_data _ Hs) _ _ Ef).
  - intros prefix l s' E f Hf. unfold AuthorizedScan in E.
    pose proof (guarded_spec PermissionRead "scan" prefix ctx (keeping (Scan prefix)) s) as Hg.
    destruct (Authorize _ _ _ _) eqn:Ea; rewrite Hg in E; [done|]. unfold keeping, Scan in E.
    destruct (isClosed (inner s)); [done|]. destruct (collectFactPointers prefix (inner s)) as [l'|] eqn:El; [|done].
    simplify_eq/=. by apply (Hscan prefix l).
  - intros prefix l rev s' E f Hf. unfold AuthorizedScanWithRevision in E.
    pose proof (guarded_spec PermissionRead "scan" prefix ctx (keeping (ScanWithRevision prefix)) s) as Hg.
    destruct (Authorize _ _ _ _) eqn:Ea; rewrite Hg in E; [done|]. unfold keeping, ScanWithRevision in E.
    destruct (isClosed (inner s)); [done|]. destruct (collectFactPointers prefix (inner s)) as [l'|] eqn:El; [|done].
    simplify_eq/=. by apply (Hscan prefix l).
Qed.

(** C16: Whatever a read returns, the caller may read: the fact of a [Get], and every
    single fact of a scan, since permission on a prefix extends to the keys
    below it. *)
Theorem AuthorizedStore_reads_authorized `{!PrefixAuthorizer A} ctx (s : AuthorizedStore A) :
  store_inv (inner s) →
  let may key := Authorize (authorizer s) (authorizingPrincipal s ctx) PermissionRead key = None in
  (∀ key f s', AuthorizedGet ctx key s = Some (inr (Ok f), s') → may (Key f)) ∧
  (∀ prefix l s', AuthorizedScan ctx prefix s = Some (inr (Ok l), s') → ∀ f, f ∈ l → may (Key f)) ∧
  (∀ prefix l rev s', AuthorizedScanWithRevision ctx prefix s = Some (inr (Ok (l, rev)), s') → ∀ f, f ∈ l → may (Key f)).
Proof. apply serve_reads. Qed.

(** The fact a [Get] returns is the one asked for. *)
Lemma get_key ctx key f (s s' : AuthorizedStore A) :
  store_inv (inner s) → AuthorizedGet ctx key s = Some (inr (Ok f), s') → Key f = key.
Proof.
  intros Hs E. unfold AuthorizedGet in E.
  pose proof (guarded_spec PermissionRead "get" key ctx (keeping (λ m, Some (Get key m))) s) as Hg.
  destruct (Authorize _ _ _ _); rewrite Hg in E; [done|]. unfold keeping, Get in E. simpl in E.
  destruct (isClosed (inner s)); [done|]. destruct (facts (inner s) !! key) as [g|] eqn:Ef; [|done]. simplify_eq/=.
  by apply (data_key _ (inv_data _ Hs)).
Qed.

(** ** Writes *)

(** A guarded call either is refused and leaves the inner store alone, or is
    authorized and runs. *)
Lemma guarded_outcome {X} permission action key ctx (run : MemoryStore → option (result X * MemoryStore)) (s : AuthorizedStore A) ok s' :
  (λ '(x, s'), (match x with inl _ => false | inr _ => true end, s')) <$> guarded permission action key ctx run s = Some (ok, s') →
  (ok = false ∧ inner s' = inner s ∧ s' = logDenied ctx (authorizingPrincipal s ctx) action key s) ∨
  (ok = true ∧ Authorize (authorizer s) (authorizingPrincipal s ctx) permission key = None ∧
   ∃ r m, run (inner s) = Some (r, m) ∧ s' = setInner m (logAllowed ctx (authorizingPrincipal s ctx) action key s)).
Proof.
  pose proof (guarded_spec permission action key ctx run s) as Hg. destruct (Authorize _ _ _ _) eqn:Ea; rewrite Hg; intros E.
  - left. injection E as <- <-. split_and!; [done|apply logEntry_inner|done].
  - right. destruct (run (inner s)) as [[r m]|] eqn:Er; [|done]. simplify_eq/=. split_and!; [done..|]. by exists r, m.
Qed.

Lemma transaction_outcome ctx compares a b (s : AuthorizedStore A) ok s' :
  serve ctx (ReqTransaction compares a b) s = Some (ok, s') →
  (ok = false ∧ inner s' = inner s ∧ ∃ action key, s' = logDenied ctx (authorizingPrincipal s ctx) action key s) ∨
  (ok = true ∧ (∀ o, o ∈ a ++ b → Authorize (authorizer s) (authorizingPrincipal s ctx) (opPermission o) (OpKey o) = None) ∧
   ∃ r m target, Transaction compares a b (inner s) = Some (r, m) ∧
     s' = setInner m (logAllowed ctx (authorizingPrincipal s ctx) "transaction" target s)).
Proof.
  simpl. unfold AuthorizedTransaction. destruct (firstRefusal _ _ _) as [[[err action] key]|] eqn:Ef; intros E.
  - left. simplify_eq/=. split_and!; [done|apply logEntry_inner|by do 2 eexists].
  - right. unfold logAllowed in *. rewrite (proj1 (logEntry_inner _ _ _ _ _ s)) in E.
    destruct (Transaction compares a b (inner s)) as [[r m]|] eqn:Et; [|done]. simplify_eq/=. split_and!; [done| |by do 3 eexists].
    intros o Ho. rewrite firstRefusal_None in Ef. apply (Ef "transaction-op"). unfold transactionChecks. rewrite !elem_of_app.
    apply elem_of_app in Ho as [Ho|Ho]; right; [left|right]; apply list_elem_of_fmap; by exists o.
Qed.

Lemma serve_writes ctx r (s s' : AuthorizedStore A) ok :
  store_inv (inner s) → serve ctx r s = Some (ok, s') →
  (ok = false → inner s' = inner s) ∧
  ∀ key, values (inner s') !! key ≠ values (inner s) !! key →
    Authorize (authorizer s) (authorizingPrincipal s ctx) PermissionWrite key = None ∨
    Authorize (authorizer s) (authorizingPrincipal s ctx) PermissionDelete key = None.
Proof.
  intros Hs E.
  assert (Hread : ∀ X (read : MemoryStore → option (result X)) rr m, keeping read (inner s) = Some (rr, m) → m = inner s).
  { intros X read rr m Ek. unfold keeping in Ek. destruct (read (inner s)); by simplify_eq/=. }
  assert (Hsame : inner s' = inner s → (ok = false → inner s' = inner s) ∧ ∀ key, values (inner s') !! key ≠ values (inner s) !! key →
    Authorize (authorizer s) (authorizingPrincipal s ctx) PermissionWrite key = None ∨
    Authorize (authorizer s) (authorizingPrincipal s ctx) PermissionDelete key = None).
  { intros Ei. split; [done|]. intros key Hne. by rewrite Ei in Hne. }
  destruct r as [key|key value|key|prefix|prefix|key opts|compares a b]; try
    (apply guarded_outcome in E as [(_ & Ei & _)|(-> & Ha & rr & m & Er & ->)]; [by apply Hsame|]).
  - apply Hsame. simpl. by eapply Hread.
  - split; [done|]. intros k Hne. left. destruct (decide (k = key)) as [->|Hk]; [done|]. destruct Hne. simpl. unfold values.
    rewrite !lookup_fmap. by rewrite (Put_frame _ _ _ _ _ k Hs Er Hk).
  - split; [done|]. intros k Hne. right. destruct (decide (k = key)) as [->|Hk]; [done|]. destruct Hne. simpl. unfold values.
    rewrite !lookup_fmap. by rewrite (Delete_frame _ _ _ _ k Hs Er Hk).
  - apply Hsame. simpl. by eapply Hread.
  - apply Hsame. simpl. by eapply Hread.
  - split; [done|]. intros k Hne. destruct Hne. simpl. unfold values. by rewrite (Watch_frame _ _ _ _ _ Er).
  - apply transaction_outcome in E as [(_ & Ei & _)|(-> & Ha & rr & m & target & Er & ->)]; [by apply Hsame|].
    split; [done|]. intros k Hne. simpl in Hne. destruct (decide (k ∈ OpKey <$> (a ++ b))) as [(o & -> & Ho)%list_elem_of_fmap|Hno].
    + specialize (Ha o Ho). unfold opPermission in Ha. destruct (OpTyp o); [by left|by right].
    + destruct Hne. by eapply Transaction_frame.
Qed.

(** C5: A checked call changes the value of a key only if its principal may write
    the key or delete it; a refused call leaves the store as it was. *)
Theorem AuthorizedStore_writes_authorized ctx r (s s' : AuthorizedStore A) ok :
  store_inv (inner s) → serve ctx r s = Some (ok, s') →
  (ok = false → inner s' = inner s) ∧
  ∀ key, values (inner s') !! key ≠ values (inner s) !! key →
    Authorize (authorizer s) (authorizingPrincipal s ctx) PermissionWrite key = None ∨
    Authorize (authorizer s) (authorizingPrincipal s ctx) PermissionDelete key = None.
Proof. apply serve_writes. Qed.

(** Every checked call records exactly one entry, an "allow" if it was passed
    on and a "deny" if it was refused, in the name of the authorizing principal. *)
Theorem AuthorizedStore_audits ctx r (s s' : AuthorizedStore A) ok log :
  auditLog s = Some log → serve ctx r s = Some (ok, s') →
  ∃ entry, auditLog s' = Some (log ++ [entry]) ∧
    AuditDecision entry = (if ok then AuditDecisionAllow else AuditDecisionDeny) ∧
    AuditPrincipal entry = sanitizeForAudit (authorizingPrincipal s ctx) ∧ AuditOnBehalfOf entry = onBehalfOf s ctx.
Proof.
  intros Hlog E.
  assert (Hentry : ∀ decision principal action target,
    ∃ entry, auditLog (logEntry decision ctx principal action target s) = Some (log ++ [entry]) ∧
      AuditDecision entry = decision ∧ AuditPrincipal entry = sanitizeForAudit principal ∧ AuditOnBehalfOf entry = onBehalfOf s ctx).
  { intros. unfold logEntry. rewrite Hlog. by eexists. }
  destruct r as [key|key value|key|prefix|prefix|key opts|compares a b].
  1-6: apply guarded_outcome in E as [(-> & _ & ->)|(-> & _ & rr & m & _ & ->)]; apply Hentry.
  apply transaction_outcome in E as [(-> & _ & action & key & ->)|(-> & _ & rr & m & target & _ & ->)]; apply Hentry.
Qed.

(** Writing with a lease is not checked: whatever the authorizer says of the
    principal, the value is written, and nothing is recorded. *)
Theorem PutWithLease_unchecked ctx key value leaseID (s : AuthorizedStore A) :
  store_inv (inner s) → isClosed (inner s) = false →
  (∀ principal permission k, Authorize (authorizer s) principal permission k ≠ None) →
  ∃ rev s', AuthorizedPutWithLease ctx key value leaseID s = Some (Ok rev, s') ∧
    values (inner s') !! key = Some value ∧ auditLog s' = auditLog s.
Proof.
  intros Hs Hc _. unfold AuthorizedPutWithLease, PutWithLease, Put. rewrite Hc.
  destruct (Put_locked key value (inner s)) as [[rev s1] evs] eqn:El. pose proof (Put_locked_ok _ _ _ _ _ _ (inv_data _ Hs) El) as Hw.
  destruct (write_broadcast _ _ _ Hs Hw) as (s2 & -> & _ & _ & (Ef & _)). simpl. exists rev, (setInner s2 s). split_and!; [done| |done].
  simpl. unfold values. rewrite lookup_fmap, Ef.
  destruct (Put_locked_cases key value (inner s)) as [(f & Hf & Hv & Ep)|[_ Ep]]; rewrite Ep in El; simplify_eq.
  - by rewrite Hf.
  - simpl. by rewrite lookup_insert_eq.
Qed.

End props.

(** ** Records *)

Lemma escapeControls_app s t : escapeControls (s +:+ t) = escapeControls s +:+ escapeControls t.
Proof.
  induction s as [|c s IH]; [done|]. rewrite str_app_cons. cbn [escapeControls]. by rewrite IH, str_app_assoc.
Qed.

Lemma HasPrefix_enough x u t : (String.length t ≤ String.length x)%nat → HasPrefix (x +:+ u) t = HasPrefix x t.
Proof.
  revert x. induction t as [|c t IH]; intros x Hl; [by rewrite !HasPrefix_nil|]. destruct x as [|d x]; [simpl in Hl; lia|].
  rewrite str_app_cons. apply eq_true_iff_eq. rewrite !HasPrefix_cons. simpl in Hl.
  split; intros (r & [= -> <-] & Hp); eexists; (split; [done|]); rewrite IH in * by lia; done.
Qed.

(** The first occurrence does not depend on what follows one. *)
Lemma beforeFirst_occurs s t u v :
  beforeFirst (s +:+ t +:+ u) t = beforeFirst (s +:+ t +:+ v) t ∧ is_Some (beforeFirst (s +:+ t +:+ u) t).
Proof.
  assert (Hat : ∀ s w, HasPrefix (s +:+ t +:+ w) t = HasPrefix (s +:+ t) t).
  { intros s0 w. rewrite <-str_app_assoc. apply HasPrefix_enough. rewrite str_length_app. lia. }
  assert (Hunfold : ∀ x, beforeFirst x t = if HasPrefix x t then Some "" else match x with "" => None | String c x' => String c <$> beforeFirst x' t end)
    by (by intros []).
  induction s as [|c s [IH1 IH2]]; rewrite !(Hunfold (_ +:+ _ +:+ _)), !Hat.
  - rewrite str_app_nil_l, HasPrefix_refl. by split; [|eexists].
  - destruct (HasPrefix (String c s +:+ t) t); [by split; [|eexists]|]. rewrite !str_app_cons, <-IH1. split; [done|].
    destruct IH2 as [b ->]. by eexists.
Qed.

Lemma beforeFirst_sub s t b c : beforeFirst s t = Some b → ContainsByte s c = false → ContainsByte b c = false.
Proof.
  revert b. induction s as [|d s IH]; intros b; cbn [beforeFirst]; destruct (HasPrefix _ t); try (by intros [= <-]).
  destruct (beforeFirst s t) as [b'|]; [|done]. simpl. intros [= <-]. simpl. destruct (ascii_dec d c); [done|]. by apply IH.
Qed.

Lemma escapeControls_quiet s c : c ∈ [newline; carriageReturn; tab] → ContainsByte (escapeControls s) c = false.
Proof.
  intros Hc. induction s as [|d s IH]; [done|]. cbn [escapeControls]. rewrite ContainsByte_app, IH, orb_false_r.
  assert (Hout : ∀ x, x ∈ ["\n"; "\r"; "\t"] → ContainsByte x c = false).
  { intros x Hx. rewrite !elem_of_cons, elem_of_nil in Hc. rewrite !elem_of_cons, elem_of_nil in Hx.
    destruct Hc as [->|[->|[->|[]]]], Hx as [->|[->|[->|[]]]]; reflexivity. }
  repeat case_match; try (apply Hout; set_solver). simpl. destruct (ascii_dec d c) as [->|]; [|done]. set_solver.
Qed.

(** What is recorded of a text with "/secret/" in it does not depend on what
    follows: names under a secret path never reach the audit log. And no record
    contains a newline, a carriage return or a tab, so a record cannot forge
    another. *)
Theorem sanitizeForAudit_redacts before x y input c :
  sanitizeForAudit (before +:+ "/secret/" +:+ x) = sanitizeForAudit (before +:+ "/secret/" +:+ y) ∧
  (c ∈ [newline; carriageReturn; tab] → ContainsByte (sanitizeForAudit input) c = false).
Proof.
  unfold sanitizeForAudit, redactSecrets. split.
  - rewrite !escapeControls_app. change (escapeControls "/secret/") with "/secret/".
    destruct (beforeFirst_occurs (escapeControls before) "/secret/" (escapeControls x) (escapeControls y)) as [<- [b ->]]. done.
  - intros Hc. pose proof (escapeControls_quiet input c Hc) as Hq. destruct (beforeFirst _ _) as [b|] eqn:E; [|done].
    rewrite ContainsByte_app, (beforeFirst_sub _ _ _ _ E Hq). simpl.
    rewrite !elem_of_cons, elem_of_nil in Hc. destruct Hc as [->|[->|[->|[]]]]; reflexivity.
Qed.

(** * The API server's store

    The authorizing store as the server sets it up ([initializeAuthorizationLayer]
    of src/cmd/cca/command_server.go): every call is checked as the API server,
    whose role has no rule for the protected areas. *)

Import MemStore.

Section server.
Context `{GoMapRange}.

Definition serverStore (store : MemoryStore) (log : list AuditEntry) : AuthorizedStore RBACAuthorizer :=
  SetServicePrincipal APIServerPrincipal (NewAuthorizedStore store initialRBAC (Some log)).

Definition setAuthorizer (a : RBACAuthorizer) (s : AuthorizedStore RBACAuthorizer) : AuthorizedStore RBACAuthorizer :=
  mkAuthorized (inner s) a (auditLog s) (servicePrincipal s).

(** Requests of any caller, interleaved with changes of bindings. *)
Inductive server_step : AuthorizedStore RBACAuthorizer → AuthorizedStore RBACAuthorizer → Prop :=
| server_request ctx r ok s s' : serve ctx r s = Some (ok, s') → server_step s s'
| server_rebind s a : rbac_step (authorizer s) a → server_step s (setAuthorizer a s).

Record server_inv (s : AuthorizedStore RBACAuthorizer) : Prop := {
  server_store : store_inv (inner s);
  server_authorizer : rtc rbac_step initialRBAC (authorizer s);
  server_principal : servicePrincipal s = APIServerPrincipal
}.

Lemma serve_keeps ctx r (s s' : AuthorizedStore RBACAuthorizer) ok :
  store_inv (inner s) → serve ctx r s = Some (ok, s') →
  store_inv (inner s') ∧ authorizer s' = authorizer s ∧ servicePrincipal s' = servicePrincipal s.
Proof.
  intros Hs E.
  assert (Hlog : ∀ decision principal action target, let s1 := logEntry decision ctx principal action target s in
    inner s1 = inner s ∧ authorizer s1 = authorizer s ∧ servicePrincipal s1 = servicePrincipal s).
  { intros. subst s1. unfold logEntry. by destruct (auditLog s). }
  assert (Hden : ∀ principal action target, s' = logDenied ctx principal action target s →
    store_inv (inner s') ∧ authorizer s' = authorizer s ∧ servicePrincipal s' = servicePrincipal s).
  { intros principal action target ->. unfold logDenied. destruct (Hlog AuditDecisionDeny principal action target) as (-> & -> & ->). done. }
  assert (Hok : ∀ m principal action target, store_inv m → s' = setInner m (logAllowed ctx principal action target s) →
    store_inv (inner s') ∧ authorizer s' = authorizer s ∧ servicePrincipal s' = servicePrincipal s).
  { intros m principal action target Hm ->. unfold logAllowed. simpl. destruct (Hlog AuditDecisionAllow principal action target) as (_ & -> & ->). done. }
  assert (Hread : ∀ X (read : MemoryStore → option (result X)) rr m, keeping read (inner s) = Some (rr, m) → store_inv m).
  { intros X read rr m Ek. unfold keeping in Ek. destruct (read (inner s)); by simplify_eq/=. }
  destruct r as [key|key value|key|prefix|prefix|key opts|compares a b]; try
    (apply guarded_outcome in E as [(_ & _ & Ed)|(_ & _ & rr & m & Er & Ea)]; [by eapply Hden|]; eapply Hok; [|exact Ea]).
  - by eapply Hread.
  - destruct (Put_ok key value (inner s) Hs) as (? & ? & E' & ? & _). rewrite Er in E'. by simplify_eq.
  - destruct (Delete_ok key (inner s) Hs) as (? & ? & E' & ? & _). rewrite Er in E'. by simplify_eq.
  - by eapply Hread.
  - by eapply Hread.
  - destruct (Watch_ok key opts (inner s) Hs) as (? & ? & E' & ? & _). rewrite Er in E'. by simplify_eq.
  - apply transaction_outcome in E as [(_ & _ & action & key & Ed)|(_ & _ & rr & m & target & Er & Ea)]; [by eapply Hden|].
    eapply Hok; [|exact Ea]. destruct (Transaction_ok compares a b (inner s) Hs) as (? & ? & E' & ? & _). rewrite Er in E'. by simplify_eq.
Qed.

Lemma server_step_inv s s' : server_step s s' → server_inv s → server_inv s'.
Proof.
  destruct 1 as [ctx r ok s s' E|s a Hstep]; intros [Hs Ha Hp].
  - destruct (serve_keeps _ _ _ _ _ Hs E) as (H1 & H2 & H3). split; [done|by rewrite H2|by rewrite H3].
  - split; [done|by eapply rtc_r|done].
Qed.

Lemma server_step_protected s s' area key :
  server_inv s → server_step s s' → area ∈ protectedAreas → HasPrefix key area = true →
  values (inner s') !! key = values (inner s) !! key.
Proof.
  intros [Hs Ha Hp] Hstep Harea Hk. destruct Hstep as [ctx r ok s s' E|s a Hstep]; [|done].
  destruct (decide (values (inner s') !! key = values (inner s) !! key)) as [|Hne]; [done|].
  assert (Hprin : authorizingPrincipal s ctx = APIServerPrincipal) by (unfold authorizingPrincipal; by rewrite Hp).
  destruct (serve_writes ctx r s s' ok Hs E) as [_ Hw]. destruct (Hw key Hne) as [Hden|Hden]; rewrite Hprin in Hden;
    by apply (api_server_refused (authorizer s) area _ key) in Hden.
Qed.


End server.
