(* ===== verification/SecurityExamples.v ===== *)
(** * Authorization on concrete inputs *)

From S2P Require Import Prelude GoStrings GoFmt Trie EventHistory MemoryStore StoreInvariant StoreProps.
From S2P Require Import Keys PrefixSearch ControllerHelpers Authorizer Conditions APIAuthorizer.
From S2P Require Import AuthController AuthorizedStore AuthorizedStoreProps.
Import MemStore.

(** ** The API layer *)

Definition alice : Principal := mkPrincipal "user" "alice" [] [].

Definition teamReader : APIAuthorizer := Grant "user:*" CapabilityWorkloadRead "team/payments" NewAPIAuthorizer.

Lemma AuthorizeAPI_scope_monotone_witness :
  fst (AuthorizeAPI (H := reference_range) alice CapabilityWorkloadRead "team/payments/db" None teamReader) = None.
Proof.
  apply (AuthorizeAPI_scope_monotone (H := reference_range) alice CapabilityWorkloadRead "team/payments" "team/payments/db" None teamReader);
    vm_compute; reflexivity.
Defined.

Lemma GrantedScopes_agree_witness :
  fst (AuthorizeAPI (H := reference_range) alice CapabilityWorkloadRead "team/payments" None teamReader) = None.
Proof.
  apply (GrantedScopes_agree (H := reference_range) teamReader alice CapabilityWorkloadRead "team/payments" None); [reflexivity|].
  exists "team/payments". split; [vm_compute; left|vm_compute; reflexivity].
Defined.

Lemma bootstrap_admin_survives_witness :
  fst (AuthorizeAPI (H := reference_range) alice CapabilitySecretWrite ScopeCluster None
         (ReplacePolicies [] (ReplaceGrants ∅ (GrantRole "user:alice" "cluster-admin" NewAPIAuthorizer)))) = None.
Proof.
  apply (bootstrap_admin_survives (H := reference_range) alice CapabilitySecretWrite ScopeCluster None NewAPIAuthorizer).
  - discriminate.
  - eapply rtc_l; [apply (step_replace_grants (H := reference_range) _ ∅)|].
    eapply rtc_l; [apply (step_replace_policies (H := reference_range) _ [])|]. apply rtc_refl.
Defined.

Definition writer : APIAuthorizer := GrantRole "user:alice" "cluster-admin" NewAPIAuthorizer.

Lemma FactAuthorize_least_privilege_witness :
  fst (FactAuthorize (H := reference_range) "user:alice" PermissionWrite "auth/role/r" writer) = None ∧
  PermissionWrite = "write".
Proof.
  assert (E : fst (FactAuthorize (H := reference_range) "user:alice" PermissionWrite "auth/role/r" writer) = None) by (vm_compute; reflexivity).
  split; [exact E|]. exact (proj1 (FactAuthorize_least_privilege (H := reference_range) "user:alice" PermissionWrite "auth/role/r" writer E)).
Defined.

(** ** The auth controller *)

Definition authFact (k v : string) : Fact := mkFact k v 1 1 0.

Definition authFacts : list Fact :=
  [authFact "auth/grant/group/dev/role/deployer" ""; authFact "auth/group/dev/member/alice" "";
   authFact "auth/policy/isolate/capability" "workload.update"; authFact "auth/policy/isolate/condition/0/field" "subject.team";
   authFact "auth/policy/isolate/condition/0/operator" "=="; authFact "auth/policy/isolate/condition/0/value" "resource.team";
   authFact "auth/role/deployer/capability/workload.create" ""; authFact "auth/role/deployer/scope/team/payments" ""].

Lemma authFacts_wf : facts_wf authFacts.
Proof. apply sorted_facts_wf. vm_compute. reflexivity. Qed.

Lemma AuthController_grants_as_stated_witness :
  ∃ bound role, covers bound "user:alice" ∧ roleBound authFacts bound role ∧
    roleGives authFacts role (mkGrant "workload.create" "team/payments").
Proof.
  apply (AuthController_grants_as_stated (H := reference_range) authFacts authFacts_wf NewAPIAuthorizer "user:alice").
  exists "user:alice", [mkGrant "workload.create" "team/payments"]. split; [vm_compute; reflexivity|]. split; [left; reflexivity|left].
Defined.

Lemma AuthController_policies_conditional_witness :
  [mkCondition "subject.team" "==" "resource.team"] ≠ [].
Proof.
  set (policy := mkConditional "isolate" "workload.update" [mkCondition "subject.team" "==" "resource.team"]).
  apply (AuthController_policies_conditional (H := reference_range) authFacts NewAPIAuthorizer policy). vm_compute. left.
Defined.

(** ** The authorizing store *)

Definition secureOps : list storeOp := [DoPut "desired/service/web" "v1"; DoPut "secrets/db" "k"].
Definition secureStore : MemoryStore := default NewMemoryStore (exec_all secureOps (SetWatchChannelBufferSize 2 NewMemoryStore)).

Lemma secureStore_inv : store_inv secureStore.
Proof. apply reachable_inv. exists 2%nat, secureOps. vm_compute. reflexivity. Qed.

Definition server : AuthorizedStore RBACAuthorizer := serverStore secureStore [].
Definition request0 : Ctx := mkCtx "user:alice" "oidc".

Lemma AuthorizedStore_reads_authorized_witness :
  RBAC_Authorize (H := reference_range) initialRBAC APIServerPrincipal PermissionRead "desired/service/web" = None.
Proof.
  destruct (AuthorizedStore_reads_authorized (A := RBACAuthorizer) (H := RBACIsAuthorizer (H := reference_range))
              (PrefixAuthorizer0 := RBAC_below (H := reference_range)) request0 server secureStore_inv) as (Hget & _).
  eapply (Hget "desired/service/web" (mkFact "desired/service/web" "v1" 1 1 0)). vm_compute. reflexivity.
Defined.

Lemma AuthorizedStore_writes_authorized_witness :
  ∃ s', serve (H := RBACIsAuthorizer (H := reference_range)) request0 (ReqPut "secrets/db" "stolen") server = Some (false, s') ∧
    inner s' = secureStore.
Proof.
  eexists. split; [vm_compute; reflexivity|].
  apply (AuthorizedStore_writes_authorized (H := RBACIsAuthorizer (H := reference_range)) request0 (ReqPut "secrets/db" "stolen") server _ false
           secureStore_inv); [vm_compute; reflexivity|reflexivity].
Defined.

Lemma AuthorizedStore_audits_witness :
  ∃ s' entry, serve (H := RBACIsAuthorizer (H := reference_range)) request0 (ReqPut "secrets/db" "stolen") server = Some (false, s') ∧
    auditLog s' = Some ([] ++ [entry]) ∧ AuditDecision entry = "deny".
Proof.
  destruct (serve (H := RBACIsAuthorizer (H := reference_range)) request0 (ReqPut "secrets/db" "stolen") server) as [[ok s']|] eqn:E;
    [|vm_compute in E; discriminate E].
  destruct (AuthorizedStore_audits (H := RBACIsAuthorizer (H := reference_range)) request0 (ReqPut "secrets/db" "stolen") server s' ok []
              eq_refl E) as (entry & H1 & H2 & _).
  assert (ok = false) as -> by (vm_compute in E; congruence). exists s', entry. split; [reflexivity|]. split; [exact H1|exact H2].
Defined.

(** An authorizer that refuses everything. *)
#[local] Instance refuseAll : Authorizer unit := {| Authorize _ principal operation key := Some (RbacDenied principal operation key) |}.

Lemma PutWithLease_unchecked_witness :
  ∃ rev s', AuthorizedPutWithLease request0 "secrets/db" "stolen" 0 (NewAuthorizedStore secureStore tt (Some [])) = Some (Ok rev, s') ∧
    values (inner s') !! "secrets/db" = Some "stolen" ∧ auditLog s' = Some [].
Proof.
  apply (PutWithLease_unchecked (H := refuseAll) request0 "secrets/db" "stolen" 0 (NewAuthorizedStore secureStore tt (Some [])));
    [exact secureStore_inv|vm_compute; reflexivity|]. intros principal permission k. discriminate.
Defined.


Lemma sanitizeForAudit_redacts_witness :
  sanitizeForAudit ("desired/service/web" +:+ "/secret/" +:+ "db") = "desired/service/web/secret/[REDACTED]".
Proof.
  rewrite (proj1 (sanitizeForAudit_redacts "desired/service/web" "db" "" "" tab)). vm_compute. reflexivity.
Defined.
