(* ===== verification/CircuitBreaker.v ===== *)
(** * Circuit breaking (src/network/circuit_breaker.go)

    Three states per backend. The clock's reading is an argument of the methods
    that call [timeNow], in nanoseconds; [Sub] saturates at the width of a
    [time.Duration]. Counters have the width of an [int]. Every method holds the
    mutex, so a call is one step. *)

From S2P Require Import Prelude.

Local Open Scope Z_scope.

Inductive CircuitState := CircuitClosed | CircuitOpen | CircuitHalfOpen.

#[export] Instance CircuitState_eq_dec : EqDecision CircuitState.
Proof. solve_decision. Defined.

Definition defaultFailureThreshold : Z := 5.
Definition defaultSuccessThreshold : Z := 2.
Definition defaultHalfOpenMaxInflight : Z := 1.

Record circuitBreakerConfig := mkConfig {
  failureThreshold : Z;
  successThreshold : Z;
  openDuration : Z;
  halfOpenMaxRequests : Z
}.

Definition second : Z := 1000000000.

Definition defaultCircuitBreakerConfig : circuitBreakerConfig :=
  mkConfig defaultFailureThreshold defaultSuccessThreshold (10 * second) defaultHalfOpenMaxInflight.

Record backendCircuit := mkCircuit {
  circuitState : CircuitState;
  consecutiveFailures : Z;
  consecutiveSuccesses : Z;
  lastFailureTime : Z;
  halfOpenInFlight : Z
}.

Record CircuitBreaker := mkBreaker { config : circuitBreakerConfig; circuits : gmap string backendCircuit }.

Definition NewCircuitBreaker : CircuitBreaker := mkBreaker defaultCircuitBreakerConfig ∅.

Definition setCircuit (backendAddress : string) (circuit : backendCircuit) (cb : CircuitBreaker) : CircuitBreaker :=
  mkBreaker (config cb) (<[backendAddress := circuit]> (circuits cb)).

(** [now.Sub(t)] *)
Definition durationSub (now t : Z) : Z := Z.max int64_min (Z.min int64_max (now - t)).

Definition AllowRequest (backendAddress : string) (now : Z) (cb : CircuitBreaker) : bool * CircuitBreaker :=
  match circuits cb !! backendAddress with
  | None => (true, cb)
  | Some circuit =>
      match circuitState circuit with
      | CircuitClosed => (true, cb)
      | CircuitOpen =>
          if openDuration (config cb) <=? durationSub now (lastFailureTime circuit)
          then (true, setCircuit backendAddress
                        (mkCircuit CircuitHalfOpen (consecutiveFailures circuit) 0 (lastFailureTime circuit) 1) cb)
          else (false, cb)
      | CircuitHalfOpen =>
          if halfOpenInFlight circuit <? halfOpenMaxRequests (config cb)
          then (true, setCircuit backendAddress
                        (mkCircuit CircuitHalfOpen (consecutiveFailures circuit) (consecutiveSuccesses circuit)
                           (lastFailureTime circuit) (halfOpenInFlight circuit +! 1)%go) cb)
          else (false, cb)
      end
  end.

Definition RecordSuccess (backendAddress : string) (cb : CircuitBreaker) : CircuitBreaker :=
  match circuits cb !! backendAddress with
  | None => cb
  | Some circuit =>
      setCircuit backendAddress
        match circuitState circuit with
        | CircuitHalfOpen =>
            let successes := (consecutiveSuccesses circuit +! 1)%go in
            let inFlight := (halfOpenInFlight circuit -! 1)%go in
            if successThreshold (config cb) <=? successes
            then mkCircuit CircuitClosed 0 0 (lastFailureTime circuit) inFlight
            else mkCircuit CircuitHalfOpen 0 successes (lastFailureTime circuit) inFlight
        | CircuitClosed => mkCircuit CircuitClosed 0 0 (lastFailureTime circuit) (halfOpenInFlight circuit)
        | CircuitOpen => mkCircuit CircuitOpen 0 (consecutiveSuccesses circuit) (lastFailureTime circuit) (halfOpenInFlight circuit)
        end cb
  end.

Definition newCircuit : backendCircuit := mkCircuit CircuitClosed 0 0 0 0.

Definition RecordFailure (backendAddress : string) (now : Z) (cb : CircuitBreaker) : CircuitBreaker :=
  let circuit := default newCircuit (circuits cb !! backendAddress) in
  let failures := (consecutiveFailures circuit +! 1)%go in
  setCircuit backendAddress
    match circuitState circuit with
    | CircuitClosed =>
        mkCircuit (if failureThreshold (config cb) <=? failures then CircuitOpen else CircuitClosed)
          failures 0 now (halfOpenInFlight circuit)
    | CircuitHalfOpen => mkCircuit CircuitOpen failures 0 now (halfOpenInFlight circuit -! 1)%go
    | CircuitOpen => mkCircuit CircuitOpen failures 0 now (halfOpenInFlight circuit)
    end cb.

Definition StateOf (backendAddress : string) (now : Z) (cb : CircuitBreaker) : CircuitState :=
  match circuits cb !! backendAddress with
  | None => CircuitClosed
  | Some circuit =>
      if decide (circuitState circuit = CircuitOpen ∧ openDuration (config cb) ≤ durationSub now (lastFailureTime circuit))
      then CircuitHalfOpen else circuitState circuit
  end.

Definition Reset (cb : CircuitBreaker) : CircuitBreaker := mkBreaker (config cb) ∅.

(** ** Runs *)

Inductive breakerEvent :=
| EvAllow (backend : string) (now : Z)
| EvSuccess (backend : string)
| EvFailure (backend : string) (now : Z)
| EvReset.

Definition breakerStep (cb : CircuitBreaker) (e : breakerEvent) : CircuitBreaker :=
  match e with
  | EvAllow backend now => snd (AllowRequest backend now cb)
  | EvSuccess backend => RecordSuccess backend cb
  | EvFailure backend now => RecordFailure backend now cb
  | EvReset => Reset cb
  end.

Definition breakerRun (evs : list breakerEvent) (cb : CircuitBreaker) : CircuitBreaker := foldl breakerStep cb evs.

(** The failures of a backend since its last success (or the last reset). *)
Definition failureStreak (backend : string) (evs : list breakerEvent) : nat :=
  foldl (λ n e, match e with
                | EvFailure b _ => if decide (b = backend) then S n else n
                | EvSuccess b => if decide (b = backend) then 0%nat else n
                | EvReset => 0%nat
                | EvAllow _ _ => n
                end) 0%nat evs.

(** ** Invariant *)

Record config_ok (cfg : circuitBreakerConfig) : Prop := {
  config_failures : 1 ≤ failureThreshold cfg ≤ int64_max;
  config_successes : 1 ≤ successThreshold cfg ≤ int64_max;
  config_inflight : 1 ≤ halfOpenMaxRequests cfg ≤ int64_max;
  config_duration : 0 ≤ openDuration cfg ≤ int64_max
}.

(** What holds of a backend's circuit: while closed it has not seen its fill of
    failures; while half-open it has not seen its fill of successes, and its
    probes are within the limit. *)
Definition circuit_inv (cfg : circuitBreakerConfig) (c : backendCircuit) : Prop :=
  match circuitState c with
  | CircuitClosed => 0 ≤ consecutiveFailures c < failureThreshold cfg
  | CircuitOpen => True
  | CircuitHalfOpen => 0 ≤ consecutiveSuccesses c < successThreshold cfg ∧
                       1 - consecutiveSuccesses c ≤ halfOpenInFlight c ≤ halfOpenMaxRequests cfg
  end.

Definition breaker_inv (cb : CircuitBreaker) : Prop :=
  config_ok (config cb) ∧ map_Forall (λ _ c, circuit_inv (config cb) c) (circuits cb).

Lemma setCircuit_inv a c cb : breaker_inv cb → circuit_inv (config cb) c → breaker_inv (setCircuit a c cb).
Proof. intros [Hok Hall] Hc. split; [done|]. by apply map_Forall_insert_2. Qed.

Lemma breakerStep_inv e cb : breaker_inv cb → breaker_inv (breakerStep cb e).
Proof.
  intros Hinv. pose proof Hinv as [[[Hf1 Hf2] [Hs1 Hs2] [Hm1 Hm2] _] Hall]. unfold int64_max in *. destruct e as [a now|a|a now|]; simpl.
  - unfold AllowRequest. destruct (circuits cb !! a) as [c|] eqn:Ec; [|done]. specialize (Hall a c Ec). unfold circuit_inv in Hall.
    destruct (circuitState c) eqn:Es; [done|..].
    + case_match; [|done]. apply setCircuit_inv; [done|]. unfold circuit_inv. simpl. lia.
    + destruct (Z.ltb_spec (halfOpenInFlight c) (halfOpenMaxRequests (config cb))); [|done]. apply setCircuit_inv; [done|].
      unfold circuit_inv. simpl. rewrite wrap64_id; unfold in_int64, int64_min, int64_max; lia.
  - unfold RecordSuccess. destruct (circuits cb !! a) as [c|] eqn:Ec; [|done]. specialize (Hall a c Ec). unfold circuit_inv in Hall.
    apply setCircuit_inv; [done|]. unfold circuit_inv. destruct (circuitState c) eqn:Es; simpl; [lia|done|].
    rewrite (wrap64_id (consecutiveSuccesses c + 1)) by (unfold in_int64, int64_min, int64_max; lia).
    destruct (Z.leb_spec (successThreshold (config cb)) (consecutiveSuccesses c + 1)); simpl; [lia|].
    rewrite wrap64_id; unfold in_int64, int64_min, int64_max; lia.
  - unfold RecordFailure. apply setCircuit_inv; [done|].
    assert (Hc : circuit_inv (config cb) (default newCircuit (circuits cb !! a))).
    { destruct (circuits cb !! a) as [c|] eqn:Ec; [by apply (Hall a)|]. unfold circuit_inv. simpl. lia. }
    unfold circuit_inv in *. destruct (circuitState (default newCircuit (circuits cb !! a))) eqn:Es; simpl; [|done|done].
    rewrite wrap64_id in * by (unfold in_int64, int64_min, int64_max; lia).
    destruct (Z.leb_spec (failureThreshold (config cb)) (consecutiveFailures (default newCircuit (circuits cb !! a)) + 1)); [done|lia].
  - split; [by destruct Hinv|apply map_Forall_empty].
Qed.

Lemma breakerRun_inv evs cb : breaker_inv cb → breaker_inv (breakerRun evs cb).
Proof. unfold breakerRun. revert cb. induction evs as [|e evs IH]; intros cb Hcb; simpl; [done|]. by apply IH, breakerStep_inv. Qed.

Lemma NewCircuitBreaker_inv : breaker_inv NewCircuitBreaker.
Proof. split; [|apply map_Forall_empty]. split; vm_compute; split; discriminate. Qed.

(** ** Opening *)

Lemma breakerRun_app evs1 evs2 cb : breakerRun (evs1 ++ evs2) cb = breakerRun evs2 (breakerRun evs1 cb).
Proof. apply foldl_app. Qed.

Lemma failureStreak_snoc a evs e :
  failureStreak a (evs ++ [e]) =
  match e with
  | EvFailure b _ => if decide (b = a) then S (failureStreak a evs) else failureStreak a evs
  | EvSuccess b => if decide (b = a) then 0%nat else failureStreak a evs
  | EvReset => 0%nat
  | EvAllow _ _ => failureStreak a evs
  end.
Proof. unfold failureStreak. rewrite foldl_app. done. Qed.

Lemma config_step e cb : config (breakerStep cb e) = config cb.
Proof.
  destruct e; simpl; [|unfold RecordSuccess; by destruct (circuits cb !! _)|done|done].
  unfold AllowRequest. destruct (circuits cb !! _) as [c|]; [|done]. destruct (circuitState c); repeat case_match; done.
Qed.

(** Events of one backend do not touch the circuit of another. *)
Definition eventBackend (e : breakerEvent) : option string :=
  match e with EvAllow b _ => Some b | EvSuccess b => Some b | EvFailure b _ => Some b | EvReset => None end.

Lemma breakerStep_other e cb b a : eventBackend e = Some b → b ≠ a → circuits (breakerStep cb e) !! a = circuits cb !! a.
Proof.
  destruct e; simpl; intros E Hb; simplify_eq.
  - unfold AllowRequest. destruct (circuits cb !! b) as [c|]; [|done]. destruct (circuitState c); repeat case_match; simpl; rewrite ?lookup_insert_ne; done.
  - unfold RecordSuccess. destruct (circuits cb !! b); simpl; rewrite ?lookup_insert_ne; done.
  - unfold RecordFailure. simpl. by rewrite lookup_insert_ne.
Qed.

(** A closed circuit has counted its streak. *)
Definition counted (a : string) (n : nat) (cb : CircuitBreaker) : Prop :=
  match circuits cb !! a with
  | None => n = 0%nat
  | Some c => circuitState c = CircuitClosed → consecutiveFailures c = Z.of_nat n
  end.

Lemma counted_run cfg a evs :
  config_ok cfg → counted a (failureStreak a evs) (breakerRun evs (mkBreaker cfg ∅)).
Proof.
  intros Hok. induction evs as [|e evs IH] using rev_ind; [done|]. rewrite failureStreak_snoc, breakerRun_app. simpl.
  assert (Hinv : breaker_inv (breakerRun evs (mkBreaker cfg ∅))) by (apply breakerRun_inv; split; [done|apply map_Forall_empty]).
  set (cb := breakerRun evs (mkBreaker cfg ∅)) in *. destruct Hinv as [[Hth _ _ _] Hall]. unfold counted in *.
  destruct (eventBackend e) as [b|] eqn:Eb; [|by destruct e]. destruct (decide (b = a)) as [->|Hb].
  - destruct e as [|b|b now|]; simplify_eq/=; rewrite ?decide_True by done.
    + unfold AllowRequest. destruct (circuits cb !! a) as [c|] eqn:Ec; simpl; [|by rewrite Ec].
      destruct (circuitState c) eqn:Es; [|destruct (_ <=? _)|destruct (_ <? _)]; simpl; rewrite ?lookup_insert_eq, ?Ec;
        first [done|intros; by apply IH|intros; congruence].
    + unfold RecordSuccess. destruct (circuits cb !! a) as [c|] eqn:Ec; simpl; [|by rewrite Ec]. rewrite lookup_insert_eq.
      destruct (circuitState c); [done|done|by destruct (_ <=? _)].
    + unfold RecordFailure. simpl. rewrite lookup_insert_eq.
      destruct (circuits cb !! a) as [c|] eqn:Ec; simpl; [|intros _; by rewrite IH].
      specialize (Hall a c Ec). unfold circuit_inv in Hall. destruct (circuitState c) eqn:Es; simpl; [|done|done].
      intros _. assert (E : consecutiveFailures c = Z.of_nat (failureStreak a evs)) by (by apply IH).
      rewrite wrap64_id by (unfold in_int64, int64_min, int64_max in *; lia). lia.
  - rewrite (breakerStep_other e cb b a Eb Hb). destruct e; simplify_eq/=; rewrite ?decide_False by done; done.
Qed.

Lemma config_run evs cb : config (breakerRun evs cb) = config cb.
Proof. unfold breakerRun. revert cb. induction evs as [|e evs IH]; intros cb; simpl; [done|]. by rewrite IH, config_step. Qed.

(** In every run, for every backend: a closed circuit (or none yet) has seen
    fewer consecutive failures than the threshold, and the next failure opens it
    exactly when it completes the threshold; a half-open circuit never has more
    probes in flight than allowed; and what happens to other backends does not
    touch it. *)
Theorem breaker_opens_at_threshold cfg evs backend now :
  config_ok cfg →
  let cb := breakerRun evs (mkBreaker cfg ∅) in
  let circuit := default newCircuit (circuits cb !! backend) in
  (circuitState circuit = CircuitClosed →
   Z.of_nat (failureStreak backend evs) < failureThreshold cfg ∧
   (circuitState (default newCircuit (circuits (RecordFailure backend now cb) !! backend)) = CircuitOpen ↔
    Z.of_nat (failureStreak backend evs) + 1 = failureThreshold cfg)) ∧
  (circuitState circuit = CircuitHalfOpen → halfOpenInFlight circuit ≤ halfOpenMaxRequests cfg) ∧
  (∀ e b, eventBackend e = Some b → b ≠ backend → circuits (breakerStep cb e) !! backend = circuits cb !! backend).
Proof.
  intros Hok cb circuit. pose proof (counted_run cfg backend evs Hok) as Hcnt. fold cb in Hcnt. unfold counted in Hcnt.
  assert (Hinv : breaker_inv cb) by (apply breakerRun_inv; split; [done|apply map_Forall_empty]).
  assert (Hcfg : config cb = cfg) by apply config_run. destruct Hinv as [_ Hall]. rewrite Hcfg in Hall.
  pose proof (config_failures _ Hok) as Hth.
  assert (Hc : circuit_inv cfg circuit).
  { unfold circuit. destruct (circuits cb !! backend) as [c|] eqn:E; [by apply (Hall backend)|]. unfold circuit_inv. simpl. lia. }
  assert (Hcount : circuitState circuit = CircuitClosed → consecutiveFailures circuit = Z.of_nat (failureStreak backend evs)).
  { unfold circuit. destruct (circuits cb !! backend) as [c|]; simpl; [done|]. intros _. by rewrite Hcnt. }
  unfold circuit_inv in Hc. split_and!.
  - intros Hcl. specialize (Hcount Hcl). rewrite Hcl in Hc. split; [lia|]. unfold RecordFailure. simpl. rewrite lookup_insert_eq. simpl.
    fold circuit. rewrite Hcl, Hcfg, Hcount. simpl. rewrite wrap64_id by (unfold in_int64, int64_min, int64_max in *; lia).
    destruct (Z.leb_spec (failureThreshold cfg) (Z.of_nat (failureStreak backend evs) + 1)); (split; [intros; try done; lia|intros; try done; lia]).
  - intros Hh. rewrite Hh in Hc. lia.
  - intros e b. apply breakerStep_other.
Qed.

(** ** Recovering *)

(** Rounds of one admitted probe and its success. *)
Fixpoint probeRounds (n : nat) (backend : string) (now : Z) (cb : CircuitBreaker) : list bool * CircuitBreaker :=
  match n with
  | 0%nat => ([], cb)
  | S n' =>
      let '(allowed, cb1) := AllowRequest backend now cb in
      let '(rest, cb2) := probeRounds n' backend now (RecordSuccess backend cb1) in
      (allowed :: rest, cb2)
  end.

Lemma probeRounds_half_open n backend now cb c :
  config_ok (config cb) → circuits cb !! backend = Some c → circuitState c = CircuitHalfOpen →
  halfOpenInFlight c = 0 → 0 ≤ consecutiveSuccesses c → (0 < n)%nat →
  consecutiveSuccesses c + Z.of_nat n = successThreshold (config cb) →
  ∃ cb' c', probeRounds n backend now cb = (replicate n true, cb') ∧ circuits cb' !! backend = Some c' ∧
    circuitState c' = CircuitClosed ∧ consecutiveFailures c' = 0.
Proof.
  revert cb c. induction n as [|n IH]; intros cb c Hok Hl Hs Hf Hsc Hn Hsum; [lia|]. simpl.
  pose proof (config_inflight _ Hok) as Hm. pose proof (config_successes _ Hok) as Hst. unfold int64_max in *.
  unfold AllowRequest. rewrite Hl, Hs, Hf. destruct (Z.ltb_spec 0 (halfOpenMaxRequests (config cb))); [|lia].
  unfold RecordSuccess. simpl. rewrite lookup_insert_eq. simpl.
  rewrite (wrap64_id (consecutiveSuccesses c + 1)) by (unfold in_int64, int64_min, int64_max; lia).
  change (wrap64 (wrap64 1 - 1)) with 0. change (wrap64 (0 + 1)) with 1. change (wrap64 (1 - 1)) with 0.
  destruct (Z.leb_spec (successThreshold (config cb)) (consecutiveSuccesses c + 1)).
  - assert (n = 0)%nat as -> by lia. simpl. do 2 eexists. split_and!; [done|simpl; by rewrite lookup_insert_eq|done|done].
  - destruct (IH (setCircuit backend (mkCircuit CircuitHalfOpen 0 (consecutiveSuccesses c + 1) (lastFailureTime c) 0)
      (setCircuit backend (mkCircuit CircuitHalfOpen (consecutiveFailures c) (consecutiveSuccesses c) (lastFailureTime c) 1) cb))
      (mkCircuit CircuitHalfOpen 0 (consecutiveSuccesses c + 1) (lastFailureTime c) 0)) as (cb' & c' & -> & H1 & H2 & H3); simpl; try done; try lia.
    { by rewrite lookup_insert_eq. }
    by exists cb', c'.
Qed.

(** An open circuit refuses every request until the open duration has passed
    since its last failure. From then on it admits a probe; and as many probes
    in turn as the threshold asks for, all successful, close it. *)
Theorem breaker_recovers cb backend c now :
  config_ok (config cb) → circuits cb !! backend = Some c → circuitState c = CircuitOpen →
  in_int64 (now - lastFailureTime c) →
  (now - lastFailureTime c < openDuration (config cb) →
   AllowRequest backend now cb = (false, cb) ∧ StateOf backend now cb = CircuitOpen) ∧
  (openDuration (config cb) ≤ now - lastFailureTime c →
   StateOf backend now cb = CircuitHalfOpen ∧
   let rounds := Z.to_nat (successThreshold (config cb)) in
   ∃ cb' c', probeRounds rounds backend now cb = (replicate rounds true, cb') ∧
     circuits cb' !! backend = Some c' ∧ circuitState c' = CircuitClosed ∧ consecutiveFailures c' = 0).
Proof.
  intros Hok Hl Hs Hin. pose proof (config_successes _ Hok) as Hst.
  assert (Hd : durationSub now (lastFailureTime c) = now - lastFailureTime c) by (unfold durationSub, in_int64 in *; lia).
  unfold StateOf. rewrite Hl, Hs, Hd. split.
  - intros Hlt. rewrite decide_False by lia. unfold AllowRequest. rewrite Hl, Hs, Hd.
    destruct (Z.leb_spec (openDuration (config cb)) (now - lastFailureTime c)); [lia|done].
  - intros Hle. rewrite decide_True by done. split; [done|]. cbv zeta. set (rounds := Z.to_nat (successThreshold (config cb))).
    destruct rounds as [|n] eqn:En; [unfold rounds in En; lia|]. simpl.
    unfold AllowRequest. rewrite Hl, Hs, Hd. destruct (Z.leb_spec (openDuration (config cb)) (now - lastFailureTime c)); [|lia].
    unfold RecordSuccess. simpl. rewrite lookup_insert_eq. simpl. change (wrap64 (0 + 1)) with 1. change (wrap64 (1 - 1)) with 0.
    unfold rounds in En. destruct (Z.leb_spec (successThreshold (config cb)) 1).
    + assert (n = 0)%nat as -> by lia. simpl. do 2 eexists. split_and!; [done|simpl; by rewrite lookup_insert_eq|done|done].
    + destruct (probeRounds_half_open n backend now
        (setCircuit backend (mkCircuit CircuitHalfOpen 0 1 (lastFailureTime c) 0)
          (setCircuit backend (mkCircuit CircuitHalfOpen (consecutiveFailures c) 0 (lastFailureTime c) 1) cb))
        (mkCircuit CircuitHalfOpen 0 1 (lastFailureTime c) 0)) as (cb' & c' & -> & H1 & H2 & H3); simpl; try done; try lia.
      { by rewrite lookup_insert_eq. }
      by exists cb', c'.
Qed.

(** ** Concrete runs *)

Definition fiveFailures : list breakerEvent := replicate 5 (EvFailure "10.0.0.1:80" 0).

Lemma default_config_ok : config_ok defaultCircuitBreakerConfig.
Proof. split; vm_compute; split; discriminate. Qed.

Lemma breaker_opens_at_threshold_witness :
  let evs := replicate 4 (EvFailure "10.0.0.1:80" 0) in
  Z.of_nat (failureStreak "10.0.0.1:80" evs) < 5 ∧
  circuitState (default newCircuit (circuits (RecordFailure "10.0.0.1:80" 1 (breakerRun evs NewCircuitBreaker)) !! "10.0.0.1:80")) = CircuitOpen.
Proof.
  destruct (breaker_opens_at_threshold defaultCircuitBreakerConfig (replicate 4 (EvFailure "10.0.0.1:80" 0)) "10.0.0.1:80" 1 default_config_ok)
    as (Hclosed & _). destruct Hclosed as [H1 H2]; [vm_compute; reflexivity|]. split; [exact H1|]. apply H2. vm_compute. reflexivity.
Defined.

Lemma breaker_recovers_witness :
  let cb := breakerRun fiveFailures NewCircuitBreaker in
  AllowRequest "10.0.0.1:80" (9 * second) cb = (false, cb) ∧ fst (probeRounds 2 "10.0.0.1:80" (10 * second) cb) = [true; true].
Proof.
  split.
  - refine (proj1 (proj1 (breaker_recovers (breakerRun fiveFailures NewCircuitBreaker) "10.0.0.1:80" (mkCircuit CircuitOpen 5 0 0 0) (9 * second)
             default_config_ok eq_refl eq_refl _) _)); vm_compute; [split; discriminate|reflexivity].
  - destruct (breaker_recovers (breakerRun fiveFailures NewCircuitBreaker) "10.0.0.1:80" (mkCircuit CircuitOpen 5 0 0 0) (10 * second)
             default_config_ok eq_refl eq_refl) as [_ Hrec]; [vm_compute; split; discriminate|].
    destruct Hrec as (_ & cb' & c' & E & _); [vm_compute; discriminate|]. change (Z.to_nat _) with 2%nat in E. rewrite E. reflexivity.
Defined.
