(* ===== verification/LoadBalancer.v ===== *)
(** * Least-connections balancing (src/network/load_balancer.go)

    The heap holds pointers to the loads of the backends and the lookup map
    shares them. There is one load per address, so a pointer is the address and
    the loads live in one map. [None] is a panic (an index outside the heap).
    Connection counts are unbounded integers. *)

From S2P Require Import Prelude Heap.

Local Open Scope Z_scope.

Record backendLoad := mkLoad { activeConnections : Z; loadIndex : Z }.

Record LeastConnectionsBalancer := mkBalancer { heapData : list string; lookupMap : gmap string backendLoad }.

Definition NewLeastConnectionsBalancer : LeastConnectionsBalancer := mkBalancer [] ∅.

Definition connectionsOf (b : LeastConnectionsBalancer) (address : string) : Z :=
  match lookupMap b !! address with Some load => activeConnections load | None => 0 end.

Definition setIndex (i : Z) (load : backendLoad) : backendLoad := mkLoad (activeConnections load) i.
Definition addConnections (n : Z) (load : backendLoad) : backendLoad := mkLoad (activeConnections load + n) (loadIndex load).

Definition updateLoad (f : backendLoad → backendLoad) (address : string) (b : LeastConnectionsBalancer) : LeastConnectionsBalancer :=
  mkBalancer (heapData b) (alter f address (lookupMap b)).

(** ** [heap.Interface] *)

Definition balancerLess (indexA indexB : nat) (b : LeastConnectionsBalancer) : option bool :=
  x ← heapData b !! indexA;
  y ← heapData b !! indexB;
  Some (connectionsOf b x <? connectionsOf b y).

Definition balancerSwap (indexA indexB : nat) (b : LeastConnectionsBalancer) : option LeastConnectionsBalancer :=
  x ← heapData b !! indexA;
  y ← heapData b !! indexB;
  Some (updateLoad (setIndex (Z.of_nat indexB)) x (updateLoad (setIndex (Z.of_nat indexA)) y
         (mkBalancer (<[indexB := x]> (<[indexA := y]> (heapData b))) (lookupMap b)))).

Definition connectionsLess (b : LeastConnectionsBalancer) (x y : string) : bool := connectionsOf b x <? connectionsOf b y.

Lemma connectionsOf_setIndex i a b x : connectionsOf (updateLoad (setIndex i) a b) x = connectionsOf b x.
Proof.
  unfold connectionsOf, updateLoad. simpl. destruct (decide (a = x)) as [->|Ha].
  - rewrite lookup_alter_eq. by destruct (lookupMap b !! x).
  - by rewrite lookup_alter_ne.
Qed.

#[export, refine] Instance BalancerHeap : HeapInterface LeastConnectionsBalancer string := {|
  slots := heapData;
  lessP := connectionsLess;
  Less := balancerLess;
  Swap := balancerSwap
|}.
Proof.
  - intros b. unfold connectionsLess. split.
    + intros x. by rewrite Z.ltb_irrefl.
    + intros x y z. rewrite !Z.ltb_lt. lia.
    + intros x y z. rewrite !Z.ltb_ge. lia.
  - intros b i j p q Hp Hq. unfold balancerLess. rewrite Hp, Hq. done.
  - intros b i j p q Hp Hq. unfold balancerSwap. rewrite Hp, Hq. simpl. eexists. split_and!; [done|done|].
    intros x y. unfold connectionsLess. by rewrite !connectionsOf_setIndex.
Defined.

(** [heap.Push] with the heap's [Push] method: the new load is the last slot,
    then moves up. *)
Definition pushBackend (address : string) (b : LeastConnectionsBalancer) : option LeastConnectionsBalancer :=
  up (length (heapData b))
     (mkBalancer (heapData b ++ [address]) (<[address := mkLoad 0 (Z.of_nat (length (heapData b)))]> (lookupMap b))).

(** ** Operations *)

(** The loop that registers unknown candidates. *)
Fixpoint registerCandidates (candidateAddresses : list string) (b : LeastConnectionsBalancer) : option LeastConnectionsBalancer :=
  match candidateAddresses with
  | [] => Some b
  | address :: rest =>
      match lookupMap b !! address with
      | Some _ => registerCandidates rest b
      | None => pushBackend address b ≫= registerCandidates rest
      end
  end.

(** The scan for the candidate with the fewest connections, the first of equals. *)
Definition bestCandidate (candidateAddresses : list string) (b : LeastConnectionsBalancer) : option string :=
  foldl (λ bestEntry address,
    if decide (address ∉ candidateAddresses) then bestEntry
    else match bestEntry with
         | None => Some address
         | Some best => if connectionsOf b address <? connectionsOf b best then Some address else bestEntry
         end) None (heapData b).

Definition indexOf (b : LeastConnectionsBalancer) (address : string) : nat :=
  Z.to_nat (match lookupMap b !! address with Some load => loadIndex load | None => 0 end).

Definition SelectBackend (candidateAddresses : list string) (b : LeastConnectionsBalancer)
    : option (string * LeastConnectionsBalancer) :=
  if decide (candidateAddresses = []) then Some ("", b)
  else
    b1 ← registerCandidates candidateAddresses b;
    match bestCandidate candidateAddresses b1 with
    | None => Some ("", b1)
    | Some best =>
        b2 ← Fix (indexOf b1 best) (updateLoad (addConnections 1) best b1);
        Some (best, b2)
    end.

Definition ReleaseBackend (backendAddress : string) (b : LeastConnectionsBalancer) : option LeastConnectionsBalancer :=
  match lookupMap b !! backendAddress with
  | None => Some b
  | Some load =>
      if 0 <? activeConnections load
      then Fix (indexOf b backendAddress) (updateLoad (addConnections (-1)) backendAddress b)
      else Some b
  end.

Definition ActiveConnections (b : LeastConnectionsBalancer) (backendAddress : string) : Z := connectionsOf b backendAddress.

(** ** Invariant *)

Record balancer_inv (b : LeastConnectionsBalancer) : Prop := {
  balancer_nodup : NoDup (heapData b);
  balancer_registered a : is_Some (lookupMap b !! a) ↔ a ∈ heapData b;
  balancer_index i a load : heapData b !! i = Some a → lookupMap b !! a = Some load → loadIndex load = Z.of_nat i;
  balancer_connections a load : lookupMap b !! a = Some load → 0 ≤ activeConnections load
}.

(** Two balancers with the same connections. *)
Definition same_connections (b b' : LeastConnectionsBalancer) : Prop := ∀ a, connectionsOf b' a = connectionsOf b a.

Lemma updateLoad_lookup f a b x :
  lookupMap (updateLoad f a b) !! x = if decide (x = a) then f <$> lookupMap b !! x else lookupMap b !! x.
Proof. simpl. case_decide as Hx; [subst; apply lookup_alter_eq|by rewrite lookup_alter_ne]. Qed.

Lemma balancerSwap_ok i j b b' :
  balancer_inv b → balancerSwap i j b = Some b' →
  balancer_inv b' ∧ same_connections b b' ∧ (∀ a, is_Some (lookupMap b' !! a) ↔ is_Some (lookupMap b !! a)).
Proof.
  intros [Hnd Hreg Hidx Hc] E. unfold balancerSwap in E. destruct (heapData b !! i) as [x|] eqn:Ex; [|done].
  destruct (heapData b !! j) as [y|] eqn:Ey; [|done]. simplify_eq/=.
  set (b0 := mkBalancer (<[j:=x]> (<[i:=y]> (heapData b))) (lookupMap b)).
  assert (Hl : ∀ a, lookupMap (updateLoad (setIndex (Z.of_nat j)) x (updateLoad (setIndex (Z.of_nat i)) y b0)) !! a =
    (λ load, if decide (a = x) then setIndex (Z.of_nat j) load else if decide (a = y) then setIndex (Z.of_nat i) load else load) <$> lookupMap b !! a).
  { intros a. rewrite !updateLoad_lookup. destruct (lookupMap b0 !! a) as [load|] eqn:E0; simpl in E0; rewrite E0; repeat case_decide; done. }
  assert (Hperm : <[j:=x]> (<[i:=y]> (heapData b)) ≡ₚ heapData b) by (by apply swap_perm).
  assert (Hd : heapData (updateLoad (setIndex (Z.of_nat j)) x (updateLoad (setIndex (Z.of_nat i)) y b0)) = <[j:=x]> (<[i:=y]> (heapData b))) by done.
  set (b' := updateLoad (setIndex (Z.of_nat j)) x (updateLoad (setIndex (Z.of_nat i)) y b0)) in *.
  assert (Hsome : ∀ a, is_Some (lookupMap b' !! a) ↔ is_Some (lookupMap b !! a)) by (intros a; rewrite Hl; apply fmap_is_Some).
  split; [|split; [|done]].
  - split.
    + by rewrite Hd, Hperm.
    + intros a. by rewrite Hsome, Hd, Hperm.
    + intros k a load Hk Ha. rewrite Hl in Ha. apply fmap_Some in Ha as (load0 & Ha & ->). rewrite Hd in Hk.
      pose proof (lookup_lt_Some _ _ _ Ex). pose proof (lookup_lt_Some _ _ _ Ey).
      destruct (decide (k = j)) as [->|Hkj].
      { rewrite list_lookup_insert_eq in Hk by (by rewrite length_insert). simplify_eq. by rewrite decide_True. }
      rewrite list_lookup_insert_ne in Hk by done. destruct (decide (k = i)) as [->|Hki].
      { rewrite list_lookup_insert_eq in Hk by done. simplify_eq. rewrite decide_False; [by rewrite decide_True|].
        intros ->. destruct Hkj. by eapply NoDup_lookup. }
      rewrite list_lookup_insert_ne in Hk by done. rewrite !decide_False; [by eapply Hidx| |].
      * intros ->. destruct Hki. symmetry. by eapply (NoDup_lookup _ _ _ y Hnd Ey) in Hk.
      * intros ->. destruct Hki. by eapply NoDup_lookup.
    + intros a load Ha. rewrite Hl in Ha. apply fmap_Some in Ha as (load0 & Ha & ->). specialize (Hc _ _ Ha). by repeat case_decide.
  - intros a. unfold connectionsOf. rewrite Hl. destruct (lookupMap b !! a) as [load|]; simpl; [|done]. by repeat case_decide.
Qed.

(** What heap operations keep. *)
Definition keeps (b0 b : LeastConnectionsBalancer) : Prop :=
  balancer_inv b ∧ same_connections b0 b ∧ ∀ a, is_Some (lookupMap b !! a) ↔ is_Some (lookupMap b0 !! a).

Lemma keeps_swap b0 b i j b' : keeps b0 b → balancerSwap i j b = Some b' → keeps b0 b'.
Proof.
  intros (Hb & Hc & Hr) E. destruct (balancerSwap_ok _ _ _ _ Hb E) as (Hb' & Hc' & Hr').
  split_and!; [done|intros a; by rewrite Hc', Hc|intros a; by rewrite Hr', Hr].
Qed.

Lemma Fix_keeps b0 b i : keeps b0 b → (i < length (heapData b))%nat → ∃ b', Fix i b = Some b' ∧ keeps b0 b'.
Proof.
  intros Hk Hi. destruct (Fix_spec (H := BalancerHeap) i b) as (b' & E & _); [exact Hi|]. exists b'. split; [done|].
  eapply (Fix_invariant (keeps b0)); [|exact Hk|exact E]. intros s k l s'. apply keeps_swap.
Qed.

Lemma indexOf_lt b a : balancer_inv b → a ∈ heapData b → (indexOf b a < length (heapData b))%nat.
Proof.
  intros [Hnd Hreg Hidx _] Ha. apply list_elem_of_lookup in Ha as [i Hi]. unfold indexOf.
  destruct (proj2 (Hreg a)) as [load Hl]; [by eapply list_elem_of_lookup_2|]. rewrite Hl, (Hidx _ _ _ Hi Hl).
  apply lookup_lt_Some in Hi. lia.
Qed.

Lemma updateLoad_inv n a b :
  balancer_inv b → 0 ≤ connectionsOf b a + n → balancer_inv (updateLoad (addConnections n) a b).
Proof.
  intros [Hnd Hreg Hidx Hc] Hn. split; [done| | |].
  - intros x. rewrite updateLoad_lookup. simpl. rewrite <-Hreg. case_decide; [apply fmap_is_Some|done].
  - intros i x load Hx Hl. rewrite updateLoad_lookup in Hl. case_decide; [|by eapply Hidx].
    apply fmap_Some in Hl as (load0 & Hl & ->). simpl. by eapply Hidx.
  - intros x load Hl. rewrite updateLoad_lookup in Hl. case_decide; [|by eapply Hc]. subst.
    apply fmap_Some in Hl as (load0 & Hl & ->). simpl. unfold connectionsOf in Hn. by rewrite Hl in Hn.
Qed.

Lemma updateLoad_connections n a b x :
  is_Some (lookupMap b !! a) →
  connectionsOf (updateLoad (addConnections n) a b) x = if decide (x = a) then connectionsOf b x + n else connectionsOf b x.
Proof.
  intros [load Hl]. unfold connectionsOf. rewrite updateLoad_lookup. case_decide; [|done]. subst. by rewrite Hl.
Qed.

Lemma pushBackend_ok a b :
  balancer_inv b → lookupMap b !! a = None →
  ∃ b', pushBackend a b = Some b' ∧ balancer_inv b' ∧ same_connections b b' ∧
    ∀ x, is_Some (lookupMap b' !! x) ↔ x = a ∨ is_Some (lookupMap b !! x).
Proof.
  intros [Hnd Hreg Hidx Hc] Ha. unfold pushBackend.
  set (b1 := mkBalancer (heapData b ++ [a]) (<[a := mkLoad 0 (Z.of_nat (length (heapData b)))]> (lookupMap b))).
  assert (Hout : a ∉ heapData b) by (intros Hin%Hreg; rewrite Ha in Hin; by destruct Hin).
  assert (Hlen : length (heapData b1) = S (length (heapData b))) by (simpl; rewrite length_app; simpl; lia).
  assert (Hreg1 : ∀ x, is_Some (lookupMap b1 !! x) ↔ x = a ∨ is_Some (lookupMap b !! x)).
  { intros x. simpl. rewrite lookup_insert_is_Some. destruct (decide (a = x)); naive_solver. }
  assert (Hb1 : keeps b1 b1).
  { split; [|done]. split.
    - simpl. apply NoDup_app. split_and!; [done|set_solver|apply NoDup_singleton].
    - intros x. rewrite Hreg1. simpl. rewrite elem_of_app, list_elem_of_singleton, <-Hreg. tauto.
    - intros i x load Hi Hl. simpl in Hi, Hl. destruct (decide (x = a)) as [->|Hx].
      + rewrite lookup_insert_eq in Hl. simplify_eq. simpl. f_equal. apply lookup_app_Some in Hi as [Hi|[Hle Hi]].
        * by apply list_elem_of_lookup_2 in Hi.
        * destruct (i - length (heapData b))%nat eqn:E; [lia|done].
      + rewrite lookup_insert_ne in Hl by done. apply (Hidx i x); [|done]. apply lookup_app_Some in Hi as [Hi|[_ Hi]]; [done|].
        by destruct (i - length (heapData b))%nat; simplify_eq/=.
    - intros x load Hl. simpl in Hl. destruct (decide (x = a)) as [->|Hx]; [rewrite lookup_insert_eq in Hl; by simplify_eq|].
      rewrite lookup_insert_ne in Hl by done. by eapply Hc. }
  destruct (up_loop_spec (length (heapData b) + 1) (length (heapData b)) (S (length (heapData b))) b1) as (b' & E & _).
  { change (Len b1) with (length (heapData b1)). by rewrite Hlen. } { lia. }
  assert (Hk : keeps b1 b').
  { eapply (up_loop_invariant (keeps b1)); [|exact Hb1|exact E]. intros s k l s'. apply keeps_swap. }
  destruct Hk as (H1 & H2 & H3). exists b'. split_and!; [exact E|done| |intros x; by rewrite H3, Hreg1].
  intros x. rewrite H2. unfold connectionsOf. simpl. destruct (decide (x = a)) as [->|Hx]; [by rewrite lookup_insert_eq, Ha|by rewrite lookup_insert_ne].
Qed.

Lemma registerCandidates_ok l b :
  balancer_inv b →
  ∃ b', registerCandidates l b = Some b' ∧ balancer_inv b' ∧ same_connections b b' ∧
    ∀ x, is_Some (lookupMap b' !! x) ↔ x ∈ l ∨ is_Some (lookupMap b !! x).
Proof.
  revert b. induction l as [|a l IH]; intros b Hb; simpl.
  { exists b. split_and!; [done|done|done|]. intros x. rewrite elem_of_nil. tauto. }
  destruct (lookupMap b !! a) as [load|] eqn:Ea.
  - destruct (IH b Hb) as (b' & -> & H1 & H2 & H3). exists b'. split_and!; [done..|]. intros x. rewrite H3, elem_of_cons.
    split; [tauto|]. intros [[->|?]|?]; auto.
  - destruct (pushBackend_ok a b Hb Ea) as (b1 & -> & H1 & H2 & H3). simpl. destruct (IH b1 H1) as (b' & -> & H4 & H5 & H6).
    exists b'. split_and!; [done|done| |].
    + intros x. by rewrite H5, H2.
    + intros x. rewrite H6, H3, elem_of_cons. tauto.
Qed.

(** The scan finds a candidate of the heap with the fewest connections. *)
Lemma bestCandidate_spec l b :
  (∃ a, a ∈ heapData b ∧ a ∈ l) →
  ∃ best, bestCandidate l b = Some best ∧ best ∈ heapData b ∧ best ∈ l ∧
    ∀ a, a ∈ heapData b → a ∈ l → connectionsOf b best ≤ connectionsOf b a.
Proof.
  unfold bestCandidate. set (f := λ bestEntry address, _).
  assert (Hgen : ∀ h best0, match foldl f best0 h with
    | None => best0 = None ∧ ∀ a, a ∈ h → a ∉ l
    | Some best => (best0 = Some best ∨ (best ∈ h ∧ best ∈ l)) ∧
        (∀ a, best0 = Some a → connectionsOf b best ≤ connectionsOf b a) ∧
        ∀ a, a ∈ h → a ∈ l → connectionsOf b best ≤ connectionsOf b a
    end).
  { induction h as [|x h IH]; intros best0; simpl.
    { destruct best0; [split_and!; [by left|intros ? [= ->]; lia|intros ? ?%elem_of_nil; done]|]. split; [done|]. intros ? ?%elem_of_nil. done. }
    specialize (IH (f best0 x)). destruct (foldl f (f best0 x) h) as [best|] eqn:E.
    - destruct IH as (H1 & H2 & H3). unfold f in H1, H2. case_decide as Hx.
      + split_and!; [destruct H1 as [?|[? ?]]; [by left|right; split; [by apply list_elem_of_further|done]]|done|].
        intros a [->|Ha]%elem_of_cons Hal; [done|by apply H3].
      + destruct best0 as [c0|].
        * destruct (Z.ltb_spec (connectionsOf b x) (connectionsOf b c0)); split_and!.
          -- destruct H1 as [[= <-]|[? ?]]; right; [split; [apply list_elem_of_here|done]|split; [by apply list_elem_of_further|done]].
          -- intros a [= <-]. specialize (H2 x eq_refl). lia.
          -- intros a [->|Ha]%elem_of_cons Hal; [by apply H2|by apply H3].
          -- destruct H1 as [?|[? ?]]; [by left|right; split; [by apply list_elem_of_further|done]].
          -- done.
          -- intros a [->|Ha]%elem_of_cons Hal; [specialize (H2 c0 eq_refl); lia|by apply H3].
        * split_and!; [destruct H1 as [[= <-]|[? ?]]; right; [split; [apply list_elem_of_here|done]|split; [by apply list_elem_of_further|done]]|done|].
          intros a [->|Ha]%elem_of_cons Hal; [by apply H2|by apply H3].
    - destruct IH as [H1 H2]. unfold f in H1. case_decide as Hx; [|destruct best0; [by case_match|done]].
      split; [done|]. intros a [->|Ha]%elem_of_cons; [done|by apply H2]. }
  intros (a & Ha & Hl). specialize (Hgen (heapData b) None). destruct (foldl f None (heapData b)) as [best|].
  - destruct Hgen as ([[=]|[H1 H2]] & _ & H3). by exists best.
  - destruct Hgen as [_ Hno]. by destruct (Hno a Ha).
Qed.

Lemma SelectBackend_ok candidates b :
  balancer_inv b → candidates ≠ [] →
  ∃ best b', SelectBackend candidates b = Some (best, b') ∧ balancer_inv b' ∧ best ∈ candidates ∧
    (∀ a, a ∈ candidates → connectionsOf b best ≤ connectionsOf b a) ∧
    ∀ a, connectionsOf b' a = connectionsOf b a + if decide (a = best) then 1 else 0.
Proof.
  intros Hb Hne. unfold SelectBackend. rewrite decide_False by done. destruct (registerCandidates_ok candidates b Hb) as (b1 & -> & Hb1 & Hc1 & Hr1). simpl.
  assert (Hin : ∀ a, a ∈ candidates → a ∈ heapData b1) by (intros a Ha; apply (balancer_registered _ Hb1), Hr1; by left).
  destruct (bestCandidate_spec candidates b1) as (best & -> & Hbh & Hbl & Hmin).
  { destruct candidates as [|a l]; [done|]. exists a. split; [apply Hin|]; apply list_elem_of_here. }
  pose proof (proj2 (balancer_registered _ Hb1 best) Hbh) as Hbr.
  assert (Hpos : 0 ≤ connectionsOf b1 best) by (destruct Hbr as [load Hl]; unfold connectionsOf; rewrite Hl; by eapply balancer_connections).
  destruct (Fix_keeps (updateLoad (addConnections 1) best b1) (updateLoad (addConnections 1) best b1) (indexOf b1 best)) as (b2 & -> & H2 & Hc2 & _).
  { split; [by apply updateLoad_inv; [|lia]|done]. } { exact (indexOf_lt b1 best Hb1 Hbh). }
  exists best, b2. split_and!; [done|done|done| |].
  - intros a Ha. rewrite <-!Hc1. apply Hmin; [by apply Hin|done].
  - intros a. rewrite Hc2, updateLoad_connections, Hc1 by done. case_decide; lia.
Qed.

Lemma ReleaseBackend_ok address b :
  balancer_inv b →
  ∃ b', ReleaseBackend address b = Some b' ∧ balancer_inv b' ∧
    ∀ a, connectionsOf b' a = if decide (a = address) then Z.max 0 (connectionsOf b a - 1) else connectionsOf b a.
Proof.
  intros Hb. unfold ReleaseBackend. destruct (lookupMap b !! address) as [load|] eqn:El.
  2: { exists b. split_and!; [done|done|]. intros a. case_decide; [|done]. subst. unfold connectionsOf. by rewrite El. }
  assert (Hcn : connectionsOf b address = activeConnections load) by (unfold connectionsOf; by rewrite El).
  destruct (Z.ltb_spec 0 (activeConnections load)).
  - destruct (Fix_keeps (updateLoad (addConnections (-1)) address b) (updateLoad (addConnections (-1)) address b) (indexOf b address)) as (b2 & -> & H2 & Hc2 & _).
    { split; [by apply updateLoad_inv; [|lia]|done]. } { apply (indexOf_lt b address Hb), (balancer_registered _ Hb). by exists load. }
    exists b2. split_and!; [done|done|]. intros a. rewrite Hc2, updateLoad_connections by (by exists load). case_decide; [subst; lia|done].
  - exists b. split_and!; [done|done|]. intros a. case_decide; [|done]. subst.
    pose proof (balancer_connections _ Hb _ _ El). lia.
Qed.

Lemma NewLeastConnectionsBalancer_inv : balancer_inv NewLeastConnectionsBalancer.
Proof.
  split; [apply NoDup_nil_2|intros a|intros i a load Hi|intros a load Hl]; simpl in *.
  - rewrite lookup_empty, elem_of_nil. split; [intros [? ?]|]; done.
  - done.
  - by rewrite lookup_empty in Hl.
Qed.

(** A selection among at least one candidate never panics. It returns a
    candidate with the fewest active connections and counts one more for it and
    no other; releasing a backend counts one less for it, never below zero. The
    positions recorded in the loads stay those of the heap. *)
Theorem SelectBackend_least candidates b address :
  balancer_inv b → candidates ≠ [] →
  (∃ best b', SelectBackend candidates b = Some (best, b') ∧ balancer_inv b' ∧ best ∈ candidates ∧
     (∀ a, a ∈ candidates → ActiveConnections b best ≤ ActiveConnections b a) ∧
     ∀ a, ActiveConnections b' a = ActiveConnections b a + if decide (a = best) then 1 else 0) ∧
  (∃ b', ReleaseBackend address b = Some b' ∧ balancer_inv b' ∧
     ∀ a, ActiveConnections b' a = if decide (a = address) then Z.max 0 (ActiveConnections b a - 1) else ActiveConnections b a).
Proof.
  intros Hb Hne. unfold ActiveConnections. split; [by apply SelectBackend_ok|by apply ReleaseBackend_ok].
Qed.

Lemma SelectBackend_least_witness :
  ∃ best b', SelectBackend ["10.0.0.1:80"; "10.0.0.2:80"] NewLeastConnectionsBalancer = Some (best, b') ∧ best = "10.0.0.1:80" ∧
    ActiveConnections b' best = 1 ∧ ActiveConnections b' "10.0.0.2:80" = 0.
Proof.
  destruct (proj1 (SelectBackend_least ["10.0.0.1:80"; "10.0.0.2:80"] NewLeastConnectionsBalancer "10.0.0.1:80"
              NewLeastConnectionsBalancer_inv ltac:(discriminate))) as (best & b' & E & _ & _ & _ & H).
  exists best, b'. assert (best = "10.0.0.1:80") as -> by (vm_compute in E; congruence).
  split_and!; [exact E|reflexivity|rewrite H; reflexivity|rewrite H; reflexivity].
Defined.
