(* ===== verification/Proxy.v ===== *)
(** * Forwarding requests (src/network/userspace_proxy.go, [forwardToBackend])

    The proxy's handlers run concurrently and share the circuit breaker and the
    load balancer. Every call of either holds its mutex, so a handler is a
    sequence of atomic steps and a run interleaves the steps of all handlers.
    [phase] is where a handler stands in [forwardToBackend]; what the reverse
    proxy of the standard library does in between (write a header, call the error
    handler, return, panic) comes as events. The gate looked up for the request's
    host is an argument of the event that selects the backend; of a gate, its
    certificate is left out. *)

From S2P Require Import Prelude GoFmt CircuitBreaker LoadBalancer.

Local Open Scope Z_scope.

(** ** Sticky cookies (src/network/cookie_proxy.go) *)

Record RouteCookieConfig := mkCookieConfig {
  cookieName : string;
  cookieSecure : bool;
  cookieHTTPOnly : bool;
  cookieSameSite : string
}.

Record gateHostEntry := mkGate {
  gateHostname : string;
  gateRouteName : string;
  gateServiceName : string;
  gateCookieConfig : option RouteCookieConfig;
  gateTlsEnabled : bool
}.

Definition stickyCookiePrefix : string := "__CCA_STICKY_".

Definition stickyCookieName (cookieConf : RouteCookieConfig) (serviceName : string) : string :=
  if decide (cookieName cookieConf ≠ "") then cookieName cookieConf else stickyCookiePrefix +:+ serviceName.

(** The request's cookies, in order; [Request.Cookie] finds the first of a name. *)
Definition stickyCookieBackend (cookies : list (string * string)) (name : string) : string :=
  match list_find (λ cookie, cookie.1 = name) cookies with
  | Some (_, cookie) => cookie.2
  | None => ""
  end.

(** ** Data *)

Record Endpoint := mkEndpoint { Service : string; InstanceID : string; IP : string; Port : Z }.

Definition candidateAddress (endpoint : Endpoint) : string := IP endpoint +:+ ":" +:+ Itoa (Port endpoint).

Record statusCapture := mkCapture { statusCode : Z; wroteHeader : bool }.

Definition WriteHeader (code : Z) (capture : statusCapture) : statusCapture := mkCapture code true.

Definition StatusServiceUnavailable : Z := 503.
Definition StatusBadGateway : Z := 502.

Inductive phase :=
| Filtering (cookies : list (string * string)) (rest : list Endpoint) (healthyCandidates : list string)
| Serving (backendAddress : string) (statusRecorder : statusCapture)
| Releasing (backendAddress : string) (statusRecorder : statusCapture)
| Finished (statusRecorder : statusCapture).

Record UserSpaceProxy := mkProxy {
  circuitBreaker : CircuitBreaker;
  loadBalancer : LeastConnectionsBalancer;
  requests : list phase
}.

Definition NewUserSpaceProxy : UserSpaceProxy := mkProxy NewCircuitBreaker NewLeastConnectionsBalancer [].

(** ** Steps *)

Definition selectGateBackend (cookies : list (string * string)) (gateEntry : option gateHostEntry)
    (healthyCandidates : list string) (b : LeastConnectionsBalancer) : option (string * LeastConnectionsBalancer) :=
  match gateEntry ≫= λ gate, (λ conf, stickyCookieBackend cookies (stickyCookieName conf (gateServiceName gate))) <$> gateCookieConfig gate with
  | Some stickyAddress =>
      if decide (stickyAddress ∈ healthyCandidates) then SelectBackend [stickyAddress] b else SelectBackend healthyCandidates b
  | None => SelectBackend healthyCandidates b
  end.

(** What follows [reverseProxy.ServeHTTP]. *)
Definition recordOutcome (backendAddress : string) (statusRecorder : statusCapture) (now : Z) (cb : CircuitBreaker) : CircuitBreaker :=
  if 500 <=? statusCode statusRecorder then RecordFailure backendAddress now cb
  else if wroteHeader statusRecorder then RecordSuccess backendAddress cb
  else cb.

Inductive proxyEvent :=
| EvArrive (cookies : list (string * string)) (availableEndpoints : list Endpoint)
| EvFilter (request : nat) (now : Z)
| EvSelect (request : nat) (gateEntry : option gateHostEntry)
| EvWriteHeader (request : nat) (code : Z)
| EvTransportError (request : nat) (now : Z)
| EvServed (request : nat) (now : Z)
| EvPanicked (request : nat)
| EvRelease (request : nat).

(** A step is taken, is not the handler's next one, or panics in the balancer. *)
Inductive stepResult := Next (p : UserSpaceProxy) | NotEnabled | Crashed.

Definition noHeader : statusCapture := mkCapture 0 false.

Definition forwardToBackend (e : proxyEvent) (p : UserSpaceProxy) : stepResult :=
  let 'mkProxy cb lb rs := p in
  match e with
  | EvArrive cookies availableEndpoints => Next (mkProxy cb lb (rs ++ [Filtering cookies availableEndpoints []]))
  | EvFilter i now =>
      match rs !! i with
      | Some (Filtering cookies (endpoint :: rest) healthy) =>
          let '(allowed, cb') := AllowRequest (candidateAddress endpoint) now cb in
          let healthy' := if (allowed : bool) then healthy ++ [candidateAddress endpoint] else healthy in
          Next (mkProxy cb' lb (<[i := Filtering cookies rest healthy']> rs))
      | _ => NotEnabled
      end
  | EvSelect i gateEntry =>
      match rs !! i with
      | Some (Filtering _ [] []) =>
          Next (mkProxy cb lb (<[i := Finished (WriteHeader StatusServiceUnavailable noHeader)]> rs))
      | Some (Filtering cookies [] healthy) =>
          match selectGateBackend cookies gateEntry healthy lb with
          | Some (backendAddress, lb') => Next (mkProxy cb lb' (<[i := Serving backendAddress noHeader]> rs))
          | None => Crashed
          end
      | _ => NotEnabled
      end
  | EvWriteHeader i code =>
      match rs !! i with
      | Some (Serving a recorder) => Next (mkProxy cb lb (<[i := Serving a (WriteHeader code recorder)]> rs))
      | _ => NotEnabled
      end
  | EvTransportError i now =>
      match rs !! i with
      | Some (Serving a recorder) =>
          Next (mkProxy (RecordFailure a now cb) lb (<[i := Serving a (WriteHeader StatusBadGateway recorder)]> rs))
      | _ => NotEnabled
      end
  | EvServed i now =>
      match rs !! i with
      | Some (Serving a recorder) => Next (mkProxy (recordOutcome a recorder now cb) lb (<[i := Releasing a recorder]> rs))
      | _ => NotEnabled
      end
  | EvPanicked i =>
      match rs !! i with
      | Some (Serving a recorder) => Next (mkProxy cb lb (<[i := Releasing a recorder]> rs))
      | _ => NotEnabled
      end
  | EvRelease i =>
      match rs !! i with
      | Some (Releasing a recorder) =>
          match ReleaseBackend a lb with
          | Some lb' => Next (mkProxy cb lb' (<[i := Finished recorder]> rs))
          | None => Crashed
          end
      | _ => NotEnabled
      end
  end.

Inductive proxy_reachable (p0 : UserSpaceProxy) : UserSpaceProxy → Prop :=
| reach_refl : proxy_reachable p0 p0
| reach_step p e p' : proxy_reachable p0 p → forwardToBackend e p = Next p' → proxy_reachable p0 p'.

Fixpoint proxyRun (evs : list proxyEvent) (p : UserSpaceProxy) : stepResult :=
  match evs with
  | [] => Next p
  | e :: evs => match forwardToBackend e p with Next p' => proxyRun evs p' | r => r end
  end.

Lemma proxyRun_reachable evs p p' : proxyRun evs p = Next p' → proxy_reachable p p'.
Proof.
  assert (Htrans : ∀ p1 p2 p3, proxy_reachable p1 p2 → proxy_reachable p2 p3 → proxy_reachable p1 p3).
  { intros p1 p2 p3 H1. induction 1; [done|by eapply reach_step]. }
  revert p. induction evs as [|e evs IH]; intros p E; simplify_eq/=; [constructor|].
  destruct (forwardToBackend e p) as [p1| |] eqn:E1; try discriminate E.
  exact (Htrans p p1 p' (reach_step _ _ _ _ (reach_refl p) E1) (IH p1 E)).
Qed.

(** ** Connections *)

(** The request holds a connection of the backend. *)
Definition holds (a : string) (ph : phase) : bool :=
  match ph with
  | Serving b _ | Releasing b _ => bool_decide (b = a)
  | _ => false
  end.

Definition inFlight (a : string) (rs : list phase) : nat := length (filter (λ ph, Is_true (holds a ph)) rs).

Definition bit (b : bool) : nat := if b then 1%nat else 0%nat.

Lemma inFlight_cons a ph rs : inFlight a (ph :: rs) = (bit (holds a ph) + inFlight a rs)%nat.
Proof. unfold inFlight. rewrite filter_cons. by destruct (holds a ph). Qed.

Lemma inFlight_insert a i old new rs :
  rs !! i = Some old → (inFlight a (<[i := new]> rs) + bit (holds a old) = inFlight a rs + bit (holds a new))%nat.
Proof.
  revert i. induction rs as [|ph rs IH]; intros i E; [done|]. destruct i as [|i]; simplify_eq/=.
  - rewrite !inFlight_cons. lia.
  - rewrite !inFlight_cons. specialize (IH i E). lia.
Qed.

Lemma inFlight_snoc a rs ph : inFlight a (rs ++ [ph]) = (inFlight a rs + bit (holds a ph))%nat.
Proof. induction rs as [|x rs IH]; simpl; rewrite ?inFlight_cons; [unfold inFlight; simpl; lia|]. rewrite IH. lia. Qed.

Record proxy_inv (p : UserSpaceProxy) : Prop := {
  proxy_breaker : breaker_inv (circuitBreaker p);
  proxy_balancer : balancer_inv (loadBalancer p);
  proxy_counts a : connectionsOf (loadBalancer p) a = Z.of_nat (inFlight a (requests p))
}.

Lemma selectGateBackend_ok cookies gate healthy b :
  balancer_inv b → healthy ≠ [] →
  ∃ best b', selectGateBackend cookies gate healthy b = Some (best, b') ∧ balancer_inv b' ∧ best ∈ healthy ∧
    ∀ a, connectionsOf b' a = connectionsOf b a + if decide (a = best) then 1 else 0.
Proof.
  intros Hb Hne. destruct (SelectBackend_ok healthy b Hb Hne) as (best & b' & E & H1 & H2 & _ & H4). unfold selectGateBackend.
  destruct (gate ≫= _) as [sticky|]; [|by exists best, b']. case_decide as Hin; [|by exists best, b'].
  destruct (SelectBackend_ok [sticky] b Hb ltac:(discriminate)) as (best2 & b2 & E2 & H5 & ->%list_elem_of_singleton & _ & H6). by exists sticky, b2.
Qed.

Lemma same_holds_inv cb cb' lb rs i old new :
  proxy_inv (mkProxy cb lb rs) → rs !! i = Some old → breaker_inv cb' → (∀ a, holds a new = holds a old) →
  proxy_inv (mkProxy cb' lb (<[i := new]> rs)).
Proof.
  intros [H1 H2 H3] Ei Hcb Hsame. split; [done|done|]. intros a. simpl in *. rewrite H3. pose proof (inFlight_insert a i old new rs Ei) as Hc.
  rewrite Hsame in Hc. lia.
Qed.

Lemma recordOutcome_inv a recorder now cb : breaker_inv cb → breaker_inv (recordOutcome a recorder now cb).
Proof.
  intros Hcb. unfold recordOutcome. destruct (_ <=? _); [exact (breakerStep_inv (EvFailure a now) cb Hcb)|].
  destruct (wroteHeader recorder); [exact (breakerStep_inv (EvSuccess a) cb Hcb)|done].
Qed.

Lemma forwardToBackend_inv p e :
  proxy_inv p → forwardToBackend e p ≠ Crashed ∧ ∀ p', forwardToBackend e p = Next p' → proxy_inv p'.
Proof.
  intros Hinv. destruct p as [cb lb rs]. pose proof Hinv as [Hcb Hlb Hcnt]. simpl in Hcb, Hlb, Hcnt.
  destruct e as [cookies eps|i now|i gate|i code|i now|i now|i|i]; simpl.
  { split; [done|]. intros p' [= <-]. split; [done|done|]. intros a. simpl. rewrite Hcnt, inFlight_snoc. simpl. lia. }
  all: destruct (rs !! i) as [ph|] eqn:Ei; [|done].
  all: destruct ph as [cookies [|ep rest] healthy|b rec|b rec|rec]; try done.
  - destruct (AllowRequest (candidateAddress ep) now cb) as [ok cb'] eqn:Ea. split; [done|]. intros p' [= <-].
    eapply same_holds_inv; [exact Hinv|exact Ei| |done].
    pose proof (breakerStep_inv (EvAllow (candidateAddress ep) now) cb Hcb) as Hs. simpl in Hs. by rewrite Ea in Hs.
  - destruct healthy as [|c healthy]; [split; [done|]; intros p' [= <-]; by eapply same_holds_inv|].
    destruct (selectGateBackend_ok cookies gate (c :: healthy) lb Hlb ltac:(discriminate)) as (best & lb' & -> & H1 & _ & H3).
    split; [done|]. intros p' [= <-]. split; [done|done|]. intros a. simpl. rewrite H3, Hcnt.
    pose proof (inFlight_insert a i _ (Serving best noHeader) rs Ei) as Hc. simpl in Hc.
    destruct (decide (a = best)) as [->|Ha]; [rewrite bool_decide_true in Hc by done|rewrite bool_decide_false in Hc by done]; simpl in Hc; lia.
  - split; [done|]. intros p' [= <-]. by eapply same_holds_inv.
  - split; [done|]. intros p' [= <-]. eapply same_holds_inv; [exact Hinv|exact Ei| |done]. exact (breakerStep_inv (EvFailure b now) cb Hcb).
  - split; [done|]. intros p' [= <-]. eapply same_holds_inv; [exact Hinv|exact Ei|by apply recordOutcome_inv|done].
  - split; [done|]. intros p' [= <-]. by eapply same_holds_inv.
  - destruct (ReleaseBackend_ok b lb Hlb) as (lb' & -> & H1 & H2). split; [done|]. intros p' [= <-]. split; [done|done|]. intros a. simpl.
    rewrite H2, Hcnt. pose proof (inFlight_insert a i _ (Finished rec) rs Ei) as Hc. simpl in Hc.
    destruct (decide (a = b)) as [->|Ha]; [rewrite bool_decide_true in Hc by done|rewrite bool_decide_false in Hc by done]; simpl in Hc; lia.
Qed.

Lemma NewUserSpaceProxy_inv : proxy_inv NewUserSpaceProxy.
Proof. split; [apply NewCircuitBreaker_inv|apply NewLeastConnectionsBalancer_inv|]. intros a. done. Qed.

Lemma proxy_reachable_inv p : proxy_reachable NewUserSpaceProxy p → proxy_inv p.
Proof. induction 1 as [|p e p' _ IH E]; [apply NewUserSpaceProxy_inv|exact (proj2 (forwardToBackend_inv p e IH) p' E)]. Qed.

(** C36: However the handlers interleave, whatever the backends answer and even when
    a handler panics: the balancer never does, and the connections it counts for
    a backend are the requests being forwarded there, so that once they are done
    it counts none. *)
Theorem proxy_connections_balanced p :
  proxy_reachable NewUserSpaceProxy p →
  (∀ e, forwardToBackend e p ≠ Crashed) ∧
  (∀ a, ActiveConnections (loadBalancer p) a = Z.of_nat (inFlight a (requests p))) ∧
  ((∀ ph, ph ∈ requests p → ∃ recorder, ph = Finished recorder) → ∀ a, ActiveConnections (loadBalancer p) a = 0).
Proof.
  intros Hp. pose proof (proxy_reachable_inv p Hp) as Hinv. split_and!.
  - intros e. apply (forwardToBackend_inv p e Hinv).
  - exact (proxy_counts p Hinv).
  - intros Hdone a. unfold ActiveConnections. rewrite (proxy_counts p Hinv). induction (requests p) as [|ph rs IH]; [done|].
    rewrite inFlight_cons. destruct (Hdone ph (list_elem_of_here _ _)) as [recorder ->]. simpl.
    apply IH. intros ph' Hph'. by apply Hdone, list_elem_of_further.
Qed.

(** A handler that has looked at every endpoint answers 503 when no circuit
    admitted it. Otherwise it forwards to an admitted backend: to the one its
    sticky cookie names when the gate uses cookies and that one was admitted, to
    one with the fewest connections if not. *)
Theorem proxy_selects p i cookies healthy gate :
  proxy_reachable NewUserSpaceProxy p → requests p !! i = Some (Filtering cookies [] healthy) →
  ∃ p', forwardToBackend (EvSelect i gate) p = Next p' ∧ circuitBreaker p' = circuitBreaker p ∧
    (healthy = [] → requests p' !! i = Some (Finished (mkCapture 503 true)) ∧ loadBalancer p' = loadBalancer p) ∧
    (healthy ≠ [] → ∃ backend, requests p' !! i = Some (Serving backend noHeader) ∧ backend ∈ healthy ∧
       let sticky := gate ≫= λ g, (λ conf, stickyCookieBackend cookies (stickyCookieName conf (gateServiceName g))) <$> gateCookieConfig g in
       ((∃ address, sticky = Some address ∧ address ∈ healthy ∧ backend = address) ∨
        ((∀ address, sticky = Some address → address ∉ healthy) ∧
         ∀ a, a ∈ healthy → ActiveConnections (loadBalancer p) backend ≤ ActiveConnections (loadBalancer p) a))).
Proof.
  intros Hp Ei. destruct (proxy_reachable_inv p Hp) as [_ Hlb _]. destruct p as [cb lb rs]. simpl in *. rewrite Ei.
  pose proof (lookup_lt_Some _ _ _ Ei) as Hi. destruct healthy as [|c healthy].
  { eexists. split_and!; [done|done| |done]. intros _. simpl. by rewrite list_lookup_insert_eq. }
  unfold selectGateBackend. set (sticky := gate ≫= _). set (hs := c :: healthy) in *.
  destruct (SelectBackend_ok hs lb Hlb ltac:(discriminate)) as (best & lb' & E & _ & Hbest & Hmin & _).
  destruct (match sticky with Some s => if decide (s ∈ hs) then Some s else None | None => None end) as [s|] eqn:Es.
  - destruct sticky as [s0|]; [|done]. case_decide as Hin; [|done]. simplify_eq.
    destruct (SelectBackend_ok [s] lb Hlb ltac:(discriminate)) as (best2 & lb2 & -> & _ & ->%list_elem_of_singleton & _).
    eexists. split_and!; [done|done|done|]. intros _. exists s. simpl. rewrite list_lookup_insert_eq by done. split_and!; [done|done|].
    left. by exists s.
  - assert (Hno : ∀ address, sticky = Some address → address ∉ hs) by (intros s Hs; rewrite Hs in Es; by case_decide).
    exists (mkProxy cb lb' (<[i := Serving best noHeader]> rs)). split_and!; [|done|done|].
    + destruct sticky as [s|]; [rewrite decide_False by (by apply Hno)|]; by rewrite E.
    + intros _. exists best. simpl. rewrite list_lookup_insert_eq by done. split_and!; [done|done|]. right. by split.
Qed.

(** ** A recovered backend that is not chosen *)

(** The request may still report an outcome of the backend. *)
Definition involves (a : string) (ph : phase) : Prop :=
  match ph with
  | Filtering _ _ healthy => a ∈ healthy
  | Serving b _ => b = a
  | _ => False
  end.

(** The half-open circuit's probe slots are taken and nobody will return one. *)
Record abandoned (a : string) (p : UserSpaceProxy) : Prop := {
  abandoned_balancer : balancer_inv (loadBalancer p);
  abandoned_circuit : ∃ c, circuits (circuitBreaker p) !! a = Some c ∧ circuitState c = CircuitHalfOpen ∧
    halfOpenMaxRequests (config (circuitBreaker p)) ≤ halfOpenInFlight c;
  abandoned_by_all : Forall (λ ph, ¬ involves a ph) (requests p)
}.

Lemma abandoned_refused a now p : abandoned a p → AllowRequest a now (circuitBreaker p) = (false, circuitBreaker p).
Proof.
  intros [_ (c & Hc & Hs & Hm) _]. unfold AllowRequest. rewrite Hc, Hs. destruct (Z.ltb_spec (halfOpenInFlight c) (halfOpenMaxRequests (config (circuitBreaker p)))); [lia|done].
Qed.

(** Reports about other backends leave it as it is. *)
Lemma abandoned_event a e b cb lb lb' rs i ph :
  abandoned a (mkProxy cb lb rs) → eventBackend e = Some b → b ≠ a → balancer_inv lb' → ¬ involves a ph →
  abandoned a (mkProxy (breakerStep cb e) lb' (<[i := ph]> rs)).
Proof.
  intros [_ Hc Hall] Eb Hb Hlb Hph. split; [done| |simpl in *; by apply Forall_insert]. simpl in *.
  by rewrite config_step, (breakerStep_other e cb b a Eb Hb).
Qed.

Lemma abandoned_phase a cb lb lb' rs i ph :
  abandoned a (mkProxy cb lb rs) → balancer_inv lb' → ¬ involves a ph → abandoned a (mkProxy cb lb' (<[i := ph]> rs)).
Proof. intros [_ Hc Hall] Hlb Hph. split; [done|done|simpl in *; by apply Forall_insert]. Qed.

Lemma abandoned_outcome a b recorder now cb lb rs i :
  abandoned a (mkProxy cb lb rs) → b ≠ a → abandoned a (mkProxy (recordOutcome b recorder now cb) lb (<[i := Releasing b recorder]> rs)).
Proof.
  intros Ha Hb. pose proof (abandoned_balancer _ _ Ha) as Hlb. simpl in Hlb. unfold recordOutcome. destruct (_ <=? _).
  - exact (abandoned_event a (EvFailure b now) b cb lb lb rs i (Releasing b recorder) Ha eq_refl Hb Hlb (λ f, f)).
  - destruct (wroteHeader recorder); [exact (abandoned_event a (EvSuccess b) b cb lb lb rs i (Releasing b recorder) Ha eq_refl Hb Hlb (λ f, f))|(eapply abandoned_phase; [exact Ha|done|simpl; tauto])].
Qed.

Lemma abandoned_step a p e p' : abandoned a p → forwardToBackend e p = Next p' → abandoned a p'.
Proof.
  intros Ha. pose proof (abandoned_refused a) as Href. destruct p as [cb lb rs].
  pose proof Ha as [Hlb Hc Hall]. simpl in Hlb, Hall. rewrite Forall_lookup in Hall.
  destruct e as [cookies eps|i now|i gate|i code|i now|i now|i|i]; simpl.
  { intros [= <-]. split; [done|done|]. simpl. rewrite <-Forall_lookup in Hall. apply Forall_app. split; [done|].
    constructor; [|constructor]. simpl. by intros ?%elem_of_nil. }
  all: destruct (rs !! i) as [ph|] eqn:Ei; [|done]; specialize (Hall i ph Ei).
  all: destruct ph as [cookies [|ep rest] healthy|b rec|b rec|rec]; try done; simpl in Hall.
  - destruct (decide (candidateAddress ep = a)) as [Hep|Hep].
    + specialize (Href now _ Ha). simpl in Href. rewrite Hep, Href. intros [= <-]. (eapply abandoned_phase; [exact Ha|done|simpl; tauto]).
    + destruct (AllowRequest (candidateAddress ep) now cb) as [ok cb'] eqn:Ea. intros [= <-].
      pose proof (abandoned_event a (EvAllow (candidateAddress ep) now) (candidateAddress ep) cb lb lb rs i
        (Filtering cookies rest (if ok then healthy ++ [candidateAddress ep] else healthy)) Ha eq_refl Hep Hlb) as Hs.
      simpl in Hs. rewrite Ea in Hs. apply Hs. destruct ok; [|done]. rewrite elem_of_app, list_elem_of_singleton. intros [?|?]; [done|by destruct Hep].
  - destruct healthy as [|c healthy]; [intros [= <-]; (eapply abandoned_phase; [exact Ha|done|simpl; tauto])|].
    destruct (selectGateBackend_ok cookies gate (c :: healthy) lb Hlb ltac:(discriminate)) as (best & lb' & -> & H1 & H2 & _).
    intros [= <-]. eapply abandoned_phase; [exact Ha|done|]. simpl. by intros ->.
  - intros [= <-]. (eapply abandoned_phase; [exact Ha|done|simpl; tauto]).
  - intros [= <-]. exact (abandoned_event a (EvFailure b now) b cb lb lb rs i (Serving b (WriteHeader StatusBadGateway rec)) Ha eq_refl Hall Hlb Hall).
  - intros [= <-]. by apply abandoned_outcome.
  - intros [= <-]. (eapply abandoned_phase; [exact Ha|done|simpl; tauto]).
  - destruct (ReleaseBackend_ok b lb Hlb) as (lb' & -> & H1 & _). intros [= <-]. (eapply abandoned_phase; [exact Ha|done|simpl; tauto]).
Qed.

(** C40: Filtering takes a probe slot of every half-open candidate, and only the
    backend chosen reports back. Once the slots of a half-open circuit are held
    by handlers that chose other backends, every handler, whatever happens and
    however much time passes, is refused that backend: it never receives a
    request again. *)
Theorem abandoned_forever a p p' :
  abandoned a p → proxy_reachable p p' →
  (∀ now, AllowRequest a now (circuitBreaker p') = (false, circuitBreaker p')) ∧
  ∀ i recorder, requests p' !! i ≠ Some (Serving a recorder).
Proof.
  intros Ha Hp. assert (Ha' : abandoned a p') by (induction Hp as [|p1 e p2 _ IH E]; [done|by eapply abandoned_step]).
  split; [intros now; by apply abandoned_refused|]. intros i recorder Hi.
  pose proof (abandoned_by_all _ _ Ha') as Hall. rewrite Forall_lookup in Hall. by apply (Hall i _ Hi).
Qed.

(** ** Concrete runs *)

Definition backendA : Endpoint := mkEndpoint "web" "web-a" "10.0.0.1" 80.
Definition backendB : Endpoint := mkEndpoint "web" "web-b" "10.0.0.2" 80.

Definition admitted (i : nat) (now : Z) : list proxyEvent :=
  [EvArrive [] [backendB; backendA]; EvFilter i now; EvFilter i now; EvSelect i None].
Definition answered (i : nat) (now : Z) : list proxyEvent := [EvWriteHeader i 200; EvServed i now; EvRelease i].
Definition failed (i : nat) (now : Z) : list proxyEvent := [EvTransportError i now; EvServed i now; EvRelease i].

(** Two requests at a time: B answers one and A fails the other. *)
Definition roundWithFailure (i : nat) : list proxyEvent :=
  admitted i 0 ++ admitted (S i) 0 ++ answered i 0 ++ failed (S i) 0.

Definition failingRun : list proxyEvent := roundWithFailure 0 ++ roundWithFailure 2 ++ roundWithFailure 4.

(** Ten seconds later one request, which B answers. *)
Definition abandoningRun : list proxyEvent := failingRun ++ admitted 6 (10 * second) ++ answered 6 (10 * second).

Definition stateAfter (evs : list proxyEvent) : UserSpaceProxy :=
  match proxyRun evs NewUserSpaceProxy with Next p => p | _ => NewUserSpaceProxy end.

Lemma stateAfter_reachable evs : proxy_reachable NewUserSpaceProxy (stateAfter evs).
Proof.
  unfold stateAfter. destruct (proxyRun evs NewUserSpaceProxy) as [p| |] eqn:E; [|constructor..]. by eapply proxyRun_reachable.
Qed.

(** The error handler records a failure, and the 502 it writes is recorded as
    another: three transport errors open a circuit whose threshold is five. *)
Theorem transport_errors_count_twice :
  failureThreshold (config (circuitBreaker (stateAfter failingRun))) = 5 ∧
  circuits (circuitBreaker (stateAfter failingRun)) !! "10.0.0.1:80" = Some (mkCircuit CircuitOpen 6 0 0 0).
Proof. vm_compute. split; reflexivity. Qed.

Lemma proxy_connections_balanced_witness :
  ActiveConnections (loadBalancer (stateAfter (admitted 0 0 ++ admitted 1 0))) "10.0.0.1:80" = 1 ∧
  inFlight "10.0.0.1:80" (requests (stateAfter (admitted 0 0 ++ admitted 1 0))) = 1%nat.
Proof.
  split; [|vm_compute; reflexivity].
  rewrite (proj1 (proj2 (proxy_connections_balanced (stateAfter (admitted 0 0 ++ admitted 1 0))
    (stateAfter_reachable _)))). vm_compute. reflexivity.
Defined.

Lemma proxy_selects_witness :
  let gate := mkGate "shop.example" "shop" "web" (Some (mkCookieConfig "" false true "lax")) false in
  let p := stateAfter [EvArrive [("__CCA_STICKY_web", "10.0.0.1:80")] [backendB; backendA]; EvFilter 0 0; EvFilter 0 0] in
  ∃ p', forwardToBackend (EvSelect 0 (Some gate)) p = Next p' ∧ requests p' !! 0%nat = Some (Serving "10.0.0.1:80" noHeader).
Proof.
  intros gate p. destruct (proxy_selects p 0 [("__CCA_STICKY_web", "10.0.0.1:80")] ["10.0.0.2:80"; "10.0.0.1:80"] (Some gate)
    (stateAfter_reachable _)
    ltac:(vm_compute; reflexivity)) as (p' & E & _). exists p'. split; [exact E|].
  vm_compute in E. injection E as <-. reflexivity.
Defined.

Lemma abandoned_forever_witness :
  fst (AllowRequest "10.0.0.1:80" (3600 * second) (circuitBreaker (stateAfter abandoningRun))) = false.
Proof.
  rewrite (proj1 (abandoned_forever "10.0.0.1:80" (stateAfter abandoningRun) (stateAfter abandoningRun)
    ltac:(split; [apply proxy_reachable_inv, stateAfter_reachable
                 |eexists; split_and!; [vm_compute; reflexivity|vm_compute; reflexivity|vm_compute; discriminate]
                 |vm_compute; repeat constructor; intros []])
    (reach_refl _)) (3600 * second)). reflexivity.
Defined.
