(* ===== verification/GoRegexp.v ===== *)
(** * Anchored regular expressions ([regexp.MatchString] of a pattern ^...$)

    The language of an expression is an inductive relation; the matcher takes
    one derivative per byte, simplified as it is built, and is proved to decide
    the language. Bounded repetition is nested options. *)

From S2P Require Import Prelude GoStrings.

Inductive regex :=
| Never
| Empty
| Byte (class : ascii → bool)
| Seq (r s : regex)
| Alt (r s : regex)
| Star (r : regex).

Definition Opt (r : regex) : regex := Alt Empty r.

(** [r{0,n}] *)
Fixpoint UpTo (n : nat) (r : regex) : regex :=
  match n with 0 => Empty | S n' => Opt (Seq r (UpTo n' r)) end.

Inductive matches : regex → string → Prop :=
| matches_empty : matches Empty ""
| matches_byte class c : class c = true → matches (Byte class) (String c "")
| matches_seq r s a b : matches r a → matches s b → matches (Seq r s) (a +:+ b)
| matches_left r s a : matches r a → matches (Alt r s) a
| matches_right r s a : matches s a → matches (Alt r s) a
| matches_done r : matches (Star r) ""
| matches_more r a b : matches r a → matches (Star r) b → matches (Star r) (a +:+ b).

#[export] Hint Constructors matches : go.

(** ** The matcher *)

Definition seq (r s : regex) : regex :=
  match r, s with
  | Never, _ | _, Never => Never
  | Empty, _ => s
  | _, _ => Seq r s
  end.

Definition alt (r s : regex) : regex :=
  match r, s with
  | Never, _ => s
  | _, Never => r
  | _, _ => Alt r s
  end.

Fixpoint nullable (r : regex) : bool :=
  match r with
  | Never | Byte _ => false
  | Empty | Star _ => true
  | Seq r s => nullable r && nullable s
  | Alt r s => nullable r || nullable s
  end.

Fixpoint derivative (c : ascii) (r : regex) : regex :=
  match r with
  | Never | Empty => Never
  | Byte class => if class c then Empty else Never
  | Seq r s => if nullable r then alt (seq (derivative c r) s) (derivative c s) else seq (derivative c r) s
  | Alt r s => alt (derivative c r) (derivative c s)
  | Star r => seq (derivative c r) (Star r)
  end.

Fixpoint MatchString (r : regex) (s : string) : bool :=
  match s with "" => nullable r | String c s' => MatchString (derivative c r) s' end.

(** ** It decides the language *)

Lemma matches_never s : ¬ matches Never s.
Proof. inversion 1. Qed.

Lemma matches_Empty s : matches Empty s ↔ s = "".
Proof. split; [by inversion 1|intros ->; constructor]. Qed.

Lemma matches_Byte class s : matches (Byte class) s ↔ ∃ c, s = String c "" ∧ class c = true.
Proof. split; [inversion 1; eauto|intros (c & -> & Hc); by constructor]. Qed.

Lemma matches_Seq r s x : matches (Seq r s) x ↔ ∃ a b, x = a +:+ b ∧ matches r a ∧ matches s b.
Proof. split; [inversion 1; eauto 6|intros (a & b & -> & Ha & Hb); by constructor]. Qed.

Lemma matches_Alt r s x : matches (Alt r s) x ↔ matches r x ∨ matches s x.
Proof. split; [inversion 1; eauto|intros [H|H]; eauto with go]. Qed.

Lemma matches_seq_simpl r s x : matches (seq r s) x ↔ matches (Seq r s) x.
Proof.
  assert (Hl : ∀ s, ¬ matches (Seq Never s) x) by (intros ? (a & b & _ & Ha & _)%matches_Seq; by apply matches_never in Ha).
  assert (Hr : ∀ r, ¬ matches (Seq r Never) x) by (intros ? (a & b & _ & _ & Hb)%matches_Seq; by apply matches_never in Hb).
  assert (Hn : ¬ matches Never x) by apply matches_never.
  assert (He : ∀ s, matches s x ↔ matches (Seq Empty s) x).
  { intros s'. rewrite matches_Seq. split; [intros H; exists "", x; eauto with go|]. by intros (a & b & -> & ->%matches_Empty & ?). }
  destruct r, s; simpl; try done; first [naive_solver|apply He].
Qed.

Lemma matches_alt_simpl r s x : matches (alt r s) x ↔ matches r x ∨ matches s x.
Proof.
  rewrite <-matches_Alt. assert (Hn : ¬ matches Never x) by apply matches_never.
  assert (Hl : ∀ q, matches q x ↔ matches (Alt Never q) x) by (intros q; rewrite matches_Alt; tauto).
  assert (Hr : ∀ q, matches q x ↔ matches (Alt q Never) x) by (intros q; rewrite matches_Alt; tauto).
  destruct r, s; simpl; first [done|apply Hl|apply Hr].
Qed.

Lemma nullable_spec r : nullable r = true ↔ matches r "".
Proof.
  induction r as [| |f|r IHr s IHs|r IHr s IHs|r IHr]; simpl.
  - split; [done|]. intros H. by apply matches_never in H.
  - split; [constructor|done].
  - rewrite matches_Byte. split; [done|]. by intros (c & ? & ?).
  - rewrite andb_true_iff, IHr, IHs, matches_Seq. split; [intros [H1 H2]; by exists "", ""|].
    intros (a & b & E & H1 & H2). symmetry in E. apply str_app_eq_nil in E as [-> ->]. done.
  - by rewrite orb_true_iff, IHr, IHs, matches_Alt.
  - split; [constructor|done].
Qed.

Lemma matches_Star_cons r c s : matches (Star r) (String c s) ↔ ∃ a b, s = a +:+ b ∧ matches r (String c a) ∧ matches (Star r) b.
Proof.
  split.
  - remember (Star r) as q eqn:Eq. remember (String c s) as x eqn:Ex. intros H. revert Eq Ex.
    induction H as [| | | | | |r1 a b H1 _ H2 IH2]; intros Eq Ex; simplify_eq.
    destruct a as [|d a]; [rewrite str_app_nil_l in Ex; by apply IH2|]. rewrite str_app_cons in Ex. simplify_eq. eauto.
  - intros (a & b & -> & Ha & Hb). rewrite <-str_app_cons. by constructor.
Qed.

Lemma derivative_spec c r s : matches (derivative c r) s ↔ matches r (String c s).
Proof.
  revert s. induction r as [| |f|r IHr q IHq|r IHr q IHq|r IHr]; intros s; simpl.
  - split; intros H; by apply matches_never in H.
  - split; intros H; [by apply matches_never in H|by apply matches_Empty in H].
  - rewrite matches_Byte. destruct (f c) eqn:Ef.
    + rewrite matches_Empty. split; [intros ->; eauto|]. intros (d & E & _). by simplify_eq.
    + split; [intros H; by apply matches_never in H|]. intros (d & E & Hd). simplify_eq. congruence.
  - assert (Hseq : matches (seq (derivative c r) q) s ↔ ∃ a b, s = a +:+ b ∧ matches r (String c a) ∧ matches q b).
    { rewrite matches_seq_simpl, matches_Seq. setoid_rewrite IHr. done. }
    assert (Hcons : matches (Seq r q) (String c s) ↔
      (matches r "" ∧ matches q (String c s)) ∨ ∃ a b, s = a +:+ b ∧ matches r (String c a) ∧ matches q b).
    { rewrite matches_Seq. split.
      - intros ([|d a] & b & E & Ha & Hb); [rewrite str_app_nil_l in E; subst; by left|]. rewrite str_app_cons in E. simplify_eq. right. eauto.
      - intros [[H1 H2]|(a & b & -> & Ha & Hb)]; [by exists "", (String c s)|]. exists (String c a), b. by rewrite str_app_cons. }
    rewrite Hcons, <-nullable_spec. destruct (nullable r); [rewrite matches_alt_simpl, IHq, Hseq|rewrite Hseq]; naive_solver.
  - by rewrite matches_alt_simpl, IHr, IHq, matches_Alt.
  - rewrite matches_seq_simpl, matches_Seq, matches_Star_cons. setoid_rewrite IHr. done.
Qed.

Lemma MatchString_spec r s : MatchString r s = true ↔ matches r s.
Proof. revert r. induction s as [|c s IH]; intros r; simpl; [apply nullable_spec|]. by rewrite IH, derivative_spec. Qed.

(** ** Bytes of a class *)

Fixpoint allBytes (class : ascii → bool) (s : string) : bool :=
  match s with "" => true | String c s' => class c && allBytes class s' end.

Lemma allBytes_app class s t : allBytes class (s +:+ t) = allBytes class s && allBytes class t.
Proof. induction s as [|c s IH]; [done|]. rewrite str_app_cons. simpl. by rewrite IH, andb_assoc. Qed.

Lemma matches_UpTo class n s : matches (UpTo n (Byte class)) s ↔ String.length s ≤ n ∧ allBytes class s = true.
Proof.
  revert s. induction n as [|n IH]; intros s; simpl.
  { rewrite matches_Empty. split; [by intros ->|]. destruct s; simpl; [done|lia]. }
  unfold Opt. rewrite matches_Alt, matches_Empty, matches_Seq. split.
  - intros [->|(a & b & -> & (c & -> & Hc)%matches_Byte & (Hl & Hb)%IH)]; [simpl; split; [lia|done]|]. rewrite str_app_cons, str_app_nil_l. simpl.
    rewrite Hc. split; [lia|done].
  - intros [Hl Ha]. destruct s as [|c s]; [by left|right]. simpl in *. apply andb_true_iff in Ha as [Hc Ha].
    exists (String c ""), s. split_and!; [done|by constructor|apply IH; split; [lia|done]].
Qed.
