(* ===== verification/Validation.v ===== *)
(** * Names and durations (src/types/validate.go)

    The three patterns as expressions of [GoRegexp], the three validators, and
    what they accept in terms of the parts of a name. *)

From S2P Require Import Prelude GoStrings GoRegexp.

(** ** Patterns *)

Definition inRange (lo hi c : ascii) : bool :=
  ((nat_of_ascii lo <=? nat_of_ascii c)%nat && (nat_of_ascii c <=? nat_of_ascii hi)%nat)%bool.

(** [a-z0-9] *)
Definition alphanumeric (c : ascii) : bool := inRange "a" "z" c || inRange "0" "9" c.
Definition hyphen : ascii := "-".
(** [a-z0-9-] *)
Definition alphanumericOrHyphen (c : ascii) : bool := alphanumeric c || bool_decide (c = hyphen).

(** [a-z0-9]([a-z0-9-]{0,n}[a-z0-9])? *)
Definition labelPattern (n : nat) : regex :=
  Seq (Byte alphanumeric) (Opt (Seq (UpTo n (Byte alphanumericOrHyphen)) (Byte alphanumeric))).

Definition isDot (c : ascii) : bool := bool_decide (c = "."%char).
Definition isDotOrSlash (c : ascii) : bool := bool_decide (c = "."%char) || bool_decide (c = "/"%char).

Definition validResourceNamePattern : regex := labelPattern 251.
Definition validNodeIDPattern : regex := Seq (labelPattern 61) (Star (Seq (Byte isDot) (labelPattern 61))).
Definition validSecretNamePattern : regex := Seq (labelPattern 251) (Star (Seq (Byte isDotOrSlash) (labelPattern 251))).

Definition MaxResourceNameLength : nat := 253.

(** ** Validators *)

Inductive NameError := NameEmpty | NameTooLong | NameTraversal | NameInvalid.

#[export] Instance NameError_eq_dec : EqDecision NameError.
Proof. solve_decision. Defined.

Definition ValidateResourceName (resourceName : string) : option NameError :=
  if decide (resourceName = "") then Some NameEmpty
  else if (MaxResourceNameLength <? String.length resourceName)%nat then Some NameTooLong
  else if negb (MatchString validResourceNamePattern resourceName) then Some NameInvalid
  else None.

Definition ValidateNodeID (nodeID : string) : option NameError :=
  if decide (nodeID = "") then Some NameEmpty
  else if (MaxResourceNameLength <? String.length nodeID)%nat then Some NameTooLong
  else if negb (MatchString validNodeIDPattern nodeID) then Some NameInvalid
  else None.

Definition ValidateSecretName (secretName : string) : option NameError :=
  if decide (secretName = "") then Some NameEmpty
  else if (MaxResourceNameLength <? String.length secretName)%nat then Some NameTooLong
  else if Contains secretName ".." then Some NameTraversal
  else if negb (MatchString validSecretNamePattern secretName) then Some NameInvalid
  else None.

(** An unparsable number is what [Atoi] returns with its error. *)
Definition ParseDurationSeconds (durationString : string) : Z :=
  let durationString := TrimSpace durationString in
  if HasSuffix durationString "s" then fst (Atoi (TrimSuffix durationString "s"))
  else if HasSuffix durationString "m" then (fst (Atoi (TrimSuffix durationString "m")) *! 60)%go
  else fst (Atoi durationString).

(** ** Labels *)

(** What a name or a part of one looks like. *)
Record valid_label (n : nat) (s : string) : Prop := {
  label_nonempty : s ≠ "";
  label_length : String.length s ≤ n;
  label_bytes : allBytes alphanumericOrHyphen s = true;
  label_no_prefix : HasPrefix s "-" = false;
  label_no_suffix : HasSuffix s "-" = false
}.

Lemma str_last s : s = "" ∨ ∃ r c, s = r +:+ String c "".
Proof.
  induction s as [|d s [->|(r & c & ->)]]; [by left|right; by exists "", d|right]. exists (String d r), c. by rewrite str_app_cons.
Qed.

Lemma alphanumeric_hyphen c : alphanumeric c = true ↔ alphanumericOrHyphen c = true ∧ c ≠ hyphen.
Proof.
  unfold alphanumericOrHyphen. destruct (decide (c = hyphen)) as [->|Hc].
  - rewrite bool_decide_true by done. split; [vm_compute; done|tauto].
  - rewrite bool_decide_false, orb_false_r by done. tauto.
Qed.

Lemma HasPrefix_hyphen c s : HasPrefix (String c s) "-" = bool_decide (c = hyphen).
Proof.
  apply eq_bool_prop_intro. rewrite bool_decide_spec, Is_true_true, HasPrefix_spec. split.
  - intros [r E]. rewrite str_app_cons in E. by simplify_eq.
  - intros ->. by exists s.
Qed.

Lemma HasSuffix_hyphen s c : HasSuffix (s +:+ String c "") "-" = bool_decide (c = hyphen).
Proof.
  apply eq_bool_prop_intro. rewrite bool_decide_spec, Is_true_true, HasSuffix_spec. split.
  - intros [r E]. assert (Hinj : ∀ r s, s +:+ String c "" = r +:+ "-" → c = hyphen); [|by eapply Hinj].
    clear. intros r. induction r as [|d r IH]; intros s E.
    + destruct s as [|e s]; [by simplify_eq/=|]. destruct s; simplify_eq/=.
    + destruct s as [|e s]; [destruct r; simplify_eq/=|]. rewrite !str_app_cons in E. simplify_eq. by eapply IH.
  - intros ->. by exists s.
Qed.

Lemma matches_labelPattern n s : matches (labelPattern n) s ↔ valid_label (S (S n)) s.
Proof.
  unfold labelPattern, Opt. rewrite matches_Seq. split.
  - intros (a & b & -> & (c & -> & Hc)%matches_Byte & Hb). rewrite str_app_cons, str_app_nil_l. apply alphanumeric_hyphen in Hc as [Hc1 Hc2].
    apply matches_Alt in Hb as [->%matches_Empty|(m & l & -> & (Hml & Hm)%matches_UpTo & (d & -> & Hd)%matches_Byte)%matches_Seq].
    + split; [done|simpl; lia|simpl; by rewrite Hc1|rewrite HasPrefix_hyphen; by apply bool_decide_false|].
      rewrite <-(str_app_nil_l (String c "")), HasSuffix_hyphen. by apply bool_decide_false.
    + apply alphanumeric_hyphen in Hd as [Hd1 Hd2]. split; [done| | |rewrite HasPrefix_hyphen; by apply bool_decide_false|].
      * simpl. rewrite str_length_app. simpl. lia.
      * simpl. by rewrite Hc1, allBytes_app, Hm; simpl; rewrite Hd1.
      * rewrite <-str_app_cons, HasSuffix_hyphen. by apply bool_decide_false.
  - intros [Hne Hlen Hall Hpre Hsuf]. destruct s as [|c s]; [done|]. simpl in Hall, Hlen. apply andb_true_iff in Hall as [Hc Hall].
    rewrite HasPrefix_hyphen in Hpre. apply bool_decide_eq_false in Hpre.
    exists (String c ""), s. split_and!; [done|constructor; by apply alphanumeric_hyphen|]. apply matches_Alt.
    destruct (str_last s) as [->|(r & d & ->)]; [left; constructor|right]. rewrite <-str_app_cons, HasSuffix_hyphen in Hsuf.
    apply bool_decide_eq_false in Hsuf. rewrite allBytes_app in Hall. apply andb_true_iff in Hall as [Hr Hd]. simpl in Hd. rewrite andb_true_r in Hd.
    rewrite str_length_app in Hlen. simpl in Hlen. constructor; [apply matches_UpTo; split; [lia|done]|constructor; by apply alphanumeric_hyphen].
Qed.

(** ** Names made of labels *)

(** The parts of a text between separators. *)
Fixpoint partsOf (sep : ascii → bool) (s : string) : list string :=
  match s with
  | "" => [""]
  | String c s' =>
      if sep c then "" :: partsOf sep s'
      else match partsOf sep s' with part :: rest => String c part :: rest | [] => [String c ""] end
  end.

Lemma partsOf_free sep a : allBytes (negb ∘ sep) a = true → partsOf sep a = [a].
Proof. induction a as [|c a IH]; simpl; [done|]. rewrite andb_true_iff, negb_true_iff. intros [-> Ha]. by rewrite IH. Qed.

Lemma partsOf_app sep a c b :
  allBytes (negb ∘ sep) a = true → sep c = true → partsOf sep (a +:+ String c b) = a :: partsOf sep b.
Proof.
  intros Ha Hc. induction a as [|d a IH]; [rewrite str_app_nil_l; simpl; by rewrite Hc|]. rewrite str_app_cons. simpl in *.
  rewrite andb_true_iff, negb_true_iff in Ha. destruct Ha as [-> Ha]. by rewrite IH.
Qed.

Lemma partsOf_cases sep s :
  (allBytes (negb ∘ sep) s = true) ∨ ∃ a c b, s = a +:+ String c b ∧ allBytes (negb ∘ sep) a = true ∧ sep c = true.
Proof.
  induction s as [|c s IH]; [by left|]. simpl. destruct (sep c) eqn:Ec; [right; by exists "", c, s|].
  destruct IH as [IH|(a & d & b & -> & Ha & Hd)]; [by left|right]. exists (String c a), d, b. rewrite str_app_cons. simpl. by rewrite Ec.
Qed.

(** [l(sep l)*] matches exactly the texts whose parts all match [l]. *)
Lemma matches_separated l sep s :
  (∀ x, matches l x → allBytes (negb ∘ sep) x = true) →
  matches (Seq l (Star (Seq (Byte sep) l))) s ↔ Forall (matches l) (partsOf sep s).
Proof.
  intros Hfree. rewrite matches_Seq. split.
  - intros (a & b & -> & Ha & Hb). revert a Ha. remember (Star (Seq (Byte sep) l)) as q eqn:Eq.
    induction Hb as [| | | | |r|r x y Hx _ _ IHy]; intros prefix Ha; simplify_eq.
    + rewrite str_app_nil_r, partsOf_free by (by apply Hfree). by constructor.
    + apply matches_Seq in Hx as (d & x' & -> & (c & -> & Hc)%matches_Byte & Hx').
      rewrite str_app_cons, str_app_nil_l, str_app_cons, partsOf_app by (done || by apply Hfree). constructor; [done|]. by apply IHy.
  - remember (String.length s) as n eqn:En. revert s En. induction (lt_wf n) as [n _ IH]. intros s -> Hs.
    destruct (partsOf_cases sep s) as [Hf|(a & c & b & -> & Ha & Hc)].
    + rewrite partsOf_free in Hs by done. apply Forall_cons in Hs as [Hs _]. exists s, "". rewrite str_app_nil_r. split_and!; [done|done|constructor].
    + rewrite partsOf_app in Hs by done. apply Forall_cons in Hs as [Hma Hs].
      destruct (IH (String.length b)) with b as (x & y & -> & Hx & Hy); [rewrite str_length_app; simpl; lia|done|done|].
      exists a, (String c (x +:+ y)). split_and!; [done|done|]. rewrite <-str_app_cons. apply matches_more; [|done].
      rewrite <-(str_app_nil_l x), <-str_app_cons. constructor; [by constructor|done].
Qed.

Lemma allBytes_weaken p q s : (∀ c, p c = true → q c = true) → allBytes p s = true → allBytes q s = true.
Proof. intros H. induction s as [|c s IH]; simpl; [done|]. rewrite !andb_true_iff. naive_solver. Qed.

Lemma alphanumeric_separator c : alphanumericOrHyphen c = true → isDotOrSlash c = false.
Proof.
  intros Hc. apply orb_false_iff. split; apply bool_decide_false; intros ->; vm_compute in Hc; discriminate.
Qed.

Lemma label_free n s : matches (labelPattern n) s → allBytes (negb ∘ isDotOrSlash) s = true.
Proof.
  intros H%matches_labelPattern. eapply allBytes_weaken; [|exact (label_bytes _ _ H)]. intros c Hc. simpl. by rewrite alphanumeric_separator.
Qed.

Lemma label_dot_free n s : matches (labelPattern n) s → allBytes (negb ∘ isDot) s = true.
Proof.
  intros H%label_free. eapply allBytes_weaken; [|exact H]. intros c. simpl. unfold isDotOrSlash. rewrite negb_orb, andb_true_iff. tauto.
Qed.

Lemma Forall_labels n l : Forall (matches (labelPattern n)) l ↔ Forall (valid_label (S (S n))) l.
Proof. apply Forall_iff. intros x. apply matches_labelPattern. Qed.

Lemma partsOf_split sep a c b : sep c = true → partsOf sep (a +:+ String c b) = partsOf sep a ++ partsOf sep b.
Proof.
  intros Hc. induction a as [|d a IH]; [rewrite str_app_nil_l; simpl; by rewrite Hc|]. rewrite str_app_cons. simpl. rewrite IH.
  destruct (sep d); [done|]. by destruct (partsOf sep a) eqn:E; [destruct a; simpl in E; repeat case_match|].
Qed.

(** Labels between separators rule out two dots in a row. *)
Lemma no_traversal n s : Forall (valid_label n) (partsOf isDotOrSlash s) → Contains s ".." = false.
Proof.
  intros H. apply not_true_is_false. intros (a & b & ->)%Contains_spec. rewrite str_app_cons, str_app_cons, str_app_nil_l in H.
  rewrite partsOf_split in H by done. apply Forall_app in H as [_ H]. simpl in H. apply Forall_cons in H as [[H _] _]. done.
Qed.

Lemma empty_no_label n sep s : Forall (valid_label n) (partsOf sep s) → s ≠ "".
Proof. intros H ->. simpl in H. apply Forall_cons in H as [[H _] _]. done. Qed.

(** What the validators accept: a resource name is a label of at most 253 bytes
    (lower-case letters, digits and hyphens, not at its ends); a node ID is at
    most 253 bytes of labels of at most 63 with dots between them; a secret name
    is at most 253 bytes of labels with dots or slashes between them. In
    particular the pattern of secret names leaves nothing for the check of ".."
    to refuse. *)
Theorem names_validated s :
  (ValidateResourceName s = None ↔ valid_label 253 s) ∧
  (ValidateNodeID s = None ↔ String.length s ≤ 253 ∧ Forall (valid_label 63) (partsOf isDot s)) ∧
  (ValidateSecretName s = None ↔ String.length s ≤ 253 ∧ Forall (valid_label 253) (partsOf isDotOrSlash s)) ∧
  (MatchString validSecretNamePattern s = true → ValidateSecretName s ≠ Some NameTraversal).
Proof.
  assert (Hlen : (MaxResourceNameLength <? String.length s)%nat = false ↔ String.length s ≤ 253) by (rewrite Nat.ltb_ge; done).
  assert (Hm : ∀ r, negb (MatchString r s) = false ↔ matches r s) by (intros r; rewrite negb_false_iff; apply MatchString_spec).
  assert (Hr : matches validResourceNamePattern s ↔ valid_label 253 s) by apply matches_labelPattern.
  assert (Hn : matches validNodeIDPattern s ↔ Forall (valid_label 63) (partsOf isDot s)).
  { rewrite <-Forall_labels. apply matches_separated. intros x. apply label_dot_free. }
  assert (Hs : matches validSecretNamePattern s ↔ Forall (valid_label 253) (partsOf isDotOrSlash s)).
  { rewrite <-Forall_labels. apply matches_separated. intros x. apply label_free. }
  rewrite <-(Hm validResourceNamePattern) in Hr. rewrite <-(Hm validNodeIDPattern) in Hn. rewrite <-(Hm validSecretNamePattern) in Hs.
  pose proof (empty_no_label 63 isDot s) as He1. pose proof (empty_no_label 253 isDotOrSlash s) as He2. pose proof (no_traversal 253 s) as Ht.
  split_and!.
  - unfold ValidateResourceName. split.
    + case_decide; [done|]. destruct (Nat.ltb_spec MaxResourceNameLength (String.length s)); [done|]. case_match; [done|]. intros _. by apply Hr.
    + intros Hv. rewrite decide_False by apply (label_nonempty _ _ Hv). rewrite (proj2 Hlen), (proj2 Hr Hv) by apply (label_length _ _ Hv). done.
  - unfold ValidateNodeID. split.
    + case_decide; [done|]. case_match eqn:E; [done|]. case_match; [done|]. intros _. split; [by apply Hlen|by apply Hn].
    + intros [Hl Hv]. rewrite decide_False by (by apply He1). by rewrite (proj2 Hlen), (proj2 Hn).
  - unfold ValidateSecretName. split.
    + case_decide; [done|]. case_match eqn:E; [done|]. case_match; [done|]. case_match; [done|]. intros _. split; [by apply Hlen|by apply Hs].
    + intros [Hl Hv]. rewrite decide_False by (by apply He2). by rewrite (proj2 Hlen), (Ht Hv), (proj2 Hs).
  - intros Hv. apply negb_false_iff, Hs, Ht in Hv. unfold ValidateSecretName. rewrite Hv. by repeat case_match.
Qed.
