(* ===== verification/KeyNames.v ===== *)
(** * The key builders (src/types/keys.go)

    Every prefix, scan prefix and key builder of the file that [Keys] does not
    hold, in the order of the source. [fmt.Sprintf] with [%s] is concatenation,
    with [%d] it is [Itoa]. *)

From S2P Require Import Prelude GoFmt Keys.

(** ** Prefixes *)

Definition Root : string := "".
Definition PrefixEndpoint : string := "endpoint".
Definition PrefixLease : string := "lease".
Definition PrefixEvent : string := "event".
Definition PrefixNetwork : string := "network".
Definition PrefixAudit : string := "audit".
Definition PrefixObservedTelemetry : string := PrefixObserved +:+ "/telemetry".
Definition ScanAuthUsers : string := PrefixAuth +:+ "/user/".
Definition ScanObservedServices : string := PrefixObserved +:+ "/service/".
Definition ScanEndpoints : string := PrefixEndpoint +:+ "/service/".
Definition ScanLeaseNodes : string := PrefixLease +:+ "/node/".
Definition ScanNetworkNodeSubnets : string := PrefixNetwork +:+ "/node/".
Definition ScanNetworkAllocations : string := PrefixNetwork +:+ "/allocation/".
Definition ScanNetworkVIPs : string := PrefixNetwork +:+ "/vip/service/".
Definition ScanNetworkDNS : string := PrefixNetwork +:+ "/dns/".
Definition ScanDesiredVolumes : string := PrefixDesired +:+ "/volume/".
Definition ScanObservedMetrics : string := PrefixObserved +:+ "/metric/".
Definition ScanObservedTelemetryInstances : string := PrefixObservedTelemetry +:+ "/instance/".
Definition ScanDerivedCredentials : string := PrefixDerived +:+ "/credential/".
Definition ScanDerivedNodes : string := PrefixDerived +:+ "/node/".
Definition ScanDerivedVolumes : string := PrefixDerived +:+ "/volume/".
Definition ScanDerivedCloudLoadBalancers : string := PrefixDerived +:+ "/cloud/loadbalancer/".
Definition ScanDerivedCloudRoutes : string := PrefixDerived +:+ "/cloud/route/".
Definition ScanDerivedCapacityRequests : string := PrefixDerived +:+ "/capacity/request/".
Definition ScanNetworkDNSInstances : string := PrefixNetwork +:+ "/dns/instance/".
Definition ScanNetworkDNSHostnames : string := PrefixNetwork +:+ "/dns/hostname/".
Definition PrefixDesiredTenant : string := PrefixDesired +:+ "/tenant/".
Definition PrefixObservedTenant : string := PrefixObserved +:+ "/tenant/".
Definition ScanDesiredTenants : string := PrefixDesiredTenant.
Definition PrefixExport : string := "export/".
Definition PrefixImport : string := "import/".
Definition ScanDesiredCloudIdentities : string := PrefixDesired +:+ "/cloud_identity/".
Definition ScanDesiredCredentialBroker : string := PrefixDesired +:+ "/credential_broker/".
Definition ScanObservedCredentials : string := PrefixObserved +:+ "/credential/".
Definition ScanDerivedCrashLoops : string := PrefixDerived +:+ "/crash-loop/".
Definition ScanDesiredCloud : string := PrefixDesired +:+ "/cloud/".
Definition ScanObservedCloudInstances : string := PrefixObserved +:+ "/cloud/instance/".
Definition ScanObservedCloudLoadBalancers : string := PrefixObserved +:+ "/cloud/loadbalancer/".
Definition ScanObservedCloudRoutes : string := PrefixObserved +:+ "/cloud/route/".
Definition ScanNetworkPolicies : string := "policy/network/".
Definition ScanDerivedNetworkRules : string := "derived/network/rule/".
Definition ScanDesiredRoutes : string := PrefixDesired +:+ "/route/".
Definition ScanDerivedRoutes : string := PrefixDerived +:+ "/route/".
Definition ScanDesiredJobs : string := PrefixDesired +:+ "/job/".
Definition ScanDerivedJobs : string := PrefixDerived +:+ "/job/".
Definition ScanDesiredCronJobs : string := "desired/cronjob/".
Definition ScanDerivedCronJobs : string := "derived/cronjob/".

(** ** Keys *)

Definition KeyDesiredService (name : string) : string := PrefixDesired +:+ "/service/" +:+ name.
Definition KeyDesiredServiceImage (name : string) : string := PrefixDesired +:+ "/service/" +:+ name +:+ "/image".
Definition KeyDesiredServiceCommand (name : string) : string := PrefixDesired +:+ "/service/" +:+ name +:+ "/command".
Definition KeyDesiredServicePullPolicy (name : string) : string := PrefixDesired +:+ "/service/" +:+ name +:+ "/pull_policy".
Definition KeyDesiredServiceImagePullSecret (name : string) : string := PrefixDesired +:+ "/service/" +:+ name +:+ "/image_pull_secret".
Definition KeyDesiredServiceLoggingMaxSize (name : string) : string := PrefixDesired +:+ "/service/" +:+ name +:+ "/logging/max_size".
Definition KeyDesiredServiceLoggingMaxFiles (name : string) : string := PrefixDesired +:+ "/service/" +:+ name +:+ "/logging/max_files".
Definition KeyDesiredServiceLifecyclePreStop (name : string) : string := PrefixDesired +:+ "/service/" +:+ name +:+ "/lifecycle/pre_stop".
Definition KeyDesiredServiceLifecyclePostStart (name : string) : string := PrefixDesired +:+ "/service/" +:+ name +:+ "/lifecycle/post_start".
Definition KeyDesiredServiceTerminationGracePeriod (name : string) : string := PrefixDesired +:+ "/service/" +:+ name +:+ "/termination_grace_period".
Definition KeyDesiredServiceInstances (name : string) : string := PrefixDesired +:+ "/service/" +:+ name +:+ "/instances".
Definition KeyDesiredServiceExpose (name : string) (port : Z) : string := PrefixDesired +:+ "/service/" +:+ name +:+ "/expose/" +:+ Itoa port.
Definition KeyDesiredServiceResourcesCPU (name : string) : string := PrefixDesired +:+ "/service/" +:+ name +:+ "/resources/cpu".
Definition KeyDesiredServiceResourcesMemory (name : string) : string := PrefixDesired +:+ "/service/" +:+ name +:+ "/resources/memory".
Definition KeyDesiredServiceResourcesCPULimit (name : string) : string := PrefixDesired +:+ "/service/" +:+ name +:+ "/resources/cpu_limit".
Definition KeyDesiredServiceResourcesMemoryLimit (name : string) : string := PrefixDesired +:+ "/service/" +:+ name +:+ "/resources/memory_limit".
Definition KeyDerivedServiceQoSClass (name : string) : string := PrefixDerived +:+ "/service/" +:+ name +:+ "/qos_class".
Definition KeyDesiredServiceHealthMethod (name : string) : string := PrefixDesired +:+ "/service/" +:+ name +:+ "/health/method".
Definition KeyDesiredServiceHealthPath (name : string) : string := PrefixDesired +:+ "/service/" +:+ name +:+ "/health/path".
Definition KeyDesiredServiceHealthInterval (name : string) : string := PrefixDesired +:+ "/service/" +:+ name +:+ "/health/interval".
Definition KeyDesiredServiceHealthTimeout (name : string) : string := PrefixDesired +:+ "/service/" +:+ name +:+ "/health/timeout".
Definition KeyDesiredServiceTag (serviceName : string) (tagKey : string) : string := PrefixDesired +:+ "/service/" +:+ serviceName +:+ "/tag/" +:+ tagKey.
Definition KeyDesiredServiceTagPrefix (serviceName : string) : string := PrefixDesired +:+ "/service/" +:+ serviceName +:+ "/tag/".
Definition KeyObservedNode (nodeID : string) : string := PrefixObserved +:+ "/node/" +:+ nodeID.
Definition KeyObservedNodeState (nodeID : string) : string := PrefixObserved +:+ "/node/" +:+ nodeID +:+ "/state".
Definition KeyObservedNodeCapacityCPU (nodeID : string) : string := PrefixObserved +:+ "/node/" +:+ nodeID +:+ "/capacity/cpu".
Definition KeyObservedNodeCapacityMemory (nodeID : string) : string := PrefixObserved +:+ "/node/" +:+ nodeID +:+ "/capacity/memory".
Definition KeyObservedNodeAvailableCPU (nodeID : string) : string := PrefixObserved +:+ "/node/" +:+ nodeID +:+ "/available/cpu".
Definition KeyObservedNodeAvailableMemory (nodeID : string) : string := PrefixObserved +:+ "/node/" +:+ nodeID +:+ "/available/memory".
Definition KeyObservedNodeArchitecture (nodeID : string) : string := PrefixObserved +:+ "/node/" +:+ nodeID +:+ "/architecture".
Definition KeyObservedNodeZone (nodeID : string) : string := PrefixObserved +:+ "/node/" +:+ nodeID +:+ "/zone".
Definition KeyObservedNodeAddress (nodeID : string) : string := PrefixObserved +:+ "/node/" +:+ nodeID +:+ "/address".
Definition KeyObservedNodeDebugAddress (nodeID : string) : string := PrefixObserved +:+ "/node/" +:+ nodeID +:+ "/debug_address".
Definition KeyObservedInstanceNode (instanceID : string) : string := PrefixObserved +:+ "/instance/" +:+ instanceID +:+ "/node".
Definition KeyObservedInstanceCreatedAt (instanceID : string) : string := PrefixObserved +:+ "/instance/" +:+ instanceID +:+ "/created-at".
Definition KeyObservedInstanceImage (instanceID : string) : string := PrefixObserved +:+ "/instance/" +:+ instanceID +:+ "/image".
Definition KeyObservedInstancePullStatus (instanceID : string) : string := PrefixObserved +:+ "/instance/" +:+ instanceID +:+ "/pull-status".
Definition KeyObservedInstanceConfigHash (instanceID : string) : string := PrefixObserved +:+ "/instance/" +:+ instanceID +:+ "/config-hash".
Definition KeyObservedInstanceExitReason (instanceID : string) : string := PrefixObserved +:+ "/instance/" +:+ instanceID +:+ "/exit-reason".
Definition KeyObservedInstanceIP (instanceID : string) : string := PrefixObserved +:+ "/instance/" +:+ instanceID +:+ "/ip".
Definition KeyObservedInstanceHostPort (instanceID : string) : string := PrefixObserved +:+ "/instance/" +:+ instanceID +:+ "/hostport".
Definition KeyObservedInstanceHostPortForPort (instanceID : string) (containerPort : Z) : string := PrefixObserved +:+ "/instance/" +:+ instanceID +:+ "/hostport/" +:+ Itoa containerPort.
Definition KeyObservedInstanceHealth (instanceID : string) : string := PrefixObserved +:+ "/instance/" +:+ instanceID +:+ "/health".
Definition KeyObservedMetric (service : string) (metric : string) : string := PrefixObserved +:+ "/metric/service/" +:+ service +:+ "/" +:+ metric.
Definition ScanPlacementsForNode (nodeID : string) : string := PrefixPlacement +:+ "/node/" +:+ nodeID +:+ "/".
Definition KeyEndpoint (serviceName : string) (instanceID : string) (port : Z) : string := PrefixEndpoint +:+ "/service/" +:+ serviceName +:+ "/" +:+ instanceID +:+ "/" +:+ Itoa port.
Definition KeyIntentUserServiceInstances (name : string) : string := PrefixIntent +:+ "/user/service/" +:+ name +:+ "/instances".
Definition KeyIntentAutoscalerServiceInstances (name : string) : string := PrefixIntent +:+ "/autoscaler/service/" +:+ name +:+ "/instances".
Definition KeyLeaseNode (nodeID : string) : string := PrefixLease +:+ "/node/" +:+ nodeID.
Definition KeyNetworkNodeSubnet (nodeID : string) : string := PrefixNetwork +:+ "/node/" +:+ nodeID +:+ "/subnet".
Definition KeyNetworkAllocation (instanceID : string) : string := PrefixNetwork +:+ "/allocation/" +:+ instanceID.
Definition KeyNetworkVIPService (serviceName : string) : string := PrefixNetwork +:+ "/vip/service/" +:+ serviceName.
Definition KeyNetworkVIPServicePort (serviceName : string) : string := PrefixNetwork +:+ "/vip/service/" +:+ serviceName +:+ "/port".
Definition KeyNetworkDNS (serviceName : string) : string := PrefixNetwork +:+ "/dns/" +:+ serviceName.
Definition KeyNetworkDNSInstance (instanceID : string) : string := PrefixNetwork +:+ "/dns/instance/" +:+ instanceID.
Definition KeyNetworkDNSHostname (hostname : string) : string := PrefixNetwork +:+ "/dns/hostname/" +:+ hostname.
Definition KeyDesiredServiceScaleHorizontalMin (name : string) : string := PrefixDesired +:+ "/service/" +:+ name +:+ "/scale/horizontal/min".
Definition KeyDesiredServiceScaleHorizontalMax (name : string) : string := PrefixDesired +:+ "/service/" +:+ name +:+ "/scale/horizontal/max".
Definition KeyDesiredServiceScaleHorizontalTarget (name : string) (metric : string) : string := PrefixDesired +:+ "/service/" +:+ name +:+ "/scale/horizontal/target/" +:+ metric.
Definition ScanDesiredServiceScaleTargets (name : string) : string := PrefixDesired +:+ "/service/" +:+ name +:+ "/scale/horizontal/target/".
Definition KeyDesiredServiceScaleStabilizationUp (name : string) : string := PrefixDesired +:+ "/service/" +:+ name +:+ "/scale/horizontal/stabilization/up".
Definition KeyDesiredServiceScaleStabilizationDown (name : string) : string := PrefixDesired +:+ "/service/" +:+ name +:+ "/scale/horizontal/stabilization/down".
Definition KeyDesiredServiceScaleIdleTimeout (name : string) : string := PrefixDesired +:+ "/service/" +:+ name +:+ "/scale/horizontal/idle_timeout".
Definition KeyDesiredServiceScaleActivationTimeout (name : string) : string := PrefixDesired +:+ "/service/" +:+ name +:+ "/scale/horizontal/activation_timeout".
Definition KeyObservedServiceLastRequestTime (name : string) : string := PrefixObserved +:+ "/service/" +:+ name +:+ "/last_request_time".
Definition KeyDerivedServiceActivationState (name : string) : string := PrefixDerived +:+ "/service/" +:+ name +:+ "/activation/state".
Definition KeyDesiredServiceScaleVerticalCPUMin (name : string) : string := PrefixDesired +:+ "/service/" +:+ name +:+ "/scale/vertical/cpu/min".
Definition KeyDesiredServiceScaleVerticalCPUMax (name : string) : string := PrefixDesired +:+ "/service/" +:+ name +:+ "/scale/vertical/cpu/max".
Definition KeyDesiredServiceScaleVerticalMemoryMin (name : string) : string := PrefixDesired +:+ "/service/" +:+ name +:+ "/scale/vertical/memory/min".
Definition KeyDesiredServiceScaleVerticalMemoryMax (name : string) : string := PrefixDesired +:+ "/service/" +:+ name +:+ "/scale/vertical/memory/max".
Definition KeyIntentAutoscalerServiceResourcesCPU (name : string) : string := PrefixIntent +:+ "/autoscaler/service/" +:+ name +:+ "/resources/cpu".
Definition KeyIntentAutoscalerServiceResourcesMemory (name : string) : string := PrefixIntent +:+ "/autoscaler/service/" +:+ name +:+ "/resources/memory".
Definition KeyDesiredServiceScaleHorizontalEvent (name : string) (source : string) : string := PrefixDesired +:+ "/service/" +:+ name +:+ "/scale/horizontal/event/" +:+ source.
Definition KeyDesiredServiceScaleScheduleDays (name : string) : string := PrefixDesired +:+ "/service/" +:+ name +:+ "/scale/horizontal/schedule/days".
Definition KeyDesiredServiceScaleScheduleStart (name : string) : string := PrefixDesired +:+ "/service/" +:+ name +:+ "/scale/horizontal/schedule/start".
Definition KeyDesiredServiceScaleScheduleEnd (name : string) : string := PrefixDesired +:+ "/service/" +:+ name +:+ "/scale/horizontal/schedule/end".
Definition KeyDesiredServiceScaleScheduleMinimum (name : string) : string := PrefixDesired +:+ "/service/" +:+ name +:+ "/scale/horizontal/schedule/minimum".
Definition KeyDesiredServicePlacementArchitecture (name : string) : string := PrefixDesired +:+ "/service/" +:+ name +:+ "/placement/architecture".
Definition KeyDesiredServicePlacementZonePolicy (name : string) : string := PrefixDesired +:+ "/service/" +:+ name +:+ "/placement/zone".
Definition KeyDesiredServicePlacementZoneMaxSkew (name : string) : string := PrefixDesired +:+ "/service/" +:+ name +:+ "/placement/zone/maxSkew".
Definition KeyDesiredServicePlacementRequire (name : string) (label : string) : string := PrefixDesired +:+ "/service/" +:+ name +:+ "/placement/require/" +:+ label.
Definition KeyDesiredServicePlacementPrefer (name : string) (label : string) : string := PrefixDesired +:+ "/service/" +:+ name +:+ "/placement/prefer/" +:+ label.
Definition KeyDesiredServicePlacementAccept (name : string) (label : string) : string := PrefixDesired +:+ "/service/" +:+ name +:+ "/placement/accept/" +:+ label.
Definition KeyDesiredServicePlacementColocate (name : string) (targetService : string) : string := PrefixDesired +:+ "/service/" +:+ name +:+ "/placement/colocate/" +:+ targetService.
Definition KeyDesiredServicePlacementSeparate (name : string) (targetService : string) : string := PrefixDesired +:+ "/service/" +:+ name +:+ "/placement/separate/" +:+ targetService.
Definition KeyDesiredServicePlacementRebalance (name : string) : string := PrefixDesired +:+ "/service/" +:+ name +:+ "/placement/rebalance".
Definition KeyDesiredServicePlacementMode (name : string) : string := PrefixDesired +:+ "/service/" +:+ name +:+ "/placement/mode".
Definition KeyDesiredServicePriority (name : string) : string := PrefixDesired +:+ "/service/" +:+ name +:+ "/priority".
Definition KeyEffectiveServicePriority (name : string) : string := PrefixEffective +:+ "/service/" +:+ name +:+ "/priority".
Definition KeyDesiredServiceUpdateMaxUnavailable (name : string) : string := PrefixDesired +:+ "/service/" +:+ name +:+ "/update/max_unavailable".
Definition KeyDesiredServiceUpdateMaxExtra (name : string) : string := PrefixDesired +:+ "/service/" +:+ name +:+ "/update/max_extra".
Definition KeyDesiredServiceStateful (name : string) : string := PrefixDesired +:+ "/service/" +:+ name +:+ "/stateful".
Definition KeyEffectiveServiceStateful (name : string) : string := PrefixEffective +:+ "/service/" +:+ name +:+ "/stateful".
Definition KeyDesiredServiceDisruptionMinAvailable (name : string) : string := PrefixDesired +:+ "/service/" +:+ name +:+ "/disruption/min_available".
Definition KeyDesiredServiceDisruptionMaxUnavailable (name : string) : string := PrefixDesired +:+ "/service/" +:+ name +:+ "/disruption/max_unavailable".
Definition KeyDesiredClusterAutoscaleMinNodes : string := PrefixDesired +:+ "/cluster/autoscale/min_nodes".
Definition KeyDesiredClusterAutoscaleMaxNodes : string := PrefixDesired +:+ "/cluster/autoscale/max_nodes".
Definition KeyDesiredServiceConfigEnv (serviceName : string) (varName : string) : string := PrefixDesired +:+ "/service/" +:+ serviceName +:+ "/config/env/" +:+ varName.
Definition KeyDesiredServiceConfigFile (serviceName : string) (filePath : string) : string := PrefixDesired +:+ "/service/" +:+ serviceName +:+ "/config/file/" +:+ filePath.
Definition KeyDesiredServiceSecret (serviceName : string) (secretName : string) : string := PrefixDesired +:+ "/service/" +:+ serviceName +:+ "/secret/" +:+ secretName.
Definition ScanDesiredServiceConfig (serviceName : string) : string := PrefixDesired +:+ "/service/" +:+ serviceName +:+ "/config/".
Definition ScanDesiredServiceSecrets (serviceName : string) : string := PrefixDesired +:+ "/service/" +:+ serviceName +:+ "/secret/".
Definition KeyDesiredConnection (connectionName : string) : string := PrefixDesired +:+ "/connection/" +:+ connectionName.
Definition ScanDesiredConnections : string := PrefixDesired +:+ "/connection/".
Definition KeyDesiredServiceConnection (serviceName : string) (connectionName : string) : string := PrefixDesired +:+ "/service/" +:+ serviceName +:+ "/connection/" +:+ connectionName.
Definition ScanDesiredServiceConnections (serviceName : string) : string := PrefixDesired +:+ "/service/" +:+ serviceName +:+ "/connection/".
Definition KeyObservedNodeUtilizationCPU (nodeID : string) : string := PrefixObserved +:+ "/node/" +:+ nodeID +:+ "/utilization/cpu".
Definition KeyObservedNodeUtilizationMemory (nodeID : string) : string := PrefixObserved +:+ "/node/" +:+ nodeID +:+ "/utilization/memory".
Definition KeyObservedNodeWorkloadCount (nodeID : string) : string := PrefixObservedTelemetry +:+ "/node/" +:+ nodeID +:+ "/workloads".
Definition KeyObservedInstanceCPU (instanceID : string) : string := PrefixObservedTelemetry +:+ "/instance/" +:+ instanceID +:+ "/cpu".
Definition KeyObservedInstanceMemory (instanceID : string) : string := PrefixObservedTelemetry +:+ "/instance/" +:+ instanceID +:+ "/memory".
Definition KeyObservedInstanceOOMKills (instanceID : string) : string := PrefixObservedTelemetry +:+ "/instance/" +:+ instanceID +:+ "/oom-kills".
Definition KeyObservedInstanceRestarts (instanceID : string) : string := PrefixObserved +:+ "/instance/" +:+ instanceID +:+ "/restarts".
Definition KeyObservedInstanceStatusReason (instanceID : string) : string := PrefixObserved +:+ "/instance/" +:+ instanceID +:+ "/status-reason".
Definition KeyObservedInstanceInitProgress (instanceID : string) : string := PrefixObserved +:+ "/instance/" +:+ instanceID +:+ "/init-progress".
Definition KeyObservedInstanceProbeProgress (instanceID : string) : string := PrefixObserved +:+ "/instance/" +:+ instanceID +:+ "/probe-progress".
Definition KeyDesiredServiceInitStep (serviceName : string) (stepIndex : Z) : string := PrefixDesired +:+ "/service/" +:+ serviceName +:+ "/init/" +:+ Itoa stepIndex.
Definition KeyDesiredServiceInitStepExec (serviceName : string) (stepIndex : Z) : string := PrefixDesired +:+ "/service/" +:+ serviceName +:+ "/init/" +:+ Itoa stepIndex +:+ "/exec".
Definition KeyDesiredServiceInitStepTimeout (serviceName : string) (stepIndex : Z) : string := PrefixDesired +:+ "/service/" +:+ serviceName +:+ "/init/" +:+ Itoa stepIndex +:+ "/timeout".
Definition KeyDesiredServiceInitStepRetry (serviceName : string) (stepIndex : Z) : string := PrefixDesired +:+ "/service/" +:+ serviceName +:+ "/init/" +:+ Itoa stepIndex +:+ "/retry".
Definition KeyDesiredServiceInitStepConnection (serviceName : string) (stepIndex : Z) : string := PrefixDesired +:+ "/service/" +:+ serviceName +:+ "/init/" +:+ Itoa stepIndex +:+ "/connection".
Definition ScanDesiredServiceInitSteps (serviceName : string) : string := PrefixDesired +:+ "/service/" +:+ serviceName +:+ "/init/".
Definition KeyObservedInstanceInitStepState (instanceID : string) (stepIndex : Z) : string := PrefixObserved +:+ "/instance/" +:+ instanceID +:+ "/init/step/" +:+ Itoa stepIndex +:+ "/state".
Definition KeyObservedInstanceInitStepReason (instanceID : string) (stepIndex : Z) : string := PrefixObserved +:+ "/instance/" +:+ instanceID +:+ "/init/step/" +:+ Itoa stepIndex +:+ "/reason".
Definition ScanObservedInstanceInitSteps (instanceID : string) : string := PrefixObserved +:+ "/instance/" +:+ instanceID +:+ "/init/step/".
Definition KeyDesiredTenant (tenantName : string) : string := PrefixDesiredTenant +:+ tenantName.
Definition KeyDesiredTenantQuotaCPU (tenantName : string) : string := PrefixDesiredTenant +:+ tenantName +:+ "/quota/cpu".
Definition KeyDesiredTenantQuotaMemory (tenantName : string) : string := PrefixDesiredTenant +:+ tenantName +:+ "/quota/memory".
Definition KeyDesiredTenantQuotaInstances (tenantName : string) : string := PrefixDesiredTenant +:+ tenantName +:+ "/quota/instances".
Definition KeyDesiredTenantQuotaVolumes (tenantName : string) : string := PrefixDesiredTenant +:+ tenantName +:+ "/quota/volumes".
Definition KeyDesiredTenantQuotaStorage (tenantName : string) : string := PrefixDesiredTenant +:+ tenantName +:+ "/quota/storage".
Definition KeyDesiredTenantWeight (tenantName : string) : string := PrefixDesiredTenant +:+ tenantName +:+ "/weight".
Definition KeyObservedTenantUsageCPU (tenantName : string) : string := PrefixObservedTenant +:+ tenantName +:+ "/usage/cpu".
Definition KeyObservedTenantUsageMemory (tenantName : string) : string := PrefixObservedTenant +:+ tenantName +:+ "/usage/memory".
Definition KeyObservedTenantUsageInstances (tenantName : string) : string := PrefixObservedTenant +:+ tenantName +:+ "/usage/instances".
Definition KeyObservedTenantUsageVolumes (tenantName : string) : string := PrefixObservedTenant +:+ tenantName +:+ "/usage/volumes".
Definition KeyDesiredServiceOwner (serviceName : string) : string := PrefixDesired +:+ "/service/" +:+ serviceName +:+ "/owner".
Definition KeyExportService (serviceName : string) : string := PrefixExport +:+ serviceName.
Definition KeyExportServiceAllowTenant (serviceName : string) (tenantName : string) : string := PrefixExport +:+ serviceName +:+ "/allow/" +:+ tenantName.
Definition ScanExportServiceAllowTenants (serviceName : string) : string := PrefixExport +:+ serviceName +:+ "/allow/".
Definition KeyImportService (consumerService : string) (exportedService : string) : string := PrefixImport +:+ consumerService +:+ "/uses/" +:+ exportedService.
Definition ScanImportsForService (consumerService : string) : string := PrefixImport +:+ consumerService +:+ "/uses/".
Definition KeyDesiredTenantState (tenantName : string) : string := PrefixDesiredTenant +:+ tenantName +:+ "/state".
Definition KeyDesiredVolume (volumeName : string) : string := PrefixDesired +:+ "/volume/" +:+ volumeName.
Definition KeyDesiredVolumeSize (volumeName : string) : string := PrefixDesired +:+ "/volume/" +:+ volumeName +:+ "/size".
Definition KeyDesiredVolumePersistent (volumeName : string) : string := PrefixDesired +:+ "/volume/" +:+ volumeName +:+ "/persistent".
Definition KeyDesiredVolumeType (volumeName : string) : string := PrefixDesired +:+ "/volume/" +:+ volumeName +:+ "/type".
Definition KeyDesiredVolumeReplicas (volumeName : string) : string := PrefixDesired +:+ "/volume/" +:+ volumeName +:+ "/replicas".
Definition KeyDesiredServiceVolume (serviceName : string) (volumeName : string) : string := PrefixDesired +:+ "/service/" +:+ serviceName +:+ "/volume/" +:+ volumeName.
Definition KeyObservedVolume (volumeName : string) : string := PrefixObserved +:+ "/volume/" +:+ volumeName.
Definition KeyObservedVolumeState (volumeName : string) : string := PrefixObserved +:+ "/volume/" +:+ volumeName +:+ "/state".
Definition KeyObservedVolumeNode (volumeName : string) : string := PrefixObserved +:+ "/volume/" +:+ volumeName +:+ "/node".
Definition KeyObservedVolumeInstance (volumeName : string) : string := PrefixObserved +:+ "/volume/" +:+ volumeName +:+ "/instance".
Definition KeyObservedVolumeAccess (volumeName : string) : string := PrefixObserved +:+ "/volume/" +:+ volumeName +:+ "/access".
Definition KeyObservedVolumeAttachment (volumeName : string) (nodeID : string) (instanceID : string) : string := PrefixObserved +:+ "/volume/" +:+ volumeName +:+ "/attachment/" +:+ nodeID +:+ "/" +:+ instanceID.
Definition ScanObservedVolumeNodeAttachments (volumeName : string) (nodeID : string) : string := PrefixObserved +:+ "/volume/" +:+ volumeName +:+ "/attachment/" +:+ nodeID +:+ "/".
Definition KeyObservedVolumeSize (volumeName : string) : string := PrefixObserved +:+ "/volume/" +:+ volumeName +:+ "/size".
Definition KeyObservedVolumeMountPath (volumeName : string) : string := PrefixObserved +:+ "/volume/" +:+ volumeName +:+ "/mount_path".
Definition KeyObservedVolumeType (volumeName : string) : string := PrefixObserved +:+ "/volume/" +:+ volumeName +:+ "/type".
Definition KeyObservedVolumeHomeNode (volumeName : string) : string := PrefixObserved +:+ "/volume/" +:+ volumeName +:+ "/home_node".
Definition KeyObservedVolumeMigrationSource (volumeName : string) : string := PrefixObserved +:+ "/volume/" +:+ volumeName +:+ "/migration_source".
Definition KeyObservedVolumeLastSnapshot (volumeName : string) : string := PrefixObserved +:+ "/volume/" +:+ volumeName +:+ "/last_snapshot".
Definition KeyObservedVolumeUsedBytes (volumeName : string) : string := PrefixObserved +:+ "/volume/" +:+ volumeName +:+ "/used_bytes".
Definition KeyObservedVolumeCapacityBytes (volumeName : string) : string := PrefixObserved +:+ "/volume/" +:+ volumeName +:+ "/capacity_bytes".
Definition KeyObservedVolumeReplicaCount (volumeName : string) : string := PrefixObserved +:+ "/volume/" +:+ volumeName +:+ "/replica_count".
Definition KeyObservedVolumeReplicaState (volumeName : string) : string := PrefixObserved +:+ "/volume/" +:+ volumeName +:+ "/replica_state".
Definition KeyDerivedVolumePendingOperation (volumeName : string) : string := PrefixDerived +:+ "/volume/" +:+ volumeName +:+ "/pending_operation".
Definition KeyDerivedVolumePendingResize (volumeName : string) : string := PrefixDerived +:+ "/volume/" +:+ volumeName +:+ "/pending_resize".
Definition KeyDerivedVolumePendingSnapshot (volumeName : string) : string := PrefixDerived +:+ "/volume/" +:+ volumeName +:+ "/pending_snapshot".
Definition KeyDerivedVolumeLastOperation (volumeName : string) : string := PrefixDerived +:+ "/volume/" +:+ volumeName +:+ "/last_operation".
Definition KeyDesiredServiceProbeMethod (serviceName : string) (probeType : string) : string := PrefixDesired +:+ "/service/" +:+ serviceName +:+ "/probe/" +:+ probeType +:+ "/method".
Definition KeyDesiredServiceProbePath (serviceName : string) (probeType : string) : string := PrefixDesired +:+ "/service/" +:+ serviceName +:+ "/probe/" +:+ probeType +:+ "/path".
Definition KeyDesiredServiceProbePort (serviceName : string) (probeType : string) : string := PrefixDesired +:+ "/service/" +:+ serviceName +:+ "/probe/" +:+ probeType +:+ "/port".
Definition KeyDesiredServiceProbeInterval (serviceName : string) (probeType : string) : string := PrefixDesired +:+ "/service/" +:+ serviceName +:+ "/probe/" +:+ probeType +:+ "/interval".
Definition KeyDesiredServiceProbeTimeout (serviceName : string) (probeType : string) : string := PrefixDesired +:+ "/service/" +:+ serviceName +:+ "/probe/" +:+ probeType +:+ "/timeout".
Definition KeyDesiredServiceProbeFailureThreshold (serviceName : string) (probeType : string) : string := PrefixDesired +:+ "/service/" +:+ serviceName +:+ "/probe/" +:+ probeType +:+ "/failure_threshold".
Definition KeyDesiredServiceProbeSuccessThreshold (serviceName : string) (probeType : string) : string := PrefixDesired +:+ "/service/" +:+ serviceName +:+ "/probe/" +:+ probeType +:+ "/success_threshold".
Definition KeyDesiredServiceProbeInitialDelay (serviceName : string) (probeType : string) : string := PrefixDesired +:+ "/service/" +:+ serviceName +:+ "/probe/" +:+ probeType +:+ "/initial_delay".
Definition ScanDesiredServiceProbe (serviceName : string) (probeType : string) : string := PrefixDesired +:+ "/service/" +:+ serviceName +:+ "/probe/" +:+ probeType +:+ "/".
Definition KeyObservedInstanceProbeState (instanceID : string) (probeType : string) : string := PrefixObserved +:+ "/instance/" +:+ instanceID +:+ "/probe/" +:+ probeType.
Definition ScanObservedInstanceProbes (instanceID : string) : string := PrefixObserved +:+ "/instance/" +:+ instanceID +:+ "/probe/".
Definition KeyDesiredCloudIdentity (identityName : string) : string := PrefixDesired +:+ "/cloud_identity/" +:+ identityName.
Definition KeyDesiredCloudIdentityProvider (identityName : string) : string := PrefixDesired +:+ "/cloud_identity/" +:+ identityName +:+ "/provider".
Definition KeyDesiredCloudIdentityRole (identityName : string) : string := PrefixDesired +:+ "/cloud_identity/" +:+ identityName +:+ "/role".
Definition KeyDesiredCloudIdentityServiceAccount (identityName : string) : string := PrefixDesired +:+ "/cloud_identity/" +:+ identityName +:+ "/service_account".
Definition KeyDesiredCloudIdentityPool (identityName : string) : string := PrefixDesired +:+ "/cloud_identity/" +:+ identityName +:+ "/pool".
Definition KeyDesiredCloudIdentityClientID (identityName : string) : string := PrefixDesired +:+ "/cloud_identity/" +:+ identityName +:+ "/client_id".
Definition KeyDesiredCloudIdentityTenantID (identityName : string) : string := PrefixDesired +:+ "/cloud_identity/" +:+ identityName +:+ "/tenant_id".
Definition KeyDesiredServiceCloudIdentity (serviceName : string) (identityName : string) : string := PrefixDesired +:+ "/service/" +:+ serviceName +:+ "/cloud_identity/" +:+ identityName.
Definition KeyDesiredServiceCloudIdentityMountPath (serviceName : string) (identityName : string) : string := PrefixDesired +:+ "/service/" +:+ serviceName +:+ "/cloud_identity/" +:+ identityName +:+ "/mount_path".
Definition KeyDesiredServiceCloudIdentityDeliverMode (serviceName : string) (identityName : string) : string := PrefixDesired +:+ "/service/" +:+ serviceName +:+ "/cloud_identity/" +:+ identityName +:+ "/deliver_mode".
Definition ScanDesiredServiceCloudIdentities (serviceName : string) : string := PrefixDesired +:+ "/service/" +:+ serviceName +:+ "/cloud_identity/".
Definition KeyDesiredCredentialBrokerOIDCIssuer : string := PrefixDesired +:+ "/credential_broker/oidc_issuer".
Definition KeyDesiredCredentialBrokerCredentialTTL : string := PrefixDesired +:+ "/credential_broker/credential_ttl".
Definition KeyDesiredCredentialBrokerRefreshBefore : string := PrefixDesired +:+ "/credential_broker/refresh_before".
Definition KeyDerivedServiceRolloutState (name : string) : string := PrefixDerived +:+ "/service/" +:+ name +:+ "/rollout/state".
Definition KeyDerivedServiceRolloutImage (name : string) : string := PrefixDerived +:+ "/service/" +:+ name +:+ "/rollout/previous_image".
Definition KeyDerivedServiceRolloutFailures (name : string) : string := PrefixDerived +:+ "/service/" +:+ name +:+ "/rollout/failures".
Definition KeyDerivedServiceRolloutSurgeAllowance (name : string) : string := PrefixDerived +:+ "/service/" +:+ name +:+ "/rollout/surge_allowance".
Definition KeyDerivedServiceRolloutRevision (name : string) : string := PrefixDerived +:+ "/service/" +:+ name +:+ "/rollout/revision".
Definition KeyDerivedServiceRolloutHistory (name : string) (revision : Z) : string := PrefixDerived +:+ "/service/" +:+ name +:+ "/rollout/history/" +:+ Itoa revision.
Definition ScanDerivedServiceRolloutHistory (name : string) : string := PrefixDerived +:+ "/service/" +:+ name +:+ "/rollout/history/".
Definition KeyDesiredServiceRolloutPaused (name : string) : string := PrefixDesired +:+ "/service/" +:+ name +:+ "/rollout/paused".
Definition KeyDerivedInstanceInitPhase (instanceID : string) : string := PrefixDerived +:+ "/instance/" +:+ instanceID +:+ "/init/phase".
Definition KeyDerivedInstanceDrainSince (instanceID : string) : string := PrefixDerived +:+ "/instance/" +:+ instanceID +:+ "/drain_since".
Definition KeyDerivedInstanceDrainReadiness (instanceID : string) : string := PrefixDerived +:+ "/instance/" +:+ instanceID +:+ "/drain_readiness".
Definition KeyDerivedCrashLoopCounter (serviceName : string) : string := PrefixDerived +:+ "/crash-loop/" +:+ serviceName.
Definition KeyDerivedNodeDrainStarted (nodeID : string) : string := PrefixDerived +:+ "/node/" +:+ nodeID +:+ "/drain/started".
Definition KeyDerivedNodeDrainInitiator (nodeID : string) : string := PrefixDerived +:+ "/node/" +:+ nodeID +:+ "/drain/initiator".
Definition KeyDerivedNodeDrainComplete (nodeID : string) : string := PrefixDerived +:+ "/node/" +:+ nodeID +:+ "/drain/complete".
Definition KeyDerivedNodeDrainEvict (nodeID : string) (instanceID : string) : string := PrefixDerived +:+ "/node/" +:+ nodeID +:+ "/drain/evict/" +:+ instanceID.
Definition KeyDerivedNodePressure (nodeID : string) : string := PrefixDerived +:+ "/node/" +:+ nodeID +:+ "/pressure".
Definition KeyDerivedCredentialState (instanceID : string) (identityName : string) : string := PrefixDerived +:+ "/credential/" +:+ instanceID +:+ "/" +:+ identityName +:+ "/state".
Definition KeyDerivedCredentialExpiresAt (instanceID : string) (identityName : string) : string := PrefixDerived +:+ "/credential/" +:+ instanceID +:+ "/" +:+ identityName +:+ "/expires_at".
Definition KeyDerivedCredentialIssuedAt (instanceID : string) (identityName : string) : string := PrefixDerived +:+ "/credential/" +:+ instanceID +:+ "/" +:+ identityName +:+ "/issued_at".
Definition KeyDerivedCredentialError (instanceID : string) (identityName : string) : string := PrefixDerived +:+ "/credential/" +:+ instanceID +:+ "/" +:+ identityName +:+ "/error".
Definition KeyDesiredCloudProvider : string := PrefixDesired +:+ "/cloud/provider".
Definition KeyDesiredCloudRegion : string := PrefixDesired +:+ "/cloud/region".
Definition KeyDesiredCloudInstanceType : string := PrefixDesired +:+ "/cloud/instance_type".
Definition KeyDesiredCloudCredentials : string := PrefixDesired +:+ "/cloud/credentials".
Definition KeyDesiredCloudProjectID : string := PrefixDesired +:+ "/cloud/project_id".
Definition KeyDesiredCloudResourceGroup : string := PrefixDesired +:+ "/cloud/resource_group".
Definition KeyDesiredCloudVPCNetwork : string := PrefixDesired +:+ "/cloud/vpc_network".
Definition KeyDesiredCloudRouteTable : string := PrefixDesired +:+ "/cloud/route_table".
Definition KeyDesiredServiceExposeExternal (serviceName : string) (port : Z) : string := PrefixDesired +:+ "/service/" +:+ serviceName +:+ "/expose/" +:+ Itoa port +:+ "/external".
Definition ScanDesiredServiceExposeExternal (serviceName : string) : string := PrefixDesired +:+ "/service/" +:+ serviceName +:+ "/expose/".
Definition KeyObservedCloudInstanceState (providerInstanceID : string) : string := PrefixObserved +:+ "/cloud/instance/" +:+ providerInstanceID +:+ "/state".
Definition KeyObservedCloudInstanceNodeID (providerInstanceID : string) : string := PrefixObserved +:+ "/cloud/instance/" +:+ providerInstanceID +:+ "/node_id".
Definition KeyObservedCloudLoadBalancerAddress (serviceName : string) : string := PrefixObserved +:+ "/cloud/loadbalancer/" +:+ serviceName +:+ "/address".
Definition KeyObservedCloudLoadBalancerState (serviceName : string) : string := PrefixObserved +:+ "/cloud/loadbalancer/" +:+ serviceName +:+ "/state".
Definition KeyObservedCloudRoute (destinationCIDR : string) : string := PrefixObserved +:+ "/cloud/route/" +:+ destinationCIDR.
Definition KeyDerivedCloudLBPendingOperation (serviceName : string) : string := PrefixDerived +:+ "/cloud/loadbalancer/" +:+ serviceName +:+ "/pending_operation".
Definition KeyDerivedCloudLBPendingOperationForPort (serviceName : string) (port : Z) : string := PrefixDerived +:+ "/cloud/loadbalancer/" +:+ serviceName +:+ "/pending_operation/" +:+ Itoa port.
Definition KeyDerivedCloudLBAppliedHash (serviceName : string) : string := PrefixDerived +:+ "/cloud/loadbalancer/" +:+ serviceName +:+ "/applied_hash".
Definition KeyDerivedCloudLBAppliedHashForPort (serviceName : string) (port : Z) : string := PrefixDerived +:+ "/cloud/loadbalancer/" +:+ serviceName +:+ "/applied_hash/" +:+ Itoa port.
Definition KeyDerivedCloudRoutePendingOperation (cidr : string) : string := PrefixDerived +:+ "/cloud/route/" +:+ cidr +:+ "/pending_operation".
Definition KeyAuthRoleCapability (roleName : string) (capabilityName : string) : string := PrefixAuth +:+ "/role/" +:+ roleName +:+ "/capability/" +:+ capabilityName.
Definition KeyAuthRoleScope (roleName : string) (scopePath : string) : string := PrefixAuth +:+ "/role/" +:+ roleName +:+ "/scope/" +:+ scopePath.
Definition KeyAuthGrant (principalKind : string) (principalName : string) (roleName : string) : string := PrefixAuth +:+ "/grant/" +:+ principalKind +:+ "/" +:+ principalName +:+ "/role/" +:+ roleName.
Definition ScanAuthGrantsForPrincipal (principalKind : string) (principalName : string) : string := ScanAuthGrants +:+ principalKind +:+ "/" +:+ principalName +:+ "/".
Definition KeyAuthGroupMember (groupName : string) (memberName : string) : string := PrefixAuth +:+ "/group/" +:+ groupName +:+ "/member/" +:+ memberName.
Definition KeyAuthPolicyCapability (policyName : string) : string := PrefixAuth +:+ "/policy/" +:+ policyName +:+ "/capability".
Definition KeyAuthPolicyConditionField (policyName : string) (conditionIndex : Z) : string := PrefixAuth +:+ "/policy/" +:+ policyName +:+ "/condition/" +:+ Itoa conditionIndex +:+ "/field".
Definition KeyAuthPolicyConditionOperator (policyName : string) (conditionIndex : Z) : string := PrefixAuth +:+ "/policy/" +:+ policyName +:+ "/condition/" +:+ Itoa conditionIndex +:+ "/operator".
Definition KeyAuthPolicyConditionValue (policyName : string) (conditionIndex : Z) : string := PrefixAuth +:+ "/policy/" +:+ policyName +:+ "/condition/" +:+ Itoa conditionIndex +:+ "/value".
Definition KeyAuthUser (userName : string) : string := PrefixAuth +:+ "/user/" +:+ userName.
Definition KeyNetworkPolicyRule (ruleName : string) : string := ScanNetworkPolicies +:+ ruleName.
Definition KeyDerivedNetworkRule (nodeID : string) (ruleIndex : Z) : string := ScanDerivedNetworkRules +:+ nodeID +:+ "/" +:+ Itoa ruleIndex.
Definition KeyDesiredGroup (groupName : string) : string := PrefixDesired +:+ "/group/" +:+ groupName.
Definition KeyDesiredGroupProcess (groupName : string) (serviceName : string) : string := PrefixDesired +:+ "/group/" +:+ groupName +:+ "/process/" +:+ serviceName.
Definition KeyDesiredGroupShareNetwork (groupName : string) : string := PrefixDesired +:+ "/group/" +:+ groupName +:+ "/share/network".
Definition KeyDesiredGroupShareVolume (groupName : string) (volumeName : string) : string := PrefixDesired +:+ "/group/" +:+ groupName +:+ "/share/volume/" +:+ volumeName.
Definition KeyDerivedCapacityRequestState (requestID : string) : string := PrefixDerived +:+ "/capacity/request/" +:+ requestID +:+ "/state".
Definition KeyDerivedCapacityRequestRequirements (requestID : string) : string := PrefixDerived +:+ "/capacity/request/" +:+ requestID +:+ "/requirements".
Definition KeyDerivedCapacityRequestReason (requestID : string) : string := PrefixDerived +:+ "/capacity/request/" +:+ requestID +:+ "/reason".
Definition KeyDerivedCapacityRequestNodeID (requestID : string) : string := PrefixDerived +:+ "/capacity/request/" +:+ requestID +:+ "/node_id".
Definition KeyDesiredRoute (routeName : string) : string := PrefixDesired +:+ "/route/" +:+ routeName.
Definition KeyDesiredRouteHost (routeName : string) : string := PrefixDesired +:+ "/route/" +:+ routeName +:+ "/host".
Definition KeyDesiredRoutePath (routeName : string) : string := PrefixDesired +:+ "/route/" +:+ routeName +:+ "/path".
Definition KeyDesiredRouteService (routeName : string) : string := PrefixDesired +:+ "/route/" +:+ routeName +:+ "/service".
Definition KeyDesiredRoutePort (routeName : string) : string := PrefixDesired +:+ "/route/" +:+ routeName +:+ "/port".
Definition KeyDesiredRouteSticky (routeName : string) : string := PrefixDesired +:+ "/route/" +:+ routeName +:+ "/sticky".
Definition KeyDesiredRouteCookieName (routeName : string) : string := PrefixDesired +:+ "/route/" +:+ routeName +:+ "/cookie/name".
Definition KeyDesiredRouteCookieSecure (routeName : string) : string := PrefixDesired +:+ "/route/" +:+ routeName +:+ "/cookie/secure".
Definition KeyDesiredRouteCookieHTTPOnly (routeName : string) : string := PrefixDesired +:+ "/route/" +:+ routeName +:+ "/cookie/httponly".
Definition KeyDesiredRouteCookieSameSite (routeName : string) : string := PrefixDesired +:+ "/route/" +:+ routeName +:+ "/cookie/samesite".
Definition KeyDesiredRouteTLSMode (routeName : string) : string := PrefixDesired +:+ "/route/" +:+ routeName +:+ "/tls/mode".
Definition KeyDesiredRouteTLSCert (routeName : string) : string := PrefixDesired +:+ "/route/" +:+ routeName +:+ "/tls/cert".
Definition KeyDesiredRouteTLSKey (routeName : string) : string := PrefixDesired +:+ "/route/" +:+ routeName +:+ "/tls/key".
Definition KeyDerivedRouteBackends (routeName : string) : string := PrefixDerived +:+ "/route/" +:+ routeName +:+ "/backends".
Definition KeyDerivedRouteTLSCert (routeName : string) : string := PrefixDerived +:+ "/route/" +:+ routeName +:+ "/tls/cert".
Definition KeyDerivedRouteTLSKey (routeName : string) : string := PrefixDerived +:+ "/route/" +:+ routeName +:+ "/tls/key".
Definition KeyDerivedRouteTLSNotAfter (routeName : string) : string := PrefixDerived +:+ "/route/" +:+ routeName +:+ "/tls/not-after".
Definition KeyDesiredJob (jobName : string) : string := PrefixDesired +:+ "/job/" +:+ jobName.
Definition KeyDesiredJobImage (jobName : string) : string := PrefixDesired +:+ "/job/" +:+ jobName +:+ "/image".
Definition KeyDesiredJobCommand (jobName : string) : string := PrefixDesired +:+ "/job/" +:+ jobName +:+ "/command".
Definition KeyDesiredJobImagePullSecret (jobName : string) : string := PrefixDesired +:+ "/job/" +:+ jobName +:+ "/image_pull_secret".
Definition KeyDesiredJobCompletions (jobName : string) : string := PrefixDesired +:+ "/job/" +:+ jobName +:+ "/completions".
Definition KeyDesiredJobParallelism (jobName : string) : string := PrefixDesired +:+ "/job/" +:+ jobName +:+ "/parallelism".
Definition KeyDesiredJobBackoffLimit (jobName : string) : string := PrefixDesired +:+ "/job/" +:+ jobName +:+ "/backoff_limit".
Definition KeyDerivedJobStatus (jobName : string) : string := PrefixDerived +:+ "/job/" +:+ jobName +:+ "/status".
Definition KeyDerivedJobSucceeded (jobName : string) : string := PrefixDerived +:+ "/job/" +:+ jobName +:+ "/succeeded".
Definition KeyDerivedJobFailed (jobName : string) : string := PrefixDerived +:+ "/job/" +:+ jobName +:+ "/failed".
Definition KeyDerivedJobInstanceOwner (instanceID : string) : string := PrefixDerived +:+ "/instance/" +:+ instanceID +:+ "/job_owner".
Definition KeyDesiredCronJob (name : string) : string := PrefixDesired +:+ "/cronjob/" +:+ name.
Definition KeyDesiredCronJobSchedule (name : string) : string := PrefixDesired +:+ "/cronjob/" +:+ name +:+ "/schedule".
Definition KeyDesiredCronJobImage (name : string) : string := PrefixDesired +:+ "/cronjob/" +:+ name +:+ "/image".
Definition KeyDesiredCronJobCommand (name : string) : string := PrefixDesired +:+ "/cronjob/" +:+ name +:+ "/command".
Definition KeyDesiredCronJobCompletions (name : string) : string := PrefixDesired +:+ "/cronjob/" +:+ name +:+ "/completions".
Definition KeyDesiredCronJobParallelism (name : string) : string := PrefixDesired +:+ "/cronjob/" +:+ name +:+ "/parallelism".
Definition KeyDesiredCronJobBackoffLimit (name : string) : string := PrefixDesired +:+ "/cronjob/" +:+ name +:+ "/backoff_limit".
Definition KeyDerivedCronJobLastScheduled (name : string) : string := PrefixDerived +:+ "/cronjob/" +:+ name +:+ "/last_scheduled".
Definition KeyDerivedCronJobLastStatus (name : string) : string := PrefixDerived +:+ "/cronjob/" +:+ name +:+ "/last_status".
Definition KeyObservedInstanceSecretWait (instanceID : string) : string := PrefixObserved +:+ "/instance/" +:+ instanceID +:+ "/secret-wait".
Definition KeyObservedNodeSecretDelivery (nodeID : string) : string := PrefixObserved +:+ "/node/" +:+ nodeID +:+ "/secret_delivery".
Definition KeyObservedNodeLegacyKeyFile (nodeID : string) : string := PrefixObserved +:+ "/node/" +:+ nodeID +:+ "/legacy_key_file".
Definition KeyDesiredServiceLegacySecretAPI (name : string) : string := PrefixDesired +:+ "/service/" +:+ name +:+ "/legacy_secret_api".
