(* ===== verification/KeyPatterns.v ===== *)
(** * Patterns of keys

    A key is a path; a pattern says what stands between its slashes: literals,
    names, numbers, or at the end a path that may itself have slashes. Here is
    when two patterns may have a key in common, decided by computation, and that
    a key determines the arguments it was made from. *)

From stdpp Require Import pretty.
From S2P Require Import Prelude GoStrings GoFmt Keys GoRegexp.

(** ** Patterns *)

Inductive segment := Lit (s : string) | Name | Number | Path.

#[export] Instance segment_eq_dec : EqDecision segment.
Proof. solve_decision. Defined.

Inductive keyArg := AName (s : string) | ANumber (z : Z).

(** The arguments are of the kinds the pattern asks for. *)
Fixpoint shaped (p : list segment) (args : list keyArg) : bool :=
  match p, args with
  | [], [] => true
  | Lit _ :: p, _ => shaped p args
  | Name :: p, AName _ :: args => shaped p args
  | Number :: p, ANumber _ :: args => shaped p args
  | [Path], [AName _] => true
  | _, _ => false
  end.

Definition nameOk (s : string) : bool := negb (bool_decide (s = "")) && negb (ContainsByte s slash).

(** Names are not empty and have no slash; paths are not empty. *)
Fixpoint admissible (p : list segment) (args : list keyArg) : bool :=
  match p, args with
  | Lit _ :: p, _ => admissible p args
  | Name :: p, AName s :: args => nameOk s && admissible p args
  | Number :: p, ANumber _ :: args => admissible p args
  | Path :: _, AName s :: _ => negb (bool_decide (s = ""))
  | _, _ => true
  end.

Definition fits (p : list segment) (args : list keyArg) : Prop := shaped p args = true ∧ admissible p args = true.

(** The parts of the key, the path in one piece. *)
Fixpoint render (p : list segment) (args : list keyArg) : list string :=
  match p, args with
  | Lit l :: p, _ => l :: render p args
  | Name :: p, AName s :: args => s :: render p args
  | Number :: p, ANumber z :: args => Itoa z :: render p args
  | Path :: _, AName s :: _ => [s]
  | _, _ => []
  end.

(** ** Telling patterns apart *)

Definition numberByte (c : ascii) : bool :=
  match digit_value c with Some _ => true | None => bool_decide (c = "-"%char) end.

Definition partOverlaps (s t : segment) : bool :=
  match s, t with
  | Lit l, Lit m => bool_decide (l = m)
  | Name, Lit l | Lit l, Name => negb (bool_decide (l = ""))
  | Number, Lit l | Lit l, Number => negb (bool_decide (l = "")) && allBytes numberByte l
  | _, _ => true
  end.

(** Two patterns may have a key in common. *)
Fixpoint overlaps (p q : list segment) : bool :=
  match p, q with
  | [], [] => true
  | Path :: _, [Lit l] | [Lit l], Path :: _ => negb (bool_decide (l = ""))
  | Path :: _, _ :: _ | _ :: _, Path :: _ => true
  | s :: p, t :: q => partOverlaps s t && overlaps p q
  | _, _ => false
  end.

Fixpoint allApart (ps : list (list segment)) : bool :=
  match ps with [] => true | p :: ps => forallb (λ q, negb (overlaps p q)) ps && allApart ps end.

(** The literals of a pattern are parts: they have no slash. *)
Definition literalsOk (p : list segment) : bool :=
  forallb (λ s, match s with Lit l => negb (ContainsByte l slash) | _ => true end) p.

(** ** Keys determine their parts *)

Lemma Itoa_slash z : ContainsByte (Itoa z) slash = false.
Proof. by apply Itoa_ContainsByte. Qed.

Lemma Itoa_number z : allBytes numberByte (Itoa z) = true.
Proof.
  assert (H : ∀ s, (∀ c, numberByte c = false → ContainsByte s c = false) → allBytes numberByte s = true).
  { induction s as [|c s IH]; intros Hs; simpl; [done|]. destruct (numberByte c) eqn:E; simpl.
    - apply IH. intros d Hd. specialize (Hs d Hd). simpl in Hs. by destruct (ascii_dec c d).
    - specialize (Hs c E). simpl in Hs. by destruct (ascii_dec c c). }
  apply H. intros c Hc. unfold numberByte in Hc. destruct (digit_value c) eqn:E; [done|]. apply bool_decide_eq_false in Hc. by apply Itoa_ContainsByte.
Qed.

Lemma Split_free c s : ContainsByte s c = false → Split c s = [s].
Proof. induction s as [|d s IH]; simpl; [done|]. destruct (ascii_dec d c); [done|]. intros H. by rewrite IH. Qed.

Lemma Split_part c s t : ContainsByte s c = false → Split c (s +:+ String c t) = s :: Split c t.
Proof.
  induction s as [|d s IH]; [rewrite str_app_nil_l; intros _; simpl; by destruct (ascii_dec c c)|]. rewrite str_app_cons. simpl.
  destruct (ascii_dec d c); [done|]. intros H. by rewrite IH.
Qed.

(** The parts, with the path cut. *)
Fixpoint partsOfKey (p : list segment) (args : list keyArg) : list string :=
  match p, args with
  | Lit l :: p, _ => l :: partsOfKey p args
  | Name :: p, AName s :: args => s :: partsOfKey p args
  | Number :: p, ANumber z :: args => Itoa z :: partsOfKey p args
  | Path :: _, AName s :: _ => Split slash s
  | _, _ => []
  end.

Lemma render_nil p args : shaped p args = true → render p args = [] → p = [].
Proof. destruct p as [|[| | |] p]; [done|done|destruct args as [|[]]; done..|destruct p, args as [|[] []]; done]. Qed.

Lemma Split_cons_part s l : ContainsByte s slash = false → l ≠ [] → Split slash (Join slash (s :: l)) = s :: Split slash (Join slash l).
Proof. intros Hs Hl. destruct l as [|x l]; [done|]. cbn [Join]. by rewrite Split_part. Qed.

Lemma Split_render p args :
  literalsOk p = true → fits p args → p ≠ [] → Split slash (Join slash (render p args)) = partsOfKey p args.
Proof.
  revert args. induction p as [|s p IH]; intros args Hlit [Hsh Had] Hp; [done|]. unfold literalsOk in *. simpl in Hlit.
  apply andb_true_iff in Hlit as [Hl Hlit].
  assert (Hstep : ∀ part rest, ContainsByte part slash = false → fits p rest →
    Split slash (Join slash (part :: render p rest)) = part :: partsOfKey p rest).
  { intros part rest Hpart [Hsh' Had']. destruct (decide (p = [])) as [->|Hp'].
    - destruct rest; [|done]. simpl. by rewrite Split_free.
    - rewrite Split_cons_part; [by rewrite IH|done|]. intros Hr. by apply render_nil in Hr. }
  destruct s as [l| | |].
  - simpl in *. apply negb_true_iff in Hl. by apply Hstep.
  - destruct args as [|[x|z] args]; try done. simpl in *. apply andb_true_iff in Had as [Hn Had]. unfold nameOk in Hn.
    apply andb_true_iff in Hn as [_ Hn%negb_true_iff]. by apply Hstep.
  - destruct args as [|[x|z] args]; try done. simpl in *. apply Hstep; [apply Itoa_slash|done].
  - destruct p; [|done]. destruct args as [|[x|z] [|]]; done.
Qed.

Lemma parts_nonempty p args : shaped p args = true → p ≠ [] → partsOfKey p args ≠ [].
Proof.
  destruct p as [|[l| | |] p]; [done|done|destruct args as [|[]]; done..|]. destruct p; [|done]. destruct args as [|[x|z] [|]]; try done.
  intros _ _. apply Split_nonempty.
Qed.

(** What a part of a pattern can be in a key. *)
Definition part_is (s : segment) (x : string) : Prop :=
  match s with
  | Lit l => x = l
  | Name => x ≠ ""
  | Number => x ≠ "" ∧ allBytes numberByte x = true
  | Path => False
  end.

Lemma part_overlaps s t x : part_is s x → part_is t x → partOverlaps s t = true.
Proof.
  destruct s as [l| | |], t as [m| | |]; simpl; try done.
  - intros -> ->. by apply bool_decide_true.
  - intros -> H. by rewrite bool_decide_false.
  - intros -> [H1 H2]. by rewrite bool_decide_false, H2.
  - intros H ->. by rewrite bool_decide_false.
  - intros [H1 H2] ->. by rewrite bool_decide_false, H2.
Qed.

Lemma Itoa_not_empty z : Itoa z ≠ "".
Proof. apply Itoa_nonempty. Qed.

(** The first part of a key, when the pattern does not begin with a path. *)
Lemma parts_head s p args :
  fits (s :: p) args → s ≠ Path →
  ∃ x rest, partsOfKey (s :: p) args = x :: partsOfKey p rest ∧ fits p rest ∧ part_is s x.
Proof.
  intros [Hsh Had] Hs. destruct s as [l| | |]; [|destruct args as [|[x|z] args]; try done..|done]; simpl in *.
  - by exists l, args.
  - apply andb_true_iff in Had as [Hn Had]. unfold nameOk in Hn. apply andb_true_iff in Hn as [Hn%negb_true_iff%bool_decide_eq_false _].
    by exists x, args.
  - exists (Itoa z), args. split_and!; [done|done|apply Itoa_not_empty|apply Itoa_number].
Qed.

Lemma parts_path p args : fits (Path :: p) args → ∃ x, p = [] ∧ args = [AName x] ∧ x ≠ "" ∧ partsOfKey (Path :: p) args = Split slash x.
Proof.
  intros [Hsh Had]. destruct p; [|done]. destruct args as [|[x|z] [|]]; try done. simpl in *.
  apply negb_true_iff, bool_decide_eq_false in Had. by exists x.
Qed.

Lemma path_overlaps q args x :
  x ≠ "" → fits q args → partsOfKey q args = Split slash x → q ≠ [] ∧ q ≠ [Lit ""].
Proof.
  intros Hx Hq E. split; intros ->.
  - destruct Hq as [Hq _]. destruct args; [|done]. simpl in E. symmetry in E. by apply Split_nonempty in E.
  - destruct Hq as [Hq _]. destruct args; [|done]. simpl in E. destruct (Split_Join slash x) as [H _]. rewrite <-E in H. by subst.
Qed.

(** Two patterns with a key in common overlap. *)
Lemma parts_overlap p q args args' :
  fits p args → fits q args' → partsOfKey p args = partsOfKey q args' → overlaps p q = true.
Proof.
  revert q args args'. induction p as [|s p IH]; intros q args args' Hp Hq E.
  { destruct q as [|t q]; [done|]. destruct Hq as [Hq _]. destruct (parts_nonempty (t :: q) args' Hq); [done|]. rewrite <-E. by destruct args. }
  destruct (decide (s = Path)) as [->|Hs].
  { destruct (parts_path p args Hp) as (x & -> & _ & Hx & Ex). rewrite Ex in E. symmetry in E. destruct (path_overlaps q args' x Hx Hq E) as [H1 H2].
    destruct q as [|[l| | |] [|? ?]]; simpl; try done. apply negb_true_iff, bool_decide_false. congruence. }
  destruct q as [|t q]; [destruct Hp as [Hp _]; destruct (parts_nonempty (s :: p) args Hp); [done|]; rewrite E; by destruct args'|].
  destruct (decide (t = Path)) as [->|Ht].
  { destruct (parts_path q args' Hq) as (x & -> & _ & Hx & Ex). rewrite Ex in E. destruct (path_overlaps (s :: p) args x Hx Hp E) as [H1 H2].
    destruct s as [l| | |], p as [|[]]; simpl; try done. apply negb_true_iff, bool_decide_false. congruence. }
  destruct (parts_head s p args Hp Hs) as (x & rest & Ex & Hp' & Hx). destruct (parts_head t q args' Hq Ht) as (y & rest' & Ey & Hq' & Hy).
  rewrite Ex, Ey in E. simplify_eq.
  assert (Hall : partOverlaps s t && overlaps p q = true) by (apply andb_true_iff; split; [by eapply part_overlaps|by eapply IH]).
  destruct s as [l| | |], t as [m| | |]; try done; by destruct p, q.
Qed.

(** A key made from a pattern determines the arguments. *)
Lemma parts_inj p args args' : fits p args → fits p args' → partsOfKey p args = partsOfKey p args' → args = args'.
Proof.
  revert args args'. induction p as [|s p IH]; intros args args' [H1 H2] [H3 H4] E; [destruct args, args'; done|].
  destruct s as [l| | |]; simpl in *.
  - injection E as E. by apply IH.
  - destruct args as [|[x|z] args], args' as [|[x'|z'] args']; try done. apply andb_true_iff in H2 as [_ H2], H4 as [_ H4].
    injection E as -> E. f_equal. by apply IH.
  - destruct args as [|[x|z] args], args' as [|[x'|z'] args']; try done. injection E as Ez E. apply (inj pretty) in Ez as ->. f_equal. by apply IH.
  - destruct p; [|done]. destruct args as [|[x|z] [|]], args' as [|[x'|z'] [|]]; try done.
    destruct (Split_Join slash x) as [Hx _], (Split_Join slash x') as [Hx' _]. by rewrite <-Hx, <-Hx', E.
Qed.

Lemma allApart_lookup ps i j p q :
  allApart ps = true → ps !! i = Some p → ps !! j = Some q → (i < j)%nat → overlaps p q = false.
Proof.
  revert i j. induction ps as [|r ps IH]; intros i j H Hi Hj Hlt; [done|]. simpl in H. apply andb_true_iff in H as [H1 H2].
  destruct j as [|j]; [lia|]. simpl in Hj. destruct i as [|i]; simplify_eq/=; [|eapply IH; [done|done|done|lia]].
  rewrite forallb_forall in H1. apply negb_true_iff, H1. apply list_elem_of_In. by eapply list_elem_of_lookup_2.
Qed.
