(* ===== verification/KeySchema.v ===== *)
(** * No two facts share a key (src/types/keys.go)

    The 311 key builders as a table, each with its pattern. The builders follow
    their patterns, and the patterns are pairwise apart; so distinct facts have
    distinct keys, and a key can be split into the entity and the rest. *)

From S2P Require Import Prelude GoStrings GoFmt Keys KeyNames GoRegexp Validation KeyPatterns.
From S2P Require Import Trie EventHistory PrefixSearch ControllerHelpers.

Record keyFamily := mkFamily { familyPattern : list segment; familyKey : list keyArg → string }.

Definition keyFamilies : list keyFamily := [
  mkFamily [Lit "desired"; Lit "service"; Name] (λ args, match args with [AName name] => KeyDesiredService name | _ => "" end);
  mkFamily [Lit "desired"; Lit "service"; Name; Lit "image"] (λ args, match args with [AName name] => KeyDesiredServiceImage name | _ => "" end);
  mkFamily [Lit "desired"; Lit "service"; Name; Lit "command"] (λ args, match args with [AName name] => KeyDesiredServiceCommand name | _ => "" end);
  mkFamily [Lit "desired"; Lit "service"; Name; Lit "pull_policy"] (λ args, match args with [AName name] => KeyDesiredServicePullPolicy name | _ => "" end);
  mkFamily [Lit "desired"; Lit "service"; Name; Lit "image_pull_secret"] (λ args, match args with [AName name] => KeyDesiredServiceImagePullSecret name | _ => "" end);
  mkFamily [Lit "desired"; Lit "service"; Name; Lit "logging"; Lit "max_size"] (λ args, match args with [AName name] => KeyDesiredServiceLoggingMaxSize name | _ => "" end);
  mkFamily [Lit "desired"; Lit "service"; Name; Lit "logging"; Lit "max_files"] (λ args, match args with [AName name] => KeyDesiredServiceLoggingMaxFiles name | _ => "" end);
  mkFamily [Lit "desired"; Lit "service"; Name; Lit "lifecycle"; Lit "pre_stop"] (λ args, match args with [AName name] => KeyDesiredServiceLifecyclePreStop name | _ => "" end);
  mkFamily [Lit "desired"; Lit "service"; Name; Lit "lifecycle"; Lit "post_start"] (λ args, match args with [AName name] => KeyDesiredServiceLifecyclePostStart name | _ => "" end);
  mkFamily [Lit "desired"; Lit "service"; Name; Lit "termination_grace_period"] (λ args, match args with [AName name] => KeyDesiredServiceTerminationGracePeriod name | _ => "" end);
  mkFamily [Lit "desired"; Lit "service"; Name; Lit "instances"] (λ args, match args with [AName name] => KeyDesiredServiceInstances name | _ => "" end);
  mkFamily [Lit "desired"; Lit "service"; Name; Lit "expose"; Number] (λ args, match args with [AName name; ANumber port] => KeyDesiredServiceExpose name port | _ => "" end);
  mkFamily [Lit "desired"; Lit "service"; Name; Lit "resources"; Lit "cpu"] (λ args, match args with [AName name] => KeyDesiredServiceResourcesCPU name | _ => "" end);
  mkFamily [Lit "desired"; Lit "service"; Name; Lit "resources"; Lit "memory"] (λ args, match args with [AName name] => KeyDesiredServiceResourcesMemory name | _ => "" end);
  mkFamily [Lit "desired"; Lit "service"; Name; Lit "resources"; Lit "cpu_limit"] (λ args, match args with [AName name] => KeyDesiredServiceResourcesCPULimit name | _ => "" end);
  mkFamily [Lit "desired"; Lit "service"; Name; Lit "resources"; Lit "memory_limit"] (λ args, match args with [AName name] => KeyDesiredServiceResourcesMemoryLimit name | _ => "" end);
  mkFamily [Lit "derived"; Lit "service"; Name; Lit "qos_class"] (λ args, match args with [AName name] => KeyDerivedServiceQoSClass name | _ => "" end);
  mkFamily [Lit "desired"; Lit "service"; Name; Lit "health"; Lit "method"] (λ args, match args with [AName name] => KeyDesiredServiceHealthMethod name | _ => "" end);
  mkFamily [Lit "desired"; Lit "service"; Name; Lit "health"; Lit "path"] (λ args, match args with [AName name] => KeyDesiredServiceHealthPath name | _ => "" end);
  mkFamily [Lit "desired"; Lit "service"; Name; Lit "health"; Lit "interval"] (λ args, match args with [AName name] => KeyDesiredServiceHealthInterval name | _ => "" end);
  mkFamily [Lit "desired"; Lit "service"; Name; Lit "health"; Lit "timeout"] (λ args, match args with [AName name] => KeyDesiredServiceHealthTimeout name | _ => "" end);
  mkFamily [Lit "desired"; Lit "service"; Name; Lit "tag"; Path] (λ args, match args with [AName serviceName; AName tagKey] => KeyDesiredServiceTag serviceName tagKey | _ => "" end);
  mkFamily [Lit "desired"; Lit "service"; Name; Lit "tag"; Lit ""] (λ args, match args with [AName serviceName] => KeyDesiredServiceTagPrefix serviceName | _ => "" end);
  mkFamily [Lit "effective"; Lit "service"; Name; Lit "instances"] (λ args, match args with [AName name] => KeyEffectiveServiceInstances name | _ => "" end);
  mkFamily [Lit "observed"; Lit "node"; Name] (λ args, match args with [AName nodeID] => KeyObservedNode nodeID | _ => "" end);
  mkFamily [Lit "observed"; Lit "node"; Name; Lit "state"] (λ args, match args with [AName nodeID] => KeyObservedNodeState nodeID | _ => "" end);
  mkFamily [Lit "observed"; Lit "node"; Name; Lit "capacity"; Lit "cpu"] (λ args, match args with [AName nodeID] => KeyObservedNodeCapacityCPU nodeID | _ => "" end);
  mkFamily [Lit "observed"; Lit "node"; Name; Lit "capacity"; Lit "memory"] (λ args, match args with [AName nodeID] => KeyObservedNodeCapacityMemory nodeID | _ => "" end);
  mkFamily [Lit "observed"; Lit "node"; Name; Lit "available"; Lit "cpu"] (λ args, match args with [AName nodeID] => KeyObservedNodeAvailableCPU nodeID | _ => "" end);
  mkFamily [Lit "observed"; Lit "node"; Name; Lit "available"; Lit "memory"] (λ args, match args with [AName nodeID] => KeyObservedNodeAvailableMemory nodeID | _ => "" end);
  mkFamily [Lit "observed"; Lit "node"; Name; Lit "architecture"] (λ args, match args with [AName nodeID] => KeyObservedNodeArchitecture nodeID | _ => "" end);
  mkFamily [Lit "observed"; Lit "node"; Name; Lit "zone"] (λ args, match args with [AName nodeID] => KeyObservedNodeZone nodeID | _ => "" end);
  mkFamily [Lit "observed"; Lit "node"; Name; Lit "address"] (λ args, match args with [AName nodeID] => KeyObservedNodeAddress nodeID | _ => "" end);
  mkFamily [Lit "observed"; Lit "node"; Name; Lit "debug_address"] (λ args, match args with [AName nodeID] => KeyObservedNodeDebugAddress nodeID | _ => "" end);
  mkFamily [Lit "observed"; Lit "instance"; Name] (λ args, match args with [AName instanceID] => KeyObservedInstance instanceID | _ => "" end);
  mkFamily [Lit "observed"; Lit "instance"; Name; Lit "service"] (λ args, match args with [AName instanceID] => KeyObservedInstanceService instanceID | _ => "" end);
  mkFamily [Lit "observed"; Lit "instance"; Name; Lit "node"] (λ args, match args with [AName instanceID] => KeyObservedInstanceNode instanceID | _ => "" end);
  mkFamily [Lit "observed"; Lit "instance"; Name; Lit "state"] (λ args, match args with [AName instanceID] => KeyObservedInstanceState instanceID | _ => "" end);
  mkFamily [Lit "observed"; Lit "instance"; Name; Lit "created-at"] (λ args, match args with [AName instanceID] => KeyObservedInstanceCreatedAt instanceID | _ => "" end);
  mkFamily [Lit "observed"; Lit "instance"; Name; Lit "image"] (λ args, match args with [AName instanceID] => KeyObservedInstanceImage instanceID | _ => "" end);
  mkFamily [Lit "observed"; Lit "instance"; Name; Lit "pull-status"] (λ args, match args with [AName instanceID] => KeyObservedInstancePullStatus instanceID | _ => "" end);
  mkFamily [Lit "observed"; Lit "instance"; Name; Lit "config-hash"] (λ args, match args with [AName instanceID] => KeyObservedInstanceConfigHash instanceID | _ => "" end);
  mkFamily [Lit "observed"; Lit "instance"; Name; Lit "exit-reason"] (λ args, match args with [AName instanceID] => KeyObservedInstanceExitReason instanceID | _ => "" end);
  mkFamily [Lit "observed"; Lit "instance"; Name; Lit "ip"] (λ args, match args with [AName instanceID] => KeyObservedInstanceIP instanceID | _ => "" end);
  mkFamily [Lit "observed"; Lit "instance"; Name; Lit "hostport"] (λ args, match args with [AName instanceID] => KeyObservedInstanceHostPort instanceID | _ => "" end);
  mkFamily [Lit "observed"; Lit "instance"; Name; Lit "hostport"; Number] (λ args, match args with [AName instanceID; ANumber containerPort] => KeyObservedInstanceHostPortForPort instanceID containerPort | _ => "" end);
  mkFamily [Lit "observed"; Lit "instance"; Name; Lit "health"] (λ args, match args with [AName instanceID] => KeyObservedInstanceHealth instanceID | _ => "" end);
  mkFamily [Lit "observed"; Lit "metric"; Lit "service"; Name; Path] (λ args, match args with [AName service; AName metric] => KeyObservedMetric service metric | _ => "" end);
  mkFamily [Lit "placement"; Lit "instance"; Path] (λ args, match args with [AName instanceID] => KeyPlacementInstance instanceID | _ => "" end);
  mkFamily [Lit "placement"; Lit "node"; Name; Path] (λ args, match args with [AName nodeID; AName instanceID] => KeyPlacementNodeInstance nodeID instanceID | _ => "" end);
  mkFamily [Lit "placement"; Lit "node"; Name; Lit ""] (λ args, match args with [AName nodeID] => ScanPlacementsForNode nodeID | _ => "" end);
  mkFamily [Lit "endpoint"; Lit "service"; Name; Name; Number] (λ args, match args with [AName serviceName; AName instanceID; ANumber port] => KeyEndpoint serviceName instanceID port | _ => "" end);
  mkFamily [Lit "intent"; Lit "user"; Lit "service"; Name; Lit "instances"] (λ args, match args with [AName name] => KeyIntentUserServiceInstances name | _ => "" end);
  mkFamily [Lit "intent"; Lit "autoscaler"; Lit "service"; Name; Lit "instances"] (λ args, match args with [AName name] => KeyIntentAutoscalerServiceInstances name | _ => "" end);
  mkFamily [Lit "lease"; Lit "node"; Path] (λ args, match args with [AName nodeID] => KeyLeaseNode nodeID | _ => "" end);
  mkFamily [Lit "network"; Lit "node"; Name; Lit "subnet"] (λ args, match args with [AName nodeID] => KeyNetworkNodeSubnet nodeID | _ => "" end);
  mkFamily [Lit "network"; Lit "allocation"; Path] (λ args, match args with [AName instanceID] => KeyNetworkAllocation instanceID | _ => "" end);
  mkFamily [Lit "network"; Lit "vip"; Lit "service"; Name] (λ args, match args with [AName serviceName] => KeyNetworkVIPService serviceName | _ => "" end);
  mkFamily [Lit "network"; Lit "vip"; Lit "service"; Name; Lit "port"] (λ args, match args with [AName serviceName] => KeyNetworkVIPServicePort serviceName | _ => "" end);
  mkFamily [Lit "network"; Lit "dns"; Name] (λ args, match args with [AName serviceName] => KeyNetworkDNS serviceName | _ => "" end);
  mkFamily [Lit "observed"; Lit "instance"; Name; Lit "ordinal"] (λ args, match args with [AName instanceID] => KeyObservedInstanceOrdinal instanceID | _ => "" end);
  mkFamily [Lit "network"; Lit "dns"; Lit "instance"; Path] (λ args, match args with [AName instanceID] => KeyNetworkDNSInstance instanceID | _ => "" end);
  mkFamily [Lit "network"; Lit "dns"; Lit "hostname"; Path] (λ args, match args with [AName hostname] => KeyNetworkDNSHostname hostname | _ => "" end);
  mkFamily [Lit "desired"; Lit "service"; Name; Lit "scale"; Lit "horizontal"; Lit "min"] (λ args, match args with [AName name] => KeyDesiredServiceScaleHorizontalMin name | _ => "" end);
  mkFamily [Lit "desired"; Lit "service"; Name; Lit "scale"; Lit "horizontal"; Lit "max"] (λ args, match args with [AName name] => KeyDesiredServiceScaleHorizontalMax name | _ => "" end);
  mkFamily [Lit "desired"; Lit "service"; Name; Lit "scale"; Lit "horizontal"; Lit "target"; Path] (λ args, match args with [AName name; AName metric] => KeyDesiredServiceScaleHorizontalTarget name metric | _ => "" end);
  mkFamily [Lit "desired"; Lit "service"; Name; Lit "scale"; Lit "horizontal"; Lit "target"; Lit ""] (λ args, match args with [AName name] => ScanDesiredServiceScaleTargets name | _ => "" end);
  mkFamily [Lit "desired"; Lit "service"; Name; Lit "scale"; Lit "horizontal"; Lit "stabilization"; Lit "up"] (λ args, match args with [AName name] => KeyDesiredServiceScaleStabilizationUp name | _ => "" end);
  mkFamily [Lit "desired"; Lit "service"; Name; Lit "scale"; Lit "horizontal"; Lit "stabilization"; Lit "down"] (λ args, match args with [AName name] => KeyDesiredServiceScaleStabilizationDown name | _ => "" end);
  mkFamily [Lit "desired"; Lit "service"; Name; Lit "scale"; Lit "horizontal"; Lit "idle_timeout"] (λ args, match args with [AName name] => KeyDesiredServiceScaleIdleTimeout name | _ => "" end);
  mkFamily [Lit "desired"; Lit "service"; Name; Lit "scale"; Lit "horizontal"; Lit "activation_timeout"] (λ args, match args with [AName name] => KeyDesiredServiceScaleActivationTimeout name | _ => "" end);
  mkFamily [Lit "observed"; Lit "service"; Name; Lit "last_request_time"] (λ args, match args with [AName name] => KeyObservedServiceLastRequestTime name | _ => "" end);
  mkFamily [Lit "derived"; Lit "service"; Name; Lit "activation"; Lit "state"] (λ args, match args with [AName name] => KeyDerivedServiceActivationState name | _ => "" end);
  mkFamily [Lit "desired"; Lit "service"; Name; Lit "scale"; Lit "vertical"; Lit "cpu"; Lit "min"] (λ args, match args with [AName name] => KeyDesiredServiceScaleVerticalCPUMin name | _ => "" end);
  mkFamily [Lit "desired"; Lit "service"; Name; Lit "scale"; Lit "vertical"; Lit "cpu"; Lit "max"] (λ args, match args with [AName name] => KeyDesiredServiceScaleVerticalCPUMax name | _ => "" end);
  mkFamily [Lit "desired"; Lit "service"; Name; Lit "scale"; Lit "vertical"; Lit "memory"; Lit "min"] (λ args, match args with [AName name] => KeyDesiredServiceScaleVerticalMemoryMin name | _ => "" end);
  mkFamily [Lit "desired"; Lit "service"; Name; Lit "scale"; Lit "vertical"; Lit "memory"; Lit "max"] (λ args, match args with [AName name] => KeyDesiredServiceScaleVerticalMemoryMax name | _ => "" end);
  mkFamily [Lit "intent"; Lit "autoscaler"; Lit "service"; Name; Lit "resources"; Lit "cpu"] (λ args, match args with [AName name] => KeyIntentAutoscalerServiceResourcesCPU name | _ => "" end);
  mkFamily [Lit "intent"; Lit "autoscaler"; Lit "service"; Name; Lit "resources"; Lit "memory"] (λ args, match args with [AName name] => KeyIntentAutoscalerServiceResourcesMemory name | _ => "" end);
  mkFamily [Lit "effective"; Lit "service"; Name; Lit "resources"; Lit "cpu"] (λ args, match args with [AName name] => KeyEffectiveServiceResourcesCPU name | _ => "" end);
  mkFamily [Lit "effective"; Lit "service"; Name; Lit "resources"; Lit "memory"] (λ args, match args with [AName name] => KeyEffectiveServiceResourcesMemory name | _ => "" end);
  mkFamily [Lit "desired"; Lit "service"; Name; Lit "scale"; Lit "horizontal"; Lit "event"; Path] (λ args, match args with [AName name; AName source] => KeyDesiredServiceScaleHorizontalEvent name source | _ => "" end);
  mkFamily [Lit "desired"; Lit "service"; Name; Lit "scale"; Lit "horizontal"; Lit "schedule"; Lit "days"] (λ args, match args with [AName name] => KeyDesiredServiceScaleScheduleDays name | _ => "" end);
  mkFamily [Lit "desired"; Lit "service"; Name; Lit "scale"; Lit "horizontal"; Lit "schedule"; Lit "start"] (λ args, match args with [AName name] => KeyDesiredServiceScaleScheduleStart name | _ => "" end);
  mkFamily [Lit "desired"; Lit "service"; Name; Lit "scale"; Lit "horizontal"; Lit "schedule"; Lit "end"] (λ args, match args with [AName name] => KeyDesiredServiceScaleScheduleEnd name | _ => "" end);
  mkFamily [Lit "desired"; Lit "service"; Name; Lit "scale"; Lit "horizontal"; Lit "schedule"; Lit "minimum"] (λ args, match args with [AName name] => KeyDesiredServiceScaleScheduleMinimum name | _ => "" end);
  mkFamily [Lit "desired"; Lit "service"; Name; Lit "placement"; Lit "architecture"] (λ args, match args with [AName name] => KeyDesiredServicePlacementArchitecture name | _ => "" end);
  mkFamily [Lit "desired"; Lit "service"; Name; Lit "placement"; Lit "zone"] (λ args, match args with [AName name] => KeyDesiredServicePlacementZonePolicy name | _ => "" end);
  mkFamily [Lit "desired"; Lit "service"; Name; Lit "placement"; Lit "zone"; Lit "maxSkew"] (λ args, match args with [AName name] => KeyDesiredServicePlacementZoneMaxSkew name | _ => "" end);
  mkFamily [Lit "desired"; Lit "service"; Name; Lit "placement"; Lit "require"; Path] (λ args, match args with [AName name; AName label] => KeyDesiredServicePlacementRequire name label | _ => "" end);
  mkFamily [Lit "desired"; Lit "service"; Name; Lit "placement"; Lit "prefer"; Path] (λ args, match args with [AName name; AName label] => KeyDesiredServicePlacementPrefer name label | _ => "" end);
  mkFamily [Lit "desired"; Lit "service"; Name; Lit "placement"; Lit "accept"; Path] (λ args, match args with [AName name; AName label] => KeyDesiredServicePlacementAccept name label | _ => "" end);
  mkFamily [Lit "desired"; Lit "service"; Name; Lit "placement"; Lit "colocate"; Path] (λ args, match args with [AName name; AName targetService] => KeyDesiredServicePlacementColocate name targetService | _ => "" end);
  mkFamily [Lit "desired"; Lit "service"; Name; Lit "placement"; Lit "separate"; Path] (λ args, match args with [AName name; AName targetService] => KeyDesiredServicePlacementSeparate name targetService | _ => "" end);
  mkFamily [Lit "desired"; Lit "service"; Name; Lit "placement"; Lit "rebalance"] (λ args, match args with [AName name] => KeyDesiredServicePlacementRebalance name | _ => "" end);
  mkFamily [Lit "desired"; Lit "service"; Name; Lit "placement"; Lit "mode"] (λ args, match args with [AName name] => KeyDesiredServicePlacementMode name | _ => "" end);
  mkFamily [Lit "effective"; Lit "service"; Name; Lit "placement_mode"] (λ args, match args with [AName name] => KeyEffectiveServicePlacementMode name | _ => "" end);
  mkFamily [Lit "desired"; Lit "service"; Name; Lit "priority"] (λ args, match args with [AName name] => KeyDesiredServicePriority name | _ => "" end);
  mkFamily [Lit "effective"; Lit "service"; Name; Lit "priority"] (λ args, match args with [AName name] => KeyEffectiveServicePriority name | _ => "" end);
  mkFamily [Lit "desired"; Lit "service"; Name; Lit "update"; Lit "max_unavailable"] (λ args, match args with [AName name] => KeyDesiredServiceUpdateMaxUnavailable name | _ => "" end);
  mkFamily [Lit "desired"; Lit "service"; Name; Lit "update"; Lit "max_extra"] (λ args, match args with [AName name] => KeyDesiredServiceUpdateMaxExtra name | _ => "" end);
  mkFamily [Lit "desired"; Lit "service"; Name; Lit "stateful"] (λ args, match args with [AName name] => KeyDesiredServiceStateful name | _ => "" end);
  mkFamily [Lit "effective"; Lit "service"; Name; Lit "stateful"] (λ args, match args with [AName name] => KeyEffectiveServiceStateful name | _ => "" end);
  mkFamily [Lit "desired"; Lit "service"; Name; Lit "disruption"; Lit "min_available"] (λ args, match args with [AName name] => KeyDesiredServiceDisruptionMinAvailable name | _ => "" end);
  mkFamily [Lit "desired"; Lit "service"; Name; Lit "disruption"; Lit "max_unavailable"] (λ args, match args with [AName name] => KeyDesiredServiceDisruptionMaxUnavailable name | _ => "" end);
  mkFamily [Lit "desired"; Lit "cluster"; Lit "autoscale"; Lit "min_nodes"] (λ _, KeyDesiredClusterAutoscaleMinNodes);
  mkFamily [Lit "desired"; Lit "cluster"; Lit "autoscale"; Lit "max_nodes"] (λ _, KeyDesiredClusterAutoscaleMaxNodes);
  mkFamily [Lit "desired"; Lit "service"; Name; Lit "config"; Lit "env"; Path] (λ args, match args with [AName serviceName; AName varName] => KeyDesiredServiceConfigEnv serviceName varName | _ => "" end);
  mkFamily [Lit "desired"; Lit "service"; Name; Lit "config"; Lit "file"; Path] (λ args, match args with [AName serviceName; AName filePath] => KeyDesiredServiceConfigFile serviceName filePath | _ => "" end);
  mkFamily [Lit "desired"; Lit "service"; Name; Lit "secret"; Path] (λ args, match args with [AName serviceName; AName secretName] => KeyDesiredServiceSecret serviceName secretName | _ => "" end);
  mkFamily [Lit "desired"; Lit "service"; Name; Lit "config"; Lit ""] (λ args, match args with [AName serviceName] => ScanDesiredServiceConfig serviceName | _ => "" end);
  mkFamily [Lit "desired"; Lit "service"; Name; Lit "secret"; Lit ""] (λ args, match args with [AName serviceName] => ScanDesiredServiceSecrets serviceName | _ => "" end);
  mkFamily [Lit "desired"; Lit "connection"; Path] (λ args, match args with [AName connectionName] => KeyDesiredConnection connectionName | _ => "" end);
  mkFamily [Lit "desired"; Lit "connection"; Lit ""] (λ _, ScanDesiredConnections);
  mkFamily [Lit "desired"; Lit "service"; Name; Lit "connection"; Path] (λ args, match args with [AName serviceName; AName connectionName] => KeyDesiredServiceConnection serviceName connectionName | _ => "" end);
  mkFamily [Lit "desired"; Lit "service"; Name; Lit "connection"; Lit ""] (λ args, match args with [AName serviceName] => ScanDesiredServiceConnections serviceName | _ => "" end);
  mkFamily [Lit "observed"; Lit "node"; Name; Lit "utilization"; Lit "cpu"] (λ args, match args with [AName nodeID] => KeyObservedNodeUtilizationCPU nodeID | _ => "" end);
  mkFamily [Lit "observed"; Lit "node"; Name; Lit "utilization"; Lit "memory"] (λ args, match args with [AName nodeID] => KeyObservedNodeUtilizationMemory nodeID | _ => "" end);
  mkFamily [Lit "observed"; Lit "telemetry"; Lit "node"; Name; Lit "workloads"] (λ args, match args with [AName nodeID] => KeyObservedNodeWorkloadCount nodeID | _ => "" end);
  mkFamily [Lit "observed"; Lit "telemetry"; Lit "instance"; Name; Lit "cpu"] (λ args, match args with [AName instanceID] => KeyObservedInstanceCPU instanceID | _ => "" end);
  mkFamily [Lit "observed"; Lit "telemetry"; Lit "instance"; Name; Lit "memory"] (λ args, match args with [AName instanceID] => KeyObservedInstanceMemory instanceID | _ => "" end);
  mkFamily [Lit "observed"; Lit "telemetry"; Lit "instance"; Name; Lit "oom-kills"] (λ args, match args with [AName instanceID] => KeyObservedInstanceOOMKills instanceID | _ => "" end);
  mkFamily [Lit "observed"; Lit "instance"; Name; Lit "restarts"] (λ args, match args with [AName instanceID] => KeyObservedInstanceRestarts instanceID | _ => "" end);
  mkFamily [Lit "observed"; Lit "instance"; Name; Lit "status-reason"] (λ args, match args with [AName instanceID] => KeyObservedInstanceStatusReason instanceID | _ => "" end);
  mkFamily [Lit "observed"; Lit "instance"; Name; Lit "init-progress"] (λ args, match args with [AName instanceID] => KeyObservedInstanceInitProgress instanceID | _ => "" end);
  mkFamily [Lit "observed"; Lit "instance"; Name; Lit "probe-progress"] (λ args, match args with [AName instanceID] => KeyObservedInstanceProbeProgress instanceID | _ => "" end);
  mkFamily [Lit "desired"; Lit "service"; Name; Lit "init"; Number] (λ args, match args with [AName serviceName; ANumber stepIndex] => KeyDesiredServiceInitStep serviceName stepIndex | _ => "" end);
  mkFamily [Lit "desired"; Lit "service"; Name; Lit "init"; Number; Lit "exec"] (λ args, match args with [AName serviceName; ANumber stepIndex] => KeyDesiredServiceInitStepExec serviceName stepIndex | _ => "" end);
  mkFamily [Lit "desired"; Lit "service"; Name; Lit "init"; Number; Lit "timeout"] (λ args, match args with [AName serviceName; ANumber stepIndex] => KeyDesiredServiceInitStepTimeout serviceName stepIndex | _ => "" end);
  mkFamily [Lit "desired"; Lit "service"; Name; Lit "init"; Number; Lit "retry"] (λ args, match args with [AName serviceName; ANumber stepIndex] => KeyDesiredServiceInitStepRetry serviceName stepIndex | _ => "" end);
  mkFamily [Lit "desired"; Lit "service"; Name; Lit "init"; Number; Lit "connection"] (λ args, match args with [AName serviceName; ANumber stepIndex] => KeyDesiredServiceInitStepConnection serviceName stepIndex | _ => "" end);
  mkFamily [Lit "desired"; Lit "service"; Name; Lit "init"; Lit ""] (λ args, match args with [AName serviceName] => ScanDesiredServiceInitSteps serviceName | _ => "" end);
  mkFamily [Lit "observed"; Lit "instance"; Name; Lit "init"; Lit "step"; Number; Lit "state"] (λ args, match args with [AName instanceID; ANumber stepIndex] => KeyObservedInstanceInitStepState instanceID stepIndex | _ => "" end);
  mkFamily [Lit "observed"; Lit "instance"; Name; Lit "init"; Lit "step"; Number; Lit "reason"] (λ args, match args with [AName instanceID; ANumber stepIndex] => KeyObservedInstanceInitStepReason instanceID stepIndex | _ => "" end);
  mkFamily [Lit "observed"; Lit "instance"; Name; Lit "init"; Lit "step"; Lit ""] (λ args, match args with [AName instanceID] => ScanObservedInstanceInitSteps instanceID | _ => "" end);
  mkFamily [Lit "desired"; Lit "tenant"; Name] (λ args, match args with [AName tenantName] => KeyDesiredTenant tenantName | _ => "" end);
  mkFamily [Lit "desired"; Lit "tenant"; Name; Lit "quota"; Lit "cpu"] (λ args, match args with [AName tenantName] => KeyDesiredTenantQuotaCPU tenantName | _ => "" end);
  mkFamily [Lit "desired"; Lit "tenant"; Name; Lit "quota"; Lit "memory"] (λ args, match args with [AName tenantName] => KeyDesiredTenantQuotaMemory tenantName | _ => "" end);
  mkFamily [Lit "desired"; Lit "tenant"; Name; Lit "quota"; Lit "instances"] (λ args, match args with [AName tenantName] => KeyDesiredTenantQuotaInstances tenantName | _ => "" end);
  mkFamily [Lit "desired"; Lit "tenant"; Name; Lit "quota"; Lit "volumes"] (λ args, match args with [AName tenantName] => KeyDesiredTenantQuotaVolumes tenantName | _ => "" end);
  mkFamily [Lit "desired"; Lit "tenant"; Name; Lit "quota"; Lit "storage"] (λ args, match args with [AName tenantName] => KeyDesiredTenantQuotaStorage tenantName | _ => "" end);
  mkFamily [Lit "desired"; Lit "tenant"; Name; Lit "weight"] (λ args, match args with [AName tenantName] => KeyDesiredTenantWeight tenantName | _ => "" end);
  mkFamily [Lit "observed"; Lit "tenant"; Name; Lit "usage"; Lit "cpu"] (λ args, match args with [AName tenantName] => KeyObservedTenantUsageCPU tenantName | _ => "" end);
  mkFamily [Lit "observed"; Lit "tenant"; Name; Lit "usage"; Lit "memory"] (λ args, match args with [AName tenantName] => KeyObservedTenantUsageMemory tenantName | _ => "" end);
  mkFamily [Lit "observed"; Lit "tenant"; Name; Lit "usage"; Lit "instances"] (λ args, match args with [AName tenantName] => KeyObservedTenantUsageInstances tenantName | _ => "" end);
  mkFamily [Lit "observed"; Lit "tenant"; Name; Lit "usage"; Lit "volumes"] (λ args, match args with [AName tenantName] => KeyObservedTenantUsageVolumes tenantName | _ => "" end);
  mkFamily [Lit "desired"; Lit "service"; Name; Lit "owner"] (λ args, match args with [AName serviceName] => KeyDesiredServiceOwner serviceName | _ => "" end);
  mkFamily [Lit "export"; Name] (λ args, match args with [AName serviceName] => KeyExportService serviceName | _ => "" end);
  mkFamily [Lit "export"; Name; Lit "allow"; Path] (λ args, match args with [AName serviceName; AName tenantName] => KeyExportServiceAllowTenant serviceName tenantName | _ => "" end);
  mkFamily [Lit "export"; Name; Lit "allow"; Lit ""] (λ args, match args with [AName serviceName] => ScanExportServiceAllowTenants serviceName | _ => "" end);
  mkFamily [Lit "import"; Name; Lit "uses"; Path] (λ args, match args with [AName consumerService; AName exportedService] => KeyImportService consumerService exportedService | _ => "" end);
  mkFamily [Lit "import"; Name; Lit "uses"; Lit ""] (λ args, match args with [AName consumerService] => ScanImportsForService consumerService | _ => "" end);
  mkFamily [Lit "desired"; Lit "tenant"; Name; Lit "state"] (λ args, match args with [AName tenantName] => KeyDesiredTenantState tenantName | _ => "" end);
  mkFamily [Lit "desired"; Lit "volume"; Name] (λ args, match args with [AName volumeName] => KeyDesiredVolume volumeName | _ => "" end);
  mkFamily [Lit "desired"; Lit "volume"; Name; Lit "size"] (λ args, match args with [AName volumeName] => KeyDesiredVolumeSize volumeName | _ => "" end);
  mkFamily [Lit "desired"; Lit "volume"; Name; Lit "persistent"] (λ args, match args with [AName volumeName] => KeyDesiredVolumePersistent volumeName | _ => "" end);
  mkFamily [Lit "desired"; Lit "volume"; Name; Lit "type"] (λ args, match args with [AName volumeName] => KeyDesiredVolumeType volumeName | _ => "" end);
  mkFamily [Lit "desired"; Lit "volume"; Name; Lit "replicas"] (λ args, match args with [AName volumeName] => KeyDesiredVolumeReplicas volumeName | _ => "" end);
  mkFamily [Lit "desired"; Lit "service"; Name; Lit "volume"; Path] (λ args, match args with [AName serviceName; AName volumeName] => KeyDesiredServiceVolume serviceName volumeName | _ => "" end);
  mkFamily [Lit "observed"; Lit "volume"; Name] (λ args, match args with [AName volumeName] => KeyObservedVolume volumeName | _ => "" end);
  mkFamily [Lit "observed"; Lit "volume"; Name; Lit "state"] (λ args, match args with [AName volumeName] => KeyObservedVolumeState volumeName | _ => "" end);
  mkFamily [Lit "observed"; Lit "volume"; Name; Lit "node"] (λ args, match args with [AName volumeName] => KeyObservedVolumeNode volumeName | _ => "" end);
  mkFamily [Lit "observed"; Lit "volume"; Name; Lit "instance"] (λ args, match args with [AName volumeName] => KeyObservedVolumeInstance volumeName | _ => "" end);
  mkFamily [Lit "observed"; Lit "volume"; Name; Lit "access"] (λ args, match args with [AName volumeName] => KeyObservedVolumeAccess volumeName | _ => "" end);
  mkFamily [Lit "observed"; Lit "volume"; Name; Lit "attachment"; Name; Path] (λ args, match args with [AName volumeName; AName nodeID; AName instanceID] => KeyObservedVolumeAttachment volumeName nodeID instanceID | _ => "" end);
  mkFamily [Lit "observed"; Lit "volume"; Name; Lit "attachment"; Name; Lit ""] (λ args, match args with [AName volumeName; AName nodeID] => ScanObservedVolumeNodeAttachments volumeName nodeID | _ => "" end);
  mkFamily [Lit "observed"; Lit "volume"; Name; Lit "size"] (λ args, match args with [AName volumeName] => KeyObservedVolumeSize volumeName | _ => "" end);
  mkFamily [Lit "observed"; Lit "volume"; Name; Lit "mount_path"] (λ args, match args with [AName volumeName] => KeyObservedVolumeMountPath volumeName | _ => "" end);
  mkFamily [Lit "observed"; Lit "volume"; Name; Lit "type"] (λ args, match args with [AName volumeName] => KeyObservedVolumeType volumeName | _ => "" end);
  mkFamily [Lit "observed"; Lit "volume"; Name; Lit "home_node"] (λ args, match args with [AName volumeName] => KeyObservedVolumeHomeNode volumeName | _ => "" end);
  mkFamily [Lit "observed"; Lit "volume"; Name; Lit "migration_source"] (λ args, match args with [AName volumeName] => KeyObservedVolumeMigrationSource volumeName | _ => "" end);
  mkFamily [Lit "observed"; Lit "volume"; Name; Lit "last_snapshot"] (λ args, match args with [AName volumeName] => KeyObservedVolumeLastSnapshot volumeName | _ => "" end);
  mkFamily [Lit "observed"; Lit "volume"; Name; Lit "used_bytes"] (λ args, match args with [AName volumeName] => KeyObservedVolumeUsedBytes volumeName | _ => "" end);
  mkFamily [Lit "observed"; Lit "volume"; Name; Lit "capacity_bytes"] (λ args, match args with [AName volumeName] => KeyObservedVolumeCapacityBytes volumeName | _ => "" end);
  mkFamily [Lit "observed"; Lit "volume"; Name; Lit "replica_count"] (λ args, match args with [AName volumeName] => KeyObservedVolumeReplicaCount volumeName | _ => "" end);
  mkFamily [Lit "observed"; Lit "volume"; Name; Lit "replica_state"] (λ args, match args with [AName volumeName] => KeyObservedVolumeReplicaState volumeName | _ => "" end);
  mkFamily [Lit "derived"; Lit "volume"; Name; Lit "pending_operation"] (λ args, match args with [AName volumeName] => KeyDerivedVolumePendingOperation volumeName | _ => "" end);
  mkFamily [Lit "derived"; Lit "volume"; Name; Lit "pending_resize"] (λ args, match args with [AName volumeName] => KeyDerivedVolumePendingResize volumeName | _ => "" end);
  mkFamily [Lit "derived"; Lit "volume"; Name; Lit "pending_snapshot"] (λ args, match args with [AName volumeName] => KeyDerivedVolumePendingSnapshot volumeName | _ => "" end);
  mkFamily [Lit "derived"; Lit "volume"; Name; Lit "last_operation"] (λ args, match args with [AName volumeName] => KeyDerivedVolumeLastOperation volumeName | _ => "" end);
  mkFamily [Lit "desired"; Lit "service"; Name; Lit "probe"; Name; Lit "method"] (λ args, match args with [AName serviceName; AName probeType] => KeyDesiredServiceProbeMethod serviceName probeType | _ => "" end);
  mkFamily [Lit "desired"; Lit "service"; Name; Lit "probe"; Name; Lit "path"] (λ args, match args with [AName serviceName; AName probeType] => KeyDesiredServiceProbePath serviceName probeType | _ => "" end);
  mkFamily [Lit "desired"; Lit "service"; Name; Lit "probe"; Name; Lit "port"] (λ args, match args with [AName serviceName; AName probeType] => KeyDesiredServiceProbePort serviceName probeType | _ => "" end);
  mkFamily [Lit "desired"; Lit "service"; Name; Lit "probe"; Name; Lit "interval"] (λ args, match args with [AName serviceName; AName probeType] => KeyDesiredServiceProbeInterval serviceName probeType | _ => "" end);
  mkFamily [Lit "desired"; Lit "service"; Name; Lit "probe"; Name; Lit "timeout"] (λ args, match args with [AName serviceName; AName probeType] => KeyDesiredServiceProbeTimeout serviceName probeType | _ => "" end);
  mkFamily [Lit "desired"; Lit "service"; Name; Lit "probe"; Name; Lit "failure_threshold"] (λ args, match args with [AName serviceName; AName probeType] => KeyDesiredServiceProbeFailureThreshold serviceName probeType | _ => "" end);
  mkFamily [Lit "desired"; Lit "service"; Name; Lit "probe"; Name; Lit "success_threshold"] (λ args, match args with [AName serviceName; AName probeType] => KeyDesiredServiceProbeSuccessThreshold serviceName probeType | _ => "" end);
  mkFamily [Lit "desired"; Lit "service"; Name; Lit "probe"; Name; Lit "initial_delay"] (λ args, match args with [AName serviceName; AName probeType] => KeyDesiredServiceProbeInitialDelay serviceName probeType | _ => "" end);
  mkFamily [Lit "desired"; Lit "service"; Name; Lit "probe"; Name; Lit ""] (λ args, match args with [AName serviceName; AName probeType] => ScanDesiredServiceProbe serviceName probeType | _ => "" end);
  mkFamily [Lit "observed"; Lit "instance"; Name; Lit "probe"; Path] (λ args, match args with [AName instanceID; AName probeType] => KeyObservedInstanceProbeState instanceID probeType | _ => "" end);
  mkFamily [Lit "observed"; Lit "instance"; Name; Lit "probe"; Lit ""] (λ args, match args with [AName instanceID] => ScanObservedInstanceProbes instanceID | _ => "" end);
  mkFamily [Lit "desired"; Lit "cloud_identity"; Name] (λ args, match args with [AName identityName] => KeyDesiredCloudIdentity identityName | _ => "" end);
  mkFamily [Lit "desired"; Lit "cloud_identity"; Name; Lit "provider"] (λ args, match args with [AName identityName] => KeyDesiredCloudIdentityProvider identityName | _ => "" end);
  mkFamily [Lit "desired"; Lit "cloud_identity"; Name; Lit "role"] (λ args, match args with [AName identityName] => KeyDesiredCloudIdentityRole identityName | _ => "" end);
  mkFamily [Lit "desired"; Lit "cloud_identity"; Name; Lit "service_account"] (λ args, match args with [AName identityName] => KeyDesiredCloudIdentityServiceAccount identityName | _ => "" end);
  mkFamily [Lit "desired"; Lit "cloud_identity"; Name; Lit "pool"] (λ args, match args with [AName identityName] => KeyDesiredCloudIdentityPool identityName | _ => "" end);
  mkFamily [Lit "desired"; Lit "cloud_identity"; Name; Lit "client_id"] (λ args, match args with [AName identityName] => KeyDesiredCloudIdentityClientID identityName | _ => "" end);
  mkFamily [Lit "desired"; Lit "cloud_identity"; Name; Lit "tenant_id"] (λ args, match args with [AName identityName] => KeyDesiredCloudIdentityTenantID identityName | _ => "" end);
  mkFamily [Lit "desired"; Lit "service"; Name; Lit "cloud_identity"; Name] (λ args, match args with [AName serviceName; AName identityName] => KeyDesiredServiceCloudIdentity serviceName identityName | _ => "" end);
  mkFamily [Lit "desired"; Lit "service"; Name; Lit "cloud_identity"; Name; Lit "mount_path"] (λ args, match args with [AName serviceName; AName identityName] => KeyDesiredServiceCloudIdentityMountPath serviceName identityName | _ => "" end);
  mkFamily [Lit "desired"; Lit "service"; Name; Lit "cloud_identity"; Name; Lit "deliver_mode"] (λ args, match args with [AName serviceName; AName identityName] => KeyDesiredServiceCloudIdentityDeliverMode serviceName identityName | _ => "" end);
  mkFamily [Lit "desired"; Lit "service"; Name; Lit "cloud_identity"; Lit ""] (λ args, match args with [AName serviceName] => ScanDesiredServiceCloudIdentities serviceName | _ => "" end);
  mkFamily [Lit "desired"; Lit "credential_broker"; Lit "oidc_issuer"] (λ _, KeyDesiredCredentialBrokerOIDCIssuer);
  mkFamily [Lit "desired"; Lit "credential_broker"; Lit "credential_ttl"] (λ _, KeyDesiredCredentialBrokerCredentialTTL);
  mkFamily [Lit "desired"; Lit "credential_broker"; Lit "refresh_before"] (λ _, KeyDesiredCredentialBrokerRefreshBefore);
  mkFamily [Lit "derived"; Lit "service"; Name; Lit "rollout"; Lit "state"] (λ args, match args with [AName name] => KeyDerivedServiceRolloutState name | _ => "" end);
  mkFamily [Lit "derived"; Lit "service"; Name; Lit "rollout"; Lit "previous_image"] (λ args, match args with [AName name] => KeyDerivedServiceRolloutImage name | _ => "" end);
  mkFamily [Lit "derived"; Lit "service"; Name; Lit "rollout"; Lit "failures"] (λ args, match args with [AName name] => KeyDerivedServiceRolloutFailures name | _ => "" end);
  mkFamily [Lit "derived"; Lit "service"; Name; Lit "rollout"; Lit "surge_allowance"] (λ args, match args with [AName name] => KeyDerivedServiceRolloutSurgeAllowance name | _ => "" end);
  mkFamily [Lit "derived"; Lit "service"; Name; Lit "rollout"; Lit "revision"] (λ args, match args with [AName name] => KeyDerivedServiceRolloutRevision name | _ => "" end);
  mkFamily [Lit "derived"; Lit "service"; Name; Lit "rollout"; Lit "history"; Number] (λ args, match args with [AName name; ANumber revision] => KeyDerivedServiceRolloutHistory name revision | _ => "" end);
  mkFamily [Lit "derived"; Lit "service"; Name; Lit "rollout"; Lit "history"; Lit ""] (λ args, match args with [AName name] => ScanDerivedServiceRolloutHistory name | _ => "" end);
  mkFamily [Lit "desired"; Lit "service"; Name; Lit "rollout"; Lit "paused"] (λ args, match args with [AName name] => KeyDesiredServiceRolloutPaused name | _ => "" end);
  mkFamily [Lit "derived"; Lit "instance"; Name; Lit "init"; Lit "phase"] (λ args, match args with [AName instanceID] => KeyDerivedInstanceInitPhase instanceID | _ => "" end);
  mkFamily [Lit "derived"; Lit "instance"; Name; Lit "drain_since"] (λ args, match args with [AName instanceID] => KeyDerivedInstanceDrainSince instanceID | _ => "" end);
  mkFamily [Lit "derived"; Lit "instance"; Name; Lit "drain_readiness"] (λ args, match args with [AName instanceID] => KeyDerivedInstanceDrainReadiness instanceID | _ => "" end);
  mkFamily [Lit "derived"; Lit "instance"; Name; Lit "node_failure"] (λ args, match args with [AName instanceID] => KeyDerivedInstanceNodeFailure instanceID | _ => "" end);
  mkFamily [Lit "derived"; Lit "instance"; Name; Lit "controller_stopped"] (λ args, match args with [AName instanceID] => KeyDerivedInstanceControllerStopped instanceID | _ => "" end);
  mkFamily [Lit "derived"; Lit "crash-loop"; Path] (λ args, match args with [AName serviceName] => KeyDerivedCrashLoopCounter serviceName | _ => "" end);
  mkFamily [Lit "derived"; Lit "node"; Name; Lit "drain"; Lit "started"] (λ args, match args with [AName nodeID] => KeyDerivedNodeDrainStarted nodeID | _ => "" end);
  mkFamily [Lit "derived"; Lit "node"; Name; Lit "drain"; Lit "initiator"] (λ args, match args with [AName nodeID] => KeyDerivedNodeDrainInitiator nodeID | _ => "" end);
  mkFamily [Lit "derived"; Lit "node"; Name; Lit "drain"; Lit "complete"] (λ args, match args with [AName nodeID] => KeyDerivedNodeDrainComplete nodeID | _ => "" end);
  mkFamily [Lit "derived"; Lit "node"; Name; Lit "drain"; Lit "evict"; Path] (λ args, match args with [AName nodeID; AName instanceID] => KeyDerivedNodeDrainEvict nodeID instanceID | _ => "" end);
  mkFamily [Lit "derived"; Lit "node"; Name; Lit "pressure"] (λ args, match args with [AName nodeID] => KeyDerivedNodePressure nodeID | _ => "" end);
  mkFamily [Lit "derived"; Lit "credential"; Name; Name; Lit "state"] (λ args, match args with [AName instanceID; AName identityName] => KeyDerivedCredentialState instanceID identityName | _ => "" end);
  mkFamily [Lit "derived"; Lit "credential"; Name; Name; Lit "expires_at"] (λ args, match args with [AName instanceID; AName identityName] => KeyDerivedCredentialExpiresAt instanceID identityName | _ => "" end);
  mkFamily [Lit "derived"; Lit "credential"; Name; Name; Lit "issued_at"] (λ args, match args with [AName instanceID; AName identityName] => KeyDerivedCredentialIssuedAt instanceID identityName | _ => "" end);
  mkFamily [Lit "derived"; Lit "credential"; Name; Name; Lit "error"] (λ args, match args with [AName instanceID; AName identityName] => KeyDerivedCredentialError instanceID identityName | _ => "" end);
  mkFamily [Lit "desired"; Lit "cloud"; Lit "provider"] (λ _, KeyDesiredCloudProvider);
  mkFamily [Lit "desired"; Lit "cloud"; Lit "region"] (λ _, KeyDesiredCloudRegion);
  mkFamily [Lit "desired"; Lit "cloud"; Lit "instance_type"] (λ _, KeyDesiredCloudInstanceType);
  mkFamily [Lit "desired"; Lit "cloud"; Lit "credentials"] (λ _, KeyDesiredCloudCredentials);
  mkFamily [Lit "desired"; Lit "cloud"; Lit "project_id"] (λ _, KeyDesiredCloudProjectID);
  mkFamily [Lit "desired"; Lit "cloud"; Lit "resource_group"] (λ _, KeyDesiredCloudResourceGroup);
  mkFamily [Lit "desired"; Lit "cloud"; Lit "vpc_network"] (λ _, KeyDesiredCloudVPCNetwork);
  mkFamily [Lit "desired"; Lit "cloud"; Lit "route_table"] (λ _, KeyDesiredCloudRouteTable);
  mkFamily [Lit "desired"; Lit "service"; Name; Lit "expose"; Number; Lit "external"] (λ args, match args with [AName serviceName; ANumber port] => KeyDesiredServiceExposeExternal serviceName port | _ => "" end);
  mkFamily [Lit "desired"; Lit "service"; Name; Lit "expose"; Lit ""] (λ args, match args with [AName serviceName] => ScanDesiredServiceExposeExternal serviceName | _ => "" end);
  mkFamily [Lit "observed"; Lit "cloud"; Lit "instance"; Name; Lit "state"] (λ args, match args with [AName providerInstanceID] => KeyObservedCloudInstanceState providerInstanceID | _ => "" end);
  mkFamily [Lit "observed"; Lit "cloud"; Lit "instance"; Name; Lit "node_id"] (λ args, match args with [AName providerInstanceID] => KeyObservedCloudInstanceNodeID providerInstanceID | _ => "" end);
  mkFamily [Lit "observed"; Lit "cloud"; Lit "loadbalancer"; Name; Lit "address"] (λ args, match args with [AName serviceName] => KeyObservedCloudLoadBalancerAddress serviceName | _ => "" end);
  mkFamily [Lit "observed"; Lit "cloud"; Lit "loadbalancer"; Name; Lit "state"] (λ args, match args with [AName serviceName] => KeyObservedCloudLoadBalancerState serviceName | _ => "" end);
  mkFamily [Lit "observed"; Lit "cloud"; Lit "route"; Path] (λ args, match args with [AName destinationCIDR] => KeyObservedCloudRoute destinationCIDR | _ => "" end);
  mkFamily [Lit "derived"; Lit "cloud"; Lit "loadbalancer"; Name; Lit "pending_operation"] (λ args, match args with [AName serviceName] => KeyDerivedCloudLBPendingOperation serviceName | _ => "" end);
  mkFamily [Lit "derived"; Lit "cloud"; Lit "loadbalancer"; Name; Lit "pending_operation"; Number] (λ args, match args with [AName serviceName; ANumber port] => KeyDerivedCloudLBPendingOperationForPort serviceName port | _ => "" end);
  mkFamily [Lit "derived"; Lit "cloud"; Lit "loadbalancer"; Name; Lit "applied_hash"] (λ args, match args with [AName serviceName] => KeyDerivedCloudLBAppliedHash serviceName | _ => "" end);
  mkFamily [Lit "derived"; Lit "cloud"; Lit "loadbalancer"; Name; Lit "applied_hash"; Number] (λ args, match args with [AName serviceName; ANumber port] => KeyDerivedCloudLBAppliedHashForPort serviceName port | _ => "" end);
  mkFamily [Lit "derived"; Lit "cloud"; Lit "route"; Name; Lit "pending_operation"] (λ args, match args with [AName cidr] => KeyDerivedCloudRoutePendingOperation cidr | _ => "" end);
  mkFamily [Lit "auth"; Lit "role"; Name; Lit "capability"; Path] (λ args, match args with [AName roleName; AName capabilityName] => KeyAuthRoleCapability roleName capabilityName | _ => "" end);
  mkFamily [Lit "auth"; Lit "role"; Name; Lit "scope"; Path] (λ args, match args with [AName roleName; AName scopePath] => KeyAuthRoleScope roleName scopePath | _ => "" end);
  mkFamily [Lit "auth"; Lit "grant"; Name; Name; Lit "role"; Path] (λ args, match args with [AName principalKind; AName principalName; AName roleName] => KeyAuthGrant principalKind principalName roleName | _ => "" end);
  mkFamily [Lit "auth"; Lit "grant"; Name; Name; Lit ""] (λ args, match args with [AName principalKind; AName principalName] => ScanAuthGrantsForPrincipal principalKind principalName | _ => "" end);
  mkFamily [Lit "auth"; Lit "group"; Name; Lit "member"; Path] (λ args, match args with [AName groupName; AName memberName] => KeyAuthGroupMember groupName memberName | _ => "" end);
  mkFamily [Lit "auth"; Lit "policy"; Name; Lit "capability"] (λ args, match args with [AName policyName] => KeyAuthPolicyCapability policyName | _ => "" end);
  mkFamily [Lit "auth"; Lit "policy"; Name; Lit "condition"; Number; Lit "field"] (λ args, match args with [AName policyName; ANumber conditionIndex] => KeyAuthPolicyConditionField policyName conditionIndex | _ => "" end);
  mkFamily [Lit "auth"; Lit "policy"; Name; Lit "condition"; Number; Lit "operator"] (λ args, match args with [AName policyName; ANumber conditionIndex] => KeyAuthPolicyConditionOperator policyName conditionIndex | _ => "" end);
  mkFamily [Lit "auth"; Lit "policy"; Name; Lit "condition"; Number; Lit "value"] (λ args, match args with [AName policyName; ANumber conditionIndex] => KeyAuthPolicyConditionValue policyName conditionIndex | _ => "" end);
  mkFamily [Lit "auth"; Lit "user"; Path] (λ args, match args with [AName userName] => KeyAuthUser userName | _ => "" end);
  mkFamily [Lit "policy"; Lit "network"; Path] (λ args, match args with [AName ruleName] => KeyNetworkPolicyRule ruleName | _ => "" end);
  mkFamily [Lit "derived"; Lit "network"; Lit "rule"; Name; Number] (λ args, match args with [AName nodeID; ANumber ruleIndex] => KeyDerivedNetworkRule nodeID ruleIndex | _ => "" end);
  mkFamily [Lit "desired"; Lit "group"; Name] (λ args, match args with [AName groupName] => KeyDesiredGroup groupName | _ => "" end);
  mkFamily [Lit "desired"; Lit "group"; Name; Lit "process"; Path] (λ args, match args with [AName groupName; AName serviceName] => KeyDesiredGroupProcess groupName serviceName | _ => "" end);
  mkFamily [Lit "desired"; Lit "group"; Name; Lit "share"; Lit "network"] (λ args, match args with [AName groupName] => KeyDesiredGroupShareNetwork groupName | _ => "" end);
  mkFamily [Lit "desired"; Lit "group"; Name; Lit "share"; Lit "volume"; Path] (λ args, match args with [AName groupName; AName volumeName] => KeyDesiredGroupShareVolume groupName volumeName | _ => "" end);
  mkFamily [Lit "derived"; Lit "capacity"; Lit "request"; Name; Lit "state"] (λ args, match args with [AName requestID] => KeyDerivedCapacityRequestState requestID | _ => "" end);
  mkFamily [Lit "derived"; Lit "capacity"; Lit "request"; Name; Lit "requirements"] (λ args, match args with [AName requestID] => KeyDerivedCapacityRequestRequirements requestID | _ => "" end);
  mkFamily [Lit "derived"; Lit "capacity"; Lit "request"; Name; Lit "reason"] (λ args, match args with [AName requestID] => KeyDerivedCapacityRequestReason requestID | _ => "" end);
  mkFamily [Lit "derived"; Lit "capacity"; Lit "request"; Name; Lit "node_id"] (λ args, match args with [AName requestID] => KeyDerivedCapacityRequestNodeID requestID | _ => "" end);
  mkFamily [Lit "derived"; Lit "scheduler"; Lit "unplaced"; Name; Lit "reason"] (λ args, match args with [AName instanceID] => KeyDerivedSchedulerUnplacedReason instanceID | _ => "" end);
  mkFamily [Lit "derived"; Lit "scheduler"; Lit "unplaced"; Name; Lit "requirements"] (λ args, match args with [AName instanceID] => KeyDerivedSchedulerUnplacedRequirements instanceID | _ => "" end);
  mkFamily [Lit "desired"; Lit "route"; Name] (λ args, match args with [AName routeName] => KeyDesiredRoute routeName | _ => "" end);
  mkFamily [Lit "desired"; Lit "route"; Name; Lit "host"] (λ args, match args with [AName routeName] => KeyDesiredRouteHost routeName | _ => "" end);
  mkFamily [Lit "desired"; Lit "route"; Name; Lit "path"] (λ args, match args with [AName routeName] => KeyDesiredRoutePath routeName | _ => "" end);
  mkFamily [Lit "desired"; Lit "route"; Name; Lit "service"] (λ args, match args with [AName routeName] => KeyDesiredRouteService routeName | _ => "" end);
  mkFamily [Lit "desired"; Lit "route"; Name; Lit "port"] (λ args, match args with [AName routeName] => KeyDesiredRoutePort routeName | _ => "" end);
  mkFamily [Lit "desired"; Lit "route"; Name; Lit "sticky"] (λ args, match args with [AName routeName] => KeyDesiredRouteSticky routeName | _ => "" end);
  mkFamily [Lit "desired"; Lit "route"; Name; Lit "cookie"; Lit "name"] (λ args, match args with [AName routeName] => KeyDesiredRouteCookieName routeName | _ => "" end);
  mkFamily [Lit "desired"; Lit "route"; Name; Lit "cookie"; Lit "secure"] (λ args, match args with [AName routeName] => KeyDesiredRouteCookieSecure routeName | _ => "" end);
  mkFamily [Lit "desired"; Lit "route"; Name; Lit "cookie"; Lit "httponly"] (λ args, match args with [AName routeName] => KeyDesiredRouteCookieHTTPOnly routeName | _ => "" end);
  mkFamily [Lit "desired"; Lit "route"; Name; Lit "cookie"; Lit "samesite"] (λ args, match args with [AName routeName] => KeyDesiredRouteCookieSameSite routeName | _ => "" end);
  mkFamily [Lit "desired"; Lit "route"; Name; Lit "tls"; Lit "mode"] (λ args, match args with [AName routeName] => KeyDesiredRouteTLSMode routeName | _ => "" end);
  mkFamily [Lit "desired"; Lit "route"; Name; Lit "tls"; Lit "cert"] (λ args, match args with [AName routeName] => KeyDesiredRouteTLSCert routeName | _ => "" end);
  mkFamily [Lit "desired"; Lit "route"; Name; Lit "tls"; Lit "key"] (λ args, match args with [AName routeName] => KeyDesiredRouteTLSKey routeName | _ => "" end);
  mkFamily [Lit "derived"; Lit "route"; Name; Lit "backends"] (λ args, match args with [AName routeName] => KeyDerivedRouteBackends routeName | _ => "" end);
  mkFamily [Lit "derived"; Lit "route"; Name; Lit "tls"; Lit "cert"] (λ args, match args with [AName routeName] => KeyDerivedRouteTLSCert routeName | _ => "" end);
  mkFamily [Lit "derived"; Lit "route"; Name; Lit "tls"; Lit "key"] (λ args, match args with [AName routeName] => KeyDerivedRouteTLSKey routeName | _ => "" end);
  mkFamily [Lit "derived"; Lit "route"; Name; Lit "tls"; Lit "not-after"] (λ args, match args with [AName routeName] => KeyDerivedRouteTLSNotAfter routeName | _ => "" end);
  mkFamily [Lit "desired"; Lit "job"; Name] (λ args, match args with [AName jobName] => KeyDesiredJob jobName | _ => "" end);
  mkFamily [Lit "desired"; Lit "job"; Name; Lit "image"] (λ args, match args with [AName jobName] => KeyDesiredJobImage jobName | _ => "" end);
  mkFamily [Lit "desired"; Lit "job"; Name; Lit "command"] (λ args, match args with [AName jobName] => KeyDesiredJobCommand jobName | _ => "" end);
  mkFamily [Lit "desired"; Lit "job"; Name; Lit "image_pull_secret"] (λ args, match args with [AName jobName] => KeyDesiredJobImagePullSecret jobName | _ => "" end);
  mkFamily [Lit "desired"; Lit "job"; Name; Lit "completions"] (λ args, match args with [AName jobName] => KeyDesiredJobCompletions jobName | _ => "" end);
  mkFamily [Lit "desired"; Lit "job"; Name; Lit "parallelism"] (λ args, match args with [AName jobName] => KeyDesiredJobParallelism jobName | _ => "" end);
  mkFamily [Lit "desired"; Lit "job"; Name; Lit "backoff_limit"] (λ args, match args with [AName jobName] => KeyDesiredJobBackoffLimit jobName | _ => "" end);
  mkFamily [Lit "derived"; Lit "job"; Name; Lit "status"] (λ args, match args with [AName jobName] => KeyDerivedJobStatus jobName | _ => "" end);
  mkFamily [Lit "derived"; Lit "job"; Name; Lit "succeeded"] (λ args, match args with [AName jobName] => KeyDerivedJobSucceeded jobName | _ => "" end);
  mkFamily [Lit "derived"; Lit "job"; Name; Lit "failed"] (λ args, match args with [AName jobName] => KeyDerivedJobFailed jobName | _ => "" end);
  mkFamily [Lit "derived"; Lit "instance"; Name; Lit "job_owner"] (λ args, match args with [AName instanceID] => KeyDerivedJobInstanceOwner instanceID | _ => "" end);
  mkFamily [Lit "desired"; Lit "cronjob"; Name] (λ args, match args with [AName name] => KeyDesiredCronJob name | _ => "" end);
  mkFamily [Lit "desired"; Lit "cronjob"; Name; Lit "schedule"] (λ args, match args with [AName name] => KeyDesiredCronJobSchedule name | _ => "" end);
  mkFamily [Lit "desired"; Lit "cronjob"; Name; Lit "image"] (λ args, match args with [AName name] => KeyDesiredCronJobImage name | _ => "" end);
  mkFamily [Lit "desired"; Lit "cronjob"; Name; Lit "command"] (λ args, match args with [AName name] => KeyDesiredCronJobCommand name | _ => "" end);
  mkFamily [Lit "desired"; Lit "cronjob"; Name; Lit "completions"] (λ args, match args with [AName name] => KeyDesiredCronJobCompletions name | _ => "" end);
  mkFamily [Lit "desired"; Lit "cronjob"; Name; Lit "parallelism"] (λ args, match args with [AName name] => KeyDesiredCronJobParallelism name | _ => "" end);
  mkFamily [Lit "desired"; Lit "cronjob"; Name; Lit "backoff_limit"] (λ args, match args with [AName name] => KeyDesiredCronJobBackoffLimit name | _ => "" end);
  mkFamily [Lit "derived"; Lit "cronjob"; Name; Lit "last_scheduled"] (λ args, match args with [AName name] => KeyDerivedCronJobLastScheduled name | _ => "" end);
  mkFamily [Lit "derived"; Lit "cronjob"; Name; Lit "last_status"] (λ args, match args with [AName name] => KeyDerivedCronJobLastStatus name | _ => "" end);
  mkFamily [Lit "observed"; Lit "instance"; Name; Lit "secret-wait"] (λ args, match args with [AName instanceID] => KeyObservedInstanceSecretWait instanceID | _ => "" end);
  mkFamily [Lit "observed"; Lit "node"; Name; Lit "secret_delivery"] (λ args, match args with [AName nodeID] => KeyObservedNodeSecretDelivery nodeID | _ => "" end);
  mkFamily [Lit "observed"; Lit "node"; Name; Lit "legacy_key_file"] (λ args, match args with [AName nodeID] => KeyObservedNodeLegacyKeyFile nodeID | _ => "" end);
  mkFamily [Lit "desired"; Lit "service"; Name; Lit "legacy_secret_api"] (λ args, match args with [AName name] => KeyDesiredServiceLegacySecretAPI name | _ => "" end)].

(** Every builder follows its pattern. *)
Lemma families_render :
  Forall (λ f, ∀ args, shaped (familyPattern f) args = true → familyKey f args = Join slash (render (familyPattern f) args)) keyFamilies.
Proof.
  unfold keyFamilies. repeat (apply Forall_cons; split; [|]); [..|apply Forall_nil; exact I].
  all: intros args H; cbn [familyPattern familyKey] in *; repeat (destruct args as [|[?|?] args]; cbn [shaped] in H; try discriminate H); reflexivity.
Qed.

Lemma families_apart : allApart (familyPattern <$> keyFamilies) = true.
Proof. vm_compute. reflexivity. Qed.

Lemma families_literals : forallb literalsOk (familyPattern <$> keyFamilies) = true.
Proof. vm_compute. reflexivity. Qed.

Lemma family_facts i f :
  keyFamilies !! i = Some f →
  (familyPattern <$> keyFamilies) !! i = Some (familyPattern f) ∧ literalsOk (familyPattern f) = true ∧ familyPattern f ≠ [] ∧
  ∀ args, shaped (familyPattern f) args = true → familyKey f args = Join slash (render (familyPattern f) args).
Proof.
  intros Hi. pose proof families_literals as Hl. rewrite forallb_forall in Hl. pose proof families_render as Hr. rewrite Forall_lookup in Hr.
  assert (Hp : (familyPattern <$> keyFamilies) !! i = Some (familyPattern f)) by (rewrite list_lookup_fmap; by rewrite Hi).
  split_and!; [done|apply Hl, list_elem_of_In; by eapply list_elem_of_lookup_2| |by eapply Hr].
  assert (Hne : forallb (λ p, negb (bool_decide (p = []))) (familyPattern <$> keyFamilies) = true) by (vm_compute; reflexivity).
  rewrite forallb_forall in Hne. specialize (Hne (familyPattern f)). rewrite negb_true_iff, bool_decide_eq_false in Hne.
  apply Hne, list_elem_of_In. by eapply list_elem_of_lookup_2.
Qed.

Lemma family_parts i f args :
  keyFamilies !! i = Some f → fits (familyPattern f) args → Split slash (familyKey f args) = partsOfKey (familyPattern f) args.
Proof. intros Hi Hfit. destruct (family_facts i f Hi) as (_ & H1 & H2 & H3). rewrite H3 by apply Hfit. by apply Split_render. Qed.

(** C30: No two facts share a key: if two of the key builders, applied to names that
    are not empty and have no slash (and to numbers, and at the end to any
    non-empty path), give the same key, they are the same builder applied to the
    same arguments. *)
Theorem keys_never_collide i j f g args args' :
  keyFamilies !! i = Some f → keyFamilies !! j = Some g →
  fits (familyPattern f) args → fits (familyPattern g) args' →
  familyKey f args = familyKey g args' → i = j ∧ args = args'.
Proof.
  intros Hi Hj Hf Hg E. pose proof (family_parts i f args Hi Hf) as Ef. pose proof (family_parts j g args' Hj Hg) as Eg. rewrite E, Eg in Ef.
  assert (Hov : overlaps (familyPattern f) (familyPattern g) = true ∧ overlaps (familyPattern g) (familyPattern f) = true)
    by (split; eapply parts_overlap; done).
  destruct (family_facts i f Hi) as (Pi & _), (family_facts j g Hj) as (Pj & _). pose proof families_apart as Hap.
  destruct (Nat.lt_total i j) as [Hlt|[->|Hlt]].
  - pose proof (allApart_lookup _ i j _ _ Hap Pi Pj Hlt). destruct Hov. congruence.
  - rewrite Hi in Hj. injection Hj as <-. split; [done|]. symmetry. by eapply parts_inj.
  - pose proof (allApart_lookup _ j i _ _ Hap Pj Pi Hlt). destruct Hov. congruence.
Qed.

(** The names the validators accept are fit to be parts of a key. *)
Lemma valid_label_nameOk n s : valid_label n s → nameOk s = true.
Proof.
  intros H. unfold nameOk. rewrite bool_decide_false by apply (label_nonempty _ _ H). simpl. apply negb_true_iff.
  pose proof (label_bytes _ _ H) as Hb. clear H. induction s as [|c s IH]; [done|]. simpl in *. apply andb_true_iff in Hb as [Hc Hb].
  destruct (ascii_dec c slash) as [->|]; [vm_compute in Hc; discriminate|by apply IH].
Qed.

(** A key of an entity, scanned under the two literals its builder begins with,
    is split into the entity's name and a suffix that is the same for every
    entity: reading facts back finds what was written, under the right name. *)
Theorem keys_read_back i f first second rest entity args :
  keyFamilies !! i = Some f → familyPattern f = Lit first :: Lit second :: Name :: rest → rest ≠ [] →
  fits (familyPattern f) (AName entity :: args) →
  splitFactKeyIntoEntityAndSuffix (familyKey f (AName entity :: args)) (first +:+ "/" +:+ second +:+ "/") =
    Some (entity, Join slash (render rest args)).
Proof.
  intros Hi Hp Hrest Hfit. destruct (family_facts i f Hi) as (_ & _ & _ & Hkey). rewrite Hkey by apply Hfit. rewrite Hp in *.
  destruct Hfit as [Hsh Had]. simpl in Hsh, Had. apply andb_true_iff in Had as [Hn Had]. unfold nameOk in Hn. apply andb_true_iff in Hn as [_ Hn%negb_true_iff].
  assert (Hr : render rest args ≠ []) by (intros Hr; by apply render_nil in Hr).
  assert (E : Join slash (render (Lit first :: Lit second :: Name :: rest) (AName entity :: args)) =
    (first +:+ "/" +:+ second +:+ "/") +:+ entity +:+ "/" +:+ Join slash (render rest args)).
  { simpl. destruct (render rest args) as [|x l]; [done|]. rewrite !str_app_assoc. done. }
  rewrite E. apply split_spec; [apply HasPrefix_app|]. done.
Qed.

Lemma keys_never_collide_witness :
  let args := [AName "node-1"; AName "web-0"] in
  ∃ f, keyFamilies !! 49 = Some f ∧ familyKey f args = "placement/node/node-1/web-0" ∧ 49 = 49 ∧ args = args.
Proof.
  intros args. destruct (keyFamilies !! 49) as [f|] eqn:Hi; [|vm_compute in Hi; discriminate].
  assert (Hp : familyPattern f = [Lit "placement"; Lit "node"; Name; Path] ∧ familyKey f args = "placement/node/node-1/web-0").
  { vm_compute in Hi. injection Hi as <-. split; reflexivity. }
  destruct Hp as [Hp Hk]. exists f. split; [reflexivity|]. split; [exact Hk|].
  refine (keys_never_collide 49 49 f f args args Hi Hi _ _ eq_refl); rewrite Hp; split; reflexivity.
Defined.

Lemma keys_read_back_witness :
  splitFactKeyIntoEntityAndSuffix (KeyObservedNodeState "node-1") ScanObservedNodes = Some ("node-1", "state").
Proof.
  destruct (list_find (λ f, familyPattern f = [Lit "observed"; Lit "node"; Name; Lit "state"]) keyFamilies) as [[i f]|] eqn:Hf; [|vm_compute in Hf; discriminate].
  apply list_find_Some in Hf as (Hi & Hp & _).
  assert (Hk : familyKey f [AName "node-1"] = KeyObservedNodeState "node-1").
  { destruct (family_facts i f Hi) as (_ & _ & _ & Hk). rewrite Hk by (rewrite Hp; reflexivity). rewrite Hp. reflexivity. }
  rewrite <-Hk. exact (keys_read_back i f "observed" "node" [Lit "state"] "node-1" [] Hi Hp ltac:(discriminate) ltac:(rewrite Hp; split; reflexivity)).
Defined.
