(* ===== verification/Lexer.v ===== *)
(** * Lexical analysis (src/lang/token.go, lexer.go, errors.go)

    Source text is the list of its code points. The lexer's input and position
    are the list of runes not yet read. What counts as a letter, a digit or a
    printable rune is left to Unicode's tables: a class with the parts of them the
    text relies on (the ASCII range, and that no rune is both a letter and a
    digit). An error keeps the format of its message and the values formatted. *)

From S2P Require Import Prelude.

Local Open Scope Z_scope.

Abbreviation rune := Z (only parsing).

Definition between (lo hi c : rune) : bool := (lo <=? c) && (c <=? hi).

Class Unicode := {
  IsLetter : rune → bool;
  IsDigit : rune → bool;
  IsPrint : rune → bool;
  letter_ascii c : 0 ≤ c < 128 → IsLetter c = between 97 122 c || between 65 90 c;
  digit_ascii c : 0 ≤ c < 128 → IsDigit c = between 48 57 c;
  letter_not_digit c : IsLetter c = true → IsDigit c = false;
  print_ascii c : 0 ≤ c < 128 → IsPrint c = between 32 126 c
}.

(** The runes of a text of one-byte characters. *)
Definition runes (s : string) : list rune := (λ c, Z.of_nat (nat_of_ascii c)) <$> String.list_ascii_of_string s.

Definition newline : rune := 10.
Definition tab : rune := 9.
Definition carriageReturn : rune := 13.
Definition space : rune := 32.
Definition bang : rune := 33.
Definition quote : rune := 34.
Definition hash : rune := 35.
Definition percent : rune := 37.
Definition minus : rune := 45.
Definition dot : rune := 46.
Definition slash : rune := 47.
Definition colon : rune := 58.
Definition equals : rune := 61.
Definition greater : rune := 62.
Definition underscore : rune := 95.
Definition leftBrace : rune := 123.
Definition rightBrace : rune := 125.

(** ** Tokens and errors *)

Inductive TokenType :=
| TokenEOF | TokenIdent | TokenNumber | TokenString | TokenLBrace | TokenRBrace | TokenSlash
| TokenEquals | TokenDoubleEquals | TokenNotEquals | TokenArrow | TokenNewline.

#[export] Instance TokenType_eq_dec : EqDecision TokenType.
Proof. solve_decision. Defined.

Record Token := mkToken { TokenTyp : TokenType; TokenValue : list rune; TokenLine : Z; TokenCol : Z }.

(** A message: a format and what is formatted with it: the name of a type, a text,
    a rune, an integer, the error of [strconv.Atoi] on a text. *)
Inductive FormatArg :=
| ArgType (ty : TokenType) | ArgText (text : list rune) | ArgRune (c : rune) | ArgInt (n : Z) | ArgAtoiError (text : list rune)
| ArgError (message : string).

Record ErrorMessage := Sprintf { format : string; args : list FormatArg }.

Record ParseError := mkParseError {
  ErrorFile : list rune;
  ErrorLine : Z;
  ErrorCol : Z;
  Message : ErrorMessage;
  SourceLine : list rune
}.

Definition UnexpectedBang : ErrorMessage := Sprintf "unexpected character '!' (did you mean '!='?)" [].
Definition UnexpectedCharacter (c : rune) : ErrorMessage := Sprintf "unexpected character %q" [ArgRune c].
Definition UnterminatedString : ErrorMessage := Sprintf "unterminated string" [].
Definition UnterminatedTripleQuotedString : ErrorMessage := Sprintf "unterminated triple-quoted string" [].

(** [strings.Split] at newlines. *)
Fixpoint splitSourceLines (sourceText : list rune) : list (list rune) :=
  match sourceText with
  | [] => [[]]
  | c :: rest =>
      if c =? newline then [] :: splitSourceLines rest
      else match splitSourceLines rest with l :: ls => (c :: l) :: ls | [] => [[c]] end
  end.

Definition sourceLineAt (sourceLines : list (list rune)) (lineNumber : Z) : list rune :=
  if (lineNumber <? 1) || (Z.of_nat (length sourceLines) <? lineNumber) then []
  else default [] (sourceLines !! Z.to_nat (lineNumber - 1)).

(** ** The lexer *)

Record Lexer := mkLexer { unread : list rune; line : Z; column : Z; sourceLines : list (list rune) }.

Definition NewLexer (input : list rune) : Lexer := mkLexer input 1 1 (splitSourceLines input).

Definition advanceCursor (lx : Lexer) : Lexer :=
  match unread lx with
  | c :: rest =>
      if c =? newline then mkLexer rest (line lx + 1) 1 (sourceLines lx)
      else mkLexer rest (line lx) (column lx + 1) (sourceLines lx)
  | [] => mkLexer [] (line lx) (column lx + 1) (sourceLines lx)
  end.

Fixpoint advanceBy (n : nat) (lx : Lexer) : Lexer :=
  match n with 0%nat => lx | S n' => advanceBy n' (advanceCursor lx) end.

Fixpoint takeWhile (p : rune → bool) (text : list rune) : list rune :=
  match text with c :: rest => if p c then c :: takeWhile p rest else [] | [] => [] end.

(** The loops that read (and collect) runes while a condition holds. *)
Definition scanWhile (p : rune → bool) (lx : Lexer) : list rune * Lexer :=
  let text := takeWhile p (unread lx) in (text, advanceBy (length text) lx).

Definition isBlank (c : rune) : bool := (c =? space) || (c =? tab) || (c =? carriageReturn).

Definition skipWhitespaceExceptNewlines (lx : Lexer) : Lexer := snd (scanWhile isBlank lx).

Definition skipLineComment (lx : Lexer) : Lexer :=
  match unread lx with
  | c :: _ => if c =? hash then snd (scanWhile (λ c, negb (c =? newline)) lx) else lx
  | [] => lx
  end.

Definition errorAt (lx : Lexer) (startLine startCol : Z) (message : ErrorMessage) : ParseError :=
  mkParseError [] startLine startCol message (sourceLineAt (sourceLines lx) startLine).

Definition scanQuotedString (lx : Lexer) : (ParseError + Token) * Lexer :=
  let '(text, lx1) := scanWhile (λ c, negb (c =? quote) && negb (c =? newline)) (advanceCursor lx) in
  match unread lx1 with
  | c :: _ =>
      if c =? newline then (inl (errorAt lx (line lx) (column lx) UnterminatedString), lx1)
      else (inr (mkToken TokenString text (line lx) (column lx)), advanceCursor lx1)
  | [] => (inl (errorAt lx (line lx) (column lx) UnterminatedString), lx1)
  end.

Definition startsTriple (text : list rune) : bool :=
  match text with a :: b :: c :: _ => (a =? quote) && (b =? quote) && (c =? quote) | _ => false end.

(** The text before the closing quotes. *)
Fixpoint findClosing (text : list rune) : option (list rune) :=
  if startsTriple text then Some []
  else match text with c :: rest => cons c <$> findClosing rest | [] => None end.

Definition stripTrailingNewline (content : list rune) : list rune :=
  match last content with
  | Some c => if c =? newline then take (length content - 1) content else content
  | None => content
  end.

Definition scanTripleQuotedString (lx : Lexer) : (ParseError + Token) * Lexer :=
  let lx1 := advanceBy 3 lx in
  let lx2 := match unread lx1 with c :: _ => if c =? newline then advanceCursor lx1 else lx1 | [] => lx1 end in
  match findClosing (unread lx2) with
  | Some content =>
      (inr (mkToken TokenString (stripTrailingNewline content) (line lx) (column lx)), advanceBy (length content + 3) lx2)
  | None =>
      (inl (errorAt lx (line lx) (column lx) UnterminatedTripleQuotedString), advanceBy (length (unread lx2)) lx2)
  end.

Section scan.
Context `{Unicode}.

Definition isIdentifierStartChar (c : rune) : bool := IsLetter c || (c =? underscore).

Definition isIdentifierContinuationChar (c : rune) : bool :=
  IsLetter c || IsDigit c || (c =? underscore) || (c =? minus) || (c =? dot) || (c =? colon).

Definition isNumericChar (c : rune) : bool := IsDigit c || (c =? dot) || (c =? percent).

Definition scanNumericLiteral (lx : Lexer) : Token * Lexer :=
  let '(digits, lx1) := scanWhile isNumericChar lx in
  let '(suffix, lx2) := scanWhile IsLetter lx1 in
  (mkToken TokenNumber (digits ++ suffix) (line lx2) (column lx), lx2).

Definition scanIdentifier (lx : Lexer) : Token * Lexer :=
  let '(text, lx1) := scanWhile isIdentifierContinuationChar lx in
  (mkToken TokenIdent text (line lx1) (column lx), lx1).

(** A token of fixed spelling. *)
Definition fixedToken (ty : TokenType) (text : list rune) (lx : Lexer) : (ParseError + Token) * Lexer :=
  (inr (mkToken ty text (line lx) (column lx)), advanceBy (length text) lx).

Definition scanNextToken (lx0 : Lexer) : (ParseError + Token) * Lexer :=
  let lx := skipWhitespaceExceptNewlines (skipLineComment (skipWhitespaceExceptNewlines lx0)) in
  match unread lx with
  | [] => (inr (mkToken TokenEOF [] (line lx) (column lx)), lx)
  | c :: rest =>
      let nextIs d := match rest with d' :: _ => d' =? d | [] => false end in
      if c =? newline then fixedToken TokenNewline [newline] lx
      else if c =? leftBrace then fixedToken TokenLBrace [leftBrace] lx
      else if c =? rightBrace then fixedToken TokenRBrace [rightBrace] lx
      else if c =? slash then fixedToken TokenSlash [slash] lx
      else if c =? equals then
        if nextIs equals then fixedToken TokenDoubleEquals [equals; equals] lx
        else fixedToken TokenEquals [equals] lx
      else if c =? bang then
        if nextIs equals then fixedToken TokenNotEquals [bang; equals] lx
        else (inl (errorAt lx (line lx) (column lx) UnexpectedBang), lx)
      else if (c =? minus) && nextIs greater then fixedToken TokenArrow [minus; greater] lx
      else if c =? quote then
        if startsTriple (c :: rest) then scanTripleQuotedString lx else scanQuotedString lx
      else if IsDigit c then let '(token, lx') := scanNumericLiteral lx in (inr token, lx')
      else if isIdentifierStartChar c then let '(token, lx') := scanIdentifier lx in (inr token, lx')
      else (inl (errorAt lx (line lx) (column lx) (UnexpectedCharacter c)), lx)
  end.

(** [None] is a loop that has not ended within the rounds given. *)
Fixpoint tokenizeLoop (rounds : nat) (lx : Lexer) : option (ParseError + list Token) :=
  match rounds with
  | 0%nat => None
  | S rounds' =>
      match scanNextToken lx with
      | (inl err, _) => Some (inl err)
      | (inr token, lx') =>
          if decide (TokenTyp token = TokenEOF) then Some (inr [token])
          else r ← tokenizeLoop rounds' lx'; Some (match r with inl err => inl err | inr tokens => inr (token :: tokens) end)
      end
  end.

(** Every round but the last reads a rune. *)
Definition Tokenize (input : list rune) : option (ParseError + list Token) :=
  tokenizeLoop (S (length input)) (NewLexer input).

End scan.
