(* ===== verification/LexerProps.v ===== *)
(** * What the lexer reads

    That it always ends; that its tokens cover the source text, each at the line
    and column it states; and that a sequence of tokens written down is read back. *)

From S2P Require Import Prelude Lexer.

Local Open Scope Z_scope.

(** ** Positions *)

Definition lineOf (pre : list rune) : Z := 1 + Z.of_nat (length (filter (λ c, c = newline) pre)).

Definition columnOf (pre : list rune) : Z := 1 + Z.of_nat (length (takeWhile (λ c, negb (c =? newline)) (reverse pre))).

Lemma lineOf_snoc pre c : lineOf (pre ++ [c]) = lineOf pre + if c =? newline then 1 else 0.
Proof.
  unfold lineOf. rewrite filter_app, length_app. destruct (Z.eqb_spec c newline) as [->|Hc]; [rewrite filter_cons_True by done|rewrite filter_cons_False by done];
    simpl; lia.
Qed.

Lemma columnOf_snoc pre c : columnOf (pre ++ [c]) = if c =? newline then 1 else columnOf pre + 1.
Proof. unfold columnOf. rewrite reverse_snoc. simpl. destruct (Z.eqb_spec c newline); simpl; lia. Qed.

(** The lexer has read [pre] of the input. *)
Record has_read (input pre : list rune) (lx : Lexer) : Prop := {
  read_input : input = pre ++ unread lx;
  read_line : line lx = lineOf pre;
  read_column : column lx = columnOf pre;
  read_lines : sourceLines lx = splitSourceLines input
}.

Lemma NewLexer_reads input : has_read input [] (NewLexer input).
Proof. done. Qed.

Lemma advanceCursor_reads input pre lx c rest :
  has_read input pre lx → unread lx = c :: rest → has_read input (pre ++ [c]) (advanceCursor lx) ∧ unread (advanceCursor lx) = rest.
Proof.
  intros [H1 H2 H3 H4] E. unfold advanceCursor. rewrite E in *. pose proof (lineOf_snoc pre c). pose proof (columnOf_snoc pre c).
  destruct (c =? newline); (split; [|done]); (split; simpl; [by rewrite <-app_assoc| lia | lia | done]).
Qed.

Lemma advanceBy_reads input pre lx text rest :
  has_read input pre lx → unread lx = text ++ rest →
  has_read input (pre ++ text) (advanceBy (length text) lx) ∧ unread (advanceBy (length text) lx) = rest.
Proof.
  revert pre lx. induction text as [|c text IH]; intros pre lx Hr E; simpl in *; [by rewrite app_nil_r|].
  destruct (advanceCursor_reads _ _ _ _ _ Hr E) as [Hr' E']. specialize (IH _ _ Hr' E'). by rewrite <-app_assoc in IH.
Qed.

Lemma takeWhile_split p text : ∃ rest, text = takeWhile p text ++ rest ∧ Forall (λ c, p c = true) (takeWhile p text) ∧
  match rest with [] => True | c :: _ => p c = false end.
Proof.
  induction text as [|c text (rest & E & H1 & H2)]; simpl; [by exists []|]. destruct (p c) eqn:Ec; [|by exists (c :: text)].
  exists rest. split_and!; [simpl; by f_equal|by constructor|done].
Qed.

Lemma takeWhile_app p text c rest : Forall (λ c, p c = true) text → p c = false → takeWhile p (text ++ c :: rest) = text.
Proof. intros H Hc. induction H as [|d text Hd _ IH]; simpl; [by rewrite Hc|]. by rewrite Hd, IH. Qed.

Lemma scanWhile_reads p input pre lx :
  has_read input pre lx →
  ∃ text rest lx', scanWhile p lx = (text, lx') ∧ unread lx = text ++ rest ∧ has_read input (pre ++ text) lx' ∧ unread lx' = rest ∧
    Forall (λ c, p c = true) text ∧ match rest with [] => True | c :: _ => p c = false end.
Proof.
  intros Hr. unfold scanWhile. destruct (takeWhile_split p (unread lx)) as (rest & E & H1 & H2). set (text := takeWhile p (unread lx)) in *.
  destruct (advanceBy_reads _ _ _ _ _ Hr E). by exists text, rest, (advanceBy (length text) lx).
Qed.

(** ** Gaps and spellings *)

Definition blanks (text : list rune) : Prop := Forall (λ c, isBlank c = true) text.

(** What may stand before a token: blanks and one comment to the end of its line. *)
Definition gap (text : list rune) : Prop :=
  blanks text ∨ ∃ before comment after, text = before ++ hash :: comment ++ after ∧ blanks before ∧ blanks after ∧ newline ∉ comment.

Definition triple : list rune := [quote; quote; quote].

Definition stripLeadingNewline (content : list rune) : list rune :=
  match content with c :: rest => if c =? newline then rest else content | [] => [] end.

(** How a token is spelled. *)
Definition spells (ty : TokenType) (value text : list rune) : Prop :=
  match ty with
  | TokenString =>
      (text = quote :: (value ++ [quote]) ∧ (quote ∉ value) ∧ (newline ∉ value)) ∨
      (∃ content, text = triple ++ content ++ triple ∧ value = stripTrailingNewline (stripLeadingNewline content))
  | _ => text = value
  end.

Lemma skip_reads input pre lx :
  has_read input pre lx →
  ∃ g lx', skipWhitespaceExceptNewlines (skipLineComment (skipWhitespaceExceptNewlines lx)) = lx' ∧
    has_read input (pre ++ g) lx' ∧ unread lx = g ++ unread lx' ∧ gap g.
Proof.
  intros Hr. unfold skipWhitespaceExceptNewlines. destruct (scanWhile_reads isBlank _ _ _ Hr) as (a & r1 & lx1 & -> & E1 & Hr1 & U1 & Ha & _). simpl.
  assert (Hskip : ∀ mid lx2, has_read input (pre ++ mid) lx2 → unread lx = mid ++ unread lx2 → (∀ b, blanks b → gap (mid ++ b)) →
    ∃ g lx', snd (scanWhile isBlank lx2) = lx' ∧ has_read input (pre ++ g) lx' ∧ unread lx = g ++ unread lx' ∧ gap g).
  { intros mid lx2 Hr2 E2 Hg. destruct (scanWhile_reads isBlank _ _ _ Hr2) as (b & r2 & lx3 & -> & E3 & Hr3 & U3 & Hb & _).
    exists (mid ++ b), lx3. rewrite app_assoc. split_and!; [done|done|by rewrite E2, E3, U3, <-app_assoc|by apply Hg]. }
  rewrite <-U1 in E1. unfold skipLineComment. destruct (unread lx1) as [|c rest] eqn:U.
  - apply (Hskip a lx1 Hr1); [by rewrite U|]. intros b Hb. left. by apply Forall_app.
  - destruct (Z.eqb_spec c hash) as [->|Hc].
    + destruct (scanWhile_reads (λ c, negb (c =? newline)) _ _ _ Hr1) as (m & r2 & lx2 & Es & E2 & Hr2 & U2 & Hm & _). rewrite Es. simpl.
      rewrite U in E2. destruct m as [|d m]; [unfold scanWhile in Es; rewrite U in Es; by simplify_eq/=|]. simplify_eq/=.
      apply (Hskip (a ++ hash :: m) lx2); [by rewrite app_assoc|rewrite E1, <-app_assoc; done|].
      intros b Hb. right. exists a, m, b. rewrite <-app_assoc. split_and!; [done|done|done|].
      intros Hin. apply Forall_cons in Hm as [_ Hm]. rewrite Forall_forall in Hm. specialize (Hm _ Hin). done.
    + apply (Hskip a lx1 Hr1); [by rewrite U|]. intros b Hb. left. by apply Forall_app.
Qed.

(** ** One token *)

(** The token was read from [text] at the beginning of what [lx] has not read. *)
Record reads_token (input pre : list rune) (lx : Lexer) (token : Token) (text : list rune) (lx' : Lexer) : Prop := {
  token_text : unread lx = text ++ unread lx';
  token_spelling : spells (TokenTyp token) (TokenValue token) text;
  token_line : TokenLine token = lineOf pre;
  token_column : TokenCol token = columnOf pre;
  token_rest : has_read input (pre ++ text) lx'
}.

(** An error is reported where the lexer stands, with the text of its line. *)
Record reports (input pre : list rune) (err : ParseError) : Prop := {
  error_line : ErrorLine err = lineOf pre;
  error_column : ErrorCol err = columnOf pre;
  error_source : SourceLine err = sourceLineAt (splitSourceLines input) (lineOf pre)
}.

Lemma errorAt_reports input pre lx message : has_read input pre lx → reports input pre (errorAt lx (line lx) (column lx) message).
Proof. intros [H1 H2 H3 H4]. split; simpl; by rewrite ?H2, ?H4. Qed.

Lemma fixedToken_reads input pre lx ty text rest :
  has_read input pre lx → unread lx = text ++ rest → ty ≠ TokenString →
  ∃ token lx', fixedToken ty text lx = (inr token, lx') ∧ reads_token input pre lx token text lx' ∧ TokenTyp token = ty.
Proof.
  intros Hr E Hty. destruct (advanceBy_reads _ _ _ _ _ Hr E) as [Hr' E']. do 2 eexists. split; [done|]. split; [|done].
  destruct Hr as [H1 H2 H3]. split; simpl; [by rewrite E'|by destruct ty|done|done|done].
Qed.

Lemma scanQuotedString_reads input pre lx rest :
  has_read input pre lx → unread lx = quote :: rest →
  match scanQuotedString lx with
  | (inr token, lx') => ∃ text, reads_token input pre lx token text lx' ∧ text ≠ [] ∧ TokenTyp token = TokenString
  | (inl err, _) => reports input pre err
  end.
Proof.
  intros Hr E. unfold scanQuotedString. destruct (advanceCursor_reads _ _ _ _ _ Hr E) as [Hr1 E1].
  destruct (scanWhile_reads (λ c, negb (c =? quote) && negb (c =? newline)) _ _ _ Hr1) as (text & r2 & lx2 & -> & E2 & Hr2 & U2 & Ht & Hstop).
  rewrite U2. destruct r2 as [|c r2]; [by apply errorAt_reports|]. destruct (Z.eqb_spec c newline); [by apply errorAt_reports|].
  assert (c = quote) as -> by (destruct (Z.eqb_spec c quote), (Z.eqb_spec c newline); done).
  destruct (advanceCursor_reads _ _ _ _ _ Hr2 U2) as [Hr3 E3]. exists (quote :: text ++ [quote]). split_and!; [|done|done].
  assert (Hnot : ∀ d, d ∈ text → d ≠ quote ∧ d ≠ newline).
  { intros d Hd. rewrite Forall_forall in Ht. specialize (Ht d Hd). destruct (Z.eqb_spec d quote), (Z.eqb_spec d newline); done. }
  destruct Hr as [H1 H2 H3]. split; simpl; [|left; split_and!; [done|intros Hq; by destruct (Hnot quote Hq)|intros Hq; by destruct (Hnot newline Hq)]|done|done|].
  - rewrite E3, E, <-E1, E2. by rewrite <-app_assoc.
  - by rewrite <-!app_assoc in Hr3.
Qed.

Lemma findClosing_cons c text :
  findClosing (c :: text) = if startsTriple (c :: text) then Some [] else cons c <$> findClosing text.
Proof. done. Qed.

Lemma startsTriple_spec text : startsTriple text = true ↔ ∃ rest, text = triple ++ rest.
Proof.
  split; [|intros [rest ->]; done]. destruct text as [|a [|b [|c rest]]]; try done. simpl. rewrite !andb_true_iff, !Z.eqb_eq. intros [[-> ->] ->]. by exists rest.
Qed.

Lemma findClosing_spec text content : findClosing text = Some content → ∃ rest, text = content ++ triple ++ rest.
Proof.
  revert content. induction text as [|c text IH]; intros content E; [done|]. rewrite findClosing_cons in E.
  destruct (startsTriple (c :: text)) eqn:Es.
  - simplify_eq. by apply startsTriple_spec.
  - apply fmap_Some in E as (content' & E' & ->). destruct (IH _ E') as [rest ->]. by exists rest.
Qed.

Lemma scanTripleQuotedString_reads input pre lx rest :
  has_read input pre lx → unread lx = triple ++ rest →
  match scanTripleQuotedString lx with
  | (inr token, lx') => ∃ text, reads_token input pre lx token text lx' ∧ text ≠ [] ∧ TokenTyp token = TokenString
  | (inl err, _) => reports input pre err
  end.
Proof.
  intros Hr E. unfold scanTripleQuotedString. destruct (advanceBy_reads _ _ _ _ _ Hr E) as [Hr1 E1].
  change (length triple) with 3%nat in *. set (lx1 := advanceBy 3 lx) in *.
  assert (Hlead : ∃ lead lx2, (match unread lx1 with c :: _ => if c =? newline then advanceCursor lx1 else lx1 | [] => lx1 end) = lx2 ∧
    rest = lead ++ unread lx2 ∧ has_read input ((pre ++ triple) ++ lead) lx2 ∧
    ∀ content, (unread lx2 = content ++ triple ++ drop (length content + 3) (unread lx2)) → stripLeadingNewline (lead ++ content) = content).
  { rewrite E1. destruct rest as [|c rest]; [exists [], lx1; rewrite app_nil_r, E1; split_and!; [done|done|done|]; intros [|] ?; done|].
    destruct (Z.eqb_spec c newline) as [->|Hc].
    - destruct (advanceCursor_reads _ _ _ _ _ Hr1 E1) as [Hr2 E2]. exists [newline], (advanceCursor lx1). rewrite E2. done.
    - exists [], lx1. rewrite app_nil_r, E1. split_and!; [done|done|done|]. intros [|d content] Hd; [done|]. simplify_eq/=. by destruct (Z.eqb_spec d newline). }
  destruct Hlead as (lead & lx2 & -> & E2 & Hr2 & Hstrip). destruct (findClosing (unread lx2)) as [content|] eqn:Ef; [|by apply errorAt_reports].
  destruct (findClosing_spec _ _ Ef) as [rest2 Eu]. assert (Eu' : unread lx2 = (content ++ triple) ++ rest2) by (by rewrite <-app_assoc).
  destruct (advanceBy_reads _ _ _ _ _ Hr2 Eu') as [Hr3 E3]. rewrite length_app in Hr3, E3. change (length triple) with 3%nat in *.
  exists (triple ++ (lead ++ content) ++ triple). destruct Hr as [H1 H2 H3]. split_and!; [|done|done]. split; simpl; [|right|done|done|].
  - rewrite E3, E, E2, Eu. unfold triple. by rewrite <-!app_assoc.
  - exists (lead ++ content). split; [done|]. rewrite Hstrip; [done|]. rewrite Eu at 1. f_equal. f_equal. rewrite Eu'.
    symmetry. replace (length content + 3)%nat with (length (content ++ triple)) by (by rewrite length_app). apply drop_app_length.
  - by rewrite <-!app_assoc in *.
Qed.

Lemma lineOf_same pre text : newline ∉ text → lineOf (pre ++ text) = lineOf pre.
Proof.
  intros Hn. unfold lineOf. rewrite filter_app, length_app.
  assert (filter (λ c, c = newline) text = []) as ->; [|simpl; lia].
  destruct (filter (λ c, c = newline) text) as [|c l] eqn:E; [done|].
  assert (Hc : c ∈ filter (λ c, c = newline) text) by (rewrite E; apply list_elem_of_here). apply list_elem_of_filter in Hc as [-> Hc]. done.
Qed.

Section tokens.
Context `{Unicode}.

Lemma ascii_classes c : 0 ≤ c < 128 → between 97 122 c = false → between 65 90 c = false → between 48 57 c = false →
  IsLetter c = false ∧ IsDigit c = false.
Proof. intros Hc H1 H2 H3. rewrite letter_ascii, digit_ascii, H1, H2, H3 by done. done. Qed.

Lemma newline_classes : IsLetter newline = false ∧ IsDigit newline = false.
Proof. by apply ascii_classes. Qed.

Lemma no_newline (p : rune → bool) text : p newline = false → Forall (λ c, p c = true) text → newline ∉ text.
Proof. intros Hp Hall Hin. rewrite Forall_forall in Hall. specialize (Hall _ Hin). congruence. Qed.

Lemma continuation_newline : isIdentifierContinuationChar newline = false.
Proof. unfold isIdentifierContinuationChar. destruct newline_classes as [-> ->]. done. Qed.

Lemma numeric_newline : isNumericChar newline = false.
Proof. unfold isNumericChar. destruct newline_classes as [_ ->]. done. Qed.

Lemma scanIdentifier_reads input pre lx c rest :
  has_read input pre lx → unread lx = c :: rest → isIdentifierContinuationChar c = true →
  ∃ token lx' text, scanIdentifier lx = (token, lx') ∧ reads_token input pre lx token text lx' ∧ text ≠ [] ∧ TokenTyp token = TokenIdent.
Proof.
  intros Hr E Hc. unfold scanIdentifier.
  destruct (scanWhile_reads isIdentifierContinuationChar _ _ _ Hr) as (text & r1 & lx1 & -> & E1 & Hr1 & U1 & Ht & Hstop).
  do 2 eexists. exists text. split_and!; [done| | |done].
  - destruct Hr as [H1 H2 H3], Hr1 as [H4 H5 H6 H7]. split; simpl; [by rewrite U1|done| |done|done].
    rewrite H5. apply lineOf_same. exact (no_newline _ text continuation_newline Ht).
  - intros ->. rewrite E in E1. destruct r1; simplify_eq/=. congruence.
Qed.

Lemma scanNumericLiteral_reads input pre lx c rest :
  has_read input pre lx → unread lx = c :: rest → IsDigit c = true →
  ∃ token lx' text, scanNumericLiteral lx = (token, lx') ∧ reads_token input pre lx token text lx' ∧ text ≠ [] ∧ TokenTyp token = TokenNumber.
Proof.
  intros Hr E Hc. unfold scanNumericLiteral.
  destruct (scanWhile_reads isNumericChar _ _ _ Hr) as (digits & r1 & lx1 & -> & E1 & Hr1 & U1 & Hd & Hstop).
  destruct (scanWhile_reads IsLetter _ _ _ Hr1) as (suffix & r2 & lx2 & -> & E2 & Hr2 & U2 & Hs & _).
  do 2 eexists. exists (digits ++ suffix). split_and!; [done| | |done].
  - rewrite <-app_assoc in Hr2. pose proof (read_line _ _ _ Hr2) as H5. destruct Hr as [H1 H2 H3]. split; simpl; [|done| |done|exact Hr2].
    + by rewrite E1, <-U1, E2, U2, app_assoc.
    + rewrite H5. apply lineOf_same. intros [Hin|Hin]%elem_of_app;
        [exact (no_newline isNumericChar digits numeric_newline Hd Hin)|exact (no_newline IsLetter suffix (proj1 newline_classes) Hs Hin)].
  - intros [-> _]%app_eq_nil. rewrite E in E1. destruct r1; simplify_eq/=. unfold isNumericChar in Hstop. by rewrite Hc in Hstop.
Qed.

(** A result of reading at [lx]: a token of some text (none at the end of the
    input), or an error reported there. *)
Definition reads_or_reports (input pre : list rune) (lx : Lexer) (r : (ParseError + Token) * Lexer) : Prop :=
  match r with
  | (inr token, lx') =>
      ∃ text, reads_token input pre lx token text lx' ∧ (TokenTyp token = TokenEOF → text = [] ∧ unread lx' = []) ∧
              (TokenTyp token ≠ TokenEOF → text ≠ [])
  | (inl err, _) => reports input pre err
  end.

Lemma fixed_reads input pre lx ty text rest :
  has_read input pre lx → unread lx = text ++ rest → text ≠ [] → ty ≠ TokenString → ty ≠ TokenEOF →
  reads_or_reports input pre lx (fixedToken ty text lx).
Proof.
  intros Hr E Hne H1 H2. destruct (fixedToken_reads input pre lx ty text rest) as (token & lx' & -> & Ht & Hty); [done..|].
  exists text. split_and!; [done|intros; congruence|done].
Qed.

Lemma string_reads input pre lx r :
  match r with
  | (inr token, lx') => ∃ text, reads_token input pre lx token text lx' ∧ text ≠ [] ∧ TokenTyp token = TokenString
  | (inl err, _) => reports input pre err
  end → reads_or_reports input pre lx r.
Proof. destruct r as [[err|token] lx']; [done|]. intros (text & Ht & Hne & Hty). exists text. split_and!; [done|intros; congruence|done]. Qed.

Lemma word_reads input pre lx c rest :
  has_read input pre lx → unread lx = c :: rest →
  reads_or_reports input pre lx
    (if IsDigit c then let '(token, lx') := scanNumericLiteral lx in (inr token, lx')
     else if isIdentifierStartChar c then let '(token, lx') := scanIdentifier lx in (inr token, lx')
     else (inl (errorAt lx (line lx) (column lx) (UnexpectedCharacter c)), lx)).
Proof.
  intros Hr U. destruct (IsDigit c) eqn:Ed; [|destruct (isIdentifierStartChar c) eqn:Es; [|by apply errorAt_reports]].
  - destruct (scanNumericLiteral_reads input pre lx c rest Hr U Ed) as (token & lx' & text & -> & Ht & Hne & Hty).
    exists text. split_and!; [done|intros; congruence|done].
  - assert (Hcont : isIdentifierContinuationChar c = true).
    { unfold isIdentifierStartChar in Es. unfold isIdentifierContinuationChar. apply orb_true_iff in Es as [->| ->]; [done|]. by rewrite orb_true_r. }
    destruct (scanIdentifier_reads input pre lx c rest Hr U Hcont) as (token & lx' & text & -> & Ht & Hne & Hty).
    exists text. split_and!; [done|intros; congruence|done].
Qed.

(** What one call reads: a gap, then a token, or an error where the token should be. *)
Lemma scanNextToken_reads input pre lx :
  has_read input pre lx →
  ∃ g lx1, gap g ∧ unread lx = g ++ unread lx1 ∧ has_read input (pre ++ g) lx1 ∧ reads_or_reports input (pre ++ g) lx1 (scanNextToken lx).
Proof.
  intros Hr. destruct (skip_reads _ _ _ Hr) as (g & lx1 & Eskip & Hr1 & E & Hg). exists g, lx1. split_and!; [done|done|done|].
  unfold scanNextToken. rewrite Eskip. cbv zeta. destruct (unread lx1) as [|c rest] eqn:U.
  { exists []. destruct Hr1 as [H1 H2 H3]. split_and!; [split; simpl; rewrite ?app_nil_r; done|done|done]. }
  pose proof (word_reads input (pre ++ g) lx1 c rest Hr1 U) as Hword.
  assert (Hfixed : ∀ ty text rest', c :: rest = text ++ rest' → text ≠ [] → ty ≠ TokenString → ty ≠ TokenEOF →
    reads_or_reports input (pre ++ g) lx1 (fixedToken ty text lx1)) by (intros ty text rest' Et; apply (fixed_reads _ _ _ _ _ rest'); [done|by rewrite U]).
  repeat (match goal with |- context [c =? ?d] => destruct (Z.eqb_spec c d) as [->|]; [|] end; try (by eapply Hfixed)); cbn [andb].
  - destruct rest as [|d rest]; [by eapply Hfixed|]. destruct (Z.eqb_spec d equals) as [->|]; by eapply Hfixed.
  - destruct rest as [|d rest]; [by apply errorAt_reports|]. destruct (Z.eqb_spec d equals) as [->|]; [by eapply Hfixed|by apply errorAt_reports].
  - destruct rest as [|d rest]; [exact Hword|]. destruct (Z.eqb_spec d greater) as [->|]; [by eapply Hfixed|exact Hword].
  - destruct (startsTriple (quote :: rest)) eqn:Es; apply string_reads.
    + apply startsTriple_spec in Es as [rest' Es]. eapply scanTripleQuotedString_reads; [done|]. by rewrite U, Es.
    + by eapply scanQuotedString_reads.
  - exact Hword.
Qed.

(** ** The whole text *)

(** The tokens cover the text that follows [pre]: each after a gap, in its
    spelling, at the position it states. *)
Fixpoint covers (pre rest : list rune) (tokens : list Token) : Prop :=
  match tokens with
  | [] => rest = []
  | token :: tokens' =>
      ∃ g text rest', rest = g ++ text ++ rest' ∧ gap g ∧ spells (TokenTyp token) (TokenValue token) text ∧
        TokenLine token = lineOf (pre ++ g) ∧ TokenCol token = columnOf (pre ++ g) ∧ covers (pre ++ g ++ text) rest' tokens'
  end.

(** An error after tokens that cover the text before it. *)
Definition fails_at (input : list rune) (err : ParseError) : Prop :=
  ∃ read g rest tokens, input = read ++ g ++ rest ∧ gap g ∧ covers [] read tokens ∧ reports input (read ++ g) err.

Lemma covers_app pre read rest tokens token :
  covers pre read tokens → covers (pre ++ read) rest [token] → covers pre (read ++ rest) (tokens ++ [token]).
Proof.
  revert pre read. induction tokens as [|t tokens IH]; intros pre read Hc Ht; simpl in Hc.
  - subst. by rewrite app_nil_r in Ht.
  - destruct Hc as (g & text & read' & -> & H1 & H2 & H3 & H4 & Hc). exists g, text, (read' ++ rest). rewrite <-!app_assoc.
    split_and!; [done..|]. apply IH; [done|]. by rewrite <-!app_assoc in *.
Qed.

Lemma tokenizeLoop_covers rounds input pre done lx :
  has_read input pre lx → covers [] pre done → (length (unread lx) < rounds)%nat →
  match tokenizeLoop rounds lx with
  | Some (inr tokens) => covers [] input (done ++ tokens) ∧
      ∃ before eof, tokens = before ++ [eof] ∧ TokenTyp eof = TokenEOF ∧ TokenValue eof = [] ∧ Forall (λ t, TokenTyp t ≠ TokenEOF) before
  | Some (inl err) => fails_at input err
  | None => False
  end.
Proof.
  revert pre done lx. induction rounds as [|rounds IH]; intros pre done lx Hr Hc Hlen; [lia|]. simpl.
  destruct (scanNextToken_reads input pre lx Hr) as (g & lx1 & Hg & E & Hr1 & Hread).
  destruct (scanNextToken lx) as [[err|token] lx']; simpl in Hread.
  { exists pre, g, (unread lx1), done. split_and!; [by rewrite (read_input _ _ _ Hr), E|done|done|done]. }
  destruct Hread as (text & Ht & Heof & Hne). pose proof (token_text _ _ _ _ _ _ Ht) as Etext.
  assert (Hcov : covers [] ((pre ++ g) ++ text) (done ++ [token])).
  { rewrite <-app_assoc. apply covers_app; [done|]. exists g, text, []. destruct Ht as [H1 H2 H3 H4 H5]. rewrite app_nil_r. split_and!; done. }
  pose proof (token_rest _ _ _ _ _ _ Ht) as Hr'. case_decide as Hty.
  - destruct (Heof Hty) as [-> U]. split; [|exists [], token; split_and!; [done|done| |done]; pose proof (token_spelling _ _ _ _ _ _ Ht) as Hs; by rewrite Hty in Hs]. rewrite app_nil_r in *. rewrite (read_input _ _ _ Hr'), U. by rewrite !app_nil_r.
  - assert (Hlt : (length (unread lx') < rounds)%nat).
    { rewrite E, Etext, !length_app in Hlen. specialize (Hne Hty). destruct text; [done|]. simpl in Hlen. lia. }
    specialize (IH _ _ _ Hr' Hcov Hlt). destruct (tokenizeLoop rounds lx') as [[err|tokens]|]; simpl; [done| |done].
    destruct IH as [IH (before & eof & -> & He & Hv & Hb)]. split; [by rewrite <-app_assoc in IH|]. exists (token :: before), eof. split_and!; [done|done|done|by constructor].
Qed.

Lemma Tokenize_result input :
  match Tokenize input with
  | Some (inr tokens) => covers [] input tokens ∧
      ∃ before eof, tokens = before ++ [eof] ∧ TokenTyp eof = TokenEOF ∧ TokenValue eof = [] ∧ Forall (λ t, TokenTyp t ≠ TokenEOF) before
  | Some (inl err) => fails_at input err
  | None => False
  end.
Proof. apply (tokenizeLoop_covers (S (length input)) input [] [] (NewLexer input)); [apply NewLexer_reads|done|simpl; lia]. Qed.

(** C31: The lexer always ends, on every text. Either its tokens cover the text: it is
    the tokens' spellings with only blanks and comments between them, each at the
    line and column its token states, and the last token, and no other, is the
    end of the text; or it reports an error at the line and column where a token
    should be, with the text of that line, and tokens cover the text before it. *)
Theorem Tokenize_covers input :
  match Tokenize input with
  | Some (inr tokens) => covers [] input tokens ∧
      ∃ before eof, tokens = before ++ [eof] ∧ TokenTyp eof = TokenEOF ∧ TokenValue eof = [] ∧ Forall (λ t, TokenTyp t ≠ TokenEOF) before
  | Some (inl err) => fails_at input err
  | None => False
  end.
Proof. apply Tokenize_result. Qed.

(** ** Writing tokens down *)

(** Tokens as they are written: their type and value. *)
Definition wellFormed (t : TokenType * list rune) : Prop :=
  let '(ty, v) := t in
  match ty with
  | TokenEOF => False
  | TokenIdent => (∃ c rest, v = c :: rest ∧ isIdentifierStartChar c = true) ∧ Forall (λ c, isIdentifierContinuationChar c = true) v
  | TokenNumber => ∃ c digits suffix, v = (c :: digits) ++ suffix ∧ IsDigit c = true ∧ Forall (λ c, isNumericChar c = true) digits ∧
                     Forall (λ c, IsLetter c = true) suffix
  | TokenString => findClosing v = None
  | TokenLBrace => v = [leftBrace]
  | TokenRBrace => v = [rightBrace]
  | TokenSlash => v = [slash]
  | TokenEquals => v = [equals]
  | TokenDoubleEquals => v = [equals; equals]
  | TokenNotEquals => v = [bang; equals]
  | TokenArrow => v = [minus; greater]
  | TokenNewline => v = [newline]
  end.

(** Strings with a quote or a newline need triple quotes. *)
Definition spell (t : TokenType * list rune) : list rune :=
  let '(ty, v) := t in
  match ty with
  | TokenString =>
      if decide (quote ∈ v ∨ newline ∈ v) then triple ++ newline :: (v ++ newline :: triple) else quote :: (v ++ [quote])
  | _ => v
  end.

Definition write (tokens : list (TokenType * list rune)) : list rune := t ← tokens; spell t ++ [space].

Lemma unread_advanceBy n lx : unread (advanceBy n lx) = drop n (unread lx).
Proof.
  revert lx. induction n as [|n IH]; intros lx; simpl; [by rewrite drop_0|]. rewrite IH. unfold advanceCursor.
  destruct (unread lx) as [|c rest]; simpl; [by rewrite drop_nil|]. by destruct (c =? newline).
Qed.

Lemma unread_advanceCursor lx : unread (advanceCursor lx) = drop 1 (unread lx).
Proof. apply (unread_advanceBy 1). Qed.

Lemma unread_scanWhile p lx text c rest :
  unread lx = text ++ c :: rest → Forall (λ c, p c = true) text → p c = false →
  fst (scanWhile p lx) = text ∧ unread (snd (scanWhile p lx)) = c :: rest.
Proof. intros E Ht Hc. unfold scanWhile. simpl. rewrite E, takeWhile_app, unread_advanceBy, E, drop_app_length by done. done. Qed.

Lemma skip_unread lx lead c rest :
  unread lx = lead ++ c :: rest → blanks lead → isBlank c = false → c ≠ hash →
  unread (skipWhitespaceExceptNewlines (skipLineComment (skipWhitespaceExceptNewlines lx))) = c :: rest.
Proof.
  intros E Hl Hb Hh. unfold skipWhitespaceExceptNewlines at 2. destruct (unread_scanWhile isBlank lx lead c rest E Hl Hb) as [_ U].
  unfold skipLineComment. rewrite U. destruct (Z.eqb_spec c hash); [done|]. apply (unread_scanWhile isBlank _ [] c rest); [done|constructor|done].
Qed.

Lemma skip_blanks lx :
  blanks (unread lx) → unread (skipWhitespaceExceptNewlines (skipLineComment (skipWhitespaceExceptNewlines lx))) = [].
Proof.
  intros Hb. assert (Hs : ∀ lx, blanks (unread lx) → unread (skipWhitespaceExceptNewlines lx) = []).
  { intros lx0 H0. unfold skipWhitespaceExceptNewlines, scanWhile. simpl. rewrite unread_advanceBy.
    assert (takeWhile isBlank (unread lx0) = unread lx0) as ->; [|by rewrite drop_all]. induction H0 as [|c l Hc _ IH]; simpl; [done|]. by rewrite Hc, IH. }
  apply Hs. unfold skipLineComment. rewrite Hs by done. rewrite Hs by done. constructor.
Qed.

Lemma start_char_ne c d : isIdentifierStartChar c = true → isIdentifierStartChar d = false → (c =? d) = false.
Proof. intros H1 H2. apply Z.eqb_neq. congruence. Qed.

Lemma digit_ne c d : IsDigit c = true → IsDigit d = false → (c =? d) = false.
Proof. intros H1 H2. apply Z.eqb_neq. congruence. Qed.

Lemma start_char_ascii d : 0 ≤ d < 128 → between 97 122 d = false → between 65 90 d = false → d ≠ underscore → isIdentifierStartChar d = false.
Proof. intros H1 H2 H3 H4. unfold isIdentifierStartChar. rewrite letter_ascii, H2, H3 by done. by apply Z.eqb_neq. Qed.

Lemma digit_not_ascii d : 0 ≤ d < 128 → between 48 57 d = false → IsDigit d = false.
Proof. intros H1 H2. by rewrite digit_ascii. Qed.

Lemma start_char_digit c : isIdentifierStartChar c = true → IsDigit c = false.
Proof.
  unfold isIdentifierStartChar. rewrite orb_true_iff, Z.eqb_eq. intros [Hc| ->]; [by apply letter_not_digit|by apply digit_not_ascii].
Qed.

Lemma letter_not_numeric c : IsLetter c = true → isNumericChar c = false.
Proof.
  intros Hc. unfold isNumericChar. rewrite letter_not_digit by done. simpl.
  apply orb_false_iff. split; apply Z.eqb_neq; intros ->; rewrite letter_ascii in Hc; done.
Qed.

Lemma blank_classes : isIdentifierContinuationChar space = false ∧ isNumericChar space = false ∧ IsLetter space = false.
Proof.
  destruct (ascii_classes space) as [H1 H2]; [done..|]. unfold isIdentifierContinuationChar, isNumericChar. rewrite H1, H2. done.
Qed.

Lemma findClosing_triple v rest : findClosing v = None → findClosing (v ++ newline :: triple ++ rest) = Some (v ++ [newline]).
Proof.
  induction v as [|c v IH]; intros Hv; [done|]. rewrite findClosing_cons in Hv. cbn [app]. rewrite findClosing_cons.
  destruct (startsTriple (c :: v)) eqn:Es; [done|]. destruct (startsTriple (c :: v ++ newline :: triple ++ rest)) eqn:Es'.
  - exfalso. destruct v as [|a [|b v]]; simpl in *; rewrite ?andb_false_r in Es'; try done. by rewrite Es' in Es.
  - destruct (findClosing v); [done|]. by rewrite IH.
Qed.

Lemma stripTrailingNewline_snoc v : stripTrailingNewline (v ++ [newline]) = v.
Proof. unfold stripTrailingNewline. rewrite last_snoc, length_app, Nat.add_sub. simpl. apply take_app_length. Qed.

(** A call that reads back what was written. *)
Definition reads_back (t : TokenType * list rune) (rest : list rune) (r : (ParseError + Token) * Lexer) : Prop :=
  ∃ token lx', r = (inr token, lx') ∧ (TokenTyp token, TokenValue token) = t ∧ unread lx' = rest.

Lemma fixed_back ty text lx rest : unread lx = text ++ rest → reads_back (ty, text) rest (fixedToken ty text lx).
Proof. intros E. do 2 eexists. split_and!; [done|done|]. by rewrite unread_advanceBy, E, drop_app_length. Qed.

Lemma quoted_back lx v rest :
  unread lx = quote :: (v ++ quote :: rest) → quote ∉ v → newline ∉ v → reads_back (TokenString, v) rest (scanQuotedString lx).
Proof.
  intros E Hq Hn. unfold scanQuotedString. set (p := λ c, negb (c =? quote) && negb (c =? newline)).
  destruct (unread_scanWhile p (advanceCursor lx) v quote rest) as [E1 E2]; [by rewrite unread_advanceCursor, E| |done|].
  { apply Forall_forall. intros c Hc. unfold p. destruct (Z.eqb_spec c quote), (Z.eqb_spec c newline); simplify_eq; done. }
  destruct (scanWhile p (advanceCursor lx)) as [text lx1]. simpl in E1, E2. rewrite E2. subst text. change (quote =? newline) with false. cbv iota.
  do 2 eexists. split_and!; [done|done|]. by rewrite unread_advanceCursor, E2.
Qed.

Lemma triple_back lx v rest :
  unread lx = triple ++ newline :: (v ++ newline :: triple ++ rest) → findClosing v = None →
  reads_back (TokenString, v) rest (scanTripleQuotedString lx).
Proof.
  intros E Hv. unfold scanTripleQuotedString. assert (E1 : unread (advanceBy 3 lx) = newline :: (v ++ newline :: triple ++ rest)) by (by rewrite unread_advanceBy, E).
  rewrite E1. change (newline =? newline) with true. cbv iota.
  assert (E2 : unread (advanceCursor (advanceBy 3 lx)) = v ++ newline :: triple ++ rest) by (by rewrite unread_advanceCursor, E1).
  rewrite E2, findClosing_triple by done. do 2 eexists. split_and!; [done|simpl; by rewrite stripTrailingNewline_snoc|].
  rewrite unread_advanceBy, E2, length_app. simpl.
  replace (length v + 1 + 3)%nat with (length (v ++ newline :: triple)) by (rewrite length_app; simpl; lia).
  change (newline :: quote :: quote :: quote :: rest) with ((newline :: triple) ++ rest). by rewrite app_assoc, drop_app_length.
Qed.

Lemma identifier_back lx v c rest :
  unread lx = v ++ c :: rest → Forall (λ c, isIdentifierContinuationChar c = true) v → isIdentifierContinuationChar c = false →
  reads_back (TokenIdent, v) (c :: rest) (let '(token, lx') := scanIdentifier lx in (inr token, lx')).
Proof.
  intros E Hv Hc. unfold scanIdentifier. destruct (unread_scanWhile isIdentifierContinuationChar lx v c rest E Hv Hc) as [E1 E2].
  destruct (scanWhile isIdentifierContinuationChar lx) as [text lx1]. simpl in E1, E2. subst. by do 2 eexists.
Qed.

Lemma number_back lx digits suffix stop rest :
  unread lx = digits ++ suffix ++ stop :: rest → Forall (λ c, isNumericChar c = true) digits → Forall (λ c, IsLetter c = true) suffix →
  isNumericChar stop = false → IsLetter stop = false →
  reads_back (TokenNumber, digits ++ suffix) (stop :: rest) (let '(token, lx') := scanNumericLiteral lx in (inr token, lx')).
Proof.
  intros E Hd Hs B1 B2. unfold scanNumericLiteral.
  assert (Hstop : ∃ c rest', suffix ++ stop :: rest = c :: rest' ∧ isNumericChar c = false).
  { destruct Hs as [|c suffix Hc Hs]; [by exists stop, rest|]. exists c, (suffix ++ stop :: rest). split; [done|by apply letter_not_numeric]. }
  destruct Hstop as (c & rest' & Er & Hc). rewrite Er in E. destruct (unread_scanWhile isNumericChar lx digits c rest' E Hd Hc) as [E1 E2].
  destruct (scanWhile isNumericChar lx) as [text1 lx1]. simpl in E1, E2. rewrite <-Er in E2.
  destruct (unread_scanWhile IsLetter lx1 suffix stop rest E2 Hs B2) as [E3 E4].
  destruct (scanWhile IsLetter lx1) as [text2 lx2]. simpl in E3, E4. subst. by do 2 eexists.
Qed.

(** The first rune of an identifier or number is none of the others the lexer looks for. *)
Definition special : list rune :=
  [space; tab; carriageReturn; hash; newline; leftBrace; rightBrace; slash; equals; bang; minus; quote].

Ltac in_special := unfold special; repeat first [apply list_elem_of_here|apply list_elem_of_further].

Lemma word_not_special c d : isIdentifierStartChar c = true ∨ IsDigit c = true → d ∈ special → (c =? d) = false.
Proof.
  intros Hc Hd. assert (Hall : Forall (λ d, isIdentifierStartChar d = false ∧ IsDigit d = false) special).
  { repeat constructor; first [by apply start_char_ascii|by apply digit_not_ascii]. }
  rewrite Forall_forall in Hall. destruct (Hall d Hd), Hc; [by apply start_char_ne|by apply digit_ne].
Qed.

Lemma word_scan lx lead c rest r :
  unread lx = lead ++ c :: rest → blanks lead → isIdentifierStartChar c = true ∨ IsDigit c = true →
  (∀ lx1, unread lx1 = c :: rest → r (if IsDigit c then let '(token, lx') := scanNumericLiteral lx1 in (inr token, lx')
                                      else if isIdentifierStartChar c then let '(token, lx') := scanIdentifier lx1 in (inr token, lx')
                                      else (inl (errorAt lx1 (line lx1) (column lx1) (UnexpectedCharacter c)), lx1))) →
  r (scanNextToken lx).
Proof.
  intros E Hl Hc Hr. assert (Hne : ∀ d, d ∈ special → (c =? d) = false) by (intros d; by apply word_not_special).
  assert (Hb : isBlank c = false) by (unfold isBlank; rewrite !Hne by in_special; done).
  assert (Hh : c ≠ hash) by (apply Z.eqb_neq, Hne; in_special).
  unfold scanNextToken. pose proof (skip_unread lx lead c rest E Hl Hb Hh) as U.
  set (lx1 := skipWhitespaceExceptNewlines _) in *. rewrite U. cbv zeta.
  rewrite !Hne by in_special. cbn [andb]. by apply Hr.
Qed.

(** A token whose first rune is none of a word's: what follows the blanks is read. *)
Lemma other_scan lx lead c rest :
  unread lx = lead ++ c :: rest → blanks lead → isBlank c = false → c ≠ hash →
  ∃ lx1, skipWhitespaceExceptNewlines (skipLineComment (skipWhitespaceExceptNewlines lx)) = lx1 ∧ unread lx1 = c :: rest.
Proof. intros E Hl Hb Hh. eexists. split; [done|]. by eapply skip_unread. Qed.

Lemma scan_string v lx lead rest :
  findClosing v = None → blanks lead → unread lx = lead ++ spell (TokenString, v) ++ space :: rest →
  reads_back (TokenString, v) (space :: rest) (scanNextToken lx).
Proof.
  intros Hv Hl E. unfold spell in E. case_decide as Hd.
  - destruct (other_scan lx lead quote ([quote; quote; newline] ++ v ++ newline :: triple ++ space :: rest)) as (lx1 & Es & U); [|done..|].
    { rewrite E. unfold triple. simpl. by rewrite <-!app_assoc. }
    unfold scanNextToken. rewrite Es, U. by apply triple_back.
  - apply Decidable.not_or in Hd as [Hq Hn].
    destruct (other_scan lx lead quote (v ++ quote :: space :: rest)) as (lx1 & Es & U); [|done..|].
    { rewrite E. simpl. by rewrite <-app_assoc. }
    unfold scanNextToken. rewrite Es, U. cbv zeta.
    assert (startsTriple (quote :: v ++ quote :: space :: rest) = false) as Ht.
    { destruct v as [|a [|b v]]; simpl; [done| |]; (destruct (Z.eqb_spec a quote) as [->|]; [destruct Hq; apply list_elem_of_here|done]). }
    change (quote =? newline) with false. change (quote =? leftBrace) with false. change (quote =? rightBrace) with false.
    change (quote =? slash) with false. change (quote =? equals) with false. change (quote =? bang) with false. change (quote =? minus) with false.
    change (quote =? quote) with true. cbn [andb]. rewrite Ht. by apply quoted_back.
Qed.

Lemma scan_spelled t lx lead rest :
  wellFormed t → blanks lead → unread lx = lead ++ spell t ++ space :: rest → reads_back t (space :: rest) (scanNextToken lx).
Proof.
  destruct t as [ty v]. intros Hwf Hl E.
  assert (Hfixed : ∀ c text, v = c :: text → spell (ty, v) = v → isBlank c = false → c ≠ hash →
    ∃ lx1, skipWhitespaceExceptNewlines (skipLineComment (skipWhitespaceExceptNewlines lx)) = lx1 ∧ unread lx1 = c :: (text ++ space :: rest)).
  { intros c text -> Es Hb Hh. rewrite Es in E. by eapply other_scan. }
  destruct ty; simpl in Hwf; [done| | |by eapply scan_string|subst v..].
  - destruct Hwf as [(c & text & -> & Hc) Hall]. simpl in E. eapply word_scan; [exact E|done|by left|]. intros lx1 U.
    rewrite start_char_digit, Hc by done. apply identifier_back; [done|done|apply blank_classes].
  - destruct Hwf as (c & digits & suffix & -> & Hc & Hd & Hs). simpl in E. rewrite <-app_assoc in E.
    eapply word_scan; [exact E|done|by right|]. intros lx1 U. rewrite Hc. apply (number_back lx1 (c :: digits) suffix); [done| |done|apply blank_classes..].
    constructor; [|done]. unfold isNumericChar. by rewrite Hc.
  - destruct (Hfixed leftBrace []) as (lx1 & Es & U); [done..|]. unfold scanNextToken. rewrite Es, U. by apply fixed_back.
  - destruct (Hfixed rightBrace []) as (lx1 & Es & U); [done..|]. unfold scanNextToken. rewrite Es, U. by apply fixed_back.
  - destruct (Hfixed slash []) as (lx1 & Es & U); [done..|]. unfold scanNextToken. rewrite Es, U. by apply fixed_back.
  - destruct (Hfixed equals []) as (lx1 & Es & U); [done..|]. unfold scanNextToken. rewrite Es, U. by apply fixed_back.
  - destruct (Hfixed equals [equals]) as (lx1 & Es & U); [done..|]. unfold scanNextToken. rewrite Es, U. by apply fixed_back.
  - destruct (Hfixed bang [equals]) as (lx1 & Es & U); [done..|]. unfold scanNextToken. rewrite Es, U. by apply fixed_back.
  - destruct (Hfixed minus [greater]) as (lx1 & Es & U); [done..|]. unfold scanNextToken. rewrite Es, U. by apply fixed_back.
  - destruct (Hfixed newline []) as (lx1 & Es & U); [done..|]. unfold scanNextToken. rewrite Es, U. by apply fixed_back.
Qed.

Lemma tokenizeLoop_write rounds tokens lx lead :
  Forall wellFormed tokens → blanks lead → unread lx = lead ++ write tokens → (length (unread lx) < rounds)%nat →
  ∃ toks, tokenizeLoop rounds lx = Some (inr toks) ∧ (λ t, (TokenTyp t, TokenValue t)) <$> toks = tokens ++ [(TokenEOF, [])].
Proof.
  revert rounds lx lead. induction tokens as [|t tokens IH]; intros rounds lx lead Hwf Hl E Hlen; (destruct rounds as [|rounds]; [lia|]); simpl.
  - unfold scanNextToken. rewrite skip_blanks by (rewrite E; unfold write; simpl; by rewrite app_nil_r). simpl.
    eexists. split; [done|]. done.
  - apply Forall_cons in Hwf as [Ht Hwf]. assert (Ew : write (t :: tokens) = spell t ++ space :: write tokens) by (unfold write; simpl; by rewrite <-app_assoc).
    rewrite Ew in E. destruct (scan_spelled t lx lead (write tokens) Ht Hl E) as (token & lx' & -> & <- & U).
    rewrite decide_False by (intros Hty; simpl in Ht; by rewrite Hty in Ht).
    assert (Hs : spell (TokenTyp token, TokenValue token) ≠ []).
    { destruct token as [ty v l c]; simpl in *. destruct ty; simpl in *; subst; try done; [|intros ->|case_decide; done].
      - by destruct Ht as [(c0 & text & -> & _) _].
      - by destruct Ht as (c0 & digits & suffix & Ev & _). }
    destruct (IH rounds lx' [space]) as (toks & -> & Em); [done|by repeat constructor|by rewrite U| |].
    { rewrite E, !length_app in Hlen. rewrite U. destruct (spell _); [done|]. simpl in *. lia. }
    simpl. eexists. split; [done|]. by rewrite fmap_cons, Em.
Qed.

(** Every sequence of well-formed tokens, written with a space after each, is
    read back as the same sequence of types and values. Strings may contain
    anything but three quotes in a row. *)
Theorem Tokenize_roundtrip tokens :
  Forall wellFormed tokens →
  ∃ toks, Tokenize (write tokens) = Some (inr toks) ∧ (λ t, (TokenTyp t, TokenValue t)) <$> toks = tokens ++ [(TokenEOF, [])].
Proof. intros Hwf. apply (tokenizeLoop_write _ tokens _ []); [done|constructor|done|simpl; lia]. Qed.

End tokens.

(** ** A concrete text *)

(** ASCII alone: no other letters or digits. *)
#[local] Instance ascii_only : Unicode.
Proof.
  refine {| IsLetter c := between 97 122 c || between 65 90 c; IsDigit c := between 48 57 c; IsPrint := between 32 126 |}; [done|done| |done].
  intros c. unfold between. intros [[H1 H2]%andb_true_iff|[H1 H2]%andb_true_iff]%orb_true_iff; apply andb_false_iff; right; lia.
Defined.

Lemma Tokenize_roundtrip_witness :
  ∃ toks, Tokenize (write [(TokenIdent, runes "service"); (TokenIdent, runes "web"); (TokenLBrace, runes "{"); (TokenNewline, [newline]);
      (TokenIdent, runes "cpu"); (TokenNumber, runes "500m"); (TokenNewline, [newline]); (TokenRBrace, runes "}")]) = Some (inr toks) ∧
    length toks = 9%nat.
Proof.
  destruct (Tokenize_roundtrip [(TokenIdent, runes "service"); (TokenIdent, runes "web"); (TokenLBrace, runes "{"); (TokenNewline, [newline]);
      (TokenIdent, runes "cpu"); (TokenNumber, runes "500m"); (TokenNewline, [newline]); (TokenRBrace, runes "}")]) as (toks & E & Em).
  { repeat (apply Forall_cons; split; [|]); [..|apply Forall_nil; exact I]; try reflexivity.
    - split; [by exists 115, (runes "ervice")|vm_compute; repeat constructor].
    - split; [by exists 119, (runes "eb")|vm_compute; repeat constructor].
    - split; [by exists 99, (runes "pu")|vm_compute; repeat constructor].
    - exists 53, (runes "00"), (runes "m"). split_and!; [reflexivity|reflexivity|vm_compute; repeat constructor|vm_compute; repeat constructor]. }
  exists toks. split; [exact E|]. apply (f_equal length) in Em. rewrite length_fmap in Em. rewrite Em. reflexivity.
Defined.
