(* ===== verification/Ast.v ===== *)
(** * The syntax tree (src/lang/ast.go), records with field updates, and the bytes of a text *)

From S2P Require Import Prelude Lexer GoStrings.

Local Open Scope Z_scope.

(** * The syntax tree (src/lang/ast.go), and records with field updates *)

(** * Updating a field of a record

    [d <| f := v |>] is [d] with the field [f] set to [v]: the assignment
    [d.f = v] of the source. A record type says once how it is rebuilt from its
    fields ([Rebuild]); the update of each field is derived from that. *)

Class Rebuild (R : Type) := rebuild : R → R.

Class Update {R T : Type} (field : R → T) := update : T → R → R.

Arguments update {R T} field {_} v d.

(** The rebuilt record with the occurrence of the field replaced. *)
Ltac derive_update :=
  lazymatch goal with
  | |- @Update ?R ?T ?field =>
      let built := eval cbv beta delta [rebuild] in (@rebuild R _) in
      let built := lazymatch built with ?i => eval hnf in i end in
      let abstracted := eval pattern field in built in
      lazymatch abstracted with
      | ?context _ => let u := eval cbv beta in (λ v : T, context (λ _ : R, v)) in exact u
      end
  end.

#[export] Hint Extern 0 (Update _) => derive_update : typeclass_instances.

#[warnings="-postfix-notation-not-level-1"]
Notation "d <| f := v |>" := (update f v d)
  (at level 12, left associativity, f at level 9, v at level 200, format "d  <|  f  :=  v  |>").

(** * The syntax of configuration files (src/lang/ast.go)

    One record per kind of declaration, a pointer to a block as an option. A text
    is the list of its runes, as in the lexer. The [_zero] of a type is the value
    Go gives a variable of it. *)

Abbreviation text := (list rune).

Record ExternalPortDecl := mkExternalPortDecl {
  ExternalPort_Port : Z;
  ExternalPort_Protocol : text
}.

#[export] Instance ExternalPortDecl_rebuild : Rebuild ExternalPortDecl := λ d,
  mkExternalPortDecl (ExternalPort_Port d) (ExternalPort_Protocol d).

Definition ExternalPortDecl_zero : ExternalPortDecl := mkExternalPortDecl 0 [].

Record ResourcesDecl := mkResourcesDecl {
  Resources_CPU : text;
  Resources_Memory : text;
  Resources_CPULimit : text;
  Resources_MemoryLimit : text
}.

#[export] Instance ResourcesDecl_rebuild : Rebuild ResourcesDecl := λ d,
  mkResourcesDecl (Resources_CPU d) (Resources_Memory d) (Resources_CPULimit d) (Resources_MemoryLimit d).

Definition ResourcesDecl_zero : ResourcesDecl := mkResourcesDecl [] [] [] [].

Record HealthDecl := mkHealthDecl {
  Health_Method : text;
  Health_Path : text;
  Health_Interval : text;
  Health_Timeout : text
}.

#[export] Instance HealthDecl_rebuild : Rebuild HealthDecl := λ d,
  mkHealthDecl (Health_Method d) (Health_Path d) (Health_Interval d) (Health_Timeout d).

Definition HealthDecl_zero : HealthDecl := mkHealthDecl [] [] [] [].

Record ScaleTargetDecl := mkScaleTargetDecl {
  ScaleTarget_Metric : text;
  ScaleTarget_Value : Z
}.

#[export] Instance ScaleTargetDecl_rebuild : Rebuild ScaleTargetDecl := λ d,
  mkScaleTargetDecl (ScaleTarget_Metric d) (ScaleTarget_Value d).

Definition ScaleTargetDecl_zero : ScaleTargetDecl := mkScaleTargetDecl [] 0.

Record EventScaleDecl := mkEventScaleDecl {
  EventScale_Source : text;
  EventScale_Target : Z
}.

#[export] Instance EventScaleDecl_rebuild : Rebuild EventScaleDecl := λ d,
  mkEventScaleDecl (EventScale_Source d) (EventScale_Target d).

Definition EventScaleDecl_zero : EventScaleDecl := mkEventScaleDecl [] 0.

Record ScheduleDecl := mkScheduleDecl {
  Schedule_Days : text;
  Schedule_Start : text;
  Schedule_End : text;
  Schedule_Minimum : Z
}.

#[export] Instance ScheduleDecl_rebuild : Rebuild ScheduleDecl := λ d,
  mkScheduleDecl (Schedule_Days d) (Schedule_Start d) (Schedule_End d) (Schedule_Minimum d).

Definition ScheduleDecl_zero : ScheduleDecl := mkScheduleDecl [] [] [] 0.

Record StabilizationDecl := mkStabilizationDecl {
  Stabilization_ScaleUp : text;
  Stabilization_ScaleDown : text
}.

#[export] Instance StabilizationDecl_rebuild : Rebuild StabilizationDecl := λ d,
  mkStabilizationDecl (Stabilization_ScaleUp d) (Stabilization_ScaleDown d).

Definition StabilizationDecl_zero : StabilizationDecl := mkStabilizationDecl [] [].

Record HorizontalScaleDecl := mkHorizontalScaleDecl {
  HorizontalScale_Min : Z;
  HorizontalScale_Max : Z;
  HorizontalScale_Targets : list ScaleTargetDecl;
  HorizontalScale_Events : list EventScaleDecl;
  HorizontalScale_Schedule : option ScheduleDecl;
  HorizontalScale_Stabilization : option StabilizationDecl;
  HorizontalScale_IdleTimeout : text;
  HorizontalScale_ActivationTimeout : text
}.

#[export] Instance HorizontalScaleDecl_rebuild : Rebuild HorizontalScaleDecl := λ d,
  mkHorizontalScaleDecl (HorizontalScale_Min d) (HorizontalScale_Max d) (HorizontalScale_Targets d) (HorizontalScale_Events d)
    (HorizontalScale_Schedule d) (HorizontalScale_Stabilization d) (HorizontalScale_IdleTimeout d) (HorizontalScale_ActivationTimeout d).

Definition HorizontalScaleDecl_zero : HorizontalScaleDecl := mkHorizontalScaleDecl 0 0 [] [] None None [] [].

Record VerticalScaleDecl := mkVerticalScaleDecl {
  VerticalScale_CPUMin : text;
  VerticalScale_CPUMax : text;
  VerticalScale_MemoryMin : text;
  VerticalScale_MemoryMax : text
}.

#[export] Instance VerticalScaleDecl_rebuild : Rebuild VerticalScaleDecl := λ d,
  mkVerticalScaleDecl (VerticalScale_CPUMin d) (VerticalScale_CPUMax d) (VerticalScale_MemoryMin d) (VerticalScale_MemoryMax d).

Definition VerticalScaleDecl_zero : VerticalScaleDecl := mkVerticalScaleDecl [] [] [] [].

Record ScaleDecl := mkScaleDecl {
  Scale_Horizontal : option HorizontalScaleDecl;
  Scale_Vertical : option VerticalScaleDecl
}.

#[export] Instance ScaleDecl_rebuild : Rebuild ScaleDecl := λ d,
  mkScaleDecl (Scale_Horizontal d) (Scale_Vertical d).

Definition ScaleDecl_zero : ScaleDecl := mkScaleDecl None None.

Record PlacementMatchDecl := mkPlacementMatchDecl {
  PlacementMatch_Label : text;
  PlacementMatch_Value : text
}.

#[export] Instance PlacementMatchDecl_rebuild : Rebuild PlacementMatchDecl := λ d,
  mkPlacementMatchDecl (PlacementMatch_Label d) (PlacementMatch_Value d).

Definition PlacementMatchDecl_zero : PlacementMatchDecl := mkPlacementMatchDecl [] [].

Record PlacementDecl := mkPlacementDecl {
  Placement_Mode : text;
  Placement_Architecture : text;
  Placement_ZonePolicy : text;
  Placement_ZoneMaxSkew : Z;
  Placement_Require : list PlacementMatchDecl;
  Placement_Prefer : list PlacementMatchDecl;
  Placement_Accept : list text;
  Placement_Colocate : list text;
  Placement_Separate : list text;
  Placement_Rebalance : bool
}.

#[export] Instance PlacementDecl_rebuild : Rebuild PlacementDecl := λ d,
  mkPlacementDecl (Placement_Mode d) (Placement_Architecture d) (Placement_ZonePolicy d) (Placement_ZoneMaxSkew d) (Placement_Require d)
    (Placement_Prefer d) (Placement_Accept d) (Placement_Colocate d) (Placement_Separate d) (Placement_Rebalance d).

Definition PlacementDecl_zero : PlacementDecl := mkPlacementDecl [] [] [] 0 [] [] [] [] [] false.

Record UpdateDecl := mkUpdateDecl {
  Update_MaxUnavailable : Z;
  Update_MaxExtra : Z
}.

#[export] Instance UpdateDecl_rebuild : Rebuild UpdateDecl := λ d,
  mkUpdateDecl (Update_MaxUnavailable d) (Update_MaxExtra d).

Definition UpdateDecl_zero : UpdateDecl := mkUpdateDecl 0 0.

Record EnvVarDecl := mkEnvVarDecl {
  EnvVar_Name : text;
  EnvVar_Value : text
}.

#[export] Instance EnvVarDecl_rebuild : Rebuild EnvVarDecl := λ d,
  mkEnvVarDecl (EnvVar_Name d) (EnvVar_Value d).

Definition EnvVarDecl_zero : EnvVarDecl := mkEnvVarDecl [] [].

Record ConfigFileDecl := mkConfigFileDecl {
  ConfigFile_Path : text;
  ConfigFile_Content : text;
  ConfigFile_FromFile : text
}.

#[export] Instance ConfigFileDecl_rebuild : Rebuild ConfigFileDecl := λ d,
  mkConfigFileDecl (ConfigFile_Path d) (ConfigFile_Content d) (ConfigFile_FromFile d).

Definition ConfigFileDecl_zero : ConfigFileDecl := mkConfigFileDecl [] [] [].

Record ConfigDecl := mkConfigDecl {
  Config_EnvVars : list EnvVarDecl;
  Config_ConfigFiles : list ConfigFileDecl
}.

#[export] Instance ConfigDecl_rebuild : Rebuild ConfigDecl := λ d,
  mkConfigDecl (Config_EnvVars d) (Config_ConfigFiles d).

Definition ConfigDecl_zero : ConfigDecl := mkConfigDecl [] [].

Record SecretDecl := mkSecretDecl {
  Secret_Name : text;
  Secret_MountPath : text
}.

#[export] Instance SecretDecl_rebuild : Rebuild SecretDecl := λ d,
  mkSecretDecl (Secret_Name d) (Secret_MountPath d).

Definition SecretDecl_zero : SecretDecl := mkSecretDecl [] [].

Record ConnectionRef := mkConnectionRef {
  ConnectionRef_ConnectionName : text;
  ConnectionRef_MountPath : text
}.

#[export] Instance ConnectionRef_rebuild : Rebuild ConnectionRef := λ d,
  mkConnectionRef (ConnectionRef_ConnectionName d) (ConnectionRef_MountPath d).

Definition ConnectionRef_zero : ConnectionRef := mkConnectionRef [] [].

Record VolumeMountDecl := mkVolumeMountDecl {
  VolumeMount_VolumeName : text;
  VolumeMount_MountPath : text
}.

#[export] Instance VolumeMountDecl_rebuild : Rebuild VolumeMountDecl := λ d,
  mkVolumeMountDecl (VolumeMount_VolumeName d) (VolumeMount_MountPath d).

Definition VolumeMountDecl_zero : VolumeMountDecl := mkVolumeMountDecl [] [].

Record CloudIdentityBindingDecl := mkCloudIdentityBindingDecl {
  CloudIdentityBinding_IdentityName : text;
  CloudIdentityBinding_MountPath : text;
  CloudIdentityBinding_DeliverMode : text
}.

#[export] Instance CloudIdentityBindingDecl_rebuild : Rebuild CloudIdentityBindingDecl := λ d,
  mkCloudIdentityBindingDecl (CloudIdentityBinding_IdentityName d) (CloudIdentityBinding_MountPath d) (CloudIdentityBinding_DeliverMode d).

Definition CloudIdentityBindingDecl_zero : CloudIdentityBindingDecl := mkCloudIdentityBindingDecl [] [] [].

Record InitStepDecl := mkInitStepDecl {
  InitStep_Exec : text;
  InitStep_Connection : text;
  InitStep_Timeout : text;
  InitStep_Retry : Z
}.

#[export] Instance InitStepDecl_rebuild : Rebuild InitStepDecl := λ d,
  mkInitStepDecl (InitStep_Exec d) (InitStep_Connection d) (InitStep_Timeout d) (InitStep_Retry d).

Definition InitStepDecl_zero : InitStepDecl := mkInitStepDecl [] [] [] 0.

Record ProbeDecl := mkProbeDecl {
  Probe_Method : text;
  Probe_Path : text;
  Probe_Port : Z;
  Probe_Interval : text;
  Probe_Timeout : text;
  Probe_FailureThreshold : Z;
  Probe_SuccessThreshold : Z;
  Probe_InitialDelay : text
}.

#[export] Instance ProbeDecl_rebuild : Rebuild ProbeDecl := λ d,
  mkProbeDecl (Probe_Method d) (Probe_Path d) (Probe_Port d) (Probe_Interval d) (Probe_Timeout d) (Probe_FailureThreshold d)
    (Probe_SuccessThreshold d) (Probe_InitialDelay d).

Definition ProbeDecl_zero : ProbeDecl := mkProbeDecl [] [] 0 [] [] 0 0 [].

Record DisruptionDecl := mkDisruptionDecl {
  Disruption_MinAvailable : Z;
  Disruption_MaxUnavailable : Z
}.

#[export] Instance DisruptionDecl_rebuild : Rebuild DisruptionDecl := λ d,
  mkDisruptionDecl (Disruption_MinAvailable d) (Disruption_MaxUnavailable d).

Definition DisruptionDecl_zero : DisruptionDecl := mkDisruptionDecl 0 0.

Record TagDecl := mkTagDecl {
  Tag_Key : text;
  Tag_Value : text
}.

#[export] Instance TagDecl_rebuild : Rebuild TagDecl := λ d,
  mkTagDecl (Tag_Key d) (Tag_Value d).

Definition TagDecl_zero : TagDecl := mkTagDecl [] [].

Record LoggingDecl := mkLoggingDecl {
  Logging_MaxSize : text;
  Logging_MaxFiles : Z
}.

#[export] Instance LoggingDecl_rebuild : Rebuild LoggingDecl := λ d,
  mkLoggingDecl (Logging_MaxSize d) (Logging_MaxFiles d).

Definition LoggingDecl_zero : LoggingDecl := mkLoggingDecl [] 0.

Record LifecycleDecl := mkLifecycleDecl {
  Lifecycle_PreStop : text;
  Lifecycle_PostStart : text
}.

#[export] Instance LifecycleDecl_rebuild : Rebuild LifecycleDecl := λ d,
  mkLifecycleDecl (Lifecycle_PreStop d) (Lifecycle_PostStart d).

Definition LifecycleDecl_zero : LifecycleDecl := mkLifecycleDecl [] [].

Record ServiceDecl := mkServiceDecl {
  Service_Name : text;
  Service_Owner : text;
  Service_Image : text;
  Service_Command : text;
  Service_Instances : Z;
  Service_Ports : list Z;
  Service_ExternalPorts : list ExternalPortDecl;
  Service_Resources : option ResourcesDecl;
  Service_Health : option HealthDecl;
  Service_Scale : option ScaleDecl;
  Service_Placement : option PlacementDecl;
  Service_Update : option UpdateDecl;
  Service_Config : option ConfigDecl;
  Service_Secrets : list SecretDecl;
  Service_Connections : list ConnectionRef;
  Service_VolumeMounts : list VolumeMountDecl;
  Service_CloudIdentities : list CloudIdentityBindingDecl;
  Service_InitSteps : list InitStepDecl;
  Service_Startup : option ProbeDecl;
  Service_Liveness : option ProbeDecl;
  Service_Readiness : option ProbeDecl;
  Service_Disruption : option DisruptionDecl;
  Service_Tags : list TagDecl;
  Service_PullPolicy : text;
  Service_ImagePullSecret : text;
  Service_Logging : option LoggingDecl;
  Service_Lifecycle : option LifecycleDecl;
  Service_TerminationGracePeriod : text;
  Service_Stateful : bool;
  Service_LegacySecretAPI : bool;
  Service_Priority : Z;
  Service_Line : Z
}.

#[export] Instance ServiceDecl_rebuild : Rebuild ServiceDecl := λ d,
  mkServiceDecl (Service_Name d) (Service_Owner d) (Service_Image d) (Service_Command d) (Service_Instances d) (Service_Ports d)
    (Service_ExternalPorts d) (Service_Resources d) (Service_Health d) (Service_Scale d) (Service_Placement d) (Service_Update d)
    (Service_Config d) (Service_Secrets d) (Service_Connections d) (Service_VolumeMounts d) (Service_CloudIdentities d)
    (Service_InitSteps d) (Service_Startup d) (Service_Liveness d) (Service_Readiness d) (Service_Disruption d) (Service_Tags d)
    (Service_PullPolicy d) (Service_ImagePullSecret d) (Service_Logging d) (Service_Lifecycle d) (Service_TerminationGracePeriod d)
    (Service_Stateful d) (Service_LegacySecretAPI d) (Service_Priority d) (Service_Line d).

Definition ServiceDecl_zero : ServiceDecl := mkServiceDecl [] [] [] [] 0 [] [] None None None None None None [] [] [] [] [] None None None
    None [] [] [] None None [] false false 0 0.

Record JobDecl := mkJobDecl {
  Job_Name : text;
  Job_Image : text;
  Job_Command : text;
  Job_Completions : Z;
  Job_Parallelism : Z;
  Job_BackoffLimit : Z;
  Job_ImagePullSecret : text;
  Job_Line : Z
}.

#[export] Instance JobDecl_rebuild : Rebuild JobDecl := λ d,
  mkJobDecl (Job_Name d) (Job_Image d) (Job_Command d) (Job_Completions d) (Job_Parallelism d) (Job_BackoffLimit d) (Job_ImagePullSecret d)
    (Job_Line d).

Definition JobDecl_zero : JobDecl := mkJobDecl [] [] [] 0 0 0 [] 0.

Record CronJobDecl := mkCronJobDecl {
  CronJob_Name : text;
  CronJob_Schedule : text;
  CronJob_Image : text;
  CronJob_Command : text;
  CronJob_Completions : Z;
  CronJob_Parallelism : Z;
  CronJob_BackoffLimit : Z;
  CronJob_Line : Z
}.

#[export] Instance CronJobDecl_rebuild : Rebuild CronJobDecl := λ d,
  mkCronJobDecl (CronJob_Name d) (CronJob_Schedule d) (CronJob_Image d) (CronJob_Command d) (CronJob_Completions d) (CronJob_Parallelism d)
    (CronJob_BackoffLimit d) (CronJob_Line d).

Definition CronJobDecl_zero : CronJobDecl := mkCronJobDecl [] [] [] [] 0 0 0 0.

Record VolumeDecl := mkVolumeDecl {
  Volume_Name : text;
  Volume_Size : text;
  Volume_Persistent : bool;
  Volume_StorageType : text;
  Volume_Line : Z
}.

#[export] Instance VolumeDecl_rebuild : Rebuild VolumeDecl := λ d,
  mkVolumeDecl (Volume_Name d) (Volume_Size d) (Volume_Persistent d) (Volume_StorageType d) (Volume_Line d).

Definition VolumeDecl_zero : VolumeDecl := mkVolumeDecl [] [] false [] 0.

Record ConnectionDecl := mkConnectionDecl {
  Connection_Name : text;
  Connection_Driver : text;
  Connection_User : text;
  Connection_Secret : text;
  Connection_Host : text;
  Connection_Port : Z;
  Connection_Database : text;
  Connection_Line : Z
}.

#[export] Instance ConnectionDecl_rebuild : Rebuild ConnectionDecl := λ d,
  mkConnectionDecl (Connection_Name d) (Connection_Driver d) (Connection_User d) (Connection_Secret d) (Connection_Host d)
    (Connection_Port d) (Connection_Database d) (Connection_Line d).

Definition ConnectionDecl_zero : ConnectionDecl := mkConnectionDecl [] [] [] [] [] 0 [] 0.

Record QuotaDecl := mkQuotaDecl {
  Quota_CPU : Z;
  Quota_Memory : text;
  Quota_Instances : Z;
  Quota_Volumes : Z;
  Quota_Storage : text
}.

#[export] Instance QuotaDecl_rebuild : Rebuild QuotaDecl := λ d,
  mkQuotaDecl (Quota_CPU d) (Quota_Memory d) (Quota_Instances d) (Quota_Volumes d) (Quota_Storage d).

Definition QuotaDecl_zero : QuotaDecl := mkQuotaDecl 0 [] 0 0 [].

Record TenantDecl := mkTenantDecl {
  Tenant_Name : text;
  Tenant_Quota : option QuotaDecl;
  Tenant_Weight : Z;
  Tenant_Line : Z
}.

#[export] Instance TenantDecl_rebuild : Rebuild TenantDecl := λ d,
  mkTenantDecl (Tenant_Name d) (Tenant_Quota d) (Tenant_Weight d) (Tenant_Line d).

Definition TenantDecl_zero : TenantDecl := mkTenantDecl [] None 0 0.

Record CloudIdentityDecl := mkCloudIdentityDecl {
  CloudIdentity_Name : text;
  CloudIdentity_Provider : text;
  CloudIdentity_Role : text;
  CloudIdentity_ServiceAccount : text;
  CloudIdentity_Pool : text;
  CloudIdentity_ClientID : text;
  CloudIdentity_TenantID : text;
  CloudIdentity_Line : Z
}.

#[export] Instance CloudIdentityDecl_rebuild : Rebuild CloudIdentityDecl := λ d,
  mkCloudIdentityDecl (CloudIdentity_Name d) (CloudIdentity_Provider d) (CloudIdentity_Role d) (CloudIdentity_ServiceAccount d)
    (CloudIdentity_Pool d) (CloudIdentity_ClientID d) (CloudIdentity_TenantID d) (CloudIdentity_Line d).

Definition CloudIdentityDecl_zero : CloudIdentityDecl := mkCloudIdentityDecl [] [] [] [] [] [] [] 0.

Record CredentialBrokerDecl := mkCredentialBrokerDecl {
  CredentialBroker_OIDCIssuer : text;
  CredentialBroker_CredentialTTL : text;
  CredentialBroker_RefreshBefore : text;
  CredentialBroker_Line : Z
}.

#[export] Instance CredentialBrokerDecl_rebuild : Rebuild CredentialBrokerDecl := λ d,
  mkCredentialBrokerDecl (CredentialBroker_OIDCIssuer d) (CredentialBroker_CredentialTTL d) (CredentialBroker_RefreshBefore d)
    (CredentialBroker_Line d).

Definition CredentialBrokerDecl_zero : CredentialBrokerDecl := mkCredentialBrokerDecl [] [] [] 0.

Record CloudDecl := mkCloudDecl {
  Cloud_Provider : text;
  Cloud_Region : text;
  Cloud_Credentials : text;
  Cloud_InstanceType : text;
  Cloud_ProjectID : text;
  Cloud_ResourceGroup : text;
  Cloud_VPCNetwork : text;
  Cloud_RouteTable : text;
  Cloud_Line : Z
}.

#[export] Instance CloudDecl_rebuild : Rebuild CloudDecl := λ d,
  mkCloudDecl (Cloud_Provider d) (Cloud_Region d) (Cloud_Credentials d) (Cloud_InstanceType d) (Cloud_ProjectID d) (Cloud_ResourceGroup d)
    (Cloud_VPCNetwork d) (Cloud_RouteTable d) (Cloud_Line d).

Definition CloudDecl_zero : CloudDecl := mkCloudDecl [] [] [] [] [] [] [] [] 0.

Record RoleDecl := mkRoleDecl {
  Role_Name : text;
  Role_Capabilities : list text;
  Role_Scopes : list text;
  Role_Line : Z
}.

#[export] Instance RoleDecl_rebuild : Rebuild RoleDecl := λ d,
  mkRoleDecl (Role_Name d) (Role_Capabilities d) (Role_Scopes d) (Role_Line d).

Definition RoleDecl_zero : RoleDecl := mkRoleDecl [] [] [] 0.

Record GrantDecl := mkGrantDecl {
  Grant_RoleName : text;
  Grant_PrincipalKind : text;
  Grant_PrincipalName : text;
  Grant_Line : Z
}.

#[export] Instance GrantDecl_rebuild : Rebuild GrantDecl := λ d,
  mkGrantDecl (Grant_RoleName d) (Grant_PrincipalKind d) (Grant_PrincipalName d) (Grant_Line d).

Definition GrantDecl_zero : GrantDecl := mkGrantDecl [] [] [] 0.

Record GroupDecl := mkGroupDecl {
  Group_Name : text;
  Group_Members : list text;
  Group_Line : Z
}.

#[export] Instance GroupDecl_rebuild : Rebuild GroupDecl := λ d,
  mkGroupDecl (Group_Name d) (Group_Members d) (Group_Line d).

Definition GroupDecl_zero : GroupDecl := mkGroupDecl [] [] 0.

Record ServiceGroupDecl := mkServiceGroupDecl {
  ServiceGroup_Name : text;
  ServiceGroup_Processes : list text;
  ServiceGroup_ShareNetwork : bool;
  ServiceGroup_SharedVolumes : list text;
  ServiceGroup_Line : Z
}.

#[export] Instance ServiceGroupDecl_rebuild : Rebuild ServiceGroupDecl := λ d,
  mkServiceGroupDecl (ServiceGroup_Name d) (ServiceGroup_Processes d) (ServiceGroup_ShareNetwork d) (ServiceGroup_SharedVolumes d)
    (ServiceGroup_Line d).

Definition ServiceGroupDecl_zero : ServiceGroupDecl := mkServiceGroupDecl [] [] false [] 0.

Record PolicyConditionDecl := mkPolicyConditionDecl {
  PolicyCondition_Field : text;
  PolicyCondition_Operator : text;
  PolicyCondition_Value : text;
  PolicyCondition_Line : Z
}.

#[export] Instance PolicyConditionDecl_rebuild : Rebuild PolicyConditionDecl := λ d,
  mkPolicyConditionDecl (PolicyCondition_Field d) (PolicyCondition_Operator d) (PolicyCondition_Value d) (PolicyCondition_Line d).

Definition PolicyConditionDecl_zero : PolicyConditionDecl := mkPolicyConditionDecl [] [] [] 0.

Record PolicyDecl := mkPolicyDecl {
  Policy_Name : text;
  Policy_Capability : text;
  Policy_Conditions : list PolicyConditionDecl;
  Policy_Line : Z
}.

#[export] Instance PolicyDecl_rebuild : Rebuild PolicyDecl := λ d,
  mkPolicyDecl (Policy_Name d) (Policy_Capability d) (Policy_Conditions d) (Policy_Line d).

Definition PolicyDecl_zero : PolicyDecl := mkPolicyDecl [] [] [] 0.

Record NetworkRuleDecl := mkNetworkRuleDecl {
  NetworkRule_Action : text;
  NetworkRule_Source : text;
  NetworkRule_Target : text;
  NetworkRule_Port : Z;
  NetworkRule_Line : Z
}.

#[export] Instance NetworkRuleDecl_rebuild : Rebuild NetworkRuleDecl := λ d,
  mkNetworkRuleDecl (NetworkRule_Action d) (NetworkRule_Source d) (NetworkRule_Target d) (NetworkRule_Port d) (NetworkRule_Line d).

Definition NetworkRuleDecl_zero : NetworkRuleDecl := mkNetworkRuleDecl [] [] [] 0 0.

Record NetworkDecl := mkNetworkDecl {
  Network_Rules : list NetworkRuleDecl;
  Network_Line : Z
}.

#[export] Instance NetworkDecl_rebuild : Rebuild NetworkDecl := λ d,
  mkNetworkDecl (Network_Rules d) (Network_Line d).

Definition NetworkDecl_zero : NetworkDecl := mkNetworkDecl [] 0.

Record RouteCookieSettings := mkRouteCookieSettings {
  RouteCookieSettings_Name : text;
  RouteCookieSettings_Secure : bool;
  RouteCookieSettings_HTTPOnly : bool;
  RouteCookieSettings_SameSite : text
}.

#[export] Instance RouteCookieSettings_rebuild : Rebuild RouteCookieSettings := λ d,
  mkRouteCookieSettings (RouteCookieSettings_Name d) (RouteCookieSettings_Secure d) (RouteCookieSettings_HTTPOnly d)
    (RouteCookieSettings_SameSite d).

Definition RouteCookieSettings_zero : RouteCookieSettings := mkRouteCookieSettings [] false false [].

Record RouteStickyDecl := mkRouteStickyDecl {
  RouteSticky_Method : text;
  RouteSticky_Cookie : option RouteCookieSettings
}.

#[export] Instance RouteStickyDecl_rebuild : Rebuild RouteStickyDecl := λ d,
  mkRouteStickyDecl (RouteSticky_Method d) (RouteSticky_Cookie d).

Definition RouteStickyDecl_zero : RouteStickyDecl := mkRouteStickyDecl [] None.

Record RouteTLSDecl := mkRouteTLSDecl {
  RouteTLS_Mode : text;
  RouteTLS_CertFile : text;
  RouteTLS_KeyFile : text;
  RouteTLS_CertPEM : text;
  RouteTLS_KeyPEM : text
}.

#[export] Instance RouteTLSDecl_rebuild : Rebuild RouteTLSDecl := λ d,
  mkRouteTLSDecl (RouteTLS_Mode d) (RouteTLS_CertFile d) (RouteTLS_KeyFile d) (RouteTLS_CertPEM d) (RouteTLS_KeyPEM d).

Definition RouteTLSDecl_zero : RouteTLSDecl := mkRouteTLSDecl [] [] [] [] [].

Record RouteDecl := mkRouteDecl {
  Route_Name : text;
  Route_Host : text;
  Route_Path : text;
  Route_ServiceName : text;
  Route_ServicePort : Z;
  Route_Sticky : option RouteStickyDecl;
  Route_TLS : option RouteTLSDecl;
  Route_Line : Z
}.

#[export] Instance RouteDecl_rebuild : Rebuild RouteDecl := λ d,
  mkRouteDecl (Route_Name d) (Route_Host d) (Route_Path d) (Route_ServiceName d) (Route_ServicePort d) (Route_Sticky d) (Route_TLS d)
    (Route_Line d).

Definition RouteDecl_zero : RouteDecl := mkRouteDecl [] [] [] [] 0 None None 0.

Record File := mkFile {
  File_Services : list ServiceDecl;
  File_Jobs : list JobDecl;
  File_CronJobs : list CronJobDecl;
  File_Volumes : list VolumeDecl;
  File_Connections : list ConnectionDecl;
  File_Tenants : list TenantDecl;
  File_CloudIdentities : list CloudIdentityDecl;
  File_CredentialBroker : option CredentialBrokerDecl;
  File_Cloud : option CloudDecl;
  File_Roles : list RoleDecl;
  File_Grants : list GrantDecl;
  File_Groups : list GroupDecl;
  File_ServiceGroups : list ServiceGroupDecl;
  File_Policies : list PolicyDecl;
  File_Networks : list NetworkDecl;
  File_Routes : list RouteDecl;
  File_BaseDir : text
}.

#[export] Instance File_rebuild : Rebuild File := λ d,
  mkFile (File_Services d) (File_Jobs d) (File_CronJobs d) (File_Volumes d) (File_Connections d) (File_Tenants d) (File_CloudIdentities d)
    (File_CredentialBroker d) (File_Cloud d) (File_Roles d) (File_Grants d) (File_Groups d) (File_ServiceGroups d) (File_Policies d)
    (File_Networks d) (File_Routes d) (File_BaseDir d).

Definition File_zero : File := mkFile [] [] [] [] [] [] [] None None [] [] [] [] [] [] [] [].

(** * The UTF-8 bytes of a text

    A Go string is bytes. The lexer's values are built from runes
    ([strings.Builder.WriteRune], [string(runes)]); as bytes they are the UTF-8
    encoding of those runes. *)

(** The bytes of [utf8.AppendRune]; U+FFFD for what is not a code point. *)
Definition encodeRune (c : rune) : list Z :=
  if between 0 127 c then [c]
  else if between 128 2047 c then [192 + c / 64; 128 + c mod 64]
  else if between 55296 57343 c || negb (between 0 1114111 c) then [239; 191; 189]
  else if c <=? 65535 then [224 + c / 4096; 128 + c / 64 mod 64; 128 + c mod 64]
  else [240 + c / 262144; 128 + c / 4096 mod 64; 128 + c / 64 mod 64; 128 + c mod 64].

Definition utf8 (v : list rune) : string := bytes (Z.to_nat <$> (v ≫= encodeRune)).

(** A rune of the ASCII range is its own byte. *)
Definition ascii_text (v : list rune) : Prop := Forall (λ c, 0 ≤ c < 128) v.

Lemma bytes_app l k : bytes (l ++ k) = bytes l +:+ bytes k.
Proof. induction l as [|n l IH]; [done|]. exact (f_equal (String (ascii_of_nat n)) IH). Qed.

Lemma utf8_app v w : utf8 (v ++ w) = utf8 v +:+ utf8 w.
Proof. unfold utf8. by rewrite bind_app, fmap_app, bytes_app. Qed.

Lemma runes_cons c s : runes (String c s) = Z.of_nat (nat_of_ascii c) :: runes s.
Proof. done. Qed.

Lemma runes_app s t : runes (s +:+ t) = runes s ++ runes t.
Proof. induction s as [|c s IH]; [done|]. exact (f_equal (cons (Z.of_nat (nat_of_ascii c))) IH). Qed.

(** The runes of a one-byte text give it back. *)
Lemma utf8_runes s : ascii_text (runes s) → utf8 (runes s) = s.
Proof.
  induction s as [|c s IH]; [done|]. rewrite runes_cons. intros [Hc Hs]%Forall_cons.
  change (?x :: ?l) with ([x] ++ l). rewrite utf8_app, IH by done.
  assert (utf8 [Z.of_nat (nat_of_ascii c)] = String c "") as ->; [|done].
  unfold utf8, encodeRune. simpl. unfold between. destruct (Z.leb_spec 0 (Z.of_nat (nat_of_ascii c))), (Z.leb_spec (Z.of_nat (nat_of_ascii c)) 127); try lia.
  simpl. by rewrite Nat2Z.id, ascii_nat_embedding.
Qed.
