(* ===== verification/ParserCore.v ===== *)
(** * The parser's state and helpers (src/lang/parser.go)

    The parser holds the tokens not yet read, the lines of the source and the name
    of the file. A parsing function is a step on that state: it returns a value or
    an error, with the state it has left, and [None] when a loop has not ended
    within the rounds it was given (which [ParserProps] shows never happens). *)

From S2P Require Import Prelude GoStrings Ast Lexer.

Local Open Scope Z_scope.

Record Parser := mkParser { remaining : list Token; parserLines : list text; fileName : text }.

Definition parse (A : Type) : Type := Parser → option ((ParseError + A) * Parser).

#[export] Instance parse_ret : MRet parse := λ A a parser, Some (inr a, parser).

#[export] Instance parse_bind : MBind parse := λ A B k m parser,
  match m parser with
  | Some (inr a, parser') => k a parser'
  | Some (inl err, parser') => Some (inl err, parser')
  | None => None
  end.

#[export] Instance parse_fmap : FMap parse := λ A B f m, a ← m; mret (f a).

#[warnings="-postfix-notation-not-level-1"]
Notation "d <| f ← p |>" := (v ← p; mret (update f v d))
  (at level 12, left associativity, f at level 9, p at level 200, only parsing).

(** [d.f = append(d.f, v)] *)
Definition addTo {R T} (f : R → list T) `{!Update f} (v : T) (d : R) : R := update f (f d ++ [v]) d.

#[warnings="-postfix-notation-not-level-1"]
Notation "d <| f +← p |>" := (v ← p; mret (addTo f v d))
  (at level 12, left associativity, f at level 9, p at level 200, only parsing).

(** ** Texts *)

Definition isWord (v : text) (word : string) : bool := bool_decide (v = runes word).

(** [switch value { case ...: default: }] *)
Fixpoint switch {A} (value : text) (cases : list (string * A)) (otherwise : A) : A :=
  match cases with
  | [] => otherwise
  | (word, branch) :: cases' => if isWord value word then branch else switch value cases' otherwise
  end.

(** A word between double quotes, in a message. *)
Definition inQuotes (word : string) : string := String (ascii_of_nat 34) (word +:+ String (ascii_of_nat 34) "").

(** [strconv.Atoi] *)
Definition AtoiText (v : text) : option Z := match Atoi (utf8 v) with (n, None) => Some n | (_, Some _) => None end.

(** ** Reading tokens *)

Definition tokenAt (parser : Parser) : Token :=
  match remaining parser with token :: _ => token | [] => mkToken TokenEOF [] 0 0 end.

Definition currentToken : parse Token := λ parser, Some (inr (tokenAt parser), parser).

Definition advanceToken : parse () := λ parser,
  Some (inr (), mkParser (drop 1 (remaining parser)) (parserLines parser) (fileName parser)).

Definition isAtEnd : parse bool := token ← currentToken; mret (bool_decide (TokenTyp token = TokenEOF)).

Definition currentTokenIs (tokenType : TokenType) : parse bool :=
  token ← currentToken; mret (bool_decide (TokenTyp token = tokenType)).

(** The current token is the given word. *)
Definition currentWordIs (word : string) : parse bool :=
  token ← currentToken; mret (bool_decide (TokenTyp token = TokenIdent) && isWord (TokenValue token) word).

Definition parserErrorf {A} (format : string) (args : list FormatArg) : parse A := λ parser,
  let token := tokenAt parser in
  Some (inl (mkParseError (fileName parser) (TokenLine token) (TokenCol token) (Sprintf format args)
                          (sourceLineAt (parserLines parser) (TokenLine token))), parser).

(** An error at a line and no column, without the name of the file. *)
Definition errorAtLine {A} (line : Z) (format : string) : parse A := λ parser,
  Some (inl (mkParseError [] line 0 (Sprintf format []) (sourceLineAt (parserLines parser) line)), parser).

Definition expectToken (tokenType : TokenType) : parse () :=
  token ← currentToken;
  if bool_decide (TokenTyp token = tokenType) then advanceToken
  else parserErrorf "expected %s, got %s %q" [ArgType tokenType; ArgType (TokenTyp token); ArgText (TokenValue token)].

Definition expectIdentifier : parse text :=
  token ← currentToken;
  if bool_decide (TokenTyp token = TokenIdent) then advanceToken;; mret (TokenValue token)
  else parserErrorf "expected identifier, got %s %q" [ArgType (TokenTyp token); ArgText (TokenValue token)].

Definition expectInteger : parse Z :=
  token ← currentToken;
  if bool_decide (TokenTyp token = TokenNumber) then
    advanceToken;;
    match AtoiText (TokenValue token) with
    | Some parsedValue => mret parsedValue
    | None => parserErrorf "invalid integer %q" [ArgText (TokenValue token)]
    end
  else parserErrorf "expected number, got %s %q" [ArgType (TokenTyp token); ArgText (TokenValue token)].

Fixpoint dropNewlines (tokens : list Token) : list Token :=
  match tokens with
  | token :: tokens' => if bool_decide (TokenTyp token = TokenNewline) then dropNewlines tokens' else tokens
  | [] => []
  end.

Definition skipNewlineTokens : parse () := λ parser,
  Some (inr (), mkParser (dropNewlines (remaining parser)) (parserLines parser) (fileName parser)).

Definition skipOptionalEquals : parse () :=
  equals ← currentTokenIs TokenEquals; if equals : bool then advanceToken else mret ().

Definition expectStringOrIdentifier : parse text :=
  token ← currentToken;
  if bool_decide (TokenTyp token = TokenString) then advanceToken;; mret (TokenValue token) else expectIdentifier.

(** The value of a token of one of the types, or the given message with the type found. *)
Definition expectOneOf (types : list TokenType) (format : string) (args : list FormatArg) : parse text :=
  token ← currentToken;
  if bool_decide (TokenTyp token ∈ types) then advanceToken;; mret (TokenValue token)
  else parserErrorf format (args ++ [ArgType (TokenTyp token)]).

(** A number or an identifier. *)
Definition expectValue (format : string) (args : list FormatArg) : parse text :=
  expectOneOf [TokenNumber; TokenIdent] format args.

Definition expectResourceValue : parse text :=
  token ← currentToken;
  if bool_decide (TokenTyp token ∈ [TokenNumber; TokenString; TokenIdent]) then advanceToken;; mret (TokenValue token)
  else parserErrorf "expected resource value, got %s %q" [ArgType (TokenTyp token); ArgText (TokenValue token)].

Definition expectBooleanValue : parse bool :=
  value ← expectIdentifier;
  switch value [("true", mret true); ("false", mret false)]
    (parserErrorf "expected true or false, got %q" [ArgText value]).

(** ** Loops *)

(** A loop whose body either goes on with a new state or ends with a result. *)
Fixpoint loopRounds {St B} (rounds : nat) (body : St → parse (St + B)) (s : St) : parse B :=
  match rounds with
  | 0%nat => λ _, None
  | S rounds' =>
      next ← body s;
      match next with
      | inl s' => loopRounds rounds' body s'
      | inr result => mret result
      end
  end.

(** Every round but the last reads a token. *)
Definition loop {St B} (body : St → parse (St + B)) (s : St) : parse B := λ parser,
  loopRounds (S (length (remaining parser))) body s parser.

Definition expectHierarchicalName : parse text :=
  firstSegment ← expectIdentifier;
  loop (λ name,
    more ← currentTokenIs TokenSlash;
    if more : bool then
      advanceToken;;
      nextSegment ← expectIdentifier;
      mret (inl (name ++ [slash] ++ nextSegment))
    else mret (inr name)) firstSegment.

Definition readMountPath : parse text :=
  token ← currentToken;
  if bool_decide (TokenTyp token = TokenString) then advanceToken;; mret (TokenValue token)
  else if bool_decide (TokenTyp token = TokenSlash) then
    loop (λ pathValue,
      more ← currentTokenIs TokenSlash;
      if more : bool then
        advanceToken;;
        segment ← currentToken;
        if bool_decide (TokenTyp segment ∈ [TokenIdent; TokenNumber]) then
          advanceToken;; mret (inl (pathValue ++ [slash] ++ TokenValue segment))
        else mret (inl (pathValue ++ [slash]))
      else mret (inr pathValue)) []
  else parserErrorf "expected mount path (quoted string or /path), got %s %q" [ArgType (TokenTyp token); ArgText (TokenValue token)].

(** A name and segments after tokens whose value is a slash. *)
Definition parseServicePath : parse text :=
  path ← expectOneOf [TokenIdent; TokenString] "expected service name, got %s" [];
  loop (λ path,
    token ← currentToken;
    if bool_decide (TokenValue token = [slash]) then
      advanceToken;;
      segment ← currentToken;
      if bool_decide (TokenTyp segment ∈ [TokenIdent; TokenString]) then
        advanceToken;; mret (inl (path ++ [slash] ++ TokenValue segment))
      else parserErrorf "expected service name segment after '/'" []
    else mret (inr path)) path.

(** ** Blocks *)

(** A round of the loop over the fields: up to the closing brace or the end of the file. *)
Definition nextField {D} (field : D → text → parse D) (d : D) : parse (D + D) :=
  closing ← currentTokenIs TokenRBrace;
  atEnd ← isAtEnd;
  if closing || atEnd then mret (inr d)
  else
    key ← expectIdentifier;
    d' ← field d key;
    skipNewlineTokens;;
    mret (inl d').

Definition fields {D} (field : D → text → parse D) (d : D) : parse D := loop (nextField field) d.

(** [{ field ... }], which every block of the language has. *)
Definition block {D} (field : D → text → parse D) (d : D) : parse D :=
  expectToken TokenLBrace;;
  skipNewlineTokens;;
  d' ← fields field d;
  expectToken TokenRBrace;;
  mret d'.

Definition unknownField {D} (format : string) (key : text) : parse D := parserErrorf format [ArgText key].
