(* ===== verification/Parser.v ===== *)
(** * Parsing configuration files (src/lang/parser.go)

    The blocks of a service, the other declarations, and parsing from the text of a file. *)

From S2P Require Import Prelude Ast Lexer ParserCore.

Local Open Scope Z_scope.

(** * Parsing service declarations (src/lang/parser.go)

    The blocks of a service, innermost first, and the dispatch of its fields. *)

(** ** Resources, health and probes *)

Definition parseResourcesField (d : ResourcesDecl) (key : text) : parse ResourcesDecl :=
  value ← expectValue "expected value for %s, got %s" [ArgText key];
  switch key [
    ("cpu", mret (d <| Resources_CPU := value |>));
    ("memory", mret (d <| Resources_Memory := value |>));
    ("cpu_limit", mret (d <| Resources_CPULimit := value |>));
    ("memory_limit", mret (d <| Resources_MemoryLimit := value |>))]
    (unknownField "unknown resource field %q" key).

Definition parseResourcesBlock : parse ResourcesDecl := block parseResourcesField ResourcesDecl_zero.

Definition parseHealthField (d : HealthDecl) (key : text) : parse HealthDecl :=
  switch key [
    ("http",
      let d := d <| Health_Method := runes "http" |> in
      slashed ← currentTokenIs TokenSlash;
      if slashed : bool then
        advanceToken;;
        token ← currentToken;
        if bool_decide (TokenTyp token ∈ [TokenIdent; TokenNumber]) then
          path ← expectIdentifier;
          mret (d <| Health_Path := [slash] ++ path |>)
        else mret (d <| Health_Path := [slash] |>)
      else mret d);
    ("tcp", mret (d <| Health_Method := runes "tcp" |>));
    ("every", d <| Health_Interval ← expectValue "expected interval value, got %s" [] |>);
    ("timeout", d <| Health_Timeout ← expectValue "expected timeout value, got %s" [] |>)]
    (unknownField "unknown health field %q" key).

Definition parseHealthBlock : parse HealthDecl := block parseHealthField HealthDecl_zero.

Definition parseProbeField (d : ProbeDecl) (key : text) : parse ProbeDecl :=
  switch key [
    ("http",
      let d := d <| Probe_Method := runes "http" |> in
      slashed ← currentTokenIs TokenSlash;
      if slashed : bool then
        advanceToken;;
        path ← expectIdentifier;
        mret (d <| Probe_Path := [slash] ++ path |>)
      else mret d);
    ("tcp", mret (d <| Probe_Method := runes "tcp" |>));
    ("exec",
      let d := d <| Probe_Method := runes "exec" |> in
      token ← currentToken;
      if bool_decide (TokenTyp token ∈ [TokenString; TokenIdent]) then
        advanceToken;; mret (d <| Probe_Path := TokenValue token |>)
      else mret d);
    ("port", d <| Probe_Port ← expectInteger |>);
    ("every", d <| Probe_Interval ← expectValue "expected interval value, got %s" [] |>);
    ("timeout", d <| Probe_Timeout ← expectValue "expected timeout value, got %s" [] |>);
    ("failure_threshold", d <| Probe_FailureThreshold ← expectInteger |>);
    ("success_threshold", d <| Probe_SuccessThreshold ← expectInteger |>);
    ("initial_delay", d <| Probe_InitialDelay ← expectValue "expected duration for initial_delay, got %s" [] |>)]
    (unknownField "unknown probe field %q" key).

Definition parseProbeBlock : parse ProbeDecl :=
  probeDecl ← block parseProbeField (ProbeDecl_zero <| Probe_FailureThreshold := 3 |> <| Probe_SuccessThreshold := 1 |>);
  if bool_decide (Probe_Method probeDecl = []) then parserErrorf "probe block requires a method (http, tcp, or exec)" []
  else mret probeDecl.

(** ** Scaling *)

(** Without a percent sign at the end. *)
Definition cleanedTarget (raw : text) : text :=
  match last raw with Some c => if c =? percent then take (length raw - 1) raw else raw | None => raw end.

Definition parseTargetValue (raw : text) : option Z := AtoiText (cleanedTarget raw).

Definition parseScaleTarget : parse ScaleTargetDecl :=
  metricName ← expectIdentifier;
  expectToken TokenEquals;;
  targetToken ← currentToken;
  if bool_decide (TokenTyp targetToken = TokenNumber) then
    advanceToken;;
    match parseTargetValue (TokenValue targetToken) with
    | Some targetValue => mret (mkScaleTargetDecl metricName targetValue)
    | None => parserErrorf "invalid target value %q: %v" [ArgText (TokenValue targetToken); ArgAtoiError (cleanedTarget (TokenValue targetToken))]
    end
  else parserErrorf "expected number for target value, got %s %q" [ArgType (TokenTyp targetToken); ArgText (TokenValue targetToken)].

Definition parseEventScaleEntry : parse EventScaleDecl :=
  sourceName ← expectIdentifier;
  expectToken TokenEquals;;
  targetValue ← expectInteger;
  mret (mkEventScaleDecl sourceName targetValue).

Definition parseScheduleField (d : ScheduleDecl) (key : text) : parse ScheduleDecl :=
  switch key [
    ("days", d <| Schedule_Days ← expectIdentifier |>);
    ("start", d <| Schedule_Start ← expectStringOrIdentifier |>);
    ("end", d <| Schedule_End ← expectStringOrIdentifier |>);
    ("minimum", d <| Schedule_Minimum ← expectInteger |>)]
    (unknownField "unknown schedule field %q" key).

Definition parseScheduleBlock : parse ScheduleDecl := block parseScheduleField ScheduleDecl_zero.

Definition parseStabilizationField (d : StabilizationDecl) (key : text) : parse StabilizationDecl :=
  switch key [
    ("scale_up", d <| Stabilization_ScaleUp ← expectValue "expected duration for scale_up, got %s" [] |>);
    ("scale_down", d <| Stabilization_ScaleDown ← expectValue "expected duration for scale_down, got %s" [] |>)]
    (unknownField "unknown stabilization field %q" key).

Definition parseStabilizationBlock : parse StabilizationDecl := block parseStabilizationField StabilizationDecl_zero.

Definition parseHorizontalScaleField (d : HorizontalScaleDecl) (key : text) : parse HorizontalScaleDecl :=
  switch key [
    ("min", d <| HorizontalScale_Min ← expectInteger |>);
    ("max", d <| HorizontalScale_Max ← expectInteger |>);
    ("target", d <| HorizontalScale_Targets +← parseScaleTarget |>);
    ("event", d <| HorizontalScale_Events +← parseEventScaleEntry |>);
    ("schedule", d <| HorizontalScale_Schedule ← Some <$> parseScheduleBlock |>);
    ("stabilization", d <| HorizontalScale_Stabilization ← Some <$> parseStabilizationBlock |>);
    ("idle_timeout", d <| HorizontalScale_IdleTimeout ← expectValue "expected duration for idle_timeout, got %s" [] |>);
    ("activation_timeout", d <| HorizontalScale_ActivationTimeout ← expectValue "expected duration for activation_timeout, got %s" [] |>)]
    (unknownField "unknown horizontal scale field %q" key).

Definition parseHorizontalScaleBlock : parse HorizontalScaleDecl := block parseHorizontalScaleField HorizontalScaleDecl_zero.

(** The minimum and the maximum. *)
Definition parseVerticalResourceField (resourceName : string) (bounds : text * text) (subKey : text) : parse (text * text) :=
  value ← expectValue "expected value for %s %s, got %s" [ArgText (runes resourceName); ArgText subKey];
  switch subKey [
    ("min", mret (value, snd bounds));
    ("max", mret (fst bounds, value))]
    (parserErrorf "unknown vertical %s field %q" [ArgText (runes resourceName); ArgText subKey]).

Definition parseVerticalResourceMinMax (resourceName : string) : parse (text * text) :=
  block (parseVerticalResourceField resourceName) ([], []).

Definition parseVerticalScaleField (d : VerticalScaleDecl) (key : text) : parse VerticalScaleDecl :=
  switch key [
    ("cpu",
      bounds ← parseVerticalResourceMinMax "cpu";
      mret (d <| VerticalScale_CPUMin := fst bounds |> <| VerticalScale_CPUMax := snd bounds |>));
    ("memory",
      bounds ← parseVerticalResourceMinMax "memory";
      mret (d <| VerticalScale_MemoryMin := fst bounds |> <| VerticalScale_MemoryMax := snd bounds |>))]
    (unknownField "unknown vertical scale field %q" key).

Definition parseVerticalScaleBlock : parse VerticalScaleDecl := block parseVerticalScaleField VerticalScaleDecl_zero.

Definition parseScaleField (d : ScaleDecl) (key : text) : parse ScaleDecl :=
  switch key [
    ("horizontal", d <| Scale_Horizontal ← Some <$> parseHorizontalScaleBlock |>);
    ("vertical", d <| Scale_Vertical ← Some <$> parseVerticalScaleBlock |>)]
    (unknownField "unknown scale field %q" key).

Definition parseScaleBlock : parse ScaleDecl := block parseScaleField ScaleDecl_zero.

(** ** Placement *)

Definition parsePlacementMatch : parse PlacementMatchDecl :=
  label ← expectIdentifier;
  expectToken TokenEquals;;
  value ← expectStringOrIdentifier;
  mret (mkPlacementMatchDecl label value).

Definition parsePlacementZone (d : PlacementDecl) : parse PlacementDecl :=
  zonePolicy ← expectIdentifier;
  let d := d <| Placement_ZonePolicy := zonePolicy |> in
  skewed ← currentWordIs "maxSkew";
  if isWord zonePolicy "spread" && skewed then
    advanceToken;;
    maxSkewValue ← expectInteger;
    if maxSkewValue <? 1 then parserErrorf "maxSkew must be >= 1, got %d" [ArgInt maxSkewValue]
    else mret (d <| Placement_ZoneMaxSkew := maxSkewValue |>)
  else mret d.

Definition parsePlacementMode (d : PlacementDecl) : parse PlacementDecl :=
  mode ← expectIdentifier;
  if isWord mode "per-node" then mret (d <| Placement_Mode := mode |>)
  else parserErrorf "unsupported placement mode %q (supported: per-node)" [ArgText mode].

Definition parsePlacementField (d : PlacementDecl) (key : text) : parse PlacementDecl :=
  switch key [
    ("architecture", d <| Placement_Architecture ← expectIdentifier |>);
    ("zone", parsePlacementZone d);
    ("require", d <| Placement_Require +← parsePlacementMatch |>);
    ("prefer", d <| Placement_Prefer +← parsePlacementMatch |>);
    ("accept", d <| Placement_Accept +← expectStringOrIdentifier |>);
    ("colocate", d <| Placement_Colocate +← expectStringOrIdentifier |>);
    ("separate", d <| Placement_Separate +← expectStringOrIdentifier |>);
    ("rebalance", d <| Placement_Rebalance ← expectBooleanValue |>);
    ("mode", parsePlacementMode d)]
    (unknownField "unknown placement field %q" key).

Definition parsePlacementBlock : parse PlacementDecl := block parsePlacementField PlacementDecl_zero.

(** ** Updates, disruption, logging, lifecycle and tags *)

Definition parseUpdateField (d : UpdateDecl) (key : text) : parse UpdateDecl :=
  switch key [
    ("max_unavailable", d <| Update_MaxUnavailable ← expectInteger |>);
    ("max_extra", d <| Update_MaxExtra ← expectInteger |>)]
    (unknownField "unknown update field %q" key).

Definition parseUpdateBlock : parse UpdateDecl := block parseUpdateField (mkUpdateDecl 1 1).

Definition parseDisruptionField (d : DisruptionDecl) (key : text) : parse DisruptionDecl :=
  switch key [
    ("min_available", d <| Disruption_MinAvailable ← expectInteger |>);
    ("max_unavailable", d <| Disruption_MaxUnavailable ← expectInteger |>)]
    (unknownField "unknown disruption field %q" key).

Definition parseDisruptionBlock : parse DisruptionDecl :=
  d ← block parseDisruptionField DisruptionDecl_zero;
  if (Disruption_MinAvailable d =? 0) && (Disruption_MaxUnavailable d =? 0) then
    parserErrorf "disruption block must set min_available or max_unavailable" []
  else if negb (Disruption_MinAvailable d =? 0) && negb (Disruption_MaxUnavailable d =? 0) then
    parserErrorf "disruption block must set only one of min_available or max_unavailable" []
  else mret d.

Definition parseLoggingField (d : LoggingDecl) (key : text) : parse LoggingDecl :=
  switch key [
    ("max_size", d <| Logging_MaxSize ← expectStringOrIdentifier |>);
    ("max_files", d <| Logging_MaxFiles ← expectInteger |>)]
    (unknownField "unknown logging field %q" key).

Definition parseLoggingBlock : parse LoggingDecl := block parseLoggingField LoggingDecl_zero.

Definition parseLifecycleField (d : LifecycleDecl) (key : text) : parse LifecycleDecl :=
  switch key [
    ("pre_stop", d <| Lifecycle_PreStop ← expectStringOrIdentifier |>);
    ("post_start", d <| Lifecycle_PostStart ← expectStringOrIdentifier |>)]
    (unknownField "unknown lifecycle field %q" key).

Definition parseLifecycleBlock : parse LifecycleDecl := block parseLifecycleField LifecycleDecl_zero.

Definition parseTag (tagDecls : list TagDecl) (tagKey : text) : parse (list TagDecl) :=
  tagValue ← expectStringOrIdentifier;
  mret (tagDecls ++ [mkTagDecl tagKey tagValue]).

Definition parseTagsBlock : parse (list TagDecl) :=
  tagDecls ← block parseTag [];
  if bool_decide (tagDecls = []) then parserErrorf "tags block must contain at least one tag" [] else mret tagDecls.

(** ** Configuration, initialization, secrets and connections *)

Definition parseEnvVar : parse EnvVarDecl :=
  envName ← expectStringOrIdentifier;
  skipOptionalEquals;;
  envValue ← expectStringOrIdentifier;
  mret (mkEnvVarDecl envName envValue).

Definition parseConfigFile : parse ConfigFileDecl :=
  filePath ← expectStringOrIdentifier;
  from ← currentWordIs "from";
  if from : bool then
    advanceToken;;
    localPath ← expectStringOrIdentifier;
    mret (ConfigFileDecl_zero <| ConfigFile_Path := filePath |> <| ConfigFile_FromFile := localPath |>)
  else
    skipOptionalEquals;;
    fileContent ← expectStringOrIdentifier;
    mret (ConfigFileDecl_zero <| ConfigFile_Path := filePath |> <| ConfigFile_Content := fileContent |>).

Definition parseConfigField (d : ConfigDecl) (key : text) : parse ConfigDecl :=
  switch key [
    ("env", d <| Config_EnvVars +← parseEnvVar |>);
    ("file", d <| Config_ConfigFiles +← parseConfigFile |>)]
    (unknownField "unknown config field %q" key).

Definition parseConfigBlock : parse ConfigDecl := block parseConfigField ConfigDecl_zero.

Definition parseInitStepField (d : InitStepDecl) (key : text) : parse InitStepDecl :=
  switch key [
    ("exec", d <| InitStep_Exec ← expectStringOrIdentifier |>);
    ("connection", d <| InitStep_Connection ← expectIdentifier |>);
    ("timeout", d <| InitStep_Timeout ← expectValue "expected duration for timeout, got %s" [] |>);
    ("retry", d <| InitStep_Retry ← expectInteger |>)]
    (unknownField "unknown init field %q" key).

Definition parseInitStepBlock : parse InitStepDecl :=
  d ← block parseInitStepField InitStepDecl_zero;
  if bool_decide (InitStep_Exec d = []) && bool_decide (InitStep_Connection d = []) then
    parserErrorf "init block requires an exec command or connection probe" []
  else if negb (bool_decide (InitStep_Exec d = [])) && negb (bool_decide (InitStep_Connection d = [])) then
    parserErrorf "init block cannot have both exec and connection" []
  else mret d.

(** A quoted mount path, if there is one. *)
Definition optionalMountPath (mountPath : text) : parse text :=
  token ← currentToken;
  if bool_decide (TokenTyp token = TokenString) then advanceToken;; mret (TokenValue token) else mret mountPath.

Definition parseSecretDeclaration : parse SecretDecl :=
  secretName ← expectIdentifier;
  mountPath ← optionalMountPath (runes "/run/secrets/" ++ secretName);
  mret (mkSecretDecl secretName mountPath).

Definition parseConnectionReference : parse ConnectionRef :=
  connectionName ← expectIdentifier;
  mountPath ← optionalMountPath (runes "/run/connections/" ++ connectionName);
  mret (mkConnectionRef connectionName mountPath).

Definition parseCloudIdentityBindingField (d : CloudIdentityBindingDecl) (key : text) : parse CloudIdentityBindingDecl :=
  switch key [
    ("mount_path", d <| CloudIdentityBinding_MountPath ← expectStringOrIdentifier |>);
    ("deliver", d <| CloudIdentityBinding_DeliverMode ← expectIdentifier |>)]
    (unknownField "unknown cloud_identity binding field %q" key).

Definition parseCloudIdentityBindingInService : parse CloudIdentityBindingDecl :=
  identityName ← expectIdentifier;
  block parseCloudIdentityBindingField
    (CloudIdentityBindingDecl_zero <| CloudIdentityBinding_IdentityName := identityName |>
                                   <| CloudIdentityBinding_DeliverMode := runes "credentials" |>).

Definition parseExposeExternal : parse ExternalPortDecl :=
  advanceToken;;
  port ← expectInteger;
  token ← currentToken;
  if bool_decide (TokenTyp token = TokenIdent) && (isWord (TokenValue token) "tcp" || isWord (TokenValue token) "http") then
    advanceToken;; mret (mkExternalPortDecl port (TokenValue token))
  else mret (mkExternalPortDecl port (runes "tcp")).

(** ** The service *)

Definition parseExpose (d : ServiceDecl) : parse ServiceDecl :=
  external ← currentWordIs "external";
  if external : bool then d <| Service_ExternalPorts +← parseExposeExternal |>
  else d <| Service_Ports +← expectInteger |>.

Definition parseVolumeMount : parse VolumeMountDecl :=
  volumeName ← expectIdentifier;
  mountPath ← readMountPath;
  mret (mkVolumeMountDecl volumeName mountPath).

Definition parsePriority (d : ServiceDecl) : parse ServiceDecl :=
  priority ← expectInteger;
  if (priority <? 0) || (1000 <? priority) then parserErrorf "priority must be 0–1000, got %d" [ArgInt priority]
  else mret (d <| Service_Priority := priority |>).

Definition parsePullPolicy (d : ServiceDecl) : parse ServiceDecl :=
  pullPolicy ← expectIdentifier;
  if isWord pullPolicy "always" || isWord pullPolicy "if_not_present" || isWord pullPolicy "never" then
    mret (d <| Service_PullPolicy := pullPolicy |>)
  else parserErrorf "invalid pull_policy %q (want always, if_not_present, or never)" [ArgText pullPolicy].

Definition parseServiceField (d : ServiceDecl) (fieldName : text) : parse ServiceDecl :=
  switch fieldName [
    ("image", d <| Service_Image ← expectStringOrIdentifier |>);
    ("command", d <| Service_Command ← expectStringOrIdentifier |>);
    ("instances", d <| Service_Instances ← expectInteger |>);
    ("expose", parseExpose d);
    ("resources", d <| Service_Resources ← Some <$> parseResourcesBlock |>);
    ("health", d <| Service_Health ← Some <$> parseHealthBlock |>);
    ("scale", d <| Service_Scale ← Some <$> parseScaleBlock |>);
    ("placement", d <| Service_Placement ← Some <$> parsePlacementBlock |>);
    ("update", d <| Service_Update ← Some <$> parseUpdateBlock |>);
    ("owner", d <| Service_Owner ← expectIdentifier |>);
    ("config", d <| Service_Config ← Some <$> parseConfigBlock |>);
    ("secret", d <| Service_Secrets +← parseSecretDeclaration |>);
    ("connection", d <| Service_Connections +← parseConnectionReference |>);
    ("startup", d <| Service_Startup ← Some <$> parseProbeBlock |>);
    ("liveness", d <| Service_Liveness ← Some <$> parseProbeBlock |>);
    ("readiness", d <| Service_Readiness ← Some <$> parseProbeBlock |>);
    ("init", d <| Service_InitSteps +← parseInitStepBlock |>);
    ("volume", d <| Service_VolumeMounts +← parseVolumeMount |>);
    ("priority", parsePriority d);
    ("stateful", mret (d <| Service_Stateful := true |>));
    ("legacy_secret_api", d <| Service_LegacySecretAPI ← expectBooleanValue |>);
    ("disruption", d <| Service_Disruption ← Some <$> parseDisruptionBlock |>);
    ("tags", tagDecls ← parseTagsBlock; mret (d <| Service_Tags := Service_Tags d ++ tagDecls |>));
    ("cloud_identity", d <| Service_CloudIdentities +← parseCloudIdentityBindingInService |>);
    ("pull_policy", parsePullPolicy d);
    ("image_pull_secret", d <| Service_ImagePullSecret ← expectStringOrIdentifier |>);
    ("logging", d <| Service_Logging ← Some <$> parseLoggingBlock |>);
    ("lifecycle", d <| Service_Lifecycle ← Some <$> parseLifecycleBlock |>);
    ("termination_grace_period",
      d <| Service_TerminationGracePeriod ← expectOneOf [TokenNumber; TokenIdent; TokenString] "expected duration value, got %s" [] |>)]
    (unknownField "unknown service field %q" fieldName).

Definition parseServiceDeclaration : parse ServiceDecl :=
  token ← currentToken;
  advanceToken;;
  name ← expectHierarchicalName;
  block parseServiceField (ServiceDecl_zero <| Service_Name := name |> <| Service_Line := TokenLine token |>).

(** * Parsing configuration files (src/lang/parser.go)

    The declarations other than services, the dispatch on their keywords, and
    parsing from the text of a file. *)

(** ** Jobs and volumes *)

Definition parseJobField (d : JobDecl) (fieldName : text) : parse JobDecl :=
  switch fieldName [
    ("image", d <| Job_Image ← expectStringOrIdentifier |>);
    ("command", d <| Job_Command ← expectStringOrIdentifier |>);
    ("completions", d <| Job_Completions ← expectInteger |>);
    ("parallelism", d <| Job_Parallelism ← expectInteger |>);
    ("backoff_limit", d <| Job_BackoffLimit ← expectInteger |>);
    ("image_pull_secret", d <| Job_ImagePullSecret ← expectStringOrIdentifier |>)]
    (unknownField "unknown job field %q" fieldName).

Definition parseJobDeclaration : parse JobDecl :=
  token ← currentToken;
  advanceToken;;
  jobName ← expectStringOrIdentifier;
  block parseJobField (JobDecl_zero <| Job_Name := jobName |> <| Job_Line := TokenLine token |>).

Definition parseCronJobField (d : CronJobDecl) (fieldName : text) : parse CronJobDecl :=
  switch fieldName [
    ("schedule", d <| CronJob_Schedule ← expectStringOrIdentifier |>);
    ("image", d <| CronJob_Image ← expectStringOrIdentifier |>);
    ("command", d <| CronJob_Command ← expectStringOrIdentifier |>);
    ("completions", d <| CronJob_Completions ← expectInteger |>);
    ("parallelism", d <| CronJob_Parallelism ← expectInteger |>);
    ("backoff_limit", d <| CronJob_BackoffLimit ← expectInteger |>)]
    (unknownField "unknown cronjob field %q" fieldName).

Definition parseCronJobDeclaration : parse CronJobDecl :=
  token ← currentToken;
  advanceToken;;
  name ← expectStringOrIdentifier;
  d ← block parseCronJobField (CronJobDecl_zero <| CronJob_Name := name |> <| CronJob_Line := TokenLine token |>);
  if bool_decide (CronJob_Schedule d = []) then parserErrorf "cronjob %q requires a schedule" [ArgText name]
  else if bool_decide (CronJob_Image d = []) then parserErrorf "cronjob %q requires an image" [ArgText name]
  else mret d.

Definition parseVolumeSize : parse text :=
  sizeToken ← currentToken;
  if bool_decide (TokenTyp sizeToken ∈ [TokenNumber; TokenIdent; TokenString]) then advanceToken;; mret (TokenValue sizeToken)
  else parserErrorf "expected size value, got %s %q" [ArgType (TokenTyp sizeToken); ArgText (TokenValue sizeToken)].

Definition parseVolumeType : parse text :=
  storageType ← expectIdentifier;
  if isWord storageType "local" || isWord storageType "nfs" then mret storageType
  else parserErrorf ("volume type must be " +:+ inQuotes "local" +:+ " or " +:+ inQuotes "nfs" +:+ ", got %q") [ArgText storageType].

Definition parseVolumeField (d : VolumeDecl) (key : text) : parse VolumeDecl :=
  switch key [
    ("size", d <| Volume_Size ← parseVolumeSize |>);
    ("persistent", value ← expectIdentifier; mret (d <| Volume_Persistent := isWord value "true" |>));
    ("type", d <| Volume_StorageType ← parseVolumeType |>)]
    (unknownField "unknown volume field %q" key).

Definition parseVolumeDeclaration : parse VolumeDecl :=
  token ← currentToken;
  advanceToken;;
  name ← expectIdentifier;
  block parseVolumeField (VolumeDecl_zero <| Volume_Name := name |> <| Volume_Line := TokenLine token |>).

(** ** Connections and tenants *)

Definition parseConnectionField (d : ConnectionDecl) (key : text) : parse ConnectionDecl :=
  switch key [
    ("driver", d <| Connection_Driver ← expectStringOrIdentifier |>);
    ("user", d <| Connection_User ← expectStringOrIdentifier |>);
    ("secret", d <| Connection_Secret ← expectIdentifier |>);
    ("host", d <| Connection_Host ← expectStringOrIdentifier |>);
    ("port", d <| Connection_Port ← expectInteger |>);
    ("database", d <| Connection_Database ← expectStringOrIdentifier |>)]
    (unknownField "unknown connection field %q" key).

Definition parseConnectionDeclaration : parse ConnectionDecl :=
  token ← currentToken;
  advanceToken;;
  connectionName ← expectIdentifier;
  d ← block parseConnectionField (ConnectionDecl_zero <| Connection_Name := connectionName |> <| Connection_Line := TokenLine token |>);
  if bool_decide (Connection_Driver d = []) then parserErrorf "connection %q requires a driver" [ArgText connectionName]
  else if bool_decide (Connection_Host d = []) then parserErrorf "connection %q requires a host" [ArgText connectionName]
  else mret d.

Definition parseQuotaField (d : QuotaDecl) (key : text) : parse QuotaDecl :=
  switch key [
    ("cpu", d <| Quota_CPU ← expectInteger |>);
    ("memory", d <| Quota_Memory ← expectResourceValue |>);
    ("instances", d <| Quota_Instances ← expectInteger |>);
    ("volumes", d <| Quota_Volumes ← expectInteger |>);
    ("storage", d <| Quota_Storage ← expectResourceValue |>)]
    (unknownField "unknown quota field %q" key).

Definition parseQuotaBlock : parse QuotaDecl := block parseQuotaField QuotaDecl_zero.

Definition parseTenantField (d : TenantDecl) (key : text) : parse TenantDecl :=
  switch key [
    ("quota", d <| Tenant_Quota ← Some <$> parseQuotaBlock |>);
    ("weight", d <| Tenant_Weight ← expectInteger |>)]
    (unknownField "unknown tenant field %q" key).

Definition parseTenantDeclaration : parse TenantDecl :=
  token ← currentToken;
  advanceToken;;
  name ← expectIdentifier;
  block parseTenantField (TenantDecl_zero <| Tenant_Name := name |> <| Tenant_Line := TokenLine token |>).

(** ** The cloud *)

Definition parseCloudIdentityField (d : CloudIdentityDecl) (key : text) : parse CloudIdentityDecl :=
  switch key [
    ("provider", d <| CloudIdentity_Provider ← expectIdentifier |>);
    ("role", d <| CloudIdentity_Role ← expectStringOrIdentifier |>);
    ("service_account", d <| CloudIdentity_ServiceAccount ← expectStringOrIdentifier |>);
    ("pool", d <| CloudIdentity_Pool ← expectStringOrIdentifier |>);
    ("client_id", d <| CloudIdentity_ClientID ← expectStringOrIdentifier |>);
    ("tenant_id", d <| CloudIdentity_TenantID ← expectStringOrIdentifier |>)]
    (unknownField "unknown cloud_identity field %q" key).

Definition parseCloudIdentityDeclaration : parse CloudIdentityDecl :=
  token ← currentToken;
  advanceToken;;
  name ← expectIdentifier;
  block parseCloudIdentityField (CloudIdentityDecl_zero <| CloudIdentity_Name := name |> <| CloudIdentity_Line := TokenLine token |>).

Definition parseCredentialBrokerField (d : CredentialBrokerDecl) (key : text) : parse CredentialBrokerDecl :=
  switch key [
    ("oidc_issuer", d <| CredentialBroker_OIDCIssuer ← expectStringOrIdentifier |>);
    ("credential_ttl", d <| CredentialBroker_CredentialTTL ← expectStringOrIdentifier |>);
    ("refresh_before", d <| CredentialBroker_RefreshBefore ← expectStringOrIdentifier |>)]
    (unknownField "unknown credential_broker field %q" key).

Definition parseCredentialBrokerDeclaration : parse CredentialBrokerDecl :=
  token ← currentToken;
  advanceToken;;
  block parseCredentialBrokerField (CredentialBrokerDecl_zero <| CredentialBroker_Line := TokenLine token |>).

Definition parseCloudField (d : CloudDecl) (key : text) : parse CloudDecl :=
  switch key [
    ("provider", d <| Cloud_Provider ← expectIdentifier |>);
    ("region", d <| Cloud_Region ← expectStringOrIdentifier |>);
    ("credentials", d <| Cloud_Credentials ← expectIdentifier |>);
    ("instance_type", d <| Cloud_InstanceType ← expectStringOrIdentifier |>);
    ("project_id", d <| Cloud_ProjectID ← expectStringOrIdentifier |>);
    ("resource_group", d <| Cloud_ResourceGroup ← expectStringOrIdentifier |>);
    ("vpc_network", d <| Cloud_VPCNetwork ← expectStringOrIdentifier |>);
    ("route_table", d <| Cloud_RouteTable ← expectStringOrIdentifier |>)]
    (unknownField "unknown cloud field %q" key).

Definition parseCloudDeclaration : parse CloudDecl :=
  token ← currentToken;
  advanceToken;;
  block parseCloudField (CloudDecl_zero <| Cloud_Line := TokenLine token |>).

(** ** Access control *)

Definition parseRoleField (d : RoleDecl) (key : text) : parse RoleDecl :=
  switch key [
    ("allow", d <| Role_Capabilities +← expectIdentifier |>);
    ("scope", d <| Role_Scopes +← expectHierarchicalName |>)]
    (unknownField "unknown role field %q" key).

Definition parseRoleDeclaration : parse RoleDecl :=
  token ← currentToken;
  advanceToken;;
  name ← expectIdentifier;
  block parseRoleField (RoleDecl_zero <| Role_Name := name |> <| Role_Line := TokenLine token |>).

Definition parseGrantStatement : parse GrantDecl :=
  token ← currentToken;
  advanceToken;;
  roleName ← expectIdentifier;
  toKeyword ← expectIdentifier;
  if isWord toKeyword "to" then
    principalKind ← expectIdentifier;
    principalName ← expectStringOrIdentifier;
    mret (mkGrantDecl roleName principalKind principalName (TokenLine token))
  else parserErrorf ("expected " +:+ inQuotes "to" +:+ " after role name, got %q") [ArgText toKeyword].

Definition parseGroupField (d : GroupDecl) (key : text) : parse GroupDecl :=
  switch key [("member", d <| Group_Members +← expectStringOrIdentifier |>)] (unknownField "unknown group field %q" key).

Definition parseGroupDeclaration : parse GroupDecl :=
  token ← currentToken;
  advanceToken;;
  name ← expectIdentifier;
  block parseGroupField (GroupDecl_zero <| Group_Name := name |> <| Group_Line := TokenLine token |>).

Fixpoint dropType (ty : TokenType) (tokens : list Token) : list Token :=
  match tokens with
  | token :: tokens' => if bool_decide (TokenTyp token = ty) then dropType ty tokens' else tokens
  | [] => []
  end.

(** What stands after the word, the name and the opening brace. *)
Definition isServiceGroupBlock : parse bool := λ parser,
  let peek := dropType TokenIdent (drop 1 (remaining parser)) in
  let peek := match peek with token :: peek' => if bool_decide (TokenTyp token = TokenLBrace) then peek' else peek | [] => [] end in
  let answer :=
    match dropType TokenNewline peek with
    | token :: _ => bool_decide (TokenTyp token = TokenIdent) && (isWord (TokenValue token) "process" || isWord (TokenValue token) "share")
    | [] => false
    end in
  Some (inr answer, parser).

Definition parseServiceGroupShareField (d : ServiceGroupDecl) : parse ServiceGroupDecl :=
  shareType ← expectIdentifier;
  switch shareType [
    ("network", mret (d <| ServiceGroup_ShareNetwork := true |>));
    ("volume", d <| ServiceGroup_SharedVolumes +← expectIdentifier |>)]
    (parserErrorf "unknown share type %q (expected network or volume)" [ArgText shareType]).

Definition parseServiceGroupField (d : ServiceGroupDecl) (keyword : text) : parse ServiceGroupDecl :=
  switch keyword [
    ("process", d <| ServiceGroup_Processes +← expectIdentifier |>);
    ("share", parseServiceGroupShareField d)]
    (unknownField "unknown service group field %q (expected process or share)" keyword).

Definition parseServiceGroupDeclaration : parse ServiceGroupDecl :=
  token ← currentToken;
  advanceToken;;
  groupName ← expectIdentifier;
  block parseServiceGroupField (ServiceGroupDecl_zero <| ServiceGroup_Name := groupName |> <| ServiceGroup_Line := TokenLine token |>).

Definition parsePolicyOperator : parse text :=
  token ← currentToken;
  match TokenTyp token with
  | TokenDoubleEquals => advanceToken;; mret (runes "==")
  | TokenNotEquals => advanceToken;; mret (runes "!=")
  | TokenIdent =>
      switch (TokenValue token) [
        ("in", advanceToken;; mret (runes "in"));
        ("not_in", advanceToken;; mret (runes "not_in"))]
        (parserErrorf "expected operator (==, !=, in, not_in), got %q" [ArgText (TokenValue token)])
  | ty => parserErrorf "expected operator (==, !=, in, not_in), got %s" [ArgType ty]
  end.

Definition parsePolicyCondition : parse PolicyConditionDecl :=
  token ← currentToken;
  fieldName ← expectIdentifier;
  operator ← parsePolicyOperator;
  conditionValue ← expectStringOrIdentifier;
  mret (mkPolicyConditionDecl fieldName operator conditionValue (TokenLine token)).

Definition parsePolicyField (d : PolicyDecl) (key : text) : parse PolicyDecl :=
  switch key [
    ("allow", d <| Policy_Capability ← expectIdentifier |>);
    ("when", d <| Policy_Conditions +← parsePolicyCondition |>)]
    (unknownField ("unknown policy field %q (expected " +:+ inQuotes "allow" +:+ " or " +:+ inQuotes "when" +:+ ")") key).

Definition parsePolicyDeclaration : parse PolicyDecl :=
  token ← currentToken;
  advanceToken;;
  name ← expectIdentifier;
  d ← block parsePolicyField (PolicyDecl_zero <| Policy_Name := name |> <| Policy_Line := TokenLine token |>);
  if bool_decide (Policy_Capability d = []) then
    errorAtLine (TokenLine token) ("policy must have an " +:+ inQuotes "allow" +:+ " clause")
  else mret d.

(** ** Network rules *)

(** Any error is replaced by one where the parser then stands. *)
Definition orElseError {A} (p : parse A) (format : string) : parse A := λ parser,
  match p parser with
  | Some (inl _, parser') => parserErrorf format [] parser'
  | result => result
  end.

Definition parseNetworkPort : parse Z :=
  restricted ← currentWordIs "port";
  if restricted : bool then
    advanceToken;;
    portToken ← currentToken;
    if bool_decide (TokenTyp portToken = TokenNumber) then
      match AtoiText (TokenValue portToken) with
      | Some parsedPort => advanceToken;; mret parsedPort
      | None => parserErrorf "invalid port number %q" [ArgText (TokenValue portToken)]
      end
    else parserErrorf "expected port number after 'port', got %q" [ArgText (TokenValue portToken)]
  else mret 0.

Definition parseNetworkRule : parse NetworkRuleDecl :=
  actionToken ← currentToken;
  if bool_decide (TokenTyp actionToken = TokenIdent) && (isWord (TokenValue actionToken) "allow" || isWord (TokenValue actionToken) "deny") then
    advanceToken;;
    sourceService ← orElseError parseServicePath "expected source service name";
    token ← currentToken;
    if bool_decide (TokenTyp token = TokenArrow) then
      advanceToken;;
      targetService ← orElseError parseServicePath "expected target service name";
      port ← parseNetworkPort;
      mret (mkNetworkRuleDecl (TokenValue actionToken) sourceService targetService port (TokenLine actionToken))
    else parserErrorf "expected '->' arrow, got %q" [ArgText (TokenValue token)]
  else parserErrorf "expected 'allow' or 'deny', got %q" [ArgText (TokenValue actionToken)].

Definition nextNetworkRule (d : NetworkDecl) : parse (NetworkDecl + NetworkDecl) :=
  token ← currentToken;
  if bool_decide (TokenTyp token ∈ [TokenRBrace; TokenEOF]) then mret (inr d)
  else
    d' ← d <| Network_Rules +← parseNetworkRule |>;
    skipNewlineTokens;;
    mret (inl d').

Definition parseNetworkDeclaration : parse NetworkDecl :=
  token ← currentToken;
  advanceToken;;
  expectToken TokenLBrace;;
  skipNewlineTokens;;
  d ← loop nextNetworkRule (NetworkDecl_zero <| Network_Line := TokenLine token |>);
  expectToken TokenRBrace;;
  mret d.

(** ** Gates *)

Definition parseRouteCookieField (d : RouteCookieSettings) (fieldName : text) : parse RouteCookieSettings :=
  switch fieldName [
    ("name", d <| RouteCookieSettings_Name ← expectStringOrIdentifier |>);
    ("secure", d <| RouteCookieSettings_Secure ← expectBooleanValue |>);
    ("http-only", d <| RouteCookieSettings_HTTPOnly ← expectBooleanValue |>);
    ("same-site", d <| RouteCookieSettings_SameSite ← expectStringOrIdentifier |>)]
    (unknownField "unknown cookie field %q" fieldName).

Definition parseRouteCookieSettings : parse RouteCookieSettings := block parseRouteCookieField RouteCookieSettings_zero.

Definition parseRouteStickyDeclaration : parse RouteStickyDecl :=
  methodToken ← expectIdentifier;
  let stickyDecl := RouteStickyDecl_zero <| RouteSticky_Method := methodToken |> in
  switch methodToken [
    ("cookie",
      settings ← currentTokenIs TokenLBrace;
      if settings : bool then stickyDecl <| RouteSticky_Cookie ← Some <$> parseRouteCookieSettings |> else mret stickyDecl);
    ("source-ip", mret stickyDecl)]
    (parserErrorf "unknown sticky method %q (expected cookie or source-ip)" [ArgText methodToken]).

Definition RouteTLSModeAuto : text := runes "auto".
Definition RouteTLSModeManual : text := runes "manual".

Definition parseRouteTLSField (d : RouteTLSDecl) (fieldName : text) : parse RouteTLSDecl :=
  switch fieldName [
    ("mode",
      modeValue ← expectStringOrIdentifier;
      if bool_decide (modeValue = RouteTLSModeAuto) then mret (d <| RouteTLS_Mode := modeValue |>)
      else parserErrorf "unknown tls mode %q (expected auto)" [ArgText modeValue]);
    ("cert", d <| RouteTLS_CertFile ← expectStringOrIdentifier |>);
    ("key", d <| RouteTLS_KeyFile ← expectStringOrIdentifier |>)]
    (unknownField "unknown tls field %q" fieldName).

Definition checkRouteTLS (d : RouteTLSDecl) : parse RouteTLSDecl :=
  let noMode := bool_decide (RouteTLS_Mode d = []) in
  let noCert := bool_decide (RouteTLS_CertFile d = []) in
  let noKey := bool_decide (RouteTLS_KeyFile d = []) in
  if bool_decide (RouteTLS_Mode d = RouteTLSModeAuto) && (negb noCert || negb noKey) then
    parserErrorf "tls mode auto cannot specify cert or key files" []
  else if noMode && noCert && noKey then parserErrorf "tls block requires mode auto or cert/key file paths" []
  else if negb noCert && noKey then parserErrorf "tls cert requires a corresponding key" []
  else if negb noKey && noCert then parserErrorf "tls key requires a corresponding cert" []
  else if noMode then mret (d <| RouteTLS_Mode := RouteTLSModeManual |>)
  else mret d.

Definition parseRouteTLSDeclaration : parse RouteTLSDecl :=
  automatic ← currentWordIs "auto";
  if automatic : bool then
    advanceToken;; mret (RouteTLSDecl_zero <| RouteTLS_Mode := RouteTLSModeAuto |>)
  else
    d ← block parseRouteTLSField RouteTLSDecl_zero;
    checkRouteTLS d.

Definition parseRouteService (d : RouteDecl) : parse RouteDecl :=
  serviceName ← expectIdentifier;
  let d := d <| Route_ServiceName := serviceName |> in
  ported ← currentWordIs "port";
  if ported : bool then advanceToken;; d <| Route_ServicePort ← expectInteger |> else mret d.

Definition parseRouteField (d : RouteDecl) (fieldName : text) : parse RouteDecl :=
  switch fieldName [
    ("host", d <| Route_Host ← expectStringOrIdentifier |>);
    ("path", d <| Route_Path ← expectStringOrIdentifier |>);
    ("service", parseRouteService d);
    ("sticky", d <| Route_Sticky ← Some <$> parseRouteStickyDeclaration |>);
    ("tls", d <| Route_TLS ← Some <$> parseRouteTLSDeclaration |>)]
    (unknownField "unknown route field %q" fieldName).

Definition parseRouteDeclaration : parse RouteDecl :=
  token ← currentToken;
  advanceToken;;
  routeName ← expectIdentifier;
  d ← block parseRouteField (RouteDecl_zero <| Route_Name := routeName |> <| Route_Line := TokenLine token |>);
  if bool_decide (Route_ServiceName d = []) then errorAtLine (TokenLine token) "route must specify a target service"
  else if bool_decide (is_Some (Route_TLS d)) && bool_decide (Route_Host d = []) then
    errorAtLine (TokenLine token) "gate with tls requires a host"
  else mret d.

(** ** Files *)

Definition parseAnyGroup (file : File) : parse File :=
  ofServices ← isServiceGroupBlock;
  if ofServices : bool then file <| File_ServiceGroups +← parseServiceGroupDeclaration |>
  else file <| File_Groups +← parseGroupDeclaration |>.

Definition parseDeclaration (file : File) (keyword : text) : parse File :=
  switch keyword [
    ("service", file <| File_Services +← parseServiceDeclaration |>);
    ("volume", file <| File_Volumes +← parseVolumeDeclaration |>);
    ("tenant", file <| File_Tenants +← parseTenantDeclaration |>);
    ("cloud_identity", file <| File_CloudIdentities +← parseCloudIdentityDeclaration |>);
    ("credential_broker", file <| File_CredentialBroker ← Some <$> parseCredentialBrokerDeclaration |>);
    ("cloud", file <| File_Cloud ← Some <$> parseCloudDeclaration |>);
    ("role", file <| File_Roles +← parseRoleDeclaration |>);
    ("grant", file <| File_Grants +← parseGrantStatement |>);
    ("group", parseAnyGroup file);
    ("policy", file <| File_Policies +← parsePolicyDeclaration |>);
    ("network", file <| File_Networks +← parseNetworkDeclaration |>);
    ("connection", file <| File_Connections +← parseConnectionDeclaration |>);
    ("gate", file <| File_Routes +← parseRouteDeclaration |>);
    ("job", file <| File_Jobs +← parseJobDeclaration |>);
    ("cronjob", file <| File_CronJobs +← parseCronJobDeclaration |>)]
    (parserErrorf "unknown declaration %q" [ArgText keyword]).

Definition nextDeclaration (file : File) : parse (File + File) :=
  atEnd ← isAtEnd;
  if atEnd : bool then mret (inr file)
  else
    token ← currentToken;
    if bool_decide (TokenTyp token = TokenIdent) then
      file' ← parseDeclaration file (TokenValue token);
      skipNewlineTokens;;
      mret (inl file')
    else parserErrorf "expected declaration keyword, got %s %q" [ArgType (TokenTyp token); ArgText (TokenValue token)].

Definition ParseFile : parse File := skipNewlineTokens;; loop nextDeclaration File_zero.

Definition NewParser (tokens : list Token) : Parser := mkParser tokens [] [].

Section lexed.
Context `{Unicode}.

(** [None] is a loop of the lexer or the parser that has not ended. *)
Definition ParseWithFileName (input fileName : text) : option (ParseError + File) :=
  lexed ← Tokenize input;
  match lexed with
  | inl lexerError => Some (inl lexerError)
  | inr tokens => fst <$> ParseFile (mkParser tokens (splitSourceLines input) fileName)
  end.

Definition Parse (input : text) : option (ParseError + File) :=
  lexed ← Tokenize input;
  match lexed with
  | inl lexerError => Some (inl lexerError)
  | inr tokens =>
      let parser := NewParser tokens in
      fst <$> ParseFile (mkParser (remaining parser) (splitSourceLines input) (fileName parser))
  end.

End lexed.
