(* ===== verification/ParserProps.v ===== *)
(** * What parsing guarantees

    A program logic for parsing functions, then the theorems about whole files. *)

From S2P Require Import Prelude Ast Lexer ParserCore GoStrings LexerProps Parser.

Local Open Scope Z_scope.

(** * Reasoning about the parser

    Weakest preconditions for parsing functions over the tokens of one file: a
    function returns (no loop runs out of rounds), reads no token twice and never
    past the end of the file, and what it reports is at one of the tokens. Each
    function then has one lemma ([parses] or [reads]), and the tactic [parsing]
    steps through a body with the lemmas of the functions it calls. *)

Create HintDb parser.

(** A file as the parser gets it. The last token, and no other, is its end. *)
Record Source := mkSource {
  allTokens : list Token;
  lines : list text;
  file : text;
  last_eof : ∃ before eof, allTokens = before ++ [eof] ∧ TokenTyp eof = TokenEOF ∧ TokenValue eof = [] ∧
    Forall (λ t, TokenTyp t ≠ TokenEOF) before
}.

Section logic.
Context (src : Source).

(** The parser stands at some token of the file. *)
Record ok (p : Parser) : Prop := {
  ok_tokens : ∃ read, allTokens src = read ++ remaining p ∧ remaining p ≠ [];
  ok_lines : parserLines p = lines src;
  ok_file : fileName p = file src
}.

(** An error at a token of the file: at its line and column, or at its line only. *)
Definition reported (err : ParseError) : Prop :=
  ∃ t, t ∈ allTokens src ∧ ErrorLine err = TokenLine t ∧ SourceLine err = sourceLineAt (lines src) (TokenLine t) ∧
    (ErrorCol err = TokenCol t ∧ ErrorFile err = file src ∨ ErrorCol err = 0 ∧ ErrorFile err = []).

Definition left (p : Parser) : nat := length (remaining p).

Definition wp {A} (m : parse A) (Q : A → Parser → Prop) (p : Parser) : Prop :=
  match m p with
  | Some (inr a, p') => ok p' ∧ Q a p'
  | Some (inl err, p') => ok p' ∧ reported err
  | None => False
  end.

(** From any token: the result satisfies [post], and tokens were read, at least one
    with [reads]. *)
Definition parses {A} (m : parse A) (post : A → Prop) : Prop :=
  ∀ p, ok p → wp m (λ a p', (left p' ≤ left p)%nat ∧ post a) p.

Definition reads {A} (m : parse A) (post : A → Prop) : Prop :=
  ∀ p, ok p → wp m (λ a p', (left p' < left p)%nat ∧ post a) p.

Lemma wp_mono {A} (m : parse A) (Q R : A → Parser → Prop) p :
  wp m Q p → (∀ a p', ok p' → Q a p' → R a p') → wp m R p.
Proof. unfold wp. intros Hm HQ. destruct (m p) as [[[err|a] p']|]; [done| |done]. destruct Hm. auto. Qed.

Lemma wp_ret {A} (a : A) Q p : ok p → Q a p → wp (mret a) Q p.
Proof. done. Qed.

Lemma wp_bind {A B} (m : parse A) (k : A → parse B) Q p : wp m (λ a p', wp (k a) Q p') p → wp (m ≫= k) Q p.
Proof. unfold wp, mbind, parse_bind. destruct (m p) as [[[err|a] p']|]; [done| |done]. by intros [_ H]. Qed.

Lemma wp_fmap {A B} (f : A → B) (m : parse A) Q p : wp m (λ a p', Q (f a) p') p → wp (f <$> m) Q p.
Proof. intros Hm. apply wp_bind. eapply wp_mono; [exact Hm|]. intros a p' Hp Ha. by apply wp_ret. Qed.

Lemma wp_parses {A} (m : parse A) post Q p :
  parses m post → ok p → (∀ a p', ok p' → (left p' ≤ left p)%nat → post a → Q a p') → wp m Q p.
Proof. intros Hm Hp HQ. eapply wp_mono; [by apply Hm|]. intros a p' Hp' []. auto. Qed.

Lemma wp_reads {A} (m : parse A) post Q p :
  reads m post → ok p → (∀ a p', ok p' → (left p' < left p)%nat → post a → Q a p') → wp m Q p.
Proof. intros Hm Hp HQ. eapply wp_mono; [by apply Hm|]. intros a p' Hp' []. auto. Qed.

Lemma wp_if {A} (b : bool) (m1 m2 : parse A) Q p :
  (b = true → wp m1 Q p) → (b = false → wp m2 Q p) → wp (if b then m1 else m2) Q p.
Proof. destruct b; auto. Qed.

Lemma wp_switch {A} (v : text) (cases : list (string * parse A)) (otherwise : parse A) Q p :
  Forall (λ c, v = runes (fst c) → wp (snd c) Q p) cases → wp otherwise Q p → wp (switch v cases otherwise) Q p.
Proof.
  intros Hc Ho. induction Hc as [|[word m] cases Hm _ IH]; simpl; [done|]. unfold isWord. case_bool_decide; [by apply Hm|done].
Qed.

(** ** Tokens *)

Lemma tokenAt_in p : ok p → tokenAt p ∈ allTokens src.
Proof.
  intros [(read & E & Hne) _ _]. rewrite E. unfold tokenAt. destruct (remaining p) as [|t rest]; [done|].
  apply elem_of_app. right. apply list_elem_of_here.
Qed.

(** The end of the file has no value. *)
Lemma eof_value t : t ∈ allTokens src → TokenTyp t = TokenEOF → TokenValue t = [].
Proof.
  destruct (last_eof src) as (before & eof & -> & He & Hv & Hb). intros [Ht|Ht]%elem_of_app Hty.
  - rewrite Forall_forall in Hb. by destruct (Hb t Ht).
  - by apply list_elem_of_singleton in Ht as ->.
Qed.

Lemma wp_currentToken Q p : ok p → (tokenAt p ∈ allTokens src → Q (tokenAt p) p) → wp currentToken Q p.
Proof. intros Hp HQ. split; [done|]. by apply HQ, tokenAt_in. Qed.

(** Only the last token of the file is its end. *)
Lemma ok_advance p :
  ok p → TokenTyp (tokenAt p) ≠ TokenEOF → let p' := mkParser (drop 1 (remaining p)) (parserLines p) (fileName p) in ok p' ∧ (left p' < left p)%nat.
Proof.
  destruct (last_eof src) as (before & eof & Eall & He & Hv & Hb). intros [(read & E & Hne) Hl Hf] Hty. unfold tokenAt, left in *. simpl.
  destruct (remaining p) as [|t rest]; [done|]. simpl. rewrite drop_0. split; [|lia]. split; [|done|done].
  exists (read ++ [t]). simpl. split; [by rewrite <-app_assoc|]. intros ->. destruct Hty. rewrite Eall in E.
  apply app_inj_tail in E as [_ <-]. done.
Qed.

Lemma wp_advance Q p :
  ok p → TokenTyp (tokenAt p) ≠ TokenEOF → (∀ p', ok p' → (left p' < left p)%nat → Q () p') → wp advanceToken Q p.
Proof. intros Hp Hty HQ. destruct (ok_advance p Hp Hty) as [H1 H2]. split; [done|]. auto. Qed.

Lemma wp_parserErrorf {A} format args (Q : A → Parser → Prop) p : ok p → wp (parserErrorf format args) Q p.
Proof.
  intros Hp. split; [done|]. exists (tokenAt p). simpl. rewrite (ok_lines _ Hp), (ok_file _ Hp).
  split_and!; [by apply tokenAt_in|done|done|by left].
Qed.

Lemma wp_errorAtLine {A} t format (Q : A → Parser → Prop) p : ok p → t ∈ allTokens src → wp (errorAtLine (TokenLine t) format) Q p.
Proof. intros Hp Ht. split; [done|]. exists t. simpl. rewrite (ok_lines _ Hp). split_and!; [done|done|done|by right]. Qed.

Lemma wp_currentTokenIs ty Q p : ok p → Q (bool_decide (TokenTyp (tokenAt p) = ty)) p → wp (currentTokenIs ty) Q p.
Proof. done. Qed.

Lemma wp_isAtEnd Q p : ok p → Q (bool_decide (TokenTyp (tokenAt p) = TokenEOF)) p → wp isAtEnd Q p.
Proof. done. Qed.

Lemma wp_currentWordIs word Q p :
  ok p → Q (bool_decide (TokenTyp (tokenAt p) = TokenIdent) && isWord (TokenValue (tokenAt p)) word) p → wp (currentWordIs word) Q p.
Proof. done. Qed.

Lemma dropNewlines_suffix ts : ∃ read, ts = read ++ dropNewlines ts ∧ Forall (λ t, TokenTyp t = TokenNewline) read.
Proof.
  induction ts as [|t ts (read & E & Hr)]; simpl; [by exists []|]. case_bool_decide; [|by exists []].
  exists (t :: read). simpl. rewrite <-E. split; [done|by constructor].
Qed.

Lemma skipNewlineTokens_parses : parses skipNewlineTokens (λ _, True).
Proof.
  destruct (last_eof src) as (before & eof & Eall & He & Hv & Hb). intros p [(read & E & Hne) Hl Hf]. unfold wp, skipNewlineTokens, left. simpl.
  destruct (dropNewlines_suffix (remaining p)) as (nl & En & Hnl). split; [|split; [|done]].
  - split; [|done|done]. exists (read ++ nl). simpl. rewrite <-app_assoc, <-En. split; [done|]. intros E0. rewrite E0, app_nil_r in En.
    rewrite Eall, En in E. destruct nl as [|t nl _] using rev_ind; [done|].
    rewrite app_assoc in E. apply app_inj_tail in E as [_ <-]. apply Forall_app in Hnl as [_ Ht]. inversion_clear Ht. congruence.
  - rewrite En at 2. rewrite length_app. lia.
Qed.

(** ** Loops *)

Lemma wp_loopRounds {St B} (body : St → parse (St + B)) (I : St → Prop) (post : B → Prop) rounds s p :
  (∀ s p, ok p → I s →
    wp (body s) (λ r p', match r with inl s' => I s' ∧ (left p' < left p)%nat | inr b => post b ∧ (left p' ≤ left p)%nat end) p) →
  I s → ok p → (left p < rounds)%nat → wp (loopRounds rounds body s) (λ b p', (left p' ≤ left p)%nat ∧ post b) p.
Proof.
  intros Hbody. revert s p. induction rounds as [|rounds IH]; intros s p Hs Hp Hr; [lia|]. simpl. apply wp_bind.
  eapply wp_mono; [by apply Hbody|]. intros [s'|b] p' Hp' [H1 H2]; [|by apply wp_ret].
  eapply wp_mono; [apply IH; [done|done|lia]|]. intros b p2 _ [H3 H4]. split; [lia|done].
Qed.

Lemma wp_loop {St B} (body : St → parse (St + B)) (I : St → Prop) (post : B → Prop) s p :
  (∀ s p, ok p → I s →
    wp (body s) (λ r p', match r with inl s' => I s' ∧ (left p' < left p)%nat | inr b => post b ∧ (left p' ≤ left p)%nat end) p) →
  I s → ok p → wp (loop body s) (λ b p', (left p' ≤ left p)%nat ∧ post b) p.
Proof. intros Hbody Hs Hp. change (wp (loopRounds (S (left p)) body s) (λ b p', (left p' ≤ left p)%nat ∧ post b) p). by eapply wp_loopRounds; eauto. Qed.

(** The fields of a block keep what holds of the record built so far. *)
Lemma wp_block {D} (field : D → text → parse D) (I : D → Prop) d :
  (∀ d key, I d → parses (field d key) I) → I d → reads (block field d) I.
Proof.
  intros Hfield Hd p Hp. unfold block. apply wp_bind. unfold expectToken. apply wp_bind, wp_currentToken; [done|]. intros _.
  apply wp_if; intros Hb; [|by apply wp_parserErrorf]. apply bool_decide_eq_true in Hb. apply wp_advance; [done|congruence|]. intros p1 Hp1 L1.
  apply wp_bind. eapply wp_parses; [apply skipNewlineTokens_parses|done|]. intros _ p2 Hp2 L2 _. apply wp_bind.
  eapply wp_mono; [apply (wp_loop _ I I); [|done|done]|].
  - intros d1 q Hq Hd1. unfold nextField. apply wp_bind, wp_currentTokenIs; [done|]. apply wp_bind, wp_isAtEnd; [done|]. apply wp_if; intros _; [by apply wp_ret|].
    apply wp_bind. unfold expectIdentifier. apply wp_bind, wp_currentToken; [done|]. intros _. apply wp_if; intros Hi; [|by apply wp_parserErrorf].
    apply bool_decide_eq_true in Hi. apply wp_bind, wp_advance; [done|congruence|]. intros q1 Hq1 M1. apply wp_ret; [done|]. apply wp_bind.
    eapply wp_parses; [by apply Hfield|done|]. intros d2 q2 Hq2 M2 Hd2. apply wp_bind. eapply wp_parses; [apply skipNewlineTokens_parses|done|].
    intros _ q3 Hq3 M3 _. apply wp_ret; [done|]. split; [done|lia].
  - intros d1 p3 Hp3 [L3 Hd1]. apply wp_bind, wp_bind, wp_currentToken; [done|]. intros _. apply wp_if; intros Hr; [|by apply wp_parserErrorf].
    apply bool_decide_eq_true in Hr. apply wp_advance; [done|congruence|]. intros p4 Hp4 L4. apply wp_ret; [done|]. split; [lia|done].
Qed.

End logic.

Arguments wp {src A} m Q p.
Arguments parses src {A} m post.
Arguments reads src {A} m post.

#[export] Hint Resolve skipNewlineTokens_parses : parser.

(** The current token is not the end of the file. *)
Ltac not_eof :=
  let Heof := fresh in
  intros Heof; boolprop; rewrite ?Heof in *; first [congruence|set_solver].

Ltac head_of t := lazymatch t with ?f _ => head_of f | _ => t end.

(** One step of a parsing function, with the lemmas of the functions it calls. *)
Ltac parse_step :=
  lazymatch goal with
  | |- wp (mret _) _ _ => apply wp_ret; [assumption|]
  | |- wp (_ ≫= _) _ _ => apply wp_bind
  | |- wp (_ <$> _) _ _ => apply wp_fmap
  | |- wp currentToken _ _ => apply wp_currentToken; [assumption|intros ?]
  | |- wp (parserErrorf _ _) _ _ => apply wp_parserErrorf; assumption
  | |- wp (unknownField _ _) _ _ => apply wp_parserErrorf; assumption
  | |- wp (errorAtLine _ _) _ _ => apply wp_errorAtLine; assumption
  | |- wp (currentTokenIs _) _ _ => apply wp_currentTokenIs; [assumption|]
  | |- wp (currentWordIs _) _ _ => apply wp_currentWordIs; [assumption|]
  | |- wp isAtEnd _ _ => apply wp_isAtEnd; [assumption|]
  | |- wp advanceToken _ _ => apply wp_advance; [assumption|not_eof|intros ? ? ?]
  | |- wp (switch _ _ _) _ _ =>
      apply wp_switch; [repeat (apply Forall_cons; split; [cbn [fst snd]; intros ?|]); [..|apply Forall_nil_2]|]
  | |- wp (if _ then _ else _) _ _ => apply wp_if; intros ?
  | |- wp (match ?x with _ => _ end) _ _ => destruct x eqn:?
  | |- wp (block _ _) _ _ => fail
  | |- wp (loop _ _) _ _ => fail
  | |- wp (let _ := _ in _) _ _ => cbv zeta
  | |- wp ?m _ _ =>
      first [eapply wp_reads; [solve [eauto with parser]|assumption|intros ? ? ? ? ?]
            |eapply wp_parses; [solve [eauto with parser]|assumption|intros ? ? ? ? ?]
            |let f := head_of m in progress unfold f]
  end.

Ltac parsing := repeat parse_step.

(** The steps of a function, and what is left of its postcondition. *)
Ltac parse_all := intros ? ?; parsing; (split; [first [lia|done]|]); try done.

(** * What the parser accepts and reports

    That parsing always ends; that an error is reported at a position of the
    source, with the text of that line; and what holds of every file accepted. *)

(** ** Helpers *)

Section helpers.
Context (src : Source).

Lemma expectToken_reads ty : ty ≠ TokenEOF → reads src (expectToken ty) (λ _, True).
Proof. intros Hty. unfold expectToken. parse_all. Qed.

Lemma expectIdentifier_reads : reads src expectIdentifier (λ _, True).
Proof. unfold expectIdentifier. parse_all. Qed.

Lemma expectInteger_reads : reads src expectInteger in_int64.
Proof.
  unfold expectInteger. parse_all. unfold AtoiText in *. destruct (Atoi _) as [n [e|]] eqn:E; simplify_eq.
  unfold Atoi in E. pose proof (ParseInt_range (Ast.utf8 (TokenValue (tokenAt p)))) as Hr. by rewrite E in Hr.
Qed.

Lemma skipOptionalEquals_parses : parses src skipOptionalEquals (λ _, True).
Proof. unfold skipOptionalEquals. parse_all. Qed.

Lemma expectStringOrIdentifier_reads : reads src expectStringOrIdentifier (λ _, True).
Proof. pose proof expectIdentifier_reads. unfold expectStringOrIdentifier. parse_all. Qed.

Lemma expectOneOf_reads types format args : TokenEOF ∉ types → reads src (expectOneOf types format args) (λ _, True).
Proof. intros Hty. unfold expectOneOf. parse_all. Qed.

Lemma expectValue_reads format args : reads src (expectValue format args) (λ _, True).
Proof. apply expectOneOf_reads. set_solver. Qed.

Lemma expectResourceValue_reads : reads src expectResourceValue (λ _, True).
Proof. unfold expectResourceValue. parse_all. Qed.

Lemma expectBooleanValue_reads : reads src expectBooleanValue (λ _, True).
Proof. pose proof expectIdentifier_reads. unfold expectBooleanValue. parse_all. Qed.

Lemma loop_parses {St B} (body : St → parse (St + B)) (I : St → Prop) (post : B → Prop) s :
  (∀ s p, ok src p → I s →
    wp (src:=src) (body s) (λ r p', match r with inl s' => I s' ∧ (left p' < left p)%nat | inr b => post b ∧ (left p' ≤ left p)%nat end) p) →
  I s → parses src (loop body s) post.
Proof. intros Hbody Hs p Hp. by apply (wp_loop src body I post). Qed.

Lemma expectHierarchicalName_reads : reads src expectHierarchicalName (λ _, True).
Proof.
  pose proof expectIdentifier_reads. unfold expectHierarchicalName. intros p Hp. parse_step. parse_step.
  eapply wp_parses; [apply (loop_parses _ (λ _, True) (λ _, True)); [|done]|done|]; [|intros; split; [lia|done]].
  intros. parsing; split; first [done|lia].
Qed.

Lemma readMountPath_parses : parses src readMountPath (λ _, True).
Proof.
  unfold readMountPath. intros p Hp. do 3 parse_step; [parsing; split; [lia|done]|]. parse_step; [|by parse_step].
  apply (loop_parses _ (λ _, True) (λ _, True)); [|done|done]. intros. parsing; split; first [done|lia].
Qed.

Lemma parseServicePath_reads : reads src parseServicePath (λ _, True).
Proof.
  unfold parseServicePath. intros p Hp. parse_step.
  eapply wp_reads; [apply expectOneOf_reads; set_solver|done|]. intros path p1 Hp1 L1 _.
  eapply wp_parses; [apply (loop_parses _ (λ _, True) (λ _, True)); [|done]|done|]; [|intros; split; [lia|done]].
  intros s q Hq _. do 3 parse_step; [|parsing; split; [done|lia]]. parse_step. apply wp_advance; [done| |intros q1 Hq1 M1; parsing; split; [done|lia]].
  intros E. boolprop. by rewrite (eof_value src) in *.
Qed.

Lemma orElseError_reads {A} (m : parse A) format post : reads src m post → reads src (orElseError m format) post.
Proof.
  intros Hm p Hp. specialize (Hm p Hp). unfold wp, orElseError in *. destruct (m p) as [[[err|a] p']|]; [|done|done].
  destruct Hm as [Hp' _]. exact (wp_parserErrorf src format [] (λ a p', (left p' < left p)%nat ∧ post a) p' Hp').
Qed.
End helpers.

#[export] Hint Resolve expectToken_reads expectIdentifier_reads expectInteger_reads skipOptionalEquals_parses expectStringOrIdentifier_reads
  expectValue_reads expectOneOf_reads expectResourceValue_reads expectBooleanValue_reads expectHierarchicalName_reads readMountPath_parses parseServicePath_reads
  orElseError_reads : parser.
#[export] Hint Extern 1 (_ ≠ _) => discriminate : parser.
#[export] Hint Extern 1 (_ ∉ _) => set_solver : parser.

(** ** What is accepted *)

Definition one_of (words : list string) (v : text) : Prop := v ∈ runes <$> words.

(** A probe has a method. *)
Definition probe_ok (d : ProbeDecl) : Prop := one_of ["http"; "tcp"; "exec"] (Probe_Method d).

(** A disruption budget sets exactly one of its two bounds. *)
Definition disruption_ok (d : DisruptionDecl) : Prop :=
  Disruption_MinAvailable d = 0 ∧ Disruption_MaxUnavailable d ≠ 0 ∨ Disruption_MinAvailable d ≠ 0 ∧ Disruption_MaxUnavailable d = 0.

(** An initialization step runs a command or probes a connection, and not both. *)
Definition init_ok (d : InitStepDecl) : Prop :=
  InitStep_Exec d = [] ∧ InitStep_Connection d ≠ [] ∨ InitStep_Exec d ≠ [] ∧ InitStep_Connection d = [].

Definition placement_ok (d : PlacementDecl) : Prop :=
  0 ≤ Placement_ZoneMaxSkew d ∧ (Placement_Mode d = [] ∨ Placement_Mode d = runes "per-node").

Definition optionally {A} (P : A → Prop) (x : option A) : Prop := match x with Some a => P a | None => True end.

Record service_ok (d : ServiceDecl) : Prop := {
  priority_range : 0 ≤ Service_Priority d ≤ 1000;
  pull_policy_known : Service_PullPolicy d = [] ∨ one_of ["always"; "if_not_present"; "never"] (Service_PullPolicy d);
  startup_ok : optionally probe_ok (Service_Startup d);
  liveness_ok : optionally probe_ok (Service_Liveness d);
  readiness_ok : optionally probe_ok (Service_Readiness d);
  budget_ok : optionally disruption_ok (Service_Disruption d);
  service_placement_ok : optionally placement_ok (Service_Placement d);
  inits_ok : Forall init_ok (Service_InitSteps d);
  external_ok : Forall (λ e, one_of ["tcp"; "http"] (ExternalPort_Protocol e)) (Service_ExternalPorts d)
}.

Definition volume_ok (d : VolumeDecl) : Prop := Volume_StorageType d = [] ∨ one_of ["local"; "nfs"] (Volume_StorageType d).

Definition cronjob_ok (d : CronJobDecl) : Prop := CronJob_Schedule d ≠ [] ∧ CronJob_Image d ≠ [].

Definition connection_ok (d : ConnectionDecl) : Prop := Connection_Driver d ≠ [] ∧ Connection_Host d ≠ [].

Definition policy_ok (d : PolicyDecl) : Prop :=
  Policy_Capability d ≠ [] ∧ Forall (λ c, one_of ["=="; "!="; "in"; "not_in"] (PolicyCondition_Operator c)) (Policy_Conditions d).

Definition network_ok (d : NetworkDecl) : Prop := Forall (λ r, one_of ["allow"; "deny"] (NetworkRule_Action r)) (Network_Rules d).

(** Either the cluster issues the certificate, or both files of one are given. *)
Definition tls_ok (d : RouteTLSDecl) : Prop :=
  RouteTLS_Mode d = RouteTLSModeAuto ∧ RouteTLS_CertFile d = [] ∧ RouteTLS_KeyFile d = [] ∨
  RouteTLS_Mode d = RouteTLSModeManual ∧ RouteTLS_CertFile d ≠ [] ∧ RouteTLS_KeyFile d ≠ [].

Definition sticky_ok (d : RouteStickyDecl) : Prop := one_of ["cookie"; "source-ip"] (RouteSticky_Method d).

Record route_ok (d : RouteDecl) : Prop := {
  route_target : Route_ServiceName d ≠ [];
  route_tls : optionally tls_ok (Route_TLS d);
  route_host : is_Some (Route_TLS d) → Route_Host d ≠ [];
  route_sticky : optionally sticky_ok (Route_Sticky d)
}.

Record file_ok (f : File) : Prop := {
  services_ok : Forall service_ok (File_Services f);
  volumes_ok : Forall volume_ok (File_Volumes f);
  cronjobs_ok : Forall cronjob_ok (File_CronJobs f);
  connections_ok : Forall connection_ok (File_Connections f);
  policies_ok : Forall policy_ok (File_Policies f);
  networks_ok : Forall network_ok (File_Networks f);
  routes_ok : Forall route_ok (File_Routes f);
  no_base_dir : File_BaseDir f = []
}.

(** What is left of a field: the invariant of the record with that field changed. *)
Ltac field_done :=
  unfold update, addTo in *; simpl in *;
  first [done|split; simpl in *; auto|idtac].

Ltac field := intros ? ? ?; parse_all; field_done.
Ltac field_any := intros ? ? _; parse_all.

Lemma word_of (words : list string) (word : string) v : v = runes word → word ∈ words → one_of words v.
Proof. intros -> Hin. by apply list_elem_of_fmap_2. Qed.

Lemma isWord_eq v word : isWord v word = true → v = runes word.
Proof. apply bool_decide_eq_true. Qed.

Section blocks.
Context (src : Source).

Lemma parseResourcesBlock_reads : reads src parseResourcesBlock (λ _, True).
Proof. apply wp_block; [|done]. field_any. Qed.

Lemma parseHealthBlock_reads : reads src parseHealthBlock (λ _, True).
Proof. apply wp_block; [|done]. field_any. Qed.

Lemma parseProbeBlock_reads : reads src parseProbeBlock probe_ok.
Proof.
  intros p Hp. unfold parseProbeBlock. parse_step.
  eapply wp_reads; [apply (wp_block src _ (λ d, Probe_Method d = [] ∨ probe_ok d)); [|by left]|done|].
  - field; try (right; eapply word_of; [reflexivity|set_solver]).
  - intros d p1 Hp1 L1 Hd. parsing. split; [done|]. boolprop. by destruct Hd.
Qed.

Lemma parseScheduleBlock_reads : reads src parseScheduleBlock (λ _, True).
Proof. apply wp_block; [|done]. field_any. Qed.

Lemma parseStabilizationBlock_reads : reads src parseStabilizationBlock (λ _, True).
Proof. apply wp_block; [|done]. field_any. Qed.

Lemma parseHorizontalScaleBlock_reads : reads src parseHorizontalScaleBlock (λ _, True).
Proof. pose proof parseScheduleBlock_reads. pose proof parseStabilizationBlock_reads. apply wp_block; [|done]. field_any. Qed.

Lemma parseVerticalResourceMinMax_reads name : reads src (parseVerticalResourceMinMax name) (λ _, True).
Proof. apply wp_block; [|done]. field_any. Qed.

Lemma parseVerticalScaleBlock_reads : reads src parseVerticalScaleBlock (λ _, True).
Proof. pose proof parseVerticalResourceMinMax_reads. apply wp_block; [|done]. field_any. Qed.

Lemma parseScaleBlock_reads : reads src parseScaleBlock (λ _, True).
Proof. pose proof parseHorizontalScaleBlock_reads. pose proof parseVerticalScaleBlock_reads. apply wp_block; [|done]. field_any. Qed.

Lemma parsePlacementBlock_reads : reads src parsePlacementBlock placement_ok.
Proof.
  apply wp_block; [|split; [done|by left]]. intros d key [H1 H2].
  parse_all; unfold update, addTo in *; simpl; (split; simpl; [boolprop; try lia; done|]); first [done|right; by apply isWord_eq].
Qed.

Lemma parseUpdateBlock_reads : reads src parseUpdateBlock (λ _, True).
Proof. apply wp_block; [|done]. field_any. Qed.

Lemma parseDisruptionBlock_reads : reads src parseDisruptionBlock disruption_ok.
Proof.
  intros p Hp. unfold parseDisruptionBlock. parse_step. eapply wp_reads; [apply (wp_block src _ (λ _, True)); [field_any|done]|done|].
  intros d p1 Hp1 L1 _. parsing. split; [done|]. unfold disruption_ok.
  destruct (Z.eqb_spec (Disruption_MinAvailable d) 0), (Z.eqb_spec (Disruption_MaxUnavailable d) 0); try done; auto.
Qed.

Lemma parseLoggingBlock_reads : reads src parseLoggingBlock (λ _, True).
Proof. apply wp_block; [|done]. field_any. Qed.

Lemma parseLifecycleBlock_reads : reads src parseLifecycleBlock (λ _, True).
Proof. apply wp_block; [|done]. field_any. Qed.

Lemma parseTagsBlock_reads : reads src parseTagsBlock (λ tags, tags ≠ []).
Proof.
  intros p Hp. unfold parseTagsBlock. parse_step. eapply wp_reads; [apply (wp_block src _ (λ _, True)); [field_any|done]|done|].
  intros d p1 Hp1 L1 _. parsing. split; [done|]. by boolprop.
Qed.

Lemma parseConfigBlock_reads : reads src parseConfigBlock (λ _, True).
Proof. apply wp_block; [|done]. field_any. Qed.

Lemma parseInitStepBlock_reads : reads src parseInitStepBlock init_ok.
Proof.
  intros p Hp. unfold parseInitStepBlock. parse_step. eapply wp_reads; [apply (wp_block src _ (λ _, True)); [field_any|done]|done|].
  intros d p1 Hp1 L1 _. parsing. split; [done|]. unfold init_ok. repeat case_bool_decide; try done; auto.
Qed.

Lemma parseCloudIdentityBindingInService_reads : reads src parseCloudIdentityBindingInService (λ _, True).
Proof.
  intros p Hp. unfold parseCloudIdentityBindingInService. parsing. eapply wp_reads; [apply (wp_block src _ (λ _, True)); [field_any|done]|done|].
  intros. split; [lia|done].
Qed.

Lemma parseExposeExternal_parses p :
  ok src p → TokenTyp (tokenAt p) ≠ TokenEOF →
  wp (src:=src) parseExposeExternal (λ e p', (left p' < left p)%nat ∧ one_of ["tcp"; "http"] (ExternalPort_Protocol e)) p.
Proof.
  intros Hp Hty. unfold parseExposeExternal. parse_step. apply wp_advance; [done|done|]. intros p1 Hp1 L1. parsing; (split; [lia|]); simpl.
  - match goal with H : _ && _ = true |- _ => apply andb_true_iff in H as [_ [->%isWord_eq| ->%isWord_eq]%orb_true_iff] end;
      eapply word_of; try reflexivity; set_solver.
  - eapply word_of; [reflexivity|set_solver].
Qed.
End blocks.

#[export] Hint Resolve parseResourcesBlock_reads parseHealthBlock_reads parseProbeBlock_reads parseScaleBlock_reads parsePlacementBlock_reads
  parseUpdateBlock_reads parseDisruptionBlock_reads parseLoggingBlock_reads parseLifecycleBlock_reads parseTagsBlock_reads
  parseConfigBlock_reads parseInitStepBlock_reads parseCloudIdentityBindingInService_reads : parser.

(** ** Declarations *)

(** At the keyword of a declaration. *)
Definition declares (src : Source) {A} (m : parse A) (post : A → Prop) : Prop :=
  ∀ p, ok src p → TokenTyp (tokenAt p) ≠ TokenEOF → wp (src:=src) m (λ a p', (left p' < left p)%nat ∧ post a) p.

Lemma Forall_snoc_2 {A} (P : A → Prop) l x : Forall P l → P x → Forall P (l ++ [x]).
Proof. intros. by apply Forall_app_2; [|apply Forall_singleton]. Qed.

(** The invariant of a record with one field changed. *)
Ltac changed_field :=
  unfold update, addTo; simpl;
  match goal with H : ?ok ?d |- ?ok _ => destruct H; split; simpl; try done; try (by apply Forall_snoc_2) end.

Section declarations.
Context (src : Source).

Lemma parseExpose_parses d : service_ok d → parses src (parseExpose d) service_ok.
Proof.
  intros Hd p Hp. unfold parseExpose. parse_step. parse_step. parse_step.
  - parse_step. eapply wp_mono; [apply parseExposeExternal_parses; [done|not_eof]|]. intros e p1 Hp1 [L1 He]. parsing.
    split; [lia|]. by changed_field.
  - parsing. split; [lia|]. by changed_field.
Qed.

Lemma parsePriority_parses d : service_ok d → parses src (parsePriority d) service_ok.
Proof. intros Hd. parse_all. boolprop. by changed_field. Qed.

Lemma parsePullPolicy_parses d : service_ok d → parses src (parsePullPolicy d) service_ok.
Proof.
  intros Hd. parse_all. changed_field. right.
  match goal with H : _ || _ = true |- _ => apply orb_true_iff in H as [[->%isWord_eq| ->%isWord_eq]%orb_true_iff| ->%isWord_eq] end;
    eapply word_of; try reflexivity; set_solver.
Qed.

Hint Resolve parseExpose_parses parsePriority_parses parsePullPolicy_parses : parser.

Lemma parseServiceField_parses d key : service_ok d → parses src (parseServiceField d key) service_ok.
Proof. intros Hd. parse_all; by changed_field. Qed.

(** The keyword is skipped, and its token known. *)
Lemma declares_intro {A} (k : Token → parse A) post :
  (∀ t, t ∈ allTokens src → parses src (k t) post) → declares src (t ← currentToken; advanceToken;; k t) post.
Proof.
  intros Hk p Hp Hty. parse_step. parse_step. parse_step. apply wp_advance; [done|done|]. intros p1 Hp1 L1.
  eapply wp_mono; [by apply Hk|]. intros a p2 _ [L2 Ha]. split; [lia|done].
Qed.

(** A block, and what is checked after it. *)
Lemma wp_block_then {D A} (field : D → text → parse D) (I : D → Prop) (k : D → parse A) d post p :
  (∀ d key, I d → parses src (field d key) I) → I d → ok src p → (∀ d, I d → parses src (k d) post) →
  wp (src:=src) (block field d ≫= k) (λ a p', (left p' < left p)%nat ∧ post a) p.
Proof.
  intros Hf Hd Hp Hk. parse_step. eapply wp_reads; [by apply wp_block|done|]. intros d1 p1 Hp1 L1 Hd1.
  eapply wp_mono; [by apply Hk|]. intros a p2 _ [L2 Ha]. split; [lia|done].
Qed.

Lemma parseServiceDeclaration_ok : declares src parseServiceDeclaration service_ok.
Proof.
  apply declares_intro. intros t Ht p Hp. parsing. eapply wp_reads; [apply (wp_block src _ service_ok)|done|].
  - intros. by apply parseServiceField_parses.
  - split; simpl; [lia|by left|done..].
  - intros. split; [lia|done].
Qed.

(** A declaration whose fields nothing is required of. *)
Ltac plain_declaration :=
  apply declares_intro; intros t Ht p Hp; parsing;
  (eapply wp_reads; [apply (wp_block src _ (λ _, True)); [field_any|done]|done|intros; split; [lia|done]]).

Lemma parseJobDeclaration_ok : declares src parseJobDeclaration (λ _, True).
Proof. plain_declaration. Qed.

Lemma parseCloudIdentityDeclaration_ok : declares src parseCloudIdentityDeclaration (λ _, True).
Proof. plain_declaration. Qed.

Lemma parseCredentialBrokerDeclaration_ok : declares src parseCredentialBrokerDeclaration (λ _, True).
Proof. plain_declaration. Qed.

Lemma parseCloudDeclaration_ok : declares src parseCloudDeclaration (λ _, True).
Proof. plain_declaration. Qed.

Lemma parseRoleDeclaration_ok : declares src parseRoleDeclaration (λ _, True).
Proof. plain_declaration. Qed.

Lemma parseGroupDeclaration_ok : declares src parseGroupDeclaration (λ _, True).
Proof. plain_declaration. Qed.

Lemma parseServiceGroupDeclaration_ok : declares src parseServiceGroupDeclaration (λ _, True).
Proof. plain_declaration. Qed.

Lemma parseQuotaBlock_reads : reads src parseQuotaBlock (λ _, True).
Proof. apply wp_block; [|done]. field_any. Qed.

Lemma parseTenantDeclaration_ok : declares src parseTenantDeclaration (λ _, True).
Proof. pose proof parseQuotaBlock_reads. plain_declaration. Qed.

Lemma parseGrantStatement_ok : declares src parseGrantStatement (λ _, True).
Proof. apply declares_intro. intros t Ht. parse_all. Qed.

Lemma parseVolumeType_reads : reads src parseVolumeType (one_of ["local"; "nfs"]).
Proof.
  unfold parseVolumeType. parse_all. match goal with H : _ || _ = true |- _ => apply orb_true_iff in H as [->%isWord_eq| ->%isWord_eq] end;
    eapply word_of; try reflexivity; set_solver.
Qed.

Lemma parseVolumeDeclaration_ok : declares src parseVolumeDeclaration volume_ok.
Proof.
  pose proof parseVolumeType_reads. apply declares_intro. intros t Ht p Hp. parsing.
  eapply wp_reads; [apply (wp_block src _ volume_ok)|done|intros; split; [lia|done]]; [|by left].
  intros d key Hd. parse_all. by right.
Qed.

Lemma parseCronJobDeclaration_ok : declares src parseCronJobDeclaration cronjob_ok.
Proof.
  apply declares_intro. intros t Ht p Hp. parse_step. parse_step.
  eapply wp_mono; [apply (wp_block_then _ (λ _, True) _ _ cronjob_ok); [field_any|done|done|]|intros ? ? _ []; split; [lia|done]].
  intros d _. parse_all. boolprop. by split.
Qed.

Lemma parseConnectionDeclaration_ok : declares src parseConnectionDeclaration connection_ok.
Proof.
  apply declares_intro. intros t Ht p Hp. parse_step. parse_step.
  eapply wp_mono; [apply (wp_block_then _ (λ _, True) _ _ connection_ok); [field_any|done|done|]|intros ? ? _ []; split; [lia|done]].
  intros d _. parse_all. boolprop. by split.
Qed.

Lemma parsePolicyCondition_reads :
  reads src parsePolicyCondition (λ c, one_of ["=="; "!="; "in"; "not_in"] (PolicyCondition_Operator c)).
Proof. unfold parsePolicyCondition. parse_all; (eapply word_of; [reflexivity|set_solver]). Qed.

Lemma parsePolicyDeclaration_ok : declares src parsePolicyDeclaration policy_ok.
Proof.
  pose proof parsePolicyCondition_reads.
  set (I d := Forall (λ c, one_of ["=="; "!="; "in"; "not_in"] (PolicyCondition_Operator c)) (Policy_Conditions d)).
  apply declares_intro. intros t Ht p Hp. parse_step. parse_step.
  eapply wp_mono; [apply (wp_block_then _ I _ _ policy_ok); [|apply Forall_nil_2|done|]|intros ? ? _ []; split; [lia|done]].
  - intros d key Hd. parse_all. by apply Forall_snoc_2.
  - intros d Hd. parse_all. boolprop. by split.
Qed.

Lemma parseNetworkRule_reads : reads src parseNetworkRule (λ r, one_of ["allow"; "deny"] (NetworkRule_Action r)).
Proof.
  unfold parseNetworkRule. parse_all; simpl.
  all: match goal with H : _ && _ = true |- one_of _ _ => apply andb_true_iff in H as [_ [Hw|Hw]%orb_true_iff]; apply isWord_eq in Hw end;
    eapply word_of; try exact Hw; set_solver.
Qed.

Lemma parseNetworkDeclaration_ok : declares src parseNetworkDeclaration network_ok.
Proof.
  apply declares_intro. intros t Ht p Hp. do 4 parse_step. parse_step.
  eapply wp_parses; [apply (loop_parses src _ network_ok network_ok); [|apply Forall_nil_2]|done|].
  - intros d q Hq Hd. unfold nextNetworkRule. do 3 parse_step; [parsing; split; [done|lia]|]. do 2 parse_step.
    eapply wp_reads; [apply parseNetworkRule_reads|done|]. intros r q1 Hq1 L1 Hr. parsing. split; [|lia]. by apply Forall_snoc_2.
  - intros d p2 Hp2 L2 Hd. parsing. split; [lia|done].
Qed.

Lemma parseRouteCookieSettings_reads : reads src parseRouteCookieSettings (λ _, True).
Proof. apply wp_block; [|done]. field_any. Qed.

Lemma parseRouteStickyDeclaration_reads : reads src parseRouteStickyDeclaration sticky_ok.
Proof.
  pose proof parseRouteCookieSettings_reads. unfold parseRouteStickyDeclaration.
  parse_all; subst; (eapply word_of; [reflexivity|set_solver]).
Qed.

Lemma checkRouteTLS_ok d : RouteTLS_Mode d = [] ∨ RouteTLS_Mode d = RouteTLSModeAuto → parses src (checkRouteTLS d) tls_ok.
Proof.
  intros Hd p Hp. unfold checkRouteTLS. cbv zeta. unfold tls_ok.
  destruct Hd as [E|E]; rewrite E;
    (repeat case_bool_decide; simpl; try done; first [by apply wp_parserErrorf|apply wp_ret; [done|]; simpl; auto]).
Qed.

Lemma parseRouteTLSDeclaration_parses : parses src parseRouteTLSDeclaration tls_ok.
Proof.
  intros p Hp. unfold parseRouteTLSDeclaration. do 3 parse_step; [parsing; split; [lia|by left]|].
  eapply wp_mono; [apply (wp_block_then _ (λ d, RouteTLS_Mode d = [] ∨ RouteTLS_Mode d = RouteTLSModeAuto) _ _ tls_ok); [|by left|done|]|].
  - intros d key Hd. parse_all. right. by boolprop.
  - intros d Hd. by apply checkRouteTLS_ok.
  - intros a p1 _ [L Ha]. split; [lia|done].
Qed.

(** The fields of a gate, before its target and host are checked. *)
Record route_fields_ok (d : RouteDecl) : Prop := {
  fields_tls : optionally tls_ok (Route_TLS d);
  fields_sticky : optionally sticky_ok (Route_Sticky d)
}.

Lemma parseRouteDeclaration_ok : declares src parseRouteDeclaration route_ok.
Proof.
  pose proof parseRouteStickyDeclaration_reads. pose proof parseRouteTLSDeclaration_parses.
  apply declares_intro. intros t Ht p Hp. parse_step. parse_step.
  eapply wp_mono; [apply (wp_block_then _ route_fields_ok _ _ route_ok); [|by split|done|]|intros ? ? _ []; split; [lia|done]].
  - intros d key Hd. parse_all; by changed_field.
  - intros d [Htls_ok Hsticky_ok]. parse_all. split; boolprop; [done|done| |done]. intros Htls.
    match goal with H : _ ∨ _ |- _ => destruct H as [H|H]; boolprop; done end.
Qed.
End declarations.

(** ** Files *)

Section files.
Context (src : Source).

(** One more declaration of a kind. *)
Lemma wp_declares {A B} (m : parse A) (k : A → parse B) post (Q : B → Parser → Prop) p :
  declares src m post → ok src p → TokenTyp (tokenAt p) ≠ TokenEOF →
  (∀ a p', ok src p' → (left p' < left p)%nat → post a → wp (src:=src) (k a) Q p') → wp (src:=src) (m ≫= k) Q p.
Proof. intros Hm Hp Hty Hk. apply wp_bind. eapply wp_mono; [by apply Hm|]. intros a p' Hp' []. auto. Qed.

Lemma declares_some {A} (m : parse A) : declares src m (λ _, True) → declares src (Some <$> m) (λ _, True).
Proof. intros Hm p Hp Hty. apply wp_fmap. eapply wp_mono; [by apply Hm|]. done. Qed.

Lemma parseAnyGroup_ok f : file_ok f → declares src (parseAnyGroup f) file_ok.
Proof.
  intros Hf p Hp Hty. unfold parseAnyGroup. parse_step. split; [done|]. parse_step.
  - eapply wp_declares; [apply parseServiceGroupDeclaration_ok|done|done|]. intros. parsing. split; [lia|]. by changed_field.
  - eapply wp_declares; [apply parseGroupDeclaration_ok|done|done|]. intros. parsing. split; [lia|]. by changed_field.
Qed.

Lemma parseDeclaration_ok f keyword : file_ok f → declares src (parseDeclaration f keyword) file_ok.
Proof.
  intros Hf p Hp Hty. unfold parseDeclaration. parse_step; [..|parse_step].
  9: by apply parseAnyGroup_ok.
  all: eapply wp_declares;
    [first [apply parseServiceDeclaration_ok|apply parseVolumeDeclaration_ok|apply parseTenantDeclaration_ok|apply parseCloudIdentityDeclaration_ok
           |apply declares_some, parseCredentialBrokerDeclaration_ok|apply declares_some, parseCloudDeclaration_ok|apply parseRoleDeclaration_ok
           |apply parseGrantStatement_ok|apply parsePolicyDeclaration_ok|apply parseNetworkDeclaration_ok|apply parseConnectionDeclaration_ok
           |apply parseRouteDeclaration_ok|apply parseJobDeclaration_ok|apply parseCronJobDeclaration_ok]|done|done|].
  all: intros; parsing; (split; [lia|]); by changed_field.
Qed.

Lemma ParseFile_ok : parses src ParseFile file_ok.
Proof.
  intros p Hp. unfold ParseFile. parse_step. parse_step.
  eapply wp_parses; [apply (loop_parses src _ file_ok file_ok); [|by split]|done|intros; split; [lia|done]].
  intros f q Hq Hf. unfold nextDeclaration. do 2 parse_step. parse_step; [parsing; split; [done|lia]|]. do 3 parse_step; [|by parse_step]. parse_step.
  eapply wp_mono; [apply parseDeclaration_ok; [done|done|by boolprop]|]. intros f1 q1 Hq1 [L1 Hf1]. parsing. split; [done|lia].
Qed.

End files.

(** ** Positions *)

Definition notNewline (c : rune) : bool := negb (c =? newline).

(** The line around a position: what stands before and after it. *)
Definition lineBefore (a : text) : text := reverse (takeWhile notNewline (reverse a)).
Definition lineAfter (b : text) : text := takeWhile notNewline b.

Lemma lineBefore_snoc a c : lineBefore (a ++ [c]) = if c =? newline then [] else lineBefore a ++ [c].
Proof. unfold lineBefore. rewrite reverse_snoc. simpl. unfold notNewline at 1. destruct (c =? newline); [done|]. simpl. by rewrite reverse_cons. Qed.

Lemma columnOf_lineBefore a : columnOf a = 1 + Z.of_nat (length (lineBefore a)).
Proof. unfold columnOf, lineBefore. by rewrite length_reverse. Qed.

Lemma splitSourceLines_cons a : ∃ l ls, splitSourceLines a = l :: ls.
Proof. induction a as [|c a (l & ls & E)]; simpl; [by do 2 eexists|]. rewrite E. destruct (c =? newline); by do 2 eexists. Qed.

Lemma splitSourceLines_app a b : splitSourceLines (a ++ newline :: b) = splitSourceLines a ++ splitSourceLines b.
Proof.
  induction a as [|c a IH]; [done|]. simpl. rewrite IH. destruct (c =? newline); [done|].
  by destruct (splitSourceLines_cons a) as (l & ls & ->).
Qed.

Lemma splitSourceLines_length a : Z.of_nat (length (splitSourceLines a)) = lineOf a.
Proof.
  induction a as [|c a IH]; [done|]. unfold lineOf in *. simpl. destruct (Z.eqb_spec c newline) as [->|Hc].
  - rewrite filter_cons_True by done. simpl. lia.
  - rewrite filter_cons_False by done. by destruct (splitSourceLines_cons a) as (l & ls & E); rewrite E in *.
Qed.

Lemma splitSourceLines_head b : head (splitSourceLines b) = Some (lineAfter b).
Proof.
  unfold lineAfter. induction b as [|c b IH]; simpl; [done|]. unfold notNewline at 1. destruct (c =? newline); simpl; [done|].
  destruct (splitSourceLines b); simplify_eq/=. done.
Qed.

(** The source line of a position is what stands around it. *)
Lemma sourceLineAt_position a b : sourceLineAt (splitSourceLines (a ++ b)) (lineOf a) = lineBefore a ++ lineAfter b.
Proof.
  revert b. induction a as [|c a IH] using rev_ind; intros b.
  - pose proof (splitSourceLines_head b) as Hh. unfold sourceLineAt. simpl. destruct (splitSourceLines b) as [|l ls]; simplify_eq/=.
    change (lineOf []) with 1. simpl. destruct (Z.ltb_spec (Z.of_nat (S (length ls))) 1); [lia|done].
  - rewrite <-app_assoc, lineBefore_snoc, lineOf_snoc. simpl. destruct (Z.eqb_spec c newline) as [->|Hc].
    + rewrite splitSourceLines_app. pose proof (splitSourceLines_head b) as Hh. pose proof (splitSourceLines_length a) as Hl.
      unfold sourceLineAt. rewrite length_app. destruct (splitSourceLines b) as [|l ls]; simplify_eq/=.
      assert (1 ≤ lineOf a) by (unfold lineOf; lia).
      destruct (Z.ltb_spec (lineOf a + 1) 1), (Z.ltb_spec (Z.of_nat (length (splitSourceLines a) + S (length ls))) (lineOf a + 1)); simpl; try lia.
      replace (Z.to_nat (lineOf a + 1 - 1)) with (length (splitSourceLines a)) by lia. by rewrite list_lookup_middle.
    + rewrite Z.add_0_r, IH. rewrite <-app_assoc. f_equal. unfold lineAfter. simpl. unfold notNewline at 1. by destruct (Z.eqb_spec c newline).
Qed.

Lemma covers_position pre rest tokens t :
  covers pre rest tokens → t ∈ tokens → ∃ a b, rest = a ++ b ∧ TokenLine t = lineOf (pre ++ a) ∧ TokenCol t = columnOf (pre ++ a).
Proof.
  revert pre rest. induction tokens as [|token tokens IH]; intros pre rest Hc Ht; [by apply elem_of_nil in Ht|].
  destruct Hc as (g & v & rest' & -> & _ & _ & Hl & Hcol & Hc). apply elem_of_cons in Ht as [->|Ht]; [by exists g, (v ++ rest')|].
  destruct (IH _ _ Hc Ht) as (a & b & -> & H1 & H2). exists (g ++ v ++ a), b. by rewrite <-!app_assoc in *.
Qed.

(** ** Parsing a text *)

(** An error points into the text: it gives the line of a position and the text of
    that line, and the column of the position or none. *)
Definition points_into (input : text) (err : ParseError) : Prop :=
  ∃ a b, input = a ++ b ∧ ErrorLine err = lineOf a ∧ SourceLine err = lineBefore a ++ lineAfter b ∧
    (ErrorCol err = 1 + Z.of_nat (length (lineBefore a)) ∨ ErrorCol err = 0).

Section texts.
Context `{Unicode}.

Lemma ParseWithFileName_result input name :
  match ParseWithFileName input name with
  | Some (inr f) => file_ok f
  | Some (inl err) => points_into input err
  | None => False
  end.
Proof.
  unfold ParseWithFileName. pose proof (Tokenize_result input) as Hlex. destruct (Tokenize input) as [[err|tokens]|]; simpl; [| |done].
  - destruct Hlex as (read & g & rest & toks & -> & _ & _ & [H1 H2 H3]). exists (read ++ g), rest. rewrite app_assoc in *.
    split_and!; [done|done|by rewrite H3, sourceLineAt_position|]. left. by rewrite H2, columnOf_lineBefore.
  - destruct Hlex as [Hcov Heof]. assert (Hne : tokens ≠ []) by (destruct Heof as (before & eof & -> & _); by destruct before).
    set (src := mkSource tokens (splitSourceLines input) name Heof).
    assert (Hok : ok src (mkParser tokens (splitSourceLines input) name)).
    { split; [|done|done]. by exists []. }
    pose proof (ParseFile_ok src _ Hok) as Hwp. unfold wp in Hwp. destruct (ParseFile _) as [[[err|f] p']|]; simpl; [|by destruct Hwp as [_ [_ ?]]|done].
    destruct Hwp as [_ (t & Ht & Hl & Hs & Hcol)]. destruct (covers_position _ _ _ _ Hcov Ht) as (a & b & Ein & H1 & H2). simpl in H1, H2, Hs.
    exists a, b. split_and!; [done|congruence|by rewrite Hs, H1, Ein, sourceLineAt_position|]. rewrite columnOf_lineBefore in H2.
    destruct Hcol as [[-> _]|[-> _]]; [by left; rewrite H2|by right].
Qed.


(** What is accepted is well formed: every priority is in 0-1000, every probe has a
    method, every disruption budget sets exactly one bound, every initialization
    step runs a command or probes a connection and not both, every cronjob has a
    schedule and an image, every connection a driver and a host, every policy a
    capability and known operators, every gate a target, a host when it has TLS,
    and either an issued certificate or both files of one. *)
Theorem Parse_accepts_well_formed input f : Parse input = Some (inr f) → file_ok f.
Proof.
  intros E. pose proof (ParseWithFileName_result input []) as Hp. change (Parse input) with (ParseWithFileName input []) in E.
  by rewrite E in Hp.
Qed.
End texts.

(** ** A concrete file *)

#[local] Existing Instance ascii_only.

Definition lf : string := String (ascii_of_nat 10) "".

Definition exampleText : text :=
  runes ("service payments/web {" +:+ lf +:+ "  image nginx:1.27 # pinned" +:+ lf +:+ "  priority 900" +:+ lf +:+
         "  disruption { min_available 2 }" +:+ lf +:+ "}" +:+ lf +:+ "gate public { host app.example.com service web port 80 tls auto }").

Lemma Parse_accepts_well_formed_witness : ∃ f, Parse exampleText = Some (inr f) ∧ file_ok f ∧ length (File_Routes f) = 1%nat.
Proof.
  destruct (Parse exampleText) as [[err|f]|] eqn:E; [vm_compute in E; discriminate| |vm_compute in E; discriminate].
  exists f. split; [reflexivity|]. split; [exact (Parse_accepts_well_formed exampleText f E)|]. vm_compute in E. injection E as <-. reflexivity.
Defined.
