(* ===== verification/Formatter.v ===== *)
(** * Formatting configuration files (src/lang/formatter.go)

    A formatter writes lines to a builder; here it returns the text it writes. Each
    call of [fmt.Fprintf] writes one line: the indentation, the words of its format
    with a space between them, and a newline. *)

From S2P Require Import Prelude GoFmt Ast Lexer ParserCore Parser.

Local Open Scope Z_scope.

Definition indentUnit : text := runes "    ".
Definition indent2 : text := indentUnit ++ indentUnit.

Fixpoint joinWords (words : list text) : text :=
  match words with
  | [] => []
  | [w] => w
  | w :: rest => w ++ space :: joinWords rest
  end.

Definition Fprintln (indent : text) (words : list text) : text := indent ++ joinWords words ++ [newline].

(** The [%d] verb. *)
Definition decimal (n : Z) : text := runes (Itoa n).

(** [if v != "" { ... }] *)
Definition unlessEmpty (v : text) (written : text) : text := if bool_decide (v = []) then [] else written.
Definition unlessZero (n : Z) (written : text) : text := if n =? 0 then [] else written.
Definition whenTrue (b : bool) (written : text) : text := if b then written else [].
Definition whenSome {A} (x : option A) (written : A → text) : text := match x with Some a => written a | None => [] end.

#[local] Abbreviation w := runes.

Section quoting.
Context `{Unicode}.

Definition backslash : rune := 92.

(** A digit of hexadecimal notation. *)
Definition hexDigit (n : Z) : rune := if n <? 10 then 48 + n else 87 + n.

(** [n] in hexadecimal, with so many digits. *)
Fixpoint hexDigits (digits : nat) (n : Z) : text :=
  match digits with 0%nat => [] | S digits' => hexDigits digits' (n / 16) ++ [hexDigit (n mod 16)] end.

(** A rune as the [%q] verb writes it. *)
Definition escapeRune (c : rune) : text :=
  if (c =? quote) || (c =? backslash) then [backslash; c]
  else if IsPrint c then [c]
  else if c =? 7 then runes "\a"
  else if c =? 8 then runes "\b"
  else if c =? 12 then runes "\f"
  else if c =? 10 then runes "\n"
  else if c =? 13 then runes "\r"
  else if c =? 9 then runes "\t"
  else if c =? 11 then runes "\v"
  else if (c <? 32) || (c =? 127) then runes "\x" ++ hexDigits 2 c
  else if between 55296 57343 c || negb (between 0 1114111 c) then runes "\ufffd"
  else if c <? 65536 then runes "\u" ++ hexDigits 4 c
  else runes "\U" ++ hexDigits 8 c.

(** The [%q] verb. *)
Definition Quote (v : text) : text := quote :: (v ≫= escapeRune) ++ [quote].

Definition quoteIfNeeded (value : text) : text :=
  match value with
  | [] => [quote; quote]
  | c :: rest =>
      if negb (IsLetter c || (c =? underscore)) then Quote value
      else if forallb isIdentifierContinuationChar rest then value
      else Quote value
  end.

(** ** Declarations *)

Definition formatConnectionDecl (d : ConnectionDecl) : text :=
  Fprintln [] [w "connection"; Connection_Name d; w "{"] ++
  unlessEmpty (Connection_Driver d) (Fprintln indentUnit [w "driver"; quoteIfNeeded (Connection_Driver d)]) ++
  unlessEmpty (Connection_User d) (Fprintln indentUnit [w "user"; quoteIfNeeded (Connection_User d)]) ++
  unlessEmpty (Connection_Secret d) (Fprintln indentUnit [w "secret"; Connection_Secret d]) ++
  unlessEmpty (Connection_Host d) (Fprintln indentUnit [w "host"; quoteIfNeeded (Connection_Host d)]) ++
  unlessZero (Connection_Port d) (Fprintln indentUnit [w "port"; decimal (Connection_Port d)]) ++
  unlessEmpty (Connection_Database d) (Fprintln indentUnit [w "database"; quoteIfNeeded (Connection_Database d)]) ++
  Fprintln [] [w "}"].

Definition formatVolumeDecl (d : VolumeDecl) : text :=
  Fprintln [] [w "volume"; Volume_Name d; w "{"] ++
  unlessEmpty (Volume_Size d) (Fprintln indentUnit [w "size"; Volume_Size d]) ++
  whenTrue (Volume_Persistent d) (Fprintln indentUnit [w "persistent"; w "true"]) ++
  unlessEmpty (Volume_StorageType d) (Fprintln indentUnit [w "type"; Volume_StorageType d]) ++
  Fprintln [] [w "}"].

Definition formatQuotaDecl (d : QuotaDecl) : text :=
  Fprintln indentUnit [w "quota"; w "{"] ++
  unlessZero (Quota_CPU d) (Fprintln indent2 [w "cpu"; decimal (Quota_CPU d)]) ++
  unlessEmpty (Quota_Memory d) (Fprintln indent2 [w "memory"; Quota_Memory d]) ++
  unlessZero (Quota_Instances d) (Fprintln indent2 [w "instances"; decimal (Quota_Instances d)]) ++
  unlessZero (Quota_Volumes d) (Fprintln indent2 [w "volumes"; decimal (Quota_Volumes d)]) ++
  unlessEmpty (Quota_Storage d) (Fprintln indent2 [w "storage"; Quota_Storage d]) ++
  Fprintln indentUnit [w "}"].

Definition formatTenantDecl (d : TenantDecl) : text :=
  Fprintln [] [w "tenant"; Tenant_Name d; w "{"] ++
  whenSome (Tenant_Quota d) formatQuotaDecl ++
  unlessZero (Tenant_Weight d) (Fprintln indentUnit [w "weight"; decimal (Tenant_Weight d)]) ++
  Fprintln [] [w "}"].

Definition formatCredentialBrokerDecl (d : CredentialBrokerDecl) : text :=
  Fprintln [] [w "credential_broker"; w "{"] ++
  unlessEmpty (CredentialBroker_OIDCIssuer d) (Fprintln indentUnit [w "oidc_issuer"; quoteIfNeeded (CredentialBroker_OIDCIssuer d)]) ++
  unlessEmpty (CredentialBroker_CredentialTTL d) (Fprintln indentUnit [w "credential_ttl"; quoteIfNeeded (CredentialBroker_CredentialTTL d)]) ++
  unlessEmpty (CredentialBroker_RefreshBefore d) (Fprintln indentUnit [w "refresh_before"; quoteIfNeeded (CredentialBroker_RefreshBefore d)]) ++
  Fprintln [] [w "}"].

Definition formatCloudIdentityDecl (d : CloudIdentityDecl) : text :=
  Fprintln [] [w "cloud_identity"; CloudIdentity_Name d; w "{"] ++
  unlessEmpty (CloudIdentity_Provider d) (Fprintln indentUnit [w "provider"; CloudIdentity_Provider d]) ++
  unlessEmpty (CloudIdentity_Role d) (Fprintln indentUnit [w "role"; quoteIfNeeded (CloudIdentity_Role d)]) ++
  unlessEmpty (CloudIdentity_ServiceAccount d) (Fprintln indentUnit [w "service_account"; quoteIfNeeded (CloudIdentity_ServiceAccount d)]) ++
  unlessEmpty (CloudIdentity_Pool d) (Fprintln indentUnit [w "pool"; quoteIfNeeded (CloudIdentity_Pool d)]) ++
  unlessEmpty (CloudIdentity_ClientID d) (Fprintln indentUnit [w "client_id"; quoteIfNeeded (CloudIdentity_ClientID d)]) ++
  unlessEmpty (CloudIdentity_TenantID d) (Fprintln indentUnit [w "tenant_id"; quoteIfNeeded (CloudIdentity_TenantID d)]) ++
  Fprintln [] [w "}"].

Definition formatCloudDecl (d : CloudDecl) : text :=
  Fprintln [] [w "cloud"; w "{"] ++
  unlessEmpty (Cloud_Provider d) (Fprintln indentUnit [w "provider"; Cloud_Provider d]) ++
  unlessEmpty (Cloud_Region d) (Fprintln indentUnit [w "region"; quoteIfNeeded (Cloud_Region d)]) ++
  unlessEmpty (Cloud_InstanceType d) (Fprintln indentUnit [w "instance_type"; quoteIfNeeded (Cloud_InstanceType d)]) ++
  unlessEmpty (Cloud_Credentials d) (Fprintln indentUnit [w "credentials"; Cloud_Credentials d]) ++
  unlessEmpty (Cloud_ProjectID d) (Fprintln indentUnit [w "project_id"; quoteIfNeeded (Cloud_ProjectID d)]) ++
  unlessEmpty (Cloud_ResourceGroup d) (Fprintln indentUnit [w "resource_group"; quoteIfNeeded (Cloud_ResourceGroup d)]) ++
  unlessEmpty (Cloud_VPCNetwork d) (Fprintln indentUnit [w "vpc_network"; quoteIfNeeded (Cloud_VPCNetwork d)]) ++
  unlessEmpty (Cloud_RouteTable d) (Fprintln indentUnit [w "route_table"; quoteIfNeeded (Cloud_RouteTable d)]) ++
  Fprintln [] [w "}"].

Definition formatRoleDecl (d : RoleDecl) : text :=
  Fprintln [] [w "role"; Role_Name d; w "{"] ++
  (Role_Capabilities d ≫= λ capability, Fprintln indentUnit [w "allow"; capability]) ++
  (Role_Scopes d ≫= λ scope, Fprintln indentUnit [w "scope"; scope]) ++
  Fprintln [] [w "}"].

Definition formatGroupDecl (d : GroupDecl) : text :=
  Fprintln [] [w "group"; Group_Name d; w "{"] ++
  (Group_Members d ≫= λ member, Fprintln indentUnit [w "member"; quoteIfNeeded member]) ++
  Fprintln [] [w "}"].

Definition formatGrantDecl (d : GrantDecl) : text :=
  Fprintln [] [w "grant"; Grant_RoleName d; w "to"; Grant_PrincipalKind d; quoteIfNeeded (Grant_PrincipalName d)].

Definition formatPolicyDecl (d : PolicyDecl) : text :=
  Fprintln [] [w "policy"; Policy_Name d; w "{"] ++
  unlessEmpty (Policy_Capability d) (Fprintln indentUnit [w "allow"; Policy_Capability d]) ++
  (Policy_Conditions d ≫= λ c,
    Fprintln indentUnit [w "when"; PolicyCondition_Field c; PolicyCondition_Operator c; PolicyCondition_Value c]) ++
  Fprintln [] [w "}"].

Definition formatNetworkRule (r : NetworkRuleDecl) : text :=
  if negb (NetworkRule_Port r =? 0) then
    Fprintln indentUnit [NetworkRule_Action r; NetworkRule_Source r; w "->"; NetworkRule_Target r; w "port"; decimal (NetworkRule_Port r)]
  else Fprintln indentUnit [NetworkRule_Action r; NetworkRule_Source r; w "->"; NetworkRule_Target r].

Definition formatNetworkDecl (d : NetworkDecl) : text :=
  Fprintln [] [w "network"; w "{"] ++
  (Network_Rules d ≫= formatNetworkRule) ++
  Fprintln [] [w "}"].

Definition formatServiceGroupDecl (d : ServiceGroupDecl) : text :=
  Fprintln [] [w "group"; ServiceGroup_Name d; w "{"] ++
  (ServiceGroup_Processes d ≫= λ processName, Fprintln indentUnit [w "process"; processName]) ++
  whenTrue (ServiceGroup_ShareNetwork d) (Fprintln indentUnit [w "share"; w "network"]) ++
  (ServiceGroup_SharedVolumes d ≫= λ volumeName, Fprintln indentUnit [w "share"; w "volume"; volumeName]) ++
  Fprintln [] [w "}"].

Definition formatJobDecl (d : JobDecl) : text :=
  Fprintln [] [w "job"; quoteIfNeeded (Job_Name d); w "{"] ++
  unlessEmpty (Job_Image d) (Fprintln indentUnit [w "image"; quoteIfNeeded (Job_Image d)]) ++
  unlessEmpty (Job_Command d) (Fprintln indentUnit [w "command"; quoteIfNeeded (Job_Command d)]) ++
  whenTrue (0 <? Job_Completions d) (Fprintln indentUnit [w "completions"; decimal (Job_Completions d)]) ++
  whenTrue (0 <? Job_Parallelism d) (Fprintln indentUnit [w "parallelism"; decimal (Job_Parallelism d)]) ++
  whenTrue (0 <? Job_BackoffLimit d) (Fprintln indentUnit [w "backoff_limit"; decimal (Job_BackoffLimit d)]) ++
  unlessEmpty (Job_ImagePullSecret d) (Fprintln indentUnit [w "image_pull_secret"; quoteIfNeeded (Job_ImagePullSecret d)]) ++
  Fprintln [] [w "}"].

Definition formatCronJobDecl (d : CronJobDecl) : text :=
  Fprintln [] [w "cronjob"; quoteIfNeeded (CronJob_Name d); w "{"] ++
  Fprintln indentUnit [w "schedule"; quoteIfNeeded (CronJob_Schedule d)] ++
  unlessEmpty (CronJob_Image d) (Fprintln indentUnit [w "image"; quoteIfNeeded (CronJob_Image d)]) ++
  unlessEmpty (CronJob_Command d) (Fprintln indentUnit [w "command"; quoteIfNeeded (CronJob_Command d)]) ++
  whenTrue (0 <? CronJob_Completions d) (Fprintln indentUnit [w "completions"; decimal (CronJob_Completions d)]) ++
  whenTrue (0 <? CronJob_Parallelism d) (Fprintln indentUnit [w "parallelism"; decimal (CronJob_Parallelism d)]) ++
  whenTrue (0 <? CronJob_BackoffLimit d) (Fprintln indentUnit [w "backoff_limit"; decimal (CronJob_BackoffLimit d)]) ++
  Fprintln [] [w "}"].

(** ** The fields of a service *)

Definition formatServiceIdentityFields (d : ServiceDecl) : text :=
  unlessEmpty (Service_Image d) (Fprintln indentUnit [w "image"; quoteIfNeeded (Service_Image d)]) ++
  unlessEmpty (Service_Command d) (Fprintln indentUnit [w "command"; quoteIfNeeded (Service_Command d)]) ++
  Fprintln indentUnit [w "instances"; decimal (Service_Instances d)] ++
  unlessEmpty (Service_Owner d) (Fprintln indentUnit [w "owner"; Service_Owner d]) ++
  whenTrue (Service_Stateful d) (Fprintln indentUnit [w "stateful"]) ++
  whenTrue (Service_LegacySecretAPI d) (Fprintln indentUnit [w "legacy_secret_api"; w "true"]).

Definition formatExternalPort (e : ExternalPortDecl) : text :=
  if negb (bool_decide (ExternalPort_Protocol e = [])) && negb (isWord (ExternalPort_Protocol e) "tcp") then
    Fprintln indentUnit [w "expose"; w "external"; decimal (ExternalPort_Port e); ExternalPort_Protocol e]
  else Fprintln indentUnit [w "expose"; w "external"; decimal (ExternalPort_Port e)].

Definition formatServiceNetworkFields (d : ServiceDecl) : text :=
  (Service_Ports d ≫= λ port, Fprintln indentUnit [w "expose"; decimal port]) ++
  (Service_ExternalPorts d ≫= formatExternalPort).

Definition formatInitStep (d : InitStepDecl) : text :=
  Fprintln indentUnit [w "init"; w "{"] ++
  unlessEmpty (InitStep_Exec d) (Fprintln indent2 [w "exec"; quoteIfNeeded (InitStep_Exec d)]) ++
  unlessEmpty (InitStep_Connection d) (Fprintln indent2 [w "connection"; InitStep_Connection d]) ++
  unlessEmpty (InitStep_Timeout d) (Fprintln indent2 [w "timeout"; InitStep_Timeout d]) ++
  unlessZero (InitStep_Retry d) (Fprintln indent2 [w "retry"; decimal (InitStep_Retry d)]) ++
  Fprintln indentUnit [w "}"].

Definition formatServiceInitFields (d : ServiceDecl) : text := Service_InitSteps d ≫= formatInitStep.

Definition formatHealthBlock (d : HealthDecl) : text :=
  Fprintln indentUnit [w "health"; w "{"] ++
  (if isWord (Health_Method d) "http" && negb (bool_decide (Health_Path d = [])) then Fprintln indent2 [w "http"; Health_Path d]
   else unlessEmpty (Health_Method d) (Fprintln indent2 [Health_Method d])) ++
  unlessEmpty (Health_Interval d) (Fprintln indent2 [w "every"; Health_Interval d]) ++
  unlessEmpty (Health_Timeout d) (Fprintln indent2 [w "timeout"; Health_Timeout d]) ++
  Fprintln indentUnit [w "}"].

Definition formatProbeBlock (probeName : string) (d : ProbeDecl) : text :=
  Fprintln indentUnit [w probeName; w "{"] ++
  (if isWord (Probe_Method d) "http" && negb (bool_decide (Probe_Path d = [])) then Fprintln indent2 [w "http"; Probe_Path d]
   else if isWord (Probe_Method d) "exec" && negb (bool_decide (Probe_Path d = [])) then Fprintln indent2 [w "exec"; quoteIfNeeded (Probe_Path d)]
   else unlessEmpty (Probe_Method d) (Fprintln indent2 [Probe_Method d])) ++
  unlessZero (Probe_Port d) (Fprintln indent2 [w "port"; decimal (Probe_Port d)]) ++
  unlessEmpty (Probe_Interval d) (Fprintln indent2 [w "every"; Probe_Interval d]) ++
  unlessEmpty (Probe_Timeout d) (Fprintln indent2 [w "timeout"; Probe_Timeout d]) ++
  whenTrue (negb (Probe_FailureThreshold d =? 3)) (Fprintln indent2 [w "failure_threshold"; decimal (Probe_FailureThreshold d)]) ++
  whenTrue (negb (Probe_SuccessThreshold d =? 1)) (Fprintln indent2 [w "success_threshold"; decimal (Probe_SuccessThreshold d)]) ++
  unlessEmpty (Probe_InitialDelay d) (Fprintln indent2 [w "initial_delay"; Probe_InitialDelay d]) ++
  Fprintln indentUnit [w "}"].

Definition formatServiceProbeFields (d : ServiceDecl) : text :=
  whenSome (Service_Health d) formatHealthBlock ++
  whenSome (Service_Startup d) (formatProbeBlock "startup") ++
  whenSome (Service_Liveness d) (formatProbeBlock "liveness") ++
  whenSome (Service_Readiness d) (formatProbeBlock "readiness").

Definition formatServiceResourceFields (d : ServiceDecl) : text :=
  whenSome (Service_Resources d) (λ r,
    Fprintln indentUnit [w "resources"; w "{"] ++
    unlessEmpty (Resources_CPU r) (Fprintln indent2 [w "cpu"; Resources_CPU r]) ++
    unlessEmpty (Resources_Memory r) (Fprintln indent2 [w "memory"; Resources_Memory r]) ++
    unlessEmpty (Resources_CPULimit r) (Fprintln indent2 [w "cpu_limit"; Resources_CPULimit r]) ++
    unlessEmpty (Resources_MemoryLimit r) (Fprintln indent2 [w "memory_limit"; Resources_MemoryLimit r]) ++
    Fprintln indentUnit [w "}"]).

Definition formatSchedule (d : ScheduleDecl) (indent : text) : text :=
  let indent4 := indent ++ indentUnit in
  Fprintln indent [w "schedule"; w "{"] ++
  unlessEmpty (Schedule_Days d) (Fprintln indent4 [w "days"; Schedule_Days d]) ++
  unlessEmpty (Schedule_Start d) (Fprintln indent4 [w "start"; quoteIfNeeded (Schedule_Start d)]) ++
  unlessEmpty (Schedule_End d) (Fprintln indent4 [w "end"; quoteIfNeeded (Schedule_End d)]) ++
  unlessZero (Schedule_Minimum d) (Fprintln indent4 [w "minimum"; decimal (Schedule_Minimum d)]) ++
  Fprintln indent [w "}"].

Definition formatStabilization (d : StabilizationDecl) (indent : text) : text :=
  let indent4 := indent ++ indentUnit in
  Fprintln indent [w "stabilization"; w "{"] ++
  unlessEmpty (Stabilization_ScaleUp d) (Fprintln indent4 [w "scale_up"; Stabilization_ScaleUp d]) ++
  unlessEmpty (Stabilization_ScaleDown d) (Fprintln indent4 [w "scale_down"; Stabilization_ScaleDown d]) ++
  Fprintln indent [w "}"].

Definition formatHorizontalScale (d : HorizontalScaleDecl) (indent : text) : text :=
  let indent3 := indent ++ indentUnit in
  Fprintln indent [w "horizontal"; w "{"] ++
  unlessZero (HorizontalScale_Min d) (Fprintln indent3 [w "min"; decimal (HorizontalScale_Min d)]) ++
  unlessZero (HorizontalScale_Max d) (Fprintln indent3 [w "max"; decimal (HorizontalScale_Max d)]) ++
  (HorizontalScale_Targets d ≫= λ t, Fprintln indent3 [w "target"; ScaleTarget_Metric t; w "="; decimal (ScaleTarget_Value t)]) ++
  (HorizontalScale_Events d ≫= λ e, Fprintln indent3 [w "event"; EventScale_Source e; w "="; decimal (EventScale_Target e)]) ++
  unlessEmpty (HorizontalScale_IdleTimeout d) (Fprintln indent3 [w "idle_timeout"; HorizontalScale_IdleTimeout d]) ++
  unlessEmpty (HorizontalScale_ActivationTimeout d) (Fprintln indent3 [w "activation_timeout"; HorizontalScale_ActivationTimeout d]) ++
  whenSome (HorizontalScale_Schedule d) (λ s, formatSchedule s indent3) ++
  whenSome (HorizontalScale_Stabilization d) (λ s, formatStabilization s indent3) ++
  Fprintln indent [w "}"].

Definition formatVerticalScale (d : VerticalScaleDecl) (indent : text) : text :=
  let indent3 := indent ++ indentUnit in
  Fprintln indent [w "vertical"; w "{"] ++
  whenTrue (negb (bool_decide (VerticalScale_CPUMin d = [])) || negb (bool_decide (VerticalScale_CPUMax d = [])))
    (Fprintln indent3 [w "cpu"; w "{"; w "min"; VerticalScale_CPUMin d; w "max"; VerticalScale_CPUMax d; w "}"]) ++
  whenTrue (negb (bool_decide (VerticalScale_MemoryMin d = [])) || negb (bool_decide (VerticalScale_MemoryMax d = [])))
    (Fprintln indent3 [w "memory"; w "{"; w "min"; VerticalScale_MemoryMin d; w "max"; VerticalScale_MemoryMax d; w "}"]) ++
  Fprintln indent [w "}"].

Definition formatServiceScaleFields (d : ServiceDecl) : text :=
  whenSome (Service_Scale d) (λ s,
    Fprintln indentUnit [w "scale"; w "{"] ++
    whenSome (Scale_Horizontal s) (λ h, formatHorizontalScale h indent2) ++
    whenSome (Scale_Vertical s) (λ v, formatVerticalScale v indent2) ++
    Fprintln indentUnit [w "}"]).

Definition formatZone (p : PlacementDecl) : text :=
  unlessEmpty (Placement_ZonePolicy p)
    (if 0 <? Placement_ZoneMaxSkew p then
       Fprintln indent2 [w "zone"; Placement_ZonePolicy p; w "maxSkew"; decimal (Placement_ZoneMaxSkew p)]
     else Fprintln indent2 [w "zone"; Placement_ZonePolicy p]).

Definition formatServicePlacementFields (d : ServiceDecl) : text :=
  whenSome (Service_Placement d) (λ p,
    Fprintln indentUnit [w "placement"; w "{"] ++
    unlessEmpty (Placement_Architecture p) (Fprintln indent2 [w "architecture"; Placement_Architecture p]) ++
    formatZone p ++
    (Placement_Require p ≫= λ r, Fprintln indent2 [w "require"; PlacementMatch_Label r; w "="; quoteIfNeeded (PlacementMatch_Value r)]) ++
    (Placement_Prefer p ≫= λ r, Fprintln indent2 [w "prefer"; PlacementMatch_Label r; w "="; quoteIfNeeded (PlacementMatch_Value r)]) ++
    (Placement_Accept p ≫= λ acceptLabel, Fprintln indent2 [w "accept"; acceptLabel]) ++
    whenTrue (Placement_Rebalance p) (Fprintln indent2 [w "rebalance"; w "true"]) ++
    Fprintln indentUnit [w "}"]).

Definition formatServiceUpdateFields (d : ServiceDecl) : text :=
  whenSome (Service_Update d) (λ u,
    Fprintln indentUnit [w "update"; w "{"] ++
    unlessZero (Update_MaxUnavailable u) (Fprintln indent2 [w "max_unavailable"; decimal (Update_MaxUnavailable u)]) ++
    unlessZero (Update_MaxExtra u) (Fprintln indent2 [w "max_extra"; decimal (Update_MaxExtra u)]) ++
    Fprintln indentUnit [w "}"]).

Definition formatServiceDisruptionFields (d : ServiceDecl) : text :=
  whenSome (Service_Disruption d) (λ b,
    Fprintln indentUnit [w "disruption"; w "{"] ++
    unlessZero (Disruption_MinAvailable b) (Fprintln indent2 [w "min_available"; decimal (Disruption_MinAvailable b)]) ++
    unlessZero (Disruption_MaxUnavailable b) (Fprintln indent2 [w "max_unavailable"; decimal (Disruption_MaxUnavailable b)]) ++
    Fprintln indentUnit [w "}"]).

Definition formatConfigFile (f : ConfigFileDecl) : text :=
  if negb (bool_decide (ConfigFile_FromFile f = [])) then
    Fprintln indent2 [w "file"; quoteIfNeeded (ConfigFile_Path f); w "from"; quoteIfNeeded (ConfigFile_FromFile f)]
  else Fprintln indent2 [w "file"; quoteIfNeeded (ConfigFile_Path f); quoteIfNeeded (ConfigFile_Content f)].

Definition formatServiceConfigFields (d : ServiceDecl) : text :=
  whenSome (Service_Config d) (λ c,
    Fprintln indentUnit [w "config"; w "{"] ++
    (Config_EnvVars c ≫= λ e, Fprintln indent2 [w "env"; EnvVar_Name e; quoteIfNeeded (EnvVar_Value e)]) ++
    (Config_ConfigFiles c ≫= formatConfigFile) ++
    Fprintln indentUnit [w "}"]).

Definition formatSecret (s : SecretDecl) : text :=
  if negb (bool_decide (Secret_MountPath s = [])) then Fprintln indentUnit [w "secret"; Secret_Name s; quoteIfNeeded (Secret_MountPath s)]
  else Fprintln indentUnit [w "secret"; Secret_Name s].

Definition formatConnectionRef (c : ConnectionRef) : text :=
  if negb (bool_decide (ConnectionRef_MountPath c = [])) then
    Fprintln indentUnit [w "connection"; ConnectionRef_ConnectionName c; quoteIfNeeded (ConnectionRef_MountPath c)]
  else Fprintln indentUnit [w "connection"; ConnectionRef_ConnectionName c].

Definition formatCloudBinding (b : CloudIdentityBindingDecl) : text :=
  Fprintln indentUnit [w "cloud_identity"; CloudIdentityBinding_IdentityName b; w "{"] ++
  unlessEmpty (CloudIdentityBinding_MountPath b) (Fprintln indent2 [w "mount_path"; quoteIfNeeded (CloudIdentityBinding_MountPath b)]) ++
  unlessEmpty (CloudIdentityBinding_DeliverMode b) (Fprintln indent2 [w "deliver"; CloudIdentityBinding_DeliverMode b]) ++
  Fprintln indentUnit [w "}"].

Definition formatServiceMountFields (d : ServiceDecl) : text :=
  (Service_Secrets d ≫= formatSecret) ++
  (Service_Connections d ≫= formatConnectionRef) ++
  (Service_VolumeMounts d ≫= λ m, Fprintln indentUnit [w "volume"; VolumeMount_VolumeName m; VolumeMount_MountPath m]) ++
  (Service_CloudIdentities d ≫= formatCloudBinding).

Definition formatServiceTagFields (d : ServiceDecl) : text :=
  if bool_decide (Service_Tags d = []) then []
  else
    Fprintln indentUnit [w "tags"; w "{"] ++
    (Service_Tags d ≫= λ t, Fprintln indent2 [Tag_Key t; quoteIfNeeded (Tag_Value t)]) ++
    Fprintln indentUnit [w "}"].

Definition formatServicePullPolicyField (d : ServiceDecl) : text :=
  unlessEmpty (Service_PullPolicy d) (Fprintln indentUnit [w "pull_policy"; Service_PullPolicy d]).

Definition formatServiceImagePullSecretField (d : ServiceDecl) : text :=
  unlessEmpty (Service_ImagePullSecret d) (Fprintln indentUnit [w "image_pull_secret"; quoteIfNeeded (Service_ImagePullSecret d)]).

Definition formatServiceLoggingFields (d : ServiceDecl) : text :=
  whenSome (Service_Logging d) (λ l,
    Fprintln indentUnit [w "logging"; w "{"] ++
    unlessEmpty (Logging_MaxSize l) (Fprintln indent2 [w "max_size"; quoteIfNeeded (Logging_MaxSize l)]) ++
    whenTrue (0 <? Logging_MaxFiles l) (Fprintln indent2 [w "max_files"; decimal (Logging_MaxFiles l)]) ++
    Fprintln indentUnit [w "}"]).

Definition formatServiceLifecycleFields (d : ServiceDecl) : text :=
  whenSome (Service_Lifecycle d) (λ l,
    Fprintln indentUnit [w "lifecycle"; w "{"] ++
    unlessEmpty (Lifecycle_PreStop l) (Fprintln indent2 [w "pre_stop"; quoteIfNeeded (Lifecycle_PreStop l)]) ++
    unlessEmpty (Lifecycle_PostStart l) (Fprintln indent2 [w "post_start"; quoteIfNeeded (Lifecycle_PostStart l)]) ++
    Fprintln indentUnit [w "}"]).

Definition formatServiceTerminationGracePeriodField (d : ServiceDecl) : text :=
  unlessEmpty (Service_TerminationGracePeriod d) (Fprintln indentUnit [w "termination_grace_period"; Service_TerminationGracePeriod d]).

Definition formatServiceDecl (d : ServiceDecl) : text :=
  Fprintln [] [w "service"; Service_Name d; w "{"] ++
  formatServiceIdentityFields d ++
  formatServiceNetworkFields d ++
  formatServiceInitFields d ++
  formatServiceProbeFields d ++
  formatServiceResourceFields d ++
  formatServiceScaleFields d ++
  formatServicePlacementFields d ++
  formatServiceUpdateFields d ++
  formatServiceDisruptionFields d ++
  formatServiceConfigFields d ++
  formatServiceMountFields d ++
  formatServiceTagFields d ++
  formatServicePullPolicyField d ++
  formatServiceImagePullSecretField d ++
  formatServiceLoggingFields d ++
  formatServiceLifecycleFields d ++
  formatServiceTerminationGracePeriodField d ++
  Fprintln [] [w "}"].

(** ** Gates *)

Definition formatRouteStickyDecl (d : RouteStickyDecl) : text :=
  if isWord (RouteSticky_Method d) "source-ip" then Fprintln indentUnit [w "sticky"; w "source-ip"]
  else match RouteSticky_Cookie d with
  | None => Fprintln indentUnit [w "sticky"; w "cookie"]
  | Some c =>
      Fprintln indentUnit [w "sticky"; w "cookie"; w "{"] ++
      unlessEmpty (RouteCookieSettings_Name c) (Fprintln indent2 [w "name"; quoteIfNeeded (RouteCookieSettings_Name c)]) ++
      whenTrue (RouteCookieSettings_Secure c) (Fprintln indent2 [w "secure"; w "true"]) ++
      whenTrue (RouteCookieSettings_HTTPOnly c) (Fprintln indent2 [w "http-only"; w "true"]) ++
      unlessEmpty (RouteCookieSettings_SameSite c) (Fprintln indent2 [w "same-site"; quoteIfNeeded (RouteCookieSettings_SameSite c)]) ++
      Fprintln indentUnit [w "}"]
  end.

Definition formatRouteTLSDecl (d : RouteTLSDecl) : text :=
  if bool_decide (RouteTLS_Mode d = RouteTLSModeAuto) && bool_decide (RouteTLS_CertFile d = []) then Fprintln indentUnit [w "tls"; w "auto"]
  else
    Fprintln indentUnit [w "tls"; w "{"] ++
    whenTrue (bool_decide (RouteTLS_Mode d = RouteTLSModeAuto)) (Fprintln indent2 [w "mode"; w "auto"]) ++
    unlessEmpty (RouteTLS_CertFile d) (Fprintln indent2 [w "cert"; quoteIfNeeded (RouteTLS_CertFile d)]) ++
    unlessEmpty (RouteTLS_KeyFile d) (Fprintln indent2 [w "key"; quoteIfNeeded (RouteTLS_KeyFile d)]) ++
    Fprintln indentUnit [w "}"].

Definition formatRouteDecl (d : RouteDecl) : text :=
  Fprintln [] [w "gate"; Route_Name d; w "{"] ++
  unlessEmpty (Route_Host d) (Fprintln indentUnit [w "host"; quoteIfNeeded (Route_Host d)]) ++
  unlessEmpty (Route_Path d) (Fprintln indentUnit [w "path"; quoteIfNeeded (Route_Path d)]) ++
  (if negb (Route_ServicePort d =? 0) then
     Fprintln indentUnit [w "service"; Route_ServiceName d; w "port"; decimal (Route_ServicePort d)]
   else Fprintln indentUnit [w "service"; Route_ServiceName d]) ++
  whenSome (Route_Sticky d) formatRouteStickyDecl ++
  whenSome (Route_TLS d) formatRouteTLSDecl ++
  Fprintln [] [w "}"].

(** ** Files *)

(** The declarations in the order they are written. *)
Definition formatDeclarations (file : File) : list text :=
  (formatConnectionDecl <$> File_Connections file) ++
  (formatVolumeDecl <$> File_Volumes file) ++
  (formatTenantDecl <$> File_Tenants file) ++
  (formatCredentialBrokerDecl <$> option_list (File_CredentialBroker file)) ++
  (formatCloudIdentityDecl <$> File_CloudIdentities file) ++
  (formatCloudDecl <$> option_list (File_Cloud file)) ++
  (formatRoleDecl <$> File_Roles file) ++
  (formatGroupDecl <$> File_Groups file) ++
  (formatGrantDecl <$> File_Grants file) ++
  (formatPolicyDecl <$> File_Policies file) ++
  (formatNetworkDecl <$> File_Networks file) ++
  (formatServiceGroupDecl <$> File_ServiceGroups file) ++
  (formatServiceDecl <$> File_Services file) ++
  (formatJobDecl <$> File_Jobs file) ++
  (formatCronJobDecl <$> File_CronJobs file) ++
  (formatRouteDecl <$> File_Routes file).

(** Each declaration after the first has a blank line before it. *)
Fixpoint writeDeclarations (needsBlank : bool) (declarations : list text) : text :=
  match declarations with
  | [] => []
  | declaration :: rest => whenTrue needsBlank [newline] ++ declaration ++ writeDeclarations true rest
  end.

Definition Format (file : File) : text :=
  let result := writeDeclarations false (formatDeclarations file) in
  if negb (bool_decide (result = [])) && negb (bool_decide (last result = Some newline)) then result ++ [newline] else result.

End quoting.
