(* ===== verification/FormatterChunks.v ===== *)
(** * Formatted text, the lexer and the rounds of the parser *)

From S2P Require Import Prelude GoStrings GoFmt Ast Lexer LexerProps ParserCore Parser Formatter.

Local Open Scope Z_scope.

(** * What the lexer makes of formatted text

    A line that the formatter writes is read as the tokens of its words and a
    newline, whatever follows it; lines read one after the other. *)

(** A token without its position. *)
Abbreviation kind := (TokenType * text)%type.

Definition kindOf (t : Token) : kind := (TokenTyp t, TokenValue t).

Section lexing.
Context `{Unicode}.

(** Calls that read these tokens, one after the other. *)
Inductive scans : Lexer → list Token → Lexer → Prop :=
| scans_nil lx : scans lx [] lx
| scans_cons lx token lx1 tokens lx' :
    scanNextToken lx = (inr token, lx1) → TokenTyp token ≠ TokenEOF → (length (unread lx1) < length (unread lx))%nat →
    scans lx1 tokens lx' → scans lx (token :: tokens) lx'.

Lemma scans_app lx ts1 lx1 ts2 lx2 : scans lx ts1 lx1 → scans lx1 ts2 lx2 → scans lx (ts1 ++ ts2) lx2.
Proof. induction 1; intros; simpl; [done|]. eapply scans_cons; eauto. Qed.

Lemma tokenizeLoop_scans rounds lx tokens lx' :
  scans lx tokens lx' → blanks (unread lx') → (length (unread lx) < rounds)%nat →
  ∃ eof, tokenizeLoop rounds lx = Some (inr (tokens ++ [eof])) ∧ kindOf eof = (TokenEOF, []).
Proof.
  intros Hs. revert rounds. induction Hs as [lx|lx token lx1 tokens lx' E Hty Hlt _ IH]; intros rounds Hb Hr; (destruct rounds as [|rounds]; [lia|]); simpl.
  - unfold scanNextToken. rewrite skip_blanks by done. simpl. by eexists.
  - rewrite E, decide_False by done. destruct (IH rounds Hb) as (eof & -> & He); [lia|]. by eexists.
Qed.

(** ** Words *)

(** The text [v] is read as these tokens where a rune that satisfies [stop] follows. *)
Definition lexesTo (v : text) (ks : list kind) (stop : rune → Prop) : Prop :=
  ∀ lx lead c rest, blanks lead → stop c → unread lx = lead ++ v ++ c :: rest →
    ∃ ts lx', scans lx ts lx' ∧ kindOf <$> ts = ks ∧ unread lx' = c :: rest.

(** What stands between words and at the end of a line. *)
Definition separator (c : rune) : Prop := c = space ∨ c = newline.

Definition lexesWord (v : text) (ks : list kind) : Prop := lexesTo v ks separator.

Lemma lexesTo_one v k (stop : rune → Prop) :
  v ≠ [] → fst k ≠ TokenEOF →
  (∀ lx lead c rest, blanks lead → stop c → unread lx = lead ++ v ++ c :: rest → reads_back k (c :: rest) (scanNextToken lx)) →
  lexesTo v [k] stop.
Proof.
  intros Hv Hk Hscan lx lead c rest Hl Hc E. destruct (Hscan lx lead c rest Hl Hc E) as (token & lx' & Es & Ek & U).
  exists [token], lx'. split_and!; [|by rewrite list_fmap_singleton; f_equal|done].
  eapply scans_cons; [done|by rewrite <-Ek in Hk| |apply scans_nil]. rewrite U, E, !length_app. destruct v; [done|]. simpl. lia.
Qed.

Lemma lexesTo_app v1 ks1 (stop1 : rune → Prop) c v2 ks2 stop2 :
  lexesTo v1 ks1 stop1 → lexesTo (c :: v2) ks2 stop2 → stop1 c → lexesTo (v1 ++ c :: v2) (ks1 ++ ks2) stop2.
Proof.
  intros H1 H2 Hc lx lead d rest Hl Hd E. rewrite <-app_assoc in E. simpl in E.
  destruct (H1 lx lead c (v2 ++ d :: rest) Hl Hc E) as (ts1 & lx1 & Hs1 & Ek1 & U1).
  destruct (H2 lx1 [] d rest) as (ts2 & lx2 & Hs2 & Ek2 & U2); [constructor|done|by rewrite U1|].
  exists (ts1 ++ ts2), lx2. split_and!; [by eapply scans_app|by rewrite fmap_app, Ek1, Ek2|done].
Qed.

Lemma lexesTo_weaken v ks (stop stop' : rune → Prop) : (∀ c, stop' c → stop c) → lexesTo v ks stop → lexesTo v ks stop'.
Proof. intros Hs Hv lx lead c rest Hl Hc. apply Hv; auto. Qed.

Definition identifier (v : text) : Prop := wellFormed (TokenIdent, v).
Definition number (v : text) : Prop := wellFormed (TokenNumber, v).

(** Between quotes as it is: printable, and neither a quote nor a backslash. *)
Definition plain (v : text) : Prop := Forall (λ c, IsPrint c = true ∧ c ≠ quote ∧ c ≠ backslash) v.

Definition afterIdentifier (c : rune) : Prop := isIdentifierContinuationChar c = false.
Definition afterNumber (c : rune) : Prop := isNumericChar c = false ∧ IsLetter c = false.

Lemma lexes_identifier v : identifier v → lexesTo v [(TokenIdent, v)] afterIdentifier.
Proof.
  intros [(c & rest & -> & Hc) Hall]. apply lexesTo_one; [done|done|]. intros lx lead d rest' Hl Hd E. simpl in E.
  eapply word_scan; [exact E|done|by left|]. intros lx1 U. rewrite start_char_digit, Hc by done. by apply identifier_back.
Qed.

Lemma lexes_number v : number v → lexesTo v [(TokenNumber, v)] afterNumber.
Proof.
  intros (c & digits & suffix & -> & Hc & Hd & Hs). apply lexesTo_one; [done|done|]. intros lx lead d rest Hl [H1 H2] E. simpl in E. rewrite <-app_assoc in E.
  eapply word_scan; [exact E|done|by right|]. intros lx1 U. rewrite Hc. apply (number_back lx1 (c :: digits) suffix); [done| |done|done|done].
  constructor; [|done]. unfold isNumericChar. by rewrite Hc.
Qed.

Lemma separator_classes c : separator c → afterIdentifier c ∧ afterNumber c.
Proof.
  destruct blank_classes as (B1 & B2 & B3). intros [->| ->]; split; [done|done|apply continuation_newline|].
  split; [apply numeric_newline|apply newline_classes].
Qed.

Lemma slash_classes : afterIdentifier slash ∧ afterNumber slash.
Proof.
  destruct (ascii_classes slash) as [H1 H2]; [done..|]. unfold afterIdentifier, afterNumber, isIdentifierContinuationChar, isNumericChar.
  rewrite H1, H2. done.
Qed.

Lemma word_identifier v : identifier v → lexesWord v [(TokenIdent, v)].
Proof. intros Hv. eapply lexesTo_weaken; [|by apply lexes_identifier]. intros c Hc. by apply separator_classes. Qed.

Lemma word_number v : number v → lexesWord v [(TokenNumber, v)].
Proof. intros Hv. eapply lexesTo_weaken; [|by apply lexes_number]. intros c Hc. by apply separator_classes. Qed.

(** The tokens that are always spelled the same. *)
Definition symbols : list kind :=
  [(TokenLBrace, [leftBrace]); (TokenRBrace, [rightBrace]); (TokenSlash, [slash]); (TokenEquals, [equals]);
   (TokenDoubleEquals, [equals; equals]); (TokenNotEquals, [bang; equals]); (TokenArrow, [minus; greater]); (TokenNewline, [newline])].

Lemma lexes_symbol ty v : (ty, v) ∈ symbols → lexesTo v [(ty, v)] (λ d, d ≠ equals).
Proof.
  intros Hin. unfold symbols in Hin. rewrite !elem_of_cons in Hin.
  assert (Hok : v ≠ [] ∧ ty ≠ TokenEOF) by (destruct_or?; simplify_eq; try done; by apply elem_of_nil in Hin).
  apply lexesTo_one; [apply Hok|apply Hok|]. intros lx lead d rest Hl Hd E.
  destruct_or?; simplify_eq; [..|by apply elem_of_nil in Hin].
  all: edestruct other_scan as (lx1 & Es & U); [exact E|exact Hl|done|done|].
  all: unfold scanNextToken; rewrite Es, U; cbv zeta; simpl.
  4: destruct (Z.eqb_spec d equals); [done|].
  all: by apply fixed_back.
Qed.

Lemma word_symbol ty v : (ty, v) ∈ symbols → lexesWord v [(ty, v)].
Proof. intros Hin. eapply lexesTo_weaken; [|by apply lexes_symbol]. by intros c [->| ->]. Qed.

Lemma Quote_plain v : plain v → Quote v = quote :: v ++ [quote].
Proof.
  intros Hv. unfold Quote. f_equal. f_equal. induction Hv as [|c v (Hp & Hq & Hb) _ IH]; [done|]. rewrite bind_cons, IH. unfold escapeRune.
  destruct (Z.eqb_spec c quote), (Z.eqb_spec c backslash); try done. simpl. by rewrite Hp.
Qed.

Lemma word_quoted v : plain v → lexesWord (Quote v) [(TokenString, v)].
Proof.
  intros Hv. rewrite Quote_plain by done. apply lexesTo_one; [done|done|]. intros lx lead c rest Hl Hc E. simpl in E. rewrite <-app_assoc in E. simpl in E.
  unfold plain in Hv. assert (Hq : quote ∉ v) by (intros Hin; rewrite Forall_forall in Hv; destruct (Hv _ Hin) as (_ & ? & _); done).
  assert (Hn : newline ∉ v) by (intros Hin; rewrite Forall_forall in Hv; destruct (Hv _ Hin) as (Hp & _); by rewrite print_ascii in Hp).
  destruct (other_scan lx lead quote (v ++ quote :: c :: rest) E Hl) as (lx1 & Es & U); [done|done|].
  unfold scanNextToken. rewrite Es, U. cbv zeta.
  assert (startsTriple (quote :: v ++ quote :: c :: rest) = false) as Ht.
  { destruct v as [|a [|b v]]; simpl; [by destruct Hc as [->| ->]| |]; (destruct (Z.eqb_spec a quote) as [->|]; [destruct Hq; apply list_elem_of_here|done]). }
  change (quote =? newline) with false. change (quote =? leftBrace) with false. change (quote =? rightBrace) with false.
  change (quote =? slash) with false. change (quote =? equals) with false. change (quote =? bang) with false. change (quote =? minus) with false.
  change (quote =? quote) with true. cbn [andb]. rewrite Ht. by apply quoted_back.
Qed.

(** What [quoteIfNeeded] writes is read as an identifier or a string. *)
Definition quotable (v : text) : Prop := identifier v ∨ plain v.

Lemma quoteIfNeeded_cases v : quoteIfNeeded v = v ∧ identifier v ∨ quoteIfNeeded v = Quote v ∧ ¬ identifier v.
Proof.
  unfold quoteIfNeeded, identifier, wellFormed. destruct v as [|c rest]; [right; split; [done|]; by intros [(? & ? & ? & _) _]|].
  change (IsLetter c || (c =? underscore)) with (isIdentifierStartChar c). destruct (isIdentifierStartChar c) eqn:Hc; simpl.
  - assert (Hcont : isIdentifierContinuationChar c = true).
    { unfold isIdentifierStartChar in Hc. unfold isIdentifierContinuationChar. apply orb_true_iff in Hc as [->| ->]; [done|]. by rewrite orb_true_r. }
    destruct (forallb isIdentifierContinuationChar rest) eqn:Hr.
    + left. split; [done|]. split; [by eexists _, _|]. constructor; [done|]. apply Forall_forall. intros d Hd.
      rewrite forallb_forall in Hr. apply Hr. by apply list_elem_of_In.
    + right. split; [done|]. intros [_ Hall]. apply Forall_cons in Hall as [_ Hall].
      assert (forallb isIdentifierContinuationChar rest = true) as Hr'; [|congruence]. apply forallb_forall. intros d Hd%list_elem_of_In.
      rewrite Forall_forall in Hall. by apply Hall.
  - right. split; [done|]. intros [(? & ? & ? & Hc') _]. simplify_eq. congruence.
Qed.

Lemma word_value v : quotable v → ∃ ty, lexesWord (quoteIfNeeded v) [(ty, v)] ∧ (ty = TokenIdent ∨ ty = TokenString).
Proof.
  intros Hq. destruct (quoteIfNeeded_cases v) as [[-> Hv]|[-> Hv]].
  - exists TokenIdent. split; [by apply word_identifier|by left].
  - exists TokenString. split; [|by right]. apply word_quoted. by destruct Hq.
Qed.

(** A number or an identifier, written as it is. *)
Definition amount (v : text) : Prop := number v ∨ identifier v.

Lemma word_amount v : amount v → ∃ ty, lexesWord v [(ty, v)] ∧ (ty = TokenNumber ∨ ty = TokenIdent).
Proof.
  intros [Hv|Hv]; [exists TokenNumber|exists TokenIdent]; (split; [|by auto]); [by apply word_number|by apply word_identifier].
Qed.
(** ** Decimals *)

Lemma runes_in s c : c ∈ runes s → ∃ b, c = Z.of_nat (nat_of_ascii b) ∧ ContainsByte s b = true.
Proof.
  induction s as [|d s IH]; [by intros ?%elem_of_nil|]. rewrite Ast.runes_cons. intros [->|Hc]%elem_of_cons.
  - exists d. split; [done|]. simpl. by destruct (ascii_dec d d).
  - destruct (IH Hc) as (b & -> & Hb). exists b. split; [done|]. simpl. by destruct (ascii_dec d b).
Qed.

Lemma digit_byte b : is_Some (digit_value b) → 48 ≤ Z.of_nat (nat_of_ascii b) ≤ 57.
Proof. destruct b as [[] [] [] [] [] [] [] []]; vm_compute; intros [? ?]; try discriminate; split; discriminate. Qed.

Lemma decimal_digits n : 0 ≤ n → Forall (λ c, 48 ≤ c ≤ 57) (decimal n).
Proof.
  intros Hn. apply Forall_forall. intros c Hc. destruct (runes_in _ _ Hc) as (b & -> & Hb). apply digit_byte.
  destruct (digit_value b) eqn:Ed; [done|]. exfalso. destruct (ascii_dec b "-") as [->|Hm]; [by rewrite Itoa_unsigned in Hb|].
  by rewrite Itoa_ContainsByte in Hb.
Qed.

Lemma decimal_number n : 0 ≤ n → number (decimal n).
Proof.
  intros Hn. pose proof (decimal_digits n Hn) as Hd. unfold number, wellFormed. pose proof (Itoa_nonempty n) as Hne. unfold decimal in *.
  destruct (Itoa n) as [|c s]; [done|]. rewrite Ast.runes_cons in *. apply Forall_cons in Hd as [Hc Hd]. cbv beta in Hc.
  eexists _, (runes s), []. rewrite app_nil_r. split_and!; [done| | |constructor].
  - rewrite digit_ascii by lia. unfold between. apply andb_true_iff. split; apply Z.leb_le; lia.
  - eapply Forall_impl; [exact Hd|]. intros d Hd'. cbv beta in Hd'. unfold isNumericChar. rewrite digit_ascii by lia. unfold between.
    destruct (Z.leb_spec 48 d), (Z.leb_spec d 57); first [lia|done].
Qed.

Lemma AtoiText_decimal n : 0 ≤ n → in_int64 n → AtoiText (decimal n) = Some n.
Proof.
  intros Hn Hr. assert (Hd : Ast.ascii_text (decimal n)) by (eapply Forall_impl; [by apply decimal_digits|]; simpl; lia).
  unfold AtoiText, decimal in *. by rewrite Ast.utf8_runes, Atoi_Itoa.
Qed.

Lemma word_decimal n : 0 ≤ n → lexesWord (decimal n) [(TokenNumber, decimal n)].
Proof. intros Hn. by apply word_number, decimal_number. Qed.

(** ** Paths *)

(** Segments with a slash before each. *)
Definition slashed (segments : list text) : text := segments ≫= cons slash.

Definition slashedKinds (segments : list kind) : list kind := segments ≫= λ k, [(TokenSlash, [slash]); k].

Lemma lexes_slashed (segments : list text) :
  Forall identifier segments → segments ≠ [] → lexesTo (slashed segments) (slashedKinds ((TokenIdent,.) <$> segments)) afterIdentifier.
Proof.
  intros Hall. induction Hall as [|v segments Hv Hall IH]; intros Hne; [done|].
  assert (Hone : lexesTo (slash :: v) [(TokenSlash, [slash]); (TokenIdent, v)] afterIdentifier).
  { pose proof Hv as [(c & rest & -> & Hc) _]. apply (lexesTo_app [slash] [(TokenSlash, [slash])] (λ d, d ≠ equals) c rest [(TokenIdent, c :: rest)]).
    - apply lexes_symbol. unfold symbols. set_solver.
    - by apply lexes_identifier.
    - intros ->. by rewrite start_char_ascii in Hc. }
  destruct segments as [|v2 segments]; [unfold slashed, slashedKinds; simpl; by rewrite app_nil_r|].
  specialize (IH ltac:(done)). unfold slashed, slashedKinds in *. rewrite fmap_cons, !bind_cons in *. rewrite <-app_comm_cons in IH.
  apply (lexesTo_app (slash :: v) _ afterIdentifier); [done|exact IH|apply slash_classes].
Qed.

(** A name of identifiers with slashes between them. *)
Definition hierarchical (v : text) (first : text) (segments : list text) : Prop :=
  v = first ++ slashed segments ∧ identifier first ∧ Forall identifier segments.

Lemma word_hierarchical v first segments :
  hierarchical v first segments → lexesWord v ((TokenIdent, first) :: slashedKinds ((TokenIdent,.) <$> segments)).
Proof.
  intros (-> & Hf & Hs). apply (lexesTo_weaken _ _ afterIdentifier); [intros c Hc; by apply separator_classes|].
  destruct segments as [|v2 segments]; [unfold slashed; simpl; rewrite app_nil_r; by apply lexes_identifier|].
  pose proof (lexes_slashed (v2 :: segments) Hs ltac:(done)) as Hl. unfold slashed in *. rewrite bind_cons in *. rewrite <-app_comm_cons in *.
  apply (lexesTo_app first [(TokenIdent, first)] afterIdentifier); [by apply lexes_identifier|exact Hl|apply slash_classes].
Qed.

Lemma word_path segments :
  Forall identifier segments → segments ≠ [] → lexesWord (slashed segments) (slashedKinds ((TokenIdent,.) <$> segments)).
Proof. intros Hs Hne. apply (lexesTo_weaken _ _ afterIdentifier); [intros c Hc; by apply separator_classes|]. by apply lexes_slashed. Qed.

(** ** Lines *)

(** Text that is read whole, whatever follows it. *)
Definition lexes (v : text) (ks : list kind) : Prop :=
  ∀ lx rest, unread lx = v ++ rest → ∃ ts lx', scans lx ts lx' ∧ kindOf <$> ts = ks ∧ unread lx' = rest.

Lemma lexes_nil : lexes [] [].
Proof. intros lx rest E. exists [], lx. split_and!; [constructor|done|done]. Qed.

Lemma lexes_app v1 ks1 v2 ks2 : lexes v1 ks1 → lexes v2 ks2 → lexes (v1 ++ v2) (ks1 ++ ks2).
Proof.
  intros H1 H2 lx rest E. rewrite <-app_assoc in E. destruct (H1 _ _ E) as (ts1 & lx1 & Hs1 & Ek1 & U1).
  destruct (H2 _ _ U1) as (ts2 & lx2 & Hs2 & Ek2 & U2). exists (ts1 ++ ts2), lx2.
  split_and!; [by eapply scans_app|by rewrite fmap_app, Ek1, Ek2|done].
Qed.

Definition newlineKind : kind := (TokenNewline, [newline]).

Lemma scans_newline lx lead rest :
  blanks lead → unread lx = lead ++ newline :: rest → ∃ t lx', scans lx [t] lx' ∧ kindOf t = newlineKind ∧ unread lx' = rest.
Proof.
  intros Hl E. destruct (other_scan lx lead newline rest E Hl) as (lx1 & Es & U); [done|done|].
  destruct (fixed_back TokenNewline [newline] lx1 rest U) as (t & lx2 & Ef & Ek & U2). exists t, lx2. split_and!; [|done|done].
  eapply scans_cons; [|by apply (f_equal fst) in Ek; simpl in Ek; rewrite Ek| |apply scans_nil].
  - unfold scanNextToken. rewrite Es, U. simpl. done.
  - rewrite U2, E, length_app. simpl. lia.
Qed.

Lemma scans_words lx lead words kss rest :
  Forall2 lexesWord words kss → blanks lead → unread lx = lead ++ joinWords words ++ newline :: rest →
  ∃ ts lx', scans lx ts lx' ∧ kindOf <$> ts = concat kss ++ [newlineKind] ∧ unread lx' = rest.
Proof.
  intros Hw. revert lx lead. induction Hw as [|v ks words kss Hv Hw IH]; intros lx lead Hl E.
  - destruct (scans_newline lx lead rest Hl E) as (t & lx' & Hs & Hk & U). exists [t], lx'. split_and!; [done|simpl; by rewrite Hk|done].
  - assert (Htail : ∃ c rest', unread lx = lead ++ v ++ c :: rest' ∧ separator c ∧
        ∀ lx1, unread lx1 = c :: rest' → ∃ lead', blanks lead' ∧ unread lx1 = lead' ++ joinWords words ++ newline :: rest).
    { destruct words as [|v2 words].
      - exists newline, rest. split_and!; [done|by right|]. intros lx1 U1. exists []. split; [constructor|done].
      - exists space, (joinWords (v2 :: words) ++ newline :: rest). split_and!; [rewrite E; simpl; by rewrite <-app_assoc|by left|].
        intros lx1 U1. exists [space]. split; [by repeat constructor|done]. }
    destruct Htail as (c & rest' & E1 & Hc & Hnext). destruct (Hv lx lead c rest' Hl Hc E1) as (ts1 & lx1 & Hs1 & Ek1 & U1).
    destruct (Hnext lx1 U1) as (lead' & Hl' & U1'). destruct (IH lx1 lead' Hl' U1') as (ts2 & lx2 & Hs2 & Ek2 & U2).
    exists (ts1 ++ ts2), lx2. split_and!; [by eapply scans_app|by rewrite fmap_app, Ek1, Ek2; simpl; rewrite app_assoc|done].
Qed.

Lemma lexes_line indent words kss :
  blanks indent → Forall2 lexesWord words kss → lexes (Fprintln indent words) (concat kss ++ [newlineKind]).
Proof.
  intros Hi Hw lx rest E. unfold Fprintln in E. rewrite <-!app_assoc in E. by eapply scans_words.
Qed.

Lemma lexes_newline : lexes [newline] [newlineKind].
Proof.
  intros lx rest E. destruct (scans_newline lx [] rest) as (t & lx' & Hs & Hk & U); [constructor|done|].
  exists [t], lx'. split_and!; [done|simpl; by rewrite Hk|done].
Qed.

Lemma Tokenize_lexes v ks : lexes v ks → ∃ ts eof, Tokenize v = Some (inr (ts ++ [eof])) ∧ kindOf <$> ts = ks ∧ kindOf eof = (TokenEOF, []).
Proof.
  intros Hv. destruct (Hv (NewLexer v) []) as (ts & lx' & Hs & Hk & U); [simpl; by rewrite app_nil_r|].
  destruct (tokenizeLoop_scans (S (length v)) (NewLexer v) ts lx' Hs) as (eof & E & He); [rewrite U; constructor|simpl; lia|].
  by exists ts, eof.
Qed.
End lexing.

(** * Formatted text and the rounds of the parser

    A chunk is text that the lexer reads whole and that takes a loop of the parser
    from one state to another. Chunks compose as the lines of a block and the
    declarations of a file do. *)

(** ** Rounds of a loop *)

Section rounds.
Context {St B : Type} (body : St → parse (St + B)).

Inductive runs : St → Parser → St → Parser → Prop :=
| runs_nil s p : runs s p s p
| runs_cons s p s1 p1 s' p' :
    body s p = Some (inr (inl s1), p1) → (length (remaining p1) < length (remaining p))%nat → runs s1 p1 s' p' → runs s p s' p'.

Lemma runs_app s p s1 p1 s2 p2 : runs s p s1 p1 → runs s1 p1 s2 p2 → runs s p s2 p2.
Proof. induction 1; intros; [done|]. eapply runs_cons; eauto. Qed.

Lemma loop_runs s p s' p' b p'' : runs s p s' p' → body s' p' = Some (inr (inr b), p'') → loop body s p = Some (inr b, p'').
Proof.
  intros Hr E. unfold loop. assert (Hle : (length (remaining p) < S (length (remaining p)))%nat) by lia. revert Hle.
  generalize (S (length (remaining p))) as rounds. induction Hr as [s p|s p s1 p1 s' p' E1 Hlt _ IH]; intros rounds Hlt';
    (destruct rounds as [|rounds]; [lia|]); simpl; unfold mbind at 1, parse_bind at 1.
  - by rewrite E.
  - rewrite E1. apply IH; [done|lia].
Qed.
End rounds.

Definition isNewline (t : Token) : Prop := TokenTyp t = TokenNewline.

(** What follows is not a newline. *)
Definition continues (rest : list Token) : Prop := match rest with [] => False | t :: _ => ¬ isNewline t end.

Lemma dropNewlines_continues nls rest : Forall isNewline nls → continues rest → dropNewlines (nls ++ rest) = rest.
Proof.
  intros Hn Hr. induction Hn as [|t nls Ht _ IH]; simpl.
  - destruct rest as [|t rest]; [done|]. simpl. by rewrite bool_decide_false.
  - by rewrite bool_decide_true.
Qed.

Section chunks.
Context `{Unicode}.

(** From a state that satisfies [P] to one that satisfies [Q], with the newlines
    that follow read too. *)
Definition chunk {St B} (body : St → parse (St + B)) (v : text) (P Q : St → Prop) : Prop :=
  ∃ ks, lexes v ks ∧ (match ks with [] => True | k :: _ => fst k ≠ TokenNewline end) ∧
    ∀ s ts nls rest ls file, P s → kindOf <$> ts = ks → Forall isNewline nls → (ks = [] → nls = []) → continues rest →
      ∃ s', Q s' ∧ runs body s (mkParser (ts ++ nls ++ rest) ls file) s' (mkParser rest ls file).

Context {St B : Type} (body : St → parse (St + B)).

Lemma chunk_nil (P Q : St → Prop) : (∀ s, P s → Q s) → chunk body [] P Q.
Proof.
  intros HPQ. exists []. split_and!; [apply lexes_nil|done|]. intros s ts nls rest ls file Hs ->%fmap_nil_inv Hn Hk Hr.
  rewrite Hk by done. exists s. split; [auto|apply runs_nil].
Qed.

Lemma chunk_app v1 v2 (P Q R : St → Prop) : chunk body v1 P Q → chunk body v2 Q R → chunk body (v1 ++ v2) P R.
Proof.
  intros (ks1 & L1 & F1 & H1) (ks2 & L2 & F2 & H2). exists (ks1 ++ ks2). split_and!; [by apply lexes_app|by destruct ks1|].
  intros s ts nls rest ls file Hs Ek Hn Hnk Hr. apply fmap_app_inv in Ek as (ts1 & ts2 & E1 & E2 & ->). symmetry in E1, E2.
  destruct (decide (ks2 = [])) as [->|Hne].
  - apply fmap_nil_inv in E2 as ->. rewrite app_nil_r in *.
    destruct (H1 s ts1 nls rest ls file Hs E1 Hn Hnk Hr) as (s1 & Hs1 & Hr1).
    destruct (H2 s1 [] [] rest ls file Hs1 eq_refl) as (s2 & Hs2 & Hr2); [constructor|done|done|]. exists s2. split; [done|by eapply runs_app].
  - assert (Hc : continues (ts2 ++ nls ++ rest)).
    { destruct ks2 as [|k ks2]; [done|]. destruct ts2 as [|t ts2]; [done|]. simpl in *. injection E2 as <- _. exact F2. }
    destruct (H1 s ts1 [] (ts2 ++ nls ++ rest) ls file Hs E1) as (s1 & Hs1 & Hr1); [constructor|done|done|].
    destruct (H2 s1 ts2 nls rest ls file Hs1 E2 Hn) as (s2 & Hs2 & Hr2); [done|done|].
    exists s2. split; [done|]. rewrite <-app_assoc. by eapply runs_app.
Qed.

Lemma chunk_weaken v (P Q P' Q' : St → Prop) : chunk body v P Q → (∀ s, P' s → P s) → (∀ s, Q s → Q' s) → chunk body v P' Q'.
Proof.
  intros (ks & L & F & Hc) HP HQ. exists ks. split_and!; [done|done|]. intros s ts nls rest ls file Hs Ek Hn Hnk Hr.
  destruct (Hc s ts nls rest ls file (HP s Hs) Ek Hn Hnk Hr) as (s' & Hs' & Hruns). eauto.
Qed.

Lemma chunk_if (b : bool) v (P Q : St → Prop) :
  (b = true → chunk body v P Q) → (b = false → ∀ s, P s → Q s) → chunk body (whenTrue b v) P Q.
Proof. destruct b; intros H1 H2; [by apply H1|apply chunk_nil; by apply H2]. Qed.

Lemma chunk_unlessEmpty x v (P Q : St → Prop) :
  (x ≠ [] → chunk body v P Q) → (x = [] → ∀ s, P s → Q s) → chunk body (unlessEmpty x v) P Q.
Proof. intros H1 H2. unfold unlessEmpty. case_bool_decide; [apply chunk_nil; by apply H2|by apply H1]. Qed.

Lemma chunk_unlessZero n v (P Q : St → Prop) :
  (n ≠ 0 → chunk body v P Q) → (n = 0 → ∀ s, P s → Q s) → chunk body (unlessZero n v) P Q.
Proof. intros H1 H2. unfold unlessZero. destruct (Z.eqb_spec n 0); [apply chunk_nil; by apply H2|by apply H1]. Qed.

Lemma chunk_whenSome {A} (x : option A) (v : A → text) (P Q : St → Prop) :
  (∀ a, x = Some a → chunk body (v a) P Q) → (x = None → ∀ s, P s → Q s) → chunk body (whenSome x v) P Q.
Proof. destruct x; intros H1 H2; [by apply H1|apply chunk_nil; by apply H2]. Qed.

(** One chunk per element of a list; the state says which elements are done. *)
Lemma chunk_list {A} (xs : list A) (v : A → text) (I : list A → St → Prop) :
  (∀ done x, x ∈ xs → chunk body (v x) (I done) (I (done ++ [x]))) → chunk body (xs ≫= v) (I []) (I xs).
Proof.
  intros Hx. enough (Hgen : ∀ done todo, xs = done ++ todo → chunk body (todo ≫= v) (I done) (I xs)) by (by apply (Hgen [] xs)).
  intros done todo. revert done. induction todo as [|x todo IH]; intros done E.
  - rewrite app_nil_r in E. subst. by apply chunk_nil.
  - rewrite bind_cons. eapply chunk_app; [apply Hx|apply IH].
    + rewrite E. apply elem_of_app. right. apply list_elem_of_here.
    + by rewrite E, <-app_assoc.
Qed.
End chunks.

(** ** What the parsing functions make of given tokens *)

Lemma bind_run {A B} (m : parse A) (k : A → parse B) p a p' : m p = Some (inr a, p') → (m ≫= k) p = k a p'.
Proof. unfold mbind, parse_bind. by intros ->. Qed.

Lemma fmap_run {A B} (f : A → B) (m : parse A) p a p' : m p = Some (inr a, p') → (f <$> m) p = Some (inr (f a), p').
Proof. intros E. by apply (bind_run m (λ a, mret (f a))) in E. Qed.

Lemma switch_here {A} v word (branch : A) cases otherwise : isWord v word = true → switch v ((word, branch) :: cases) otherwise = branch.
Proof. simpl. by intros ->. Qed.

Lemma switch_other {A} v word (branch : A) cases otherwise :
  isWord v word = false → switch v ((word, branch) :: cases) otherwise = switch v cases otherwise.
Proof. simpl. by intros ->. Qed.

(** A nonnegative [int]. *)
Definition natural (n : Z) : Prop := 0 ≤ n ≤ int64_max.

Section runs_of.
Context (t : Token) (rest : list Token) (ls : list text) (file : text).
Let p := mkParser (t :: rest) ls file.
Let p' := mkParser rest ls file.

Lemma currentToken_run : currentToken p = Some (inr t, p).
Proof. done. Qed.

Lemma advanceToken_run : advanceToken p = Some (inr (), p').
Proof. unfold advanceToken. simpl. by rewrite drop_0. Qed.

Lemma currentTokenIs_run ty : currentTokenIs ty p = Some (inr (bool_decide (TokenTyp t = ty)), p).
Proof. done. Qed.

Lemma currentWordIs_run word :
  currentWordIs word p = Some (inr (bool_decide (TokenTyp t = TokenIdent) && isWord (TokenValue t) word), p).
Proof. done. Qed.

Lemma isAtEnd_run : isAtEnd p = Some (inr (bool_decide (TokenTyp t = TokenEOF)), p).
Proof. done. Qed.

Lemma expectToken_run ty v : kindOf t = (ty, v) → expectToken ty p = Some (inr (), p').
Proof.
  intros [= Ht _]. unfold expectToken. rewrite (bind_run _ _ _ _ _ currentToken_run), bool_decide_true by done. apply advanceToken_run.
Qed.

Lemma expectIdentifier_run v : kindOf t = (TokenIdent, v) → expectIdentifier p = Some (inr v, p').
Proof.
  intros [= Ht Hv]. unfold expectIdentifier. rewrite (bind_run _ _ _ _ _ currentToken_run), bool_decide_true by done.
  rewrite (bind_run _ _ _ _ _ advanceToken_run). by rewrite Hv.
Qed.

Lemma expectStringOrIdentifier_run ty v :
  kindOf t = (ty, v) → ty = TokenIdent ∨ ty = TokenString → expectStringOrIdentifier p = Some (inr v, p').
Proof.
  intros Hk Hty. unfold expectStringOrIdentifier. rewrite (bind_run _ _ _ _ _ currentToken_run). injection Hk as Ht Hv. case_bool_decide as Hs.
  - rewrite (bind_run _ _ _ _ _ advanceToken_run). by rewrite Hv.
  - apply expectIdentifier_run. destruct Hty as [->| ->]; [|done]. unfold kindOf. congruence.
Qed.

Lemma expectOneOf_run types format args ty v : kindOf t = (ty, v) → ty ∈ types → expectOneOf types format args p = Some (inr v, p').
Proof.
  intros [= Ht Hv] Hin. unfold expectOneOf. rewrite (bind_run _ _ _ _ _ currentToken_run), bool_decide_true by (by rewrite Ht).
  rewrite (bind_run _ _ _ _ _ advanceToken_run). by rewrite Hv.
Qed.

Lemma expectValue_run format args ty v :
  kindOf t = (ty, v) → ty = TokenNumber ∨ ty = TokenIdent → expectValue format args p = Some (inr v, p').
Proof. intros Hk Hty. eapply expectOneOf_run; [done|]. set_solver. Qed.

Lemma expectResourceValue_run ty v :
  kindOf t = (ty, v) → ty = TokenNumber ∨ ty = TokenIdent → expectResourceValue p = Some (inr v, p').
Proof.
  intros [= Ht Hv] Hty. unfold expectResourceValue. rewrite (bind_run _ _ _ _ _ currentToken_run), bool_decide_true by (rewrite Ht; set_solver).
  rewrite (bind_run _ _ _ _ _ advanceToken_run). by rewrite Hv.
Qed.

Lemma expectInteger_run n : kindOf t = (TokenNumber, decimal n) → natural n → expectInteger p = Some (inr n, p').
Proof.
  intros [= Ht Hv] [H1 H2]. unfold expectInteger. rewrite (bind_run _ _ _ _ _ currentToken_run), bool_decide_true by done.
  rewrite (bind_run _ _ _ _ _ advanceToken_run), Hv, AtoiText_decimal; [done|done|]. split; [|done]. unfold int64_min. lia.
Qed.

Lemma expectBooleanValue_run : kindOf t = (TokenIdent, runes "true") → expectBooleanValue p = Some (inr true, p').
Proof. intros Hk. unfold expectBooleanValue. by rewrite (bind_run _ _ _ _ _ (expectIdentifier_run _ Hk)). Qed.
End runs_of.

(** ** Lines and blocks *)

Section lines.
Context `{Unicode}.

(** The field is parsed from the tokens of its value, up to the newline after them. *)
Definition takes {D} (field : D → text → parse D) (key : text) (ks : list kind) (P Q : D → Prop) : Prop :=
  ∀ d ts nl rest ls file, P d → kindOf <$> ts = ks → isNewline nl →
    ∃ d', Q d' ∧ field d key (mkParser (ts ++ nl :: rest) ls file) = Some (inr d', mkParser (nl :: rest) ls file).

Lemma skipNewlineTokens_run nls rest ls file :
  Forall isNewline nls → continues rest → skipNewlineTokens (mkParser (nls ++ rest) ls file) = Some (inr (), mkParser rest ls file).
Proof. intros Hn Hr. unfold skipNewlineTokens. simpl. by rewrite dropNewlines_continues. Qed.

(** A round at the key of a field that is parsed up to some newlines. *)
Lemma nextField_run {D} (field : D → text → parse D) t key after nls rest ls file d d' :
  kindOf t = (TokenIdent, key) → field d key (mkParser after ls file) = Some (inr d', mkParser (nls ++ rest) ls file) →
  Forall isNewline nls → continues rest → nextField field d (mkParser (t :: after) ls file) = Some (inr (inl d'), mkParser rest ls file).
Proof.
  intros Hk Hf Hn Hr. unfold nextField. pose proof Hk as [= Ht _].
  rewrite (bind_run _ _ _ _ _ (currentTokenIs_run t after ls file TokenRBrace)), (bind_run _ _ _ _ _ (isAtEnd_run t after ls file)), Ht.
  change (bool_decide (TokenIdent = TokenRBrace) || bool_decide (TokenIdent = TokenEOF)) with false. cbv iota.
  rewrite (bind_run _ _ _ _ _ (expectIdentifier_run t after ls file key Hk)), (bind_run _ _ _ _ _ Hf).
  by rewrite (bind_run _ _ _ _ _ (skipNewlineTokens_run nls rest ls file Hn Hr)).
Qed.

Lemma chunk_field {D} (field : D → text → parse D) indent key words kss (P Q : D → Prop) :
  blanks indent → identifier key → Forall2 lexesWord words kss → takes field key (concat kss) P Q →
  chunk (nextField field) (Fprintln indent (key :: words)) P Q.
Proof.
  intros Hi Hkey Hw Ht. exists (((TokenIdent, key) :: concat kss) ++ [newlineKind]).
  split_and!; [apply (lexes_line indent (key :: words) ([(TokenIdent, key)] :: kss)); [done|constructor; [by apply word_identifier|done]]|done|].
  intros d ts nls rest ls file Hd Ek Hn _ Hr. apply fmap_app_inv in Ek as (ts1 & ts2 & E1 & E2 & ->). symmetry in E1, E2.
  apply fmap_cons_inv in E1 as (t & ts & Ekey & Ets & ->). apply fmap_cons_inv in E2 as (nl & l & Enl & El & ->).
  symmetry in El. apply fmap_nil_inv in El as ->. symmetry in Ekey, Ets, Enl. apply (f_equal fst) in Enl as Hnl. simpl in Hnl.
  destruct (Ht d ts nl (nls ++ rest) ls file Hd Ets Hnl) as (d' & HQ & Hf). exists d'. split; [done|].
  eapply runs_cons; [| |apply runs_nil].
  - simpl. rewrite <-app_assoc. eapply (nextField_run field t key _ (nl :: nls) rest); [done|exact Hf|by constructor|done].
  - simpl. rewrite !length_app. simpl. lia.
Qed.

(** A loop between braces. *)
Definition braced {D} (body : D → parse (D + D)) (d : D) : parse D :=
  expectToken TokenLBrace;; skipNewlineTokens;; d' ← loop body d; expectToken TokenRBrace;; mret d'.

(** Its rounds end at the closing brace. *)
Definition ends_at_brace {D} (body : D → parse (D + D)) : Prop :=
  ∀ d rb rest ls file, TokenTyp rb = TokenRBrace → body d (mkParser (rb :: rest) ls file) = Some (inr (inr d), mkParser (rb :: rest) ls file).

Lemma nextField_ends {D} (field : D → text → parse D) : ends_at_brace (nextField field).
Proof.
  intros d rb rest ls file Hrb. unfold nextField. rewrite (bind_run _ _ _ _ _ (currentTokenIs_run rb rest ls file TokenRBrace)).
  by rewrite (bind_run _ _ _ _ _ (isAtEnd_run rb rest ls file)), Hrb.
Qed.

(** What is between the braces is a chunk. *)
Lemma braced_run {D} (body : D → parse (D + D)) v (P Q : D → Prop) :
  ends_at_brace body → chunk body v P Q →
  ∃ ks, lexes v ks ∧ ∀ d lb nl ts rb rest ls file,
    P d → TokenTyp lb = TokenLBrace → isNewline nl → kindOf <$> ts = ks → TokenTyp rb = TokenRBrace →
    ∃ d', Q d' ∧ braced body d (mkParser (lb :: nl :: ts ++ rb :: rest) ls file) = Some (inr d', mkParser rest ls file).
Proof.
  intros Hend (ks & L & F & Hc). exists ks. split; [done|]. intros d lb nl ts rb rest ls file Hd Hlb Hnl Ek Hrb.
  destruct (Hc d ts [] (rb :: rest) ls file Hd Ek) as (d' & HQ & Hruns); [constructor|done|simpl; unfold isNewline; congruence|].
  assert (Hcont : continues (ts ++ rb :: rest)).
  { destruct ks as [|k ks]; [apply fmap_nil_inv in Ek as ->; simpl; unfold isNewline; congruence|].
    destruct ts as [|t ts]; [done|]. simpl in *. injection Ek as <- _. exact F. }
  exists d'. split; [done|]. unfold braced. rewrite (bind_run _ _ _ _ _ (expectToken_run lb _ ls file TokenLBrace (TokenValue lb) (f_equal2 pair Hlb eq_refl))).
  rewrite (bind_run _ _ _ _ _ (skipNewlineTokens_run [nl] (ts ++ rb :: rest) ls file ltac:(by constructor) Hcont)).
  rewrite (bind_run (loop body d) _ _ d' (mkParser (rb :: rest) ls file)).
  - rewrite (bind_run _ _ _ _ _ (expectToken_run rb rest ls file TokenRBrace (TokenValue rb) (f_equal2 pair Hrb eq_refl))). done.
  - eapply loop_runs; [exact Hruns|]. by apply Hend.
Qed.

(** A block whose lines are a chunk. *)
Lemma block_run {D} (field : D → text → parse D) v (P Q : D → Prop) :
  chunk (nextField field) v P Q →
  ∃ ks, lexes v ks ∧ ∀ d lb nl ts rb rest ls file,
    P d → TokenTyp lb = TokenLBrace → isNewline nl → kindOf <$> ts = ks → TokenTyp rb = TokenRBrace →
    ∃ d', Q d' ∧ block field d (mkParser (lb :: nl :: ts ++ rb :: rest) ls file) = Some (inr d', mkParser rest ls file).
Proof. apply braced_run, nextField_ends. Qed.

(** The field is parsed from some words and a block. *)
Definition takes_block {D E} (field : D → text → parse D) (key : text) (ks : list kind) (inner : E → text → parse E)
    (e : E) (R : E → Prop) (P Q : D → Prop) : Prop :=
  ∀ d e' ts lb rest nl rest' ls file, P d → R e' → kindOf <$> ts = ks → TokenTyp lb = TokenLBrace → isNewline nl →
    block inner e (mkParser (lb :: rest) ls file) = Some (inr e', mkParser (nl :: rest') ls file) →
    ∃ d', Q d' ∧ field d key (mkParser (ts ++ lb :: rest) ls file) = Some (inr d', mkParser (nl :: rest') ls file).

(** The text of a block, and its tokens. *)
Lemma lexes_block indent indent' key words kss v ks :
  blanks indent → blanks indent' → identifier key → Forall2 lexesWord words kss → lexes v ks →
  lexes (Fprintln indent (key :: words ++ [runes "{"]) ++ v ++ Fprintln indent' [runes "}"])
    ((TokenIdent, key) :: (concat kss ++ [(TokenLBrace, [leftBrace]); newlineKind]) ++ ks ++ [(TokenRBrace, [rightBrace]); newlineKind]).
Proof.
  intros Hi Hi' Hkey Hw L.
  assert (Hl1 : lexes (Fprintln indent (key :: words ++ [runes "{"])) ((TokenIdent, key) :: concat kss ++ [(TokenLBrace, [leftBrace]); newlineKind])).
  { replace ((TokenIdent, key) :: concat kss ++ _) with (concat ([(TokenIdent, key)] :: kss ++ [[(TokenLBrace, [leftBrace])]]) ++ [newlineKind]);
      [|simpl; rewrite concat_app; simpl; by rewrite <-!app_assoc].
    apply lexes_line; [done|]. constructor; [by apply word_identifier|]. apply Forall2_app; [done|]. constructor; [|constructor].
    apply word_symbol. unfold symbols. set_solver. }
  assert (Hl2 : lexes (Fprintln indent' [runes "}"]) [(TokenRBrace, [rightBrace]); newlineKind]).
  { apply (lexes_line indent' [runes "}"] [[(TokenRBrace, [rightBrace])]]); [done|]. constructor; [|constructor].
    apply word_symbol. unfold symbols. set_solver. }
  exact (lexes_app _ _ _ _ Hl1 (lexes_app _ _ _ _ L Hl2)).
Qed.

Lemma block_tokens ts key ks1 ks2 :
  kindOf <$> ts = (TokenIdent, key) :: (ks1 ++ [(TokenLBrace, [leftBrace]); newlineKind]) ++ ks2 ++ [(TokenRBrace, [rightBrace]); newlineKind] →
  ∃ t tw lb nl tv rb nl', ts = t :: tw ++ lb :: nl :: tv ++ [rb; nl'] ∧ kindOf t = (TokenIdent, key) ∧ kindOf <$> tw = ks1 ∧
    TokenTyp lb = TokenLBrace ∧ isNewline nl ∧ kindOf <$> tv = ks2 ∧ TokenTyp rb = TokenRBrace ∧ isNewline nl'.
Proof.
  intros Ek. apply fmap_cons_inv in Ek as (t & ts0 & Ekey & Ek & ->).
  symmetry in Ekey, Ek. apply fmap_app_inv in Ek as (ts1 & ts2 & E1 & E2 & ->). symmetry in E1, E2.
  apply fmap_app_inv in E1 as (tw & tb & Ew & Eb & ->). symmetry in Ew, Eb. destruct tb as [|lb [|nl [|]]]; try done. injection Eb as Hlb _ Hnl _.
  apply fmap_app_inv in E2 as (tv & te & Ev & Ee & ->). symmetry in Ev, Ee. destruct te as [|rb [|nl2 [|]]]; try done. injection Ee as Hrb _ Hnl2 _.
  exists t, tw, lb, nl, tv, rb, nl2. split_and!; try done. by rewrite <-app_assoc.
Qed.

Lemma chunk_block {D E} (field : D → text → parse D) (inner : E → text → parse E) indent indent' key words kss v e (R : E → Prop) (P Q : D → Prop) :
  blanks indent → blanks indent' → identifier key → Forall2 lexesWord words kss →
  chunk (nextField inner) v (λ e', e' = e) R → takes_block field key (concat kss) inner e R P Q →
  chunk (nextField field) (Fprintln indent (key :: words ++ [runes "{"]) ++ v ++ Fprintln indent' [runes "}"]) P Q.
Proof.
  intros Hi Hi' Hkey Hw Hv Ht. destruct (block_run inner v _ _ Hv) as (ks & L & Hblock).
  eexists. split_and!; [by apply lexes_block|done|].
  intros d ts nls rest ls file Hd Ek Hn _ Hr. apply block_tokens in Ek as (t & tw & lb & nl & tv & rb & nl2 & -> & Ekey & Ew & Hlb & Hnl & Ev & Hrb & Hnl2).
  destruct (Hblock e lb nl tv rb (nl2 :: nls ++ rest) ls file) as (e' & HR & Hb); [done..|].
  destruct (Ht d e' tw lb (nl :: tv ++ rb :: nl2 :: nls ++ rest) nl2 (nls ++ rest) ls file Hd HR Ew Hlb Hnl2 Hb) as (d' & HQ & Hf).
  exists d'. split; [done|]. eapply runs_cons; [| |apply runs_nil].
  - simpl. rewrite <-!app_assoc. simpl. rewrite <-!app_assoc. simpl. eapply (nextField_run field t key _ (nl2 :: nls) rest); [done|exact Hf|by constructor|done].
  - simpl. rewrite !length_app. simpl. rewrite !length_app. simpl. lia.
Qed.
End lines.
