(* ===== verification/FormatterBlocks.v ===== *)
(** * Reading formatted lines and blocks back *)

From S2P Require Import Prelude GoFmt Ast Lexer LexerProps ParserCore Parser Formatter FormatterChunks.

Local Open Scope Z_scope.

(** * Lines of one value, and blocks of lines

    For each way a field is parsed, the line it is read back from. A state is
    described up to its source lines: [strip d = X]. *)

Create HintDb format.

Section words.
Context `{Unicode}.

(** Words of ASCII letters, digits and the punctuation of identifiers. *)
Definition keywordStart (c : rune) : bool := between 97 122 c || between 65 90 c || (c =? underscore).
Definition keywordRune (c : rune) : bool := keywordStart c || between 48 57 c || (c =? minus) || (c =? dot) || (c =? colon).

Definition isKeyword (v : text) : bool := match v with [] => false | c :: _ => keywordStart c && forallb keywordRune v end.

Lemma keyword_identifier v : isKeyword v = true → identifier v.
Proof.
  destruct v as [|c rest]; [done|]. unfold isKeyword. intros [Hc Hall]%andb_true_iff.
  assert (Hascii : ∀ d, keywordRune d = true → 0 ≤ d < 128).
  { intros d. unfold keywordRune, keywordStart, between, underscore, minus, dot, colon. rewrite !orb_true_iff, !andb_true_iff, !Z.leb_le, !Z.eqb_eq. lia. }
  assert (Hcont : ∀ d, keywordRune d = true → isIdentifierContinuationChar d = true).
  { intros d Hd. pose proof (Hascii d Hd). unfold isIdentifierContinuationChar. rewrite letter_ascii, digit_ascii by done.
    unfold keywordRune, keywordStart in Hd. destruct (between 97 122 d), (between 65 90 d), (between 48 57 d), (d =? underscore), (d =? minus), (d =? dot); done. }
  rewrite forallb_forall in Hall. split.
  - exists c, rest. split; [done|]. assert (0 ≤ c < 128) by (apply Hascii, Hall; by left).
    unfold isIdentifierStartChar. rewrite letter_ascii by done. exact Hc.
  - apply Forall_forall. intros d Hd. apply Hcont, Hall. by apply list_elem_of_In.
Qed.

Lemma word_keyword v : isKeyword v = true → lexesWord v [(TokenIdent, v)].
Proof. intros Hv. by apply word_identifier, keyword_identifier. Qed.

Lemma indent_blanks : blanks indentUnit.
Proof. by repeat constructor. Qed.

Lemma indent_app a b : blanks a → blanks b → blanks (a ++ b).
Proof. apply Forall_app_2. Qed.
End words.

#[export] Hint Resolve indent_blanks indent_app : format.
#[export] Hint Extern 1 (blanks indent2) => apply indent_app; apply indent_blanks : format.
#[export] Hint Extern 1 (blanks []) => constructor : format.

Section values.
Context `{Unicode} {D : Type} (strip : D → D) (field : D → text → parse D).

(** A field parsed by one function from one word. *)
Lemma chunk_one {A} (m : parse A) (upd : D → A → D) (a : A) indent key word k X :
  blanks indent → isKeyword key = true → lexesWord word [k] →
  (∀ t rest ls file, kindOf t = k → m (mkParser (t :: rest) ls file) = Some (inr a, mkParser rest ls file)) →
  (∀ d, field d key = (v ← m; mret (upd d v))) → (∀ d v, strip (upd d v) = upd (strip d) v) →
  chunk (nextField field) (Fprintln indent [key; word]) (λ d, strip d = X) (λ d, strip d = upd X a).
Proof.
  intros Hi Hkey Hw Hm Hf Hs. eapply chunk_field; [done|by apply keyword_identifier|constructor; [exact Hw|constructor]|].
  intros d ts nl rest ls file <- Ek Hnl. destruct ts as [|t [|]]; try done. simpl in Ek. injection Ek as Ek.
  exists (upd d a). split; [apply Hs|]. rewrite Hf. simpl. by rewrite (bind_run _ _ _ _ _ (Hm t (nl :: rest) ls file Ek)).
Qed.

Lemma chunk_string upd v indent key X :
  (∀ d, field d key = (v ← expectStringOrIdentifier; mret (upd d v))) → (∀ d v, strip (upd d v) = upd (strip d) v) →
  blanks indent → isKeyword key = true → quotable v →
  chunk (nextField field) (Fprintln indent [key; quoteIfNeeded v]) (λ d, strip d = X) (λ d, strip d = upd X v).
Proof.
  intros Hf Hs Hi Hkey Hv. destruct (word_value v Hv) as (ty & Hw & Hty). eapply chunk_one; [done|done|exact Hw| |exact Hf|exact Hs].
  intros. by eapply expectStringOrIdentifier_run.
Qed.

Lemma chunk_identifier upd v indent key X :
  (∀ d, field d key = (v ← expectIdentifier; mret (upd d v))) → (∀ d v, strip (upd d v) = upd (strip d) v) →
  blanks indent → isKeyword key = true → identifier v →
  chunk (nextField field) (Fprintln indent [key; v]) (λ d, strip d = X) (λ d, strip d = upd X v).
Proof.
  intros Hf Hs Hi Hkey Hv. eapply chunk_one; [done|done|by apply word_identifier| |exact Hf|exact Hs]. intros. by apply expectIdentifier_run.
Qed.

(** An identifier written as it is where a string could be. *)
Lemma chunk_bare upd v indent key X :
  (∀ d, field d key = (v ← expectStringOrIdentifier; mret (upd d v))) → (∀ d v, strip (upd d v) = upd (strip d) v) →
  blanks indent → isKeyword key = true → identifier v →
  chunk (nextField field) (Fprintln indent [key; v]) (λ d, strip d = X) (λ d, strip d = upd X v).
Proof.
  intros Hf Hs Hi Hkey Hv. eapply chunk_one; [done|done|by apply word_identifier| |exact Hf|exact Hs].
  intros. eapply expectStringOrIdentifier_run; [done|by left].
Qed.

Lemma chunk_integer upd n indent key X :
  (∀ d, field d key = (v ← expectInteger; mret (upd d v))) → (∀ d v, strip (upd d v) = upd (strip d) v) →
  blanks indent → isKeyword key = true → natural n →
  chunk (nextField field) (Fprintln indent [key; decimal n]) (λ d, strip d = X) (λ d, strip d = upd X n).
Proof.
  intros Hf Hs Hi Hkey Hn. eapply chunk_one; [done|done|apply word_decimal; apply Hn| |exact Hf|exact Hs]. intros. by apply expectInteger_run.
Qed.

Lemma chunk_amount format args upd v indent key X :
  (∀ d, field d key = (v ← expectValue format args; mret (upd d v))) → (∀ d v, strip (upd d v) = upd (strip d) v) →
  blanks indent → isKeyword key = true → amount v →
  chunk (nextField field) (Fprintln indent [key; v]) (λ d, strip d = X) (λ d, strip d = upd X v).
Proof.
  intros Hf Hs Hi Hkey Hv. destruct (word_amount v Hv) as (ty & Hw & Hty). eapply chunk_one; [done|done|exact Hw| |exact Hf|exact Hs].
  intros. by eapply expectValue_run.
Qed.

Lemma chunk_resource upd v indent key X :
  (∀ d, field d key = (v ← expectResourceValue; mret (upd d v))) → (∀ d v, strip (upd d v) = upd (strip d) v) →
  blanks indent → isKeyword key = true → amount v →
  chunk (nextField field) (Fprintln indent [key; v]) (λ d, strip d = X) (λ d, strip d = upd X v).
Proof.
  intros Hf Hs Hi Hkey Hv. destruct (word_amount v Hv) as (ty & Hw & Hty). eapply chunk_one; [done|done|exact Hw| |exact Hf|exact Hs].
  intros. by eapply expectResourceValue_run.
Qed.

Lemma chunk_boolean upd indent key X :
  (∀ d, field d key = (v ← expectBooleanValue; mret (upd d v))) → (∀ d v, strip (upd d v) = upd (strip d) v) →
  blanks indent → isKeyword key = true →
  chunk (nextField field) (Fprintln indent [key; runes "true"]) (λ d, strip d = X) (λ d, strip d = upd X true).
Proof.
  intros Hf Hs Hi Hkey. eapply chunk_one; [done|done|by apply word_keyword| |exact Hf|exact Hs]. intros. by apply expectBooleanValue_run.
Qed.
End values.

(** ** The lines of a block and its closing brace *)

Section closing.
Context `{Unicode} {D : Type} (field : D → text → parse D).

Definition closes (indent : text) (v : text) (P Q : D → Prop) : Prop :=
  ∃ lines, v = lines ++ Fprintln indent [runes "}"] ∧ chunk (nextField field) lines P Q.

Lemma closes_end indent (P : D → Prop) : closes indent (Fprintln indent [runes "}"]) P P.
Proof. exists []. split; [done|]. by apply chunk_nil. Qed.

Lemma closes_app indent v1 v2 (P Q R : D → Prop) : chunk (nextField field) v1 P Q → closes indent v2 Q R → closes indent (v1 ++ v2) P R.
Proof. intros H1 (lines & -> & H2). exists (v1 ++ lines). split; [by rewrite app_assoc|]. by eapply chunk_app. Qed.

Lemma closes_weaken indent v (P Q Q' : D → Prop) : closes indent v P Q → (∀ d, Q d → Q' d) → closes indent v P Q'.
Proof. intros (lines & -> & Hc) HQ. exists lines. split; [done|]. by eapply chunk_weaken. Qed.
End closing.

(** A nested block that is the whole value of its field. *)
Section nested.
Context `{Unicode} {D E : Type} (strip : D → D) (field : D → text → parse D) (inner : E → text → parse E).

Lemma chunk_nested (m : parse E) (upd : D → option E → D) e e' indent key v X :
  (∀ d, field d key = (x ← Some <$> m; mret (upd d x))) → (∀ d v, strip (upd d v) = upd (strip d) v) →
  (∀ p p', block inner e p = Some (inr e', p') → m p = Some (inr e', p')) →
  blanks indent → isKeyword key = true → closes inner indent v (λ s, s = e) (λ s, s = e') →
  chunk (nextField field) (Fprintln indent [key; runes "{"] ++ v) (λ d, strip d = X) (λ d, strip d = upd X (Some e')).
Proof.
  intros Hf Hs Hm Hi Hkey (lines & -> & Hc).
  apply (chunk_block field inner indent indent key [] [] lines e (λ s, s = e')); [done|done|by apply keyword_identifier|constructor|done|].
  intros d e1 ts lb rest nl rest' ls file <- -> Ek Hlb Hnl Hb. apply fmap_nil_inv in Ek as ->. exists (upd d (Some e')). split; [apply Hs|].
  rewrite Hf. simpl. by rewrite (bind_run _ _ _ _ _ (fmap_run Some _ _ _ _ (Hm _ _ Hb))).
Qed.

(** A nested block appended to a list. *)
Lemma chunk_appended (m : parse E) (upd : D → E → D) e e' indent key v X :
  (∀ d, field d key = (x ← m; mret (upd d x))) → (∀ d v, strip (upd d v) = upd (strip d) v) →
  (∀ p p', block inner e p = Some (inr e', p') → m p = Some (inr e', p')) →
  blanks indent → isKeyword key = true → closes inner indent v (λ s, s = e) (λ s, s = e') →
  chunk (nextField field) (Fprintln indent [key; runes "{"] ++ v) (λ d, strip d = X) (λ d, strip d = upd X e').
Proof.
  intros Hf Hs Hm Hi Hkey (lines & -> & Hc).
  apply (chunk_block field inner indent indent key [] [] lines e (λ s, s = e')); [done|done|by apply keyword_identifier|constructor|done|].
  intros d e1 ts lb rest nl rest' ls file <- -> Ek Hlb Hnl Hb. apply fmap_nil_inv in Ek as ->. exists (upd d e'). split; [apply Hs|].
  rewrite Hf. simpl. by rewrite (bind_run _ _ _ _ _ (Hm _ _ Hb)).
Qed.
End nested.

(** ** Lines of several words, and lists of lines *)

(** The function is given these tokens and a newline, and leaves the newline. *)
Definition parses_words {A} (m : parse A) (ks : list kind) (a : A) : Prop :=
  ∀ ts nl rest ls file, kindOf <$> ts = ks → isNewline nl →
    m (mkParser (ts ++ nl :: rest) ls file) = Some (inr a, mkParser (nl :: rest) ls file).

Section several.
Context `{Unicode} {D : Type} (strip : D → D) (field : D → text → parse D).

Lemma chunk_words {A} (m : parse A) (upd : D → A → D) (a : A) indent key words kss X :
  (∀ d, field d key = (v ← m; mret (upd d v))) → (∀ d v, strip (upd d v) = upd (strip d) v) →
  blanks indent → isKeyword key = true → Forall2 lexesWord words kss → parses_words m (concat kss) a →
  chunk (nextField field) (Fprintln indent (key :: words)) (λ d, strip d = X) (λ d, strip d = upd X a).
Proof.
  intros Hf Hs Hi Hkey Hw Hm. eapply chunk_field; [done|by apply keyword_identifier|exact Hw|].
  intros d ts nl rest ls file <- Ek Hnl. exists (upd d a). split; [apply Hs|]. rewrite Hf. by rewrite (bind_run _ _ _ _ _ (Hm ts nl rest ls file Ek Hnl)).
Qed.

(** Elements appended one after the other. *)
Lemma chunk_appends {A} (f : D → list A) `{!Update f} (xs : list A) (line : A → text) X :
  (∀ d, update f (f d) d = d) → (∀ v d, f (update f v d) = v) → (∀ u v d, update f v (update f u d) = update f v d) → f X = [] →
  (∀ Y x, x ∈ xs → chunk (nextField field) (line x) (λ d, strip d = Y) (λ d, strip d = addTo f x Y)) →
  chunk (nextField field) (xs ≫= line) (λ d, strip d = X) (λ d, strip d = update f xs X).
Proof.
  intros L1 L2 L3 HX Hx. eapply chunk_weaken; [apply (chunk_list _ xs line (λ done d, strip d = update f done X))| |done].
  - intros done x Hin. eapply chunk_weaken; [by apply Hx|intros d Hd; exact Hd|]. intros d ->. unfold addTo. by rewrite L2, L3.
  - intros d Hd. cbv beta in *. rewrite Hd. by rewrite <-HX, L1.
Qed.

(** A flag that is written when it is set. *)
Lemma chunk_flag (upd : D → bool → D) (b : bool) indent key X :
  (∀ d, field d key = (v ← expectBooleanValue; mret (upd d v))) → (∀ d v, strip (upd d v) = upd (strip d) v) →
  blanks indent → isKeyword key = true → upd X false = X →
  chunk (nextField field) (whenTrue b (Fprintln indent [key; runes "true"])) (λ d, strip d = X) (λ d, strip d = upd X b).
Proof.
  intros Hf Hs Hi Hkey HX. destruct b; [by apply chunk_boolean|]. apply chunk_nil. intros d ->. by rewrite HX.
Qed.

(** A block that may be missing. *)
Lemma chunk_option {A} (f : D → option A) `{!Update f} (x : option A) (v : A → text) X :
  (∀ a, x = Some a → chunk (nextField field) (v a) (λ d, strip d = X) (λ d, strip d = update f (Some a) X)) → update f None X = X →
  chunk (nextField field) (whenSome x v) (λ d, strip d = X) (λ d, strip d = update f x X).
Proof. intros Hv Hn. destruct x as [a|]; [by apply Hv|]. apply chunk_nil. intros d ->. by rewrite Hn. Qed.
End several.

(** Tokens one by one. *)
Ltac split_tokens :=
  repeat match goal with
  | E : kindOf <$> ?ts = _ :: _ |- _ => let t := fresh "t" in let ts' := fresh "ts" in let Hk := fresh "Hk" in
      apply fmap_cons_inv in E as (t & ts' & Hk & E & ->); symmetry in Hk, E
  | E : kindOf <$> ?ts = [] |- _ => apply fmap_nil_inv in E as ->
  end; cbn [app].

(** One step of a parsing function on given tokens. *)
Ltac run_step :=
  erewrite bind_run;
    [|first [eapply expectIdentifier_run; eassumption
            |eapply expectToken_run; eassumption
            |eapply expectInteger_run; eassumption
            |eapply expectStringOrIdentifier_run; [eassumption|assumption]
            |eapply expectStringOrIdentifier_run; [eassumption|by left]
            |eapply expectValue_run; [eassumption|assumption]
            |apply currentToken_run|apply advanceToken_run|apply currentWordIs_run|apply currentTokenIs_run]]; cbv beta.

(** The type and the value of a token. *)
Lemma kindOf_type t ty v : kindOf t = (ty, v) → TokenTyp t = ty.
Proof. by intros [= ? _]. Qed.

Lemma kindOf_value t ty v : kindOf t = (ty, v) → TokenValue t = v.
Proof. by intros [= _ ?]. Qed.

(** * Reading formatted blocks back

    For each block of the language, what a record has to satisfy for its lines to
    be read back as the same record, and that they are. *)

(** An optional value of a kind: written only where it is there. *)
Definition optional (P : text → Prop) (v : text) : Prop := v = [] ∨ P v.

Lemma optional_there (P : text → Prop) v : optional P v → v ≠ [] → P v.
Proof. by intros [|]. Qed.

(** The side conditions of a line. *)
Ltac format_side := first [assumption|eapply optional_there; eassumption|done|split; lia].

(** A line of one value, for whichever way its field is parsed. *)
Ltac value_line strip :=
  first
    [eapply (chunk_string strip); [intros ?; reflexivity|intros ? ?; reflexivity|auto with format|reflexivity|format_side]
    |eapply (chunk_integer strip); [intros ?; reflexivity|intros ? ?; reflexivity|auto with format|reflexivity|format_side]
    |eapply (chunk_identifier strip); [intros ?; reflexivity|intros ? ?; reflexivity|auto with format|reflexivity|format_side]
    |eapply (chunk_boolean strip); [intros ?; reflexivity|intros ? ?; reflexivity|auto with format|reflexivity]
    |eapply (chunk_bare strip); [intros ?; reflexivity|intros ? ?; reflexivity|auto with format|reflexivity|format_side]
    |eapply (chunk_amount strip); [intros ?; reflexivity|intros ? ?; reflexivity|auto with format|reflexivity|format_side]
    |eapply (chunk_resource strip); [intros ?; reflexivity|intros ? ?; reflexivity|auto with format|reflexivity|format_side]].

(** A line that may be missing: then the field has the value it started with. *)
Ltac missing :=
  let E := fresh in let Hs := fresh in let Hz := fresh in
  intros E ? Hs; boolprop;
  cbv beta in Hs |- *; first [rewrite Hs, E; reflexivity
        |match goal with Hn : natural ?n |- _ => assert (Hz : n = 0) by (unfold natural in Hn; lia); rewrite Hs, Hz; reflexivity end].

(** The record built is the one written. *)
Ltac same_record := let Hs := fresh in intros ? Hs; rewrite Hs; match goal with |- _ = ?d => destruct d; reflexivity end.

(** One line of a block, or its closing brace. *)
Ltac block_line strip :=
  lazymatch goal with
  | |- closes _ _ (unlessEmpty _ _ ++ _) _ _ => eapply closes_app; [apply chunk_unlessEmpty; [intros ?; value_line strip|missing]|]
  | |- closes _ _ (unlessZero _ _ ++ _) _ _ => eapply closes_app; [apply chunk_unlessZero; [intros ?; value_line strip|missing]|]
  | |- closes _ _ (whenTrue _ (Fprintln _ [_; runes "true"]) ++ _) _ _ =>
      eapply closes_app; [eapply (chunk_flag strip); [intros ?; reflexivity|intros ? ?; reflexivity|auto with format|reflexivity|reflexivity]|]
  | |- closes _ _ (whenTrue _ _ ++ _) _ _ => eapply closes_app; [apply chunk_if; [intros ?; value_line strip|missing]|]
  | |- closes _ _ (Fprintln _ [_; _] ++ _) _ _ => eapply closes_app; [value_line strip|]
  | |- closes _ _ (Fprintln _ [_]) _ _ =>
      eapply closes_weaken; [apply closes_end|same_record]
  end.

Ltac block_lines strip := repeat block_line strip.

(** A block of lines that is the value of a field. *)
Ltac nested_block strip inner d :=
  eapply chunk_weaken;
    [eapply (chunk_nested strip _ inner) with (e' := d);
       [intros ?; reflexivity|intros ? ?; reflexivity|let Hb := fresh in intros ? ? Hb; exact Hb|auto with format|reflexivity|]
    |let Hs := fresh in intros ? Hs; exact Hs
    |let Hs := fresh in intros ? Hs; rewrite Hs; reflexivity].

(** The same for a block that is checked after it is read. *)
Ltac checked_block strip inner e0 d :=
  eapply chunk_weaken;
    [eapply (chunk_nested strip _ inner) with (e := e0) (e' := d);
       [intros ?; reflexivity|intros ? ?; reflexivity|intros ? ? ?|auto with format|reflexivity|]
    |let Hs := fresh in intros ? Hs; exact Hs
    |let Hs := fresh in intros ? Hs; rewrite Hs; reflexivity].

(** A line of several words. *)
Ltac words_line strip words :=
  eapply chunk_weaken;
    [eapply (chunk_words strip) with (kss := words); [intros ?; reflexivity|intros ? ?; reflexivity|auto with format|reflexivity|..]
    |let Hs := fresh in intros ? Hs; exact Hs
    |let Hs := fresh in intros ? Hs; exact Hs].

(** A list of lines, one per element appended to the field [f]. *)
Ltac list_lines strip f :=
  eapply closes_app; [eapply (chunk_appends strip _ f); [intros []; reflexivity|reflexivity|reflexivity|reflexivity|intros Y x Hx]|].

(** A block that may be missing. *)
Ltac option_lines strip f :=
  eapply closes_app; [eapply (chunk_option strip _ f); [let a := fresh "a" in let Ha := fresh "Ha" in intros a Ha|reflexivity]|].

Lemma Forall2_word `{Unicode} word ks words kss : lexesWord word ks → Forall2 lexesWord words kss → Forall2 lexesWord (word :: words) (ks :: kss).
Proof. by constructor. Qed.

Lemma word_natural `{Unicode} n : natural n → lexesWord (decimal n) [(TokenNumber, decimal n)].
Proof. intros [Hn _]. by apply word_decimal. Qed.

Lemma word_equals `{Unicode} : lexesWord (runes "=") [(TokenEquals, [equals])].
Proof. apply word_symbol. unfold symbols. set_solver. Qed.

Lemma word_left `{Unicode} : lexesWord (runes "{") [(TokenLBrace, [leftBrace])].
Proof. apply word_symbol. unfold symbols. set_solver. Qed.

Lemma word_right `{Unicode} : lexesWord (runes "}") [(TokenRBrace, [rightBrace])].
Proof. apply word_symbol. unfold symbols. set_solver. Qed.

(** The words of a line. *)
Ltac format_words :=
  repeat (apply Forall2_word;
    [first [by apply word_keyword|apply word_identifier; assumption|apply word_natural; assumption|apply word_equals|apply word_left|apply word_right|assumption]|]); apply Forall2_nil_2.

Section blocks.
Context `{Unicode}.

(** ** Scaling *)

Definition schedule_fmt (d : ScheduleDecl) : Prop :=
  optional identifier (Schedule_Days d) ∧ quotable (Schedule_Start d) ∧ quotable (Schedule_End d) ∧ natural (Schedule_Minimum d).

Lemma formatSchedule_chunk d indent X : schedule_fmt d → blanks indent →
  chunk (nextField parseHorizontalScaleField) (formatSchedule d indent)
    (λ s, s = X) (λ s, s = X <| HorizontalScale_Schedule := Some d |>).
Proof.
  intros (H1 & H2 & H3 & H4) Hi. unfold formatSchedule. nested_block (λ s : HorizontalScaleDecl, s) parseScheduleField d.
  block_lines (λ s : ScheduleDecl, s).
Qed.

Definition stabilization_fmt (d : StabilizationDecl) : Prop :=
  optional amount (Stabilization_ScaleUp d) ∧ optional amount (Stabilization_ScaleDown d).

Lemma formatStabilization_chunk d indent X : stabilization_fmt d → blanks indent →
  chunk (nextField parseHorizontalScaleField) (formatStabilization d indent)
    (λ s, s = X) (λ s, s = X <| HorizontalScale_Stabilization := Some d |>).
Proof.
  intros (H1 & H2) Hi. unfold formatStabilization. nested_block (λ s : HorizontalScaleDecl, s) parseStabilizationField d.
  block_lines (λ s : StabilizationDecl, s).
Qed.

Lemma last_digit n : natural n → last (decimal n) ≠ Some percent.
Proof.
  intros [Hn _] E. pose proof (decimal_digits n Hn) as Hd. apply last_Some in E as (v & E). rewrite E in Hd.
  apply Forall_app in Hd as [_ Hd]. inversion_clear Hd. unfold percent in *. lia.
Qed.

Lemma parseTargetValue_decimal n : natural n → parseTargetValue (decimal n) = Some n.
Proof.
  intros Hn. pose proof (last_digit n Hn) as Hl. unfold parseTargetValue, cleanedTarget. destruct (last (decimal n)) as [c|] eqn:E.
  - destruct (Z.eqb_spec c percent); [congruence|]. apply AtoiText_decimal; [apply Hn|]. split; [|apply Hn]. unfold int64_min. destruct Hn. lia.
  - apply AtoiText_decimal; [apply Hn|]. split; [|apply Hn]. unfold int64_min. destruct Hn. lia.
Qed.

Lemma scaleTarget_words metric n :
  natural n → parses_words parseScaleTarget [(TokenIdent, metric); (TokenEquals, [equals]); (TokenNumber, decimal n)] (mkScaleTargetDecl metric n).
Proof.
  intros Hn ts nl rest ls file Ek Hnl. split_tokens. unfold parseScaleTarget. do 3 run_step.
  rewrite bool_decide_true by (by eapply kindOf_type). run_step. erewrite kindOf_value by eassumption. by rewrite parseTargetValue_decimal.
Qed.

Lemma eventScale_words source n :
  natural n → parses_words parseEventScaleEntry [(TokenIdent, source); (TokenEquals, [equals]); (TokenNumber, decimal n)] (mkEventScaleDecl source n).
Proof. intros Hn ts nl rest ls file Ek Hnl. split_tokens. unfold parseEventScaleEntry. by do 3 run_step. Qed.

Definition target_fmt (t : ScaleTargetDecl) : Prop := identifier (ScaleTarget_Metric t) ∧ natural (ScaleTarget_Value t).
Definition event_fmt (e : EventScaleDecl) : Prop := identifier (EventScale_Source e) ∧ natural (EventScale_Target e).

Definition whenever {A} (P : A → Prop) (x : option A) : Prop := ∀ a, x = Some a → P a.

Record horizontal_fmt (d : HorizontalScaleDecl) : Prop := {
  horizontal_min : natural (HorizontalScale_Min d);
  horizontal_max : natural (HorizontalScale_Max d);
  horizontal_targets : Forall target_fmt (HorizontalScale_Targets d);
  horizontal_events : Forall event_fmt (HorizontalScale_Events d);
  horizontal_schedule : whenever schedule_fmt (HorizontalScale_Schedule d);
  horizontal_stabilization : whenever stabilization_fmt (HorizontalScale_Stabilization d);
  horizontal_idle : optional amount (HorizontalScale_IdleTimeout d);
  horizontal_activation : optional amount (HorizontalScale_ActivationTimeout d)
}.

Lemma formatHorizontalScale_chunk d indent X : horizontal_fmt d → blanks indent →
  chunk (nextField parseScaleField) (formatHorizontalScale d indent) (λ s, s = X) (λ s, s = X <| Scale_Horizontal := Some d |>).
Proof.
  intros [H1 H2 H3 H4 H5 H6 H7 H8] Hi. unfold formatHorizontalScale. cbv zeta. rewrite Forall_forall in H3. rewrite Forall_forall in H4.
  nested_block (λ s : ScaleDecl, s) parseHorizontalScaleField d.
  do 2 block_line (λ s : HorizontalScaleDecl, s).
  list_lines (λ s : HorizontalScaleDecl, s) HorizontalScale_Targets.
  { destruct (H3 x Hx) as [Hm Hv], x as [metric n]; simpl in *.
    words_line (λ s : HorizontalScaleDecl, s) [[(TokenIdent, metric)]; [(TokenEquals, [equals])]; [(TokenNumber, decimal n)]];
      [format_words|by apply scaleTarget_words]. }
  list_lines (λ s : HorizontalScaleDecl, s) HorizontalScale_Events.
  { destruct (H4 x Hx) as [Hm Hv], x as [source n]; simpl in *.
    words_line (λ s : HorizontalScaleDecl, s) [[(TokenIdent, source)]; [(TokenEquals, [equals])]; [(TokenNumber, decimal n)]];
      [format_words|by apply eventScale_words]. }
  do 2 block_line (λ s : HorizontalScaleDecl, s).
  option_lines (λ s : HorizontalScaleDecl, s) HorizontalScale_Schedule. { apply formatSchedule_chunk; [by apply H5|auto with format]. }
  option_lines (λ s : HorizontalScaleDecl, s) HorizontalScale_Stabilization. { apply formatStabilization_chunk; [by apply H6|auto with format]. }
  block_line (λ s : HorizontalScaleDecl, s).
Qed.

(** Both bounds on one line. *)
Lemma verticalResource_words name ty1 v1 ty2 v2 :
  (ty1 = TokenNumber ∨ ty1 = TokenIdent) → (ty2 = TokenNumber ∨ ty2 = TokenIdent) →
  parses_words (parseVerticalResourceMinMax name)
    [(TokenLBrace, [leftBrace]); (TokenIdent, runes "min"); (ty1, v1); (TokenIdent, runes "max"); (ty2, v2); (TokenRBrace, [rightBrace])] (v1, v2).
Proof.
  intros H1 H2 ts nl rest ls file Ek Hnl. split_tokens. unfold parseVerticalResourceMinMax, block. run_step.
  assert (Hc1 : continues (t0 :: t1 :: t2 :: t3 :: t4 :: nl :: rest)) by (simpl; unfold isNewline; by erewrite kindOf_type by eassumption).
  assert (Hc2 : continues (t2 :: t3 :: t4 :: nl :: rest)) by (simpl; unfold isNewline; by erewrite kindOf_type by eassumption).
  assert (Hc3 : continues (t4 :: nl :: rest)) by (simpl; unfold isNewline; by erewrite kindOf_type by eassumption).
  rewrite (bind_run _ _ _ _ _ (skipNewlineTokens_run [] _ ls file ltac:(constructor) Hc1)).
  rewrite (bind_run (fields (parseVerticalResourceField name) ([], [])) _ _ (v1, v2) (mkParser (t4 :: nl :: rest) ls file)); [by run_step|].
  eapply loop_runs with (s' := (v1, v2)).
  - eapply runs_cons; [eapply (nextField_run _ t0 (runes "min") _ [] _ ls file _ (v1, [])); [done| |constructor|exact Hc2]|simpl; lia|].
    { unfold parseVerticalResourceField. run_step. reflexivity. }
    eapply runs_cons; [eapply (nextField_run _ t2 (runes "max") _ [] _ ls file _ (v1, v2)); [done| |constructor|exact Hc3]|simpl; lia|apply runs_nil].
    unfold parseVerticalResourceField. run_step. reflexivity.
  - unfold nextField. rewrite (bind_run _ _ _ _ _ (currentTokenIs_run t4 _ ls file TokenRBrace)), (bind_run _ _ _ _ _ (isAtEnd_run t4 _ ls file)).
    by erewrite kindOf_type by eassumption.
Qed.

(** Both bounds, or none. *)
Definition bounds_fmt (low high : text) : Prop := low = [] ∧ high = [] ∨ low ≠ [] ∧ high ≠ [] ∧ amount low ∧ amount high.

Definition vertical_fmt (d : VerticalScaleDecl) : Prop :=
  bounds_fmt (VerticalScale_CPUMin d) (VerticalScale_CPUMax d) ∧ bounds_fmt (VerticalScale_MemoryMin d) (VerticalScale_MemoryMax d).

Lemma bounds_chunk key low high (upd : VerticalScaleDecl → text * text → VerticalScaleDecl) indent X :
  (∀ d, parseVerticalScaleField d (runes key) = (b ← parseVerticalResourceMinMax key; mret (upd d b))) → isKeyword (runes key) = true →
  upd X ([], []) = X → blanks indent → bounds_fmt low high →
  chunk (nextField parseVerticalScaleField)
    (whenTrue (negb (bool_decide (low = [])) || negb (bool_decide (high = [])))
      (Fprintln indent [runes key; runes "{"; runes "min"; low; runes "max"; high; runes "}"]))
    (λ s, s = X) (λ s, s = upd X (low, high)).
Proof.
  intros Hf Hkey HX Hi [[-> ->]|(Hl & Hh & H1 & H2)].
  - apply chunk_nil. intros s ->. by rewrite HX.
  - rewrite !bool_decide_false by done. destruct (word_amount low H1) as (ty1 & W1 & T1), (word_amount high H2) as (ty2 & W2 & T2).
    eapply (chunk_words (λ s : VerticalScaleDecl, s)) with (kss := [[(TokenLBrace, [leftBrace])]; [(TokenIdent, runes "min")]; [(ty1, low)];
      [(TokenIdent, runes "max")]; [(ty2, high)]; [(TokenRBrace, [rightBrace])]]); [exact Hf|done|done|done|format_words|by apply verticalResource_words].
Qed.

Lemma formatVerticalScale_chunk d indent X : vertical_fmt d → blanks indent →
  chunk (nextField parseScaleField) (formatVerticalScale d indent) (λ s, s = X) (λ s, s = X <| Scale_Vertical := Some d |>).
Proof.
  intros [H1 H2] Hi. unfold formatVerticalScale. nested_block (λ s : ScaleDecl, s) parseVerticalScaleField d.
  eapply closes_app; [eapply bounds_chunk; [intros; reflexivity|reflexivity|reflexivity|auto with format|done]|].
  eapply closes_app; [eapply bounds_chunk; [intros; reflexivity|reflexivity|reflexivity|auto with format|done]|].
  block_line (λ s : VerticalScaleDecl, s).
Qed.

(** ** The fields of a service *)

Definition stripService (d : ServiceDecl) : ServiceDecl := d <| Service_Line := 0 |>.

(** From one service to another, up to its source line. *)
Definition service_chunk (v : text) (X Y : ServiceDecl) : Prop :=
  chunk (nextField parseServiceField) v (λ s, stripService s = X) (λ s, stripService s = Y).

Definition scale_fmt (d : ScaleDecl) : Prop := whenever horizontal_fmt (Scale_Horizontal d) ∧ whenever vertical_fmt (Scale_Vertical d).

Lemma scale_chunk d X : scale_fmt d →
  service_chunk
    (Fprintln indentUnit [runes "scale"; runes "{"] ++ whenSome (Scale_Horizontal d) (λ h, formatHorizontalScale h indent2) ++
     whenSome (Scale_Vertical d) (λ v, formatVerticalScale v indent2) ++ Fprintln indentUnit [runes "}"]) X (X <| Service_Scale := Some d |>).
Proof.
  intros [H1 H2]. unfold service_chunk. nested_block stripService parseScaleField d.
  option_lines (λ s : ScaleDecl, s) Scale_Horizontal. { apply formatHorizontalScale_chunk; [by apply H1|auto with format]. }
  option_lines (λ s : ScaleDecl, s) Scale_Vertical. { apply formatVerticalScale_chunk; [by apply H2|auto with format]. }
  block_line (λ s : ScaleDecl, s).
Qed.
End blocks.
