(* ===== verification/FormatterServices.v ===== *)
(** * Reading formatted services back

    Field by field, what a service has to satisfy for its text to be read back, and that it is. *)

From S2P Require Import Prelude GoFmt Ast Lexer LexerProps ParserCore Parser ParserProps Formatter FormatterChunks FormatterBlocks.

Local Open Scope Z_scope.

(** * Blocks of plain values, probes and placement *)

Section services.
Context `{Unicode}.

(** ** Blocks of plain values *)

Definition resources_fmt (d : ResourcesDecl) : Prop :=
  optional amount (Resources_CPU d) ∧ optional amount (Resources_Memory d) ∧ optional amount (Resources_CPULimit d) ∧
  optional amount (Resources_MemoryLimit d).

(** The value is read before the key is looked at. *)
Lemma resources_takes key v (upd : ResourcesDecl → text → ResourcesDecl) indent X :
  (∀ d v, switch (runes key) [
    ("cpu", mret (d <| Resources_CPU := v |>)); ("memory", mret (d <| Resources_Memory := v |>));
    ("cpu_limit", mret (d <| Resources_CPULimit := v |>)); ("memory_limit", mret (d <| Resources_MemoryLimit := v |>))]
    (unknownField "unknown resource field %q" (runes key)) = mret (upd d v)) →
  isKeyword (runes key) = true → blanks indent → amount v →
  chunk (nextField parseResourcesField) (Fprintln indent [runes key; v]) (λ s, s = X) (λ s, s = upd X v).
Proof.
  intros Hf Hkey Hi Hv. destruct (word_amount v Hv) as (ty & Hw & Hty).
  eapply chunk_field; [done|by apply keyword_identifier|constructor; [exact Hw|constructor]|].
  intros d ts nl rest ls file -> Ek Hnl. simpl in Ek. split_tokens. exists (upd X v). split; [done|].
  unfold parseResourcesField. run_step. by rewrite Hf.
Qed.

Lemma resources_chunk d X : resources_fmt d →
  service_chunk (formatServiceResourceFields (ServiceDecl_zero <| Service_Resources := Some d |>)) X (X <| Service_Resources := Some d |>).
Proof.
  intros (H1 & H2 & H3 & H4). unfold service_chunk, formatServiceResourceFields. cbn [whenSome Service_Resources update].
  nested_block stripService parseResourcesField d.
  do 4 (eapply closes_app; [apply chunk_unlessEmpty;
    [intros Hne; eapply resources_takes; [intros; reflexivity|reflexivity|auto with format|by eapply optional_there]|missing]|]).
  block_line (λ s : ResourcesDecl, s).
Qed.

Definition update_fmt (d : UpdateDecl) : Prop :=
  natural (Update_MaxUnavailable d) ∧ natural (Update_MaxExtra d) ∧ Update_MaxUnavailable d ≠ 0 ∧ Update_MaxExtra d ≠ 0.

Lemma update_chunk d X : update_fmt d →
  service_chunk (formatServiceUpdateFields (ServiceDecl_zero <| Service_Update := Some d |>)) X (X <| Service_Update := Some d |>).
Proof.
  intros (H1 & H2 & H3 & H4). unfold service_chunk, formatServiceUpdateFields. cbn [whenSome Service_Update update].
  nested_block stripService parseUpdateField d.
  eapply closes_app; [apply chunk_unlessZero; [intros ?; value_line (λ s : UpdateDecl, s)|done]|].
  eapply closes_app; [apply chunk_unlessZero; [intros ?; value_line (λ s : UpdateDecl, s)|done]|].
  block_line (λ s : UpdateDecl, s).
Qed.

Definition disruption_fmt (d : DisruptionDecl) : Prop :=
  natural (Disruption_MinAvailable d) ∧ natural (Disruption_MaxUnavailable d) ∧ disruption_ok d.

Lemma disruption_chunk d X : disruption_fmt d →
  service_chunk (formatServiceDisruptionFields (ServiceDecl_zero <| Service_Disruption := Some d |>)) X (X <| Service_Disruption := Some d |>).
Proof.
  intros (H1 & H2 & H3). unfold service_chunk, formatServiceDisruptionFields. cbn [whenSome Service_Disruption update].
  checked_block stripService parseDisruptionField DisruptionDecl_zero d; [|block_lines (λ s : DisruptionDecl, s)].
  unfold parseDisruptionBlock. erewrite bind_run by eassumption. cbv beta.
  destruct H3 as [[H3 H4]|[H3 H4]]; destruct (Z.eqb_spec (Disruption_MinAvailable d) 0), (Z.eqb_spec (Disruption_MaxUnavailable d) 0); done.
Qed.

Definition logging_fmt (d : LoggingDecl) : Prop := quotable (Logging_MaxSize d) ∧ natural (Logging_MaxFiles d).

Lemma logging_chunk d X : logging_fmt d →
  service_chunk (formatServiceLoggingFields (ServiceDecl_zero <| Service_Logging := Some d |>)) X (X <| Service_Logging := Some d |>).
Proof.
  intros (H1 & H2). unfold service_chunk, formatServiceLoggingFields. cbn [whenSome Service_Logging update].
  nested_block stripService parseLoggingField d. block_lines (λ s : LoggingDecl, s).
Qed.

Definition lifecycle_fmt (d : LifecycleDecl) : Prop := quotable (Lifecycle_PreStop d) ∧ quotable (Lifecycle_PostStart d).

Lemma lifecycle_chunk d X : lifecycle_fmt d →
  service_chunk (formatServiceLifecycleFields (ServiceDecl_zero <| Service_Lifecycle := Some d |>)) X (X <| Service_Lifecycle := Some d |>).
Proof.
  intros (H1 & H2). unfold service_chunk, formatServiceLifecycleFields. cbn [whenSome Service_Lifecycle update].
  nested_block stripService parseLifecycleField d. block_lines (λ s : LifecycleDecl, s).
Qed.

(** ** Initialization steps, health and probes *)

Definition init_fmt (d : InitStepDecl) : Prop :=
  quotable (InitStep_Exec d) ∧ optional identifier (InitStep_Connection d) ∧ optional amount (InitStep_Timeout d) ∧ natural (InitStep_Retry d) ∧ init_ok d.

Lemma initStep_chunk d X : init_fmt d → service_chunk (formatInitStep d) X (addTo Service_InitSteps d X).
Proof.
  intros (H1 & H2 & H3 & H4 & H5). unfold service_chunk, formatInitStep.
  apply (chunk_appended stripService _ parseInitStepField parseInitStepBlock (λ X d, addTo Service_InitSteps d X) InitStepDecl_zero d);
    [intros; reflexivity|intros; reflexivity|intros p p' Hb|auto with format|reflexivity|block_lines (λ s : InitStepDecl, s)].
  unfold parseInitStepBlock. erewrite bind_run by exact Hb. cbv beta. destruct H5 as [[H5 H6]|[H5 H6]]; by repeat case_bool_decide.
Qed.

Lemma word_slash : lexesWord [slash] [(TokenSlash, [slash])].
Proof. apply word_symbol. unfold symbols. set_solver. Qed.

Lemma word_slashed v : identifier v → lexesWord (slash :: v) [(TokenSlash, [slash]); (TokenIdent, v)].
Proof.
  intros Hv. assert (E : slash :: v = slashed [v]) by (unfold slashed; simpl; by rewrite app_nil_r). rewrite E. apply (word_path [v]); [|done].
  by apply Forall_singleton.
Qed.

(** A word alone on its line. *)
Lemma chunk_alone {D} (strip : D → D) (field : D → text → parse D) indent key (upd : D → D) X :
  (∀ d nl rest ls file, isNewline nl → field d key (mkParser (nl :: rest) ls file) = Some (inr (upd d), mkParser (nl :: rest) ls file)) →
  (∀ d, strip (upd d) = upd (strip d)) → blanks indent → isKeyword key = true →
  chunk (nextField field) (Fprintln indent [key]) (λ d, strip d = X) (λ d, strip d = upd X).
Proof.
  intros Hf Hs Hi Hkey. eapply chunk_field; [done|by apply keyword_identifier|constructor|].
  intros d ts nl rest ls file <- Ek Hnl. apply fmap_nil_inv in Ek as ->. exists (upd d). split; [apply Hs|by apply Hf].
Qed.

Lemma newline_type nl ty : isNewline nl → ty ≠ TokenNewline → TokenTyp nl ≠ ty.
Proof. unfold isNewline. congruence. Qed.

Definition health_fmt (d : HealthDecl) : Prop :=
  (Health_Method d = runes "http" ∧ (Health_Path d = [] ∨ Health_Path d = [slash] ∨ ∃ v, Health_Path d = slash :: v ∧ identifier v) ∨
   Health_Method d = runes "tcp" ∧ Health_Path d = [] ∨ Health_Method d = [] ∧ Health_Path d = []) ∧
  optional amount (Health_Interval d) ∧ optional amount (Health_Timeout d).

Lemma health_http_alone X :
  chunk (nextField parseHealthField) (Fprintln indent2 [runes "http"]) (λ s, s = X) (λ s, s = X <| Health_Method := runes "http" |>).
Proof.
  apply (chunk_alone (λ s : HealthDecl, s) _ _ _ (λ s, s <| Health_Method := runes "http" |>)); [|done|auto with format|done].
  intros d nl rest ls file Hnl. unfold parseHealthField. rewrite switch_here by reflexivity. cbv zeta. run_step.
  by rewrite bool_decide_false by (by apply newline_type).
Qed.

Lemma health_tcp X :
  chunk (nextField parseHealthField) (Fprintln indent2 [runes "tcp"]) (λ s, s = X) (λ s, s = X <| Health_Method := runes "tcp" |>).
Proof.
  apply (chunk_alone (λ s : HealthDecl, s) _ _ _ (λ s, s <| Health_Method := runes "tcp" |>)); [|done|auto with format|done]. done.
Qed.

Lemma health_path v X : v = [slash] ∨ (∃ u, v = slash :: u ∧ identifier u) →
  chunk (nextField parseHealthField) (Fprintln indent2 [runes "http"; v]) (λ s, s = X)
    (λ s, s = X <| Health_Method := runes "http" |> <| Health_Path := v |>).
Proof.
  intros [->|(u & -> & Hu)].
  - eapply chunk_field; [auto with format|by apply keyword_identifier|constructor; [apply word_slash|constructor]|].
    intros d ts nl rest ls file -> Ek Hnl. simpl in Ek. split_tokens. eexists. split; [reflexivity|].
    unfold parseHealthField. rewrite switch_here by reflexivity. cbv zeta. run_step. rewrite bool_decide_true by (by eapply kindOf_type). do 2 run_step.
    rewrite bool_decide_false by (rewrite !elem_of_cons, elem_of_nil; unfold isNewline in Hnl; rewrite Hnl; naive_solver). done.
  - eapply chunk_field; [auto with format|by apply keyword_identifier|constructor; [by apply word_slashed|constructor]|].
    intros d ts nl rest ls file -> Ek Hnl. simpl in Ek. split_tokens. eexists. split; [reflexivity|].
    unfold parseHealthField. rewrite switch_here by reflexivity. cbv zeta. run_step. rewrite bool_decide_true by (by eapply kindOf_type). do 2 run_step.
    rewrite bool_decide_true by (erewrite kindOf_type by eassumption; apply list_elem_of_here). by run_step.
Qed.

Lemma health_chunk d X : health_fmt d → service_chunk (formatHealthBlock d) X (X <| Service_Health := Some d |>).
Proof.
  intros (Hm & H1 & H2). unfold service_chunk, formatHealthBlock. nested_block stripService parseHealthField d.
  eapply closes_app.
  { instantiate (1 := λ s, s = HealthDecl_zero <| Health_Method := Health_Method d |> <| Health_Path := Health_Path d |>).
    destruct Hm as [(-> & [->|Hp])|[[-> ->]|[-> ->]]].
    - change (isWord (runes "http") "http" && negb (bool_decide ([] = []))) with false. apply health_http_alone.
    - rewrite (bool_decide_false (Health_Path d = [])) by (by destruct Hp as [->|(? & -> & _)]). by apply health_path.
    - apply health_tcp.
    - by apply chunk_nil. }
  block_lines (λ s : HealthDecl, s).
Qed.

Definition probe_fmt (d : ProbeDecl) : Prop :=
  (Probe_Method d = runes "http" ∧ (Probe_Path d = [] ∨ ∃ v, Probe_Path d = slash :: v ∧ identifier v) ∨
   Probe_Method d = runes "exec" ∧ quotable (Probe_Path d) ∨
   Probe_Method d = runes "tcp" ∧ Probe_Path d = []) ∧
  natural (Probe_Port d) ∧ optional amount (Probe_Interval d) ∧ optional amount (Probe_Timeout d) ∧
  natural (Probe_FailureThreshold d) ∧ natural (Probe_SuccessThreshold d) ∧ optional amount (Probe_InitialDelay d).

Lemma probe_http_alone X :
  chunk (nextField parseProbeField) (Fprintln indent2 [runes "http"]) (λ s, s = X) (λ s, s = X <| Probe_Method := runes "http" |>).
Proof.
  apply (chunk_alone (λ s : ProbeDecl, s) _ _ _ (λ s, s <| Probe_Method := runes "http" |>)); [|done|auto with format|done].
  intros d nl rest ls file Hnl. unfold parseProbeField. rewrite switch_here by reflexivity. cbv zeta. run_step.
  by rewrite bool_decide_false by (by apply newline_type).
Qed.

Lemma probe_tcp X :
  chunk (nextField parseProbeField) (Fprintln indent2 [runes "tcp"]) (λ s, s = X) (λ s, s = X <| Probe_Method := runes "tcp" |>).
Proof. by apply (chunk_alone (λ s : ProbeDecl, s) _ _ _ (λ s, s <| Probe_Method := runes "tcp" |>)); [|done|auto with format|done]. Qed.

Lemma probe_exec_alone X :
  chunk (nextField parseProbeField) (Fprintln indent2 [runes "exec"]) (λ s, s = X) (λ s, s = X <| Probe_Method := runes "exec" |>).
Proof.
  apply (chunk_alone (λ s : ProbeDecl, s) _ _ _ (λ s, s <| Probe_Method := runes "exec" |>)); [|done|auto with format|done].
  intros d nl rest ls file Hnl. unfold parseProbeField. do 2 rewrite switch_other by reflexivity. rewrite switch_here by reflexivity. cbv zeta. run_step.
  by rewrite bool_decide_false by (rewrite !elem_of_cons, elem_of_nil; unfold isNewline in Hnl; rewrite Hnl; naive_solver).
Qed.

Lemma probe_exec v X : quotable v →
  chunk (nextField parseProbeField) (Fprintln indent2 [runes "exec"; quoteIfNeeded v]) (λ s, s = X)
    (λ s, s = X <| Probe_Method := runes "exec" |> <| Probe_Path := v |>).
Proof.
  intros Hv. destruct (word_value v Hv) as (ty & Hw & Hty).
  eapply chunk_field; [auto with format|by apply keyword_identifier|constructor; [exact Hw|constructor]|].
  intros d ts nl rest ls file -> Ek Hnl. simpl in Ek. split_tokens. eexists. split; [reflexivity|].
  unfold parseProbeField. do 2 rewrite switch_other by reflexivity. rewrite switch_here by reflexivity. cbv zeta. run_step.
  rewrite bool_decide_true by (erewrite kindOf_type by eassumption; destruct Hty as [->| ->]; set_solver). run_step. by erewrite kindOf_value by eassumption.
Qed.

Lemma probe_path v X : identifier v →
  chunk (nextField parseProbeField) (Fprintln indent2 [runes "http"; slash :: v]) (λ s, s = X)
    (λ s, s = X <| Probe_Method := runes "http" |> <| Probe_Path := slash :: v |>).
Proof.
  intros Hv. eapply chunk_field; [auto with format|by apply keyword_identifier|constructor; [by apply word_slashed|constructor]|].
  intros d ts nl rest ls file -> Ek Hnl. simpl in Ek. split_tokens. eexists. split; [reflexivity|].
  unfold parseProbeField. rewrite switch_here by reflexivity. cbv zeta. run_step. rewrite bool_decide_true by (by eapply kindOf_type). by do 2 run_step.
Qed.

Lemma probe_chunk name (upd : ServiceDecl → option ProbeDecl → ServiceDecl) d X :
  (∀ s, parseServiceField s (runes name) = (x ← Some <$> parseProbeBlock; mret (upd s x))) → (∀ s v, stripService (upd s v) = upd (stripService s) v) →
  isKeyword (runes name) = true → probe_fmt d → service_chunk (formatProbeBlock name d) X (upd X (Some d)).
Proof.
  intros Hf Hs Hkey (Hm & H1 & H2 & H3 & H4 & H5 & H6). unfold service_chunk, formatProbeBlock.
  apply (chunk_nested stripService _ parseProbeField parseProbeBlock upd (ProbeDecl_zero <| Probe_FailureThreshold := 3 |> <| Probe_SuccessThreshold := 1 |>) d);
    [exact Hf|exact Hs| |auto with format|exact Hkey|].
  - intros p p' Hb. unfold parseProbeBlock. erewrite bind_run by exact Hb. cbv beta.
    by rewrite bool_decide_false by (destruct Hm as [[-> _]|[[-> _]|[-> _]]]; done).
  - eapply closes_app.
    { instantiate (1 := λ s, s = ProbeDecl_zero <| Probe_FailureThreshold := 3 |> <| Probe_SuccessThreshold := 1 |>
        <| Probe_Method := Probe_Method d |> <| Probe_Path := Probe_Path d |>).
      destruct Hm as [(-> & [->|(v & -> & Hv)])|[(-> & Hp)|[-> ->]]].
      - change (isWord (runes "http") "http" && negb (bool_decide ([] = []))) with false. apply probe_http_alone.
      - change (isWord (runes "http") "http" && negb (bool_decide (slash :: v = []))) with true. by apply probe_path.
      - change (isWord (runes "exec") "http") with false. change (isWord (runes "exec") "exec") with true. cbn [andb].
        case_bool_decide as He; [rewrite He; apply probe_exec_alone|by apply probe_exec].
      - apply probe_tcp. }
    block_lines (λ s : ProbeDecl, s).
Qed.

(** ** Placement *)

Definition match_fmt (m : PlacementMatchDecl) : Prop := identifier (PlacementMatch_Label m) ∧ quotable (PlacementMatch_Value m).

Definition zone_fmt (d : PlacementDecl) : Prop :=
  optional identifier (Placement_ZonePolicy d) ∧ Placement_ZoneMaxSkew d = 0 ∨
  Placement_ZonePolicy d = runes "spread" ∧ 1 ≤ Placement_ZoneMaxSkew d ∧ natural (Placement_ZoneMaxSkew d).

(** What the formatter does not write is not there. *)
Record placement_fmt (d : PlacementDecl) : Prop := {
  placement_architecture : optional identifier (Placement_Architecture d);
  placement_zone : zone_fmt d;
  placement_require : Forall match_fmt (Placement_Require d);
  placement_prefer : Forall match_fmt (Placement_Prefer d);
  placement_accept : Forall identifier (Placement_Accept d);
  placement_mode : Placement_Mode d = [];
  placement_colocate : Placement_Colocate d = [];
  placement_separate : Placement_Separate d = []
}.

Lemma placementMatch_words label ty v :
  (ty = TokenIdent ∨ ty = TokenString) →
  parses_words parsePlacementMatch [(TokenIdent, label); (TokenEquals, [equals]); (ty, v)] (mkPlacementMatchDecl label v).
Proof. intros Hty ts nl rest ls file Ek Hnl. split_tokens. unfold parsePlacementMatch. by do 3 run_step. Qed.

Lemma match_line key (f : PlacementDecl → list PlacementMatchDecl) `{!Update f} x Y :
  (∀ d, parsePlacementField d (runes key) = (v ← parsePlacementMatch; mret (addTo f v d))) → isKeyword (runes key) = true → match_fmt x →
  chunk (nextField parsePlacementField) (Fprintln indent2 [runes key; PlacementMatch_Label x; runes "="; quoteIfNeeded (PlacementMatch_Value x)])
    (λ s, s = Y) (λ s, s = addTo f x Y).
Proof.
  intros Hf Hkey [Hl Hv]. destruct x as [label v]; simpl in *. destruct (word_value v Hv) as (ty & Hw & Hty).
  apply (chunk_words (λ s : PlacementDecl, s) _ parsePlacementMatch (λ d v, addTo f v d) _ _ _ _ [[(TokenIdent, label)]; [(TokenEquals, [equals])]; [(ty, v)]]);
    [exact Hf|done|auto with format|exact Hkey|format_words|by apply placementMatch_words].
Qed.

Lemma zone_line d X : zone_fmt d → Placement_ZonePolicy X = [] → Placement_ZoneMaxSkew X = 0 →
  chunk (nextField parsePlacementField) (formatZone d) (λ s, s = X)
    (λ s, s = X <| Placement_ZonePolicy := Placement_ZonePolicy d |> <| Placement_ZoneMaxSkew := Placement_ZoneMaxSkew d |>).
Proof.
  intros Hz HX1 HX2. unfold formatZone. apply chunk_unlessEmpty.
  - intros Hne. destruct Hz as [[Hz Hs]|(Hz & Hge & Hn)].
    + rewrite Hs. change (0 <? 0) with false. cbv iota. destruct Hz as [|Hz]; [done|].
      eapply chunk_field; [auto with format|by apply keyword_identifier|constructor; [by apply word_identifier|constructor]|].
      intros s ts nl rest ls file -> Ek Hnl. simpl in Ek. split_tokens. eexists. split; [reflexivity|].
      unfold parsePlacementField. rewrite switch_other, switch_here by reflexivity. unfold parsePlacementZone. do 2 run_step.
      rewrite (bool_decide_false (TokenTyp nl = _)) by (by apply newline_type). cbn [andb]. rewrite andb_false_r. destruct X; simpl in *; subst; reflexivity.
    + rewrite Hz. destruct (Z.ltb_spec 0 (Placement_ZoneMaxSkew d)); [|lia].
      eapply chunk_field with (kss := [[(TokenIdent, runes "spread")]; [(TokenIdent, runes "maxSkew")]; [(TokenNumber, decimal (Placement_ZoneMaxSkew d))]]);
        [auto with format|by apply keyword_identifier|format_words|].
      intros s ts nl rest ls file -> Ek Hnl. simpl in Ek. split_tokens. eexists. split; [reflexivity|].
      unfold parsePlacementField. rewrite switch_other, switch_here by reflexivity. unfold parsePlacementZone. do 2 run_step.
      rewrite (kindOf_type _ _ _ Hk0), (kindOf_value _ _ _ Hk0). cbv zeta.
      change (isWord (runes "spread") "spread" && (bool_decide (TokenIdent = TokenIdent) && isWord (runes "maxSkew") "maxSkew")) with true. cbv iota.
      do 2 run_step. by destruct (Z.ltb_spec (Placement_ZoneMaxSkew d) 1); [lia|].
  - intros E s ->. rewrite E. destruct Hz as [[_ Hs]|[Hs _]]; [|by rewrite Hs in E]. rewrite Hs. destruct X; simpl in *; subst; reflexivity.
Qed.

Lemma placement_chunk d X : placement_fmt d →
  service_chunk (formatServicePlacementFields (ServiceDecl_zero <| Service_Placement := Some d |>)) X (X <| Service_Placement := Some d |>).
Proof.
  intros [H1 H2 H3 H4 H5 H6 H7 H8]. rewrite Forall_forall in H3. rewrite Forall_forall in H4. rewrite Forall_forall in H5.
  unfold service_chunk, formatServicePlacementFields. cbn [whenSome Service_Placement update]. nested_block stripService parsePlacementField d.
  block_line (λ s : PlacementDecl, s). eapply closes_app; [by apply zone_line|].
  list_lines (λ s : PlacementDecl, s) Placement_Require. { apply (match_line "require" Placement_Require); [reflexivity|reflexivity|by apply H3]. }
  list_lines (λ s : PlacementDecl, s) Placement_Prefer. { apply (match_line "prefer" Placement_Prefer); [reflexivity|reflexivity|by apply H4]. }
  list_lines (λ s : PlacementDecl, s) Placement_Accept.
  { apply (chunk_bare (λ s : PlacementDecl, s) _ (λ Y v, addTo Placement_Accept v Y)); [reflexivity|reflexivity|auto with format|reflexivity|by apply H5]. }
  block_line (λ s : PlacementDecl, s). eapply closes_weaken; [apply closes_end|]. intros s ->. destruct d; simpl in *; subst; reflexivity.
Qed.
End services.

(** * Reading formatted services back: configuration, mounts, ports and tags *)

Section mounts.
Context `{Unicode}.

(** ** Configuration *)

Definition env_fmt (e : EnvVarDecl) : Prop := identifier (EnvVar_Name e) ∧ quotable (EnvVar_Value e).

(** A file has its content or the file it comes from, and the content does not
    read as the word [from]. *)
Definition config_file_fmt (f : ConfigFileDecl) : Prop :=
  quotable (ConfigFile_Path f) ∧ quotable (ConfigFile_FromFile f) ∧ quotable (ConfigFile_Content f) ∧
  (ConfigFile_FromFile f = [] → ConfigFile_Content f ≠ runes "from") ∧ (ConfigFile_FromFile f ≠ [] → ConfigFile_Content f = []).

Definition config_fmt (d : ConfigDecl) : Prop := Forall env_fmt (Config_EnvVars d) ∧ Forall config_file_fmt (Config_ConfigFiles d).

Lemma skipOptionalEquals_run t rest ls file ty v : kindOf t = (ty, v) → ty ≠ TokenEquals →
  skipOptionalEquals (mkParser (t :: rest) ls file) = Some (inr (), mkParser (t :: rest) ls file).
Proof.
  intros Hk Hty. unfold skipOptionalEquals. rewrite (bind_run _ _ _ _ _ (currentTokenIs_run t rest ls file TokenEquals)).
  by rewrite bool_decide_false by (by erewrite kindOf_type by eassumption).
Qed.

Lemma value_not_equals ty : ty = TokenIdent ∨ ty = TokenString → ty ≠ TokenEquals.
Proof. by intros [->| ->]. Qed.

Lemma env_words name ty v : ty = TokenIdent ∨ ty = TokenString →
  parses_words parseEnvVar [(TokenIdent, name); (ty, v)] (mkEnvVarDecl name v).
Proof.
  intros Hty ts nl rest ls file Ek Hnl. split_tokens. unfold parseEnvVar. run_step.
  erewrite bind_run by (eapply skipOptionalEquals_run; [eassumption|by apply value_not_equals]). by run_step.
Qed.

Lemma config_from_words ty path ty' v : ty = TokenIdent ∨ ty = TokenString → ty' = TokenIdent ∨ ty' = TokenString →
  parses_words parseConfigFile [(ty, path); (TokenIdent, runes "from"); (ty', v)] (mkConfigFileDecl path [] v).
Proof.
  intros Hty Hty' ts nl rest ls file Ek Hnl. split_tokens. unfold parseConfigFile. do 2 run_step.
  rewrite (kindOf_type _ _ _ Hk0), (kindOf_value _ _ _ Hk0).
  change (bool_decide (TokenIdent = TokenIdent) && isWord (runes "from") "from") with true. cbv iota. by do 2 run_step.
Qed.

Lemma config_content_words ty path ty' v : ty = TokenIdent ∨ ty = TokenString → ty' = TokenIdent ∨ ty' = TokenString → v ≠ runes "from" →
  parses_words parseConfigFile [(ty, path); (ty', v)] (mkConfigFileDecl path v []).
Proof.
  intros Hty Hty' Hv ts nl rest ls file Ek Hnl. split_tokens. unfold parseConfigFile. do 2 run_step.
  rewrite (kindOf_value _ _ _ Hk0). unfold isWord. rewrite (bool_decide_false (v = _)), andb_false_r by done.
  erewrite bind_run by (eapply skipOptionalEquals_run; [eassumption|by apply value_not_equals]). by run_step.
Qed.

Lemma config_file_chunk f X : config_file_fmt f →
  chunk (nextField parseConfigField) (formatConfigFile f) (λ s, s = X) (λ s, s = addTo Config_ConfigFiles f X).
Proof.
  intros (H1 & H2 & H3 & H4 & H5). unfold formatConfigFile. destruct f as [path content from]; simpl in *.
  destruct (word_value path H1) as (ty1 & W1 & T1). case_bool_decide as Hf; simpl.
  - subst from. destruct (word_value content H3) as (ty2 & W2 & T2).
    words_line (λ s : ConfigDecl, s) [[(ty1, path)]; [(ty2, content)]]; [format_words|]. apply config_content_words; auto.
  - rewrite (H5 Hf). destruct (word_value from H2) as (ty2 & W2 & T2).
    words_line (λ s : ConfigDecl, s) [[(ty1, path)]; [(TokenIdent, runes "from")]; [(ty2, from)]]; [format_words|]. by apply config_from_words.
Qed.

Lemma config_chunk d X : config_fmt d →
  service_chunk (formatServiceConfigFields (ServiceDecl_zero <| Service_Config := Some d |>)) X (X <| Service_Config := Some d |>).
Proof.
  intros [H1 H2]. rewrite Forall_forall in H1. rewrite Forall_forall in H2. unfold service_chunk, formatServiceConfigFields.
  cbn [whenSome Service_Config update]. nested_block stripService parseConfigField d.
  list_lines (λ s : ConfigDecl, s) Config_EnvVars.
  { destruct (H1 x Hx) as [Hn Hv], x as [name v]; simpl in *. destruct (word_value v Hv) as (ty & Hw & Hty).
    words_line (λ s : ConfigDecl, s) [[(TokenIdent, name)]; [(ty, v)]]; [format_words|by apply env_words]. }
  list_lines (λ s : ConfigDecl, s) Config_ConfigFiles. { by apply config_file_chunk, H2. }
  block_line (λ s : ConfigDecl, s).
Qed.

(** ** Secrets, connections and volumes *)

(** A mount path that is written between quotes. *)
Definition mount_fmt (v : text) : Prop := v ≠ [] ∧ plain v ∧ ¬ identifier v.

Lemma word_mount v : mount_fmt v → lexesWord (quoteIfNeeded v) [(TokenString, v)].
Proof. intros (_ & Hp & Hi). destruct (quoteIfNeeded_cases v) as [[_ Hv]|[-> _]]; [done|]. by apply word_quoted. Qed.

Lemma mount_words {A} (mk : text → text → A) (default : text → text) name v :
  parses_words (x ← expectIdentifier; y ← optionalMountPath (default x); mret (mk x y)) [(TokenIdent, name); (TokenString, v)] (mk name v).
Proof.
  intros ts nl rest ls file Ek Hnl. split_tokens. run_step. unfold optionalMountPath.
  erewrite bind_run; [reflexivity|]. run_step. rewrite bool_decide_true by (by eapply kindOf_type). run_step. by erewrite kindOf_value by eassumption.
Qed.

Lemma secret_chunk s X : identifier (Secret_Name s) → mount_fmt (Secret_MountPath s) →
  service_chunk (formatSecret s) X (addTo Service_Secrets s X).
Proof.
  destruct s as [name v]; simpl. intros H1 H2. pose proof (word_mount v H2) as Hw. unfold service_chunk, formatSecret. simpl.
  rewrite bool_decide_false by apply H2. simpl.
  words_line stripService [[(TokenIdent, name)]; [(TokenString, v)]]; [format_words|]. apply (mount_words mkSecretDecl).
Qed.

Lemma connection_ref_chunk c X : identifier (ConnectionRef_ConnectionName c) → mount_fmt (ConnectionRef_MountPath c) →
  service_chunk (formatConnectionRef c) X (addTo Service_Connections c X).
Proof.
  destruct c as [name v]; simpl. intros H1 H2. pose proof (word_mount v H2) as Hw. unfold service_chunk, formatConnectionRef. simpl.
  rewrite bool_decide_false by apply H2. simpl.
  words_line stripService [[(TokenIdent, name)]; [(TokenString, v)]]; [format_words|]. apply (mount_words mkConnectionRef).
Qed.

(** A loop that reads a slash and a segment in each round. *)
Lemma segments_runs {B} (body : text → parse (text + B)) segments done ts rest ls file :
  (∀ name t1 t2 v rest, kindOf t1 = (TokenSlash, [slash]) → kindOf t2 = (TokenIdent, v) →
    body name (mkParser (t1 :: t2 :: rest) ls file) = Some (inr (inl (name ++ [slash] ++ v)), mkParser rest ls file)) →
  kindOf <$> ts = slashedKinds ((TokenIdent,.) <$> segments) →
  runs body done (mkParser (ts ++ rest) ls file) (done ++ slashed segments) (mkParser rest ls file).
Proof.
  intros Hbody. revert done ts. induction segments as [|v segments IH]; intros done ts Ek.
  - apply fmap_nil_inv in Ek as ->. unfold slashed. simpl. rewrite app_nil_r. apply runs_nil.
  - unfold slashedKinds in Ek. rewrite fmap_cons, bind_cons in Ek. cbn [app] in Ek.
    apply fmap_cons_inv in Ek as (t1 & ts1 & K1 & Ek & ->). symmetry in K1, Ek. apply fmap_cons_inv in Ek as (t2 & ts2 & K2 & Ek & ->). symmetry in K2, Ek.
    unfold slashed. rewrite bind_cons. fold (slashed segments). cbn [app]. eapply runs_cons; [by apply Hbody|simpl; rewrite ?length_app; lia|].
    replace (done ++ slash :: v ++ slashed segments) with ((done ++ [slash] ++ v) ++ slashed segments) by (by rewrite <-!app_assoc). by apply IH.
Qed.

(** The segments of a path are read up to a token that is not a slash. *)
Lemma readMountPath_loop segments done ts t rest ls file :
  kindOf <$> ts = slashedKinds ((TokenIdent,.) <$> segments) → TokenTyp t ≠ TokenSlash →
  loop (λ pathValue,
      more ← currentTokenIs TokenSlash;
      if more : bool then
        advanceToken;;
        segment ← currentToken;
        if bool_decide (TokenTyp segment ∈ [TokenIdent; TokenNumber]) then
          advanceToken;; mret (inl (pathValue ++ [slash] ++ TokenValue segment))
        else mret (inl (pathValue ++ [slash]))
      else mret (inr pathValue)) done (mkParser (ts ++ t :: rest) ls file)
  = Some (inr (done ++ slashed segments), mkParser (t :: rest) ls file).
Proof.
  intros Ek Ht. eapply loop_runs; [apply segments_runs; [|exact Ek]|].
  - intros name t1 t2 v rest' K1 K2. run_step. rewrite bool_decide_true by (by eapply kindOf_type). do 2 run_step.
    rewrite bool_decide_true by (erewrite kindOf_type by eassumption; apply list_elem_of_here). run_step. by erewrite kindOf_value by eassumption.
  - run_step. by rewrite bool_decide_false.
Qed.

(** A path of identifiers, which is not written between quotes. *)
Definition path_fmt (v : text) : Prop := ∃ segments, v = slashed segments ∧ Forall identifier segments ∧ segments ≠ [].

Definition volume_mount_fmt (m : VolumeMountDecl) : Prop := identifier (VolumeMount_VolumeName m) ∧ path_fmt (VolumeMount_MountPath m).

Lemma volume_mount_words name segments : segments ≠ [] →
  parses_words parseVolumeMount ((TokenIdent, name) :: slashedKinds ((TokenIdent,.) <$> segments)) (mkVolumeMountDecl name (slashed segments)).
Proof.
  intros Hne ts nl rest ls file Ek Hnl. apply fmap_cons_inv in Ek as (t & ts' & Hk & Ek & ->). symmetry in Hk, Ek. cbn [app].
  unfold parseVolumeMount. run_step. unfold readMountPath. destruct segments as [|v segments]; [done|].
  pose proof Ek as Ek'. unfold slashedKinds in Ek'. rewrite fmap_cons, bind_cons in Ek'. cbn [app] in Ek'.
  apply fmap_cons_inv in Ek' as (t1 & ts1 & K1 & _ & E'). symmetry in K1.
  erewrite bind_run; [reflexivity|]. rewrite E' at 1. cbn [app]. run_step. rewrite (kindOf_type _ _ _ K1).
  change (bool_decide (TokenSlash = TokenString)) with false. change (bool_decide (TokenSlash = TokenSlash)) with true. cbv iota.
  rewrite app_comm_cons, <-E'. apply (readMountPath_loop (v :: segments) [] ts' nl rest ls file Ek). by apply newline_type.
Qed.

Lemma volume_mount_chunk m X : volume_mount_fmt m →
  service_chunk (Fprintln indentUnit [runes "volume"; VolumeMount_VolumeName m; VolumeMount_MountPath m]) X (addTo Service_VolumeMounts m X).
Proof.
  destruct m as [name v]; intros [H1 (segments & H2 & H3 & H4)]; simpl in *. subst v. pose proof (word_path segments H3 H4) as Hw. unfold service_chunk.
  words_line stripService [[(TokenIdent, name)]; slashedKinds ((TokenIdent,.) <$> segments)]; [format_words|].
  simpl. rewrite app_nil_r. by apply volume_mount_words.
Qed.

(** ** Cloud identities, tags and ports *)

Definition binding_fmt (b : CloudIdentityBindingDecl) : Prop :=
  identifier (CloudIdentityBinding_IdentityName b) ∧ quotable (CloudIdentityBinding_MountPath b) ∧ identifier (CloudIdentityBinding_DeliverMode b).

Lemma identifier_nonempty v : identifier v → v ≠ [].
Proof. by intros [(? & ? & -> & _) _]. Qed.

Lemma binding_chunk b X : binding_fmt b → service_chunk (formatCloudBinding b) X (addTo Service_CloudIdentities b X).
Proof.
  intros (H1 & H2 & H3). unfold service_chunk, formatCloudBinding.
  assert (Hl : closes parseCloudIdentityBindingField indentUnit
    (unlessEmpty (CloudIdentityBinding_MountPath b) (Fprintln indent2 [runes "mount_path"; quoteIfNeeded (CloudIdentityBinding_MountPath b)]) ++
     unlessEmpty (CloudIdentityBinding_DeliverMode b) (Fprintln indent2 [runes "deliver"; CloudIdentityBinding_DeliverMode b]) ++
     Fprintln indentUnit [runes "}"])
    (λ e, e = CloudIdentityBindingDecl_zero <| CloudIdentityBinding_IdentityName := CloudIdentityBinding_IdentityName b |>
      <| CloudIdentityBinding_DeliverMode := runes "credentials" |>) (λ e, e = b)).
  { block_line (λ s : CloudIdentityBindingDecl, s). unfold unlessEmpty at 1. rewrite bool_decide_false by (by apply identifier_nonempty).
    eapply closes_app; [value_line (λ s : CloudIdentityBindingDecl, s)|]. block_line (λ s : CloudIdentityBindingDecl, s). }
  destruct Hl as (lines & -> & Hl).
  eapply (chunk_block _ _ indentUnit indentUnit (runes "cloud_identity") [_] [[(TokenIdent, CloudIdentityBinding_IdentityName b)]]);
    [auto with format|auto with format|by apply keyword_identifier|format_words|exact Hl|].
  intros d e ts lb rest nl rest' ls file <- -> Ek Hlb Hnl Hb. simpl in Ek. split_tokens. exists (addTo Service_CloudIdentities b d). split; [done|].
  change (parseServiceField d (runes "cloud_identity")) with (v ← parseCloudIdentityBindingInService; mret (addTo Service_CloudIdentities v d)).
  erewrite bind_run; [reflexivity|]. unfold parseCloudIdentityBindingInService. run_step. exact Hb.
Qed.

Definition tag_fmt (t : TagDecl) : Prop := identifier (Tag_Key t) ∧ quotable (Tag_Value t).

Lemma tag_line t X : tag_fmt t →
  chunk (nextField parseTag) (Fprintln indent2 [Tag_Key t; quoteIfNeeded (Tag_Value t)]) (λ s, s = X) (λ s, s = X ++ [t]).
Proof.
  destruct t as [key v]; intros [H1 H2]; simpl in *. destruct (word_value v H2) as (ty & Hw & Hty).
  eapply chunk_field; [auto with format|done|constructor; [exact Hw|constructor]|].
  intros d ts nl rest ls file -> Ek Hnl. simpl in Ek. split_tokens. eexists. split; [reflexivity|]. unfold parseTag. by run_step.
Qed.

Lemma tags_chunk d X : Forall tag_fmt (Service_Tags d) → Service_Tags X = [] →
  service_chunk (formatServiceTagFields d) X (X <| Service_Tags := Service_Tags d |>).
Proof.
  intros Ht HX. rewrite Forall_forall in Ht. unfold service_chunk, formatServiceTagFields. case_bool_decide as He.
  { apply chunk_nil. intros s ->. rewrite He. destruct X; simpl in *; by subst. }
  eapply chunk_weaken; [eapply (chunk_appended stripService _ parseTag parseTagsBlock (λ X l, X <| Service_Tags := Service_Tags X ++ l |>) [] (Service_Tags d))| |].
  - reflexivity.
  - reflexivity.
  - intros p p' Hb. unfold parseTagsBlock. erewrite bind_run by exact Hb. cbv beta. by rewrite bool_decide_false.
  - auto with format.
  - reflexivity.
  - eapply closes_app; [|apply closes_end].
    apply (chunk_list _ (Service_Tags d) (λ t, Fprintln indent2 [Tag_Key t; quoteIfNeeded (Tag_Value t)]) (λ done s, s = done)).
    intros done x Hx. by apply tag_line, Ht.
  - intros s Hs. exact Hs.
  - intros s ->. by rewrite HX.
Qed.

Definition external_fmt (e : ExternalPortDecl) : Prop :=
  natural (ExternalPort_Port e) ∧ (ExternalPort_Protocol e = runes "tcp" ∨ ExternalPort_Protocol e = runes "http").

Lemma port_chunk n X : natural n → service_chunk (Fprintln indentUnit [runes "expose"; decimal n]) X (addTo Service_Ports n X).
Proof.
  intros Hn. eapply chunk_field; [auto with format|by apply keyword_identifier|constructor; [by apply word_natural|constructor]|].
  intros d ts nl rest ls file <- Ek Hnl. simpl in Ek. split_tokens. exists (addTo Service_Ports n d). split; [done|].
  change (parseServiceField d (runes "expose")) with (parseExpose d). unfold parseExpose. run_step.
  rewrite (bool_decide_false (TokenTyp t = _)) by (by erewrite kindOf_type by eassumption). cbn [andb]. cbv iota. by run_step.
Qed.

Lemma external_chunk e X : external_fmt e → service_chunk (formatExternalPort e) X (addTo Service_ExternalPorts e X).
Proof.
  destruct e as [n protocol]; intros [H1 H2]; simpl in *. unfold formatExternalPort. simpl.
  assert (Hw : ∃ words kss, Forall2 lexesWord words kss ∧
    (if negb (bool_decide (protocol = [])) && negb (isWord protocol "tcp") then Fprintln indentUnit [runes "expose"; runes "external"; decimal n; protocol]
     else Fprintln indentUnit [runes "expose"; runes "external"; decimal n]) = Fprintln indentUnit (runes "expose" :: words) ∧
    parses_words parseExposeExternal (concat kss) (mkExternalPortDecl n protocol) ∧ ∃ ks, concat kss = (TokenIdent, runes "external") :: ks).
  { destruct H2 as [->| ->].
    - exists [runes "external"; decimal n], [[(TokenIdent, runes "external")]; [(TokenNumber, decimal n)]]. split_and!; [format_words|done| |by eexists].
      intros ts nl rest ls file Ek Hnl. simpl in Ek. split_tokens. unfold parseExposeExternal. do 3 run_step.
      by rewrite (bool_decide_false (TokenTyp nl = _)) by (by apply newline_type).
    - exists [runes "external"; decimal n; runes "http"], [[(TokenIdent, runes "external")]; [(TokenNumber, decimal n)]; [(TokenIdent, runes "http")]].
      split_and!; [format_words|done| |by eexists].
      intros ts nl rest ls file Ek Hnl. simpl in Ek. split_tokens. unfold parseExposeExternal. do 3 run_step.
      rewrite (kindOf_type _ _ _ Hk1), (kindOf_value _ _ _ Hk1). change (_ && _) with true. cbv iota. by run_step. }
  destruct Hw as (words & kss & Hw & -> & Hm & ks & Eks).
  eapply chunk_field; [auto with format|by apply keyword_identifier|exact Hw|].
  intros d ts nl rest ls file <- Ek Hnl. exists (addTo Service_ExternalPorts (mkExternalPortDecl n protocol) d). split; [done|].
  change (parseServiceField d (runes "expose")) with (parseExpose d). unfold parseExpose. pose proof Ek as Ek'. rewrite Eks in Ek'.
  apply fmap_cons_inv in Ek' as (t & ts' & Hk & _ & Ets). symmetry in Hk. rewrite Ets at 1. cbn [app]. run_step.
  rewrite (kindOf_type _ _ _ Hk), (kindOf_value _ _ _ Hk). change (_ && _) with true. cbv iota. rewrite app_comm_cons, <-Ets.
  by rewrite (bind_run _ _ _ _ _ (Hm ts nl rest ls file Ek Hnl)).
Qed.
End mounts.

(** * Reading formatted services back: the whole service *)

Section service.
Context `{Unicode}.

Definition secret_fmt (s : SecretDecl) : Prop := identifier (Secret_Name s) ∧ mount_fmt (Secret_MountPath s).
Definition connection_ref_fmt (c : ConnectionRef) : Prop := identifier (ConnectionRef_ConnectionName c) ∧ mount_fmt (ConnectionRef_MountPath c).

Definition pull_fmt (v : text) : Prop := v = [] ∨ v = runes "always" ∨ v = runes "if_not_present" ∨ v = runes "never".

(** What a service has to satisfy for its text to be read back as the same
    service. The priority is not written, so it has to be the default. *)
Record service_fmt (d : ServiceDecl) : Prop := {
  service_image : quotable (Service_Image d);
  service_command : quotable (Service_Command d);
  service_instances : natural (Service_Instances d);
  service_owner : optional identifier (Service_Owner d);
  service_priority : Service_Priority d = 0;
  service_ports : Forall natural (Service_Ports d);
  service_external : Forall external_fmt (Service_ExternalPorts d);
  service_init : Forall init_fmt (Service_InitSteps d);
  service_health : whenever health_fmt (Service_Health d);
  service_startup : whenever probe_fmt (Service_Startup d);
  service_liveness : whenever probe_fmt (Service_Liveness d);
  service_readiness : whenever probe_fmt (Service_Readiness d);
  service_resources : whenever resources_fmt (Service_Resources d);
  service_scale : whenever scale_fmt (Service_Scale d);
  service_placement : whenever placement_fmt (Service_Placement d);
  service_update : whenever update_fmt (Service_Update d);
  service_disruption : whenever disruption_fmt (Service_Disruption d);
  service_config : whenever config_fmt (Service_Config d);
  service_secrets : Forall secret_fmt (Service_Secrets d);
  service_connections : Forall connection_ref_fmt (Service_Connections d);
  service_volumes : Forall volume_mount_fmt (Service_VolumeMounts d);
  service_bindings : Forall binding_fmt (Service_CloudIdentities d);
  service_tags : Forall tag_fmt (Service_Tags d);
  service_pull : pull_fmt (Service_PullPolicy d);
  service_pull_secret : quotable (Service_ImagePullSecret d);
  service_logging : whenever logging_fmt (Service_Logging d);
  service_lifecycle : whenever lifecycle_fmt (Service_Lifecycle d);
  service_grace : optional amount (Service_TerminationGracePeriod d)
}.

Lemma service_app v1 v2 X Y Z : service_chunk v1 X Y → service_chunk v2 Y Z → service_chunk (v1 ++ v2) X Z.
Proof. apply chunk_app. Qed.

Lemma stateful_chunk X : service_chunk (Fprintln indentUnit [runes "stateful"]) X (X <| Service_Stateful := true |>).
Proof. by apply (chunk_alone stripService _ _ _ (λ s, s <| Service_Stateful := true |>)); [|done|auto with format|done]. Qed.

Lemma pull_chunk v X : pull_fmt v → Service_PullPolicy X = [] →
  service_chunk (unlessEmpty v (Fprintln indentUnit [runes "pull_policy"; v])) X (X <| Service_PullPolicy := v |>).
Proof.
  intros Hv HX. apply chunk_unlessEmpty.
  - intros Hne. assert (isKeyword v = true) by (by destruct Hv as [->|[->|[->| ->]]]).
    eapply chunk_field; [auto with format|by apply keyword_identifier|constructor; [by apply word_keyword|constructor]|].
    intros d ts nl rest ls file <- Ek Hnl. simpl in Ek. split_tokens. exists (d <| Service_PullPolicy := v |>). split; [done|].
    change (parseServiceField d (runes "pull_policy")) with (parsePullPolicy d). unfold parsePullPolicy. run_step.
    by destruct Hv as [->|[->|[->| ->]]].
  - intros -> s ->. destruct X; simpl in *; by subst.
Qed.

Lemma pull_secret_chunk v X : quotable v → Service_ImagePullSecret X = [] →
  service_chunk (unlessEmpty v (Fprintln indentUnit [runes "image_pull_secret"; quoteIfNeeded v])) X (X <| Service_ImagePullSecret := v |>).
Proof.
  intros Hv HX. apply chunk_unlessEmpty; [|intros -> s ->; destruct X; simpl in *; by subst].
  intros _. apply (chunk_string stripService _ (λ s v, s <| Service_ImagePullSecret := v |>)); [reflexivity|reflexivity|auto with format|reflexivity|done].
Qed.

Lemma grace_chunk v X : optional amount v → Service_TerminationGracePeriod X = [] →
  service_chunk (unlessEmpty v (Fprintln indentUnit [runes "termination_grace_period"; v])) X (X <| Service_TerminationGracePeriod := v |>).
Proof.
  intros Hv HX. apply chunk_unlessEmpty; [|intros -> s ->; destruct X; simpl in *; by subst].
  intros Hne. destruct (word_amount v) as (ty & Hw & Hty); [by destruct Hv|].
  eapply (chunk_one stripService _ _ (λ s v, s <| Service_TerminationGracePeriod := v |>)); [auto with format|done|exact Hw| |reflexivity|reflexivity].
  intros. eapply expectOneOf_run; [eassumption|]. destruct Hty as [->| ->]; set_solver.
Qed.

Lemma flag_chunk (f : ServiceDecl → bool) `{!Update f} (b : bool) v X :
  service_chunk v X (update f true X) → update f false X = X → service_chunk (whenTrue b v) X (update f b X).
Proof. intros Hv Hf. apply chunk_if; [by intros ->|]. intros -> s ->. by rewrite Hf. Qed.

Lemma identity_chunk d X : service_fmt d → X = ServiceDecl_zero <| Service_Name := Service_Name d |> →
  service_chunk (formatServiceIdentityFields d) X
    (X <| Service_Image := Service_Image d |> <| Service_Command := Service_Command d |> <| Service_Instances := Service_Instances d |>
       <| Service_Owner := Service_Owner d |> <| Service_Stateful := Service_Stateful d |> <| Service_LegacySecretAPI := Service_LegacySecretAPI d |>).
Proof.
  intros [] ->. unfold formatServiceIdentityFields.
  eapply service_app; [apply chunk_unlessEmpty; [intros ?; value_line stripService|missing]|].
  eapply service_app; [apply chunk_unlessEmpty; [intros ?; value_line stripService|missing]|].
  eapply service_app; [value_line stripService|].
  eapply service_app; [apply chunk_unlessEmpty; [intros ?; value_line stripService|missing]|].
  eapply service_app; [apply (flag_chunk Service_Stateful); [apply stateful_chunk|reflexivity]|].
  apply (chunk_flag stripService _ (λ s v, s <| Service_LegacySecretAPI := v |>)); [reflexivity|reflexivity|auto with format|reflexivity|reflexivity].
Qed.

(** A list of lines of a service. *)
Lemma lines_chunk {A} (f : ServiceDecl → list A) `{!Update f} (P : A → Prop) (xs : list A) (line : A → text) X :
  (∀ d, update f (f d) d = d) → (∀ v d, f (update f v d) = v) → (∀ u v d, update f v (update f u d) = update f v d) → f X = [] →
  Forall P xs → (∀ x Y, P x → service_chunk (line x) Y (addTo f x Y)) → service_chunk (xs ≫= line) X (update f xs X).
Proof.
  intros L1 L2 L3 HX Hxs Hx. apply (chunk_appends stripService _ f); [done..|]. intros Y x Hin. rewrite Forall_forall in Hxs. by apply Hx, Hxs.
Qed.

Ltac lines f := eapply (lines_chunk f); [intros []; reflexivity|reflexivity|reflexivity|reflexivity|eassumption|].

Lemma network_chunk d X : Forall natural (Service_Ports d) → Forall external_fmt (Service_ExternalPorts d) → Service_Ports X = [] → Service_ExternalPorts X = [] →
  service_chunk (formatServiceNetworkFields d) X (X <| Service_Ports := Service_Ports d |> <| Service_ExternalPorts := Service_ExternalPorts d |>).
Proof.
  intros H1 H2 E1 E2. eapply service_app.
  - apply (lines_chunk Service_Ports natural); [intros []; reflexivity|reflexivity|reflexivity|done|done|]. intros. by apply port_chunk.
  - apply (lines_chunk Service_ExternalPorts external_fmt); [intros []; reflexivity|reflexivity|reflexivity|done|done|]. intros. by apply external_chunk.
Qed.

(** A block of a service that may be missing. *)
Lemma option_chunk {A} (f : ServiceDecl → option A) `{!Update f} (P : A → Prop) (x : option A) (v : A → text) X :
  (∀ d, update f (f d) d = d) → f X = None → whenever P x → (∀ a Y, P a → service_chunk (v a) Y (update f (Some a) Y)) →
  service_chunk (whenSome x v) X (update f x X).
Proof. intros L HX Hx Hv. apply (chunk_option stripService _ f); [|by rewrite <-HX, L]. intros a Ha. by apply Hv, Hx. Qed.

Ltac may_be f := eapply (option_chunk f); [intros []; reflexivity|reflexivity|eassumption|intros ? ?].

Lemma probes_chunk d X : whenever health_fmt (Service_Health d) → whenever probe_fmt (Service_Startup d) →
  whenever probe_fmt (Service_Liveness d) → whenever probe_fmt (Service_Readiness d) →
  Service_Health X = None → Service_Startup X = None → Service_Liveness X = None → Service_Readiness X = None →
  service_chunk (formatServiceProbeFields d) X
    (X <| Service_Health := Service_Health d |> <| Service_Startup := Service_Startup d |> <| Service_Liveness := Service_Liveness d |>
       <| Service_Readiness := Service_Readiness d |>).
Proof.
  intros H1 H2 H3 H4 E1 E2 E3 E4. destruct X; simpl in *; subst.
  eapply service_app; [may_be Service_Health; by apply health_chunk|].
  eapply service_app; [may_be Service_Startup; by apply (probe_chunk "startup" (λ s v, s <| Service_Startup := v |>))|].
  eapply service_app; [may_be Service_Liveness; by apply (probe_chunk "liveness" (λ s v, s <| Service_Liveness := v |>))|].
  may_be Service_Readiness; by apply (probe_chunk "readiness" (λ s v, s <| Service_Readiness := v |>)).
Qed.

Lemma mounts_chunk d X : Forall secret_fmt (Service_Secrets d) → Forall connection_ref_fmt (Service_Connections d) →
  Forall volume_mount_fmt (Service_VolumeMounts d) → Forall binding_fmt (Service_CloudIdentities d) →
  Service_Secrets X = [] → Service_Connections X = [] → Service_VolumeMounts X = [] → Service_CloudIdentities X = [] →
  service_chunk (formatServiceMountFields d) X
    (X <| Service_Secrets := Service_Secrets d |> <| Service_Connections := Service_Connections d |>
       <| Service_VolumeMounts := Service_VolumeMounts d |> <| Service_CloudIdentities := Service_CloudIdentities d |>).
Proof.
  intros H1 H2 H3 H4 E1 E2 E3 E4. destruct X; simpl in *; subst.
  eapply service_app; [lines Service_Secrets; intros ? ? []; by apply secret_chunk|].
  eapply service_app; [lines Service_Connections; intros ? ? []; by apply connection_ref_chunk|].
  eapply service_app; [lines Service_VolumeMounts; intros; by apply volume_mount_chunk|].
  lines Service_CloudIdentities. intros. by apply binding_chunk.
Qed.

Lemma service_lines d : service_fmt d →
  closes parseServiceField [] 
    (formatServiceIdentityFields d ++ formatServiceNetworkFields d ++ formatServiceInitFields d ++ formatServiceProbeFields d ++
     formatServiceResourceFields d ++ formatServiceScaleFields d ++ formatServicePlacementFields d ++ formatServiceUpdateFields d ++
     formatServiceDisruptionFields d ++ formatServiceConfigFields d ++ formatServiceMountFields d ++ formatServiceTagFields d ++
     formatServicePullPolicyField d ++ formatServiceImagePullSecretField d ++ formatServiceLoggingFields d ++ formatServiceLifecycleFields d ++
     formatServiceTerminationGracePeriodField d ++ Fprintln [] [runes "}"])
    (λ s, stripService s = ServiceDecl_zero <| Service_Name := Service_Name d |>) (λ s, stripService s = stripService d).
Proof.
  intros Hd. pose proof Hd as [].
  eapply closes_app; [by apply identity_chunk|].
  eapply closes_app; [by apply network_chunk|].
  eapply closes_app; [lines Service_InitSteps; intros; by apply initStep_chunk|].
  eapply closes_app; [by apply probes_chunk|].
  eapply closes_app; [may_be Service_Resources; by apply resources_chunk|].
  eapply closes_app; [may_be Service_Scale; by apply scale_chunk|].
  eapply closes_app; [may_be Service_Placement; by apply placement_chunk|].
  eapply closes_app; [may_be Service_Update; by apply update_chunk|].
  eapply closes_app; [may_be Service_Disruption; by apply disruption_chunk|].
  eapply closes_app; [may_be Service_Config; by apply config_chunk|].
  eapply closes_app; [by apply mounts_chunk|].
  eapply closes_app; [by apply tags_chunk|].
  eapply closes_app; [by apply pull_chunk|].
  eapply closes_app; [by apply pull_secret_chunk|].
  eapply closes_app; [may_be Service_Logging; by apply logging_chunk|].
  eapply closes_app; [may_be Service_Lifecycle; by apply lifecycle_chunk|].
  eapply closes_app; [by apply grace_chunk|].
  eapply closes_weaken; [apply closes_end|]. intros s ->. destruct d; simpl in *; subst; reflexivity.
Qed.
End service.
