(* ===== verification/FormatterDeclarations.v ===== *)
(** * Reading formatted declarations back

    For every kind of declaration, what it has to satisfy for its text to be read back, and that it is. *)

From S2P Require Import Prelude GoFmt Ast Lexer LexerProps ParserCore Parser ParserProps Formatter FormatterChunks FormatterBlocks FormatterServices.

Local Open Scope Z_scope.

(** * Formatted declarations and the rounds of the parser over a file

    A declaration is a chunk of the file's loop that begins with a token, so that
    blank lines may stand between declarations. Files are compared up to the source
    lines their declarations record. *)

(** ** Without source lines *)

Definition stripJob (d : JobDecl) : JobDecl := d <| Job_Line := 0 |>.
Definition stripCronJob (d : CronJobDecl) : CronJobDecl := d <| CronJob_Line := 0 |>.
Definition stripVolume (d : VolumeDecl) : VolumeDecl := d <| Volume_Line := 0 |>.
Definition stripConnection (d : ConnectionDecl) : ConnectionDecl := d <| Connection_Line := 0 |>.
Definition stripTenant (d : TenantDecl) : TenantDecl := d <| Tenant_Line := 0 |>.
Definition stripCloudIdentity (d : CloudIdentityDecl) : CloudIdentityDecl := d <| CloudIdentity_Line := 0 |>.
Definition stripBroker (d : CredentialBrokerDecl) : CredentialBrokerDecl := d <| CredentialBroker_Line := 0 |>.
Definition stripCloud (d : CloudDecl) : CloudDecl := d <| Cloud_Line := 0 |>.
Definition stripRole (d : RoleDecl) : RoleDecl := d <| Role_Line := 0 |>.
Definition stripGrant (d : GrantDecl) : GrantDecl := d <| Grant_Line := 0 |>.
Definition stripGroup (d : GroupDecl) : GroupDecl := d <| Group_Line := 0 |>.
Definition stripServiceGroup (d : ServiceGroupDecl) : ServiceGroupDecl := d <| ServiceGroup_Line := 0 |>.
Definition stripCondition (c : PolicyConditionDecl) : PolicyConditionDecl := c <| PolicyCondition_Line := 0 |>.
Definition stripPolicy (d : PolicyDecl) : PolicyDecl := d <| Policy_Line := 0 |> <| Policy_Conditions := stripCondition <$> Policy_Conditions d |>.
Definition stripRule (r : NetworkRuleDecl) : NetworkRuleDecl := r <| NetworkRule_Line := 0 |>.
Definition stripNetwork (d : NetworkDecl) : NetworkDecl := d <| Network_Line := 0 |> <| Network_Rules := stripRule <$> Network_Rules d |>.
Definition stripRoute (d : RouteDecl) : RouteDecl := d <| Route_Line := 0 |>.

Definition stripFile (f : File) : File := {|
  File_Services := stripService <$> File_Services f;
  File_Jobs := stripJob <$> File_Jobs f;
  File_CronJobs := stripCronJob <$> File_CronJobs f;
  File_Volumes := stripVolume <$> File_Volumes f;
  File_Connections := stripConnection <$> File_Connections f;
  File_Tenants := stripTenant <$> File_Tenants f;
  File_CloudIdentities := stripCloudIdentity <$> File_CloudIdentities f;
  File_CredentialBroker := stripBroker <$> File_CredentialBroker f;
  File_Cloud := stripCloud <$> File_Cloud f;
  File_Roles := stripRole <$> File_Roles f;
  File_Grants := stripGrant <$> File_Grants f;
  File_Groups := stripGroup <$> File_Groups f;
  File_ServiceGroups := stripServiceGroup <$> File_ServiceGroups f;
  File_Policies := stripPolicy <$> File_Policies f;
  File_Networks := stripNetwork <$> File_Networks f;
  File_Routes := stripRoute <$> File_Routes f;
  File_BaseDir := []
|}.

(** ** Declarations *)

Section declarations.
Context `{Unicode}.

Definition declared (v : text) (P Q : File → Prop) : Prop :=
  chunk nextDeclaration v P Q ∧ ∃ k ks, lexes v (k :: ks).

(** The tokens of a text are determined by it. *)
Lemma lexes_unique v ks ks' : lexes v ks → lexes v ks' → ks = ks'.
Proof.
  intros H1 H2. destruct (Tokenize_lexes v ks H1) as (ts & eof & E & <- & _), (Tokenize_lexes v ks' H2) as (ts' & eof' & E' & <- & _).
  rewrite E in E'. injection E' as E'. by apply app_inj_tail in E' as [-> _].
Qed.

(** A round at the keyword of a declaration that is parsed up to some newlines. *)
Lemma nextDeclaration_run f f' t key after nls rest ls file :
  kindOf t = (TokenIdent, key) → parseDeclaration f key (mkParser (t :: after) ls file) = Some (inr f', mkParser (nls ++ rest) ls file) →
  Forall isNewline nls → continues rest → nextDeclaration f (mkParser (t :: after) ls file) = Some (inr (inl f'), mkParser rest ls file).
Proof.
  intros Hk Hp Hn Hr. unfold nextDeclaration. rewrite (bind_run _ _ _ _ _ (isAtEnd_run t after ls file)). pose proof Hk as [= Ht Hv]. rewrite Ht.
  change (bool_decide (TokenIdent = TokenEOF)) with false. cbv iota. run_step. rewrite bool_decide_true, Hv by done.
  rewrite (bind_run _ _ _ _ _ Hp). by rewrite (bind_run _ _ _ _ _ (skipNewlineTokens_run nls rest ls file Hn Hr)).
Qed.

(** What stands between the braces of a declaration. *)
Definition body_tokens (v : text) (rest : list Token) (nl : Token) (rest' : list Token) : Prop :=
  ∃ nl0 tv rb ks, rest = nl0 :: tv ++ rb :: nl :: rest' ∧ isNewline nl0 ∧ TokenTyp rb = TokenRBrace ∧ lexes v ks ∧ kindOf <$> tv = ks.

Lemma declared_braces {E} (body : E → parse (E + E)) key words kss v (P0 R : E → Prop) (P Q : File → Prop) :
  ends_at_brace body → isKeyword key = true → Forall2 lexesWord words kss → chunk body v P0 R →
  (∀ f t ts lb rest nl rest' ls file, P f → kindOf t = (TokenIdent, key) → kindOf <$> ts = concat kss → TokenTyp lb = TokenLBrace →
    body_tokens v rest nl rest' →
    (∀ e, P0 e → ∃ e', R e' ∧ braced body e (mkParser (lb :: rest) ls file) = Some (inr e', mkParser (nl :: rest') ls file)) →
    ∃ f', Q f' ∧ parseDeclaration f key (mkParser (t :: ts ++ lb :: rest) ls file) = Some (inr f', mkParser (nl :: rest') ls file)) →
  declared (Fprintln [] (key :: words ++ [runes "{"]) ++ v ++ Fprintln [] [runes "}"]) P Q.
Proof.
  intros Hend Hkey Hw Hv Hp. destruct (braced_run body v _ _ Hend Hv) as (ks & L & Hblock).
  assert (Hl := lexes_block [] [] key words kss v ks ltac:(constructor) ltac:(constructor) (keyword_identifier _ Hkey) Hw L).
  split; [|by do 2 eexists]. eexists. split_and!; [exact Hl|done|].
  intros f ts nls rest ls file Hf Ek Hn _ Hr. apply block_tokens in Ek as (t & tw & lb & nl & tv & rb & nl2 & -> & Ekey & Ew & Hlb & Hnl & Ev & Hrb & Hnl2).
  destruct (Hp f t tw lb (nl :: tv ++ rb :: nl2 :: nls ++ rest) nl2 (nls ++ rest) ls file) as (f' & HQ & Hf'); [done..| | |].
  - by exists nl, tv, rb, ks.
  - intros e He. by apply Hblock.
  - exists f'. split; [done|]. eapply runs_cons; [| |apply runs_nil].
    + simpl. rewrite <-!app_assoc. simpl. rewrite <-!app_assoc. simpl.
      eapply (nextDeclaration_run f f' t key _ (nl2 :: nls) rest); [done|exact Hf'|by constructor|done].
    + simpl. rewrite !length_app. simpl. rewrite !length_app. simpl. lia.
Qed.

(** A declaration that is a line. *)
Lemma declared_line key words kss (P Q : File → Prop) :
  isKeyword key = true → Forall2 lexesWord words kss →
  (∀ f t ts nl rest ls file, P f → kindOf t = (TokenIdent, key) → kindOf <$> ts = concat kss → isNewline nl →
    ∃ f', Q f' ∧ parseDeclaration f key (mkParser (t :: ts ++ nl :: rest) ls file) = Some (inr f', mkParser (nl :: rest) ls file)) →
  declared (Fprintln [] (key :: words)) P Q.
Proof.
  intros Hkey Hw Hp.
  assert (Hl := lexes_line [] (key :: words) ([(TokenIdent, key)] :: kss) ltac:(constructor) ltac:(constructor; [by apply word_keyword|done])).
  cbn [concat app] in Hl. split; [|by do 2 eexists]. eexists. split_and!; [exact Hl|done|].
  intros f ts nls rest ls file Hf Ek Hn _ Hr. apply fmap_cons_inv in Ek as (t & ts0 & Ekey & Ek & ->). symmetry in Ekey, Ek.
  apply fmap_app_inv in Ek as (ts1 & ts2 & E1 & E2 & ->). symmetry in E1, E2. destruct ts2 as [|nl [|]]; try done. injection E2 as Hnl _.
  destruct (Hp f t ts1 nl (nls ++ rest) ls file) as (f' & HQ & Hf'); [done..|].
  exists f'. split; [done|]. eapply runs_cons; [| |apply runs_nil].
  - simpl. rewrite <-!app_assoc. simpl. eapply (nextDeclaration_run f f' t key _ (nl :: nls) rest); [done|exact Hf'|by constructor|done].
  - simpl. rewrite !length_app. simpl. lia.
Qed.

(** ** Sequences of declarations *)

Fixpoint declares (vs : list text) (P Q : File → Prop) : Prop :=
  match vs with
  | [] => ∀ s, P s → Q s
  | v :: vs' => ∃ R, declared v P R ∧ declares vs' R Q
  end.

Lemma declares_app vs1 vs2 (P Q R : File → Prop) : declares vs1 P Q → declares vs2 Q R → declares (vs1 ++ vs2) P R.
Proof.
  revert P. induction vs1 as [|v vs1 IH]; intros P H1 H2; simpl in *.
  - destruct vs2; simpl in *; [by auto|]. destruct H2 as (R' & [Hc Hk] & H2). exists R'. split; [|done]. split; [|done].
    eapply chunk_weaken; [exact Hc|done|done].
  - destruct H1 as (R' & Hv & H1). exists R'. split; [done|]. by apply IH.
Qed.

(** A blank line after a declaration is read with it. *)
Lemma chunk_blank v (P Q : File → Prop) : declared v P Q → chunk nextDeclaration (v ++ [newline]) P Q.
Proof.
  intros ((ks & L & F & Hc) & k & ks' & L'). pose proof (lexes_unique _ _ _ L L') as ->.
  exists ((k :: ks') ++ [newlineKind]). split_and!; [apply lexes_app; [done|apply lexes_newline]|done|].
  intros s ts nls rest ls file Hs Ek Hn _ Hr. apply fmap_app_inv in Ek as (ts1 & ts2 & E1 & E2 & ->). symmetry in E1, E2.
  destruct ts2 as [|nl [|]]; try done. injection E2 as Hnl _. rewrite <-app_assoc. apply (Hc s ts1 (nl :: nls)); [done|done|by constructor|done|done].
Qed.

Lemma writeDeclarations_true v vs : writeDeclarations true (v :: vs) = newline :: writeDeclarations false (v :: vs).
Proof. done. Qed.

Lemma writeDeclarations_chunk vs (P Q : File → Prop) : declares vs P Q → chunk nextDeclaration (writeDeclarations false vs) P Q.
Proof.
  revert P. induction vs as [|v vs IH]; intros P Hd; simpl in Hd; [by apply chunk_nil|].
  destruct Hd as (R & Hv & Hd). destruct vs as [|v2 vs].
  - simpl. rewrite app_nil_r. eapply chunk_weaken; [apply Hv|done|done].
  - change (writeDeclarations false (v :: v2 :: vs)) with (v ++ writeDeclarations true (v2 :: vs)). rewrite writeDeclarations_true.
    replace (v ++ newline :: _) with ((v ++ [newline]) ++ writeDeclarations false (v2 :: vs)) by (by rewrite <-app_assoc).
    eapply chunk_app; [by apply chunk_blank|by apply IH].
Qed.

Lemma writeDeclarations_declared vs (P Q : File → Prop) : vs ≠ [] → declares vs P Q → declared (writeDeclarations false vs) P Q.
Proof.
  intros Hne Hd. split; [by apply writeDeclarations_chunk|]. destruct vs as [|v vs]; [done|]. destruct Hd as (R & (_ & k & ks & Lv) & Hd).
  simpl. destruct vs as [|v2 vs]; [simpl; rewrite app_nil_r; eauto|]. rewrite writeDeclarations_true.
  destruct (writeDeclarations_chunk _ _ _ Hd) as (ks2 & L2 & _). exists k, (ks ++ newlineKind :: ks2).
  apply (lexes_app _ _ _ _ Lv (lexes_app _ _ _ _ lexes_newline L2)).
Qed.

(** One declaration per element of a list. *)
Lemma declares_list {A} (f : File → list A) `{!Update f} (strip : A → A) (xs : list A) (v : A → text) F :
  (∀ d, update f (f d) d = d) → (∀ u d, f (update f u d) = u) → (∀ u u' d, update f u' (update f u d) = update f u' d) → f F = [] →
  (∀ Y x, x ∈ xs → declared (v x) (λ s, stripFile s = Y) (λ s, stripFile s = addTo f (strip x) Y)) →
  declares (v <$> xs) (λ s, stripFile s = F) (λ s, stripFile s = update f (strip <$> xs) F).
Proof.
  intros L1 L2 L3 HF Hx.
  enough (Hgen : ∀ done todo, xs = done ++ todo →
    declares (v <$> todo) (λ s, stripFile s = update f (strip <$> done) F) (λ s, stripFile s = update f (strip <$> xs) F)).
  { specialize (Hgen [] xs eq_refl). simpl in Hgen. by rewrite <-HF, L1 in Hgen. }
  intros done todo. revert done. induction todo as [|x todo IH]; intros done E; simpl.
  - rewrite app_nil_r in E. by subst.
  - exists (λ s, stripFile s = update f (strip <$> (done ++ [x])) F). split; [|apply IH; by rewrite E, <-app_assoc].
    assert (Hd := Hx (update f (strip <$> done) F) x ltac:(rewrite E; apply elem_of_app; right; apply list_elem_of_here)).
    unfold addTo in Hd. rewrite L2, L3 in Hd. by rewrite fmap_app.
Qed.

(** One declaration where there may be one. *)
Lemma declares_option {A} (f : File → option A) `{!Update f} (strip : A → A) (x : option A) (v : A → text) F :
  (∀ d, update f (f d) d = d) → f F = None →
  (∀ a, x = Some a → declared (v a) (λ s, stripFile s = F) (λ s, stripFile s = update f (Some (strip a)) F)) →
  declares (v <$> option_list x) (λ s, stripFile s = F) (λ s, stripFile s = update f (strip <$> x) F).
Proof.
  intros L HF Hx. destruct x as [a|]; simpl.
  - exists (λ s, stripFile s = update f (Some (strip a)) F). split; [by apply Hx|done].
  - intros s ->. by rewrite <-HF, L.
Qed.
End declarations.

(** * Reading formatted declarations back: connections, volumes, tenants, the cloud and jobs *)

(** The lines of a declaration, up to its closing brace. *)
Ltac last_line d :=
  eapply closes_weaken; [apply closes_end|let Hs := fresh in intros ? Hs; rewrite Hs; destruct d; simpl in *; subst; reflexivity].

Ltac declaration_lines strip d :=
  repeat (lazymatch goal with |- closes _ _ (_ ++ _) _ _ => block_line strip end); last_line d.

(** How a block that belongs to a declaration is parsed: from a record of its
    words, whatever line it is on. *)
Definition reads_block {E} (m : parse E) (field : E → text → parse E) (strip : E → E) (key : text) (ks : list kind) (X0 X : E) : Prop :=
  ∀ t ts lb rest ls file, kindOf t = (TokenIdent, key) → kindOf <$> ts = ks → TokenTyp lb = TokenLBrace →
    ∃ s0, strip s0 = X0 ∧ ∀ p' s', block field s0 (mkParser (lb :: rest) ls file) = Some (inr s', p') → strip s' = X →
      m (mkParser (t :: ts ++ lb :: rest) ls file) = Some (inr s', p').

(** The keyword, the name and the block are read; the block starts from the record
    of the name. *)
Ltac declaration_run m :=
  unfold reads_block; intros; simpl in *; split_tokens; eexists; split; cycle 1;
  [let p' := fresh "p" in let s' := fresh "s" in let Hb := fresh "Hb" in let Hs := fresh "Hs" in
   intros p' s' Hb Hs; unfold m; repeat run_step; first [exact Hb|erewrite bind_run by exact Hb; cbv beta]
  |reflexivity].

Section objects.
Context `{Unicode}.

Lemma declared_block {E} (put : E → File → File) (strip : E → E) (m : parse E) (field : E → text → parse E) key words kss v X0 X Y :
  (∀ s p, parseDeclaration s (runes key) p = (x ← m; mret (put x s)) p) → (∀ x s, stripFile (put x s) = put (strip x) (stripFile s)) →
  isKeyword (runes key) = true → Forall2 lexesWord words kss → closes field [] v (λ s, strip s = X0) (λ s, strip s = X) →
  reads_block m field strip (runes key) (concat kss) X0 X →
  declared (Fprintln [] (runes key :: words ++ [runes "{"]) ++ v) (λ s, stripFile s = Y) (λ s, stripFile s = put X Y).
Proof.
  intros Hp Hs Hkey Hw (lines & -> & Hl) Hm.
  apply (declared_braces (nextField field) (runes key) words kss lines (λ s, strip s = X0) (λ s, strip s = X)); [apply nextField_ends|done|done|done|].
  intros f t ts lb rest nl rest' ls file <- Hk Ek Hlb _ Hb. destruct (Hm t ts lb rest ls file Hk Ek Hlb) as (s0 & Hs0 & Hrun).
  destruct (Hb s0 Hs0) as (s' & Hs' & Hblock). exists (put s' f). split; [by rewrite Hs, Hs'|].
  rewrite Hp. by rewrite (bind_run _ _ _ _ _ (Hrun _ _ Hblock Hs')).
Qed.

(** A declaration of which there is at most one. *)
Lemma option_bind {A B} (m : parse A) (k : option A → B) p : (v ← Some <$> m; mret (k v)) p = (x ← m; mret (k (Some x))) p.
Proof. unfold fmap, parse_fmap, mbind, parse_bind, mret, parse_ret. by destruct (m p) as [[[]]|]. Qed.

(** ** Connections and volumes *)

Definition connection_fmt (d : ConnectionDecl) : Prop :=
  identifier (Connection_Name d) ∧ quotable (Connection_Driver d) ∧ quotable (Connection_User d) ∧ optional identifier (Connection_Secret d) ∧
  quotable (Connection_Host d) ∧ natural (Connection_Port d) ∧ quotable (Connection_Database d) ∧ Connection_Driver d ≠ [] ∧ Connection_Host d ≠ [].

Lemma connection_declared d Y : connection_fmt d →
  declared (formatConnectionDecl d) (λ s, stripFile s = Y) (λ s, stripFile s = addTo File_Connections (stripConnection d) Y).
Proof.
  intros (H1 & H2 & H3 & H4 & H5 & H6 & H7 & H8 & H9).
  apply (declared_block (addTo File_Connections) stripConnection parseConnectionDeclaration parseConnectionField "connection"
    [Connection_Name d] [[(TokenIdent, Connection_Name d)]] _ (ConnectionDecl_zero <| Connection_Name := Connection_Name d |>));
    [reflexivity|intros ? []; unfold stripFile, addTo; simpl; by rewrite fmap_app|reflexivity|format_words|declaration_lines stripConnection d|].
  declaration_run parseConnectionDeclaration.
  assert (E1 : Connection_Driver s = Connection_Driver d) by (apply (f_equal Connection_Driver) in Hs; exact Hs).
  assert (E2 : Connection_Host s = Connection_Host d) by (apply (f_equal Connection_Host) in Hs; exact Hs).
  by rewrite E1, E2, !bool_decide_false.
Qed.

Definition volume_fmt (d : VolumeDecl) : Prop :=
  identifier (Volume_Name d) ∧ optional amount (Volume_Size d) ∧
  (Volume_StorageType d = [] ∨ Volume_StorageType d = runes "local" ∨ Volume_StorageType d = runes "nfs").

Lemma size_line v X : amount v →
  chunk (nextField parseVolumeField) (Fprintln indentUnit [runes "size"; v]) (λ s, stripVolume s = X) (λ s, stripVolume s = X <| Volume_Size := v |>).
Proof.
  intros Hv. destruct (word_amount v Hv) as (ty & Hw & Hty).
  eapply (chunk_one stripVolume _ parseVolumeSize (λ s v, s <| Volume_Size := v |>)); [auto with format|done|exact Hw| |reflexivity|reflexivity].
  intros t rest ls file Hk. unfold parseVolumeSize. run_step. rewrite bool_decide_true by (erewrite kindOf_type by eassumption; destruct Hty as [->| ->]; set_solver).
  run_step. by erewrite kindOf_value by eassumption.
Qed.

Lemma persistent_line X :
  chunk (nextField parseVolumeField) (Fprintln indentUnit [runes "persistent"; runes "true"]) (λ s, stripVolume s = X)
    (λ s, stripVolume s = X <| Volume_Persistent := true |>).
Proof.
  apply (chunk_one stripVolume _ expectIdentifier (λ s v, s <| Volume_Persistent := isWord v "true" |>) (runes "true") _ _ _ (TokenIdent, runes "true"));
    [auto with format|done|by apply word_keyword| |reflexivity|reflexivity]. intros. by apply expectIdentifier_run.
Qed.

Lemma type_line v X : v = runes "local" ∨ v = runes "nfs" →
  chunk (nextField parseVolumeField) (Fprintln indentUnit [runes "type"; v]) (λ s, stripVolume s = X) (λ s, stripVolume s = X <| Volume_StorageType := v |>).
Proof.
  intros Hv. apply (chunk_one stripVolume _ parseVolumeType (λ s v, s <| Volume_StorageType := v |>) v _ _ _ (TokenIdent, v));
    [auto with format|done|apply word_keyword; by destruct Hv as [->| ->]| |reflexivity|reflexivity].
  intros t rest ls file Hk. unfold parseVolumeType. run_step. by destruct Hv as [->| ->].
Qed.

Lemma volume_declared d Y : volume_fmt d →
  declared (formatVolumeDecl d) (λ s, stripFile s = Y) (λ s, stripFile s = addTo File_Volumes (stripVolume d) Y).
Proof.
  intros (H1 & H2 & H3).
  apply (declared_block (addTo File_Volumes) stripVolume parseVolumeDeclaration parseVolumeField "volume"
    [Volume_Name d] [[(TokenIdent, Volume_Name d)]] _ (VolumeDecl_zero <| Volume_Name := Volume_Name d |>));
    [reflexivity|intros ? []; unfold stripFile, addTo; simpl; by rewrite fmap_app|reflexivity|format_words| |declaration_run parseVolumeDeclaration].
  eapply closes_app; [apply chunk_unlessEmpty; [intros ?; apply size_line; by eapply optional_there|missing]|].
  eapply closes_app.
  { instantiate (1 := λ s, stripVolume s = VolumeDecl_zero <| Volume_Name := Volume_Name d |> <| Volume_Size := Volume_Size d |>
      <| Volume_Persistent := Volume_Persistent d |>).
    apply chunk_if; [intros ->; apply persistent_line|]. intros -> s ->. reflexivity. }
  eapply closes_app; [apply chunk_unlessEmpty; [intros ?; apply type_line; by destruct H3|missing]|]. last_line d.
Qed.

(** ** Tenants *)

Definition quota_fmt (d : QuotaDecl) : Prop :=
  natural (Quota_CPU d) ∧ optional amount (Quota_Memory d) ∧ natural (Quota_Instances d) ∧ natural (Quota_Volumes d) ∧ optional amount (Quota_Storage d).

Definition tenant_fmt (d : TenantDecl) : Prop := identifier (Tenant_Name d) ∧ whenever quota_fmt (Tenant_Quota d) ∧ natural (Tenant_Weight d).

Lemma quota_chunk d X : quota_fmt d →
  chunk (nextField parseTenantField) (formatQuotaDecl d) (λ s, stripTenant s = X) (λ s, stripTenant s = X <| Tenant_Quota := Some d |>).
Proof.
  intros (H1 & H2 & H3 & H4 & H5). unfold formatQuotaDecl. nested_block stripTenant parseQuotaField d. block_lines (λ s : QuotaDecl, s).
Qed.

Lemma tenant_declared d Y : tenant_fmt d →
  declared (formatTenantDecl d) (λ s, stripFile s = Y) (λ s, stripFile s = addTo File_Tenants (stripTenant d) Y).
Proof.
  intros (H1 & H2 & H3).
  apply (declared_block (addTo File_Tenants) stripTenant parseTenantDeclaration parseTenantField "tenant"
    [Tenant_Name d] [[(TokenIdent, Tenant_Name d)]] _ (TenantDecl_zero <| Tenant_Name := Tenant_Name d |>));
    [reflexivity|intros ? []; unfold stripFile, addTo; simpl; by rewrite fmap_app|reflexivity|format_words| |declaration_run parseTenantDeclaration].
  option_lines stripTenant Tenant_Quota. { by apply quota_chunk, H2. } declaration_lines stripTenant d.
Qed.

(** ** The cloud *)

Definition cloud_identity_fmt (d : CloudIdentityDecl) : Prop :=
  identifier (CloudIdentity_Name d) ∧ optional identifier (CloudIdentity_Provider d) ∧ quotable (CloudIdentity_Role d) ∧
  quotable (CloudIdentity_ServiceAccount d) ∧ quotable (CloudIdentity_Pool d) ∧ quotable (CloudIdentity_ClientID d) ∧ quotable (CloudIdentity_TenantID d).

Lemma cloud_identity_declared d Y : cloud_identity_fmt d →
  declared (formatCloudIdentityDecl d) (λ s, stripFile s = Y) (λ s, stripFile s = addTo File_CloudIdentities (stripCloudIdentity d) Y).
Proof.
  intros (H1 & H2 & H3 & H4 & H5 & H6 & H7).
  apply (declared_block (addTo File_CloudIdentities) stripCloudIdentity parseCloudIdentityDeclaration parseCloudIdentityField "cloud_identity"
    [CloudIdentity_Name d] [[(TokenIdent, CloudIdentity_Name d)]] _ (CloudIdentityDecl_zero <| CloudIdentity_Name := CloudIdentity_Name d |>));
    [reflexivity|intros ? []; unfold stripFile, addTo; simpl; by rewrite fmap_app|reflexivity|format_words|declaration_lines stripCloudIdentity d|].
  declaration_run parseCloudIdentityDeclaration.
Qed.

Definition broker_fmt (d : CredentialBrokerDecl) : Prop :=
  quotable (CredentialBroker_OIDCIssuer d) ∧ quotable (CredentialBroker_CredentialTTL d) ∧ quotable (CredentialBroker_RefreshBefore d).

Lemma broker_declared d Y : broker_fmt d →
  declared (formatCredentialBrokerDecl d) (λ s, stripFile s = Y) (λ s, stripFile s = Y <| File_CredentialBroker := Some (stripBroker d) |>).
Proof.
  intros (H1 & H2 & H3).
  apply (declared_block (λ x s, s <| File_CredentialBroker := Some x |>) stripBroker parseCredentialBrokerDeclaration parseCredentialBrokerField
    "credential_broker" [] [] _ CredentialBrokerDecl_zero);
    [|intros ? []; reflexivity|reflexivity|constructor|declaration_lines stripBroker d|declaration_run parseCredentialBrokerDeclaration].
  intros s p. change (parseDeclaration s (runes "credential_broker") p) with
    ((v ← Some <$> parseCredentialBrokerDeclaration; mret (s <| File_CredentialBroker := v |>)) p).
  apply (option_bind _ (λ v, s <| File_CredentialBroker := v |>)).
Qed.
Definition cloud_fmt (d : CloudDecl) : Prop :=
  optional identifier (Cloud_Provider d) ∧ quotable (Cloud_Region d) ∧ quotable (Cloud_InstanceType d) ∧ optional identifier (Cloud_Credentials d) ∧
  quotable (Cloud_ProjectID d) ∧ quotable (Cloud_ResourceGroup d) ∧ quotable (Cloud_VPCNetwork d) ∧ quotable (Cloud_RouteTable d).

Lemma cloud_declared d Y : cloud_fmt d →
  declared (formatCloudDecl d) (λ s, stripFile s = Y) (λ s, stripFile s = Y <| File_Cloud := Some (stripCloud d) |>).
Proof.
  intros (H1 & H2 & H3 & H4 & H5 & H6 & H7 & H8).
  apply (declared_block (λ x s, s <| File_Cloud := Some x |>) stripCloud parseCloudDeclaration parseCloudField "cloud" [] [] _ CloudDecl_zero);
    [|intros ? []; reflexivity|reflexivity|constructor|declaration_lines stripCloud d|declaration_run parseCloudDeclaration].
  intros s p. change (parseDeclaration s (runes "cloud") p) with ((v ← Some <$> parseCloudDeclaration; mret (s <| File_Cloud := v |>)) p).
  apply (option_bind _ (λ v, s <| File_Cloud := v |>)).
Qed.

(** ** Jobs *)

Definition job_fmt (d : JobDecl) : Prop :=
  quotable (Job_Name d) ∧ quotable (Job_Image d) ∧ quotable (Job_Command d) ∧ natural (Job_Completions d) ∧ natural (Job_Parallelism d) ∧
  natural (Job_BackoffLimit d) ∧ quotable (Job_ImagePullSecret d).

Lemma job_declared d Y : job_fmt d →
  declared (formatJobDecl d) (λ s, stripFile s = Y) (λ s, stripFile s = addTo File_Jobs (stripJob d) Y).
Proof.
  intros (H1 & H2 & H3 & H4 & H5 & H6 & H7). destruct (word_value (Job_Name d) H1) as (ty & Hw & Hty).
  apply (declared_block (addTo File_Jobs) stripJob parseJobDeclaration parseJobField "job"
    [quoteIfNeeded (Job_Name d)] [[(ty, Job_Name d)]] _ (JobDecl_zero <| Job_Name := Job_Name d |>));
    [reflexivity|intros ? []; unfold stripFile, addTo; simpl; by rewrite fmap_app|reflexivity|format_words|declaration_lines stripJob d|].
  declaration_run parseJobDeclaration.
Qed.

Definition cronjob_fmt (d : CronJobDecl) : Prop :=
  quotable (CronJob_Name d) ∧ quotable (CronJob_Schedule d) ∧ quotable (CronJob_Image d) ∧ quotable (CronJob_Command d) ∧
  natural (CronJob_Completions d) ∧ natural (CronJob_Parallelism d) ∧ natural (CronJob_BackoffLimit d) ∧ CronJob_Schedule d ≠ [] ∧ CronJob_Image d ≠ [].

Lemma cronjob_declared d Y : cronjob_fmt d →
  declared (formatCronJobDecl d) (λ s, stripFile s = Y) (λ s, stripFile s = addTo File_CronJobs (stripCronJob d) Y).
Proof.
  intros (H1 & H2 & H3 & H4 & H5 & H6 & H7 & H8 & H9). destruct (word_value (CronJob_Name d) H1) as (ty & Hw & Hty).
  apply (declared_block (addTo File_CronJobs) stripCronJob parseCronJobDeclaration parseCronJobField "cronjob"
    [quoteIfNeeded (CronJob_Name d)] [[(ty, CronJob_Name d)]] _ (CronJobDecl_zero <| CronJob_Name := CronJob_Name d |>));
    [reflexivity|intros ? []; unfold stripFile, addTo; simpl; by rewrite fmap_app|reflexivity|format_words|declaration_lines stripCronJob d|].
  declaration_run parseCronJobDeclaration.
  assert (E1 : CronJob_Schedule s = CronJob_Schedule d) by (apply (f_equal CronJob_Schedule) in Hs; exact Hs).
  assert (E2 : CronJob_Image s = CronJob_Image d) by (apply (f_equal CronJob_Image) in Hs; exact Hs).
  by rewrite E1, E2, !bool_decide_false.
Qed.
End objects.

(** * Reading formatted declarations back: access control and network rules *)

Section access.
Context `{Unicode}.

(** ** Names with slashes *)

(** The tokens of a name of identifiers with slashes between them. *)
Definition pathKinds (first : text) (segments : list text) : list kind := (TokenIdent, first) :: slashedKinds ((TokenIdent,.) <$> segments).

Definition path_name (v : text) : Prop := ∃ first segments, hierarchical v first segments.

Lemma expectHierarchicalName_run first segments ts t rest ls file :
  kindOf <$> ts = pathKinds first segments → TokenTyp t ≠ TokenSlash →
  expectHierarchicalName (mkParser (ts ++ t :: rest) ls file) = Some (inr (first ++ slashed segments), mkParser (t :: rest) ls file).
Proof.
  intros Ek Ht. apply fmap_cons_inv in Ek as (t0 & ts' & Hk & Ek & ->). symmetry in Hk, Ek. cbn [app]. unfold expectHierarchicalName. run_step.
  eapply loop_runs; [apply segments_runs; [|exact Ek]|].
  - intros name t1 t2 v rest' K1 K2. run_step. rewrite bool_decide_true by (by eapply kindOf_type). by do 2 run_step.
  - run_step. by rewrite bool_decide_false.
Qed.

Lemma parseServicePath_run first segments ts t rest ls file :
  kindOf <$> ts = pathKinds first segments → TokenValue t ≠ [slash] →
  parseServicePath (mkParser (ts ++ t :: rest) ls file) = Some (inr (first ++ slashed segments), mkParser (t :: rest) ls file).
Proof.
  intros Ek Ht. apply fmap_cons_inv in Ek as (t0 & ts' & Hk & Ek & ->). symmetry in Hk, Ek. cbn [app]. unfold parseServicePath.
  erewrite bind_run by (eapply expectOneOf_run; [eassumption|apply list_elem_of_here]).
  eapply loop_runs; [apply segments_runs; [|exact Ek]|].
  - intros name t1 t2 v rest' K1 K2. run_step. rewrite bool_decide_true by (by eapply kindOf_value). do 2 run_step.
    rewrite bool_decide_true by (erewrite kindOf_type by eassumption; apply list_elem_of_here). run_step. by erewrite kindOf_value by eassumption.
  - run_step. by rewrite bool_decide_false.
Qed.

(** ** Roles, groups and grants *)

Definition role_fmt (d : RoleDecl) : Prop := identifier (Role_Name d) ∧ Forall identifier (Role_Capabilities d) ∧ Forall path_name (Role_Scopes d).

Lemma role_declared d F : role_fmt d →
  declared (formatRoleDecl d) (λ s, stripFile s = F) (λ s, stripFile s = addTo File_Roles (stripRole d) F).
Proof.
  intros (H1 & H2 & H3). rewrite Forall_forall in H2. rewrite Forall_forall in H3.
  apply (declared_block (addTo File_Roles) stripRole parseRoleDeclaration parseRoleField "role"
    [Role_Name d] [[(TokenIdent, Role_Name d)]] _ (RoleDecl_zero <| Role_Name := Role_Name d |>));
    [reflexivity|intros ? []; unfold stripFile, addTo; simpl; by rewrite fmap_app|reflexivity|format_words| |declaration_run parseRoleDeclaration].
  list_lines stripRole Role_Capabilities.
  { apply (chunk_identifier stripRole _ (λ s v, addTo Role_Capabilities v s)); [reflexivity|reflexivity|auto with format|reflexivity|by apply H2]. }
  list_lines stripRole Role_Scopes.
  { destruct (H3 x Hx) as (first & segments & Hh). pose proof (word_hierarchical _ _ _ Hh) as Hw. destruct Hh as (-> & _).
    eapply (chunk_words stripRole _ _ (λ s v, addTo Role_Scopes v s) _ _ _ [_] [pathKinds first segments]);
      [reflexivity|reflexivity|auto with format|reflexivity|constructor; [exact Hw|constructor]|].
    simpl. rewrite app_nil_r. intros ts nl rest ls file Ek Hnl. apply expectHierarchicalName_run; [done|by apply newline_type]. }
  last_line d.
Qed.

Definition grant_fmt (d : GrantDecl) : Prop := identifier (Grant_RoleName d) ∧ identifier (Grant_PrincipalKind d) ∧ quotable (Grant_PrincipalName d).

Lemma grant_declared d Y : grant_fmt d →
  declared (formatGrantDecl d) (λ s, stripFile s = Y) (λ s, stripFile s = addTo File_Grants (stripGrant d) Y).
Proof.
  destruct d as [role kind name line]; intros (H1 & H2 & H3); simpl in *. destruct (word_value name H3) as (ty & Hw & Hty).
  eapply declared_line with (kss := [[(TokenIdent, role)]; [(TokenIdent, runes "to")]; [(TokenIdent, kind)]; [(ty, name)]]); [reflexivity|format_words|].
  intros f t ts nl rest ls file <- Hk Ek Hnl. simpl in Ek. split_tokens. exists (addTo File_Grants (mkGrantDecl role kind name (TokenLine t)) f). split.
  - destruct f; unfold stripFile, addTo; simpl. by rewrite fmap_app.
  - change (parseDeclaration f (runes "grant")) with (v ← parseGrantStatement; mret (addTo File_Grants v f)).
    erewrite bind_run; [reflexivity|]. unfold parseGrantStatement. do 4 run_step. rewrite (eq_refl : isWord (runes "to") "to" = true). by do 2 run_step.
Qed.

(** ** Groups of principals and groups of services *)

Definition group_fmt (d : GroupDecl) : Prop := identifier (Group_Name d) ∧ Forall quotable (Group_Members d).

(** Something is between the braces, so that the group is seen to be of services. *)
Definition service_group_fmt (d : ServiceGroupDecl) : Prop :=
  identifier (ServiceGroup_Name d) ∧ Forall identifier (ServiceGroup_Processes d) ∧ Forall identifier (ServiceGroup_SharedVolumes d) ∧
  (ServiceGroup_Processes d ≠ [] ∨ ServiceGroup_ShareNetwork d = true ∨ ServiceGroup_SharedVolumes d ≠ []).

(** The first token between the braces decides. *)
Lemma isServiceGroupBlock_run t tn name lb nl0 u after ls file ty v :
  kindOf tn = (TokenIdent, name) → TokenTyp lb = TokenLBrace → isNewline nl0 → kindOf u = (ty, v) → ty ≠ TokenNewline →
  isServiceGroupBlock (mkParser (t :: tn :: lb :: nl0 :: u :: after) ls file)
  = Some (inr (bool_decide (ty = TokenIdent) && (isWord v "process" || isWord v "share")), mkParser (t :: tn :: lb :: nl0 :: u :: after) ls file).
Proof.
  intros Hn Hlb Hnl Hu Hty. unfold isServiceGroupBlock. cbn [remaining drop]. unfold isNewline in Hnl. injection Hu as Eu Ev.
  cbn [dropType]. rewrite (bool_decide_true (TokenTyp tn = _)) by (by eapply kindOf_type). rewrite (bool_decide_false (TokenTyp lb = _)) by congruence.
  rewrite (bool_decide_true (TokenTyp lb = _)) by done. cbn [dropType]. rewrite (bool_decide_true (TokenTyp nl0 = _)) by done.
  rewrite (bool_decide_false (TokenTyp u = _)) by congruence. by rewrite Eu, Ev.
Qed.

Lemma member_chunk (d : GroupDecl) X : Forall quotable (Group_Members d) → Group_Members X = [] →
  chunk (nextField parseGroupField) (Group_Members d ≫= λ member, Fprintln indentUnit [runes "member"; quoteIfNeeded member])
    (λ s, stripGroup s = X) (λ s, stripGroup s = X <| Group_Members := Group_Members d |>).
Proof.
  intros Hm HX. rewrite Forall_forall in Hm. apply (chunk_appends stripGroup _ Group_Members); [intros []; reflexivity|reflexivity|reflexivity|done|].
  intros Y x Hx. apply (chunk_string stripGroup _ (λ s v, addTo Group_Members v s)); [reflexivity|reflexivity|auto with format|reflexivity|by apply Hm].
Qed.

(** The tokens of lines begin with the first word of the first line. *)
Lemma lexes_lines {A} (f : A → list text) (key : text) (xs : list A) :
  isKeyword key = true → (∀ x, x ∈ xs → ∃ kss, Forall2 lexesWord (f x) kss) →
  ∃ ks, lexes (xs ≫= λ x, Fprintln indentUnit (key :: f x)) ks ∧ (xs ≠ [] → ∃ ks', ks = (TokenIdent, key) :: ks').
Proof.
  intros Hkey. induction xs as [|x xs IH]; intros Hx; [exists []; split; [apply lexes_nil|done]|].
  destruct IH as (ks & L & _); [intros; apply Hx; by right|]. destruct (Hx x) as (kss & Hw); [by left|].
  assert (L2 := lexes_line indentUnit (key :: f x) ([(TokenIdent, key)] :: kss) indent_blanks ltac:(constructor; [by apply word_keyword|done])).
  eexists. split; [exact (lexes_app _ _ _ _ L2 L)|]. intros _. by eexists.
Qed.

Lemma group_declared d Y : group_fmt d →
  declared (formatGroupDecl d) (λ s, stripFile s = Y) (λ s, stripFile s = addTo File_Groups (stripGroup d) Y).
Proof.
  intros (H1 & H2). unfold formatGroupDecl.
  apply (declared_braces (nextField parseGroupField) (runes "group") [Group_Name d] [[(TokenIdent, Group_Name d)]] _
    (λ s, stripGroup s = GroupDecl_zero <| Group_Name := Group_Name d |>) (λ s, stripGroup s = stripGroup d)); [apply nextField_ends|done|format_words| |].
  { eapply chunk_weaken; [by apply (member_chunk d (GroupDecl_zero <| Group_Name := Group_Name d |>))|done|]. intros s ->. by destruct d. }
  intros f t ts lb rest nl rest' ls file <- Hk Ek Hlb (nl0 & tv & rb & ks & -> & Hnl0 & Hrb & L & Ekv) Hb. simpl in Ek. split_tokens.
  destruct (Hb (GroupDecl_zero <| Group_Name := Group_Name d |> <| Group_Line := TokenLine t |>)) as (s' & Hs' & Hrun); [reflexivity|].
  exists (addTo File_Groups s' f). split; [rewrite <-Hs'; destruct f; unfold stripFile, addTo; simpl; by rewrite fmap_app|].
  change (parseDeclaration f (runes "group")) with (parseAnyGroup f). unfold parseAnyGroup.
  assert (Hno : isServiceGroupBlock (mkParser (t :: t0 :: lb :: nl0 :: tv ++ rb :: nl :: rest') ls file) =
    Some (inr false, mkParser (t :: t0 :: lb :: nl0 :: tv ++ rb :: nl :: rest') ls file)).
  { rewrite Forall_forall in H2. destruct (lexes_lines (λ m, [quoteIfNeeded m]) (runes "member") (Group_Members d) eq_refl) as (ks' & L' & F').
    { intros x Hx. destruct (word_value x (H2 x Hx)) as (ty & Hw & _). exists [[(ty, x)]]. by constructor. }
    pose proof (lexes_unique _ _ _ L L') as <-. destruct (decide (Group_Members d = [])) as [Em|Em]; [|destruct (F' Em) as (ks' & ->)].
    - rewrite Em in L. pose proof (lexes_unique _ _ _ L lexes_nil) as ->.
      apply fmap_nil_inv in Ekv as ->. cbn [app]. by rewrite (isServiceGroupBlock_run _ _ (Group_Name d) _ _ rb _ _ _ TokenRBrace (TokenValue rb)) by (done || by apply (f_equal2 pair Hrb eq_refl)).
    - apply fmap_cons_inv in Ekv as (u & tv' & Hu & _ & ->). symmetry in Hu. cbn [app].
      by rewrite (isServiceGroupBlock_run _ _ _ _ _ u _ _ _ _ _ Hk0 Hlb Hnl0 Hu). }
  erewrite bind_run by exact Hno. cbv beta iota.
  erewrite bind_run; [reflexivity|]. unfold parseGroupDeclaration. do 3 run_step. exact Hrun.
Qed.

Lemma share_network_line X :
  chunk (nextField parseServiceGroupField) (Fprintln indentUnit [runes "share"; runes "network"]) (λ s, stripServiceGroup s = X)
    (λ s, stripServiceGroup s = X <| ServiceGroup_ShareNetwork := true |>).
Proof.
  eapply chunk_field; [auto with format|by apply keyword_identifier|constructor; [by apply word_keyword|constructor]|].
  intros d ts nl rest ls file <- Ek Hnl. simpl in Ek. split_tokens. exists (d <| ServiceGroup_ShareNetwork := true |>). split; [done|].
  change (parseServiceGroupField d (runes "share")) with (parseServiceGroupShareField d). unfold parseServiceGroupShareField. by run_step.
Qed.

Lemma share_volume_line v X : identifier v →
  chunk (nextField parseServiceGroupField) (Fprintln indentUnit [runes "share"; runes "volume"; v]) (λ s, stripServiceGroup s = X)
    (λ s, stripServiceGroup s = addTo ServiceGroup_SharedVolumes v X).
Proof.
  intros Hv. eapply chunk_field with (kss := [[(TokenIdent, runes "volume")]; [(TokenIdent, v)]]); [auto with format|by apply keyword_identifier|format_words|].
  intros d ts nl rest ls file <- Ek Hnl. simpl in Ek. split_tokens. exists (addTo ServiceGroup_SharedVolumes v d). split; [done|].
  change (parseServiceGroupField d (runes "share")) with (parseServiceGroupShareField d). unfold parseServiceGroupShareField. run_step.
  rewrite switch_other, switch_here by reflexivity. by run_step.
Qed.

Definition service_group_body (d : ServiceGroupDecl) : text :=
  (ServiceGroup_Processes d ≫= λ processName, Fprintln indentUnit [runes "process"; processName]) ++
  whenTrue (ServiceGroup_ShareNetwork d) (Fprintln indentUnit [runes "share"; runes "network"]) ++
  (ServiceGroup_SharedVolumes d ≫= λ volumeName, Fprintln indentUnit [runes "share"; runes "volume"; volumeName]).

Lemma service_group_chunk d : service_group_fmt d →
  chunk (nextField parseServiceGroupField) (service_group_body d)
    (λ s, stripServiceGroup s = ServiceGroupDecl_zero <| ServiceGroup_Name := ServiceGroup_Name d |>) (λ s, stripServiceGroup s = stripServiceGroup d).
Proof.
  intros (H1 & H2 & H3 & _). rewrite Forall_forall in H2. rewrite Forall_forall in H3. unfold service_group_body.
  eapply chunk_app; [eapply (chunk_appends stripServiceGroup _ ServiceGroup_Processes); [intros []; reflexivity|reflexivity|reflexivity|reflexivity|]|].
  { intros Y x Hx. apply (chunk_identifier stripServiceGroup _ (λ s v, addTo ServiceGroup_Processes v s));
      [reflexivity|reflexivity|auto with format|reflexivity|by apply H2]. }
  eapply chunk_app with (Q := λ s, stripServiceGroup s = ServiceGroupDecl_zero <| ServiceGroup_Name := ServiceGroup_Name d |>
    <| ServiceGroup_Processes := ServiceGroup_Processes d |> <| ServiceGroup_ShareNetwork := ServiceGroup_ShareNetwork d |>).
  { apply chunk_if; [intros ->; apply share_network_line|]. intros -> s ->. reflexivity. }
  eapply chunk_weaken; [eapply (chunk_appends stripServiceGroup _ ServiceGroup_SharedVolumes); [intros []; reflexivity|reflexivity|reflexivity| |]| |].
  - instantiate (1 := ServiceGroupDecl_zero <| ServiceGroup_Name := ServiceGroup_Name d |> <| ServiceGroup_Processes := ServiceGroup_Processes d |>
      <| ServiceGroup_ShareNetwork := ServiceGroup_ShareNetwork d |>). reflexivity.
  - intros Y x Hx. by apply share_volume_line, H3.
  - done.
  - intros s ->. by destruct d.
Qed.

Lemma service_group_first d ks : service_group_fmt d → lexes (service_group_body d) ks →
  ∃ v ks', ks = (TokenIdent, v) :: ks' ∧ isWord v "process" || isWord v "share" = true.
Proof.
  intros (H1 & H2 & H3 & H4) L. rewrite Forall_forall in H2. rewrite Forall_forall in H3.
  assert (L1 : ∃ ks1, lexes (ServiceGroup_Processes d ≫= λ processName, Fprintln indentUnit [runes "process"; processName]) ks1 ∧
    (ServiceGroup_Processes d ≠ [] → ∃ ks', ks1 = (TokenIdent, runes "process") :: ks')).
  { apply (lexes_lines (λ x, [x])); [done|]. intros x Hx. exists [[(TokenIdent, x)]]. constructor; [by apply word_identifier, H2|constructor]. }
  assert (L2 : ∃ ks2, lexes (whenTrue (ServiceGroup_ShareNetwork d) (Fprintln indentUnit [runes "share"; runes "network"])) ks2 ∧
    (ServiceGroup_ShareNetwork d = true → ∃ ks', ks2 = (TokenIdent, runes "share") :: ks') ∧ (ServiceGroup_ShareNetwork d = false → ks2 = [])).
  { destruct (ServiceGroup_ShareNetwork d); simpl; [|exists []; split_and!; [apply lexes_nil|done|done]].
    assert (Hl := lexes_line indentUnit [runes "share"; runes "network"] [[(TokenIdent, runes "share")]; [(TokenIdent, runes "network")]]
      indent_blanks ltac:(format_words)). eexists. split; [exact Hl|]. split; [|discriminate]. by eexists. }
  assert (L3 : ∃ ks3, lexes (ServiceGroup_SharedVolumes d ≫= λ volumeName, Fprintln indentUnit [runes "share"; runes "volume"; volumeName]) ks3 ∧
    (ServiceGroup_SharedVolumes d ≠ [] → ∃ ks', ks3 = (TokenIdent, runes "share") :: ks')).
  { apply (lexes_lines (λ x, [runes "volume"; x])); [done|]. intros x Hx. exists [[(TokenIdent, runes "volume")]; [(TokenIdent, x)]].
    constructor; [by apply word_keyword|]. constructor; [by apply word_identifier, H3|constructor]. }
  destruct L1 as (ks1 & L1 & F1), L2 as (ks2 & L2 & F2 & F2'), L3 as (ks3 & L3 & F3).
  rewrite (lexes_unique _ _ _ L (lexes_app _ _ _ _ L1 (lexes_app _ _ _ _ L2 L3))).
  destruct ks1 as [|[ty v] ks1]; [|].
  - destruct (decide (ServiceGroup_Processes d = [])) as [Ep|Ep]; [|by destruct (F1 Ep)].
    destruct (ServiceGroup_ShareNetwork d) eqn:En; [destruct F2 as (? & ->); [done|]; by do 2 eexists|].
    rewrite F2' by done. destruct F3 as (? & ->); [naive_solver|]. by do 2 eexists.
  - destruct (decide (ServiceGroup_Processes d = [])) as [Ep|Ep]; [rewrite Ep in L1; by pose proof (lexes_unique _ _ _ L1 lexes_nil)|].
    destruct (F1 Ep) as (? & [= -> -> ->]). by do 2 eexists.
Qed.
End access.

(** * Reading formatted declarations back: policies, networks, gates and services *)

Section gates.
Context `{Unicode}.

Lemma service_group_declared d Y : service_group_fmt d →
  declared (formatServiceGroupDecl d) (λ s, stripFile s = Y) (λ s, stripFile s = addTo File_ServiceGroups (stripServiceGroup d) Y).
Proof.
  intros Hd. assert (E : formatServiceGroupDecl d =
    Fprintln [] (runes "group" :: [ServiceGroup_Name d] ++ [runes "{"]) ++ service_group_body d ++ Fprintln [] [runes "}"]).
  { unfold formatServiceGroupDecl, service_group_body. by rewrite <-!app_assoc. }
  rewrite E. pose proof Hd as (H1 & _).
  apply (declared_braces (nextField parseServiceGroupField) (runes "group") [ServiceGroup_Name d] [[(TokenIdent, ServiceGroup_Name d)]] _
    (λ s, stripServiceGroup s = ServiceGroupDecl_zero <| ServiceGroup_Name := ServiceGroup_Name d |>)
    (λ s, stripServiceGroup s = stripServiceGroup d)); [apply nextField_ends|done|format_words|by apply service_group_chunk|].
  intros f t ts lb rest nl rest' ls file <- Hk Ek Hlb (nl0 & tv & rb & ks & -> & Hnl0 & Hrb & L & Ekv) Hb. simpl in Ek. split_tokens.
  destruct (Hb (ServiceGroupDecl_zero <| ServiceGroup_Name := ServiceGroup_Name d |> <| ServiceGroup_Line := TokenLine t |>)) as (s' & Hs' & Hrun); [reflexivity|].
  exists (addTo File_ServiceGroups s' f). split; [rewrite <-Hs'; destruct f; unfold stripFile, addTo; simpl; by rewrite fmap_app|].
  change (parseDeclaration f (runes "group")) with (parseAnyGroup f). unfold parseAnyGroup.
  destruct (service_group_first d ks Hd L) as (v & ks' & -> & Hv). apply fmap_cons_inv in Ekv as (u & tv' & Hu & _ & ->). symmetry in Hu. cbn [app] in *.
  erewrite bind_run by (by apply (isServiceGroupBlock_run t t0 _ lb nl0 u _ ls file _ _ Hk0 Hlb Hnl0 Hu)). cbv beta. rewrite Hv.
  change (bool_decide (TokenIdent = TokenIdent) && true) with true. cbv iota.
  erewrite bind_run; [reflexivity|]. unfold parseServiceGroupDeclaration. do 3 run_step. exact Hrun.
Qed.

(** ** Policies *)

Definition operators : list text := [runes "=="; runes "!="; runes "in"; runes "not_in"].

(** The value is written without quotes. *)
Definition condition_fmt (c : PolicyConditionDecl) : Prop :=
  identifier (PolicyCondition_Field c) ∧ PolicyCondition_Operator c ∈ operators ∧ identifier (PolicyCondition_Value c).

Definition policy_fmt (d : PolicyDecl) : Prop :=
  identifier (Policy_Name d) ∧ identifier (Policy_Capability d) ∧ Forall condition_fmt (Policy_Conditions d).

Lemma operator_word v : v ∈ operators →
  ∃ ty, lexesWord v [(ty, v)] ∧ ∀ t rest ls file, kindOf t = (ty, v) →
    parsePolicyOperator (mkParser (t :: rest) ls file) = Some (inr v, mkParser rest ls file).
Proof.
  unfold operators. rewrite !elem_of_cons, elem_of_nil. intros [->|[->|[->|[->|[]]]]].
  - exists TokenDoubleEquals. split; [apply word_symbol; unfold symbols; set_solver|]. intros t rest ls file Hk. unfold parsePolicyOperator. run_step.
    rewrite (kindOf_type _ _ _ Hk). by run_step.
  - exists TokenNotEquals. split; [apply word_symbol; unfold symbols; set_solver|]. intros t rest ls file Hk. unfold parsePolicyOperator. run_step.
    rewrite (kindOf_type _ _ _ Hk). by run_step.
  - exists TokenIdent. split; [by apply word_keyword|]. intros t rest ls file Hk. unfold parsePolicyOperator. run_step.
    rewrite (kindOf_type _ _ _ Hk), (kindOf_value _ _ _ Hk). rewrite switch_here by reflexivity. by run_step.
  - exists TokenIdent. split; [by apply word_keyword|]. intros t rest ls file Hk. unfold parsePolicyOperator. run_step.
    rewrite (kindOf_type _ _ _ Hk), (kindOf_value _ _ _ Hk). rewrite switch_other, switch_here by reflexivity. by run_step.
Qed.

Lemma condition_line c X : condition_fmt c →
  chunk (nextField parsePolicyField)
    (Fprintln indentUnit [runes "when"; PolicyCondition_Field c; PolicyCondition_Operator c; PolicyCondition_Value c])
    (λ s, stripPolicy s = X) (λ s, stripPolicy s = addTo Policy_Conditions (stripCondition c) X).
Proof.
  destruct c as [field op v line]; intros (H1 & H2 & H3); simpl in *. destruct (operator_word op H2) as (ty & Hw & Hop).
  eapply chunk_field with (kss := [[(TokenIdent, field)]; [(ty, op)]; [(TokenIdent, v)]]); [auto with format|by apply keyword_identifier|format_words|].
  intros d ts nl rest ls file <- Ek Hnl. simpl in Ek. split_tokens.
  exists (addTo Policy_Conditions (mkPolicyConditionDecl field op v (TokenLine t)) d). split.
  - destruct d; unfold stripPolicy, addTo; simpl. by rewrite fmap_app.
  - change (parsePolicyField d (runes "when")) with (v ← parsePolicyCondition; mret (addTo Policy_Conditions v d)).
    erewrite bind_run; [reflexivity|]. unfold parsePolicyCondition. do 2 run_step. erewrite bind_run by (by apply Hop). cbv beta. by run_step.
Qed.

Lemma conditions_chunk xs X : Policy_Conditions X = [] → Forall condition_fmt xs →
  chunk (nextField parsePolicyField)
    (xs ≫= λ c, Fprintln indentUnit [runes "when"; PolicyCondition_Field c; PolicyCondition_Operator c; PolicyCondition_Value c])
    (λ s, stripPolicy s = X) (λ s, stripPolicy s = X <| Policy_Conditions := stripCondition <$> xs |>).
Proof.
  intros HX Hxs. rewrite Forall_forall in Hxs. eapply chunk_weaken;
    [apply (chunk_list _ xs _ (λ done s, stripPolicy s = X <| Policy_Conditions := stripCondition <$> done |>))| |done].
  - intros done x Hx. eapply chunk_weaken; [apply condition_line; by apply Hxs|intros s Hs; exact Hs|]. intros s Hs. cbv beta in *. rewrite Hs. unfold addTo. simpl. by rewrite fmap_app.
  - intros s Hs. cbv beta in *. rewrite Hs. destruct X; simpl in *; by subst.
Qed.

Lemma policy_declared d Y : policy_fmt d →
  declared (formatPolicyDecl d) (λ s, stripFile s = Y) (λ s, stripFile s = addTo File_Policies (stripPolicy d) Y).
Proof.
  intros (H1 & H2 & H3).
  apply (declared_block (addTo File_Policies) stripPolicy parsePolicyDeclaration parsePolicyField "policy"
    [Policy_Name d] [[(TokenIdent, Policy_Name d)]] _ (PolicyDecl_zero <| Policy_Name := Policy_Name d |>));
    [reflexivity|intros ? []; unfold stripFile, addTo; simpl; by rewrite fmap_app|reflexivity|format_words| |].
  - unfold unlessEmpty. rewrite bool_decide_false by (by apply identifier_nonempty). eapply closes_app; [value_line stripPolicy|].
    eapply closes_app; [by apply conditions_chunk|]. eapply closes_weaken; [apply closes_end|]. intros s ->. by destruct d.
  - declaration_run parsePolicyDeclaration. assert (E1 : Policy_Capability s = Policy_Capability d) by (apply (f_equal Policy_Capability) in Hs; exact Hs).
    by rewrite E1, bool_decide_false by (by apply identifier_nonempty).
Qed.

(** ** Networks *)

Definition rule_fmt (r : NetworkRuleDecl) : Prop :=
  (NetworkRule_Action r = runes "allow" ∨ NetworkRule_Action r = runes "deny") ∧ path_name (NetworkRule_Source r) ∧ path_name (NetworkRule_Target r) ∧
  natural (NetworkRule_Port r).

Definition network_fmt (d : NetworkDecl) : Prop := Forall rule_fmt (Network_Rules d).

Lemma nextNetworkRule_ends : ends_at_brace nextNetworkRule.
Proof. intros d rb rest ls file Hrb. unfold nextNetworkRule. run_step. by rewrite bool_decide_true by (rewrite Hrb; apply list_elem_of_here). Qed.

(** The port after a rule, and the end of the line. *)
Definition portKinds (port : Z) : list kind := if negb (port =? 0) then [(TokenIdent, runes "port"); (TokenNumber, decimal port)] else [].

Lemma parseNetworkPort_run port ts nl rest ls file : natural port → kindOf <$> ts = portKinds port → isNewline nl →
  parseNetworkPort (mkParser (ts ++ nl :: rest) ls file) = Some (inr port, mkParser (nl :: rest) ls file).
Proof.
  intros Hp Ek Hnl. unfold portKinds in Ek. unfold parseNetworkPort. destruct (Z.eqb_spec port 0) as [->|Hne]; simpl in Ek; split_tokens.
  - run_step. by rewrite (bool_decide_false (TokenTyp nl = _)) by (by apply newline_type).
  - run_step. rewrite (kindOf_type _ _ _ Hk), (kindOf_value _ _ _ Hk). change (_ && _) with true. cbv iota. do 2 run_step.
    rewrite (kindOf_type _ _ _ Hk0), (kindOf_value _ _ _ Hk0), AtoiText_decimal; [|apply Hp|split; [unfold int64_min; destruct Hp; lia|apply Hp]].
    rewrite bool_decide_true by done. by run_step.
Qed.

Definition ruleKinds (action source : text) (sources : list text) (target : text) (targets : list text) (port : Z) : list kind :=
  (TokenIdent, action) :: pathKinds source sources ++ (TokenArrow, [minus; greater]) :: pathKinds target targets ++ portKinds port.

Lemma orElseError_run {A} (m : parse A) format p a p' : m p = Some (inr a, p') → orElseError m format p = Some (inr a, p').
Proof. unfold orElseError. by intros ->. Qed.

Lemma parseNetworkRule_run action source sources target targets port t ts nl rest ls file :
  (action = runes "allow" ∨ action = runes "deny") → natural port →
  kindOf <$> t :: ts = ruleKinds action source sources target targets port → kindOf nl = newlineKind →
  parseNetworkRule (mkParser (t :: ts ++ nl :: rest) ls file)
  = Some (inr (mkNetworkRuleDecl action (source ++ slashed sources) (target ++ slashed targets) port (TokenLine t)), mkParser (nl :: rest) ls file).
Proof.
  intros Ha Hp Ek Hnl. simpl in Ek. injection Ek as Et Ev Ek. change (kindOf <$> ts = pathKinds source sources ++ (TokenArrow, [minus; greater]) ::
    pathKinds target targets ++ portKinds port) in Ek.
  apply fmap_app_inv in Ek as (ts1 & ts2 & E1 & E2 & ->). symmetry in E1, E2. apply fmap_cons_inv in E2 as (ta & ts3 & Ka & E3 & ->). symmetry in Ka, E3.
  apply fmap_app_inv in E3 as (ts4 & ts5 & E4 & E5 & ->). symmetry in E4, E5. unfold parseNetworkRule. run_step. rewrite Et, Ev.
  replace (bool_decide (TokenIdent = TokenIdent) && (isWord action "allow" || isWord action "deny")) with true by (by destruct Ha as [->| ->]). cbv iota.
  run_step. rewrite <-app_assoc, <-app_comm_cons.
  erewrite bind_run by (apply orElseError_run, parseServicePath_run; [exact E1|by erewrite kindOf_value by eassumption]). cbv beta.
  run_step. rewrite bool_decide_true by (by eapply kindOf_type). run_step. rewrite <-app_assoc.
  destruct (ts5 ++ nl :: rest) as [|u rest2] eqn:Eu; [by destruct ts5|].
  assert (Hu : TokenValue u ≠ [slash]).
  { unfold portKinds in E5. destruct (negb (port =? 0)); split_tokens; simpl in Eu; injection Eu as <- _; by erewrite kindOf_value by eassumption. }
  erewrite bind_run by (apply orElseError_run, parseServicePath_run; [exact E4|exact Hu]). cbv beta. rewrite <-Eu.
  erewrite bind_run by (apply parseNetworkPort_run; [exact Hp|exact E5|by eapply kindOf_type]). reflexivity.
Qed.

Lemma word_arrow : lexesWord (runes "->") [(TokenArrow, [minus; greater])].
Proof. apply word_symbol. unfold symbols. set_solver. Qed.

Lemma rule_lexes r action source sources target targets port :
  r = mkNetworkRuleDecl action (source ++ slashed sources) (target ++ slashed targets) port (NetworkRule_Line r) →
  rule_fmt r → hierarchical (source ++ slashed sources) source sources → hierarchical (target ++ slashed targets) target targets →
  lexes (formatNetworkRule r) (ruleKinds action source sources target targets port ++ [newlineKind]).
Proof.
  intros -> (Ha & _ & _ & Hp) Hs Ht. unfold formatNetworkRule. cbn [NetworkRule_Action NetworkRule_Source NetworkRule_Target NetworkRule_Port] in *.
  pose proof (word_hierarchical _ _ _ Hs) as Ws. pose proof (word_hierarchical _ _ _ Ht) as Wt.
  assert (Wa : lexesWord action [(TokenIdent, action)]) by (apply word_keyword; by destruct Ha as [->| ->]).
  set (kss := [[(TokenIdent, action)]; pathKinds source sources; [(TokenArrow, [minus; greater])]; pathKinds target targets]).
  assert (Hkss : Forall2 lexesWord [action; source ++ slashed sources; runes "->"; target ++ slashed targets] kss).
  { repeat (constructor; [first [assumption|apply word_arrow]|]). constructor. }
  assert (E : ruleKinds action source sources target targets port = concat kss ++ portKinds port).
  { unfold ruleKinds, kss. cbn [concat]. by rewrite app_nil_r, <-!app_assoc. }
  rewrite E. unfold portKinds. destruct (negb (port =? 0)).
  - replace (concat kss ++ _) with (concat (kss ++ [[(TokenIdent, runes "port")]; [(TokenNumber, decimal port)]])) by (by rewrite concat_app).
    apply (lexes_line indentUnit [action; _; _; _; _; _]); [auto with format|]. refine (Forall2_app Hkss _).
    constructor; [by apply word_keyword|]. constructor; [by apply word_natural|constructor].
  - rewrite app_nil_r. by apply lexes_line; [auto with format|].
Qed.

Lemma rule_chunk r X : rule_fmt r →
  chunk nextNetworkRule (formatNetworkRule r) (λ s, stripNetwork s = X) (λ s, stripNetwork s = addTo Network_Rules (stripRule r) X).
Proof.
  intros Hr. pose proof Hr as (Ha & (source & sources & Hs) & (target & targets & Ht) & Hp). destruct r as [action src tgt port line]; simpl in *.
  pose proof Hs as (-> & _). pose proof Ht as (-> & _).
  exists (ruleKinds action source sources target targets port ++ [newlineKind]). split_and!; [by apply rule_lexes|done|].
  intros d ts nls rest ls file <- Ek Hn _ Hr'. apply fmap_app_inv in Ek as (ts1 & ts2 & E1 & E2 & ->). symmetry in E1, E2.
  destruct ts2 as [|nl [|]]; try done. injection E2 as Hnl1 Hnl2. destruct ts1 as [|t ts]; [done|].
  eexists (addTo Network_Rules (mkNetworkRuleDecl action _ _ port (TokenLine t)) d). split.
  - destruct d; unfold stripNetwork, addTo; simpl. by rewrite fmap_app.
  - eapply runs_cons; [| |apply runs_nil]; [|simpl; rewrite !length_app; simpl; lia]. rewrite <-app_assoc. simpl. unfold nextNetworkRule. run_step.
    pose proof E1 as Et. simpl in Et. injection Et as Et _. rewrite bool_decide_false by (rewrite Et, !elem_of_cons, elem_of_nil; naive_solver).
    erewrite bind_run; [|erewrite bind_run; [reflexivity|apply (parseNetworkRule_run action source sources target targets port t ts nl); [done|done|done|]]].
    + cbv beta. by erewrite bind_run by (apply (skipNewlineTokens_run (nl :: nls)); [by constructor|done]).
    + unfold kindOf. by rewrite Hnl1, Hnl2.
Qed.

Lemma network_declared d Y : network_fmt d →
  declared (formatNetworkDecl d) (λ s, stripFile s = Y) (λ s, stripFile s = addTo File_Networks (stripNetwork d) Y).
Proof.
  intros Hd. unfold network_fmt in Hd. rewrite Forall_forall in Hd. unfold formatNetworkDecl.
  apply (declared_braces nextNetworkRule (runes "network") [] [] _ (λ s, stripNetwork s = NetworkDecl_zero) (λ s, stripNetwork s = stripNetwork d));
    [apply nextNetworkRule_ends|done|constructor| |].
  - eapply chunk_weaken; [apply (chunk_list _ _ _ (λ done s, stripNetwork s = NetworkDecl_zero <| Network_Rules := stripRule <$> done |>))|done|].
    + intros done x Hx. eapply chunk_weaken; [by apply rule_chunk, Hd|intros s Hs; exact Hs|]. intros s Hs. cbv beta in *. rewrite Hs. unfold addTo. simpl. by rewrite fmap_app.
    + intros s Hs. cbv beta in *. rewrite Hs. by destruct d.
  - intros f t ts lb rest nl rest' ls file <- Hk Ek Hlb _ Hb. simpl in Ek. split_tokens.
    destruct (Hb (NetworkDecl_zero <| Network_Line := TokenLine t |>)) as (s' & Hs' & Hrun); [reflexivity|]. exists (addTo File_Networks s' f).
    split; [rewrite <-Hs'; destruct f; unfold stripFile, addTo; simpl; by rewrite fmap_app|].
    change (parseDeclaration f (runes "network")) with (v ← parseNetworkDeclaration; mret (addTo File_Networks v f)).
    erewrite bind_run; [reflexivity|]. unfold parseNetworkDeclaration. do 2 run_step. exact Hrun.
Qed.
End gates.

(** * Reading formatted declarations back: gates and services *)

Section routes.
Context `{Unicode}.

(** ** Sticky sessions *)

Definition cookie_fmt (c : RouteCookieSettings) : Prop := quotable (RouteCookieSettings_Name c) ∧ quotable (RouteCookieSettings_SameSite c).

Definition sticky_fmt (d : RouteStickyDecl) : Prop :=
  RouteSticky_Method d = runes "source-ip" ∧ RouteSticky_Cookie d = None ∨
  RouteSticky_Method d = runes "cookie" ∧ whenever cookie_fmt (RouteSticky_Cookie d).

(** A field that holds what a function parses from one word. *)
Lemma sticky_word v X : v = runes "source-ip" ∨ v = runes "cookie" →
  chunk (nextField parseRouteField) (Fprintln indentUnit [runes "sticky"; v]) (λ s, stripRoute s = X)
    (λ s, stripRoute s = X <| Route_Sticky := Some (mkRouteStickyDecl v None) |>).
Proof.
  intros Hv. assert (Hkey : isKeyword v = true) by (by destruct Hv as [->| ->]).
  apply (chunk_words stripRoute _ (Some <$> parseRouteStickyDeclaration) (λ s x, s <| Route_Sticky := x |>) (Some (mkRouteStickyDecl v None)) _ _ [v] [[(TokenIdent, v)]]);
    [reflexivity|reflexivity|auto with format|reflexivity|constructor; [by apply word_keyword|constructor]|].
  intros ts nl rest ls file Ek Hnl. simpl in Ek. split_tokens. apply fmap_run. unfold parseRouteStickyDeclaration. run_step.
  destruct Hv as [->| ->]; [done|]. cbv zeta. rewrite switch_here by reflexivity. run_step.
  by rewrite bool_decide_false by (by apply newline_type).
Qed.

Lemma cookie_chunk c X : cookie_fmt c →
  chunk (nextField parseRouteField) (formatRouteStickyDecl (mkRouteStickyDecl (runes "cookie") (Some c))) (λ s, stripRoute s = X)
    (λ s, stripRoute s = X <| Route_Sticky := Some (mkRouteStickyDecl (runes "cookie") (Some c)) |>).
Proof.
  intros (H1 & H2).
  assert (Hl : closes parseRouteCookieField indentUnit
    (unlessEmpty (RouteCookieSettings_Name c) (Fprintln indent2 [runes "name"; quoteIfNeeded (RouteCookieSettings_Name c)]) ++
     whenTrue (RouteCookieSettings_Secure c) (Fprintln indent2 [runes "secure"; runes "true"]) ++
     whenTrue (RouteCookieSettings_HTTPOnly c) (Fprintln indent2 [runes "http-only"; runes "true"]) ++
     unlessEmpty (RouteCookieSettings_SameSite c) (Fprintln indent2 [runes "same-site"; quoteIfNeeded (RouteCookieSettings_SameSite c)]) ++
     Fprintln indentUnit [runes "}"]) (λ e, e = RouteCookieSettings_zero) (λ e, e = c)) by block_lines (λ s : RouteCookieSettings, s).
  unfold formatRouteStickyDecl. simpl. destruct Hl as (lines & -> & Hl).
  eapply (chunk_block _ _ indentUnit indentUnit (runes "sticky") [runes "cookie"] [[(TokenIdent, runes "cookie")]]);
    [auto with format|auto with format|by apply keyword_identifier|format_words|exact Hl|].
  intros d e ts lb rest nl rest' ls file <- -> Ek Hlb Hnl Hb. simpl in Ek. split_tokens.
  exists (d <| Route_Sticky := Some (mkRouteStickyDecl (runes "cookie") (Some c)) |>). split; [done|].
  change (parseRouteField d (runes "sticky")) with (v ← Some <$> parseRouteStickyDeclaration; mret (d <| Route_Sticky := v |>)).
  erewrite bind_run; [reflexivity|]. apply fmap_run. unfold parseRouteStickyDeclaration. run_step. cbv zeta. rewrite switch_here by reflexivity. run_step.
  rewrite bool_decide_true by done. by erewrite bind_run by (apply fmap_run; exact Hb).
Qed.

Lemma sticky_chunk d X : sticky_fmt d →
  chunk (nextField parseRouteField) (formatRouteStickyDecl d) (λ s, stripRoute s = X) (λ s, stripRoute s = X <| Route_Sticky := Some d |>).
Proof.
  destruct d as [method [c|]]; intros [[Hm Hc]|[Hm Hc]]; simpl in *; subst; try done.
  - by apply cookie_chunk, Hc.
  - apply (sticky_word (runes "source-ip")). by left.
  - apply (sticky_word (runes "cookie")). by right.
Qed.

(** ** Certificates *)

(** The contents of the files are not part of the text. *)
Definition tls_fmt (d : RouteTLSDecl) : Prop :=
  (RouteTLS_Mode d = RouteTLSModeAuto ∧ RouteTLS_CertFile d = [] ∧ RouteTLS_KeyFile d = [] ∨
   RouteTLS_Mode d = RouteTLSModeManual ∧ RouteTLS_CertFile d ≠ [] ∧ RouteTLS_KeyFile d ≠ [] ∧ quotable (RouteTLS_CertFile d) ∧ quotable (RouteTLS_KeyFile d)) ∧
  RouteTLS_CertPEM d = [] ∧ RouteTLS_KeyPEM d = [].

Lemma tls_auto_chunk X :
  chunk (nextField parseRouteField) (Fprintln indentUnit [runes "tls"; runes "auto"]) (λ s, stripRoute s = X)
    (λ s, stripRoute s = X <| Route_TLS := Some (mkRouteTLSDecl RouteTLSModeAuto [] [] [] []) |>).
Proof.
  apply (chunk_words stripRoute _ (Some <$> parseRouteTLSDeclaration) (λ s x, s <| Route_TLS := x |>) (Some (mkRouteTLSDecl RouteTLSModeAuto [] [] [] [])) _ _
    [runes "auto"] [[(TokenIdent, runes "auto")]]);
    [reflexivity|reflexivity|auto with format|reflexivity|constructor; [by apply word_keyword|constructor]|].
  intros ts nl rest ls file Ek Hnl. simpl in Ek. split_tokens. apply fmap_run. unfold parseRouteTLSDeclaration. run_step.
  rewrite (kindOf_type _ _ _ Hk), (kindOf_value _ _ _ Hk). change (_ && _) with true. cbv iota. by run_step.
Qed.

Lemma tls_manual_chunk cert key X : cert ≠ [] → key ≠ [] → quotable cert → quotable key →
  chunk (nextField parseRouteField) (formatRouteTLSDecl (mkRouteTLSDecl RouteTLSModeManual cert key [] [])) (λ s, stripRoute s = X)
    (λ s, stripRoute s = X <| Route_TLS := Some (mkRouteTLSDecl RouteTLSModeManual cert key [] []) |>).
Proof.
  intros H1 H2 H3 H4. unfold formatRouteTLSDecl, unlessEmpty. cbn [RouteTLS_Mode RouteTLS_CertFile RouteTLS_KeyFile].
  rewrite (bool_decide_false (cert = [])), (bool_decide_false (key = [])) by done.
  change (bool_decide (RouteTLSModeManual = RouteTLSModeAuto)) with false. cbn [andb whenTrue app]. cbv iota.
  assert (Hl : closes parseRouteTLSField indentUnit
    (Fprintln indent2 [runes "cert"; quoteIfNeeded cert] ++ Fprintln indent2 [runes "key"; quoteIfNeeded key] ++ Fprintln indentUnit [runes "}"])
    (λ e, e = RouteTLSDecl_zero) (λ e, e = mkRouteTLSDecl [] cert key [] [])).
  { do 2 block_line (λ s : RouteTLSDecl, s). eapply closes_weaken; [apply closes_end|]. by intros s ->. }
  destruct Hl as (lines & -> & Hl).
  eapply (chunk_block _ _ indentUnit indentUnit (runes "tls") [] []);
    [auto with format|auto with format|by apply keyword_identifier|constructor|exact Hl|].
  intros d e ts lb rest nl rest' ls file <- -> Ek Hlb Hnl Hb. simpl in Ek. split_tokens.
  exists (d <| Route_TLS := Some (mkRouteTLSDecl RouteTLSModeManual cert key [] []) |>). split; [done|].
  change (parseRouteField d (runes "tls")) with (v ← Some <$> parseRouteTLSDeclaration; mret (d <| Route_TLS := v |>)).
  erewrite bind_run; [reflexivity|]. apply fmap_run. unfold parseRouteTLSDeclaration. run_step.
  rewrite (bool_decide_false (TokenTyp lb = _)) by (by rewrite Hlb). cbn [andb]. cbv iota. erewrite bind_run by exact Hb. cbv beta.
  unfold checkRouteTLS. cbn [RouteTLS_Mode RouteTLS_CertFile RouteTLS_KeyFile]. by rewrite (bool_decide_false (cert = [])), (bool_decide_false (key = [])).
Qed.

Lemma tls_chunk d X : tls_fmt d →
  chunk (nextField parseRouteField) (formatRouteTLSDecl d) (λ s, stripRoute s = X) (λ s, stripRoute s = X <| Route_TLS := Some d |>).
Proof.
  destruct d as [mode cert key ? ?]; intros [[(H1 & H2 & H3)|(H1 & H2 & H3 & H4 & H5)] [H6 H7]]; simpl in *; subst; [apply tls_auto_chunk|by apply tls_manual_chunk].
Qed.

(** ** Gates *)

Record route_fmt (d : RouteDecl) : Prop := {
  route_name : identifier (Route_Name d);
  route_host : quotable (Route_Host d);
  route_path : quotable (Route_Path d);
  route_service : identifier (Route_ServiceName d);
  route_port : natural (Route_ServicePort d);
  route_sticky : whenever sticky_fmt (Route_Sticky d);
  route_tls : whenever tls_fmt (Route_TLS d);
  route_tls_host : Route_TLS d = None ∨ Route_Host d ≠ []
}.

Lemma target_chunk name port X : identifier name → natural port → Route_ServicePort X = 0 →
  chunk (nextField parseRouteField)
    (if negb (port =? 0) then Fprintln indentUnit [runes "service"; name; runes "port"; decimal port] else Fprintln indentUnit [runes "service"; name])
    (λ s, stripRoute s = X) (λ s, stripRoute s = X <| Route_ServiceName := name |> <| Route_ServicePort := port |>).
Proof.
  intros Hn Hp HX. destruct (Z.eqb_spec port 0) as [->|Hne]; simpl.
  - eapply chunk_field; [auto with format|by apply keyword_identifier|constructor; [by apply word_identifier|constructor]|].
    intros d ts nl rest ls file Hd Ek Hnl. simpl in Ek. split_tokens. exists (d <| Route_ServiceName := name |>).
    split; [rewrite <-Hd in *; destruct d; simpl in *; by subst|]. change (parseRouteField d (runes "service")) with (parseRouteService d).
    unfold parseRouteService. do 2 run_step. by rewrite (bool_decide_false (TokenTyp nl = _)) by (by apply newline_type).
  - eapply chunk_field with (kss := [[(TokenIdent, name)]; [(TokenIdent, runes "port")]; [(TokenNumber, decimal port)]]);
      [auto with format|by apply keyword_identifier|format_words|].
    intros d ts nl rest ls file Hd Ek Hnl. simpl in Ek. split_tokens. exists (d <| Route_ServiceName := name |> <| Route_ServicePort := port |>).
    split; [by rewrite <-Hd|]. change (parseRouteField d (runes "service")) with (parseRouteService d). unfold parseRouteService. do 2 run_step.
    rewrite (kindOf_type _ _ _ Hk0), (kindOf_value _ _ _ Hk0). change (_ && _) with true. cbv iota. by do 2 run_step.
Qed.

Lemma route_declared d Y : route_fmt d →
  declared (formatRouteDecl d) (λ s, stripFile s = Y) (λ s, stripFile s = addTo File_Routes (stripRoute d) Y).
Proof.
  intros [H1 H2 H3 H4 H5 H6 H7 H8].
  apply (declared_block (addTo File_Routes) stripRoute parseRouteDeclaration parseRouteField "gate"
    [Route_Name d] [[(TokenIdent, Route_Name d)]] _ (RouteDecl_zero <| Route_Name := Route_Name d |>));
    [reflexivity|intros ? []; unfold stripFile, addTo; simpl; by rewrite fmap_app|reflexivity|format_words| |].
  - do 2 block_line stripRoute. eapply closes_app; [by apply target_chunk|].
    option_lines stripRoute Route_Sticky. { by apply sticky_chunk, H6. }
    option_lines stripRoute Route_TLS. { by apply tls_chunk, H7. }
    last_line d.
  - declaration_run parseRouteDeclaration.
    assert (E1 : Route_ServiceName s = Route_ServiceName d) by (apply (f_equal Route_ServiceName) in Hs; exact Hs).
    assert (E2 : Route_Host s = Route_Host d) by (apply (f_equal Route_Host) in Hs; exact Hs).
    assert (E3 : Route_TLS s = Route_TLS d) by (apply (f_equal Route_TLS) in Hs; exact Hs).
    rewrite E1, E2, E3, bool_decide_false by (by apply identifier_nonempty). destruct H8 as [->|Hh]; [done|].
    by rewrite (bool_decide_false (Route_Host d = [])), andb_false_r.
Qed.

(** ** Services *)

Lemma service_declared d Y : path_name (Service_Name d) → service_fmt d →
  declared (formatServiceDecl d) (λ s, stripFile s = Y) (λ s, stripFile s = addTo File_Services (stripService d) Y).
Proof.
  intros (first & segments & Hh) Hd. pose proof (word_hierarchical _ _ _ Hh) as Hw. destruct Hh as (Hn & _).
  apply (declared_block (addTo File_Services) stripService parseServiceDeclaration parseServiceField "service"
    [Service_Name d] [pathKinds first segments] _ (ServiceDecl_zero <| Service_Name := Service_Name d |>));
    [reflexivity|intros ? []; unfold stripFile, addTo; simpl; by rewrite fmap_app|reflexivity|constructor; [exact Hw|constructor]|by apply service_lines|].
  unfold reads_block. intros t ts lb rest ls file Hk Ek Hlb. cbn [concat] in Ek. rewrite app_nil_r in Ek. eexists. split; cycle 1.
  - intros p' s' Hb Hs. unfold parseServiceDeclaration. do 2 run_step.
    erewrite bind_run; [|apply (expectHierarchicalName_run first segments); [exact Ek|]].
    + cbv beta. rewrite <-Hn. exact Hb.
    + by rewrite Hlb.
  - reflexivity.
Qed.
End routes.
