(* ===== verification/FormatterProps.v ===== *)
(** * Formatted files are read back, and files that formatting changes *)

From S2P Require Import Prelude GoFmt Ast Lexer LexerProps ParserCore Parser ParserProps Formatter FormatterChunks FormatterBlocks FormatterServices.
From S2P Require Import FormatterDeclarations.

Local Open Scope Z_scope.

(** * Formatted files are read back *)

Section formatted.
Context `{Unicode}.

(** What a file has to satisfy for its text to be read back: names are written
    without quotes, so they are identifiers, and quoted values have no quote, no
    backslash and only printable characters. *)
Record formattable (f : File) : Prop := {
  file_connections : Forall connection_fmt (File_Connections f);
  file_volumes : Forall volume_fmt (File_Volumes f);
  file_tenants : Forall tenant_fmt (File_Tenants f);
  file_broker : whenever broker_fmt (File_CredentialBroker f);
  file_identities : Forall cloud_identity_fmt (File_CloudIdentities f);
  file_cloud : whenever cloud_fmt (File_Cloud f);
  file_roles : Forall role_fmt (File_Roles f);
  file_groups : Forall group_fmt (File_Groups f);
  file_grants : Forall grant_fmt (File_Grants f);
  file_policies : Forall policy_fmt (File_Policies f);
  file_networks : Forall network_fmt (File_Networks f);
  file_service_groups : Forall service_group_fmt (File_ServiceGroups f);
  file_services : Forall (λ d, path_name (Service_Name d) ∧ service_fmt d) (File_Services f);
  file_jobs : Forall job_fmt (File_Jobs f);
  file_cronjobs : Forall cronjob_fmt (File_CronJobs f);
  file_routes : Forall route_fmt (File_Routes f)
}.

(** One declaration per element, for elements that satisfy [P]. *)
Lemma declares_all {A} (f : File → list A) `{!Update f} (strip : A → A) (P : A → Prop) (xs : list A) (v : A → text) F :
  (∀ d, update f (f d) d = d) → (∀ u d, f (update f u d) = u) → (∀ u u' d, update f u' (update f u d) = update f u' d) → f F = [] →
  Forall P xs → (∀ x Y, P x → declared (v x) (λ s, stripFile s = Y) (λ s, stripFile s = addTo f (strip x) Y)) →
  declares (v <$> xs) (λ s, stripFile s = F) (λ s, stripFile s = update f (strip <$> xs) F).
Proof. intros L1 L2 L3 HF Hxs Hx. apply declares_list; [done..|]. intros Y x Hin. rewrite Forall_forall in Hxs. by apply Hx, Hxs. Qed.

Ltac all f lem := eapply (declares_all f); [intros []; reflexivity|reflexivity|reflexivity|reflexivity|eassumption|intros; by apply lem].

Lemma formatDeclarations_declares f : formattable f →
  declares (formatDeclarations f) (λ s, stripFile s = File_zero) (λ s, stripFile s = stripFile f).
Proof.
  intros []. unfold formatDeclarations.
  eapply declares_app; [all File_Connections connection_declared|].
  eapply declares_app; [all File_Volumes volume_declared|].
  eapply declares_app; [all File_Tenants tenant_declared|].
  eapply declares_app; [eapply (declares_option File_CredentialBroker stripBroker); [intros []; reflexivity|reflexivity|intros; by apply broker_declared, file_broker0]|].
  eapply declares_app; [all File_CloudIdentities cloud_identity_declared|].
  eapply declares_app; [eapply (declares_option File_Cloud stripCloud); [intros []; reflexivity|reflexivity|intros; by apply cloud_declared, file_cloud0]|].
  eapply declares_app; [all File_Roles role_declared|].
  eapply declares_app; [all File_Groups group_declared|].
  eapply declares_app; [all File_Grants grant_declared|].
  eapply declares_app; [all File_Policies policy_declared|].
  eapply declares_app; [all File_Networks network_declared|].
  eapply declares_app; [all File_ServiceGroups service_group_declared|].
  eapply declares_app; [eapply (declares_all File_Services);
    [intros []; reflexivity|reflexivity|reflexivity|reflexivity|eassumption|intros ? ? []; by apply service_declared]|].
  eapply declares_app; [all File_Jobs job_declared|].
  eapply declares_app; [all File_CronJobs cronjob_declared|].
  rewrite <-(app_nil_r (_ <$> File_Routes f)). eapply declares_app; [all File_Routes route_declared|]. by intros s ->.
Qed.

(** A file whose text is a chunk is parsed. *)
Lemma Parse_chunk v (Q : File → Prop) : chunk nextDeclaration v (λ s, stripFile s = File_zero) Q → ∃ f, Parse v = Some (inr f) ∧ Q f.
Proof.
  intros (ks & L & F & Hc). destruct (Tokenize_lexes v ks L) as (ts & eof & E & Hk & Heof). unfold Parse. rewrite E. simpl.
  destruct (Hc File_zero ts [] [eof] (splitSourceLines v) []) as (f & HQ & Hruns); [done|done|constructor|done|simpl; unfold isNewline; by erewrite kindOf_type by eassumption|].
  exists f. split; [|done]. unfold ParseFile.
  assert (Hcont : continues (ts ++ [eof])).
  { destruct ts as [|t ts]; [simpl; unfold isNewline; by erewrite kindOf_type by eassumption|]. destruct ks as [|k ks]; [done|]. simpl in *.
    injection Hk as <- _. exact F. }
  rewrite (bind_run _ _ _ _ _ (skipNewlineTokens_run [] (ts ++ [eof]) _ _ ltac:(constructor) Hcont)).
  cbn [app] in *. rewrite (loop_runs nextDeclaration File_zero _ f (mkParser [eof] (splitSourceLines v) []) f (mkParser [eof] (splitSourceLines v) []) Hruns); [done|].
  unfold nextDeclaration. rewrite (bind_run _ _ _ _ _ (isAtEnd_run eof [] _ _)). by rewrite bool_decide_true by (by eapply kindOf_type).
Qed.

(** What is written does not depend on the source lines. *)
Lemma bind_fmap_list {A B} (f : A → A) (g : A → list B) (l : list A) : (∀ x, g (f x) = g x) → (f <$> l) ≫= g = l ≫= g.
Proof. intros Hg. induction l as [|x l IH]; [done|]. rewrite fmap_cons, !bind_cons. by rewrite Hg, IH. Qed.

Lemma fmap_strip {A B} (strip : A → A) (format : A → B) (l : list A) : (∀ x, format (strip x) = format x) → format <$> (strip <$> l) = format <$> l.
Proof. intros Hs. rewrite <-list_fmap_compose. apply list_fmap_ext. intros. apply Hs. Qed.

Lemma fmap_strip_option {A B} (strip : A → A) (format : A → B) (x : option A) :
  (∀ x, format (strip x) = format x) → format <$> option_list (strip <$> x) = format <$> option_list x.
Proof. intros Hs. destruct x as [a|]; simpl; [|done]. by rewrite Hs. Qed.

Lemma formatDeclarations_strip f : formatDeclarations (stripFile f) = formatDeclarations f.
Proof.
  unfold formatDeclarations, stripFile.
  cbn [File_Services File_Jobs File_CronJobs File_Volumes File_Connections File_Tenants File_CloudIdentities File_CredentialBroker File_Cloud
    File_Roles File_Grants File_Groups File_ServiceGroups File_Policies File_Networks File_Routes].
  rewrite !fmap_strip, !fmap_strip_option; [done|try reflexivity..].
  - intros d. unfold formatNetworkDecl, stripNetwork. simpl. by rewrite bind_fmap_list.
  - intros d. unfold formatPolicyDecl, stripPolicy. simpl. by rewrite bind_fmap_list.
Qed.

Lemma Format_strip f f' : stripFile f' = stripFile f → Format f' = Format f.
Proof. intros E. unfold Format. by rewrite <-(formatDeclarations_strip f'), E, formatDeclarations_strip. Qed.

Lemma Format_chunk f : formattable f → chunk nextDeclaration (Format f) (λ s, stripFile s = File_zero) (λ s, stripFile s = stripFile f).
Proof.
  intros Hf. pose proof (formatDeclarations_declares f Hf) as Hd. unfold Format. cbv zeta.
  destruct (formatDeclarations f) as [|v vs] eqn:E; [by apply chunk_nil; simpl in Hd|]. rewrite <-E in *.
  destruct (negb _ && _); [|by apply writeDeclarations_chunk]. apply chunk_blank, writeDeclarations_declared; [by rewrite E|done].
Qed.

End formatted.

(** * A formatted file, and files that formatting changes *)

#[local] Existing Instance ascii_only.

(** ** A file that is read back *)

Definition exampleService : ServiceDecl :=
  ServiceDecl_zero
    <| Service_Name := runes "payments/web" |> <| Service_Image := runes "registry/web@1" |> <| Service_Instances := 3 |>
    <| Service_Ports := [8080] |> <| Service_ExternalPorts := [mkExternalPortDecl 443 (runes "http")] |>
    <| Service_Disruption := Some (mkDisruptionDecl 2 0) |>
    <| Service_Secrets := [mkSecretDecl (runes "db") (runes "/run/secrets/db")] |>
    <| Service_Tags := [mkTagDecl (runes "team") (runes "card payments")] |>.

Definition exampleNetwork : NetworkDecl :=
  NetworkDecl_zero <| Network_Rules := [mkNetworkRuleDecl (runes "allow") (runes "payments/web") (runes "ledger") 5432 0] |>.

Definition exampleRoute : RouteDecl :=
  RouteDecl_zero <| Route_Name := runes "public" |> <| Route_Host := runes "pay.example.com" |> <| Route_ServiceName := runes "web" |>
    <| Route_ServicePort := 8080 |> <| Route_TLS := Some (mkRouteTLSDecl RouteTLSModeAuto [] [] [] []) |>.

Definition exampleFile : File :=
  File_zero <| File_Services := [exampleService] |> <| File_Networks := [exampleNetwork] |> <| File_Routes := [exampleRoute] |>.

(** Printable characters other than the quote and the backslash. *)
Lemma plain_check v : forallb (λ c, IsPrint c && negb (c =? quote) && negb (c =? backslash)) v = true → plain v.
Proof.
  intros Hv. apply Forall_forall. intros c Hc%list_elem_of_In. rewrite forallb_forall in Hv. specialize (Hv c Hc).
  rewrite !andb_true_iff, !negb_true_iff, !Z.eqb_neq in Hv. tauto.
Qed.

Lemma keyword_quotable v : isKeyword v = true → quotable v.
Proof. intros Hv. left. by apply keyword_identifier. Qed.

Lemma plain_quotable v : forallb (λ c, IsPrint c && negb (c =? quote) && negb (c =? backslash)) v = true → quotable v.
Proof. intros Hv. right. by apply plain_check. Qed.

Lemma natural_check n : (0 <=? n) && (n <=? int64_max) = true → natural n.
Proof. unfold natural. lia. Qed.

(** A condition on a concrete value. *)
Ltac concrete :=
  lazymatch goal with
  | |- natural _ => apply natural_check; reflexivity
  | |- quotable _ => apply plain_quotable; reflexivity
  | |- identifier _ => apply keyword_identifier; reflexivity
  | |- optional _ _ => left; reflexivity
  | |- pull_fmt _ => left; reflexivity
  | |- Forall _ _ => repeat apply Forall_cons_2; try apply Forall_nil_2
  | |- whenever _ None => intros ? ?; discriminate
  | |- whenever _ _ => let a := fresh in let Ha := fresh in intros a Ha; injection Ha as <-
  | |- _ = _ => reflexivity
  end.

Lemma exampleService_fmt : service_fmt exampleService.
Proof.
  constructor; cbn; try concrete; try concrete.
  - split; [concrete|by right].
  - split_and!; [concrete|concrete|]. unfold disruption_ok. cbn. lia.
  - split; [concrete|]. split_and!; [done|by apply plain_check|]. intros [(c & rest & [= <- _] & Hc) _]. discriminate.
  - split; concrete.
Qed.

Lemma exampleNetwork_fmt : network_fmt exampleNetwork.
Proof.
  apply Forall_cons_2; [|apply Forall_nil_2]. split_and!; [by left| | |concrete].
  - exists (runes "payments"), [runes "web"]. split_and!; [reflexivity|concrete|]. concrete; concrete.
  - exists (runes "ledger"), []. split_and!; [reflexivity|concrete|concrete].
Qed.

Lemma exampleRoute_fmt : route_fmt exampleRoute.
Proof.
  constructor; try concrete; [by intros ? [=]|split; [|done]; by left|by right].
Qed.

Lemma exampleFile_formattable : formattable exampleFile.
Proof.
  constructor; try (by intros ? [=]); try apply Forall_nil_2; (apply Forall_cons_2; [|apply Forall_nil_2]);
    [apply exampleNetwork_fmt| |apply exampleRoute_fmt].
  split; [|apply exampleService_fmt]. exists (runes "payments"), [runes "web"]. split_and!; [reflexivity|concrete|]. concrete; concrete.
Qed.


(** ** Files that formatting changes *)

Definition parsed (input : text) : File := match Parse input with Some (inr f) => f | _ => File_zero end.

Definition priorityText : text := runes ("service web {" +:+ lf +:+ "  image nginx" +:+ lf +:+ "  priority 900" +:+ lf +:+ "}" +:+ lf).

Definition placementText : text :=
  runes ("service web {" +:+ lf +:+ "  image nginx" +:+ lf +:+ "  placement {" +:+ lf +:+ "    mode per-node" +:+ lf +:+ "    separate db" +:+ lf +:+
         "  }" +:+ lf +:+ "}" +:+ lf).

Definition updateText : text :=
  runes ("service web {" +:+ lf +:+ "  image nginx" +:+ lf +:+ "  update { max_unavailable 0 }" +:+ lf +:+ "}" +:+ lf).

(** What is parsed from the formatted text of the parsed input. *)
Definition reformatted (input : text) : File := parsed (Format (parsed input)).

(** Formatting loses a service's priority, its placement mode and separation, and
    turns an update that may make nothing unavailable into one that may; for the
    last, formatting again changes the text again. *)
Theorem Format_loses_settings :
  (Service_Priority <$> File_Services (parsed priorityText) = [900] ∧ Service_Priority <$> File_Services (reformatted priorityText) = [0]) ∧
  ((Placement_Mode <$> (Service_Placement <$> File_Services (parsed placementText)) ≫= option_list) = [runes "per-node"] ∧
   (Placement_Mode <$> (Service_Placement <$> File_Services (reformatted placementText)) ≫= option_list) = [[]]) ∧
  (Format (parsed updateText) ≠ Format (reformatted updateText) ∧
   (Update_MaxUnavailable <$> (Service_Update <$> File_Services (parsed updateText)) ≫= option_list) = [0] ∧
   (Update_MaxUnavailable <$> (Service_Update <$> File_Services (reformatted updateText)) ≫= option_list) = [1]).
Proof. split_and!; [reflexivity|reflexivity|reflexivity|reflexivity|by vm_compute|reflexivity|reflexivity]. Qed.
