(* ===== verification/Compiler.v ===== *)
(** * Compiling configuration files to facts (src/lang/compiler.go)

    A compiling function returns an error or the facts of a declaration. Texts become
    the bytes of keys and values here. Reading a file is a parameter: the contents of
    a path, or an error. The certificate that is read for a gate is also kept in the
    declaration, where only another compilation of the same syntax tree would see it;
    that copy is left out. *)

From S2P Require Import Prelude GoStrings GoFmt Keys KeyNames Lexer Ast ParserCore Parser Formatter EventHistory MemoryStore StateStore.
Import MemStore.

Local Open Scope Z_scope.

Record CompiledFact := mkCompiledFact { FactKey : string; FactValue : string }.

Inductive CompileError :=
| CompileParseError (err : ParseError)
| CompileErrorf (message : ErrorMessage).

Definition compiled (A : Type) : Type := (CompileError + A)%type.

#[export] Instance compiled_ret : MRet compiled := λ A a, inr a.
#[export] Instance compiled_bind : MBind compiled := λ A B k m, match m with inl err => inl err | inr a => k a end.

(** An error at the line of a declaration. *)
Definition declarationError {A} (sourceLines : list text) (line : Z) (format : string) (args : list FormatArg) : compiled A :=
  inl (CompileParseError (mkParseError [] line 0 (Sprintf format args) (sourceLineAt sourceLines line))).

(** The facts of the elements of a list, or the first error. *)
Fixpoint compileEach {A} (compileOne : A → compiled (list CompiledFact)) (decls : list A) : compiled (list CompiledFact) :=
  match decls with
  | [] => mret []
  | decl :: decls' => facts ← compileOne decl; facts' ← compileEach compileOne decls'; mret (facts ++ facts')
  end.

#[local] Abbreviation fact := mkCompiledFact.

(** [if v != "" { ... }], [if n > 0 { ... }], [if b { ... }] *)
Definition whenSet (key : string) (v : text) : list CompiledFact := if bool_decide (v = []) then [] else [fact key (utf8 v)].
Definition whenPositive (key : string) (n : Z) : list CompiledFact := if 0 <? n then [fact key (Itoa n)] else [].
Definition whenFlag (key : string) (b : bool) : list CompiledFact := if b then [fact key "true"] else [].

Definition isEmpty (v : text) : bool := bool_decide (v = []).

(** ** Paths ([path/filepath]) *)

Definition slashByte : ascii := ascii_of_nat 47.

(** The segments of a cleaned path, last first. *)
Fixpoint cleanSegments (rooted : bool) (out : list string) (segments : list string) : list string :=
  match segments with
  | [] => out
  | segment :: segments' =>
      if bool_decide (segment = "") || bool_decide (segment = ".") then cleanSegments rooted out segments'
      else if bool_decide (segment = "..") then
        match out with
        | previous :: out' =>
            if bool_decide (previous = "..") then cleanSegments rooted (segment :: out) segments' else cleanSegments rooted out' segments'
        | [] => cleanSegments rooted (if rooted then [] else [segment]) segments'
        end
      else cleanSegments rooted (segment :: out) segments'
  end.

Definition IsAbs (path : string) : bool := HasPrefix path "/".

Definition Clean (path : string) : string :=
  let joined := Join slashByte (reverse (cleanSegments (IsAbs path) [] (Split slashByte path))) in
  if IsAbs path then "/" +:+ joined else if bool_decide (joined = "") then "." else joined.

(** [if baseDir != "" && !filepath.IsAbs(path) { path = filepath.Join(baseDir, path) }] *)
Definition resolvePath (baseDir path : string) : string :=
  if negb (bool_decide (baseDir = "")) && negb (IsAbs path) then Clean (baseDir +:+ "/" +:+ path) else path.

(** ** Infrastructure *)

Definition extractTenantFromHierarchicalName (serviceName : string) : string :=
  match Cut slashByte serviceName with Some (tenant, _) => tenant | None => "" end.

Definition compileTenantDeclaration (d : TenantDecl) (sourceLines : list text) : compiled (list CompiledFact) :=
  if isEmpty (Tenant_Name d) then declarationError sourceLines (Tenant_Line d) "tenant name is required" []
  else
    let name := utf8 (Tenant_Name d) in
    mret (fact (KeyDesiredTenant name) "" ::
      whenPositive (KeyDesiredTenantWeight name) (Tenant_Weight d) ++
      match Tenant_Quota d with
      | Some q =>
          whenPositive (KeyDesiredTenantQuotaCPU name) (Quota_CPU q) ++
          whenSet (KeyDesiredTenantQuotaMemory name) (Quota_Memory q) ++
          whenPositive (KeyDesiredTenantQuotaInstances name) (Quota_Instances q) ++
          whenPositive (KeyDesiredTenantQuotaVolumes name) (Quota_Volumes q) ++
          whenSet (KeyDesiredTenantQuotaStorage name) (Quota_Storage q)
      | None => []
      end).

Definition compileVolumeDeclaration (d : VolumeDecl) (sourceLines : list text) : compiled (list CompiledFact) :=
  if isEmpty (Volume_Name d) then declarationError sourceLines (Volume_Line d) "volume name is required" []
  else
    let name := utf8 (Volume_Name d) in
    mret (
      fact (KeyDesiredVolume name) "" ::
      fact (KeyDesiredVolumeSize name) (utf8 (Volume_Size d)) ::
      fact (KeyDesiredVolumePersistent name) (if Volume_Persistent d then "true" else "false") ::
      whenSet (KeyDesiredVolumeType name) (Volume_StorageType d)).

Definition validateCloudIdentityRequiredFields (d : CloudIdentityDecl) (sourceLines : list text) : compiled () :=
  let failing format := declarationError sourceLines (CloudIdentity_Line d) format [ArgText (CloudIdentity_Name d)] in
  let required v format : compiled () := if isEmpty v then failing format else mret () in
  if isEmpty (CloudIdentity_Name d) then declarationError sourceLines (CloudIdentity_Line d) "cloud_identity name is required" []
  else if isEmpty (CloudIdentity_Provider d) then failing "cloud_identity %q requires a provider (aws, gcp, or azure)"
  else switch (CloudIdentity_Provider d) [
    ("aws", required (CloudIdentity_Role d) "cloud_identity %q with provider aws requires a role");
    ("gcp",
      required (CloudIdentity_ServiceAccount d) "cloud_identity %q with provider gcp requires a service_account";;
      required (CloudIdentity_Pool d) "cloud_identity %q with provider gcp requires a pool");
    ("azure",
      required (CloudIdentity_ClientID d) "cloud_identity %q with provider azure requires a client_id";;
      required (CloudIdentity_TenantID d) "cloud_identity %q with provider azure requires a tenant_id")]
    (declarationError sourceLines (CloudIdentity_Line d) "cloud_identity %q has unknown provider %q (must be aws, gcp, or azure)"
       [ArgText (CloudIdentity_Name d); ArgText (CloudIdentity_Provider d)]).

Definition buildCloudIdentityFactsFromDeclaration (d : CloudIdentityDecl) : list CompiledFact :=
  let name := utf8 (CloudIdentity_Name d) in
  fact (KeyDesiredCloudIdentity name) "" ::
  fact (KeyDesiredCloudIdentityProvider name) (utf8 (CloudIdentity_Provider d)) ::
  whenSet (KeyDesiredCloudIdentityRole name) (CloudIdentity_Role d) ++
  whenSet (KeyDesiredCloudIdentityServiceAccount name) (CloudIdentity_ServiceAccount d) ++
  whenSet (KeyDesiredCloudIdentityPool name) (CloudIdentity_Pool d) ++
  whenSet (KeyDesiredCloudIdentityClientID name) (CloudIdentity_ClientID d) ++
  whenSet (KeyDesiredCloudIdentityTenantID name) (CloudIdentity_TenantID d).

Definition compileCloudIdentityDeclaration (d : CloudIdentityDecl) (sourceLines : list text) : compiled (list CompiledFact) :=
  validateCloudIdentityRequiredFields d sourceLines;;
  mret (buildCloudIdentityFactsFromDeclaration d).

Definition compileCredentialBrokerDeclaration (d : CredentialBrokerDecl) (sourceLines : list text) : compiled (list CompiledFact) :=
  if isEmpty (CredentialBroker_OIDCIssuer d) then
    declarationError sourceLines (CredentialBroker_Line d) "credential_broker requires an oidc_issuer" []
  else
    mret (fact KeyDesiredCredentialBrokerOIDCIssuer (utf8 (CredentialBroker_OIDCIssuer d)) ::
      whenSet KeyDesiredCredentialBrokerCredentialTTL (CredentialBroker_CredentialTTL d) ++
      whenSet KeyDesiredCredentialBrokerRefreshBefore (CredentialBroker_RefreshBefore d)).

Definition compileCloudDeclaration (d : CloudDecl) (sourceLines : list text) : compiled (list CompiledFact) :=
  if isEmpty (Cloud_Provider d) then
    declarationError sourceLines (Cloud_Line d) "cloud block requires a provider (aws, gcp, or azure)" []
  else if negb (isWord (Cloud_Provider d) "aws" || isWord (Cloud_Provider d) "gcp" || isWord (Cloud_Provider d) "azure") then
    declarationError sourceLines (Cloud_Line d) "unknown cloud provider %q (expected aws, gcp, or azure)" [ArgText (Cloud_Provider d)]
  else
    mret (fact KeyDesiredCloudProvider (utf8 (Cloud_Provider d)) ::
      whenSet KeyDesiredCloudRegion (Cloud_Region d) ++
      whenSet KeyDesiredCloudInstanceType (Cloud_InstanceType d) ++
      whenSet KeyDesiredCloudCredentials (Cloud_Credentials d) ++
      whenSet KeyDesiredCloudProjectID (Cloud_ProjectID d) ++
      whenSet KeyDesiredCloudResourceGroup (Cloud_ResourceGroup d) ++
      whenSet KeyDesiredCloudVPCNetwork (Cloud_VPCNetwork d) ++
      whenSet KeyDesiredCloudRouteTable (Cloud_RouteTable d)).

Section reading.
Context `{Unicode} (ReadFile : string → string + string).

(** ** Connections *)

(** ["name":%q] *)
Definition jsonField (name : string) (v : text) : text := quote :: runes name ++ [quote; colon] ++ Quote v.

Definition jsonFieldUnlessEmpty (name : string) (v : text) : list text := if isEmpty v then [] else [jsonField name v].

Fixpoint joinComma (parts : list text) : text :=
  match parts with
  | [] => []
  | [part] => part
  | part :: parts' => part ++ 44 :: joinComma parts'
  end.

Definition buildConnectionJSON (d : ConnectionDecl) : text :=
  let parts :=
    [jsonField "driver" (Connection_Driver d)] ++
    jsonFieldUnlessEmpty "user" (Connection_User d) ++
    jsonFieldUnlessEmpty "secret" (Connection_Secret d) ++
    [jsonField "host" (Connection_Host d)] ++
    (if 0 <? Connection_Port d then [quote :: runes "port" ++ [quote; colon] ++ decimal (Connection_Port d)] else []) ++
    jsonFieldUnlessEmpty "database" (Connection_Database d) in
  leftBrace :: joinComma parts ++ [rightBrace].

Definition compileConnectionDeclaration (d : ConnectionDecl) (sourceLines : list text) : compiled (list CompiledFact) :=
  if isEmpty (Connection_Name d) then declarationError sourceLines (Connection_Line d) "connection name is required" []
  else mret [fact (KeyDesiredConnection (utf8 (Connection_Name d))) (utf8 (buildConnectionJSON d))].

(** A map from names to declarations; a later declaration replaces an earlier one. *)
Definition buildConnectionDeclMap (decls : list ConnectionDecl) : gmap text ConnectionDecl :=
  foldl (λ m d, <[Connection_Name d := d]> m) ∅ decls.

(** ** Gates *)

Definition compileStickyFacts (routeName : string) (d : RouteStickyDecl) : list CompiledFact :=
  fact (KeyDesiredRouteSticky routeName) (utf8 (RouteSticky_Method d)) ::
  match RouteSticky_Cookie d with
  | Some c =>
      whenSet (KeyDesiredRouteCookieName routeName) (RouteCookieSettings_Name c) ++
      whenFlag (KeyDesiredRouteCookieSecure routeName) (RouteCookieSettings_Secure c) ++
      whenFlag (KeyDesiredRouteCookieHTTPOnly routeName) (RouteCookieSettings_HTTPOnly c) ++
      whenSet (KeyDesiredRouteCookieSameSite routeName) (RouteCookieSettings_SameSite c)
  | None => []
  end.

(** The contents of the certificate and of the key, as bytes. *)
Definition compileTLSFacts (routeName : text) (mode : text) (certPEM keyPEM : string) (line : Z) (sourceLines : list text) : compiled (list CompiledFact) :=
  let name := utf8 routeName in
  let modeFact := fact (KeyDesiredRouteTLSMode name) (utf8 mode) in
  if bool_decide (mode = RouteTLSModeManual) then
    if bool_decide (certPEM = "") then declarationError sourceLines line "gate %q: tls cert file content is empty" [ArgText routeName]
    else mret [modeFact; fact (KeyDesiredRouteTLSCert name) certPEM; fact (KeyDesiredRouteTLSKey name) keyPEM]
  else mret [modeFact].

(** A file of a gate. *)
Definition readGateFile (d : RouteDecl) (baseDir : string) (path : text) (format : string) (sourceLines : list text) : compiled string :=
  match ReadFile (resolvePath baseDir (utf8 path)) with
  | inl readError => declarationError sourceLines (Route_Line d) format [ArgText (Route_Name d); ArgText path; ArgError readError]
  | inr contents => mret contents
  end.

Definition compileRouteTLS (d : RouteDecl) (tls : RouteTLSDecl) (baseDir : string) (sourceLines : list text) : compiled (list CompiledFact) :=
  pems ←
    (if bool_decide (RouteTLS_Mode tls = RouteTLSModeManual) && isEmpty (RouteTLS_CertPEM tls) then
       cert ← readGateFile d baseDir (RouteTLS_CertFile tls) "gate %q: cannot read tls cert %q: %v" sourceLines;
       key ← readGateFile d baseDir (RouteTLS_KeyFile tls) "gate %q: cannot read tls key %q: %v" sourceLines;
       mret (cert, key)
     else mret (utf8 (RouteTLS_CertPEM tls), utf8 (RouteTLS_KeyPEM tls)));
  compileTLSFacts (Route_Name d) (RouteTLS_Mode tls) (fst pems) (snd pems) (Route_Line d) sourceLines.

Definition compileRouteDeclaration (d : RouteDecl) (baseDir : string) (sourceLines : list text) : compiled (list CompiledFact) :=
  let name := utf8 (Route_Name d) in
  if isEmpty (Route_Name d) then declarationError sourceLines (Route_Line d) "gate name is required" []
  else if isEmpty (Route_ServiceName d) then declarationError sourceLines (Route_Line d) "gate must specify a target service" []
  else
    tlsFacts ← match Route_TLS d with Some tls => compileRouteTLS d tls baseDir sourceLines | None => mret [] end;
    mret (
      fact (KeyDesiredRoute name) "" ::
      fact (KeyDesiredRouteService name) (utf8 (Route_ServiceName d)) ::
      whenSet (KeyDesiredRouteHost name) (Route_Host d) ++
      whenSet (KeyDesiredRoutePath name) (Route_Path d) ++
      whenPositive (KeyDesiredRoutePort name) (Route_ServicePort d) ++
      match Route_Sticky d with Some s => compileStickyFacts name s | None => [] end ++
      tlsFacts).

Definition compileInfrastructureDeclarations (file : File) (sourceLines : list text) : compiled (list CompiledFact) :=
  tenants ← compileEach (λ d, compileTenantDeclaration d sourceLines) (File_Tenants file);
  volumes ← compileEach (λ d, compileVolumeDeclaration d sourceLines) (File_Volumes file);
  identities ← compileEach (λ d, compileCloudIdentityDeclaration d sourceLines) (File_CloudIdentities file);
  broker ← compileEach (λ d, compileCredentialBrokerDeclaration d sourceLines) (option_list (File_CredentialBroker file));
  cloud ← compileEach (λ d, compileCloudDeclaration d sourceLines) (option_list (File_Cloud file));
  connections ← compileEach (λ d, compileConnectionDeclaration d sourceLines) (File_Connections file);
  routes ← compileEach (λ d, compileRouteDeclaration d (utf8 (File_BaseDir file)) sourceLines) (File_Routes file);
  mret (tenants ++ volumes ++ identities ++ broker ++ cloud ++ connections ++ routes).

(** ** Services *)

Definition inPortRange (port : Z) : bool := (1 <=? port) && (port <=? 65535).

Definition compileServicePortsFacts (serviceName : text) (ports : list Z) (externalPorts : list ExternalPortDecl)
    (declarationLine : Z) (sourceLines : list text) : compiled (list CompiledFact) :=
  let name := utf8 serviceName in
  internal ← compileEach (λ port,
    if negb (inPortRange port) then
      declarationError sourceLines declarationLine "service %q port %d out of range (1-65535)" [ArgText serviceName; ArgInt port]
    else mret [fact (KeyDesiredServiceExpose name port) ""]) ports;
  external ← compileEach (λ e,
    let port := ExternalPort_Port e in
    if negb (inPortRange port) then
      declarationError sourceLines declarationLine "service %q external port %d out of range (1-65535)" [ArgText serviceName; ArgInt port]
    else mret [fact (KeyDesiredServiceExpose name port) ""; fact (KeyDesiredServiceExposeExternal name port) (utf8 (ExternalPort_Protocol e))])
    externalPorts;
  mret (internal ++ external).

Definition classifyQoS (d : ResourcesDecl) : string :=
  let hasCPU := negb (isEmpty (Resources_CPU d)) in
  let hasMemory := negb (isEmpty (Resources_Memory d)) in
  let hasCPULimit := negb (isEmpty (Resources_CPULimit d)) in
  let hasMemoryLimit := negb (isEmpty (Resources_MemoryLimit d)) in
  let cpuGuaranteed := hasCPU && hasCPULimit && bool_decide (Resources_CPU d = Resources_CPULimit d) in
  let memoryGuaranteed := hasMemory && hasMemoryLimit && bool_decide (Resources_Memory d = Resources_MemoryLimit d) in
  if negb hasCPU && negb hasMemory && negb hasCPULimit && negb hasMemoryLimit then "BestEffort"
  else if hasCPU && cpuGuaranteed && hasMemory && memoryGuaranteed then "Guaranteed"
  else if hasCPU && negb hasCPULimit && hasMemory && negb hasMemoryLimit then "Guaranteed"
  else "Burstable".

Definition compileServiceResourceFacts (name : string) (resourcesDecl : option ResourcesDecl) : list CompiledFact :=
  match resourcesDecl with
  | None => []
  | Some d =>
      whenSet (KeyDesiredServiceResourcesCPU name) (Resources_CPU d) ++
      whenSet (KeyDesiredServiceResourcesMemory name) (Resources_Memory d) ++
      whenSet (KeyDesiredServiceResourcesCPULimit name) (Resources_CPULimit d) ++
      whenSet (KeyDesiredServiceResourcesMemoryLimit name) (Resources_MemoryLimit d) ++
      [fact (KeyDerivedServiceQoSClass name) (classifyQoS d)]
  end.

Definition compileServiceVolumeMountFacts (name : string) (volumeMounts : list VolumeMountDecl) : list CompiledFact :=
  (λ m, fact (KeyDesiredServiceVolume name (utf8 (VolumeMount_VolumeName m))) (utf8 (VolumeMount_MountPath m))) <$> volumeMounts.

Definition compileScheduleFacts (name : string) (d : ScheduleDecl) : list CompiledFact :=
  [fact (KeyDesiredServiceScaleScheduleDays name) (utf8 (Schedule_Days d));
   fact (KeyDesiredServiceScaleScheduleStart name) (utf8 (Schedule_Start d));
   fact (KeyDesiredServiceScaleScheduleEnd name) (utf8 (Schedule_End d));
   fact (KeyDesiredServiceScaleScheduleMinimum name) (Itoa (Schedule_Minimum d))].

Definition compileServiceHorizontalScaleFacts (serviceName : text) (d : HorizontalScaleDecl) (declarationLine : Z) (sourceLines : list text)
    : compiled (list CompiledFact) :=
  let name := utf8 serviceName in
  if HorizontalScale_Min d <? 0 then
    declarationError sourceLines declarationLine "service %q scale min must be >= 0" [ArgText serviceName]
  else if HorizontalScale_Max d <? HorizontalScale_Min d then
    declarationError sourceLines declarationLine "service %q scale max must be >= min" [ArgText serviceName]
  else
    targets ← compileEach (λ t,
      if ScaleTarget_Value t <=? 0 then
        declarationError sourceLines declarationLine "service %q scale target %q must be > 0" [ArgText serviceName; ArgText (ScaleTarget_Metric t)]
      else mret [fact (KeyDesiredServiceScaleHorizontalTarget name (utf8 (ScaleTarget_Metric t))) (Itoa (ScaleTarget_Value t))])
      (HorizontalScale_Targets d);
    events ← compileEach (λ e,
      if EventScale_Target e <=? 0 then
        declarationError sourceLines declarationLine "service %q event target for %q must be > 0" [ArgText serviceName; ArgText (EventScale_Source e)]
      else mret [fact (KeyDesiredServiceScaleHorizontalEvent name (utf8 (EventScale_Source e))) (Itoa (EventScale_Target e))])
      (HorizontalScale_Events d);
    mret (
      fact (KeyDesiredServiceScaleHorizontalMin name) (Itoa (HorizontalScale_Min d)) ::
      fact (KeyDesiredServiceScaleHorizontalMax name) (Itoa (HorizontalScale_Max d)) ::
      targets ++ events ++
      match HorizontalScale_Schedule d with Some s => compileScheduleFacts name s | None => [] end ++
      match HorizontalScale_Stabilization d with
      | Some s =>
          whenSet (KeyDesiredServiceScaleStabilizationUp name) (Stabilization_ScaleUp s) ++
          whenSet (KeyDesiredServiceScaleStabilizationDown name) (Stabilization_ScaleDown s)
      | None => []
      end ++
      whenSet (KeyDesiredServiceScaleIdleTimeout name) (HorizontalScale_IdleTimeout d) ++
      whenSet (KeyDesiredServiceScaleActivationTimeout name) (HorizontalScale_ActivationTimeout d)).

Definition compileServiceVerticalScaleFacts (name : string) (d : VerticalScaleDecl) : list CompiledFact :=
  whenSet (KeyDesiredServiceScaleVerticalCPUMin name) (VerticalScale_CPUMin d) ++
  whenSet (KeyDesiredServiceScaleVerticalCPUMax name) (VerticalScale_CPUMax d) ++
  whenSet (KeyDesiredServiceScaleVerticalMemoryMin name) (VerticalScale_MemoryMin d) ++
  whenSet (KeyDesiredServiceScaleVerticalMemoryMax name) (VerticalScale_MemoryMax d).

Definition compileServiceScaleFacts (serviceName : text) (scaleDecl : option ScaleDecl) (declarationLine : Z) (sourceLines : list text)
    : compiled (list CompiledFact) :=
  match scaleDecl with
  | None => mret []
  | Some d =>
      horizontal ← match Scale_Horizontal d with
        | Some h => compileServiceHorizontalScaleFacts serviceName h declarationLine sourceLines
        | None => mret []
        end;
      mret (horizontal ++ match Scale_Vertical d with Some v => compileServiceVerticalScaleFacts (utf8 serviceName) v | None => [] end)
  end.

Definition compileServicePlacementFacts (name : string) (placementDecl : option PlacementDecl) : list CompiledFact :=
  match placementDecl with
  | None => []
  | Some d =>
      whenSet (KeyDesiredServicePlacementMode name) (Placement_Mode d) ++
      whenSet (KeyDesiredServicePlacementArchitecture name) (Placement_Architecture d) ++
      (if isEmpty (Placement_ZonePolicy d) then []
       else fact (KeyDesiredServicePlacementZonePolicy name) (utf8 (Placement_ZonePolicy d)) ::
            whenPositive (KeyDesiredServicePlacementZoneMaxSkew name) (Placement_ZoneMaxSkew d)) ++
      ((λ r, fact (KeyDesiredServicePlacementRequire name (utf8 (PlacementMatch_Label r))) (utf8 (PlacementMatch_Value r))) <$> Placement_Require d) ++
      ((λ r, fact (KeyDesiredServicePlacementPrefer name (utf8 (PlacementMatch_Label r))) (utf8 (PlacementMatch_Value r))) <$> Placement_Prefer d) ++
      ((λ l, fact (KeyDesiredServicePlacementAccept name (utf8 l)) "") <$> Placement_Accept d) ++
      ((λ s, fact (KeyDesiredServicePlacementColocate name (utf8 s)) "") <$> Placement_Colocate d) ++
      ((λ s, fact (KeyDesiredServicePlacementSeparate name (utf8 s)) "") <$> Placement_Separate d) ++
      whenFlag (KeyDesiredServicePlacementRebalance name) (Placement_Rebalance d)
  end.

Definition compileServiceUpdateFacts (name : string) (updateDecl : option UpdateDecl) : list CompiledFact :=
  match updateDecl with
  | None => []
  | Some d =>
      [fact (KeyDesiredServiceUpdateMaxUnavailable name) (Itoa (Update_MaxUnavailable d));
       fact (KeyDesiredServiceUpdateMaxExtra name) (Itoa (Update_MaxExtra d))]
  end.

Definition compileServiceDisruptionFacts (name : string) (disruptionDecl : option DisruptionDecl) : list CompiledFact :=
  match disruptionDecl with
  | None => []
  | Some d =>
      (if Disruption_MinAvailable d =? 0 then []
       else [fact (KeyDesiredServiceDisruptionMinAvailable name) (Itoa (Disruption_MinAvailable d))]) ++
      (if Disruption_MaxUnavailable d =? 0 then []
       else [fact (KeyDesiredServiceDisruptionMaxUnavailable name) (Itoa (Disruption_MaxUnavailable d))])
  end.

Definition compileServiceTagFacts (name : string) (tagDecls : list TagDecl) : list CompiledFact :=
  (λ t, fact (KeyDesiredServiceTag name (utf8 (Tag_Key t))) (utf8 (Tag_Value t))) <$> tagDecls.

Definition compileServiceLoggingFacts (name : string) (loggingDecl : option LoggingDecl) : list CompiledFact :=
  match loggingDecl with
  | None => []
  | Some d =>
      whenSet (KeyDesiredServiceLoggingMaxSize name) (Logging_MaxSize d) ++
      whenPositive (KeyDesiredServiceLoggingMaxFiles name) (Logging_MaxFiles d)
  end.

Definition compileServiceLifecycleFacts (name : string) (lifecycleDecl : option LifecycleDecl) : list CompiledFact :=
  match lifecycleDecl with
  | None => []
  | Some d =>
      whenSet (KeyDesiredServiceLifecyclePreStop name) (Lifecycle_PreStop d) ++
      whenSet (KeyDesiredServiceLifecyclePostStart name) (Lifecycle_PostStart d)
  end.

Definition ProbeLiveness : string := "liveness".
Definition ProbeReadiness : string := "readiness".

Definition compileProbeDeclaration (name : string) (probeType : string) (d : ProbeDecl) : list CompiledFact :=
  fact (KeyDesiredServiceProbeMethod name probeType) (utf8 (Probe_Method d)) ::
  whenSet (KeyDesiredServiceProbePath name probeType) (Probe_Path d) ++
  whenPositive (KeyDesiredServiceProbePort name probeType) (Probe_Port d) ++
  whenSet (KeyDesiredServiceProbeInterval name probeType) (Probe_Interval d) ++
  whenSet (KeyDesiredServiceProbeTimeout name probeType) (Probe_Timeout d) ++
  whenPositive (KeyDesiredServiceProbeFailureThreshold name probeType) (Probe_FailureThreshold d) ++
  whenPositive (KeyDesiredServiceProbeSuccessThreshold name probeType) (Probe_SuccessThreshold d) ++
  whenSet (KeyDesiredServiceProbeInitialDelay name probeType) (Probe_InitialDelay d).

Definition compileServiceHealthProbeFacts (name : string) (health : option HealthDecl) (startup liveness readiness : option ProbeDecl) : list CompiledFact :=
  match health with
  | Some d =>
      whenSet (KeyDesiredServiceHealthMethod name) (Health_Method d) ++
      whenSet (KeyDesiredServiceHealthPath name) (Health_Path d) ++
      whenSet (KeyDesiredServiceHealthInterval name) (Health_Interval d) ++
      whenSet (KeyDesiredServiceHealthTimeout name) (Health_Timeout d)
  | None => []
  end ++
  match startup with Some d => compileProbeDeclaration name ProbeStartup d | None => [] end ++
  match liveness with Some d => compileProbeDeclaration name ProbeLiveness d | None => [] end ++
  match readiness with Some d => compileProbeDeclaration name ProbeReadiness d | None => [] end.

Definition compileConfigFile (name : string) (baseDir : string) (f : ConfigFileDecl) : compiled (list CompiledFact) :=
  content ←
    (if isEmpty (ConfigFile_FromFile f) then mret (utf8 (ConfigFile_Content f))
     else match ReadFile (resolvePath baseDir (utf8 (ConfigFile_FromFile f))) with
          | inl readErr =>
              inl (CompileErrorf (Sprintf "config file %q: cannot read %q: %w" [ArgText (ConfigFile_Path f); ArgText (ConfigFile_FromFile f); ArgError readErr]))
          | inr fileBytes => mret fileBytes
          end);
  mret [fact (KeyDesiredServiceConfigFile name (utf8 (ConfigFile_Path f))) content].

Definition compileServiceConfigFacts (name : string) (configDecl : option ConfigDecl) (baseDir : string) : compiled (list CompiledFact) :=
  match configDecl with
  | None => mret []
  | Some d =>
      files ← compileEach (compileConfigFile name baseDir) (Config_ConfigFiles d);
      mret (((λ e, fact (KeyDesiredServiceConfigEnv name (utf8 (EnvVar_Name e))) (utf8 (EnvVar_Value e))) <$> Config_EnvVars d) ++ files)
  end.

Definition compileServiceSecretFacts (name : string) (secretDecls : list SecretDecl) : list CompiledFact :=
  (λ s, fact (KeyDesiredServiceSecret name (utf8 (Secret_Name s))) (utf8 (Secret_MountPath s))) <$> secretDecls.

Definition compileServiceConnectionRefFacts (name : string) (connectionRefs : list ConnectionRef) (connectionDeclsByName : gmap text ConnectionDecl)
    (explicitSecrets : list SecretDecl) : list CompiledFact :=
  connectionRefs ≫= λ ref,
    fact (KeyDesiredServiceConnection name (utf8 (ConnectionRef_ConnectionName ref))) (utf8 (ConnectionRef_MountPath ref)) ::
    match connectionDeclsByName !! ConnectionRef_ConnectionName ref with
    | Some d =>
        if negb (isEmpty (Connection_Secret d)) && negb (bool_decide (Connection_Secret d ∈ Secret_Name <$> explicitSecrets)) then
          [fact (KeyDesiredServiceSecret name (utf8 (Connection_Secret d))) "connection"]
        else []
    | None => []
    end.

Definition compileServiceCloudIdentityFacts (name : string) (bindings : list CloudIdentityBindingDecl) : list CompiledFact :=
  bindings ≫= λ b,
    let identity := utf8 (CloudIdentityBinding_IdentityName b) in
    fact (KeyDesiredServiceCloudIdentity name identity) "" ::
    whenSet (KeyDesiredServiceCloudIdentityMountPath name identity) (CloudIdentityBinding_MountPath b) ++
    whenSet (KeyDesiredServiceCloudIdentityDeliverMode name identity) (CloudIdentityBinding_DeliverMode b).

Definition compileInitStep (name : string) (stepIndex : Z) (d : InitStepDecl) : list CompiledFact :=
  fact (KeyDesiredServiceInitStep name stepIndex) "" ::
  (if negb (isEmpty (InitStep_Connection d)) then fact (KeyDesiredServiceInitStepConnection name stepIndex) (utf8 (InitStep_Connection d))
   else fact (KeyDesiredServiceInitStepExec name stepIndex) (utf8 (InitStep_Exec d))) ::
  whenSet (KeyDesiredServiceInitStepTimeout name stepIndex) (InitStep_Timeout d) ++
  whenPositive (KeyDesiredServiceInitStepRetry name stepIndex) (InitStep_Retry d).

(** [for i, x := range xs] *)
Definition indexed {A} (xs : list A) : list (Z * A) := zip (Z.of_nat <$> seq 0 (length xs)) xs.

Definition compileServiceInitStepFacts (name : string) (initSteps : list InitStepDecl) : list CompiledFact :=
  indexed initSteps ≫= λ ix, compileInitStep name (fst ix) (snd ix).

Definition isPerNode (d : ServiceDecl) : bool :=
  match Service_Placement d with Some p => isWord (Placement_Mode p) "per-node" | None => false end.

Definition ownerOf (d : ServiceDecl) : string :=
  if isEmpty (Service_Owner d) then extractTenantFromHierarchicalName (utf8 (Service_Name d)) else utf8 (Service_Owner d).

Definition compileServiceDeclaration (d : ServiceDecl) (sourceLines : list text) (baseDir : string)
    (connectionDeclsByName : gmap text ConnectionDecl) : compiled (list CompiledFact) :=
  let name := utf8 (Service_Name d) in
  let instances := Itoa (Service_Instances d) in
  let line := Service_Line d in
  if isEmpty (Service_Name d) then declarationError sourceLines line "service name is required" []
  else if isEmpty (Service_Image d) then declarationError sourceLines line "service %q requires an image" [ArgText (Service_Name d)]
  else if Service_Instances d <? 0 then declarationError sourceLines line "service %q instances must be >= 0" [ArgText (Service_Name d)]
  else
    portFacts ← compileServicePortsFacts (Service_Name d) (Service_Ports d) (Service_ExternalPorts d) line sourceLines;
    scaleFacts ← compileServiceScaleFacts (Service_Name d) (Service_Scale d) line sourceLines;
    configFacts ← compileServiceConfigFacts name (Service_Config d) baseDir;
    mret (
      [fact (KeyDesiredService name) "";
       fact (KeyDesiredServiceImage name) (utf8 (Service_Image d));
       fact (KeyDesiredServiceInstances name) instances;
       fact (KeyIntentUserServiceInstances name) instances] ++
      (if isPerNode d then [] else [fact (KeyEffectiveServiceInstances name) instances]) ++
      whenSet (KeyDesiredServiceCommand name) (Service_Command d) ++
      (if bool_decide (ownerOf d = "") then [] else [fact (KeyDesiredServiceOwner name) (ownerOf d)]) ++
      portFacts ++
      compileServiceResourceFacts name (Service_Resources d) ++
      compileServiceVolumeMountFacts name (Service_VolumeMounts d) ++
      scaleFacts ++
      compileServicePlacementFacts name (Service_Placement d) ++
      compileServiceUpdateFacts name (Service_Update d) ++
      compileServiceHealthProbeFacts name (Service_Health d) (Service_Startup d) (Service_Liveness d) (Service_Readiness d) ++
      configFacts ++
      compileServiceSecretFacts name (Service_Secrets d) ++
      compileServiceConnectionRefFacts name (Service_Connections d) connectionDeclsByName (Service_Secrets d) ++
      compileServiceCloudIdentityFacts name (Service_CloudIdentities d) ++
      compileServiceInitStepFacts name (Service_InitSteps d) ++
      compileServiceDisruptionFacts name (Service_Disruption d) ++
      compileServiceTagFacts name (Service_Tags d) ++
      compileServiceLoggingFacts name (Service_Logging d) ++
      compileServiceLifecycleFacts name (Service_Lifecycle d) ++
      whenSet (KeyDesiredServicePullPolicy name) (Service_PullPolicy d) ++
      whenSet (KeyDesiredServiceImagePullSecret name) (Service_ImagePullSecret d) ++
      whenFlag (KeyDesiredServiceLegacySecretAPI name) (Service_LegacySecretAPI d) ++
      whenFlag (KeyDesiredServiceStateful name) (Service_Stateful d) ++
      whenFlag (KeyEffectiveServiceStateful name) (Service_Stateful d) ++
      whenSet (KeyDesiredServiceTerminationGracePeriod name) (Service_TerminationGracePeriod d) ++
      whenPositive (KeyDesiredServicePriority name) (Service_Priority d) ++
      whenPositive (KeyEffectiveServicePriority name) (Service_Priority d)).


(** ** Jobs *)

Definition defaultJobBackoffLimit : Z := 3.

(** [if n == 0 { n = byDefault }] *)
Definition orDefault (n byDefault : Z) : Z := if n =? 0 then byDefault else n.

Definition compileJobDeclaration (d : JobDecl) (sourceLines : list text) : compiled (list CompiledFact) :=
  let name := utf8 (Job_Name d) in
  if isEmpty (Job_Name d) then declarationError sourceLines (Job_Line d) "job name is required" []
  else if isEmpty (Job_Image d) then declarationError sourceLines (Job_Line d) "job %q requires an image" [ArgText (Job_Name d)]
  else
    mret (
      fact (KeyDesiredJob name) "" ::
      fact (KeyDesiredJobImage name) (utf8 (Job_Image d)) ::
      fact (KeyDesiredJobCompletions name) (Itoa (orDefault (Job_Completions d) 1)) ::
      fact (KeyDesiredJobParallelism name) (Itoa (orDefault (Job_Parallelism d) 1)) ::
      fact (KeyDesiredJobBackoffLimit name) (Itoa (orDefault (Job_BackoffLimit d) defaultJobBackoffLimit)) ::
      whenSet (KeyDesiredJobCommand name) (Job_Command d) ++
      whenSet (KeyDesiredJobImagePullSecret name) (Job_ImagePullSecret d)).

Definition compileCronJobDeclaration (d : CronJobDecl) (sourceLines : list text) : compiled (list CompiledFact) :=
  let name := utf8 (CronJob_Name d) in
  let line := CronJob_Line d in
  if isEmpty (CronJob_Name d) then declarationError sourceLines line "cronjob requires a name" []
  else if isEmpty (CronJob_Image d) then declarationError sourceLines line "cronjob %q requires an image" [ArgText (CronJob_Name d)]
  else if isEmpty (CronJob_Schedule d) then declarationError sourceLines line "cronjob %q requires a schedule" [ArgText (CronJob_Name d)]
  else
    mret (
      fact (KeyDesiredCronJob name) "" ::
      fact (KeyDesiredCronJobSchedule name) (utf8 (CronJob_Schedule d)) ::
      fact (KeyDesiredCronJobImage name) (utf8 (CronJob_Image d)) ::
      fact (KeyDesiredCronJobCompletions name) (Itoa (orDefault (CronJob_Completions d) 1)) ::
      fact (KeyDesiredCronJobParallelism name) (Itoa (orDefault (CronJob_Parallelism d) 1)) ::
      fact (KeyDesiredCronJobBackoffLimit name) (Itoa (orDefault (CronJob_BackoffLimit d) defaultJobBackoffLimit)) ::
      whenSet (KeyDesiredCronJobCommand name) (CronJob_Command d)).

(** ** Access control *)

Definition compileRoleDeclaration (d : RoleDecl) (sourceLines : list text) : compiled (list CompiledFact) :=
  let name := utf8 (Role_Name d) in
  if isEmpty (Role_Name d) then declarationError sourceLines (Role_Line d) "role name is required" []
  else if bool_decide (Role_Capabilities d = []) then
    declarationError sourceLines (Role_Line d) "role must have at least one capability" []
  else
    mret (((λ c, fact (KeyAuthRoleCapability name (utf8 c)) "true") <$> Role_Capabilities d) ++
          ((λ p, fact (KeyAuthRoleScope name (utf8 p)) "true") <$> Role_Scopes d)).

Definition compileGrantDeclaration (d : GrantDecl) (sourceLines : list text) : compiled (list CompiledFact) :=
  if isEmpty (Grant_RoleName d) then declarationError sourceLines (Grant_Line d) "grant role name is required" []
  else if isEmpty (Grant_PrincipalKind d) then declarationError sourceLines (Grant_Line d) "grant principal kind is required" []
  else if isEmpty (Grant_PrincipalName d) then declarationError sourceLines (Grant_Line d) "grant principal name is required" []
  else mret [fact (KeyAuthGrant (utf8 (Grant_PrincipalKind d)) (utf8 (Grant_PrincipalName d)) (utf8 (Grant_RoleName d))) "true"].

Definition compileGroupDeclaration (d : GroupDecl) (sourceLines : list text) : compiled (list CompiledFact) :=
  if isEmpty (Group_Name d) then declarationError sourceLines (Group_Line d) "group name is required" []
  else mret ((λ member, fact (KeyAuthGroupMember (utf8 (Group_Name d)) (utf8 member)) "true") <$> Group_Members d).

Definition compileServiceGroupDeclaration (d : ServiceGroupDecl) (sourceLines : list text) : compiled (list CompiledFact) :=
  let name := utf8 (ServiceGroup_Name d) in
  if isEmpty (ServiceGroup_Name d) then declarationError sourceLines (ServiceGroup_Line d) "service group name is required" []
  else if bool_decide (ServiceGroup_Processes d = []) then
    declarationError sourceLines (ServiceGroup_Line d) "service group must have at least one process" []
  else
    mret (
      fact (KeyDesiredGroup name) "true" ::
      ((λ p, fact (KeyDesiredGroupProcess name (utf8 p)) "true") <$> ServiceGroup_Processes d) ++
      whenFlag (KeyDesiredGroupShareNetwork name) (ServiceGroup_ShareNetwork d) ++
      ((λ v, fact (KeyDesiredGroupShareVolume name (utf8 v)) "true") <$> ServiceGroup_SharedVolumes d)).

Definition compilePolicyDeclaration (d : PolicyDecl) (sourceLines : list text) : compiled (list CompiledFact) :=
  let name := utf8 (Policy_Name d) in
  if isEmpty (Policy_Name d) then declarationError sourceLines (Policy_Line d) "policy name is required" []
  else if isEmpty (Policy_Capability d) then
    declarationError sourceLines (Policy_Line d) ("policy must have an " +:+ inQuotes "allow" +:+ " clause with a capability") []
  else
    mret (
      fact (KeyAuthPolicyCapability name) (utf8 (Policy_Capability d)) ::
      (indexed (Policy_Conditions d) ≫= λ ix,
        [fact (KeyAuthPolicyConditionField name (fst ix)) (utf8 (PolicyCondition_Field (snd ix)));
         fact (KeyAuthPolicyConditionOperator name (fst ix)) (utf8 (PolicyCondition_Operator (snd ix)));
         fact (KeyAuthPolicyConditionValue name (fst ix)) (utf8 (PolicyCondition_Value (snd ix)))])).

(** [strings.ReplaceAll(serviceName, "/", "-")] *)
Definition sanitizeRuleName (serviceName : text) : text := (λ c, if c =? slash then 45 else c) <$> serviceName.

Definition networkRuleName (ruleIndex : Z) (r : NetworkRuleDecl) : string :=
  utf8 (sanitizeRuleName (NetworkRule_Source r)) +:+ "-to-" +:+ utf8 (sanitizeRuleName (NetworkRule_Target r)) +:+ "-" +:+ Itoa ruleIndex.

Definition networkRuleValue (r : NetworkRuleDecl) : string :=
  utf8 (NetworkRule_Source r) +:+ ":" +:+ utf8 (NetworkRule_Target r) +:+ ":" +:+ Itoa (NetworkRule_Port r) +:+ ":" +:+ utf8 (NetworkRule_Action r).

Definition compileNetworkDeclaration (d : NetworkDecl) (sourceLines : list text) : compiled (list CompiledFact) :=
  compileEach (λ ix,
    let r := snd ix in
    if isEmpty (NetworkRule_Source r) || isEmpty (NetworkRule_Target r) then
      declarationError sourceLines (NetworkRule_Line r) "network rule requires both source and target service names" []
    else mret [fact (KeyNetworkPolicyRule (networkRuleName (fst ix) r)) (networkRuleValue r)])
    (indexed (Network_Rules d)).

Definition compileAccessControlDeclarations (file : File) (sourceLines : list text) : compiled (list CompiledFact) :=
  roles ← compileEach (λ d, compileRoleDeclaration d sourceLines) (File_Roles file);
  grants ← compileEach (λ d, compileGrantDeclaration d sourceLines) (File_Grants file);
  groups ← compileEach (λ d, compileGroupDeclaration d sourceLines) (File_Groups file);
  serviceGroups ← compileEach (λ d, compileServiceGroupDeclaration d sourceLines) (File_ServiceGroups file);
  policies ← compileEach (λ d, compilePolicyDeclaration d sourceLines) (File_Policies file);
  networks ← compileEach (λ d, compileNetworkDeclaration d sourceLines) (File_Networks file);
  mret (roles ++ grants ++ groups ++ serviceGroups ++ policies ++ networks).

(** ** Files *)

Definition CompileWithSource (file : File) (sourceLines : list text) : compiled (list CompiledFact) :=
  infrastructureFacts ← compileInfrastructureDeclarations file sourceLines;
  let connectionDeclsByName := buildConnectionDeclMap (File_Connections file) in
  serviceFacts ← compileEach (λ d, compileServiceDeclaration d sourceLines (utf8 (File_BaseDir file)) connectionDeclsByName) (File_Services file);
  jobFacts ← compileEach (λ d, compileJobDeclaration d sourceLines) (File_Jobs file);
  cronJobFacts ← compileEach (λ d, compileCronJobDeclaration d sourceLines) (File_CronJobs file);
  accessControlFacts ← compileAccessControlDeclarations file sourceLines;
  mret (infrastructureFacts ++ serviceFacts ++ jobFacts ++ cronJobFacts ++ accessControlFacts).

Definition Compile (file : File) : compiled (list CompiledFact) := CompileWithSource file [].

(** ** Writing a file to the store *)

Section stored.
Context {S : Type} `{FactStore S}.

Inductive ApplyError :=
| NotParsed (err : ParseError)
| NotCompiled (err : CompileError)
| NotWritten (key : string) (err : StoreError)
| NotScanned (gate : text) (err : StoreError)
| NotDeleted (key : string) (err : StoreError).

(** Parsing and compiling a text, whose files are below [baseDir] when one is set; [None]
    is a loop of the lexer or the parser that has not ended. *)
Definition parseAndCompile (input : text) (baseDir : option text) : option (ApplyError + (File * list CompiledFact)) :=
  parsed ← Parse input;
  Some (match parsed with
        | inl parseError => inl (NotParsed parseError)
        | inr file =>
            let file := match baseDir with Some d => file <| File_BaseDir := d |> | None => file end in
            match CompileWithSource file (splitSourceLines input) with
            | inl compileError => inl (NotCompiled compileError)
            | inr facts => inr (file, facts)
            end
        end).

Definition putFacts (facts : list CompiledFact) (s : S) : option ((ApplyError + ()) * S) :=
  written ← putAll ((λ f, (FactKey f, FactValue f)) <$> facts) s;
  Some (match written with
        | (Some (key, putError), s') => (inl (NotWritten key putError), s')
        | (None, s') => (inr (), s')
        end).

Fixpoint deleteFacts (facts : list Fact) (s : S) : option ((ApplyError + ()) * S) :=
  match facts with
  | [] => Some (inr (), s)
  | f :: facts' =>
      deleted ← store_Delete (Key f) s;
      match deleted with
      | (Err deleteError, s') => Some (inl (NotDeleted (Key f) deleteError), s')
      | (Ok _, s') => deleteFacts facts' s'
      end
  end.

Fixpoint removedGateFacts (compiledKeys : gset string) (routes : list RouteDecl) (s : S) : option (ApplyError + list Fact) :=
  match routes with
  | [] => Some (inr [])
  | routeDecl :: routes' =>
      scanned ← store_Scan (KeyDesiredRoute (utf8 (Route_Name routeDecl)) +:+ "/") s;
      match scanned with
      | Err scanError => Some (inl (NotScanned (Route_Name routeDecl) scanError))
      | Ok storedFacts =>
          rest ← removedGateFacts compiledKeys routes' s;
          Some (match rest with
                | inl err => inl err
                | inr removed => inr (filter (λ f, Key f ∉ compiledKeys) storedFacts ++ removed)
                end)
      end
  end.

Definition collectRemovedGateFacts (file : File) (compiledFacts : list CompiledFact) (s : S) : option (ApplyError + list Fact) :=
  removedGateFacts (list_to_set (FactKey <$> compiledFacts)) (File_Routes file) s.

Definition ApplyWithBaseDir (input baseDir : text) (s : S) : option ((ApplyError + ()) * S) :=
  compiledFile ← parseAndCompile input (Some baseDir);
  match compiledFile with
  | inl err => Some (inl err, s)
  | inr (file, facts) =>
      written ← putFacts facts s;
      match written with
      | (inl err, s1) => Some (inl err, s1)
      | (inr _, s1) =>
          removed ← collectRemovedGateFacts file facts s1;
          match removed with
          | inl err => Some (inl err, s1)
          | inr removedFacts => deleteFacts removedFacts s1
          end
      end
  end.

Definition Apply (input : text) (s : S) : option ((ApplyError + ()) * S) := ApplyWithBaseDir input [] s.

Record FactChange := mkFactChange { ChangeKey : string; OldValue : string; NewValue : string; ChangeType : string }.

Definition diffFact (s : S) (f : CompiledFact) : FactChange :=
  match store_Get (FactKey f) s with
  | Err _ => mkFactChange (FactKey f) "" (FactValue f) "add"
  | Ok existing =>
      if negb (bool_decide (Value existing = FactValue f)) then mkFactChange (FactKey f) (Value existing) (FactValue f) "modify"
      else mkFactChange (FactKey f) "" (FactValue f) "unchanged"
  end.

Definition Diff (input : text) (s : S) : option (ApplyError + list FactChange) :=
  compiledFile ← parseAndCompile input None;
  match compiledFile with
  | inl err => Some (inl err)
  | inr (file, facts) =>
      removed ← collectRemovedGateFacts file facts s;
      Some (match removed with
            | inl err => inl err
            | inr removedFacts =>
                inr ((diffFact s <$> facts) ++ ((λ f, mkFactChange (Key f) (Value f) "" "delete") <$> removedFacts))
            end)
  end.

End stored.
End reading.
