(* ===== verification/CompilerProps.v ===== *)
(** * What compiling and applying a configuration file do

    Logic for the compiling functions ([yields]), the area of the key space the
    compiled facts lie in, the declarations that are accepted, and what [Apply] does
    to a store, against the interface [FactStore]; [Diff] predicts it. *)

From S2P Require Import Prelude GoStrings GoFmt Keys KeyNames Lexer Ast ParserCore Parser Formatter.
From S2P Require Import EventHistory MemoryStore StoreInvariant StoreProps StateStore LexerProps ParserProps Compiler.
Import MemStore.

Local Open Scope Z_scope.

Create HintDb compiled.

(** ** The facts a compiling function may return *)

Definition yields (P : CompiledFact → Prop) (m : compiled (list CompiledFact)) : Prop := ∀ facts, m = inr facts → Forall P facts.

Section yields.
Context (P : CompiledFact → Prop).

Lemma yields_ret facts : Forall P facts → yields P (mret facts).
Proof. intros Hf facts' E. by injection E as <-. Qed.

Lemma yields_error lines line format args : yields P (declarationError lines line format args).
Proof. intros facts E. discriminate E. Qed.

Lemma yields_inl err : yields P (inl err).
Proof. intros facts E. discriminate E. Qed.

Lemma yields_bind (m : compiled (list CompiledFact)) k : yields P m → (∀ facts, Forall P facts → yields P (k facts)) → yields P (m ≫= k).
Proof. intros Hm Hk facts E. destruct m as [err|facts']; [done|]. by apply (Hk facts' (Hm _ eq_refl)). Qed.

Lemma yields_bind_any {A} (m : compiled A) k : (∀ a, yields P (k a)) → yields P (m ≫= k).
Proof. intros Hk facts E. destruct m as [err|a]; [done|]. by apply (Hk a). Qed.

Lemma yields_each {A} (compileOne : A → compiled (list CompiledFact)) decls :
  (∀ d, d ∈ decls → yields P (compileOne d)) → yields P (compileEach compileOne decls).
Proof.
  induction decls as [|d decls IH]; intros Hd; simpl; [by apply yields_ret|].
  apply yields_bind; [apply Hd; left|]. intros facts Hf. apply yields_bind; [apply IH; intros; apply Hd; by right|].
  intros facts' Hf'. by apply yields_ret, Forall_app.
Qed.

Lemma yields_match {A} (o : option A) k m : (∀ a, yields P (k a)) → yields P m → yields P (match o with Some a => k a | None => m end).
Proof. destruct o; auto. Qed.

Lemma yields_if (b : bool) m1 m2 : yields P m1 → yields P m2 → yields P (if b then m1 else m2).
Proof. destruct b; auto. Qed.

Lemma forall_match {A} (o : option A) k facts : (∀ a, Forall P (k a)) → Forall P facts → Forall P (match o with Some a => k a | None => facts end).
Proof. destruct o; auto. Qed.

Lemma forall_if (b : bool) facts facts' : Forall P facts → Forall P facts' → Forall P (if b then facts else facts').
Proof. destruct b; auto. Qed.

Lemma forall_map {A} (f : A → CompiledFact) l : (∀ a, P (f a)) → Forall P (f <$> l).
Proof. intros. by apply Forall_fmap, Forall_true. Qed.

Lemma forall_bind {A} (f : A → list CompiledFact) l : (∀ a, Forall P (f a)) → Forall P (l ≫= f).
Proof. intros. induction l; simpl; [done|]. by apply Forall_app. Qed.

Lemma forall_set key v : P (mkCompiledFact key (utf8 v)) → Forall P (whenSet key v).
Proof. unfold whenSet. case_bool_decide; auto. Qed.

Lemma forall_positive key n : P (mkCompiledFact key (Itoa n)) → Forall P (whenPositive key n).
Proof. unfold whenPositive. destruct (0 <? n); auto. Qed.

Lemma forall_flag key b : P (mkCompiledFact key "true") → Forall P (whenFlag key b).
Proof. unfold whenFlag. destruct b; auto. Qed.

End yields.

(** Membership of what [Apply] may write: the operators' part of the key space. *)
Definition declaredKey (key : string) : bool :=
  HasPrefix key "desired/" || HasPrefix key "auth/" || HasPrefix key "policy/network/" || HasPrefix key "derived/service/".

Definition declared (f : CompiledFact) : Prop := declaredKey (FactKey f) = true.

Lemma networkRule_declared name value : declared (mkCompiledFact (KeyNetworkPolicyRule name) value).
Proof. unfold declared, declaredKey. simpl. unfold KeyNetworkPolicyRule. by rewrite HasPrefix_app. Qed.

Lemma qosClass_declared name value : declared (mkCompiledFact (KeyDerivedServiceQoSClass name) value).
Proof.
  unfold declared, declaredKey. apply orb_true_iff. right.
  exact (HasPrefix_app "derived/service/" (name +:+ "/qos_class")).
Qed.

Ltac fact_area :=
  repeat first
    [ assumption | reflexivity | apply networkRule_declared | apply qosClass_declared | apply Forall_nil_2 | apply Forall_app_2 | apply Forall_cons_2
    | apply forall_set | apply forall_positive | apply forall_flag
    | apply forall_map; intro | apply forall_bind; intro | apply forall_match; [intro|] | apply forall_if ].

Ltac compiled_area :=
  repeat first
    [ apply yields_error | apply yields_inl | apply yields_ret; solve [fact_area]
    | apply yields_each; intros ?? | apply yields_match; [intro|] | apply yields_if
    | apply yields_bind; [|intros ??] | apply yields_bind_any; intro | progress cbv beta zeta ].

Section areas.
Context `{Unicode} (ReadFile : string → string + string).

Lemma infrastructure_area file lines : yields declared (compileInfrastructureDeclarations ReadFile file lines).
Proof.
  unfold compileInfrastructureDeclarations, compileTenantDeclaration, compileVolumeDeclaration, compileCloudIdentityDeclaration,
    compileCredentialBrokerDeclaration, compileCloudDeclaration, compileConnectionDeclaration, compileRouteDeclaration, compileRouteTLS,
    compileTLSFacts, compileStickyFacts, buildCloudIdentityFactsFromDeclaration.
  compiled_area.
Qed.

Lemma jobs_area file lines :
  yields declared (compileEach (λ d, compileJobDeclaration d lines) (File_Jobs file)) ∧
  yields declared (compileEach (λ d, compileCronJobDeclaration d lines) (File_CronJobs file)).
Proof. unfold compileJobDeclaration, compileCronJobDeclaration. split; compiled_area. Qed.

Lemma accessControl_area file lines : yields declared (compileAccessControlDeclarations file lines).
Proof.
  unfold compileAccessControlDeclarations, compileRoleDeclaration, compileGrantDeclaration, compileGroupDeclaration,
    compileServiceGroupDeclaration, compilePolicyDeclaration, compileNetworkDeclaration.
  compiled_area.
Qed.

(** What a service adds outside that area: the counts and settings the controllers
    read as effective. *)
Definition effectiveFacts (d : ServiceDecl) : list CompiledFact :=
  let name := utf8 (Service_Name d) in
  mkCompiledFact (KeyIntentUserServiceInstances name) (Itoa (Service_Instances d)) ::
  (if isPerNode d then [] else [mkCompiledFact (KeyEffectiveServiceInstances name) (Itoa (Service_Instances d))]) ++
  whenFlag (KeyEffectiveServiceStateful name) (Service_Stateful d) ++
  whenPositive (KeyEffectiveServicePriority name) (Service_Priority d).

Lemma servicePorts_area name ports external line lines : yields declared (compileServicePortsFacts name ports external line lines).
Proof. unfold compileServicePortsFacts. compiled_area. Qed.

Lemma serviceScale_area name scale line lines : yields declared (compileServiceScaleFacts name scale line lines).
Proof.
  unfold compileServiceScaleFacts, compileServiceHorizontalScaleFacts, compileServiceVerticalScaleFacts, compileScheduleFacts. compiled_area.
Qed.

Lemma serviceConfig_area name config baseDir : yields declared (compileServiceConfigFacts ReadFile name config baseDir).
Proof. unfold compileServiceConfigFacts, compileConfigFile. compiled_area. Qed.

Lemma serviceParts_area name d :
  Forall declared (compileServiceResourceFacts name (Service_Resources d) ++ compileServiceVolumeMountFacts name (Service_VolumeMounts d)) ∧
  Forall declared (compileServicePlacementFacts name (Service_Placement d) ++ compileServiceUpdateFacts name (Service_Update d)) ∧
  Forall declared (compileServiceHealthProbeFacts name (Service_Health d) (Service_Startup d) (Service_Liveness d) (Service_Readiness d)).
Proof.
  unfold compileServiceResourceFacts, compileServiceVolumeMountFacts, compileServicePlacementFacts, compileServiceUpdateFacts,
    compileServiceHealthProbeFacts, compileProbeDeclaration.
  split_and!; fact_area.
Qed.

Lemma serviceLastParts_area name d connections :
  Forall declared (compileServiceSecretFacts name (Service_Secrets d) ++
    compileServiceConnectionRefFacts name (Service_Connections d) connections (Service_Secrets d) ++
    compileServiceCloudIdentityFacts name (Service_CloudIdentities d) ++ compileServiceInitStepFacts name (Service_InitSteps d) ++
    compileServiceDisruptionFacts name (Service_Disruption d) ++ compileServiceTagFacts name (Service_Tags d) ++
    compileServiceLoggingFacts name (Service_Logging d) ++ compileServiceLifecycleFacts name (Service_Lifecycle d)).
Proof.
  unfold compileServiceSecretFacts, compileServiceConnectionRefFacts, compileServiceCloudIdentityFacts, compileServiceInitStepFacts,
    compileInitStep, compileServiceDisruptionFacts, compileServiceTagFacts, compileServiceLoggingFacts, compileServiceLifecycleFacts.
  fact_area. destruct (negb _); reflexivity.
Qed.

Lemma service_area d lines baseDir connections :
  yields (λ f, declared f ∨ f ∈ effectiveFacts d) (compileServiceDeclaration ReadFile d lines baseDir connections).
Proof.
  assert (Hor : ∀ facts, Forall declared facts → Forall (λ f, declared f ∨ f ∈ effectiveFacts d) facts)
    by (intros facts Hf; eapply Forall_impl; eauto).
  assert (Hown : ∀ facts, facts ⊆ effectiveFacts d → Forall (λ f, declared f ∨ f ∈ effectiveFacts d) facts)
    by (intros facts Hf; apply Forall_forall; auto).
  assert (Hany : ∀ m, yields declared m → yields (λ f, declared f ∨ f ∈ effectiveFacts d) m)
    by (intros m Hm facts E; by apply Hor, Hm).
  destruct (serviceParts_area (utf8 (Service_Name d)) d) as ([H1 H2]%Forall_app & [H3 H4]%Forall_app & H5).
  pose proof (serviceLastParts_area (utf8 (Service_Name d)) d connections) as Hlast. rewrite !Forall_app in Hlast.
  destruct_and! Hlast. unfold compileServiceDeclaration. do 3 (apply yields_if; [apply yields_error|]).
  apply yields_bind; [apply Hany, servicePorts_area|]. intros portFacts Hports.
  apply yields_bind; [apply Hany, serviceScale_area|]. intros scaleFacts Hscale.
  apply yields_bind; [apply Hany, serviceConfig_area|]. intros configFacts Hconfig.
  apply yields_ret. rewrite !Forall_app. split_and!; try assumption; try (by apply Hor); try (apply Hor; by fact_area).
  - repeat first [apply Forall_nil_2|apply Forall_cons_2]; try (left; reflexivity). right. left.
  - apply Hown. unfold effectiveFacts. set_solver.
  - apply Hown. unfold effectiveFacts. set_solver.
  - apply Hown. unfold effectiveFacts. set_solver.
Qed.

(** Every compiled fact lies in the operators' area or is an effective setting of a
    declared service. *)
Lemma compile_area file lines facts : CompileWithSource ReadFile file lines = inr facts →
  ∀ f, f ∈ facts → declared f ∨ ∃ d, d ∈ File_Services file ∧ f ∈ effectiveFacts d.
Proof.
  intros E. apply Forall_forall. revert facts E.
  change (yields (λ f, declared f ∨ ∃ d, d ∈ File_Services file ∧ f ∈ effectiveFacts d)
    (CompileWithSource ReadFile file lines)).
  assert (Hany : ∀ m, yields declared m → yields (λ f, declared f ∨ ∃ d, d ∈ File_Services file ∧ f ∈ effectiveFacts d) m)
    by (intros m Hm facts E; eapply Forall_impl; [by apply Hm|]; auto).
  unfold CompileWithSource. destruct (jobs_area file lines).
  apply yields_bind; [apply Hany, infrastructure_area|]. intros ??. apply yields_bind.
  { apply yields_each. intros d Hd fs E. eapply Forall_impl; [by eapply service_area|]. simpl. naive_solver. }
  intros ??. do 2 (apply yields_bind; [by apply Hany|]; intros ??).
  apply yields_bind; [apply Hany, accessControl_area|]. intros ??. apply yields_ret. by rewrite !Forall_app.
Qed.

End areas.

(** ** The declarations that are accepted *)

Definition accepts {A} (m : compiled A) : Prop := ∃ a, m = inr a.

Lemma accepts_ret {A} (a : A) : accepts (mret a) ↔ True.
Proof. split; [done|]. by exists a. Qed.

Lemma accepts_error {A} lines line format args : accepts (declarationError (A:=A) lines line format args) ↔ False.
Proof. split; [intros [? E]; discriminate E|done]. Qed.

Lemma accepts_inl {A} err : accepts (A:=A) (inl err) ↔ False.
Proof. split; [intros [? E]; discriminate E|done]. Qed.

Lemma accepts_bind {A B} (m : compiled A) (k : A → compiled B) : accepts (m ≫= k) ↔ ∃ a, m = inr a ∧ accepts (k a).
Proof. destruct m as [err|a]; simpl; [|naive_solver]. split; [intros [? E]; discriminate E|naive_solver]. Qed.

Lemma accepts_then {A B} (m : compiled A) (k : A → compiled B) Q : (∀ a, accepts (k a) ↔ Q) → accepts (m ≫= k) ↔ accepts m ∧ Q.
Proof. intros Hk. rewrite accepts_bind. setoid_rewrite Hk. unfold accepts. naive_solver. Qed.

Lemma accepts_when {A} (b : bool) lines line format args (m : compiled A) :
  accepts (if b then declarationError lines line format args else m) ↔ b = false ∧ accepts m.
Proof. destruct b; rewrite ?accepts_error; naive_solver. Qed.

Lemma accepts_map {A B} (m : compiled A) (f : A → B) : accepts (a ← m; mret (f a)) ↔ accepts m.
Proof. rewrite (accepts_then _ _ True); [naive_solver|]. intros. apply accepts_ret. Qed.

Lemma accepts_each {A} (compileOne : A → compiled (list CompiledFact)) decls :
  accepts (compileEach compileOne decls) ↔ Forall (λ d, accepts (compileOne d)) decls.
Proof.
  induction decls as [|d decls IH]; simpl; [rewrite accepts_ret, Forall_nil; naive_solver|].
  rewrite Forall_cons, <- IH. apply accepts_then. intros facts. by rewrite accepts_map.
Qed.

Lemma accepts_option {A} (k : A → compiled (list CompiledFact)) (o : option A) :
  accepts (match o with Some a => k a | None => mret [] end) ↔ ∀ a, o = Some a → accepts (k a).
Proof. destruct o; [naive_solver|]. rewrite accepts_ret. naive_solver. Qed.

Lemma isEmpty_false v : isEmpty v = false ↔ v ≠ [].
Proof. unfold isEmpty. by rewrite bool_decide_eq_false. Qed.

Section accepted.
Context `{Unicode} (ReadFile : string → string + string).

Definition readable (baseDir : string) (path : text) : Prop := ∃ contents, ReadFile (resolvePath baseDir (utf8 path)) = inr contents.

Definition validScale (h : HorizontalScaleDecl) : Prop :=
  0 ≤ HorizontalScale_Min h ≤ HorizontalScale_Max h ∧
  Forall (λ t, 0 < ScaleTarget_Value t) (HorizontalScale_Targets h) ∧ Forall (λ e, 0 < EventScale_Target e) (HorizontalScale_Events h).

Record validService (baseDir : string) (d : ServiceDecl) : Prop := {
  service_named : Service_Name d ≠ [];
  service_image : Service_Image d ≠ [];
  service_instances : 0 ≤ Service_Instances d;
  service_ports : Forall (λ port, 1 ≤ port ≤ 65535) (Service_Ports d ++ (ExternalPort_Port <$> Service_ExternalPorts d));
  service_scale scale h : Service_Scale d = Some scale → Scale_Horizontal scale = Some h → validScale h;
  service_files config f : Service_Config d = Some config → f ∈ Config_ConfigFiles config → ConfigFile_FromFile f ≠ [] →
    readable baseDir (ConfigFile_FromFile f)
}.

Lemma inPortRange_spec port : negb (inPortRange port) = false ↔ 1 ≤ port ≤ 65535.
Proof. unfold inPortRange. rewrite negb_false_iff, andb_true_iff. lia. Qed.

Lemma ports_accepted name ports external line lines :
  accepts (compileServicePortsFacts name ports external line lines) ↔
  Forall (λ port, 1 ≤ port ≤ 65535) (ports ++ (ExternalPort_Port <$> external)).
Proof.
  unfold compileServicePortsFacts. cbv zeta. rewrite Forall_app, Forall_fmap. erewrite accepts_then; [|intros; apply accepts_map].
  rewrite !accepts_each. f_equiv; apply Forall_proper; try done; intros x; rewrite accepts_when, inPortRange_spec, accepts_ret; simpl; tauto.
Qed.

Lemma horizontal_accepted name h line lines : accepts (compileServiceHorizontalScaleFacts name h line lines) ↔ validScale h.
Proof.
  unfold compileServiceHorizontalScaleFacts, validScale. cbv zeta. rewrite !accepts_when, !Z.ltb_ge.
  erewrite accepts_then; [|intros; apply accepts_map]. rewrite !accepts_each.
  setoid_rewrite accepts_when. setoid_rewrite accepts_ret. setoid_rewrite Z.leb_gt. split.
  - intros (? & ? & Ht & He). split_and!; [lia..| |]; (eapply Forall_impl; [eassumption|]); simpl; tauto.
  - intros (? & Ht & He). split_and!; [lia..| |]; (eapply Forall_impl; [eassumption|]); simpl; tauto.
Qed.

Lemma scale_accepted name scaleDecl line lines :
  accepts (compileServiceScaleFacts name scaleDecl line lines) ↔
  ∀ scale h, scaleDecl = Some scale → Scale_Horizontal scale = Some h → validScale h.
Proof.
  unfold compileServiceScaleFacts. rewrite accepts_option. split.
  - intros Ha scale h E Eh. specialize (Ha scale E). rewrite accepts_map, accepts_option in Ha.
    by apply (horizontal_accepted name h line lines), Ha.
  - intros Ha scale E. rewrite accepts_map, accepts_option. intros h Eh. apply horizontal_accepted. eauto.
Qed.

Lemma config_accepted name configDecl baseDir :
  accepts (compileServiceConfigFacts ReadFile name configDecl baseDir) ↔
  ∀ config f, configDecl = Some config → f ∈ Config_ConfigFiles config → ConfigFile_FromFile f ≠ [] → readable baseDir (ConfigFile_FromFile f).
Proof.
  unfold compileServiceConfigFacts. rewrite accepts_option.
  assert (Hf : ∀ f, accepts (compileConfigFile ReadFile name baseDir f) ↔ (ConfigFile_FromFile f ≠ [] → readable baseDir (ConfigFile_FromFile f))).
  { intros f. unfold compileConfigFile, readable. rewrite accepts_map. destruct (isEmpty (ConfigFile_FromFile f)) eqn:Ee.
    - unfold isEmpty in Ee. apply bool_decide_eq_true in Ee. rewrite accepts_ret. tauto.
    - apply isEmpty_false in Ee. destruct (ReadFile _); rewrite ?accepts_inl, ?accepts_ret; naive_solver. }
  setoid_rewrite accepts_map. setoid_rewrite accepts_each. setoid_rewrite Forall_forall. setoid_rewrite Hf. naive_solver.
Qed.

Lemma service_accepted d lines baseDir connections :
  accepts (compileServiceDeclaration ReadFile d lines baseDir connections) ↔ validService baseDir d.
Proof.
  unfold compileServiceDeclaration. cbv zeta. rewrite !accepts_when, !isEmpty_false, Z.ltb_ge.
  erewrite accepts_then; [|intros; apply accepts_then; intros; apply accepts_map].
  rewrite ports_accepted, scale_accepted, config_accepted. split; [|intros []; tauto]. intros (?&?&?&?&?&?). by constructor.
Qed.

Definition validCloudIdentity (d : CloudIdentityDecl) : Prop :=
  CloudIdentity_Name d ≠ [] ∧
  (CloudIdentity_Provider d = runes "aws" ∧ CloudIdentity_Role d ≠ [] ∨
   CloudIdentity_Provider d = runes "gcp" ∧ CloudIdentity_ServiceAccount d ≠ [] ∧ CloudIdentity_Pool d ≠ [] ∨
   CloudIdentity_Provider d = runes "azure" ∧ CloudIdentity_ClientID d ≠ [] ∧ CloudIdentity_TenantID d ≠ []).

(** A gate with a certificate of its own needs both files, and the certificate's
    contents. *)
Definition validGate (baseDir : string) (d : RouteDecl) : Prop :=
  Route_Name d ≠ [] ∧ Route_ServiceName d ≠ [] ∧
  ∀ tls, Route_TLS d = Some tls → RouteTLS_Mode tls = RouteTLSModeManual → RouteTLS_CertPEM tls = [] →
    (∃ cert, ReadFile (resolvePath baseDir (utf8 (RouteTLS_CertFile tls))) = inr cert ∧ cert ≠ "") ∧ readable baseDir (RouteTLS_KeyFile tls).

Definition validCloud (d : CloudDecl) : Prop :=
  Cloud_Provider d = runes "aws" ∨ Cloud_Provider d = runes "gcp" ∨ Cloud_Provider d = runes "azure".

Definition validInfrastructure (file : File) : Prop :=
  Forall (λ d, Tenant_Name d ≠ []) (File_Tenants file) ∧
  Forall (λ d, Volume_Name d ≠ []) (File_Volumes file) ∧
  Forall validCloudIdentity (File_CloudIdentities file) ∧
  Forall (λ d, CredentialBroker_OIDCIssuer d ≠ []) (option_list (File_CredentialBroker file)) ∧
  Forall validCloud (option_list (File_Cloud file)) ∧
  Forall (λ d, Connection_Name d ≠ []) (File_Connections file) ∧
  Forall (validGate (utf8 (File_BaseDir file))) (File_Routes file).

Definition validAccessControl (file : File) : Prop :=
  Forall (λ d, Role_Name d ≠ [] ∧ Role_Capabilities d ≠ []) (File_Roles file) ∧
  Forall (λ d, Grant_RoleName d ≠ [] ∧ Grant_PrincipalKind d ≠ [] ∧ Grant_PrincipalName d ≠ []) (File_Grants file) ∧
  Forall (λ d, Group_Name d ≠ []) (File_Groups file) ∧
  Forall (λ d, ServiceGroup_Name d ≠ [] ∧ ServiceGroup_Processes d ≠ []) (File_ServiceGroups file) ∧
  Forall (λ d, Policy_Name d ≠ [] ∧ Policy_Capability d ≠ []) (File_Policies file) ∧
  Forall (λ d, Forall (λ r, NetworkRule_Source r ≠ [] ∧ NetworkRule_Target r ≠ []) (Network_Rules d)) (File_Networks file).

Definition validFile (file : File) : Prop :=
  validInfrastructure file ∧
  Forall (validService (utf8 (File_BaseDir file))) (File_Services file) ∧
  Forall (λ d, Job_Name d ≠ [] ∧ Job_Image d ≠ []) (File_Jobs file) ∧
  Forall (λ d, CronJob_Name d ≠ [] ∧ CronJob_Image d ≠ [] ∧ CronJob_Schedule d ≠ []) (File_CronJobs file) ∧
  validAccessControl file.

Lemma cloudIdentity_accepted d lines : accepts (compileCloudIdentityDeclaration d lines) ↔ validCloudIdentity d.
Proof.
  assert (Hreq : ∀ v format args, accepts (if isEmpty v then declarationError (A:=()) lines (CloudIdentity_Line d) format args else mret ()) ↔ v ≠ [])
    by (intros; rewrite accepts_when, isEmpty_false, accepts_ret; tauto).
  unfold compileCloudIdentityDeclaration, validateCloudIdentityRequiredFields, validCloudIdentity. rewrite accepts_map. cbv zeta.
  rewrite !accepts_when, !isEmpty_false. unfold switch, isWord. f_equiv. set (p := CloudIdentity_Provider d).
  destruct (decide (p = runes "aws")) as [->|H1]; [rewrite bool_decide_eq_true_2, Hreq by done; naive_solver|].
  rewrite bool_decide_eq_false_2 by done. destruct (decide (p = runes "gcp")) as [->|H2].
  { rewrite bool_decide_eq_true_2 by done. erewrite accepts_then by (intros; apply Hreq). rewrite Hreq. naive_solver. }
  rewrite bool_decide_eq_false_2 by done. destruct (decide (p = runes "azure")) as [->|H3].
  { rewrite bool_decide_eq_true_2 by done. erewrite accepts_then by (intros; apply Hreq). rewrite Hreq. naive_solver. }
  rewrite bool_decide_eq_false_2, accepts_error by done. naive_solver.
Qed.

Lemma utf8_empty v : utf8 v = "" → v = [].
Proof.
  destruct v as [|c v]; [done|]. change (c :: v) with ([c] ++ v). rewrite utf8_app. unfold utf8, encodeRune. simpl.
  repeat match goal with |- context [if ?b then _ else _] => destruct b end; done.
Qed.

Lemma gateTLS_accepted d tls baseDir lines :
  accepts (compileRouteTLS ReadFile d tls baseDir lines) ↔
  (RouteTLS_Mode tls = RouteTLSModeManual → RouteTLS_CertPEM tls = [] →
    (∃ cert, ReadFile (resolvePath baseDir (utf8 (RouteTLS_CertFile tls))) = inr cert ∧ cert ≠ "") ∧ readable baseDir (RouteTLS_KeyFile tls)).
Proof.
  unfold compileRouteTLS, compileTLSFacts, readGateFile, readable, isEmpty. cbv zeta.
  destruct (decide (RouteTLS_Mode tls = RouteTLSModeManual)) as [E|E]; cycle 1.
  { rewrite bool_decide_eq_false_2 by done. simpl. rewrite accepts_ret. tauto. }
  rewrite bool_decide_eq_true_2 by done. destruct (decide (RouteTLS_CertPEM tls = [])) as [Ec|Ec]; cycle 1.
  { rewrite bool_decide_eq_false_2 by done. simpl. rewrite accepts_when, accepts_ret, bool_decide_eq_false.
    pose proof (utf8_empty (RouteTLS_CertPEM tls)). tauto. }
  rewrite (bool_decide_eq_true_2 (RouteTLS_CertPEM tls = [])) by done. simpl.
  destruct (ReadFile (resolvePath baseDir (utf8 (RouteTLS_CertFile tls)))) as [e|cert]; simpl; [rewrite accepts_inl; naive_solver|].
  destruct (ReadFile (resolvePath baseDir (utf8 (RouteTLS_KeyFile tls)))) as [e|key]; simpl; [rewrite accepts_inl; naive_solver|].
  rewrite accepts_when, accepts_ret, bool_decide_eq_false. naive_solver.
Qed.

Lemma gate_accepted d baseDir lines : accepts (compileRouteDeclaration ReadFile d baseDir lines) ↔ validGate baseDir d.
Proof.
  unfold compileRouteDeclaration, validGate. cbv zeta. rewrite !accepts_when, !isEmpty_false, accepts_map.
  rewrite accepts_option. setoid_rewrite gateTLS_accepted. done.
Qed.

Lemma accepts_filtered {A} (compileOne : A → compiled (list CompiledFact)) P decls :
  (∀ d, accepts (compileOne d) ↔ P d) → accepts (compileEach compileOne decls) ↔ Forall P decls.
Proof. intros HP. rewrite accepts_each. by setoid_rewrite HP. Qed.

Ltac accepted := intros; cbv beta zeta; rewrite ?accepts_when, ?isEmpty_false, ?bool_decide_eq_false, ?accepts_ret; tauto.

Lemma accepts_seq {A B} (m : compiled A) (k : A → compiled B) P Q :
  (accepts m ↔ P) → (∀ a, accepts (k a) ↔ Q) → accepts (m ≫= k) ↔ P ∧ Q.
Proof. intros HP HQ. by rewrite (accepts_then _ _ Q), HP. Qed.

Lemma cloud_accepted d lines : accepts (compileCloudDeclaration d lines) ↔ validCloud d.
Proof.
  unfold compileCloudDeclaration, validCloud, isWord. rewrite !accepts_when, accepts_ret, isEmpty_false, negb_false_iff, !orb_true_iff, !bool_decide_eq_true.
  split; [tauto|]. intros [E|[E|E]]; rewrite E; (split; [done|tauto]).
Qed.

Lemma infrastructure_accepted file lines : accepts (compileInfrastructureDeclarations ReadFile file lines) ↔ validInfrastructure file.
Proof.
  do 2 (apply accepts_seq; [apply accepts_filtered; unfold compileTenantDeclaration, compileVolumeDeclaration; accepted|intros ?]).
  apply accepts_seq; [apply accepts_filtered; intros; apply cloudIdentity_accepted|intros ?].
  apply accepts_seq; [apply accepts_filtered; unfold compileCredentialBrokerDeclaration; accepted|intros ?].
  apply accepts_seq; [apply accepts_filtered; intros; apply cloud_accepted|intros ?].
  apply accepts_seq; [apply accepts_filtered; unfold compileConnectionDeclaration; accepted|intros ?].
  rewrite accepts_map. apply accepts_filtered. intros. apply gate_accepted.
Qed.

Lemma networkRules_accepted d lines :
  accepts (compileNetworkDeclaration d lines) ↔ Forall (λ r, NetworkRule_Source r ≠ [] ∧ NetworkRule_Target r ≠ []) (Network_Rules d).
Proof.
  unfold compileNetworkDeclaration. etrans.
  - apply (accepts_filtered _ (λ ix, NetworkRule_Source ix.2 ≠ [] ∧ NetworkRule_Target ix.2 ≠ [])). intros [i r]. cbv zeta.
    rewrite accepts_when, accepts_ret, orb_false_iff, !isEmpty_false. tauto.
  - unfold indexed. rewrite <- (Forall_fmap snd (λ r, NetworkRule_Source r ≠ [] ∧ NetworkRule_Target r ≠ [])).
    by rewrite snd_zip by (by rewrite length_fmap, length_seq).
Qed.

Lemma accessControl_accepted file lines : accepts (compileAccessControlDeclarations file lines) ↔ validAccessControl file.
Proof.
  unfold compileAccessControlDeclarations, compileRoleDeclaration, compileGrantDeclaration, compileGroupDeclaration,
    compileServiceGroupDeclaration, compilePolicyDeclaration.
  do 5 (apply accepts_seq; [apply accepts_filtered; accepted|intros ?]).
  rewrite accepts_map. apply accepts_filtered. intros. apply networkRules_accepted.
Qed.

(** A file compiles exactly when its declarations are valid: required names, images,
    issuers and roles are there, ports and scale bounds are in range, the providers are
    known, and the files it refers to can be read. *)
Theorem Compile_accepts_exactly_valid file lines : (∃ facts, CompileWithSource ReadFile file lines = inr facts) ↔ validFile file.
Proof.
  change (accepts (CompileWithSource ReadFile file lines) ↔ validFile file).
  apply accepts_seq; [apply infrastructure_accepted|intros ?]. cbv zeta.
  apply accepts_seq; [apply accepts_filtered; intros; apply service_accepted|intros ?].
  do 2 (apply accepts_seq; [apply accepts_filtered; unfold compileJobDeclaration, compileCronJobDeclaration; accepted|intros ?]).
  rewrite accepts_map. apply accessControl_accepted.
Qed.

End accepted.

(** ** What [Apply] does to a store *)

Section applied.
Context `{Unicode} (ReadFile : string → string + string) {S : Type} `{FactStore S}.

(** The facts written in order. *)
Definition written (facts : list CompiledFact) (m : gmap string string) : gmap string string :=
  foldl (λ m f, <[FactKey f := FactValue f]> m) m facts.

Definition removed (keys : list string) (m : gmap string string) : gmap string string := foldl (λ m k, delete k m) m keys.

Lemma putFacts_exact facts : ∀ s, usable s →
  ∃ s', putFacts facts s = Some (inr (), s') ∧ usable s' ∧ evolves s s' ∧ valuesOf s' = written facts (valuesOf s) ∧
    ∀ k, k ∉ FactKey <$> facts → content s' !! k = content s !! k.
Proof.
  intros s Hs. destruct (putAll_exact ((λ f, (FactKey f, FactValue f)) <$> facts) s Hs) as (s' & E & Hs' & He & Ev & Hk). exists s'.
  unfold putFacts. rewrite E. simpl. split_and!; [done..| |].
  - rewrite Ev. apply foldl_fmap.
  - intros k Hkf. apply Hk. by rewrite <- list_fmap_compose.
Qed.

Lemma deleteFacts_exact facts : ∀ s, usable s → NoDup (Key <$> facts) → (∀ f, f ∈ facts → is_Some (content s !! Key f)) →
  ∃ s', deleteFacts facts s = Some (inr (), s') ∧ usable s' ∧ valuesOf s' = removed (Key <$> facts) (valuesOf s).
Proof.
  induction facts as [|f facts IH]; intros s Hs Hnd Hin; simpl; [by exists s|].
  rewrite fmap_cons, NoDup_cons in Hnd. destruct Hnd as [Hf Hnd]. pose proof (delete_exact s (Key f) Hs) as Hd.
  destruct (Hin f (list_elem_of_here _ _)) as [f0 E0]. rewrite E0 in Hd. destruct Hd as (s1 & -> & Hs1 & _ & Ec). simpl.
  destruct (IH s1 Hs1 Hnd) as (s' & -> & Hs' & Ev).
  { intros g Hg. rewrite Ec, lookup_delete_ne; [apply Hin; by right|]. intros Eg. apply Hf. rewrite Eg. by apply list_elem_of_fmap_2. }
  exists s'. split_and!; [done..|]. rewrite Ev. unfold valuesOf. by rewrite Ec, fmap_delete.
Qed.

(** A fact that is to be removed: stored below a declared gate and not compiled. *)
Definition staleGateFact (routes : list RouteDecl) (keys : list string) (s : S) (f : Fact) : Prop :=
  content s !! Key f = Some f ∧ (Key f ∉ keys) ∧
  ∃ d, d ∈ routes ∧ HasPrefix (Key f) (KeyDesiredRoute (utf8 (Route_Name d)) +:+ "/") = true.

Lemma keyLess_filter_unique (P : Fact → Prop) `{∀ f, Decision (P f)} l1 l2 :
  StronglySorted keyLess l1 → StronglySorted keyLess l2 → (∀ f, P f → f ∈ l1 ↔ f ∈ l2) → filter P l1 = filter P l2.
Proof.
  assert (Hsort : ∀ l, StronglySorted keyLess l → StronglySorted keyLess (filter P l)).
  { induction 1 as [|f l Hl IH Hf]; [constructor|]. rewrite filter_cons. case_decide; [|done]. constructor; [done|].
    apply Forall_forall. intros g [_ Hg]%list_elem_of_filter. rewrite Forall_forall in Hf. by apply Hf. }
  assert (Hnd : ∀ l, StronglySorted keyLess l → NoDup l).
  { induction 1 as [|f l Hl IH Hf]; constructor; [|done]. intros Hin. rewrite Forall_forall in Hf. pose proof (Hf f Hin) as Hlt.
    unfold keyLess, str_lt in Hlt. by rewrite str_ltb_irrefl in Hlt. }
  intros Hl1 Hl2 Hmem. apply (StronglySorted_unique_strong keyLess); [|by apply Hsort..|].
  - intros x y _ _ Hxy Hyx. unfold keyLess, str_lt in *. apply str_ltb_asym in Hxy. congruence.
  - apply NoDup_Permutation; [by apply NoDup_filter, Hnd..|]. intros f. rewrite !list_elem_of_filter. naive_solver.
Qed.

Lemma removedGateFacts_exact routes facts s : usable s →
  ∃ l, removedGateFacts (list_to_set (FactKey <$> facts)) routes s = Some (inr l) ∧
    ∀ f, f ∈ l ↔ staleGateFact routes (FactKey <$> facts) s f.
Proof.
  intros Hs. induction routes as [|d routes (l & E & Hl)]; simpl.
  { exists []. split; [done|]. unfold staleGateFact. set_solver. }
  destruct (scan_only s (KeyDesiredRoute (utf8 (Route_Name d)) +:+ "/") Hs) as (l1 & -> & _ & Hl1). simpl. rewrite E. simpl.
  eexists. split; [done|]. intros f. rewrite elem_of_app, list_elem_of_filter, Hl1, Hl, elem_of_list_to_set. unfold staleGateFact.
  assert (Hne : HasPrefix (Key f) (KeyDesiredRoute (utf8 (Route_Name d)) +:+ "/") = true → Key f ≠ "") by (by destruct (Key f)).
  setoid_rewrite elem_of_cons. naive_solver.
Qed.

(** Which facts are stale does not depend on what else is stored. *)
Lemma removedGateFacts_same routes facts s s' : usable s → usable s' →
  (∀ k, k ∉ FactKey <$> facts → content s' !! k = content s !! k) →
  removedGateFacts (list_to_set (FactKey <$> facts)) routes s' = removedGateFacts (list_to_set (FactKey <$> facts)) routes s.
Proof.
  intros Hs Hs' Hk. induction routes as [|d routes IH]; simpl; [done|]. rewrite IH.
  destruct (scan_only s (KeyDesiredRoute (utf8 (Route_Name d)) +:+ "/") Hs) as (l1 & -> & Hsort1 & Hl1).
  destruct (scan_only s' (KeyDesiredRoute (utf8 (Route_Name d)) +:+ "/") Hs') as (l2 & -> & Hsort2 & Hl2). simpl.
  rewrite (keyLess_filter_unique (λ f, Key f ∉ list_to_set (C:=gset string) (FactKey <$> facts)) l2 l1); [done..|].
  intros f Hf. rewrite elem_of_list_to_set in Hf. by rewrite Hl1, Hl2, Hk.
Qed.

(** *** Deletion, whatever its result *)

Lemma deleteFacts_total facts : ∀ s, usable s →
  ∃ r s', deleteFacts facts s = Some (r, s') ∧ usable s' ∧ (∀ k, k ∉ Key <$> facts → content s' !! k = content s !! k) ∧
    (r = inr () → valuesOf s' = removed (Key <$> facts) (valuesOf s)).
Proof.
  induction facts as [|f facts IH]; intros s Hs; simpl; [by eexists _, s|].
  pose proof (delete_exact s (Key f) Hs) as Hd. destruct (content s !! Key f) as [f0|] eqn:E0.
  - destruct Hd as (s1 & -> & Hs1 & _ & Ec). simpl. destruct (IH s1 Hs1) as (r & s' & -> & Hs' & Hk & Hr). exists r, s'. split_and!; [done..| |].
    + intros k Hkf. rewrite not_elem_of_cons in Hkf. rewrite Hk, Ec, lookup_delete_ne; naive_solver.
    + intros Er. rewrite (Hr Er). unfold valuesOf. by rewrite Ec, fmap_delete.
  - rewrite Hd. simpl. by eexists _, s.
Qed.

Lemma removed_lookup keys : ∀ m k, removed keys m !! k = if bool_decide (k ∈ keys) then None else m !! k.
Proof.
  induction keys as [|k0 keys IH]; intros m k; simpl; [done|]. unfold removed in *. simpl. rewrite IH.
  destruct (decide (k ∈ keys)) as [Hin|Hin].
  - rewrite !bool_decide_eq_true_2; [done|by right|done].
  - rewrite bool_decide_eq_false_2 by done. destruct (decide (k = k0)) as [->|Hne].
    + rewrite bool_decide_eq_true_2, lookup_delete_eq; [done|left].
    + rewrite bool_decide_eq_false_2, lookup_delete_ne; [done|done|]. rewrite not_elem_of_cons. tauto.
Qed.

Lemma written_other facts : ∀ m k, k ∉ FactKey <$> facts → written facts m !! k = m !! k.
Proof.
  unfold written. induction facts as [|f facts IH]; intros m k Hk; simpl; [done|]. rewrite fmap_cons, not_elem_of_cons in Hk.
  rewrite IH, lookup_insert_ne; naive_solver.
Qed.

Lemma written_present facts : ∀ m k, k ∈ FactKey <$> facts ∨ is_Some (m !! k) → is_Some (written facts m !! k).
Proof.
  unfold written. induction facts as [|f facts IH]; intros m k Hk; simpl; [by destruct Hk as [?%elem_of_nil|]|]. apply IH.
  destruct (decide (FactKey f = k)) as [<-|Hne]; [right; rewrite lookup_insert_eq; by eexists|]. rewrite lookup_insert_ne by done.
  destruct Hk as [[|]%elem_of_cons|]; [congruence|by left|by right].
Qed.

(** No key is written with two values. *)
Definition consistent (facts : list CompiledFact) : Prop :=
  ∀ f g, f ∈ facts → g ∈ facts → FactKey f = FactKey g → FactValue f = FactValue g.

Lemma written_value k v facts : ∀ m, (∀ g, g ∈ facts → FactKey g = k → FactValue g = v) → m !! k = Some v ∨ k ∈ FactKey <$> facts →
  written facts m !! k = Some v.
Proof.
  unfold written. induction facts as [|g facts IH]; intros m Hv Hk; simpl; [by destruct Hk as [|?%elem_of_nil]|].
  apply IH; [intros; apply Hv; [by right|done]|]. destruct (decide (FactKey g = k)) as [E|E].
  - left. rewrite E, lookup_insert_eq, (Hv g); [done|left|done].
  - rewrite lookup_insert_ne by done. destruct Hk as [Hk|[|]%elem_of_cons]; [by left|congruence|by right].
Qed.

(** *** Parsing before compiling *)

Lemma parseAndCompile_total input baseDir : ∃ r, parseAndCompile ReadFile input baseDir = Some r.
Proof.
  unfold parseAndCompile. pose proof (ParseWithFileName_result input []) as Hp. change (Parse input) with (ParseWithFileName input []).
  destruct (ParseWithFileName input []); [by eexists|done].
Qed.

(** A parsed file has no base directory of its own. *)
Lemma parseAndCompile_base input : parseAndCompile ReadFile input (Some []) = parseAndCompile ReadFile input None.
Proof.
  unfold parseAndCompile. pose proof (ParseWithFileName_result input []) as Hp. change (Parse input) with (ParseWithFileName input []).
  destruct (ParseWithFileName input []) as [[err|f]|]; [done| |done]. simpl. pose proof (no_base_dir _ Hp) as Eb.
  assert (f <| File_BaseDir := [] |> = f) as ->; [|done]. destruct f. simpl in Eb. by subst.
Qed.

Lemma parseAndCompile_inr input baseDir file facts : parseAndCompile ReadFile input baseDir = Some (inr (file, facts)) →
  CompileWithSource ReadFile file (splitSourceLines input) = inr facts.
Proof.
  unfold parseAndCompile. destruct (Parse input) as [[err|f]|]; simpl; [done| |done]. destruct (CompileWithSource _ _ _) eqn:E; [done|].
  intros ?. by simplify_eq.
Qed.

(** The states [Apply] goes through: the facts are written, then the stale facts of the
    declared gates are deleted. *)
Lemma Apply_steps input s file facts : usable s → parseAndCompile ReadFile input None = Some (inr (file, facts)) →
  ∃ s1 l, usable s1 ∧ valuesOf s1 = written facts (valuesOf s) ∧ (∀ k, k ∉ FactKey <$> facts → content s1 !! k = content s !! k) ∧
    collectRemovedGateFacts file facts s = Some (inr l) ∧ (∀ f, f ∈ l ↔ staleGateFact (File_Routes file) (FactKey <$> facts) s f) ∧
    Apply ReadFile input s = deleteFacts l s1.
Proof.
  intros Hs Ec. unfold Apply, ApplyWithBaseDir. rewrite parseAndCompile_base, Ec. simpl.
  destruct (putFacts_exact facts s Hs) as (s1 & -> & Hs1 & _ & Ev & Hk). simpl.
  destruct (removedGateFacts_exact (File_Routes file) facts s Hs) as (l & El & Hl).
  exists s1, l. unfold collectRemovedGateFacts. rewrite (removedGateFacts_same _ _ s s1), El by done. simpl. split_and!; done.
Qed.

Lemma Apply_usable input s : usable s → ∃ r s', Apply ReadFile input s = Some (r, s') ∧ usable s'.
Proof.
  intros Hs. destruct (parseAndCompile_total input None) as [[err|[file facts]] Ec].
  { unfold Apply, ApplyWithBaseDir. rewrite parseAndCompile_base, Ec. by eexists _, s. }
  destruct (Apply_steps input s file facts Hs Ec) as (s1 & l & Hs1 & _ & _ & _ & _ & ->).
  destruct (deleteFacts_total l s1 Hs1) as (r & s' & -> & Hs' & _). eauto.
Qed.

(** *** The theorems *)

(** A change as a statement about the store it was computed from. *)
Definition describes (m : gmap string string) (c : FactChange) : Prop :=
  ChangeType c = "add" ∧ m !! ChangeKey c = None ∨
  ChangeType c = "modify" ∧ m !! ChangeKey c = Some (OldValue c) ∧ OldValue c ≠ NewValue c ∨
  ChangeType c = "unchanged" ∧ m !! ChangeKey c = Some (NewValue c) ∨
  ChangeType c = "delete" ∧ m !! ChangeKey c = Some (OldValue c).

(** A change as an action on the values. *)
Definition perform (m : gmap string string) (c : FactChange) : gmap string string :=
  if bool_decide (ChangeType c = "delete") then delete (ChangeKey c) m else <[ChangeKey c := NewValue c]> m.

Definition deletedKeys (changes : list FactChange) : list string :=
  ChangeKey <$> filter (λ c, ChangeType c = "delete") changes.

Lemma diffFact_describes s f : usable s → describes (valuesOf s) (diffFact s f) ∧
  ChangeKey (diffFact s f) = FactKey f ∧ NewValue (diffFact s f) = FactValue f ∧ ChangeType (diffFact s f) ≠ "delete".
Proof.
  intros Hs. unfold diffFact, describes, valuesOf. rewrite get_exact by done. rewrite !lookup_fmap.
  destruct (content s !! FactKey f) as [f0|] eqn:E; simpl.
  - case_bool_decide as Ev; simpl; rewrite E; simpl; [|naive_solver]. rewrite Ev. split_and!; [|done..]. by right; right; left.
  - rewrite E. split_and!; [by left|done..].
Qed.

Lemma diff_perform s facts : ∀ m, usable s → foldl perform m (diffFact s <$> facts) = written facts m.
Proof.
  induction facts as [|f facts IH]; intros m Hs; simpl; [done|]. destruct (diffFact_describes s f Hs) as (_ & Ek & Ev & Ht).
  unfold perform at 2. rewrite bool_decide_eq_false_2, Ek, Ev by done. by apply IH.
Qed.

Lemma delete_perform l : ∀ m, foldl perform m ((λ f, mkFactChange (Key f) (Value f) "" "delete") <$> l) = removed (Key <$> l) m.
Proof. induction l as [|f l IH]; intros m; simpl; [done|]. by rewrite IH. Qed.

Lemma diff_deletedKeys s facts l : usable s →
  deletedKeys ((diffFact s <$> facts) ++ ((λ f, mkFactChange (Key f) (Value f) "" "delete") <$> l)) = Key <$> l.
Proof.
  intros Hs. unfold deletedKeys. rewrite filter_app, fmap_app.
  replace (filter _ (diffFact s <$> facts)) with (@nil FactChange).
  - induction l as [|f l IH]; [done|]. rewrite fmap_cons, filter_cons_True by done. cbn. f_equal. exact IH.
  - symmetry. induction facts as [|f facts IH]; [done|]. simpl. rewrite filter_cons_False; [done|]. by apply (diffFact_describes s f Hs).
Qed.

(** C10: [Diff] tells what [Apply] will do: every change it lists states the store it was
    computed from, and when no key is listed twice for deletion, [Apply] succeeds and
    leaves exactly the values that result from performing the listed changes. *)
Theorem Diff_predicts_Apply input s changes : usable s → Diff ReadFile input s = Some (inr changes) →
  Forall (describes (valuesOf s)) changes ∧
  (NoDup (deletedKeys changes) →
   ∃ s', Apply ReadFile input s = Some (inr (), s') ∧ usable s' ∧ valuesOf s' = foldl perform (valuesOf s) changes).
Proof.
  intros Hs. unfold Diff. destruct (parseAndCompile ReadFile input None) as [[err|[file facts]]|] eqn:Ec; [done| |done]. simpl.
  destruct (Apply_steps input s file facts Hs Ec) as (s1 & l & Hs1 & Ev & Hk & -> & Hl & ->). intros E. simplify_eq/=. split.
  - apply Forall_app. split; apply Forall_fmap, Forall_forall; simpl; [intros; by apply diffFact_describes|].
    intros f (Ef & _)%Hl. right. right. right. unfold valuesOf. simpl. by rewrite lookup_fmap, Ef.
  - rewrite diff_deletedKeys by done. intros Hnd. destruct (deleteFacts_exact l s1 Hs1 Hnd) as (s' & E & Hs' & Ev').
    { intros f (Ef & Hn & _)%Hl. rewrite Hk by done. by exists f. }
    exists s'. split_and!; [done..|]. by rewrite Ev', foldl_app, diff_perform, delete_perform, Ev.
Qed.

(** Applying a file settles the store: after a successful [Apply] of a text that writes
    no key with two values, [Diff] of the same text reports every fact as unchanged
    and nothing to delete. *)
Theorem Apply_settles input s s' : usable s → Apply ReadFile input s = Some (inr (), s') →
  (∀ file facts, parseAndCompile ReadFile input None = Some (inr (file, facts)) → consistent facts) →
  ∃ changes, Diff ReadFile input s' = Some (inr changes) ∧ Forall (λ c, ChangeType c = "unchanged") changes.
Proof.
  intros Hs E Hc. destruct (parseAndCompile ReadFile input None) as [[err|[file facts]]|] eqn:Ec.
  1, 3: by rewrite <- parseAndCompile_base in Ec; unfold Apply, ApplyWithBaseDir in E; rewrite Ec in E.
  destruct (Apply_steps input s file facts Hs Ec) as (s1 & l & Hs1 & Ev & Hk & _ & Hl & Ea). rewrite E in Ea.
  destruct (deleteFacts_total l s1 Hs1) as (r & s2 & E2 & Hs2 & Hk2 & Hr). rewrite E2 in Ea. simplify_eq. specialize (Hr eq_refl).
  destruct (Apply_steps input s2 file facts Hs2 Ec) as (_ & l' & _ & _ & _ & El' & Hl' & _).
  assert (l' = []) as ->.
  { destruct l' as [|f l']; [done|]. destruct (proj1 (Hl' f) (list_elem_of_here _ _)) as (Ef & Hn & Hg).
    assert (Hin : Key f ∈ Key <$> l → valuesOf s2 !! Key f = None) by (intros; rewrite Hr, removed_lookup; by rewrite bool_decide_eq_true_2).
    destruct (decide (Key f ∈ Key <$> l)) as [Hi|Hi]; [apply Hin in Hi; unfold valuesOf in Hi; by rewrite lookup_fmap, Ef in Hi|].
    exfalso. apply Hi, list_elem_of_fmap_2, Hl. split_and!; [|done..]. by rewrite <- Hk, <- Hk2. }
  unfold Diff. rewrite Ec. simpl. rewrite El'. simpl. eexists. split; [done|]. rewrite app_nil_r.
  apply Forall_fmap, Forall_forall. intros f Hf. simpl.
  assert (Hv : valuesOf s2 !! FactKey f = Some (FactValue f)).
  { rewrite Hr, removed_lookup, bool_decide_eq_false_2, Ev.
    - apply written_value; [intros g Hg Egk; by apply (Hc file facts eq_refl)|right; by apply list_elem_of_fmap_2].
    - intros (g & Eg & (_ & Hg & _)%Hl)%list_elem_of_fmap. apply Hg. rewrite <- Eg. by apply list_elem_of_fmap_2. }
  unfold diffFact, valuesOf in *. rewrite get_exact by done. rewrite lookup_fmap in Hv. destruct (content s2 !! FactKey f); simplify_eq/=.
  rewrite bool_decide_eq_true_2; [done|]. by simplify_eq/=.
Qed.

(** The keys an operator's file may change. *)
Definition operatorsKey (key : string) : bool :=
  declaredKey key || HasPrefix key "intent/user/service/" || HasPrefix key "effective/service/".

Lemma effectiveFacts_key d f : f ∈ effectiveFacts d → operatorsKey (FactKey f) = true.
Proof.
  assert (He : ∀ key v, HasPrefix key "effective/service/" = true → operatorsKey (FactKey (mkCompiledFact key v)) = true)
    by (intros key v Hk; apply orb_true_iff; by right).
  revert f. apply Forall_forall. unfold effectiveFacts. apply Forall_cons_2.
  { apply orb_true_iff. left. apply orb_true_iff. right. exact (HasPrefix_app "intent/user/service/" _). }
  apply Forall_app_2; [apply forall_if; [done|apply Forall_cons_2; [|done]]|apply Forall_app_2; [apply forall_flag|apply forall_positive]].
  all: apply He; exact (HasPrefix_app "effective/service/" _).
Qed.

(** C33: Whatever its text, [Apply] returns, with success or an error, and changes only keys
    of the operators: [desired/], [auth/], [policy/network/], [derived/service/],
    [intent/user/service/] and [effective/service/]. What it removes lies below
    [desired/route/]. *)
Theorem Apply_confined input s : usable s →
  ∃ r s', Apply ReadFile input s = Some (r, s') ∧ usable s' ∧
    ∀ k, valuesOf s' !! k ≠ valuesOf s !! k →
      operatorsKey k = true ∧ (valuesOf s' !! k = None → HasPrefix k "desired/route/" = true).
Proof.
  intros Hs. destruct (parseAndCompile_total input None) as [[err|[file facts]] Ec].
  { unfold Apply, ApplyWithBaseDir. rewrite parseAndCompile_base, Ec. by eexists _, s. }
  destruct (Apply_steps input s file facts Hs Ec) as (s1 & l & Hs1 & Ev & Hk & _ & Hl & ->).
  destruct (deleteFacts_total l s1 Hs1) as (r & s' & -> & Hs' & Hk' & _). exists r, s'. split_and!; [done..|]. intros k Hne.
  assert (Hroute : k ∈ Key <$> l → HasPrefix k "desired/route/" = true).
  { intros (f & -> & (_ & _ & d & _ & Hp)%Hl)%list_elem_of_fmap. eapply HasPrefix_trans; [exact Hp|].
    exact (HasPrefix_app "desired/route/" (utf8 (Route_Name d) +:+ "/")). }
  assert (Hsame : k ∉ Key <$> l → valuesOf s' !! k = valuesOf s1 !! k) by (intros; unfold valuesOf; rewrite !lookup_fmap; by rewrite Hk').
  destruct (decide (k ∈ FactKey <$> facts)) as [(f & -> & Hf)%list_elem_of_fmap|Hnk].
  - split.
    + destruct (compile_area ReadFile _ _ _ (parseAndCompile_inr _ _ _ _ Ec) f Hf) as [Hd|(d & _ & Hd)]; [|by eapply effectiveFacts_key].
      unfold operatorsKey. by rewrite Hd.
    + intros En. destruct (decide (FactKey f ∈ Key <$> l)) as [Hi|Hi]; [by apply Hroute|]. exfalso. rewrite Hsame, Ev in En by done.
      destruct (written_present facts (valuesOf s) (FactKey f)) as [v Hv]; [left; by apply list_elem_of_fmap_2|congruence].
  - assert (Hi : k ∈ Key <$> l).
    { destruct (decide (k ∈ Key <$> l)); [done|]. exfalso. apply Hne. rewrite Hsame by done. unfold valuesOf. rewrite !lookup_fmap. by rewrite Hk. }
    specialize (Hroute Hi). split; [|done]. unfold operatorsKey, declaredKey. rewrite (HasPrefix_trans k "desired/route/" "desired/"); done.
Qed.

(** *** The number of instances of a service *)

Lemma name_between_inj p a b t : p +:+ a +:+ t = p +:+ b +:+ t → a = b.
Proof.
  rewrite <- !str_app_assoc. intros E%(f_equal (dropEnd (String.length t))). rewrite !dropEnd_app in E. by apply (inj (String.append p)) in E.
Qed.

Lemma last_byte_differs p a t q b u : t ≠ "" → u ≠ "" → takeEnd 1 t ≠ takeEnd 1 u → p +:+ a +:+ t ≠ q +:+ b +:+ u.
Proof.
  intros Ht Hu Hne. rewrite <- !str_app_assoc. intros E%(f_equal (takeEnd 1)). apply Hne.
  rewrite !takeEnd_le in E; [done|destruct u|destruct t]; simpl; try done; lia.
Qed.

Lemma compileEach_elem {A} (compileOne : A → compiled (list CompiledFact)) decls d : ∀ facts,
  compileEach compileOne decls = inr facts → d ∈ decls → ∃ facts', compileOne d = inr facts' ∧ facts' ⊆ facts.
Proof.
  induction decls as [|d' decls IH]; intros facts E Hd; [by apply elem_of_nil in Hd|]. simpl in E.
  destruct (compileOne d') as [err|facts1] eqn:E1; [discriminate E|]. simpl in E.
  destruct (compileEach compileOne decls) as [err|facts2] eqn:E2; [discriminate E|]. injection E as <-.
  apply elem_of_cons in Hd. destruct Hd as [->|Hd]; [exists facts1; set_solver|].
  destruct (IH facts2 eq_refl Hd) as (facts' & ? & ?). exists facts'. set_solver.
Qed.

Lemma service_effective d lines baseDir connections facts :
  compileServiceDeclaration ReadFile d lines baseDir connections = inr facts → effectiveFacts d ⊆ facts.
Proof.
  unfold compileServiceDeclaration. cbv zeta. destruct (isEmpty (Service_Name d)); [done|]. destruct (isEmpty (Service_Image d)); [done|].
  destruct (Service_Instances d <? 0); [done|].
  destruct (compileServicePortsFacts _ _ _ _ _) as [|portFacts]; [done|]. destruct (compileServiceScaleFacts _ _ _ _) as [|scaleFacts]; [done|].
  destruct (compileServiceConfigFacts _ _ _ _) as [|configFacts]; [done|]. intros [= <-]. unfold effectiveFacts.
  intros f. rewrite elem_of_cons, !elem_of_app. intros [->|Hf]; [do 3 right; left|].
  do 4 right. destruct Hf as [Hf|[Hf|Hf]]; repeat (apply elem_of_app; first [by left|right]); done.
Qed.

Lemma effective_value d d' g key : key = KeyIntentUserServiceInstances (utf8 (Service_Name d)) ∨ key = KeyEffectiveServiceInstances (utf8 (Service_Name d)) →
  g ∈ effectiveFacts d' → FactKey g = key → utf8 (Service_Name d') = utf8 (Service_Name d) ∧ FactValue g = Itoa (Service_Instances d').
Proof.
  intros Hkey. unfold effectiveFacts, whenFlag, whenPositive. rewrite elem_of_cons, !elem_of_app. intros [->|[Hg|[Hg|Hg]]].
  - intros E. split; [|done]. destruct Hkey as [-> | ->]; [|done]. by apply (name_between_inj "intent/user/service/" _ _ "/instances") in E.
  - destruct (isPerNode d'); [by apply elem_of_nil in Hg|]. apply list_elem_of_singleton in Hg. subst g. intros E. split; [|done].
    destruct Hkey as [-> | ->]; [done|]. by apply (name_between_inj "effective/service/" _ _ "/instances") in E.
  - destruct (Service_Stateful d'); [|by apply elem_of_nil in Hg]. apply list_elem_of_singleton in Hg. subst g. intros E. exfalso.
    destruct Hkey as [-> | ->]; [done|]. by apply (last_byte_differs "effective/service/" _ "/stateful" "effective/service/" _ "/instances") in E.
  - destruct (0 <? Service_Priority d'); [|by apply elem_of_nil in Hg]. apply list_elem_of_singleton in Hg. subst g. intros E. exfalso.
    destruct Hkey as [-> | ->]; [done|]. by apply (last_byte_differs "effective/service/" _ "/priority" "effective/service/" _ "/instances") in E.
Qed.

(** The compiled files write the counts of a service once. *)
Lemma compiled_count file lines facts d key : CompileWithSource ReadFile file lines = inr facts →
  NoDup ((λ d, utf8 (Service_Name d)) <$> File_Services file) → d ∈ File_Services file →
  key = KeyIntentUserServiceInstances (utf8 (Service_Name d)) ∨ key = KeyEffectiveServiceInstances (utf8 (Service_Name d)) →
  ∀ g, g ∈ facts → FactKey g = key → FactValue g = Itoa (Service_Instances d).
Proof.
  intros E Hnd Hd Hkey g Hg Ek. destruct (compile_area ReadFile _ _ _ E g Hg) as [Hdec|(d' & Hd' & Hg')].
  - exfalso. unfold declared in Hdec. rewrite Ek in Hdec. by destruct Hkey as [-> | ->].
  - destruct (effective_value d d' g key Hkey Hg' Ek) as [En ->].
    apply list_elem_of_lookup in Hd as [i Hi]. apply list_elem_of_lookup in Hd' as [j Hj].
    assert (i = j) as ->; [|congruence]. eapply NoDup_lookup; [exact Hnd| |]; rewrite list_lookup_fmap; [by rewrite Hi|rewrite Hj; simpl; by rewrite En].
Qed.

Lemma compiled_effective file lines facts d : CompileWithSource ReadFile file lines = inr facts → d ∈ File_Services file → effectiveFacts d ⊆ facts.
Proof.
  unfold CompileWithSource. destruct (compileInfrastructureDeclarations _ _ _) as [|f1]; [done|]. simpl.
  destruct (compileEach _ (File_Services file)) as [|f2] eqn:E2; [done|]. simpl. destruct (compileEach _ (File_Jobs file)) as [|f3]; [done|].
  destruct (compileEach _ (File_CronJobs file)) as [|f4]; [done|]. destruct (compileAccessControlDeclarations _ _) as [|f5]; [done|].
  intros [= <-] Hd. destruct (compileEach_elem _ _ _ _ E2 Hd) as (facts' & E & Hsub). apply service_effective in E. set_solver.
Qed.

(** What is asked for is what the controllers see: after a successful [Apply] of a file
    that declares every service once, the user's intent for a service, and its effective
    count unless it runs once per node, are the declared number of instances, whatever
    else the file declares. *)
Theorem Apply_sets_instances input file s s' d : usable s → Parse input = Some (inr file) →
  NoDup ((λ d, utf8 (Service_Name d)) <$> File_Services file) → d ∈ File_Services file → Apply ReadFile input s = Some (inr (), s') →
  valuesOf s' !! KeyIntentUserServiceInstances (utf8 (Service_Name d)) = Some (Itoa (Service_Instances d)) ∧
  (isPerNode d = false → valuesOf s' !! KeyEffectiveServiceInstances (utf8 (Service_Name d)) = Some (Itoa (Service_Instances d))).
Proof.
  intros Hs Ep Hnd Hd E. assert (Ec : ∃ facts, parseAndCompile ReadFile input None = Some (inr (file, facts))).
  { unfold Apply, ApplyWithBaseDir in E. rewrite parseAndCompile_base in E. unfold parseAndCompile in *. rewrite Ep in *. simpl in *.
    destruct (CompileWithSource _ _ _); [done|by eexists]. }
  destruct Ec as [facts Ec]. pose proof (parseAndCompile_inr _ _ _ _ Ec) as Ef.
  destruct (Apply_steps input s file facts Hs Ec) as (s1 & l & Hs1 & Ev & Hk & _ & Hl & Ea). rewrite E in Ea.
  destruct (deleteFacts_total l s1 Hs1) as (r & s2 & E2 & _ & _ & Hr). rewrite E2 in Ea. simplify_eq. rewrite (Hr eq_refl).
  assert (Hput : ∀ key, mkCompiledFact key (Itoa (Service_Instances d)) ∈ effectiveFacts d →
    key = KeyIntentUserServiceInstances (utf8 (Service_Name d)) ∨ key = KeyEffectiveServiceInstances (utf8 (Service_Name d)) →
    removed (Key <$> l) (valuesOf s1) !! key = Some (Itoa (Service_Instances d))).
  { intros key Hin Hkey. apply (compiled_effective _ _ _ _ Ef Hd) in Hin. apply (list_elem_of_fmap_2 FactKey) in Hin. simpl in Hin.
    rewrite removed_lookup, bool_decide_eq_false_2, Ev; [apply written_value; [by eapply compiled_count|by right]|].
    intros (g & -> & (_ & Hg & _)%Hl)%list_elem_of_fmap. done. }
  unfold effectiveFacts in Hput. split; [apply Hput; [left|by left]|]. intros Hn. apply Hput; [|by right]. rewrite Hn. right. left.
Qed.

End applied.

(** ** Concrete files *)

#[local] Existing Instance ascii_only.

Definition noFiles (path : string) : string + string := inl "no such file".

Definition shopText : text := runes
  "service shop/web { image nginx instances 3 expose 80 } gate public { host shop.example service web port 80 }".

(** A store that still has the TLS mode of an earlier version of the gate. *)
Definition staleKey : string := "desired/route/public/tls/mode".
Definition staleStore : MemoryStore := default NewMemoryStore (snd <$> Put staleKey "auto" NewMemoryStore).

Lemma staleStore_usable : usable staleStore.
Proof.
  assert (Hnew : memory_usable NewMemoryStore) by (split; [exact (NewMemoryStore_inv defaultWatchChannelBufferSize)|done]).
  destruct (memory_put NewMemoryStore staleKey "auto" Hnew) as (rev & s & E & Hs & _).
  unfold staleStore. rewrite E. exact Hs.
Qed.

Definition shopChanges : list FactChange := match Diff noFiles shopText staleStore with Some (inr changes) => changes | _ => [] end.

Lemma Diff_predicts_Apply_witness :
  Forall (describes (valuesOf staleStore)) shopChanges ∧
  ∃ s', Apply noFiles shopText staleStore = Some (inr (), s') ∧ usable s' ∧ valuesOf s' = foldl perform (valuesOf staleStore) shopChanges.
Proof.
  destruct (Diff_predicts_Apply noFiles shopText staleStore shopChanges staleStore_usable) as [Hd Ha]; [vm_compute; reflexivity|].
  split; [exact Hd|]. apply Ha. apply (bool_decide_unpack _). vm_compute. exact I.
Defined.

Definition shopResult : MemoryStore := match Apply noFiles shopText staleStore with Some (_, s) => s | None => staleStore end.

Definition shopCompiled : File * list CompiledFact :=
  match parseAndCompile noFiles shopText None with Some (inr compiledFile) => compiledFile | _ => (File_zero, []) end.

Lemma shopText_compiles : parseAndCompile noFiles shopText None = Some (inr shopCompiled).
Proof. vm_compute. reflexivity. Qed.

Lemma some_inr_inj {A B} (x y : B) : @Some (A + B) (inr x) = Some (inr y) → x = y.
Proof. congruence. Qed.

Lemma distinct_keys_consistent facts : NoDup (FactKey <$> facts) → consistent facts.
Proof.
  intros Hnd f g [i Hi]%list_elem_of_lookup [j Hj]%list_elem_of_lookup Ek.
  assert (i = j) as ->; [|congruence]. eapply NoDup_lookup; [exact Hnd| |]; rewrite list_lookup_fmap; [by rewrite Hi|rewrite Hj; simpl; by rewrite Ek].
Qed.

Lemma shopText_consistent : consistent shopCompiled.2.
Proof. apply distinct_keys_consistent, (bool_decide_unpack _). vm_compute. exact I. Qed.

Lemma Apply_settles_witness :
  ∃ changes, Diff noFiles shopText shopResult = Some (inr changes) ∧ Forall (λ c, ChangeType c = "unchanged") changes.
Proof.
  apply (Apply_settles noFiles shopText staleStore shopResult staleStore_usable); [vm_compute; reflexivity|].
  intros file facts E. rewrite shopText_compiles in E. apply some_inr_inj in E. pose proof shopText_consistent as Hc. rewrite E in Hc. exact Hc.
Defined.

Lemma Apply_confined_witness :
  ∃ r s', Apply noFiles shopText staleStore = Some (r, s') ∧ usable s' ∧
    ∀ k, valuesOf s' !! k ≠ valuesOf staleStore !! k →
      operatorsKey k = true ∧ (valuesOf s' !! k = None → HasPrefix k "desired/route/" = true).
Proof. exact (Apply_confined noFiles shopText staleStore staleStore_usable). Defined.

Definition shopService : ServiceDecl := default ServiceDecl_zero (head (File_Services shopCompiled.1)).

Lemma Apply_sets_instances_witness :
  valuesOf shopResult !! "intent/user/service/shop/web/instances" = Some "3" ∧
  valuesOf shopResult !! "effective/service/shop/web/instances" = Some "3".
Proof.
  destruct (Apply_sets_instances noFiles shopText shopCompiled.1 staleStore shopResult shopService staleStore_usable) as [Hi He].
  - vm_compute. reflexivity.
  - apply (bool_decide_unpack _). vm_compute. exact I.
  - vm_compute. left.
  - vm_compute. reflexivity.
  - split; [exact Hi|]. apply He. vm_compute. reflexivity.
Defined.

(** A gate that is declared twice in a file, and has lost a setting since it was last
    applied: its stale fact is collected twice, and the second deletion fails, after
    all facts were written. *)
Definition twiceText : text := runes
  "gate public { host shop.example service web port 80 } gate public { host shop.example service web port 80 }".

(** [Apply] of a file that declares a gate twice fails on a stale fact of the gate, once
    it has written the facts and deleted the stale one. *)
Theorem Apply_fails_on_repeated_gate :
  ∃ s', Apply noFiles twiceText staleStore = Some (inl (NotDeleted staleKey ErrKeyNotFound), s') ∧
    valuesOf s' !! staleKey = None ∧ valuesOf s' !! "desired/route/public/service" = Some "web".
Proof.
  destruct (Apply noFiles twiceText staleStore) as [[r s']|] eqn:E; [|vm_compute in E; discriminate E].
  exists s'. vm_compute in E. injection E as <- <-. vm_compute. done.
Qed.

(** Two blocks of network rules: the rules are numbered within their block. *)
Definition networksText : text := runes
  "network { deny web -> db } network { allow web -> db port 5432 }".

(** The rules of two network blocks share their keys: a rule of the second block replaces
    the rule of the same number, source and target of the first, so that a prohibition
    is lost. *)
Theorem network_blocks_overwrite :
  ∃ s', Apply noFiles networksText NewMemoryStore = Some (inr (), s') ∧
    valuesOf s' = {["policy/network/web-to-db-0" := "web:db:5432:allow"]}.
Proof.
  destruct (Apply noFiles networksText NewMemoryStore) as [[r s']|] eqn:E; [|vm_compute in E; discriminate E].
  exists s'. vm_compute in E. injection E as <- <-. split; [done|]. apply map_eq. intros k. vm_compute. done.
Qed.
