(* ===== verification/Tenant.v ===== *)
(** * Tenants, quotas and the admission of changes (src/tenant/)

    tenant.go (the registry), quota.go and policy_gate.go. The registry and the
    admission controller have no state besides the
    store, so their methods are functions of the store, which is any [FactStore]. An
    error that callers only test for is [None]. A scan of the store may panic; functions
    that scan return an option, [None] being the panic. *)

From S2P Require Import Prelude GoStrings GoFmt Keys KeyNames EventHistory MemoryStore StateStore Authorizer Conditions APIAuthorizer.
From S2P Require Import Lexer Ast Parser Compiler.
Import MemStore.

Local Open Scope Z_scope.

(** ** The registry *)

Record Quota := mkQuota {
  QuotaCPU : Z;
  QuotaMemory : string;
  QuotaInstances : Z;
  QuotaVolumes : Z;
  QuotaStorage : string
}.

Record Tenant := mkTenant { TenantName : string; TenantQuota : Quota; TenantWeight : Z }.

Inductive TenantError := TenantNotFound (name : string) | CorruptValue (tenantName field value : string).

(** [slashIndex > 0]: a name that begins with a slash has no tenant. *)
Definition ExtractTenantFromName (serviceName : string) : string :=
  match Cut slashByte serviceName with Some (tenantName, _) => tenantName | None => "" end.

Definition maxQuotaValue : Z := 10000000.

(** [strconv.ParseInt(rawValue, 10, 32)] and the range check; [None] is an error. *)
Definition parseQuotaInt (rawValue : string) : option Z :=
  match ParseInt rawValue with
  | (parsedValue, None) =>
      if negb ((- 2 ^ 31 <=? parsedValue) && (parsedValue <=? 2 ^ 31 - 1)) then None
      else if (parsedValue <? 0) || (maxQuotaValue <? parsedValue) then None
      else Some parsedValue
  | (_, Some _) => None
  end.

Section registry.
Context {S : Type} `{FactStore S} `{GoMapRange}.

(** The value [Get] returns; [None] is an error. *)
Definition getValue (key : string) (s : S) : option string :=
  match store_Get key s with Ok f => Some (Value f) | Err _ => None end.

Definition ResolveTenantForService (serviceName : string) (s : S) : option string :=
  let derived := let tenantName := ExtractTenantFromName serviceName in if bool_decide (tenantName = "") then None else Some tenantName in
  match getValue (KeyDesiredServiceOwner serviceName) s with
  | Some owner => if bool_decide (owner = "") then derived else Some owner
  | None => derived
  end.

(** A number of a tenant: zero when it is not set. *)
Definition quotaNumber (tenantName field key : string) (s : S) : TenantError + Z :=
  match getValue key s with
  | None => inr 0
  | Some value => match parseQuotaInt value with Some n => inr n | None => inl (CorruptValue tenantName field value) end
  end.

Definition quotaText (key : string) (s : S) : string := default "" (getValue key s).

Definition GetTenant (tenantName : string) (s : S) : TenantError + Tenant :=
  match getValue (KeyDesiredTenant tenantName) s with
  | None => inl (TenantNotFound tenantName)
  | Some _ =>
      match quotaNumber tenantName "quota CPU" (KeyDesiredTenantQuotaCPU tenantName) s with
      | inl err => inl err
      | inr cpu =>
          match quotaNumber tenantName "quota instances" (KeyDesiredTenantQuotaInstances tenantName) s with
          | inl err => inl err
          | inr instances =>
              match quotaNumber tenantName "quota volumes" (KeyDesiredTenantQuotaVolumes tenantName) s with
              | inl err => inl err
              | inr volumes =>
                  match quotaNumber tenantName "weight" (KeyDesiredTenantWeight tenantName) s with
                  | inl err => inl err
                  | inr weight =>
                      inr (mkTenant tenantName
                        (mkQuota cpu (quotaText (KeyDesiredTenantQuotaMemory tenantName) s) instances volumes
                                 (quotaText (KeyDesiredTenantQuotaStorage tenantName) s)) weight)
                  end
              end
          end
      end
  end.

(** A set of names, as a map. *)
Definition nameSet (names : list string) : gmap string unit := foldl (λ m name, <[name := ()]> m) ∅ names.

Definition firstSegment (path : string) : string := match Cut slashByte path with Some (first, _) => first | None => path end.

Definition ListTenants (s : S) : option (StoreError + list Tenant) :=
  scanned ← store_Scan ScanDesiredTenants s;
  Some (match scanned with
        | Err err => inl err
        | Ok facts =>
            let tenantNames := nameSet ((λ f, firstSegment (TrimPrefix (Key f) ScanDesiredTenants)) <$> facts) in
            inr ('(tenantName, _) ← map_range tenantNames;
                 match GetTenant tenantName s with inr tenant => [tenant] | inl _ => [] end)
        end).

(** The service a fact is taken to belong to: the first two segments of its path. *)
Definition listedServiceName (factKey : string) : string :=
  let relativePath := TrimPrefix factKey ScanDesiredServices in
  match Cut slashByte relativePath with
  | None => relativePath
  | Some (first, _) =>
      let pathParts := Split slashByte (TrimPrefix factKey (PrefixDesired +:+ "/service/")) in
      match pathParts with
      | a :: b :: _ => a +:+ "/" +:+ b
      | _ => first
      end
  end.

Definition ownedBy (tenantName serviceName : string) (s : S) : bool := bool_decide (ResolveTenantForService serviceName s = Some tenantName).

Definition ListServicesForTenant (tenantName : string) (s : S) : option (StoreError + list string) :=
  scanned ← store_Scan ScanDesiredServices s;
  Some (match scanned with
        | Err err => inl err
        | Ok facts => inr (filter (λ serviceName, ownedBy tenantName serviceName s) (fst <$> map_range (nameSet ((λ f, listedServiceName (Key f)) <$> facts))))
        end).

(** ** Quotas (quota.go) *)

Record AdmissionResult := mkAdmission {
  AdmissionAllowed : bool;
  AdmissionReason : string;
  AdmissionTenant : string;
  AdmissionUsage : Z;
  AdmissionQuota : Z
}.

(** The services and the states of instances, from their facts. *)
Definition readInstanceFact (maps : gmap string string * gmap string string) (f : Fact) : gmap string string * gmap string string :=
  let '(instanceServices, instanceStates) := maps in
  match Cut slashByte (TrimPrefix (Key f) ScanObservedInstances) with
  | None => maps
  | Some (instanceID, fieldName) =>
      if bool_decide (fieldName = "service") then (<[instanceID := Value f]> instanceServices, instanceStates)
      else if bool_decide (fieldName = "state") then (instanceServices, <[instanceID := Value f]> instanceStates)
      else maps
  end.

Definition countTenantInstances (tenantName : string) (s : S) : option Z :=
  scanned ← store_Scan ScanObservedInstances s;
  Some (match scanned with
        | Err _ => 0
        | Ok instanceFacts =>
            let '(instanceServices, instanceStates) := foldl readInstanceFact (∅, ∅) instanceFacts in
            foldl (λ count '(instanceID, serviceName),
              if bool_decide (default "" (instanceStates !! instanceID) = InstanceStopped) then count
              else if ownedBy tenantName serviceName s then wrap64 (count + 1) else count)
              0 (map_range instanceServices)
        end).

Definition countTenantVolumes (tenantName : string) (s : S) : option Z :=
  scanned ← store_Scan ScanDesiredVolumes s;
  Some (match scanned with
        | Err _ => 0
        | Ok volumeFacts =>
            let rootPaths := volumeFacts ≫= λ f,
              let relativePath := TrimPrefix (Key f) ScanDesiredVolumes in
              if bool_decide (Value f = "") && negb (HasSuffix relativePath "/size") && negb (HasSuffix relativePath "/persistent")
              then [relativePath] else [] in
            foldl (λ count '(volumeName, _), if bool_decide (ExtractTenantFromName volumeName = tenantName) then wrap64 (count + 1) else count)
              0 (map_range (nameSet rootPaths))
        end).

(** The images, CPU requests and counts of services, from their facts. *)
Definition readServiceFact (maps : gmap string unit * gmap string Z * gmap string Z) (f : Fact) : gmap string unit * gmap string Z * gmap string Z :=
  let '(serviceImages, serviceCPU, serviceInstances) := maps in
  match Cut slashByte (TrimPrefix (Key f) ScanDesiredServices) with
  | None => maps
  | Some (serviceName, fieldName) =>
      if bool_decide (fieldName = "image") then (<[serviceName := ()]> serviceImages, serviceCPU, serviceInstances)
      else if bool_decide (fieldName = "resources/cpu") then
        (serviceImages, <[serviceName := fst (Atoi (TrimSuffix (Value f) "m"))]> serviceCPU, serviceInstances)
      else if bool_decide (fieldName = "instances") then (serviceImages, serviceCPU, <[serviceName := fst (Atoi (Value f))]> serviceInstances)
      else maps
  end.

Definition computeTenantCPUUsage (tenantName : string) (s : S) : option Z :=
  scanned ← store_Scan ScanDesiredServices s;
  Some (match scanned with
        | Err _ => 0
        | Ok serviceFacts =>
            let '(serviceImages, serviceCPU, serviceInstances) := foldl readServiceFact (∅, ∅, ∅) serviceFacts in
            foldl (λ totalCPU '(serviceName, _),
              if negb (ownedBy tenantName serviceName s) then totalCPU
              else wrap64 (totalCPU + wrap64 (default 0 (serviceCPU !! serviceName) * default 0 (serviceInstances !! serviceName))))
              0 (map_range serviceImages)
        end).

(** The arithmetic of an admission: [usage + request <= quota]. *)
Definition quotaDecision (tenantName resource : string) (currentUsage additional quota : Z) : AdmissionResult :=
  let newTotal := wrap64 (currentUsage + additional) in
  let sum := Itoa currentUsage +:+ " + " +:+ Itoa additional +:+ " = " +:+ Itoa newTotal in
  if quota <? newTotal
  then mkAdmission false (resource +:+ " quota exceeded: " +:+ sum +:+ " > " +:+ Itoa quota) tenantName currentUsage quota
  else mkAdmission true ("within quota: " +:+ sum +:+ " <= " +:+ Itoa quota) tenantName currentUsage quota.

Definition CheckInstanceAdmission (serviceName : string) (additionalInstances : Z) (s : S) : option AdmissionResult :=
  match ResolveTenantForService serviceName s with
  | None => Some (mkAdmission true "no tenant, quota not enforced" "" 0 0)
  | Some tenantName =>
      match GetTenant tenantName s with
      | inl _ => Some (mkAdmission true "tenant not found, quota not enforced" "" 0 0)
      | inr tenant =>
          if QuotaInstances (TenantQuota tenant) =? 0 then Some (mkAdmission true "no instance quota set" tenantName 0 0)
          else
            currentUsage ← countTenantInstances tenantName s;
            Some (quotaDecision tenantName "instance" currentUsage additionalInstances (QuotaInstances (TenantQuota tenant)))
      end
  end.

Definition CheckVolumeAdmission (tenantName : string) (s : S) : option AdmissionResult :=
  match GetTenant tenantName s with
  | inl _ => Some (mkAdmission true "tenant not found, quota not enforced" "" 0 0)
  | inr tenant =>
      if QuotaVolumes (TenantQuota tenant) =? 0 then Some (mkAdmission true "no volume quota set" tenantName 0 0)
      else
        currentUsage ← countTenantVolumes tenantName s;
        Some (quotaDecision tenantName "volume" currentUsage 1 (QuotaVolumes (TenantQuota tenant)))
  end.

Definition UpdateUsageFacts (tenantName : string) (s : S) : option (option (string * StoreError) * S) :=
  instanceCount ← countTenantInstances tenantName s;
  volumeCount ← countTenantVolumes tenantName s;
  cpuUsage ← computeTenantCPUUsage tenantName s;
  putAll [(KeyObservedTenantUsageInstances tenantName, Itoa instanceCount);
          (KeyObservedTenantUsageVolumes tenantName, Itoa volumeCount);
          (KeyObservedTenantUsageCPU tenantName, Itoa cpuUsage)] s.

End registry.

(** ** The policy gate (policy_gate.go) *)

Definition TenantActive : string := "active".
Definition TenantDeleting : string := "deleting".

(** An authorizer with a state of its own, such as a log of failed conditions; asking
    it does not change what it answers. *)
Class FactAuthorizer (A : Type) := {
  AuthorizeFact : string → string → string → A → option AuthError * A;
  authorize_stable principal operation key principal' operation' key' a :
    fst (AuthorizeFact principal operation key (snd (AuthorizeFact principal' operation' key' a))) = fst (AuthorizeFact principal operation key a)
}.

Inductive GateReason :=
| SyntaxError (err : ParseError)
| SchemaError (err : CompileError)
| NotAuthorized (key : string) (err : AuthError)
| QuotaExceeded (reason : string)
| TenantBeingDeleted (tenantName : string)
| AllGatesPassed.

Record GateResult := mkGateResult {
  GateAllowed : bool;
  GateStage : string;
  GateReasonOf : GateReason;
  GateFacts : list CompiledFact
}.

(** The gate's authorizer, whether it checks quotas, its audit log ([nil] when it has
    none), and the store it writes to. *)
Record PolicyGate (S A : Type) := mkGate {
  gateStore : S;
  gateAuthorizer : option A;
  gateChecksQuota : bool;
  gateAuditLog : option (list AuditEntry)
}.
Arguments mkGate {S A}.
Arguments gateStore {S A}.
Arguments gateAuthorizer {S A}.
Arguments gateChecksQuota {S A}.
Arguments gateAuditLog {S A}.

Section gate.
Context {S A : Type} `{FactStore S} `{GoMapRange} `{Unicode} `{FactAuthorizer A} (ReadFile : string → string + string).

Abbreviation Gate := (PolicyGate S A).

Definition logAudit (principal action target decision policy : string) (gate : Gate) : Gate :=
  match gateAuditLog gate with
  | None => gate
  | Some log => mkGate (gateStore gate) (gateAuthorizer gate) (gateChecksQuota gate)
                  (Some (log ++ [mkAudit principal action target decision "" policy ""]))
  end.

Definition setAuthorizer (a : A) (gate : Gate) : Gate := mkGate (gateStore gate) (Some a) (gateChecksQuota gate) (gateAuditLog gate).
Definition setStore (s : S) (gate : Gate) : Gate := mkGate s (gateAuthorizer gate) (gateChecksQuota gate) (gateAuditLog gate).

(** Asking the authorizer for every fact until one is denied. *)
Fixpoint authorizeFacts (principal : string) (facts : list CompiledFact) (a : A) : option (string * AuthError) * A :=
  match facts with
  | [] => (None, a)
  | f :: facts' =>
      match AuthorizeFact principal PermissionWrite (FactKey f) a with
      | (Some err, a') => (Some (FactKey f, err), a')
      | (None, a') => authorizeFacts principal facts' a'
      end
  end.

Definition evaluateAuthorizationGate (principal : string) (facts : list CompiledFact) (gate : Gate) : option GateResult * Gate :=
  match gateAuthorizer gate with
  | None => (None, gate)
  | Some a =>
      match authorizeFacts principal facts a with
      | (None, a') => (None, setAuthorizer a' gate)
      | (Some (key, err), a') =>
          (Some (mkGateResult false "authorization" (NotAuthorized key err) facts),
           logAudit principal "apply" key "DENY" "authorization" (setAuthorizer a' gate))
      end
  end.

Fixpoint quotaLoop (principal : string) (services : list ServiceDecl) (facts : list CompiledFact) (gate : Gate) : option (option GateResult * Gate) :=
  match services with
  | [] => Some (None, gate)
  | serviceDecl :: services' =>
      let name := utf8 (Service_Name serviceDecl) in
      if 0 <? Service_Instances serviceDecl then
        admission ← CheckInstanceAdmission name (Service_Instances serviceDecl) (gateStore gate);
        if AdmissionAllowed admission then quotaLoop principal services' facts gate
        else Some (Some (mkGateResult false "quota" (QuotaExceeded (AdmissionReason admission)) facts),
                   logAudit principal "apply" name "DENY" "quota" gate)
      else quotaLoop principal services' facts gate
  end.

Definition evaluateQuotaGate (principal : string) (file : File) (facts : list CompiledFact) (gate : Gate) : option (option GateResult * Gate) :=
  if gateChecksQuota gate then quotaLoop principal (File_Services file) facts gate else Some (None, gate).

Definition getTenantState (tenantName : string) (gate : Gate) : option string := getValue (KeyDesiredTenantState tenantName) (gateStore gate).

Definition declaredTenant (serviceDecl : ServiceDecl) : string :=
  if isEmpty (Service_Owner serviceDecl) then ExtractTenantFromName (utf8 (Service_Name serviceDecl)) else utf8 (Service_Owner serviceDecl).

Fixpoint securityLoop (principal : string) (services : list ServiceDecl) (facts : list CompiledFact) (gate : Gate) : option GateResult * Gate :=
  match services with
  | [] => (None, gate)
  | serviceDecl :: services' =>
      let tenantName := declaredTenant serviceDecl in
      if negb (bool_decide (tenantName = "")) && bool_decide (getTenantState tenantName gate = Some TenantDeleting) then
        (Some (mkGateResult false "security" (TenantBeingDeleted tenantName) facts),
         logAudit principal "apply" (utf8 (Service_Name serviceDecl)) "DENY" "security" gate)
      else securityLoop principal services' facts gate
  end.

Definition evaluateSecurityPolicyGate (principal : string) (file : File) (facts : list CompiledFact) (gate : Gate) : option GateResult * Gate :=
  securityLoop principal (File_Services file) facts gate.

(** [None] is a panic of the store, or a loop of the parser that has not ended. *)
Definition Evaluate (principal : string) (dslInput : text) (gate : Gate) : option (GateResult * Gate) :=
  parsed ← Parse dslInput;
  match parsed with
  | inl err => Some (mkGateResult false "syntax" (SyntaxError err) [], logAudit principal "apply" "dsl" "DENY" "syntax" gate)
  | inr file =>
      match Compile ReadFile file with
      | inl err => Some (mkGateResult false "schema" (SchemaError err) [], logAudit principal "apply" "dsl" "DENY" "schema" gate)
      | inr facts =>
          match evaluateAuthorizationGate principal facts gate with
          | (Some denial, gate) => Some (denial, gate)
          | (None, gate) =>
              checked ← evaluateQuotaGate principal file facts gate;
              match checked with
              | (Some denial, gate) => Some (denial, gate)
              | (None, gate) =>
                  match evaluateSecurityPolicyGate principal file facts gate with
                  | (Some denial, gate) => Some (denial, gate)
                  | (None, gate) =>
                      Some (mkGateResult true "commit" AllGatesPassed facts, logAudit principal "apply" "dsl" "ALLOW" "commit" gate)
                  end
              end
          end
      end
  end.

(** The result, or the key that could not be written. *)
Definition EvaluateAndCommit (principal : string) (dslInput : text) (gate : Gate) : option ((string * StoreError + GateResult) * Gate) :=
  '(result, gate) ← Evaluate principal dslInput gate;
  if negb (GateAllowed result) then Some (inr result, gate)
  else
    committed ← putAll ((λ f, (FactKey f, FactValue f)) <$> GateFacts result) (gateStore gate);
    match committed with
    | (Some failure, s) => Some (inl failure, setStore s gate)
    | (None, s) => Some (inr result, setStore s gate)
    end.

End gate.

(** The authorizer the server uses: capabilities for the keys of facts. *)
Lemma policyLoop_stable `{GoMapRange} principal capability scope context policies : ∀ matched a,
  let a' := snd (policyLoop policies matched principal capability scope context a) in
  apiGrants a' = apiGrants a ∧ bootstrapGrants a' = bootstrapGrants a ∧ apiPolicies a' = apiPolicies a.
Proof.
  induction policies as [|p policies IH]; intros matched a; simpl; [done|]. case_decide; [apply IH|].
  destruct (EvaluateConditions _ _ _); [done|]. specialize (IH true (logConditionFailure principal capability scope p a)). simpl in IH.
  destruct IH as (-> & -> & ->). unfold logConditionFailure. by destruct (apiAuditLog a).
Qed.
