(* ===== verification/TenantProps.v ===== *)
(** * What the policy gate admits *)

From S2P Require Import Prelude GoStrings GoFmt Keys KeyNames EventHistory MemoryStore StoreInvariant StoreProps StateStore.
From S2P Require Import Authorizer Conditions APIAuthorizer Lexer LexerProps Ast Parser ParserProps Compiler CompilerProps Tenant.
Import MemStore.

Local Open Scope Z_scope.

(** ** The server's authorizer *)

Lemma policyLoop_decision principal capability scope context policies : ∀ matched a a',
  fst (policyLoop policies matched principal capability scope context a) = fst (policyLoop policies matched principal capability scope context a').
Proof.
  induction policies as [|p policies IH]; intros matched a a'; simpl; [done|]. case_decide; [apply IH|].
  destruct (EvaluateConditions _ _ _); [done|]. apply IH.
Qed.

#[export, refine] Instance APIFactAuthorizer `{GoMapRange} : FactAuthorizer APIAuthorizer := {| AuthorizeFact := FactAuthorize |}.
Proof.
  intros principal operation key principal' operation' key' a. set (a' := snd (FactAuthorize principal' operation' key' a)).
  assert (Ha : apiGrants a' = apiGrants a ∧ bootstrapGrants a' = bootstrapGrants a ∧ apiPolicies a' = apiPolicies a).
  { subst a'. unfold FactAuthorize, AuthorizeAPI. repeat case_decide; try done. destruct (existsb _ _); [done|]. apply policyLoop_stable. }
  destruct Ha as (Hg & Hb & Hp). unfold FactAuthorize, AuthorizeAPI, resolveGrants. repeat case_decide; try done.
  rewrite Hg, Hb, Hp. destruct (existsb _ _); [done|]. apply policyLoop_decision.
Defined.

(** An authorizer without a state. *)
#[export, refine] Instance StatelessFactAuthorizer {A} `{Authorizer A} : FactAuthorizer A :=
  {| AuthorizeFact principal operation key a := (Authorize a principal operation key, a) |}.
Proof. done. Defined.

Section gates.
Context {S A : Type} `{FactStore S} `{GoMapRange} `{Unicode} `{FactAuthorizer A} (ReadFile : string → string + string).

Abbreviation Gate := (PolicyGate S A).

(** ** Counting instances *)

(** The instances that count against a tenant, in the facts of a scan. *)
Definition countedInstances (tenantName : string) (facts : list Fact) (s : S) : list (string * string) :=
  let '(instanceServices, instanceStates) := foldl readInstanceFact (∅, ∅) facts in
  filter (λ instance, default "" (instanceStates !! instance.1) ≠ InstanceStopped ∧ ownedBy tenantName instance.2 s) (map_to_list instanceServices).

Lemma count_foldl {X} (P : X → Prop) `{∀ x, Decision (P x)} (step : Z → X → Z) l : ∀ n,
  (∀ n x, step n x = if decide (P x) then wrap64 (n + 1) else n) →
  wrap64 (foldl step n l) = wrap64 (n + Z.of_nat (length (filter P l))).
Proof.
  induction l as [|x l IH]; intros n Hstep; simpl; [by rewrite Z.add_0_r|]. rewrite IH, Hstep, filter_cons by done. case_decide; [|done].
  simpl. rewrite wrap64_add_l. f_equal. lia.
Qed.

Lemma foldl_in_int64 {X} (step : Z → X → Z) l : ∀ n, in_int64 n → (∀ n x, in_int64 n → in_int64 (step n x)) → in_int64 (foldl step n l).
Proof. induction l as [|x l IH]; intros n Hn Hs; simpl; auto. Qed.

(** The count does not depend on the order in which the instances are visited. *)
Lemma countTenantInstances_exact tenantName s : usable s →
  ∃ facts, store_Scan ScanObservedInstances s = Some (Ok facts) ∧
    countTenantInstances tenantName s = Some (wrap64 (Z.of_nat (length (countedInstances tenantName facts s)))).
Proof.
  intros Hs. destruct (scan_only s ScanObservedInstances Hs) as (facts & E & _). exists facts. split; [done|].
  unfold countTenantInstances, countedInstances. rewrite E. simpl. destruct (foldl readInstanceFact (∅, ∅) facts) as [services states]. f_equal.
  set (P := λ instance : string * string, default "" (states !! instance.1) ≠ InstanceStopped ∧ ownedBy tenantName instance.2 s).
  assert (Hstep : ∀ n x, (λ count '(instanceID, serviceName),
      if bool_decide (default "" (states !! instanceID) = InstanceStopped) then count
      else if ownedBy tenantName serviceName s then wrap64 (count + 1) else count) n x = if decide (P x) then wrap64 (n + 1) else n).
  { intros n [i v]. unfold P. simpl. case_bool_decide as E1; [rewrite decide_False by tauto; done|].
    destruct (ownedBy tenantName v s); [rewrite decide_True by done|rewrite decide_False by naive_solver]; done. }
  pose proof (count_foldl P _ (map_range services) 0 Hstep) as Hc. rewrite (wrap64_id (foldl _ _ _)) in Hc.
  - rewrite Hc. f_equal. simpl. by rewrite (map_range_perm _ services).
  - apply foldl_in_int64; [by unfold in_int64, int64_min, int64_max|]. intros n x Hn. rewrite Hstep. case_decide; [apply wrap64_range|done].
Qed.

(** ** The gates, one by one *)

(** Whether a number of further instances of a service is within its tenant's quota:
    nothing is asked of a service without a tenant, of a tenant that is not defined or
    whose settings are corrupt, and of a tenant without a quota. *)
Definition withinQuota (s : S) (serviceName : string) (additional : Z) : Prop :=
  ∀ tenantName tenant facts, ResolveTenantForService serviceName s = Some tenantName → GetTenant tenantName s = inr tenant →
    QuotaInstances (TenantQuota tenant) ≠ 0 → store_Scan ScanObservedInstances s = Some (Ok facts) →
    wrap64 (Z.of_nat (length (countedInstances tenantName facts s)) + additional) ≤ QuotaInstances (TenantQuota tenant).

Lemma CheckInstanceAdmission_spec s serviceName additional : usable s →
  ∃ admission, CheckInstanceAdmission serviceName additional s = Some admission ∧ (AdmissionAllowed admission = true ↔ withinQuota s serviceName additional).
Proof.
  intros Hs. unfold CheckInstanceAdmission, withinQuota. destruct (ResolveTenantForService serviceName s) as [tenantName|]; [|by eexists].
  destruct (GetTenant tenantName s) as [err|tenant] eqn:Et; [eexists; split; [done|]; split; [intros _ ? ? ? [= <-]; congruence|done]|].
  destruct (countTenantInstances_exact tenantName s Hs) as (facts & Es & Ec). rewrite Ec, Es.
  destruct (Z.eqb_spec (QuotaInstances (TenantQuota tenant)) 0) as [E0|E0]; [eexists; split; [done|]; split; [intros _ ? ? ? [= <-]; congruence|done]|].
  simpl. eexists. split; [done|]. unfold quotaDecision. rewrite wrap64_add_l. destruct (Z.ltb_spec (QuotaInstances (TenantQuota tenant))
    (wrap64 (Z.of_nat (length (countedInstances tenantName facts s)) + additional))); simpl;
    [|split; [intros _ ? ? ? [= <-] Et' _ [= <-]; congruence|done]].
  split; [done|]. intros Hq. specialize (Hq tenantName tenant facts eq_refl Et E0 eq_refl). lia.
Qed.

(** What the log of a gate gains: one entry of the principal. *)
Definition audited (principal decision : string) (gate gate' : Gate) : Prop :=
  match gateAuditLog gate with
  | None => gateAuditLog gate' = None
  | Some log => ∃ entry, gateAuditLog gate' = Some (log ++ [entry]) ∧ AuditPrincipal entry = principal ∧ AuditDecision entry = decision
  end.

Lemma logAudit_audited principal action target decision policy gate : audited principal decision gate (logAudit principal action target decision policy gate).
Proof. unfold audited, logAudit. destruct (gateAuditLog gate) eqn:E; [by eexists|done]. Qed.

Lemma logAudit_store principal action target decision policy (gate : Gate) :
  gateStore (logAudit principal action target decision policy gate) = gateStore gate.
Proof. unfold logAudit. by destruct (gateAuditLog gate). Qed.

(** A stage of the pipeline: it passes exactly when [passes], keeping the log, or denies
    with one entry; it never touches the store. *)
Definition stage (principal : string) (passes : Prop) (gate : Gate) (outcome : option GateResult * Gate) : Prop :=
  gateStore outcome.2 = gateStore gate ∧
  match outcome.1 with
  | None => passes ∧ gateAuditLog outcome.2 = gateAuditLog gate ∧ gateChecksQuota outcome.2 = gateChecksQuota gate
  | Some denial => ¬ passes ∧ GateAllowed denial = false ∧ audited principal "DENY" gate outcome.2
  end.

Lemma stage_iff principal P Q gate outcome : (P ↔ Q) → stage principal P gate outcome → stage principal Q gate outcome.
Proof. unfold stage. intros HPQ [? Ho]. split; [done|]. destruct (outcome.1); tauto. Qed.

Definition factsAuthorized (principal : string) (facts : list CompiledFact) (gate : Gate) : Prop :=
  ∀ a, gateAuthorizer gate = Some a → ∀ f, f ∈ facts → fst (AuthorizeFact principal PermissionWrite (FactKey f) a) = None.

Lemma authorizeFacts_spec principal facts : ∀ a,
  (fst (authorizeFacts principal facts a) = None ↔ ∀ f, f ∈ facts → fst (AuthorizeFact principal PermissionWrite (FactKey f) a) = None).
Proof.
  induction facts as [|f facts IH]; intros a; simpl; [set_solver|].
  pose proof (λ k, authorize_stable principal PermissionWrite k principal PermissionWrite (FactKey f) a) as Hst.
  destruct (AuthorizeFact principal PermissionWrite (FactKey f) a) as [[err|] a'] eqn:E; simpl in *.
  - split; [done|]. intros Hf. specialize (Hf f (list_elem_of_here _ _)). by rewrite E in Hf.
  - rewrite IH. setoid_rewrite Hst. setoid_rewrite elem_of_cons. split; [|naive_solver]. intros Hf g [->|Hg]; [by rewrite E|auto].
Qed.

Lemma authorization_stage principal facts gate : stage principal (factsAuthorized principal facts gate) gate (evaluateAuthorizationGate principal facts gate).
Proof.
  unfold stage, evaluateAuthorizationGate, factsAuthorized. destruct (gateAuthorizer gate) as [a|]; [|split_and!; naive_solver].
  pose proof (authorizeFacts_spec principal facts a) as Ha. destruct (authorizeFacts principal facts a) as [[[key err]|] a']; simpl in *.
  - rewrite logAudit_store. split_and!; [done| |done|].
    + intros Hp. specialize (Hp a eq_refl). apply Ha in Hp. done.
    + apply (logAudit_audited _ _ _ _ _ (setAuthorizer a' gate)).
  - split_and!; try done. intros ? [= <-]. by apply Ha.
Qed.

Definition quotasRespected (file : File) (gate : Gate) : Prop :=
  gateChecksQuota gate = true → ∀ d, d ∈ File_Services file → 0 < Service_Instances d →
    withinQuota (gateStore gate) (utf8 (Service_Name d)) (Service_Instances d).

Lemma quotaLoop_spec principal services facts gate : usable (gateStore gate) →
  ∃ outcome, quotaLoop principal services facts gate = Some outcome ∧
    stage principal (∀ d, d ∈ services → 0 < Service_Instances d → withinQuota (gateStore gate) (utf8 (Service_Name d)) (Service_Instances d)) gate outcome.
Proof.
  intros Hs. induction services as [|d services (outcome & E & Ho)]; simpl.
  { eexists. split; [done|]. unfold stage. simpl. set_solver. }
  destruct (Z.ltb_spec 0 (Service_Instances d)) as [Hpos|Hpos].
  - destruct (CheckInstanceAdmission_spec (gateStore gate) (utf8 (Service_Name d)) (Service_Instances d) Hs) as (admission & -> & Ha). simpl.
    destruct (AdmissionAllowed admission) eqn:Eall.
    + exists outcome. split; [done|]. eapply stage_iff; [|exact Ho]. setoid_rewrite elem_of_cons. naive_solver.
    + eexists. split; [done|]. unfold stage. simpl. rewrite logAudit_store. split_and!; [done| |done|apply logAudit_audited].
      intros Hp. specialize (Hp d (list_elem_of_here _ _) Hpos). apply Ha in Hp. congruence.
  - exists outcome. split; [done|]. eapply stage_iff; [|exact Ho]. setoid_rewrite elem_of_cons. naive_solver lia.
Qed.

Lemma quota_stage principal file facts gate : usable (gateStore gate) →
  ∃ outcome, evaluateQuotaGate principal file facts gate = Some outcome ∧ stage principal (quotasRespected file gate) gate outcome.
Proof.
  intros Hs. unfold evaluateQuotaGate, quotasRespected. destruct (gateChecksQuota gate).
  - destruct (quotaLoop_spec principal (File_Services file) facts gate Hs) as (outcome & E & Ho). exists outcome. split; [done|].
    eapply stage_iff; [|exact Ho]. naive_solver.
  - eexists. split; [done|]. unfold stage. simpl. naive_solver.
Qed.

Definition tenantsActive (file : File) (gate : Gate) : Prop :=
  ∀ d, d ∈ File_Services file → declaredTenant d ≠ "" → getValue (KeyDesiredTenantState (declaredTenant d)) (gateStore gate) ≠ Some TenantDeleting.

Lemma security_stage principal file facts gate : stage principal (tenantsActive file gate) gate (evaluateSecurityPolicyGate principal file facts gate).
Proof.
  unfold evaluateSecurityPolicyGate, tenantsActive. induction (File_Services file) as [|d services IH]; simpl.
  { unfold stage. simpl. set_solver. }
  unfold getTenantState. destruct (decide (declaredTenant d ≠ "" ∧ getValue (KeyDesiredTenantState (declaredTenant d)) (gateStore gate) = Some TenantDeleting)) as [[Hn Hd]|Hok].
  - rewrite (bool_decide_eq_false_2 (declaredTenant d = "")), (bool_decide_eq_true_2 (getValue _ _ = _)) by done. simpl.
    unfold stage. simpl. rewrite logAudit_store. split_and!; [done| |done|apply logAudit_audited].
    intros Hp. by apply (Hp d (list_elem_of_here _ _) Hn).
  - replace (negb _ && bool_decide (getValue _ _ = _)) with false
      by (symmetry; apply andb_false_iff; rewrite negb_false_iff, bool_decide_eq_true, bool_decide_eq_false; destruct (decide (declaredTenant d = "")); tauto).
    eapply stage_iff; [|exact IH]. setoid_rewrite elem_of_cons. naive_solver.
Qed.

(** ** The whole pipeline *)

(** What is admitted: a text that parses and compiles, all of whose facts the principal
    may write, whose services are within their quotas as the store stands, and none of
    whose services belongs to a tenant that is being deleted. *)
Definition admissible (principal : string) (input : text) (gate : Gate) (file : File) (facts : list CompiledFact) : Prop :=
  Parse input = Some (inr file) ∧ Compile ReadFile file = inr facts ∧ factsAuthorized principal facts gate ∧
  quotasRespected file gate ∧ tenantsActive file gate.

Lemma Evaluate_spec principal input gate : usable (gateStore gate) →
  ∃ result gate', Evaluate ReadFile principal input gate = Some (result, gate') ∧ gateStore gate' = gateStore gate ∧
    if GateAllowed result then admissible principal input gate (default File_zero (Parse input ≫= λ r, match r with inr file => Some file | inl _ => None end)) (GateFacts result) ∧
      audited principal "ALLOW" gate gate'
    else (¬ ∃ file facts, admissible principal input gate file facts) ∧ audited principal "DENY" gate gate'.
Proof.
  intros Hs. unfold Evaluate, admissible. pose proof (ParseWithFileName_result input []) as Hp. change (ParseWithFileName input []) with (Parse input) in Hp.
  destruct (Parse input) as [[err|file]|]; [| |done]; simpl.
  { eexists _, _. split_and!; [done|apply logAudit_store|]. simpl. split; [naive_solver|apply logAudit_audited]. }
  destruct (Compile ReadFile file) as [err|facts] eqn:Ec; simpl.
  { eexists _, _. split_and!; [done|apply logAudit_store|]. simpl. split; [|apply logAudit_audited]. intros (f & fs & [= <-] & E & _). congruence. }
  pose proof (authorization_stage principal facts gate) as [Hs1 Ha]. destruct (evaluateAuthorizationGate principal facts gate) as [[denial|] gate1]; simpl in Hs1, Ha.
  { destruct Ha as (Hn & Ed & Hlog). eexists _, _. split_and!; [done|done|]. rewrite Ed. split; [|done]. intros (f & fs & [= <-] & E & Hf & _). apply Hn. congruence. }
  destruct Ha as (Hauth & Hlog1 & Hq1).
  destruct (quota_stage principal file facts gate1 ltac:(by rewrite Hs1)) as (outcome & -> & Hs2 & Hq). simpl.
  assert (Hquota : quotasRespected file gate1 ↔ quotasRespected file gate) by (unfold quotasRespected; by rewrite Hs1, Hq1).
  destruct outcome as [[denial|] gate2]; simpl in Hs2, Hq.
  { destruct Hq as (Hn & Ed & Hlog). eexists _, _. split_and!; [done|congruence|]. rewrite Ed. unfold audited in *. rewrite Hlog1 in Hlog.
    split; [|done]. intros (f & fs & [= <-] & E & _ & Hf & _). tauto. }
  destruct Hq as (Hqr & Hlog2 & _).
  pose proof (security_stage principal file facts gate2) as [Hs3 Hsec]. destruct (evaluateSecurityPolicyGate principal file facts gate2) as [[denial|] gate3]; simpl in Hs3, Hsec.
  { destruct Hsec as (Hn & Ed & Hlog). eexists _, _. split_and!; [done|congruence|]. rewrite Ed. unfold audited in *. rewrite Hlog2, Hlog1 in Hlog.
    split; [|done]. intros (f & fs & [= <-] & E & _ & _ & Hf). apply Hn. unfold tenantsActive in *. by rewrite Hs2, Hs1. }
  destruct Hsec as (Hten & Hlog3 & _). eexists _, _. split_and!; [done|rewrite logAudit_store; congruence|]. simpl. split.
  - unfold tenantsActive in *. rewrite Hs2, Hs1 in Hten. apply Hquota in Hqr. tauto.
  - pose proof (logAudit_audited principal "apply" "dsl" "ALLOW" "commit" gate3) as Hl. unfold audited in *. by rewrite Hlog3, Hlog2, Hlog1 in Hl.
Qed.

(** C11: The gate commits exactly what is admissible. Every evaluation returns and leaves one
    audit entry of the principal, ALLOW or DENY; a denied text leaves the store as it
    was and is not admissible; an allowed one is, and the store then holds exactly the
    compiled facts on top of what it held. *)
Theorem PolicyGate_commits_admissible principal input gate : usable (gateStore gate) →
  ∃ result gate', EvaluateAndCommit ReadFile principal input gate = Some (inr result, gate') ∧ usable (gateStore gate') ∧
    if GateAllowed result then
      (∃ file, admissible principal input gate file (GateFacts result)) ∧
      valuesOf (gateStore gate') = written (GateFacts result) (valuesOf (gateStore gate)) ∧ audited principal "ALLOW" gate gate'
    else gateStore gate' = gateStore gate ∧ (¬ ∃ file facts, admissible principal input gate file facts) ∧ audited principal "DENY" gate gate'.
Proof.
  intros Hs. destruct (Evaluate_spec principal input gate Hs) as (result & gate1 & E & Es & Hr). unfold EvaluateAndCommit. rewrite E. simpl.
  destruct (GateAllowed result) eqn:Ea; simpl.
  - destruct Hr as [Hadm Hlog]. destruct (putAll_exact ((λ f, (FactKey f, FactValue f)) <$> GateFacts result) (gateStore gate1) ltac:(by rewrite Es)) as (s' & -> & Hs' & _ & Ev & _).
    simpl. eexists _, _. split; [done|]. rewrite Ea. simpl. split_and!; [done|by eexists| |done]. rewrite Ev, Es. unfold writeAll. by rewrite foldl_fmap.
  - eexists _, _. split; [done|]. rewrite Ea, Es. simpl. tauto.
Qed.

End gates.

(** ** Concrete gates *)

#[local] Existing Instance ascii_only.
#[local] Existing Instance reference_range.

Definition storeWith (facts : list (string * string)) : MemoryStore := match putAll facts NewMemoryStore with Some (_, s) => s | None => NewMemoryStore end.

Lemma storeWith_usable facts : usable (storeWith facts).
Proof.
  assert (Hnew : usable NewMemoryStore) by (split; [exact (NewMemoryStore_inv defaultWatchChannelBufferSize)|done]).
  destruct (putAll_exact (S:=MemoryStore) facts NewMemoryStore Hnew) as (s' & E & Hs' & _). unfold storeWith. rewrite E. exact Hs'.
Qed.

(** A tenant that may have two instances, and a principal that may create workloads. *)
Definition paymentsFacts : list (string * string) := [("desired/tenant/payments", ""); ("desired/tenant/payments/quota/instances", "2")].

Definition developer : string := "user:dev".

Definition gateOn (s : MemoryStore) : PolicyGate MemoryStore APIAuthorizer :=
  mkGate s (Some (Grant developer CapabilityWorkloadCreate ScopeCluster NewAPIAuthorizer)) true (Some []).

Definition checkoutText : text := runes "service payments/checkout { image shop instances 2 }".

Lemma PolicyGate_commits_admissible_witness :
  ∃ result gate', EvaluateAndCommit noFiles developer checkoutText (gateOn (storeWith paymentsFacts)) = Some (inr result, gate') ∧ GateAllowed result = true ∧
    valuesOf (gateStore gate') !! "desired/service/payments/checkout/image" = Some "shop".
Proof.
  destruct (PolicyGate_commits_admissible noFiles developer checkoutText (gateOn (storeWith paymentsFacts)) (storeWith_usable _)) as (result & gate' & E & _ & Hr).
  exists result, gate'. split; [exact E|].
  assert (Ha : match EvaluateAndCommit noFiles developer checkoutText (gateOn (storeWith paymentsFacts)) with
    | Some (inr r, g) => GateAllowed r = true ∧ valuesOf (gateStore g) !! "desired/service/payments/checkout/image" = Some "shop" | _ => False end)
    by (vm_compute; split; reflexivity).
  rewrite E in Ha. exact Ha.
Defined.

(** The quota of the tenant is two instances. *)
Definition overQuotaTexts : list text := runes <$>
  ["service batch { image shop instances 100 owner payments }";
   "service payments/a { image shop instances 2 } service payments/b { image shop instances 2 }";
   "tenant payments { quota { instances 1000 } }"].

(** The quota is not kept: a principal that may only create workloads gets 100 instances of
    a new service that names its tenant as owner, four instances in two services of one
    text, and a higher quota, all admitted against a quota of two. *)
Theorem PolicyGate_quota_gaps :
  Forall (λ input, ∃ result gate', EvaluateAndCommit noFiles developer input (gateOn (storeWith paymentsFacts)) = Some (inr result, gate') ∧
    GateAllowed result = true) overQuotaTexts.
Proof. repeat (apply Forall_cons_2; [eexists _, _; split; [vm_compute; reflexivity|reflexivity]|]). apply Forall_nil_2. Qed.

(** The two instances of the service run. *)
Definition runningFacts : list (string * string) :=
  paymentsFacts ++ [("observed/instance/i1/service", "payments/checkout"); ("observed/instance/i1/state", "running");
                    ("observed/instance/i2/service", "payments/checkout"); ("observed/instance/i2/state", "running")].

(** Applying an unchanged text is denied once its instances run: they are counted again as
    additional ones. *)
Theorem PolicyGate_denies_reapplying :
  ∃ gate', EvaluateAndCommit noFiles developer checkoutText (gateOn (storeWith runningFacts)) =
    Some (inr (mkGateResult false "quota" (QuotaExceeded "instance quota exceeded: 2 + 2 = 4 > 2")
                 (match Parse checkoutText with Some (inr file) => match Compile noFiles file with inr facts => facts | inl _ => [] end | _ => [] end)), gate').
Proof. eexists. vm_compute. reflexivity. Qed.

(** A setting that is removed from a gate stays in force when the text goes through the
    policy gate, although [Diff] of the same text announces its deletion. *)
Theorem PolicyGate_keeps_removed_settings :
  ∃ result gate', EvaluateAndCommit noFiles developer shopText (gateOn staleStore) = Some (inr result, gate') ∧ GateAllowed result = true ∧
    valuesOf (gateStore gate') !! staleKey = Some "auto" ∧
    ∃ changes, Diff noFiles shopText staleStore = Some (inr changes) ∧ mkFactChange staleKey "auto" "" "delete" ∈ changes.
Proof.
  assert (Ha : match EvaluateAndCommit noFiles developer shopText (gateOn staleStore) with
    | Some (inr r, g) => GateAllowed r = true ∧ valuesOf (gateStore g) !! staleKey = Some "auto" | _ => False end)
    by (vm_compute; split; reflexivity).
  destruct (EvaluateAndCommit noFiles developer shopText (gateOn staleStore)) as [[[e|result] gate']|] eqn:E; [destruct Ha| |destruct Ha].
  destruct Ha as [Ha Hv]. exists result, gate'. split; [reflexivity|]. split; [exact Ha|]. split; [exact Hv|].
  exists shopChanges. split; [vm_compute; reflexivity|]. apply (list_elem_of_lookup_2 _ 11). vm_compute. reflexivity.
Qed.
