(* ===== verification/NetworkPolicy.v ===== *)
(** * Network policies between services (src/security/network_policy.go, src/tenant/network_isolation.go)

    The rules are facts; the engine reads them on every question. The isolation of
    tenants asks the engine and the registry of tenants. Both are functions of the
    store, which is any [FactStore]. *)

From S2P Require Import Prelude GoStrings GoFmt Keys KeyNames EventHistory MemoryStore StoreInvariant StoreProps StateStore.
From S2P Require Import Lexer LexerProps Ast Parser ParserProps Compiler CompilerProps Tenant TenantProps.
Import MemStore.

Local Open Scope Z_scope.

Definition NetworkPolicyPrefix : string := "policy/network/".

Definition PolicyAllow : string := "allow".
Definition PolicyDeny : string := "deny".

Record NetworkPolicyRule := mkPolicyRule {
  RuleName : string;
  SourceService : string;
  TargetService : string;
  RulePort : Z;
  RuleAction : string
}.

(** [strings.SplitN(value, ":", 4)] and the port; [None] is an error. *)
Definition parseNetworkPolicyRule (name value : string) : option NetworkPolicyRule :=
  match SplitN ":" 4 value with
  | [source; target; portText; action] =>
      if bool_decide (portText = "") then Some (mkPolicyRule name source target 0 action)
      else match Atoi portText with
           | (parsedPort, None) => Some (mkPolicyRule name source target parsedPort action)
           | (_, Some _) => None
           end
  | _ => None
  end.

Definition ruleValue (rule : NetworkPolicyRule) : string :=
  SourceService rule +:+ ":" +:+ TargetService rule +:+ ":" +:+ Itoa (RulePort rule) +:+ ":" +:+ RuleAction rule.

Definition matchesRule (rule : NetworkPolicyRule) (sourceService targetService : string) (port : Z) : bool :=
  if negb (bool_decide (SourceService rule = "*")) && negb (bool_decide (SourceService rule = sourceService)) then false
  else if negb (bool_decide (TargetService rule = "*")) && negb (bool_decide (TargetService rule = targetService)) then false
  else if negb (RulePort rule =? 0) && negb (RulePort rule =? port) then false
  else true.

(** The first loop looks for a prohibition, the second for a permission. *)
Definition evaluateRules (rules : list NetworkPolicyRule) (sourceService targetService : string) (port : Z) : string :=
  if existsb (λ rule, bool_decide (RuleAction rule = PolicyDeny) && matchesRule rule sourceService targetService port) rules then PolicyDeny
  else if existsb (λ rule, bool_decide (RuleAction rule = PolicyAllow) && matchesRule rule sourceService targetService port) rules then PolicyAllow
  else PolicyDeny.

(** [spiffe://ccattler/{tenant}/{leaf}] *)
Definition SPIFFEDomain : string := "ccattler".

Definition SPIFFEIdentity (tenantName serviceName : string) : string :=
  let leafName := match Cut slashByte serviceName with Some (String _ _, leaf) => leaf | _ => serviceName end in
  "spiffe://" +:+ SPIFFEDomain +:+ "/" +:+ tenantName +:+ "/" +:+ leafName.

Record DerivedFirewallRule := mkFirewallRule {
  SourceIdentity : string;
  TargetIdentity : string;
  FirewallPort : Z;
  FirewallAction : string;
  FirewallReason : string
}.

Section engine.
Context {S : Type} `{FactStore S} `{GoMapRange}.

Definition AddRule (rule : NetworkPolicyRule) (s : S) : option (result Z * S) := store_Put (NetworkPolicyPrefix +:+ RuleName rule) (ruleValue rule) s.

Definition RemoveRule (ruleName : string) (s : S) : option (result unit * S) := store_Delete (NetworkPolicyPrefix +:+ ruleName) s.

Definition rulesOf (facts : list Fact) : list NetworkPolicyRule :=
  omap (λ f, parseNetworkPolicyRule (TrimPrefix (Key f) NetworkPolicyPrefix) (Value f)) facts.

Definition ListRules (s : S) : option (StoreError + list NetworkPolicyRule) :=
  scanned ← store_Scan NetworkPolicyPrefix s;
  Some (match scanned with Err err => inl err | Ok facts => inr (rulesOf facts) end).

(** The action, and the error that comes with a prohibition when the rules cannot be
    read. *)
Definition EvaluatePolicy (sourceService targetService : string) (port : Z) (s : S) : option (string * option StoreError) :=
  listed ← ListRules s;
  Some (match listed with
        | inl err => (PolicyDeny, Some err)
        | inr rules => (evaluateRules rules sourceService targetService port, None)
        end).

(** ** Isolation of tenants *)

Definition hasExplicitDenyRule (sourceService targetService : string) (port : Z) (s : S) : option bool :=
  listed ← ListRules s;
  Some (match listed with
        | inl _ => false
        | inr rules =>
            existsb (λ rule,
              if negb (bool_decide (RuleAction rule = PolicyDeny)) then false
              else matchesRule rule sourceService targetService port) rules
        end).

Definition EvaluateTraffic (sourceService targetService : string) (port : Z) (s : S) : option (string * string * option StoreError) :=
  match ResolveTenantForService sourceService s, ResolveTenantForService targetService s with
  | Some sourceTenant, Some targetTenant =>
      '(baseAction, err) ← EvaluatePolicy sourceService targetService port s;
      match err with
      | Some err => Some (PolicyDeny, "error", Some err)
      | None =>
          if bool_decide (sourceTenant = targetTenant) then
            (if bool_decide (baseAction = PolicyDeny) then hasExplicitDenyRule sourceService targetService port s else Some false) ≫= λ explicit : bool,
              Some (if explicit then (PolicyDeny, "explicit-deny-same-tenant", None) else (PolicyAllow, "same-tenant", None))
          else if bool_decide (baseAction = PolicyAllow) then Some (PolicyAllow, "explicit-allow-cross-tenant", None)
          else Some (PolicyDeny, "cross-tenant-denied", None)
      end
  | _, _ =>
      '(action, err) ← EvaluatePolicy sourceService targetService port s;
      Some (action, "no-tenant-fallback", err)
  end.

(** The rules within a tenant: every service may reach every other. *)
Definition sameTenantRules (tenantName : string) (services : list string) : list DerivedFirewallRule :=
  services ≫= λ source, services ≫= λ target,
    if bool_decide (source = target) then []
    else [mkFirewallRule (SPIFFEIdentity tenantName source) (SPIFFEIdentity tenantName target) 0 PolicyAllow "same-tenant"].

Fixpoint tenantRules (tenants : list Tenant) (s : S) : option (list DerivedFirewallRule) :=
  match tenants with
  | [] => Some []
  | tenant :: tenants' =>
      listed ← ListServicesForTenant (TenantName tenant) s;
      rest ← tenantRules tenants' s;
      Some (match listed with inl _ => rest | inr services => sameTenantRules (TenantName tenant) services ++ rest end)
  end.

Definition identityOf (serviceName : string) (s : S) : string :=
  match ResolveTenantForService serviceName s with Some tenantName => SPIFFEIdentity tenantName serviceName | None => serviceName end.

Definition DeriveFirewallRules (s : S) : option (StoreError + list DerivedFirewallRule) :=
  listed ← ListTenants s;
  match listed with
  | inl err => Some (inl err)
  | inr tenants =>
      rules ← tenantRules tenants s;
      policies ← ListRules s;
      Some (inr (match policies with
                 | inl _ => rules
                 | inr policyRules =>
                     rules ++ ((λ rule, mkFirewallRule (identityOf (SourceService rule) s) (identityOf (TargetService rule) s) (RulePort rule) (RuleAction rule)
                                          ("explicit-policy:" +:+ RuleName rule)) <$> policyRules)
                 end))
  end.

End engine.

(** ** Decisions *)

(** Traffic a rule is about. *)
Definition applies (rule : NetworkPolicyRule) (source target : string) (port : Z) : Prop :=
  (SourceService rule = "*" ∨ SourceService rule = source) ∧ (TargetService rule = "*" ∨ TargetService rule = target) ∧
  (RulePort rule = 0 ∨ RulePort rule = port).

Lemma matchesRule_applies rule source target port : matchesRule rule source target port = true ↔ applies rule source target port.
Proof.
  unfold matchesRule, applies. repeat case_bool_decide; destruct (Z.eqb_spec (RulePort rule) 0), (Z.eqb_spec (RulePort rule) port); simpl;
    (split; [intros; split_and!; (tauto || done)|intros (? & ? & ?); (tauto || naive_solver)]).
Qed.

Lemma existsb_rule rules action source target port :
  existsb (λ rule, bool_decide (RuleAction rule = action) && matchesRule rule source target port) rules = true ↔
  ∃ rule, rule ∈ rules ∧ RuleAction rule = action ∧ applies rule source target port.
Proof.
  rewrite existsb_exists. split; intros (rule & Hin & Hr); exists rule.
  - rewrite andb_true_iff, bool_decide_eq_true, matchesRule_applies in Hr. by rewrite list_elem_of_In.
  - by rewrite andb_true_iff, bool_decide_eq_true, matchesRule_applies, <- list_elem_of_In.
Qed.

(** A rule of some action that is about the traffic. *)
Definition ruled (rules : list NetworkPolicyRule) (action source target : string) (port : Z) : Prop :=
  ∃ rule, rule ∈ rules ∧ RuleAction rule = action ∧ applies rule source target port.

Lemma evaluateRules_spec rules source target port :
  evaluateRules rules source target port = PolicyAllow ∧ ruled rules PolicyAllow source target port ∧ ¬ ruled rules PolicyDeny source target port ∨
  evaluateRules rules source target port = PolicyDeny ∧ (ruled rules PolicyDeny source target port ∨ ¬ ruled rules PolicyAllow source target port).
Proof.
  unfold evaluateRules, ruled. pose proof (existsb_rule rules PolicyDeny source target port) as Hd. pose proof (existsb_rule rules PolicyAllow source target port) as Ha.
  destruct (existsb _ rules); [right; split; [done|left; by apply Hd]|]. destruct (existsb _ rules); [left|right]; naive_solver.
Qed.

Lemma existsb_same {A} (f g : A → bool) l : (∀ x, f x = g x) → existsb f l = existsb g l.
Proof. intros E. induction l as [|x l IH]; simpl; [done|]. by rewrite E, IH. Qed.

Lemma if_negb_false (b c : bool) : (if negb b then false else c) = b && c.
Proof. by destruct b. Qed.

Section decided.
Context {S : Type} `{FactStore S} `{GoMapRange}.

(** The rules a store holds. *)
Definition holdsRule (s : S) (rule : NetworkPolicyRule) : Prop :=
  ∃ f, content s !! (NetworkPolicyPrefix +:+ RuleName rule) = Some f ∧ parseNetworkPolicyRule (RuleName rule) (Value f) = Some rule.

Lemma parse_name name value rule : parseNetworkPolicyRule name value = Some rule → RuleName rule = name.
Proof. unfold parseNetworkPolicyRule. intros E. repeat case_match; simplify_eq; done. Qed.

Lemma ListRules_exact s : usable s → ∃ rules, ListRules s = Some (inr rules) ∧ ∀ rule, rule ∈ rules ↔ holdsRule s rule.
Proof.
  intros Hs. destruct (scan_only s NetworkPolicyPrefix Hs) as (l & E & _ & Hl). unfold ListRules. rewrite E. simpl. eexists. split; [done|].
  intros rule. unfold rulesOf, holdsRule. rewrite list_elem_of_omap. split.
  - intros (f & (Hc & Hp & _)%Hl & Er). pose proof (parse_name _ _ _ Er) as En. exists f. apply HasPrefix_spec in Hp as [r Ek].
    unfold TrimPrefix in *. rewrite Ek, HasPrefix_app, str_drop_app in En, Er. rewrite En. split; [by rewrite <- Ek|done].
  - intros (f & Hc & Er). exists f. pose proof (content_key s _ f Hs Hc) as Ek. split.
    + apply Hl. rewrite Ek. split_and!; [done|apply HasPrefix_app|done].
    + unfold TrimPrefix. by rewrite Ek, HasPrefix_app, str_drop_app.
Qed.

(** Some stored rule of an action is about the traffic. *)
Definition stated (s : S) (action source target : string) (port : Z) : Prop :=
  ∃ rule, holdsRule s rule ∧ RuleAction rule = action ∧ applies rule source target port.

Lemma EvaluatePolicy_exact s source target port : usable s →
  ∃ action, EvaluatePolicy source target port s = Some (action, None) ∧
    (action = PolicyAllow ∧ stated s PolicyAllow source target port ∧ ¬ stated s PolicyDeny source target port ∨
     action = PolicyDeny ∧ (stated s PolicyDeny source target port ∨ ¬ stated s PolicyAllow source target port)).
Proof.
  intros Hs. destruct (ListRules_exact s Hs) as (rules & E & Hr). unfold EvaluatePolicy. rewrite E. simpl. eexists. split; [done|].
  pose proof (evaluateRules_spec rules source target port) as He. unfold ruled in He. setoid_rewrite Hr in He. exact He.
Qed.

(** Traffic is decided by the stored rules and the tenants alone: the engine allows exactly
    what a rule allows and no rule denies; between tenants the same holds; within one
    tenant everything is allowed that no rule denies. *)
Theorem network_policy_decides s source target port : usable s →
  (∃ action, EvaluatePolicy source target port s = Some (action, None) ∧
     (action = PolicyAllow ↔ stated s PolicyAllow source target port ∧ ¬ stated s PolicyDeny source target port)) ∧
  ∀ sourceTenant targetTenant, ResolveTenantForService source s = Some sourceTenant → ResolveTenantForService target s = Some targetTenant →
    ∃ action reason, EvaluateTraffic source target port s = Some (action, reason, None) ∧
      (action = PolicyAllow ↔
         (sourceTenant = targetTenant ∨ stated s PolicyAllow source target port) ∧ ¬ stated s PolicyDeny source target port).
Proof.
  intros Hs. destruct (EvaluatePolicy_exact s source target port Hs) as (action & E & Ha). split.
  { exists action. split; [done|]. destruct Ha as [(-> & ? & ?)|(-> & ?)]; [done|]. split; [intros [=]|tauto]. }
  intros t1 t2 E1 E2. unfold EvaluateTraffic. rewrite E1, E2, E. simpl.
  destruct (ListRules_exact s Hs) as (rules & El & Hr).
  assert (Hdeny : ∃ b, hasExplicitDenyRule source target port s = Some b ∧ (b = true ↔ stated s PolicyDeny source target port)).
  { unfold hasExplicitDenyRule. rewrite El. simpl. eexists. split; [done|].
    erewrite existsb_same; [|intros rule; exact (if_negb_false _ _)]. rewrite existsb_rule. unfold stated.
    split; intros (rule & Hin & Hrule); exists rule; (split; [by apply Hr|done]). }
  destruct Hdeny as (b & Eb & Hb). assert (Hne : PolicyDeny ≠ PolicyAllow) by (intros [=]). case_bool_decide as Et.
  - destruct Ha as [(-> & Hal & Hnd)|(-> & Hd)].
    + rewrite bool_decide_eq_false_2 by congruence. simpl. eexists _, _. split; [done|]. tauto.
    + rewrite bool_decide_eq_true_2, Eb by done. simpl. destruct b; eexists _, _; (split; [done|]); [tauto|].
      split; [|done]. intros _. split; [by left|]. intros Hs1%Hb. done.
  - destruct Ha as [(-> & Hal & Hnd)|(-> & Hd)].
    + rewrite bool_decide_eq_true_2 by done. eexists _, _. split; [done|]. tauto.
    + rewrite bool_decide_eq_false_2 by congruence. eexists _, _. split; [done|]. tauto.
Qed.

End decided.

(** ** From the configuration file to the decision *)

Lemma rule_value_read name source target port action :
  ContainsByte source ":" = false → ContainsByte target ":" = false → in_int64 port →
  parseNetworkPolicyRule name (source +:+ ":" +:+ target +:+ ":" +:+ Itoa port +:+ ":" +:+ action) = Some (mkPolicyRule name source target port action).
Proof.
  intros Hs Ht Hp. unfold parseNetworkPolicyRule.
  assert (Hsplit : SplitN ":" 4 (source +:+ ":" +:+ target +:+ ":" +:+ Itoa port +:+ ":" +:+ action) = [source; target; Itoa port; action]).
  { assert (Hc : ∀ x, ":" +:+ x = String ":" x) by done. rewrite !Hc. cbn [SplitN].
    rewrite !Cut_app; [done|by apply Itoa_ContainsByte|done..]. }
  rewrite Hsplit, bool_decide_eq_false_2 by apply Itoa_nonempty. by rewrite Atoi_Itoa.
Qed.

(** A rule that is added is read back as it was. *)
Theorem AddRule_roundtrip {S} `{FactStore S} rule s : usable s →
  ContainsByte (SourceService rule) ":" = false → ContainsByte (TargetService rule) ":" = false → in_int64 (RulePort rule) →
  ∃ rev s' rules, AddRule rule s = Some (Ok rev, s') ∧ usable s' ∧ ListRules s' = Some (inr rules) ∧ rule ∈ rules ∧
    ∀ rule', RuleName rule' ≠ RuleName rule → rule' ∈ rules ↔ holdsRule s rule'.
Proof.
  intros Hs Hsrc Htgt Hp. unfold AddRule. destruct (put_exact s (NetworkPolicyPrefix +:+ RuleName rule) (ruleValue rule) Hs) as (rev & s' & E & Hs' & _ & (f & Ef & Ev) & Hk).
  destruct (ListRules_exact s' Hs') as (rules & El & Hr). exists rev, s', rules. split_and!; [done..| |].
  - apply Hr. exists f. split; [done|]. rewrite Ev. unfold ruleValue. rewrite rule_value_read by done. by destruct rule.
  - intros rule' Hne. rewrite Hr. unfold holdsRule. rewrite Hk; [done|]. intros E'%(inj (String.append _)). done.
Qed.

(** Facts that are no network rules. *)
Definition notRule (f : CompiledFact) : Prop := HasPrefix (FactKey f) "policy/network/" = false.

Section compiled.
Context `{Unicode} (ReadFile : string → string + string).

Lemma infrastructure_notRule file lines : yields notRule (compileInfrastructureDeclarations ReadFile file lines).
Proof.
  unfold compileInfrastructureDeclarations, compileTenantDeclaration, compileVolumeDeclaration, compileCloudIdentityDeclaration,
    compileCredentialBrokerDeclaration, compileCloudDeclaration, compileConnectionDeclaration, compileRouteDeclaration, compileRouteTLS,
    compileTLSFacts, compileStickyFacts, buildCloudIdentityFactsFromDeclaration.
  compiled_area.
Qed.

(** What the service declarations compile to is no rule: it is declared elsewhere or
    effective. *)
Lemma service_notRule d lines baseDir connections : yields notRule (compileServiceDeclaration ReadFile d lines baseDir connections).
Proof.
  unfold compileServiceDeclaration, compileServicePortsFacts, compileServiceScaleFacts, compileServiceHorizontalScaleFacts, compileServiceVerticalScaleFacts,
    compileScheduleFacts, compileServiceConfigFacts, compileConfigFile, compileServiceResourceFacts, compileServiceVolumeMountFacts,
    compileServicePlacementFacts, compileServiceUpdateFacts, compileServiceHealthProbeFacts, compileProbeDeclaration, compileServiceSecretFacts,
    compileServiceConnectionRefFacts, compileServiceCloudIdentityFacts, compileServiceInitStepFacts, compileInitStep, compileServiceDisruptionFacts,
    compileServiceTagFacts, compileServiceLoggingFacts, compileServiceLifecycleFacts.
  compiled_area. apply yields_ret. fact_area. destruct (negb _); reflexivity.
Qed.

Lemma bind_inr {A B} (m : compiled A) (k : A → compiled B) b : m ≫= k = inr b → ∃ a, m = inr a ∧ k a = inr b.
Proof. destruct m as [err|a]; [done|]. by exists a. Qed.

Lemma accessControl_rules file lines facts : compileAccessControlDeclarations file lines = inr facts →
  ∃ front rules, facts = front ++ rules ∧ Forall notRule front ∧ compileEach (λ d, compileNetworkDeclaration d lines) (File_Networks file) = inr rules.
Proof.
  unfold compileAccessControlDeclarations. intros E.
  apply bind_inr in E as (roles & E1 & E). apply bind_inr in E as (grants & E2 & E). apply bind_inr in E as (groups & E3 & E).
  apply bind_inr in E as (serviceGroups & E4 & E). apply bind_inr in E as (policies & E5 & E). apply bind_inr in E as (networks & E6 & E). injection E as <-.
  exists (roles ++ grants ++ groups ++ serviceGroups ++ policies), networks. rewrite <- !app_assoc. split_and!; [done| |done].
  rewrite !Forall_app. split_and!; [revert E1|revert E2|revert E3|revert E4|revert E5];
    match goal with |- ?m = inr ?fs → _ => generalize fs; change (yields notRule m) end;
    unfold compileRoleDeclaration, compileGrantDeclaration, compileGroupDeclaration, compileServiceGroupDeclaration, compilePolicyDeclaration; compiled_area.
Qed.

(** The facts of a file: first no rules, then those of its network blocks. *)
Lemma compile_rules file lines facts : CompileWithSource ReadFile file lines = inr facts →
  ∃ front rules, facts = front ++ rules ∧ Forall notRule front ∧ compileEach (λ d, compileNetworkDeclaration d lines) (File_Networks file) = inr rules.
Proof.
  unfold CompileWithSource. intros E. apply bind_inr in E as (infrastructure & E1 & E). cbv zeta in E.
  apply bind_inr in E as (services & E2 & E). apply bind_inr in E as (jobs & E3 & E). apply bind_inr in E as (cronJobs & E4 & E).
  apply bind_inr in E as (access & E5 & E). injection E as <-. apply accessControl_rules in E5 as (front & rules & -> & Hf & Er).
  exists (infrastructure ++ services ++ jobs ++ cronJobs ++ front), rules. rewrite <- !app_assoc. split_and!; [done| |done].
  rewrite !Forall_app. split_and!; [by apply (infrastructure_notRule file lines)| | | |done].
  - revert services E2. change (yields notRule (compileEach (λ d, compileServiceDeclaration ReadFile d lines (utf8 (File_BaseDir file))
      (buildConnectionDeclMap (File_Connections file))) (File_Services file))). apply yields_each. intros. apply service_notRule.
  - revert jobs E3. change (yields notRule (compileEach (λ d, compileJobDeclaration d lines) (File_Jobs file))). unfold compileJobDeclaration. compiled_area.
  - revert cronJobs E4. change (yields notRule (compileEach (λ d, compileCronJobDeclaration d lines) (File_CronJobs file))). unfold compileCronJobDeclaration. compiled_area.
Qed.

(** The rules of one block carry their number in their name. *)
Lemma networkRuleName_index i j r r' : 0 ≤ i → 0 ≤ j → networkRuleName i r = networkRuleName j r' → Itoa i = Itoa j.
Proof.
  intros Hi Hj E. unfold networkRuleName in E. rewrite <- !str_app_assoc in E.
  assert (Hd : ∀ x y : string, x +:+ "-" +:+ y = x +:+ String "-" "" +:+ y) by done.
  rewrite !(str_app_assoc _ "-" _) in E. apply (last_part_inj "-") in E as [_ E]; [done|by apply Itoa_unsigned..].
Qed.

Lemma networkFacts_elem d lines facts f : compileNetworkDeclaration d lines = inr facts → f ∈ facts →
  ∃ i r, Network_Rules d !! i = Some r ∧ f = mkCompiledFact (KeyNetworkPolicyRule (networkRuleName (Z.of_nat i) r)) (networkRuleValue r).
Proof.
  unfold compileNetworkDeclaration. intros E. revert f. apply Forall_forall. revert facts E.
  change (yields (λ f, ∃ i r, Network_Rules d !! i = Some r ∧ f = mkCompiledFact (KeyNetworkPolicyRule (networkRuleName (Z.of_nat i) r)) (networkRuleValue r))
    (compileEach (λ ix, let r := ix.2 in
      if isEmpty (NetworkRule_Source r) || isEmpty (NetworkRule_Target r) then
        declarationError lines (NetworkRule_Line r) "network rule requires both source and target service names" []
      else mret [mkCompiledFact (KeyNetworkPolicyRule (networkRuleName ix.1 r)) (networkRuleValue r)]) (indexed (Network_Rules d)))).
  apply yields_each. intros [z r] Hin. cbv zeta. apply yields_if; [apply yields_error|]. apply yields_ret, Forall_singleton.
  unfold indexed in Hin. apply list_elem_of_lookup in Hin as [i Hi]. apply lookup_zip_with_Some in Hi as (z' & r' & [= -> ->] & Hz & Hr).
  rewrite list_lookup_fmap in Hz. destruct (seq 0 (length (Network_Rules d)) !! i) as [n|] eqn:En; [|done]. apply lookup_seq in En as [-> _]. simplify_eq/=. eauto.
Qed.

Lemma networkFacts_all d lines facts i r : compileNetworkDeclaration d lines = inr facts → Network_Rules d !! i = Some r →
  mkCompiledFact (KeyNetworkPolicyRule (networkRuleName (Z.of_nat i) r)) (networkRuleValue r) ∈ facts.
Proof.
  unfold compileNetworkDeclaration. intros E Hr.
  assert (Hin : (Z.of_nat i, r) ∈ indexed (Network_Rules d)).
  { unfold indexed. apply (list_elem_of_lookup_2 _ i), lookup_zip_with_Some. exists (Z.of_nat i), r. split_and!; [done| |done].
    rewrite list_lookup_fmap, lookup_seq_lt; [done|]. by eapply lookup_lt_Some. }
  destruct (compileEach_elem _ _ _ _ E Hin) as (facts' & E' & Hsub). apply Hsub. cbv zeta in E'. simpl in E'.
  destruct (isEmpty (NetworkRule_Source r) || isEmpty (NetworkRule_Target r)); [discriminate E'|]. injection E' as <-. left.
Qed.

Lemma compiled_rule_value file lines facts d i r : CompileWithSource ReadFile file lines = inr facts → File_Networks file = [d] → Network_Rules d !! i = Some r →
  let key := KeyNetworkPolicyRule (networkRuleName (Z.of_nat i) r) in
  key ∈ FactKey <$> facts ∧ ∀ g, g ∈ facts → FactKey g = key → FactValue g = networkRuleValue r.
Proof.
  intros E Ed Hr key. apply compile_rules in E as (front & rules & -> & Hf & Er). rewrite Ed in Er. simpl in Er.
  apply bind_inr in Er as (rules' & Er & E2). injection E2 as <-. rewrite app_nil_r in *. split.
  - rewrite fmap_app, elem_of_app. right. exact (list_elem_of_fmap_2 FactKey _ _ (networkFacts_all d lines rules' i r Er Hr)).
  - intros g [Hg|Hg]%elem_of_app Ek.
    + rewrite Forall_forall in Hf. specialize (Hf g Hg). unfold notRule in Hf. rewrite Ek in Hf. subst key. unfold KeyNetworkPolicyRule in Hf.
      change ScanNetworkPolicies with "policy/network/" in Hf. by rewrite HasPrefix_app in Hf.
    + destruct (networkFacts_elem d lines rules' g Er Hg) as (j & r' & Hr' & ->). simpl in *. subst key. unfold KeyNetworkPolicyRule in Ek.
      apply (inj (String.append _)) in Ek. apply networkRuleName_index in Ek; [|lia..]. apply (inj Itoa) in Ek. apply Nat2Z.inj in Ek. congruence.
Qed.


End compiled.

(** ** Concrete rules *)

#[local] Existing Instance ascii_only.
#[local] Existing Instance reference_range.

Definition denyText : text := runes "network { deny shop/web -> bank/db allow shop/web -> bank/api port 443 }".

Definition deniedStore : MemoryStore := match Apply noFiles denyText (storeWith []) with Some (_, s) => s | None => NewMemoryStore end.

Definition denyFile : File := match Parse denyText with Some (inr file) => file | _ => File_zero end.
Definition denyBlock : NetworkDecl := default NetworkDecl_zero (head (File_Networks denyFile)).
Definition denyRule : NetworkRuleDecl := default NetworkRuleDecl_zero (head (Network_Rules denyBlock)).


Lemma network_policy_decides_witness :
  ∃ action, EvaluatePolicy "shop/web" "bank/api" 443 deniedStore = Some (action, None) ∧ action = PolicyAllow.
Proof.
  assert (Hu : usable deniedStore).
  { destruct (Apply_usable noFiles denyText (storeWith []) (storeWith_usable _)) as (r & s' & E & Hs'). unfold deniedStore. rewrite E. exact Hs'. }
  destruct (network_policy_decides deniedStore "shop/web" "bank/api" 443 Hu) as [(action & E & Ha) _]. exists action. split; [exact E|].
  assert (E' : fst <$> EvaluatePolicy "shop/web" "bank/api" 443 deniedStore = Some PolicyAllow) by (vm_compute; reflexivity).
  rewrite E in E'. by injection E'.
Defined.

Definition webRule : NetworkPolicyRule := mkPolicyRule "web" "shop/web" "bank/db" 5432 "allow".

Lemma AddRule_roundtrip_witness :
  ∃ rev s' rules, AddRule webRule (storeWith []) = Some (Ok rev, s') ∧ usable s' ∧ ListRules s' = Some (inr rules) ∧ webRule ∈ rules ∧
    ∀ rule', RuleName rule' ≠ RuleName webRule → rule' ∈ rules ↔ holdsRule (storeWith []) rule'.
Proof.
  apply (AddRule_roundtrip webRule (storeWith []) (storeWith_usable _)); [reflexivity|reflexivity|].
  unfold in_int64, int64_min, int64_max. simpl. lia.
Defined.
