(* ===== verification/TenantResources.v ===== *)
(** * The resources of tenants (src/tenant/)

    lifecycle.go, garbage_collector.go, shared_service.go, scoped_query.go and
    audit_view.go, over any [FactStore]. Failed deletions are only logged in the source,
    so a deletion leaves the store it has reached and no result. *)

From S2P Require Import Prelude GoStrings GoFmt Keys KeyNames EventHistory MemoryStore StateStore Authorizer Conditions APIAuthorizer.
From S2P Require Import Compiler Tenant.
Import MemStore.

Local Open Scope Z_scope.

(** ** What a team sees (scoped_query.go) *)

Definition PrincipalKindSystem : string := "system".
Definition PrincipalKindNode : string := "node".

Definition IsPlatformPrincipal (principal : Principal) : bool :=
  if bool_decide (PrincipalKind principal = PrincipalKindSystem) then true
  else if bool_decide (PrincipalKind principal = PrincipalKindNode) then true
  else HasGroup principal "platform".

Fixpoint teamAttribute (attributes : list Attribute) : string :=
  match attributes with
  | [] => ""
  | attribute :: attributes' => if bool_decide (AttributeKey attribute = "team") then AttributeValue attribute else teamAttribute attributes'
  end.

Definition ResolvePrincipalTenant (principal : Principal) : string := teamAttribute (PrincipalAttributes principal).

Definition isServiceOwnedByTenant (serviceName explicitOwner tenantName : string) : bool :=
  if negb (bool_decide (explicitOwner = "")) then bool_decide (explicitOwner = tenantName)
  else bool_decide (ExtractTenantFromName serviceName = tenantName).

Definition FilterServiceNamesByTeams (serviceNames teamNames : list string) (ownerByService : gmap string string) : list string :=
  filter (λ serviceName, existsb (isServiceOwnedByTenant serviceName (default "" (ownerByService !! serviceName))) teamNames) serviceNames.

Definition knownServiceFields : list string :=
  ["image"; "instances"; "port"; "owner"; "cpu"; "memory"; "health"; "config"; "secret"; "scale"; "placement"; "update";
   "init"; "startup"; "liveness"; "readiness"; "cloud_identity"; "external_port"; "volume"].

(** The loop from the last segment down to the second: the segments before a known
    field. [before] are the segments in front of [segment]. *)
Fixpoint segmentsBeforeField (reversed : list string) : option (list string) :=
  match reversed with
  | [] | [_] => None
  | segment :: before => if bool_decide (segment ∈ knownServiceFields) then Some (reverse before) else segmentsBeforeField before
  end.

Definition extractServiceNameFromPath (servicePath : string) : string :=
  let pathSegments := Split slashByte servicePath in
  match segmentsBeforeField (reverse pathSegments) with
  | Some segments => Join slashByte segments
  | None => match pathSegments with a :: b :: _ => a +:+ "/" +:+ b | [a] => a | [] => servicePath end
  end.

Definition isFactVisibleToTenant (factKey tenantName : string) : bool :=
  if HasPrefix factKey (PrefixDesired +:+ "/service/") then
    let serviceName := extractServiceNameFromPath (TrimPrefix factKey (PrefixDesired +:+ "/service/")) in
    bool_decide (ExtractTenantFromName serviceName = tenantName)
  else if HasPrefix factKey "observed/instance/" then true
  else true.

Definition IsFactVisibleToTeams (factKey : string) (teamNames : list string) : bool := existsb (isFactVisibleToTenant factKey) teamNames.

(** ** Audit entries of a tenant (audit_view.go) *)

Definition isVisibleToTenant (entry : AuditEntry) (tenantName : string) : bool :=
  if Contains (AuditTarget entry) ("/" +:+ tenantName +:+ "/") then true
  else if HasPrefix (AuditTarget entry) (tenantName +:+ "/") then true
  else if bool_decide (AuditTarget entry = tenantName) then true
  else if Contains (AuditPrincipal entry) tenantName then true
  else false.

Definition EntriesForTenant (tenantName : string) (entries : list AuditEntry) : list AuditEntry :=
  filter (λ entry, isVisibleToTenant entry tenantName) entries.

Definition EntriesForPrincipal (principal : string) (entries : list AuditEntry) : list AuditEntry :=
  filter (λ entry, AuditPrincipal entry = principal) entries.

Definition DeniedEntries (tenantName : string) (entries : list AuditEntry) : list AuditEntry :=
  let source := if negb (bool_decide (tenantName = "")) then EntriesForTenant tenantName entries else entries in
  filter (λ entry, AuditDecision entry = "DENY") source.

(** ** Names of services in keys (fair_scheduler.go) *)

Definition knownSuffixes : list string :=
  ["/resources/cpu"; "/resources/memory"; "/scale/horizontal/"; "/scale/vertical/"; "/placement/architecture"; "/placement/zone";
   "/update/max_unavailable"; "/update/max_extra"; "/health/method"; "/health/path"; "/health/interval"; "/config/env/"; "/config/file/";
   "/secret/"; "/volume/"; "/expose/"; "/quota/instances"; "/instances"; "/image"; "/owner"].

Fixpoint cutAtSuffix (relativePath : string) (suffixes : list string) : string * string :=
  match suffixes with
  | [] => (relativePath, "")
  | suffix :: suffixes' =>
      match beforeFirst relativePath suffix with
      | Some (String c name) => (String c name, str_drop (S (String.length (String c name))) relativePath)
      | _ => cutAtSuffix relativePath suffixes'
      end
  end.

Definition extractServiceNameAndField (relativePath : string) : string * string := cutAtSuffix relativePath knownSuffixes.

Section resources.
Context {S : Type} `{FactStore S} `{GoMapRange}.

Definition ScanVisibleToTeams (prefix : string) (teamNames : list string) (s : S) : option (StoreError + list Fact) :=
  scanned ← store_Scan prefix s;
  Some (match scanned with
        | Err err => inl err
        | Ok facts => inr (filter (λ f, IsFactVisibleToTeams (Key f) teamNames) facts)
        end).

(** [facts, _ := factStore.Scan(...)]: no facts when it fails. *)
Definition scanOrNone (prefix : string) (s : S) : option (list Fact) :=
  scanned ← store_Scan prefix s;
  Some (match scanned with Ok facts => facts | Err _ => [] end).

(** Deleting keys; a failure is logged and the next key is tried. *)
Fixpoint deleteKeys (keys : list string) (s : S) : option S :=
  match keys with
  | [] => Some s
  | key :: keys' => '(_, s') ← store_Delete key s; deleteKeys keys' s'
  end.

(** ** Creation and deletion (lifecycle.go) *)

Record ProvisionedTenant := mkProvisioned {
  ProvisionedName : string;
  ProvisionedState : string;
  QuotaProvisioned : bool;
  NetworkBoundary : bool;
  SecretSpace : bool;
  AuditStream : bool
}.

Definition tenantInfraPrefix (tenantName : string) : string := "tenant/" +:+ tenantName +:+ "/".

Definition quotaFacts (tenantName : string) (quota : Quota) : list (string * string) :=
  (if 0 <? QuotaCPU quota then [(KeyDesiredTenantQuotaCPU tenantName, Itoa (QuotaCPU quota))] else []) ++
  (if bool_decide (QuotaMemory quota = "") then [] else [(KeyDesiredTenantQuotaMemory tenantName, QuotaMemory quota)]) ++
  (if 0 <? QuotaInstances quota then [(KeyDesiredTenantQuotaInstances tenantName, Itoa (QuotaInstances quota))] else []) ++
  (if 0 <? QuotaVolumes quota then [(KeyDesiredTenantQuotaVolumes tenantName, Itoa (QuotaVolumes quota))] else []) ++
  (if bool_decide (QuotaStorage quota = "") then [] else [(KeyDesiredTenantQuotaStorage tenantName, QuotaStorage quota)]).

Definition provisioningFacts (tenantName : string) (quota : option Quota) (weight : Z) : list (string * string) :=
  [(KeyDesiredTenant tenantName, ""); (KeyDesiredTenantState tenantName, TenantActive)] ++
  match quota with Some q => quotaFacts tenantName q | None => [] end ++
  (if 0 <? weight then [(KeyDesiredTenantWeight tenantName, Itoa weight)] else []) ++
  [(tenantInfraPrefix tenantName +:+ "network/boundary", "isolated");
   (tenantInfraPrefix tenantName +:+ "secrets/namespace", "reserved");
   (tenantInfraPrefix tenantName +:+ "audit/stream", "active")].

Inductive LifecycleError := TenantExists (tenantName : string) | TenantMissing (tenantName : string) | NotProvisioned (key : string) (err : StoreError).

Definition CreateTenant (tenantName : string) (quota : option Quota) (weight : Z) (s : S) : option ((LifecycleError + ProvisionedTenant) * S) :=
  match getValue (KeyDesiredTenant tenantName) s with
  | Some _ => Some (inl (TenantExists tenantName), s)
  | None =>
      written ← putAll (provisioningFacts tenantName quota weight) s;
      Some (match written with
            | (Some (key, putError), s') => (inl (NotProvisioned key putError), s')
            | (None, s') => (inr (mkProvisioned tenantName TenantActive (bool_decide (is_Some quota)) true true true), s')
            end)
  end.

Definition GetTenantState (tenantName : string) (s : S) : option string := getValue (KeyDesiredTenantState tenantName) s.

Definition serviceOfKey (key : string) : string := fst (extractServiceNameAndField (TrimPrefix key ScanDesiredServices)).

Definition ownedServiceKeys (tenantName : string) (serviceFacts : list Fact) (s : S) : list string :=
  Key <$> filter (λ f, ownedBy tenantName (serviceOfKey (Key f)) s) serviceFacts.

Definition deleteOwnedServices (tenantName : string) (s : S) : option (Z * S) :=
  scanned ← store_Scan ScanDesiredServices s;
  match scanned with
  | Err _ => Some (0, s)
  | Ok serviceFacts =>
      let keysToDelete := ownedServiceKeys tenantName serviceFacts s in
      let serviceNames := nameSet (serviceOfKey <$> keysToDelete) in
      s1 ← deleteKeys keysToDelete s;
      s2 ← deleteKeys (map_range serviceNames ≫= λ '(serviceName, _),
             [KeyEffectiveServiceInstances serviceName; KeyIntentUserServiceInstances serviceName; KeyIntentAutoscalerServiceInstances serviceName]) s1;
      Some (Z.of_nat (size serviceNames), s2)
  end.

(** The tenant of a volume's path and the name of the volume: its first two segments. *)
Definition volumeOfPath (relativePath : string) : option (string * string) :=
  match Cut slashByte relativePath with
  | Some (String c tenant, rest) =>
      Some (String c tenant, match Cut slashByte rest with Some (leaf, _) => String c tenant +:+ "/" +:+ leaf | None => relativePath end)
  | _ => None
  end.

Definition deleteOwnedVolumes (tenantName : string) (s : S) : option (Z * S) :=
  scanned ← store_Scan ScanDesiredVolumes s;
  match scanned with
  | Err _ => Some (0, s)
  | Ok volumeFacts =>
      let owned := volumeFacts ≫= λ f,
        match volumeOfPath (TrimPrefix (Key f) ScanDesiredVolumes) with
        | Some (possibleTenant, volumeName) => if bool_decide (possibleTenant = tenantName) then [(Key f, volumeName)] else []
        | None => []
        end in
      s1 ← deleteKeys owned.*1 s;
      Some (Z.of_nat (size (nameSet owned.*2)), s1)
  end.

(** [strings.SplitN(path, "/allow/", 2)[0]] *)
Definition exportedName (relativePath : string) : string := default relativePath (beforeFirst relativePath "/allow/").

Definition deleteExports (tenantName : string) (s : S) : option (Z * S) :=
  scanned ← store_Scan PrefixExport s;
  match scanned with
  | Err _ => Some (0, s)
  | Ok exportFacts =>
      let count := Z.of_nat (length (filter (λ f, Value f = tenantName) exportFacts)) in
      s1 ← deleteKeys (Key <$> filter (λ f, ExtractTenantFromName (exportedName (TrimPrefix (Key f) PrefixExport)) = tenantName) exportFacts) s;
      Some (count, s1)
  end.

(** Deleting what a scan finds; nothing when it fails. *)
Definition deleteScanned (prefix : string) (s : S) : option S :=
  facts ← scanOrNone prefix s;
  deleteKeys (Key <$> facts) s.

Definition deleteTenantInfraFacts (tenantName : string) (s : S) : option S := deleteScanned (tenantInfraPrefix tenantName) s.

(** When the scan fails the marker is not deleted either. *)
Definition deleteTenantDesiredFacts (tenantName : string) (s : S) : option S :=
  scanned ← store_Scan (PrefixDesiredTenant +:+ tenantName) s;
  match scanned with
  | Err _ => Some s
  | Ok tenantFacts =>
      s1 ← deleteKeys (Key <$> tenantFacts) s;
      deleteKeys [KeyDesiredTenant tenantName] s1
  end.

Definition deleteObservedUsageFacts (tenantName : string) (s : S) : option S :=
  deleteKeys [KeyObservedTenantUsageCPU tenantName; KeyObservedTenantUsageMemory tenantName;
              KeyObservedTenantUsageInstances tenantName; KeyObservedTenantUsageVolumes tenantName] s.

Record DeletionResult := mkDeletion { DeletedTenant : string; ServicesDeleted : Z; VolumesDeleted : Z; ExportsDeleted : Z }.

Definition DeleteTenant (tenantName : string) (s : S) : option ((LifecycleError + DeletionResult) * S) :=
  match getValue (KeyDesiredTenant tenantName) s with
  | None => Some (inl (TenantMissing tenantName), s)
  | Some _ =>
      '(_, s0) ← store_Put (KeyDesiredTenantState tenantName) TenantDeleting s;
      '(services, s1) ← deleteOwnedServices tenantName s0;
      '(volumes, s2) ← deleteOwnedVolumes tenantName s1;
      '(exports, s3) ← deleteExports tenantName s2;
      s4 ← deleteTenantInfraFacts tenantName s3;
      s5 ← deleteTenantDesiredFacts tenantName s4;
      s6 ← deleteObservedUsageFacts tenantName s5;
      Some (inr (mkDeletion tenantName services volumes exports), s6)
  end.

(** ** Collection of everything a tenant owns (garbage_collector.go) *)

Record resourceNode := mkNode { resourceType : string; resourceName : string; factKeys : list string }.

Definition discoverTenantRootKeys (tenantName : string) (s : S) : option (list resourceNode) :=
  tenantFacts ← scanOrNone (PrefixDesiredTenant +:+ tenantName +:+ "/") s;
  if bool_decide (tenantFacts = []) then Some []
  else
    let marker := match getValue (KeyDesiredTenant tenantName) s with Some _ => [KeyDesiredTenant tenantName] | None => [] end in
    usageFacts ← scanOrNone (PrefixObservedTenant +:+ tenantName +:+ "/") s;
    infraFacts ← scanOrNone (tenantInfraPrefix tenantName) s;
    Some [mkNode "tenant" tenantName (marker ++ (Key <$> tenantFacts) ++ (Key <$> usageFacts) ++ (Key <$> infraFacts))].

(** [m[name] = append(m[name], key)] *)
Definition appendKey (m : gmap string (list string)) (name key : string) : gmap string (list string) :=
  <[name := default [] (m !! name) ++ [key]]> m.

(** The prefixes whose facts go with a service. *)
Definition servicePrefixes (serviceName : string) : list string :=
  [ScanEffectiveServices +:+ serviceName; ScanIntentUserServices +:+ serviceName; ScanIntentAutoscalerServices +:+ serviceName;
   ScanDerivedServices +:+ serviceName; ScanObservedServices +:+ serviceName].

Fixpoint scanAll (prefixes : list string) (s : S) : option (list string) :=
  match prefixes with
  | [] => Some []
  | prefix :: prefixes' => facts ← scanOrNone prefix s; keys ← scanAll prefixes' s; Some ((Key <$> facts) ++ keys)
  end.

Fixpoint serviceNodes (services : list (string * list string)) (s : S) : option (list resourceNode) :=
  match services with
  | [] => Some []
  | (serviceName, keys) :: services' =>
      more ← scanAll (servicePrefixes serviceName) s;
      nodes ← serviceNodes services' s;
      Some (mkNode "service" serviceName (keys ++ more) :: nodes)
  end.

Definition discoverDirectChildren (tenantName : string) (s : S) : option (list resourceNode) :=
  serviceFacts ← scanOrNone ScanDesiredServices s;
  let serviceKeysMap := foldl (λ m f,
    let serviceName := serviceOfKey (Key f) in
    if ownedBy tenantName serviceName s then appendKey m serviceName (Key f) else m) ∅ serviceFacts in
  services ← serviceNodes (map_range serviceKeysMap) s;
  volumeFacts ← scanOrNone ScanDesiredVolumes s;
  let volumeKeysMap := foldl (λ m f,
    let segment := firstSegment (TrimPrefix (Key f) ScanDesiredVolumes) in
    if bool_decide (segment = tenantName) then appendKey m segment (Key f) else m) ∅ volumeFacts in
  Some (services ++ ((λ '(volumeName, keys), mkNode "volume" volumeName keys) <$> map_range volumeKeysMap)).

Definition readOwnedInstance (maps : gmap string string * gmap string (list string)) (f : Fact) : gmap string string * gmap string (list string) :=
  let '(instanceServices, instanceKeys) := maps in
  match Cut slashByte (TrimPrefix (Key f) ScanObservedInstances) with
  | None => maps
  | Some (instanceID, fieldName) =>
      (if bool_decide (fieldName = "service") then <[instanceID := Value f]> instanceServices else instanceServices, appendKey instanceKeys instanceID (Key f))
  end.

Definition discoverInstances (serviceNames : gmap string unit) (s : S) : option (list resourceNode) :=
  if bool_decide (serviceNames = ∅) then Some []
  else
    instanceFacts ← scanOrNone ScanObservedInstances s;
    let '(instanceServices, observedKeys) := foldl readOwnedInstance (∅, ∅) instanceFacts in
    derivedInstanceFacts ← scanOrNone ScanDerivedInstances s;
    let instanceKeys := foldl (λ m f, appendKey m (firstSegment (TrimPrefix (Key f) ScanDerivedInstances)) (Key f)) observedKeys derivedInstanceFacts in
    Some ('(instanceID, serviceName) ← map_range instanceServices;
          if bool_decide (is_Some (serviceNames !! serviceName)) then [mkNode "instance" instanceID (default [] (instanceKeys !! instanceID))] else []).

Fixpoint endpointNodes (services : list (string * unit)) (s : S) : option (list resourceNode) :=
  match services with
  | [] => Some []
  | (serviceName, _) :: services' =>
      endpointFacts ← scanOrNone (ScanEndpoints +:+ serviceName +:+ "/") s;
      nodes ← endpointNodes services' s;
      Some ((if bool_decide (endpointFacts = []) then [] else [mkNode "endpoint" serviceName (Key <$> endpointFacts)]) ++ nodes)
  end.

Definition discoverLeafResources (serviceNames instanceIDs : gmap string unit) (s : S) : option (list resourceNode) :=
  endpoints ← endpointNodes (map_range serviceNames) s;
  placementFacts ← scanOrNone ScanPlacements s;
  Some (endpoints ++ (placementFacts ≫= λ f,
    let instanceID := firstSegment (TrimPrefix (Key f) ScanPlacements) in
    if bool_decide (is_Some (instanceIDs !! instanceID)) then [mkNode "placement" instanceID [Key f]] else [])).

Definition namesOfType (nodeType : string) (nodes : list resourceNode) : gmap string unit :=
  nameSet (resourceName <$> filter (λ node, resourceType node = nodeType) nodes).

Definition extractServiceNames := namesOfType "service".
Definition extractInstanceIDs := namesOfType "instance".

Definition unlessNone (level : list resourceNode) : list (list resourceNode) := if bool_decide (level = []) then [] else [level].

Definition CollectTenantResources (tenantName : string) (s : S) : option (list (list resourceNode)) :=
  tenantRoot ← discoverTenantRootKeys tenantName s;
  if bool_decide (tenantRoot = []) then Some []
  else
    directChildren ← discoverDirectChildren tenantName s;
    let serviceNames := extractServiceNames directChildren in
    instances ← discoverInstances serviceNames s;
    leafResources ← discoverLeafResources serviceNames (extractInstanceIDs instances) s;
    Some ([tenantRoot] ++ unlessNone directChildren ++ unlessNone instances ++ unlessNone leafResources).

(** The levels, and the number of keys, deepest level first. *)
Definition DeleteTenantResources (tenantName : string) (s : S) : option (list (list resourceNode) * Z * S) :=
  resourceLevels ← CollectTenantResources tenantName s;
  let keys := reverse resourceLevels ≫= λ level, level ≫= factKeys in
  s' ← deleteKeys keys s;
  Some (resourceLevels, Z.of_nat (length keys), s').

(** ** Services shared between tenants (shared_service.go) *)

Inductive SharingError :=
| NoOwner (serviceName : string)
| NotExported (serviceName : string)
| NotAllowed (consumerService exportedService : string)
| SharingStoreError (err : StoreError).

Definition ExportService (serviceName : string) (allowedTenants : list string) (s : S) : option (option SharingError * S) :=
  match ResolveTenantForService serviceName s with
  | None => Some (Some (NoOwner serviceName), s)
  | Some ownerTenant =>
      written ← putAll ((KeyExportService serviceName, ownerTenant) ::
                        ((λ tenantName, (KeyExportServiceAllowTenant serviceName tenantName, "")) <$> allowedTenants)) s;
      Some (match written with (Some (_, err), s') => (Some (SharingStoreError err), s') | (None, s') => (None, s') end)
  end.

(** Deleting until a deletion fails. *)
Fixpoint deleteEach (keys : list string) (s : S) : option (option StoreError * S) :=
  match keys with
  | [] => Some (None, s)
  | key :: keys' =>
      deleted ← store_Delete key s;
      match deleted with
      | (Err err, s') => Some (Some err, s')
      | (Ok _, s') => deleteEach keys' s'
      end
  end.

Definition UnexportService (serviceName : string) (s : S) : option (option StoreError * S) :=
  scanned ← store_Scan (ScanExportServiceAllowTenants serviceName) s;
  match scanned with
  | Err err => Some (Some err, s)
  | Ok allowFacts => deleteEach ((Key <$> allowFacts) ++ [KeyExportService serviceName]) s
  end.

Definition IsImportAllowed (consumerService exportedService : string) (s : S) : SharingError + bool :=
  match getValue (KeyExportService exportedService) s with
  | None => inl (NotExported exportedService)
  | Some exportOwner =>
      match ResolveTenantForService consumerService s with
      | None => inl (NoOwner consumerService)
      | Some consumerTenant =>
          if bool_decide (consumerTenant = exportOwner) then inr true
          else inr (bool_decide (is_Some (getValue (KeyExportServiceAllowTenant exportedService consumerTenant) s)))
      end
  end.

Definition ImportService (consumerService exportedService : string) (s : S) : option (option SharingError * S) :=
  match IsImportAllowed consumerService exportedService s with
  | inl err => Some (Some err, s)
  | inr false => Some (Some (NotAllowed consumerService exportedService), s)
  | inr true =>
      '(written, s') ← store_Put (KeyImportService consumerService exportedService) "" s;
      Some (match written with Err err => Some (SharingStoreError err) | Ok _ => None end, s')
  end.

Definition RemoveImport (consumerService exportedService : string) (s : S) : option (result unit * S) :=
  store_Delete (KeyImportService consumerService exportedService) s.

Record ExportedService := mkExported { ExportedName : string; ExportOwner : string; AllowedTenants : list string }.

Definition GetExportedService (serviceName : string) (s : S) : option (SharingError + ExportedService) :=
  match getValue (KeyExportService serviceName) s with
  | None => Some (inl (NotExported serviceName))
  | Some owner =>
      scanned ← store_Scan (ScanExportServiceAllowTenants serviceName) s;
      Some (match scanned with
            | Err err => inl (SharingStoreError err)
            | Ok allowFacts => inr (mkExported serviceName owner ((λ f, TrimPrefix (Key f) (ScanExportServiceAllowTenants serviceName)) <$> allowFacts))
            end)
  end.

Fixpoint loadExports (names : list (string * string)) (s : S) : option (list ExportedService) :=
  match names with
  | [] => Some []
  | (serviceName, _) :: names' =>
      exported ← GetExportedService serviceName s;
      rest ← loadExports names' s;
      Some (match exported with inr e => e :: rest | inl _ => rest end)
  end.

Definition ListExportedServices (s : S) : option (StoreError + list ExportedService) :=
  scanned ← store_Scan PrefixExport s;
  match scanned with
  | Err err => Some (inl err)
  | Ok exportFacts =>
      let serviceNames := foldl (λ m f,
        let relativePath := TrimPrefix (Key f) PrefixExport in
        if Contains relativePath "/allow/" then m else <[relativePath := Value f]> m) (∅ : gmap string string) exportFacts in
      inr <$> loadExports (map_range serviceNames) s
  end.

Definition ListImportsForService (consumerService : string) (s : S) : option (StoreError + list string) :=
  scanned ← store_Scan (ScanImportsForService consumerService) s;
  Some (match scanned with
        | Err err => inl err
        | Ok importFacts => inr ((λ f, TrimPrefix (Key f) (ScanImportsForService consumerService)) <$> (importFacts : list Fact))
        end).

End resources.
