(* ===== verification/TenantResourcesProps.v ===== *)
(** * What teams see, and what creating, sharing and deleting do *)

From S2P Require Import Prelude GoStrings GoFmt Keys KeyNames EventHistory MemoryStore StoreInvariant StoreProps StateStore.
From S2P Require Import Authorizer Conditions APIAuthorizer Compiler Tenant TenantProps TenantResources.
Import MemStore.

Local Open Scope Z_scope.

(** ** Visibility *)

Lemma Join_first a segments : ContainsByte a slashByte = false → firstSegment (Join slashByte (a :: segments)) = a.
Proof.
  intros Ha. unfold firstSegment. destruct segments as [|b segments]; cbn [Join].
  - by rewrite (proj2 (Cut_None slashByte a)).
  - by rewrite Cut_app.
Qed.

Lemma segmentsBeforeField_prefix reversed : ∀ segments, segmentsBeforeField reversed = Some segments → ∃ tail, reverse reversed = segments ++ tail ∧ segments ≠ [].
Proof.
  induction reversed as [|segment before IH]; intros segments E; simpl in E; [done|]. destruct before as [|s2 before]; [done|].
  case_bool_decide.
  - simplify_eq. exists [segment]. rewrite reverse_cons. split; [done|]. intros E%(f_equal length). by rewrite length_reverse in E.
  - destruct (IH segments E) as (tail & Er & Hne). exists (tail ++ [segment]). split; [|done]. by rewrite reverse_cons, Er, <- app_assoc.
Qed.

(** The tenant a path is attributed to is its first segment. *)
Lemma extractServiceNameFromPath_tenant path : ExtractTenantFromName (extractServiceNameFromPath path) ≠ "" →
  ExtractTenantFromName (extractServiceNameFromPath path) = firstSegment path.
Proof.
  destruct (Split_Join slashByte path) as [Ej Hf]. pose proof (Split_nonempty slashByte path) as Hne.
  assert (Htenant : ∀ a segments, ContainsByte a slashByte = false → ExtractTenantFromName (Join slashByte (a :: segments)) ≠ "" →
    ExtractTenantFromName (Join slashByte (a :: segments)) = a).
  { intros a segments Ha. unfold ExtractTenantFromName. destruct segments as [|b segments]; cbn [Join].
    - by rewrite (proj2 (Cut_None slashByte a)).
    - by rewrite Cut_app. }
  unfold extractServiceNameFromPath. destruct (Split slashByte path) as [|a rest]; [done|]. apply Forall_cons in Hf as [Ha _].
  rewrite <- Ej, Join_first by done. destruct (segmentsBeforeField (reverse (a :: rest))) as [segments|] eqn:E.
  - apply segmentsBeforeField_prefix in E as (tail & Er & Hs). rewrite reverse_involutive in Er. destruct segments as [|b segments]; [done|].
    simplify_eq/=. by apply Htenant.
  - destruct rest as [|b rest]; [apply (Htenant a []); done|]. intros Hn. revert Hn. apply (Htenant a [b]). done.
Qed.

Section resources.
Context {S : Type} `{FactStore S} `{GoMapRange}.


(** ** Deletions *)

Lemma deleteKeys_exact keys : ∀ s, usable s →
  ∃ s', deleteKeys keys s = Some s' ∧ usable s' ∧ ∀ k, content s' !! k = if bool_decide (k ∈ keys) then None else content s !! k.
Proof.
  induction keys as [|key keys IH]; intros s Hs; simpl; [by exists s|]. pose proof (delete_exact s key Hs) as Hd.
  assert (Hstep : ∃ r s1, store_Delete key s = Some (r, s1) ∧ usable s1 ∧ ∀ k, content s1 !! k = if bool_decide (k = key) then None else content s !! k).
  { destruct (content s !! key) as [f|] eqn:Ek.
    - destruct Hd as (s1 & E & Hs1 & _ & Ec). exists (Ok tt), s1. split_and!; [done..|]. intros k. rewrite Ec. case_bool_decide as Hk; [subst; apply lookup_delete_eq|].
      by rewrite lookup_delete_ne.
    - exists (Err ErrKeyNotFound), s. split_and!; [done..|]. intros k. by case_bool_decide; subst. }
  destruct Hstep as (r & s1 & -> & Hs1 & Hc). simpl. destruct (IH s1 Hs1) as (s' & -> & Hs' & Hk). exists s'. split_and!; [done..|].
  intros k. rewrite Hk, Hc. destruct (decide (k = key)) as [->|Hne].
  - rewrite (bool_decide_eq_true_2 (key = key)), (bool_decide_eq_true_2 (key ∈ key :: keys)) by (done || left). by case_bool_decide.
  - rewrite (bool_decide_eq_false_2 (k = key)) by done.
    by rewrite (bool_decide_ext (k ∈ key :: keys) (k ∈ keys)) by (rewrite elem_of_cons; naive_solver).
Qed.

Lemma getValue_content key s : usable s → getValue key s = Value <$> content s !! key.
Proof. intros Hs. unfold getValue. rewrite get_exact by done. by destruct (content s !! key). Qed.

Lemma ownedBy_same tenantName serviceName s s' : usable s → usable s' →
  (∀ k, HasPrefix k "desired/service/" = true → content s' !! k = content s !! k) → ownedBy tenantName serviceName s' = ownedBy tenantName serviceName s.
Proof.
  intros Hs Hs' Hk. unfold ownedBy, ResolveTenantForService. rewrite !getValue_content by done.
  by rewrite (Hk (KeyDesiredServiceOwner serviceName)) by exact (HasPrefix_app "desired/service/" _).
Qed.

(** One step of a deletion: the keys it removes lie in [may], all that [must] go are gone,
    and nothing else changes. *)
Definition removes (may must : string → Prop) (s s' : S) : Prop :=
  usable s' ∧ (∀ k, content s' !! k = content s !! k ∨ may k ∧ content s' !! k = None) ∧ (∀ k, must k → content s' !! k = None).

Lemma removes_keys keys (may must : string → Prop) s : usable s → (∀ k, k ∈ keys → may k) → (∀ k, must k → k ∈ keys ∨ content s !! k = None) →
  ∃ s', deleteKeys keys s = Some s' ∧ removes may must s s'.
Proof.
  intros Hs Hmay Hmust. destruct (deleteKeys_exact keys s Hs) as (s' & E & Hs' & Hk). exists s'. split; [done|]. split_and!; [done| |].
  - intros k. rewrite Hk. case_bool_decide; [right; auto|by left].
  - intros k Hm. rewrite Hk. case_bool_decide; [done|]. destruct (Hmust k Hm); [done|done].
Qed.

Lemma removes_mono (may may' must must' : string → Prop) s s' : (∀ k, may k → may' k) → (∀ k, must' k → must k) → removes may must s s' → removes may' must' s s'.
Proof. intros Hm Hm' (? & Hk & Hn). split_and!; [done| |auto]. intros k. destruct (Hk k) as [|[? ?]]; [by left|right; auto]. Qed.

Lemma removes_trans may1 may2 must1 must2 s1 s2 s3 :
  removes may1 must1 s1 s2 → removes may2 must2 s2 s3 → removes (λ k, may1 k ∨ may2 k) (λ k, must1 k ∨ must2 k) s1 s3.
Proof.
  intros (Hu1 & Hk1 & Hm1) (Hu2 & Hk2 & Hm2). split_and!; [done| |].
  - intros k. destruct (Hk2 k) as [->|[? ->]]; [|by right; auto]. destruct (Hk1 k) as [|[? ?]]; auto.
  - intros k [Hk|Hk]; [|auto]. destruct (Hk2 k) as [->|[? ->]]; auto.
Qed.

(** What a scan finds, goes. *)
Lemma deleteScanned_removes prefix s : usable s → prefix ≠ "" →
  ∃ s', deleteScanned prefix s = Some s' ∧ removes (λ k, HasPrefix k prefix = true) (λ k, HasPrefix k prefix = true) s s'.
Proof.
  intros Hs Hp. destruct (scan_only s prefix Hs) as (l & E & _ & Hl). unfold deleteScanned, scanOrNone. rewrite E. simpl.
  apply removes_keys; [done| |].
  - intros k (f & -> & (_ & Hf & _)%Hl)%list_elem_of_fmap. done.
  - intros k Hk. destruct (content s !! k) as [f|] eqn:Ek; [left|by right]. rewrite <- (content_key s k f Hs Ek).
    apply list_elem_of_fmap_2, Hl. rewrite (content_key s k f Hs Ek). split_and!; [done..|]. intros ->. by destruct prefix.
Qed.

(** The keys of the services a tenant owns. *)
Definition ownedServiceKey (tenantName : string) (s : S) (k : string) : Prop :=
  HasPrefix k ScanDesiredServices = true ∧ ownedBy tenantName (serviceOfKey k) s = true.

(** The counts of such services, which go with them. *)
Definition ownedCountKey (tenantName : string) (s : S) (k : string) : Prop :=
  ∃ serviceName, ownedBy tenantName serviceName s = true ∧
    k ∈ [KeyEffectiveServiceInstances serviceName; KeyIntentUserServiceInstances serviceName; KeyIntentAutoscalerServiceInstances serviceName].

Lemma nameSet_lookup names k : is_Some (nameSet names !! k) ↔ k ∈ names.
Proof.
  unfold nameSet. assert (Hg : ∀ m : gmap string unit, is_Some (foldl (λ m name, <[name := ()]> m) m names !! k) ↔ k ∈ names ∨ is_Some (m !! k)).
  { induction names as [|n names IH]; intros m; simpl; [set_solver|]. rewrite IH, elem_of_cons. destruct (decide (k = n)) as [->|Hne].
    - rewrite lookup_insert_eq. naive_solver.
    - rewrite lookup_insert_ne by done. naive_solver. }
  rewrite Hg, lookup_empty. split; [intros [?|[? [=]]]; done|by left].
Qed.

Lemma deleteOwnedServices_removes tenantName s : usable s →
  ∃ n s', deleteOwnedServices tenantName s = Some (n, s') ∧
    removes (λ k, ownedServiceKey tenantName s k ∨ ownedCountKey tenantName s k) (ownedServiceKey tenantName s) s s'.
Proof.
  intros Hs. destruct (scan_only s ScanDesiredServices Hs) as (l & E & _ & Hl). unfold deleteOwnedServices. rewrite E. simpl.
  set (keys := ownedServiceKeys tenantName l s).
  assert (Hkeys : ∀ k, k ∈ keys → ownedServiceKey tenantName s k).
  { intros k (f & -> & [Ho (_ & Hp & _)%Hl]%list_elem_of_filter)%list_elem_of_fmap. split; [done|by apply Is_true_true]. }
  destruct (removes_keys keys (ownedServiceKey tenantName s) (ownedServiceKey tenantName s) s Hs Hkeys) as (s1 & -> & Hr1).
  { intros k [Hp Ho]. destruct (content s !! k) as [f|] eqn:Ek; [left|by right]. pose proof (content_key s k f Hs Ek) as Ef. subst k.
    apply list_elem_of_fmap_2, list_elem_of_filter. split; [by apply Is_true_true|]. apply Hl. split_and!; [done..|]. intros E0. by rewrite E0 in Hp. }
  simpl. destruct (removes_keys (map_range (nameSet (serviceOfKey <$> keys)) ≫= λ '(serviceName, _),
     [KeyEffectiveServiceInstances serviceName; KeyIntentUserServiceInstances serviceName; KeyIntentAutoscalerServiceInstances serviceName])
     (ownedCountKey tenantName s) (λ _, False) s1) as (s2 & -> & Hr2); [by destruct Hr1| |done|].
  { intros k ([serviceName u] & Hin & Hk)%list_elem_of_bind. exists serviceName. split; [|done]. apply elem_of_map_range in Hk.
    assert (Hn : serviceName ∈ serviceOfKey <$> keys) by (apply nameSet_lookup; eauto).
    apply list_elem_of_fmap in Hn as (k' & -> & [_ Ho]%Hkeys). done. }
  simpl. eexists _, s2. split; [done|]. eapply removes_mono; [| |exact (removes_trans _ _ _ _ _ _ _ Hr1 Hr2)]; simpl; tauto.
Qed.

Lemma deleteOwnedVolumes_removes tenantName s : usable s →
  ∃ n s', deleteOwnedVolumes tenantName s = Some (n, s') ∧
    removes (λ k, HasPrefix k (ScanDesiredVolumes +:+ tenantName +:+ "/") = true) (λ _, False) s s'.
Proof.
  intros Hs. destruct (scan_only s ScanDesiredVolumes Hs) as (l & E & _ & Hl). unfold deleteOwnedVolumes. rewrite E. simpl.
  match goal with |- context [deleteKeys ?keys s] => destruct (removes_keys keys (λ k, HasPrefix k (ScanDesiredVolumes +:+ tenantName +:+ "/") = true) (λ _, False) s Hs) as (s1 & E1 & Hr) end; [|done|].
  { intros k (p & -> & (f & Hin & (Hc & Hp & _)%Hl)%list_elem_of_bind)%list_elem_of_fmap. unfold volumeOfPath in Hin.
    destruct (Cut slashByte (TrimPrefix (Key f) ScanDesiredVolumes)) as [[[|c t] rest]|] eqn:Ec; [by apply elem_of_nil in Hin| |by apply elem_of_nil in Hin].
    case_bool_decide as Et; [|by apply elem_of_nil in Hin]. apply list_elem_of_singleton in Hin. subst p. simpl.
    apply Cut_Some in Ec as [Ec _]. apply HasPrefix_spec in Hp as [r Er]. rewrite Er in *. unfold TrimPrefix in Ec. rewrite HasPrefix_app, str_drop_app in Ec.
    rewrite Ec, Et, HasPrefix_app_app. change (String slashByte rest) with ("/" +:+ rest). rewrite <- str_app_assoc. apply HasPrefix_app. }
  rewrite E1. simpl. by eexists _, s1.
Qed.

Lemma deleteExports_removes tenantName s : usable s →
  ∃ n s', deleteExports tenantName s = Some (n, s') ∧
    removes (λ k, HasPrefix k PrefixExport = true ∧ ExtractTenantFromName (exportedName (TrimPrefix k PrefixExport)) = tenantName) (λ _, False) s s'.
Proof.
  intros Hs. destruct (scan_only s PrefixExport Hs) as (l & E & _ & Hl). unfold deleteExports. rewrite E. simpl.
  match goal with |- context [deleteKeys ?keys s] => destruct (removes_keys keys (λ k, HasPrefix k PrefixExport = true ∧ ExtractTenantFromName (exportedName (TrimPrefix k PrefixExport)) = tenantName) (λ _, False) s Hs) as (s1 & E1 & Hr) end; [|done|].
  { intros k (f & -> & [Ho (_ & Hp & _)%Hl]%list_elem_of_filter)%list_elem_of_fmap. done. }
  rewrite E1. simpl. by eexists _, s1.
Qed.

Lemma deleteTenantDesiredFacts_removes tenantName s : usable s →
  ∃ s', deleteTenantDesiredFacts tenantName s = Some s' ∧
    removes (λ k, HasPrefix k (PrefixDesiredTenant +:+ tenantName) = true) (λ k, HasPrefix k (PrefixDesiredTenant +:+ tenantName) = true) s s'.
Proof.
  intros Hs. destruct (deleteScanned_removes (PrefixDesiredTenant +:+ tenantName) s Hs ltac:(done)) as (s1 & E & Hr). unfold deleteTenantDesiredFacts.
  unfold deleteScanned, scanOrNone in E. destruct (scan_only s (PrefixDesiredTenant +:+ tenantName) Hs) as (l & El & _). rewrite El in *. simpl in *. rewrite E. simpl.
  destruct (removes_keys [KeyDesiredTenant tenantName] (λ k, HasPrefix k (PrefixDesiredTenant +:+ tenantName) = true) (λ _, False) s1) as (s2 & E2 & Hr2);
    [by destruct Hr| |done|].
  { intros k ->%list_elem_of_singleton. apply HasPrefix_refl. }
  simpl in E2. rewrite E2. exists s2. split; [done|]. eapply removes_mono; [| |exact (removes_trans _ _ _ _ _ _ _ Hr Hr2)]; simpl; tauto.
Qed.

(** What belongs to a tenant: its definition and infrastructure, and the services it owns. *)
Definition tenantKey (tenantName : string) (s : S) (k : string) : Prop :=
  HasPrefix k (PrefixDesiredTenant +:+ tenantName +:+ "/") = true ∨ k = KeyDesiredTenant tenantName ∨
  HasPrefix k (tenantInfraPrefix tenantName) = true ∨ ownedServiceKey tenantName s k.

(** What a deletion may take along: volumes and exports below the tenant's name, the
    counts of its services, its usage, and definitions whose key begins with its own. *)
Definition takenAlong (tenantName : string) (s : S) (k : string) : Prop :=
  HasPrefix k (PrefixDesiredTenant +:+ tenantName) = true ∨ ownedCountKey tenantName s k ∨
  HasPrefix k (ScanDesiredVolumes +:+ tenantName +:+ "/") = true ∨
  (HasPrefix k PrefixExport = true ∧ ExtractTenantFromName (exportedName (TrimPrefix k PrefixExport)) = tenantName) ∨
  k ∈ [KeyObservedTenantUsageCPU tenantName; KeyObservedTenantUsageMemory tenantName; KeyObservedTenantUsageInstances tenantName; KeyObservedTenantUsageVolumes tenantName].


(** ** Creation *)

Lemma writeAll_app l k m : writeAll (l ++ k) m = writeAll k (writeAll l m).
Proof. apply foldl_app. Qed.

Lemma writeAll_cons key value l m : writeAll ((key, value) :: l) m = writeAll l (<[key := value]> m).
Proof. done. Qed.

Lemma writeAll_nil m : writeAll [] m = m.
Proof. done. Qed.

Lemma writeAll_if_same (b : bool) key value m : writeAll (if b then [(key, value)] else []) m !! key = if b then Some value else m !! key.
Proof. destruct b; [apply lookup_insert_eq|done]. Qed.

Lemma writeAll_if_other (b : bool) key key' value m : key' ≠ key → writeAll (if b then [(key', value)] else []) m !! key = m !! key.
Proof. destruct b; [apply lookup_insert_ne|done]. Qed.

Lemma writeAll_unless_same (b : bool) key value m : writeAll (if b then [] else [(key, value)]) m !! key = if b then m !! key else Some value.
Proof. destruct b; [done|apply lookup_insert_eq]. Qed.

Lemma writeAll_unless_other (b : bool) key key' value m : key' ≠ key → writeAll (if b then [] else [(key', value)]) m !! key = m !! key.
Proof. destruct b; [done|apply lookup_insert_ne]. Qed.

Lemma tenant_keys_differ tenantName suffix suffix' : suffix ≠ suffix' → PrefixDesiredTenant +:+ tenantName +:+ suffix ≠ PrefixDesiredTenant +:+ tenantName +:+ suffix'.
Proof. intros Hne E. apply Hne. do 2 apply (inj (String.append _)) in E. done. Qed.

Lemma tenant_marker_differs tenantName suffix : suffix ≠ "" → PrefixDesiredTenant +:+ tenantName ≠ PrefixDesiredTenant +:+ tenantName +:+ suffix.
Proof. intros Hne E. apply Hne. rewrite <- (str_app_nil_r (PrefixDesiredTenant +:+ tenantName)), str_app_assoc in E. do 2 apply (inj (String.append _)) in E. done. Qed.

Definition zeroQuota : Quota := mkQuota 0 "" 0 0 "".

(** Numbers that are read back. *)
Definition quotaRange (n : Z) : Prop := 0 ≤ n ≤ maxQuotaValue.

Lemma parseQuotaInt_Itoa n : quotaRange n → parseQuotaInt (Itoa n) = Some n.
Proof.
  unfold quotaRange, maxQuotaValue. intros Hn. unfold parseQuotaInt. change (ParseInt (Itoa n)) with (Atoi (Itoa n)).
  rewrite Atoi_Itoa by (unfold in_int64, int64_min, int64_max; lia). unfold maxQuotaValue.
  destruct (Z.leb_spec (- 2 ^ 31) n), (Z.leb_spec n (2 ^ 31 - 1)), (Z.ltb_spec n 0), (Z.ltb_spec 10000000 n); simpl; lia || done.
Qed.

Lemma provisioned_values tenantName q weight m : (∀ k, HasPrefix k (PrefixDesiredTenant +:+ tenantName) = true → m !! k = None) →
  let m' := writeAll (provisioningFacts tenantName (Some q) weight) m in
  let number n := if 0 <? n then Some (Itoa n) else None in
  let name v := if bool_decide (v = "") then None else Some v in
  m' !! KeyDesiredTenant tenantName = Some "" ∧ m' !! KeyDesiredTenantState tenantName = Some TenantActive ∧
  m' !! KeyDesiredTenantQuotaCPU tenantName = number (QuotaCPU q) ∧ m' !! KeyDesiredTenantQuotaMemory tenantName = name (QuotaMemory q) ∧
  m' !! KeyDesiredTenantQuotaInstances tenantName = number (QuotaInstances q) ∧ m' !! KeyDesiredTenantQuotaVolumes tenantName = number (QuotaVolumes q) ∧
  m' !! KeyDesiredTenantQuotaStorage tenantName = name (QuotaStorage q) ∧ m' !! KeyDesiredTenantWeight tenantName = number weight.
Proof.
  intros Hm m' number name. assert (Hnone : ∀ suffix, m !! (PrefixDesiredTenant +:+ tenantName +:+ suffix) = None)
    by (intros suffix; apply Hm; rewrite <- str_app_assoc; apply HasPrefix_app).
  subst m'. unfold provisioningFacts, quotaFacts. repeat rewrite writeAll_app.
  unfold KeyDesiredTenantState, KeyDesiredTenantQuotaCPU, KeyDesiredTenantQuotaMemory, KeyDesiredTenantQuotaInstances, KeyDesiredTenantQuotaVolumes,
    KeyDesiredTenantQuotaStorage, KeyDesiredTenantWeight, KeyDesiredTenant.
  assert (Hne : ∀ u v : string, u ≠ v → PrefixDesiredTenant +:+ tenantName +:+ u ≠ PrefixDesiredTenant +:+ tenantName +:+ v) by (intros; by apply tenant_keys_differ).
  assert (Hne0 : ∀ v : string, v ≠ "" → PrefixDesiredTenant +:+ tenantName ≠ PrefixDesiredTenant +:+ tenantName +:+ v) by (intros; by apply tenant_marker_differs).
  assert (Hinfra : ∀ u v : string, tenantInfraPrefix tenantName +:+ u ≠ PrefixDesiredTenant +:+ v) by (intros u v [=]).
  rewrite !writeAll_cons, !writeAll_nil.
  split_and!.
  all: repeat first
    [ rewrite lookup_insert_eq | rewrite writeAll_if_same | rewrite writeAll_unless_same | rewrite Hnone
    | rewrite lookup_insert_ne by (by first [apply Hinfra|apply Hne|apply Hne0|apply not_eq_sym, Hne0])
    | rewrite writeAll_if_other by (by first [apply Hne|apply not_eq_sym, Hne0])
    | rewrite writeAll_unless_other by (by first [apply Hne|apply not_eq_sym, Hne0]) ].
  all: reflexivity.
Qed.

(** A tenant that is created where none of its facts exists is read back with the quota and
    the weight it was given, and is active. *)
Theorem CreateTenant_roundtrip tenantName q weight s : usable s →
  (∀ k, HasPrefix k (PrefixDesiredTenant +:+ tenantName) = true → content s !! k = None) →
  Forall quotaRange [QuotaCPU q; QuotaInstances q; QuotaVolumes q; weight] →
  ∃ provisioned s', CreateTenant tenantName (Some q) weight s = Some (inr provisioned, s') ∧ usable s' ∧
    GetTenant tenantName s' = inr (mkTenant tenantName q weight) ∧ GetTenantState tenantName s' = Some TenantActive.
Proof.
  intros Hs Hfresh Hrange. unfold CreateTenant. rewrite getValue_content, Hfresh by (done || apply HasPrefix_refl). cbn [fmap option_fmap option_map].
  destruct (putAll_exact (provisioningFacts tenantName (Some q) weight) s Hs) as (s' & -> & Hs' & _ & Ev & _). simpl.
  eexists _, s'. split_and!; [done|done| |].
  all: destruct (provisioned_values tenantName q weight (valuesOf s)) as (E1 & E2 & E3 & E4 & E5 & E6 & E7 & E8);
    [intros k Hk; unfold valuesOf; by rewrite lookup_fmap, Hfresh|]; rewrite <- Ev in *.
  all: assert (Hget : ∀ key, getValue key s' = valuesOf s' !! key) by (intros; rewrite getValue_content by done; unfold valuesOf; by rewrite lookup_fmap).
  - repeat (apply Forall_cons in Hrange as [? Hrange]). unfold GetTenant, quotaNumber, quotaText. rewrite !Hget, E1, E3, E4, E5, E6, E7, E8.
    assert (Hnum : ∀ field n, quotaRange n →
      match (if 0 <? n then Some (Itoa n) else None) with
      | Some value => match parseQuotaInt value with Some n => inr n | None => inl (CorruptValue tenantName field value) end
      | None => inr 0
      end = inr n).
    { intros field n Hn. destruct (Z.ltb_spec 0 n); [by rewrite parseQuotaInt_Itoa|]. f_equal. unfold quotaRange in Hn. lia. }
    rewrite !Hnum by done. destruct q as [cpu memory instances volumes storage]. simpl. do 2 f_equal.
    by destruct (bool_decide (memory = "")) eqn:Em, (bool_decide (storage = "")) eqn:Es; rewrite ?bool_decide_eq_true in *; subst.
  - unfold GetTenantState. by rewrite Hget.
Qed.

(** ** Sharing *)

Lemma keyLess_nodup l : StronglySorted keyLess l → NoDup (Key <$> l).
Proof.
  induction 1 as [|f l Hl IH Hf]; [constructor|]. rewrite fmap_cons. constructor; [|done]. intros (g & Eg & Hg)%list_elem_of_fmap.
  rewrite Forall_forall in Hf. specialize (Hf g Hg). unfold keyLess, str_lt in Hf. by rewrite Eg, str_ltb_irrefl in Hf.
Qed.

Lemma export_not_allow serviceName : HasPrefix (KeyExportService serviceName) (ScanExportServiceAllowTenants serviceName) = false.
Proof.
  apply not_true_iff_false. intros [r E]%HasPrefix_spec. unfold KeyExportService, ScanExportServiceAllowTenants in E.
  apply (f_equal String.length) in E. rewrite !str_length_app in E. simpl in E. lia.
Qed.

Lemma deleteEach_exact keys : ∀ s, usable s → NoDup keys → (∀ k, k ∈ keys → is_Some (content s !! k)) →
  ∃ s', deleteEach keys s = Some (None, s') ∧ usable s' ∧ ∀ k, content s' !! k = if bool_decide (k ∈ keys) then None else content s !! k.
Proof.
  induction keys as [|key keys IH]; intros s Hs Hnd Hin; simpl; [by exists s|]. apply NoDup_cons in Hnd as [Hnk Hnd].
  pose proof (delete_exact s key Hs) as Hd. destruct (Hin key (list_elem_of_here _ _)) as [f Ef]. rewrite Ef in Hd.
  destruct Hd as (s1 & -> & Hs1 & _ & Ec). simpl. destruct (IH s1 Hs1 Hnd) as (s' & -> & Hs' & Hk).
  { intros k Hk. rewrite Ec, lookup_delete_ne by (intros ->; done). apply Hin. by right. }
  exists s'. split_and!; [done..|]. intros k. rewrite Hk, Ec. destruct (decide (k = key)) as [->|Hne].
  - rewrite (bool_decide_eq_true_2 (key ∈ key :: keys)), lookup_delete_eq by left. by case_bool_decide.
  - rewrite lookup_delete_ne by done. by rewrite (bool_decide_ext (k ∈ key :: keys) (k ∈ keys)) by (rewrite elem_of_cons; naive_solver).
Qed.

(** A service is imported exactly by the services of its owner and of the tenants it was
    opened to: an import is written only when the service is exported and the consumer's
    tenant is its owner or is listed; and once it is unexported it is not exported and
    nobody may import it. *)
Theorem sharing_respects_exports consumer exported s : usable s →
  (∃ r s', ImportService consumer exported s = Some (r, s') ∧ usable s' ∧
     (r = None → ∃ owner tenant, getValue (KeyExportService exported) s = Some owner ∧ ResolveTenantForService consumer s = Some tenant ∧
        (tenant = owner ∨ is_Some (content s !! KeyExportServiceAllowTenant exported tenant))) ∧
     (r ≠ None → s' = s)) ∧
  (is_Some (content s !! KeyExportService exported) →
   ∃ s', UnexportService exported s = Some (None, s') ∧ usable s' ∧ IsImportAllowed consumer exported s' = inl (NotExported exported) ∧
     ∀ tenant, content s' !! KeyExportServiceAllowTenant exported tenant = None).
Proof.
  intros Hs. split.
  - unfold ImportService, IsImportAllowed. destruct (getValue (KeyExportService exported) s) as [owner|]; [|by eexists _, s].
    destruct (ResolveTenantForService consumer s) as [tenant|]; [|by eexists _, s].
    assert (Hput : ∀ P : Prop, P → ∃ r s', ('(written, s') ← store_Put (KeyImportService consumer exported) "" s;
        Some (match written with Err err => Some (SharingStoreError err) | Ok _ => None end, s')) = Some (r, s') ∧ usable s' ∧ (r = None → P) ∧ (r ≠ None → s' = s)).
    { intros P HP. destruct (put_exact s (KeyImportService consumer exported) "" Hs) as (rev & s' & -> & Hs' & _). by eexists _, s'. }
    case_bool_decide as Et; [apply Hput; eauto 6|]. rewrite getValue_content by done.
    destruct (content s !! KeyExportServiceAllowTenant exported tenant) as [f|] eqn:Ea; simpl.
    + apply Hput. eauto 7.
    + by eexists _, s.
  - intros Hexp. destruct (scan_only s (ScanExportServiceAllowTenants exported) Hs) as (l & E & Hsort & Hl). unfold UnexportService. rewrite E. simpl.
    destruct (deleteEach_exact ((Key <$> l) ++ [KeyExportService exported]) s Hs) as (s' & -> & Hs' & Hk).
    { apply NoDup_app. split_and!; [by apply keyLess_nodup| |apply NoDup_singleton].
      intros k (f & -> & (_ & Hp & _)%Hl)%list_elem_of_fmap Hin%list_elem_of_singleton. rewrite Hin in Hp. by rewrite export_not_allow in Hp. }
    { intros k [(f & -> & (Hc & _)%Hl)%list_elem_of_fmap| ->%list_elem_of_singleton]%elem_of_app; [by eexists|done]. }
    exists s'. split_and!; [done..| |].
    + unfold IsImportAllowed. rewrite getValue_content, Hk, bool_decide_eq_true_2 by (done || (apply elem_of_app; right; left)). done.
    + intros tenant. rewrite Hk. case_bool_decide as Hin; [done|]. destruct (content s !! KeyExportServiceAllowTenant exported tenant) as [f|] eqn:Ef; [|done].
      exfalso. apply Hin, elem_of_app. left. rewrite <- (content_key s _ f Hs Ef). apply list_elem_of_fmap_2, Hl.
      rewrite (content_key s _ f Hs Ef). split_and!; [done| |done]. unfold KeyExportServiceAllowTenant, ScanExportServiceAllowTenants.
      replace (PrefixExport +:+ exported +:+ "/allow/" +:+ tenant) with ((PrefixExport +:+ exported +:+ "/allow/") +:+ tenant) by by rewrite !str_app_assoc.
      apply HasPrefix_app.
Qed.

End resources.

(** ** Concrete tenants *)

#[local] Existing Instance reference_range.

(** Two tenants, one of whose names begins the other's, and their services. *)
Definition tenantsFacts : list (string * string) :=
  [("desired/tenant/pay", ""); ("desired/tenant/pay/weight", "1"); ("desired/tenant/payments", ""); ("desired/tenant/payments/quota/instances", "2");
   ("desired/service/pay/web", ""); ("desired/service/pay/web/image", "shop"); ("desired/service/payments/web/image", "shop");
   ("effective/service/pay/web/instances", "1"); ("effective/service/pay/website/instances", "5"); ("desired/service/pay/website/owner", "payments")].

Definition tenantsStore : MemoryStore := storeWith tenantsFacts.



Definition shopQuota : Quota := mkQuota 4000 "8Gi" 10 0 "".

Lemma CreateTenant_roundtrip_witness :
  ∃ provisioned s', CreateTenant "shop" (Some shopQuota) 3 NewMemoryStore = Some (inr provisioned, s') ∧ usable s' ∧
    GetTenant "shop" s' = inr (mkTenant "shop" shopQuota 3) ∧ GetTenantState "shop" s' = Some TenantActive.
Proof.
  apply (CreateTenant_roundtrip "shop" shopQuota 3 NewMemoryStore (storeWith_usable [])); [intros k _; exact (lookup_empty k)|].
  repeat (apply Forall_cons_2; [unfold quotaRange, maxQuotaValue; simpl; lia|]). apply Forall_nil_2.
Defined.

Definition sharedStore : MemoryStore := storeWith [("export/platform/dns", "platform"); ("export/platform/dns/allow/pay", "")].

Lemma sharing_respects_exports_witness :
  (∃ s', ImportService "pay/web" "platform/dns" sharedStore = Some (None, s')) ∧
  ∃ s', UnexportService "platform/dns" sharedStore = Some (None, s') ∧ usable s' ∧ IsImportAllowed "pay/web" "platform/dns" s' = inl (NotExported "platform/dns").
Proof.
  destruct (sharing_respects_exports "pay/web" "platform/dns" sharedStore (storeWith_usable _)) as [(r & s' & E & _) Hu]. split.
  - exists s'. rewrite E. do 2 f_equal. assert (Hr : match ImportService "pay/web" "platform/dns" sharedStore with Some (None, _) => True | _ => False end)
      by (vm_compute; exact I). rewrite E in Hr. by destruct r.
  - destruct Hu as (s1 & E1 & Hs1 & Ei & _); [apply (bool_decide_unpack _); vm_compute; exact I|]. exists s1. split; [exact E1|]. split; [exact Hs1|exact Ei].
Defined.

(** Deleting a tenant also deletes the definition and the quota of every tenant whose name
    begins with its name. *)
Theorem DeleteTenant_deletes_namesakes :
  match DeleteTenant "pay" tenantsStore with
  | Some (inr _, s') => content s' !! "desired/tenant/payments" = None ∧ content s' !! "desired/tenant/payments/quota/instances" = None
  | _ => False
  end.
Proof. vm_compute. split; reflexivity. Qed.

(** Collecting the resources of a tenant deletes the effective count of a service of another
    tenant, because its name begins with the name of one of the tenant's services. *)
Theorem DeleteTenantResources_deletes_namesakes :
  ownedBy "payments" "pay/website" tenantsStore = true ∧
  match DeleteTenantResources "pay" tenantsStore with
  | Some (_, _, s') => content s' !! "effective/service/pay/website/instances" = None
  | None => False
  end.
Proof. vm_compute. split; reflexivity. Qed.
