(* ===== verification/EndpointController.v ===== *)
(** * The endpoint controller (src/controllers/endpoint.go)

    It keeps an endpoint fact, with the address of the instance, for every running
    instance of a service that exposes a port. [extractServiceExposedPorts] is from
    helpers.go. Log output is left out. *)

From S2P Require Import Prelude GoStrings GoFmt Trie EventHistory MemoryStore StoreInvariant StoreProps StateStore PrefixSearch Keys KeyNames Heap NodeHeap.
From S2P Require Import SchedulerFacts Placement Runner RunnerProps ControllerHelpers InstanceController InstanceEffects IntentResolver.

Local Open Scope Z_scope.

Definition ReadinessProbeReady : string := "ready".
Definition ReadinessProbeNotReady : string := "not-ready".
Definition ProbeReadinessName : string := "readiness".

Definition EndpointController_Watch : list string :=
  [ScanObservedInstances; ScanObservedNodes; ScanEndpoints; ScanDesiredServices; ScanDerivedInstances].

(** ** Reading the facts *)

(** The port a fact of a service exposes: [{service}/expose/{port}], the last segment
    not being "external". *)
Definition exposedPortOf (relativePath : string) : option (string * Z) :=
  match Split slash relativePath with
  | service :: expose :: port :: rest =>
      if bool_decide (expose = "expose") then
        if bool_decide (List.last (port :: rest) "" = "external") then None
        else let portNumber := fst (Atoi port) in
             if 0 <? portNumber then Some (service, portNumber) else None
      else None
  | _ => None
  end.

Definition addExposedPort (servicePorts : gmap string (list Z)) (relativePath : string) : gmap string (list Z) :=
  match exposedPortOf relativePath with
  | Some (service, portNumber) =>
      let present := default [] (servicePorts !! service) in
      if bool_decide (portNumber ∈ present) then servicePorts else <[service := present ++ [portNumber]]> servicePorts
  | None => servicePorts
  end.

Definition extractServiceExposedPorts (facts : list Fact) : gmap string (list Z) :=
  foldl (λ servicePorts f, addExposedPort servicePorts (TrimPrefix (Key f) ScanDesiredServices)) ∅ (FactsWithPrefix facts ScanDesiredServices).

Definition readinessProbeOf (relativePath : string) : option string :=
  match Split slash relativePath with
  | [service; probe; kind; method] =>
      if bool_decide (probe = "probe") && bool_decide (kind = ProbeReadinessName) && bool_decide (method = "method") then Some service else None
  | _ => None
  end.

Definition detectServicesWithReadinessProbe (facts : list Fact) : gmap string bool :=
  foldl (λ services f, match readinessProbeOf (TrimPrefix (Key f) ScanDesiredServices) with
                       | Some service => <[service := true]> services
                       | None => services
                       end) ∅ (FactsWithPrefix facts ScanDesiredServices).

Definition parseNodeAdvertiseAddresses (facts : list Fact) : gmap string string := collectStringValuesBySuffix facts ScanObservedNodes "address".

(** The values under a prefix, by the rest of the key: the loop of this and other
    controllers. *)
Definition valuesByPath (facts : list Fact) (prefix : string) : gmap string string :=
  foldl (λ values f, <[TrimPrefix (Key f) prefix := Value f]> values) ∅ (FactsWithPrefix facts prefix).

Definition parseExistingEndpoints (facts : list Fact) : gmap string string := valuesByPath facts ScanEndpoints.

Section reconcile.
Context `{GoMapRange}.

Definition hasPerPortHostPorts (instanceFields : gmap string string) : bool :=
  existsb (λ '(fieldKey, _), HasPrefix fieldKey "hostport/") (map_range instanceFields).

(** ** The endpoints that should exist *)

(** The address of one exposed port of an instance; [None] when it has none. *)
Definition portAddress (fields : gmap string string) (nodeAddress : string) (exposedPort : Z) : option string :=
  let instanceIP := fieldOf fields "ip" in
  if negb (bool_decide (instanceIP = "")) then Some (instanceIP +:+ ":" +:+ Itoa exposedPort)
  else
    let perPortHostPort := fieldOf fields ("hostport/" +:+ Itoa exposedPort) in
    let hostPort := if bool_decide (perPortHostPort = "") then fieldOf fields "hostport" else perPortHostPort in
    if negb (bool_decide (hostPort = "")) && negb (bool_decide (nodeAddress = "")) then Some (nodeAddress +:+ ":" +:+ hostPort) else None.

Definition endpointPath (serviceName instanceID : string) (exposedPort : Z) : string :=
  serviceName +:+ "/" +:+ instanceID +:+ "/" +:+ Itoa exposedPort.

(** Whether the ports of an instance get endpoints at all. *)
Definition instanceServes (fields : gmap string string) (nodeAddress : string) (exposedPorts : list Z) (hasReadinessProbe : bool) : bool :=
  let hasOverlayAddress := negb (bool_decide (fieldOf fields "ip" = "")) in
  let hasAnyHostAddress := (negb (bool_decide (fieldOf fields "hostport" = "")) || hasPerPortHostPorts fields) && negb (bool_decide (nodeAddress = "")) in
  if negb (bool_decide (endpointEligibleState fields = InstanceRunning)) then false
  else if negb hasOverlayAddress && negb hasAnyHostAddress then false
  else if bool_decide (exposedPorts = []) then false
  else if bool_decide (fieldOf fields "drain_readiness" = ReadinessProbeNotReady) then false
  else if hasReadinessProbe && negb (bool_decide (fieldOf fields "probe/readiness" = ReadinessProbeReady)) then false
  else true.

Definition instanceEndpoints (servicePorts : gmap string (list Z)) (serviceHasReadinessProbe : gmap string bool) (nodeAddresses : gmap string string)
    (instanceID : string) (fields desiredEndpoints : gmap string string) : gmap string string :=
  let nodeAddress := fieldOf nodeAddresses (fieldOf fields "node") in
  let serviceName := fieldOf fields "service" in
  let exposedPorts := default [] (servicePorts !! serviceName) in
  if instanceServes fields nodeAddress exposedPorts (flagOf serviceHasReadinessProbe serviceName) then
    foldl (λ endpoints exposedPort,
      match portAddress fields nodeAddress exposedPort with
      | Some address => <[endpointPath serviceName instanceID exposedPort := address]> endpoints
      | None => endpoints
      end) desiredEndpoints exposedPorts
  else desiredEndpoints.

Definition buildDesiredEndpoints (instanceFields : gmap string (gmap string string)) (servicePorts : gmap string (list Z))
    (serviceHasReadinessProbe : gmap string bool) (nodeAddresses : gmap string string) : gmap string string :=
  foldl (λ desiredEndpoints instanceID,
    instanceEndpoints servicePorts serviceHasReadinessProbe nodeAddresses instanceID (default ∅ (instanceFields !! instanceID)) desiredEndpoints)
    ∅ (sortedMapKeys instanceFields).

(** ** The changes *)

Definition putEndpoint (desiredEndpoints existingEndpoints : gmap string string) (endpointKey : string) : list Change :=
  let desiredValue := fieldOf desiredEndpoints endpointKey in
  let put := mkChange OpPut (PrefixEndpoint +:+ "/service/" +:+ endpointKey) desiredValue "" in
  match existingEndpoints !! endpointKey with
  | None => [put]
  | Some existingValue => if bool_decide (existingValue = desiredValue) then [] else [put]
  end.

Definition deleteEndpoint (desiredEndpoints : gmap string string) (endpointKey : string) : list Change :=
  match desiredEndpoints !! endpointKey with
  | None => [mkChange OpDelete (PrefixEndpoint +:+ "/service/" +:+ endpointKey) "" ""]
  | Some _ => []
  end.

Definition computeEndpointDiffChanges (desiredEndpoints existingEndpoints : gmap string string) : list Change :=
  (sortedMapKeys desiredEndpoints ≫= putEndpoint desiredEndpoints existingEndpoints) ++
  (sortedMapKeys existingEndpoints ≫= deleteEndpoint desiredEndpoints).

Definition desiredEndpointsOf (facts : list Fact) : gmap string string :=
  buildDesiredEndpoints (parseInstanceFieldsFromFacts facts) (extractServiceExposedPorts facts) (detectServicesWithReadinessProbe facts)
    (parseNodeAdvertiseAddresses facts).

Definition EndpointController_Reconcile (facts : list Fact) : list Change :=
  computeEndpointDiffChanges (desiredEndpointsOf facts) (parseExistingEndpoints facts).

End reconcile.

(** ** What should exist *)

Definition exposes (facts : list Fact) (service : string) (port : Z) : Prop :=
  ∃ path, is_Some (values_of facts !! (ScanDesiredServices +:+ path)) ∧ exposedPortOf path = Some (service, port).

Definition probesReadiness (facts : list Fact) (service : string) : Prop :=
  ∃ path, is_Some (values_of facts !! (ScanDesiredServices +:+ path)) ∧ readinessProbeOf path = Some service.

(** The address at which a port of an instance is reached: its own, or else a port of
    its node. *)
Definition reachedAt (facts : list Fact) (id : string) (port : Z) (address : string) : Prop :=
  let text := fieldText facts id in
  let nodeAddress := fieldOf (parseNodeAdvertiseAddresses facts) (text "node") in
  let mapped := text ("hostport/" +:+ Itoa port) in
  text "ip" ≠ "" ∧ address = text "ip" +:+ ":" +:+ Itoa port ∨
  text "ip" = "" ∧ nodeAddress ≠ "" ∧
  ∃ hostPort, hostPort ≠ "" ∧ (mapped = hostPort ∨ mapped = "" ∧ text "hostport" = hostPort) ∧ address = nodeAddress +:+ ":" +:+ hostPort.

(** Instance [id] of [service] takes requests to [port] at [address]. *)
Definition serves (facts : list Fact) (service id : string) (port : Z) (address : string) : Prop :=
  ContainsByte id slash = false ∧ fieldText facts id "service" = service ∧ exposes facts service port ∧
  fieldText facts id "controller_stopped" ≠ "true" ∧ fieldText facts id "state" = InstanceRunning ∧
  fieldText facts id "drain_readiness" ≠ ReadinessProbeNotReady ∧
  (probesReadiness facts service → fieldText facts id "probe/readiness" = ReadinessProbeReady) ∧
  reachedAt facts id port address.

(** *** Facts under a prefix *)

(** The facts under a prefix are the keys with that prefix. *)
Lemma FactsWithPrefix_paths facts prefix path : facts_wf facts → prefix ≠ "" →
  (∃ f, f ∈ FactsWithPrefix facts prefix ∧ TrimPrefix (Key f) prefix = path) ↔ is_Some (values_of facts !! (prefix +:+ path)).
Proof.
  intros [Hs Hn] Hp. setoid_rewrite FactsWithPrefix_filter; [|done..]. setoid_rewrite list_elem_of_filter. split.
  - intros (f & [[r Hr]%HasPrefix_spec Hf] & <-). exists (Value f). apply values_of_lookup; [done|]. exists f. rewrite Hr, TrimPrefix_app. done.
  - intros (v & (f & Hf & Hk & _)%values_of_lookup); [|done]. exists f. rewrite Hk, HasPrefix_app, TrimPrefix_app. done.
Qed.

Lemma valuesByPath_lookup facts prefix path : facts_wf facts → prefix ≠ "" →
  valuesByPath facts prefix !! path = values_of facts !! (prefix +:+ path).
Proof.
  intros Hwf Hp. unfold valuesByPath.
  assert (Hmem : ∀ v, (prefix +:+ path, v) ∈ keyValues facts prefix ↔ values_of facts !! (prefix +:+ path) = Some v).
  { intros v. rewrite elem_of_keyValues by done. rewrite HasPrefix_app. naive_solver. }
  assert (Hpre : ∀ k v, (k, v) ∈ keyValues facts prefix → HasPrefix k prefix = true) by (intros k v [? _]%elem_of_keyValues; done).
  assert (Hnd : NoDup (keyValues facts prefix).*1).
  { destruct Hwf as [Hs Hn]. unfold keyValues. rewrite FactsWithPrefix_filter, <- list_fmap_compose by done.
    eapply submseteq_nodup; [|exact Hn]. apply fmap_submseteq, filter_sub. }
  apply option_eq. intros v. rewrite <- Hmem. clear Hmem. revert Hpre Hnd. unfold keyValues.
  induction (FactsWithPrefix facts prefix) as [|f l IH] using rev_ind; intros Hpre Hnd; [set_solver|].
  rewrite foldl_app. simpl. rewrite !fmap_app in Hnd. apply NoDup_app in Hnd as (Hnd & Hdis & _).
  assert (HP : HasPrefix (Key f) prefix = true) by (apply (Hpre _ (Value f)); rewrite fmap_app; set_solver).
  apply HasPrefix_spec in HP as [r Hr]. rewrite Hr, TrimPrefix_app, fmap_app, elem_of_app.
  assert (IH' : foldl (λ (values : gmap string string) f, <[TrimPrefix (Key f) prefix := Value f]> values) ∅ l !! path = Some v
    ↔ (prefix +:+ path, v) ∈ (λ f, (Key f, Value f)) <$> l).
  { apply IH; [intros k w Hk; apply (Hpre k w); rewrite fmap_app; set_solver|done]. }
  destruct (decide (r = path)) as [->|Hne].
  - rewrite lookup_insert_eq. split; [intros [= <-]; right; simpl; rewrite Hr; left|].
    intros [Hin|Hin]; [|simpl in Hin; set_solver]. exfalso. apply (Hdis (prefix +:+ path)); [by apply (list_elem_of_fmap_2 fst) in Hin|].
    simpl. rewrite Hr. left.
  - rewrite lookup_insert_ne, IH' by done. split; [by left|]. intros [?|Hin]; [done|]. simpl in Hin. apply list_elem_of_singleton in Hin.
    injection Hin as E _. rewrite Hr in E. apply (inj (String.append _)) in E. done.
Qed.

(** Values that are converted; one that cannot be is skipped. *)
Definition convertedByPath {A} (convert : string → option A) (facts : list Fact) (prefix : string) : gmap string A :=
  foldl (λ m f, match convert (Value f) with Some x => <[TrimPrefix (Key f) prefix := x]> m | None => m end) ∅ (FactsWithPrefix facts prefix).

Lemma paths_nodup facts prefix : facts_wf facts → prefix ≠ "" → NoDup ((λ f, TrimPrefix (Key f) prefix) <$> FactsWithPrefix facts prefix).
Proof.
  intros [Hs Hn] Hp. rewrite FactsWithPrefix_filter by done. apply NoDup_fmap_2_strong.
  - intros f g [[r Hr]%HasPrefix_spec Hf]%list_elem_of_filter [[r' Hr']%HasPrefix_spec Hg]%list_elem_of_filter E. rewrite Hr, Hr', !TrimPrefix_app in E. subst r'.
    apply list_elem_of_lookup in Hf as [i Hi], Hg as [j Hj]. assert (i = j) as ->; [|congruence].
    eapply NoDup_lookup; [exact Hn|by rewrite list_lookup_fmap, Hi|]. rewrite list_lookup_fmap, Hj. simpl. congruence.
  - apply NoDup_filter. by apply (NoDup_fmap_1 Key).
Qed.

Lemma convertedByPath_omap {A} (convert : string → option A) facts prefix : facts_wf facts → prefix ≠ "" →
  convertedByPath convert facts prefix = omap convert (valuesByPath facts prefix).
Proof.
  intros Hwf Hp. unfold convertedByPath, valuesByPath. pose proof (paths_nodup facts prefix Hwf Hp) as Hnd.
  induction (FactsWithPrefix facts prefix) as [|f l IH] using rev_ind; [simpl; by rewrite omap_empty|].
  rewrite fmap_app in Hnd. apply NoDup_app in Hnd as (Hnd & Hout & _). rewrite !foldl_app, IH by done. simpl. rewrite omap_insert.
  destruct (convert (Value f)) as [x|]; [done|]. symmetry. apply delete_id. rewrite lookup_omap.
  assert (Hdom : ∀ (l : list Fact) k, k ∉ (λ f, TrimPrefix (Key f) prefix) <$> l →
    foldl (λ (values : gmap string string) f, <[TrimPrefix (Key f) prefix := Value f]> values) ∅ l !! k = None).
  { clear. intros l k. induction l as [|f l IH] using rev_ind; [done|]. rewrite foldl_app, fmap_app. intros Hk. simpl.
    rewrite lookup_insert_ne by (intros <-; apply Hk; apply elem_of_app; right; left). apply IH. intros Hin. apply Hk, elem_of_app. by left. }
  rewrite Hdom; [done|]. intros Hin. apply (Hout _ Hin). left.
Qed.

Lemma paths_snoc (T : Fact → string) (P : string → Prop) (l : list Fact) f :
  (∃ path, (∃ g, g ∈ l ++ [f] ∧ T g = path) ∧ P path) ↔ (∃ path, (∃ g, g ∈ l ∧ T g = path) ∧ P path) ∨ P (T f).
Proof.
  split.
  - intros (path & (g & [Hg| ->%list_elem_of_singleton]%elem_of_app & <-) & Hp); [left|by right]. exists (T g). split; [by exists g|done].
  - intros [(path & (g & Hg & <-) & Hp)|Hp]; [exists (T g)|exists (T f)]; (split; [|done]); [exists g|exists f]; (split; [|done]); apply elem_of_app; [by left|right; left].
Qed.

Lemma addExposedPort_elem m path service port :
  port ∈ default [] (addExposedPort m path !! service) ↔ port ∈ default [] (m !! service) ∨ exposedPortOf path = Some (service, port).
Proof.
  unfold addExposedPort. destruct (exposedPortOf path) as [[s p]|]; [|naive_solver]. case_bool_decide as Hin; [naive_solver|].
  destruct (decide (s = service)) as [->|Hne]; [rewrite lookup_insert_eq; simpl; rewrite elem_of_app, list_elem_of_singleton|rewrite lookup_insert_ne by done];
    naive_solver.
Qed.

Lemma exposedPorts_elem facts service port : facts_wf facts →
  port ∈ default [] (extractServiceExposedPorts facts !! service) ↔ exposes facts service port.
Proof.
  intros Hwf. unfold exposes. setoid_rewrite <- FactsWithPrefix_paths; [|done..]. unfold extractServiceExposedPorts.
  induction (FactsWithPrefix facts ScanDesiredServices) as [|f l IH] using rev_ind; [set_solver|].
  rewrite foldl_app. simpl. by rewrite addExposedPort_elem, IH, paths_snoc.
Qed.

(** A set of the names that paths under a prefix have. *)
Lemma flags_by_path (name : string → option string) facts prefix x : facts_wf facts → prefix ≠ "" →
  flagOf (foldl (λ m f, match name (TrimPrefix (Key f) prefix) with Some y => <[y := true]> m | None => m end) ∅ (FactsWithPrefix facts prefix)) x = true ↔
  ∃ path, is_Some (values_of facts !! (prefix +:+ path)) ∧ name path = Some x.
Proof.
  intros Hwf Hp. setoid_rewrite <- FactsWithPrefix_paths; [|done..]. unfold flagOf.
  induction (FactsWithPrefix facts prefix) as [|f l IH] using rev_ind; [set_solver|].
  rewrite foldl_app, paths_snoc, <- IH. simpl. destruct (name (TrimPrefix (Key f) prefix)) as [s|]; [|naive_solver].
  destruct (decide (s = x)) as [->|Hne]; [rewrite lookup_insert_eq|rewrite lookup_insert_ne by done]; naive_solver.
Qed.

Lemma readinessProbes_flag facts service : facts_wf facts →
  flagOf (detectServicesWithReadinessProbe facts) service = true ↔ probesReadiness facts service.
Proof. intros Hwf. by apply flags_by_path. Qed.

(** ** The endpoints that are built *)

Section build.
Context `{GoMapRange} (facts : list Fact) (Hwf : facts_wf facts).

(** Inserting pairs that agree on their keys. *)
Lemma foldl_insert_elem (l : list (string * string)) k v : (∀ a b c, (a, b) ∈ l → (a, c) ∈ l → b = c) →
  foldl (λ m kv, <[kv.1 := kv.2]> m) (∅ : gmap string string) l !! k = Some v ↔ (k, v) ∈ l.
Proof.
  induction l as [|[k' v'] l IH] using rev_ind; intros Hf; [set_solver|]. rewrite foldl_app. simpl. rewrite elem_of_app, list_elem_of_singleton.
  assert (IH' := IH (λ a b c Hb Hc, Hf a b c (proj2 (elem_of_app l _ _) (or_introl Hb)) (proj2 (elem_of_app l _ _) (or_introl Hc)))). clear IH.
  destruct (decide (k' = k)) as [->|Hne]; [|rewrite lookup_insert_ne, IH' by done; naive_solver]. rewrite lookup_insert_eq. split; [naive_solver|].
  intros [Hin|[= ->]]; [|done]. f_equal. apply (Hf k); apply elem_of_app; [right; left|by left].
Qed.

(** The endpoints of one instance. *)
Definition endpointPairs (servicePorts : gmap string (list Z)) (probes : gmap string bool) (nodeAddresses : gmap string string)
    (instanceID : string) (fields : gmap string string) : list (string * string) :=
  let nodeAddress := fieldOf nodeAddresses (fieldOf fields "node") in
  let serviceName := fieldOf fields "service" in
  let exposedPorts := default [] (servicePorts !! serviceName) in
  if instanceServes fields nodeAddress exposedPorts (flagOf probes serviceName) then
    omap (λ port, pair (endpointPath serviceName instanceID port) <$> portAddress fields nodeAddress port) exposedPorts
  else [].

Lemma instanceEndpoints_pairs ports probes addresses id fields m :
  instanceEndpoints ports probes addresses id fields m = foldl (λ m kv, <[kv.1 := kv.2]> m) m (endpointPairs ports probes addresses id fields).
Proof.
  unfold instanceEndpoints, endpointPairs. destruct (instanceServes _ _ _ _); [|done]. revert m.
  induction (default [] (ports !! fieldOf fields "service")) as [|port l IH]; intros m; simpl; [done|].
  destruct (portAddress _ _ _); simpl; apply IH.
Qed.

Lemma hasPerPort_field fields f : HasPrefix f "hostport/" = true → fieldOf fields f ≠ "" → hasPerPortHostPorts fields = true.
Proof.
  intros Hf Hne. unfold hasPerPortHostPorts. apply existsb_exists. unfold fieldOf in Hne. destruct (fields !! f) as [v|] eqn:E; [|done].
  exists (f, v). split; [|done]. by apply list_elem_of_In, elem_of_map_range.
Qed.

(** Whether and where an instance serves a port, by its fields. *)
Lemma serves_fields fields nodeAddress ports probe port address : port ∈ ports →
  instanceServes fields nodeAddress ports probe = true ∧ portAddress fields nodeAddress port = Some address ↔
  fieldOf fields "controller_stopped" ≠ "true" ∧ fieldOf fields "state" = InstanceRunning ∧ fieldOf fields "drain_readiness" ≠ ReadinessProbeNotReady ∧
  (probe = true → fieldOf fields "probe/readiness" = ReadinessProbeReady) ∧
  (fieldOf fields "ip" ≠ "" ∧ address = fieldOf fields "ip" +:+ ":" +:+ Itoa port ∨
   fieldOf fields "ip" = "" ∧ nodeAddress ≠ "" ∧
   ∃ hostPort, hostPort ≠ "" ∧
     (fieldOf fields ("hostport/" +:+ Itoa port) = hostPort ∨ fieldOf fields ("hostport/" +:+ Itoa port) = "" ∧ fieldOf fields "hostport" = hostPort) ∧
     address = nodeAddress +:+ ":" +:+ hostPort).
Proof.
  intros Hin. unfold instanceServes, portAddress, endpointEligibleState.
  rewrite (bool_decide_eq_false_2 (ports = [])) by (by intros ->; apply not_elem_of_nil in Hin).
  pose proof (hasPerPort_field fields ("hostport/" +:+ Itoa port) (HasPrefix_app _ _)) as Hper.
  destruct (decide (fieldOf fields "controller_stopped" = "true")); [simpl; naive_solver|].
  destruct (decide (fieldOf fields "ip" = "")) as [Eip|Eip].
  - rewrite (bool_decide_eq_true_2 _ Eip). simpl. repeat case_bool_decide; destruct (hasPerPortHostPorts fields); destruct probe; simpl; naive_solver.
  - rewrite (bool_decide_eq_false_2 _ Eip). simpl. repeat case_bool_decide; destruct probe; simpl; naive_solver.
Qed.

Lemma endpointPath_inj s1 id1 p1 s2 id2 p2 : ContainsByte id1 slash = false → ContainsByte id2 slash = false →
  endpointPath s1 id1 p1 = endpointPath s2 id2 p2 → s1 = s2 ∧ id1 = id2 ∧ p1 = p2.
Proof.
  intros H1 H2. assert (E : ∀ s id p, endpointPath s id p = (s +:+ "/" +:+ id) +:+ "/" +:+ Itoa p) by (intros; unfold endpointPath; by rewrite !str_app_assoc).
  rewrite !E. intros [E1 Ep%(inj Itoa)]%last_segment_inj; [|by apply Itoa_ContainsByte..]. apply last_segment_inj in E1 as [Es Ei]; done.
Qed.

Lemma endpointPairs_elem id path address : ContainsByte id slash = false →
  (path, address) ∈ endpointPairs (extractServiceExposedPorts facts) (detectServicesWithReadinessProbe facts) (parseNodeAdvertiseAddresses facts) id
    (default ∅ (parseInstanceFieldsFromFacts facts !! id)) ↔
  ∃ service port, path = endpointPath service id port ∧ serves facts service id port address.
Proof using Hwf.
  intros Hid. unfold endpointPairs, serves, reachedAt. cbv zeta. set (fields := default ∅ (parseInstanceFieldsFromFacts facts !! id)).
  assert (Hf : ∀ f, fieldText facts id f = fieldOf fields f) by (intros f; symmetry; by apply fields_text). 
  setoid_rewrite Hf. setoid_rewrite <- exposedPorts_elem; [|done..]. setoid_rewrite <- readinessProbes_flag; [|done..].
  set (ports := default [] (extractServiceExposedPorts facts !! fieldOf fields "service")).
  set (nodeAddress := fieldOf (parseNodeAdvertiseAddresses facts) (fieldOf fields "node")).
  set (probe := flagOf (detectServicesWithReadinessProbe facts) (fieldOf fields "service")). split.
  - destruct (instanceServes fields nodeAddress ports probe) eqn:Es; [|by intros ?%not_elem_of_nil].
    intros (port & Hin & Hp)%list_elem_of_omap. destruct (portAddress fields nodeAddress port) as [a|] eqn:Ea; [|done]. injection Hp as <- <-.
    exists (fieldOf fields "service"), port. split; [done|].
    pose proof (proj1 (serves_fields fields nodeAddress ports probe port a Hin) (conj Es Ea)) as Hs. tauto.
  - intros (service & port & -> & _ & <- & Hin & Hs).
    destruct (proj2 (serves_fields fields nodeAddress ports probe port address Hin)) as [-> Ea]; [tauto|].
    apply list_elem_of_omap. exists port. split; [done|]. by rewrite Ea.
Qed.

Lemma desiredEndpoints_lookup path address :
  desiredEndpointsOf facts !! path = Some address ↔ ∃ service id port, path = endpointPath service id port ∧ serves facts service id port address.
Proof using Hwf.
  unfold desiredEndpointsOf, buildDesiredEndpoints.
  set (pairs := λ id, endpointPairs (extractServiceExposedPorts facts) (detectServicesWithReadinessProbe facts) (parseNodeAdvertiseAddresses facts) id
    (default ∅ (parseInstanceFieldsFromFacts facts !! id))).
  assert (E : ∀ ids m, foldl (λ m id, instanceEndpoints (extractServiceExposedPorts facts) (detectServicesWithReadinessProbe facts) (parseNodeAdvertiseAddresses facts)
      id (default ∅ (parseInstanceFieldsFromFacts facts !! id)) m) m ids = foldl (λ m kv, <[kv.1 := kv.2]> m) m (ids ≫= pairs)).
  { induction ids as [|id ids IH]; intros m; simpl; [done|]. by rewrite foldl_app, IH, instanceEndpoints_pairs. }
  assert (Hseg : ∀ id, id ∈ sortedMapKeys (parseInstanceFieldsFromFacts facts) → ContainsByte id slash = false)
    by (intros id Hid%sortedMapKeys_elem; by apply (instanceFields_segment facts Hwf)).
  assert (Hmem : ∀ k v, (k, v) ∈ (sortedMapKeys (parseInstanceFieldsFromFacts facts) ≫= pairs) ↔
    ∃ service id port, k = endpointPath service id port ∧ serves facts service id port v).
  { intros k v. rewrite list_elem_of_bind. split.
    - intros (id & Hk & Hid). apply endpointPairs_elem in Hk as (service & port & Hk); [|by apply Hseg]. by exists service, id, port.
    - intros (service & id & port & Hk & Hs). assert (Hid : ContainsByte id slash = false) by (by destruct Hs). exists id. split.
      + apply endpointPairs_elem; [done|]. by exists service, port.
      + apply sortedMapKeys_elem, (instanceFields_dom facts Hwf); [done|]. destruct Hs as (_ & _ & _ & _ & Hst & _). unfold fieldText in Hst.
        exists "state". destruct (fieldIn facts id "state") as [v0|]; [by exists v0|]. done. }
  rewrite E, foldl_insert_elem, Hmem; [done|]. intros a b c Hb Hc. apply Hmem in Hb as (s1 & i1 & p1 & -> & H1), Hc as (s2 & i2 & p2 & E2 & H2).
  apply endpointPath_inj in E2 as (-> & -> & ->); [|by destruct H1|by destruct H2].
  destruct H1 as (_ & _ & _ & _ & _ & _ & _ & R1), H2 as (_ & _ & _ & _ & _ & _ & _ & R2). unfold reachedAt in *. naive_solver.
Qed.

End build.

(** ** The changes *)

Section diff.
Context `{GoMapRange}.

Lemma endpointKey_scan path : PrefixEndpoint +:+ "/service/" +:+ path = ScanEndpoints +:+ path.
Proof. unfold ScanEndpoints. by rewrite str_app_assoc. Qed.

Lemma diff_elem desired existing c :
  c ∈ computeEndpointDiffChanges desired existing ↔
  (∃ path v, desired !! path = Some v ∧ existing !! path ≠ Some v ∧ c = mkChange OpPut (ScanEndpoints +:+ path) v "") ∨
  (∃ path, desired !! path = None ∧ is_Some (existing !! path) ∧ c = mkChange OpDelete (ScanEndpoints +:+ path) "" "").
Proof.
  unfold computeEndpointDiffChanges. rewrite elem_of_app, !list_elem_of_bind. setoid_rewrite sortedMapKeys_elem. f_equiv.
  - split.
    + intros (path & Hc & [v Hv]). exists path, v. unfold putEndpoint, fieldOf in Hc. rewrite Hv, endpointKey_scan in Hc. simpl in Hc.
      destruct (existing !! path) as [w|]; [case_bool_decide|]; set_solver.
    + intros (path & v & Hv & Hne & ->). exists path. split; [|by exists v]. unfold putEndpoint, fieldOf. rewrite Hv, endpointKey_scan. simpl.
      destruct (existing !! path) as [w|]; [rewrite bool_decide_eq_false_2 by congruence|]; left.
  - unfold deleteEndpoint. split.
    + intros (path & Hc & Hv). exists path. rewrite endpointKey_scan in Hc. destruct (desired !! path); set_solver.
    + intros (path & Hv & Hex & ->). exists path. rewrite Hv, endpointKey_scan. split; [left|done].
Qed.

(** Changes with at most one change for each element of a list. *)
Lemma bind_keys_nodup {A} (key : A → string) (g : A → list Change) (l : list A) : NoDup (key <$> l) →
  (∀ x, x ∈ l → g x = [] ∨ ∃ c, g x = [c] ∧ ChangeKey c = key x) → NoDup (ChangeKey <$> (l ≫= g)).
Proof.
  induction l as [|x l IH]; intros Hnd Hg; simpl; [constructor|]. rewrite fmap_cons in Hnd. apply NoDup_cons in Hnd as [Hout Hnd]. rewrite fmap_app.
  assert (IH' := IH Hnd (λ y Hy, Hg y (list_elem_of_further y x l Hy))). clear IH.
  destruct (Hg x (list_elem_of_here x l)) as [->|(c & -> & Ec)]; [done|]. simpl. apply NoDup_cons. split; [|done]. rewrite Ec, list_elem_of_fmap.
  intros (c' & E' & (y & Hc' & Hy)%list_elem_of_bind). destruct (Hg y (list_elem_of_further y x l Hy)) as [E0|(c2 & E2 & Ec2)].
  - rewrite E0 in Hc'. by apply elem_of_nil in Hc'.
  - rewrite E2 in Hc'. apply list_elem_of_singleton in Hc' as ->. apply Hout. rewrite E', Ec2. by apply list_elem_of_fmap_2.
Qed.

Lemma diff_nodup desired existing : NoDup (ChangeKey <$> computeEndpointDiffChanges desired existing).
Proof.
  assert (Hkeys : ∀ m : gmap string string, NoDup ((λ path, ScanEndpoints +:+ path) <$> sortedMapKeys m)) by (intros m; apply NoDup_fmap; [apply _|apply sortedMapKeys_nodup]).
  unfold computeEndpointDiffChanges. rewrite fmap_app. apply NoDup_app. split_and!.
  - apply (bind_keys_nodup (λ path, ScanEndpoints +:+ path)); [done|]. intros path _. unfold putEndpoint. rewrite endpointKey_scan.
    destruct (existing !! path); [case_bool_decide; [by left|]|]; right; by eexists.
  - intros k (c & -> & (path & Hc & [v Hv]%sortedMapKeys_elem)%list_elem_of_bind)%list_elem_of_fmap.
    intros (c' & E' & (path' & Hc' & _)%list_elem_of_bind)%list_elem_of_fmap. unfold putEndpoint, deleteEndpoint in *. rewrite endpointKey_scan in *.
    destruct (desired !! path') eqn:E; [by apply elem_of_nil in Hc'|]. apply list_elem_of_singleton in Hc' as ->.
    assert (ChangeKey c = ScanEndpoints +:+ path) as Ek by (destruct (existing !! path); [case_bool_decide|]; set_solver).
    rewrite Ek in E'. apply (inj (String.append _)) in E' as ->. congruence.
  - apply (bind_keys_nodup (λ path, ScanEndpoints +:+ path)); [done|]. intros path _. unfold deleteEndpoint. rewrite endpointKey_scan.
    destruct (desired !! path); [by left|right; by eexists].
Qed.

(** Performing the changes gives the desired endpoints. *)
Lemma diff_effect desired existing m path : (∀ path, m !! (ScanEndpoints +:+ path) = existing !! path) →
  applyChanges (computeEndpointDiffChanges desired existing) m !! (ScanEndpoints +:+ path) = desired !! path.
Proof.
  intros Hm. set (changes := computeEndpointDiffChanges desired existing). pose proof (diff_nodup desired existing) as Hnd.
  destruct (decide (ScanEndpoints +:+ path ∈ ChangeKey <$> changes)) as [(c & Ek & Hc)%list_elem_of_fmap|Hout].
  - rewrite Ek, (applyChanges_elem changes c) by done.
    apply diff_elem in Hc as [(p & v & Hv & _ & ->)|(p & Hv & _ & ->)]; simpl in *; apply (inj (String.append _)) in Ek as ->; by rewrite Hv.
  - rewrite applyChanges_other, Hm by done. destruct (desired !! path) as [v|] eqn:Hv.
    + destruct (decide (existing !! path = Some v)) as [|Hne]; [done|]. exfalso. apply Hout, list_elem_of_fmap.
      exists (mkChange OpPut (ScanEndpoints +:+ path) v ""). split; [done|]. apply diff_elem. left. by exists path, v.
    + destruct (existing !! path) as [w|] eqn:Hw; [|done]. exfalso. apply Hout, list_elem_of_fmap.
      exists (mkChange OpDelete (ScanEndpoints +:+ path) "" ""). split; [done|]. apply diff_elem. right. exists path. by rewrite Hw.
Qed.

Lemma diff_same m : computeEndpointDiffChanges m m = [].
Proof.
  destruct (computeEndpointDiffChanges m m) as [|c l] eqn:E; [done|]. exfalso.
  assert (Hc : c ∈ computeEndpointDiffChanges m m) by (rewrite E; left). apply diff_elem in Hc as [(p & v & Hv & Hne & _)|(p & Hv & [w Hw] & _)]; congruence.
Qed.

End diff.

(** ** Settling *)

(** Whether an instance serves depends on facts outside the endpoints only. *)
Lemma serves_same facts facts' service id port address : facts_wf facts → facts_wf facts' →
  (∀ k, HasPrefix k ScanEndpoints = false → values_of facts' !! k = values_of facts !! k) →
  serves facts' service id port address ↔ serves facts service id port address.
Proof.
  intros Hwf Hwf' Hsame.
  assert (Htext : ∀ f, fieldText facts' id f = fieldText facts id f).
  { intros f. unfold fieldText, fieldIn, instanceKey. by rewrite !Hsame. }
  assert (Hdes : ∀ path, values_of facts' !! (ScanDesiredServices +:+ path) = values_of facts !! (ScanDesiredServices +:+ path)) by (intros path; by apply Hsame).
  assert (Hnode : ∀ node, fieldOf (parseNodeAdvertiseAddresses facts') node = fieldOf (parseNodeAdvertiseAddresses facts) node).
  { intros node. unfold fieldOf, parseNodeAdvertiseAddresses, collectStringValuesBySuffix. rewrite !collectBySuffix_lookup by done.
    destruct (ContainsByte node slash); [done|]. by rewrite Hsame. }
  unfold serves, exposes, probesReadiness, reachedAt. cbv zeta. setoid_rewrite Htext. setoid_rewrite Hdes. setoid_rewrite Hnode. done.
Qed.

Section settle.
Context `{GoMapRange}.


End settle.

(** A service whose name has a slash is reached by nobody: the ports it exposes are read
    as fields of a service named by the first segment. *)
Lemma hierarchical_service_unreachable facts service id port address : serves facts service id port address → ContainsByte service slash = false.
Proof.
  intros (_ & _ & (path & _ & E) & _). unfold exposedPortOf in E. destruct (Split_Join slash path) as [_ Hp].
  destruct (Split slash path) as [|a [|b [|c rest]]]; [done..|]. apply Forall_cons in Hp as [Ha _].
  repeat case_bool_decide; [done| |done]. cbv zeta in E. destruct (0 <? fst (Atoi c)); [|done]. congruence.
Qed.

(** ** A concrete cycle *)

#[local] Existing Instance reference_range.

Definition endpointFact (k v : string) : Fact := mkFact k v 1 1 0.

(** An endpoint of an instance that is gone, and two instances, one of them draining. *)
Definition servingFacts : list Fact :=
  [endpointFact "desired/service/web/expose/80" ""; endpointFact "endpoint/service/web/old/80" "10.0.0.9:80";
   endpointFact "observed/instance/a/ip" "10.0.0.1"; endpointFact "observed/instance/a/service" "web"; endpointFact "observed/instance/a/state" "running";
   endpointFact "observed/instance/b/drain_readiness" "not-ready"; endpointFact "observed/instance/b/ip" "10.0.0.2";
   endpointFact "observed/instance/b/service" "web"; endpointFact "observed/instance/b/state" "running"].

Definition servedFacts : list Fact :=
  [endpointFact "desired/service/web/expose/80" ""; endpointFact "endpoint/service/web/a/80" "10.0.0.1:80";
   endpointFact "observed/instance/a/ip" "10.0.0.1"; endpointFact "observed/instance/a/service" "web"; endpointFact "observed/instance/a/state" "running";
   endpointFact "observed/instance/b/drain_readiness" "not-ready"; endpointFact "observed/instance/b/ip" "10.0.0.2";
   endpointFact "observed/instance/b/service" "web"; endpointFact "observed/instance/b/state" "running"].

