(* ===== verification/NetworkRules.v ===== *)
(** * The network policy controller (src/controllers/network_policy.go)

    It turns the rules between services into rules between addresses, one list for
    every node that hosts a target, under "derived/network/rule/". Log output is left
    out. *)

From S2P Require Import Prelude GoStrings GoFmt Trie EventHistory MemoryStore StoreInvariant StoreProps StateStore PrefixSearch Keys KeyNames Heap NodeHeap.
From S2P Require Import SchedulerFacts Placement Runner RunnerProps ControllerHelpers InstanceController InstanceEffects IntentResolver EndpointController.

Local Open Scope Z_scope.

(** The order in which Go ranges over a [map[int]V]: any order. *)
Class GoIntMapRange := {
  int_range : ∀ {V : Type}, gmap Z V → list (Z * V);
  int_range_perm : ∀ (V : Type) (m : gmap Z V), int_range m ≡ₚ map_to_list m
}.

(** ** [fmt.Sscanf(text, "%d", &port)] *)

Definition newlineByte : ascii := ascii_of_nat 10.

Definition asciiSpace (c : ascii) : bool := existsb (λ n, Ascii.eqb c (ascii_of_nat n)) [9; 11; 12; 13; 32]%nat.

(** The other spaces of the package, as bytes: U+0085, U+00A0, U+1680, U+2000 to U+200A,
    U+2028, U+2029, U+202F, U+205F and U+3000. *)
Definition wideSpaces : list string :=
  (λ bytes : list nat, foldr (λ n s, String (ascii_of_nat n) s) EmptyString bytes) <$>
  ([[194; 133]; [194; 160]; [225; 154; 128]; [226; 128; 168]; [226; 128; 169]; [226; 128; 175]; [226; 129; 159]; [227; 128; 128]] ++
   ((λ n, [226; 128; 128 + n]) <$> seq 0 11))%nat.

(** [None] is the error for a newline. A space takes at least one byte, so as many rounds
    as there are bytes are enough. *)
Fixpoint skipSpace (rounds : nat) (s : string) : option string :=
  match rounds, s with
  | S rounds', String c rest =>
      if Ascii.eqb c newlineByte then None
      else if asciiSpace c then skipSpace rounds' rest
      else match List.find (HasPrefix s) wideSpaces with
           | Some space => skipSpace rounds' (str_drop (String.length space) s)
           | None => Some s
           end
  | _, _ => Some s
  end.

Fixpoint takeDigits (s : string) : string :=
  match s with
  | String c rest => if decide (is_Some (digit_value c)) then String c (takeDigits rest) else ""
  | "" => ""
  end.

Definition signOf (s : string) : string * string :=
  match s with
  | String c rest => if Ascii.eqb c "+" || Ascii.eqb c "-" then (String c "", rest) else ("", s)
  | "" => ("", "")
  end.

(** The number at the start of the text; [None] is an error. *)
Definition scanDecimal (text : string) : option Z :=
  match skipSpace (String.length text) text with
  | None => None
  | Some s =>
      let '(sign, rest) := signOf s in
      let digits := takeDigits rest in
      if bool_decide (digits = "") then None
      else match ParseInt (sign +:+ digits) with
           | (n, None) => Some n
           | (_, Some _) => None
           end
  end.

(** ** Reading the facts *)

Definition NetworkPolicyController_Watch : list string := [ScanNetworkPolicies; ScanEndpoints; ScanPlacements; ScanDerivedNetworkRules].

Record identityPolicyRule := mkIdentityRule { identityName : string; sourceName : string; targetName : string; identityPort : Z; identityAction : string }.

Record serviceEndpointEntry := mkEndpointEntry { entryInstance : string; entryIP : string }.

Record targetNodeEntry := mkTargetEntry { targetIP : string; targetNode : string }.

(** A port that cannot be read is 0, any port. *)
Definition parseIdentityPolicyRuleValue (ruleName ruleValue : string) : option identityPolicyRule :=
  match SplitN ":" 4 ruleValue with
  | [source; target; portText; action] => Some (mkIdentityRule ruleName source target (default 0 (scanDecimal portText)) action)
  | _ => None
  end.

Definition parseIdentityPolicyRulesFromFacts (facts : list Fact) : list identityPolicyRule :=
  omap (λ f, parseIdentityPolicyRuleValue (TrimPrefix (Key f) ScanNetworkPolicies) (Value f)) (FactsWithPrefix facts ScanNetworkPolicies).

(** The text before the last colon, when there is one after the first character. *)
Fixpoint beforeLastColon (s : string) : option string :=
  match s with
  | "" => None
  | String c rest =>
      match beforeLastColon rest with
      | Some before => Some (String c before)
      | None => if Ascii.eqb c ":" then Some "" else None
      end
  end.

Definition extractIPFromEndpointValue (endpointValue : string) : string :=
  match beforeLastColon endpointValue with
  | Some (String c before) => String c before
  | _ => endpointValue
  end.

(** The service and the instance of an endpoint: the first two segments of its path. *)
Definition parseEndpointPath (relativePath : string) : option (string * string) :=
  match SplitN slash 3 relativePath with
  | serviceName :: instanceID :: _ => Some (serviceName, instanceID)
  | _ => None
  end.

Definition addServiceEndpoint (maps : gmap string (list serviceEndpointEntry) * gmap string bool) (f : Fact)
    : gmap string (list serviceEndpointEntry) * gmap string bool :=
  let '(serviceEndpoints, seenInstances) := maps in
  match parseEndpointPath (TrimPrefix (Key f) ScanEndpoints) with
  | None => maps
  | Some (serviceName, instanceID) =>
      if bool_decide (serviceName = "") || bool_decide (instanceID = "") then maps
      else
        let dedupKey := serviceName +:+ ":" +:+ instanceID in
        if flagOf seenInstances dedupKey then maps
        else (<[serviceName := default [] (serviceEndpoints !! serviceName) ++ [mkEndpointEntry instanceID (extractIPFromEndpointValue (Value f))]]> serviceEndpoints,
              <[dedupKey := true]> seenInstances)
  end.

Definition buildServiceEndpointMapFromFacts (facts : list Fact) : gmap string (list serviceEndpointEntry) :=
  fst (foldl addServiceEndpoint (∅, ∅) (FactsWithPrefix facts ScanEndpoints)).

Definition buildInstanceNodeMapFromPlacements (facts : list Fact) : gmap string string := valuesByPath facts ScanPlacements.

(** ** The rules of every node *)

Definition resolveServiceToIPAddresses (serviceName : string) (serviceEndpoints : gmap string (list serviceEndpointEntry)) : list string :=
  if bool_decide (serviceName = "*") then ["*"] else entryIP <$> default [] (serviceEndpoints !! serviceName).

Definition resolveServiceToTargetNodeEntries (serviceName : string) (serviceEndpoints : gmap string (list serviceEndpointEntry))
    (instanceNodeMap : gmap string string) : list targetNodeEntry :=
  omap (λ endpoint, mkTargetEntry (entryIP endpoint) <$> instanceNodeMap !! entryInstance endpoint) (default [] (serviceEndpoints !! serviceName)).

Definition formatCompiledFirewallRule (sourceIP targetIP : string) (port : Z) (action : string) : string :=
  sourceIP +:+ ":" +:+ targetIP +:+ ":" +:+ Itoa port +:+ ":" +:+ action.

Definition appendCompiledRulesForPolicyRule (rulesPerNode : gmap string (list string)) (sourceIPs : list string) (targetEntries : list targetNodeEntry)
    (rule : identityPolicyRule) : gmap string (list string) :=
  foldl (λ rules target,
    foldl (λ rules sourceIP,
      <[targetNode target := default [] (rules !! targetNode target) ++
          [formatCompiledFirewallRule sourceIP (targetIP target) (identityPort rule) (identityAction rule)]]> rules) rules sourceIPs)
    rulesPerNode targetEntries.

Definition compileIdentityRulesToIPRulesPerNode (policyRules : list identityPolicyRule) (serviceEndpoints : gmap string (list serviceEndpointEntry))
    (instanceNodeMap : gmap string string) : gmap string (list string) :=
  sort_strings <$> foldl (λ rulesPerNode rule,
    appendCompiledRulesForPolicyRule rulesPerNode (resolveServiceToIPAddresses (sourceName rule) serviceEndpoints)
      (resolveServiceToTargetNodeEntries (targetName rule) serviceEndpoints instanceNodeMap) rule) ∅ policyRules.

(** ** The changes *)

Definition parseDerivedNetworkRuleKey (factKey : string) : option (string * Z) :=
  match splitFactKeyIntoEntityAndSuffix factKey ScanDerivedNetworkRules with
  | None => None
  | Some (nodeID, indexString) =>
      match Atoi indexString with
      | (ruleIndex, None) => Some (nodeID, ruleIndex)
      | (_, Some _) => None
      end
  end.

Definition addExistingRule (existingRules : gmap string (gmap Z string)) (f : Fact) : gmap string (gmap Z string) :=
  match parseDerivedNetworkRuleKey (Key f) with
  | Some (nodeID, ruleIndex) => <[nodeID := <[ruleIndex := Value f]> (default ∅ (existingRules !! nodeID))]> existingRules
  | None => existingRules
  end.

Definition collectExistingDerivedNetworkRules (facts : list Fact) : gmap string (gmap Z string) :=
  foldl addExistingRule ∅ (FactsWithPrefix facts ScanDerivedNetworkRules).

Section reconcile.
Context `{GoMapRange} `{GoIntMapRange}.

Definition deleteRule (nodeID : string) (ruleIndex : Z) : Change := mkChange OpDelete (KeyDerivedNetworkRule nodeID ruleIndex) "" "".

Definition removeExcessRulesForNode (nodeID : string) (desiredCount : Z) (existingForNode : gmap Z string) : list Change :=
  '(ruleIndex, _) ← int_range existingForNode;
  if desiredCount <=? ruleIndex then [deleteRule nodeID ruleIndex] else [].

(** A rule is left alone when the node has rules and this is the value at its index. *)
Definition putRules (nodeID : string) (existingForNode : option (gmap Z string)) (desiredRules : list string) : list Change :=
  '(ruleIndex, ruleValue) ← imap pair desiredRules;
  if match existingForNode with
     | Some existing => bool_decide (default "" (existing !! Z.of_nat ruleIndex) = ruleValue)
     | None => false
     end then []
  else [mkChange OpPut (KeyDerivedNetworkRule nodeID (Z.of_nat ruleIndex)) ruleValue ""].

Definition diffDesiredNodeRules (desiredRulesPerNode : gmap string (list string)) (existingRulesPerNode : gmap string (gmap Z string)) : list Change :=
  '(nodeID, desiredRules) ← map_range desiredRulesPerNode;
  let existingForNode := existingRulesPerNode !! nodeID in
  putRules nodeID existingForNode desiredRules ++ removeExcessRulesForNode nodeID (Z.of_nat (length desiredRules)) (default ∅ existingForNode).

Definition removeStaleNodeRules (desiredRulesPerNode : gmap string (list string)) (existingRulesPerNode : gmap string (gmap Z string)) : list Change :=
  '(nodeID, existingForNode) ← map_range existingRulesPerNode;
  match desiredRulesPerNode !! nodeID with
  | Some _ => []
  | None => (λ '(ruleIndex, _), deleteRule nodeID ruleIndex) <$> int_range existingForNode
  end.

Definition diffDerivedNetworkRules (desiredRulesPerNode : gmap string (list string)) (existingRulesPerNode : gmap string (gmap Z string)) : list Change :=
  diffDesiredNodeRules desiredRulesPerNode existingRulesPerNode ++ removeStaleNodeRules desiredRulesPerNode existingRulesPerNode.

Definition desiredRulesOf (facts : list Fact) : gmap string (list string) :=
  compileIdentityRulesToIPRulesPerNode (parseIdentityPolicyRulesFromFacts facts) (buildServiceEndpointMapFromFacts facts)
    (buildInstanceNodeMapFromPlacements facts).

Definition NetworkPolicyController_Reconcile (facts : list Fact) : list Change :=
  diffDerivedNetworkRules (desiredRulesOf facts) (collectExistingDerivedNetworkRules facts).

End reconcile.

(** ** What should be enforced *)

Definition ruleIn (facts : list Fact) (rule : identityPolicyRule) : Prop :=
  ∃ name v, values_of facts !! (ScanNetworkPolicies +:+ name) = Some v ∧ parseIdentityPolicyRuleValue name v = Some rule.

(** An instance of a service has an endpoint at an address. *)
Definition endpointAt (facts : list Fact) (service id ip : string) : Prop :=
  ∃ path v, values_of facts !! (ScanEndpoints +:+ path) = Some v ∧ parseEndpointPath path = Some (service, id) ∧
    service ≠ "" ∧ id ≠ "" ∧ ip = extractIPFromEndpointValue v.

(** An address a rule takes for its source. *)
Definition sourceAt (facts : list Fact) (rule : identityPolicyRule) (ip : string) : Prop :=
  sourceName rule = "*" ∧ ip = "*" ∨ sourceName rule ≠ "*" ∧ ∃ id, endpointAt facts (sourceName rule) id ip.

(** A rule between addresses that a node has to enforce: it comes from a rule between
    services, and an instance of the target is placed on the node. *)
Definition enforced (facts : list Fact) (node value : string) : Prop :=
  ∃ rule sourceIP id ip, ruleIn facts rule ∧ sourceAt facts rule sourceIP ∧ endpointAt facts (targetName rule) id ip ∧
    values_of facts !! (ScanPlacements +:+ id) = Some node ∧
    value = formatCompiledFirewallRule sourceIP ip (identityPort rule) (identityAction rule).

(** Every instance has one address, and names of services have no colon. *)
Definition steady (facts : list Fact) : Prop :=
  ∀ service id ip, endpointAt facts service id ip → ContainsByte service ":" = false ∧ ∀ ip', endpointAt facts service id ip' → ip' = ip.

(** ** Reading the facts *)

Lemma policyRules_elem facts rule : facts_wf facts → rule ∈ parseIdentityPolicyRulesFromFacts facts ↔ ruleIn facts rule.
Proof.
  intros [Hs Hn]. unfold parseIdentityPolicyRulesFromFacts, ruleIn. rewrite list_elem_of_omap. setoid_rewrite FactsWithPrefix_filter; [|done..].
  setoid_rewrite list_elem_of_filter. split.
  - intros (f & [[name Hk]%HasPrefix_spec Hf] & E). exists name, (Value f). rewrite Hk, TrimPrefix_app in E. split; [|done].
    apply values_of_lookup; [done|]. by exists f.
  - intros (name & v & (f & Hf & Hk & <-)%values_of_lookup & E); [|done]. exists f. rewrite Hk, TrimPrefix_app, HasPrefix_app. done.
Qed.

(** The endpoints collected from a list of facts. *)
Definition endpointOf (f : Fact) : option (string * string) :=
  match parseEndpointPath (TrimPrefix (Key f) ScanEndpoints) with
  | Some (service, id) => if decide (service = "" ∨ id = "") then None else Some (service, id)
  | None => None
  end.

Lemma addServiceEndpoint_of maps f :
  addServiceEndpoint maps f =
  match endpointOf f with
  | None => maps
  | Some (service, id) =>
      if flagOf (snd maps) (service +:+ ":" +:+ id) then maps
      else (<[service := default [] (fst maps !! service) ++ [mkEndpointEntry id (extractIPFromEndpointValue (Value f))]]> (fst maps),
            <[service +:+ ":" +:+ id := true]> (snd maps))
  end.
Proof.
  destruct maps as [endpoints seen]. unfold addServiceEndpoint, endpointOf. destruct (parseEndpointPath _) as [[service id]|]; [|done].
  repeat case_bool_decide; case_decide; simpl; done || naive_solver.
Qed.

Lemma serviceEndpoints_fold l service id ip :
  (∀ f s i, f ∈ l → endpointOf f = Some (s, i) → ContainsByte s ":" = false ∧
     ∀ g, g ∈ l → endpointOf g = Some (s, i) → extractIPFromEndpointValue (Value g) = extractIPFromEndpointValue (Value f)) →
  let maps := foldl addServiceEndpoint (∅, ∅) l in
  (mkEndpointEntry id ip ∈ default [] (fst maps !! service) ↔ ∃ f, f ∈ l ∧ endpointOf f = Some (service, id) ∧ ip = extractIPFromEndpointValue (Value f)) ∧
  (ContainsByte service ":" = false → flagOf (snd maps) (service +:+ ":" +:+ id) = true ↔ ∃ f, f ∈ l ∧ endpointOf f = Some (service, id)).
Proof.
  revert service id ip. induction l as [|f l IH] using rev_ind; intros service id ip Hst; [simpl; unfold flagOf; set_solver|].
  assert (Hst' : ∀ g s i, g ∈ l → endpointOf g = Some (s, i) → ContainsByte s ":" = false ∧
     ∀ g', g' ∈ l → endpointOf g' = Some (s, i) → extractIPFromEndpointValue (Value g') = extractIPFromEndpointValue (Value g)).
  { intros g s i Hg E. destruct (Hst g s i ltac:(set_solver) E) as [Hc Hu]. split; [done|]. intros g' Hg'. apply Hu. set_solver. }
  assert (IH' := λ s i a, IH s i a Hst'). clear IH. cbv zeta in *. rewrite foldl_app. simpl. set (maps := foldl addServiceEndpoint (∅, ∅) l) in *.
  rewrite addServiceEndpoint_of. setoid_rewrite elem_of_app. setoid_rewrite list_elem_of_singleton.
  destruct (endpointOf f) as [[s i]|] eqn:Ef; [|destruct (IH' service id ip); naive_solver].
  destruct (Hst f s i ltac:(set_solver) Ef) as [Hcol Hu].
  destruct (flagOf (snd maps) (s +:+ ":" +:+ i)) eqn:Eflag.
  - apply IH' in Eflag as (g & Hg & Eg); [|done..]. destruct (IH' service id ip) as [I1 I2].
    split; [rewrite I1|intros Hc; rewrite I2 by done]; split; [naive_solver| |naive_solver|].
    + intros (f' & [Hf'| ->] & E' & ->); [by exists f'|]. assert ((s, i) = (service, id)) as [= -> ->] by congruence. exists g.
      split_and!; [done..|]. symmetry. apply Hu; [set_solver|done].
    + intros (f' & [Hf'| ->] & E'); [by exists f'|]. assert ((s, i) = (service, id)) as [= -> ->] by congruence. by exists g.
  - simpl. destruct (IH' service id ip) as [I1 I2]. split.
    + destruct (decide (s = service)) as [->|Hne].
      * rewrite lookup_insert_eq. simpl. rewrite elem_of_app, I1, list_elem_of_singleton. split.
        -- intros [?|[= -> ->]]; [naive_solver|]. exists f. naive_solver.
        -- intros (f' & [Hf'| ->] & E' & ->); [left; by exists f'|]. right. congruence.
      * rewrite lookup_insert_ne, I1 by done. split; [naive_solver|]. intros (f' & [Hf'| ->] & E' & ->); [by exists f'|congruence].
    + intros Hc. unfold flagOf in *. destruct (decide (s +:+ ":" +:+ i = service +:+ ":" +:+ id)) as [E|Hne].
      * rewrite E, lookup_insert_eq. split; [intros _|done]. exists f. split; [by right|]. rewrite Ef.
        pose proof (Cut_app ":" s i Hcol) as E1. pose proof (Cut_app ":" service id Hc) as E2. change (String ":" i) with (":" +:+ i) in E1.
        change (String ":" id) with (":" +:+ id) in E2. rewrite E in E1. congruence.
      * rewrite lookup_insert_ne by done. rewrite I2 by done. split; [naive_solver|]. intros (f' & [Hf'| ->] & E'); [by exists f'|congruence].
Qed.

Lemma endpointAt_facts facts service id ip : facts_wf facts →
  endpointAt facts service id ip ↔
  ∃ f, f ∈ FactsWithPrefix facts ScanEndpoints ∧ endpointOf f = Some (service, id) ∧ ip = extractIPFromEndpointValue (Value f).
Proof.
  intros [Hs Hn]. setoid_rewrite FactsWithPrefix_filter; [|done..]. setoid_rewrite list_elem_of_filter. unfold endpointAt, endpointOf. split.
  - intros (path & v & (f & Hf & Hk & <-)%values_of_lookup & E & Hs0 & Hi0 & ->); [|done]. exists f. rewrite Hk, HasPrefix_app, TrimPrefix_app, E.
    rewrite decide_False by tauto. done.
  - intros (f & [[path Hk]%HasPrefix_spec Hf] & E & ->). exists path, (Value f). rewrite Hk, TrimPrefix_app in E.
    destruct (parseEndpointPath path) as [[s i]|]; [|done]. case_decide; [done|]. injection E as -> ->. split_and!; [|naive_solver..].
    apply values_of_lookup; [done|]. by exists f.
Qed.

Lemma serviceEndpoints_elem facts service id ip : facts_wf facts → steady facts →
  mkEndpointEntry id ip ∈ default [] (buildServiceEndpointMapFromFacts facts !! service) ↔ endpointAt facts service id ip.
Proof.
  intros Hwf Hst. rewrite endpointAt_facts by done. unfold buildServiceEndpointMapFromFacts.
  apply (serviceEndpoints_fold (FactsWithPrefix facts ScanEndpoints) service id ip). intros f s i Hf E.
  destruct (Hst s i (extractIPFromEndpointValue (Value f))) as [Hc Hu]; [apply endpointAt_facts; [done|]; by exists f|]. split; [done|].
  intros g Hg Eg. apply Hu, endpointAt_facts; [done|]. by exists g.
Qed.

(** ** The compiled rules *)

Lemma appendRule_elem (rules : gmap string (list string)) n v node value :
  value ∈ default [] (<[n := default [] (rules !! n) ++ [v]]> rules !! node) ↔ value ∈ default [] (rules !! node) ∨ (n = node ∧ value = v).
Proof.
  destruct (decide (n = node)) as [->|Hne]; [rewrite lookup_insert_eq; simpl; rewrite elem_of_app, list_elem_of_singleton|rewrite lookup_insert_ne by done];
    naive_solver.
Qed.

Lemma appendCompiled_elem sourceIPs targets rule : ∀ rules node value,
  value ∈ default [] (appendCompiledRulesForPolicyRule rules sourceIPs targets rule !! node) ↔
  value ∈ default [] (rules !! node) ∨
  ∃ target sourceIP, target ∈ targets ∧ targetNode target = node ∧ sourceIP ∈ sourceIPs ∧
    value = formatCompiledFirewallRule sourceIP (targetIP target) (identityPort rule) (identityAction rule).
Proof.
  assert (Hinner : ∀ target (rules : gmap string (list string)) node value,
    value ∈ default [] (foldl (λ rules sourceIP, <[targetNode target := default [] (rules !! targetNode target) ++
      [formatCompiledFirewallRule sourceIP (targetIP target) (identityPort rule) (identityAction rule)]]> rules) rules sourceIPs !! node) ↔
    value ∈ default [] (rules !! node) ∨ targetNode target = node ∧ ∃ sourceIP, sourceIP ∈ sourceIPs ∧
      value = formatCompiledFirewallRule sourceIP (targetIP target) (identityPort rule) (identityAction rule)).
  { intros target. induction sourceIPs as [|ip ips IH]; intros rules node value; simpl; [set_solver|]. rewrite IH, appendRule_elem. setoid_rewrite elem_of_cons. naive_solver. }
  unfold appendCompiledRulesForPolicyRule. induction targets as [|target targets IH]; intros rules node value; simpl; [set_solver|].
  rewrite IH, Hinner. setoid_rewrite elem_of_cons. naive_solver.
Qed.

Lemma desiredRules_elem facts node value : facts_wf facts → steady facts →
  value ∈ default [] (desiredRulesOf facts !! node) ↔ enforced facts node value.
Proof.
  intros Hwf Hst. unfold desiredRulesOf, compileIdentityRulesToIPRulesPerNode, enforced.
  assert (Hsort : ∀ m : gmap string (list string), value ∈ default [] ((sort_strings <$> m) !! node) ↔ value ∈ default [] (m !! node)).
  { intros m. rewrite lookup_fmap. destruct (m !! node) as [l|]; simpl; [|done]. unfold sort_strings. by rewrite sort_stable_perm. }
  rewrite Hsort. clear Hsort. setoid_rewrite <- (policyRules_elem facts _ Hwf).
  set (endpoints := buildServiceEndpointMapFromFacts facts). set (nodes := buildInstanceNodeMapFromPlacements facts).
  assert (Hsource : ∀ rule ip, ip ∈ resolveServiceToIPAddresses (sourceName rule) endpoints ↔ sourceAt facts rule ip).
  { intros rule ip. unfold resolveServiceToIPAddresses, sourceAt. case_bool_decide; [set_solver|]. rewrite list_elem_of_fmap.
    setoid_rewrite <- (serviceEndpoints_elem facts _ _ _ Hwf Hst). split.
    - intros ([i a] & -> & Hin). right. split; [done|]. by exists i.
    - intros [[? _]|[_ [i Hi]]]; [done|]. by exists (mkEndpointEntry i ip). }
  assert (Htarget : ∀ rule target, target ∈ resolveServiceToTargetNodeEntries (targetName rule) endpoints nodes ↔
    ∃ id, endpointAt facts (targetName rule) id (targetIP target) ∧ values_of facts !! (ScanPlacements +:+ id) = Some (targetNode target)).
  { intros rule [tip tnode]. unfold resolveServiceToTargetNodeEntries, nodes, buildInstanceNodeMapFromPlacements. rewrite list_elem_of_omap.
    setoid_rewrite <- (serviceEndpoints_elem facts _ _ _ Hwf Hst). simpl. split.
    - intros ([i a] & Hin & E). simpl in E. rewrite valuesByPath_lookup in E by done. destruct (values_of facts !! _) eqn:Ep; [|done].
      injection E as -> ->. by exists i.
    - intros (i & Hin & Hp). exists (mkEndpointEntry i tip). split; [done|]. simpl. by rewrite valuesByPath_lookup, Hp by done. }
  assert (Hfold : ∀ policies (rules : gmap string (list string)), value ∈ default [] (foldl (λ rulesPerNode rule, appendCompiledRulesForPolicyRule rulesPerNode
      (resolveServiceToIPAddresses (sourceName rule) endpoints) (resolveServiceToTargetNodeEntries (targetName rule) endpoints nodes) rule) rules policies !! node) ↔
    value ∈ default [] (rules !! node) ∨ ∃ rule sourceIP id ip, rule ∈ policies ∧ sourceAt facts rule sourceIP ∧ endpointAt facts (targetName rule) id ip ∧
      values_of facts !! (ScanPlacements +:+ id) = Some node ∧ value = formatCompiledFirewallRule sourceIP ip (identityPort rule) (identityAction rule)).
  { induction policies as [|rule policies IH]; intros rules; simpl; [set_solver|]. rewrite IH, appendCompiled_elem.
    setoid_rewrite Hsource. setoid_rewrite Htarget. setoid_rewrite elem_of_cons. split.
    - intros [[?|(target & sip & (id & He & Hp) & <- & Hs & ->)]|(r & sip & id & ip & ? & ?)]; [by left|right..].
      + exists rule, sip, id, (targetIP target). split; [by left|done].
      + exists r, sip, id, ip. tauto.
    - intros [?|(r & sip & id & ip & [->|Hr] & Hs & He & Hp & ->)]; [by left; left| |].
      + left. right. exists (mkTargetEntry ip node), sip. simpl. split_and!; [by exists id|done..].
      + right. by exists r, sip, id, ip. }
  rewrite Hfold, lookup_empty. simpl. set_solver.
Qed.

(** ** The rules that exist *)

(** Every fact below the prefix has a key as the controller writes it. *)
Definition tidy (facts : list Fact) : Prop :=
  ∀ path, is_Some (values_of facts !! (ScanDerivedNetworkRules +:+ path)) →
    ∃ node i, ContainsByte node slash = false ∧ 0 ≤ i ≤ int64_max ∧ path = node +:+ "/" +:+ Itoa i.

Definition ruleAt (rules : gmap string (gmap Z string)) (node : string) (i : Z) : option string := rules !! node ≫= (.!! i).

Lemma networkRuleKey_inj n1 i1 n2 i2 : KeyDerivedNetworkRule n1 i1 = KeyDerivedNetworkRule n2 i2 → n1 = n2 ∧ i1 = i2.
Proof. intros [-> ->%(inj Itoa)]%(inj (String.append _))%last_segment_inj; [done|by apply Itoa_ContainsByte..]. Qed.

Lemma networkRuleKey_parse node i : ContainsByte node slash = false → in_int64 i → parseDerivedNetworkRuleKey (KeyDerivedNetworkRule node i) = Some (node, i).
Proof.
  intros Hn Hi. unfold parseDerivedNetworkRuleKey, KeyDerivedNetworkRule.
  rewrite (proj2 (split_spec _ _ node (Itoa i) (HasPrefix_app _ _))) by done. by rewrite Atoi_Itoa.
Qed.

Lemma networkRuleKey_parse_inv key node i : HasPrefix key ScanDerivedNetworkRules = true → parseDerivedNetworkRuleKey key = Some (node, i) →
  ContainsByte node slash = false ∧ in_int64 i.
Proof.
  intros Hp. unfold parseDerivedNetworkRuleKey. destruct (splitFactKeyIntoEntityAndSuffix _ _) as [[e s]|] eqn:E; [|done].
  apply split_spec in E as [He _]; [|done]. destruct (Atoi s) as [n [err|]] eqn:Ea; [done|]. intros [= -> ->]. split; [done|].
  pose proof (Atoi_range s) as Hr. by rewrite Ea in Hr.
Qed.

Lemma ruleAt_insert (rules : gmap string (gmap Z string)) n j v node i :
  ruleAt (<[n := <[j := v]> (default ∅ (rules !! n))]> rules) node i = if decide ((n, j) = (node, i)) then Some v else ruleAt rules node i.
Proof.
  unfold ruleAt. destruct (decide (n = node)) as [->|Hn]; [rewrite lookup_insert_eq; simpl|rewrite lookup_insert_ne by done; rewrite decide_False by congruence; done].
  destruct (decide (j = i)) as [->|Hj]; [by rewrite lookup_insert_eq, decide_True|]. rewrite lookup_insert_ne, decide_False by congruence.
  by destruct (rules !! node).
Qed.

Lemma existing_fold l node i v :
  (∀ f g n j, f ∈ l → g ∈ l → parseDerivedNetworkRuleKey (Key f) = Some (n, j) → parseDerivedNetworkRuleKey (Key g) = Some (n, j) → Value f = Value g) →
  ruleAt (foldl addExistingRule ∅ l) node i = Some v ↔ ∃ f, f ∈ l ∧ parseDerivedNetworkRuleKey (Key f) = Some (node, i) ∧ Value f = v.
Proof.
  induction l as [|f l IH] using rev_ind; intros Huniq; [set_solver|].
  assert (IH' := IH (λ f g n j Hf Hg, Huniq f g n j (proj2 (elem_of_app l _ _) (or_introl Hf)) (proj2 (elem_of_app l _ _) (or_introl Hg)))). clear IH.
  rewrite foldl_app. simpl. setoid_rewrite elem_of_app. setoid_rewrite list_elem_of_singleton. unfold addExistingRule at 1.
  destruct (parseDerivedNetworkRuleKey (Key f)) as [[n j]|] eqn:Ef; [|rewrite IH'; naive_solver]. rewrite ruleAt_insert.
  case_decide as E; [injection E as -> ->|rewrite IH'; naive_solver]. split; [intros [= <-]; exists f; naive_solver|].
  intros (g & [Hg| ->] & Eg & <-); [|done]. f_equal. apply (Huniq f g node i); [set_solver..|done|done].
Qed.

(** The keys of a tidy list are read back as they were written. *)
Lemma tidy_key facts f : facts_wf facts → tidy facts → f ∈ FactsWithPrefix facts ScanDerivedNetworkRules →
  values_of facts !! Key f = Some (Value f) ∧
  ∃ n j, ContainsByte n slash = false ∧ in_int64 j ∧ Key f = KeyDerivedNetworkRule n j ∧ parseDerivedNetworkRuleKey (Key f) = Some (n, j).
Proof.
  intros [Hs Hn] Ht. rewrite FactsWithPrefix_filter, list_elem_of_filter by done. intros [[path Hk]%HasPrefix_spec Hf].
  assert (Hv : values_of facts !! Key f = Some (Value f)) by (apply values_of_lookup; [done|]; by exists f). split; [done|].
  destruct (Ht path) as (n & j & Hns & Hj & ->); [exists (Value f); by rewrite <- Hk|]. exists n, j.
  assert (in_int64 j) by (unfold in_int64, int64_min; lia). split_and!; [done..|]. rewrite Hk. by apply networkRuleKey_parse.
Qed.

Lemma existing_lookup facts node i : facts_wf facts → tidy facts →
  ruleAt (collectExistingDerivedNetworkRules facts) node i =
  if decide (ContainsByte node slash = false ∧ in_int64 i) then values_of facts !! KeyDerivedNetworkRule node i else None.
Proof.
  intros Hwf Ht. apply option_eq. intros v. unfold collectExistingDerivedNetworkRules. rewrite existing_fold.
  - split.
    + intros (f & Hf & E & <-). destruct (tidy_key facts f Hwf Ht Hf) as (Hv & n & j & Hns & Hj & Hk & E'). rewrite E in E'. injection E' as -> ->.
      rewrite decide_True by done. by rewrite <- Hk.
    + case_decide as Hc; [|done]. destruct Hc as [Hns Hi]. pose proof Hwf as [Hs Hn]. intros (f & Hf & Hk & <-)%values_of_lookup; [|done]. exists f.
      rewrite FactsWithPrefix_filter, list_elem_of_filter, Hk by done. split_and!; [apply HasPrefix_app|done|by apply networkRuleKey_parse|done].
  - intros f g n j Hf Hg Ef Eg. destruct (tidy_key facts f Hwf Ht Hf) as (Hv & n1 & j1 & _ & _ & Hk & E1).
    destruct (tidy_key facts g Hwf Ht Hg) as (Hv2 & n2 & j2 & _ & _ & Hk2 & E2). congruence.
Qed.

(** ** The changes *)

Section diff.
Context `{GoMapRange} `{GoIntMapRange} (desired : gmap string (list string)) (existing : gmap string (gmap Z string)).
Context (Hvalues : ∀ node rules v, desired !! node = Some rules → v ∈ rules → v ≠ "").
Context (Hindices : ∀ node j v, ruleAt existing node j = Some v → 0 ≤ j).

Lemma elem_of_int_range {V} (m : gmap Z V) k v : (k, v) ∈ int_range m ↔ m !! k = Some v.
Proof. by rewrite int_range_perm, elem_of_map_to_list. Qed.

Lemma int_range_keys_nodup {V} (m : gmap Z V) : NoDup (int_range m).*1.
Proof. rewrite int_range_perm. apply NoDup_fst_map_to_list. Qed.

Lemma putRules_elem node rules c : desired !! node = Some rules →
  c ∈ putRules node (existing !! node) rules ↔
  ∃ i v, rules !! i = Some v ∧ ruleAt existing node (Z.of_nat i) ≠ Some v ∧ c = mkChange OpPut (KeyDerivedNetworkRule node (Z.of_nat i)) v "".
Proof using Hvalues.
  intros Hd. unfold putRules. rewrite list_elem_of_bind.
  assert (Htest : ∀ i v, rules !! i = Some v →
    (match existing !! node with Some m => bool_decide (default "" (m !! Z.of_nat i) = v) | None => false end) = bool_decide (ruleAt existing node (Z.of_nat i) = Some v)).
  { intros i v Hv. assert (v ≠ "") by (apply (Hvalues node rules v Hd); by eapply list_elem_of_lookup_2). unfold ruleAt.
    destruct (existing !! node) as [m|]; simpl; [|by rewrite ?bool_decide_eq_false_2]. apply bool_decide_ext. destruct (m !! Z.of_nat i); simpl; naive_solver. }
  split.
  - intros ([i v] & Hc & (i' & v' & [= <- <-] & Hv)%elem_of_lookup_imap). exists i, v. rewrite Htest in Hc by done. case_bool_decide; [by apply elem_of_nil in Hc|].
    apply list_elem_of_singleton in Hc as ->. done.
  - intros (i & v & Hv & Hne & ->). exists (i, v). split; [|apply elem_of_lookup_imap; by exists i, v]. rewrite Htest, bool_decide_eq_false_2 by done. left.
Qed.

Lemma networkDiff_elem c :
  c ∈ diffDerivedNetworkRules desired existing ↔
  (∃ node i v, default [] (desired !! node) !! i = Some v ∧ ruleAt existing node (Z.of_nat i) ≠ Some v ∧
     c = mkChange OpPut (KeyDerivedNetworkRule node (Z.of_nat i)) v "") ∨
  (∃ node j v, ruleAt existing node j = Some v ∧ Z.of_nat (length (default [] (desired !! node))) ≤ j ∧ c = deleteRule node j).
Proof using Hvalues Hindices.
  unfold diffDerivedNetworkRules, diffDesiredNodeRules, removeStaleNodeRules, removeExcessRulesForNode. rewrite elem_of_app, !list_elem_of_bind. split.
  - intros [([node rules] & Hc & Hd%elem_of_map_range)|([node m] & Hc & Hm%elem_of_map_range)].
    + apply elem_of_app in Hc as [Hc|Hc].
      * apply putRules_elem in Hc as (i & v & Hv & Hne & ->); [|done]. left. exists node, i, v. by rewrite Hd.
      * apply list_elem_of_bind in Hc as ([j v] & Hc & Hj%elem_of_int_range). destruct (Z.leb_spec (Z.of_nat (length rules)) j); [|by apply elem_of_nil in Hc].
        apply list_elem_of_singleton in Hc as ->. right. exists node, j, v. rewrite Hd. unfold ruleAt. destruct (existing !! node); done.
    + destruct (desired !! node) eqn:Hd; [by apply elem_of_nil in Hc|]. apply list_elem_of_fmap in Hc as ([j v] & -> & Hj%elem_of_int_range).
      assert (Hr : ruleAt existing node j = Some v) by (unfold ruleAt; by rewrite Hm). right. exists node, j, v. rewrite Hd. split_and!; [done| |done]. by apply Hindices in Hr.
  - intros [(node & i & v & Hv & Hne & ->)|(node & j & v & Hr & Hj & ->)].
    + destruct (desired !! node) as [rules|] eqn:Hd; [|done]. left. exists (node, rules). split; [|by apply elem_of_map_range].
      apply elem_of_app. left. apply putRules_elem; [done|]. by exists i, v.
    + unfold ruleAt in Hr. destruct (existing !! node) as [m|] eqn:Hm; [|done]. destruct (desired !! node) as [rules|] eqn:Hd.
      * left. exists (node, rules). split; [|by apply elem_of_map_range]. apply elem_of_app. right. apply list_elem_of_bind. exists (j, v).
        rewrite Hm. destruct (Z.leb_spec (Z.of_nat (length rules)) j); [|simpl in *; lia]. split; [left|by apply elem_of_int_range].
      * right. exists (node, m). split; [|by apply elem_of_map_range]. rewrite Hd. apply list_elem_of_fmap. exists (j, v). split; [done|]. by apply elem_of_int_range.
Qed.

Lemma indices_nodup (rules : list string) : NoDup (imap pair rules).*1.
Proof.
  assert ((imap pair rules).*1 = seq 0 (length rules)) as ->; [|apply NoDup_seq]. apply list_eq. intros i. rewrite list_lookup_fmap, list_lookup_imap.
  destruct (decide (i < length rules)%nat) as [Hi|Hi].
  - rewrite lookup_seq_lt by done. destruct (lookup_lt_is_Some_2 rules i Hi) as [v ->]. done.
  - rewrite (lookup_ge_None_2 rules) by lia. by rewrite lookup_seq_ge by lia.
Qed.

(** The changes of one node are about its keys and name none twice. *)
Lemma node_changes_keys node rules c :
  c ∈ putRules node (existing !! node) rules ++ removeExcessRulesForNode node (Z.of_nat (length rules)) (default ∅ (existing !! node)) →
  ∃ j, ChangeKey c = KeyDerivedNetworkRule node j.
Proof.
  intros [([i v] & Hc & _)%list_elem_of_bind|([j v] & Hc & _)%list_elem_of_bind]%elem_of_app;
    [destruct (match existing !! node with Some _ => _ | None => _ end)|destruct (_ <=? j)]; try by apply elem_of_nil in Hc.
  all: apply list_elem_of_singleton in Hc as ->; by eexists.
Qed.

Lemma node_changes_nodup node rules : NoDup (ChangeKey <$> putRules node (existing !! node) rules ++
  removeExcessRulesForNode node (Z.of_nat (length rules)) (default ∅ (existing !! node))).
Proof.
  rewrite fmap_app. apply NoDup_app. split_and!.
  - apply (bind_keys_nodup (λ ix, KeyDerivedNetworkRule node (Z.of_nat ix.1))).
    + change (NoDup (((λ i, KeyDerivedNetworkRule node (Z.of_nat i)) ∘ fst) <$> imap pair rules)). rewrite list_fmap_compose. apply NoDup_fmap; [|apply indices_nodup].
      intros i j [_ E]%networkRuleKey_inj. by apply Nat2Z.inj.
    + intros [i v] _. destruct (match existing !! node with Some _ => _ | None => _ end); [by left|right; by eexists].
  - intros k (c & -> & ([i v] & Hc & (i' & v' & [= <- <-] & Hv)%elem_of_lookup_imap)%list_elem_of_bind)%list_elem_of_fmap.
    destruct (match existing !! node with Some _ => _ | None => _ end); [by apply elem_of_nil in Hc|]. apply list_elem_of_singleton in Hc as ->. simpl.
    intros (c & E & ([j w] & Hc & _)%list_elem_of_bind)%list_elem_of_fmap. destruct (Z.leb_spec (Z.of_nat (length rules)) j); [|by apply elem_of_nil in Hc].
    apply list_elem_of_singleton in Hc as ->. apply networkRuleKey_inj in E as [_ <-]. apply lookup_lt_Some in Hv. lia.
  - apply (bind_keys_nodup (λ jv, KeyDerivedNetworkRule node jv.1)).
    + change (NoDup ((KeyDerivedNetworkRule node ∘ fst) <$> int_range (default ∅ (existing !! node)))). rewrite list_fmap_compose. apply NoDup_fmap; [|apply int_range_keys_nodup]. by intros i j [_ ?]%networkRuleKey_inj.
    + intros [j v] _. destruct (Z.of_nat (length rules) <=? j); [right; by eexists|by left].
Qed.

Lemma stale_keys node (l : list (Z * string)) : ChangeKey <$> ((λ '(j, _), deleteRule node j) <$> l) = KeyDerivedNetworkRule node <$> l.*1.
Proof. induction l as [|[j v] l IH]; simpl; [done|]. by f_equal. Qed.

Lemma networkDiff_nodup : NoDup (ChangeKey <$> diffDerivedNetworkRules desired existing).
Proof.
  unfold diffDerivedNetworkRules, diffDesiredNodeRules, removeStaleNodeRules. rewrite fmap_app, !list_fmap_bind. apply NoDup_app. split_and!.
  - apply NoDup_bind; [| |apply (NoDup_fmap_1 fst), map_range_keys_nodup].
    + intros [n1 r1] [n2 r2] k H1%elem_of_map_range H2%elem_of_map_range (c1 & -> & Hc1)%list_elem_of_fmap (c2 & E & Hc2)%list_elem_of_fmap.
      apply node_changes_keys in Hc1 as [j1 E1], Hc2 as [j2 E2]. rewrite E1, E2 in E. apply networkRuleKey_inj in E as [-> _]. congruence.
    + intros [node rules] _. apply node_changes_nodup.
  - intros k ([n1 r1] & (c1 & -> & [j1 E1]%node_changes_keys)%list_elem_of_fmap & H1%elem_of_map_range)%list_elem_of_bind
      ([n2 m2] & (c2 & E & Hc2)%list_elem_of_fmap & H2%elem_of_map_range)%list_elem_of_bind. destruct (desired !! n2) eqn:Hd; [by apply elem_of_nil in Hc2|].
    apply list_elem_of_fmap in Hc2 as ([j2 v2] & -> & _). rewrite E1 in E. apply networkRuleKey_inj in E as [-> _]. congruence.
  - apply NoDup_bind; [| |apply (NoDup_fmap_1 fst), map_range_keys_nodup].
    + intros [n1 m1] [n2 m2] k H1%elem_of_map_range H2%elem_of_map_range (c1 & -> & Hc1)%list_elem_of_fmap (c2 & E & Hc2)%list_elem_of_fmap.
      destruct (desired !! n1); [by apply elem_of_nil in Hc1|]. destruct (desired !! n2); [by apply elem_of_nil in Hc2|].
      apply list_elem_of_fmap in Hc1 as ([j1 v1] & -> & _), Hc2 as ([j2 v2] & -> & _). apply networkRuleKey_inj in E as [-> _]. congruence.
    + intros [node m] _. destruct (desired !! node); [constructor|]. rewrite stale_keys. apply NoDup_fmap; [|apply int_range_keys_nodup].
      by intros i j [_ ?]%networkRuleKey_inj.
Qed.

(** Performing the changes gives the desired rules. *)
Lemma networkDiff_effect m node i : (∀ j, m !! KeyDerivedNetworkRule node j = ruleAt existing node j) →
  applyChanges (diffDerivedNetworkRules desired existing) m !! KeyDerivedNetworkRule node (Z.of_nat i) = default [] (desired !! node) !! i.
Proof using Hvalues Hindices.
  intros Hm. set (changes := diffDerivedNetworkRules desired existing).
  destruct (decide (KeyDerivedNetworkRule node (Z.of_nat i) ∈ ChangeKey <$> changes)) as [(c & Ek & Hc)%list_elem_of_fmap|Hout].
  - rewrite Ek, (applyChanges_elem changes c) by (done || apply networkDiff_nodup).
    apply networkDiff_elem in Hc as [(n & k & v & Hv & _ & ->)|(n & j & v & _ & Hj & ->)]; simpl in *; apply networkRuleKey_inj in Ek as [-> E].
    + apply Nat2Z.inj in E as ->. done.
    + symmetry. apply lookup_ge_None_2. lia.
  - rewrite applyChanges_other, Hm by done. destruct (default [] (desired !! node) !! i) as [v|] eqn:Hv.
    + destruct (decide (ruleAt existing node (Z.of_nat i) = Some v)) as [|Hne]; [done|]. exfalso. apply Hout, list_elem_of_fmap.
      eexists (mkChange OpPut _ v ""). split; [done|]. apply networkDiff_elem. left. by exists node, i, v.
    + destruct (ruleAt existing node (Z.of_nat i)) as [w|] eqn:Hw; [|done]. exfalso. apply Hout, list_elem_of_fmap.
      exists (deleteRule node (Z.of_nat i)). split; [done|]. apply networkDiff_elem. right. exists node, (Z.of_nat i), w.
      apply lookup_ge_None_1 in Hv. split_and!; [done|lia|done].
Qed.

Lemma networkDiff_same : (∀ node i, ruleAt existing node (Z.of_nat i) = default [] (desired !! node) !! i) → diffDerivedNetworkRules desired existing = [].
Proof using Hvalues Hindices.
  intros Hsame. destruct (diffDerivedNetworkRules desired existing) as [|c l] eqn:E; [done|]. exfalso.
  assert (Hc : c ∈ diffDerivedNetworkRules desired existing) by (rewrite E; left).
  apply networkDiff_elem in Hc as [(n & i & v & Hv & Hne & _)|(n & j & v & Hr & Hj & _)]; [rewrite Hsame in Hne; done|].
  pose proof (Hindices _ _ _ Hr). rewrite <- (Z2Nat.id j), Hsame in Hr by done. apply lookup_lt_Some in Hr. lia.
Qed.

End diff.

(** ** Settling *)

(** The rules depend on facts outside "derived/network/rule/" only. *)
Section inputs.
Context (facts facts' : list Fact) (Hwf : facts_wf facts) (Hwf' : facts_wf facts').
Context (Hsame : ∀ k, HasPrefix k ScanDerivedNetworkRules = false → values_of facts' !! k = values_of facts !! k).

Lemma enforced_same node value : enforced facts' node value ↔ enforced facts node value.
Proof using Hsame.
  assert (H1 : ∀ path, values_of facts' !! (ScanNetworkPolicies +:+ path) = values_of facts !! (ScanNetworkPolicies +:+ path)) by (intros; by apply Hsame).
  assert (H2 : ∀ path, values_of facts' !! (ScanEndpoints +:+ path) = values_of facts !! (ScanEndpoints +:+ path)) by (intros; by apply Hsame).
  assert (H3 : ∀ path, values_of facts' !! (ScanPlacements +:+ path) = values_of facts !! (ScanPlacements +:+ path)) by (intros; by apply Hsame).
  assert (R : ∀ rule, ruleIn facts' rule ↔ ruleIn facts rule) by (intros; unfold ruleIn; by setoid_rewrite H1).
  assert (P : ∀ service id ip, endpointAt facts' service id ip ↔ endpointAt facts service id ip) by (intros; unfold endpointAt; by setoid_rewrite H2).
  assert (A : ∀ rule ip, sourceAt facts' rule ip ↔ sourceAt facts rule ip) by (intros; unfold sourceAt; by setoid_rewrite P).
  unfold enforced. split; intros (rule & sip & id & ip & Hr & Hs & He & Hp & ->); exists rule, sip, id, ip; rewrite ?H3 in *; (split_and!; [by apply R|by apply A|by apply P|done..]).
Qed.

Lemma keyValues_same prefix : prefix ≠ "" → prefixes_apart prefix ScanDerivedNetworkRules = true → keyValues facts' prefix = keyValues facts prefix.
Proof using Hsame Hwf Hwf'.
  intros Hp Ha. apply keyValues_values; [done..|]. intros k Hk. apply Hsame. destruct (HasPrefix k ScanDerivedNetworkRules) eqn:E; [|done].
  unfold prefixes_apart in Ha. boolprop. by destruct (prefix_clash k prefix ScanDerivedNetworkRules).
Qed.

Lemma desiredRules_same : desiredRulesOf facts' = desiredRulesOf facts.
Proof using Hsame Hwf Hwf'.
  assert (E1 : ∀ fs, parseIdentityPolicyRulesFromFacts fs = omap (λ kv, parseIdentityPolicyRuleValue (TrimPrefix kv.1 ScanNetworkPolicies) kv.2) (keyValues fs ScanNetworkPolicies)).
  { intros fs. unfold keyValues, parseIdentityPolicyRulesFromFacts. apply list_omap_ext, Forall2_fmap_r, Forall_Forall2_diag, Forall_true. done. }
  assert (E2 : ∀ fs, buildServiceEndpointMapFromFacts fs = fst (foldl (λ maps kv, addServiceEndpoint maps (mkFact kv.1 kv.2 0 0 0)) (∅, ∅) (keyValues fs ScanEndpoints))).
  { intros fs. unfold keyValues. by rewrite foldl_fmap. }
  assert (E3 : ∀ fs, buildInstanceNodeMapFromPlacements fs = foldl (λ m kv, <[TrimPrefix kv.1 ScanPlacements := kv.2]> m) ∅ (keyValues fs ScanPlacements)).
  { intros fs. unfold keyValues. by rewrite foldl_fmap. }
  unfold desiredRulesOf. rewrite !E1, !E2, !E3. by rewrite !keyValues_same.
Qed.

End inputs.

Section settle.
Context `{GoMapRange} `{GoIntMapRange}.

Lemma desiredRules_nonempty facts node rules v : facts_wf facts → steady facts → desiredRulesOf facts !! node = Some rules → v ∈ rules → v ≠ "".
Proof.
  intros Hwf Hst Hd Hv. assert (Henf : enforced facts node v) by (apply desiredRules_elem; [done..|]; by rewrite Hd).
  destruct Henf as (rule & sip & id & ip & _ & _ & _ & _ & ->). unfold formatCompiledFirewallRule. by destruct sip.
Qed.

(** What the cycle is given. *)
Definition wellPlaced (facts : list Fact) : Prop :=
  (∀ id node, values_of facts !! (ScanPlacements +:+ id) = Some node → ContainsByte node slash = false) ∧
  (∀ node rules, desiredRulesOf facts !! node = Some rules → Z.of_nat (length rules) ≤ int64_max).

Lemma desiredRule_node facts node i v : facts_wf facts → steady facts → wellPlaced facts → default [] (desiredRulesOf facts !! node) !! i = Some v →
  ContainsByte node slash = false ∧ 0 ≤ Z.of_nat i < int64_max.
Proof.
  intros Hwf Hst [Hnodes Hlen] Hv. split.
  - assert (Henf : enforced facts node v) by (apply desiredRules_elem; [done..|]; by eapply list_elem_of_lookup_2).
    destruct Henf as (rule & sip & id & ip & _ & _ & _ & Hp & _). by apply (Hnodes id).
  - destruct (desiredRulesOf facts !! node) as [rules|] eqn:Hd; [|done]. apply lookup_lt_Some in Hv. simpl in Hv. pose proof (Hlen node rules Hd). lia.
Qed.

Lemma existing_index facts node j v : facts_wf facts → tidy facts → ruleAt (collectExistingDerivedNetworkRules facts) node j = Some v → 0 ≤ j.
Proof.
  intros Hwf Ht. rewrite existing_lookup by done. case_decide as Hc; [|done]. intros Hv.
  destruct (Ht (node +:+ "/" +:+ Itoa j)) as (n & i & _ & Hi & E); [by exists v|]. apply last_segment_inj in E as [_ E%(inj Itoa)]; [lia|by apply Itoa_ContainsByte..].
Qed.

(** For a node without a slash the existing rules are the facts. *)
Lemma existing_facts facts node j : facts_wf facts → tidy facts → ContainsByte node slash = false →
  values_of facts !! KeyDerivedNetworkRule node j = ruleAt (collectExistingDerivedNetworkRules facts) node j.
Proof.
  intros Hwf Ht Hn. rewrite existing_lookup by done. case_decide as Hc; [done|]. destruct (values_of facts !! KeyDerivedNetworkRule node j) as [v|] eqn:E; [|done].
  destruct (Ht (node +:+ "/" +:+ Itoa j)) as (n & i & _ & Hi & E'); [by exists v|].
  apply last_segment_inj in E' as [_ E'%(inj Itoa)]; [|by apply Itoa_ContainsByte..]. exfalso. apply Hc. split; [done|]. unfold in_int64, int64_min. lia.
Qed.

Section cycle.
Context (facts facts' : list Fact) (Hwf : facts_wf facts) (Hwf' : facts_wf facts') (Hst : steady facts) (Ht : tidy facts) (Hwell : wellPlaced facts).
Context (Hval : values_of facts' = applyChanges (NetworkPolicyController_Reconcile facts) (values_of facts)).

Lemma cycle_elem c : c ∈ NetworkPolicyController_Reconcile facts →
  ∃ node j, ChangeKey c = KeyDerivedNetworkRule node j ∧ (ChangeType c = OpDelete ∨ ContainsByte node slash = false ∧ 0 ≤ j < int64_max).
Proof using Hwf Hst Ht Hwell.
  intros [(n & i & v & Hv & _ & ->)|(n & j & v & _ & _ & ->)]%networkDiff_elem.
  - exists n, (Z.of_nat i). split; [done|]. right. by apply (desiredRule_node facts n i v).
  - exists n, j. split; [done|by left].
  - intros node rules v. by apply desiredRules_nonempty.
  - intros node j v. by apply existing_index.
Qed.

Lemma cycle_outside k : HasPrefix k ScanDerivedNetworkRules = false → values_of facts' !! k = values_of facts !! k.
Proof using Hwf Hst Ht Hwell Hval.
  intros Hk. rewrite Hval. apply (applyChanges_outside _ ScanDerivedNetworkRules); [|done]. intros c (n & j & -> & _)%cycle_elem. apply HasPrefix_app.
Qed.

Lemma cycle_tidy : tidy facts'.
Proof using Hwf Hst Ht Hwell Hval.
  intros path [v Hv]. rewrite Hval in Hv. set (changes := NetworkPolicyController_Reconcile facts) in *.
  destruct (decide (ScanDerivedNetworkRules +:+ path ∈ ChangeKey <$> changes)) as [(c & Ek & Hc)%list_elem_of_fmap|Hout].
  - rewrite Ek, (applyChanges_elem changes c) in Hv by (done || exact (networkDiff_nodup _ _)). destruct (cycle_elem c Hc) as (n & j & Ek' & Hor).
    rewrite Ek' in Ek. apply (inj (String.append _)) in Ek as ->. destruct Hor as [E|[Hn Hj]]; [by rewrite E in Hv|]. exists n, j. split_and!; [done|lia..|done].
  - rewrite applyChanges_other in Hv by done. apply Ht. by exists v.
Qed.

Lemma cycle_rules node i : ContainsByte node slash = false →
  values_of facts' !! KeyDerivedNetworkRule node (Z.of_nat i) = default [] (desiredRulesOf facts !! node) !! i.
Proof using Hwf Hst Ht Hval.
  intros Hn. rewrite Hval. apply networkDiff_effect.
  - intros n rules v. by apply desiredRules_nonempty.
  - intros n j v. by apply existing_index.
  - intros j. by apply existing_facts.
Qed.

Lemma cycle_settled : NetworkPolicyController_Reconcile facts' = [].
Proof using Hwf Hwf' Hst Ht Hwell Hval.
  unfold NetworkPolicyController_Reconcile. rewrite (desiredRules_same facts facts') by (done || apply cycle_outside). apply networkDiff_same.
  - intros n rules v. by apply desiredRules_nonempty.
  - intros n j v. apply existing_index; [done|apply cycle_tidy].
  - intros node i. destruct (ContainsByte node slash) eqn:Hn.
    + rewrite existing_lookup by (done || apply cycle_tidy). rewrite decide_False by (intros [? _]; congruence). symmetry.
      destruct (default [] (desiredRulesOf facts !! node) !! i) eqn:E; [|done]. destruct (desiredRule_node facts node i _ Hwf Hst Hwell E). congruence.
    + rewrite <- existing_facts by (done || apply cycle_tidy). by apply cycle_rules.
Qed.

End cycle.


End settle.

(** ** From written rules to the nodes *)

Lemma takeDigits_all s : (∀ c, ContainsByte s c = true → is_Some (digit_value c)) → takeDigits s = s.
Proof.
  induction s as [|c s IH]; intros Hd; simpl; [done|]. rewrite decide_True.
  - f_equal. apply IH. intros d Hs. apply Hd. simpl. destruct (ascii_dec c d); done.
  - apply Hd. simpl. by destruct (ascii_dec c c).
Qed.

(** A text that begins with an ASCII character other than a space has no space to skip. *)
Lemma skipSpace_none rounds c rest : Ascii.eqb c newlineByte = false → asciiSpace c = false → (N_of_ascii c < 128)%N →
  skipSpace rounds (String c rest) = Some (String c rest).
Proof.
  intros Hn Hs Hc. destruct rounds as [|rounds]; [done|]. cbn [skipSpace]. rewrite Hn, Hs.
  assert (Hwide : Forall (λ w, match w with String d _ => (128 <=? N_of_ascii d)%N | "" => false end = true) wideSpaces)
    by (apply (bool_decide_unpack _); vm_compute; exact I).
  destruct (List.find (HasPrefix (String c rest)) wideSpaces) as [w|] eqn:Ef; [|done]. exfalso. apply List.find_some in Ef as [Hin Hp].
  rewrite Forall_forall in Hwide. specialize (Hwide w (proj2 (list_elem_of_In _ _) Hin)). destruct w as [|d w]; [done|].
  apply HasPrefix_spec in Hp as [r Hr]. injection Hr as -> _. apply N.leb_le in Hwide. lia.
Qed.

Lemma digits_of_number n : 0 ≤ n → ∃ c rest, Itoa n = String c rest ∧ ∀ d, ContainsByte (String c rest) d = true → is_Some (digit_value d).
Proof.
  intros Hn. destruct (Itoa n) as [|c rest] eqn:E; [by destruct (Itoa_nonempty n)|]. exists c, rest. split; [done|]. intros d Hd. rewrite <- E in Hd.
  destruct (digit_value d) as [x|] eqn:Ed; [by exists x|]. exfalso.
  destruct (decide (d = "-"%char)) as [->|Hm]; [by rewrite Itoa_unsigned in Hd|by rewrite Itoa_ContainsByte in Hd].
Qed.

(** A port as it is printed is read as it was. *)
Lemma scanDecimal_Itoa n : 0 ≤ n ≤ int64_max → scanDecimal (Itoa n) = Some n.
Proof.
  intros Hn. destruct (digits_of_number n) as (c & rest & E & Hd); [lia|]. unfold scanDecimal.
  assert (Hc : is_Some (digit_value c)) by (apply Hd; simpl; by destruct (ascii_dec c c)).
  assert (Hcases : Ascii.eqb c newlineByte = false ∧ asciiSpace c = false ∧ (N_of_ascii c < 128)%N ∧ Ascii.eqb c "+" = false ∧ Ascii.eqb c "-" = false).
  { destruct Hc as [x Hx]. clear -Hx. destruct c as [[] [] [] [] [] [] [] []]; vm_compute in Hx; try discriminate Hx; vm_compute; done. }
  destruct Hcases as (H1 & H2 & H3 & H4 & H5). rewrite E, skipSpace_none by done. unfold signOf. rewrite H4, H5. simpl orb. cbv iota beta.
  rewrite takeDigits_all by done. rewrite bool_decide_eq_false_2 by done. rewrite <- E, str_app_nil_l.
  pose proof (Atoi_Itoa n) as Ha. unfold Atoi in Ha. by rewrite Ha by (unfold in_int64, int64_min; lia).
Qed.

(** A rule as the compiler and the policy engine write it. *)
Lemma written_rule_read name source target port action :
  ContainsByte source ":" = false → ContainsByte target ":" = false → 0 ≤ port ≤ int64_max →
  parseIdentityPolicyRuleValue name (formatCompiledFirewallRule source target port action) = Some (mkIdentityRule name source target port action).
Proof.
  intros Hs Ht Hp. unfold parseIdentityPolicyRuleValue, formatCompiledFirewallRule.
  assert (Hc : ∀ x, ":" +:+ x = String ":" x) by done. rewrite !Hc. cbn [SplitN].
  rewrite !Cut_app by (done || by apply Itoa_ContainsByte). by rewrite scanDecimal_Itoa.
Qed.

(** No endpoint is found for a name with a slash, so a rule between such services asks
    nothing of any node. *)
Lemma endpointAt_segment facts service id ip : endpointAt facts service id ip → ContainsByte service slash = false.
Proof.
  intros (path & v & _ & E & _). unfold parseEndpointPath in E. cbn [SplitN] in E. destruct (Cut slash path) as [[a b]|] eqn:Ec; [|done].
  apply Cut_Some in Ec as [_ Ha]. destruct (Cut slash b) as [[c d]|]; congruence.
Qed.

(** ** Concrete rules *)

#[local] Existing Instance reference_range.

#[export] Instance reference_int_range : GoIntMapRange := {| int_range V m := map_to_list m; int_range_perm V m := reflexivity (map_to_list m) |}.

Definition webInstances : list Fact :=
  [endpointFact "endpoint/service/db/d1/5432" "10.0.0.2:5432"; endpointFact "endpoint/service/web/w1/80" "10.0.0.1:80";
   endpointFact "placement/instance/d1" "node-1"; endpointFact "placement/instance/w1" "node-2"; endpointFact "policy/network/0-web-db" "web:db:5432:allow"].

Definition webEnforced : list Fact := endpointFact "derived/network/rule/node-1/0" "10.0.0.1:10.0.0.2:5432:allow" :: webInstances.

(** The facts that have a given key, case by case. *)
Ltac each_fact H :=
  apply values_of_lookup in H as (f & Hf & Hk & <-); [|apply (bool_decide_unpack _); vm_compute; exact I];
  repeat (apply elem_of_cons in Hf as [-> | Hf]; [try discriminate Hk|]); [..|by apply elem_of_nil in Hf].

Lemma webInstances_steady : steady webInstances.
Proof.
  assert (Hall : ∀ service id ip, endpointAt webInstances service id ip → (service, id, ip) ∈ [("db", "d1", "10.0.0.2"); ("web", "w1", "10.0.0.1")]).
  { intros service id ip (path & v & Hv & E & _ & _ & ->). each_fact Hv.
    all: apply (f_equal (λ k, TrimPrefix k ScanEndpoints)) in Hk; rewrite TrimPrefix_app in Hk; vm_compute in Hk; subst path; vm_compute in E; injection E as <- <-; apply (bool_decide_unpack _); vm_compute; exact I. }
  intros service id ip H1%Hall. split; [|intros ip' H2%Hall]; set_solver.
Qed.

Lemma webInstances_placed : wellPlaced webInstances.
Proof.
  split.
  - intros id node Hv. each_fact Hv; reflexivity.
  - assert (desiredRulesOf webInstances = {["node-1" := ["10.0.0.1:10.0.0.2:5432:allow"]]}) as -> by (apply (bool_decide_unpack _); vm_compute; exact I).
    intros node rules [_ <-]%lookup_singleton_Some. unfold int64_max. simpl. lia.
Qed.


(** The rule of the documentation: allow frontend/web -> payments/checkout port 443. Both
    services have instances with endpoints, the policy is stored, and no node gets a
    rule. *)
Definition documentedFacts : list Fact :=
  [endpointFact "endpoint/service/frontend/web/w1/80" "10.0.0.1:80"; endpointFact "endpoint/service/payments/checkout/c1/443" "10.0.0.2:443";
   endpointFact "placement/instance/c1" "node-1"; endpointFact "placement/instance/w1" "node-2";
   endpointFact "policy/network/0-frontend/web-payments/checkout" "frontend/web:payments/checkout:443:allow"].

Lemma documented_rule_unenforced : NetworkPolicyController_Reconcile documentedFacts = [].
Proof. vm_compute. reflexivity. Qed.

(** The controller and the policy engine read a port that is not a number differently:
    the engine skips the rule, the controller takes it for any port. *)
Lemma corrupt_port_widens : parseIdentityPolicyRuleValue "r" "web:db:https:allow" = Some (mkIdentityRule "r" "web" "db" 0 "allow").
Proof. vm_compute. reflexivity. Qed.
