(* ===== verification/DrainController.v ===== *)
(** * The drain controller (src/controllers/drain.go)

    It evicts the instances of draining nodes within the disruption budgets of their
    services, and marks a node whose instances are gone. Log output is left out. Counts
    of instances are unbounded integers; counts that come from facts keep their 64-bit
    width. *)

From S2P Require Import Prelude GoStrings GoFmt Trie EventHistory MemoryStore StoreInvariant StoreProps StateStore PrefixSearch Keys KeyNames Heap NodeHeap.
From S2P Require Import SchedulerFacts Placement Runner RunnerProps ControllerHelpers InstanceController InstanceEffects IntentResolver EndpointController.

Local Open Scope Z_scope.

Definition NodeDraining : string := "draining".
Definition InstanceStarting : string := "starting".

Definition DrainController_Watch : list string :=
  [ScanObservedNodes; ScanPlacements; ScanObservedInstances; ScanDerivedInstances; ScanDesiredServices; ScanDerivedNodes].

(** ** Reading the facts *)

Definition parseDrainingNodes (facts : list Fact) : gmap string bool :=
  foldl (λ drainingNodeSet '(nodeID, suffix, value),
    if bool_decide (suffix = "state") && bool_decide (value = NodeDraining) then <[nodeID := true]> drainingNodeSet else drainingNodeSet)
    ∅ (entityFields facts ScanObservedNodes).

Definition parsePlacementsByNode (facts : list Fact) : gmap string string := valuesByPath facts ScanPlacements.

Definition parseInstanceStates (facts : list Fact) : gmap string string := effectiveInstanceState <$> parseInstanceFieldsFromFacts facts.

Definition parseInstanceServices (facts : list Fact) : gmap string string := collectStringValuesBySuffix facts ScanObservedInstances "service".

(** The node a completion marker is for. *)
Definition completedNode (relativePath : string) : option string :=
  match SplitN slash 3 relativePath with
  | [node; drain; complete] => if bool_decide (drain = "drain") && bool_decide (complete = "complete") then Some node else None
  | _ => None
  end.

Definition parseDrainCompleteMarkers (facts : list Fact) : gmap string bool :=
  foldl (λ completeMarkers f,
    match completedNode (TrimPrefix (Key f) ScanDerivedNodes) with
    | Some node => <[node := true]> completeMarkers
    | None => completeMarkers
    end) ∅ (FactsWithPrefix facts ScanDerivedNodes).

(** The instance an eviction marker is for. *)
Definition evictedInstance (relativePath : string) : option string :=
  match SplitN slash 4 relativePath with
  | [_; drain; evict; instanceID] => if bool_decide (drain = "drain") && bool_decide (evict = "evict") then Some instanceID else None
  | _ => None
  end.

Definition parseDrainEvictionMarkers (facts : list Fact) : gmap string bool :=
  foldl (λ evictedInstances f,
    match evictedInstance (TrimPrefix (Key f) ScanDerivedNodes) with
    | Some instanceID => <[instanceID := true]> evictedInstances
    | None => evictedInstances
    end) ∅ (FactsWithPrefix facts ScanDerivedNodes).

Record disruptionBudget := mkBudget { minAvailable : Z; maxUnavailable : Z }.

(** A value that does not parse counts as what [Atoi] returns with its error. *)
Definition parseDisruptionBudgets (facts : list Fact) : gmap string disruptionBudget :=
  foldl (λ budgetsByService '(serviceName, suffix, value),
    let budget := default (mkBudget 0 0) (budgetsByService !! serviceName) in
    if bool_decide (suffix = "disruption/min_available") then <[serviceName := mkBudget (fst (Atoi value)) (maxUnavailable budget)]> budgetsByService
    else if bool_decide (suffix = "disruption/max_unavailable") then <[serviceName := mkBudget (minAvailable budget) (fst (Atoi value))]> budgetsByService
    else budgetsByService) ∅ (entityFields facts ScanDesiredServices).

Definition parseDesiredInstanceCounts (facts : list Fact) : gmap string Z := collectIntValuesBySuffix facts ScanDesiredServices "instances".

Definition isActiveInstanceState (instanceState : string) : bool :=
  bool_decide (instanceState = InstanceRunning) || bool_decide (instanceState = InstancePending) || bool_decide (instanceState = InstanceStarting).

(** [m[key]] of a [map[string]int]. *)
Definition countOf (m : gmap string Z) (key : string) : Z := default 0 (m !! key).

(** ** Evictions *)

Definition canEvictUnderDisruptionBudget (serviceName : string) (disruptionBudgets : gmap string disruptionBudget)
    (desiredInstanceCounts globalActiveCountByService : gmap string Z) : bool :=
  match disruptionBudgets !! serviceName with
  | None => true
  | Some budget =>
      let currentActiveCount := countOf globalActiveCountByService serviceName in
      if 0 <? minAvailable budget then minAvailable budget <=? currentActiveCount - 1
      else if 0 <? maxUnavailable budget then
        let desiredCount := countOf desiredInstanceCounts serviceName in
        if desiredCount =? 0 then true
        else ((desiredCount -! currentActiveCount) +! 1)%go <=? maxUnavailable budget
      else true
  end.

Section reconcile.
Context `{GoMapRange}.

Definition countGlobalActiveInstancesByService (instanceStates instanceServices : gmap string string) (evictedInstances : gmap string bool) : gmap string Z :=
  foldl (λ activeCountByService '(instanceID, stateValue),
    if flagOf evictedInstances instanceID then activeCountByService
    else if isActiveInstanceState stateValue then
      let serviceName := fieldOf instanceServices instanceID in
      if bool_decide (serviceName = "") then activeCountByService
      else <[serviceName := countOf activeCountByService serviceName + 1]> activeCountByService
    else activeCountByService) ∅ (map_range instanceStates).

Definition addActiveInstance (drainingNodeID : string) (instancePlacementNode instanceStates instanceServices : gmap string string)
    (existingEvictions : gmap string bool) (active : gmap string (list string) * Z) (instanceID : string) : gmap string (list string) * Z :=
  if negb (bool_decide (fieldOf instancePlacementNode instanceID = drainingNodeID)) then active
  else if flagOf existingEvictions instanceID then active
  else if negb (isActiveInstanceState (fieldOf instanceStates instanceID)) then active
  else
    let '(activeInstancesByService, totalActiveCount) := active in
    let serviceName := fieldOf instanceServices instanceID in
    (<[serviceName := default [] (activeInstancesByService !! serviceName) ++ [instanceID]]> activeInstancesByService, totalActiveCount + 1).

(** The active instances of a node, by service, and their number. *)
Definition activeInstancesOnNode (drainingNodeID : string) (instancePlacementNode instanceStates instanceServices : gmap string string)
    (existingEvictions : gmap string bool) : gmap string (list string) * Z :=
  foldl (addActiveInstance drainingNodeID instancePlacementNode instanceStates instanceServices existingEvictions) (∅, 0) (sortedMapKeys instancePlacementNode).

Definition evictChange (nodeID instanceID : string) : Change := mkChange OpPut (KeyDerivedNodeDrainEvict nodeID instanceID) "true" "".

(** The first instance of a service; the shared counts go down with every eviction. *)
Definition evictFirst (drainingNodeID : string) (activeInstancesByService : gmap string (list string)) (disruptionBudgets : gmap string disruptionBudget)
    (desiredInstanceCounts : gmap string Z) (evicted : list Change * gmap string Z) (serviceName : string) : list Change * gmap string Z :=
  let '(evictionChanges, counts) := evicted in
  match default [] (activeInstancesByService !! serviceName) with
  | [] => evicted
  | instanceID :: _ =>
      if canEvictUnderDisruptionBudget serviceName disruptionBudgets desiredInstanceCounts counts
      then (evictionChanges ++ [evictChange drainingNodeID instanceID], <[serviceName := countOf counts serviceName - 1]> counts)
      else evicted
  end.

Definition evictInstancesFromNode (drainingNodeID : string) (instancePlacementNode instanceStates instanceServices : gmap string string)
    (disruptionBudgets : gmap string disruptionBudget) (desiredInstanceCounts : gmap string Z) (existingEvictions : gmap string bool)
    (globalActiveCountByService : gmap string Z) : list Change * Z * gmap string Z :=
  let '(activeInstancesByService, totalActiveCount) :=
    activeInstancesOnNode drainingNodeID instancePlacementNode instanceStates instanceServices existingEvictions in
  let '(evictionChanges, counts) :=
    foldl (evictFirst drainingNodeID activeInstancesByService disruptionBudgets desiredInstanceCounts) ([], globalActiveCountByService)
      (sortedMapKeys activeInstancesByService) in
  (evictionChanges, totalActiveCount, counts).

Definition completeChange (nodeID : string) : Change := mkChange OpPut (KeyDerivedNodeDrainComplete nodeID) "true" "".

(** One draining node: its evictions, and the marker when no active instance is left. *)
Definition drainNode (facts : list Fact) (proposed : list Change * gmap string Z) (drainingNodeID : string) : list Change * gmap string Z :=
  let '(proposedChanges, counts) := proposed in
  let '(evicted, activeCount, counts) :=
    evictInstancesFromNode drainingNodeID (parsePlacementsByNode facts) (parseInstanceStates facts) (parseInstanceServices facts)
      (parseDisruptionBudgets facts) (parseDesiredInstanceCounts facts) (parseDrainEvictionMarkers facts) counts in
  (proposedChanges ++ evicted ++
   (if (activeCount =? 0) && negb (flagOf (parseDrainCompleteMarkers facts) drainingNodeID) then [completeChange drainingNodeID] else []), counts).

Definition DrainController_Reconcile (facts : list Fact) : list Change :=
  let drainingNodeSet := parseDrainingNodes facts in
  if bool_decide (drainingNodeSet = ∅) then []
  else
    fst (foldl (drainNode facts)
           ([], countGlobalActiveInstancesByService (parseInstanceStates facts) (parseInstanceServices facts) (parseDrainEvictionMarkers facts))
           (sortedMapKeys drainingNodeSet)).

End reconcile.

(** ** Who may be evicted *)

Definition isDraining (facts : list Fact) (node : string) : Prop :=
  ContainsByte node slash = false ∧ values_of facts !! (ScanObservedNodes +:+ node +:+ "/state") = Some NodeDraining.

(** The instance is marked for eviction. *)
Definition marked (facts : list Fact) (id : string) : Prop :=
  ∃ node, ContainsByte node slash = false ∧ is_Some (values_of facts !! KeyDerivedNodeDrainEvict node id).

(** An instance that still runs, is about to, or waits, and is not marked. *)
Definition active (facts : list Fact) (id : string) : Prop :=
  ContainsByte id slash = false ∧ stateIn facts id ∈ [InstanceRunning; InstancePending; InstanceStarting] ∧ ¬ marked facts id.

Definition serviceOf (facts : list Fact) (id : string) : string := default "" (values_of facts !! (ScanObservedInstances +:+ id +:+ "/service")).

(** An instance that the drain of a node may evict. *)
Definition candidate (facts : list Fact) (node id : string) : Prop :=
  values_of facts !! (ScanPlacements +:+ id) = Some node ∧ active facts id.

Lemma drainingNodes_flag facts node : facts_wf facts →
  is_Some (parseDrainingNodes facts !! node) ↔ isDraining facts node.
Proof.
  intros Hwf. unfold isDraining.
  assert (Hmem : ContainsByte node slash = false ∧ values_of facts !! (ScanObservedNodes +:+ node +:+ "/state") = Some NodeDraining ↔
    (node, "state", NodeDraining) ∈ entityFields facts ScanObservedNodes) by (rewrite elem_of_entityFields by done; done).
  rewrite Hmem. clear Hmem. unfold parseDrainingNodes. induction (entityFields facts ScanObservedNodes) as [|[[n suffix] v] l IH] using rev_ind.
  { simpl. rewrite lookup_empty. split; [by intros [??]|by intros ?%elem_of_nil]. }
  rewrite foldl_app, elem_of_app, list_elem_of_singleton, <- IH. simpl. destruct (decide (suffix = "state" ∧ v = NodeDraining)) as [[-> ->]|Hne].
  - rewrite !bool_decide_eq_true_2 by done. simpl. destruct (decide (n = node)) as [->|Hn]; [rewrite lookup_insert_eq|rewrite lookup_insert_ne by done].
    + split; [by right|by eexists].
    + split; [by left|]. intros [?|[= ->]]; done.
  - assert (bool_decide (suffix = "state") && bool_decide (v = NodeDraining) = false) as -> by (apply andb_false_iff; rewrite !bool_decide_eq_false; destruct (decide (suffix = "state")); naive_solver).
    split; [by left|]. intros [?|E]; [done|]. destruct Hne. by injection E.
Qed.

Lemma evictedInstance_path path id : evictedInstance path = Some id ↔ ∃ node, path = node +:+ "/drain/evict/" +:+ id ∧ ContainsByte node slash = false.
Proof.
  unfold evictedInstance. split.
  - destruct (SplitN slash 4 path) as [|a [|b [|c [|d [|]]]]] eqn:E; [done..| |done]. apply SplitN_4 in E as (-> & Ha & _).
    repeat case_bool_decide; simpl; try done. intros [= ->]. subst. by exists a.
  - intros (node & -> & Hn). by rewrite (proj2 (SplitN_4 (node +:+ "/drain/evict/" +:+ id) node "drain" "evict" id)).
Qed.

Lemma marked_path facts id : marked facts id ↔ ∃ path, is_Some (values_of facts !! (ScanDerivedNodes +:+ path)) ∧ evictedInstance path = Some id.
Proof.
  unfold marked. setoid_rewrite evictedInstance_path. split; [intros (node & Hn & Hm); exists (node +:+ "/drain/evict/" +:+ id); by split; [|exists node]|].
  intros (path & Hm & node & -> & Hn). by exists node.
Qed.

Lemma completeMarkers_flag facts node : facts_wf facts → ContainsByte node slash = false →
  flagOf (parseDrainCompleteMarkers facts) node = true ↔ is_Some (values_of facts !! KeyDerivedNodeDrainComplete node).
Proof.
  intros Hwf Hnode. etrans; [by apply (flags_by_path completedNode)|]. unfold completedNode. split.
  - intros (path & Hv & E). destruct (SplitN slash 3 path) as [|a [|b [|c [|]]]] eqn:Ep; try done. apply SplitN_3 in Ep as (-> & Ha & _).
    repeat case_bool_decide; simpl in E; try done. injection E as ->. by subst.
  - intros Hv. exists (node +:+ "/drain/complete"). split; [done|]. by rewrite (proj2 (SplitN_3 (node +:+ "/drain/complete") node "drain" "complete")).
Qed.

Lemma evictionMarkers_flag facts id : facts_wf facts → flagOf (parseDrainEvictionMarkers facts) id = true ↔ marked facts id.
Proof. intros Hwf. rewrite marked_path. by apply (flags_by_path evictedInstance). Qed.

Lemma isActive_elem state : isActiveInstanceState state = true ↔ state ∈ [InstanceRunning; InstancePending; InstanceStarting].
Proof. unfold isActiveInstanceState. rewrite !orb_true_iff, !bool_decide_eq_true. set_solver. Qed.

Lemma active_flags facts id : facts_wf facts →
  active facts id ↔ flagOf (parseDrainEvictionMarkers facts) id = false ∧ isActiveInstanceState (fieldOf (parseInstanceStates facts) id) = true.
Proof.
  intros Hwf. unfold active. rewrite <- evictionMarkers_flag, not_true_iff_false, isActive_elem by done. unfold parseInstanceStates, fieldOf.
  rewrite lookup_fmap. destruct (parseInstanceFieldsFromFacts facts !! id) as [fields|] eqn:E; simpl.
  - assert (Hid : ContainsByte id slash = false) by (apply (instanceFields_segment facts Hwf); by eexists).
    assert (effectiveInstanceState fields = stateIn facts id) as ->; [|tauto]. unfold effectiveInstanceState, stateIn.
    rewrite <- !(fields_text facts Hwf id) by done. by rewrite E.
  - split; [|intros [_ Hin]; by apply isActive_elem in Hin]. intros (Hid & Hs & _). exfalso.
    unfold stateIn in Hs. rewrite <- !(fields_text facts Hwf id) in Hs by done. rewrite E in Hs. by apply isActive_elem in Hs.
Qed.

Lemma service_field facts id : facts_wf facts → ContainsByte id slash = false → fieldOf (parseInstanceServices facts) id = serviceOf facts id.
Proof.
  intros Hwf Hid. unfold fieldOf, parseInstanceServices, collectStringValuesBySuffix, serviceOf. rewrite collectBySuffix_lookup, Hid by done.
  by destruct (values_of facts !! _).
Qed.

(** ** Evicting from one node *)

Section node.
Context `{GoMapRange} (facts : list Fact) (Hwf : facts_wf facts) (node : string).
Let placements := parsePlacementsByNode facts.
Let states := parseInstanceStates facts.
Let services := parseInstanceServices facts.
Let evictions := parseDrainEvictionMarkers facts.

Lemma placements_field id : is_Some (placements !! id) → fieldOf placements id = node ↔ values_of facts !! (ScanPlacements +:+ id) = Some node.
Proof using Hwf. unfold placements, parsePlacementsByNode, fieldOf. rewrite valuesByPath_lookup by done. intros [v ->]. simpl. naive_solver. Qed.

(** The active instances of the node are its candidates, each under its service. *)
Lemma activeOnNode_spec :
  let '(byService, total) := activeInstancesOnNode node placements states services evictions in
  (∀ s id, id ∈ default [] (byService !! s) ↔ candidate facts node id ∧ serviceOf facts id = s) ∧
  0 ≤ total ∧ (total = 0 ↔ ∀ id, ¬ candidate facts node id).
Proof using Hwf.
  unfold activeInstancesOnNode.
  assert (Hfold : ∀ ids, (∀ id, id ∈ ids → is_Some (placements !! id)) →
    let '(byService, total) := foldl (addActiveInstance node placements states services evictions) (∅, 0) ids in
    (∀ s id, id ∈ default [] (byService !! s) ↔ id ∈ ids ∧ candidate facts node id ∧ serviceOf facts id = s) ∧
    0 ≤ total ∧ (total = 0 ↔ ∀ id, id ∈ ids → ¬ candidate facts node id)).
  { induction ids as [|id ids IH] using rev_ind; intros Hids; [simpl; set_solver|]. assert (IH' := IH (λ id' Hin, Hids id' (proj2 (elem_of_app ids _ _) (or_introl Hin)))). clear IH. rewrite foldl_app. simpl. unfold addActiveInstance at 1. destruct (foldl _ _ ids) as [byService total].
    destruct IH' as (IH1 & IH2 & IH3). assert (Hpl : is_Some (placements !! id)) by (apply Hids, elem_of_app; right; left).
    assert (Hc : candidate facts node id ↔ fieldOf placements id = node ∧ flagOf evictions id = false ∧ isActiveInstanceState (fieldOf states id) = true).
    { unfold candidate. rewrite active_flags, (placements_field id Hpl) by done. tauto. }
    case_bool_decide as Hp; simpl; [destruct (flagOf evictions id) eqn:Ef; [|destruct (isActiveInstanceState (fieldOf states id)) eqn:Ea]|]; simpl.
    2: { assert (Hid : candidate facts node id) by tauto. assert (fieldOf services id = serviceOf facts id) as -> by (apply service_field; [done|apply Hid]). split_and!; [|lia|].
      - intros s id'. destruct (decide (serviceOf facts id = s)) as [<-|Hs].
        + rewrite lookup_insert_eq. simpl. rewrite elem_of_app, list_elem_of_singleton, IH1, elem_of_app, list_elem_of_singleton. naive_solver.
        + rewrite lookup_insert_ne, IH1, elem_of_app, list_elem_of_singleton by done. naive_solver.
      - split; [lia|]. intros Hno. destruct (Hno id); [|done]. apply elem_of_app. right. left. }
    all: assert (Hid : ¬ candidate facts node id) by (rewrite Hc; naive_solver);
      (split_and!; [intros s id'; rewrite IH1, elem_of_app, list_elem_of_singleton; naive_solver|lia|]).
    all: rewrite IH3; setoid_rewrite elem_of_app; setoid_rewrite list_elem_of_singleton; naive_solver. }
  specialize (Hfold (sortedMapKeys placements) (λ id, proj1 (sortedMapKeys_elem placements id))). destruct (foldl _ _ _) as [byService total]. destruct Hfold as (F1 & F2 & F3).
  assert (Hin : ∀ id, candidate facts node id → id ∈ sortedMapKeys placements).
  { intros id [Hp _]. apply sortedMapKeys_elem. unfold placements, parsePlacementsByNode. rewrite valuesByPath_lookup, Hp by done. done. }
  split_and!; [setoid_rewrite F1; naive_solver|done|rewrite F3; naive_solver].
Qed.

(** Whether a budget permits an eviction when so many instances are available. *)
Definition permits (s : string) (count : Z) : bool :=
  canEvictUnderDisruptionBudget s (parseDisruptionBudgets facts) (parseDesiredInstanceCounts facts) {[s := count]}.

Lemma canEvict_permits s counts :
  canEvictUnderDisruptionBudget s (parseDisruptionBudgets facts) (parseDesiredInstanceCounts facts) counts = permits s (countOf counts s).
Proof.
  unfold permits, canEvictUnderDisruptionBudget. assert (∀ c, countOf {[s := c]} s = c) as -> by (intros c; unfold countOf; by rewrite lookup_singleton_eq). done.
Qed.

Definition evictedOf (s : string) (ids : list string) : Z := Z.of_nat (length (filter (λ id, serviceOf facts id = s) ids)).

Lemma evictedOf_app s ids1 ids2 : evictedOf s (ids1 ++ ids2) = evictedOf s ids1 + evictedOf s ids2.
Proof. unfold evictedOf. rewrite filter_app, length_app. lia. Qed.

Lemma evictFirst_fold byService names counts :
  (∀ s id, id ∈ default [] (byService !! s) → candidate facts node id ∧ serviceOf facts id = s) → NoDup names →
  let '(changes, counts') := foldl (evictFirst node byService (parseDisruptionBudgets facts) (parseDesiredInstanceCounts facts)) ([], counts) names in
  ∃ ids, changes = evictChange node <$> ids ∧ NoDup (serviceOf facts <$> ids) ∧
    (∀ id, id ∈ ids → candidate facts node id ∧ serviceOf facts id ∈ names) ∧
    (∀ s, countOf counts' s = countOf counts s - evictedOf s ids) ∧
    (∀ s, countOf counts' s = countOf counts s ∨ permits s (countOf counts' s + 1) = true) ∧
    (∀ s, s ∈ names → default [] (byService !! s) ≠ [] → parseDisruptionBudgets facts !! s = None → s ∈ serviceOf facts <$> ids).
Proof.
  intros Hby. induction names as [|s names IH] using rev_ind; intros Hnd.
  { simpl. exists []. split_and!; [done|constructor|set_solver|intros; unfold evictedOf; simpl; lia|by left|set_solver]. }
  apply NoDup_app in Hnd as (Hnd & Hout & _). specialize (IH Hnd). rewrite foldl_app. simpl. unfold evictFirst at 1.
  destruct (foldl _ _ names) as [changes counts1]. destruct IH as (ids & -> & Hser & Hids & Hcount & Hperm & Hprog).
  assert (Hkeep : (default [] (byService !! s) ≠ [] → parseDisruptionBudgets facts !! s = None → False) →
    ∃ ids', evictChange node <$> ids = evictChange node <$> ids' ∧ NoDup (serviceOf facts <$> ids') ∧
    (∀ id, id ∈ ids' → candidate facts node id ∧ serviceOf facts id ∈ names ++ [s]) ∧ (∀ s', countOf counts1 s' = countOf counts s' - evictedOf s' ids') ∧
    (∀ s', countOf counts1 s' = countOf counts s' ∨ permits s' (countOf counts1 s' + 1) = true) ∧
    (∀ s', s' ∈ names ++ [s] → default [] (byService !! s') ≠ [] → parseDisruptionBudgets facts !! s' = None → s' ∈ serviceOf facts <$> ids')).
  { intros Hno. exists ids. split_and!; [done|done| |done|done|].
    { intros id Hin. destruct (Hids id Hin). split; [done|]. apply elem_of_app. by left. }
    intros s' [Hs'| ->%list_elem_of_singleton]%elem_of_app; [by apply Hprog|]. intros Ha Hb. by destruct Hno. }
  destruct (default [] (byService !! s)) as [|id rest] eqn:Eb; [by apply Hkeep|]. rewrite canEvict_permits.
  destruct (permits s (countOf counts1 s)) eqn:Ep.
  2: { apply Hkeep. intros _ Hb. unfold permits, canEvictUnderDisruptionBudget in Ep. by rewrite Hb in Ep. }
  clear Hkeep. destruct (Hby s id) as [Hid Hs]; [rewrite Eb; left|]. exists (ids ++ [id]).
  assert (Hnew : s ∉ serviceOf facts <$> ids) by (intros (id' & -> & [_ Hin]%Hids)%list_elem_of_fmap; by apply (Hout _ Hin); left).
  assert (Hc : ∀ s', countOf (<[s := countOf counts1 s - 1]> counts1) s' = countOf counts1 s' - evictedOf s' [id]).
  { intros s'. unfold evictedOf, countOf at 1. rewrite filter_cons, filter_nil, Hs. destruct (decide (s = s')) as [->|Hne].
    - rewrite lookup_insert_eq. simpl. lia.
    - rewrite lookup_insert_ne by done. simpl. unfold countOf. lia. }
  split_and!.
  - by rewrite fmap_app.
  - rewrite fmap_app. apply NoDup_app. split_and!; [done| |apply NoDup_singleton]. intros x Hx ->%list_elem_of_singleton. by rewrite Hs in Hx.
  - intros id' [[? ?]%Hids| ->%list_elem_of_singleton]%elem_of_app; rewrite elem_of_app; [by split; [|left]|]. rewrite Hs. split; [done|right; left].
  - intros s'. rewrite Hc, Hcount, evictedOf_app. lia.
  - intros s'. destruct (decide (s' = s)) as [->|Hne].
    + right. unfold countOf at 1. rewrite lookup_insert_eq. simpl. by replace (countOf counts1 s - 1 + 1) with (countOf counts1 s) by lia.
    + assert (countOf (<[s := countOf counts1 s - 1]> counts1) s' = countOf counts1 s') as -> by (unfold countOf; by rewrite lookup_insert_ne). apply Hperm.
  - intros s' Hs' Hne Hb. rewrite fmap_app, elem_of_app. simpl. rewrite list_elem_of_singleton. apply elem_of_app in Hs' as [Hs'|Hs'%list_elem_of_singleton]; [left; by apply Hprog|right; congruence].
Qed.

End node.

(** ** Evicting from all draining nodes *)

Section nodes.
Context `{GoMapRange} (facts : list Fact) (Hwf : facts_wf facts).

(** A node without active instances that has no marker yet. *)
Definition completes (node : string) : Prop := (∀ id, ¬ candidate facts node id) ∧ values_of facts !! KeyDerivedNodeDrainComplete node = None.

(** The evictions [pairs], of an instance from a node each, are what draining [nodes] does
    to the counts of available instances. *)
Record drains (nodes : list string) (counts counts' : gmap string Z) (changes : list Change) (pairs : list (string * string)) : Prop := {
  drains_changes : ∀ c, c ∈ changes ↔
    (∃ node id, (node, id) ∈ pairs ∧ c = evictChange node id) ∨ (∃ node, node ∈ nodes ∧ completes node ∧ c = completeChange node);
  drains_candidates : ∀ node id, (node, id) ∈ pairs → node ∈ nodes ∧ candidate facts node id;
  drains_rate : NoDup ((λ p, (p.1, serviceOf facts p.2)) <$> pairs);
  drains_counts : ∀ s, countOf counts' s = countOf counts s - evictedOf facts s (pairs.*2);
  drains_permitted : ∀ s, countOf counts' s = countOf counts s ∨ permits facts s (countOf counts' s + 1) = true;
  drains_progress : ∀ node id, node ∈ nodes → candidate facts node id → parseDisruptionBudgets facts !! serviceOf facts id = None →
    ∃ id', (node, id') ∈ pairs ∧ serviceOf facts id' = serviceOf facts id }.

Lemma drainNode_drains node counts : ContainsByte node slash = false → let '(changes, counts') := drainNode facts ([], counts) node in
  ∃ ids, drains [node] counts counts' changes (pair node <$> ids).
Proof using Hwf.
  intros Hnode. unfold drainNode, evictInstancesFromNode. pose proof (activeOnNode_spec facts Hwf node) as Hact.
  destruct (activeInstancesOnNode _ _ _ _ _) as [byService total]. destruct Hact as (Hby & Htotal & Hzero).
  pose proof (evictFirst_fold facts Hwf node byService (sortedMapKeys byService) counts (λ s id, proj1 (Hby s id)) (sortedMapKeys_nodup _)) as Hev.
  destruct (foldl _ _ _) as [changes counts']. destruct Hev as (ids & -> & Hser & Hids & Hcount & Hperm & Hprog). exists ids. split.
  - intros c. simpl. rewrite elem_of_app, list_elem_of_fmap. setoid_rewrite list_elem_of_fmap. setoid_rewrite list_elem_of_singleton.
    assert (Hc : c ∈ (if (total =? 0) && negb (flagOf (parseDrainCompleteMarkers facts) node) then [completeChange node] else []) ↔ completes node ∧ c = completeChange node).
    { unfold completes. rewrite <- Hzero, eq_None_not_Some, <- completeMarkers_flag, not_true_iff_false by done. destruct (Z.eqb_spec total 0); simpl; [destruct (flagOf _ node); simpl|]; set_solver. }
    rewrite Hc. naive_solver.
  - intros n id (id' & [= -> ->] & Hin)%list_elem_of_fmap. split; [left|by apply Hids].
  - rewrite <- list_fmap_compose. apply (NoDup_fmap_1 snd). by rewrite <- list_fmap_compose.
  - intros s. rewrite Hcount, <- list_fmap_compose. do 2 f_equal. symmetry. apply list_fmap_id.
  - done.
  - intros n id ->%list_elem_of_singleton Hid Hb. assert (Hin : id ∈ default [] (byService !! serviceOf facts id)) by by apply Hby.
    assert (Hs : serviceOf facts id ∈ serviceOf facts <$> ids).
    { apply Hprog; [| |done].
      - apply sortedMapKeys_elem. destruct (byService !! _); [done|by apply elem_of_nil in Hin].
      - intros E. rewrite E in Hin. by apply elem_of_nil in Hin. }
    apply list_elem_of_fmap in Hs as (id' & E & Hin'). exists id'. split; [by apply list_elem_of_fmap_2|done].
Qed.

Lemma drainNode_prefix node changes counts :
  drainNode facts (changes, counts) node = (changes ++ fst (drainNode facts ([], counts) node), snd (drainNode facts ([], counts) node)).
Proof. unfold drainNode. by destruct (evictInstancesFromNode _ _ _ _ _ _ _ _) as [[??]?]. Qed.

Lemma drains_app nodes node counts counts1 counts2 changes changes1 pairs ids : node ∉ nodes →
  drains nodes counts counts1 changes pairs → drains [node] counts1 counts2 changes1 (pair node <$> ids) →
  drains (nodes ++ [node]) counts counts2 (changes ++ changes1) (pairs ++ (pair node <$> ids)).
Proof.
  intros Hnew [C1 C2 C3 C4 C5 C6] [D1 D2 D3 D4 D5 D6]. split.
  - intros c. rewrite elem_of_app, C1, D1. setoid_rewrite elem_of_app. naive_solver.
  - intros n id [Hp%C2|Hp%D2]%elem_of_app; rewrite elem_of_app; tauto.
  - rewrite fmap_app. apply NoDup_app. split_and!; [done| |done].
    intros x ([n id] & -> & [Hn _]%C2)%list_elem_of_fmap ([n' id'] & [= -> _] & [Hn' _]%D2)%list_elem_of_fmap.
    apply list_elem_of_singleton in Hn' as ->. done.
  - intros s. rewrite D4, C4, fmap_app, evictedOf_app. lia.
  - intros s. destruct (D5 s) as [-> |]; [apply C5|by right].
  - intros n id [Hn|Hn]%elem_of_app Hc Hb; [destruct (C6 n id Hn Hc Hb) as (id' & ? & ?)|destruct (D6 n id Hn Hc Hb) as (id' & ? & ?)];
      exists id'; rewrite elem_of_app; tauto.
Qed.

Lemma drainNodes_drains nodes counts : NoDup nodes → Forall (λ node, ContainsByte node slash = false) nodes → ∃ pairs,
  drains nodes counts (snd (foldl (drainNode facts) ([], counts) nodes)) (fst (foldl (drainNode facts) ([], counts) nodes)) pairs.
Proof using Hwf.
  induction nodes as [|node nodes IH] using rev_ind; intros Hnd Hseg.
  { exists []. split; [set_solver..|constructor| |by left|set_solver]. intros s. unfold evictedOf. simpl. lia. }
  apply NoDup_app in Hnd as (Hnd & Hout & _). apply Forall_app in Hseg as [Hseg Hnode]. apply Forall_inv in Hnode. destruct (IH Hnd Hseg) as [pairs Hp]. rewrite foldl_app. simpl.
  destruct (foldl _ _ nodes) as [changes counts1]. rewrite drainNode_prefix. pose proof (drainNode_drains node counts1 Hnode) as Hd.
  destruct (drainNode facts ([], counts1) node) as [changes1 counts2]. destruct Hd as [ids Hd]. exists (pairs ++ (pair node <$> ids)).
  simpl in *. apply (drains_app _ _ _ counts1); [|done..]. intros Hin. by apply (Hout _ Hin); left.
Qed.

(** The count of a service is the number of its active instances. *)
Lemma globalCount_active s ids : s ≠ "" → NoDup ids → (∀ id, id ∈ ids ↔ active facts id ∧ serviceOf facts id = s) →
  countOf (countGlobalActiveInstancesByService (parseInstanceStates facts) (parseInstanceServices facts) (parseDrainEvictionMarkers facts)) s =
  Z.of_nat (length ids).
Proof using Hwf.
  intros Hs Hnd Hids. set (states := parseInstanceStates facts). set (services := parseInstanceServices facts). set (evictions := parseDrainEvictionMarkers facts).
  pose (P := λ kv : string * string, flagOf evictions kv.1 = false ∧ isActiveInstanceState kv.2 = true ∧ fieldOf services kv.1 = s).
  assert (Hcount : countOf (countGlobalActiveInstancesByService states services evictions) s = Z.of_nat (length (filter P (map_range states)))).
  { unfold countGlobalActiveInstancesByService. induction (map_range states) as [|[id st] l IH] using rev_ind; [done|].
    rewrite foldl_app, filter_app, length_app, Nat2Z.inj_add, <- IH. simpl. rewrite filter_cons, filter_nil. unfold P. simpl.
    destruct (flagOf evictions id); [rewrite decide_False by naive_solver; simpl; lia|].
    destruct (isActiveInstanceState st); [|rewrite decide_False by naive_solver; simpl; lia].
    case_bool_decide as He; [rewrite decide_False by naive_solver; simpl; lia|].
    destruct (decide (fieldOf services id = s)) as [E|Hne].
    - rewrite decide_True, E by done. unfold countOf at 1. rewrite lookup_insert_eq. simpl. lia.
    - rewrite decide_False by naive_solver. unfold countOf at 1. rewrite lookup_insert_ne by done. simpl. unfold countOf. lia. }
  rewrite Hcount. f_equal. rewrite <- (length_fmap fst). apply Permutation_length, NoDup_Permutation; [|done|].
  { eapply submseteq_nodup; [apply fmap_submseteq, filter_sub|apply map_range_keys_nodup]. }
  intros id. rewrite Hids, list_elem_of_fmap, active_flags by done. split.
  - intros ([id' st] & -> & [(Hf & Ha & Hsv) Hin%elem_of_map_range]%list_elem_of_filter). simpl in *. assert (fieldOf states id' = st) as <- by (unfold fieldOf; by rewrite Hin).
    assert (Hact : active facts id') by (by apply active_flags). rewrite <- service_field by (done || apply Hact). done.
  - intros [[Hf Ha] Hsv]. exists (id, fieldOf states id). split; [done|]. apply list_elem_of_filter. assert (Hact : active facts id) by (by apply active_flags).
    split; [split_and!; [done..|]; unfold services; simpl; rewrite service_field by (done || apply Hact); done|]. apply elem_of_map_range.
    unfold fieldOf in *. fold states in Ha. by destruct (states !! id).
Qed.

(** What is left of a service is what was available less what is evicted. *)
Lemma remaining_count nodes counts counts' changes pairs s left :
  counts = countGlobalActiveInstancesByService (parseInstanceStates facts) (parseInstanceServices facts) (parseDrainEvictionMarkers facts) →
  drains nodes counts counts' changes pairs → s ≠ "" → NoDup left →
  (∀ id, id ∈ left ↔ active facts id ∧ serviceOf facts id = s ∧ id ∉ pairs.*2) → countOf counts' s = Z.of_nat (length left).
Proof using Hwf.
  intros -> Hd Hs Hnd Hleft. rewrite (drains_counts _ _ _ _ _ Hd).
  rewrite (globalCount_active s (left ++ filter (λ id, serviceOf facts id = s) pairs.*2)); [unfold evictedOf; rewrite length_app; lia|done| |].
  - apply NoDup_app. split_and!; [done| |].
    + intros id (_ & _ & Hno)%Hleft [_ Hin]%list_elem_of_filter. done.
    + apply NoDup_filter, NoDup_fmap_2_strong; [|apply (NoDup_fmap_1 _ _ (drains_rate _ _ _ _ _ Hd))].
      intros [n id] [n' id'] [_ [Hp _]]%(drains_candidates _ _ _ _ _ Hd) [_ [Hp' _]]%(drains_candidates _ _ _ _ _ Hd) E. simpl in E. congruence.
  - intros id. rewrite elem_of_app, Hleft, list_elem_of_filter. split; [|destruct (decide (id ∈ pairs.*2)); tauto].
    intros [?|[Hsv ([n id'] & -> & [_ [_ Hact]]%(drains_candidates _ _ _ _ _ Hd))%list_elem_of_fmap]]; tauto.
Qed.

End nodes.

(** ** Budgets *)

(** A number in the facts of a service; a missing one counts as 0. *)
Definition setting (facts : list Fact) (s field : string) : Z :=
  match values_of facts !! (ScanDesiredServices +:+ s +:+ "/" +:+ field) with Some v => fst (Atoi v) | None => 0 end.

Lemma collectInt_setting facts s field : facts_wf facts → ContainsByte s slash = false →
  countOf (collectIntValuesBySuffix facts ScanDesiredServices field) s = setting facts s field.
Proof.
  intros Hwf Hs. unfold countOf, collectIntValuesBySuffix, setting. rewrite collectBySuffix_lookup, Hs by done. by destruct (values_of facts !! _).
Qed.

Definition hasBudget (facts : list Fact) (s : string) : Prop :=
  is_Some (values_of facts !! (ScanDesiredServices +:+ s +:+ "/" +:+ "disruption/min_available")) ∨
  is_Some (values_of facts !! (ScanDesiredServices +:+ s +:+ "/" +:+ "disruption/max_unavailable")).

Lemma budgets_collected facts s :
  let mins := collectIntValuesBySuffix facts ScanDesiredServices "disruption/min_available" in
  let maxs := collectIntValuesBySuffix facts ScanDesiredServices "disruption/max_unavailable" in
  parseDisruptionBudgets facts !! s =
  match mins !! s, maxs !! s with None, None => None | _, _ => Some (mkBudget (countOf mins s) (countOf maxs s)) end.
Proof.
  unfold parseDisruptionBudgets, collectIntValuesBySuffix, collectBySuffix, countOf. simpl.
  induction (entityFields facts ScanDesiredServices) as [|[[e f] v] l IH] using rev_ind; [done|]. rewrite !foldl_app. simpl.
  destruct (decide (e = s)) as [->|Hne].
  - repeat case_bool_decide; repeat case_decide; subst; try done; rewrite ?lookup_insert_eq; rewrite ?IH; simpl; repeat case_match; by simplify_eq/=.
  - repeat case_bool_decide; repeat case_decide; subst; try done; rewrite ?lookup_insert_ne by done; exact IH.
Qed.

Lemma budgets_settings facts s : facts_wf facts → ContainsByte s slash = false →
  (parseDisruptionBudgets facts !! s = None ↔ ¬ hasBudget facts s) ∧
  (∀ b, parseDisruptionBudgets facts !! s = Some b → b = mkBudget (setting facts s "disruption/min_available") (setting facts s "disruption/max_unavailable")).
Proof.
  intros Hwf Hs. rewrite budgets_collected, !collectInt_setting by done. unfold collectIntValuesBySuffix. rewrite !collectBySuffix_lookup, Hs by done.
  unfold hasBudget. simpl. split.
  - destruct (values_of facts !! (_ +:+ s +:+ "/" +:+ "disruption/min_available")), (values_of facts !! (_ +:+ s +:+ "/" +:+ "disruption/max_unavailable")); simpl;
      (split; [|intros Hno; try done; exfalso; apply Hno; eauto]); try done. intros _ [[? [=]]|[? [=]]].
  - intros b Hb. repeat case_match; congruence.
Qed.

(** What a permitted eviction leaves. *)
Lemma permits_bounds facts s count : facts_wf facts → ContainsByte s slash = false → hasBudget facts s → permits facts s (count + 1) = true → 0 ≤ count →
  (0 < setting facts s "disruption/min_available" → setting facts s "disruption/min_available" ≤ count) ∧
  (setting facts s "disruption/min_available" ≤ 0 → 0 < setting facts s "disruption/max_unavailable" → 0 < setting facts s "instances" → count < int64_max →
   setting facts s "instances" - count ≤ setting facts s "disruption/max_unavailable").
Proof.
  intros Hwf Hs Hb Hp Hc. destruct (budgets_settings facts s Hwf Hs) as [Hnone Hsome]. unfold permits, canEvictUnderDisruptionBudget in Hp.
  destruct (parseDisruptionBudgets facts !! s) as [b|]; [|by destruct (proj1 Hnone)]. specialize (Hsome b eq_refl). subst b. simpl in Hp.
  assert (countOf {[s := count + 1]} s = count + 1) as E by (unfold countOf; by rewrite lookup_singleton_eq). rewrite E in Hp. clear E.
  unfold parseDesiredInstanceCounts in Hp. rewrite collectInt_setting in Hp by done.
  destruct (Z.ltb_spec 0 (setting facts s "disruption/min_available")); [apply Z.leb_le in Hp; lia|]. split; [lia|]. intros _ Hmax Hdes Hlim.
  rewrite (proj2 (Z.ltb_lt 0 _) Hmax), (proj2 (Z.eqb_neq _ 0)) in Hp by lia. apply Z.leb_le in Hp.
  assert (Hr : in_int64 (setting facts s "instances")).
  { unfold setting. destruct (values_of facts !! _); [apply Atoi_range|done]. }
  unfold in_int64, int64_min, int64_max in *. rewrite (wrap64_id (_ - _)) in Hp by (unfold in_int64, int64_min, int64_max; lia).
  rewrite wrap64_id in Hp by (unfold in_int64, int64_min, int64_max; lia). lia.
Qed.

(** ** The cycle *)

Section cycle.
Context `{GoMapRange}.


End cycle.

(** ** A concrete cycle *)

#[local] Existing Instance reference_range.

(** Two nodes drain; a service that keeps at least one instance has three, two of them
    on the first node. *)
Definition drainFacts : list Fact :=
  [endpointFact "desired/service/web/disruption/min_available" "1";
   endpointFact "observed/instance/a/service" "web"; endpointFact "observed/instance/a/state" "running";
   endpointFact "observed/instance/b/service" "web"; endpointFact "observed/instance/b/state" "running";
   endpointFact "observed/instance/c/service" "web"; endpointFact "observed/instance/c/state" "running";
   endpointFact "observed/node/n1/state" "draining"; endpointFact "observed/node/n2/state" "draining";
   endpointFact "placement/instance/a" "n1"; endpointFact "placement/instance/b" "n1"; endpointFact "placement/instance/c" "n2"].

(** A service loses an instance from each draining node in one cycle, more than one in all. *)
Lemma drain_evicts_per_node : DrainController_Reconcile drainFacts = [evictChange "n1" "a"; evictChange "n2" "c"].
Proof. vm_compute. reflexivity. Qed.

