(* ===== verification/RolloutController.v ===== *)
(** * The rollout controller (src/controllers/rollout.go)

    It replaces the instances of a service that run an old image a few at a time, and
    reverts the image when the new one keeps failing. A service's instances come in the
    order of a Go map. Log output is left out; numbers keep their 64-bit width. *)

From S2P Require Import Prelude GoStrings GoFmt Trie EventHistory MemoryStore StoreInvariant StoreProps StateStore PrefixSearch Keys KeyNames Heap NodeHeap.
From S2P Require Import SchedulerFacts Placement Runner RunnerProps ControllerHelpers InstanceController InstanceEffects IntentResolver EndpointController DrainController.

Local Open Scope Z_scope.

Definition RolloutController_Watch : list string :=
  [ScanDesiredServices; ScanObservedInstances; ScanDerivedInstances; ScanDerivedServices; ScanPlacements].

Record rolloutInstanceInfo := mkRolloutInstance { rolloutID : string; rolloutService : string; rolloutInstanceState : string; rolloutImage : string }.

Record extractedUpdatePolicy := mkUpdatePolicy { policyMaxUnavailable : Z; policyMaxExtra : Z }.

Record rolloutDisruptionBudget := mkRolloutBudget { budgetMinAvailable : Z; budgetMaxUnavailable : Z }.

(** ** Reading the facts *)

Definition extractDesiredImages (facts : list Fact) : gmap string string := collectStringValuesBySuffix facts ScanDesiredServices "image".

Definition extractDesiredInstanceCounts (facts : list Fact) : gmap string Z := collectIntValuesBySuffix facts ScanDesiredServices "instances".

(** A pair of numbers per service, from two fields; a number that does not parse is skipped. *)
Definition addNumberPair (field1 field2 : string) (m : gmap string (Z * Z)) (entry : string * string * string) : gmap string (Z * Z) :=
  let '(serviceName, suffix, value) := entry in
  let '(n1, n2) := default (0, 0) (m !! serviceName) in
  if bool_decide (suffix = field1) then
    match Atoi value with (n, None) => <[serviceName := (n, n2)]> m | (_, Some _) => m end
  else if bool_decide (suffix = field2) then
    match Atoi value with (n, None) => <[serviceName := (n1, n)]> m | (_, Some _) => m end
  else m.

Definition extractUpdatePolicies (facts : list Fact) : gmap string extractedUpdatePolicy :=
  (λ p, mkUpdatePolicy p.1 p.2) <$> foldl (addNumberPair "update/max_unavailable" "update/max_extra") ∅ (entityFields facts ScanDesiredServices).

Definition extractRolloutDisruptionBudgets (facts : list Fact) : gmap string rolloutDisruptionBudget :=
  (λ p, mkRolloutBudget p.1 p.2) <$>
  foldl (addNumberPair "disruption/min_available" "disruption/max_unavailable") ∅ (entityFields facts ScanDesiredServices).

Definition extractRolloutState (facts : list Fact) : gmap string string :=
  foldl (λ state '(serviceName, suffix, value),
    if negb (HasPrefix suffix "rollout/") then state
    else
      let rolloutField := TrimPrefix suffix "rollout/" in
      if bool_decide (rolloutField = "state") then <[serviceName := value]> state
      else if bool_decide (rolloutField = "previous_image") then <[serviceName +:+ "/previous_image" := value]> state
      else if bool_decide (rolloutField = "revision") then <[serviceName +:+ "/revision" := value]> state
      else state) ∅ (entityFields facts ScanDerivedServices).

Definition extractRolloutPausedServices (facts : list Fact) : gmap string bool :=
  foldl (λ paused '(serviceName, suffix, value),
    if negb (bool_decide (suffix = "rollout/paused")) then paused
    else if bool_decide (value = "true") then <[serviceName := true]> paused else paused) ∅ (entityFields facts ScanDesiredServices).

(** ** The decisions for one service *)

(** The instances on an old image, those on the new one, and the failed among these. *)
Definition classifyInstancesByImage (instances : list rolloutInstanceInfo) (desiredImage : string)
    : list rolloutInstanceInfo * list rolloutInstanceInfo * Z :=
  foldl (λ '(oldImageInstances, newImageInstances, newImageFailedCount) instanceInfo,
    if bool_decide (rolloutInstanceState instanceInfo = InstanceStopped) then (oldImageInstances, newImageInstances, newImageFailedCount)
    else if bool_decide (rolloutImage instanceInfo = "") || bool_decide (rolloutImage instanceInfo = desiredImage) then
      (oldImageInstances, newImageInstances ++ [instanceInfo],
       if bool_decide (rolloutInstanceState instanceInfo = InstanceFailed) then newImageFailedCount + 1 else newImageFailedCount)
    else (oldImageInstances ++ [instanceInfo], newImageInstances, newImageFailedCount)) ([], [], 0) instances.

(** The image recorded is that of the first old instance. *)
Definition buildRolloutTrackingChanges (serviceName oldImage previousImage : string) (policy : extractedUpdatePolicy) (currentRevision : Z) : list Change :=
  if negb (bool_decide (previousImage = "")) then []
  else
    let nextRevision := (currentRevision +! 1)%go in
    groupedChanges ("rollout-track/" +:+ serviceName)
      [mkChange OpPut (KeyDerivedServiceRolloutImage serviceName) oldImage "";
       mkChange OpPut (KeyDerivedServiceRolloutState serviceName) "rolling" "";
       mkChange OpPut (KeyDerivedServiceRolloutRevision serviceName) (Itoa nextRevision) "";
       mkChange OpPut (KeyDerivedServiceRolloutHistory serviceName nextRevision) oldImage ""] ++
    (if 0 <? policyMaxExtra policy
     then [mkChange OpPut (KeyDerivedServiceRolloutSurgeAllowance serviceName) (Itoa (policyMaxExtra policy)) ""] else []).

Definition rollbackThreshold : Z := 3.

Definition shouldTriggerRollback (newImageFailedCount : Z) (previousImage : string) : bool :=
  (rollbackThreshold <=? newImageFailedCount) && negb (bool_decide (previousImage = "")).

Definition buildRollbackChanges (serviceName previousImage : string) : list Change :=
  groupedChanges ("rollout-rollback/" +:+ serviceName)
    [mkChange OpPut (KeyDesiredServiceImage serviceName) previousImage "";
     mkChange OpPut (KeyDerivedServiceRolloutState serviceName) "rollback" "";
     mkChange OpDelete (KeyDerivedServiceRolloutSurgeAllowance serviceName) "" ""].

Definition stopOldChange (instanceID : string) : Change := mkChange OpPut (KeyObservedInstanceState instanceID) InstanceStopped "".

(** The loop stops the first active instances, up to [canStop] of them. *)
Definition stopOldInstances (oldImageInstances : list rolloutInstanceInfo) (canStop : Z) : list Change * Z :=
  foldl (λ '(changes, stopped) instanceInfo,
    if canStop <=? stopped then (changes, stopped)
    else if isActiveInstanceState (rolloutInstanceState instanceInfo) then (changes ++ [stopOldChange (rolloutID instanceInfo)], stopped + 1)
    else (changes, stopped)) ([], 0) oldImageInstances.

Definition countState (state : string) (instances : list rolloutInstanceInfo) : Z :=
  foldl (λ count instanceInfo, if bool_decide (rolloutInstanceState instanceInfo = state) then count + 1 else count) 0 instances.

Definition buildOldInstanceStopChanges (oldImageInstances newImageInstances : list rolloutInstanceInfo) (policy : extractedUpdatePolicy) : list Change :=
  let maxUnavailable := if policyMaxUnavailable policy =? 0 then 1 else policyMaxUnavailable policy in
  let healthyNewCount := countState InstanceRunning newImageInstances in
  let currentUnavailable := countState InstanceFailed oldImageInstances in
  let canStop := (maxUnavailable -! currentUnavailable)%go in
  if canStop <=? 0 then []
  else if (healthyNewCount =? 0) && (0 <? Z.of_nat (length newImageInstances)) then []
  else fst (stopOldInstances oldImageInstances canStop).

Definition applyDisruptionBudgetToUpdatePolicy (originalPolicy : extractedUpdatePolicy) (budget : rolloutDisruptionBudget) (desiredInstanceCount : Z)
    : extractedUpdatePolicy :=
  let maxUnavailable := policyMaxUnavailable originalPolicy in
  let maxUnavailable := if (0 <? budgetMaxUnavailable budget) && (budgetMaxUnavailable budget <? maxUnavailable) then budgetMaxUnavailable budget else maxUnavailable in
  let maxUnavailable :=
    if (0 <? budgetMinAvailable budget) && (0 <? desiredInstanceCount) then
      let budgetMax := (desiredInstanceCount -! budgetMinAvailable budget)%go in
      let budgetMax := if budgetMax <? 1 then 1 else budgetMax in
      if (maxUnavailable =? 0) || (budgetMax <? maxUnavailable) then budgetMax else maxUnavailable
    else maxUnavailable in
  mkUpdatePolicy maxUnavailable (policyMaxExtra originalPolicy).

(** ** The cycle *)

Section reconcile.
Context `{GoMapRange}.

Definition instanceInfo (instanceID : string) (fields : gmap string string) : rolloutInstanceInfo :=
  mkRolloutInstance instanceID (fieldOf fields "service") (effectiveInstanceState fields) (fieldOf fields "image").

Definition extractInstancesByService (facts : list Fact) : gmap string (list rolloutInstanceInfo) :=
  foldl (λ result '(instanceID, fields),
    let serviceName := fieldOf fields "service" in
    if bool_decide (serviceName = "") then result
    else <[serviceName := default [] (result !! serviceName) ++ [instanceInfo instanceID fields]]> result) ∅
    (map_range (parseInstanceFieldsFromFacts facts)).

(** The body of the loop over the services with an image. *)
Definition rolloutService_changes (facts : list Fact) (serviceName desiredImage : string) : list Change :=
  let rolloutState := extractRolloutState facts in
  let policy := default (mkUpdatePolicy 0 0) (extractUpdatePolicies facts !! serviceName) in
  let instances := default [] (extractInstancesByService facts !! serviceName) in
  let '(oldImageInstances, newImageInstances, newImageFailedCount) := classifyInstancesByImage instances desiredImage in
  match instances, oldImageInstances with
  | [], _ => []
  | _, [] =>
      if bool_decide (fieldOf rolloutState serviceName = "rolling")
      then [mkChange OpPut (KeyDerivedServiceRolloutState serviceName) "complete" "";
            mkChange OpDelete (KeyDerivedServiceRolloutSurgeAllowance serviceName) "" ""]
      else []
  | _, first :: _ =>
      let previousImage := fieldOf rolloutState (serviceName +:+ "/previous_image") in
      let currentRevision := fst (Atoi (fieldOf rolloutState (serviceName +:+ "/revision"))) in
      buildRolloutTrackingChanges serviceName (rolloutImage first) previousImage policy currentRevision ++
      (if shouldTriggerRollback newImageFailedCount previousImage then buildRollbackChanges serviceName previousImage
       else if flagOf (extractRolloutPausedServices facts) serviceName then []
       else
         buildOldInstanceStopChanges oldImageInstances newImageInstances
           (applyDisruptionBudgetToUpdatePolicy policy
              (default (mkRolloutBudget 0 0) (extractRolloutDisruptionBudgets facts !! serviceName))
              (countOf (extractDesiredInstanceCounts facts) serviceName)))
  end.

Definition RolloutController_Reconcile (facts : list Fact) : list Change :=
  map_range (extractDesiredImages facts) ≫= (λ '(serviceName, desiredImage), rolloutService_changes facts serviceName desiredImage).

End reconcile.

(** ** What the facts say of a service *)

Definition serviceFact (facts : list Fact) (s field : string) : option string := values_of facts !! (ScanDesiredServices +:+ s +:+ "/" +:+ field).

(** A number of a service; one that is missing or does not parse counts as 0. *)
Definition number (facts : list Fact) (s field : string) : Z :=
  match serviceFact facts s field with
  | Some v => match Atoi v with (n, None) => n | (_, Some _) => 0 end
  | None => 0
  end.

(** The last number of a field in a list of entries. *)
Definition lastNumber (l : list (string * string * string)) (s field : string) : Z :=
  foldl (λ n '(e, f, v), if decide (e = s ∧ f = field) then match Atoi v with (k, None) => k | (_, Some _) => n end else n) 0 l.

Lemma lastNumber_unique l s field : NoDup (l.*1) →
  lastNumber l s field = 0 ∧ (∀ v, (s, field, v) ∉ l) ∨ ∃ v, (s, field, v) ∈ l ∧ lastNumber l s field = match Atoi v with (k, None) => k | (_, Some _) => 0 end.
Proof.
  induction l as [|[[e f] v] l IH] using rev_ind; intros Hnd; [left; set_solver|]. unfold lastNumber. rewrite fmap_app in Hnd. apply NoDup_app in Hnd as (Hnd & Hout & _).
  specialize (IH Hnd). rewrite foldl_app. fold (lastNumber l s field). simpl. setoid_rewrite elem_of_app. setoid_rewrite list_elem_of_singleton. case_decide as Hk.
  - destruct Hk as [-> ->]. right. exists v. split; [by right|]. assert (lastNumber l s field = 0) as ->; [|done]. destruct IH as [[-> _]|(w & Hin & _)]; [done|].
    destruct (Hout (s, field)); [by apply (list_elem_of_fmap_2 fst) in Hin|simpl; left].
  - destruct IH as [[-> Hno]|(w & Hin & ->)]; [left; split; [done|intros w [?|?]; naive_solver]|right; exists w; by split; [left|]].
Qed.

Lemma lastNumber_number facts s field : facts_wf facts → ContainsByte s slash = false → lastNumber (entityFields facts ScanDesiredServices) s field = number facts s field.
Proof.
  intros Hwf Hs. unfold number, serviceFact.
  assert (Hmem : ∀ v, (s, field, v) ∈ entityFields facts ScanDesiredServices ↔ values_of facts !! (ScanDesiredServices +:+ s +:+ "/" +:+ field) = Some v).
  { intros v. rewrite elem_of_entityFields by done. naive_solver. }
  destruct (lastNumber_unique (entityFields facts ScanDesiredServices) s field) as [[-> Hno]|(v & Hin & ->)]; [by apply entityFields_unique|..].
  - setoid_rewrite Hmem in Hno. destruct (values_of facts !! _) eqn:E; [|done]. by destruct (Hno s0).
  - apply Hmem in Hin. by rewrite Hin.
Qed.

Lemma numberPair_last field1 field2 l s : field1 ≠ field2 →
  default (0, 0) (foldl (addNumberPair field1 field2) ∅ l !! s) = (lastNumber l s field1, lastNumber l s field2).
Proof.
  intros Hf. induction l as [|[[e f] v] l IH] using rev_ind; [done|]. rewrite foldl_app. unfold lastNumber in *. rewrite !foldl_app. simpl.
  destruct (default (0, 0) (foldl (addNumberPair field1 field2) ∅ l !! e)) as [n1 n2] eqn:E.
  destruct (decide (e = s)) as [->|Hne].
  - rewrite IH in E. injection E as <- <-.
    repeat case_bool_decide; repeat case_decide; subst; try (exfalso; tauto); try (by rewrite IH);
      destruct (Atoi v) as [k [|]]; simpl; rewrite ?lookup_insert_eq, ?IH; done.
  - rewrite !decide_False by naive_solver. rewrite <- IH. repeat case_bool_decide; subst; try done; destruct (Atoi v) as [k [|]]; rewrite ?lookup_insert_ne by done; done.
Qed.

Lemma updatePolicy_numbers facts s : facts_wf facts → ContainsByte s slash = false →
  default (mkUpdatePolicy 0 0) (extractUpdatePolicies facts !! s) = mkUpdatePolicy (number facts s "update/max_unavailable") (number facts s "update/max_extra").
Proof.
  intros Hwf Hs. rewrite <- !lastNumber_number by done. unfold extractUpdatePolicies. rewrite lookup_fmap.
  pose proof (numberPair_last "update/max_unavailable" "update/max_extra" (entityFields facts ScanDesiredServices) s ltac:(done)) as E.
  destruct (_ !! s); simpl in *; by rewrite E || (injection E as <- <-).
Qed.

Lemma rolloutBudget_numbers facts s : facts_wf facts → ContainsByte s slash = false →
  default (mkRolloutBudget 0 0) (extractRolloutDisruptionBudgets facts !! s) =
  mkRolloutBudget (number facts s "disruption/min_available") (number facts s "disruption/max_unavailable").
Proof.
  intros Hwf Hs. rewrite <- !lastNumber_number by done. unfold extractRolloutDisruptionBudgets. rewrite lookup_fmap.
  pose proof (numberPair_last "disruption/min_available" "disruption/max_unavailable" (entityFields facts ScanDesiredServices) s ltac:(done)) as E.
  destruct (_ !! s); simpl in *; by rewrite E || (injection E as <- <-).
Qed.

Definition pausedService (facts : list Fact) (s : string) : Prop := serviceFact facts s "rollout/paused" = Some "true".

Lemma paused_flag facts s : facts_wf facts → ContainsByte s slash = false → flagOf (extractRolloutPausedServices facts) s = true ↔ pausedService facts s.
Proof.
  intros Hwf Hs. unfold pausedService, serviceFact. assert (Hmem : values_of facts !! (ScanDesiredServices +:+ s +:+ "/" +:+ "rollout/paused") = Some "true" ↔
    (s, "rollout/paused", "true") ∈ entityFields facts ScanDesiredServices) by (rewrite elem_of_entityFields by done; tauto).
  rewrite Hmem. clear Hmem. unfold extractRolloutPausedServices, flagOf. induction (entityFields facts ScanDesiredServices) as [|[[e f] v] l IH] using rev_ind; [set_solver|].
  rewrite foldl_app, elem_of_app, list_elem_of_singleton, <- IH. simpl. clear IH. repeat case_bool_decide; simpl; [|naive_solver..].
  destruct (decide (e = s)) as [->|Hne]; [rewrite lookup_insert_eq|rewrite lookup_insert_ne by done]; naive_solver.
Qed.

(** A field of the rollout's state. *)
Definition rolloutFact (facts : list Fact) (s field : string) : string := default "" (values_of facts !! (ScanDerivedServices +:+ s +:+ "/rollout/" +:+ field)).

(** The key of the state map for a field. *)
Definition stateKey (s field : string) : string := if bool_decide (field = "state") then s else s +:+ "/" +:+ field.

Definition stateFields : list string := ["state"; "previous_image"; "revision"].

Lemma stateKey_inj s field s' field' : ContainsByte s slash = false → ContainsByte s' slash = false → field ∈ stateFields → field' ∈ stateFields →
  stateKey s field = stateKey s' field' → s = s' ∧ field = field'.
Proof.
  intros Hs Hs' Hf Hf'. unfold stateKey, stateFields in *.
  assert (Hno : ∀ a b c, ContainsByte a slash = false → a ≠ b +:+ "/" +:+ c).
  { intros a b c Ha ->. pose proof (proj2 (Cut_slash (b +:+ "/" +:+ c) b c)) as Hcut. rewrite ContainsByte_app in Ha. simpl in Ha. by rewrite orb_true_r in Ha. }
  repeat case_bool_decide; subst.
  - done.
  - intros E. by destruct (Hno _ _ _ Hs E).
  - intros E. symmetry in E. by destruct (Hno _ _ _ Hs' E).
  - intros E. pose proof (proj2 (Cut_slash _ s field) (conj eq_refl Hs)) as C1. pose proof (proj2 (Cut_slash _ s' field') (conj eq_refl Hs')) as C2.
    rewrite E, C2 in C1. by injection C1 as -> ->.
Qed.

Lemma rolloutState_lookup l s field v : (∀ e f w, (e, f, w) ∈ l → ContainsByte e slash = false) → NoDup (l.*1) →
  ContainsByte s slash = false → field ∈ stateFields →
  foldl (λ state '(serviceName, suffix, value),
    if negb (HasPrefix suffix "rollout/") then state
    else
      let rolloutField := TrimPrefix suffix "rollout/" in
      if bool_decide (rolloutField = "state") then <[serviceName := value]> state
      else if bool_decide (rolloutField = "previous_image") then <[serviceName +:+ "/previous_image" := value]> state
      else if bool_decide (rolloutField = "revision") then <[serviceName +:+ "/revision" := value]> state
      else state) (∅ : gmap string string) l !! stateKey s field = Some v ↔ (s, "rollout/" +:+ field, v) ∈ l.
Proof.
  intros Hseg Hnd Hs Hfield. induction l as [|[[e x] w] l IH] using rev_ind; [set_solver|]. rewrite foldl_app. rewrite fmap_app in Hnd. apply NoDup_app in Hnd as (Hnd & Hout & _).
  assert (IH' := IH (λ e f w Hin, Hseg e f w (proj2 (elem_of_app l _ _) (or_introl Hin))) Hnd). clear IH.
  assert (He : ContainsByte e slash = false) by (apply (Hseg e x w), elem_of_app; right; left). rewrite elem_of_app, list_elem_of_singleton, <- IH'. simpl.
  set (m := foldl _ _ l) in *. assert (Hstep : ∀ f, x = "rollout/" +:+ f → f ∈ stateFields → <[stateKey e f := w]> m !! stateKey s field = Some v ↔
    m !! stateKey s field = Some v ∨ (s, "rollout/" +:+ field, v) = (e, x, w)).
  { intros f -> Hf. destruct (decide (s = e ∧ field = f)) as [[-> ->]|Hne].
    - rewrite lookup_insert_eq. split; [intros [= ->]; by right|]. intros [Hm%IH'|[_ ->]%pair_equal_spec]; [|done]. destruct (Hout (e, "rollout/" +:+ f)); [|simpl; left].
      by apply (list_elem_of_fmap_2 fst) in Hm.
    - rewrite lookup_insert_ne by (intros E; apply stateKey_inj in E as [-> ->]; tauto). split; [by left|]. intros [?|E]; [done|]. exfalso. apply Hne.
      apply pair_equal_spec in E as [[-> Ef]%pair_equal_spec _]. by apply (inj (String.append "rollout/")) in Ef. }
  destruct (HasPrefix x "rollout/") eqn:Ep; simpl.
  - apply HasPrefix_spec in Ep as [f ->]. rewrite TrimPrefix_app. repeat case_bool_decide; subst.
    + by apply (Hstep "state"); [|left].
    + by apply (Hstep "previous_image"); [|right; left].
    + by apply (Hstep "revision"); [|right; right; left].
    + split; [by left|]. intros [?|E]; [done|]. exfalso. apply pair_equal_spec in E as [[_ Ef]%pair_equal_spec _]. apply (inj (String.append "rollout/")) in Ef as <-. unfold stateFields in Hfield.
      repeat (apply elem_of_cons in Hfield as [->|Hfield]; [done|]). by apply elem_of_nil in Hfield.
  - split; [by left|]. intros [?|[[_ <-]%pair_equal_spec _]%pair_equal_spec]; [done|]. by rewrite HasPrefix_app in Ep.
Qed.

Lemma rolloutState_field facts s field : facts_wf facts → ContainsByte s slash = false → field ∈ stateFields →
  fieldOf (extractRolloutState facts) (stateKey s field) = rolloutFact facts s field.
Proof.
  intros Hwf Hs Hf. unfold fieldOf, rolloutFact. f_equal. apply option_eq. intros v. unfold extractRolloutState. rewrite rolloutState_lookup; [|..|done|done].
  - rewrite elem_of_entityFields by done. tauto.
  - intros e f w Hin. by apply elem_of_entityFields in Hin as [? _].
  - by apply entityFields_unique.
Qed.

(** ** Instances *)

Definition infoOf (facts : list Fact) (id : string) : rolloutInstanceInfo :=
  mkRolloutInstance id (fieldText facts id "service") (stateIn facts id) (fieldText facts id "image").

Definition isOldImage (image : string) (i : rolloutInstanceInfo) : Prop :=
  rolloutInstanceState i ≠ InstanceStopped ∧ rolloutImage i ≠ "" ∧ rolloutImage i ≠ image.

Definition isNewImage (image : string) (i : rolloutInstanceInfo) : Prop :=
  rolloutInstanceState i ≠ InstanceStopped ∧ (rolloutImage i = "" ∨ rolloutImage i = image).

#[local] Instance isOldImage_dec image i : Decision (isOldImage image i).
Proof. unfold isOldImage. apply _. Defined.

#[local] Instance isNewImage_dec image i : Decision (isNewImage image i).
Proof. unfold isNewImage. apply _. Defined.

Lemma classify_filter instances image :
  classifyInstancesByImage instances image =
  (filter (isOldImage image) instances, filter (isNewImage image) instances,
   Z.of_nat (length (filter (λ i, rolloutInstanceState i = InstanceFailed) (filter (isNewImage image) instances)))).
Proof.
  unfold classifyInstancesByImage. induction instances as [|i l IH] using rev_ind; [done|]. rewrite foldl_app, IH, !filter_app. simpl.
  rewrite !filter_cons, !filter_nil. case_bool_decide as Hst.
  { rewrite !decide_False by (unfold isOldImage, isNewImage; tauto). by rewrite !app_nil_r. }
  destruct (decide (isNewImage image i)) as [Hn|Hn].
  - assert (bool_decide (rolloutImage i = "") || bool_decide (rolloutImage i = image) = true) as -> by (rewrite orb_true_iff, !bool_decide_eq_true; apply Hn).
    rewrite decide_False by (unfold isOldImage, isNewImage in *; tauto). rewrite app_nil_r, length_app, filter_cons, filter_nil. repeat f_equal.
    case_bool_decide as Hf; [rewrite decide_True by done|rewrite decide_False by done]; simpl; lia.
  - assert (bool_decide (rolloutImage i = "") || bool_decide (rolloutImage i = image) = false) as -> by
      (apply orb_false_iff; rewrite !bool_decide_eq_false; unfold isNewImage in Hn; tauto).
    rewrite decide_True by (unfold isOldImage, isNewImage in *; tauto). by rewrite filter_nil, !app_nil_r.
Qed.

Lemma countState_filter state l : countState state l = Z.of_nat (length (filter (λ i, rolloutInstanceState i = state) l)).
Proof.
  unfold countState. induction l as [|i l IH] using rev_ind; [done|]. rewrite foldl_app, filter_app, length_app, filter_cons, filter_nil, IH. simpl.
  case_bool_decide; [rewrite decide_True by done|rewrite decide_False by done]; simpl; lia.
Qed.

Lemma stopOld_take l canStop : 0 ≤ canStop →
  stopOldInstances l canStop =
  (stopOldChange ∘ rolloutID <$> take (Z.to_nat canStop) (filter (λ i, isActiveInstanceState (rolloutInstanceState i) = true) l),
   Z.min canStop (Z.of_nat (length (filter (λ i, isActiveInstanceState (rolloutInstanceState i) = true) l)))).
Proof.
  intros Hc. unfold stopOldInstances. induction l as [|i l IH] using rev_ind; [rewrite filter_nil, take_nil; simpl; f_equal; lia|].
  rewrite foldl_app, IH, filter_app, filter_cons, filter_nil, length_app. simpl. set (act := filter _ l). destruct (Z.leb_spec canStop (Z.min canStop (Z.of_nat (length act)))).
  - rewrite take_app_le by lia. f_equal. destruct (decide _); simpl; lia.
  - destruct (isActiveInstanceState (rolloutInstanceState i)); simpl.
    + rewrite (take_ge act), (take_ge (act ++ [i])), fmap_app by (rewrite ?length_app; simpl; lia). f_equal. lia.
    + rewrite app_nil_r. f_equal. lia.
Qed.

Lemma pairs_snoc {A B} (P : A → B → Prop) (l : list (A * B)) x y :
  (∃ a b, (a, b) ∈ l ++ [(x, y)] ∧ P a b) ↔ (∃ a b, (a, b) ∈ l ∧ P a b) ∨ P x y.
Proof.
  split.
  - intros (a & b & [Hin|[= -> ->]%list_elem_of_singleton]%elem_of_app & Hp); [left; by exists a, b|by right].
  - intros [(a & b & Hin & Hp)|Hp]; [exists a, b|exists x, y]; rewrite elem_of_app, list_elem_of_singleton; tauto.
Qed.

Section instances.
Context `{GoMapRange} (facts : list Fact) (Hwf : facts_wf facts).

(** The instances of a service, by their fields. *)
Lemma instancesByService_elem s i : i ∈ default [] (extractInstancesByService facts !! s) ↔
  ∃ id, i = infoOf facts id ∧ s ≠ "" ∧ ContainsByte id slash = false ∧ fieldText facts id "service" = s.
Proof using Hwf.
  assert (Hinfo : ∀ id fields, parseInstanceFieldsFromFacts facts !! id = Some fields → instanceInfo id fields = infoOf facts id ∧ ContainsByte id slash = false).
  { intros id fields E. assert (Hid : ContainsByte id slash = false) by (apply (instanceFields_segment facts Hwf); by eexists). split; [|done].
    unfold instanceInfo, infoOf, effectiveInstanceState, stateIn. rewrite <- !(fields_text facts Hwf id) by done. by rewrite E. }
  trans (∃ id fields, (id, fields) ∈ map_range (parseInstanceFieldsFromFacts facts) ∧ i = instanceInfo id fields ∧ s ≠ "" ∧ fieldOf fields "service" = s).
  - unfold extractInstancesByService. induction (map_range (parseInstanceFieldsFromFacts facts)) as [|[id fields] l IH] using rev_ind; [set_solver|].
    rewrite foldl_app, pairs_snoc. simpl. case_bool_decide as He.
    { rewrite IH. rewrite He. split; [by left|]. intros [?|(_ & Hs & E)]; [done|]. by destruct Hs. }
    destruct (decide (fieldOf fields "service" = s)) as [<-|Hne]; [rewrite lookup_insert_eq|rewrite lookup_insert_ne by done].
    + simpl. rewrite elem_of_app, list_elem_of_singleton, IH. tauto.
    + rewrite IH. tauto.
  - setoid_rewrite elem_of_map_range. split.
    + intros (id & fields & E & -> & Hs & Hsv). exists id. destruct (Hinfo id fields E) as [-> Hid]. split_and!; [done..|].
      rewrite <- (fields_text facts Hwf id) by done. by rewrite E.
    + intros (id & -> & Hs & Hid & Hsv). rewrite <- (fields_text facts Hwf id) in Hsv by done.
      destruct (parseInstanceFieldsFromFacts facts !! id) as [fields|] eqn:E; [|by destruct Hs]. exists id, fields. destruct (Hinfo id fields E) as [-> _]. done.
Qed.

Lemma instancesByService_nodup s : NoDup (rolloutID <$> default [] (extractInstancesByService facts !! s)).
Proof.
  unfold extractInstancesByService. pose proof (map_range_keys_nodup (parseInstanceFieldsFromFacts facts)) as Hnd.
  assert (Hsub : ∀ l, rolloutID <$> default [] (foldl (λ result '(instanceID, fields), let serviceName := fieldOf fields "service" in
    if bool_decide (serviceName = "") then result
    else <[serviceName := default [] (result !! serviceName) ++ [instanceInfo instanceID fields]]> result) (∅ : gmap string (list rolloutInstanceInfo)) l !! s) ⊆+ l.*1).
  { induction l as [|[id fields] l IH] using rev_ind; [done|]. rewrite foldl_app, fmap_app. simpl. case_bool_decide; [by apply submseteq_inserts_r|].
    destruct (decide (fieldOf fields "service" = s)) as [<-|Hne]; [rewrite lookup_insert_eq|rewrite lookup_insert_ne by done; by apply submseteq_inserts_r].
    simpl. rewrite fmap_app. simpl. by apply submseteq_app. }
  eapply submseteq_nodup; [apply Hsub|done].
Qed.

End instances.

(** ** What a cycle may do to a service *)

Section service.
Context (facts : list Fact) (s image : string).

Definition serviceInstance (id : string) : Prop := s ≠ "" ∧ ContainsByte id slash = false ∧ fieldText facts id "service" = s.

(** An instance of the service that is not stopped, on an old image or on the new one. *)
Definition oldOn (id : string) : Prop := serviceInstance id ∧ isOldImage image (infoOf facts id).
Definition newOn (id : string) : Prop := serviceInstance id ∧ isNewImage image (infoOf facts id).

(** Three instances of the new image failed while the old image is known and still runs. *)
Definition rollsBack : Prop :=
  (∃ id, oldOn id) ∧ rolloutFact facts s "previous_image" ≠ "" ∧
  ∃ failed, NoDup failed ∧ (3 ≤ length failed)%nat ∧ ∀ id, id ∈ failed → newOn id ∧ stateIn facts id = InstanceFailed.

(** The new image works, or nobody runs it yet. *)
Definition mayReplace : Prop := (∃ id, newOn id ∧ stateIn facts id = InstanceRunning) ∨ ∀ id, ¬ newOn id.

(** The instances stopped are active ones on an old image. They are stopped neither while
    the rollout is paused, nor while it rolls back, nor while no new instance works; and
    with the failed ones on an old image they are at most as many as the update's limit
    and the budget allow. If all is well with the service, one is stopped. *)
Record paced (stops : list string) : Prop := {
  paced_nodup : NoDup stops;
  paced_old : ∀ id, id ∈ stops → oldOn id ∧ isActiveInstanceState (stateIn facts id) = true;
  paced_allowed : stops ≠ [] → ¬ pausedService facts s ∧ ¬ rollsBack ∧ mayReplace;
  paced_bound : stops ≠ [] → ∀ failed, NoDup failed → (∀ id, id ∈ failed → oldOn id ∧ stateIn facts id = InstanceFailed) →
    let unavailable := Z.of_nat (length stops) + Z.of_nat (length failed) in
    let limit := number facts s "update/max_unavailable" in
    let budgetMin := number facts s "disruption/min_available" in
    let budgetMax := number facts s "disruption/max_unavailable" in
    let desired := setting facts s "instances" in
    0 ≤ limit →
    (0 < limit → unavailable ≤ limit) ∧ (0 < budgetMax → budgetMin ≤ 0 → unavailable ≤ budgetMax) ∧
    (0 < budgetMin → 0 < desired → unavailable ≤ Z.max 1 (desired - budgetMin)) ∧ (limit = 0 → budgetMin ≤ 0 → unavailable ≤ 1);
  paced_progress : 0 ≤ number facts s "update/max_unavailable" → (∃ id, oldOn id ∧ isActiveInstanceState (stateIn facts id) = true) →
    (∀ id, oldOn id → stateIn facts id ≠ InstanceFailed) → ¬ pausedService facts s → ¬ rollsBack → mayReplace → stops ≠ [] }.

End service.

(** The number of old instances that may be missing. *)
Definition stopLimit (policy : extractedUpdatePolicy) : Z := if policyMaxUnavailable policy =? 0 then 1 else policyMaxUnavailable policy.

Lemma stopLimit_bounds limit extra budgetMin budgetMax desired : 0 ≤ limit → in_int64 limit → in_int64 desired → in_int64 budgetMin → in_int64 budgetMax →
  let n := stopLimit (applyDisruptionBudgetToUpdatePolicy (mkUpdatePolicy limit extra) (mkRolloutBudget budgetMin budgetMax) desired) in
  1 ≤ n ∧ in_int64 n ∧ (0 < limit → n ≤ limit) ∧ (0 < budgetMax → budgetMin ≤ 0 → n ≤ budgetMax) ∧
  (0 < budgetMin → 0 < desired → n ≤ Z.max 1 (desired - budgetMin)) ∧ (limit = 0 → budgetMin ≤ 0 → n ≤ 1).
Proof.
  intros Hl Hlr Hdr Hmr Hbr. unfold stopLimit, applyDisruptionBudgetToUpdatePolicy. cbn [policyMaxUnavailable policyMaxExtra budgetMinAvailable budgetMaxUnavailable].
  destruct (Z.ltb_spec 0 budgetMin), (Z.ltb_spec 0 desired); cbn [andb].
  1: rewrite (wrap64_id (desired - budgetMin)) by (unfold in_int64, int64_min, int64_max in *; lia).
  all: unfold in_int64, int64_min, int64_max in *; repeat (case_match; boolprop); lia.
Qed.

Lemma number_range facts s field : in_int64 (number facts s field).
Proof.
  unfold number. destruct (serviceFact facts s field) as [v|]; [|done]. pose proof (Atoi_range v) as Hr. by destruct (Atoi v) as [n [|]].
Qed.

Lemma setting_range facts s field : in_int64 (setting facts s field).
Proof. unfold setting. destruct (values_of facts !! _); [apply Atoi_range|done]. Qed.

(** No change but a stop writes the state of an instance. *)
Lemma tracking_derived s old previous policy revision c : c ∈ buildRolloutTrackingChanges s old previous policy revision → HasPrefix (ChangeKey c) PrefixDerived = true.
Proof.
  unfold buildRolloutTrackingChanges, groupedChanges. case_bool_decide; simpl; [|by intros ?%elem_of_nil].
  intros Hin. repeat (apply elem_of_cons in Hin as [->|Hin]; [apply HasPrefix_app|]). destruct (0 <? policyMaxExtra policy); [|by apply elem_of_nil in Hin].
  apply list_elem_of_singleton in Hin as ->. apply HasPrefix_app.
Qed.

Lemma rollback_no_stop s previous id : stopOldChange id ∉ buildRollbackChanges s previous.
Proof. unfold buildRollbackChanges, groupedChanges. simpl. intros Hin. repeat (apply elem_of_cons in Hin as [E|Hin]; [by injection E|]). by apply elem_of_nil in Hin. Qed.

Lemma stopOldChange_inj id id' : stopOldChange id = stopOldChange id' → id = id'.
Proof.
  intros E%(f_equal ChangeKey). unfold stopOldChange, KeyObservedInstanceState in E. cbn [ChangeKey] in E. repeat apply (inj (String.append _)) in E.
  apply (f_equal (dropEnd (String.length "/state"))) in E. by rewrite !dropEnd_app in E.
Qed.

Section cycle.
Context `{GoMapRange} (facts : list Fact) (Hwf : facts_wf facts).

Section one.
Context (s image : string) (Hs : ContainsByte s slash = false).
Let instances := default [] (extractInstancesByService facts !! s).
Let old := filter (isOldImage image) instances.
Let new := filter (isNewImage image) instances.

Lemma old_elem i : i ∈ old ↔ ∃ id, i = infoOf facts id ∧ oldOn facts s image id.
Proof using Hwf.
  unfold old, instances. rewrite list_elem_of_filter, instancesByService_elem by done. unfold oldOn, serviceInstance. split.
  - intros (Hi & id & -> & ?). exists id. tauto.
  - intros (id & -> & ?). split; [tauto|]. exists id. tauto.
Qed.

Lemma new_elem i : i ∈ new ↔ ∃ id, i = infoOf facts id ∧ newOn facts s image id.
Proof using Hwf.
  unfold new, instances. rewrite list_elem_of_filter, instancesByService_elem by done. unfold newOn, serviceInstance. split.
  - intros (Hi & id & -> & ?). exists id. tauto.
  - intros (id & -> & ?). split; [tauto|]. exists id. tauto.
Qed.

Lemma filtered_nodup (P : rolloutInstanceInfo → Prop) `{∀ i, Decision (P i)} l : NoDup (rolloutID <$> l) → NoDup (rolloutID <$> filter P l).
Proof. intros Hnd. eapply submseteq_nodup; [apply fmap_submseteq, filter_sub|done]. Qed.

(** Distinct instances in a state are at most as many as are counted. *)
Lemma enumerated_count (P : string → Prop) state l ids : (∀ i, i ∈ l ↔ ∃ id, i = infoOf facts id ∧ P id) → NoDup ids →
  (∀ id, id ∈ ids → P id ∧ stateIn facts id = state) → (length ids ≤ length (filter (λ i, rolloutInstanceState i = state) l))%nat.
Proof.
  intros Hl Hnd Hids. rewrite <- (length_fmap (infoOf facts)). apply submseteq_length, NoDup_submseteq.
  - apply NoDup_fmap_2; [|done]. intros id id' E. by injection E.
  - intros i (id & -> & [Hp Hst]%Hids)%list_elem_of_fmap. apply list_elem_of_filter. split; [done|]. apply Hl. by exists id.
Qed.

Lemma counted_enumeration (P : string → Prop) state l : (∀ i, i ∈ l ↔ ∃ id, i = infoOf facts id ∧ P id) → NoDup (rolloutID <$> l) →
  ∃ ids, NoDup ids ∧ length ids = length (filter (λ i, rolloutInstanceState i = state) l) ∧ ∀ id, id ∈ ids → P id ∧ stateIn facts id = state.
Proof.
  intros Hl Hnd. exists (rolloutID <$> filter (λ i, rolloutInstanceState i = state) l). split_and!; [by apply filtered_nodup|apply length_fmap|].
  intros id (i & -> & [Hst (id' & -> & Hp)%Hl]%list_elem_of_filter)%list_elem_of_fmap. done.
Qed.

Lemma rollback_flag : old ≠ [] →
  shouldTriggerRollback (Z.of_nat (length (filter (λ i, rolloutInstanceState i = InstanceFailed) new))) (rolloutFact facts s "previous_image") = true ↔ rollsBack facts s image.
Proof using Hwf.
  intros Hold. unfold shouldTriggerRollback, rollsBack, rollbackThreshold. rewrite andb_true_iff, negb_true_iff, Z.leb_le, bool_decide_eq_false. split.
  - intros [Hc Hp]. split_and!; [|done|].
    + destruct old as [|i l] eqn:E; [done|]. assert (Hi : i ∈ old) by (rewrite E; left). apply old_elem in Hi as (id & _ & ?). by exists id.
    + destruct (counted_enumeration (newOn facts s image) InstanceFailed new new_elem) as (ids & Hnd & Hlen & Hids); [apply filtered_nodup, instancesByService_nodup|].
      exists ids. split_and!; [done|lia|done].
  - intros (_ & Hp & failed & Hnd & Hlen & Hf). split; [|done]. pose proof (enumerated_count (newOn facts s image) InstanceFailed new failed new_elem Hnd Hf). lia.
Qed.

(** The instances that may be stopped, as the code counts them. *)
Lemma mayReplace_flag : (countState InstanceRunning new =? 0) && (0 <? Z.of_nat (length new)) = false ↔ mayReplace facts s image.
Proof using Hwf.
  rewrite countState_filter, andb_false_iff, Z.eqb_neq, Z.ltb_ge. unfold mayReplace. split.
  - intros [Hc|Hc]; [left|right].
    + destruct (filter (λ i, rolloutInstanceState i = InstanceRunning) new) as [|i l] eqn:E; [done|].
      assert (Hi : i ∈ filter (λ i, rolloutInstanceState i = InstanceRunning) new) by (rewrite E; left). apply list_elem_of_filter in Hi as [Hst (id & -> & Hn)%new_elem]. by exists id.
    + intros id Hn. assert (Hi : infoOf facts id ∈ new) by (apply new_elem; by exists id). destruct new; [by apply elem_of_nil in Hi|simpl in Hc; lia].
  - intros [(id & Hn & Hst)|Hno]; [left|right].
    + assert (Hi : infoOf facts id ∈ filter (λ i, rolloutInstanceState i = InstanceRunning) new) by (apply list_elem_of_filter; split; [done|apply new_elem; by exists id]).
      destruct (filter _ new); [by apply elem_of_nil in Hi|simpl; lia].
    + destruct new as [|i l] eqn:E; [done|]. assert (Hi : i ∈ new) by (rewrite E; left). apply new_elem in Hi as (id & _ & Hn). by destruct (Hno id).
Qed.

Let policy := applyDisruptionBudgetToUpdatePolicy (mkUpdatePolicy (number facts s "update/max_unavailable") (number facts s "update/max_extra"))
  (mkRolloutBudget (number facts s "disruption/min_available") (number facts s "disruption/max_unavailable")) (setting facts s "instances").

(** The changes for a service with instances, in terms of the facts. *)
Lemma service_changes_cases : rolloutService_changes facts s image =
  match instances, old with
  | [], _ => []
  | _, [] => if bool_decide (rolloutFact facts s "state" = "rolling")
             then [mkChange OpPut (KeyDerivedServiceRolloutState s) "complete" ""; mkChange OpDelete (KeyDerivedServiceRolloutSurgeAllowance s) "" ""] else []
  | _, first :: _ =>
      buildRolloutTrackingChanges s (rolloutImage first) (rolloutFact facts s "previous_image")
        (mkUpdatePolicy (number facts s "update/max_unavailable") (number facts s "update/max_extra")) (fst (Atoi (rolloutFact facts s "revision"))) ++
      (if shouldTriggerRollback (Z.of_nat (length (filter (λ i, rolloutInstanceState i = InstanceFailed) new))) (rolloutFact facts s "previous_image")
       then buildRollbackChanges s (rolloutFact facts s "previous_image")
       else if flagOf (extractRolloutPausedServices facts) s then [] else buildOldInstanceStopChanges old new policy)
  end.
Proof using Hwf Hs.
  unfold rolloutService_changes. cbv zeta. rewrite classify_filter. fold instances old new.
  rewrite updatePolicy_numbers, rolloutBudget_numbers by done. unfold extractDesiredInstanceCounts. rewrite collectInt_setting by done. fold policy.
  pose proof (rolloutState_field facts s "state" Hwf Hs ltac:(by left)) as E1.
  pose proof (rolloutState_field facts s "previous_image" Hwf Hs ltac:(right; by left)) as E2.
  pose proof (rolloutState_field facts s "revision" Hwf Hs ltac:(right; right; by left)) as E3.
  change (stateKey s "state") with s in E1. change (stateKey s "previous_image") with (s +:+ "/previous_image") in E2. change (stateKey s "revision") with (s +:+ "/revision") in E3.
  by rewrite E1, E2, E3.
Qed.

(** What the stopping loop stops. *)
Definition stopped : list string :=
  if (stopLimit policy -! countState InstanceFailed old)%go <=? 0 then []
  else if (countState InstanceRunning new =? 0) && (0 <? Z.of_nat (length new)) then []
  else rolloutID <$> take (Z.to_nat (stopLimit policy -! countState InstanceFailed old)%go) (filter (λ i, isActiveInstanceState (rolloutInstanceState i) = true) old).

Lemma stopChanges_stopped : buildOldInstanceStopChanges old new policy = stopOldChange <$> stopped.
Proof.
  unfold buildOldInstanceStopChanges, stopped. fold (stopLimit policy). destruct (Z.leb_spec (stopLimit policy -! countState InstanceFailed old)%go 0); [done|].
  destruct ((_ =? 0) && _); [done|]. rewrite stopOld_take by lia. simpl. by rewrite list_fmap_compose.
Qed.

Lemma stopped_old id : id ∈ stopped → oldOn facts s image id ∧ isActiveInstanceState (stateIn facts id) = true.
Proof using Hwf.
  unfold stopped. intros Hin. repeat case_match; [by apply elem_of_nil in Hin..|].
  apply list_elem_of_fmap in Hin as (i & -> & Hin). apply elem_of_take in Hin as (n & Hn%list_elem_of_lookup_2 & _).
  apply list_elem_of_filter in Hn as [Ha (id & -> & Ho)%old_elem]. done.
Qed.

Lemma stopped_nodup : NoDup stopped.
Proof.
  unfold stopped. repeat case_match; [constructor..|]. rewrite fmap_take.
  eapply submseteq_nodup; [apply submseteq_take|apply filtered_nodup, filtered_nodup, instancesByService_nodup].
Qed.

(** Every instance of a service has a fact that names the service. *)
Lemma instances_facts : (length instances ≤ length facts)%nat.
Proof using Hwf.
  pose (key := λ id, if decide (is_Some (values_of facts !! instanceKey ScanDerivedInstances id "service")) then instanceKey ScanDerivedInstances id "service"
    else instanceKey ScanObservedInstances id "service").
  assert (Hkey : ∀ id id', key id = key id' → id = id').
  { intros id id' E. unfold key, instanceKey in E. repeat case_decide; try done; apply (inj (String.append _)) in E;
      apply (f_equal (dropEnd (String.length ("/" +:+ "service")))) in E; by rewrite !dropEnd_app in E. }
  rewrite <- (length_fmap rolloutID instances), <- (length_fmap key), <- (length_fmap Key facts). apply submseteq_length, NoDup_submseteq.
  - apply NoDup_fmap_2; [exact Hkey|apply instancesByService_nodup].
  - intros k (id & -> & (i & -> & (id' & -> & Hne & Hid & Hsv)%(instancesByService_elem facts Hwf))%list_elem_of_fmap)%list_elem_of_fmap.
    change (key id' ∈ Key <$> facts).
    assert (is_Some (values_of facts !! key id')) as [v (f & Hf & <- & _)%(values_of_lookup _ _ _ (proj2 Hwf))]; [|by apply list_elem_of_fmap_2].
    unfold key. case_decide as Hd; [done|]. unfold fieldText, fieldIn in Hsv. apply eq_None_not_Some in Hd. rewrite Hd in Hsv.
    destruct (values_of facts !! instanceKey ScanObservedInstances id' "service"); [done|by destruct Hne].
Qed.

Context (Hlen : Z.of_nat (length facts) < int64_max) (Hlimit : 0 ≤ number facts s "update/max_unavailable").

(** The limit with the failed instances taken off does not wrap around. *)
Lemma canStop_exact : (stopLimit policy -! countState InstanceFailed old)%go = stopLimit policy - countState InstanceFailed old.
Proof using Hlen Hlimit Hwf.
  destruct (stopLimit_bounds (number facts s "update/max_unavailable") (number facts s "update/max_extra") (number facts s "disruption/min_available")
    (number facts s "disruption/max_unavailable") (setting facts s "instances")) as (H1 & H2 & _); [done|apply number_range || apply setting_range..|].
  fold policy in H1, H2. apply wrap64_id. rewrite countState_filter. pose proof (length_filter (λ i, rolloutInstanceState i = InstanceFailed) old).
  assert (length old ≤ length instances)%nat by apply length_filter. pose proof instances_facts. unfold in_int64, int64_min, int64_max in *. lia.
Qed.

Lemma stopped_bound failed : stopped ≠ [] → NoDup failed → (∀ id, id ∈ failed → oldOn facts s image id ∧ stateIn facts id = InstanceFailed) →
  Z.of_nat (length stopped) + Z.of_nat (length failed) ≤ stopLimit policy.
Proof using Hlen Hlimit Hwf.
  intros Hne Hnd Hf. pose proof (enumerated_count (oldOn facts s image) InstanceFailed old failed old_elem Hnd Hf) as Hc. unfold stopped in *.
  rewrite canStop_exact, countState_filter in *. destruct (Z.leb_spec (stopLimit policy - Z.of_nat (length (filter (λ i, rolloutInstanceState i = InstanceFailed) old))) 0); [done|].
  destruct ((_ =? 0) && _); [done|]. rewrite length_fmap, length_take. lia.
Qed.

Lemma stopped_progress : (∃ id, oldOn facts s image id ∧ isActiveInstanceState (stateIn facts id) = true) →
  (∀ id, oldOn facts s image id → stateIn facts id ≠ InstanceFailed) → mayReplace facts s image → stopped ≠ [].
Proof using Hlen Hlimit Hwf.
  intros (id & Ho & Ha) Hnone Hm. destruct (stopLimit_bounds (number facts s "update/max_unavailable") (number facts s "update/max_extra") (number facts s "disruption/min_available")
    (number facts s "disruption/max_unavailable") (setting facts s "instances")) as (H1 & _); [done|apply number_range || apply setting_range..|]. fold policy in H1.
  assert (Hz : countState InstanceFailed old = 0).
  { rewrite countState_filter. destruct (filter (λ i, rolloutInstanceState i = InstanceFailed) old) as [|i l] eqn:E; [done|]. exfalso.
    assert (Hi : i ∈ filter (λ i, rolloutInstanceState i = InstanceFailed) old) by (rewrite E; left). apply list_elem_of_filter in Hi as [Hst (id' & -> & Ho')%old_elem].
    by apply (Hnone id'). }
  unfold stopped. rewrite canStop_exact, Hz, (proj2 mayReplace_flag Hm). destruct (Z.leb_spec (stopLimit policy - 0) 0); [lia|].
  assert (Hi : infoOf facts id ∈ filter (λ i, isActiveInstanceState (rolloutInstanceState i) = true) old) by (apply list_elem_of_filter; split; [done|apply old_elem; by exists id]).
  destruct (filter _ old) as [|i l]; [by apply elem_of_nil in Hi|]. by destruct (Z.to_nat (stopLimit policy - 0)) eqn:En; [lia|].
Qed.

End one.

Context (Hlen : Z.of_nat (length facts) < int64_max).

Lemma paced_nil s image :
  ((∃ id, oldOn facts s image id ∧ isActiveInstanceState (stateIn facts id) = true) → ¬ pausedService facts s → ¬ rollsBack facts s image → False) → paced facts s image [].
Proof. intros Hno. split; [constructor|by intros id ?%elem_of_nil|done|done|]. intros _ Ho _ Hp Hr _ _. by apply Hno. Qed.

Lemma stopped_paced s image : ¬ pausedService facts s → ¬ rollsBack facts s image → paced facts s image (stopped s image).
Proof using Hlen Hwf.
  intros Hpause Hroll. split; [apply stopped_nodup|by apply stopped_old|..].
  - intros Hne. split_and!; [done..|]. apply mayReplace_flag. unfold stopped in Hne. repeat case_match; done.
  - intros Hne failed Hnd Hf. cbv zeta. intros Hl. pose proof (stopped_bound s image Hlen Hl failed Hne Hnd Hf) as Hb.
    destruct (stopLimit_bounds (number facts s "update/max_unavailable") (number facts s "update/max_extra") (number facts s "disruption/min_available")
      (number facts s "disruption/max_unavailable") (setting facts s "instances")) as (_ & _ & B1 & B2 & B3 & B4); [done|apply number_range || apply setting_range..|].
    split_and!; intros; [specialize (B1 ltac:(done))|specialize (B2 ltac:(done) ltac:(done))|specialize (B3 ltac:(done) ltac:(done))|specialize (B4 ltac:(done) ltac:(done))]; lia.
  - intros Hl Ho Hnone _ _ Hm. by apply stopped_progress.
Qed.

Lemma service_paced s image : ContainsByte s slash = false →
  ∃ stops, (∀ id, stopOldChange id ∈ rolloutService_changes facts s image ↔ id ∈ stops) ∧ paced facts s image stops.
Proof using Hlen Hwf.
  intros Hs. rewrite service_changes_cases by done. pose proof (old_elem s image) as Hold. set (instances := default [] (extractInstancesByService facts !! s)) in *.
  assert (Hnone : filter (isOldImage image) instances = [] → paced facts s image []).
  { intros E. apply paced_nil. intros (id & Ho & _). exfalso. assert (Hi : infoOf facts id ∈ filter (isOldImage image) instances) by (apply Hold; by exists id).
    rewrite E in Hi. by apply elem_of_nil in Hi. }
  destruct instances as [|i0 l0] eqn:Ei; [exists []; split; [set_solver|by apply Hnone]|]. rewrite <- Ei in *. clear Ei.
  destruct (filter (isOldImage image) instances) as [|first rest] eqn:Eo.
  { exists []. split; [|by apply Hnone]. intros id. case_bool_decide; [|set_solver]. split; [|by intros ?%elem_of_nil]. intros Hin.
    repeat (apply elem_of_cons in Hin as [E|Hin]; [by injection E|]). by apply elem_of_nil in Hin. }
  pose proof (rollback_flag s image) as Hr. fold instances in Hr. rewrite Eo in Hr. specialize (Hr ltac:(done)). setoid_rewrite elem_of_app.
  assert (Hskip : ∀ (l : list Change) (stops : list string), (∀ id, stopOldChange id ∈ l ↔ id ∈ stops) → ∀ id, (stopOldChange id ∈ buildRolloutTrackingChanges s (rolloutImage first) (rolloutFact facts s "previous_image")
    (mkUpdatePolicy (number facts s "update/max_unavailable") (number facts s "update/max_extra")) (fst (Atoi (rolloutFact facts s "revision"))) ∨ stopOldChange id ∈ l) ↔ id ∈ stops).
  { intros l stops Hl id. rewrite <- Hl. split; [|by right]. intros [Hin|]; [|done]. by apply tracking_derived in Hin. }
  destruct (shouldTriggerRollback _ _) eqn:Er.
  { exists []. split; [apply Hskip; intros id; split; [intros Hin; by apply rollback_no_stop in Hin|by intros ?%elem_of_nil]|]. apply paced_nil. tauto. }
  assert (Hnr : ¬ rollsBack facts s image) by (rewrite <- Hr; done). destruct (flagOf (extractRolloutPausedServices facts) s) eqn:Ep.
  { exists []. split; [apply Hskip; set_solver|]. apply paced_nil. intros _ Hp _. by apply Hp, paused_flag. }
  exists (stopped s image). split; [|apply stopped_paced; [|done]; by rewrite <- paused_flag, Ep].
  apply Hskip. intros id. rewrite <- Eo. unfold instances. rewrite stopChanges_stopped. split; [|apply list_elem_of_fmap_2].
  intros (id' & ->%stopOldChange_inj & Hin)%list_elem_of_fmap. done.
Qed.

(** The image that the facts want for a service. *)
Definition wanted (s image : string) : Prop := ContainsByte s slash = false ∧ serviceFact facts s "image" = Some image.

Lemma Reconcile_elem c : c ∈ RolloutController_Reconcile facts ↔ ∃ s image, wanted s image ∧ c ∈ rolloutService_changes facts s image.
Proof using Hwf.
  unfold RolloutController_Reconcile. rewrite list_elem_of_bind.
  assert (Hw : ∀ s image, (s, image) ∈ map_range (extractDesiredImages facts) ↔ wanted s image).
  { intros s image. rewrite elem_of_map_range. unfold extractDesiredImages, collectStringValuesBySuffix, wanted, serviceFact. rewrite collectBySuffix_lookup by done.
    destruct (ContainsByte s slash); [naive_solver|]. destruct (values_of facts !! _); naive_solver. }
  split.
  - intros ([s image] & Hc & Hin%Hw). by exists s, image.
  - intros (s & image & Hin%Hw & Hc). by exists (s, image).
Qed.

(** The change that reverts the image of a service. *)
Definition revertChange (s previous : string) : Change := mkChange OpPut (KeyDesiredServiceImage s) previous ("rollout-rollback/" +:+ s).

Lemma rollback_revert s s' previous previous' : revertChange s' previous ∈ buildRollbackChanges s previous' → s' = s ∧ previous = previous'.
Proof.
  unfold buildRollbackChanges, groupedChanges. intros [E|Hin]%elem_of_cons.
  - split; [|by apply (f_equal ChangeValue) in E]. apply (f_equal Group) in E. unfold revertChange in E. cbn [Group] in E. by apply (inj (String.append _)) in E.
  - simpl in Hin. repeat (apply elem_of_cons in Hin as [E|Hin]; [by injection E|]). by apply elem_of_nil in Hin.
Qed.

Lemma service_rollback s image s' previous : ContainsByte s slash = false →
  revertChange s' previous ∈ rolloutService_changes facts s image ↔ s' = s ∧ rollsBack facts s image ∧ previous = rolloutFact facts s "previous_image".
Proof using Hwf.
  intros Hs. rewrite service_changes_cases by done. pose proof (rollback_flag s image) as Hr. set (instances := default [] (extractInstancesByService facts !! s)) in *.
  assert (Hnone : filter (isOldImage image) instances = [] → ¬ rollsBack facts s image).
  { intros E [(id & Ho) _]. assert (Hi : infoOf facts id ∈ filter (isOldImage image) instances) by (apply old_elem; by exists id).
    rewrite E in Hi. by apply elem_of_nil in Hi. }
  destruct instances as [|i0 l0] eqn:Ei; [split; [by intros ?%elem_of_nil|by intros (_ & ?%Hnone & _)]|]. rewrite <- Ei in *. clear Ei.
  destruct (filter (isOldImage image) instances) as [|first rest] eqn:Eo.
  { split; [|by intros (_ & ?%Hnone & _)]. case_bool_decide; [|by intros ?%elem_of_nil]. intros Hin.
    repeat (apply elem_of_cons in Hin as [E|Hin]; [by injection E|]). by apply elem_of_nil in Hin. }
  specialize (Hr ltac:(done)). rewrite elem_of_app. destruct (shouldTriggerRollback _ _) eqn:Er.
  - assert (Hroll : rollsBack facts s image) by (by apply Hr). split.
    + intros [Hin|Hin]; [by apply tracking_derived in Hin|]. by apply rollback_revert in Hin as [-> ->].
    + intros (-> & _ & ->). right. left.
  - assert (Hnr : ¬ rollsBack facts s image) by (rewrite <- Hr; done). split; [|tauto]. intros [Hin|Hin]; [by apply tracking_derived in Hin|].
    destruct (flagOf _ s); [by apply elem_of_nil in Hin|]. rewrite <- Eo in Hin. unfold instances in Hin. rewrite stopChanges_stopped in Hin.
    apply list_elem_of_fmap in Hin as (id & E & _). by injection E.
Qed.


End cycle.

(** ** Concrete cycles *)

#[local] Existing Instance reference_range.

(** A rollout from app:1 to app:2 is over and one to app:3 begins; the image app:2 is not
    recorded, and three failures of app:3 bring back app:1. *)
Definition secondRollout : list Fact :=
  [endpointFact "derived/service/web/rollout/previous_image" "app:1"; endpointFact "derived/service/web/rollout/state" "complete";
   endpointFact "desired/service/web/image" "app:3";
   endpointFact "observed/instance/a/image" "app:2"; endpointFact "observed/instance/a/service" "web"; endpointFact "observed/instance/a/state" "running";
   endpointFact "observed/instance/b/image" "app:3"; endpointFact "observed/instance/b/service" "web"; endpointFact "observed/instance/b/state" "failed";
   endpointFact "observed/instance/c/image" "app:3"; endpointFact "observed/instance/c/service" "web"; endpointFact "observed/instance/c/state" "failed";
   endpointFact "observed/instance/d/image" "app:3"; endpointFact "observed/instance/d/service" "web"; endpointFact "observed/instance/d/state" "failed"].

Lemma rollback_to_stale_image : RolloutController_Reconcile secondRollout = buildRollbackChanges "web" "app:1".
Proof. vm_compute. reflexivity. Qed.

(** Two of three instances are to stay available; the second new instance does not run yet
    when the last old one is stopped. *)
Definition pendingRollout : list Fact :=
  [endpointFact "derived/service/web/rollout/previous_image" "app:1"; endpointFact "derived/service/web/rollout/state" "rolling";
   endpointFact "desired/service/web/disruption/min_available" "2"; endpointFact "desired/service/web/image" "app:2"; endpointFact "desired/service/web/instances" "3";
   endpointFact "observed/instance/a/image" "app:1"; endpointFact "observed/instance/a/service" "web"; endpointFact "observed/instance/a/state" "running";
   endpointFact "observed/instance/b/image" "app:2"; endpointFact "observed/instance/b/service" "web"; endpointFact "observed/instance/b/state" "running";
   endpointFact "observed/instance/c/image" "app:2"; endpointFact "observed/instance/c/service" "web"; endpointFact "observed/instance/c/state" "pending"].

Lemma rollout_below_minimum : RolloutController_Reconcile pendingRollout = [stopOldChange "a"].
Proof. vm_compute. reflexivity. Qed.

