(* ===== verification/NodeFailureController.v ===== *)
(** * The node failure controller (src/controllers/nodefailure.go)

    It compares the heartbeat of every node with the clock, marks silent nodes
    unreachable and their instances failed, and takes both back when a node is heard
    again. Times are nanoseconds, [Sub] saturates as in package time; the limits per
    cycle are those of [NewNodeFailureController]. Log output is left out. *)

From S2P Require Import Prelude GoStrings GoFmt Trie EventHistory MemoryStore StoreInvariant StoreProps StateStore PrefixSearch Keys KeyNames Heap NodeHeap.
From S2P Require Import SchedulerFacts Placement Runner RunnerProps ControllerHelpers InstanceController InstanceEffects IntentResolver EndpointController CircuitBreaker DrainController.

Local Open Scope Z_scope.

Definition NodeUnreachable : string := "unreachable".

Definition defaultNodeFailureLeaseTimeout : Z := 30 * 1000000000.
Definition defaultMaxTotalChangesPerCycle : Z := 58.
Definition defaultMaxNodeStateChangesPerCycle : Z := 12.

Record NodeFailureController := mkNodeFailure { LeaseTimeout : Z; MaxTotalChangesPerCycle : Z; MaxNodeStateChangesPerCycle : Z }.

Definition NewNodeFailureController : NodeFailureController :=
  mkNodeFailure defaultNodeFailureLeaseTimeout defaultMaxTotalChangesPerCycle defaultMaxNodeStateChangesPerCycle.

Definition NodeFailureController_Watch : list string :=
  [ScanLeaseNodes; ScanObservedNodes; ScanObservedInstances; ScanDerivedInstances; ScanPlacements].

(** ** Reading the facts *)

(** A timestamp that does not parse is skipped. *)
Definition parseNodeLeaseTimestamps (facts : list Fact) : gmap string Z :=
  foldl (λ lastHeartbeatMillisByNode f,
    match ParseInt (Value f) with
    | (milliTimestamp, None) => <[TrimPrefix (Key f) ScanLeaseNodes := milliTimestamp]> lastHeartbeatMillisByNode
    | (_, Some _) => lastHeartbeatMillisByNode
    end) ∅ (FactsWithPrefix facts ScanLeaseNodes).

Definition parseCurrentNodeStates (facts : list Fact) : gmap string string := collectStringValuesBySuffix facts ScanObservedNodes "state".

(** [time.UnixMilli] in nanoseconds. *)
Definition UnixMilli (millis : Z) : Z := millis * 1000000.

Definition heartbeatIsFresh (leaseTimeout now heartbeatMillis : Z) : bool := durationSub now (UnixMilli heartbeatMillis) <=? leaseTimeout.

Definition nodeStateChange (nodeID state : string) : Change := mkChange OpPut (KeyObservedNodeState nodeID) state "".
Definition failureMarker (instanceID : string) : Change := mkChange OpPut (KeyDerivedInstanceNodeFailure instanceID) "true" "".
Definition markerRemoval (instanceID : string) : Change := mkChange OpDelete (KeyDerivedInstanceNodeFailure instanceID) "" "".

Section reconcile.
Context `{GoMapRange} (controller : NodeFailureController) (now : Z).

(** The body of the loop over the leases: silent nodes and those heard again. *)
Definition classifyNode (currentNodeStates : gmap string string) (nodes : gmap string bool * list string) (lease : string * Z)
    : gmap string bool * list string :=
  let '(unreachableNodeSet, recoveredNodeIDs) := nodes in
  let '(nodeID, heartbeatMillis) := lease in
  let nodeState := fieldOf currentNodeStates nodeID in
  let fresh := heartbeatIsFresh (LeaseTimeout controller) now heartbeatMillis in
  if bool_decide (nodeState = NodeUnreachable) && fresh then (unreachableNodeSet, recoveredNodeIDs ++ [nodeID])
  else if bool_decide (nodeState = NodeUnreachable) then (<[nodeID := true]> unreachableNodeSet, recoveredNodeIDs)
  else if negb (bool_decide (nodeState = NodeAlive)) then nodes
  else if negb fresh then (<[nodeID := true]> unreachableNodeSet, recoveredNodeIDs)
  else nodes.

Definition identifyUnreachableNodes (lastHeartbeatMillisByNode : gmap string Z) (currentNodeStates : gmap string string)
    : gmap string bool * list Change :=
  let '(unreachableNodeSet, recoveredNodeIDs) := foldl (classifyNode currentNodeStates) (∅, []) (map_range lastHeartbeatMillisByNode) in
  (unreachableNodeSet,
   ((λ nodeID, nodeStateChange nodeID NodeAlive) <$> sort_strings recoveredNodeIDs) ++
   (sortedMapKeys unreachableNodeSet ≫= λ nodeID,
      if bool_decide (fieldOf currentNodeStates nodeID = NodeUnreachable) then [] else [nodeStateChange nodeID NodeUnreachable])).

(** An instance on an unreachable node that may still be active. *)
Definition affectedInstance (unreachableNodeSet : gmap string bool) (instanceFields : gmap string (gmap string string)) (placement : string * string) : option string :=
  let '(instanceID, placedNodeID) := placement in
  if negb (flagOf unreachableNodeSet placedNodeID) then None
  else
    match instanceFields !! instanceID with
    | None => None
    | Some fields => if isActiveInstanceState (effectiveInstanceState fields) then Some instanceID else None
    end.

Definition markInstancesOnUnreachableNodesAsFailed (facts : list Fact) (unreachableNodeSet : gmap string bool) (maxChanges : Z) : list Change :=
  failureMarker <$>
  take (Z.to_nat maxChanges)
    (sort_strings (omap (affectedInstance unreachableNodeSet (parseInstanceFieldsFromFacts facts)) (map_range (valuesByPath facts ScanPlacements)))).

(** An instance with a marker whose node is not unreachable. *)
Definition staleInstance (unreachableNodeSet : gmap string bool) (instancePlacementNode : gmap string string) (field : string * string * string) : option string :=
  let '(instanceID, suffix, _) := field in
  if negb (bool_decide (suffix = "node_failure")) then None
  else
    let placedNode := fieldOf instancePlacementNode instanceID in
    if negb (bool_decide (placedNode = "")) && negb (flagOf unreachableNodeSet placedNode) then Some instanceID else None.

Definition cleanupStaleNodeFailureMarkers (facts : list Fact) (unreachableNodeSet : gmap string bool) (maxChanges : Z) : list Change :=
  markerRemoval <$>
  take (Z.to_nat maxChanges)
    (sort_strings (omap (staleInstance unreachableNodeSet (valuesByPath facts ScanPlacements)) (entityFields facts ScanDerivedInstances))).

Definition NodeFailureController_Reconcile (facts : list Fact) : list Change :=
  let '(unreachableNodeSet, nodeStateChanges) := identifyUnreachableNodes (parseNodeLeaseTimestamps facts) (parseCurrentNodeStates facts) in
  let nodeStateChanges := take (Z.to_nat (MaxNodeStateChangesPerCycle controller)) nodeStateChanges in
  let remainingBudget := Z.max 0 (MaxTotalChangesPerCycle controller - Z.of_nat (length nodeStateChanges)) in
  let instanceFailureChanges := markInstancesOnUnreachableNodesAsFailed facts unreachableNodeSet remainingBudget in
  let cleanupBudget := Z.max 0 (remainingBudget - Z.of_nat (length instanceFailureChanges)) in
  nodeStateChanges ++ instanceFailureChanges ++ cleanupStaleNodeFailureMarkers facts unreachableNodeSet cleanupBudget.

End reconcile.

(** ** Heartbeats *)

(** The time of a node's last heartbeat, in milliseconds. *)
Definition heartbeat (facts : list Fact) (node : string) (millis : Z) : Prop :=
  ∃ v, values_of facts !! (ScanLeaseNodes +:+ node) = Some v ∧ ParseInt v = (millis, None).

Definition parsedMillis (v : string) : option Z := match ParseInt v with (millis, None) => Some millis | (_, Some _) => None end.

Lemma leases_omap facts : facts_wf facts → parseNodeLeaseTimestamps facts = omap parsedMillis (valuesByPath facts ScanLeaseNodes).
Proof.
  intros Hwf. rewrite <- convertedByPath_omap by done. unfold parseNodeLeaseTimestamps, convertedByPath. generalize (FactsWithPrefix facts ScanLeaseNodes).
  induction l as [|f l IH] using rev_ind; [done|]. rewrite !foldl_app, IH. simpl. unfold parsedMillis at 3. by destruct (ParseInt (Value f)) as [millis [|]].
Qed.

Lemma leases_lookup facts node millis : facts_wf facts → parseNodeLeaseTimestamps facts !! node = Some millis ↔ heartbeat facts node millis.
Proof.
  intros Hwf. rewrite leases_omap, lookup_omap, valuesByPath_lookup by done. unfold heartbeat, parsedMillis.
  destruct (values_of facts !! _) as [v|]; simpl; [|by split; [|intros (? & [=] & _)]]. split.
  - intros E. exists v. split; [done|]. destruct (ParseInt v) as [m [e|]]; congruence.
  - intros (v' & [= <-] & ->). done.
Qed.

Section spec.
Context (controller : NodeFailureController) (now : Z) (facts : list Fact).

Definition fresh (millis : Z) : bool := heartbeatIsFresh (LeaseTimeout controller) now millis.

Definition nodeStateIn (node : string) : option string := values_of facts !! (ScanObservedNodes +:+ node +:+ "/" +:+ "state").

(** A node that is to be unreachable: its heartbeat is too old. *)
Definition silent (node : string) : Prop :=
  ContainsByte node slash = false ∧ nodeStateIn node ∈ [Some NodeAlive; Some NodeUnreachable] ∧ ∃ millis, heartbeat facts node millis ∧ fresh millis = false.

(** An unreachable node that is heard again. *)
Definition recovered (node : string) : Prop :=
  ContainsByte node slash = false ∧ nodeStateIn node = Some NodeUnreachable ∧ ∃ millis, heartbeat facts node millis ∧ fresh millis = true.

Definition placedOn (id node : string) : Prop := values_of facts !! (ScanPlacements +:+ id) = Some node.

(** An instance that may be active, on a silent node. *)
Definition lost (id : string) : Prop :=
  ContainsByte id slash = false ∧ stateIn facts id ∈ [InstanceRunning; InstancePending; InstanceStarting] ∧ ∃ node, placedOn id node ∧ silent node.

(** An instance marked as lost whose node is not silent. *)
Definition stale (id : string) : Prop :=
  ContainsByte id slash = false ∧ is_Some (values_of facts !! KeyDerivedInstanceNodeFailure id) ∧ ∃ node, node ≠ "" ∧ placedOn id node ∧ ¬ silent node.

Definition nodeNeeds (c : Change) : Prop :=
  (∃ node, recovered node ∧ c = nodeStateChange node NodeAlive) ∨
  (∃ node, silent node ∧ nodeStateIn node = Some NodeAlive ∧ c = nodeStateChange node NodeUnreachable).

Definition instanceNeeds (c : Change) : Prop := (∃ id, lost id ∧ c = failureMarker id) ∨ (∃ id, stale id ∧ c = markerRemoval id).

End spec.

(** ** What a cycle proposes *)

Section cycle.
Context `{GoMapRange} (controller : NodeFailureController) (now : Z) (facts : list Fact) (Hwf : facts_wf facts).
Let leases := parseNodeLeaseTimestamps facts.
Let states := parseCurrentNodeStates facts.

Lemma nodeState_field node state : state ≠ "" → fieldOf states node = state ↔ ContainsByte node slash = false ∧ nodeStateIn facts node = Some state.
Proof using Hwf.
  intros Hs. unfold fieldOf, states, parseCurrentNodeStates, collectStringValuesBySuffix, nodeStateIn. rewrite collectBySuffix_lookup by done.
  destruct (ContainsByte node slash); simpl; [naive_solver|]. destruct (values_of facts !! _); simpl; naive_solver.
Qed.

Definition heardAgain (lease : string * Z) : Prop := fieldOf states lease.1 = NodeUnreachable ∧ fresh controller now lease.2 = true.
Definition notHeard (lease : string * Z) : Prop := fieldOf states lease.1 ∈ [NodeAlive; NodeUnreachable] ∧ fresh controller now lease.2 = false.

#[local] Instance heardAgain_dec lease : Decision (heardAgain lease).
Proof. unfold heardAgain. apply _. Defined.

#[local] Instance notHeard_dec lease : Decision (notHeard lease).
Proof. unfold notHeard. apply _. Defined.

Lemma classifyNodes_filter l :
  foldl (classifyNode controller now states) (∅, []) l = (foldl (λ m node, <[node := true]> m) ∅ (filter notHeard l).*1, (filter heardAgain l).*1).
Proof.
  induction l as [|[node millis] l IH] using rev_ind; [done|]. rewrite foldl_app, IH, !filter_app, !filter_cons, !filter_nil, !fmap_app, foldl_app. simpl. fold (fresh controller now millis).
  assert (Hn : notHeard (node, millis) ↔ (fieldOf states node = NodeAlive ∨ fieldOf states node = NodeUnreachable) ∧ fresh controller now millis = false).
  { unfold notHeard. simpl. rewrite !elem_of_cons, elem_of_nil. tauto. }
  assert (Hh : heardAgain (node, millis) ↔ fieldOf states node = NodeUnreachable ∧ fresh controller now millis = true) by done.
  destruct (decide (notHeard (node, millis))) as [Hy|Hy], (decide (heardAgain (node, millis))) as [Hz|Hz]; simpl; rewrite ?app_nil_r; rewrite Hn in Hy; rewrite Hh in Hz; clear Hn Hh;
    destruct (fresh controller now millis); repeat case_bool_decide; simpl; try done; exfalso; naive_solver congruence.
Qed.

Lemma flags_of_list (l : list string) node : (foldl (λ (m : gmap string bool) n, <[n := true]> m) ∅ l) !! node = if decide (node ∈ l) then Some true else None.
Proof.
  induction l as [|n l IH] using rev_ind; [done|]. rewrite foldl_app. simpl. destruct (decide (n = node)) as [->|Hne].
  - rewrite lookup_insert_eq, decide_True; [done|]. apply elem_of_app. right. left.
  - rewrite lookup_insert_ne, IH by done. destruct (decide (node ∈ l)) as [Hin|Hin]; [rewrite decide_True|rewrite decide_False]; [done|apply elem_of_app; by left|done|].
    intros [?|?%list_elem_of_singleton]%elem_of_app; congruence.
Qed.

Lemma notHeard_silent node : node ∈ (filter notHeard (map_range leases)).*1 ↔ silent controller now facts node.
Proof using Hwf.
  rewrite list_elem_of_fmap. unfold silent. split.
  - intros ([n millis] & -> & [[Hst Hf] Hin%elem_of_map_range]%list_elem_of_filter). simpl in *. apply leases_lookup in Hin; [|done].
    rewrite !elem_of_cons, elem_of_nil, !nodeState_field in Hst by done. rewrite !elem_of_cons, elem_of_nil. split_and!; [tauto|tauto|by exists millis].
  - intros (Hn & Hst & millis & Hb & Hf). exists (node, millis). split; [done|]. apply list_elem_of_filter. split; [|by apply elem_of_map_range, leases_lookup].
    split; [|done]. rewrite !elem_of_cons, elem_of_nil in Hst. simpl. rewrite !elem_of_cons, elem_of_nil, !nodeState_field by done. tauto.
Qed.

Lemma heardAgain_recovered node : node ∈ (filter heardAgain (map_range leases)).*1 ↔ recovered controller now facts node.
Proof using Hwf.
  rewrite list_elem_of_fmap. unfold recovered. split.
  - intros ([n millis] & -> & [[Hst Hf] Hin%elem_of_map_range]%list_elem_of_filter). simpl in *. apply leases_lookup in Hin; [|done].
    rewrite nodeState_field in Hst by done. split_and!; [tauto..|by exists millis].
  - intros (Hn & Hst & millis & Hb & Hf). exists (node, millis). split; [done|]. apply list_elem_of_filter. split; [|by apply elem_of_map_range, leases_lookup].
    split; [|done]. simpl. by rewrite nodeState_field.
Qed.

Lemma nodeStateKey_inj a b : KeyObservedNodeState a = KeyObservedNodeState b → a = b.
Proof.
  unfold KeyObservedNodeState. intros E. repeat apply (inj (String.append _)) in E. apply (f_equal (dropEnd (String.length "/state"))) in E. by rewrite !dropEnd_app in E.
Qed.

(** The nodes that are silent, and the changes to the states of nodes. *)
Lemma identify_spec : let '(unreachable, changes) := identifyUnreachableNodes controller now leases states in
  (∀ node, flagOf unreachable node = true ↔ silent controller now facts node) ∧
  (∀ c, c ∈ changes ↔ nodeNeeds controller now facts c) ∧ NoDup (ChangeKey <$> changes).
Proof using Hwf.
  unfold identifyUnreachableNodes. rewrite classifyNodes_filter. set (unreachable := foldl _ _ (filter notHeard (map_range leases)).*1).
  assert (Hu : ∀ node, is_Some (unreachable !! node) ↔ silent controller now facts node).
  { intros node. unfold unreachable. rewrite flags_of_list, <- notHeard_silent. case_decide; [|by split; [intros [? [=]]|]]. by split; [|eexists]. }
  split_and!.
  - intros node. rewrite <- Hu. unfold flagOf, unreachable. rewrite flags_of_list. case_decide; [by split; [eexists|]|]. by split; [|intros [? [=]]].
  - intros c. rewrite elem_of_app, list_elem_of_fmap, list_elem_of_bind. unfold nodeNeeds. f_equiv.
    + setoid_rewrite <- heardAgain_recovered. unfold sort_strings. split; intros (node & Hc & Hin); exists node; [|by rewrite sort_stable_perm]. by rewrite sort_stable_perm in Hin.
    + split.
      * intros (node & Hc & Hin%sortedMapKeys_elem%Hu). exists node. pose proof Hin as (Hn & Hst & _). case_bool_decide as Ha; [by apply elem_of_nil in Hc|].
        apply list_elem_of_singleton in Hc as ->. split_and!; [done| |done]. rewrite nodeState_field in Ha by done. rewrite !elem_of_cons, elem_of_nil in Hst. tauto.
      * intros (node & Hsil & Hst & ->). exists node. split; [|by apply sortedMapKeys_elem, Hu]. rewrite bool_decide_eq_false_2; [left|].
        rewrite nodeState_field by done. intros [_ E]. rewrite Hst in E. done.
  - rewrite fmap_app. apply NoDup_app. split_and!.
    + rewrite <- list_fmap_compose. apply NoDup_fmap_2; [intros a b E; by apply nodeStateKey_inj in E|]. unfold sort_strings. rewrite sort_stable_perm.
      eapply submseteq_nodup; [apply fmap_submseteq, filter_sub|apply map_range_keys_nodup].
    + intros k (c & -> & (a & -> & Ha)%list_elem_of_fmap)%list_elem_of_fmap (c' & E & (b & Hc & Hb%sortedMapKeys_elem%Hu)%list_elem_of_bind)%list_elem_of_fmap.
      unfold sort_strings in Ha. rewrite sort_stable_perm in Ha. apply heardAgain_recovered in Ha as (_ & Ea & millis & Hm & Hfr).
      case_bool_decide as Hst; [by apply elem_of_nil in Hc|]. apply list_elem_of_singleton in Hc as ->. apply nodeStateKey_inj in E as ->.
      destruct Hb as (_ & _ & millis' & Hm' & Hfr'). assert (millis = millis') as -> by (destruct Hm as (v & Hv & Hp), Hm' as (v' & Hv' & Hp'); congruence). congruence.
    + apply (bind_keys_nodup KeyObservedNodeState); [apply NoDup_fmap_2; [intros a b E; by apply nodeStateKey_inj in E|apply sortedMapKeys_nodup]|].
      intros node _. case_bool_decide; [by left|right; by eexists].
Qed.

Section instances.
Context (unreachable : gmap string bool) (Hflag : ∀ node, flagOf unreachable node = true ↔ silent controller now facts node).
Let affected := omap (affectedInstance unreachable (parseInstanceFieldsFromFacts facts)) (map_range (valuesByPath facts ScanPlacements)).
Let stales := omap (staleInstance unreachable (valuesByPath facts ScanPlacements)) (entityFields facts ScanDerivedInstances).

Lemma affected_lost id : id ∈ affected ↔ lost controller now facts id.
Proof using Hwf Hflag.
  unfold affected. rewrite list_elem_of_omap. unfold lost, placedOn. setoid_rewrite <- Hflag. split.
  - intros ([id' node] & Hin%elem_of_map_range & E). rewrite valuesByPath_lookup in Hin by done. unfold affectedInstance in E.
    destruct (flagOf unreachable node) eqn:Ef; [|done]. simpl in E. destruct (parseInstanceFieldsFromFacts facts !! id') as [fields|] eqn:Efs; [|done].
    destruct (isActiveInstanceState _) eqn:Ea; [|done]. injection E as ->.
    assert (Hid : ContainsByte id slash = false) by (apply (instanceFields_segment facts Hwf); by eexists).
    split_and!; [done| |by exists node]. apply isActive_elem in Ea. unfold stateIn. rewrite <- !(fields_text facts Hwf id) by done. by rewrite Efs.
  - intros (Hid & Hst & node & Hp & Hs). exists (id, node). split; [by apply elem_of_map_range; rewrite valuesByPath_lookup|]. unfold affectedInstance. rewrite Hs. simpl.
    unfold stateIn in Hst. rewrite <- !(fields_text facts Hwf id) in Hst by done.
    destruct (parseInstanceFieldsFromFacts facts !! id) as [fields|]; [|by apply isActive_elem in Hst]. apply isActive_elem in Hst. simpl in Hst. unfold effectiveInstanceState. by rewrite Hst.
Qed.

Lemma stales_stale id : id ∈ stales ↔ stale controller now facts id.
Proof using Hwf Hflag.
  unfold stales. rewrite list_elem_of_omap. unfold stale, placedOn. setoid_rewrite <- Hflag. split.
  - intros ([[id' suffix] v] & Hin & E). apply elem_of_entityFields in Hin as [Hid Hv]; [|done..]. unfold staleInstance in E. case_bool_decide as Hsuf; [|done]. subst suffix. simpl in E.
    destruct (bool_decide (fieldOf (valuesByPath facts ScanPlacements) id' = "")) eqn:Ee; [done|]. destruct (flagOf unreachable _) eqn:Ef; [done|]. injection E as ->.
    apply bool_decide_eq_false in Ee. unfold fieldOf in *. rewrite valuesByPath_lookup in * by done. destruct (values_of facts !! (ScanPlacements +:+ id)) as [node|]; [|done].
    simpl in *. split_and!; [done|by exists v|]. exists node. by rewrite Ef.
  - intros (Hid & [v Hv] & node & Hne & Hp & Hs). exists (id, "node_failure", v). split; [by apply elem_of_entityFields|]. unfold staleInstance, fieldOf.
    rewrite valuesByPath_lookup, Hp by done. simpl. rewrite bool_decide_eq_false_2 by done. by destruct (flagOf unreachable node); [destruct Hs|].
Qed.

(** Distinct keys give distinct results. *)
Lemma omap_keyed_nodup {A} (key : A → string) (f : A → option string) (l : list A) : (∀ x y, f x = Some y → key x = y) → NoDup (key <$> filter (λ x, is_Some (f x)) l) → NoDup (omap f l).
Proof.
  intros Hf. induction l as [|x l IH]; [constructor|]. rewrite filter_cons. simpl. destruct (f x) as [y|] eqn:E.
  - rewrite decide_True by (by eexists). rewrite fmap_cons. intros [Hout Hnd]%NoDup_cons. apply NoDup_cons. split; [|by apply IH].
    intros (x' & Hx' & E')%list_elem_of_omap. apply Hout. rewrite (Hf x y E), <- (Hf x' y E'). apply list_elem_of_fmap_2, list_elem_of_filter. split; [by eexists|done].
  - rewrite decide_False by (intros [? [=]]). apply IH.
Qed.

Lemma affected_nodup : NoDup affected.
Proof.
  apply (omap_keyed_nodup fst).
  - intros [id node] y E. unfold affectedInstance in E. repeat case_match; try done. by injection E.
  - eapply submseteq_nodup; [apply fmap_submseteq, filter_sub|apply map_range_keys_nodup].
Qed.

Lemma staleInstance_field m id f v y : staleInstance unreachable m (id, f, v) = Some y → f = "node_failure" ∧ id = y.
Proof. unfold staleInstance. destruct (decide (f = "node_failure")) as [->|]; [|by rewrite bool_decide_eq_false_2]. simpl. destruct (_ && _); [|done]. by intros [= ->]. Qed.

Lemma stales_nodup : NoDup stales.
Proof using Hwf.
  apply (omap_keyed_nodup (fst ∘ fst)).
  - intros [[id f] v] y E. by apply staleInstance_field in E as [_ ->].
  - rewrite (list_fmap_compose fst fst). apply NoDup_fmap_2_strong.
    + intros p q ([[id f] v] & -> & [[y E] _]%list_elem_of_filter)%list_elem_of_fmap ([[id' f'] v'] & -> & [[y' E'] _]%list_elem_of_filter)%list_elem_of_fmap Eq. simpl in Eq. subst id'.
      apply staleInstance_field in E as [-> _], E' as [-> _]. done.
    + eapply submseteq_nodup; [apply fmap_submseteq, filter_sub|by apply entityFields_unique].
Qed.

End instances.

(** The changes, with the lists they are cut from. *)
Lemma Reconcile_parts : ∃ (nodes : list Change) (ids gone : list string),
  NodeFailureController_Reconcile controller now facts =
    (let changes := take (Z.to_nat (MaxNodeStateChangesPerCycle controller)) nodes in
    let remaining := Z.max 0 (MaxTotalChangesPerCycle controller - Z.of_nat (length changes)) in
    let marked := take (Z.to_nat remaining) ids in
    changes ++ (failureMarker <$> marked) ++ (markerRemoval <$> take (Z.to_nat (Z.max 0 (remaining - Z.of_nat (length marked)))) gone)) ∧
  (∀ c, c ∈ nodes ↔ nodeNeeds controller now facts c) ∧ NoDup (ChangeKey <$> nodes) ∧
  (∀ id, id ∈ ids ↔ lost controller now facts id) ∧ NoDup ids ∧ (∀ id, id ∈ gone ↔ stale controller now facts id) ∧ NoDup gone.
Proof using Hwf.
  unfold NodeFailureController_Reconcile. pose proof identify_spec as Hid. fold leases states. destruct (identifyUnreachableNodes controller now leases states) as [unreachable nodes].
  destruct Hid as (Hflag & Hnodes & Hnd). eexists nodes, (sort_strings _), (sort_strings _). unfold markInstancesOnUnreachableNodesAsFailed, cleanupStaleNodeFailureMarkers.
  split_and!; [cbv zeta; by rewrite length_fmap|done|done|..]; unfold sort_strings.
  - intros id. rewrite sort_stable_perm. by apply affected_lost.
  - rewrite sort_stable_perm. apply affected_nodup.
  - intros id. rewrite sort_stable_perm. by apply stales_stale.
  - rewrite sort_stable_perm. by apply stales_nodup.
Qed.

Lemma take_elem_or_full {A} (l : list A) n x : x ∈ l → x ∈ take n l ∨ (n ≤ length (take n l))%nat.
Proof. intros Hx. destruct (decide (length l ≤ n)%nat); [left; by rewrite take_ge|right; rewrite length_take; lia]. Qed.

Lemma elem_of_take_in {A} (l : list A) n x : x ∈ take n l → x ∈ l.
Proof. intros (i & Hi%list_elem_of_lookup_2 & _)%elem_of_take. done. Qed.

(** Every change is called for. *)
Lemma proposed_needed c : c ∈ NodeFailureController_Reconcile controller now facts → nodeNeeds controller now facts c ∨ instanceNeeds controller now facts c.
Proof using Hwf.
  destruct Reconcile_parts as (nodes & ids & gone & -> & Hn & _ & Hi & _ & Hg & _). cbv zeta. rewrite !elem_of_app. unfold instanceNeeds.
  intros [Hc%elem_of_take_in%Hn|[(id & -> & Hc%elem_of_take_in%Hi)%list_elem_of_fmap|(id & -> & Hc%elem_of_take_in%Hg)%list_elem_of_fmap]]; [by left|right; left|right; right]; by exists id.
Qed.

(** A change that is called for is proposed unless the cycle is full. *)
Lemma needed_proposed c : 0 ≤ MaxNodeStateChangesPerCycle controller → 0 ≤ MaxTotalChangesPerCycle controller →
  let changes := NodeFailureController_Reconcile controller now facts in
  (nodeNeeds controller now facts c → c ∈ changes ∨ MaxNodeStateChangesPerCycle controller ≤ Z.of_nat (length changes)) ∧
  (instanceNeeds controller now facts c → c ∈ changes ∨ MaxTotalChangesPerCycle controller ≤ Z.of_nat (length changes)).
Proof using Hwf.
  intros Hm Ht. destruct Reconcile_parts as (nodes & ids & gone & -> & Hn & _ & Hi & _ & Hg & _). cbv zeta. set (part := take _ nodes).
  set (remaining := Z.max 0 _). set (marks := take (Z.to_nat remaining) ids). rewrite !elem_of_app, !length_app, !length_fmap. split.
  - intros Hc%Hn. destruct (take_elem_or_full nodes (Z.to_nat (MaxNodeStateChangesPerCycle controller)) c Hc) as [|Hl]; [tauto|]. fold part in Hl. lia.
  - intros [(id & Hid%Hi & ->)|(id & Hid%Hg & ->)].
    + destruct (take_elem_or_full ids (Z.to_nat remaining) id Hid) as [Hin|Hl]; [left; right; left; by apply list_elem_of_fmap_2|]. fold marks in Hl. lia.
    + destruct (take_elem_or_full gone (Z.to_nat (Z.max 0 (remaining - Z.of_nat (length marks)))) id Hid) as [Hin|Hl]; [left; right; right; by apply list_elem_of_fmap_2|]. lia.
Qed.

Lemma proposed_length : 0 ≤ MaxNodeStateChangesPerCycle controller ≤ MaxTotalChangesPerCycle controller →
  Z.of_nat (length (NodeFailureController_Reconcile controller now facts)) ≤ MaxTotalChangesPerCycle controller.
Proof using Hwf.
  intros Hm. destruct Reconcile_parts as (nodes & ids & gone & -> & _). cbv zeta. rewrite !length_app, !length_fmap, !length_take. lia.
Qed.

Lemma markerKey_inj a b : KeyDerivedInstanceNodeFailure a = KeyDerivedInstanceNodeFailure b → a = b.
Proof.
  unfold KeyDerivedInstanceNodeFailure. intros E. repeat apply (inj (String.append _)) in E. apply (f_equal (dropEnd (String.length "/node_failure"))) in E. by rewrite !dropEnd_app in E.
Qed.

Lemma silent_placement id : lost controller now facts id → stale controller now facts id → False.
Proof. intros (_ & _ & node & Hp & Hs) (_ & _ & node' & _ & Hp' & Hns). unfold placedOn in *. rewrite Hp in Hp'. injection Hp' as <-. done. Qed.

Lemma proposed_nodup : NoDup (ChangeKey <$> NodeFailureController_Reconcile controller now facts).
Proof using Hwf.
  destruct Reconcile_parts as (nodes & ids & gone & -> & Hn & Nn & Hi & Ni & Hg & Ng). cbv zeta. rewrite !fmap_app, <- !list_fmap_compose. apply NoDup_app. split_and!.
  - rewrite fmap_take. eapply submseteq_nodup; [apply submseteq_take|done].
  - intros k (c & -> & [(a & _ & ->)|(a & _ & _ & ->)]%elem_of_take_in%Hn)%list_elem_of_fmap [(id & E & _)%list_elem_of_fmap|(id & E & _)%list_elem_of_fmap]%elem_of_app; by injection E.
  - apply NoDup_app. split_and!.
    + apply NoDup_fmap_2; [intros a b E; by apply markerKey_inj in E|]. eapply submseteq_nodup; [apply submseteq_take|done].
    + intros k (a & -> & Ha%elem_of_take_in%Hi)%list_elem_of_fmap (b & E & Hb%elem_of_take_in%Hg)%list_elem_of_fmap. apply markerKey_inj in E as ->. by apply (silent_placement b).
    + apply NoDup_fmap_2; [intros a b E; by apply markerKey_inj in E|]. eapply submseteq_nodup; [apply submseteq_take|done].
Qed.

End cycle.

(** ** Settling *)

Section settle.
Context `{GoMapRange} (controller : NodeFailureController) (now : Z) (facts facts' : list Fact) (Hwf : facts_wf facts) (Hwf' : facts_wf facts').
Let changes := NodeFailureController_Reconcile controller now facts.
Context (Hval : values_of facts' = applyChanges changes (values_of facts)).
Context (Hneeds : ∀ c, c ∈ changes ↔ nodeNeeds controller now facts c ∨ instanceNeeds controller now facts c).

Lemma value_changed c : c ∈ changes → values_of facts' !! ChangeKey c = match ChangeType c with OpPut => Some (ChangeValue c) | OpDelete => None end.
Proof using Hval Hwf. intros Hc. rewrite Hval. by apply applyChanges_elem; [apply proposed_nodup|]. Qed.

(** A key that no node and no marker has keeps its value. *)
Lemma value_same k : (∀ node, ContainsByte node slash = false → k ≠ KeyObservedNodeState node) →
  (∀ id, ContainsByte id slash = false → k ≠ KeyDerivedInstanceNodeFailure id) → values_of facts' !! k = values_of facts !! k.
Proof using Hneeds Hval.
  intros Hn Hi. rewrite Hval. apply applyChanges_other. intros (c & -> & Hc%Hneeds)%list_elem_of_fmap.
  destruct Hc as [[(node & (Hs & _) & ->)|(node & (Hs & _) & _ & ->)]|[(id & (Hs & _) & ->)|(id & (Hs & _) & ->)]]; [by apply (Hn node)..|by apply (Hi id)|by apply (Hi id)].
Qed.

Lemma heartbeat_same node millis : heartbeat facts' node millis ↔ heartbeat facts node millis.
Proof using Hneeds Hval. unfold heartbeat. by rewrite value_same. Qed.

Lemma placed_same id node : placedOn facts' id node ↔ placedOn facts id node.
Proof using Hneeds Hval. unfold placedOn. by rewrite value_same. Qed.

Lemma heartbeat_unique fs node m1 m2 : heartbeat fs node m1 → heartbeat fs node m2 → m1 = m2.
Proof. intros (v & Hv & Hp) (v' & Hv' & Hp'). congruence. Qed.

(** The state of a node after the cycle. *)
Lemma nodeState_after node :
  (recovered controller now facts node → nodeStateIn facts' node = Some NodeAlive) ∧
  (silent controller now facts node → nodeStateIn facts' node = Some NodeUnreachable) ∧
  (¬ recovered controller now facts node → ¬ silent controller now facts node → nodeStateIn facts' node = nodeStateIn facts node).
Proof using Hneeds Hval Hwf.
  assert (Hother : ¬ recovered controller now facts node → (silent controller now facts node → nodeStateIn facts node ≠ Some NodeAlive) → nodeStateIn facts' node = nodeStateIn facts node).
  { intros Hr Hs. unfold nodeStateIn. rewrite Hval. apply applyChanges_other. change (_ +:+ node +:+ "/" +:+ "state") with (KeyObservedNodeState node).
    intros (c & E & Hc%Hneeds)%list_elem_of_fmap. destruct Hc as [[(n & Hn & ->)|(n & Hn & Ha & ->)]|[(id & _ & ->)|(id & _ & ->)]]; [..|by injection E|by injection E].
    - apply nodeStateKey_inj in E as ->. done.
    - apply nodeStateKey_inj in E as ->. by apply Hs. }
  split_and!.
  - intros Hr. apply (value_changed (nodeStateChange node NodeAlive)), Hneeds. left; left. by exists node.
  - intros Hs. destruct (decide (nodeStateIn facts node = Some NodeAlive)) as [Ha|Ha].
    + apply (value_changed (nodeStateChange node NodeUnreachable)), Hneeds. left; right. by exists node.
    + rewrite Hother; [|intros (_ & _ & m & Hm & Hf); destruct Hs as (_ & _ & m' & Hm' & Hf'); rewrite (heartbeat_unique _ _ _ _ Hm Hm') in Hf; congruence|done].
      destruct Hs as (_ & Hst & _). rewrite !elem_of_cons, elem_of_nil in Hst. tauto.
  - intros Hr Hs. apply Hother; tauto.
Qed.

Lemma fresh_once node m1 m2 : heartbeat facts node m1 → fresh controller now m1 = true → heartbeat facts node m2 → fresh controller now m2 = false → False.
Proof. intros H1 F1 H2 F2. rewrite (heartbeat_unique _ _ _ _ H1 H2) in F1. congruence. Qed.

Lemma silent_same node : silent controller now facts' node ↔ silent controller now facts node.
Proof using Hneeds Hval Hwf.
  destruct (nodeState_after node) as (Hr & Hs & Ho). split.
  - intros (Hn & Hst & m & Hm%heartbeat_same & Hf).
    assert (Hnr : ¬ recovered controller now facts node) by (intros (_ & _ & m' & Hm' & Hf'); exact (fresh_once node m' m Hm' Hf' Hm Hf)).
    destruct (decide (nodeStateIn facts node ∈ [Some NodeAlive; Some NodeUnreachable])) as [Hin|Hin]; [by split_and!; [..|exists m]|].
    assert (Hns : ¬ silent controller now facts node) by (intros (_ & ? & _); done). by rewrite (Ho Hnr Hns) in Hst.
  - intros Hsil. pose proof Hsil as (Hn & _ & m & Hm & Hf). split_and!; [done|rewrite (Hs Hsil); right; left|]. exists m. by rewrite heartbeat_same.
Qed.

(** The marker of an instance after the cycle. *)
Lemma marker_after id :
  (lost controller now facts id → values_of facts' !! KeyDerivedInstanceNodeFailure id = Some "true") ∧
  (stale controller now facts id → values_of facts' !! KeyDerivedInstanceNodeFailure id = None) ∧
  (¬ lost controller now facts id → ¬ stale controller now facts id →
   values_of facts' !! KeyDerivedInstanceNodeFailure id = values_of facts !! KeyDerivedInstanceNodeFailure id).
Proof using Hneeds Hval Hwf.
  split_and!.
  - intros Hl. apply (value_changed (failureMarker id)), Hneeds. right; left. by exists id.
  - intros Hs. apply (value_changed (markerRemoval id)), Hneeds. right; right. by exists id.
  - intros Hl Hs. rewrite Hval. apply applyChanges_other. intros (c & E & Hc%Hneeds)%list_elem_of_fmap.
    destruct Hc as [[(n & _ & ->)|(n & _ & _ & ->)]|[(id' & Hi & ->)|(id' & Hi & ->)]]; [by injection E|by injection E|..]; apply markerKey_inj in E as ->; done.
Qed.

(** A field of an instance other than the marker keeps its value. *)
Lemma field_same id f : ContainsByte id slash = false → f ≠ "node_failure" → fieldText facts' id f = fieldText facts id f.
Proof using Hneeds Hval.
  intros Hid Hf. unfold fieldText, fieldIn, instanceKey. rewrite !value_same; [done|..].
  - intros node _ E. unfold KeyObservedNodeState in E. by injection E.
  - intros id' _ E. by injection E.
  - intros node _ E. by injection E.
  - intros id' Hid' E. apply (inj (String.append ScanDerivedInstances) (id +:+ "/" +:+ f) (id' +:+ "/" +:+ "node_failure")) in E.
    pose proof (proj2 (Cut_slash _ id f) (conj eq_refl Hid)) as C1. pose proof (proj2 (Cut_slash _ id' "node_failure") (conj eq_refl Hid')) as C2. rewrite E, C2 in C1.
    by injection C1.
Qed.

Lemma nothing_needed c : ¬ (nodeNeeds controller now facts' c ∨ instanceNeeds controller now facts' c).
Proof using Hneeds Hval Hwf.
  intros [[(node & (Hn & Hst & m & Hm%heartbeat_same & Hf) & _)|(node & Hs%silent_same & Ha & _)]|[(id & (Hid & Hst & node & Hp%placed_same & Hs%silent_same) & _)|(id & (Hid & Hm & node & Hne & Hp%placed_same & Hs) & _)]].
  - destruct (nodeState_after node) as (Hr & _ & Ho). assert (Hns : ¬ silent controller now facts node) by (intros (_ & _ & m' & Hm' & Hf'); exact (fresh_once node m m' Hm Hf Hm' Hf')).
    destruct (decide (nodeStateIn facts node = Some NodeUnreachable)) as [Hu|Hu].
    + rewrite Hr in Hst; [done|]. split_and!; [done..|by exists m].
    + rewrite Ho in Hst; [done| |done]. by intros (_ & ? & _).
  - destruct (nodeState_after node) as (_ & Hu & _). rewrite (Hu Hs) in Ha. done.
  - assert (Hns : ¬ stale controller now facts id) by (intros (_ & _ & node' & _ & Hp' & Hs'); unfold placedOn in *; rewrite Hp in Hp'; by injection Hp' as <-).
    destruct (marker_after id) as (Hl & _ & Ho). unfold stateIn in Hst. rewrite (field_same id "controller_stopped"), (field_same id "state") in Hst by done.
    assert (Hlost : ¬ lost controller now facts id).
    { intros Hlo. specialize (Hl Hlo). assert (E : fieldText facts' id "node_failure" = "true") by (unfold fieldText, fieldIn, instanceKey; change (ScanDerivedInstances +:+ id +:+ "/" +:+ "node_failure") with (KeyDerivedInstanceNodeFailure id); by rewrite Hl).
      rewrite E, (decide_True (P := "true" = "true")) in Hst by done. case_decide; by apply isActive_elem in Hst. }
    apply Hlost. split_and!; [done| |by exists node]. unfold stateIn. specialize (Ho Hlost Hns).
    assert (E : fieldText facts' id "node_failure" = fieldText facts id "node_failure").
    { unfold fieldText, fieldIn, instanceKey. change (ScanDerivedInstances +:+ id +:+ "/" +:+ "node_failure") with (KeyDerivedInstanceNodeFailure id). rewrite Ho.
      rewrite value_same; [done|..]; intros x _ Ex; by injection Ex. }
    by rewrite E in Hst.
  - rewrite silent_same in Hs. destruct (marker_after id) as (Hl & Hd & Ho).
    assert (Hnl : ¬ lost controller now facts id) by (intros (_ & _ & node' & Hp' & Hs'); unfold placedOn in *; rewrite Hp in Hp'; by injection Hp' as <-).
    assert (Hns : ¬ stale controller now facts id) by (intros Hst; rewrite (Hd Hst) in Hm; by destruct Hm).
    rewrite (Ho Hnl Hns) in Hm. apply Hns. split_and!; [done..|by exists node].
Qed.

End settle.

Section result.
Context `{GoMapRange} (controller : NodeFailureController) (now : Z).


End result.

(** ** A concrete cycle *)

#[local] Existing Instance reference_range.

(** A node was heard 40 seconds ago, another 10 seconds ago. *)
Definition silentFacts : list Fact :=
  [endpointFact "derived/instance/b/node_failure" "true"; endpointFact "lease/node/n1" "60000"; endpointFact "lease/node/n2" "90000";
   endpointFact "observed/instance/a/service" "web"; endpointFact "observed/instance/a/state" "running";
   endpointFact "observed/instance/b/service" "web"; endpointFact "observed/instance/b/state" "running";
   endpointFact "observed/node/n1/state" "alive"; endpointFact "observed/node/n2/state" "unreachable";
   endpointFact "placement/instance/a" "n1"; endpointFact "placement/instance/b" "n2"].

Definition failedFacts : list Fact :=
  [endpointFact "derived/instance/a/node_failure" "true"; endpointFact "lease/node/n1" "60000"; endpointFact "lease/node/n2" "90000";
   endpointFact "observed/instance/a/service" "web"; endpointFact "observed/instance/a/state" "running";
   endpointFact "observed/instance/b/service" "web"; endpointFact "observed/instance/b/state" "running";
   endpointFact "observed/node/n1/state" "unreachable"; endpointFact "observed/node/n2/state" "alive";
   endpointFact "placement/instance/a" "n1"; endpointFact "placement/instance/b" "n2"].

Lemma silent_cycle : NodeFailureController_Reconcile NewNodeFailureController (UnixMilli 100000) silentFacts =
  [nodeStateChange "n2" NodeAlive; nodeStateChange "n1" NodeUnreachable; failureMarker "a"; markerRemoval "b"].
Proof. vm_compute. reflexivity. Qed.

