(* ===== verification/FailureController.v ===== *)
(** * The failure controller (src/controllers/failure.go)

    It stops and replaces instances that failed, drains running ones whose liveness probe
    fails before it replaces them, and backs off when a service keeps failing. Times are
    nanoseconds; the identifiers it draws are those of a sequence. Log output is left out.
    The backoff is computed in float64 by the code: its values are small multiples of
    powers of two, which float64 holds exactly. *)

From S2P Require Import Prelude GoStrings GoFmt GoJSON Trie EventHistory MemoryStore StoreInvariant StoreProps StateStore PrefixSearch Keys KeyNames Heap NodeHeap.
From S2P Require Import SchedulerFacts Placement Runner RunnerProps ControllerHelpers InstanceController InstanceEffects IntentResolver CircuitBreaker EndpointController NodeFailureController.

Local Open Scope Z_scope.

Definition LivenessProbeUnhealthy : string := "unhealthy".
Definition StartupProbeFailed : string := "failed".

Definition DefaultDrainGracePeriod : Z := 5 * second.
Definition crashLoopBaseDelay : Z := 10 * second.
Definition crashLoopMaxDelay : Z := 300 * second.
Definition defaultCircuitBreakerThreshold : Z := 10.
Definition defaultCircuitBreakerCooldown : Z := 600 * second.
Definition defaultMaxReplacementsPerCycle : Z := 14.
Definition defaultMaxDrainsPerCycle : Z := 10.
Definition defaultMaxRecoveriesPerCycle : Z := 10.
Definition maxFailureControllerChangesPerCycle : Z := 58.

Record crashLoopCounter := mkCounter { Count : Z; Since : Z }.

(** [json.Marshal] and [json.Unmarshal] of a counter. *)
Definition marshalCounter (counter : crashLoopCounter) : string := json_object [("count", json_int (Count counter)); ("since", json_int (Since counter))].

Definition unmarshalCounter (data : string) : option crashLoopCounter :=
  match UnmarshalInts ["count"; "since"] data with Some [count; since] => Some (mkCounter count since) | _ => None end.

(** The sequence of identifiers and how many are drawn come first. *)
Record FailureController := mkFailureController {
  FailureNewID : nat → string;
  FailureDrawn : nat;
  DrainGracePeriod : Z;
  MaxReplacementsPerCycle : Z;
  MaxDrainsPerCycle : Z;
  MaxRecoveriesPerCycle : Z;
  CircuitBreakerThreshold : Z;
  CircuitBreakerCooldown : Z
}.

Definition NewFailureController (newID : nat → string) : FailureController :=
  mkFailureController newID 0 DefaultDrainGracePeriod defaultMaxReplacementsPerCycle defaultMaxDrainsPerCycle defaultMaxRecoveriesPerCycle
    defaultCircuitBreakerThreshold defaultCircuitBreakerCooldown.

Definition FailureController_Watch : list string := [ScanObservedInstances; ScanDerivedInstances; ScanDerivedCrashLoops].

Definition parseCrashLoopCounters (facts : list Fact) : gmap string crashLoopCounter :=
  foldl (λ counters f,
    match unmarshalCounter (Value f) with
    | Some counter => <[TrimPrefix (Key f) ScanDerivedCrashLoops := counter]> counters
    | None => counters
    end) ∅ (FactsWithPrefix facts ScanDerivedCrashLoops).

(** Ten seconds times a power of two, cut off to whole seconds, at most five minutes. *)
Definition calculateCrashLoopBackoff (crashCount : Z) : Z :=
  let exponent := (crashCount -! 1)%go in
  let delaySeconds :=
    if 5 <=? exponent then crashLoopMaxDelay / second
    else if 0 <=? exponent then (crashLoopBaseDelay / second) * 2 ^ exponent
    else if exponent <? -3 then 0 else (crashLoopBaseDelay / second) / 2 ^ (- exponent) in
  delaySeconds * second.

(** ** One instance *)

(** What a cycle did so far, with the number of identifiers drawn. *)
Record failureCycleCounters := mkCycleCounters {
  replacements : Z; drainsBegun : Z; recoveries : Z; replacedServices : gmap string Z; drawn : nat }.

Section controller.
Context `{GoMapRange} (c : FailureController) (now : Z).

(** [now.UnixMilli()] *)
Definition nowMillis : Z := now / 1000000.

Definition beginDrain (instanceID : string) : list Change :=
  groupedChanges ("drain/" +:+ instanceID)
    [mkChange OpPut (KeyDerivedInstanceDrainReadiness instanceID) ReadinessProbeNotReady "";
     mkChange OpPut (KeyDerivedInstanceDrainSince instanceID) (Itoa nowMillis) ""].

Definition clearDrainState (instanceID : string) : list Change :=
  groupedChanges ("drain-clear/" +:+ instanceID)
    [mkChange OpDelete (KeyDerivedInstanceDrainReadiness instanceID) "" ""; mkChange OpDelete (KeyDerivedInstanceDrainSince instanceID) "" ""].

Definition replaceChanges (instanceID serviceName replacementID : string) : list Change :=
  groupedChanges ("replace/" +:+ instanceID)
    [mkChange OpPut (KeyDerivedInstanceControllerStopped instanceID) "true" "";
     mkChange OpPut (KeyObservedInstance replacementID) "" "";
     mkChange OpPut (KeyObservedInstanceService replacementID) serviceName "";
     mkChange OpPut (KeyObservedInstanceState replacementID) InstancePending ""].

(** The replacement draws an identifier. *)
Definition stopAndReplace (instanceID serviceName : string) (counters : failureCycleCounters) : list Change * failureCycleCounters :=
  (replaceChanges instanceID serviceName (FailureNewID c (drawn counters)),
   mkCycleCounters (replacements counters) (drainsBegun counters) (recoveries counters) (replacedServices counters) (S (drawn counters))).

(** A replacement within the limit of the cycle; [counted] tells whether it counts as a
    failure of the service. *)
Definition replaceWithinLimit (counted : bool) (instanceID serviceName : string) (counters : failureCycleCounters) : list Change * failureCycleCounters :=
  if MaxReplacementsPerCycle c <=? replacements counters then ([], counters)
  else
    stopAndReplace instanceID serviceName
      (mkCycleCounters (replacements counters + 1) (drainsBegun counters) (recoveries counters)
         (if counted then <[serviceName := default 0 (replacedServices counters !! serviceName) + 1]> (replacedServices counters) else replacedServices counters)
         (drawn counters)).

(** Whether the backoff of a service still runs. *)
Definition backsOff (crashLoopCounters : gmap string crashLoopCounter) (serviceName : string) : bool :=
  match crashLoopCounters !! serviceName with
  | None => false
  | Some counter =>
      let retryDelay := if CircuitBreakerThreshold c <=? Count counter then CircuitBreakerCooldown c else calculateCrashLoopBackoff (Count counter) in
      now <? UnixMilli (Since counter) + retryDelay
  end.

Definition handleUnhealthyLiveness (instanceID serviceName drainSince : string) (counters : failureCycleCounters) : list Change * failureCycleCounters :=
  if bool_decide (drainSince = "") then
    if MaxDrainsPerCycle c <=? drainsBegun counters then ([], counters)
    else (beginDrain instanceID, mkCycleCounters (replacements counters) (drainsBegun counters + 1) (recoveries counters) (replacedServices counters) (drawn counters))
  else
    match ParseInt drainSince with
    | (_, Some _) => replaceWithinLimit false instanceID serviceName counters
    | (drainStartMillis, None) =>
        if DrainGracePeriod c <=? durationSub now (UnixMilli drainStartMillis) then replaceWithinLimit false instanceID serviceName counters else ([], counters)
    end.

Definition processInstanceForRecovery (instanceID : string) (fields : gmap string string) (counters : failureCycleCounters)
    (crashLoopCounters : gmap string crashLoopCounter) : list Change * failureCycleCounters :=
  let instanceState := effectiveInstanceState fields in
  let serviceName := fieldOf fields "service" in
  if bool_decide (serviceName = "") then ([], counters)
  else if bool_decide (instanceState = InstanceFailed) then
    if MaxReplacementsPerCycle c <=? replacements counters then ([], counters)
    else if backsOff crashLoopCounters serviceName then ([], counters)
    else replaceWithinLimit true instanceID serviceName counters
  else if negb (bool_decide (instanceState = InstanceRunning)) then ([], counters)
  else if bool_decide (fieldOf fields "probe/startup" = StartupProbeFailed) then replaceWithinLimit true instanceID serviceName counters
  else
    let drainSince := fieldOf fields "drain_since" in
    if negb (bool_decide (drainSince = "")) && negb (bool_decide (fieldOf fields "probe/liveness" = LivenessProbeUnhealthy)) then
      if MaxRecoveriesPerCycle c <=? recoveries counters then ([], counters)
      else (clearDrainState instanceID, mkCycleCounters (replacements counters) (drainsBegun counters) (recoveries counters + 1) (replacedServices counters) (drawn counters))
    else if bool_decide (fieldOf fields "probe/liveness" = LivenessProbeUnhealthy) then handleUnhealthyLiveness instanceID serviceName drainSince counters
    else ([], counters).

(** ** The cycle *)

(** The body of the loop over the instances: changes, counters, services with a failed
    instance. *)
Definition processInstance (instanceFields : gmap string (gmap string string)) (crashLoopCounters : gmap string crashLoopCounter)
    (state : list Change * failureCycleCounters * gmap string bool) (instanceID : string) : list Change * failureCycleCounters * gmap string bool :=
  let '(changes, counters, failedServiceNames) := state in
  let fields := default ∅ (instanceFields !! instanceID) in
  if negb (bool_decide (fieldOf fields "job_owner" = "")) then state
  else
    let '(instanceChanges, counters') := processInstanceForRecovery instanceID fields counters crashLoopCounters in
    (changes ++ instanceChanges, counters',
     if bool_decide (effectiveInstanceState fields = InstanceFailed) then <[fieldOf fields "service" := true]> failedServiceNames else failedServiceNames).

Definition counterChange (crashLoopCounters : gmap string crashLoopCounter) (serviceName : string) (replacementCount : Z) : Change :=
  let existingCount := match crashLoopCounters !! serviceName with Some existing => Count existing | None => 0 end in
  mkChange OpPut (KeyDerivedCrashLoopCounter serviceName) (marshalCounter (mkCounter (existingCount +! replacementCount)%go nowMillis)) "".

Definition counterReset (serviceName : string) : Change := mkChange OpDelete (KeyDerivedCrashLoopCounter serviceName) "" "".

Definition capOutputChanges (changes : list Change) : list Change + RunnerError :=
  if maxFailureControllerChangesPerCycle <? Z.of_nat (length changes) then
    match takeWholeGroups changes maxFailureControllerChangesPerCycle with
    | inl (taken, _) => inl taken
    | inr e => inr e
    end
  else inl changes.

Definition FailureController_Reconcile (facts : list Fact) : (list Change + RunnerError) * FailureController :=
  let instanceFields := parseInstanceFieldsFromFacts facts in
  let crashLoopCounters := parseCrashLoopCounters facts in
  let '(changes, counters, failedServiceNames) :=
    foldl (processInstance instanceFields crashLoopCounters) ([], mkCycleCounters 0 0 0 ∅ (FailureDrawn c), ∅) (sortedMapKeys instanceFields) in
  let changes := changes ++ ((λ '(serviceName, replacementCount), counterChange crashLoopCounters serviceName replacementCount) <$> map_range (replacedServices counters)) in
  let changes := changes ++ (map_range crashLoopCounters ≫= λ '(serviceName, _), if flagOf failedServiceNames serviceName then [] else [counterReset serviceName]) in
  (capOutputChanges changes,
   mkFailureController (FailureNewID c) (drawn counters) (DrainGracePeriod c) (MaxReplacementsPerCycle c) (MaxDrainsPerCycle c) (MaxRecoveriesPerCycle c)
     (CircuitBreakerThreshold c) (CircuitBreakerCooldown c)).

End controller.

(** ** What is due *)

(** The counter of a service that is written is read back. *)
Lemma counter_roundtrip counter : in_int64 (Count counter) → in_int64 (Since counter) → unmarshalCounter (marshalCounter counter) = Some counter.
Proof. intros Hc Hs. unfold unmarshalCounter, marshalCounter. rewrite UnmarshalInts_pair by done. by destruct counter. Qed.

Inductive remedy := Replace | Drain | Clear.

#[export] Instance remedy_eq_dec : EqDecision remedy.
Proof. solve_decision. Defined.

Section spec.
Context (c : FailureController) (now : Z) (facts : list Fact).

Definition counterOf (s : string) : option crashLoopCounter := values_of facts !! KeyDerivedCrashLoopCounter s ≫= unmarshalCounter.

(** The service failed so recently that replacements wait. *)
Definition mustWait (s : string) : Prop :=
  ∃ counter, counterOf s = Some counter ∧
    now < UnixMilli (Since counter) + (if CircuitBreakerThreshold c <=? Count counter then CircuitBreakerCooldown c else calculateCrashLoopBackoff (Count counter)).

(** The drain of an instance is over: its start is known and long enough ago, or unreadable. *)
Definition drained (since : string) : Prop :=
  since ≠ "" ∧ ∀ millis, ParseInt since = (millis, None) → DrainGracePeriod c ≤ durationSub now (UnixMilli millis).

(** What an instance calls for. *)
Definition due (id : string) (r : remedy) : Prop :=
  let text := fieldText facts id in
  let state := stateIn facts id in
  let unhealthy := text "probe/liveness" = LivenessProbeUnhealthy in
  let started := state = InstanceRunning ∧ text "probe/startup" ≠ StartupProbeFailed in
  ContainsByte id slash = false ∧ text "service" ≠ "" ∧ text "job_owner" = "" ∧
  match r with
  | Replace => state = InstanceFailed ∧ ¬ mustWait (text "service") ∨ state = InstanceRunning ∧ text "probe/startup" = StartupProbeFailed ∨ started ∧ unhealthy ∧ drained (text "drain_since")
  | Drain => started ∧ unhealthy ∧ text "drain_since" = ""
  | Clear => started ∧ ¬ unhealthy ∧ text "drain_since" ≠ ""
  end.

End spec.

Lemma crashCounters_lookup facts s : facts_wf facts → parseCrashLoopCounters facts !! s = counterOf facts s.
Proof.
  intros Hwf. change (parseCrashLoopCounters facts) with (convertedByPath unmarshalCounter facts ScanDerivedCrashLoops).
  rewrite convertedByPath_omap, lookup_omap, valuesByPath_lookup by done. done.
Qed.

(** A remedy that is carried out, with the instance that is created by a replacement. *)
Record treatment := mkTreatment { treated : string; treatedService : string; given : remedy; created : string }.

Definition treatmentChanges (now : Z) (t : treatment) : list Change :=
  match given t with
  | Replace => replaceChanges (treated t) (treatedService t) (created t)
  | Drain => beginDrain now (treated t)
  | Clear => clearDrainState (treated t)
  end.

(** How often a remedy is given. *)
Definition givenTimes (r : remedy) (l : list treatment) : Z := Z.of_nat (length (filter (λ t, given t = r) l)).

Section cycle.
Context `{GoMapRange} (c : FailureController) (now : Z) (facts : list Fact) (Hwf : facts_wf facts).

Definition limitOf (r : remedy) : Z := match r with Replace => MaxReplacementsPerCycle c | Drain => MaxDrainsPerCycle c | Clear => MaxRecoveriesPerCycle c end.
Definition usedOf (counters : failureCycleCounters) (r : remedy) : Z := match r with Replace => replacements counters | Drain => drainsBegun counters | Clear => recoveries counters end.

(** What processing an instance may give. *)
Definition processed (id : string) (counters : failureCycleCounters) (result : list Change * failureCycleCounters) : Prop :=
  let '(changes, counters') := result in
  (changes = [] ∧ counters' = counters ∧ (∀ r, due c now facts id r → limitOf r ≤ usedOf counters r)) ∨
  ∃ r, due c now facts id r ∧ usedOf counters r < limitOf r ∧
    changes = treatmentChanges now (mkTreatment id (fieldText facts id "service") r (FailureNewID c (drawn counters))) ∧
    (∀ r', usedOf counters' r' = usedOf counters r' + (if decide (r' = r) then 1 else 0)) ∧
    drawn counters' = (if decide (r = Replace) then S (drawn counters) else drawn counters).

Lemma processed_nothing id counters : (∀ r, due c now facts id r → limitOf r ≤ usedOf counters r) → processed id counters ([], counters).
Proof. intros Hno. by left. Qed.

Lemma processed_replace counted id counters : due c now facts id Replace → (∀ r, due c now facts id r → r = Replace) →
  processed id counters (replaceWithinLimit c counted id (fieldText facts id "service") counters).
Proof.
  intros Hd Honly. unfold replaceWithinLimit. destruct (Z.leb_spec (MaxReplacementsPerCycle c) (replacements counters)) as [Hl|Hl].
  - apply processed_nothing. intros r ->%Honly. done.
  - right. exists Replace. split_and!; [done|done|done| |done]. intros []; simpl; lia.
Qed.

Lemma processed_handle id counters : fieldText facts id "drain_since" ≠ "" →
  (due c now facts id Replace ↔ drained c now (fieldText facts id "drain_since")) → (∀ r, due c now facts id r → r = Replace) →
  processed id counters (handleUnhealthyLiveness c now id (fieldText facts id "service") (fieldText facts id "drain_since") counters).
Proof.
  intros Hd Hrep Honly. unfold handleUnhealthyLiveness. rewrite bool_decide_eq_false_2 by done. unfold drained in Hrep.
  destruct (ParseInt (fieldText facts id "drain_since")) as [millis [e|]].
  - apply processed_replace; [|done]. apply Hrep. split; [done|]. by intros m [=].
  - destruct (Z.leb_spec (DrainGracePeriod c) (durationSub now (UnixMilli millis))) as [Hl|Hl].
    + apply processed_replace; [|done]. apply Hrep. split; [done|]. by intros m [= <-].
    + apply processed_nothing. intros r Hr. pose proof (Honly r Hr) as ->. apply Hrep in Hr as [_ Hr]. specialize (Hr millis eq_refl). lia.
Qed.

(** One instance: it gets what is due unless the limit is reached, and nothing otherwise. *)
Lemma process_cases id fields counters : ContainsByte id slash = false → parseInstanceFieldsFromFacts facts !! id = Some fields → fieldOf fields "job_owner" = "" →
  processed id counters (processInstanceForRecovery c now id fields counters (parseCrashLoopCounters facts)).
Proof using Hwf.
  intros Hid Efields Hjob.
  assert (Htext : ∀ f, fieldOf fields f = fieldText facts id f) by (intros f; rewrite <- (fields_text facts Hwf id) by done; by rewrite Efields).
  assert (Hstate : effectiveInstanceState fields = stateIn facts id) by (unfold stateIn, effectiveInstanceState; by rewrite !Htext).
  assert (Hback : ∀ s, backsOff c now (parseCrashLoopCounters facts) s = true ↔ mustWait c now facts s).
  { intros s. unfold backsOff, mustWait. rewrite crashCounters_lookup by done. destruct (counterOf facts s) as [counter|]; [|by split; [|intros (? & [=] & _)]].
    cbv zeta. rewrite Z.ltb_lt. split; [intros E; by exists counter|]. by intros (? & [= <-] & E). }
  unfold processInstanceForRecovery. cbv zeta. rewrite Hstate, !Htext. rewrite Htext in Hjob. clear Hstate Htext Efields fields.
  case_bool_decide as Hs. { apply processed_nothing. intros r (_ & ? & _). done. }
  case_bool_decide as Hf.
  { assert (Honly : ∀ r, due c now facts id r → r = Replace).
    { intros [] (_ & _ & _ & Hd); [done|destruct Hd as ((E & _) & _)|destruct Hd as ((E & _) & _)]; rewrite Hf in E; done. }
    destruct (Z.leb_spec (MaxReplacementsPerCycle c) (replacements counters)) as [Hl|Hl]. { apply processed_nothing. by intros r ->%Honly. }
    destruct (backsOff _ _ _ _) eqn:Eb.
    - apply processed_nothing. intros r Hd. pose proof (Honly r Hd) as ->. destruct Hd as (_ & _ & _ & [[_ Hw]|[[E _]|[[E _] _]]]); [by apply Hback in Eb|rewrite Hf in E; done..].
    - apply processed_replace; [|done]. split_and!; [done..|]. left. split; [done|]. by rewrite <- Hback, Eb. }
  case_bool_decide as Hr; simpl.
  2: { apply processed_nothing. intros r (_ & _ & _ & Hd). destruct r; [destruct Hd as [[? _]|[[? _]|[[? _] _]]]|destruct Hd as ((? & _) & _)|destruct Hd as ((? & _) & _)]; done. }
  case_bool_decide as Hst.
  { apply processed_replace; [split_and!; [done..|]; right; by left|]. intros r (_ & _ & _ & Hd). destruct r; [done|destruct Hd as ((_ & ?) & _)|destruct Hd as ((_ & ?) & _)]; done. }
  assert (Hstarted : stateIn facts id = InstanceRunning ∧ fieldText facts id "probe/startup" ≠ StartupProbeFailed) by done.
  assert (Hrep : due c now facts id Replace ↔ fieldText facts id "probe/liveness" = LivenessProbeUnhealthy ∧ drained c now (fieldText facts id "drain_since")).
  { split; [|intros [? ?]; split_and!; [done..|]; by right; right]. intros (_ & _ & _ & [[? _]|[[_ ?]|[_ ?]]]); done. }
  assert (Hdr : due c now facts id Drain ↔ fieldText facts id "probe/liveness" = LivenessProbeUnhealthy ∧ fieldText facts id "drain_since" = "").
  { split; [by intros (_ & _ & _ & _ & ?)|]. intros [? ?]. by split_and!. }
  assert (Hcl : due c now facts id Clear ↔ fieldText facts id "probe/liveness" ≠ LivenessProbeUnhealthy ∧ fieldText facts id "drain_since" ≠ "").
  { split; [by intros (_ & _ & _ & _ & ?)|]. intros [? ?]. by split_and!. }
  destruct (decide (fieldText facts id "drain_since" = "")) as [Hd|Hd], (decide (fieldText facts id "probe/liveness" = LivenessProbeUnhealthy)) as [Hu|Hu].
  - rewrite !bool_decide_eq_true_2 by done. simpl. unfold handleUnhealthyLiveness. rewrite bool_decide_eq_true_2 by done.
    destruct (Z.leb_spec (MaxDrainsPerCycle c) (drainsBegun counters)) as [Hl|Hl].
    + apply processed_nothing. intros [] Hdue; [apply Hrep in Hdue as [_ [? _]]; done|done|apply Hcl in Hdue as [? _]; done].
    + right. exists Drain. split_and!; [by apply Hdr|done|done| |done]. intros []; simpl; lia.
  - rewrite (bool_decide_eq_true_2 (fieldText facts id "drain_since" = "")), bool_decide_eq_false_2 by done. simpl.
    apply processed_nothing. intros [] Hdue; [apply Hrep in Hdue as [? _]|apply Hdr in Hdue as [? _]|apply Hcl in Hdue as [_ ?]]; done.
  - rewrite (bool_decide_eq_false_2 (fieldText facts id "drain_since" = "")), bool_decide_eq_true_2 by done. simpl.
    apply processed_handle; [done|rewrite Hrep; tauto|]. intros [] Hdue; [done|apply Hdr in Hdue as [_ ?]; done|apply Hcl in Hdue as [? _]; done].
  - rewrite !bool_decide_eq_false_2 by done. simpl. destruct (Z.leb_spec (MaxRecoveriesPerCycle c) (recoveries counters)) as [Hl|Hl].
    + apply processed_nothing. intros [] Hdue; [apply Hrep in Hdue as [? _]; done|apply Hdr in Hdue as [? _]; done|done].
    + right. exists Clear. split_and!; [by apply Hcl|done|done| |done]. intros []; simpl; lia.
Qed.

(** ** All instances *)

Let fields := parseInstanceFieldsFromFacts facts.

(** The state of the loop after some instances. *)
Record treatedSoFar (ids : list string) (changes : list Change) (counters : failureCycleCounters) (ts : list treatment) : Prop := {
  so_changes : changes = ts ≫= treatmentChanges now;
  so_due : ∀ t, t ∈ ts → treated t ∈ ids ∧ due c now facts (treated t) (given t) ∧ treatedService t = fieldText facts (treated t) "service";
  so_once : NoDup (treated <$> ts);
  so_used : ∀ r, usedOf counters r = givenTimes r ts;
  so_limit : ∀ r, 0 ≤ limitOf r → givenTimes r ts ≤ limitOf r;
  so_created : created <$> filter (λ t, given t = Replace) ts = FailureNewID c <$> seq (FailureDrawn c) (drawn counters - FailureDrawn c);
  so_drawn : (FailureDrawn c ≤ drawn counters)%nat;
  so_all : ∀ id r, id ∈ ids → due c now facts id r → id ∈ treated <$> ts ∨ limitOf r ≤ givenTimes r ts }.

Lemma givenTimes_snoc r ts t : givenTimes r (ts ++ [t]) = givenTimes r ts + (if decide (r = given t) then 1 else 0).
Proof.
  unfold givenTimes. rewrite filter_app, length_app, filter_cons, filter_nil. destruct (decide (given t = r)) as [E|E]; [rewrite (decide_True (P := r = given t)) by done|rewrite (decide_False (P := r = given t)) by (intros E'; by apply E)]; simpl; lia.
Qed.

Lemma treatedSoFar_step ids id changes counters ts changes' counters' : id ∉ ids → treatedSoFar ids changes counters ts → processed id counters (changes', counters') →
  ∃ ts', treatedSoFar (ids ++ [id]) (changes ++ changes') counters' ts'.
Proof.
  intros Hnew [S1 S2 S3 S4 S5 S6 S7 S8] [(-> & -> & Hno)|(r & Hd & Hl & -> & Hused & Hdrawn)].
  - exists ts. split; [by rewrite app_nil_r|intros t Ht; destruct (S2 t Ht) as (? & ? & ?); by split_and!; [apply elem_of_app; left|..]|done..|].
    intros id' r [Hin| ->%list_elem_of_singleton]%elem_of_app Hd; [by apply S8|]. right. rewrite <- S4. by apply Hno.
  - set (t := mkTreatment id (fieldText facts id "service") r (FailureNewID c (drawn counters))). exists (ts ++ [t]).
    split.
    + rewrite S1, bind_app. simpl. by rewrite app_nil_r.
    + intros t' [Ht'| ->%list_elem_of_singleton]%elem_of_app; [destruct (S2 t' Ht') as (? & ? & ?); by split_and!; [apply elem_of_app; left|..]|]. split_and!; [apply elem_of_app; right; left|done|done].
    + rewrite fmap_app. apply NoDup_app. split_and!; [done| |apply NoDup_singleton]. intros x (t' & -> & Ht')%list_elem_of_fmap E%list_elem_of_singleton. destruct (S2 t' Ht') as (Hin & _). by rewrite E in Hin.
    + intros r'. by rewrite givenTimes_snoc, Hused, S4.
    + intros r' Hr'. rewrite givenTimes_snoc. change (given t) with r. specialize (S5 r' Hr'). destruct (decide (r' = r)) as [->|]; [rewrite S4 in Hl; lia|lia].
    + rewrite filter_app, fmap_app, S6, filter_cons, filter_nil, Hdrawn. simpl. destruct (decide (r = Replace)) as [->|Hne]; [|by rewrite app_nil_r].
      replace (S (drawn counters) - FailureDrawn c)%nat with (S (drawn counters - FailureDrawn c)) by lia. rewrite seq_S, fmap_app. simpl. by replace (FailureDrawn c + (drawn counters - FailureDrawn c))%nat with (drawn counters) by lia.
    + rewrite Hdrawn. destruct (decide (r = Replace)); lia.
    + intros id' r' [Hin| ->%list_elem_of_singleton]%elem_of_app Hd'; rewrite fmap_app, elem_of_app; [|left; right; left].
      destruct (S8 id' r' Hin Hd') as [?|Hlim]; [by left; left|right]. rewrite givenTimes_snoc. destruct (decide (r' = given t)); lia.
Qed.

Lemma loop_treated ids : NoDup ids → (∀ id, id ∈ ids → is_Some (fields !! id)) →
  let '(changes, counters, _) := foldl (processInstance c now fields (parseCrashLoopCounters facts)) ([], mkCycleCounters 0 0 0 ∅ (FailureDrawn c), ∅) ids in
  ∃ ts, treatedSoFar ids changes counters ts.
Proof using Hwf.
  induction ids as [|id ids IH] using rev_ind; intros Hnd Hids.
  { simpl. exists []. split; [done|set_solver|constructor|by intros []|intros r; unfold givenTimes; simpl; lia|simpl; by rewrite Nat.sub_diag|done|set_solver]. }
  apply NoDup_app in Hnd as (Hnd & Hout & _). assert (IH' := IH Hnd (λ id' Hin, Hids id' (proj2 (elem_of_app ids _ _) (or_introl Hin)))). clear IH.
  rewrite foldl_app. simpl. destruct (foldl _ _ ids) as [[changes counters] failed]. destruct IH' as [ts Hts]. unfold processInstance.
  assert (Hnew : id ∉ ids) by (intros Hin; by apply (Hout _ Hin); left). destruct (Hids id) as [fs Hfs]; [apply elem_of_app; right; left|]. rewrite Hfs. simpl.
  assert (Hid : ContainsByte id slash = false) by (apply (instanceFields_segment facts Hwf); by eexists). case_bool_decide as Hjob; simpl.
  - pose proof (process_cases id fs counters Hid Hfs Hjob) as Hp. destruct (processInstanceForRecovery _ _ _ _ _ _) as [changes' counters']. by eapply treatedSoFar_step.
  - destruct Hts as [S1 S2 S3 S4 S5 S6 S7 S8]. exists ts. split; [done|intros t Ht; destruct (S2 t Ht) as (? & ? & ?); by split_and!; [apply elem_of_app; left|..]|done..|].
    intros id' r [Hin| ->%list_elem_of_singleton]%elem_of_app Hd; [by apply S8|]. destruct Hd as (_ & _ & Hj & _). rewrite <- (fields_text facts Hwf id) in Hj by done.
    fold fields in Hj. rewrite Hfs in Hj. done.
Qed.

End cycle.

(** ** Capping *)

(** The group of a block of changes. *)
Definition blockGroup (b : list Change) : string := match b with x :: _ => Group x | [] => "" end.

(** Blocks of at most four changes: a single change without a group, or a whole group
    whose name is not that of the next block. *)
Fixpoint wholeBlocks (blocks : list (list Change)) : Prop :=
  match blocks with
  | [] => True
  | b :: rest =>
      b ≠ [] ∧ (length b ≤ 4)%nat ∧ Forall (λ x, Group x = blockGroup b) b ∧ (blockGroup b = "" → length b = 1%nat) ∧
      (blockGroup b ≠ "" → match rest with b' :: _ => blockGroup b' ≠ blockGroup b | [] => True end) ∧ wholeBlocks rest
  end.

Lemma takeGroups_blocks blocks fuel limit selected : wholeBlocks blocks → 4 ≤ limit → (length (mjoin blocks) ≤ fuel)%nat → Z.of_nat (length selected) ≤ limit →
  ∃ k deferred, takeGroupsLoop fuel (mjoin blocks) limit selected = inl (selected ++ mjoin (take k blocks), deferred) ∧
    Z.of_nat (length (selected ++ mjoin (take k blocks))) ≤ limit ∧
    (take k blocks = blocks ∨ limit - 4 < Z.of_nat (length (selected ++ mjoin (take k blocks)))).
Proof.
  intros Hb Hlim. revert fuel selected. induction blocks as [|b rest IH]; intros fuel selected Hfuel Hsel.
  { exists 0%nat, 0. destruct fuel; simpl; rewrite app_nil_r; by split_and!; [..|left]. }
  destruct Hb as (Hne & Hlen & Hgroup & Hsingle & Hnext & Hrest). destruct b as [|x xs]; [done|]. simpl in Hfuel. rewrite length_app in Hfuel.
  destruct fuel as [|fuel]; [lia|]. simpl mjoin. cbn [app takeGroupsLoop].
  assert (Hg : nextGroup x (xs ++ mjoin rest) = (x :: xs, mjoin rest)).
  { unfold nextGroup. case_decide as Hx; [destruct xs; [done|by specialize (Hsingle Hx)]|]. apply Forall_cons in Hgroup as [_ Hxs].
    rewrite (sameGroup_prefix (Group x) xs (mjoin rest)); [done|done|]. intros y r Ey. destruct rest as [|b' rest']; [done|].
    destruct Hrest as (Hne' & _). destruct b' as [|y' ys]; [done|]. injection Ey as <- _. by apply (Hnext Hx). }
  rewrite Hg. destruct (Z.ltb_spec limit (Z.of_nat (length (x :: xs)))); [simpl in *; lia|].
  destruct (Z.ltb_spec limit (Z.of_nat (length selected) + Z.of_nat (length (x :: xs)))).
  - exists 0%nat. eexists. simpl. rewrite app_nil_r. split_and!; [done|done|right]. simpl in *. lia.
  - destruct (IH Hrest fuel (selected ++ x :: xs)) as (k & deferred & -> & Hk & Hall); [lia|rewrite length_app; lia|].
    exists (S k), deferred. cbn [take]. simpl mjoin. change (x :: xs ++ mjoin (take k rest)) with ((x :: xs) ++ mjoin (take k rest)). rewrite app_assoc. split_and!; [done|done|].
    destruct Hall as [->|?]; [by left|by right].
Qed.

Lemma capOutput_blocks blocks : wholeBlocks blocks → ∃ k, capOutputChanges (mjoin blocks) = inl (mjoin (take k blocks)) ∧
  Z.of_nat (length (mjoin (take k blocks))) ≤ 58 ∧ (take k blocks = blocks ∨ 54 < Z.of_nat (length (mjoin (take k blocks)))).
Proof.
  intros Hb. unfold capOutputChanges, maxFailureControllerChangesPerCycle. destruct (Z.ltb_spec 58 (Z.of_nat (length (mjoin blocks)))).
  - destruct (takeGroups_blocks blocks (length (mjoin blocks)) 58 [] Hb ltac:(done) ltac:(done) ltac:(done)) as (k & deferred & E & Hk & Hall).
    unfold takeWholeGroups. rewrite E. by exists k.
  - exists (length blocks). rewrite take_ge by done. by split_and!; [..|left].
Qed.

Lemma wholeBlocks_singles (l : list Change) : Forall (λ x, Group x = "") l → wholeBlocks ((λ x, [x]) <$> l).
Proof. induction 1 as [|x l Hx _ IH]; [done|]. simpl. split_and!; [done|lia|by repeat constructor|done|done|done]. Qed.

(** The name of a treatment's group. *)
Definition treatmentGroup (t : treatment) : string :=
  match given t with Replace => "replace/" | Drain => "drain/" | Clear => "drain-clear/" end +:+ treated t.

Lemma treatmentGroup_inj t t' : treatmentGroup t = treatmentGroup t' → treated t = treated t'.
Proof.
  unfold treatmentGroup. destruct (given t), (given t'); intros E; try (by injection E); by apply (inj (String.append _)) in E.
Qed.

Lemma treatmentGroup_nonempty t : treatmentGroup t ≠ "".
Proof. unfold treatmentGroup. by destruct (given t). Qed.

Lemma treatmentChanges_group now t : Forall (λ x, Group x = treatmentGroup t) (treatmentChanges now t) ∧ treatmentChanges now t ≠ [] ∧ (length (treatmentChanges now t) ≤ 4)%nat.
Proof. unfold treatmentChanges, treatmentGroup. destruct (given t); (split_and!; [by repeat constructor|done|simpl; lia]). Qed.

Lemma blockGroup_treatment now t : blockGroup (treatmentChanges now t) = treatmentGroup t.
Proof. destruct (treatmentChanges_group now t) as (Hg & Hne & _). destruct (treatmentChanges now t); [done|]. by apply Forall_cons in Hg as [? _]. Qed.

Lemma wholeBlocks_treatments now ts singles : NoDup (treated <$> ts) → Forall (λ x, Group x = "") singles →
  wholeBlocks ((treatmentChanges now <$> ts) ++ ((λ x, [x]) <$> singles)).
Proof.
  intros Hnd Hs. induction ts as [|t ts IH]; [by apply wholeBlocks_singles|]. rewrite fmap_cons in Hnd. apply NoDup_cons in Hnd as [Hout Hnd].
  destruct (treatmentChanges_group now t) as (Hg & Hne & Hl). cbn [fmap list_fmap app wholeBlocks]. rewrite blockGroup_treatment.
  split_and!; [done|done|done|intros E; by apply treatmentGroup_nonempty in E| |by apply IH]. intros _. destruct ts as [|t' ts].
  - simpl. destruct singles as [|x singles]; [done|]. simpl. apply Forall_cons in Hs as [-> _]. intros E. symmetry in E. by apply treatmentGroup_nonempty in E.
  - simpl. rewrite blockGroup_treatment. intros E. apply Hout. apply treatmentGroup_inj in E. rewrite <- E. rewrite fmap_cons. left.
Qed.

(** ** The result *)

Section result.
Context `{GoMapRange} (c : FailureController) (now : Z).

(** C26: A cycle returns at most 58 changes: treatments of instances, each of them whole, and
    changes to crash-loop counters. An instance is treated at most once and only with what
    is due: it is replaced when it failed and its service need not wait, when its start
    failed, or when it was drained long enough; it is drained when it runs but is not
    live, and the drain is taken back when it is. A replacement belongs to the same service
    and has an identifier of its own. What is due is done unless its limit is reached or
    the cycle is full. *)
Theorem failures_treated facts : facts_wf facts → ∃ treatments others,
  let out := (treatments ≫= treatmentChanges now) ++ others in
  fst (FailureController_Reconcile c now facts) = inl out ∧ Z.of_nat (length out) ≤ 58 ∧ NoDup (treated <$> treatments) ∧
  (∀ t, t ∈ treatments → due c now facts (treated t) (given t) ∧ treatedService t = fieldText facts (treated t) "service") ∧
  (∀ r, 0 ≤ limitOf c r → givenTimes r treatments ≤ limitOf c r) ∧
  (∃ n, created <$> filter (λ t, given t = Replace) treatments = FailureNewID c <$> seq (FailureDrawn c) n) ∧
  (∀ x, x ∈ others → HasPrefix (ChangeKey x) ScanDerivedCrashLoops = true) ∧
  (∀ id r, due c now facts id r → id ∈ treated <$> treatments ∨ limitOf c r ≤ givenTimes r treatments ∨ 54 < Z.of_nat (length out)).
Proof.
  intros Hwf. unfold FailureController_Reconcile.
  pose proof (loop_treated c now facts Hwf (sortedMapKeys (parseInstanceFieldsFromFacts facts)) (sortedMapKeys_nodup _) (λ id, proj1 (sortedMapKeys_elem _ id))) as Hloop.
  destruct (foldl _ _ _) as [[changes counters] failed]. destruct Hloop as [ts [S1 S2 S3 S4 S5 S6 S7 S8]].
  set (puts := _ <$> map_range (replacedServices counters)). set (resets := map_range (parseCrashLoopCounters facts) ≫= _).
  assert (Hkeys : ∀ x, x ∈ puts ++ resets → HasPrefix (ChangeKey x) ScanDerivedCrashLoops = true ∧ Group x = "").
  { intros x [([s n] & -> & _)%list_elem_of_fmap|([s n] & Hx & _)%list_elem_of_bind]%elem_of_app; [split; [exact (HasPrefix_app ScanDerivedCrashLoops s)|done]|].
    destruct (flagOf failed s); [by apply elem_of_nil in Hx|]. apply list_elem_of_singleton in Hx as ->. split; [exact (HasPrefix_app ScanDerivedCrashLoops s)|done]. }
  assert (Hblocks : wholeBlocks ((treatmentChanges now <$> ts) ++ ((λ x, [x]) <$> (puts ++ resets)))) by (apply wholeBlocks_treatments; [done|]; apply Forall_forall; intros x Hx; by apply Hkeys).
  assert (Hjoin : ∀ l : list Change, mjoin ((λ x, [x]) <$> l) = l) by (induction l as [|x l IH]; [done|]; simpl; by f_equal).
  assert (Hbind : ∀ l, mjoin (treatmentChanges now <$> l) = l ≫= treatmentChanges now) by (induction l as [|t l IH]; [done|]; simpl; by f_equal).
  destruct (capOutput_blocks _ Hblocks) as (k & Hcap & Hlen & Hall). rewrite join_app, Hbind, Hjoin in Hcap. simpl. rewrite <- app_assoc, S1, Hcap.
  rewrite take_app, length_fmap, <- !fmap_take, join_app, Hbind, Hjoin in *. exists (take k ts), (take (k - length ts) (puts ++ resets)).
  split_and!; [done|done| | | | | |].
  - rewrite fmap_take. eapply submseteq_nodup; [apply submseteq_take|done].
  - intros t Ht%elem_of_take_in. by destruct (S2 t Ht) as (_ & ? & ?).
  - intros r Hr. specialize (S5 r Hr). unfold givenTimes in *. rewrite <- (take_drop k ts), filter_app, length_app in S5. lia.
  - exists (length (filter (λ t, given t = Replace) (take k ts))). rewrite <- (take_drop k ts), filter_app, fmap_app in S6.
    pose proof (f_equal length S6) as Hsize. rewrite length_app, !length_fmap, length_seq in Hsize. apply (f_equal (take (length (filter (λ t, given t = Replace) (take k ts))))) in S6.
    rewrite take_app_length' in S6 by (by rewrite length_fmap). rewrite S6, <- fmap_take. f_equal. rewrite take_seq. f_equal. lia.
  - intros x Hx%elem_of_take_in. by apply Hkeys.
  - intros id r Hd. assert (Hin : id ∈ sortedMapKeys (parseInstanceFieldsFromFacts facts)).
    { apply sortedMapKeys_elem, (instanceFields_dom facts Hwf); [apply Hd|]. destruct Hd as (_ & Hs & _). exists "service". unfold fieldText in Hs.
      destruct (fieldIn facts id "service") as [v|]; [by exists v|done]. }
    destruct Hall as [Hall|Hfull]; [|by right; right].
    apply (f_equal length) in Hall. rewrite !length_app, !length_fmap, !length_take in Hall. rewrite (take_ge ts) by lia. destruct (S8 id r Hin Hd) as [?|?]; [by left|by right; left].
Qed.

End result.

(** ** Concrete cycles *)

#[local] Existing Instance reference_range.

Definition drawnID (n : nat) : string := "new-" +:+ Itoa (Z.of_nat n).

(** An instance failed, another is not live, a third is live again. *)
Definition crashFacts : list Fact :=
  [endpointFact "derived/instance/c/drain_since" "1000000";
   endpointFact "observed/instance/a/service" "web"; endpointFact "observed/instance/a/state" "failed";
   endpointFact "observed/instance/b/probe/liveness" "unhealthy"; endpointFact "observed/instance/b/service" "web"; endpointFact "observed/instance/b/state" "running";
   endpointFact "observed/instance/c/probe/liveness" "healthy"; endpointFact "observed/instance/c/service" "web"; endpointFact "observed/instance/c/state" "running"].

Lemma crash_cycle : fst (FailureController_Reconcile (NewFailureController drawnID) (UnixMilli 1000000) crashFacts) =
  inl (replaceChanges "a" "web" "new-0" ++ beginDrain (UnixMilli 1000000) "b" ++ clearDrainState "c" ++
       [mkChange OpPut (KeyDerivedCrashLoopCounter "web") (marshalCounter (mkCounter 1 1000000)) ""]).
Proof. vm_compute. reflexivity. Qed.

Lemma failures_treated_witness : ∃ treatments others,
  fst (FailureController_Reconcile (NewFailureController drawnID) (UnixMilli 1000000) crashFacts) = inl ((treatments ≫= treatmentChanges (UnixMilli 1000000)) ++ others) ∧
  givenTimes Replace treatments ≤ 14 ∧ (∀ t, t ∈ treatments → due (NewFailureController drawnID) (UnixMilli 1000000) crashFacts (treated t) (given t)).
Proof.
  destruct (failures_treated (NewFailureController drawnID) (UnixMilli 1000000) crashFacts) as (treatments & others & Hout & _ & _ & Hdue & Hlimit & _);
    [apply sorted_facts_wf; vm_compute; reflexivity|].
  exists treatments, others. split_and!; [exact Hout|by apply (Hlimit Replace)|]. intros t Ht. by destruct (Hdue t Ht).
Defined.

(** The cycle after a replacement: the failed instance counts as stopped, no instance of
    the service is failed, and the counter just written is deleted. *)
Definition replacedFacts : list Fact :=
  [endpointFact "derived/crash-loop/web" (marshalCounter (mkCounter 1 1000000)); endpointFact "derived/instance/a/controller_stopped" "true";
   endpointFact "observed/instance/a/service" "web"; endpointFact "observed/instance/a/state" "failed";
   endpointFact "observed/instance/new-0/service" "web"; endpointFact "observed/instance/new-0/state" "pending"].

Lemma crash_loop_forgotten : fst (FailureController_Reconcile (NewFailureController drawnID) (UnixMilli 1001000) replacedFacts) = inl [counterReset "web"].
Proof. vm_compute. reflexivity. Qed.

(** A start that fails while the service has a counter: the counter is both written and
    deleted, and the runner refuses the changes of the cycle as a whole. *)
Definition startFacts : list Fact :=
  [endpointFact "derived/crash-loop/web" (marshalCounter (mkCounter 1 1000000)); endpointFact "observed/instance/b/probe/startup" "failed";
   endpointFact "observed/instance/b/service" "web"; endpointFact "observed/instance/b/state" "running"].

Lemma startup_failure_blocks_cycle : ∃ changes, fst (FailureController_Reconcile (NewFailureController drawnID) (UnixMilli 1001000) startFacts) = inl changes ∧
  validateAndCapChanges changes = inr (DuplicateKeyError "derived/crash-loop/web").
Proof. eexists. split; vm_compute; reflexivity. Qed.
