(* ===== verification/NetworkController.v ===== *)
(** * The network controller (src/controllers/network.go)

    It gives every service that exposes a port a virtual address and a name that stands for
    it, and takes both away when the service is gone. Octets and ports are printed as the
    integers they are. Log output is left out, and so is the constructor that takes the
    first three octets from a command-line flag. *)

From S2P Require Import Prelude GoStrings GoFmt Trie EventHistory MemoryStore StoreInvariant StoreProps StateStore PrefixSearch Keys KeyNames KeyPatterns Heap NodeHeap.
From S2P Require Import SchedulerFacts Placement Runner RunnerProps ControllerHelpers InstanceController InstanceEffects IntentResolver EndpointController.

Local Open Scope Z_scope.

Record NetworkController := mkNetworkController { vipBaseFirstOctet : Z; vipBaseSecondOctet : Z; vipBaseThirdOctet : Z }.

Definition NewNetworkController : NetworkController := mkNetworkController 10 200 0.

Definition NetworkController_Watch : list string := [ScanDesiredServices; ScanNetworkVIPs; ScanNetworkDNS].

(** ** Reading the facts *)

Definition addVIPAllocation (allocations : gmap string string * gmap string string) (f : Fact) : gmap string string * gmap string string :=
  let '(existingVIPs, existingVIPPorts) := allocations in
  match Split slash (TrimPrefix (Key f) ScanNetworkVIPs) with
  | [service] => (<[service := Value f]> existingVIPs, existingVIPPorts)
  | [service; port] => if bool_decide (port = "port") then (existingVIPs, <[service := Value f]> existingVIPPorts) else allocations
  | _ => allocations
  end.

Definition collectExistingVIPAllocations (facts : list Fact) : gmap string string * gmap string string :=
  foldl addVIPAllocation (∅, ∅) (FactsWithPrefix facts ScanNetworkVIPs).

Definition controllerOwnedDNSSubPrefixes : list string := [ScanNetworkDNSHostnames; ScanNetworkDNSInstances].

Definition isControllerOwnedDNSKey (factKey : string) : bool := existsb (HasPrefix factKey) controllerOwnedDNSSubPrefixes.

Definition collectExistingDNSMappings (facts : list Fact) : gmap string string :=
  foldl (λ existingDNS f,
    if isControllerOwnedDNSKey (Key f) then existingDNS else <[TrimPrefix (Key f) ScanNetworkDNS := Value f]> existingDNS)
    ∅ (FactsWithPrefix facts ScanNetworkDNS).

(** The service a fact of a service is about. *)
Definition definedServiceOf (relativePath : string) : option string :=
  let serviceName := List.hd "" (SplitN slash 2 relativePath) in
  if bool_decide (serviceName = "") then None else Some serviceName.

Definition collectDefinedServiceNamesFromFacts (facts : list Fact) : gmap string bool :=
  foldl (λ definedServiceNames f,
    match definedServiceOf (TrimPrefix (Key f) ScanDesiredServices) with
    | Some serviceName => <[serviceName := true]> definedServiceNames
    | None => definedServiceNames
    end) ∅ (FactsWithPrefix facts ScanDesiredServices).

(** ** Allocation *)

Definition dot : ascii := ascii_of_nat 46.

Definition nextOctetAfter (nextVIPFourthOctet : Z) (vipAddress : string) : Z :=
  match Split dot vipAddress with
  | [_; _; _; fourth] =>
      let fourthOctet := fst (Atoi fourth) in
      if nextVIPFourthOctet <=? fourthOctet then (fourthOctet +! 1)%go else nextVIPFourthOctet
  | _ => nextVIPFourthOctet
  end.

Section reconcile.
Context `{GoMapRange} (networkController : NetworkController).

Definition determineNextVIPFourthOctet (existingVIPs : gmap string string) : Z :=
  foldl (λ next '(_, vipAddress), nextOctetAfter next vipAddress) 1 (map_range existingVIPs).

(** The address with a given fourth octet. *)
Definition vipAddressOf (fourthOctet : Z) : string :=
  Itoa (vipBaseFirstOctet networkController) +:+ "." +:+ Itoa (vipBaseSecondOctet networkController) +:+ "." +:+
  Itoa (vipBaseThirdOctet networkController) +:+ "." +:+ Itoa fourthOctet.

Definition createVIP (serviceName vipAddress : string) (exposedPort : Z) : list Change :=
  groupedChanges ("vip-create/" +:+ serviceName)
    [mkChange OpPut (KeyNetworkVIPService serviceName) vipAddress ""; mkChange OpPut (KeyNetworkVIPServicePort serviceName) (Itoa exposedPort) "";
     mkChange OpPut (KeyNetworkDNS serviceName) vipAddress ""].

(** The body of the loop over the services with exposed ports: the changes and the next
    fourth octet. *)
Definition allocateVIP (servicePorts : gmap string (list Z)) (existingVIPs : gmap string string) (state : list Change * Z) (serviceName : string)
    : list Change * Z :=
  let '(changes, nextVIPFourthOctet) := state in
  let exposedPort := List.hd 0 (default [] (servicePorts !! serviceName)) in
  match existingVIPs !! serviceName with
  | Some _ => state
  | None => (changes ++ createVIP serviceName (vipAddressOf nextVIPFourthOctet) exposedPort, (nextVIPFourthOctet +! 1)%go)
  end.

(** ** Removal *)

Definition removeVIP (existingDNS : gmap string string) (serviceName : string) : list Change :=
  groupedChanges ("vip-remove/" +:+ serviceName)
    [mkChange OpDelete (KeyNetworkVIPService serviceName) "" ""; mkChange OpDelete (KeyNetworkVIPServicePort serviceName) "" ""] ++
  (if bool_decide (fieldOf existingDNS serviceName = "") then []
   else [mkChange OpDelete (KeyNetworkDNS serviceName) "" ("vip-remove/" +:+ serviceName)]).

Definition buildStaleVIPAndDNSRemovalChanges (existingVIPs existingDNS : gmap string string) (definedServiceNames : gmap string bool) : list Change :=
  (sortedMapKeys existingVIPs ≫= λ serviceName, if flagOf definedServiceNames serviceName then [] else removeVIP existingDNS serviceName) ++
  (sortedMapKeys existingDNS ≫= λ serviceName,
     if negb (flagOf definedServiceNames serviceName) && bool_decide (fieldOf existingVIPs serviceName = "")
     then [mkChange OpDelete (KeyNetworkDNS serviceName) "" ""] else []).

(** ** The cycle *)

Definition NetworkController_Reconcile (facts : list Fact) : list Change :=
  let servicePorts := extractServiceExposedPorts facts in
  let definedServiceNames := collectDefinedServiceNamesFromFacts facts in
  let existingVIPs := fst (collectExistingVIPAllocations facts) in
  let existingDNS := collectExistingDNSMappings facts in
  let created := foldl (allocateVIP servicePorts existingVIPs) ([], determineNextVIPFourthOctet existingVIPs) (sortedMapKeys servicePorts) in
  fst created ++ buildStaleVIPAndDNSRemovalChanges existingVIPs existingDNS definedServiceNames.

End reconcile.

(** ** What should exist *)

Definition vipOf (facts : list Fact) (s : string) : option string := values_of facts !! KeyNetworkVIPService s.
Definition dnsOf (facts : list Fact) (path : string) : option string := values_of facts !! KeyNetworkDNS path.

Definition definedService (facts : list Fact) (s : string) : Prop :=
  ∃ path, is_Some (values_of facts !! (ScanDesiredServices +:+ path)) ∧ definedServiceOf path = Some s.

(** The addresses in use are distinct and of the controller's form, with fourth octets up
    to [bound]; names stand for something. *)
Record numbered (c : NetworkController) (facts : list Fact) (bound : Z) : Prop := {
  numbered_form : ∀ s v, noSlash s → vipOf facts s = Some v → ∃ n, 1 ≤ n ≤ bound ∧ v = vipAddressOf c n;
  numbered_apart : ∀ s s' v, noSlash s → noSlash s' → vipOf facts s = Some v → vipOf facts s' = Some v → s = s';
  numbered_names : ∀ path, isControllerOwnedDNSKey (KeyNetworkDNS path) = false → dnsOf facts path ≠ Some "" }.

(** ** What is read *)

(** A loop over the facts under a prefix that keeps some of the keys. *)
Lemma keptByPath (keep : string → bool) facts prefix path : facts_wf facts → prefix ≠ "" →
  foldl (λ (m : gmap string string) f, if keep (Key f) then <[TrimPrefix (Key f) prefix := Value f]> m else m) ∅ (FactsWithPrefix facts prefix) !! path =
  if keep (prefix +:+ path) then values_of facts !! (prefix +:+ path) else None.
Proof.
  intros Hwf Hp. rewrite <- valuesByPath_lookup by done. unfold valuesByPath.
  assert (Hpre : ∀ f, f ∈ FactsWithPrefix facts prefix → HasPrefix (Key f) prefix = true).
  { destruct Hwf as [Hs _]. intros f Hf. rewrite FactsWithPrefix_filter in Hf by done. by apply list_elem_of_filter in Hf as [? _]. }
  induction (FactsWithPrefix facts prefix) as [|f l IH] using rev_ind; [simpl; by destruct (keep _)|]. rewrite !foldl_app. simpl.
  assert (HP : HasPrefix (Key f) prefix = true) by (apply Hpre, elem_of_app; right; left). apply HasPrefix_spec in HP as [r Hr]. rewrite Hr, TrimPrefix_app.
  assert (IH' := IH (λ g Hg, Hpre g (proj2 (elem_of_app l _ _) (or_introl Hg)))). clear IH. destruct (decide (r = path)) as [->|Hne].
  - destruct (keep (prefix +:+ path)); [by rewrite !lookup_insert_eq|done].
  - rewrite (lookup_insert_ne _ r path) by done. destruct (keep (prefix +:+ r)); [by rewrite lookup_insert_ne|done].
Qed.

Lemma Split_single s : match Split slash s with [_] => True | _ => False end ↔ noSlash s.
Proof.
  split; [|intros Hs; by rewrite Split_free]. destruct (Split_Join slash s) as [HJ HF]. destruct (Split slash s) as [|x [|y l]]; [done| |done].
  simpl in HJ. subst s. by apply Forall_cons in HF as [? _].
Qed.

Lemma existingVIPs_lookup facts s : facts_wf facts →
  fst (collectExistingVIPAllocations facts) !! s = if ContainsByte s slash then None else vipOf facts s.
Proof.
  intros Hwf. pose proof (keptByPath (λ k, negb (ContainsByte (TrimPrefix k ScanNetworkVIPs) slash)) facts ScanNetworkVIPs s Hwf ltac:(done)) as Hk.
  cbv beta in Hk. rewrite TrimPrefix_app in Hk. unfold vipOf. change (KeyNetworkVIPService s) with (ScanNetworkVIPs +:+ s).
  transitivity (if negb (ContainsByte s slash) then values_of facts !! (ScanNetworkVIPs +:+ s) else None); [|by destruct (ContainsByte s slash)]. rewrite <- Hk. clear Hk.
  f_equal. unfold collectExistingVIPAllocations. induction (FactsWithPrefix facts ScanNetworkVIPs) as [|f l IH] using rev_ind; [done|]. rewrite !foldl_app, <- IH. simpl.
  destruct (foldl addVIPAllocation (∅, ∅) l) as [vips ports]. unfold addVIPAllocation. pose proof (Split_single (TrimPrefix (Key f) ScanNetworkVIPs)) as Hone.
  destruct (Split_Join slash (TrimPrefix (Key f) ScanNetworkVIPs)) as [HJ _]. unfold noSlash in Hone. destruct (ContainsByte (TrimPrefix (Key f) ScanNetworkVIPs) slash).
  - destruct (Split slash _) as [|x [|y [|z r]]]; [done|discriminate (proj1 Hone I)|by case_bool_decide|done].
  - destruct (Split slash _) as [|x [|y r]]; [by destruct (proj2 Hone eq_refl)|by simpl in HJ; subst x|by destruct (proj2 Hone eq_refl)].
Qed.

Lemma existingDNS_lookup facts path : facts_wf facts →
  collectExistingDNSMappings facts !! path = if isControllerOwnedDNSKey (KeyNetworkDNS path) then None else dnsOf facts path.
Proof.
  intros Hwf. pose proof (keptByPath (λ k, negb (isControllerOwnedDNSKey k)) facts ScanNetworkDNS path Hwf ltac:(done)) as Hk. cbv beta in Hk.
  unfold dnsOf. change (KeyNetworkDNS path) with (ScanNetworkDNS +:+ path).
  transitivity (if negb (isControllerOwnedDNSKey (ScanNetworkDNS +:+ path)) then values_of facts !! (ScanNetworkDNS +:+ path) else None); [|by destruct (isControllerOwnedDNSKey _)].
  rewrite <- Hk. clear Hk. f_equal. unfold collectExistingDNSMappings. induction (FactsWithPrefix facts ScanNetworkDNS) as [|f l IH] using rev_ind; [done|]. rewrite !foldl_app, <- IH. simpl. by destruct (isControllerOwnedDNSKey (Key f)).
Qed.

Lemma defined_flag facts s : facts_wf facts → flagOf (collectDefinedServiceNamesFromFacts facts) s = true ↔ definedService facts s.
Proof. intros Hwf. by apply (flags_by_path definedServiceOf). Qed.

Lemma exposed_path path s port : exposedPortOf path = Some (s, port) → noSlash s ∧ (s ≠ "" → definedServiceOf path = Some s).
Proof.
  unfold exposedPortOf, definedServiceOf. destruct (Split_Join slash path) as [HJ HF]. destruct (Split slash path) as [|x [|y [|z r]]]; try done.
  case_bool_decide; [|done]. case_bool_decide; [done|]. cbv zeta. destruct (0 <? _); [|done]. intros [= -> _]. apply Forall_cons in HF as [Hx _]. split; [done|]. intros Hne.
  change (Join slash (s :: y :: z :: r)) with (s +:+ String slash (Join slash (y :: z :: r))) in HJ. rewrite <- HJ, SplitN_2, Cut_app by done. simpl. by rewrite bool_decide_eq_false_2.
Qed.

Lemma exposes_named facts s port : exposes facts s port → noSlash s ∧ (s ≠ "" → definedService facts s).
Proof. intros (path & Hv & He). destruct (exposed_path path s port He) as [Hs Hd]. split; [done|]. intros Hne. exists path. split; [done|by apply Hd]. Qed.

Lemma exposedPorts_nonempty facts s : is_Some (extractServiceExposedPorts facts !! s) → ∃ port rest, extractServiceExposedPorts facts !! s = Some (port :: rest).
Proof.
  unfold extractServiceExposedPorts. induction (FactsWithPrefix facts ScanDesiredServices) as [|f l IH] using rev_ind; [by intros [? ?]|]. rewrite foldl_app. simpl. unfold addExposedPort.
  destruct (exposedPortOf _) as [[s' p]|]; [|done]. case_bool_decide; [done|]. destruct (decide (s' = s)) as [->|Hne]; [|by rewrite lookup_insert_ne].
  rewrite lookup_insert_eq. intros _. destruct (default [] (_ !! s)) as [|q rest]; simpl; by eexists _, _.
Qed.

(** A service is in the map exactly if it exposes a port, and its first port is one. *)
Lemma exposed_lookup facts s : facts_wf facts → is_Some (extractServiceExposedPorts facts !! s) ↔ ∃ port, exposes facts s port.
Proof.
  intros Hwf. setoid_rewrite <- exposedPorts_elem; [|done]. split.
  - intros (port & rest & ->)%exposedPorts_nonempty. exists port. simpl. left.
  - intros [port Hp]. destruct (extractServiceExposedPorts facts !! s); [by eexists|by apply elem_of_nil in Hp].
Qed.

Definition firstPort (facts : list Fact) (s : string) : Z := List.hd 0 (default [] (extractServiceExposedPorts facts !! s)).

Lemma firstPort_exposes facts s : facts_wf facts → is_Some (extractServiceExposedPorts facts !! s) → exposes facts s (firstPort facts s).
Proof. intros Hwf (port & rest & E)%exposedPorts_nonempty. apply exposedPorts_elem; [done|]. unfold firstPort. rewrite E. left. Qed.

(** ** Addresses *)

Lemma vipAddress_parts c n : Split dot (vipAddressOf c n) = [Itoa (vipBaseFirstOctet c); Itoa (vipBaseSecondOctet c); Itoa (vipBaseThirdOctet c); Itoa n].
Proof.
  assert (Hd : ∀ z, ContainsByte (Itoa z) dot = false) by (intros z; by apply Itoa_ContainsByte). unfold vipAddressOf.
  assert (Hc : ∀ x, "." +:+ x = String dot x) by done. rewrite !Hc, !Split_part, Split_free by apply Hd. done.
Qed.

#[export] Instance vipAddress_inj c : Inj (=) (=) (vipAddressOf c).
Proof. intros n m E. apply (f_equal (Split dot)) in E. rewrite !vipAddress_parts in E. injection E as E. by apply (inj Itoa). Qed.

Lemma vipAddress_nonempty c n : vipAddressOf c n ≠ "".
Proof. intros E. apply (f_equal (Split dot)) in E. by rewrite vipAddress_parts in E. Qed.

(** The next fourth octet is above all that are in use. *)
Lemma next_above `{GoMapRange} c bound (l : list (string * string)) : 1 ≤ bound + 1 ≤ int64_max →
  (∀ s v, (s, v) ∈ l → ∃ n, 1 ≤ n ≤ bound ∧ v = vipAddressOf c n) →
  let next := foldl (λ next '(_, vipAddress), nextOctetAfter next vipAddress) 1 l in
  1 ≤ next ≤ bound + 1 ∧ ∀ s n, (s, vipAddressOf c n) ∈ l → n < next.
Proof.
  intros Hb. induction l as [|[s v] l IH] using rev_ind; intros Hl; [simpl; split; [lia|set_solver]|].
  rewrite foldl_app. simpl. destruct (IH (λ s' v' Hin, Hl s' v' (proj2 (elem_of_app l _ _) (or_introl Hin)))) as [Hr Hlt]. clear IH.
  destruct (Hl s v) as (n & Hn & ->); [apply elem_of_app; right; left|]. set (next := foldl _ 1 l) in *. unfold nextOctetAfter. rewrite vipAddress_parts, Atoi_Itoa by (unfold in_int64, int64_min, int64_max in *; lia).
  simpl. rewrite wrap64_id by (unfold in_int64, int64_min, int64_max in *; lia). assert (Hall : ∀ s' n', (s', vipAddressOf c n') ∈ l ++ [(s, vipAddressOf c n)] → n' < next ∨ n' = n).
  { intros s' n' [Hin|Hin%list_elem_of_singleton]%elem_of_app; [left; by apply (Hlt s')|right]. apply pair_equal_spec in Hin as [_ Hin]. by apply (inj (vipAddressOf c)). }
  destruct (Z.leb_spec next n); (split; [lia|]); intros s' n' Hin; destruct (Hall s' n' Hin); lia.
Qed.

(** ** The services that get an address *)

Section allocation.
Context `{GoMapRange} (c : NetworkController) (servicePorts : gmap string (list Z)) (existingVIPs : gmap string string).

Definition unserved (names : list string) : list string := filter (λ s, existingVIPs !! s = None) names.

Lemma allocate_loop names next : 0 ≤ next → next + Z.of_nat (length names) ≤ int64_max →
  foldl (allocateVIP c servicePorts existingVIPs) ([], next) names =
  (mjoin (imap (λ i s, createVIP s (vipAddressOf c (next + Z.of_nat i)) (List.hd 0 (default [] (servicePorts !! s)))) (unserved names)),
   next + Z.of_nat (length (unserved names))).
Proof.
  intros Hn. induction names as [|s names IH] using rev_ind; intros Hb; [simpl; by rewrite Z.add_0_r|].
  rewrite length_app in Hb. simpl in Hb. rewrite foldl_app, IH by lia. unfold unserved. rewrite filter_app, filter_cons, filter_nil. simpl.
  assert (Hle : (length (filter (λ s, existingVIPs !! s = None) names) ≤ length names)%nat) by apply length_filter.
  destruct (existingVIPs !! s) as [v|]; simpl; [by rewrite app_nil_r|]. rewrite imap_app, join_app, length_app. simpl. f_equal; [by rewrite Nat.add_0_r|].
  rewrite wrap64_id by (unfold in_int64, int64_min, int64_max in *; lia). lia.
Qed.

End allocation.

(** ** Keys *)

Definition serviceKeys (s : string) : list string := [KeyNetworkVIPService s; KeyNetworkVIPServicePort s; KeyNetworkDNS s].

Lemma portKey_not_vip s s' : noSlash s' → KeyNetworkVIPServicePort s ≠ KeyNetworkVIPService s'.
Proof.
  intros Hs E. apply (inj (String.append (PrefixNetwork +:+ "/vip/service/"))) in E. rewrite <- E in Hs. unfold noSlash in Hs. rewrite !ContainsByte_app in Hs.
  by rewrite orb_true_r in Hs.
Qed.

Lemma dnsKey_not_vip path rest : KeyNetworkDNS path ≠ PrefixNetwork +:+ "/vip/service/" +:+ rest.
Proof. done. Qed.

Lemma portKey_inj s s' : KeyNetworkVIPServicePort s = KeyNetworkVIPServicePort s' → s = s'.
Proof.
  intros E. apply (inj (String.append (PrefixNetwork +:+ "/vip/service/"))) in E. apply (f_equal (λ x, dropEnd (String.length "/port") x)) in E. by rewrite !dropEnd_app in E.
Qed.

#[export] Instance vipKey_inj : Inj (=) (=) KeyNetworkVIPService.
Proof. intros s s' E. by apply (inj (String.append (PrefixNetwork +:+ "/vip/service/"))) in E. Qed.

#[export] Instance dnsKey_inj : Inj (=) (=) KeyNetworkDNS.
Proof. intros s s' E. by apply (inj (String.append (PrefixNetwork +:+ "/dns/"))) in E. Qed.

Lemma elem_of_serviceKeys k s : k ∈ serviceKeys s ↔ k = KeyNetworkVIPService s ∨ k = KeyNetworkVIPServicePort s ∨ k = KeyNetworkDNS s.
Proof. unfold serviceKeys. rewrite !elem_of_cons, elem_of_nil. tauto. Qed.

(** A key belongs to one service. *)
Lemma serviceKeys_apart k s s' : noSlash s → noSlash s' → k ∈ serviceKeys s → k ∈ serviceKeys s' → s = s'.
Proof.
  rewrite !elem_of_serviceKeys. intros Hs Hs' [-> |[-> | ->]] [E|[E|E]]; try (by apply (inj KeyNetworkVIPService) in E); try (by apply (inj KeyNetworkDNS) in E);
    try (by apply portKey_inj in E); try (by apply portKey_not_vip in E); try (symmetry in E; by apply portKey_not_vip in E); try (by apply dnsKey_not_vip in E);
    symmetry in E; by apply dnsKey_not_vip in E.
Qed.

Lemma serviceKeys_nodup s : noSlash s → NoDup (serviceKeys s).
Proof.
  intros Hs. unfold serviceKeys. apply NoDup_cons. split; [|apply NoDup_cons; split; [|apply NoDup_singleton]].
  - intros [E|E%list_elem_of_singleton]%elem_of_cons; [symmetry in E; by apply portKey_not_vip in E|symmetry in E; by apply dnsKey_not_vip in E].
  - intros E%list_elem_of_singleton. symmetry in E. by apply dnsKey_not_vip in E.
Qed.

Lemma dnsKey_service path s : KeyNetworkDNS path ∈ serviceKeys s → path = s.
Proof. rewrite elem_of_serviceKeys. intros [E|[E|E]]; [by apply dnsKey_not_vip in E..|by apply (inj KeyNetworkDNS)]. Qed.

Lemma created_keys (g : nat → string → list Change) l : (∀ i s, ChangeKey <$> g i s = serviceKeys s) → ChangeKey <$> mjoin (imap g l) = l ≫= serviceKeys.
Proof.
  revert g. induction l as [|s l IH]; intros g Hg; [done|]. rewrite imap_cons. simpl mjoin. rewrite fmap_app, Hg, (IH (g ∘ S)) by (intros i s'; apply Hg). done.
Qed.

Lemma removed_keys existingDNS s k : k ∈ ChangeKey <$> removeVIP existingDNS s → k ∈ serviceKeys s.
Proof. unfold removeVIP. rewrite fmap_app, elem_of_serviceKeys. case_bool_decide; simpl; rewrite ?app_nil_r; set_solver. Qed.

Lemma removed_nodup existingDNS s : noSlash s → NoDup (ChangeKey <$> removeVIP existingDNS s).
Proof.
  intros Hs. pose proof (serviceKeys_nodup s Hs) as Hnd. unfold removeVIP. case_bool_decide; [|exact Hnd]. rewrite app_nil_r. simpl.
  change (serviceKeys s) with ([KeyNetworkVIPService s; KeyNetworkVIPServicePort s] ++ [KeyNetworkDNS s]) in Hnd. by apply NoDup_app in Hnd as [? _].
Qed.

(** ** One cycle *)

Section cycle.
Context `{GoMapRange} (c : NetworkController) (facts : list Fact) (Hwf : facts_wf facts) (bound : Z) (Hnum : numbered c facts bound).
Context (Hnamed : ∀ port, ¬ exposes facts "" port) (Hbound : 0 ≤ bound) (Hroom : bound + 1 + Z.of_nat (size (extractServiceExposedPorts facts)) ≤ int64_max).

Let vips := fst (collectExistingVIPAllocations facts).
Let next := determineNextVIPFourthOctet vips.
Let fresh := unserved vips (sortedMapKeys (extractServiceExposedPorts facts)).

Lemma vips_some s v : vips !! s = Some v ↔ noSlash s ∧ vipOf facts s = Some v.
Proof using Hwf. unfold vips, noSlash. rewrite existingVIPs_lookup by done. destruct (ContainsByte s slash); naive_solver. Qed.

Lemma fresh_elem s : s ∈ fresh ↔ noSlash s ∧ vipOf facts s = None ∧ ∃ port, exposes facts s port.
Proof using Hwf.
  unfold fresh, unserved. rewrite list_elem_of_filter, sortedMapKeys_elem, exposed_lookup by done. unfold vips. rewrite existingVIPs_lookup by done. unfold noSlash. split.
  - intros [Hv [port Hp]]. pose proof (proj1 (exposes_named facts s port Hp)) as Hs. unfold noSlash in Hs. rewrite Hs in Hv. by eauto.
  - intros (-> & ? & ?). done.
Qed.

Lemma fresh_nodup : NoDup fresh.
Proof. apply NoDup_filter, sortedMapKeys_nodup. Qed.

Lemma next_fresh : 1 ≤ next ≤ bound + 1 ∧ ∀ s n, noSlash s → vipOf facts s = Some (vipAddressOf c n) → n < next.
Proof using Hwf Hnum Hbound Hroom.
  destruct (next_above c bound (map_range vips)) as [Hn Habove]; [lia| |].
  - intros s v [Hs Hv]%elem_of_map_range%vips_some. by apply (numbered_form _ _ _ Hnum s).
  - split; [done|]. intros s n Hs Hv. apply (Habove s). apply elem_of_map_range, vips_some. done.
Qed.

Lemma names_length : length (sortedMapKeys (extractServiceExposedPorts facts)) = size (extractServiceExposedPorts facts).
Proof. unfold sortedMapKeys, sort_strings. rewrite sort_stable_perm, length_fmap, map_range_perm. apply length_map_to_list. Qed.

(** The changes of the cycle. *)
Lemma vipCycle_split : NetworkController_Reconcile c facts =
  mjoin (imap (λ i s, createVIP s (vipAddressOf c (next + Z.of_nat i)) (firstPort facts s)) fresh) ++
  buildStaleVIPAndDNSRemovalChanges vips (collectExistingDNSMappings facts) (collectDefinedServiceNamesFromFacts facts).
Proof using Hwf Hnum Hbound Hroom.
  unfold NetworkController_Reconcile. cbv zeta. rewrite allocate_loop; [done| |]; fold vips; fold next; destruct next_fresh as [Hn _]; [lia|]. rewrite names_length. lia.
Qed.

Definition creates (x : Change) (s : string) : Prop := ∃ i, fresh !! i = Some s ∧ x ∈ createVIP s (vipAddressOf c (next + Z.of_nat i)) (firstPort facts s).

Definition removes (x : Change) (s : string) : Prop :=
  noSlash s ∧ is_Some (vipOf facts s) ∧ ¬ definedService facts s ∧ x ∈ removeVIP (collectExistingDNSMappings facts) s.

Definition forgets (x : Change) (path : string) : Prop :=
  x = mkChange OpDelete (KeyNetworkDNS path) "" "" ∧ isControllerOwnedDNSKey (KeyNetworkDNS path) = false ∧ is_Some (dnsOf facts path) ∧
  ¬ definedService facts path ∧ vips !! path = None.

Lemma vip_nonempty s v : vips !! s = Some v → v ≠ "".
Proof using Hwf Hnum. intros [Hs (n & _ & ->)%(numbered_form _ _ _ Hnum)]%vips_some; [apply vipAddress_nonempty|done]. Qed.

Lemma vipCycle_elem x : x ∈ NetworkController_Reconcile c facts ↔ ∃ s, creates x s ∨ removes x s ∨ forgets x s.
Proof using Hwf Hnum Hbound Hroom.
  rewrite vipCycle_split, elem_of_app. unfold buildStaleVIPAndDNSRemovalChanges. rewrite elem_of_app, !list_elem_of_bind, list_elem_of_join.
  assert (Hflag : ∀ s, flagOf (collectDefinedServiceNamesFromFacts facts) s = false ↔ ¬ definedService facts s) by (intros s; rewrite <- defined_flag by done; by destruct (flagOf _ s)).
  split.
  - intros [(l & Hx & (i & s & -> & Hi)%elem_of_lookup_imap)|[(s & Hx & Hs%sortedMapKeys_elem)|(s & Hx & Hs%sortedMapKeys_elem)]]; exists s.
    + left. by exists i.
    + right. left. destruct (flagOf _ s) eqn:E; [by apply elem_of_nil in Hx|]. destruct Hs as [v [? Hv]%vips_some]. apply Hflag in E. by repeat split.
    + right. right. destruct (flagOf _ s) eqn:E; [by apply elem_of_nil in Hx|]. apply Hflag in E. simpl in Hx. case_bool_decide as Hv; [|by apply elem_of_nil in Hx].
      apply list_elem_of_singleton in Hx. rewrite existingDNS_lookup in Hs by done. destruct (isControllerOwnedDNSKey _) eqn:Eo; [by destruct Hs|].
      repeat split; try done. destruct (vips !! s) as [v|] eqn:Ev; [|done]. unfold fieldOf in Hv. rewrite Ev in Hv. by apply vip_nonempty in Ev.
  - intros (s & [(i & Hi & Hx)|[(Hs & [v Hv] & E%Hflag & Hx)|(-> & Eo & Hd & E%Hflag & Ev)]]).
    + left. eexists. split; [exact Hx|]. apply elem_of_lookup_imap. by exists i, s.
    + right. left. exists s. rewrite E. split; [done|]. apply sortedMapKeys_elem. exists v. by apply vips_some.
    + right. right. exists s. rewrite E. unfold fieldOf. rewrite Ev. simpl. split; [left|]. apply sortedMapKeys_elem. rewrite existingDNS_lookup by done. by rewrite Eo.
Qed.

Lemma creates_keys x s : creates x s → s ∈ fresh ∧ ChangeKey x ∈ serviceKeys s.
Proof. intros (i & Hi & Hx). split; [by apply list_elem_of_lookup_2 in Hi|]. by apply (list_elem_of_fmap_2 ChangeKey) in Hx. Qed.

Lemma fresh_defined s : s ∈ fresh → noSlash s ∧ vips !! s = None ∧ definedService facts s.
Proof using Hwf Hnamed.
  intros (Hs & Hv & [port Hp])%fresh_elem. split_and!; [done| |].
  - unfold vips. rewrite existingVIPs_lookup by done. unfold noSlash in Hs. by rewrite Hs.
  - apply (exposes_named facts s port Hp). intros ->. by apply (Hnamed port).
Qed.

Lemma vipCycle_nodup : NoDup (ChangeKey <$> NetworkController_Reconcile c facts).
Proof using Hwf Hnum Hbound Hroom Hnamed.
  assert (Hflag : ∀ s, definedService facts s → flagOf (collectDefinedServiceNamesFromFacts facts) s = true) by (intros s; by apply defined_flag).
  rewrite vipCycle_split, fmap_app, created_keys by done. unfold buildStaleVIPAndDNSRemovalChanges. rewrite fmap_app, !list_fmap_bind.
  assert (Hvip : ∀ s k, s ∈ sortedMapKeys vips → k ∈ (fmap ChangeKey ∘ (λ s, if flagOf (collectDefinedServiceNamesFromFacts facts) s then [] else removeVIP (collectExistingDNSMappings facts) s)) s →
    noSlash s ∧ is_Some (vips !! s) ∧ k ∈ serviceKeys s).
  { intros s k [v Hv]%sortedMapKeys_elem Hk. simpl in Hk. destruct (flagOf _ s); [by apply elem_of_nil in Hk|]. split_and!; [by apply vips_some in Hv as [? _]|by eexists|by apply removed_keys in Hk]. }
  assert (Hdns : ∀ s k, k ∈ (fmap ChangeKey ∘ (λ s, if negb (flagOf (collectDefinedServiceNamesFromFacts facts) s) && bool_decide (fieldOf vips s = "") then [mkChange OpDelete (KeyNetworkDNS s) "" ""] else [])) s →
    k = KeyNetworkDNS s ∧ flagOf (collectDefinedServiceNamesFromFacts facts) s = false ∧ vips !! s = None).
  { intros s k Hk. simpl in Hk. destruct (flagOf _ s); [by apply elem_of_nil in Hk|]. simpl in Hk. case_bool_decide as Hv; [|by apply elem_of_nil in Hk]. apply list_elem_of_singleton in Hk.
    split_and!; [done..|]. unfold fieldOf in Hv. destruct (vips !! s) eqn:Ev; [|done]. by apply vip_nonempty in Ev. }
  apply NoDup_app. split_and!; [| |apply NoDup_app; split_and!].
  - apply NoDup_bind; [|intros s Hs; by apply serviceKeys_nodup, fresh_defined|apply fresh_nodup]. intros s s' k [Hs _]%fresh_defined [Hs' _]%fresh_defined. by apply serviceKeys_apart.
  - intros k (s & Hk & (Hs & Hv & Hd)%fresh_defined)%list_elem_of_bind [(s' & Hk' & Hs')%list_elem_of_bind|(s' & Hk' & _)%list_elem_of_bind]%elem_of_app.
    + destruct (Hvip s' k Hs' Hk') as (Hn & [v Hv'] & Hk''). rewrite (serviceKeys_apart k s s') in Hv by done. congruence.
    + apply Hdns in Hk' as (-> & Hf & _). apply dnsKey_service in Hk as ->. apply Hflag in Hd. congruence.
  - apply NoDup_bind; [| |apply sortedMapKeys_nodup].
    + intros s s' k Hs Hs' Hk Hk'. destruct (Hvip s k Hs Hk) as (? & _ & ?), (Hvip s' k Hs' Hk') as (? & _ & ?). by apply (serviceKeys_apart k).
    + intros s [v [Hs _]%vips_some]%sortedMapKeys_elem. simpl. destruct (flagOf _ s); [constructor|by apply removed_nodup].
  - intros k (s & Hk & Hs)%list_elem_of_bind (s' & (-> & _ & Hv')%Hdns & _)%list_elem_of_bind. destruct (Hvip s _ Hs Hk) as (_ & [v Hv] & <-%dnsKey_service). congruence.
  - apply NoDup_bind; [| |apply sortedMapKeys_nodup].
    + intros s s' k _ _ (-> & _)%Hdns (E & _)%Hdns. by apply (inj KeyNetworkDNS).
    + intros s _. simpl. destruct (_ && _); [apply NoDup_singleton|constructor].
Qed.

(** *** What a committed cycle leaves *)

Context (facts' : list Fact) (Hval : values_of facts' = applyChanges (NetworkController_Reconcile c facts) (values_of facts)).

Lemma after_elem x s : creates x s ∨ removes x s ∨ forgets x s →
  values_of facts' !! ChangeKey x = match ChangeType x with OpPut => Some (ChangeValue x) | OpDelete => None end.
Proof using Hwf Hnum Hbound Hroom Hnamed Hval. intros Hx. rewrite Hval. apply applyChanges_elem; [apply vipCycle_nodup|]. apply vipCycle_elem. by exists s. Qed.

Lemma untouched_after k : (∀ x s, creates x s ∨ removes x s ∨ forgets x s → ChangeKey x ≠ k) → values_of facts' !! k = values_of facts !! k.
Proof using Hwf Hnum Hbound Hroom Hval. intros Hno. rewrite Hval. apply applyChanges_other. intros (x & -> & (s & Hx)%vipCycle_elem)%list_elem_of_fmap. by apply (Hno x s Hx). Qed.

(** The service a change is about. *)
Lemma change_service x s : creates x s ∨ removes x s ∨ forgets x s → ChangeKey x ∈ serviceKeys s.
Proof.
  intros [Hx|[(_ & _ & _ & Hx)|(-> & _)]]; [by apply creates_keys in Hx as [_ ?]|by apply (removed_keys (collectExistingDNSMappings facts)), list_elem_of_fmap_2|].
  apply elem_of_serviceKeys. by right; right.
Qed.

Lemma after_outside k : HasPrefix k ScanNetworkVIPs = false → HasPrefix k ScanNetworkDNS = false → values_of facts' !! k = values_of facts !! k.
Proof using Hwf Hnum Hbound Hroom Hval.
  intros Hv Hd. apply untouched_after. intros x s Hx%change_service E. rewrite E in Hx. apply elem_of_serviceKeys in Hx as [-> |[-> | ->]];
    [pose proof (HasPrefix_app ScanNetworkVIPs s) as Hp|pose proof (HasPrefix_app ScanNetworkVIPs (s +:+ "/port")) as Hp|pose proof (HasPrefix_app ScanNetworkDNS s) as Hp];
    [exact (diff_true_false (eq_trans (eq_sym Hp) Hv))|exact (diff_true_false (eq_trans (eq_sym Hp) Hv))|exact (diff_true_false (eq_trans (eq_sym Hp) Hd))].
Qed.

Lemma vip_touched x s s' : noSlash s → creates x s' ∨ removes x s' ∨ forgets x s' → ChangeKey x = KeyNetworkVIPService s → s' = s ∧ (creates x s ∨ removes x s).
Proof using Hwf.
  intros Hs Hx E. pose proof (change_service x s' Hx) as Hk. rewrite E in Hk. assert (Hin : KeyNetworkVIPService s ∈ serviceKeys s) by (apply elem_of_serviceKeys; by left).
  destruct Hx as [Hx|[Hx|Hx]].
  - assert (s' = s) as ->; [|by auto]. pose proof (proj1 (creates_keys x s' Hx)) as (Hs' & _)%fresh_elem. by apply (serviceKeys_apart (KeyNetworkVIPService s)).
  - assert (s' = s) as ->; [|by auto]. destruct Hx as (Hs' & _). by apply (serviceKeys_apart (KeyNetworkVIPService s)).
  - destruct Hx as (-> & _). simpl in E. by apply dnsKey_not_vip in E.
Qed.

Lemma fresh_after i s : fresh !! i = Some s →
  vipOf facts' s = Some (vipAddressOf c (next + Z.of_nat i)) ∧ dnsOf facts' s = Some (vipAddressOf c (next + Z.of_nat i)) ∧
  values_of facts' !! KeyNetworkVIPServicePort s = Some (Itoa (firstPort facts s)).
Proof using Hwf Hnum Hbound Hroom Hnamed Hval.
  intros Hi. assert (Hput : ∀ x, x ∈ createVIP s (vipAddressOf c (next + Z.of_nat i)) (firstPort facts s) → values_of facts' !! ChangeKey x = match ChangeType x with OpPut => Some (ChangeValue x) | OpDelete => None end).
  { intros x Hx. apply (after_elem x s). left. by exists i. }
  split_and!; [apply (Hput (mkChange OpPut (KeyNetworkVIPService s) (vipAddressOf c (next + Z.of_nat i)) ("vip-create/" +:+ s))); left|
    apply (Hput (mkChange OpPut (KeyNetworkDNS s) (vipAddressOf c (next + Z.of_nat i)) ("vip-create/" +:+ s))); right; right; left|
    apply (Hput (mkChange OpPut (KeyNetworkVIPServicePort s) (Itoa (firstPort facts s)) ("vip-create/" +:+ s))); right; left].
Qed.

Lemma vip_after s v : noSlash s →
  vipOf facts' s = Some v ↔ vipOf facts s = Some v ∧ definedService facts s ∨ ∃ i, fresh !! i = Some s ∧ v = vipAddressOf c (next + Z.of_nat i).
Proof using Hwf Hnum Hbound Hroom Hnamed Hval.
  intros Hs. destruct (decide (s ∈ fresh)) as [Hf|Hf].
  - apply list_elem_of_lookup in Hf as Hi. destruct Hi as [i Hi]. destruct (fresh_after i s Hi) as (-> & _). apply fresh_elem in Hf as (_ & Hno & _). split.
    + intros [= <-]. right. by exists i.
    + intros [[? _]|(j & Hj & ->)]; [congruence|]. by rewrite (NoDup_lookup fresh i j s fresh_nodup Hi Hj).
  - destruct (vipOf facts s) as [w|] eqn:Ew; [destruct (flagOf (collectDefinedServiceNamesFromFacts facts) s) eqn:Ef|].
    + apply defined_flag in Ef; [|done]. assert (vipOf facts' s = Some w) as ->.
      { rewrite <- Ew. apply untouched_after. intros x s' Hx E. destruct (vip_touched x s s' Hs Hx E) as (_ & [[? _]%creates_keys|(_ & _ & ? & _)]); done. }
      split; [intros ?; by left|]. intros [[? _]|(i & Hi & _)]; [done|]. by apply list_elem_of_lookup_2 in Hi.
    + assert (Hd : ¬ definedService facts s) by (rewrite <- defined_flag by done; by rewrite Ef). assert (vipOf facts' s = None) as ->.
      { apply (after_elem (mkChange OpDelete (KeyNetworkVIPService s) "" ("vip-remove/" +:+ s)) s). right. left. split_and!; [done|by exists w|done|]. left. }
      split; [done|]. intros [[_ ?]|(i & Hi & _)]; [done|]. by apply list_elem_of_lookup_2 in Hi.
    + assert (vipOf facts' s = None) as ->.
      { rewrite <- Ew. apply untouched_after. intros x s' Hx E. destruct (vip_touched x s s' Hs Hx E) as (_ & [[? _]%creates_keys|(_ & [? ?] & _)]); [done|congruence]. }
      split; [done|]. intros [[? _]|(i & Hi & _)]; [done|]. by apply list_elem_of_lookup_2 in Hi.
Qed.

(** A name that has a value after the cycle had it before, or its service is new. *)
Lemma dns_after path d : dnsOf facts' path = Some d → dnsOf facts path = Some d ∧ (∀ x s, creates x s ∨ removes x s ∨ forgets x s → ChangeKey x ≠ KeyNetworkDNS path) ∨
  path ∈ fresh ∧ d ≠ "".
Proof using Hwf Hnum Hbound Hroom Hnamed Hval.
  intros Hd. destruct (decide (path ∈ fresh)) as [Hf|Hf].
  { right. split; [done|]. apply list_elem_of_lookup in Hf as [i Hi]. destruct (fresh_after i path Hi) as (_ & E & _). rewrite E in Hd. injection Hd as <-. apply vipAddress_nonempty. }
  left. assert (Hno : ∀ x s, creates x s ∨ removes x s ∨ forgets x s → ChangeKey x ≠ KeyNetworkDNS path).
  { intros x s Hx E. pose proof (change_service x s Hx) as Hk. rewrite E in Hk. apply dnsKey_service in Hk as ->. pose proof (after_elem x s Hx) as He. rewrite E in He. unfold dnsOf in Hd.
    destruct Hx as [[? _]%creates_keys|[(_ & _ & _ & Hx)|(-> & _)]]; [done| |simpl in He; congruence].
    assert (ChangeType x = OpDelete) as Et; [|rewrite Et in He; congruence]. unfold removeVIP in Hx. case_bool_decide; set_solver. }
  split; [|done]. rewrite <- Hd. symmetry. by apply untouched_after.
Qed.

Lemma after_desired path : values_of facts' !! (ScanDesiredServices +:+ path) = values_of facts !! (ScanDesiredServices +:+ path).
Proof using Hwf Hnum Hbound Hroom Hval. by apply after_outside. Qed.

Lemma exposes_after s port : exposes facts' s port ↔ exposes facts s port.
Proof using Hwf Hnum Hbound Hroom Hval. unfold exposes. by setoid_rewrite after_desired. Qed.

Lemma defined_after s : definedService facts' s ↔ definedService facts s.
Proof using Hwf Hnum Hbound Hroom Hval. unfold definedService. by setoid_rewrite after_desired. Qed.

Lemma numbered_after : numbered c facts' (bound + Z.of_nat (size (extractServiceExposedPorts facts))).
Proof using Hwf Hnum Hbound Hroom Hnamed Hval.
  destruct next_fresh as [Hn Habove].
  assert (Hlen : ∀ i s, fresh !! i = Some s → Z.of_nat i < Z.of_nat (size (extractServiceExposedPorts facts))).
  { intros i s Hi%lookup_lt_Some. pose proof (length_filter (λ s, vips !! s = None) (sortedMapKeys (extractServiceExposedPorts facts))) as Hl. rewrite names_length in Hl. unfold fresh, unserved in Hi. lia. }
  split.
  - intros s v Hs [[Hv _]|(i & Hi & ->)]%vip_after; [|exists (next + Z.of_nat i); specialize (Hlen i s Hi); split; [lia|done]|done].
    destruct (numbered_form _ _ _ Hnum s v Hs Hv) as (n & ? & ->). exists n. split; [lia|done].
  - intros s s' v Hs Hs' Hv Hv'. apply vip_after in Hv; [|done]. apply vip_after in Hv'; [|done].
    destruct Hv as [[Hv _]|(i & Hi & ->)], Hv' as [[Hv' _]|(j & Hj & E)].
    + by apply (numbered_apart _ _ _ Hnum s s' v).
    + subst v. apply Habove in Hv; [lia|done].
    + apply Habove in Hv'; [lia|done].
    + apply (inj (vipAddressOf c)) in E. assert (i = j) as -> by lia. congruence.
  - intros path Ho Hd. destruct (dns_after path "" Hd) as [[Hd' _]|[_ ?]]; [|done]. by apply (numbered_names _ _ _ Hnum path).
Qed.

End cycle.

Lemma exposedPorts_values facts facts' : facts_wf facts → facts_wf facts' → (∀ path, values_of facts' !! (ScanDesiredServices +:+ path) = values_of facts !! (ScanDesiredServices +:+ path)) →
  extractServiceExposedPorts facts' = extractServiceExposedPorts facts.
Proof.
  intros Hwf Hwf' Hsame. assert (E : keyValues facts' ScanDesiredServices = keyValues facts ScanDesiredServices).
  { apply keyValues_values; [done..|]. intros k [path ->]%HasPrefix_spec. apply Hsame. }
  assert (Hfold : ∀ l : list Fact, foldl (λ servicePorts f, addExposedPort servicePorts (TrimPrefix (Key f) ScanDesiredServices)) ∅ l =
    foldl (λ servicePorts kv, addExposedPort servicePorts (TrimPrefix (fst kv) ScanDesiredServices)) ∅ ((λ f, (Key f, Value f)) <$> l)) by (intros l; by rewrite foldl_fmap).
  unfold extractServiceExposedPorts. rewrite !Hfold. unfold keyValues in E. by rewrite E.
Qed.

Section result.
Context `{GoMapRange} (c : NetworkController).

Lemma vips_settled facts facts' bound : facts_wf facts → facts_wf facts' → numbered c facts bound → 0 ≤ bound → (∀ port, ¬ exposes facts "" port) →
  bound + 2 * (1 + Z.of_nat (size (extractServiceExposedPorts facts))) ≤ int64_max →
  values_of facts' = applyChanges (NetworkController_Reconcile c facts) (values_of facts) → NetworkController_Reconcile c facts' = [].
Proof.
  intros Hwf Hwf' Hnum Hb Hnamed Hroom Hval. assert (Hroom' : bound + 1 + Z.of_nat (size (extractServiceExposedPorts facts)) ≤ int64_max) by lia.
  pose proof (vip_after c facts Hwf bound Hnum Hnamed Hb Hroom' facts' Hval) as Hvip. pose proof (fresh_after c facts Hwf bound Hnum Hnamed Hb Hroom' facts' Hval) as Hfresh.
  pose proof (exposes_after c facts Hwf bound Hnum Hb Hroom' facts' Hval) as Hexp. pose proof (defined_after c facts Hwf bound Hnum Hb Hroom' facts' Hval) as Hdef.
  pose proof (numbered_after c facts Hwf bound Hnum Hnamed Hb Hroom' facts' Hval) as Hnum'.
  assert (Hsize : extractServiceExposedPorts facts' = extractServiceExposedPorts facts) by (apply exposedPorts_values; [done..|by apply (after_desired c facts Hwf bound)]).
  destruct (NetworkController_Reconcile c facts') as [|x l] eqn:E; [done|]. exfalso. assert (Hx : x ∈ NetworkController_Reconcile c facts') by (rewrite E; left).
  apply (vipCycle_elem c facts' Hwf' (bound + Z.of_nat (size (extractServiceExposedPorts facts)))) in Hx as (s & [Hx|[Hx|Hx]]); [| | |done|lia|rewrite Hsize; lia].
  - apply creates_keys in Hx as [(Hs & Hv & [port Hp%Hexp])%fresh_elem _]; [|done]. destruct (vipOf facts s) as [v|] eqn:Ev.
    + assert (vipOf facts' s = Some v); [|congruence]. apply Hvip; [done|]. left. split; [done|]. apply (exposes_named facts s port Hp). intros ->. by apply (Hnamed port).
    + assert (Hin : s ∈ unserved (fst (collectExistingVIPAllocations facts)) (sortedMapKeys (extractServiceExposedPorts facts))) by (apply fresh_elem; [done|by split_and!; [..|exists port]]).
      apply list_elem_of_lookup in Hin as [i Hi]. destruct (Hfresh i s Hi) as (? & _). congruence.
  - destruct Hx as (Hs & [v Hv] & Hd & _). rewrite Hdef in Hd. apply Hvip in Hv as [[_ ?]|(i & Hi & _)]; [done| |done]. apply Hd. apply list_elem_of_lookup_2 in Hi.
    by apply (fresh_defined facts Hwf Hnamed) in Hi as (_ & _ & ?).
  - destruct Hx as (_ & Ho & [d Hd] & Hno & Hv). rewrite Hdef in Hno. destruct (dns_after c facts Hwf bound Hnum Hnamed Hb Hroom' facts' Hval s d Hd) as [[Hold Huntouched]|[Hf _]].
    + destruct (fst (collectExistingVIPAllocations facts) !! s) as [v|] eqn:Ev.
      * apply (Huntouched (mkChange OpDelete (KeyNetworkDNS s) "" ("vip-remove/" +:+ s)) s); [|done]. right. left. apply vips_some in Ev as [Hs Ev]; [|done]. split_and!; [done|by exists v|done|].
        unfold removeVIP. unfold fieldOf. rewrite existingDNS_lookup, Ho, Hold by done. simpl. rewrite bool_decide_eq_false_2; [right; right; left|]. intros ->. by apply (numbered_names _ _ _ Hnum s).
      * apply (Huntouched (mkChange OpDelete (KeyNetworkDNS s) "" "") s); [|done]. right. right. split_and!; [done|done|by exists d|done|done].
    + apply Hno. by apply (fresh_defined facts Hwf Hnamed) in Hf as (_ & _ & ?).
Qed.


End result.

(** ** Concrete cycles *)

#[local] Existing Instance reference_range.

(** One service has an address, another needs one, and a third is gone. *)
Definition vipFacts : list Fact :=
  [endpointFact "desired/service/api" ""; endpointFact "desired/service/api/expose/80" ""; endpointFact "desired/service/web" ""; endpointFact "desired/service/web/expose/443" "";
   endpointFact "network/dns/old" "10.200.0.7"; endpointFact "network/dns/web" "10.200.0.3";
   endpointFact "network/vip/service/old" "10.200.0.7"; endpointFact "network/vip/service/old/port" "80";
   endpointFact "network/vip/service/web" "10.200.0.3"; endpointFact "network/vip/service/web/port" "443"].

Definition assignedFacts : list Fact :=
  [endpointFact "desired/service/api" ""; endpointFact "desired/service/api/expose/80" ""; endpointFact "desired/service/web" ""; endpointFact "desired/service/web/expose/443" "";
   endpointFact "network/dns/api" "10.200.0.8"; endpointFact "network/dns/web" "10.200.0.3";
   endpointFact "network/vip/service/api" "10.200.0.8"; endpointFact "network/vip/service/api/port" "80";
   endpointFact "network/vip/service/web" "10.200.0.3"; endpointFact "network/vip/service/web/port" "443"].

Lemma vipFacts_wf : facts_wf vipFacts.
Proof. apply sorted_facts_wf. vm_compute. reflexivity. Qed.

Lemma vipFacts_vips s v : noSlash s → vipOf vipFacts s = Some v → s = "old" ∧ v = "10.200.0.7" ∨ s = "web" ∧ v = "10.200.0.3".
Proof.
  intros Hs Hv. pose proof (existingVIPs_lookup vipFacts s vipFacts_wf) as E. unfold noSlash in Hs. rewrite Hs, Hv in E.
  replace (fst (collectExistingVIPAllocations vipFacts)) with ({["old" := "10.200.0.7"; "web" := "10.200.0.3"]} : gmap string string) in E by (apply (bool_decide_unpack _); vm_compute; exact I).
  apply lookup_insert_Some in E as [[<- <-]|[_ [<- <-]%lookup_singleton_Some]]; [by left|by right].
Qed.

Lemma vipFacts_numbered : numbered NewNetworkController vipFacts 7.
Proof.
  split.
  - intros s v Hs [[_ ->]|[_ ->]]%vipFacts_vips; [exists 7|exists 3|done]; (split; [lia|reflexivity]).
  - intros s s' v Hs Hs' [[-> ->]|[-> ->]]%vipFacts_vips [[-> E]|[-> E]]%vipFacts_vips; done.
  - intros path Ho Hd. pose proof (existingDNS_lookup vipFacts path vipFacts_wf) as E. rewrite Ho, Hd in E.
    replace (collectExistingDNSMappings vipFacts) with ({["old" := "10.200.0.7"; "web" := "10.200.0.3"]} : gmap string string) in E by (apply (bool_decide_unpack _); vm_compute; exact I).
    apply lookup_insert_Some in E as [[_ ?]|[_ [_ ?]%lookup_singleton_Some]]; done.
Qed.


(** The pool has 254 addresses, but the octet is not bounded: after 10.200.0.255 a service
    gets an address that does not exist, however few addresses are in use. *)
Lemma vip_pool_unbounded :
  NetworkController_Reconcile NewNetworkController
    [endpointFact "desired/service/api/expose/80" ""; endpointFact "desired/service/web/expose/443" ""; endpointFact "network/vip/service/web" "10.200.0.255"] =
  createVIP "api" "10.200.0.256" 80.
Proof. vm_compute. reflexivity. Qed.
